(* ===== verification/_CoqProject ===== *)
-Q . S2P
Prelude.v
Coding.v
BTree.v
RangeSets.v
SendBuf.v
Assembler.v
ConstrainedWire.v
Arq.v
ConstrainedConn.v
ConstrainedEngine.v
QuicPacket.v
Dedup.v
Spaces.v
AckFrame.v
AckFrequency.v
Cids.v
NatFrames.v
Masque.v
MasqueTunnel.v
MasqueContext.v
Frames.v
Sums.v
StreamSend.v
StreamRecv.v
Datagrams.v
Floats.v
TransportParams.v
Mtud.v
Congestion.v
Paths.v
Recovery.v
RecoveryProofs.v
StreamQueue.v
Streams.v
StreamsSend.v
StreamsRecvProofs.v
StreamsCount.v
StreamsCountOps.v
StreamsSendProofs.v
StreamsTransmit.v
StreamsLimits.v
StreamsSystem.v
Connection.v
StreamsTransfer.v
StreamsNetwork.v
StreamsProperties.v
ConnectionProperties.v
FloatBounds.v
NatSecurity.v
NatTimeouts.v
NatTraversal.v
NatInvariants.v
NatConnection.v
NatProperties.v
NatRelay.v
