(* ===== verification/Prelude.v ===== *)
(** * saorsa-transport: a verification development

    saorsa-transport is a peer-to-peer transport in Rust: an implementation of QUIC
    (RFC 9000) derived from Quinn, extended with NAT traversal, relaying and
    post-quantum handshakes, and beside it a small reliable protocol for constrained
    links such as Bluetooth LE and LoRa.  This library models the data structures and
    state machines at its core and proves what the rest of the program relies on.
    Paths below are relative to [src/src/].

    ** The parts of the program and how they interact

    - Streams.  [StreamsState] holds the halves of all streams of a connection: it opens and
      accepts streams, enforces the flow control limits of both sides, takes what the frames
      of the peer say, and writes STREAM and control frames into packets.
    - Sending.  The application writes to a stream's [SendBuffer]; the connection takes
      ranges of it to transmit, records each packet in its [PacketSpace] under a number
      the [PacketNumberFilter] allocates, and on acknowledgement or loss takes the packet
      out and reports its ranges back to the buffer.  Headers are written and protected by
      [packet.rs].
    - Loss recovery.  [Connection] tracks the packets in flight in three spaces, takes out
      those that are acknowledged, declares others lost by threshold or probe timeout, keeps
      the one timer this needs, and tells the streams, MTU discovery and the congestion
      controller of the path.  How fast it may send is the business of the controller, of the
      pacer and of the limit on unvalidated addresses.
    - The handshake carries transport parameters, from which the limits of the streams and
      the timers of recovery are set.  Datagrams of the application bypass the streams.
    - Receiving.  A datagram is split into packets and the headers are unprotected
      ([packet.rs]); [Dedup] drops replays; [PendingAcks] collects the numbers to
      acknowledge and decides when, under thresholds that [AckFrequencyState] takes from
      the peer's frames; stream data goes to an [Assembler], from which the application
      reads in order or not.
    - Both directions keep sets of offsets and packet numbers as ranges, and address the
      peer with connection identifiers that each side issues ([CidState]) and the other
      collects ([CidQueue]).
    - Relaying.  A node that cannot be reached takes its packets through a relay: over a
      stream that carries datagrams in frames ([MasqueRelaySocket] at the client, the
      forwarding loop of [MasqueRelayServer]), or as datagrams on contexts that client and
      session agree on by capsules.
    - NAT traversal.  Peers announce addresses, which a connection checks, pairs with its own
      and probes with PATH_CHALLENGEs ([NatTraversalState]); over a coordinator, which checks
      and relays PUNCH_ME_NOW frames ([BootstrapCoordinator], [Endpoint]), two peers agree on a
      round in which both probe at once; a path that answers may become the connection's.
    - The constrained protocol stands on its own: [ConstrainedEngine] holds a table of
      [ConstrainedConnection]s, each a state machine with a send and a receive window
      (ARQ), exchanging packets with a five-byte header.

    ** The files

    - [Prelude] (this file): results, fixed-width integers, byte strings, slices, tactics
      and the shared lemmas.
    - [Coding]: [coding.rs] and [varint.rs].  A codec is a pair of functions on the
      remaining input with the round-trip law as a class.
    - [BTree]: the ordered map of the standard library as the sources use it.
    - [RangeSets]: [range_set/].  Modules [ArrayRangeSet] and [RangeSet] have one
      definition per method; the class [RangeSetLaws] states what either promises.
    - [SendBuf]: [connection/send_buffer.rs], and the copy loop of [write_stream_frames] in
      [connection/streams/state.rs].
    - [Assembler]: [connection/assembler.rs].
    - [QuicPacket]: [packet.rs] and the wire form of identifiers in [shared.rs].  The header
      key of [crypto.rs] is a record of operations; the class [HeaderKeyLaws] states what a
      QUIC header protection guarantees.
    - [Dedup], [Spaces]: [connection/spaces.rs].  Modules [Dedup], [PendingAcks],
      [PacketSpace] and [PacketNumberFilter].
    - [AckFrame]: the ACK frame of [frame.rs], which carries the ranges of [PendingAcks] to
      the peer.
    - [AckFrequency]: [connection/ack_frequency.rs].
    - [NatFrames], [Frames]: the other frames of [frame.rs] and
      [frame/nat_traversal_unified.rs], the iterator over a packet's payload, and the
      frames [connection/mod.rs] and [connection/streams/state.rs] write field by field.
    - [StreamSend], [StreamRecv]: the halves of a stream ([connection/streams/send.rs] and
      [recv.rs]) and stream identifiers ([lib.rs]); the class [BytesSource] is the trait of
      what is written.  [StreamQueue]: the queue of streams to transmit
      ([connection/streams/mod.rs]).
    - [Streams], [StreamsSend]: [StreamsState] of [connection/streams/state.rs] with the
      handles [Streams], [RecvStream], [SendStream] ([mod.rs]) and [Chunks] ([recv.rs]), and
      [Retransmits] of [connection/spaces.rs]; the first file has the receiving side and the
      opening and closing of streams, the second the sending side and the frames.
    - [Sums], [StreamsRecvProofs], [StreamsCount], [StreamsCountOps], [StreamsSendProofs],
      [StreamsTransmit], [StreamsLimits]: the invariants of [StreamsState] and the lemma of
      each operation, by concern.
    - [StreamsSystem]: all operations as one transition system.  [StreamsTransfer] and
      [StreamsNetwork]: what was read against what the peer wrote, and two endpoints.
      [StreamsProperties]: the theorems about one endpoint.
    - [Datagrams]: [connection/datagrams.rs].  [TransportParams]: [transport_parameters.rs].
    - [Floats]: the binary floating point of the standard library that the sources use, over
      [SpecFloat]: rounding, comparison and conversion of durations and integers.
    - [Mtud]: [connection/mtud.rs].  [Congestion]: the trait of [congestion.rs] as the class
      [Controller] with its laws [ControllerLaws], of which [NewReno] and [Cubic] are
      instances, and the round-trip estimator of [connection/paths.rs].  [Paths]: the pacer
      ([connection/pacing.rs]), path responses, observed addresses and the path itself
      ([connection/paths.rs]).
    - [Recovery]: the loss recovery of [connection/mod.rs] and what [packet_builder.rs]
      records of a packet, over the class [Delivery] of what carries frames, which
      [Connection] discharges with the streams.  [RecoveryProofs]: its invariant, with the
      laws of a [Delivery], and the lemma of each operation.
    - [Connection]: streams and recovery as one transition system, from the parameters of the
      handshake on; [ConnectionProperties]: the theorems about it.
    - [Cids]: [cid_queue.rs] (module [CidQueue]) and [connection/cid_state.rs] (module
      [CidState]).
    - [Masque]: the capsules, datagrams and control frames of [masque/].  [MasqueTunnel]: the
      virtual socket ([masque/relay_socket.rs], module [RelaySocket]), the forwarding loop
      ([masque/relay_server.rs]) and both with the stream between them (module [Tunnel]).
      [MasqueContext]: the context table ([masque/context.rs], module [Context]), a session
      at the relay ([relay_session.rs], [Session]), the client ([relay_client.rs], [Client]),
      and the two together ([Relaying]).
    - [NatSecurity]: the checks of addresses and frames and the coordinator of
      [connection/nat_traversal.rs] (modules [Security], [Bootstrap] and, as a transition
      system, [Coordinator]), the prediction of ports ([connection/port_prediction.rs]) and the
      forms of a socket address ([shared.rs], module [Net]).  [NatTimeouts]: the adaptive
      timeouts, the monitor of the network and the resource limits, in the floating point of
      [Floats]; [FloatBounds]: bounds on the results of its operations.  [NatTraversal]: the
      rest of [connection/nat_traversal.rs].  [NatInvariants]: its invariant and the lemma of
      each operation.
    - [NatConnection]: what [connection/mod.rs] does with it on frames, polls, timeouts and
      calls (module [NatConnection]), and the relaying of [endpoint.rs] ([EndpointRelay]).
      [NatProperties]: all of a connection's events as histories, and the theorems about them;
      [NatRelay]: the way of a PUNCH_ME_NOW frame from peer to peer.
    - [ConstrainedWire]: [constrained/types.rs], [header.rs] and [state.rs]; [Arq]:
      [constrained/arq.rs]; [ConstrainedConn]: [constrained/connection.rs];
      [ConstrainedEngine]: [constrained/engine.rs].

    ** How code becomes definitions

    A struct is a record with the source's fields, an enum an inductive type, a method that
    takes [&mut self] a function from the state to its result and the new state.  [Result]
    is [result]; a panic (a failed assertion, an [unwrap] of nothing, an index out of range)
    is [None] where a method can panic.  Arithmetic is that of a release build: an unchecked
    operator wraps, and is written with [wrapping_add], [wrapping_sub] or [wrap] where it
    could; the checked and saturating methods are those of the same names.  An integer of [w]
    bits is a [Z] with [is_u w].  Bytes are numbers below 256.  [Instant]s and [Duration]s
    are nanoseconds and the current time is an argument.  A [BTreeMap] is a list in key order,
    a [HashMap] a [gmap], a hash set a [gset], a [BinaryHeap] a sorted list, a [VecDeque] or
    [Vec] a list.  Logging is left out.

    What is not code of this program is an argument: the operations of a header key, the
    numbers a random generator draws, the floating-point smoothing of a round-trip time
    (the record [Smoothing] of [Arq]), the comparison of two durations in
    [should_send_ack_frequency], the cube root and the cube of a double in [Cubic], and the
    order in which a hash set is iterated.  For NAT traversal the record [Env] holds what is
    open at each call (the order of hash maps, the order of equals in an unstable sort, random
    numbers), and the class [EnvOk] what the standard library promises of it.

    ** What the theorems show

    - Codecs: encoding and decoding are inverse ([varint_roundtrip],
      [constrained_packet_roundtrip], [packet_number_roundtrip],
      [protected_packet_roundtrip], [unprotected_packet_roundtrip],
      [ack_frame_roundtrip]), decoding fails exactly on the inputs it should
      ([varint_decode_spec]), and an accepted ACK frame is safe to walk
      ([ack_decode_safe]).
    - Frames: a payload decodes to the frames it was built from ([payload_roundtrip]);
      decoding any payload ends ([payload_iteration_terminates]) and yields only well-formed
      frames ([received_frames_typed]); frames fit the room made for them
      ([frame_size_bounds]).
    - Range sets: both implementations refine an abstract set of integers and so agree on
      every sequence of operations ([range_set_refines], [range_sets_agree]); [replace]
      reports the overlap ([range_set_replace]).
    - Streams: two endpoints deliver to each reader a prefix of what the peer wrote, and all
      of it when the stream ends ([stream_transfer]); no operation panics
      ([streams_never_panic]), no byte or FIN is forgotten ([nothing_forgotten]), the limits
      of both sides are respected ([receive_flow_control],
      [stream_receive_window_respected], [send_flow_control]), the counters are exact
      ([stream_counts_exact]), packets are filled as well as they may
      ([stream_frames_packed]), writes take what they may ([write_exact]) and streams take
      turns by priority ([queue_refines]).  The examples at the end of [StreamsProperties]
      are executions in which the code departs from its comments or from RFC 9000.
    - The connection: it never panics ([connection_never_panics]); the bytes and packets in
      flight are those of the packets tracked ([in_flight_exact]); an ACK frame settles just
      the packets it covers and those then lost ([ack_settles_exactly], [losses_exact]); the
      timer is set while packets are in flight ([loss_timer_armed]); and through all of this
      no byte written is forgotten ([connection_forgets_nothing]).
    - Its parts: transport parameters round trip and are refused as they should be
      ([transport_parameters_roundtrip], [transport_parameters_total],
      [repeated_parameter_malformed], [own_parameters_accepted]); the search for the MTU stays
      in bounds, ends close to the path's size and recovers from black holes
      ([mtu_within_bounds], [mtu_search_converges], [black_hole_found]); congestion windows
      stay open ([congestion_window_open]) and round-trip estimates within the samples
      ([rtt_within_samples]); the pacer keeps to its rate and its promises
      ([pacer_rate_bound], [pacer_delay_suffices]); datagram queues are accounted for and
      fail as documented ([datagram_accounting], [datagram_errors]).
    - Stream buffers: the send buffer keeps every byte in exactly one place until it is
      acknowledged and transmits only such bytes ([send_buffer_partition],
      [send_buffer_transmit], [send_buffer_counts]); the assembler delivers the peer's
      stream in order ([assembler_ordered_delivery], [assembler_ordered_progress]) and,
      unordered, each byte at most once under stated conditions
      ([assembler_unordered_once]).  Two examples show these conditions are needed
      ([assembler_switch_duplicates], [assembler_empty_frame_duplicates]).
    - Packet numbers: duplicates and gaps are found exactly within the window
      ([dedup_exact], [dedup_gap_exact]); acknowledgements cover only packets received, are
      sent when due and never forgotten ([pending_acks_sound], [immediate_ack_exact],
      [ack_not_forgotten]); what is in flight is accounted for
      ([packet_space_accounting]); skipped numbers never hurt an honest peer
      ([filter_sound]); ECN reports are validated as described ([detect_ecn_exact]); late
      ACK_FREQUENCY frames have no effect ([ack_frequency_latest]).
    - Identifiers: the queue is a map with a moving lower bound ([cid_queue_insert],
      [cid_queue_next]) that forgets nothing silently ([cid_retirement_reported]); the
      issuing side asks for retirement as RFC 9000 wants ([cid_state_timeout]).
    - The constrained protocol: its windows deliver in order and once over a network that
      loses, repeats and reorders ([arq_reliable], [arq_progress]); its state machine and
      engine are robust against any input ([constrained_state_machine], [engine_robust]);
      the handshake completes ([engine_handshake]).  Two examples show how the connection
      layer loses data over the windows ([responder_first_message_lost],
      [spurious_ack_loses_data]).
    - NAT traversal: challenges go only to addresses that passed the checks or to targets the
      peer asked to punch to ([probes_checked]); nothing is valid or becomes the path without a
      response from its own address to its own challenge ([validated_answered]); nothing panics
      and timeouts stay between their bounds ([nat_never_panics]); validations end
      ([validation_lifetime]).  A coordinator relays only frames that passed its checks, and at
      a bounded rate ([coordinator_relays_checked]); what it relays reaches the peer it is for
      ([punch_delivered]).  The examples at the end of [NatProperties] are executions in which
      the code departs from its comments or its purpose.
    - Relaying: the tunnel loses, repeats, reorders and alters nothing
      ([relay_tunnel_reliable]), can always be drained ([relay_tunnel_drains]) and refuses
      packets only as documented ([relay_send_outcomes]); client and relay agree on contexts
      ([relay_context_agreement], [relay_create_outcomes]); capsules round trip
      ([capsule_roundtrip]); a session keeps to its bandwidth ([relay_bandwidth_bound]).

    The reachable states are those of explicit systems: the component's operations as
    events, in any order the callers can produce, with ghost state for what the environment
    knows (the peer's stream, the packets received, the ranges in flight, the packets on the
    network).  Each file says which calls its events stand for and what it assumes of the
    arguments.

    ** Fuel

    Recursion is structural on the data wherever the loop consumes it.  The other loops
    take fuel, and it is enough because each round takes something out of a collection
    whose size bounds the fuel: an entry of the map in [RangeSet] ([absorb_spec],
    [remove_after_spec] and [replace_iter_spec] show the result does not depend on more),
    an acknowledged range in [ack_loop] of [SendBuf], a buffered chunk in [read_loop] of
    [Assembler], a buffered packet in [drain] of [Arq], at least a byte of the message in
    [chunks] of [ConstrainedConn], a byte of the input in the loops of [AckFrame].
    [send_buffer_partition], [assembler_ordered_progress] and [arq_progress] would fail if
    a loop stopped short. The copy loop of [SendBuf]
    answers [None] while it is still running, and [send_buffer_transmit] shows that as many
    rounds as there are bytes complete it.  The iterator over a payload takes a byte in each
    round ([payload_iteration_terminates]).  Each round of [write_stream_frames] takes an
    entry out of the queue or fills at least two bytes of the packet
    ([write_stream_loop_spec]); the loops of [write_control_frames] and [poll] take an entry
    out of a queue; a write takes at least a byte of its source in all rounds but the last
    ([write_spec]).  [chunks] of [MasqueTunnel] takes at least a byte in each round
    ([chunks_concat]).

    ** What is not modelled

    Of the connection, migration to another path, the handshake, and the queues of frames
    that are not about streams are left out: [Connection] takes the size of a packet and the
    retransmittable frames in it as given.  Of relaying, the admission of
    sessions and the reservation of ports are left out.  Of NAT traversal, helpers that nothing
    calls ([schedule_validation_retries], [update_network_conditions],
    [should_retry_coordination]), TRY_CONNECT_TO and the asynchronous API are left out; the
    histories of [NatProperties] bound the clock by 2^63 nanoseconds.  [StreamsSystem] starts after the handshake: [zero_rtt_rejected] and
    [retransmit_all_for_0rtt] are defined and not among its operations, and reads are in
    order.  BBR and the relay's rate limiter are not modelled.  The TLS handshake and the
    post-quantum schemes are calls into other libraries.  Sockets, tasks, operating system interfaces, logging and the user interface
    have no model. *)
From Stdlib Require Export ZArith Lia.
From stdpp Require Export base tactics decidable numbers option list.

#[global] Open Scope Z_scope.

(** ** Notations of the development *)

Declare Scope saorsa_scope.
Delimit Scope saorsa_scope with saorsa.
#[global] Open Scope saorsa_scope.

(** Rust's [Result<A, E>]. *)
Inductive result (A E : Type) : Type :=
| Ok (a : A)
| Err (e : E).
Arguments Ok {A E} a.
Arguments Err {A E} e.

(** The [?] operator: run [e], return early on an error. *)
Notation "'let?' p ':=' e 'in' k" :=
  (match e with Ok p => k | Err err => Err err end)
  (at level 10, p strict pattern, e at level 100, k at level 200,
   format "'[v' 'let?'  p  ':='  e  'in' '/' k ']'") : saorsa_scope.

(** [let-else] on an [Option], returning [d] from the enclosing function. *)
Notation "'let!' p ':=' e 'else' d 'in' k" :=
  (match e with Some p => k | None => d end)
  (at level 10, p strict pattern, e at level 100, d at level 100, k at level 200) : saorsa_scope.

Definition map_err {A E F} (f : E → F) (r : result A E) : result A F :=
  match r with Ok a => Ok a | Err e => Err (f e) end.

Definition ok_or {A E} (o : option A) (e : E) : result A E :=
  match o with Some a => Ok a | None => Err e end.

Definition is_ok {A E} (r : result A E) : bool :=
  match r with Ok _ => true | Err _ => false end.

(** *** Record update

    [r <| f := v |>] is [r] with the field [f] replaced, the assignment [r.f = v].  A record
    that wants it says how it is rebuilt from its fields ([Settable]); the setter of a field
    is then found by abstracting the field from that expression. *)

Class Settable (R : Type) := eta_expand : R → R.
Class Setter {R E : Type} (getter : R → E) := set_field : (E → E) → R → R.

Ltac make_setter :=
  lazymatch goal with
  | |- @Setter ?R ?E ?getter =>
    let inst := constr:(_ : Settable R) in
    refine (λ (f : E → E) (r : R), ltac:(
      let i := eval red in inst in
      let b := eval cbv beta in (i r) in
      let p := eval pattern (getter r) in b in
      lazymatch p with ?k _ => let t := eval cbv beta in (k (f (getter r))) in exact t end))
  end.

#[export] Hint Extern 1 (Setter _) => make_setter : typeclass_instances.

Notation "r <| f := v |>" := (set_field (getter := f) (λ _, v) r)
  (at level 1, left associativity, f at level 1, v at level 99, format "r  <| f  :=  v |>") : saorsa_scope.

(** [Vec::pop]: the last element and the rest. *)
Fixpoint vec_pop {A} (l : list A) : option (A * list A) :=
  match l with
  | [] => None
  | x :: l' => match vec_pop l' with None => Some (x, []) | Some (y, l'') => Some (y, x :: l'') end
  end.

(** ** Fixed-width unsigned arithmetic

    A [w]-bit integer is a [Z] in [0, 2^w); the operations below are the ones
    of Rust's unsigned integer types that the sources call by name, and the
    wrap-around of an unchecked operator in a release build. *)

Definition is_u (w z : Z) : Prop := 0 ≤ z < 2 ^ w.
Definition is_u_b (w z : Z) : bool := (0 <=? z) && (z <? 2 ^ w).
Definition u_max (w : Z) : Z := 2 ^ w - 1.
Definition wrap (w z : Z) : Z := z mod 2 ^ w.
Definition wrapping_add (w a b : Z) : Z := wrap w (a + b).
Definition wrapping_sub (w a b : Z) : Z := wrap w (a - b).
Definition saturating_sub (a b : Z) : Z := Z.max 0 (a - b).
Definition saturating_add (w a b : Z) : Z := Z.min (u_max w) (a + b).
Definition checked_sub (a b : Z) : option Z := if a <? b then None else Some (a - b).
Definition checked_add (w a b : Z) : option Z :=
  if a + b <=? u_max w then Some (a + b) else None.

(** Reading the low [w] bits as a two's complement number ([as i8]). *)
Definition to_signed (w z : Z) : Z :=
  let u := wrap w z in if u <? 2 ^ (w - 1) then u else u - 2 ^ w.

(** The length of a slice as a machine integer. *)
Definition zlen {A} (l : list A) : Z := Z.of_nat (length l).

(** ** Tactics *)

(** Case split on the scrutinee of the first [match] of the goal. *)
Ltac case_goal :=
  match goal with
  | |- context [match ?x with _ => _ end] => destruct x eqn:?
  end.

(** The same for a hypothesis. *)
Ltac case_hyp H :=
  match type of H with
  | context [match ?x with _ => _ end] => destruct x eqn:?
  end.

(** Boolean comparisons in the context become propositions. *)
Ltac zbool :=
  repeat match goal with
  | H : (_ && _)%bool = true |- _ => apply andb_true_iff in H as [? ?]
  | H : (_ || _)%bool = false |- _ => apply orb_false_iff in H as [? ?]
  | H : (_ && _)%bool = false |- _ => apply andb_false_iff in H
  | H : (_ || _)%bool = true |- _ => apply orb_true_iff in H
  | H : negb _ = true |- _ => apply negb_true_iff in H
  | H : negb _ = false |- _ => apply negb_false_iff in H
  | H : (_ <? _) = true |- _ => apply Z.ltb_lt in H
  | H : (_ <? _) = false |- _ => apply Z.ltb_ge in H
  | H : (_ <=? _) = true |- _ => apply Z.leb_le in H
  | H : (_ <=? _) = false |- _ => apply Z.leb_gt in H
  | H : (_ =? _) = true |- _ => apply Z.eqb_eq in H
  | H : (_ =? _) = false |- _ => apply Z.eqb_neq in H
  | H : (_ >? _) = true |- _ => rewrite Z.gtb_ltb in H
  | H : (_ >? _) = false |- _ => rewrite Z.gtb_ltb in H
  | H : (_ >=? _) = true |- _ => rewrite Z.geb_leb in H
  | H : (_ >=? _) = false |- _ => rewrite Z.geb_leb in H
  end.

(** Split every [if] or [match] of the goal and close what arithmetic closes. *)
Ltac crush :=
  repeat (case_goal; zbool; simplify_eq/=; try lia).

(** ** Shared lemmas *)

Create HintDb saorsa.
Create Rewrite HintDb saorsa.

Lemma wrap_small w z : is_u w z → wrap w z = z.
Proof. unfold is_u, wrap. intros. by apply Z.mod_small. Qed.

Lemma wrap_bound w z : 0 ≤ w → is_u w (wrap w z).
Proof. intros. apply Z.mod_pos_bound. by apply Z.pow_pos_nonneg. Qed.

Lemma checked_sub_Some a b d : checked_sub a b = Some d ↔ b ≤ a ∧ d = a - b.
Proof. unfold checked_sub. destruct (Z.ltb_spec a b); split; intros; simplify_eq; try done; try lia; destruct_and?; subst; try done; lia. Qed.

Lemma checked_sub_None a b : checked_sub a b = None ↔ a < b.
Proof. unfold checked_sub. destruct (Z.ltb_spec a b); split; intros; simplify_eq; try done; try lia; destruct_and?; subst; try done; lia. Qed.

Lemma is_u_b_spec w z : is_u_b w z = true ↔ is_u w z.
Proof. unfold is_u_b, is_u. rewrite andb_true_iff, Z.leb_le, Z.ltb_lt. done. Qed.

#[export] Instance is_u_dec w z : Decision (is_u w z).
Proof. unfold is_u. apply _. Defined.

Lemma zlen_nonneg {A} (l : list A) : 0 ≤ zlen l.
Proof. unfold zlen. lia. Qed.

Lemma zlen_nil {A} : zlen (@nil A) = 0.
Proof. done. Qed.

Lemma zlen_cons {A} (x : A) l : zlen (x :: l) = 1 + zlen l.
Proof. unfold zlen. simpl. lia. Qed.

Lemma zlen_app {A} (l k : list A) : zlen (l ++ k) = zlen l + zlen k.
Proof. unfold zlen. rewrite length_app. lia. Qed.

#[export] Hint Rewrite @zlen_nil @zlen_cons @zlen_app : saorsa.
#[export] Hint Resolve zlen_nonneg wrap_bound : saorsa.

(** *** Slices: Rust's [&s[a..b]], [split_to], [advance] on byte buffers *)

Definition ztake {A} (n : Z) (l : list A) : list A := take (Z.to_nat n) l.
Definition zdrop {A} (n : Z) (l : list A) : list A := drop (Z.to_nat n) l.

Lemma ztake_zdrop {A} n (l : list A) : ztake n l ++ zdrop n l = l.
Proof. apply take_drop. Qed.

Lemma zlen_ztake {A} n (l : list A) : 0 ≤ n ≤ zlen l → zlen (ztake n l) = n.
Proof. unfold zlen, ztake. intros. rewrite length_take. lia. Qed.

Lemma zlen_zdrop {A} n (l : list A) : 0 ≤ n ≤ zlen l → zlen (zdrop n l) = zlen l - n.
Proof. unfold zlen, zdrop. intros. rewrite length_drop. lia. Qed.

(** ** Big-endian byte strings

    A byte is a [Z] in [0, 256), a buffer a list of bytes. *)

Definition is_byte (b : Z) : Prop := is_u 8 b.
Definition bytes_ok (l : list Z) : Prop := Forall is_byte l.

Fixpoint be_encode (n : nat) (z : Z) : list Z :=
  match n with
  | O => []
  | S k => wrap 8 (Z.shiftr z (8 * Z.of_nat k)) :: be_encode k z
  end.

Definition be_decode (l : list Z) : Z := fold_left (λ acc b, acc * 256 + b) l 0.

Lemma length_be_encode n z : length (be_encode n z) = n.
Proof. induction n; simpl; congruence. Qed.

Lemma be_encode_ok n z : bytes_ok (be_encode n z).
Proof. induction n; constructor; [by apply wrap_bound | done]. Qed.

Lemma be_decode_encode_acc n z acc :
  fold_left (λ acc b, acc * 256 + b) (be_encode n z) acc
  = acc * 256 ^ Z.of_nat n + z mod 256 ^ Z.of_nat n.
Proof.
  revert acc. induction n as [|k IH]; intros acc.
  - simpl. rewrite Z.mod_1_r. lia.
  - cbn [be_encode fold_left]. rewrite IH.
    rewrite Nat2Z.inj_succ, Z.pow_succ_r by lia.
    rewrite (Z.mul_comm 256 (256 ^ _)).
    rewrite Z.rem_mul_r by lia.
    unfold wrap. rewrite Z.shiftr_div_pow2 by lia.
    replace (2 ^ (8 * Z.of_nat k)) with (256 ^ Z.of_nat k)
      by (rewrite Z.pow_mul_r by lia; done).
    change (2 ^ 8) with 256. ring.
Qed.

Lemma be_decode_encode n z : is_u (8 * Z.of_nat n) z → be_decode (be_encode n z) = z.
Proof.
  intros Hz. unfold be_decode. rewrite be_decode_encode_acc. simpl.
  apply Z.mod_small. unfold is_u in Hz.
  rewrite Z.pow_mul_r in Hz by lia. done.
Qed.

Lemma be_decode_snoc l b : be_decode (l ++ [b]) = be_decode l * 256 + b.
Proof. unfold be_decode. by rewrite fold_left_app. Qed.

Lemma be_decode_bound l : bytes_ok l → is_u (8 * zlen l) (be_decode l).
Proof.
  induction l as [|b l IH] using rev_ind; intros Hl.
  - done.
  - apply Forall_app in Hl as [Hl Hb]. rewrite Forall_singleton in Hb.
    specialize (IH Hl). unfold is_byte, is_u in *. rewrite be_decode_snoc.
    replace (8 * zlen (l ++ [b])) with (8 * zlen l + 8)
      by (rewrite zlen_app; unfold zlen; simpl; lia).
    rewrite Z.pow_add_r by (pose proof (zlen_nonneg l); lia).
    change (2 ^ 8) with 256. destruct Hb as [Hb0 Hb1]. change (2 ^ 8) with 256 in Hb1.
    generalize dependent (2 ^ (8 * zlen l)). intros. lia.
Qed.

Lemma be_encode_snoc n z : be_encode (S n) z = be_encode n (z / 256) ++ [wrap 8 z].
Proof.
  induction n as [|n IH]; [simpl; by rewrite Z.shiftr_0_r|].
  change (be_encode (S (S n)) z) with (wrap 8 (Z.shiftr z (8 * Z.of_nat (S n))) :: be_encode (S n) z).
  rewrite IH. cbn [be_encode app]. f_equal. f_equal.
  rewrite !Z.shiftr_div_pow2 by lia. change 256 with (2 ^ 8).
  rewrite Zdiv_Zdiv by lia. rewrite <-Z.pow_add_r by lia. do 2 f_equal. lia.
Qed.

Lemma be_encode_decode l : bytes_ok l → be_encode (length l) (be_decode l) = l.
Proof.
  induction l as [|b l IH] using rev_ind; intros Hl; [done|].
  apply Forall_app in Hl as [Hl Hb]. rewrite Forall_singleton in Hb.
  unfold is_byte, is_u in Hb. change (2 ^ 8) with 256 in Hb.
  rewrite length_app, Nat.add_1_r, be_encode_snoc, be_decode_snoc.
  rewrite Z.div_add_l by lia. rewrite Z.div_small, Z.add_0_r, IH by done || lia.
  unfold wrap. change (2 ^ 8) with 256. by rewrite Z.add_comm, Z_mod_plus_full, Z.mod_small by lia.
Qed.

(** Only the low bytes are written. *)
Lemma be_encode_mod n z : be_encode n z = be_encode n (z mod 2 ^ (8 * Z.of_nat n)).
Proof.
  rewrite <-(be_encode_decode (be_encode n z)) at 1 by apply be_encode_ok.
  rewrite length_be_encode. unfold be_decode. rewrite be_decode_encode_acc.
  rewrite Z.mul_0_l, Z.add_0_l. f_equal. f_equal. rewrite Z.pow_mul_r by lia. done.
Qed.

(** ** Bit fields *)

(** A field [x] below bit [n] and a tag above it do not overlap. *)
Lemma lor_shiftl_add t x n : is_u n x → 0 ≤ n → Z.lor (Z.shiftl t n) x = t * 2 ^ n + x.
Proof.
  intros Hx Hn. rewrite <- Z.add_nocarry_lor.
  - by rewrite Z.shiftl_mul_pow2 by lia.
  - apply Z.bits_inj'. intros i Hi. rewrite Z.land_spec, Z.bits_0.
    destruct (Z.ltb_spec i n).
    + rewrite Z.shiftl_spec_low by lia. done.
    + destruct (decide (x = 0)) as [->|]; [by rewrite Z.bits_0, andb_false_r|].
      unfold is_u in Hx. rewrite (Z.bits_above_log2 x i), andb_false_r; [done | lia |].
      apply Z.lt_le_trans with n; [|lia]. apply Z.log2_lt_pow2; lia.
Qed.

Lemma land_low_bits a n : 0 ≤ n → Z.land a (2 ^ n - 1) = a mod 2 ^ n.
Proof. intros. rewrite <- Z.land_ones by lia. f_equal. rewrite Z.ones_equiv. lia. Qed.

Lemma div_mul_add_small t x m : 0 ≤ x < m → (t * m + x) / m = t.
Proof. intros. rewrite Z.div_add_l by lia. rewrite Z.div_small by lia. lia. Qed.

Lemma mod_mul_add_small t x m : 0 ≤ x < m → (t * m + x) mod m = x.
Proof. intros. rewrite Z.add_comm, Z_mod_plus_full. by apply Z.mod_small. Qed.

(** ** Truth values as numbers, parts of lists *)

Lemma b2z_orb_disj a b : (a = true → b = true → False) → Z.b2z (a || b) = Z.b2z a + Z.b2z b.
Proof. destruct a, b; simpl; naive_solver. Qed.

Lemma b2z_bounds a : 0 ≤ Z.b2z a ≤ 1.
Proof. destruct a; simpl; lia. Qed.

Lemma bool_eq_iff (a b : bool) : (a = true ↔ b = true) → a = b.
Proof. destruct a, b; naive_solver. Qed.

Lemma zdrop_zdrop {A} n m (l : list A) : 0 ≤ n → 0 ≤ m → zdrop n (zdrop m l) = zdrop (m + n) l.
Proof. intros. unfold zdrop. rewrite drop_drop, Z2Nat.inj_add by lia. done. Qed.

Lemma zdrop_app_le {A} n (l k : list A) : n ≤ zlen l → zdrop n (l ++ k) = zdrop n l ++ k.
Proof. intros. unfold zdrop, zlen in *. rewrite drop_app_le by lia. done. Qed.

Lemma zdrop_app_ge {A} n (l k : list A) : zlen l ≤ n → zdrop n (l ++ k) = zdrop (n - zlen l) k.
Proof. intros. unfold zdrop, zlen in *. rewrite drop_app_ge by lia. f_equal. lia. Qed.

Lemma vec_pop_None {A} (l : list A) : vec_pop l = None ↔ l = [].
Proof. destruct l as [|x l]; simpl; [done |]. destruct (vec_pop l) as [[y l'] |]; done. Qed.

Lemma vec_pop_Some {A} (l k : list A) x : vec_pop l = Some (x, k) ↔ l = k ++ [x].
Proof.
  revert k x. induction l as [|y l IH]; intros k x; simpl.
  - split; [done | by destruct k].
  - destruct (vec_pop l) as [[z l'] |] eqn:E.
    + split; intros H; simplify_eq/=; [by rewrite (proj1 (IH l' x) eq_refl) |].
      destruct k as [|w k]; simplify_eq/=.
      pose proof (proj2 (IH k x) eq_refl). by simplify_eq.
    + apply vec_pop_None in E as ->. split; intros H; [by simplify_eq/= |].
      destruct k as [|w [|]]; by simplify_eq/=.
Qed.

Lemma ztake_app_zlen {A} n (l k : list A) : n = zlen l → ztake n (l ++ k) = l.
Proof. intros ->. unfold ztake, zlen. by rewrite Nat2Z.id, take_app_length. Qed.

Lemma zdrop_app_zlen {A} n (l k : list A) : n = zlen l → zdrop n (l ++ k) = k.
Proof. intros ->. unfold zdrop, zlen. by rewrite Nat2Z.id, drop_app_length. Qed.

Lemma ztake_all {A} n (l : list A) : zlen l ≤ n → ztake n l = l.
Proof. intros. unfold ztake, zlen in *. apply take_ge. lia. Qed.

Lemma zdrop_all {A} n (l : list A) : zlen l ≤ n → zdrop n l = [].
Proof. intros. unfold zdrop, zlen in *. apply drop_ge. lia. Qed.

Lemma ztake_app_le {A} n (l k : list A) : n ≤ zlen l → ztake n (l ++ k) = ztake n l.
Proof. intros. unfold ztake, zlen in *. apply take_app_le. lia. Qed.

Lemma zdrop_0 {A} (l : list A) : zdrop 0 l = l.
Proof. done. Qed.

Lemma zdrop_nonpos {A} n (l : list A) : n ≤ 0 → zdrop n l = l.
Proof. intros. unfold zdrop. by replace (Z.to_nat n) with 0%nat by lia. Qed.

Lemma forallb_Forall {A} (f : A → bool) (P : A → Prop) l : (∀ x, f x = true → P x) → forallb f l = true → Forall P l.
Proof. intros Hf. induction l as [|x l IH]; simpl; [done |]. intros [? ?]%andb_true_iff. constructor; auto. Qed.

Definition slice {A} (d : list A) (r : Z * Z) : list A := ztake (r.2 - r.1) (zdrop r.1 d).

Lemma slice_cut {A} (d : list A) a b c : 0 ≤ a → a ≤ b → b ≤ c → c ≤ zlen d →
  slice d (a, b) ++ slice d (b, c) = slice d (a, c).
Proof.
  intros. unfold slice, ztake, zdrop, zlen in *. simpl.
  rewrite <-(take_drop (Z.to_nat (b - a)) (take (Z.to_nat (c - a)) _)).
  rewrite take_take, skipn_firstn_comm, drop_drop. f_equal; f_equal; try f_equal; lia.
Qed.

Lemma zlen_slice {A} (d : list A) r : 0 ≤ r.1 → r.1 ≤ r.2 → r.2 ≤ zlen d → zlen (slice d r) = r.2 - r.1.
Proof. intros. unfold slice. rewrite zlen_ztake; [done|]. rewrite zlen_zdrop; lia. Qed.

Lemma slice_app_l {A} (d k : list A) r : 0 ≤ r.1 → r.2 ≤ zlen d → slice (d ++ k) r = slice d r.
Proof.
  intros. unfold slice, ztake, zdrop, zlen in *.
  destruct (decide (Z.to_nat r.1 ≤ length d)%nat).
  - rewrite drop_app_le, take_app_le by (rewrite ?length_drop; lia). done.
  - replace (Z.to_nat (r.2 - r.1)) with 0%nat by lia. done.
Qed.

Lemma slice_app_r {A} (d k : list A) a b : zlen d ≤ a → slice (d ++ k) (a, b) = slice k (a - zlen d, b - zlen d).
Proof.
  intros. unfold slice. simpl. rewrite zdrop_app_ge by lia. f_equal. lia.
Qed.

Lemma slice_zdrop {A} (d : list A) n a b : 0 ≤ n → 0 ≤ a → slice (zdrop n d) (a, b) = slice d (n + a, n + b).
Proof. intros. unfold slice. simpl. rewrite zdrop_zdrop by lia. f_equal. lia. Qed.

Lemma ztake_slice {A} (d : list A) n a b : 0 ≤ n ≤ b - a → ztake n (slice d (a, b)) = slice d (a, a + n).
Proof.
  intros. unfold slice, ztake. simpl. rewrite take_take. f_equal. lia.
Qed.

Lemma zdrop_slice {A} (d : list A) n a b : 0 ≤ a → 0 ≤ n ≤ b - a →
  zdrop n (slice d (a, b)) = slice d (a + n, b).
Proof.
  intros. unfold slice, ztake, zdrop. simpl. rewrite skipn_firstn_comm, drop_drop.
  f_equal; [lia|]. f_equal. lia.
Qed.

(** [bytes] are the bytes of [d] at [o]. *)
Definition holds {A} (d : list A) (o : Z) (bytes : list A) : Prop :=
  0 ≤ o ∧ o + zlen bytes ≤ zlen d ∧ bytes = slice d (o, o + zlen bytes).

Lemma ztake_holds {A} (d : list A) o bytes : holds d o bytes → ztake o d ++ bytes = ztake (o + zlen bytes) d.
Proof.
  intros (? & ? & Hb). pose proof (zlen_nonneg bytes). pose proof (slice_cut d 0 o (o + zlen bytes)) as Hcut.
  unfold slice in Hcut at 1 3. cbn [fst snd] in Hcut. rewrite !Z.sub_0_r, !zdrop_0 in Hcut.
  rewrite <- Hcut by lia. by rewrite <- Hb.
Qed.

Lemma holds_slice {A} (d : list A) a b : 0 ≤ a → a ≤ b → b ≤ zlen d → holds d a (slice d (a, b)).
Proof.
  intros. unfold holds. rewrite zlen_slice by (simpl; lia). cbn [fst snd].
  replace (a + (b - a)) with b by lia. done.
Qed.

Lemma holds_ztake {A} (d : list A) o bs n : holds d o bs → 0 ≤ n ≤ zlen bs → holds d o (ztake n bs).
Proof.
  intros (? & ? & Hbs) Hn. rewrite Hbs, ztake_slice by lia. apply holds_slice; lia.
Qed.

Lemma holds_zdrop {A} (d : list A) o bs n : holds d o bs → 0 ≤ n ≤ zlen bs →
  holds d (o + n) (zdrop n bs).
Proof.
  intros (? & ? & Hbs) Hn. rewrite Hbs, zdrop_slice by lia. apply holds_slice; lia.
Qed.

Lemma holds_app {A} (d : list A) o bs cs : holds d o bs → holds d (o + zlen bs) cs →
  holds d o (bs ++ cs).
Proof.
  intros (? & ? & Hbs) (? & ? & Hcs). unfold holds. rewrite zlen_app.
  pose proof (zlen_nonneg bs). pose proof (zlen_nonneg cs).
  split; [done|]. split; [lia|]. rewrite Hbs at 1. rewrite Hcs at 1.
  rewrite slice_cut by lia. f_equal. f_equal. lia.
Qed.
