(* ===== verification/Coding.v ===== *)
(** * Primitive codecs

    Models [src/coding.rs] (the [Codec] trait, its fixed-width and address
    instances, [BufExt]/[BufMutExt]) and [src/varint.rs] ([VarInt], the QUIC
    variable-length integer).

    A [Buf] being read is the list of its remaining bytes; decoding returns the
    value and the bytes left.  A [BufMut] being written is the list of bytes the
    call appends. *)

From S2P Require Import Prelude.

(** [coding::UnexpectedEnd] and [varint::VarIntBoundsExceeded]. *)
Inductive UnexpectedEnd := unexpected_end.
Inductive VarIntBoundsExceeded := varint_bounds_exceeded.

(** ** The trait *)

Record Codec (A : Type) : Type := mk_codec {
  decode : list Z → result (A * list Z) UnexpectedEnd;
  encode : A → list Z;
}.
Arguments mk_codec {A} _ _.
Arguments decode {A} _ _.
Arguments encode {A} _ _.

(** What the rest of the code relies on: reading back what was written gives the
    value and leaves the rest of the buffer alone, and a successful read yields a
    value in range and consumes a non-empty prefix of the buffer. *)
Class CodecLaws {A} (C : Codec A) (wf : A → Prop) : Prop := {
  codec_roundtrip x rest : wf x → decode C (encode C x ++ rest) = Ok (x, rest);
  codec_consumes bs x rest :
    bytes_ok bs → decode C bs = Ok (x, rest) →
    wf x ∧ ∃ pre, pre ≠ [] ∧ bs = pre ++ rest;
  codec_encode_ok x : wf x → bytes_ok (encode C x);
}.

(** Fixed-width big-endian integers: [impl Codec for u8, u16, u32, u64]. *)
Definition fixed_decode (n : nat) (buf : list Z) : result (Z * list Z) UnexpectedEnd :=
  if zlen buf <? Z.of_nat n then Err unexpected_end
  else Ok (be_decode (take n buf), drop n buf).

Definition u8_codec : Codec Z := mk_codec (fixed_decode 1) (be_encode 1).
Definition u16_codec : Codec Z := mk_codec (fixed_decode 2) (be_encode 2).
Definition u32_codec : Codec Z := mk_codec (fixed_decode 4) (be_encode 4).
Definition u64_codec : Codec Z := mk_codec (fixed_decode 8) (be_encode 8).

(** [Ipv4Addr] and [Ipv6Addr] are their octets. *)
Definition octets_decode (n : nat) (buf : list Z) : result (list Z * list Z) UnexpectedEnd :=
  if zlen buf <? Z.of_nat n then Err unexpected_end
  else Ok (take n buf, drop n buf).

Definition ipv4_codec : Codec (list Z) := mk_codec (octets_decode 4) id.
Definition ipv6_codec : Codec (list Z) := mk_codec (octets_decode 16) id.

(** ** [VarInt] *)

Module VarInt.

(** [VarInt::MAX] and [VarInt::MAX_SIZE]. *)
Definition MAX : Z := Z.shiftl 1 62 - 1.
Definition MAX_SIZE : Z := 8.

Definition from_u32 (x : Z) : Z := x.

Definition from_u64 (x : Z) : result Z VarIntBoundsExceeded :=
  if x <? 2 ^ 62 then Ok x else Err varint_bounds_exceeded.

(** [TryFrom<u128>]: first to [u64], then to [VarInt]. *)
Definition try_from_u128 (x : Z) : result Z VarIntBoundsExceeded :=
  let? y := (if x <? 2 ^ 64 then Ok x else Err varint_bounds_exceeded) in
  from_u64 y.

(** Number of bytes of the encoding. *)
Definition size (x : Z) : Z :=
  if x <? 2 ^ 6 then 1
  else if x <? 2 ^ 14 then 2
  else if x <? 2 ^ 30 then 4
  else if x <? 2 ^ 62 then 8
  else MAX_SIZE.

Definition encode_checked (x : Z) : result (list Z) VarIntBoundsExceeded :=
  if x <? 2 ^ 6 then Ok (be_encode 1 (wrap 8 x))
  else if x <? 2 ^ 14 then Ok (be_encode 2 (Z.lor (Z.shiftl 1 14) (wrap 16 x)))
  else if x <? 2 ^ 30 then Ok (be_encode 4 (Z.lor (Z.shiftl 2 30) (wrap 32 x)))
  else if x <? 2 ^ 62 then Ok (be_encode 8 (Z.lor (Z.shiftl 3 62) x))
  else Err varint_bounds_exceeded.

(** [Codec::encode]: an overflow is logged and nothing is written. *)
Definition varint_encode (x : Z) : list Z :=
  match encode_checked x with Ok bs => bs | Err _ => [] end.

(** The bytes after the first are taken only once their count is checked. *)
Definition varint_tail (n : nat) (b0 : Z) (r : list Z) : result (Z * list Z) UnexpectedEnd :=
  if zlen r <? Z.of_nat n then Err unexpected_end
  else Ok (be_decode (b0 :: take n r), drop n r).

Definition varint_decode (r : list Z) : result (Z * list Z) UnexpectedEnd :=
  match r with
  | [] => Err unexpected_end
  | b :: r =>
    let tag := Z.shiftr b 6 in
    let b0 := Z.land b 63 in
    if tag =? 0 then Ok (b0, r)
    else if tag =? 1 then varint_tail 1 b0 r
    else if tag =? 2 then varint_tail 3 b0 r
    else varint_tail 7 b0 r
  end.

Definition codec : Codec Z := mk_codec varint_decode varint_encode.

(** [BufExt::get_var], [BufMutExt::write_var] and [write_var_or_debug_assert]. *)
Definition get_var : list Z → result (Z * list Z) UnexpectedEnd := varint_decode.
Definition write_var : Z → result (list Z) VarIntBoundsExceeded := encode_checked.
Definition write_var_or_debug_assert (x : Z) : list Z :=
  match write_var x with Ok bs => bs | Err _ => [] end.

(** *** Lemmas *)

(** Bytes that follow the first one, by the first byte's tag. *)
Definition tail_len (b : Z) : nat :=
  let tag := Z.shiftr b 6 in
  if tag =? 0 then 0 else if tag =? 1 then 1 else if tag =? 2 then 3 else 7.

Lemma be_decode_cons b l : be_decode (b :: l) = b * 256 ^ zlen l + be_decode l.
Proof.
  induction l as [|c l IH] using rev_ind.
  - unfold be_decode. change (256 ^ zlen []) with 1. simpl. lia.
  - change (b :: l ++ [c]) with ((b :: l) ++ [c]).
    rewrite !be_decode_snoc, IH, zlen_app, Z.pow_add_r by (done || apply zlen_nonneg).
    change (256 ^ zlen [c]) with 256. lia.
Qed.

(** The layout of an encoding: two tag bits, then [8 * k + 6] value bits. *)
Lemma be_encode_tagged t x k :
  0 ≤ t < 4 → is_u (8 * Z.of_nat k + 6) x →
  be_encode (S k) (Z.lor (Z.shiftl t (8 * Z.of_nat k + 6)) x)
  = (t * 64 + x / 256 ^ Z.of_nat k) :: be_encode k x
  ∧ is_u 6 (x / 256 ^ Z.of_nat k).
Proof.
  intros Ht Hx. rewrite lor_shiftl_add by (done || lia).
  assert (HP : 256 ^ Z.of_nat k = 2 ^ (8 * Z.of_nat k))
    by (rewrite Z.pow_mul_r by lia; done).
  assert (Hq : is_u 6 (x / 256 ^ Z.of_nat k)).
  { unfold is_u in *. rewrite Z.pow_add_r in Hx by lia. rewrite HP. split.
    - apply Z.div_pos; lia.
    - apply Z.div_lt_upper_bound; lia. }
  split; [|done].
  cbn [be_encode]. f_equal.
  - unfold wrap. rewrite Z.shiftr_div_pow2 by lia.
    rewrite Z.pow_add_r by lia. rewrite <- HP.
    replace (t * (256 ^ Z.of_nat k * 2 ^ 6) + x)
      with (t * 2 ^ 6 * 256 ^ Z.of_nat k + x) by ring.
    rewrite Z.div_add_l by (apply Z.pow_nonzero; lia).
    unfold is_u in Hq. change (2 ^ 6) with 64 in *. change (2 ^ 8) with 256.
    apply Z.mod_small. lia.
  - clear Hq HP. assert (Hle : (k ≤ k)%nat) by done. revert Hle. generalize k at 1 3 5.
    intros j. induction j as [|j IH]; intros Hj; [done|].
    cbn [be_encode]. rewrite IH by lia. f_equal. unfold wrap.
    rewrite !Z.shiftr_div_pow2 by lia.
    replace (t * 2 ^ (8 * Z.of_nat k + 6))
      with (t * 2 ^ (8 * (Z.of_nat k - Z.of_nat j - 1) + 6) * 2 ^ 8 * 2 ^ (8 * Z.of_nat j)).
    2: { rewrite <- !Z.mul_assoc, <- !Z.pow_add_r by lia. do 2 f_equal. lia. }
    rewrite Z.div_add_l by (apply Z.pow_nonzero; lia).
    rewrite Z.add_comm. apply Z_mod_plus_full.
Qed.

Lemma tag_byte t q : 0 ≤ t < 4 → is_u 6 q →
  Z.shiftr (t * 64 + q) 6 = t ∧ Z.land (t * 64 + q) 63 = q.
Proof.
  intros Ht Hq. unfold is_u in Hq. change (2 ^ 6) with 64 in Hq. split.
  - rewrite Z.shiftr_div_pow2 by lia. by apply div_mul_add_small.
  - change 63 with (2 ^ 6 - 1). rewrite land_low_bits by lia. by apply mod_mul_add_small.
Qed.

Lemma varint_tail_encode k x rest :
  is_u (8 * Z.of_nat k + 6) x →
  varint_tail k (x / 256 ^ Z.of_nat k) (be_encode k x ++ rest) = Ok (x, rest).
Proof.
  intros Hx. unfold varint_tail.
  rewrite (proj2 (Z.ltb_ge _ _)).
  2: { unfold zlen. rewrite length_app, length_be_encode. lia. }
  rewrite take_app_length', drop_app_length' by (by rewrite length_be_encode).
  rewrite be_decode_cons. unfold zlen. rewrite length_be_encode.
  unfold be_decode. rewrite be_decode_encode_acc. simpl.
  do 2 f_equal. rewrite (Z.div_mod x (256 ^ Z.of_nat k)) at 3 by (apply Z.pow_nonzero; lia).
  lia.
Qed.

(** Every encoding is a tag byte and [k] big-endian bytes, with [k] fixed by the tag. *)
Lemma encode_checked_shape x : is_u 62 x →
  ∃ t k, encode_checked x = Ok ((t * 64 + x / 256 ^ Z.of_nat k) :: be_encode k x)
    ∧ 0 ≤ t < 4 ∧ is_u (8 * Z.of_nat k + 6) x ∧ size x = 1 + Z.of_nat k
    ∧ k = (if t =? 0 then 0%nat else if t =? 1 then 1%nat else if t =? 2 then 3%nat else 7%nat).
Proof.
  unfold encode_checked, size, is_u. intros Hx.
  destruct (Z.ltb_spec x (2 ^ 6)); [exists 0, 0%nat|
    destruct (Z.ltb_spec x (2 ^ 14)); [exists 1, 1%nat|
    destruct (Z.ltb_spec x (2 ^ 30)); [exists 2, 3%nat|
    rewrite (proj2 (Z.ltb_lt x (2 ^ 62))) by lia; exists 3, 7%nat]]].
  all: split; [|repeat split; simpl; lia].
  all: f_equal; rewrite ?wrap_small by (unfold is_u; lia).
  - rewrite <- (proj1 (be_encode_tagged 0 x 0 ltac:(lia) ltac:(unfold is_u; simpl; lia))).
    by rewrite Z.shiftl_0_l, Z.lor_0_l.
  - by apply (be_encode_tagged 1 x 1); unfold is_u; simpl; lia.
  - by apply (be_encode_tagged 2 x 3); unfold is_u; simpl; lia.
  - by apply (be_encode_tagged 3 x 7); unfold is_u; simpl; lia.
Qed.

Lemma decode_encode_checked x bs rest :
  0 ≤ x → encode_checked x = Ok bs →
  varint_decode (bs ++ rest) = Ok (x, rest) ∧ zlen bs = size x ∧ bytes_ok bs.
Proof.
  intros H0 Henc.
  assert (Hx : is_u 62 x).
  { unfold encode_checked in Henc. unfold is_u. split; [done|].
    repeat case_match; zbool; simplify_eq; lia. }
  destruct (encode_checked_shape x Hx) as (t & k & Heq & Ht & Hk & Hsz & Htk).
  rewrite Heq in Henc. simplify_eq/=.
  destruct (be_encode_tagged t x _ Ht Hk) as [Hbytes Hq].
  destruct (tag_byte t _ Ht Hq) as [-> ->].
  split; [|split].
  - destruct (Z.eqb_spec t 0) as [->|]; [simpl; by rewrite Z.div_1_r|].
    destruct (Z.eqb_spec t 1); [by apply varint_tail_encode|].
    destruct (Z.eqb_spec t 2); [by apply varint_tail_encode|].
    by apply varint_tail_encode.
  - rewrite Hsz, zlen_cons. unfold zlen. by rewrite length_be_encode.
  - rewrite <- Hbytes. apply be_encode_ok.
Qed.

(** What a successful read consumed: the tag byte and as many bytes as it announces. *)
Lemma decode_consumed r x rest :
  bytes_ok r → varint_decode r = Ok (x, rest) →
  ∃ b pre, r = b :: pre ++ rest ∧ length pre = tail_len b
    ∧ is_u (8 * zlen pre + 6) x.
Proof.
  destruct r as [|b r]; simpl; [done|]. intros Hr. inversion Hr as [|? ? Hb Hr']; subst; clear Hr; rename Hr' into Hr.
  assert (Hb0 : is_u 6 (Z.land b 63)).
  { change 63 with (2 ^ 6 - 1). rewrite land_low_bits by lia. by apply wrap_bound. }
  assert (Htail : ∀ n, varint_tail n (Z.land b 63) r = Ok (x, rest) →
    ∃ pre, r = pre ++ rest ∧ length pre = n ∧ is_u (8 * zlen pre + 6) x).
  { intros n. unfold varint_tail. destruct (Z.ltb_spec (zlen r) (Z.of_nat n)); [done|].
    intros [= <- <-]. unfold zlen in *.
    assert (Hn : length (take n r) = n) by (rewrite length_take; lia).
    exists (take n r). split; [by rewrite take_drop|]. split; [done|].
    rewrite be_decode_cons.
    pose proof (be_decode_bound (take n r) (Forall_take _ _ _ Hr)) as Hd.
    unfold is_u, zlen in *. rewrite Hn in *.
    rewrite Z.pow_add_r by lia. rewrite (Z.pow_mul_r 2 8) in * by lia.
    change (2 ^ 8) with 256 in *. change (2 ^ 6) with 64 in *. nia. }
  unfold tail_len. intros Hd. exists b.
  repeat case_match; try (destruct (Htail _ Hd) as (pre & -> & ? & ?); by exists pre).
  simplify_eq. by exists [].
Qed.

#[export] Instance varint_laws : CodecLaws codec (is_u 62).
Proof.
  split; simpl.
  - intros x rest Hx. unfold varint_encode.
    destruct (encode_checked_shape x Hx) as (t & k & Heq & _). rewrite Heq.
    apply (decode_encode_checked x _ rest (proj1 Hx) Heq).
  - intros bs x rest Hbs Hd.
    destruct (decode_consumed bs x rest Hbs Hd) as (b & pre & -> & Hlen & Hx). split.
    + unfold is_u in *. split; [lia|]. eapply Z.lt_le_trans; [apply Hx|].
      apply Z.pow_le_mono_r; [lia|]. unfold zlen. rewrite Hlen. unfold tail_len.
      repeat case_match; lia.
    + by exists (b :: pre).
  - intros x Hx. unfold varint_encode.
    destruct (encode_checked_shape x Hx) as (t & k & Heq & _). rewrite Heq.
    apply (decode_encode_checked x _ [] (proj1 Hx) Heq).
Qed.

(** An encoding that decodes to [x] is never shorter than [size x]. *)
Lemma size_minimal r x rest :
  bytes_ok r → varint_decode r = Ok (x, rest) → size x ≤ zlen r - zlen rest.
Proof.
  intros Hr Hd. destruct (decode_consumed r x rest Hr Hd) as (b & pre & -> & Hlen & Hx).
  rewrite zlen_cons, zlen_app. unfold is_u, zlen in *. rewrite Hlen in *.
  unfold size, tail_len in *. repeat case_match; zbool; try lia; simpl in Hx; lia.
Qed.

Lemma encode_checked_err x : 0 ≤ x → encode_checked x = Err varint_bounds_exceeded ↔ MAX < x.
Proof.
  intros H0. unfold encode_checked, MAX. change (Z.shiftl 1 62 - 1) with (2 ^ 62 - 1).
  repeat case_match; zbool; split; intros; simplify_eq; try lia; done.
Qed.

(** *** Writing and reading values in range *)

Lemma write_var_enc x : is_u 62 x → write_var x = Ok (varint_encode x).
Proof.
  intros Hx. unfold varint_encode. destruct (encode_checked_shape x Hx) as (t & k & Heq & _).
  by rewrite Heq.
Qed.

Lemma get_var_enc x k : is_u 62 x → get_var (varint_encode x ++ k) = Ok (x, k).
Proof. apply (codec_roundtrip (C := codec) x k). Qed.

Lemma zlen_varint_encode x : is_u 62 x → zlen (varint_encode x) = size x.
Proof.
  intros Hx. unfold varint_encode. destruct (encode_checked_shape x Hx) as (t & k & Heq & _).
  rewrite Heq. by destruct (decode_encode_checked x _ [] (proj1 Hx) Heq) as (_ & ? & _).
Qed.

Lemma varint_encode_ok x : is_u 62 x → bytes_ok (varint_encode x).
Proof. apply (codec_encode_ok (C := codec) x). Qed.

Lemma size_bounds x : 1 ≤ size x ≤ 8.
Proof. unfold size, MAX_SIZE. repeat case_match; lia. Qed.

(** The shorter of two numbers is not encoded longer. *)
Lemma size_mono x y : x ≤ y → size x ≤ size y.
Proof. intros. unfold size, MAX_SIZE. repeat case_match; zbool; lia. Qed.

(** What a successful read leaves is the end of the buffer. *)
Lemma get_var_suffix r x r' : bytes_ok r → get_var r = Ok (x, r') →
  is_u 62 x ∧ bytes_ok r' ∧ (length r' < length r)%nat.
Proof.
  intros Hr Hg. destruct (codec_consumes (C := codec) r x r' Hr Hg) as (Hx & pre & Hne & ->).
  apply Forall_app in Hr as [_ ?]. rewrite length_app. destruct pre; [done|]. simpl. split_and!; (done || lia).
Qed.

End VarInt.

#[export] Hint Rewrite VarInt.zlen_varint_encode using done : saorsa.

(** ** Theorems *)

#[export] Instance fixed_laws n : (0 < n)%nat →
  CodecLaws (mk_codec (fixed_decode n) (be_encode n)) (is_u (8 * Z.of_nat n)).
Proof.
  intros Hn. split; simpl.
  - intros x rest Hx. unfold fixed_decode, zlen.
    rewrite length_app, length_be_encode, (proj2 (Z.ltb_ge _ _)) by lia.
    rewrite take_app_length', drop_app_length' by (by rewrite length_be_encode).
    by rewrite be_decode_encode.
  - intros bs x rest Hbs. unfold fixed_decode.
    destruct (Z.ltb_spec (zlen bs) (Z.of_nat n)); [done|]. intros [= <- <-].
    assert (Hlen : length (take n bs) = n) by (unfold zlen in *; rewrite length_take; lia).
    split.
    + rewrite <- Hlen at 1. apply be_decode_bound. by apply Forall_take.
    + exists (take n bs). rewrite take_drop. split; [|done].
      intros Hnil. rewrite Hnil in Hlen. simpl in Hlen. lia.
  - intros. apply be_encode_ok.
Qed.

#[export] Instance octets_laws n : (0 < n)%nat →
  CodecLaws (mk_codec (octets_decode n) id) (λ a, length a = n ∧ bytes_ok a).
Proof.
  intros Hn. split; simpl.
  - intros x rest [Hx _]. unfold octets_decode, zlen.
    rewrite length_app, (proj2 (Z.ltb_ge _ _)) by lia.
    by rewrite take_app_length', drop_app_length' by done.
  - intros bs x rest Hbs. unfold octets_decode.
    destruct (Z.ltb_spec (zlen bs) (Z.of_nat n)); [done|]. intros [= <- <-].
    assert (Hlen : length (take n bs) = n) by (unfold zlen in *; rewrite length_take; lia).
    split; [split; [done | by apply Forall_take]|].
    exists (take n bs). rewrite take_drop. split; [|done].
    intros Hnil. rewrite Hnil in Hlen. simpl in Hlen. lia.
  - by intros x [_ ?].
Qed.

Lemma decode_u8_cons b r : decode u8_codec (b :: r) = Ok (b, r).
Proof.
  simpl. unfold fixed_decode. rewrite (proj2 (Z.ltb_ge _ _)); [done|].
  rewrite zlen_cons. pose proof (zlen_nonneg r). simpl. lia.
Qed.

(** Encodings are prefix free: proved for any codec that meets the interface. *)
Lemma codec_prefix_free {A} (C : Codec A) wf `{!CodecLaws C wf} x y r1 r2 :
  wf x → wf y → encode C x ++ r1 = encode C y ++ r2 → x = y ∧ r1 = r2.
Proof.
  intros Hx Hy Heq. pose proof (codec_roundtrip x r1 Hx) as H1.
  rewrite Heq, (codec_roundtrip y r2 Hy) in H1. by simplify_eq.
Qed.

Section claims.
Import VarInt.

(** Writing a value below 2^62 as a QUIC variable-length integer succeeds, takes
    exactly [size] bytes, and reading it back from any longer buffer returns the
    value and the rest of the buffer untouched. *)
Theorem varint_roundtrip (x : Z) (rest : list Z) (Hx : is_u 62 x) :
  ∃ bs, write_var x = Ok bs ∧ get_var (bs ++ rest) = Ok (x, rest) ∧ zlen bs = size x.
Proof.
  destruct (encode_checked_shape x Hx) as (t & k & Heq & _).
  eexists. split; [exact Heq|].
  destruct (decode_encode_checked x _ rest (proj1 Hx) Heq) as (? & ? & _). done.
Qed.

Lemma varint_roundtrip_witness :
  is_u 62 15293 ∧ ∃ bs, write_var 15293 = Ok bs
    ∧ get_var (bs ++ [7]) = Ok (15293, [7]) ∧ zlen bs = size 15293.
Proof.
  split; [unfold is_u; lia|]. apply (varint_roundtrip 15293 [7]). unfold is_u. lia.
Defined.

(** Reading a variable-length integer from arbitrary received bytes fails exactly
    when fewer bytes are left than the first byte announces; otherwise the value is
    below 2^62, the consumed bytes are a prefix of the buffer of the announced length,
    and the consumed length is at least the length the encoder would use. *)
Theorem varint_decode_spec (r : list Z) (Hr : bytes_ok r) :
  match get_var r with
  | Err _ => r = [] ∨ ∃ b tl, r = b :: tl ∧ (length tl < tail_len b)%nat
  | Ok (x, rest) => ∃ b pre, r = b :: pre ++ rest ∧ length pre = tail_len b
      ∧ is_u 62 x ∧ size x ≤ 1 + zlen pre
  end.
Proof.
  destruct (get_var r) as [[x rest]|e] eqn:Hd.
  - destruct (decode_consumed r x rest Hr Hd) as (b & pre & -> & Hlen & Hx).
    exists b, pre. split; [done|]. split; [done|]. split.
    + by destruct (codec_consumes (C := codec) _ x rest Hr Hd) as [? _].
    + pose proof (size_minimal _ x rest Hr Hd) as Hs.
      rewrite zlen_cons, zlen_app in Hs. lia.
  - destruct r as [|b r]; [by left|right]. exists b, r. split; [done|].
    unfold get_var, varint_decode in Hd. unfold tail_len.
    repeat case_match; simplify_eq; unfold varint_tail in Hd;
      case_match; zbool; simplify_eq; unfold zlen in *; lia.
Qed.

Lemma varint_decode_spec_witness :
  bytes_ok [0x7b; 0xbd; 0x25] ∧
  match get_var [0x7b; 0xbd; 0x25] with
  | Err _ => [0x7b; 0xbd; 0x25] = [] ∨ ∃ b tl, [0x7b; 0xbd; 0x25] = b :: tl
      ∧ (length tl < tail_len b)%nat
  | Ok (x, rest) => ∃ b pre, [0x7b; 0xbd; 0x25] = b :: pre ++ rest
      ∧ length pre = tail_len b ∧ is_u 62 x ∧ size x ≤ 1 + zlen pre
  end.
Proof.
  assert (H : bytes_ok [0x7b; 0xbd; 0x25]).
  { repeat constructor; unfold is_u; lia. }
  split; [exact H|]. apply (varint_decode_spec _ H).
Defined.

(** The sample of RFC 9000 appendix A.1. *)
Example varint_rfc_sample :
  get_var [0xc2; 0x19; 0x7c; 0x5e; 0xff; 0x14; 0xe8; 0x8c] = Ok (151288809941952652, []).
Proof. reflexivity. Qed.

End claims.
