(* ===== verification/BTree.v ===== *)
(** * Ordered maps

    The standard library's [BTreeMap<u64, V>] as the sources use it: a list of
    entries in strictly increasing key order, with the range queries
    [range(..=x).next_back()] and [range(x+1..).next()]. *)

From S2P Require Import Prelude.

Section btree.
Context {V : Type}.
Implicit Types (m l : list (Z * V)) (k x : Z).

Fixpoint bt_get k m : option V :=
  match m with
  | [] => None
  | (j, v) :: m' => if k =? j then Some v else bt_get k m'
  end.

Fixpoint bt_insert k (v : V) m : list (Z * V) :=
  match m with
  | [] => [(k, v)]
  | (j, w) :: m' =>
    if k <? j then (k, v) :: m
    else if k =? j then (k, v) :: m'
    else (j, w) :: bt_insert k v m'
  end.

Fixpoint bt_remove k m : list (Z * V) :=
  match m with
  | [] => []
  | (j, w) :: m' => if k =? j then m' else (j, w) :: bt_remove k m'
  end.

(** Last entry whose key is at most [x]. *)
Fixpoint bt_pred x m : option (Z * V) :=
  match m with
  | [] => None
  | (j, w) :: m' =>
    if j <=? x then (match bt_pred x m' with Some r => Some r | None => Some (j, w) end)
    else None
  end.

(** First entry whose key is above [x]. *)
Fixpoint bt_succ x m : option (Z * V) :=
  match m with
  | [] => None
  | (j, w) :: m' => if x <? j then Some (j, w) else bt_succ x m'
  end.

(** Keys strictly increasing, all above [lo]. *)
Fixpoint bt_ordered (lo : Z) m : Prop :=
  match m with
  | [] => True
  | (j, _) :: m' => lo < j ∧ bt_ordered j m'
  end.

Definition keys_le x m : Prop := Forall (λ e, e.1 ≤ x) m.
Definition keys_lt x m : Prop := Forall (λ e, e.1 < x) m.
Definition keys_gt x m : Prop := Forall (λ e, x < e.1) m.

Lemma bt_ordered_weaken lo lo' m : lo' ≤ lo → bt_ordered lo m → bt_ordered lo' m.
Proof. destruct m as [|[j w] m]; simpl; [done|]. intros ? [? ?]. split; [lia|done]. Qed.

Lemma bt_ordered_keys_gt lo m : bt_ordered lo m → keys_gt lo m.
Proof.
  revert lo. induction m as [|[j w] m IH]; intros lo; simpl; [constructor|].
  intros [? Hm]. constructor; [done|].
  eapply Forall_impl; [exact (IH j Hm)|].
  intros [??] ?; simpl in *. lia.
Qed.

Lemma bt_split x m lo : bt_ordered lo m →
  ∃ l1 l2, m = l1 ++ l2 ∧ keys_le x l1 ∧ keys_gt x l2.
Proof.
  revert lo. induction m as [|[j w] m IH]; intros lo; simpl.
  - intros _. exists [], []. repeat split; constructor.
  - intros [Hlo Hm]. destruct (decide (j ≤ x)).
    + destruct (IH j Hm) as (l1 & l2 & -> & H1 & H2).
      exists ((j, w) :: l1), l2. repeat split; [by constructor|done].
    + exists [], ((j, w) :: m). split; [done|]. split; [constructor|].
      constructor; [simpl; lia|].
      eapply Forall_impl; [exact (bt_ordered_keys_gt j m Hm)|].
      intros [??] ?; simpl in *. lia.
Qed.

Lemma bt_pred_app x l1 l2 : keys_le x l1 → keys_gt x l2 → bt_pred x (l1 ++ l2) = last l1.
Proof.
  intros H1 H2. induction H1 as [|[j w] l1 Hj H1 IH]; simpl in *.
  - destruct H2 as [|[j w] l2 Hj ?]; simpl in *; [done|].
    by rewrite (proj2 (Z.leb_gt _ _)).
  - rewrite (proj2 (Z.leb_le _ _)), IH by done.
    destruct l1 as [|p l1]; [done|]. by destruct (last (p :: l1)) eqn:?; [|rewrite last_None in *].
Qed.

Lemma bt_succ_app x l1 l2 : keys_le x l1 → keys_gt x l2 → bt_succ x (l1 ++ l2) = head l2.
Proof.
  intros H1 H2. induction H1 as [|[j w] l1 Hj H1 IH]; simpl in *.
  - destruct H2 as [|[j w] l2 Hj ?]; simpl in *; [done|].
    by rewrite (proj2 (Z.ltb_lt _ _)).
  - by rewrite (proj2 (Z.ltb_ge _ _)).
Qed.

Lemma bt_remove_app k v l1 l2 : keys_lt k l1 → bt_remove k (l1 ++ (k, v) :: l2) = l1 ++ l2.
Proof.
  intros H1. induction H1 as [|[j w] l1 Hj H1 IH]; simpl in *.
  - by rewrite Z.eqb_refl.
  - rewrite (proj2 (Z.eqb_neq _ _)) by lia. by rewrite IH.
Qed.

Lemma bt_insert_app k v l1 l2 : keys_lt k l1 → keys_gt k l2 →
  bt_insert k v (l1 ++ l2) = l1 ++ (k, v) :: l2.
Proof.
  intros H1 H2. induction H1 as [|[j w] l1 Hj H1 IH]; simpl in *.
  - destruct H2 as [|[j w] l2 Hj ?]; simpl in *; [done|].
    by rewrite (proj2 (Z.ltb_lt _ _)).
  - rewrite (proj2 (Z.ltb_ge _ _)), (proj2 (Z.eqb_neq _ _)) by lia. by rewrite IH.
Qed.

Lemma bt_get_insert k j v m lo : bt_ordered lo m →
  bt_get j (bt_insert k v m) = if j =? k then Some v else bt_get j m.
Proof.
  revert lo. induction m as [|[i w] m IH]; intros lo; simpl.
  - done.
  - intros [Hlo Hm]. destruct (Z.ltb_spec k i); simpl.
    + done.
    + destruct (Z.eqb_spec k i); simpl; [subst; by destruct (j =? i)|].
      rewrite (IH i) by done.
      destruct (Z.eqb_spec j i), (Z.eqb_spec j k); try lia; done.
Qed.

Lemma bt_get_ordered_None k m lo : bt_ordered lo m → k ≤ lo → bt_get k m = None.
Proof.
  revert lo. induction m as [|[i w] m IH]; intros lo; simpl; [done|].
  intros [Hlo Hm] ?. rewrite (proj2 (Z.eqb_neq _ _)) by lia. apply (IH i); [done|lia].
Qed.

Lemma bt_get_remove k j m lo : bt_ordered lo m →
  bt_get j (bt_remove k m) = if j =? k then None else bt_get j m.
Proof.
  revert lo. induction m as [|[i w] m IH]; intros lo; simpl.
  - by destruct (j =? k).
  - intros [Hlo Hm]. destruct (Z.eqb_spec k i); simpl.
    + subst. destruct (Z.eqb_spec j i); [|done]. subst. by apply (bt_get_ordered_None i m i).
    + rewrite (IH i) by done.
      destruct (Z.eqb_spec j i), (Z.eqb_spec j k); try lia; done.
Qed.

Lemma bt_insert_ordered k v m lo : lo < k → bt_ordered lo m → bt_ordered lo (bt_insert k v m).
Proof.
  revert lo. induction m as [|[i w] m IH]; intros lo; simpl; [done|].
  intros Hk [Hlo Hm]. destruct (Z.ltb_spec k i); simpl; [done|].
  destruct (Z.eqb_spec k i); simpl; [by subst|]. split; [done|]. apply IH; [lia|done].
Qed.

Lemma bt_remove_ordered k m lo : bt_ordered lo m → bt_ordered lo (bt_remove k m).
Proof.
  revert lo. induction m as [|[i w] m IH]; intros lo; simpl; [done|].
  intros [Hlo Hm]. destruct (Z.eqb_spec k i); simpl; [|auto].
  eapply bt_ordered_weaken; [|done]. lia.
Qed.

End btree.
