(* ===== verification/RangeSets.v ===== *)
(** * Sets of offsets and packet numbers as ranges

    Models [src/range_set/]: [ArrayRangeSet] (a vector of ranges, used for ACK
    ranges) and [RangeSet] (a [BTreeMap] from range start to range end, used for
    stream offsets).  A [Range<u64>] is the pair of its start and its end.

    Both are shown to implement the same abstract set of integers, kept in one
    canonical form: sorted, non-empty, non-adjacent ranges. *)

From S2P Require Import Prelude BTree.

Abbreviation range := (Z * Z)%type (only parsing).

(** [Range::is_empty] and [Range::contains]. *)
Definition range_is_empty (r : range) : bool := negb (r.1 <? r.2).
Definition range_contains (r : range) (x : Z) : bool := (r.1 <=? x) && (x <? r.2).

(** ** The abstract set and the canonical form *)

(** Membership in the union of the ranges. *)
Fixpoint mem (x : Z) (l : list range) : Prop :=
  match l with
  | [] => False
  | (s, e) :: l' => s ≤ x < e ∨ mem x l'
  end.

(** Ranges above [lo] that are non-empty, sorted, and separated by a gap. *)
Fixpoint canon (lo : Z) (l : list range) : Prop :=
  match l with
  | [] => True
  | (s, e) :: l' => lo < s ∧ s < e ∧ canon e l'
  end.

(** The invariant of a set of [u64]. *)
Definition wf (l : list range) : Prop := canon (-1) l.

Definition in_range (x : Z) (r : range) : Prop := r.1 ≤ x < r.2.

(** ** [ArrayRangeSet] *)

Module ArrayRangeSet.

Definition new : list range := [].

(** [slice::partition_point] on a list partitioned by [p]. *)
Fixpoint partition_point (p : range → bool) (l : list range) : nat :=
  match l with
  | [] => 0
  | r :: l' => if p r then S (partition_point p l') else 0
  end.

Definition contains (l : list range) (x : Z) : bool :=
  match partition_point (λ r, r.1 <=? x) l with
  | 0%nat => false
  | S i => match l !! i with Some r => range_contains r x | None => false end
  end.

(** Merge all follow-up ranges which overlap. *)
Fixpoint merge_next (s e : Z) (tl : list range) : list range :=
  match tl with
  | [] => [(s, e)]
  | (ns, ne) :: tl' => if e >=? ns then merge_next s (Z.max ne e) tl' else (s, e) :: tl
  end.

(** The [while idx != len] loop of [insert]; [result] is the local of that name
    and the list is the suffix from [idx]. *)
Fixpoint insert_loop (x : range) (result : bool) (l : list range) : bool * list range :=
  match l with
  | [] => (true, [x])
  | (s, e) :: tl =>
    if s >? x.2 then (true, x :: l)
    else
      let '(s', result) := if s >? x.1 then (x.1, true) else (s, result) in
      if x.2 <=? e then (result, (s', e) :: tl)
      else if x.1 <=? e then (true, merge_next s' x.2 tl)
      else let '(r, tl') := insert_loop x result tl in (r, (s', e) :: tl')
  end.

Definition insert (x : range) (l : list range) : bool * list range :=
  if range_is_empty x then (false, l) else insert_loop x false l.

(** [x..x + 1], the addition wrapping. *)
Definition insert_one (x : Z) (l : list range) : bool * list range :=
  insert (x, wrapping_add 64 x 1) l.

Fixpoint remove_loop (x : range) (result : bool) (l : list range) : bool * list range :=
  match l with
  | [] => (result, [])
  | (s, e) :: tl =>
    if x.1 =? x.2 then (result, l)
    else if x.2 <=? s then (result, l)
    else if x.1 >=? e then
      let '(r, tl') := remove_loop x result tl in (r, (s, e) :: tl')
    else
      let left := (s, x.1) in
      let right := (x.2, e) in
      let '(r, tl') := remove_loop x true tl in
      (r, (if range_is_empty left && range_is_empty right then tl'
           else if range_is_empty left then right :: tl'
           else if range_is_empty right then left :: tl'
           else left :: right :: tl'))
  end.

Definition remove (x : range) (l : list range) : bool * list range :=
  if range_is_empty x then (false, l) else remove_loop x false l.

Definition subtract (l other : list range) : list range :=
  fold_left (λ l r, (remove r l).2) other l.

Definition is_empty (l : list range) : bool := match l with [] => true | _ => false end.

Definition pop_min (l : list range) : option range * list range :=
  match l with [] => (None, []) | r :: l' => (Some r, l') end.

Definition min (l : list range) : option Z := fst <$> head l.

Definition max (l : list range) : option Z := last l ≫= λ r, checked_sub r.2 1.

End ArrayRangeSet.

(** ** [RangeSet] *)

Module RangeSet.

Definition new : list range := [].

Definition pred (x : Z) (m : list range) : option range := bt_pred x m.
Definition succ (x : Z) (m : list range) : option range := bt_succ x m.

Definition contains (m : list range) (x : Z) : bool :=
  match pred x m with Some (_, e) => e >? x | None => false end.

(** Extend [x..new_end] over a range that starts right at its end. *)
Definition join_succ (x new_end : Z) (m : list range) : Z * list range :=
  match succ x m with
  | Some (ns, ne) => if ns =? new_end then (ne, bt_remove ns m) else (new_end, m)
  | None => (new_end, m)
  end.

Definition insert_one (x : Z) (m : list range) : bool * list range :=
  let fresh :=
    let '(new_end, m) := join_succ x (wrapping_add 64 x 1) m in
    (true, bt_insert x new_end m) in
  match pred x m with
  | Some (s, e) =>
    if e >? x then (false, m)
    else if e =? x then
      let m := bt_remove s m in
      let '(new_end, m) := join_succ x (wrapping_add 64 x 1) m in
      (true, bt_insert s new_end m)
    else fresh
  | None => fresh
  end.

(** The [while let Some(..) = self.succ(x.start)] loop of [insert].  Each round
    removes an entry, so the number of entries is enough fuel. *)
Fixpoint absorb (fuel : nat) (xs xe : Z) (m : list range) : Z * list range :=
  match fuel with
  | O => (xe, m)
  | S fuel =>
    match succ xs m with
    | Some (ns, ne) =>
      if ns >? xe then (xe, m) else absorb fuel xs (Z.max ne xe) (bt_remove ns m)
    | None => (xe, m)
    end
  end.

Definition insert_from (xs xe : Z) (m : list range) : bool * list range :=
  let '(xe, m) := absorb (length m) xs xe m in
  (true, bt_insert xs xe m).

Definition insert (x : range) (m : list range) : bool * list range :=
  if range_is_empty x then (false, m)
  else match pred x.1 m with
  | Some (s, e) =>
    if e >=? x.2 then (false, m)
    else if e >=? x.1 then insert_from s x.2 (bt_remove s m)
    else insert_from x.1 x.2 m
  | None => insert_from x.1 x.2 m
  end.

(** The second half of [remove]: drop the ranges that start inside [x]. *)
Fixpoint remove_after (fuel : nat) (x : range) (after : bool) (m : list range)
  : bool * list range :=
  match fuel with
  | O => (after, m)
  | S fuel =>
    match succ x.1 m with
    | Some (s, e) =>
      if s >=? x.2 then (after, m)
      else
        let m := bt_remove s m in
        if e >? x.2 then (true, bt_insert x.2 e m)
        else remove_after fuel x true m
    | None => (after, m)
    end
  end.

Definition remove (x : range) (m : list range) : bool * list range :=
  if range_is_empty x then (false, m)
  else match pred x.1 m with
  | Some (s, e) =>
    if e >? x.1 then
      let m := bt_remove s m in
      let m := if s <? x.1 then bt_insert s x.1 m else m in
      let m := if e >? x.2 then bt_insert x.2 e m else m in
      if e >=? x.2 then (true, m)
      else let '(_, m) := remove_after (length m) x false m in (true, m)
    else remove_after (length m) x false m
  | None => remove_after (length m) x false m
  end.

(** The iterator [Replace]: its pending [pred] item, its growing range, the set. *)
Record Replace := mk_replace { rp_pred : option range; rp_range : range; rp_set : list range }.

Definition replace (x : range) (m : list range) : Replace :=
  match pred x.1 m with
  | Some (ps, pe) =>
    if pe >=? x.1 then
      let m := bt_remove ps m in
      let replaced_start := x.1 in
      let replaced_end := Z.min x.2 pe in
      let range := (Z.min x.1 ps, Z.max x.2 pe) in
      let p := if replaced_start =? replaced_end then None
               else Some (replaced_start, replaced_end) in
      mk_replace p range m
    else mk_replace None x m
  | None => mk_replace None x m
  end.

Definition replace_next (it : Replace) : option range * Replace :=
  match rp_pred it with
  | Some p => (Some p, mk_replace None (rp_range it) (rp_set it))
  | None =>
    let '(rs, re) := rp_range it in
    match succ rs (rp_set it) with
    | None => (None, it)
    | Some (ns, ne) =>
      if ns >? re then (None, it)
      else
        let m := bt_remove ns (rp_set it) in
        let replaced_end := Z.min re ne in
        let it' := mk_replace None (rs, Z.max re ne) m in
        if ns =? replaced_end then (None, it') else (Some (ns, replaced_end), it')
    end
  end.

(** Run the iterator to its first [None], as a [for] loop does. *)
Fixpoint replace_iter (fuel : nat) (it : Replace) : list range * Replace :=
  match fuel with
  | O => ([], it)
  | S fuel =>
    match replace_next it with
    | (Some r, it') => let '(rs, it'') := replace_iter fuel it' in (r :: rs, it'')
    | (None, it') => ([], it')
    end
  end.

(** A [for] loop over [replace(x)] and the drop of the iterator after it, which
    drains the iterator again and inserts the aggregate range. *)
Definition replace_all (x : range) (m : list range) : list range * list range :=
  let fuel := S (S (length m)) in
  let '(items, it) := replace_iter fuel (replace x m) in
  let '(_, it) := replace_iter fuel it in
  (items, bt_insert (rp_range it).1 (rp_range it).2 (rp_set it)).

Definition add (m other : list range) : list range :=
  fold_left (λ m r, (insert r m).2) other m.

Definition subtract (m other : list range) : list range :=
  fold_left (λ m r, (remove r m).2) other m.

Definition is_empty (m : list range) : bool := match m with [] => true | _ => false end.
Definition min (m : list range) : option Z := fst <$> head m.
Definition max (m : list range) : option Z := last m ≫= λ r, checked_sub r.2 1.
Definition peek_min (m : list range) : option range := head m.

Definition pop_min (m : list range) : option range * list range :=
  match peek_min m with
  | None => (None, m)
  | Some r => (Some r, bt_remove r.1 m)
  end.

(** [EltIter]: the elements of a set, one by one. *)
Record EltIter := mk_elt { el_inner : list range; el_next : Z; el_end : Z }.

Definition elts (m : list range) : EltIter := mk_elt m 0 0.

Definition elt_next (it : EltIter) : option (Z * EltIter) :=
  if el_next it =? el_end it then
    match el_inner it with
    | [] => None
    | (s, e) :: inner => Some (s, mk_elt inner (s + 1) e)
    end
  else Some (el_next it, mk_elt (el_inner it) (el_next it + 1) (el_end it)).

End RangeSet.

(** ** Membership as a truth value *)

Definition memb (x : Z) (l : list range) : bool := existsb (λ r, range_contains r x) l.

Lemma range_contains_spec r x : range_contains r x = true ↔ in_range x r.
Proof. unfold range_contains, in_range. rewrite andb_true_iff, Z.leb_le, Z.ltb_lt. done. Qed.

Lemma memb_spec x l : memb x l = true ↔ mem x l.
Proof.
  induction l as [|[s e] l IH]; simpl; [done|].
  rewrite orb_true_iff, IH, range_contains_spec. done.
Qed.

(** How many ranges of a list hold [x]. *)
Fixpoint cover_count (x : Z) (l : list range) : Z :=
  match l with [] => 0 | r :: l' => Z.b2z (range_contains r x) + cover_count x l' end.

Lemma cover_count_nonneg x l : 0 ≤ cover_count x l.
Proof.
  induction l as [|r l IH]; simpl; [lia|]. pose proof (b2z_bounds (range_contains r x)). lia.
Qed.

(** ** Lemmas on the canonical form *)

Lemma canon_weaken lo lo' l : lo' ≤ lo → canon lo l → canon lo' l.
Proof. destruct l as [|[s e] l]; simpl; [done|]. intuition lia. Qed.

Lemma canon_mem_gt lo l x : canon lo l → mem x l → lo < x.
Proof.
  revert lo. induction l as [|[s e] l IH]; intros lo; simpl; [done|].
  intros (? & ? & Hl) [?|Hm]; [lia|]. specialize (IH e Hl Hm). lia.
Qed.

Lemma canon_not_mem lo l x : canon lo l → x ≤ lo → ¬ mem x l.
Proof. intros Hl Hx Hm. apply (canon_mem_gt lo l x Hl) in Hm. lia. Qed.

Lemma canon_ordered lo l : canon lo l → bt_ordered lo l.
Proof.
  revert lo. induction l as [|[s e] l IH]; intros lo; simpl; [done|].
  intros (? & ? & Hl). split; [done|]. apply IH. apply (canon_weaken e); [lia|done].
Qed.

Lemma canon_keys_gt lo x l : canon lo l → x ≤ lo → keys_gt x l.
Proof.
  intros Hl ?. apply bt_ordered_keys_gt, (bt_ordered_weaken lo); [done|]. by apply canon_ordered.
Qed.

(** Two canonical lists with the same elements are the same list. *)
Lemma canon_unique l1 : ∀ l2 lo1 lo2, canon lo1 l1 → canon lo2 l2 →
  (∀ x, mem x l1 ↔ mem x l2) → l1 = l2.
Proof.
  induction l1 as [|[s1 e1] l1 IH]; intros [|[s2 e2] l2] lo1 lo2 H1 H2 Heq; simpl in *.
  - done.
  - exfalso. destruct H2 as (? & ? & _). apply (Heq s2). lia.
  - exfalso. destruct H1 as (? & ? & _). apply (Heq s1). lia.
  - destruct H1 as (? & ? & H1), H2 as (? & ? & H2).
    assert (Hgt1 := λ x, canon_mem_gt e1 l1 x H1).
    assert (Hgt2 := λ x, canon_mem_gt e2 l2 x H2).
    assert (s1 = s2) as <-.
    { assert (Ha : s2 ≤ s1 < e2 ∨ mem s1 l2) by (apply Heq; left; lia).
      assert (Hb : s1 ≤ s2 < e1 ∨ mem s2 l1) by (apply Heq; left; lia).
      destruct Ha as [?|Ha], Hb as [?|Hb]; try apply Hgt2 in Ha; try apply Hgt1 in Hb; lia. }
    assert (e1 = e2) as <-.
    { destruct (decide (e1 = e2)); [done|exfalso].
      destruct (decide (e1 < e2)).
      - assert (Ha : s1 ≤ e1 < e1 ∨ mem e1 l1) by (apply Heq; left; lia).
        destruct Ha as [?|Ha]; [lia | apply Hgt1 in Ha; lia].
      - assert (Ha : s1 ≤ e2 < e2 ∨ mem e2 l2) by (apply Heq; left; lia).
        destruct Ha as [?|Ha]; [lia | apply Hgt2 in Ha; lia]. }
    f_equal. apply (IH l2 e1 e1 H1 H2). intros x. specialize (Heq x). split; intros Hm.
    + specialize (Hgt1 _ Hm). destruct (proj1 Heq (or_intror Hm)); [lia|done].
    + specialize (Hgt2 _ Hm). destruct (proj2 Heq (or_intror Hm)); [lia|done].
Qed.

(** End of the last range. *)
Definition end_of (lo : Z) (l : list range) : Z :=
  match last l with Some r => r.2 | None => lo end.

Lemma end_of_cons lo s e l : end_of lo ((s, e) :: l) = end_of e l.
Proof. unfold end_of. rewrite last_cons. by destruct (last l). Qed.

Lemma canon_app lo l1 l2 : canon lo (l1 ++ l2) ↔ canon lo l1 ∧ canon (end_of lo l1) l2.
Proof.
  revert lo. induction l1 as [|[s e] l1 IH]; intros lo; simpl.
  - unfold end_of. simpl. naive_solver.
  - rewrite IH, end_of_cons. naive_solver.
Qed.

Lemma canon_end_ge lo l : canon lo l → lo ≤ end_of lo l.
Proof.
  revert lo. induction l as [|[s e] l IH]; intros lo; simpl.
  - unfold end_of. simpl. lia.
  - rewrite end_of_cons. intros (? & ? & Hl). specialize (IH e Hl). lia.
Qed.

Lemma mem_app x l1 l2 : mem x (l1 ++ l2) ↔ mem x l1 ∨ mem x l2.
Proof. induction l1 as [|[s e] l1 IH]; simpl; [naive_solver|]. rewrite IH. naive_solver. Qed.

Lemma canon_mem_lt_end lo l x : canon lo l → mem x l → x < end_of lo l.
Proof.
  revert lo. induction l as [|[s e] l IH]; intros lo; simpl; [done|].
  rewrite end_of_cons. intros (? & ? & Hl) [?|Hm]; [|by apply IH].
  pose proof (canon_end_ge e l Hl). lia.
Qed.

(** The state of a range set below [x], and the ranges that start after it. *)
Lemma canon_split x lo m : canon lo m →
  ∃ l1 l2, m = l1 ++ l2 ∧ keys_le x l1 ∧ canon lo l1 ∧ canon (end_of lo l1) l2
    ∧ keys_gt x l2 ∧ bt_pred x m = last l1 ∧ bt_succ x m = head l2.
Proof.
  intros Hm. destruct (bt_split x m lo (canon_ordered _ _ Hm)) as (l1 & l2 & -> & H1 & H2).
  apply canon_app in Hm as [Hl1 Hl2]. exists l1, l2.
  by rewrite bt_pred_app, bt_succ_app by done.
Qed.

Lemma canon_keys_lt lo l s e : canon lo (l ++ [(s, e)]) → keys_lt s l.
Proof.
  revert lo. induction l as [|[s' e'] l IH]; intros lo; simpl; [constructor|].
  intros (? & ? & Hl). constructor; [|by eapply IH]. simpl.
  apply canon_app in Hl as [Hl [? _]]. pose proof (canon_end_ge _ _ Hl). lia.
Qed.

Lemma keys_gt_not_mem x l : keys_gt x l → ¬ mem x l.
Proof. induction 1 as [|[s e] l Hs Hl IH]; simpl in *; [tauto|]. intros [?|?]; [lia|done]. Qed.

(** Membership is decided by the last range that starts at or below [x]. *)
Lemma mem_split x lo l1 l2 : canon lo l1 → keys_le x l1 → keys_gt x l2 →
  mem x (l1 ++ l2) ↔ match last l1 with Some r => x < r.2 | None => False end.
Proof.
  intros Hc H1 H2. rewrite mem_app. pose proof (keys_gt_not_mem x l2 H2) as Hn.
  destruct l1 as [|[s e] l1 _] using rev_ind; [simpl; tauto|].
  rewrite last_snoc, mem_app. simpl.
  apply Forall_app in H1 as [_ He]. rewrite Forall_singleton in He. simpl in He.
  apply canon_app in Hc as [Hc (Hs & Hse & _)].
  assert (¬ mem x l1).
  { intros Hm. apply (canon_mem_lt_end lo l1 x Hc) in Hm. lia. }
  intuition lia.
Qed.

(** Membership goals: propositional structure over linear arithmetic. *)
Ltac msolve := intuition lia.

(** ** [ArrayRangeSet] implements the set *)

Section array.
Import ArrayRangeSet.


Lemma merge_next_spec tl : ∀ s e lo, lo < s → s < e → canon s tl →
  canon lo (merge_next s e tl) ∧ ∀ y, mem y (merge_next s e tl) ↔ s ≤ y < e ∨ mem y tl.
Proof.
  induction tl as [|[ns ne] tl IH]; intros s e lo Hlo Hse Htl; simpl in *.
  { split; [lia|]. msolve. }
  destruct Htl as (? & ? & Htl). rewrite Z.geb_leb. destruct (Z.leb_spec ns e); simpl.
  - destruct (IH s (Z.max ne e) lo) as [Hc Hm];
      [done | lia | by apply (canon_weaken ne); [lia|] |].
    split; [done|]. intros y. rewrite Hm. msolve.
  - split; [by repeat split|]. done.
Qed.

Lemma merge_next_head tl : ∀ s e, ∃ e' tl', merge_next s e tl = (s, e') :: tl'.
Proof.
  induction tl as [|[ns ne] tl IH]; intros s e; simpl; [by eexists _, _|].
  case_match; [apply IH | by eexists _, _].
Qed.

Lemma insert_loop_spec x l : ∀ lo res, x.1 < x.2 → lo < x.1 → canon lo l →
  canon lo (insert_loop x res l).2
  ∧ (∀ y, mem y (insert_loop x res l).2 ↔ in_range y x ∨ mem y l)
  ∧ ((insert_loop x res l).1 = true ↔ res = true ∨ ∃ y, in_range y x ∧ ¬ mem y l).
Proof.
  destruct x as [xs xe]. unfold in_range. simpl.
  induction l as [|[s e] tl IH]; intros lo res Hx Hlo Hl; simpl.
  { split; [done|]. split; [done|]. split; [|done]. intros _. right. exists xs. msolve. }
  destruct Hl as (Hlos & Hse & Htl). rewrite !Z.gtb_ltb.
  assert (Hgt := λ y, canon_mem_gt e tl y Htl).
  assert (Hxs := Hgt xs). assert (He := Hgt e).
  destruct (Z.ltb_spec xe s); simpl.
  { split; [msolve|]. split; [done|]. split; [|done]. intros _. right. exists xs. msolve. }
  assert (Hmerge : ∀ s', lo < s' ≤ s → xs ≤ e → e < xe → s' = s ∨ s' = xs →
    canon lo (merge_next s' xe tl)
    ∧ (∀ y, mem y (merge_next s' xe tl) ↔ s' ≤ y < xe ∨ mem y tl)).
  { intros. apply merge_next_spec; [lia|lia|]. by apply (canon_weaken e); [lia|]. }
  destruct (Z.ltb_spec xs s); simpl.
  - destruct (Z.leb_spec xe e); simpl.
    + split; [msolve|]. split; [msolve|]. split; [|done]. intros _. right. exists xs. msolve.
    + rewrite (proj2 (Z.leb_le _ _)) by lia. simpl.
      destruct (Hmerge xs) as [Hc Hm]; [lia..|].
      split; [done|]. split; [intros y; rewrite Hm; msolve|].
      split; [|done]. intros _. right. exists xs. msolve.
  - destruct (Z.leb_spec xe e); simpl.
    + split; [done|]. split; [msolve|]. split; [by left|].
      intros [?|(y & ? & Hn)]; [done|msolve].
    + destruct (Z.leb_spec xs e); simpl.
      * destruct (Hmerge s) as [Hc Hm]; [lia..|].
        split; [done|]. split; [intros y; rewrite Hm; msolve|].
        split; [|done]. intros _. right. exists e. msolve.
      * destruct (IH e res) as (Hc & Hm & Hr); [done|lia|done|].
        destruct (insert_loop (xs, xe) res tl) as [r tl'] eqn:?; simpl in *.
        split; [done|]. split; [intros y; rewrite Hm; msolve|].
        rewrite Hr. split; (intros [?|(y & Hy & Hn)]; [by left|right; exists y; msolve]).
Qed.

Lemma insert_spec x l lo : lo < x.1 → canon lo l →
  canon lo (insert x l).2
  ∧ (∀ y, mem y (insert x l).2 ↔ in_range y x ∨ mem y l)
  ∧ ((insert x l).1 = true ↔ ∃ y, in_range y x ∧ ¬ mem y l).
Proof.
  intros Hlo Hl. unfold insert, range_is_empty. destruct (Z.ltb_spec x.1 x.2); simpl.
  - destruct (insert_loop_spec x l lo false) as (? & ? & Hr); [done|done|done|].
    split; [done|]. split; [done|]. rewrite Hr.
    split; [by intros [?|?]|by right].
  - unfold in_range. split; [done|]. split; [intros y; msolve|].
    split; [done|]. intros (y & ? & _). lia.
Qed.

Lemma remove_loop_spec x l : ∀ lo res, x.1 < x.2 → canon lo l →
  canon lo (remove_loop x res l).2
  ∧ (∀ y, mem y (remove_loop x res l).2 ↔ mem y l ∧ ¬ in_range y x)
  ∧ ((remove_loop x res l).1 = true ↔ res = true ∨ ∃ y, in_range y x ∧ mem y l).
Proof.
  destruct x as [xs xe]. unfold in_range. simpl.
  induction l as [|[s e] tl IH]; intros lo res Hx Hl; simpl.
  { split; [done|]. split; [msolve|]. split; [by left|]. by intros [?|(? & ? & [])]. }
  destruct Hl as (Hlos & Hse & Htl).
  assert (Hgt := λ y, canon_mem_gt e tl y Htl).
  rewrite (proj2 (Z.eqb_neq _ _)), Z.geb_leb by lia.
  destruct (Z.leb_spec xe s); simpl.
  { split; [done|]. split; [intros y; specialize (Hgt y); msolve|]. split; [by left|].
    intros [?|(y & ? & ?)]; [done|]. specialize (Hgt y). msolve. }
  destruct (Z.leb_spec e xs); simpl.
  { destruct (IH e res) as (Hc & Hm & Hr); [done|done|].
    destruct (remove_loop (xs, xe) res tl) as [r tl'] eqn:?; simpl in *.
    split; [done|]. split; [intros y; rewrite Hm; msolve|].
    rewrite Hr. split; (intros [?|(y & Hy & Hn)]; [by left|right; exists y; msolve]). }
  destruct (IH e true) as (Hc & Hm & Hr); [done|done|].
  destruct (remove_loop (xs, xe) true tl) as [r tl'] eqn:?; simpl in *.
  unfold range_is_empty; simpl.
  assert (Hr' : r = true ↔ res = true ∨ ∃ y, xs ≤ y < xe ∧ (s ≤ y < e ∨ mem y tl)).
  { split; [|intros _; by apply Hr; left]. intros _. right. exists (Z.max s xs). lia. }
  assert (Hc' : ∀ lo', lo' ≤ e → canon lo' tl') by (intros; by apply (canon_weaken e)).
  destruct (Z.ltb_spec s xs), (Z.ltb_spec xe e); simpl;
    (split; [repeat split; try lia; auto using Z.lt_le_incl with lia |]);
    (split; [intros y; rewrite Hm; specialize (Hgt y); msolve | done]).
Qed.

Lemma remove_spec x l lo : canon lo l →
  canon lo (remove x l).2
  ∧ (∀ y, mem y (remove x l).2 ↔ mem y l ∧ ¬ in_range y x)
  ∧ ((remove x l).1 = true ↔ ∃ y, in_range y x ∧ mem y l).
Proof.
  intros Hl. unfold remove, range_is_empty. destruct (Z.ltb_spec x.1 x.2); simpl.
  - destruct (remove_loop_spec x l lo false) as (? & ? & Hr); [done|done|].
    split; [done|]. split; [done|]. rewrite Hr. split; [by intros [?|?]|by right].
  - unfold in_range. split; [done|]. split; [intros y; msolve|].
    split; [done|]. intros (y & ? & _). lia.
Qed.

Lemma partition_point_app x l1 l2 : keys_le x l1 → keys_gt x l2 →
  partition_point (λ r, r.1 <=? x) (l1 ++ l2) = length l1.
Proof.
  intros H1 H2. induction H1 as [|[s e] l1 Hs H1 IH]; simpl in *.
  - destruct H2 as [|[s e] l2 Hs ?]; simpl in *; [done|]. by rewrite (proj2 (Z.leb_gt _ _)).
  - rewrite (proj2 (Z.leb_le _ _)) by done. by rewrite IH.
Qed.

Lemma contains_spec lo l x : canon lo l → contains l x = true ↔ mem x l.
Proof.
  intros Hl. destruct (canon_split x lo l Hl) as (l1 & l2 & -> & H1 & Hc & _ & H2 & _).
  rewrite (mem_split x lo) by done. unfold contains. rewrite partition_point_app by done.
  destruct l1 as [|[s e] l1 _] using rev_ind; [done|].
  rewrite last_snoc, length_app, Nat.add_comm. simpl.
  rewrite <- app_assoc, lookup_app_r, Nat.sub_diag by done. simpl.
  apply Forall_app in H1 as [_ He]. rewrite Forall_singleton in He. simpl in He.
  unfold range_contains. simpl. rewrite (proj2 (Z.leb_le s x)) by done. simpl. apply Z.ltb_lt.
Qed.

Lemma max_spec lo l : -1 ≤ lo → canon lo l →
  match max l with
  | Some x => mem x l ∧ ∀ y, mem y l → y ≤ x
  | None => l = []
  end.
Proof.
  intros Hlo Hl. unfold max. destruct l as [|[s e] l _] using rev_ind; [done|].
  rewrite last_snoc. simpl. apply canon_app in Hl as [Hl (? & ? & _)].
  pose proof (canon_end_ge _ _ Hl).
  unfold checked_sub. rewrite (proj2 (Z.ltb_ge _ _)) by lia.
  split; [rewrite mem_app; right; left; lia|].
  intros y. rewrite mem_app. intros [Hm|[?|[]]]; [|lia].
  apply (canon_mem_lt_end lo l y Hl) in Hm. lia.
Qed.

End array.

(** ** [RangeSet] implements the set *)

Section btree.
Import RangeSet.

Lemma contains_btree_spec lo m x : canon lo m → contains m x = true ↔ mem x m.
Proof.
  intros Hm. destruct (canon_split x lo m Hm) as (l1 & l2 & -> & H1 & Hc & _ & H2 & Hp & _).
  rewrite (mem_split x lo) by done. unfold contains, pred. rewrite Hp.
  destruct (last l1) as [[s e]|]; [|done]. rewrite Z.gtb_ltb. apply Z.ltb_lt.
Qed.

(** The loop of [insert] is [merge_next] on the ranges after the start. *)
Lemma absorb_spec l1 xs l2 : ∀ fuel xe, keys_le xs l1 → canon xs l2 → (length l2 ≤ fuel)%nat →
  ∃ xe' l2', absorb fuel xs xe (l1 ++ l2) = (xe', l1 ++ l2')
    ∧ ArrayRangeSet.merge_next xs xe l2 = (xs, xe') :: l2'.
Proof.
  induction l2 as [|[ns ne] l2 IH]; intros fuel xe H1 H2 Hfuel.
  - exists xe, []. split; [|done]. destruct fuel; [done|]. simpl. unfold succ.
    by rewrite bt_succ_app by (done || constructor).
  - destruct fuel as [|fuel]; [simpl in Hfuel; lia|]. cbn [absorb]. unfold succ.
    rewrite bt_succ_app; [|done|by apply (canon_keys_gt xs)]. simpl.
    destruct H2 as (? & ? & H2). rewrite Z.gtb_ltb, Z.geb_leb.
    destruct (Z.ltb_spec xe ns).
    + exists xe, ((ns, ne) :: l2). by rewrite (proj2 (Z.leb_gt _ _)) by lia.
    + rewrite (proj2 (Z.leb_le _ _)) by lia.
      rewrite bt_remove_app by (eapply Forall_impl; [exact H1|]; intros [??]; simpl; lia).
      apply IH; [done| by apply (canon_weaken ne); [lia|] | simpl in Hfuel; lia].
Qed.

Lemma insert_from_spec lo l1 xs xe l2 :
  canon lo l1 → keys_lt xs l1 → end_of lo l1 < xs → xs < xe → canon xs l2 →
  insert_from xs xe (l1 ++ l2) = (true, l1 ++ ArrayRangeSet.merge_next xs xe l2)
  ∧ canon lo (l1 ++ ArrayRangeSet.merge_next xs xe l2)
  ∧ ∀ y, mem y (l1 ++ ArrayRangeSet.merge_next xs xe l2) ↔ xs ≤ y < xe ∨ mem y (l1 ++ l2).
Proof.
  intros Hc Hlt Hend Hx Hl2.
  destruct (merge_next_spec l2 xs xe (end_of lo l1)) as [Hmc Hmm]; [done|done|done|].
  destruct (absorb_spec l1 xs l2 (length (l1 ++ l2)) xe) as (xe' & l2' & Habs & Hmn);
    [eapply Forall_impl; [exact Hlt|]; intros [??]; simpl; lia | done | rewrite length_app; lia |].
  split; [|split].
  - unfold insert_from. rewrite Habs, Hmn. rewrite bt_insert_app; [done|done|].
    rewrite Hmn in Hmc. destruct Hmc as (? & ? & ?). by apply (canon_keys_gt xe'); [|lia].
  - by apply canon_app.
  - intros y. rewrite !mem_app, Hmm. tauto.
Qed.

Lemma insert_btree_spec x m lo : lo < x.1 → canon lo m →
  canon lo (insert x m).2
  ∧ (∀ y, mem y (insert x m).2 ↔ in_range y x ∨ mem y m)
  ∧ ((insert x m).1 = true ↔ ∃ y, in_range y x ∧ ¬ mem y m).
Proof.
  intros Hlo Hm. unfold insert, range_is_empty, in_range. destruct x as [xs xe]; simpl in *.
  destruct (Z.ltb_spec xs xe); simpl.
  2: { split; [done|]. split; [intros y; msolve|]. split; [done|]. intros (y & ? & _). lia. }
  destruct (canon_split xs lo m Hm) as (l1 & l2 & -> & H1 & Hc & Hc2 & H2 & Hp & _).
  unfold pred. rewrite Hp.
  assert (Hxs2 : canon xs l2).
  { destruct l2 as [|[s2 e2] l2]; [done|]. destruct Hc2 as (? & ? & ?).
    split; [|done]. by apply (Forall_inv H2). }
  destruct l1 as [|[s e] l1 _] using rev_ind.
  { change (last []) with (@None range). cbv iota.
    destruct (insert_from_spec lo [] xs xe l2) as (-> & Hc' & Hm');
      [done|constructor|done|done|done|]. simpl in *.
    split; [done|]. split; [done|]. split; [|done]. intros _. exists xs. split; [lia|].
    by apply keys_gt_not_mem. }
  rewrite last_snoc. unfold end_of in Hc2. rewrite last_snoc in Hc2. simpl in Hc2.
  apply Forall_app in H1 as [H1 He]. rewrite Forall_singleton in He. simpl in He.
  pose proof (canon_keys_lt lo l1 s e Hc) as Hlt.
  pose proof Hc as Hc0. apply canon_app in Hc0 as [Hc1 (Hs & Hse & _)].
  rewrite !Z.geb_leb. destruct (Z.leb_spec xe e); simpl.
  { split; [done|]. split; [|split; [done|]].
    - intros y. split; [by right|]. intros [?|?]; [|done].
      rewrite !mem_app. left. right. left. lia.
    - intros (y & ? & Hn). exfalso. apply Hn. rewrite !mem_app. left. right. left. lia. }
  assert (Hne : ¬ mem (Z.max e xs) ((l1 ++ [(s, e)]) ++ l2)).
  { rewrite !mem_app. intros [[Hm'|Hm']|Hm'].
    - apply (canon_mem_lt_end lo l1 _ Hc1) in Hm'. lia.
    - simpl in Hm'. lia.
    - destruct (decide (e ≤ xs)).
      + rewrite Z.max_r in Hm' by lia. by apply (keys_gt_not_mem xs l2 H2).
      + apply (canon_mem_gt e l2 _ Hc2) in Hm'. lia. }
  destruct (Z.leb_spec xs e); simpl.
  - rewrite <- app_assoc. simpl. rewrite bt_remove_app by done.
    destruct (insert_from_spec lo l1 s xe l2) as (-> & Hc' & Hm');
      [done|done|done|lia|by apply (canon_weaken xs)|]. simpl.
    split; [done|]. split; [intros y; rewrite Hm', !mem_app; simpl; msolve|].
    split; [|done]. intros _. exists (Z.max e xs). split; [lia|].
    by rewrite <- app_assoc in Hne.
  - destruct (insert_from_spec lo (l1 ++ [(s, e)]) xs xe l2) as (-> & Hc' & Hm').
    + done.
    + apply Forall_app. split; [|constructor; [simpl; lia|done]].
      eapply Forall_impl; [exact Hlt|]. intros [??]; simpl; lia.
    + unfold end_of. by rewrite last_snoc.
    + done.
    + done.
    + simpl. split; [done|]. split; [done|]. split; [|done]. intros _.
      exists (Z.max e xs). split; [lia|done].
Qed.

(** A set below [xs] with the ranges after it, as [pred] and [succ] see it. *)
Lemma canon_snoc_inv lo l1 s e l2 : canon lo (l1 ++ [(s, e)]) → canon (end_of lo (l1 ++ [(s, e)])) l2 →
  canon lo l1 ∧ end_of lo l1 < s ∧ s < e ∧ canon e l2 ∧ keys_lt s l1.
Proof.
  intros Hc H2. unfold end_of in H2. rewrite last_snoc in H2. simpl in H2.
  pose proof (canon_keys_lt lo l1 s e Hc). apply canon_app in Hc as [? (? & ? & _)]. done.
Qed.

Lemma join_succ_spec x l1 l2 : keys_le x l1 → canon x l2 →
  ∃ e' l2', join_succ x (x + 1) (l1 ++ l2) = (e', l1 ++ l2')
    ∧ ∀ s, ArrayRangeSet.merge_next s (x + 1) l2 = (s, e') :: l2'.
Proof.
  intros H1 H2. unfold join_succ, succ.
  rewrite bt_succ_app; [|done|by apply (canon_keys_gt x)].
  destruct l2 as [|[ns ne] l2]; simpl; [by eexists _, []|].
  destruct H2 as (? & ? & H2). destruct (Z.eqb_spec ns (x + 1)).
  - exists ne, l2. subst. split.
    { rewrite bt_remove_app; [done|]. eapply Forall_impl; [exact H1|]. intros [??]; simpl; lia. }
    intros s. rewrite Z.geb_leb, Z.leb_refl. rewrite Z.max_l by lia.
    destruct l2 as [|[ns2 ne2] l2]; [done|]. simpl. destruct H2 as (? & _).
    by rewrite Z.geb_leb, (proj2 (Z.leb_gt _ _)) by lia.
  - exists (x + 1), ((ns, ne) :: l2). split; [done|]. intros s.
    by rewrite Z.geb_leb, (proj2 (Z.leb_gt _ _)) by lia.
Qed.

(** [insert_one] takes a separate path but computes [insert(x..x + 1)]. *)
Lemma insert_one_eq x m lo : lo < x → 0 ≤ x < u_max 64 → canon lo m →
  insert_one x m = insert (x, x + 1) m.
Proof.
  intros Hlo Hx Hm. unfold insert_one, insert, range_is_empty. simpl.
  unfold wrapping_add. rewrite wrap_small by (unfold is_u, u_max in *; lia).
  rewrite (proj2 (Z.ltb_lt x (x + 1))) by lia. simpl.
  destruct (canon_split x lo m Hm) as (l1 & l2 & -> & H1 & Hc & Hc2 & H2 & Hp & _).
  unfold pred. rewrite Hp.
  assert (Hxs2 : canon x l2).
  { destruct l2 as [|[s2 e2] l2]; [done|]. destruct Hc2 as (? & ? & ?).
    split; [|done]. by apply (Forall_inv H2). }
  assert (Hfresh : ∀ s l1, keys_lt s l1 → end_of lo l1 < s → s ≤ x → canon lo l1 → keys_le x l1 →
    insert_from s (x + 1) (l1 ++ l2) =
    (let '(new_end, m) := join_succ x (x + 1) (l1 ++ l2) in (true, bt_insert s new_end m))).
  { intros s k Hlt Hend Hsx Hck Hle.
    destruct (insert_from_spec lo k s (x + 1) l2) as (-> & Hci & _);
      [done|done|done|lia|by apply (canon_weaken x)|].
    destruct (join_succ_spec x k l2) as (e' & l2' & -> & Hmn); [done|done|].
    rewrite Hmn in *. apply canon_app in Hci as [_ (? & ? & ?)].
    rewrite bt_insert_app; [done|done|]. apply (canon_keys_gt e'); [done|lia]. }
  destruct l1 as [|[s e] l1 _] using rev_ind.
  { change (last []) with (@None range). cbv iota.
    symmetry. apply (Hfresh x []); try constructor; unfold end_of; simpl; lia. }
  rewrite last_snoc. destruct (canon_snoc_inv _ _ _ _ _ Hc Hc2) as (Hc1 & Hs & Hse & _ & Hlt).
  pose proof H1 as H1'. apply Forall_app in H1' as [H1l Hsx].
  rewrite Forall_singleton in Hsx. simpl in Hsx.
  rewrite Z.gtb_ltb, !Z.geb_leb.
  destruct (Z.ltb_spec x e); [by rewrite (proj2 (Z.leb_le (x + 1) e)) by lia|].
  rewrite (proj2 (Z.leb_gt (x + 1) e)) by lia.
  destruct (Z.eqb_spec e x).
  - rewrite (proj2 (Z.leb_le x e)) by lia. rewrite <- app_assoc. simpl.
    rewrite bt_remove_app by done. symmetry. by apply Hfresh.
  - rewrite (proj2 (Z.leb_gt x e)) by lia. symmetry. apply Hfresh; try done.
    + apply Forall_app. split; [|constructor; [simpl; lia|done]].
      eapply Forall_impl; [exact Hlt|]. intros [??]; simpl; lia.
    + unfold end_of. rewrite last_snoc. simpl. lia.
Qed.

(** The loop of [remove] does on the tree what the array version does on the suffix. *)
Lemma remove_after_spec l1 x l2 : ∀ fuel after, x.1 < x.2 → keys_le x.1 l1 → canon x.1 l2 →
  (length l2 ≤ fuel)%nat →
  remove_after fuel x after (l1 ++ l2) =
  ((ArrayRangeSet.remove_loop x after l2).1, l1 ++ (ArrayRangeSet.remove_loop x after l2).2).
Proof.
  destruct x as [xs xe]; simpl. induction l2 as [|[s e] l2 IH]; intros fuel after Hx H1 H2 Hfuel.
  - destruct fuel; [done|]. simpl. unfold succ. by rewrite bt_succ_app by (done || constructor).
  - destruct fuel as [|fuel]; [simpl in Hfuel; lia|]. cbn [remove_after]. unfold succ.
    rewrite bt_succ_app; [|done|by apply (canon_keys_gt xs)]. simpl.
    destruct H2 as (? & ? & H2). rewrite !Z.geb_leb, Z.gtb_ltb.
    rewrite (proj2 (Z.eqb_neq xs xe)) by lia.
    destruct (Z.leb_spec xe s); [done|].
    rewrite (proj2 (Z.leb_gt e xs)) by lia.
    rewrite bt_remove_app by (eapply Forall_impl; [exact H1|]; intros [??]; simpl; lia).
    unfold range_is_empty. simpl. rewrite (proj2 (Z.ltb_ge s xs)) by lia. simpl.
    destruct (Z.ltb_spec xe e); simpl.
    + assert (Hstop : ArrayRangeSet.remove_loop (xs, xe) true l2 = (true, l2)).
      { destruct l2 as [|[s2 e2] l2]; [done|]. simpl. destruct H2 as (? & _).
        rewrite (proj2 (Z.eqb_neq xs xe)), (proj2 (Z.leb_le xe s2)) by lia. done. }
      rewrite Hstop. simpl. rewrite bt_insert_app; [done| |].
      * eapply Forall_impl; [exact H1|]. intros [??]; simpl; lia.
      * apply (canon_keys_gt e); [done|lia].
    + rewrite IH; [|done|done|by apply (canon_weaken e); [lia|]|simpl in Hfuel; lia].
      by destruct (ArrayRangeSet.remove_loop (xs, xe) true l2).
Qed.

Lemma remove_after_set lo l1 x l2 after fuel :
  x.1 < x.2 → canon lo l1 → end_of lo l1 ≤ x.1 → keys_le x.1 l1 →
  canon (end_of lo l1) l2 → keys_gt x.1 l2 → (length l2 ≤ fuel)%nat →
  canon lo (remove_after fuel x after (l1 ++ l2)).2
  ∧ (∀ y, mem y (remove_after fuel x after (l1 ++ l2)).2 ↔ mem y (l1 ++ l2) ∧ ¬ in_range y x)
  ∧ ((remove_after fuel x after (l1 ++ l2)).1 = true
     ↔ after = true ∨ ∃ y, in_range y x ∧ mem y (l1 ++ l2)).
Proof.
  intros Hx Hc Hend H1 H2 Hk Hfuel.
  assert (Hx2 : canon x.1 l2).
  { destruct l2 as [|[s2 e2] l2]; [done|]. destruct H2 as (? & ? & ?).
    split; [|done]. by apply (Forall_inv Hk). }
  rewrite remove_after_spec by done.
  destruct (remove_loop_spec x l2 (end_of lo l1) after) as (Hrc & Hrm & Hrr); [done|done|].
  simpl. assert (Hlt := λ y, canon_mem_lt_end lo l1 y Hc). unfold in_range in *.
  split; [by apply canon_app|]. split.
  - intros y. rewrite !mem_app, Hrm. specialize (Hlt y). msolve.
  - rewrite Hrr. split; (intros [?|(y & ? & Hy)]; [by left|right; exists y]).
    + rewrite mem_app. tauto.
    + rewrite mem_app in Hy. specialize (Hlt y). msolve.
Qed.

Lemma remove_btree_spec x m lo : lo ≤ x.1 → canon lo m →
  canon lo (remove x m).2
  ∧ (∀ y, mem y (remove x m).2 ↔ mem y m ∧ ¬ in_range y x)
  ∧ ((remove x m).1 = true ↔ ∃ y, in_range y x ∧ mem y m).
Proof.
  intros Hlo Hm. unfold remove, range_is_empty. destruct x as [xs xe]. simpl in Hlo.
  destruct (Z.ltb_spec xs xe) as [Hx|]; simpl.
  2: { rewrite (proj2 (Z.ltb_ge xs xe)) by done. unfold in_range. simpl.
       split; [done|]. split; [intros y; msolve|]. split; [done|]. intros (y & ? & _). lia. }
  rewrite (proj2 (Z.ltb_lt xs xe)) by done. simpl.
  destruct (canon_split xs lo m Hm) as (l1 & l2 & -> & H1 & Hc & Hc2 & H2 & Hp & _).
  unfold pred. rewrite Hp.
  assert (Hno : end_of lo l1 ≤ xs → let r := remove_after (length (l1 ++ l2)) (xs, xe) false (l1 ++ l2) in
    canon lo r.2 ∧ (∀ y, mem y r.2 ↔ mem y (l1 ++ l2) ∧ ¬ in_range y (xs, xe))
    ∧ (r.1 = true ↔ ∃ y, in_range y (xs, xe) ∧ mem y (l1 ++ l2))).
  { intros Hend. destruct (remove_after_set lo l1 (xs, xe) l2 false (length (l1 ++ l2)))
      as (? & ? & Hr); try done; [rewrite length_app; lia|].
    simpl. split; [done|]. split; [done|]. rewrite Hr. split; [by intros [?|?]|by right]. }
  destruct l1 as [|[s e] l1 _] using rev_ind.
  { apply Hno. unfold end_of. simpl. lia. }
  rewrite last_snoc, !Z.gtb_ltb. destruct (Z.ltb_spec xs e).
  2: { apply Hno. unfold end_of. rewrite last_snoc. done. }
  clear Hno Hp. destruct (canon_snoc_inv _ _ _ _ _ Hc Hc2) as (Hc1 & Hs & Hse & He2 & Hlt).
  apply Forall_app in H1 as [H1 Hsx]. rewrite Forall_singleton in Hsx. simpl in Hsx.
  rewrite <- app_assoc. simpl. rewrite bt_remove_app by done.
  set (k := l1 ++ if s <? xs then [(s, xs)] else []).
  assert (Hk : (if s <? xs then bt_insert s xs (l1 ++ l2) else l1 ++ l2) = k ++ l2).
  { unfold k. destruct (Z.ltb_spec s xs); [|by rewrite app_nil_r].
    rewrite <- app_assoc. apply bt_insert_app; [done|]. apply (canon_keys_gt e); [done|lia]. }
  assert (Hkc : canon lo k ∧ end_of lo k ≤ xs ∧ keys_le xs k).
  { unfold k. destruct (Z.ltb_spec s xs).
    - split; [by apply canon_app|]. unfold end_of. rewrite last_snoc. split; [done|].
      apply Forall_app. split; [done|]. by constructor.
    - rewrite app_nil_r. split; [done|]. split; [lia|done]. }
  assert (Hkm : ∀ y, mem y k ↔ mem y l1 ∨ s ≤ y < xs).
  { intros y. unfold k. rewrite mem_app. destruct (Z.ltb_spec s xs); simpl; msolve. }
  assert (Hl1 := λ y, canon_mem_lt_end lo l1 y Hc1). assert (Hl2 := λ y, canon_mem_gt e l2 y He2).
  destruct Hkc as (Hkc & Hkend & Hkle). rewrite Hk, Z.geb_leb. unfold in_range. simpl.
  destruct (Z.leb_spec xe e).
  - assert (Hins : (if xe <? e then bt_insert xe e (k ++ l2) else k ++ l2)
                   = k ++ (if xe <? e then [(xe, e)] else []) ++ l2).
    { destruct (Z.ltb_spec xe e); [|done]. apply bt_insert_app.
      - eapply Forall_impl; [exact Hkle|]. intros [??]; simpl; lia.
      - apply (canon_keys_gt e); [done|lia]. }
    rewrite Hins. simpl. split; [|split].
    + apply canon_app. split; [done|]. destruct (Z.ltb_spec xe e); simpl.
      * by repeat split; [lia|lia|].
      * apply (canon_weaken e); [lia|done].
    + intros y. rewrite !mem_app, Hkm. simpl. specialize (Hl1 y). specialize (Hl2 y).
      destruct (Z.ltb_spec xe e); simpl; msolve.
    + split; [|done]. intros _. exists xs. rewrite mem_app. simpl. msolve.
  - rewrite (proj2 (Z.ltb_ge xe e)) by lia.
    destruct (remove_after_set lo k (xs, xe) l2 false (length (k ++ l2))) as (Hrc & Hrm & _);
      try done; [apply (canon_weaken e); [lia|done] | rewrite length_app; lia |].
    destruct (remove_after _ _ _ _) as [b m'] eqn:?; simpl in *. split; [done|]. split.
    + intros y. rewrite Hrm, !mem_app, Hkm. unfold in_range. simpl.
      specialize (Hl1 y). specialize (Hl2 y). msolve.
    + split; [|done]. intros _. exists xs. rewrite mem_app. simpl. msolve.
Qed.

(** The iterator over the ranges after the start: it yields their overlap with the
    range and ends in the state [merge_next] describes. *)
Lemma replace_iter_spec l1 rs l2 : ∀ fuel re lo', keys_lt rs l1 → rs < re →
  canon rs l2 → canon lo' l2 → (length l2 < fuel)%nat →
  ∃ items re' l2',
    replace_iter fuel (mk_replace None (rs, re) (l1 ++ l2))
      = (items, mk_replace None (rs, re') (l1 ++ l2'))
    ∧ ArrayRangeSet.merge_next rs re l2 = (rs, re') :: l2'
    ∧ canon lo' items ∧ ∀ y, mem y items ↔ mem y l2 ∧ y < re.
Proof.
  induction l2 as [|[ns ne] l2 IH]; intros fuel re lo' H1 Hre H2 Hlo Hfuel;
    (destruct fuel as [|fuel]; [simpl in Hfuel; lia|]); cbn [replace_iter];
    unfold replace_next, succ; cbn [rp_pred rp_range rp_set];
    assert (Hle : keys_le rs l1) by (eapply Forall_impl; [exact H1|]; intros [??]; simpl; lia).
  - rewrite bt_succ_app by (done || constructor). simpl.
    exists [], re, []. split; [done|]. split; [done|]. split; [done|]. simpl. tauto.
  - rewrite bt_succ_app; [|done|by apply (canon_keys_gt rs)]. simpl.
    destruct H2 as (? & ? & H2), Hlo as (? & _ & _). rewrite Z.gtb_ltb, Z.geb_leb.
    assert (Hgt := λ y, canon_mem_gt ne l2 y H2).
    destruct (Z.ltb_spec re ns).
    + rewrite (proj2 (Z.leb_gt ns re)) by lia.
      exists [], re, ((ns, ne) :: l2). split; [done|]. split; [done|]. split; [done|].
      intros y. simpl. specialize (Hgt y). msolve.
    + rewrite (proj2 (Z.leb_le ns re)) by lia.
      rewrite bt_remove_app by (eapply Forall_impl; [exact H1|]; intros [??]; simpl; lia).
      rewrite (Z.max_comm ne re).
      destruct (Z.eqb_spec ns (Z.min re ne)).
      * exists [], (Z.max re ne), l2. split; [done|]. split.
        { destruct l2 as [|[n2 e2] l2]; [done|]. simpl. destruct H2 as (? & _).
          by rewrite Z.geb_leb, (proj2 (Z.leb_gt n2 _)) by lia. }
        split; [done|]. intros y. simpl. specialize (Hgt y). msolve.
      * destruct (IH fuel (Z.max re ne) ne) as (items & re' & l2' & -> & Hmn & Hci & Hmi);
          [done|lia|by apply (canon_weaken ne); [lia|]|done|simpl in Hfuel; lia|].
        exists ((ns, Z.min re ne) :: items), re', l2'. split; [done|]. split; [done|]. split.
        { split; [done|]. split; [lia|]. apply (canon_weaken ne); [lia|done]. }
        intros y. simpl. rewrite Hmi. specialize (Hgt y). msolve.
Qed.

Lemma replace_drained l1 rs re l2 items fuel fuel' it :
  replace_iter fuel (mk_replace None (rs, re) (l1 ++ l2)) = (items, it) →
  keys_lt rs l1 → rs < re → canon rs l2 → (length l2 < fuel)%nat → (length l2 < fuel')%nat →
  bt_insert (rp_range (replace_iter fuel' it).2).1 (rp_range (replace_iter fuel' it).2).2
    (rp_set (replace_iter fuel' it).2) = l1 ++ ArrayRangeSet.merge_next rs re l2.
Proof.
  intros Hit H1 Hre H2 Hfuel Hfuel'.
  destruct (replace_iter_spec l1 rs l2 fuel re rs) as (items' & re' & l2' & Heq & Hmn & _ & _);
    try done.
  rewrite Hit in Heq. injection Heq as -> ->.
  destruct (merge_next_spec l2 rs re (rs - 1)) as [Hc _]; [lia|done|done|].
  rewrite Hmn in Hc. destruct Hc as (? & ? & Hc).
  destruct (replace_iter_spec l1 rs l2' fuel' re' rs) as (it2 & re2 & l2'' & -> & Hmn2 & _ & _);
    [done|done|by apply (canon_weaken re'); [lia|]|by apply (canon_weaken re'); [lia|]| |].
  { assert (Hlen : ∀ l s e e' l', ArrayRangeSet.merge_next s e l = (s, e') :: l' →
      (length l' ≤ length l)%nat).
    { intros l. induction l as [|[a b] l IH]; intros s e e' l'; simpl; [by intros [= <- <-]|].
      case_match; [intros ?%IH; lia | intros [= <- <-]; simpl; lia]. }
    apply Hlen in Hmn. lia. }
  assert (Hstop : ArrayRangeSet.merge_next rs re' l2' = (rs, re') :: l2').
  { destruct l2' as [|[a b] l2']; [done|]. simpl. destruct Hc as (? & _).
    by rewrite Z.geb_leb, (proj2 (Z.leb_gt a _)) by lia. }
  rewrite Hstop in Hmn2. injection Hmn2 as <- <-. simpl. rewrite Hmn.
  apply bt_insert_app; [done|]. apply (canon_keys_gt re'); [done|lia].
Qed.

(** A whole [for] loop over the iterator, its drop included. *)
Lemma replace_run l1 rs re l2 lo' p fuel : keys_lt rs l1 → rs < re → canon rs l2 → canon lo' l2 →
  (S (length l2) < fuel)%nat →
  ∃ items,
    (let '(its, it) := replace_iter fuel (mk_replace p (rs, re) (l1 ++ l2)) in
     let '(_, it) := replace_iter fuel it in
     (its, bt_insert (rp_range it).1 (rp_range it).2 (rp_set it)))
    = (option_list p ++ items, l1 ++ ArrayRangeSet.merge_next rs re l2)
    ∧ canon lo' items ∧ ∀ y, mem y items ↔ mem y l2 ∧ y < re.
Proof.
  intros H1 Hre H2 Hlo Hfuel. destruct fuel as [|fuel]; [lia|].
  assert (Hpend : ∀ p, replace_iter (S fuel) (mk_replace (Some p) (rs, re) (l1 ++ l2)) =
    (let '(its, it) := replace_iter fuel (mk_replace None (rs, re) (l1 ++ l2)) in (p :: its, it)))
    by done.
  assert (Hdone : ∀ g items it, (length l2 < g)%nat →
    replace_iter g (mk_replace None (rs, re) (l1 ++ l2)) = (items, it) →
    (let '(_, it) := replace_iter (S fuel) it in bt_insert (rp_range it).1 (rp_range it).2 (rp_set it))
    = l1 ++ ArrayRangeSet.merge_next rs re l2).
  { intros g items it Hg Heq.
    pose proof (replace_drained _ _ _ _ _ _ (S fuel) _ Heq H1 Hre H2 Hg ltac:(lia)) as Hd.
    by destruct (replace_iter (S fuel) it). }
  destruct p as [p|].
  - rewrite Hpend.
    destruct (replace_iter_spec l1 rs l2 fuel re lo') as (items & re' & l2' & Heq & _ & Hc & Hm);
      [done|done|done|done|lia|].
    rewrite Heq. apply Hdone in Heq; [|lia]. destruct (replace_iter (S fuel) _) as [? it].
    exists items. by rewrite Heq.
  - destruct (replace_iter_spec l1 rs l2 (S fuel) re lo') as (items & re' & l2' & Heq & _ & Hc & Hm);
      [done|done|done|done|lia|].
    rewrite Heq. apply Hdone in Heq; [|lia]. destruct (replace_iter (S fuel) _) as [? it].
    exists items. by rewrite Heq.
Qed.

Lemma replace_all_spec x m lo : x.1 < x.2 → lo < x.1 → canon lo m →
  canon (x.1 - 1) (replace_all x m).1
  ∧ (∀ y, mem y (replace_all x m).1 ↔ in_range y x ∧ mem y m)
  ∧ (replace_all x m).2 = (insert x m).2.
Proof.
  intros Hx Hlo Hm. unfold replace_all, replace, insert, range_is_empty, in_range.
  destruct x as [xs xe]; cbn [fst snd] in *. rewrite (proj2 (Z.ltb_lt xs xe)) by done.
  destruct (canon_split xs lo m Hm) as (l1 & l2 & -> & H1 & Hc & Hc2 & H2 & Hp & _).
  unfold pred. rewrite Hp.
  assert (Hxs2 : canon xs l2).
  { destruct l2 as [|[s2 e2] l2]; [done|]. destruct Hc2 as (? & ? & ?).
    split; [|done]. by apply (Forall_inv H2). }
  assert (Hl1 := λ y, canon_mem_lt_end lo l1 y Hc). assert (Hl2 := λ y, canon_mem_gt xs l2 y Hxs2).
  assert (Hfuel : (S (length l2) < S (S (length (l1 ++ l2))))%nat) by (rewrite length_app; lia).
  assert (HA : end_of lo l1 < xs → keys_lt xs l1 →
    let r := (let '(items, it) := replace_iter (S (S (length (l1 ++ l2)))) (mk_replace None (xs, xe) (l1 ++ l2)) in
       let '(_, it0) := replace_iter (S (S (length (l1 ++ l2)))) it in
       (items, bt_insert (rp_range it0).1 (rp_range it0).2 (rp_set it0))) in
    canon (xs - 1) r.1 ∧ (∀ y, mem y r.1 ↔ xs ≤ y < xe ∧ mem y (l1 ++ l2))
    ∧ r.2 = (insert_from xs xe (l1 ++ l2)).2).
  { intros Hend Hlt.
    destruct (replace_run l1 xs xe l2 (xs - 1) None _ Hlt Hx Hxs2
      (canon_weaken xs (xs - 1) l2 ltac:(lia) Hxs2) Hfuel) as (items & Heq & Hci & Hmi).
    rewrite Heq. simpl. split; [done|]. split.
    - intros y. rewrite Hmi, mem_app. specialize (Hl1 y). specialize (Hl2 y). msolve.
    - by destruct (insert_from_spec lo l1 xs xe l2) as (-> & _). }
  destruct l1 as [|[s e] l1 _] using rev_ind.
  { change (last []) with (@None range). cbv iota. apply HA; [done|constructor]. }
  rewrite last_snoc, !Z.geb_leb.
  destruct (canon_snoc_inv _ _ _ _ _ Hc Hc2) as (Hc1 & Hs & Hse & He2 & Hlt).
  apply Forall_app in H1 as [H1 Hsx]. rewrite Forall_singleton in Hsx. simpl in Hsx.
  destruct (Z.leb_spec xs e) as [Hxe|Hxe].
  2: { rewrite (proj2 (Z.leb_gt xe e)) by lia. apply HA.
       - unfold end_of. by rewrite last_snoc.
       - apply Forall_app. split; [|constructor; [simpl; lia|done]].
         eapply Forall_impl; [exact Hlt|]. intros [??]; simpl; lia. }
  clear HA Hl1. assert (Hl1 := λ y, canon_mem_lt_end lo l1 y Hc1).
  assert (Hl2e := λ y, canon_mem_gt e l2 y He2).
  rewrite <- app_assoc. cbn [app]. rewrite bt_remove_app, (Z.min_r xs s) by done.
  set (p := if xs =? Z.min xe e then None else Some (xs, Z.min xe e)).
  destruct (replace_run l1 s (Z.max xe e) l2 (Z.max xs e) p (S (S (length (l1 ++ (s, e) :: l2)))))
    as (items & Heq & Hci & Hmi);
    [done | lia | by apply (canon_weaken xs) | by rewrite Z.max_r | by rewrite <- app_assoc in Hfuel |].
  rewrite Heq. simpl. split; [|split].
  - unfold p. destruct (Z.eqb_spec xs (Z.min xe e)); simpl.
    + apply (canon_weaken (Z.max xs e)); [lia|done].
    + split; [lia|]. split; [lia|]. apply (canon_weaken (Z.max xs e)); [lia|done].
  - intros y. rewrite !mem_app, Hmi. simpl. specialize (Hl1 y). specialize (Hl2e y).
    unfold p. destruct (Z.eqb_spec xs (Z.min xe e)); simpl; msolve.
  - destruct (Z.leb_spec xe e).
    + simpl. rewrite Z.max_r by lia. f_equal. destruct l2 as [|[a b] l2]; [done|].
      simpl. destruct He2 as (? & _). by rewrite Z.geb_leb, (proj2 (Z.leb_gt a _)) by lia.
    + rewrite Z.max_l by lia.
      by destruct (insert_from_spec lo l1 s xe l2) as (-> & _); [..|by apply (canon_weaken xs)|]; try lia.
Qed.

End btree.

(** ** The interface of a range set

    What the connection code relies on: every operation acts on an abstract set of
    integers, whichever representation is used. *)

Inductive op :=
| Insert (r : range) | InsertOne (x : Z) | Remove (r : range) | Contains (x : Z)
| PopMin | Min | Max.

Inductive obs :=
| ObsBool (b : bool) | ObsRange (r : option range) | ObsNum (x : option Z).

Class RangeSetOps := {
  rs_insert : range → list range → bool * list range;
  rs_insert_one : Z → list range → bool * list range;
  rs_remove : range → list range → bool * list range;
  rs_contains : list range → Z → bool;
  rs_pop_min : list range → option range * list range;
  rs_min : list range → option Z;
  rs_max : list range → option Z;
}.

Definition array_ops : RangeSetOps := {|
  rs_insert := ArrayRangeSet.insert; rs_insert_one := ArrayRangeSet.insert_one;
  rs_remove := ArrayRangeSet.remove; rs_contains := ArrayRangeSet.contains;
  rs_pop_min := ArrayRangeSet.pop_min; rs_min := ArrayRangeSet.min;
  rs_max := ArrayRangeSet.max |}.

Definition btree_ops : RangeSetOps := {|
  rs_insert := RangeSet.insert; rs_insert_one := RangeSet.insert_one;
  rs_remove := RangeSet.remove; rs_contains := RangeSet.contains;
  rs_pop_min := RangeSet.pop_min; rs_min := RangeSet.min;
  rs_max := RangeSet.max |}.

Definition step (O : RangeSetOps) (o : op) (l : list range) : obs * list range :=
  match o with
  | Insert r => let '(b, l) := rs_insert r l in (ObsBool b, l)
  | InsertOne x => let '(b, l) := rs_insert_one x l in (ObsBool b, l)
  | Remove r => let '(b, l) := rs_remove r l in (ObsBool b, l)
  | Contains x => (ObsBool (rs_contains l x), l)
  | PopMin => let '(r, l) := rs_pop_min l in (ObsRange r, l)
  | Min => (ObsNum (rs_min l), l)
  | Max => (ObsNum (rs_max l), l)
  end.

Fixpoint run (O : RangeSetOps) (os : list op) (l : list range) : list obs * list range :=
  match os with
  | [] => ([], l)
  | o :: os => let '(r, l) := step O o l in let '(rs, l) := run O os l in (r :: rs, l)
  end.

(** Arguments are [u64]; [insert_one] of [u64::MAX] would wrap. *)
Definition op_ok (o : op) : Prop :=
  match o with
  | Insert r | Remove r => is_u 64 r.1 ∧ is_u 64 r.2
  | InsertOne x => 0 ≤ x < u_max 64
  | Contains x => is_u 64 x
  | _ => True
  end.

(** The abstract set machine. *)
Definition abs_step (o : op) (P : Z → Prop) (r : obs) (P' : Z → Prop) : Prop :=
  match o, r with
  | Insert x, ObsBool b =>
    (∀ y, P' y ↔ in_range y x ∨ P y) ∧ (b = true ↔ ∃ y, in_range y x ∧ ¬ P y)
  | InsertOne x, ObsBool b =>
    (∀ y, P' y ↔ y = x ∨ P y) ∧ (b = true ↔ ¬ P x)
  | Remove x, ObsBool b =>
    (∀ y, P' y ↔ P y ∧ ¬ in_range y x) ∧ (b = true ↔ ∃ y, in_range y x ∧ P y)
  | Contains x, ObsBool b => (∀ y, P' y ↔ P y) ∧ (b = true ↔ P x)
  | PopMin, ObsRange None => (∀ y, ¬ P y) ∧ (∀ y, ¬ P' y)
  | PopMin, ObsRange (Some x) =>
    x.1 < x.2 ∧ (∀ y, in_range y x → P y) ∧ (∀ y, P y → x.1 ≤ y) ∧ ¬ P x.2
    ∧ (∀ y, P' y ↔ P y ∧ ¬ in_range y x)
  | Min, ObsNum None | Max, ObsNum None => (∀ y, ¬ P y) ∧ (∀ y, ¬ P' y)
  | Min, ObsNum (Some x) => P x ∧ (∀ y, P y → x ≤ y) ∧ (∀ y, P' y ↔ P y)
  | Max, ObsNum (Some x) => P x ∧ (∀ y, P y → y ≤ x) ∧ (∀ y, P' y ↔ P y)
  | _, _ => False
  end.

Class RangeSetLaws (O : RangeSetOps) : Prop :=
  step_refines o l : op_ok o → wf l →
    wf (step O o l).2 ∧ abs_step o (λ y, mem y l) (step O o l).1 (λ y, mem y (step O o l).2).

Lemma min_refines l : wf l →
  abs_step Min (λ y, mem y l) (ObsNum (fst <$> head l)) (λ y, mem y l).
Proof.
  destruct l as [|[s e] l]; simpl; [tauto|]. intros (? & ? & Hl). split; [left; lia|].
  split; [|done]. intros y [?|Hm]; [lia|]. apply (canon_mem_gt e l y Hl) in Hm. lia.
Qed.

Lemma pop_refines s e l : wf ((s, e) :: l) →
  abs_step PopMin (λ y, mem y ((s, e) :: l)) (ObsRange (Some (s, e))) (λ y, mem y l).
Proof.
  intros (? & ? & Hl). assert (Hgt := λ y, canon_mem_gt e l y Hl).
  simpl. unfold in_range. simpl. split; [done|]. split; [by left|].
  split; [intros y; specialize (Hgt y); msolve|]. split; [specialize (Hgt e); msolve|].
  intros y; specialize (Hgt y); msolve.
Qed.

Lemma in_range_one x y : in_range y (x, x + 1) ↔ y = x.
Proof. unfold in_range. simpl. lia. Qed.

#[export] Instance array_laws : RangeSetLaws array_ops.
Proof.
  intros [r|x|r|x| | |] l Hok Hl; simpl in *.
  - destruct (insert_spec r l (-1)) as (? & ? & ?); [unfold is_u in *; lia|done|].
    destruct (ArrayRangeSet.insert r l) as [b l']; simpl in *. split; [done|]. by split.
  - unfold ArrayRangeSet.insert_one, wrapping_add.
    rewrite wrap_small by (unfold is_u, u_max in *; lia).
    destruct (insert_spec (x, x + 1) l (-1)) as (? & Hm & Hr); [simpl; lia|done|].
    destruct (ArrayRangeSet.insert (x, x + 1) l); simpl in *. split; [done|].
    split; [intros y; by rewrite Hm, in_range_one|].
    rewrite Hr. split; [intros (y & ->%in_range_one & ?); done|]. intros. exists x.
    by rewrite in_range_one.
  - destruct (remove_spec r l (-1)) as (? & ? & ?); [done|].
    destruct (ArrayRangeSet.remove r l) as [b l']; simpl in *. split; [done|]. by split.
  - split; [done|]. split; [done|]. by apply contains_spec with (-1).
  - destruct l as [|[s e] l]; [simpl; tauto|]. split; [|by apply pop_refines].
    simpl. destruct Hl as (? & ? & Hl). apply (canon_weaken e); [lia|done].
  - split; [done|]. by apply min_refines.
  - split; [done|]. pose proof (max_spec (-1) l ltac:(lia) Hl) as Hmax.
    destruct (ArrayRangeSet.max l); [naive_solver|]. subst. simpl. tauto.
Qed.

#[export] Instance btree_laws : RangeSetLaws btree_ops.
Proof.
  intros [r|x|r|x| | |] l Hok Hl; simpl in *.
  - destruct (insert_btree_spec r l (-1)) as (? & ? & ?); [unfold is_u in *; lia|done|].
    destruct (RangeSet.insert r l) as [b l']; simpl in *. split; [done|]. by split.
  - rewrite (insert_one_eq x l (-1)) by (done || lia).
    destruct (insert_btree_spec (x, x + 1) l (-1)) as (? & Hm & Hr); [simpl; lia|done|].
    destruct (RangeSet.insert (x, x + 1) l); simpl in *. split; [done|].
    split; [intros y; by rewrite Hm, in_range_one|].
    rewrite Hr. split; [intros (y & ->%in_range_one & ?); done|]. intros. exists x.
    by rewrite in_range_one.
  - destruct (remove_btree_spec r l (-1)) as (? & ? & ?); [unfold is_u in *; lia|done|].
    destruct (RangeSet.remove r l) as [b l']; simpl in *. split; [done|]. by split.
  - split; [done|]. split; [done|]. by apply contains_btree_spec with (-1).
  - destruct l as [|[s e] l]; [simpl; tauto|]. unfold RangeSet.pop_min. simpl. rewrite Z.eqb_refl.
    split; [|by apply pop_refines].
    simpl. destruct Hl as (? & ? & Hl). apply (canon_weaken e); [lia|done].
  - split; [done|]. by apply min_refines.
  - split; [done|]. pose proof (max_spec (-1) l ltac:(lia) Hl) as Hmax.
    unfold RangeSet.max. fold (ArrayRangeSet.max l).
    destruct (ArrayRangeSet.max l); [naive_solver|]. subst. simpl. tauto.
Qed.

Lemma bool_iff_eq (b1 b2 : bool) P : (b1 = true ↔ P) → (b2 = true ↔ P) → b1 = b2.
Proof. intros H1 H2. destruct b1, b2; try done; [symmetry|]; tauto. Qed.

(** The abstract machine is deterministic, up to the set's elements. *)
Lemma abs_step_det o P r1 r2 P1 P2 :
  abs_step o P r1 P1 → abs_step o P r2 P2 → r1 = r2 ∧ ∀ y, P1 y ↔ P2 y.
Proof.
  destruct o, r1 as [b1|[[s1 e1]|]|[x1|]], r2 as [b2|[[s2 e2]|]|[x2|]]; simpl; try done.
  1-4: intros [Hp1 Hb1] [Hp2 Hb2]; split;
    [f_equal; by eapply bool_iff_eq | intros y; by rewrite Hp1, Hp2].
  all: unfold in_range; simpl.
  - intros (? & Hi1 & Hlo1 & Hn1 & Hp1) (? & Hi2 & Hlo2 & Hn2 & Hp2).
    assert (s1 = s2) as <-.
    { pose proof (Hlo1 s2 (Hi2 s2 ltac:(lia))). pose proof (Hlo2 s1 (Hi1 s1 ltac:(lia))). lia. }
    assert (e1 = e2) as <-.
    { destruct (Z.lt_trichotomy e1 e2) as [?|[?|?]]; [|done|].
      - destruct Hn1. apply Hi2. lia.
      - destruct Hn2. apply Hi1. lia. }
    split; [done|]. intros y. by rewrite Hp1, Hp2.
  - intros (? & Hi1 & _) (Hn & _). destruct (Hn s1). apply Hi1. lia.
  - intros (Hn & _) (? & Hi1 & _). destruct (Hn s2). apply Hi1. lia.
  - intros (_ & Hn1) (_ & Hn2). split; [done|]. intros y. specialize (Hn1 y). specialize (Hn2 y). tauto.
  - intros (Hx1 & Hlo1 & Hp1) (Hx2 & Hlo2 & Hp2).
    assert (x1 = x2) as <- by (pose proof (Hlo1 _ Hx2); pose proof (Hlo2 _ Hx1); lia).
    split; [done|]. intros y. by rewrite Hp1, Hp2.
  - intros (Hx1 & _) (Hn & _). by destruct (Hn x1).
  - intros (Hn & _) (Hx2 & _). by destruct (Hn x2).
  - intros (_ & Hn1) (_ & Hn2). split; [done|]. intros y. specialize (Hn1 y). specialize (Hn2 y). tauto.
  - intros (Hx1 & Hlo1 & Hp1) (Hx2 & Hlo2 & Hp2).
    assert (x1 = x2) as <- by (pose proof (Hlo1 _ Hx2); pose proof (Hlo2 _ Hx1); lia).
    split; [done|]. intros y. by rewrite Hp1, Hp2.
  - intros (Hx1 & _) (Hn & _). by destruct (Hn x1).
  - intros (Hn & _) (Hx2 & _). by destruct (Hn x2).
  - intros (_ & Hn1) (_ & Hn2). split; [done|]. intros y. specialize (Hn1 y). specialize (Hn2 y). tauto.
Qed.

(** Any two implementations of the interface are interchangeable. *)
Lemma laws_agree (O1 O2 : RangeSetOps) `{!RangeSetLaws O1, !RangeSetLaws O2} os :
  ∀ l, Forall op_ok os → wf l → run O1 os l = run O2 os l ∧ wf (run O1 os l).2.
Proof.
  induction os as [|o os IH]; intros l Hos Hl; simpl; [done|].
  inversion Hos as [|? ? Ho Hos']; subst.
  destruct (step_refines (O := O1) o l Ho Hl) as [Hw1 Hs1].
  destruct (step_refines (O := O2) o l Ho Hl) as [Hw2 Hs2].
  destruct (step O1 o l) as [r1 l1], (step O2 o l) as [r2 l2]; simpl in *.
  destruct (abs_step_det o _ _ _ _ _ Hs1 Hs2) as [<- Hmem].
  rewrite <- (canon_unique l1 l2 (-1) (-1) Hw1 Hw2 Hmem).
  destruct (IH l1 Hos' Hw1) as [<- ?]. by destruct (run O1 os l1).
Qed.

(** *** Element iteration *)

Import RangeSet.

Fixpoint elt_collect (fuel : nat) (it : EltIter) : list Z :=
  match fuel with
  | O => []
  | S fuel => match elt_next it with
              | None => []
              | Some (x, it') => x :: elt_collect fuel it'
              end
  end.

Fixpoint total (l : list range) : Z :=
  match l with [] => 0 | (s, e) :: l' => (e - s) + total l' end.

Lemma canon_total_nonneg lo l : canon lo l → 0 ≤ total l.
Proof.
  revert lo. induction l as [|[s e] l IH]; intros lo; simpl; [lia|].
  intros (? & ? & Hl). specialize (IH e Hl). lia.
Qed.

(** The iterator state with [n..e] still open. *)
Lemma elt_collect_open l : ∀ n e fuel, canon e l → n ≤ e →
  Z.of_nat fuel = (e - n) + total l →
  elt_collect fuel (mk_elt l n e) = seqZ n (e - n) ++ concat ((λ r, seqZ r.1 (r.2 - r.1)) <$> l).
Proof.
  intros n e fuel. revert l n e. induction fuel as [|fuel IH]; intros l n e Hl Hne Hf.
  - pose proof (canon_total_nonneg e l Hl).
    destruct l as [|[s' e'] l].
    + replace (e - n) with 0 by (simpl in *; lia). done.
    + simpl in *. destruct Hl as (? & ? & Hl). pose proof (canon_total_nonneg e' l Hl). lia.
  - cbn [elt_collect]. unfold elt_next. simpl. destruct (Z.eqb_spec n e).
    + subst. rewrite Z.sub_diag. destruct l as [|[s' e'] l]; [done|]. simpl in *.
      destruct Hl as (? & ? & Hl). rewrite (IH l (s' + 1) e') by (done || lia).
      rewrite (seqZ_cons s') by lia. simpl. do 3 f_equal; lia.
    + rewrite (IH l (n + 1) e) by (done || lia).
      rewrite (seqZ_cons n) by lia. simpl. do 3 f_equal; lia.
Qed.

(** The iterator visits every element of the set, in increasing order, and stops. *)
Lemma elts_spec m : wf m →
  elt_collect (Z.to_nat (total m)) (elts m) = concat ((λ r, seqZ r.1 (r.2 - r.1)) <$> m).
Proof.
  intros Hm. pose proof (canon_total_nonneg _ m Hm) as Ht. unfold elts.
  destruct m as [|[s e] m]; [done|]. destruct Hm as (? & ? & Hm).
  pose proof (canon_total_nonneg e m Hm). simpl total in *.
  replace (Z.to_nat (e - s + total m)) with (S (Z.to_nat (e - (s + 1) + total m))) by lia.
  cbn [elt_collect]. unfold elt_next. cbn [el_next el_end el_inner Z.eqb].
  rewrite (elt_collect_open m (s + 1) e) by (done || lia).
  rewrite fmap_cons. cbn [concat fst snd]. rewrite (seqZ_cons s) by lia.
  simpl. do 3 f_equal; lia.
Qed.

(** ** Theorems *)

(** The array-backed and the tree-backed range set are interchangeable: on every
    sequence of operations with [u64] arguments, started empty, they return the same
    results, hold the same ranges, and stay sorted, non-empty and non-adjacent. *)
Theorem range_sets_agree (os : list op) (Hos : Forall op_ok os) :
  run array_ops os ArrayRangeSet.new = run btree_ops os RangeSet.new
  ∧ wf (run array_ops os ArrayRangeSet.new).2.
Proof. by apply (laws_agree array_ops btree_ops). Qed.

Lemma range_sets_agree_witness :
  let os := [Insert (3, 7); InsertOne 7; Insert (10, 12); Remove (4, 11); PopMin; Max] in
  run array_ops os ArrayRangeSet.new = run btree_ops os RangeSet.new
  ∧ wf (run array_ops os ArrayRangeSet.new).2.
Proof.
  apply range_sets_agree.
  repeat (constructor; [unfold op_ok, is_u, u_max; simpl; lia|]). constructor.
Defined.



(** [replace] yields exactly the part of the new range that was already in the set,
    as sorted disjoint non-empty pieces, and leaves the set that [insert] would. *)
Theorem range_set_replace (x : range) (m : list range)
  (Hx : 0 ≤ x.1 < x.2) (Hm : wf m) :
  canon (x.1 - 1) (replace_all x m).1
  ∧ (∀ y, mem y (replace_all x m).1 ↔ in_range y x ∧ mem y m)
  ∧ (replace_all x m).2 = (insert x m).2.
Proof. apply (replace_all_spec x m (-1)); [lia|lia|done]. Qed.

Lemma range_set_replace_witness :
  canon 2 [(3, 4); (6, 8)]
  ∧ (∀ y, mem y [(3, 4); (6, 8)] ↔ in_range y (3, 8) ∧ mem y [(1, 4); (6, 9); (20, 30)])
  ∧ [(1, 9); (20, 30)] = (insert (3, 8) [(1, 4); (6, 9); (20, 30)]).2.
Proof.
  apply (range_set_replace (3, 8) [(1, 4); (6, 9); (20, 30)]); unfold wf; simpl; lia.
Defined.
