(* ===== verification/SendBuf.v ===== *)
(** * Outgoing stream data

    Models [src/connection/send_buffer.rs]: the buffer that keeps stream data from
    the application's write until the peer's acknowledgement, and chooses what to
    (re)transmit.

    The state is the code's struct.  Offsets stay below 2^62 (a stream cannot be
    longer), so additions on them do not wrap; an [expect] that would fail is the
    result [None]. *)

From S2P Require Import Prelude BTree RangeSets Coding.

Module SendBuffer.

Record SendBuffer := mk_send_buffer {
  unacked_segments : list (list Z);
  unacked_len : Z;
  offset : Z;
  unsent : Z;
  acks : list range;
  retransmits : list range;
}.

Definition new : SendBuffer := mk_send_buffer [] 0 0 0 [] [].

(** [self.offset.saturating_sub(self.unacked_len)]: the first tracked offset. *)
Definition base_offset (b : SendBuffer) : Z := saturating_sub (offset b) (unacked_len b).

Definition write (data : list Z) (b : SendBuffer) : SendBuffer :=
  mk_send_buffer (unacked_segments b ++ [data]) (unacked_len b + zlen data)
    (offset b + zlen data) (unsent b) (acks b) (retransmits b).

(** The inner loop of [ack]: drop [to_advance] bytes from the front segments.
    [None] is the panic of [expect("Expected buffered data")]. *)
Fixpoint advance_segments (segs : list (list Z)) (to_advance : Z) : option (list (list Z)) :=
  if to_advance >? 0 then
    match segs with
    | [] => None
    | front :: segs' =>
      if zlen front <=? to_advance then advance_segments segs' (to_advance - zlen front)
      else Some (zdrop to_advance front :: segs')
    end
  else Some segs.

(** The outer loop of [ack]; each round takes a range out of [acks]. *)
Fixpoint ack_loop (fuel : nat) (b : SendBuffer) : option SendBuffer :=
  match fuel with
  | O => Some b
  | S fuel =>
    if bool_decide (RangeSet.min (acks b) = Some (base_offset b)) then
      match RangeSet.pop_min (acks b) with
      | (None, _) => None
      | (Some prefix, acks') =>
        let to_advance := prefix.2 - prefix.1 in
        match advance_segments (unacked_segments b) to_advance with
        | None => None
        | Some segs =>
          ack_loop fuel (mk_send_buffer segs (unacked_len b - to_advance)
            (offset b) (unsent b) acks' (retransmits b))
        end
      end
    else Some b
  end.

Definition ack (r : range) (b : SendBuffer) : option SendBuffer :=
  let base := base_offset b in
  let r := (Z.max base r.1, Z.max base r.2) in
  let acks' := (RangeSet.insert r (acks b)).2 in
  ack_loop (S (length acks'))
    (mk_send_buffer (unacked_segments b) (unacked_len b) (offset b) (unsent b)
       acks' (retransmits b)).

(** Space left for data once the offset is written, and whether a length is written
    too: both branches of [poll_transmit] compute it the same way. *)
Definition frame_space (start avail max_len : Z) : Z * bool :=
  let max_len := if start =? 0 then max_len else max_len - VarInt.size start in
  if avail <? max_len then (max_len - 8, true) else (max_len, false).

Definition poll_transmit (max_len : Z) (b : SendBuffer) : (range * bool) * SendBuffer :=
  match RangeSet.pop_min (retransmits b) with
  | (Some r, rtx) =>
    let '(max_len, encode_length) := frame_space r.1 (r.2 - r.1) max_len in
    let end_ := Z.min r.2 (saturating_add 64 max_len r.1) in
    let rtx := if end_ =? r.2 then rtx else (RangeSet.insert (end_, r.2) rtx).2 in
    (((r.1, end_), encode_length),
     mk_send_buffer (unacked_segments b) (unacked_len b) (offset b) (unsent b) (acks b) rtx)
  | (None, rtx) =>
    let '(max_len, encode_length) := frame_space (unsent b) (offset b - unsent b) max_len in
    let end_ := Z.min (offset b) (saturating_add 64 max_len (unsent b)) in
    (((unsent b, end_), encode_length),
     mk_send_buffer (unacked_segments b) (unacked_len b) (offset b) end_ (acks b) rtx)
  end.

(** [&segment[start..end]] for the first segment that holds [offsets.start]. *)
Fixpoint get_loop (segment_offset : Z) (segs : list (list Z)) (offsets : range) : list Z :=
  match segs with
  | [] => []
  | segment :: segs' =>
    if (segment_offset <=? offsets.1) && (offsets.1 <? segment_offset + zlen segment) then
      let start := offsets.1 - segment_offset in
      let end_ := offsets.2 - segment_offset in
      ztake (Z.min end_ (zlen segment) - start) (zdrop start segment)
    else get_loop (segment_offset + zlen segment) segs' offsets
  end.

Definition get (offsets : range) (b : SendBuffer) : list Z :=
  get_loop (base_offset b) (unacked_segments b) offsets.

(** The copy loop of [StreamsState::write_stream_frames]: the range is read with
    [get] until all of it is copied.  [None] is a loop that is still running. *)
Fixpoint copy_range (fuel : nat) (offsets : range) (b : SendBuffer) : option (list Z) :=
  if offsets.1 =? offsets.2 then Some []
  else
    match fuel with
    | O => None
    | S fuel =>
      let data := get offsets b in
      rest ← copy_range fuel (offsets.1 + zlen data, offsets.2) b;
      Some (data ++ rest)
    end.

Definition retransmit (r : range) (b : SendBuffer) : SendBuffer :=
  mk_send_buffer (unacked_segments b) (unacked_len b) (offset b) (unsent b) (acks b)
    (RangeSet.insert r (retransmits b)).2.

Definition retransmit_all_for_0rtt (b : SendBuffer) : SendBuffer :=
  mk_send_buffer (unacked_segments b) (unacked_len b) (offset b) 0 (acks b) (retransmits b).

Definition is_fully_acked (b : SendBuffer) : bool := unacked_len b =? 0.

Definition has_unsent_data (b : SendBuffer) : bool :=
  negb (unsent b =? offset b) || negb (RangeSet.is_empty (retransmits b)).

Definition unacked (b : SendBuffer) : Z :=
  unacked_len b - foldr Z.add 0 ((λ r, r.2 - r.1) <$> acks b).

(** ** The buffer together with what is in flight

    [data] is everything the application wrote; [flight] the transmitted ranges
    whose packets are neither acknowledged nor lost. *)

Record System := mk_system { data : list Z; flight : list range; buf : SendBuffer }.

(** What the connection does with the buffer.  A [STREAM] frame has room for at
    least the largest metadata. *)
Inductive event :=
| Write (d : list Z)
| Transmit (max_len : Z)
| Acked (i : nat)
| Lost (i : nat).

Definition init : System := mk_system [] [] new.

Definition sys_step (e : event) (s : System) : option System :=
  match e with
  | Write d => Some (mk_system (data s ++ d) (flight s) (write d (buf s)))
  | Transmit max_len =>
    let '((r, _), b) := poll_transmit max_len (buf s) in
    Some (mk_system (data s) (if r.1 <? r.2 then r :: flight s else flight s) b)
  | Acked i =>
    match flight s !! i with
    | None => Some s
    | Some r => b ← ack r (buf s); Some (mk_system (data s) (delete i (flight s)) b)
    end
  | Lost i =>
    match flight s !! i with
    | None => Some s
    | Some r => Some (mk_system (data s) (delete i (flight s)) (retransmit r (buf s)))
    end
  end.

Fixpoint sys_run (es : list event) (s : System) : option System :=
  match es with
  | [] => Some s
  | e :: es => s' ← sys_step e s; sys_run es s'
  end.

(** Every transmit has room for the largest metadata, and the stream fits 2^62. *)
Definition event_ok (e : event) : Prop :=
  match e with Transmit max_len => 16 ≤ max_len ≤ u_max 32 | _ => True end.

Fixpoint written (es : list event) : Z :=
  match es with
  | [] => 0
  | Write d :: es => zlen d + written es
  | _ :: es => written es
  end.

(** *** Invariant *)

Definition acked_b (b : SendBuffer) (x : Z) : bool := (x <? base_offset b) || memb x (acks b).

(** How many of the acknowledged set, the retransmission queue and the packets in
    flight account for the byte at offset [x]. *)
Definition owners (s : System) (x : Z) : Z :=
  Z.b2z (acked_b (buf s) x) + Z.b2z (memb x (retransmits (buf s))) + cover_count x (flight s).

(** The buffer's own fields are consistent with the stream [d]. *)
Record buf_inv (d : list Z) (b : SendBuffer) : Prop := {
  bi_offset : offset b = zlen d;
  bi_len : unacked_len b = zlen (concat (unacked_segments b));
  bi_le : unacked_len b ≤ offset b;
  bi_data : concat (unacked_segments b) = zdrop (base_offset b) d;
  bi_unsent : 0 ≤ unsent b ≤ offset b;
  bi_acks : canon (base_offset b) (acks b);
  bi_rtx : wf (retransmits b);
}.

Record inv (s : System) : Prop := {
  inv_buf : buf_inv (data s) (buf s);
  inv_flight : Forall (λ r, 0 ≤ r.1 < r.2) (flight s);
  inv_owners x : 0 ≤ x → owners s x = Z.b2z (x <? unsent (buf s));
}.

(** *** Lemmas *)

Lemma cover_count_delete x fl : ∀ i r, fl !! i = Some r →
  cover_count x fl = Z.b2z (range_contains r x) + cover_count x (delete i fl).
Proof.
  induction fl as [|r' fl IH]; intros [|i] r; simpl; intros; simplify_eq; [done|].
  rewrite (IH i r) by done. lia.
Qed.

Lemma base_offset_eq d b : buf_inv d b → base_offset b = offset b - unacked_len b.
Proof. intros []. unfold base_offset, saturating_sub. lia. Qed.

Lemma base_offset_nonneg b : 0 ≤ base_offset b.
Proof. unfold base_offset, saturating_sub. lia. Qed.

(** Dropping acknowledged bytes never runs out of segments. *)
Lemma advance_segments_spec segs : ∀ n, n ≤ zlen (concat segs) →
  ∃ segs', advance_segments segs n = Some segs' ∧ concat segs' = zdrop n (concat segs).
Proof.
  induction segs as [|f segs IH]; intros n Hn; simpl; rewrite Z.gtb_ltb.
  - rewrite (proj2 (Z.ltb_ge 0 n)) by (unfold zlen in Hn; simpl in Hn; lia).
    exists []. split; [done|]. by rewrite zdrop_nonpos by (unfold zlen in Hn; simpl in Hn; lia).
  - destruct (Z.ltb_spec 0 n).
    2: { eexists. split; [done|]. simpl. by rewrite zdrop_nonpos by lia. }
    simpl in Hn. rewrite zlen_app in Hn.
    destruct (Z.leb_spec (zlen f) n).
    + destruct (IH (n - zlen f)) as (segs' & Hadv & Hcat); [lia|]. exists segs'.
      split; [done|]. rewrite zdrop_app_ge by lia. done.
    + eexists. split; [done|]. simpl. by rewrite zdrop_app_le by lia.
Qed.

(** The loop of [ack] runs at most once, because the ranges of [acks] have gaps. *)
Lemma ack_loop_spec d b fuel :
  canon (base_offset b - 1) (acks b) → (∀ x, mem x (acks b) → x < offset b) →
  unacked_len b = zlen (concat (unacked_segments b)) → unacked_len b ≤ offset b →
  offset b = zlen d → concat (unacked_segments b) = zdrop (base_offset b) d →
  (length (acks b) < fuel)%nat →
  ∃ b', ack_loop fuel b = Some b' ∧ offset b' = offset b ∧ unsent b' = unsent b
    ∧ retransmits b' = retransmits b
    ∧ unacked_len b' = zlen (concat (unacked_segments b')) ∧ unacked_len b' ≤ offset b'
    ∧ concat (unacked_segments b') = zdrop (base_offset b') d
    ∧ canon (base_offset b') (acks b')
    ∧ ∀ x, 0 ≤ x → acked_b b' x = acked_b b x.
Proof.
  intros Hc Hlt Hlen Hle Hoff Hdata Hfuel.
  assert (Hbase : base_offset b = offset b - unacked_len b)
    by (unfold base_offset, saturating_sub; lia).
  destruct fuel as [|fuel]; [lia|]. cbn [ack_loop].
  case_bool_decide as Hmin.
  2: { exists b. split_and!; try done.
       destruct (acks b) as [|[s e] l]; [done|]. destruct Hc as (? & ? & ?).
       split; [|done]. unfold RangeSet.min in Hmin. simpl in Hmin.
       assert (s ≠ base_offset b) by congruence. lia. }
  destruct (acks b) as [|[s e] l] eqn:Hacks; [done|].
  unfold RangeSet.min in Hmin. simpl in Hmin. injection Hmin as Hs.
  unfold RangeSet.pop_min. simpl. rewrite Z.eqb_refl.
  destruct Hc as (? & ? & Hc).
  assert (He : e ≤ offset b) by (pose proof (Hlt (e - 1)) as Hl; simpl in Hl; lia).
  destruct (advance_segments_spec (unacked_segments b) (e - s)) as (segs & -> & Hsegs); [lia|].
  set (b' := mk_send_buffer segs (unacked_len b - (e - s)) (offset b) (unsent b) l (retransmits b)).
  assert (Hbase' : base_offset b' = e) by (unfold base_offset, saturating_sub; simpl; lia).
  assert (Hstop : ack_loop fuel b' = Some b').
  { destruct fuel as [|fuel]; [done|]. cbn [ack_loop]. rewrite Hbase'. simpl.
    case_bool_decide as Hm; [|done]. destruct l as [|[s2 e2] l]; [done|].
    unfold RangeSet.min in Hm. simpl in Hm. injection Hm as ->. destruct Hc as (? & _). lia. }
  exists b'. split; [done|]. split_and!; try done.
  - simpl. rewrite Hsegs. rewrite zlen_zdrop by lia. lia.
  - simpl. lia.
  - rewrite Hbase'. simpl. rewrite Hsegs, Hdata, zdrop_zdrop by lia. f_equal. lia.
  - by rewrite Hbase'.
  - intros x Hx. apply bool_eq_iff. unfold acked_b. rewrite Hbase', Hacks. simpl.
    rewrite !orb_true_iff, range_contains_spec, memb_spec, !Z.ltb_lt.
    unfold in_range. simpl. msolve.
Qed.

Lemma ack_spec d b r :
  buf_inv d b → (∀ x, 0 ≤ x → acked_b b x = true → x < offset b) → r.2 ≤ offset b →
  ∃ b', ack r b = Some b' ∧ buf_inv d b' ∧ offset b' = offset b ∧ unsent b' = unsent b
    ∧ retransmits b' = retransmits b
    ∧ ∀ x, 0 ≤ x → acked_b b' x = acked_b b x || range_contains r x.
Proof.
  intros Hinv Hlt Hr. pose proof (base_offset_eq d b Hinv) as Hbase.
  pose proof (base_offset_nonneg b). destruct Hinv as [Hoff Hlen Hle Hdata Hun Hacks Hrtx].
  pose proof (zlen_nonneg (concat (unacked_segments b))).
  unfold ack. set (r' := (Z.max _ _, Z.max _ _)). set (acks' := (RangeSet.insert r' _).2).
  set (b0 := mk_send_buffer _ _ _ _ acks' _).
  destruct (insert_btree_spec r' (acks b) (base_offset b - 1)) as (Hc & Hm & _);
    [simpl; lia | by apply (canon_weaken (base_offset b)); [lia|] |].
  destruct (ack_loop_spec d b0 (S (length acks'))) as
    (b' & Heq & Ho & Hu & Hrt & Hl' & Hle' & Hd' & Hc' & Hacked); try done.
  - intros x. change (acks b0) with (RangeSet.insert r' (acks b)).2. rewrite Hm.
    unfold in_range. simpl. intros [?|Hx]; [lia|].
    apply Hlt; [apply (canon_mem_gt _ _ _ Hacks) in Hx; lia|].
    unfold acked_b. rewrite orb_true_iff, memb_spec. by right.
  - simpl. lia.
  - exists b'. split; [exact Heq|]. split; [|split; [done|split; [done|split; [done|]]]].
    + split; try done; [by rewrite Ho | rewrite Hu, Ho; done | by rewrite Hrt].
    + intros x Hx. rewrite Hacked by done. apply bool_eq_iff. unfold acked_b.
      rewrite !orb_true_iff, range_contains_spec, !memb_spec, !Z.ltb_lt.
      change (acks b0) with (RangeSet.insert r' (acks b)).2. rewrite Hm.
      change (base_offset b0) with (base_offset b). unfold in_range. simpl. msolve.
Qed.

Lemma frame_space_bounds start avail max_len :
  16 ≤ max_len → 0 ≤ (frame_space start avail max_len).1 ≤ max_len.
Proof.
  intros. unfold frame_space.
  assert (0 ≤ VarInt.size start ≤ 8) by (unfold VarInt.size, VarInt.MAX_SIZE; repeat case_match; lia).
  repeat case_match; simpl; lia.
Qed.

(** What one [poll_transmit] changes: the chosen range leaves the retransmission
    queue, or is the next part of the unsent data. *)
Lemma poll_transmit_spec d b max_len :
  buf_inv d b → 16 ≤ max_len → offset b ≤ u_max 64 → (∀ x, mem x (retransmits b) → x < unsent b) →
  ∃ r el b', poll_transmit max_len b = ((r, el), b') ∧ buf_inv d b'
    ∧ 0 ≤ r.1 ≤ r.2 ∧ acks b' = acks b ∧ base_offset b' = base_offset b
    ∧ ∀ x, 0 ≤ x →
        Z.b2z (memb x (retransmits b)) - Z.b2z (x <? unsent b)
        = Z.b2z (memb x (retransmits b')) + Z.b2z (range_contains r x) - Z.b2z (x <? unsent b').
Proof.
  intros Hinv Hlen Hoff Hrtx. unfold poll_transmit, RangeSet.pop_min.
  pose proof Hinv as [Ho Hl Hle Hd Hun Hacks Hwf].
  destruct (retransmits b) as [|[s e] l] eqn:Hr; simpl.
  - pose proof (frame_space_bounds (unsent b) (offset b - unsent b) max_len Hlen).
    destruct (frame_space _ _ _) as [sp el] eqn:Hsp. simpl in *.
    eexists _, _, _. split; [done|]. simpl.
    assert (unsent b ≤ Z.min (offset b) (saturating_add 64 sp (unsent b)) ≤ offset b)
      by (unfold saturating_add; lia).
    set (en := Z.min _ _) in *.
    split; [split; try done; simpl; lia|]. split; [lia|]. split; [done|]. split; [done|].
    intros x Hx. unfold range_contains. simpl.
    destruct (Z.ltb_spec x (unsent b)), (Z.leb_spec (unsent b) x), (Z.ltb_spec x en); simpl; lia.
  - pose proof (frame_space_bounds s (e - s) max_len Hlen).
    destruct Hwf as (? & ? & Hl2). rewrite Z.eqb_refl.
    assert (e ≤ unsent b) by (pose proof (Hrtx (e - 1)) as Hl3; simpl in Hl3; lia).
    destruct (frame_space _ _ _) as [sp el] eqn:Hsp. simpl in *.
    assert (Hend : s ≤ Z.min e (saturating_add 64 sp s) ≤ e) by (unfold saturating_add; lia).
    set (en := Z.min _ _) in *.
    assert (Hrtx' : ∃ l', (if en =? e then l else (RangeSet.insert (en, e) l).2) = l' ∧ wf l'
      ∧ ∀ x, mem x l' ↔ (en ≤ x < e) ∨ mem x l).
    { destruct (Z.eqb_spec en e).
      - exists l. split; [done|]. split; [by apply (canon_weaken e); [lia|]|].
        intros x. intuition lia.
      - destruct (insert_btree_spec (en, e) l (-1)) as (? & Hm & _); [simpl; lia| |].
        + by apply (canon_weaken e); [lia|].
        + eexists. split; [done|]. split; [done|]. intros x. apply Hm. }
    destruct Hrtx' as (l' & -> & Hwf' & Hm).
    eexists _, _, _. split; [done|]. simpl.
    split; [by split|]. split; [lia|]. split; [done|]. split; [done|].
    intros x Hx. f_equal. rewrite <-!b2z_orb_disj.
    + f_equal. apply bool_eq_iff.
      rewrite !orb_true_iff, !range_contains_spec, !memb_spec, Hm. unfold in_range. simpl. msolve.
    + rewrite memb_spec, range_contains_spec, Hm. unfold in_range. simpl.
      intros [?|Hx2]; [lia|]. apply (canon_mem_gt _ _ _ Hl2) in Hx2. lia.
Qed.

Section inv.
  Context (s : System) (Hinv : inv s).

Lemma acked_lt_unsent x : 0 ≤ x → acked_b (buf s) x = true → x < unsent (buf s).
Proof.
  intros Hx Ha. pose proof (inv_owners s Hinv x Hx) as Ho. unfold owners in Ho.
  rewrite Ha in Ho. pose proof (b2z_bounds (memb x (retransmits (buf s)))).
  pose proof (cover_count_nonneg x (flight s)). simpl in Ho.
  destruct (Z.ltb_spec x (unsent (buf s))); simpl in Ho; lia.
Qed.

Lemma rtx_lt_unsent x : mem x (retransmits (buf s)) → x < unsent (buf s).
Proof.
  intros Hm. assert (0 ≤ x) as Hx
    by (apply (canon_mem_gt (-1)) in Hm; [lia|]; apply (bi_rtx _ _ (inv_buf s Hinv))).
  pose proof (inv_owners s Hinv x Hx) as Ho. unfold owners in Ho.
  apply memb_spec in Hm. rewrite Hm in Ho. pose proof (b2z_bounds (acked_b (buf s) x)).
  pose proof (cover_count_nonneg x (flight s)). simpl in Ho.
  destruct (Z.ltb_spec x (unsent (buf s))); simpl in Ho; lia.
Qed.

Lemma flight_lt_unsent i r : flight s !! i = Some r → 0 ≤ r.1 < r.2 ∧ r.2 ≤ unsent (buf s).
Proof.
  intros Hi. pose proof (Forall_lookup_1 _ _ _ _ (inv_flight s Hinv) Hi) as Hr. simpl in Hr.
  split; [done|]. pose proof (inv_owners s Hinv (r.2 - 1) ltac:(lia)) as Ho. unfold owners in Ho.
  rewrite (cover_count_delete _ _ _ _ Hi) in Ho.
  rewrite (proj2 (range_contains_spec r (r.2 - 1))) in Ho by (unfold in_range; lia).
  pose proof (b2z_bounds (acked_b (buf s) (r.2 - 1))).
  pose proof (b2z_bounds (memb (r.2 - 1) (retransmits (buf s)))).
  pose proof (cover_count_nonneg (r.2 - 1) (delete i (flight s))).
  destruct (Z.ltb_spec (r.2 - 1) (unsent (buf s))); simpl in Ho; lia.
Qed.

(** A range in flight is neither acknowledged nor queued. *)
Lemma flight_exclusive i r x : flight s !! i = Some r → 0 ≤ x → range_contains r x = true →
  acked_b (buf s) x = false ∧ memb x (retransmits (buf s)) = false.
Proof.
  intros Hi Hx Hr. pose proof (inv_owners s Hinv x Hx) as Ho. unfold owners in Ho.
  rewrite (cover_count_delete _ _ _ _ Hi), Hr in Ho.
  pose proof (cover_count_nonneg x (delete i (flight s))).
  destruct (acked_b _ x), (memb x _), (x <? _); simpl in Ho; try done; lia.
Qed.

Lemma inv_delete_flight i : Forall (λ r : range, 0 ≤ r.1 < r.2) (delete i (flight s)).
Proof. apply Forall_delete. apply (inv_flight s Hinv). Qed.

Lemma inv_write d : inv (mk_system (data s ++ d) (flight s) (write d (buf s))).
Proof.
  destruct Hinv as [Hb Hf Ho]. pose proof (base_offset_eq _ _ Hb) as Hbase.
  pose proof (base_offset_nonneg (buf s)). pose proof (zlen_nonneg d).
  destruct Hb as [Hoff Hlen Hle Hd Hun Ha Hr].
  assert (Hbase' : base_offset (write d (buf s)) = base_offset (buf s))
    by (rewrite Hbase; unfold base_offset, saturating_sub; simpl; lia).
  split; [|done|].
  - split; simpl; rewrite ?Hbase'; try done.
    + rewrite zlen_app. lia.
    + rewrite concat_app, zlen_app. simpl. rewrite app_nil_r. lia.
    + lia.
    + rewrite concat_app. simpl. rewrite app_nil_r, Hd, zdrop_app_le; [done|].
      pose proof (zlen_nonneg (concat (unacked_segments (buf s)))). lia.
    + lia.
  - intros x Hx. simpl. rewrite <-(Ho x Hx). unfold owners, acked_b. simpl. by rewrite Hbase'.
Qed.

Lemma inv_transmit max_len : 16 ≤ max_len → zlen (data s) ≤ 2 ^ 62 →
  ∃ s', sys_step (Transmit max_len) s = Some s' ∧ inv s' ∧ data s' = data s.
Proof.
  intros Hlen Hsz. pose proof Hinv as [Hb Hf Ho].
  destruct (poll_transmit_spec (data s) (buf s) max_len Hb Hlen) as
    (r & el & b' & Heq & Hb' & Hr & Hacks & Hbase & Hown).
  - rewrite (bi_offset _ _ Hb). unfold u_max. lia.
  - apply rtx_lt_unsent.
  - simpl. rewrite Heq. eexists. split; [done|]. split; [|done]. split; [done| |].
    + simpl. destruct (Z.ltb_spec r.1 r.2); [|done]. by constructor; [simpl; lia|].
    + intros x Hx. specialize (Ho x Hx). specialize (Hown x Hx). revert Ho.
      unfold owners, acked_b. simpl. rewrite Hacks, Hbase.
      assert (cover_count x (if r.1 <? r.2 then r :: flight s else flight s)
        = Z.b2z (range_contains r x) + cover_count x (flight s)) as ->; [|lia].
      destruct (Z.ltb_spec r.1 r.2) as [|Hge]; [done|]. unfold range_contains.
      destruct (Z.leb_spec r.1 x), (Z.ltb_spec x r.2); simpl; lia.
Qed.

Lemma inv_acked i : ∃ s', sys_step (Acked i) s = Some s' ∧ inv s' ∧ data s' = data s.
Proof.
  simpl. destruct (flight s !! i) as [r|] eqn:Hi; [|by exists s].
  destruct (flight_lt_unsent i r Hi) as [Hr Hr2]. pose proof (inv_buf s Hinv) as Hb.
  pose proof (bi_unsent _ _ Hb).
  destruct (ack_spec (data s) (buf s) r Hb) as (b' & Heq & Hb' & Hoff & Hun & Hrtx & Hack).
  - intros x Hx Ha. pose proof (acked_lt_unsent x Hx Ha). lia.
  - lia.
  - rewrite Heq. simpl. eexists. split; [done|]. split; [|done].
    split; [done|apply inv_delete_flight|].
    intros x Hx. simpl. rewrite Hun, <-(inv_owners s Hinv x Hx). unfold owners. simpl.
    rewrite (Hack x Hx), Hrtx, (cover_count_delete _ _ _ _ Hi).
    rewrite b2z_orb_disj; [lia|]. intros Ha Hc.
    destruct (flight_exclusive i r x Hi Hx Hc) as [Hf _]. congruence.
Qed.

Lemma inv_lost i : ∃ s', sys_step (Lost i) s = Some s' ∧ inv s' ∧ data s' = data s.
Proof.
  simpl. destruct (flight s !! i) as [r|] eqn:Hi; [|by exists s].
  destruct (flight_lt_unsent i r Hi) as [Hr Hr2]. pose proof (inv_buf s Hinv) as Hb.
  destruct (insert_btree_spec r (retransmits (buf s)) (-1)) as (Hwf & Hm & _);
    [lia|apply (bi_rtx _ _ Hb)|].
  eexists. split; [done|]. split; [|done]. split; [|apply inv_delete_flight|].
  - destruct Hb. by split.
  - intros x Hx. simpl. rewrite <-(inv_owners s Hinv x Hx). unfold owners. simpl.
    rewrite (cover_count_delete _ _ _ _ Hi).
    assert (memb x (RangeSet.insert r (retransmits (buf s))).2
      = range_contains r x || memb x (retransmits (buf s))) as ->.
    { apply bool_eq_iff. by rewrite orb_true_iff, range_contains_spec, !memb_spec, Hm. }
    rewrite b2z_orb_disj; [unfold acked_b, base_offset; simpl; lia|]. intros Hc Ha.
    destruct (flight_exclusive i r x Hi Hx Hc) as [_ Hf]. congruence.
Qed.

End inv.

Lemma inv_init : inv init.
Proof.
  split; [|done|].
  - by split.
  - intros x Hx. unfold owners, acked_b, base_offset, saturating_sub. simpl.
    change (0 `max` (0 - 0)) with 0. destruct (x <? 0); done.
Qed.

Definition writes (es : list event) : list Z :=
  concat ((λ e, match e with Write d => d | _ => [] end) <$> es).

Lemma zlen_writes es : zlen (writes es) = written es.
Proof.
  induction es as [|e es IH]; [done|]. change (writes (e :: es)) with
    (match e with Write d => d | _ => [] end ++ writes es).
  rewrite zlen_app, IH. by destruct e.
Qed.

Lemma inv_run es : ∀ s, inv s → Forall event_ok es → zlen (data s) + written es ≤ 2 ^ 62 →
  ∃ s', sys_run es s = Some s' ∧ inv s' ∧ data s' = data s ++ writes es.
Proof.
  induction es as [|e es IH]; intros s Hs Hok Hsz.
  - exists s. split; [done|]. split; [done|]. by rewrite app_nil_r.
  - inversion Hok as [|?? He Hes]; subst.
    assert (0 ≤ written es) by (rewrite <-zlen_writes; apply zlen_nonneg).
    assert (∃ s1, sys_step e s = Some s1 ∧ inv s1
      ∧ data s1 = data s ++ match e with Write d => d | _ => [] end) as (s1 & Hstep & Hs1 & Hd1).
    { destruct e as [d|max_len|i|i]; rewrite ?app_nil_r.
      - eexists. split; [done|]. split; [by apply inv_write|done].
      - apply inv_transmit; [done| |]; simpl in *; lia.
      - by apply inv_acked.
      - by apply inv_lost. }
    destruct (IH s1 Hs1 Hes) as (s2 & Hrun & Hs2 & Hd2).
    { rewrite Hd1, zlen_app. destruct e; simpl in *; rewrite ?zlen_nil; lia. }
    exists s2. simpl. rewrite Hstep. simpl. split; [done|]. split; [done|].
    rewrite Hd2, Hd1, <-app_assoc. done.
Qed.

(** *** Reading the buffered data back *)

Lemma get_loop_spec segs : ∀ o r, o ≤ r.1 → r.1 < r.2 → r.1 < o + zlen (concat segs) →
  ∃ m, r.1 < m ≤ r.2 ∧ m ≤ o + zlen (concat segs)
    ∧ get_loop o segs r = slice (concat segs) (r.1 - o, m - o).
Proof.
  induction segs as [|f segs IH]; intros o r Ho Hr Hlt; cbn [get_loop concat] in *.
  { rewrite zlen_nil in Hlt. lia. }
  rewrite zlen_app in *. pose proof (zlen_nonneg (concat segs)).
  rewrite (proj2 (Z.leb_le o r.1) Ho). cbn [andb].
  destruct (Z.ltb_spec r.1 (o + zlen f)).
  - exists (Z.min r.2 (o + zlen f)). split; [lia|]. split; [lia|].
    rewrite slice_app_l by (simpl; lia). unfold slice. cbn [fst snd]. f_equal. lia.
  - destruct (IH (o + zlen f) r) as (m & ? & ? & ->); [lia|lia|lia|].
    exists m. split; [lia|]. split; [lia|]. rewrite slice_app_r by lia. f_equal. f_equal; lia.
Qed.

Lemma get_spec d b r : buf_inv d b → base_offset b ≤ r.1 → r.1 < r.2 → r.2 ≤ offset b →
  ∃ m, r.1 < m ≤ r.2 ∧ get r b = slice d (r.1, m).
Proof.
  intros Hb Hr1 Hr Hr2. pose proof (base_offset_eq _ _ Hb). pose proof (base_offset_nonneg b).
  destruct Hb as [Hoff Hlen Hle Hd _ _ _]. unfold get.
  destruct (get_loop_spec (unacked_segments b) (base_offset b) r) as (m & ? & ? & ->); [lia..|].
  exists m. split; [lia|]. rewrite Hd, slice_zdrop by lia. f_equal. f_equal; lia.
Qed.

Lemma copy_range_spec d b : buf_inv d b → ∀ fuel r, base_offset b ≤ r.1 → r.1 ≤ r.2 →
  r.2 ≤ offset b → r.2 - r.1 ≤ Z.of_nat fuel → copy_range fuel r b = Some (slice d r).
Proof.
  intros Hb. pose proof (base_offset_nonneg b). pose proof (bi_offset _ _ Hb).
  induction fuel as [|fuel IH]; intros [a e] Ha Hae He Hfuel; cbn [copy_range fst snd] in *.
  - replace e with a by lia. rewrite Z.eqb_refl. unfold slice. simpl. by rewrite Z.sub_diag.
  - destruct (Z.eqb_spec a e) as [->|].
    { unfold slice. simpl. by rewrite Z.sub_diag. }
    destruct (get_spec d b (a, e) Hb) as (m & ? & Hget); cbn [fst snd] in *; [lia..|].
    rewrite Hget, zlen_slice by (simpl; lia). cbn [fst snd].
    replace (a + (m - a)) with m by lia.
    rewrite IH by (simpl; lia). simpl. by rewrite slice_cut by lia.
Qed.

(** *** Counting *)

Fixpoint count_from (f : Z → bool) (a : Z) (n : nat) : Z :=
  match n with O => 0 | S n => Z.b2z (f a) + count_from f (a + 1) n end.

Lemma count_from_ext f g n : ∀ a, (∀ x, a ≤ x < a + Z.of_nat n → f x = g x) →
  count_from f a n = count_from g a n.
Proof.
  induction n as [|n IH]; intros a Hfg; simpl; [done|].
  rewrite (Hfg a), (IH (a + 1)) by (intros; try apply Hfg; lia). done.
Qed.

Lemma count_from_app f n m : ∀ a,
  count_from f a (n + m) = count_from f a n + count_from f (a + Z.of_nat n) m.
Proof.
  induction n as [|n IH]; intros a; simpl; [by rewrite Z.add_0_r|].
  rewrite IH. replace (a + 1 + Z.of_nat n) with (a + Z.of_nat (S n)) by lia. lia.
Qed.

Lemma count_from_const f c n : ∀ a, (∀ x, a ≤ x < a + Z.of_nat n → f x = c) →
  count_from f a n = Z.b2z c * Z.of_nat n.
Proof.
  induction n as [|n IH]; intros a Hf; simpl; [lia|].
  rewrite (Hf a), (IH (a + 1)) by (intros; try apply Hf; lia). lia.
Qed.

(** The bytes outside a canonical set: its total is what is missing. *)
Lemma count_not_mem l : ∀ lo n, canon lo l → (∀ x, mem x l → x < lo + Z.of_nat n) →
  count_from (λ x, negb (memb x l)) lo n = Z.of_nat n - foldr Z.add 0 ((λ r : range, r.2 - r.1) <$> l).
Proof.
  induction l as [|[s e] l IH]; intros lo n Hc Hlt; simpl.
  { rewrite (count_from_const _ true) by done. simpl. lia. }
  destruct Hc as (? & ? & Hc). assert (e ≤ lo + Z.of_nat n)
    by (pose proof (Hlt (e - 1)) as Hl; simpl in Hl; lia).
  replace n with (Z.to_nat (s - lo) + (Z.to_nat (e - s) + Z.to_nat (lo + Z.of_nat n - e)))%nat by lia.
  rewrite !count_from_app.
  rewrite (count_from_const _ true (Z.to_nat (s - lo))), (count_from_const _ false (Z.to_nat (e - s))).
  - rewrite (count_from_ext _ (λ x, negb (memb x l))).
    + replace (lo + Z.of_nat (Z.to_nat (s - lo)) + Z.of_nat (Z.to_nat (e - s))) with e by lia.
      rewrite IH; [unfold fmap in *; cbn [Z.b2z]; lia|done|]. intros x Hx. pose proof (Hlt x) as Hl. simpl in Hl.
      intuition lia.
    + intros x Hx. unfold range_contains. simpl.
      rewrite (proj2 (Z.ltb_ge x e)) by lia. by rewrite andb_false_r.
  - intros x Hx. apply negb_false_iff, orb_true_iff. left. apply range_contains_spec.
    unfold in_range. simpl. lia.
  - intros x Hx. apply negb_true_iff, orb_false_iff. split.
    + unfold range_contains. simpl. by rewrite (proj2 (Z.leb_gt s x)) by lia.
    + destruct (memb x l) eqn:Hm; [|done]. apply memb_spec, (canon_mem_gt _ _ _ Hc) in Hm. lia.
Qed.

Lemma unacked_spec d b : buf_inv d b → (∀ x, mem x (acks b) → x < offset b) →
  unacked b = count_from (λ x, negb (acked_b b x)) 0 (Z.to_nat (offset b)).
Proof.
  intros Hb Hlt. pose proof (base_offset_eq _ _ Hb) as Hbase. pose proof (base_offset_nonneg b).
  destruct Hb as [Hoff Hlen Hle Hd Hun Hc _].
  pose proof (zlen_nonneg (concat (unacked_segments b))).
  replace (Z.to_nat (offset b)) with (Z.to_nat (base_offset b) + Z.to_nat (unacked_len b))%nat by lia.
  rewrite count_from_app, (count_from_const _ false).
  - rewrite (count_from_ext _ (λ x, negb (memb x (acks b)))).
    + replace (0 + Z.of_nat (Z.to_nat (base_offset b))) with (base_offset b) by lia.
      rewrite count_not_mem; [unfold unacked; simpl; lia|done|].
      intros x Hx. specialize (Hlt x Hx). lia.
    + intros x Hx. unfold acked_b. by rewrite (proj2 (Z.ltb_ge x (base_offset b))) by lia.
  - intros x Hx. unfold acked_b. by rewrite (proj2 (Z.ltb_lt x (base_offset b))) by lia.
Qed.

(** *** What a frame may hold *)

(** Bytes of the offset field: no field when the offset is zero. *)
Definition offset_size (o : Z) : Z := if o =? 0 then 0 else VarInt.size o.

Lemma frame_space_cases start avail max_len sp el : frame_space start avail max_len = (sp, el) →
  if el then sp = max_len - offset_size start - 8 ∧ avail < max_len - offset_size start
  else sp = max_len - offset_size start ∧ sp ≤ avail.
Proof.
  unfold frame_space, offset_size.
  destruct (start =? 0), el; repeat case_match; zbool; intros; simplify_eq; lia.
Qed.

Lemma poll_transmit_size d b max_len r el b' :
  buf_inv d b → 16 ≤ max_len ≤ u_max 32 → offset b ≤ 2 ^ 62 →
  (∀ x, mem x (retransmits b) → x < unsent b) → poll_transmit max_len b = ((r, el), b') →
  r.2 - r.1 + offset_size r.1 + (if el then 8 else 0) ≤ max_len
  ∧ (el = false → r.2 - r.1 + offset_size r.1 = max_len)
  ∧ (has_unsent_data b = true → 17 ≤ max_len → r.1 < r.2).
Proof.
  intros Hb Hlen Hoff Hrtx. unfold poll_transmit, RangeSet.pop_min, has_unsent_data.
  assert (Hsz : ∀ x, 0 ≤ offset_size x ≤ 8)
    by (intros x; unfold offset_size, VarInt.size, VarInt.MAX_SIZE; repeat case_match; lia).
  destruct Hb as [Ho Hl Hle Hd Hun Hacks Hwf]. unfold u_max in *.
  destruct (retransmits b) as [|[s e] l] eqn:Hr; simpl.
  - destruct (frame_space _ _ _) as [sp el'] eqn:Hsp.
    apply frame_space_cases in Hsp. intros [= <- <- <-]. unfold saturating_add, u_max.
    simpl. specialize (Hsz (unsent b)). rewrite orb_false_r, negb_true_iff, Z.eqb_neq.
    destruct el'; lia.
  - destruct Hwf as (? & ? & _). pose proof (Hrtx (e - 1) ltac:(simpl; lia)).
    rewrite Z.eqb_refl. destruct (frame_space _ _ _) as [sp el'] eqn:Hsp.
    apply frame_space_cases in Hsp. intros [= <- <- <-]. unfold saturating_add, u_max.
    simpl in *. specialize (Hsz s). destruct el'; lia.
Qed.

Lemma fully_acked_spec d b : buf_inv d b →
  is_fully_acked b = true ↔ ∀ x, 0 ≤ x < offset b → acked_b b x = true.
Proof.
  intros Hb. pose proof (base_offset_eq _ _ Hb) as Hbase. pose proof (base_offset_nonneg b).
  destruct Hb as [Ho Hl Hle Hd Hun Hacks _].
  pose proof (zlen_nonneg (concat (unacked_segments b))).
  unfold is_fully_acked, acked_b. rewrite Z.eqb_eq. split.
  - intros Hz x Hx. apply orb_true_iff. left. apply Z.ltb_lt. lia.
  - intros Hall. destruct (decide (unacked_len b = 0)); [done|].
    specialize (Hall (base_offset b) ltac:(lia)).
    apply orb_true_iff in Hall as [?%Z.ltb_lt|Hm%memb_spec]; [lia|].
    apply (canon_mem_gt _ _ _ Hacks) in Hm. lia.
Qed.

Lemma run_init es : Forall event_ok es → written es ≤ 2 ^ 62 →
  ∃ s, sys_run es init = Some s ∧ inv s ∧ data s = writes es.
Proof. intros Hok Hw. apply (inv_run es init inv_init Hok). exact Hw. Qed.

Lemma reachable_inv es s : Forall event_ok es → written es ≤ 2 ^ 62 → sys_run es init = Some s →
  inv s ∧ data s = writes es.
Proof.
  intros Hok Hw Hrun. destruct (run_init es Hok Hw) as (s' & Hrun' & ? & ?).
  by simplify_eq.
Qed.

(** *** Theorems *)

Lemma poll_transmit_start d b max_len r el b' : buf_inv d b → (∀ x, mem x (retransmits b) → x < unsent b) →
  poll_transmit max_len b = ((r, el), b') → r.1 ≤ unsent b.
Proof.
  intros Hb Hrtx. unfold poll_transmit, RangeSet.pop_min. destruct (retransmits b) as [|[x y] l] eqn:Hr.
  - destruct (frame_space _ _ _). intros [= <-]. simpl. lia.
  - pose proof (bi_rtx _ _ Hb) as Hwf. rewrite Hr in Hwf. destruct Hwf as (? & ? & _).
    simpl. rewrite Z.eqb_refl. destruct (frame_space _ _ _). intros [= <- _ _]. specialize (Hrtx x ltac:(simpl; lia)). simpl. lia.
Qed.

(** What [poll_transmit] gives: never an acknowledged byte, within the space, and bytes the
    copy loop reads exactly. *)
Lemma transmit_exact s max_len r el b' : inv s → zlen (data s) ≤ 2 ^ 62 → 16 ≤ max_len ≤ u_max 32 →
  poll_transmit max_len (buf s) = ((r, el), b') →
  inv (mk_system (data s) (if r.1 <? r.2 then r :: flight s else flight s) b')
  ∧ (0 ≤ r.1 ≤ r.2 ∧ r.2 ≤ zlen (data s))
  ∧ (∀ x, in_range x r → acked_b (buf s) x = false)
  ∧ r.2 - r.1 + offset_size r.1 + (if el then 8 else 0) ≤ max_len
  ∧ (el = false → r.2 - r.1 + offset_size r.1 = max_len)
  ∧ (has_unsent_data (buf s) = true → 17 ≤ max_len → r.1 < r.2)
  ∧ copy_range (Z.to_nat (r.2 - r.1)) r b' = Some (slice (data s) r).
Proof.
  intros Hs Hw Hlen Hpoll. pose proof (inv_buf s Hs) as Hb. pose proof (bi_offset _ _ Hb) as Ho.
  destruct (inv_transmit s Hs max_len) as (s' & Et & Hs' & _); [lia | done |]. simpl in Et. rewrite Hpoll in Et. simplify_eq.
  destruct (poll_transmit_spec _ _ max_len Hb ltac:(lia)) as
    (r' & el' & b2 & Heq & Hb' & Hr & Hacks & Hbase & Hown);
    [unfold u_max; lia | by apply rtx_lt_unsent |].
  rewrite Hpoll in Heq. simplify_eq.
  destruct (poll_transmit_size _ _ _ _ _ _ Hb Hlen ltac:(lia) (rtx_lt_unsent s Hs) Hpoll)
    as (? & ? & ?).
  assert (Hun : ∀ x, in_range x r' → acked_b (buf s) x = false).
  { unfold in_range. intros x Hx. specialize (Hown x ltac:(lia)).
    pose proof (inv_owners s Hs x ltac:(lia)) as Hx'. unfold owners in Hx'.
    rewrite (proj2 (range_contains_spec r' x)) in Hown by done.
    pose proof (cover_count_nonneg x (flight s)).
    pose proof (bi_unsent _ _ Hb'). pose proof (b2z_bounds (memb x (retransmits b2))).
    destruct (acked_b (buf s) x), (memb x (retransmits (buf s))), (x <? unsent (buf s)),
      (x <? unsent b2); simpl in *; done || lia. }
  pose proof (poll_transmit_start _ _ _ _ _ _ Hb (rtx_lt_unsent s Hs) Hpoll). pose proof (bi_unsent _ _ Hb).
  assert (Hend : r'.2 ≤ zlen (data s)).
  { destruct (decide (r'.1 = r'.2)); [lia |].
    pose proof (Hown (r'.2 - 1) ltac:(lia)) as Hx. pose proof (bi_unsent _ _ Hb') as Hu.
    rewrite (proj2 (range_contains_spec r' (r'.2 - 1))) in Hx by (unfold in_range; lia).
    pose proof (b2z_bounds (memb (r'.2 - 1) (retransmits b2))).
    pose proof (rtx_lt_unsent s Hs (r'.2 - 1)) as Hl. rewrite <-memb_spec in Hl.
    pose proof (bi_offset _ _ Hb').
    destruct (memb (r'.2 - 1) (retransmits (buf s))), (Z.ltb_spec (r'.2 - 1) (unsent (buf s))),
      (Z.ltb_spec (r'.2 - 1) (unsent b2)); simpl in *; lia. }
  split_and!; try done; try lia. destruct (decide (r'.1 = r'.2)) as [He|].
  { destruct r' as [a e]. simpl in *. subst e. rewrite Z.sub_diag. simpl.
    rewrite Z.eqb_refl. unfold slice. simpl. by rewrite Z.sub_diag. }
  apply copy_range_spec; try done; [| lia | by rewrite (bi_offset _ _ Hb') | lia].
  specialize (Hun r'.1 ltac:(unfold in_range; lia)). unfold acked_b in Hun.
  apply orb_false_iff in Hun as [?%Z.ltb_ge _]. lia.
Qed.

(** C7: whatever the application writes and whatever is transmitted, acknowledged
    and lost, the buffer never panics, its segments hold exactly the stream from the
    first unacknowledged byte on, and every byte below [unsent] is in exactly one of
    three places: acknowledged, queued for retransmission, or in one packet in
    flight; no byte is lost and none is tracked twice. *)
Theorem send_buffer_partition (es : list event)
  (Hok : Forall event_ok es) (Hw : written es ≤ 2 ^ 62) :
  ∃ s, sys_run es init = Some s ∧ data s = writes es
    ∧ concat (unacked_segments (buf s)) = zdrop (base_offset (buf s)) (data s)
    ∧ ∀ x, 0 ≤ x < zlen (data s) → owners s x = if x <? unsent (buf s) then 1 else 0.
Proof.
  destruct (run_init es Hok Hw) as (s & Hrun & Hs & Hd).
  exists s. split; [done|]. split; [done|]. split; [apply (bi_data _ _ (inv_buf s Hs))|].
  intros x Hx. rewrite (inv_owners s Hs x) by lia. by destruct (x <? _).
Qed.

Lemma send_buffer_partition_witness : ∃ s,
  sys_run [Write [1; 2; 3; 4; 5]; Transmit 20; Write [6; 7]; Lost 0; Transmit 20; Acked 0] init = Some s
  ∧ owners s 6 = 0 ∧ owners s 0 = 1.
Proof.
  destruct (send_buffer_partition
    [Write [1; 2; 3; 4; 5]; Transmit 20; Write [6; 7]; Lost 0; Transmit 20; Acked 0])
    as (s & Hrun & _ & _ & Ho).
  - repeat constructor; vm_compute; congruence.
  - vm_compute; congruence.
  - exists s. split; [exact Hrun|]. vm_compute in Hrun. injection Hrun as <-.
    split; apply Ho; vm_compute; split; congruence.
Defined.

(** A transmission never sends an acknowledged byte and never exceeds the space
    it was given, the length being left out only when the frame fills that space
    exactly; it sends something whenever there is unsent data and 17 bytes of space;
    and the copy loop then terminates with exactly the stream's bytes of the range. *)
Theorem send_buffer_transmit (es : list event) (s : System) (max_len : Z) (r : range) (el : bool)
  (b' : SendBuffer) (Hok : Forall event_ok es) (Hw : written es ≤ 2 ^ 62)
  (Hrun : sys_run es init = Some s) (Hlen : 16 ≤ max_len ≤ u_max 32)
  (Hpoll : poll_transmit max_len (buf s) = ((r, el), b')) :
  (∀ x, in_range x r → acked_b (buf s) x = false)
  ∧ r.2 - r.1 + offset_size r.1 + (if el then 8 else 0) ≤ max_len
  ∧ (el = false → r.2 - r.1 + offset_size r.1 = max_len)
  ∧ (has_unsent_data (buf s) = true → 17 ≤ max_len → r.1 < r.2)
  ∧ copy_range (Z.to_nat (r.2 - r.1)) r b' = Some (slice (writes es) r).
Proof.
  destruct (reachable_inv es s Hok Hw Hrun) as [Hs Hd]. rewrite <- Hd.
  apply (transmit_exact s max_len); [done | by rewrite Hd, zlen_writes | done | done].
Qed.

Lemma send_buffer_transmit_witness :
  let s := default init (sys_run [Write [1; 2; 3]; Write [4; 5]; Transmit 20; Lost 0] init) in
  let '((r, el), b') := poll_transmit 16 (buf s) in
  copy_range (Z.to_nat (r.2 - r.1)) r b' = Some (slice [1; 2; 3; 4; 5] r).
Proof.
  refine (proj2 (proj2 (proj2 (proj2 (send_buffer_transmit
    [Write [1; 2; 3]; Write [4; 5]; Transmit 20; Lost 0]
    (default init (sys_run [Write [1; 2; 3]; Write [4; 5]; Transmit 20; Lost 0] init)) 16
    (0, 5) true _ _ _ _ _ eq_refl))))).
  - repeat constructor; vm_compute; congruence.
  - vm_compute; congruence.
  - reflexivity.
  - vm_compute; split; congruence.
Defined.

(** In every reachable state [unacked] counts exactly the written bytes that are
    not acknowledged, and [is_fully_acked] holds exactly when all of them are. *)
Theorem send_buffer_counts (es : list event) (s : System)
  (Hok : Forall event_ok es) (Hw : written es ≤ 2 ^ 62) (Hrun : sys_run es init = Some s) :
  unacked (buf s)
    = count_from (λ x, negb (acked_b (buf s) x)) 0 (Z.to_nat (zlen (writes es)))
  ∧ (is_fully_acked (buf s) = true
     ↔ ∀ x, 0 ≤ x < zlen (writes es) → acked_b (buf s) x = true).
Proof.
  destruct (reachable_inv es s Hok Hw Hrun) as [Hs Hd]. pose proof (inv_buf s Hs) as Hb.
  rewrite <-Hd, <-(bi_offset _ _ Hb). split; [|by apply (fully_acked_spec (data s))].
  apply (unacked_spec (data s)); [done|]. intros x Hx.
  pose proof (bi_unsent _ _ Hb). pose proof (base_offset_nonneg (buf s)).
  pose proof (canon_mem_gt _ _ _ (bi_acks _ _ Hb) Hx).
  enough (x < unsent (buf s)) by lia. apply (acked_lt_unsent s Hs); [lia|].
  unfold acked_b. apply orb_true_iff. right. by apply memb_spec.
Qed.

Lemma send_buffer_counts_witness :
  let s := default init (sys_run [Write [1; 2; 3]; Transmit 16; Write [4; 5]; Transmit 20; Acked 0] init) in
  unacked (buf s) = 3.
Proof.
  exact (proj1 (send_buffer_counts
    [Write [1; 2; 3]; Transmit 16; Write [4; 5]; Transmit 20; Acked 0]
    (default init (sys_run [Write [1; 2; 3]; Transmit 16; Write [4; 5]; Transmit 20; Acked 0] init))
    ltac:(repeat constructor; vm_compute; congruence) ltac:(vm_compute; congruence) eq_refl)).
Defined.

End SendBuffer.
