(* ===== verification/Assembler.v ===== *)
(** * Incoming stream data

    Models [src/connection/assembler.rs]: the buffer that turns the [STREAM] and
    [CRYPTO] frames of a stream, which arrive in any order and overlap, into the
    chunks the application reads.

    The [BinaryHeap] is the list of its buffers in descending order of [Buffer]'s
    [Ord] (smallest offset first, at equal offsets the longest first); which of two
    equal buffers is on top is not specified by the library and the model keeps the
    older one there.  Offsets stay below 2^62 ([Recv::ingest] rejects others), so
    additions do not wrap; the one subtraction that can go below zero wraps. *)

From Stdlib Require Import Sorted.
From S2P Require Import Prelude BTree RangeSets.

Module Assembler.

Record Buffer := mk_buffer {
  b_offset : Z;
  b_bytes : list Z;
  allocation_size : Z;
  defragmented : bool;
}.

Definition buffer_new (offset : Z) (bytes : list Z) (allocation_size : Z) : Buffer :=
  mk_buffer offset bytes allocation_size false.

Definition new_defragmented (offset : Z) (bytes : list Z) : Buffer :=
  mk_buffer offset bytes (zlen bytes) true.

Definition try_mark_defragment (offset : Z) (b : Buffer) : Buffer :=
  let duplicate := saturating_sub offset (b_offset b) in
  let offset := Z.max (b_offset b) offset in
  if zlen (b_bytes b) <=? duplicate then mk_buffer offset [] 0 true
  else
    let bytes := zdrop duplicate (b_bytes b) in
    let defragmented := defragmented b || (allocation_size b <=? zlen bytes * 6 / 5) in
    mk_buffer offset bytes (if defragmented then zlen bytes else allocation_size b) defragmented.

(** [Ord for Buffer]: [a >= b] in the max-heap. *)
Definition buffer_ge (a b : Buffer) : bool :=
  (b_offset a <? b_offset b)
  || ((b_offset a =? b_offset b) && (zlen (b_bytes b) <=? zlen (b_bytes a))).

Fixpoint heap_push (b : Buffer) (h : list Buffer) : list Buffer :=
  match h with
  | [] => [b]
  | c :: h' => if buffer_ge c b then c :: heap_push b h' else b :: h
  end.

Inductive State := Ordered | Unordered (recvd : list range).

Definition is_ordered (s : State) : bool := match s with Ordered => true | Unordered _ => false end.

Record Assembler := mk_assembler {
  state : State;
  data : list Buffer;
  buffered : Z;
  allocated : Z;
  bytes_read : Z;
  end_ : Z;
}.

Definition new : Assembler := mk_assembler Ordered [] 0 0 0 0.

Definition reinit (a : Assembler) : Assembler := new.

(** First pass of [defragment]: drop overlaps, flag buffers with good utilisation. *)
Fixpoint mark_all (offset : Z) (chunks : list Buffer) : list Buffer :=
  match chunks with
  | [] => []
  | c :: cs =>
    let c := try_mark_defragment offset c in
    c :: mark_all (b_offset c + zlen (b_bytes c)) cs
  end.

Definition push_nonempty (offset : Z) (buffer : list Z) (h : list Buffer) : list Buffer :=
  match buffer with [] => h | _ => heap_push (new_defragmented offset buffer) h end.

(** Second pass: copy the fragmented chunks to merged buffers. *)
Fixpoint rebuild (chunks : list Buffer) (offset : Z) (buffer : list Z) (h : list Buffer) : list Buffer :=
  match chunks with
  | [] => push_nonempty offset buffer h
  | c :: cs =>
    if defragmented c then
      rebuild cs offset buffer (match b_bytes c with [] => h | _ => heap_push c h end)
    else if negb (b_offset c =? offset + zlen buffer) then
      rebuild cs (b_offset c) (b_bytes c) (push_nonempty offset buffer h)
    else rebuild cs offset (buffer ++ b_bytes c) h
  end.

Definition sum_len (h : list Buffer) : Z := foldr (λ b n, zlen (b_bytes b) + n) 0 h.

Definition defragment (a : Assembler) : Assembler :=
  let buffers := mark_all 0 (data a) in
  let buffered := sum_len buffers in
  mk_assembler (state a) (rebuild buffers 0 [] []) buffered buffered (bytes_read a) (end_ a).

Inductive IllegalOrderedRead := illegal_ordered_read.

Definition buffer_range (b : Buffer) : range := (b_offset b, b_offset b + zlen (b_bytes b)).

Definition ensure_ordering (ordered : bool) (a : Assembler) : result Assembler IllegalOrderedRead :=
  if ordered && negb (is_ordered (state a)) then Err illegal_ordered_read
  else if negb ordered && is_ordered (state a) then
    let a := match data a with [] => a | _ => defragment a end in
    let recvd := (RangeSet.insert (0, bytes_read a) RangeSet.new).2 in
    let recvd := fold_left (λ m c, (RangeSet.insert (buffer_range c) m).2) (data a) recvd in
    Ok (mk_assembler (Unordered recvd) (data a) (buffered a) (allocated a) (bytes_read a) (end_ a))
  else Ok a.

Record Chunk := mk_chunk { c_offset : Z; c_bytes : list Z }.

(** The loop of [read]; each round but the last pops a useless chunk. *)
Fixpoint read_loop (fuel : nat) (max_length : Z) (ordered : bool) (a : Assembler) : option Chunk * Assembler :=
  match fuel, data a with
  | O, _ | _, [] => (None, a)
  | S fuel, chunk :: h =>
    if ordered && (bytes_read a <? b_offset chunk) then (None, a)
    else if ordered && (b_offset chunk + zlen (b_bytes chunk) <=? bytes_read a) then
      read_loop fuel max_length ordered
        (mk_assembler (state a) h (buffered a - zlen (b_bytes chunk))
           (allocated a - allocation_size chunk) (bytes_read a) (end_ a))
    else
      let start := if ordered then bytes_read a - b_offset chunk else 0 in
      let bytes := zdrop start (b_bytes chunk) in
      let offset := b_offset chunk + start in
      let buffered := buffered a - start in
      if max_length <? zlen bytes then
        (Some (mk_chunk offset (ztake max_length bytes)),
         mk_assembler (state a)
           (heap_push (mk_buffer (offset + max_length) (zdrop max_length bytes)
              (allocation_size chunk) (defragmented chunk)) h)
           (buffered - max_length) (allocated a) (bytes_read a + max_length) (end_ a))
      else
        (Some (mk_chunk offset bytes),
         mk_assembler (state a) h (buffered - zlen bytes) (allocated a - allocation_size chunk)
           (bytes_read a + zlen bytes) (end_ a))
  end.

Definition read (max_length : Z) (ordered : bool) (a : Assembler) : option Chunk * Assembler :=
  read_loop (S (length (data a))) max_length ordered a.

(** [buffered += ...; allocated += ...; data.push(buffer)]. *)
Definition push_buffer (b : Buffer) (a : Assembler) : Assembler :=
  mk_assembler (state a) (heap_push b (data a)) (buffered a + zlen (b_bytes b))
    (allocated a + allocation_size b) (bytes_read a) (end_ a).

(** The loop over the duplicates in unordered mode. *)
Fixpoint insert_dups (dups : list range) (offset : Z) (bytes : list Z) (alloc : Z) (a : Assembler)
  : (Z * list Z) * Assembler :=
  match dups with
  | [] => ((offset, bytes), a)
  | (ds, de) :: dups =>
    if offset <? ds then
      let a := push_buffer (buffer_new offset (ztake (ds - offset) bytes) alloc) a in
      insert_dups dups de (zdrop (de - ds) (zdrop (ds - offset) bytes)) alloc a
    else insert_dups dups de (zdrop (de - offset) bytes) alloc a
  end.

(** The end of [insert]: store what is left, defragment past the threshold. *)
Definition store (offset : Z) (bytes : list Z) (alloc : Z) (a : Assembler) : Assembler :=
  match bytes with
  | [] => a
  | _ =>
    let a := push_buffer (buffer_new offset bytes alloc) a in
    let buffered := Z.min (buffered a) (wrapping_sub 64 (end_ a) (bytes_read a)) in
    let over_allocation := allocated a - buffered in
    let threshold := Z.max 32768 (buffered * 3 / 2) in
    if threshold <? over_allocation then defragment a else a
  end.

Definition insert (offset : Z) (bytes : list Z) (alloc : Z) (a : Assembler) : Assembler :=
  let a := mk_assembler (state a) (data a) (buffered a) (allocated a) (bytes_read a)
             (Z.max (end_ a) (offset + zlen bytes)) in
  match state a with
  | Unordered recvd =>
    let '(dups, recvd) := RangeSet.replace_all (offset, offset + zlen bytes) recvd in
    let '((offset, bytes), a) := insert_dups dups offset bytes alloc a in
    store offset bytes alloc
      (mk_assembler (Unordered recvd) (data a) (buffered a) (allocated a) (bytes_read a) (end_ a))
  | Ordered =>
    if offset <? bytes_read a then
      if offset + zlen bytes <=? bytes_read a then a
      else
        let diff := bytes_read a - offset in
        store (offset + diff) (zdrop diff bytes) alloc a
    else store offset bytes alloc a
  end.

Definition clear (a : Assembler) : Assembler :=
  mk_assembler (state a) [] 0 0 (bytes_read a) (end_ a).

(** ** Lemmas *)

Definition before (a b : Buffer) : Prop := b_offset a ≤ b_offset b.

(** How many buffers hold the byte at [x]. *)
Fixpoint cnt (x : Z) (h : list Buffer) : Z :=
  match h with [] => 0 | b :: h' => Z.b2z (range_contains (buffer_range b) x) + cnt x h' end.

Definition sum_alloc (h : list Buffer) : Z := foldr (λ b n, allocation_size b + n) 0 h.

Lemma cnt_nonneg x h : 0 ≤ cnt x h.
Proof.
  induction h as [|b h IH]; simpl; [lia|]. pose proof (b2z_bounds (range_contains (buffer_range b) x)).
  lia.
Qed.

Lemma heap_push_perm b h : heap_push b h ≡ₚ b :: h.
Proof.
  induction h as [|c h IH]; simpl; [done|]. destruct (buffer_ge c b); [|done].
  rewrite IH. by constructor.
Qed.

#[local] Instance cnt_proper x : Proper ((≡ₚ) ==> (=)) (cnt x).
Proof. induction 1; simpl; lia. Qed.

#[local] Instance sum_len_proper : Proper ((≡ₚ) ==> (=)) sum_len.
Proof. induction 1; simpl in *; lia. Qed.

#[local] Instance sum_alloc_proper : Proper ((≡ₚ) ==> (=)) sum_alloc.
Proof. induction 1; simpl in *; lia. Qed.

Lemma cnt_push x b h :
  cnt x (heap_push b h) = Z.b2z (range_contains (buffer_range b) x) + cnt x h.
Proof. by rewrite heap_push_perm. Qed.

Lemma sum_len_push b h : sum_len (heap_push b h) = zlen (b_bytes b) + sum_len h.
Proof. by rewrite heap_push_perm. Qed.

Lemma sum_alloc_push b h : sum_alloc (heap_push b h) = allocation_size b + sum_alloc h.
Proof. by rewrite heap_push_perm. Qed.

Lemma heap_push_sorted b h : StronglySorted before h → StronglySorted before (heap_push b h).
Proof.
  induction 1 as [|c h Hs IH Hc]; simpl; [by repeat constructor|].
  unfold buffer_ge. destruct (Z.ltb_spec (b_offset c) (b_offset b)) as [|Hge]; simpl.
  - constructor; [done|]. rewrite heap_push_perm. constructor; [|done]. unfold before. lia.
  - destruct (Z.eqb_spec (b_offset c) (b_offset b)), (zlen (b_bytes b) <=? zlen (b_bytes c)); simpl;
      (constructor; [by constructor || done|]); rewrite ?heap_push_perm;
      (constructor; [unfold before; lia|]); try done;
      (eapply Forall_impl; [exact Hc|]; unfold before; simpl; lia).
Qed.

Section stream.
  (** The stream the peer sends. *)
  Context (str : list Z).

Definition buffer_ok (b : Buffer) : Prop :=
  holds str (b_offset b) (b_bytes b) ∧ b_bytes b ≠ [] ∧ zlen (b_bytes b) ≤ allocation_size b.

(** What [mark_all] leaves: as [buffer_ok], but the bytes may all be gone. *)
Definition marked_ok (b : Buffer) : Prop :=
  holds str (b_offset b) (b_bytes b) ∧ (b_bytes b = [] → defragmented b = true)
  ∧ zlen (b_bytes b) ≤ allocation_size b
  ∧ (defragmented b = true → allocation_size b = zlen (b_bytes b)).

Lemma zlen_pos {A} (l : list A) : l ≠ [] ↔ 0 < zlen l.
Proof.
  destruct l as [|y l]; unfold zlen; simpl; [split; [done|lia]|]. split; [lia|done].
Qed.

Lemma contains_b2z a b x : Z.b2z (range_contains (a, b) x) = if bool_decide (a ≤ x < b) then 1 else 0.
Proof.
  unfold range_contains. simpl.
  destruct (Z.leb_spec a x), (Z.ltb_spec x b); simpl; case_bool_decide; lia.
Qed.

Lemma try_mark_spec o b : buffer_ok b → 0 ≤ o ≤ zlen str →
  let b' := try_mark_defragment o b in
  marked_ok b' ∧ b_offset b' = Z.max (b_offset b) o
  ∧ b_offset b' + zlen (b_bytes b') = Z.max o (b_offset b + zlen (b_bytes b)).
Proof.
  intros (Hh & Hne%zlen_pos & Ha) Ho. unfold try_mark_defragment, saturating_sub.
  pose proof Hh as (? & ? & _). destruct (Z.leb_spec (zlen (b_bytes b)) (Z.max 0 (o - b_offset b))).
  - unfold marked_ok. simpl. rewrite zlen_nil. split; [|lia]. split; [|done].
    split; [lia|]. split; [rewrite zlen_nil; lia|].
    unfold slice. simpl. by rewrite zlen_nil, Z.add_0_r, Z.sub_diag.
  - simpl. assert (Hd : holds str (Z.max (b_offset b) o)
      (zdrop (Z.max 0 (o - b_offset b)) (b_bytes b))).
    { replace (Z.max (b_offset b) o) with (b_offset b + Z.max 0 (o - b_offset b)) by lia.
      apply holds_zdrop; [done|lia]. }
    rewrite zlen_zdrop by lia. split; [|lia]. split; [done|]. simpl.
    rewrite zlen_zdrop by lia. split.
    + intros Hnil. pose proof (zlen_zdrop (Z.max 0 (o - b_offset b)) (b_bytes b) ltac:(lia)) as Hz.
      rewrite Hnil in Hz. change (@zlen Z []) with 0 in Hz. lia.
    + destruct (defragmented b || _); split; done || lia.
Qed.

Lemma cnt_pos_split x b h : 0 < cnt x (b :: h) ↔ in_range x (buffer_range b) ∨ 0 < cnt x h.
Proof.
  simpl. pose proof (cnt_nonneg x h). rewrite <-range_contains_spec.
  destruct (range_contains _ x); simpl; split; intros Hx; try (destruct Hx; done || lia); auto; lia.
Qed.

Lemma mark_all_spec h : ∀ o, StronglySorted before h → Forall buffer_ok h → 0 ≤ o ≤ zlen str →
  Forall marked_ok (mark_all o h)
  ∧ ∀ x, cnt x (mark_all o h) = if bool_decide (o ≤ x ∧ 0 < cnt x h) then 1 else 0.
Proof.
  induction h as [|b h IH]; intros o Hs Hok Ho.
  { split; [constructor|]. intros x. simpl. by rewrite bool_decide_eq_false_2 by lia. }
  inversion Hs as [|?? Hs' Hb]; subst. inversion Hok as [|?? Hbok Hok']; subst.
  destruct (try_mark_spec o b Hbok Ho) as (Hm & Hoff & Hend).
  pose proof Hbok as ((? & ? & _) & Hne%zlen_pos & _).
  destruct (IH (Z.max o (b_offset b + zlen (b_bytes b))) Hs' Hok') as [Hf Hc]; [lia|].
  cbn [mark_all]. rewrite Hend. split; [by constructor|]. intros x. cbn [cnt]. rewrite Hc.
  unfold buffer_range at 1. rewrite contains_b2z, Hend, Hoff.
  assert (Hge : 0 < cnt x h → b_offset b ≤ x).
  { clear -Hb. induction h as [|c h IH]; simpl; [lia|]. inversion Hb as [|?? Hc Hb']; subst.
    unfold before in Hc. intros Hx. apply (cnt_pos_split x c h) in Hx as [Hx|Hx]; [|by apply IH].
    unfold in_range, buffer_range in Hx. simpl in Hx. lia. }
  pose proof (cnt_pos_split x b h) as Hsp. unfold in_range, buffer_range in Hsp. simpl in Hsp.
  repeat case_bool_decide; simpl in *; intuition lia.
Qed.

(** A heap whose buffers do not waste memory. *)
Definition heap_ok (h : list Buffer) : Prop := Forall buffer_ok h ∧ StronglySorted before h.

Lemma heap_push_ok b h : buffer_ok b → heap_ok h → heap_ok (heap_push b h).
Proof.
  intros Hb [Hh Hs]. split; [|by apply heap_push_sorted].
  rewrite heap_push_perm. by constructor.
Qed.

Lemma defragmented_ok o buf : holds str o buf → buf ≠ [] → buffer_ok (new_defragmented o buf).
Proof. intros. unfold buffer_ok. simpl. done. Qed.

Lemma push_nonempty_spec o buf h : holds str o buf → heap_ok h →
  let h' := push_nonempty o buf h in
  heap_ok h' ∧ sum_len h' = sum_len h + zlen buf ∧ sum_alloc h' = sum_alloc h + zlen buf
  ∧ ∀ x, cnt x h' = cnt x h + Z.b2z (range_contains (o, o + zlen buf) x).
Proof.
  intros Hb Hh. destruct buf as [|y l] eqn:Hbuf.
  - change (zlen []) with 0. simpl. split; [done|]. split; [lia|]. split; [lia|]. intros x.
    rewrite contains_b2z, bool_decide_eq_false_2 by lia. lia.
  - rewrite <-Hbuf in *. replace (push_nonempty o buf h) with (heap_push (new_defragmented o buf) h)
      by by rewrite Hbuf.
    split; [apply heap_push_ok; [by apply defragmented_ok; [|rewrite Hbuf]|done]|].
    rewrite sum_len_push, sum_alloc_push. simpl. split; [lia|]. split; [lia|]. intros x.
    rewrite cnt_push. unfold buffer_range. simpl. lia.
Qed.

Lemma rebuild_spec cs : ∀ o buf h, Forall marked_ok cs → holds str o buf → heap_ok h →
  let h' := rebuild cs o buf h in
  heap_ok h' ∧ sum_len h' = sum_len h + zlen buf + sum_len cs
  ∧ sum_alloc h' = sum_alloc h + zlen buf + sum_len cs
  ∧ ∀ x, cnt x h' = cnt x h + Z.b2z (range_contains (o, o + zlen buf) x) + cnt x cs.
Proof.
  induction cs as [|c cs IH]; intros o buf h Hcs Hb Hh; cbn [rebuild].
  { destruct (push_nonempty_spec o buf h Hb Hh) as (? & ? & ? & Hc).
    split; [done|]. simpl. split; [lia|]. split; [lia|]. intros x. rewrite Hc. lia. }
  inversion Hcs as [|?? (Hch & Hcn & Hca & Hcd) Hcs']; subst.
  destruct (defragmented c) eqn:Hdef.
  - specialize (Hcd eq_refl). destruct (b_bytes c) as [|y l] eqn:Hbytes.
    + destruct (IH o buf h Hcs' Hb Hh) as (? & ? & ? & Hc). split; [done|].
      simpl. rewrite Hbytes. change (zlen []) with 0. split; [lia|]. split; [lia|].
      intros x. rewrite Hc. unfold buffer_range. rewrite Hbytes. change (zlen []) with 0.
      rewrite (contains_b2z (b_offset c)), bool_decide_eq_false_2 by lia. lia.
    + destruct (IH o buf (heap_push c h) Hcs' Hb) as (? & Hl & Ha & Hc).
      { apply heap_push_ok; [|done]. unfold buffer_ok. rewrite Hbytes. done. }
      rewrite sum_len_push in Hl. rewrite sum_alloc_push in Ha. rewrite Hbytes in Hl. simpl.
      rewrite Hbytes. split; [done|]. split; [lia|]. split; [lia|]. intros x.
      rewrite Hc, cnt_push. lia.
  - destruct (Z.eqb_spec (b_offset c) (o + zlen buf)) as [Heq|]; simpl.
    + rewrite Heq in Hch. destruct (IH o (buf ++ b_bytes c) h Hcs') as (? & Hl & Ha & Hc);
        [by apply holds_app|done|].
      rewrite zlen_app in *. split; [done|]. split; [lia|]. split; [lia|]. intros x. rewrite Hc.
      unfold buffer_range. rewrite Heq, !contains_b2z.
      pose proof (zlen_nonneg buf). pose proof (zlen_nonneg (b_bytes c)).
      repeat case_bool_decide; lia.
    + destruct (push_nonempty_spec o buf h Hb Hh) as (? & ? & ? & Hc1).
      destruct (IH (b_offset c) (b_bytes c) (push_nonempty o buf h) Hcs' Hch) as (? & ? & ? & Hc);
        [done|]. split; [done|]. split; [lia|]. split; [lia|]. intros x. rewrite Hc, Hc1.
      unfold buffer_range. lia.
Qed.

(** The counters of the assembler are those of its buffers. *)
Record heap_inv (a : Assembler) : Prop := {
  hi_heap : heap_ok (data a);
  hi_buffered : buffered a = sum_len (data a);
  hi_allocated : allocated a = sum_alloc (data a);
}.

Lemma defragment_spec a : heap_inv a →
  let a' := defragment a in
  heap_inv a' ∧ state a' = state a ∧ bytes_read a' = bytes_read a ∧ end_ a' = end_ a
  ∧ allocated a' = buffered a'
  ∧ ∀ x, cnt x (data a') = Z.min 1 (cnt x (data a)).
Proof.
  intros [[Hok Hs] Hb Ha]. pose proof (zlen_nonneg str).
  destruct (mark_all_spec (data a) 0 Hs Hok) as [Hm Hc]; [lia|].
  destruct (rebuild_spec (mark_all 0 (data a)) 0 [] [] Hm) as (Hh & Hl & Hal & Hcnt).
  { split; [lia|]. by split; [change (@zlen Z []) with 0; lia|]. }
  { by split; constructor. }
  change (zlen []) with 0 in *. simpl in *. split; [split; simpl; [done|lia|lia]|].
  do 4 (split; [done|]). intros x. rewrite Hcnt, Hc.
  rewrite contains_b2z, (bool_decide_eq_false_2 (0 ≤ x < 0)) by lia.
  pose proof (cnt_nonneg x (data a)). case_bool_decide as Hx; [lia|].
  destruct (decide (0 < cnt x (data a))) as [Hp|]; [|lia]. exfalso. apply Hx. split; [|done].
  clear -Hok Hp. induction (data a) as [|b h IH]; [simpl in Hp; lia|].
  inversion Hok as [|?? ((? & _) & _) ?]; subst. apply cnt_pos_split in Hp as [Hp|Hp]; [|by apply IH].
  unfold in_range, buffer_range in Hp. simpl in Hp. lia.
Qed.

Lemma push_buffer_spec b a : heap_inv a → buffer_ok b →
  heap_inv (push_buffer b a)
  ∧ ∀ x, cnt x (data (push_buffer b a)) = cnt x (data a) + Z.b2z (range_contains (buffer_range b) x).
Proof.
  intros [Hh Hb Ha] Hbok. split.
  - split; simpl; [by apply heap_push_ok|..]; rewrite ?sum_len_push, ?sum_alloc_push; lia.
  - intros x. simpl. rewrite cnt_push. lia.
Qed.

Lemma store_spec o bytes alloc a : heap_inv a → holds str o bytes → zlen bytes ≤ alloc →
  let a' := store o bytes alloc a in
  heap_inv a' ∧ state a' = state a ∧ bytes_read a' = bytes_read a ∧ end_ a' = end_ a
  ∧ ∃ d : bool, ∀ x,
      let n := cnt x (data a) + Z.b2z (range_contains (o, o + zlen bytes) x) in
      cnt x (data a') = if d then Z.min 1 n else n.
Proof.
  intros Ha Hh Hal. unfold store. destruct bytes as [|y l] eqn:Hb.
  - do 4 (split; [done|]). exists false. intros x. change (zlen []) with 0.
    rewrite contains_b2z, bool_decide_eq_false_2 by lia. lia.
  - rewrite <-Hb in *. destruct (push_buffer_spec (buffer_new o bytes alloc) a) as [Hp Hc]; [done| |].
    { unfold buffer_ok. simpl. by rewrite Hb in *. }
    unfold buffer_range in Hc. simpl b_offset in Hc. simpl b_bytes in Hc.
    destruct (_ <? _).
    + destruct (defragment_spec _ Hp) as (? & ? & ? & ? & _ & Hd). do 4 (split; [done|]).
      exists true. intros x. by rewrite Hd, Hc.
    + do 4 (split; [done|]). exists false. intros x. by rewrite Hc.
Qed.

(** *** Ordered mode *)

(** [got] are the ranges of the frames received so far. *)
Record ordered_inv (got : list range) (a : Assembler) : Prop := {
  oi_heap : heap_inv a;
  oi_state : state a = Ordered;
  oi_read : 0 ≤ bytes_read a ≤ zlen str;
  oi_below x : 0 ≤ x < bytes_read a → mem x got;
  oi_above x : bytes_read a ≤ x → 0 < cnt x (data a) ↔ mem x got;
  oi_end x : mem x got → 0 ≤ x < end_ a;
}.

Lemma cnt_below x c h : StronglySorted before (c :: h) → x < b_offset c → cnt x (c :: h) = 0.
Proof.
  intros Hs Hx. assert (Hall : Forall (λ b, x < b_offset b) (c :: h)).
  { inversion Hs as [|?? _ Hb]; subst. constructor; [done|].
    eapply Forall_impl; [exact Hb|]. unfold before. simpl. lia. }
  clear Hs Hx. induction Hall as [|b l Hb _ IH]; [done|]. cbn [cnt]. rewrite IH.
  unfold buffer_range. rewrite contains_b2z, bool_decide_eq_false_2 by lia. done.
Qed.

Lemma heap_inv_pop a c h : heap_inv a → data a = c :: h →
  buffer_ok c ∧ heap_ok h ∧ sum_len h = buffered a - zlen (b_bytes c)
  ∧ sum_alloc h = allocated a - allocation_size c ∧ StronglySorted before (c :: h).
Proof.
  intros [[Hok Hs] Hb Ha] Hd. rewrite Hd in *. inversion Hok; subst. inversion Hs; subst.
  simpl in *. split; [done|]. split; [done|]. split; [lia|]. split; [lia|done].
Qed.

(** What [read] gives in ordered mode: nothing exactly when the next byte has not
    been received, otherwise the stream's bytes from the read offset on. *)
Definition read_result (got : list range) (n : Z) (a : Assembler) (r : option Chunk * Assembler) : Prop :=
  ordered_inv got r.2 ∧
  match r.1 with
  | None => bytes_read r.2 = bytes_read a ∧ ¬ mem (bytes_read a) got
  | Some c =>
    c_offset c = bytes_read a ∧ bytes_read r.2 = bytes_read a + zlen (c_bytes c)
    ∧ 0 < zlen (c_bytes c) ≤ n ∧ holds str (bytes_read a) (c_bytes c)
    ∧ mem (bytes_read a) got
  end.

(** Delivering the front [n] bytes of the trimmed top chunk. *)
Lemma read_take_spec got a c h n : ordered_inv got a → data a = c :: h →
  b_offset c ≤ bytes_read a → bytes_read a < b_offset c + zlen (b_bytes c) → 1 ≤ n →
  read_result got n a (read_loop 1 n true a).
Proof.
  intros Hinv Hd Ho Hlt Hn. pose proof Hinv as [Hh Hst Hr Hbelow Habove Hend].
  destruct (heap_inv_pop a c h Hh Hd) as ((Hc & Hne & Hca) & Hh' & Hsl & Hsa & Hsort).
  set (k := bytes_read a - b_offset c).
  assert (Hk : holds str (bytes_read a) (zdrop k (b_bytes c))).
  { replace (bytes_read a) with (b_offset c + k) at 1 by (unfold k; lia).
    apply holds_zdrop; [done|unfold k; lia]. }
  assert (Hkl : zlen (zdrop k (b_bytes c)) = zlen (b_bytes c) - k)
    by (apply zlen_zdrop; unfold k; lia).
  assert (Hcov : ∀ x, bytes_read a ≤ x → mem x got ↔
    x < b_offset c + zlen (b_bytes c) ∨ 0 < cnt x h).
  { intros x Hx. rewrite <-(Habove x Hx), Hd, cnt_pos_split. unfold in_range, buffer_range. simpl.
    intuition lia. }
  cbn [read_loop]. rewrite Hd. cbn [andb].
  rewrite (proj2 (Z.ltb_ge _ _) Ho), (proj2 (Z.leb_gt _ _) Hlt). fold k.
  destruct (Z.ltb_spec n (zlen (zdrop k (b_bytes c)))) as [Hn2|Hn2]; unfold read_result; simpl.
  - destruct (holds_zdrop str _ _ n Hk ltac:(lia)) as (? & Hle & Hsl2).
    rewrite zlen_zdrop in Hle by lia.
    rewrite zlen_ztake by lia. split.
    + split; simpl; try done; [|lia| |].
      * split; simpl; rewrite ?sum_len_push, ?sum_alloc_push; simpl; rewrite ?zlen_zdrop by lia.
        -- apply heap_push_ok; [|done]. unfold buffer_ok. simpl. rewrite zlen_pos, zlen_zdrop by lia.
           split; [|lia]. replace (b_offset c + k) with (bytes_read a) by (unfold k; lia).
           by apply holds_zdrop; [|lia].
        -- lia.
        -- lia.
      * intros x Hx. destruct (decide (x < bytes_read a)); [apply Hbelow; lia|].
        apply Hcov; [lia|]. left. unfold k in *. lia.
      * intros x Hx. rewrite (Hcov x) by lia. pose proof (cnt_nonneg x h).
        rewrite cnt_push. unfold buffer_range. simpl. rewrite contains_b2z, zlen_zdrop by lia.
        unfold k in *. case_bool_decide; intuition lia.
    + split; [unfold k; lia|]. split; [done|]. split; [lia|]. split; [by apply holds_ztake; [|lia]|].
      apply Hcov; lia.
  - rewrite Hkl. pose proof Hc as (? & ? & _). split.
    + split; simpl; try done; [|unfold k; lia| |].
      * split; simpl; [done|lia|lia].
      * intros x Hx. destruct (decide (x < bytes_read a)); [apply Hbelow; lia|].
        apply Hcov; [lia|]. left. unfold k in *. lia.
      * intros x Hx. rewrite (Hcov x) by (unfold k in *; lia). unfold k in *. intuition lia.
    + split; [unfold k; lia|]. split; [done|]. split; [unfold k in *; lia|]. split; [done|].
      apply Hcov; lia.
Qed.

Lemma read_loop_spec got n : 1 ≤ n → ∀ fuel a, ordered_inv got a → (length (data a) < fuel)%nat →
  read_result got n a (read_loop fuel n true a).
Proof.
  intros Hn. induction fuel as [|fuel IH]; intros a Hinv Hf; [lia|].
  pose proof Hinv as [Hh Hst Hr Hbelow Habove Hend].
  assert (Hnone : cnt (bytes_read a) (data a) = 0 → ¬ mem (bytes_read a) got).
  { intros H0 Hm. apply Habove in Hm; lia. }
  destruct (data a) as [|c h] eqn:Hd.
  { cbn [read_loop]. rewrite Hd. split; [done|]. split; [done|]. by apply Hnone. }
  destruct (heap_inv_pop a c h Hh Hd) as ((Hc & Hne%zlen_pos & _) & Hh' & Hsl & Hsa & Hsort).
  destruct (decide (bytes_read a < b_offset c)) as [Hlt|Hge].
  { cbn [read_loop]. rewrite Hd. cbn [andb]. rewrite (proj2 (Z.ltb_lt _ _) Hlt).
    split; [done|]. split; [done|]. apply Hnone. by apply cnt_below. }
  destruct (decide (b_offset c + zlen (b_bytes c) ≤ bytes_read a)) as [Hle|Hgt].
  - cbn [read_loop]. rewrite Hd. cbn [andb]. rewrite (proj2 (Z.ltb_ge _ _)), (proj2 (Z.leb_le _ _) Hle) by lia.
    match goal with |- read_result _ _ _ (read_loop _ _ _ ?a1) =>
      enough (Hi : ordered_inv got a1) by exact (IH _ Hi ltac:(simpl in *; lia)) end.
    split; simpl; try done.
    intros x Hx. rewrite <-(Habove x Hx). cbn [cnt]. unfold buffer_range.
      rewrite contains_b2z, bool_decide_eq_false_2 by lia. done.
  - pose proof (read_take_spec got a c h n Hinv Hd ltac:(lia) ltac:(lia) Hn) as Hres.
    cbn [read_loop] in *. rewrite Hd in *. cbn [andb] in *.
    rewrite (proj2 (Z.ltb_ge _ _)), (proj2 (Z.leb_gt _ _)) in * by lia. exact Hres.
Qed.

Lemma insert_ordered_spec got a o l alloc : ordered_inv got a → 0 ≤ o → 0 ≤ l → o + l ≤ zlen str →
  l ≤ alloc → ordered_inv ((o, o + l) :: got) (insert o (slice str (o, o + l)) alloc a).
Proof.
  intros [Hh Hst Hr Hbelow Habove Hend] Ho Hl Hle Hal.
  pose proof (holds_slice str o (o + l) Ho ltac:(lia) Hle) as Hslice.
  unfold insert. rewrite zlen_slice by (simpl; lia). cbn [fst snd].
  replace (o + l - o) with l by lia. cbn [state]. rewrite Hst.
  set (a0 := mk_assembler _ _ _ _ _ _). cbn [bytes_read].
  assert (Hh0 : heap_inv a0) by (destruct Hh; by split).
  assert (Hmem : ∀ x, mem x ((o, o + l) :: got) ↔ o ≤ x < o + l ∨ mem x got) by done.
  assert (Hstore : ∀ o' bs, holds str o' bs → o' = Z.max o (bytes_read a) → o' + zlen bs = o + l →
    zlen bs ≤ alloc → ordered_inv ((o, o + l) :: got) (store o' bs alloc a0)).
  { intros o' bs Hbs Ho' Hend' Hal'.
    destruct (store_spec o' bs alloc a0 Hh0 Hbs Hal') as (Hi & Hs2 & Hb2 & He2 & d & Hc).
    pose proof (zlen_nonneg bs). split; try done; rewrite ?Hb2, ?He2; simpl; try done.
    - intros x Hx. right. by apply Hbelow.
    - intros x Hx. rewrite <-(Habove x Hx), Hc, contains_b2z. simpl.
      pose proof (cnt_nonneg x (data a)). destruct d; case_bool_decide; intuition lia.
    - intros x [?|Hx]; [lia|]. apply Hend in Hx. lia. }
  change (bytes_read a0) with (bytes_read a). destruct (Z.ltb_spec o (bytes_read a)).
  - destruct (Z.leb_spec (o + l) (bytes_read a)).
    + split; simpl; try done.
      * intros x Hx. right. by apply Hbelow.
      * intros x Hx. rewrite <-(Habove x Hx). intuition lia.
      * intros x [?|Hx]; [lia|]. apply Hend in Hx. lia.
    + apply Hstore; try lia; [apply holds_zdrop; [done|]|..];
        rewrite ?zlen_zdrop, zlen_slice; simpl; rewrite ?zlen_slice; simpl; lia.
  - apply Hstore; try done; rewrite ?zlen_slice; simpl; lia.
Qed.

(** *** Unordered mode *)

(** Every received byte is in exactly one place: delivered or buffered. *)
Record unordered_inv (got delivered : list range) (a : Assembler) : Prop := {
  ui_heap : heap_inv a;
  ui_state : ∃ recvd, state a = Unordered recvd ∧ wf recvd ∧ ∀ x, mem x recvd ↔ mem x got;
  ui_once x : 0 ≤ x → cnt x (data a) + cover_count x delivered = Z.b2z (memb x got);
}.

Lemma insert_dups_spec alloc dups : ∀ o bs a, heap_inv a → holds str o bs → zlen bs ≤ alloc →
  canon (o - 1) dups → (∀ x, mem x dups → x < o + zlen bs) →
  ∃ o' bs' a', insert_dups dups o bs alloc a = ((o', bs'), a') ∧ heap_inv a' ∧ holds str o' bs'
    ∧ zlen bs' ≤ alloc ∧ o' + zlen bs' = o + zlen bs
    ∧ state a' = state a ∧ bytes_read a' = bytes_read a ∧ end_ a' = end_ a
    ∧ ∀ x, cnt x (data a') + Z.b2z (range_contains (o', o' + zlen bs') x)
           = cnt x (data a) + Z.b2z (range_contains (o, o + zlen bs) x) - Z.b2z (memb x dups).
Proof.
  induction dups as [|[ds de] dups IH]; intros o bs a Ha Hbs Hal Hc Hlt; cbn [insert_dups].
  { exists o, bs, a. split_and!; try done. intros x. simpl. lia. }
  destruct Hc as (Hds & Hde & Hc).
  assert (Hin : de ≤ o + zlen bs) by (pose proof (Hlt (de - 1)) as Hl; simpl in Hl; lia).
  assert (Hc' : canon (de - 1) dups) by (by apply (canon_weaken de); [lia|]).
  assert (Hmem : ∀ x, Z.b2z (memb x ((ds, de) :: dups))
    = Z.b2z (range_contains (ds, de) x) + Z.b2z (memb x dups)).
  { intros x. simpl. apply b2z_orb_disj. rewrite range_contains_spec, memb_spec.
    unfold in_range. simpl. intros ? Hm. apply (canon_mem_gt _ _ _ Hc) in Hm. lia. }
  assert (Htl : ∀ x, mem x dups → x < o + zlen bs) by (intros x Hx; apply Hlt; simpl; auto).
  assert (Hd : holds str (o + (de - o)) (zdrop (de - o) bs)) by (apply holds_zdrop; [done|lia]).
  replace (o + (de - o)) with de in Hd by lia.
  assert (Hz : zlen (zdrop (de - o) bs) = zlen bs - (de - o)) by (apply zlen_zdrop; lia).
  assert (Hgo : ∀ a1, heap_inv a1 → state a1 = state a → bytes_read a1 = bytes_read a →
    end_ a1 = end_ a → (∀ x, cnt x (data a1) = cnt x (data a) + Z.b2z (range_contains (o, ds) x)) →
    ∃ o' bs' a', insert_dups dups de (zdrop (de - o) bs) alloc a1 = ((o', bs'), a')
    ∧ heap_inv a' ∧ holds str o' bs' ∧ zlen bs' ≤ alloc ∧ o' + zlen bs' = o + zlen bs
    ∧ state a' = state a ∧ bytes_read a' = bytes_read a ∧ end_ a' = end_ a
    ∧ ∀ x, cnt x (data a') + Z.b2z (range_contains (o', o' + zlen bs') x)
      = cnt x (data a) + Z.b2z (range_contains (o, o + zlen bs) x) - Z.b2z (memb x ((ds, de) :: dups))).
  { intros a1 H1 H2 H3 H4 H5. destruct (IH de (zdrop (de - o) bs) a1) as
      (o' & bs' & a' & Heq & ? & ? & ? & ? & ? & ? & ? & Hx); try done; [lia| |].
    { intros x Hx. apply Htl in Hx. lia. }
    exists o', bs', a'. split; [done|]. split_and!; try done; try congruence; [lia|].
    intros x. rewrite Hx, H5, Hmem, Hz, !contains_b2z. repeat case_bool_decide; lia. }
  destruct (Z.ltb_spec o ds).
  - rewrite zdrop_zdrop by lia. replace (ds - o + (de - ds)) with (de - o) by lia.
    destruct (push_buffer_spec (buffer_new o (ztake (ds - o) bs) alloc) a) as [Hp Hpc]; [done| |].
    { unfold buffer_ok. simpl. rewrite zlen_pos, zlen_ztake by lia.
      split; [apply holds_ztake; [done|lia]|lia]. }
    apply Hgo; try done. intros x. rewrite Hpc. unfold buffer_range. simpl.
    rewrite zlen_ztake by lia. by replace (o + (ds - o)) with ds by lia.
  - apply Hgo; try done. intros x. rewrite contains_b2z, bool_decide_eq_false_2 by lia. lia.
Qed.

Lemma insert_unordered_spec got del a o l alloc : unordered_inv got del a →
  0 ≤ o → 0 < l → o + l ≤ zlen str → l ≤ alloc →
  unordered_inv ((o, o + l) :: got) del (insert o (slice str (o, o + l)) alloc a).
Proof.
  intros [Hh (recvd & Hst & Hwf & Hrm) Honce] Ho Hl Hle Hal.
  pose proof (holds_slice str o (o + l) Ho ltac:(lia) Hle) as Hslice.
  assert (Hzl : zlen (slice str (o, o + l)) = l) by (rewrite zlen_slice; simpl; lia).
  unfold insert. rewrite Hzl. cbn [state]. rewrite Hst.
  set (a0 := mk_assembler _ _ _ _ _ _).
  assert (Hh0 : heap_inv a0) by (destruct Hh; by split).
  destruct (replace_all_spec (o, o + l) recvd (-1)) as (Hcd & Hdm & Hset); [simpl; lia..|done|].
  destruct (insert_btree_spec (o, o + l) recvd (-1)) as (Hwf' & Hm' & _); [simpl; lia|done|].
  destruct (RangeSet.replace_all _ _) as [dups recvd']. cbn [fst snd] in *. subst recvd'.
  destruct (insert_dups_spec alloc dups o (slice str (o, o + l)) a0) as
    (o' & bs' & a' & -> & Hh' & Hbs' & Hal' & Hend & Hst' & Hbr' & He' & Hcnt); try done; [lia| |].
  { intros x. rewrite Hdm, Hzl. unfold in_range. simpl. lia. }
  set (a1 := mk_assembler _ _ _ _ _ _).
  assert (Hh1 : heap_inv a1) by (destruct Hh'; by split).
  destruct (store_spec o' bs' alloc a1 Hh1 Hbs' Hal') as (Hh2 & Hst2 & _ & _ & d & Hc2).
  split; [done| |].
  - eexists. split; [exact Hst2|]. split; [done|]. intros x. rewrite Hm', Hrm. done.
  - intros x Hx. specialize (Honce x Hx). specialize (Hcnt x). specialize (Hc2 x).
    change (data a1) with (data a') in Hc2. change (data a0) with (data a) in Hcnt. simpl in Hc2.
    rewrite Hcnt, Hzl in Hc2. pose proof (cnt_nonneg x (data a)).
    pose proof (cover_count_nonneg x del).
    assert (Hd : Z.b2z (memb x dups) = if range_contains (o, o + l) x then Z.b2z (memb x got) else 0).
    { rewrite <-(bool_eq_iff (range_contains (o, o + l) x && memb x got) (memb x dups)).
      - by destruct (range_contains (o, o + l) x).
      - rewrite andb_true_iff, !memb_spec, range_contains_spec, Hdm, Hrm. tauto. }
    rewrite Hd in Hc2. cbn [memb existsb]. fold (memb x got).
    pose proof (b2z_bounds (memb x got)).
    destruct (range_contains (o, o + l) x), (memb x got), d; simpl in *; lia.
Qed.

Lemma read_unordered_spec got del a n : unordered_inv got del a → 1 ≤ n →
  match read n false a with
  | (None, a') => a' = a ∧ data a = []
  | (Some c, a') =>
    unordered_inv got ((c_offset c, c_offset c + zlen (c_bytes c)) :: del) a'
    ∧ 0 < zlen (c_bytes c) ≤ n ∧ holds str (c_offset c) (c_bytes c)
  end.
Proof.
  intros [Hh Hst Honce] Hn. unfold read. cbn [read_loop].
  destruct (data a) as [|c h] eqn:Hd; [done|]. cbn [andb].
  destruct (heap_inv_pop a c h Hh Hd) as ((Hc & Hne%zlen_pos & Hca) & Hh' & Hsl & Hsa & _).
  rewrite zdrop_0, Z.add_0_r, Z.sub_0_r.
  destruct (Z.ltb_spec n (zlen (b_bytes c))); simpl.
  - rewrite zlen_ztake by lia. split; [|split; [lia|by apply holds_ztake; [|lia]]].
    split; simpl; [|done|].
    + split; simpl; rewrite ?sum_len_push, ?sum_alloc_push; simpl; rewrite ?zlen_zdrop by lia; try lia.
      apply heap_push_ok; [|done]. unfold buffer_ok. simpl. rewrite zlen_pos, zlen_zdrop by lia.
      split; [by apply holds_zdrop; [|lia]|lia].
    + intros x Hx. rewrite <-(Honce x Hx), cnt_push. cbn [cnt]. unfold buffer_range.
      cbn [b_offset b_bytes]. rewrite !contains_b2z, zlen_zdrop by lia. repeat case_bool_decide; lia.
  - split; [|split; [lia|done]]. split; simpl; [split; simpl; [done|lia|lia]|done|].
    intros x Hx. rewrite <-(Honce x Hx). cbn [cnt]. unfold buffer_range. lia.
Qed.

(** Entering unordered mode.  The premise that no buffered byte was already read is
    needed, see [assembler_switch_duplicates]. *)
Lemma ensure_unordered_spec got a : ordered_inv got a →
  Forall (λ b, bytes_read a ≤ b_offset b) (data a) →
  ∃ a', ensure_ordering false a = Ok a' ∧ bytes_read a' = bytes_read a
    ∧ unordered_inv got [(0, bytes_read a)] a'.
Proof.
  intros [Hh Hst Hr Hbelow Habove Hend] Hstale. unfold ensure_ordering. rewrite Hst. cbn [andb negb is_ordered].
  set (a1 := match data a with [] => a | _ => defragment a end).
  assert (H1 : heap_inv a1 ∧ bytes_read a1 = bytes_read a
    ∧ ∀ x, cnt x (data a1) = Z.min 1 (cnt x (data a))).
  { unfold a1. destruct (data a) as [|c h] eqn:Hd.
    - split; [done|]. split; [done|]. by rewrite Hd.
    - destruct (defragment_spec a Hh) as (? & _ & ? & _ & _ & Hc). rewrite Hd in Hc. done. }
  destruct H1 as (Hh1 & Hb1 & Hc1). rewrite Hb1.
  assert (Hfold : ∀ h m, Forall buffer_ok h → wf m →
    let m' := fold_left (λ m c, (RangeSet.insert (buffer_range c) m).2) h m in
    wf m' ∧ ∀ x, mem x m' ↔ mem x m ∨ 0 < cnt x h).
  { induction h as [|c h IH]; intros m Hok Hm; cbn [fold_left].
    - split; [done|]. intros x. simpl. intuition lia.
    - inversion Hok as [|?? ((? & _) & _) Hok']; subst.
      destruct (insert_btree_spec (buffer_range c) m (-1)) as (Hw & Hmm & _); [simpl; lia|done|].
      destruct (IH _ Hok' Hw) as [? Hx]. split; [done|]. intros x.
      rewrite Hx, Hmm, cnt_pos_split. tauto. }
  destruct (insert_btree_spec (0, bytes_read a) [] (-1)) as (Hw0 & Hm0 & _); [simpl; lia|done|].
  destruct (Hfold (data a1) _ (proj1 (hi_heap _ Hh1)) Hw0) as [Hw Hm].
  assert (Hz : ∀ x, x < bytes_read a → cnt x (data a) = 0).
  { intros x Hx. clear -Hstale Hx. induction Hstale as [|b h Hb _ IH]; [done|]. cbn [cnt]. rewrite IH.
    unfold buffer_range. rewrite contains_b2z, bool_decide_eq_false_2 by lia. done. }
  assert (Hgot : ∀ x, mem x got ↔ 0 ≤ x < bytes_read a ∨ 0 < cnt x (data a)).
  { intros x. destruct (decide (bytes_read a ≤ x)) as [Hx|Hx].
    - rewrite (Habove x Hx). intuition lia.
    - rewrite (Hz x) by lia. split; [|intros [?|?]; [by apply Hbelow|lia]].
      intros Hm'. apply Hend in Hm'. lia. }
  eexists. split; [done|]. split; [done|]. split; simpl.
  - destruct Hh1. by split.
  - eexists. split; [done|]. split; [done|]. intros x. rewrite Hm, Hm0, Hgot, Hc1.
    unfold in_range. simpl. pose proof (cnt_nonneg x (data a)). intuition lia.
  - intros x Hx. rewrite Hc1, contains_b2z. pose proof (Hgot x) as Hg. rewrite <-memb_spec in Hg.
    pose proof (cnt_nonneg x (data a)). specialize (Hz x).
    destruct (memb x got); case_bool_decide; simpl; [intuition lia..|].
    destruct (decide (0 < cnt x (data a))); [|lia]. 
    enough (false = true) by done. apply Hg. by right.
Qed.

(** ** Frames and reads in any order *)

(** A frame holds the peer's bytes of its range. *)
Inductive event :=
| Insert (offset len alloc : Z)
| Read (max_length : Z).

Definition event_ok (e : event) : Prop :=
  match e with
  | Insert o l alloc => 0 ≤ o ∧ 0 ≤ l ∧ o + l ≤ zlen str ∧ l ≤ alloc
  | Read n => 1 ≤ n
  end.

Record System := mk_system { asm : Assembler; got : list range; chunks : list Chunk }.

Definition sys_step (ordered : bool) (s : System) (e : event) : System :=
  match e with
  | Insert o l alloc =>
    mk_system (insert o (slice str (o, o + l)) alloc (asm s)) ((o, o + l) :: got s) (chunks s)
  | Read n =>
    match read n ordered (asm s) with
    | (None, a) => mk_system a (got s) (chunks s)
    | (Some c, a) => mk_system a (got s) (chunks s ++ [c])
    end
  end.

Definition run (ordered : bool) (es : list event) (s : System) : System :=
  fold_left (sys_step ordered) es s.

Definition output (cs : list Chunk) : list Z := concat (c_bytes <$> cs).

Definition chunk_range (c : Chunk) : range := (c_offset c, c_offset c + zlen (c_bytes c)).

Definition init : System := mk_system new [] [].

Definition ordered_sys (s : System) : Prop :=
  ordered_inv (got s) (asm s) ∧ output (chunks s) = ztake (bytes_read (asm s)) str.

Lemma output_snoc cs c : output (cs ++ [c]) = output cs ++ c_bytes c.
Proof. unfold output. rewrite fmap_app, concat_app. simpl. by rewrite app_nil_r. Qed.

Lemma ordered_step s e : ordered_sys s → event_ok e → ordered_sys (sys_step true s e).
Proof.
  intros [Hinv Hout] He. destruct e as [o l alloc|n]; simpl in *.
  - destruct He as (? & ? & ? & ?). split; [by apply insert_ordered_spec|]. simpl. rewrite Hout.
    f_equal. unfold insert, store. pose proof (oi_state _ _ Hinv) as Hst. simpl. rewrite Hst.
    repeat case_match; done.
  - pose proof (read_loop_spec (got s) n He (S (length (data (asm s)))) (asm s) Hinv ltac:(lia)) as Hr.
    unfold read. destruct (read_loop _ _ _ _) as [[c|] a]; destruct Hr as [Hi Hr]; simpl in Hr.
    + destruct Hr as (_ & Hb & Hl & Hh & _). split; [done|]. simpl. by rewrite output_snoc, Hout, Hb, ztake_holds.
    + destruct Hr as [Hb _]. split; [done|]. simpl. by rewrite Hb.
Qed.

Lemma ordered_run es : ∀ s, ordered_sys s → Forall event_ok es → ordered_sys (run true es s).
Proof.
  induction es as [|e es IH]; intros s Hs Hok; [done|]. inversion Hok; subst.
  apply IH; [by apply ordered_step|done].
Qed.

Lemma init_ordered : ordered_sys init.
Proof.
  split; [|done]. pose proof (zlen_nonneg str). split; simpl; try done; [by repeat split; constructor|..]; lia.
Qed.

Definition unordered_sys (s : System) (del : list range) : Prop :=
  unordered_inv (got s) ((chunk_range <$> chunks s) ++ del) (asm s)
  ∧ Forall (λ c, holds str (c_offset c) (c_bytes c)) (chunks s).

Lemma cover_count_app x l k : cover_count x (l ++ k) = cover_count x l + cover_count x k.
Proof. induction l as [|r l IH]; simpl; lia. Qed.

Lemma unordered_inv_perm got' d1 d2 a : (∀ x, cover_count x d1 = cover_count x d2) →
  unordered_inv got' d1 a → unordered_inv got' d2 a.
Proof. intros Hd [? ? Ho]. split; [done|done|]. intros x Hx. by rewrite <-Hd, Ho. Qed.

(** As [event_ok], but the frame is not empty. *)
Definition event_ok_nonempty (e : event) : Prop :=
  event_ok e ∧ match e with Insert _ l _ => 0 < l | Read _ => True end.

Lemma unordered_step s e del : unordered_sys s del → event_ok_nonempty e →
  unordered_sys (sys_step false s e) del.
Proof.
  intros [Hinv Hch] [He He2]. destruct e as [o l alloc|n]; simpl in *.
  - destruct He as (? & ? & ? & ?). split; [|done]. by apply insert_unordered_spec.
  - pose proof (read_unordered_spec _ _ _ n Hinv He) as Hr.
    destruct (read n false (asm s)) as [[c|] a].
    + destruct Hr as (Hi & _ & Hh). split; simpl.
      * revert Hi. apply unordered_inv_perm. intros x.
        rewrite fmap_app, !cover_count_app. simpl. rewrite !cover_count_app. unfold chunk_range. lia.
      * rewrite Forall_app. split; [done|]. by constructor.
    + destruct Hr as [-> _]. by split.
Qed.

Lemma unordered_run es : ∀ s del, unordered_sys s del → Forall event_ok_nonempty es →
  unordered_sys (run false es s) del.
Proof.
  induction es as [|e es IH]; intros s del Hs Hok; [done|]. inversion Hok; subst.
  apply IH; [by apply unordered_step|done].
Qed.

(** ** Theorems *)

(** C4: reading in order delivers the stream: whatever frames arrive, in any order,
    with any overlap and any defragmentation, the chunks delivered so far are,
    concatenated, exactly the first [bytes_read] bytes of the peer's stream, and the
    memory counters are those of the buffers held. *)
Theorem assembler_ordered_delivery (es : list event) (Hes : Forall event_ok es) :
  let s := run true es init in
  output (chunks s) = ztake (bytes_read (asm s)) str
  ∧ zlen (output (chunks s)) = bytes_read (asm s)
  ∧ buffered (asm s) = sum_len (data (asm s)) ∧ allocated (asm s) = sum_alloc (data (asm s)).
Proof.
  destruct (ordered_run es init init_ordered Hes) as [Hinv Hout].
  simpl. split; [done|]. rewrite Hout, zlen_ztake by apply (oi_read _ _ Hinv).
  split; [done|]. by destruct (oi_heap _ _ Hinv).
Qed.

(** An ordered read is never stuck and never empty: it gives a chunk exactly when
    the next byte has been received, and that chunk starts at the read offset, is not
    empty and not longer than asked for. *)
Theorem assembler_ordered_progress (es : list event) (n : Z)
  (Hes : Forall event_ok es) (Hn : 1 ≤ n) :
  let s := run true es init in
  match (read n true (asm s)).1 with
  | None => ¬ mem (bytes_read (asm s)) (got s)
  | Some c => mem (bytes_read (asm s)) (got s) ∧ c_offset c = bytes_read (asm s)
      ∧ 0 < zlen (c_bytes c) ≤ n
      ∧ c_bytes c = slice str (c_offset c, c_offset c + zlen (c_bytes c))
  end.
Proof.
  destruct (ordered_run es init init_ordered Hes) as [Hinv _]. simpl.
  pose proof (read_loop_spec _ n Hn (S (length (data (asm (run true es init))))) _ Hinv ltac:(lia)) as Hr.
  unfold read. destruct (read_loop _ _ _ _) as [[c|] a]; destruct Hr as [_ Hr]; simpl in *.
  - destruct Hr as (Hco & _ & ? & (_ & _ & Hh) & ?). rewrite Hco. done.
  - by destruct Hr.
Qed.

(** After a switch to unordered mode with no already read byte left in the heap,
    every byte received in a non-empty frame is delivered at most once, is either
    delivered or still buffered, and is the peer's byte. *)
Theorem assembler_unordered_once (es us : list event) (a : Assembler)
  (Hes : Forall event_ok es) (Hus : Forall event_ok_nonempty us)
  (Hstale : Forall (λ b, bytes_read (asm (run true es init)) ≤ b_offset b)
              (data (asm (run true es init))))
  (Ha : ensure_ordering false (asm (run true es init)) = Ok a) :
  let s := run false us (mk_system a (got (run true es init)) []) in
  (∀ x, 0 ≤ x →
    cover_count x (chunk_range <$> chunks s)
    + Z.b2z (range_contains (0, bytes_read a) x) + cnt x (data (asm s)) = Z.b2z (memb x (got s)))
  ∧ Forall (λ c, c_bytes c = slice str (chunk_range c)) (chunks s).
Proof.
  destruct (ordered_run es init init_ordered Hes) as [Hinv _].
  destruct (ensure_unordered_spec _ _ Hinv Hstale) as (a' & Heq & Hb & Hu).
  rewrite Ha in Heq. injection Heq as <-.
  destruct (unordered_run us (mk_system a (got (run true es init)) []) [(0, bytes_read a)])
    as [Hi Hch]; [by split; [rewrite Hb|constructor]|done|].
  split.
  - intros x Hx. rewrite <-(ui_once _ _ _ Hi x Hx), cover_count_app. simpl. lia.
  - eapply Forall_impl; [exact Hch|]. intros c (_ & _ & Hc). exact Hc.
Qed.

End stream.

Lemma assembler_ordered_delivery_witness :
  output (chunks (run [1; 2; 3; 4; 5; 6]
    true [Insert 3 3 40000; Insert 0 4 60000; Read 2; Insert 1 4 8; Read 9; Read 9] init))
  = [1; 2; 3; 4; 5; 6].
Proof.
  refine (proj1 (assembler_ordered_delivery [1; 2; 3; 4; 5; 6]
    [Insert 3 3 40000; Insert 0 4 60000; Read 2; Insert 1 4 8; Read 9; Read 9] _)).
  repeat constructor; vm_compute; congruence.
Defined.

Lemma assembler_ordered_progress_witness :
  ¬ mem 2 [(3, 5); (0, 2)] ∧ option_map c_bytes (read 9 true
      (asm (run [1; 2; 3; 4; 5] true [Insert 0 2 2; Insert 3 2 2; Read 9] init))).1 = None.
Proof.
  split; [|reflexivity].
  refine (assembler_ordered_progress [1; 2; 3; 4; 5] [Insert 0 2 2; Insert 3 2 2; Read 9] 9 _ _);
    [repeat constructor|]; vm_compute; congruence.
Defined.

Lemma assembler_unordered_once_witness :
  let es := [Insert 0 2 2; Insert 4 2 2; Read 9] in
  let us := [Insert 1 4 4; Read 9; Read 9; Read 9; Insert 0 6 6; Read 9] in
  let s := run [1; 2; 3; 4; 5; 6] false us (mk_system
    (mk_assembler (Unordered [(0, 2); (4, 6)]) [mk_buffer 4 [5; 6] 2 true] 2 2 2 6)
    [(4, 6); (0, 2)] []) in
  Forall (λ c, c_bytes c = slice [1; 2; 3; 4; 5; 6] (chunk_range c)) (chunks s)
  ∧ (chunk_range <$> chunks s) = [(2, 4); (4, 6)].
Proof.
  split; [|reflexivity].
  refine (proj2 (assembler_unordered_once [1; 2; 3; 4; 5; 6]
    [Insert 0 2 2; Insert 4 2 2; Read 9]
    [Insert 1 4 4; Read 9; Read 9; Read 9; Insert 0 6 6; Read 9] _ _ _ _ eq_refl));
    repeat constructor; vm_compute; congruence.
Defined.

(** The switch to unordered mode does not "get rid of possible duplicates": a
    buffered frame whose bytes were all read in order survives it, and the unordered
    read delivers bytes 2 and 3 a second time, after which [bytes_read] exceeds the
    end of the data received. *)
Theorem assembler_switch_duplicates :
  let s := run [1; 2; 3; 4; 5] true [Insert 0 5 5; Insert 2 2 2; Read 5] init in
  chunks s = [mk_chunk 0 [1; 2; 3; 4; 5]]
  ∧ ∃ a, ensure_ordering false (asm s) = Ok a
    ∧ (read 9 false a).1 = Some (mk_chunk 2 [3; 4])
    ∧ bytes_read (read 9 false a).2 = 7 ∧ end_ (read 9 false a).2 = 5.
Proof. split; [reflexivity|]. eexists. split; reflexivity || done. Qed.

(** In unordered mode an empty frame defeats the detection of duplicates: it
    leaves an empty range in the set of received offsets, at which the next
    overlapping insertion stops looking, so bytes 6 and 7 are delivered twice. *)
Theorem assembler_empty_frame_duplicates :
  let str := [0; 1; 2; 3; 4; 5; 6; 7] in
  let start := mk_system (mk_assembler (Unordered []) [] 0 0 0 0) [] [] in
  ensure_ordering false new = Ok (asm start)
  ∧ chunks (run str false [Insert 6 2 2; Read 9; Insert 4 0 0; Insert 3 5 5; Read 9] start)
    = [mk_chunk 6 [6; 7]; mk_chunk 3 [3; 4; 5; 6; 7]]
  ∧ chunks (run str false [Insert 6 2 2; Read 9; Insert 3 5 5; Read 9] start)
    = [mk_chunk 6 [6; 7]; mk_chunk 3 [3; 4; 5]].
Proof. split; [|split]; reflexivity. Qed.

End Assembler.
