(* ===== verification/ConstrainedWire.v ===== *)
(** * The constrained protocol: identifiers, packets, connection states

    Models [src/constrained/types.rs], [src/constrained/header.rs] and
    [src/constrained/state.rs], the parts of the protocol for low-bandwidth
    transports that do no input or output.  Connection identifiers are 16-bit,
    sequence numbers and flags 8-bit integers; time is a number of nanoseconds. *)

From Stdlib Require Import String.
From S2P Require Import Prelude.

Module ConstrainedWire.

(** ** types.rs *)

Definition next (s : Z) : Z := wrapping_add 8 s 1.

(** [other.0.wrapping_sub(self.0) as i8 as i16]. *)
Definition distance_to (self other : Z) : Z := to_signed 8 (wrapping_sub 8 other self).

Definition is_in_window (self other window_size : Z) : bool :=
  let dist := distance_to self other in (0 <=? dist) && (dist <=? window_size).

Definition cid_to_bytes (cid : Z) : list Z := be_encode 2 cid.
Definition cid_from_bytes (bytes : list Z) : Z := be_decode bytes.

Inductive PacketType := Syn | Ack | Fin | Reset | Data | Ping | Pong.

Definition flag (t : PacketType) : Z :=
  match t with
  | Syn => 1 | Ack => 2 | Fin => 4 | Reset => 8 | Data => 16 | Ping => 32 | Pong => 64
  end.

Module PacketFlags.
Definition NONE : Z := 0.
Definition SYN : Z := 1.
Definition ACK : Z := 2.
Definition FIN : Z := 4.
Definition RST : Z := 8.
Definition DATA : Z := 16.
Definition PING : Z := 32.
Definition PONG : Z := 64.
Definition SYN_ACK : Z := 3.
Definition has (flags : Z) (t : PacketType) : bool := negb (Z.land flags (flag t) =? 0).
Definition is_syn (flags : Z) : bool := negb (Z.land flags 1 =? 0).
Definition is_ack (flags : Z) : bool := negb (Z.land flags 2 =? 0).
Definition is_fin (flags : Z) : bool := negb (Z.land flags 4 =? 0).
Definition is_rst (flags : Z) : bool := negb (Z.land flags 8 =? 0).
Definition is_data (flags : Z) : bool := negb (Z.land flags 16 =? 0).
Definition is_ping (flags : Z) : bool := negb (Z.land flags 32 =? 0).
Definition is_pong (flags : Z) : bool := negb (Z.land flags 64 =? 0).
Definition with_flag (flags : Z) (t : PacketType) : Z := Z.lor flags (flag t).
Definition union (flags other : Z) : Z := Z.lor flags other.
End PacketFlags.

Inductive ConstrainedError :=
| PacketTooSmall (expected actual : Z)
| InvalidHeader (msg : string)
| ConnectionNotFound (cid : Z)
| ConnectionExists (cid : Z)
| InvalidStateTransition (from_ to_ : string)
| ConnectionReset
| TimeoutError
| MaxRetransmissions (count : Z)
| SendBufferFull
| ReceiveBufferFull
| Transport (msg : string)
| SequenceOutOfWindow (seq expected_min expected_max : Z)
| ConnectionClosed.

(** ** header.rs *)

Definition HEADER_SIZE : Z := 5.

Record ConstrainedHeader := mk_header {
  connection_id : Z;
  seq : Z;
  ack : Z;
  flags : Z;
}.

Module Header.
Definition syn (cid : Z) : ConstrainedHeader := mk_header cid 0 0 PacketFlags.SYN.
Definition syn_ack (cid ack : Z) : ConstrainedHeader := mk_header cid 0 ack PacketFlags.SYN_ACK.
Definition ack_only (cid seq ack : Z) : ConstrainedHeader := mk_header cid seq ack PacketFlags.ACK.
Definition data (cid seq ack : Z) : ConstrainedHeader :=
  mk_header cid seq ack (PacketFlags.union PacketFlags.DATA PacketFlags.ACK).
Definition fin (cid seq ack : Z) : ConstrainedHeader :=
  mk_header cid seq ack (PacketFlags.union PacketFlags.FIN PacketFlags.ACK).
Definition reset (cid : Z) : ConstrainedHeader := mk_header cid 0 0 PacketFlags.RST.
Definition ping (cid seq : Z) : ConstrainedHeader := mk_header cid seq 0 PacketFlags.PING.
Definition pong (cid ack : Z) : ConstrainedHeader := mk_header cid 0 ack PacketFlags.PONG.

Definition to_bytes (h : ConstrainedHeader) : list Z :=
  cid_to_bytes (connection_id h) ++ [seq h; ack h; flags h].

Definition from_bytes (bytes : list Z) : result ConstrainedHeader ConstrainedError :=
  match bytes with
  | b0 :: b1 :: b2 :: b3 :: b4 :: _ => Ok (mk_header (cid_from_bytes [b0; b1]) b2 b3 b4)
  | _ => Err (PacketTooSmall HEADER_SIZE (zlen bytes))
  end.

Definition is_syn (h : ConstrainedHeader) : bool := PacketFlags.is_syn (flags h).
Definition is_syn_ack (h : ConstrainedHeader) : bool :=
  PacketFlags.is_syn (flags h) && PacketFlags.is_ack (flags h).
Definition is_ack (h : ConstrainedHeader) : bool := PacketFlags.is_ack (flags h).
Definition is_fin (h : ConstrainedHeader) : bool := PacketFlags.is_fin (flags h).
Definition is_rst (h : ConstrainedHeader) : bool := PacketFlags.is_rst (flags h).
Definition is_data (h : ConstrainedHeader) : bool := PacketFlags.is_data (flags h).
Definition is_ping (h : ConstrainedHeader) : bool := PacketFlags.is_ping (flags h).
Definition is_pong (h : ConstrainedHeader) : bool := PacketFlags.is_pong (flags h).
End Header.

Record ConstrainedPacket := mk_packet { header : ConstrainedHeader; payload : list Z }.

Module Packet.
Definition control (h : ConstrainedHeader) : ConstrainedPacket := mk_packet h [].
Definition data (cid seq ack : Z) (payload : list Z) : ConstrainedPacket :=
  mk_packet (Header.data cid seq ack) payload.
Definition total_size (p : ConstrainedPacket) : Z := HEADER_SIZE + zlen (payload p).
Definition to_bytes (p : ConstrainedPacket) : list Z := Header.to_bytes (header p) ++ payload p.
Definition from_bytes (bytes : list Z) : result ConstrainedPacket ConstrainedError :=
  let? h := Header.from_bytes bytes in
  Ok (mk_packet h (if HEADER_SIZE <? zlen bytes then zdrop HEADER_SIZE bytes else [])).
End Packet.

(** ** state.rs *)

Inductive ConnectionState := Closed | SynSent | SynReceived | Established | FinWait | Closing | TimeWait.

#[export] Instance ConnectionState_eq_dec : EqDecision ConnectionState.
Proof. solve_decision. Defined.

Definition can_send_data (s : ConnectionState) : bool :=
  match s with Established | FinWait => true | _ => false end.

Definition can_receive_data (s : ConnectionState) : bool :=
  match s with Established | FinWait | Closing => true | _ => false end.

Definition is_open (s : ConnectionState) : bool :=
  match s with SynSent | SynReceived | Established | FinWait | Closing => true | _ => false end.

Definition is_closed (s : ConnectionState) : bool :=
  match s with Closed | TimeWait => true | _ => false end.

Definition is_established (s : ConnectionState) : bool :=
  match s with Established => true | _ => false end.

Definition secs (n : Z) : Z := n * 1000000000.

(** [Duration::MAX] is 2^64 seconds less a nanosecond. *)
Definition timeout (s : ConnectionState) : Z :=
  match s with
  | Closed => secs (2 ^ 64) - 1
  | SynSent => secs 5
  | SynReceived => secs 5
  | Established => secs 300
  | FinWait => secs 30
  | Closing => secs 30
  | TimeWait => secs 4
  end.

Definition state_name (s : ConnectionState) : string :=
  match s with
  | Closed => "CLOSED"
  | SynSent => "SYN_SENT"
  | SynReceived => "SYN_RCVD"
  | Established => "ESTABLISHED"
  | FinWait => "FIN_WAIT"
  | Closing => "CLOSING"
  | TimeWait => "TIME_WAIT"
  end.

Inductive StateEvent := Open | RecvSyn | RecvSynAck | RecvAck | RecvFin | RecvRst | Close | Timeout.

Definition event_name (e : StateEvent) : string :=
  match e with
  | Open => "OPEN"
  | RecvSyn => "RECV_SYN"
  | RecvSynAck => "RECV_SYN_ACK"
  | RecvAck => "RECV_ACK"
  | RecvFin => "RECV_FIN"
  | RecvRst => "RECV_RST"
  | Close => "CLOSE"
  | Timeout => "TIMEOUT"
  end.

Record StateMachine := mk_machine {
  state : ConnectionState;
  state_entered : Z;
  history : list (ConnectionState * StateEvent * ConnectionState);
}.

Definition new (now : Z) : StateMachine := mk_machine Closed now [].

Definition time_in_state (now : Z) (m : StateMachine) : Z := saturating_sub now (state_entered m).

Definition is_timed_out (now : Z) (m : StateMachine) : bool := timeout (state m) <? time_in_state now m.

Definition next_state (s : ConnectionState) (e : StateEvent) : result ConnectionState ConstrainedError :=
  match s, e with
  | Closed, Open => Ok SynSent
  | Closed, RecvSyn => Ok SynReceived
  | SynSent, RecvSynAck => Ok Established
  | SynSent, RecvRst => Ok Closed
  | SynSent, Timeout => Ok Closed
  | SynSent, Close => Ok Closed
  | SynReceived, RecvAck => Ok Established
  | SynReceived, RecvRst => Ok Closed
  | SynReceived, Timeout => Ok Closed
  | SynReceived, Close => Ok Closed
  | Established, RecvFin => Ok Closing
  | Established, Close => Ok FinWait
  | Established, RecvRst => Ok Closed
  | Established, Timeout => Ok Closed
  | FinWait, RecvAck => Ok Closing
  | FinWait, RecvFin => Ok TimeWait
  | FinWait, RecvRst => Ok Closed
  | FinWait, Timeout => Ok Closed
  | Closing, RecvAck => Ok TimeWait
  | Closing, RecvFin => Ok TimeWait
  | Closing, RecvRst => Ok Closed
  | Closing, Timeout => Ok Closed
  | TimeWait, Timeout => Ok Closed
  | TimeWait, RecvRst => Ok Closed
  | _, _ => Err (InvalidStateTransition (state_name s) (event_name e ++ " -> ?")%string)
  end.

Definition transition (now : Z) (e : StateEvent) (m : StateMachine) : result StateMachine ConstrainedError :=
  let old_state := state m in
  let? new_state := next_state (state m) e in
  let history := if 8 <=? zlen (history m) then drop 1 (history m) else history m in
  Ok (mk_machine new_state now (history ++ [(old_state, e, new_state)])).

(** ** Lemmas *)

Lemma next_wrap s : next s = wrap 8 (s + 1).
Proof. done. Qed.

(** Within half the number space, distance inverts addition modulo 256. *)
Lemma distance_shift a k : -128 ≤ k < 128 → distance_to (wrap 8 a) (wrap 8 (a + k)) = k.
Proof.
  intros Hk. unfold distance_to, to_signed, wrapping_sub, wrap.
  change (2 ^ 8) with 256. change (2 ^ (8 - 1)) with 128. cbv zeta.
  rewrite <-Zminus_mod, Z.mod_mod by lia. replace (a + k - a) with k by lia.
  destruct (Z.ltb_spec (k mod 256) 128) as [H|H].
  - destruct (decide (0 ≤ k)); [by apply Z.mod_small; lia|].
    rewrite <-(Z_mod_plus_full k 1), Z.mod_small in H by lia. lia.
  - destruct (decide (0 ≤ k)); [rewrite Z.mod_small in H by lia; lia|].
    rewrite <-(Z_mod_plus_full k 1), Z.mod_small by lia. lia.
Qed.

Lemma distance_diff a b : -128 ≤ b - a < 128 → distance_to (wrap 8 a) (wrap 8 b) = b - a.
Proof. intros. rewrite <-(distance_shift a (b - a)) by lia. do 2 f_equal. lia. Qed.

Lemma wrap_next a : next (wrap 8 a) = wrap 8 (a + 1).
Proof. unfold next, wrapping_add, wrap. by rewrite Zplus_mod_idemp_l. Qed.

(** Sequence numbers of packets less than 256 apart are distinct. *)
Lemma wrap_inj a b : -256 < b - a < 256 → wrap 8 a = wrap 8 b → a = b.
Proof.
  unfold wrap. change (2 ^ 8) with 256. intros Hd Heq.
  pose proof (Z.div_mod a 256 ltac:(lia)). pose proof (Z.div_mod b 256 ltac:(lia)). lia.
Qed.

Definition header_ok (h : ConstrainedHeader) : Prop :=
  is_u 16 (connection_id h) ∧ is_u 8 (seq h) ∧ is_u 8 (ack h) ∧ is_u 8 (flags h).

Lemma cid_bytes_pair cid : ∃ b0 b1, cid_to_bytes cid = [b0; b1].
Proof. by do 2 eexists. Qed.

Lemma packet_from_to p : header_ok (header p) → Packet.from_bytes (Packet.to_bytes p) = Ok p.
Proof.
  destruct p as [[cid s a f] pl]. intros (Hc & Hs & Ha & Hf). simpl in *.
  destruct (cid_bytes_pair cid) as (b0 & b1 & Hcid).
  assert (Hdec : cid_from_bytes [b0; b1] = cid).
  { unfold cid_from_bytes. rewrite <-Hcid. by apply be_decode_encode. }
  unfold Packet.to_bytes, Packet.from_bytes, HEADER_SIZE.
  unfold Header.to_bytes. cbn [connection_id seq ack flags header payload]. rewrite Hcid.
  cbn [app Header.from_bytes]. rewrite Hdec.
  pose proof (zlen_nonneg pl). rewrite !zlen_cons.
  destruct (Z.ltb_spec 5 (1 + (1 + (1 + (1 + (1 + zlen pl)))))); [done|].
  destruct pl; [done|]. rewrite zlen_cons in *. pose proof (zlen_nonneg pl). lia.
Qed.

Lemma packet_from_ok bytes p : bytes_ok bytes → Packet.from_bytes bytes = Ok p → header_ok (header p).
Proof.
  intros Hb. unfold Packet.from_bytes.
  destruct bytes as [|c0 [|c1 [|c2 [|c3 [|c4 r]]]]]; try done. cbn [Header.from_bytes].
  intros [= <-]. unfold bytes_ok in Hb. rewrite !Forall_cons in Hb.
  destruct Hb as (? & ? & ? & ? & ? & _). split; [|done]. simpl. unfold cid_from_bytes.
  apply (be_decode_bound [c0; c1]). unfold bytes_ok. rewrite !Forall_cons. by split_and!.
Qed.

(** *** The state machine *)

Definition rank (s : ConnectionState) : nat :=
  match s with
  | Closed => 0 | SynSent => 1 | SynReceived => 1 | Established => 2 | FinWait => 3
  | Closing => 4 | TimeWait => 5
  end.

Lemma next_state_rank s e s' : next_state s e = Ok s' → s' = Closed ∨ (rank s < rank s')%nat.
Proof. destruct s, e; simpl; intros; simplify_eq; simpl; auto with lia. Qed.

Fixpoint run_events (es : list (Z * StateEvent)) (m : StateMachine) : result StateMachine ConstrainedError :=
  match es with
  | [] => Ok m
  | (now, e) :: es => let? m := transition now e m in run_events es m
  end.

(** A list of transitions, each allowed and each starting where the last ended. *)
Fixpoint chain (h : list (ConnectionState * StateEvent * ConnectionState)) (final : ConnectionState) : Prop :=
  match h with
  | [] => True
  | (s, e, s') :: h' =>
    next_state s e = Ok s' ∧ chain h' final
    ∧ match h' with [] => s' = final | (t, _, _) :: _ => s' = t end
  end.

Lemma chain_snoc h s e s' : chain h s → next_state s e = Ok s' → chain (h ++ [(s, e, s')]) s'.
Proof.
  induction h as [|[[t e'] t'] h IH]; intros Hc He; [done|].
  destruct Hc as (Ht & Hc & Hl). split; [done|]. split; [by apply IH|].
  destruct h as [|[[u ?] ?] h]; simpl; [by rewrite Hl|done].
Qed.

Lemma chain_drop h s : chain h s → chain (drop 1 h) s.
Proof. destruct h as [|[[? ?] ?] h]; [done|]. by intros (_ & ? & _). Qed.

Definition machine_ok (m : StateMachine) : Prop :=
  chain (history m) (state m) ∧ (length (history m) ≤ 8)%nat.

Lemma transition_ok now e m m' : machine_ok m → transition now e m = Ok m' →
  machine_ok m' ∧ next_state (state m) e = Ok (state m') ∧ state_entered m' = now
  ∧ last (history m') = Some (state m, e, state m').
Proof.
  intros [Hc Hl]. unfold transition. destruct (next_state (state m) e) as [s'|] eqn:He; [|done].
  intros [= <-]. simpl. split; [|split; [done|split; [done|by rewrite last_snoc]]].
  unfold machine_ok. simpl. destruct (Z.leb_spec 8 (zlen (history m))) as [H8|H8]; unfold zlen in H8.
  - split; [by apply chain_snoc; [apply chain_drop|]|].
    rewrite length_app, length_drop. simpl. lia.
  - split; [by apply chain_snoc|]. rewrite length_app. simpl. lia.
Qed.

Lemma run_events_ok es : ∀ m m', machine_ok m → run_events es m = Ok m' → machine_ok m'.
Proof.
  induction es as [|[now e] es IH]; intros m m' Hm; cbn [run_events].
  - by intros [= <-].
  - destruct (transition now e m) as [m1|] eqn:Ht; [|done].
    destruct (transition_ok _ _ _ _ Hm Ht) as (? & _). by apply IH.
Qed.

(** [visits es m]: some state after the first event is [Closed]. *)
Fixpoint visits_closed (es : list (Z * StateEvent)) (m : StateMachine) : Prop :=
  match es with
  | [] => False
  | (now, e) :: es =>
    match transition now e m with
    | Ok m => state m = Closed ∨ visits_closed es m
    | Err _ => False
    end
  end.

Lemma run_visits es : ∀ m m', run_events es m = Ok m' → (5 < rank (state m) + length es)%nat →
  visits_closed es m.
Proof.
  induction es as [|[now e] es IH]; intros m m' Hrun Hlen; cbn [run_events visits_closed] in *.
  - destruct (state m); simpl in Hlen; lia.
  - destruct (transition now e m) as [m1|] eqn:Ht; [|done]. simpl in Hrun.
    assert (Hn : next_state (state m) e = Ok (state m1)).
    { unfold transition in Ht. destruct (next_state (state m) e); [|done]. by injection Ht as <-. }
    destruct (next_state_rank _ _ _ Hn) as [Hc|Hr]; [by left|right].
    eapply IH; [done|]. simpl in Hlen. lia.
Qed.

(** ** Theorems *)

(** A packet on the wire: printing a packet whose fields fit their widths and
    parsing it gives the packet back; parsing fails exactly below five bytes; and a
    parsed packet prints to the bytes it came from. *)
Theorem constrained_packet_roundtrip (p : ConstrainedPacket) (bytes : list Z)
  (Hp : header_ok (header p)) (Hb : bytes_ok bytes) :
  Packet.from_bytes (Packet.to_bytes p) = Ok p
  ∧ zlen (Packet.to_bytes p) = Packet.total_size p
  ∧ match Packet.from_bytes bytes with
    | Ok q => Packet.to_bytes q = bytes
    | Err e => e = PacketTooSmall 5 (zlen bytes) ∧ zlen bytes < 5
    end.
Proof.
  split; [by apply packet_from_to|]. unfold Packet.total_size, HEADER_SIZE. split.
  - unfold Packet.to_bytes, Header.to_bytes. destruct (cid_bytes_pair (connection_id (header p))) as (b0 & b1 & ->).
    cbn [app]. rewrite !zlen_cons. lia.
  - unfold Packet.to_bytes, Packet.from_bytes, HEADER_SIZE.
    destruct bytes as [|c0 [|c1 [|c2 [|c3 [|c4 r]]]]]; try (split; [done|unfold zlen; simpl; lia]).
    cbn [Header.from_bytes]. unfold Header.to_bytes, cid_to_bytes, cid_from_bytes.
    cbn [connection_id seq ack flags header payload].
    change 2%nat with (length [c0; c1]).
    rewrite (be_encode_decode [c0; c1]) by exact (Forall_take _ 2 _ Hb).
    cbn [app]. do 5 f_equal. rewrite !zlen_cons. pose proof (zlen_nonneg r).
    destruct (Z.ltb_spec 5 (1 + (1 + (1 + (1 + (1 + zlen r)))))); [done|].
    destruct r; [done|]. rewrite zlen_cons in *. pose proof (zlen_nonneg r). lia.
Qed.

Lemma constrained_packet_roundtrip_witness :
  Packet.from_bytes (Packet.to_bytes (Packet.data 258 7 255 [1; 2])) = Ok (Packet.data 258 7 255 [1; 2])
  ∧ Packet.from_bytes [0; 1; 2; 3; 18; 9] = Ok (mk_packet (mk_header 1 2 3 18) [9]).
Proof.
  split; [|reflexivity].
  refine (proj1 (constrained_packet_roundtrip (Packet.data 258 7 255 [1; 2]) [0; 1; 2; 3; 18; 9] _ _));
    repeat constructor; vm_compute; congruence.
Defined.

(** The connection state machine is well behaved on every accepted sequence of
    events: the recorded history is at most eight transitions, each of them allowed,
    each starting where the one before ended, the last ending in the current state;
    six or more events always take the machine through [Closed]; and every state but
    [Closed] can be left by a timeout or a reset, to [Closed]. *)
Theorem constrained_state_machine (now : Z) (es : list (Z * StateEvent)) (m : StateMachine)
  (Hrun : run_events es (new now) = Ok m) :
  chain (history m) (state m) ∧ (length (history m) ≤ 8)%nat
  ∧ ((6 ≤ length es)%nat → visits_closed es (new now))
  ∧ (state m ≠ Closed → ∀ t, ∃ m1 m2,
      transition t Timeout m = Ok m1 ∧ state m1 = Closed
      ∧ transition t RecvRst m = Ok m2 ∧ state m2 = Closed).
Proof.
  destruct (run_events_ok es (new now) m) as [Hc Hl]; [by split; simpl; [|lia]|done|].
  split; [done|]. split; [done|]. split.
  - intros H6. eapply run_visits; [done|]. simpl. lia.
  - intros Hs t. unfold transition. destruct (state m); try done; simpl; by do 2 eexists.
Qed.

Lemma constrained_state_machine_witness :
  let es := [(1, Open); (2, RecvSynAck); (3, Close); (4, RecvAck); (5, RecvFin); (6, Timeout)] in
  visits_closed es (new 0).
Proof.
  exact (proj1 (proj2 (proj2 (constrained_state_machine 0
    [(1, Open); (2, RecvSynAck); (3, Close); (4, RecvAck); (5, RecvFin); (6, Timeout)] _ eq_refl)))
    (le_n 6)).
Defined.

End ConstrainedWire.
