(* ===== verification/Arq.v ===== *)
(** * The constrained protocol: retransmission

    Models [src/constrained/arq.rs]: the sliding windows of the sender and of the
    receiver, with 8-bit sequence numbers.

    Instants and durations are nanoseconds; an operation that reads the clock takes
    the time as [now].  [update_rtt] computes in [f64]: the two results of that
    computation, the new smoothed round-trip time and the new timeout, are the fields
    of a [Smoothing], an argument of the definitions that call it. *)

From stdpp Require Import relations.
From S2P Require Import Prelude ConstrainedWire.
Import ConstrainedWire.

Module Arq.

Definition DEFAULT_WINDOW_SIZE : Z := 8.
Definition DEFAULT_RTO : Z := secs 2.
Definition MAX_RTO : Z := secs 30.
Definition DEFAULT_MAX_RETRIES : Z := 5.

Record ArqConfig := mk_config {
  window_size : Z;
  initial_rto : Z;
  max_rto : Z;
  max_retries : Z;
}.

Definition config_default : ArqConfig :=
  mk_config DEFAULT_WINDOW_SIZE DEFAULT_RTO MAX_RTO DEFAULT_MAX_RETRIES.
Definition config_for_ble : ArqConfig := mk_config 4 1500000000 (secs 15) 5.
Definition config_for_lora : ArqConfig := mk_config 2 (secs 10) (secs 60) 3.

(** ** The send window *)

Record SendEntry := mk_entry {
  e_seq : Z;
  e_data : list Z;
  first_sent : Z;
  last_sent : Z;
  transmissions : Z;
}.

Definition entry_new (now seq : Z) (data : list Z) : SendEntry := mk_entry seq data now now 1.

Definition time_since_sent (now : Z) (e : SendEntry) : Z := saturating_sub now (last_sent e).

Definition mark_retransmitted (now : Z) (e : SendEntry) : SendEntry :=
  mk_entry (e_seq e) (e_data e) (first_sent e) now (transmissions e + 1).

Record SendWindow := mk_send_window {
  config : ArqConfig;
  next_seq : Z;
  base_seq : Z;
  unacked : list SendEntry;
  current_rto : Z;
  srtt : option Z;
}.

(** The floating-point part of [update_rtt]: from the old smoothed time and the
    sample, the new smoothed time; from them and the bounds, the new timeout. *)
Record Smoothing := mk_smoothing {
  new_srtt : Z → Z → Z;
  new_rto : Z → Z → Z → Z → Z;
}.

Definition send_window_new (c : ArqConfig) : SendWindow :=
  mk_send_window c 0 0 [] (initial_rto c) None.

Definition can_send (w : SendWindow) : bool := zlen (unacked w) <? window_size (config w).
Definition is_full (w : SendWindow) : bool := negb (can_send w).

Definition send (now : Z) (data : list Z) (w : SendWindow) : option Z * SendWindow :=
  if negb (can_send w) then (None, w)
  else
    (Some (next_seq w),
     mk_send_window (config w) (next (next_seq w)) (base_seq w)
       (unacked w ++ [entry_new now (next_seq w) data]) (current_rto w) (srtt w)).

Definition add (now seq : Z) (data : list Z) (w : SendWindow) : result SendWindow ConstrainedError :=
  if is_full w then Err SendBufferFull
  else
    Ok (mk_send_window (config w) (next_seq w) (base_seq w)
          (unacked w ++ [entry_new now seq data]) (current_rto w) (srtt w)).

Definition update_rtt (f : Smoothing) (c : ArqConfig) (sample : Z) (rtt : option Z * Z) : option Z * Z :=
  match rtt.1 with
  | Some srtt => (Some (new_srtt f srtt sample), new_rto f srtt sample (initial_rto c) (max_rto c))
  | None => (Some sample, sample * 2)
  end.

(** The loop of [acknowledge]: the entries left, the estimates, the count. *)
Fixpoint acknowledge_loop (f : Smoothing) (c : ArqConfig) (now base ack : Z) (entries : list SendEntry)
  (rtt : option Z * Z) (count : Z) : list SendEntry * (option Z * Z) * Z :=
  match entries with
  | [] => ([], rtt, count)
  | entry :: entries' =>
    if distance_to base (e_seq entry) <=? distance_to base ack then
      acknowledge_loop f c now base ack entries'
        (if transmissions entry =? 1 then update_rtt f c (time_since_sent now entry) rtt else rtt)
        (count + 1)
    else (entries, rtt, count)
  end.

Definition acknowledge (f : Smoothing) (now ack : Z) (w : SendWindow) : Z * SendWindow :=
  let '(entries, (srtt, rto), count) :=
    acknowledge_loop f (config w) now (base_seq w) ack (unacked w) (srtt w, current_rto w) 0 in
  (count, mk_send_window (config w) (next_seq w)
            (if 0 <? count then next ack else base_seq w) entries rto srtt).

(** The loop of [get_retransmissions].  On a packet out of retries it returns [None],
    the entries before it being marked already. *)
Fixpoint retransmit_loop (now rto max_retries : Z) (entries : list SendEntry)
  : option (list (Z * list Z)) * list SendEntry :=
  match entries with
  | [] => (Some [], [])
  | entry :: entries' =>
    if rto <? time_since_sent now entry then
      if max_retries <? transmissions entry then (None, entries)
      else
        let '(out, rest) := retransmit_loop now rto max_retries entries' in
        (cons (e_seq entry, e_data entry) <$> out, mark_retransmitted now entry :: rest)
    else
      let '(out, rest) := retransmit_loop now rto max_retries entries' in
      (out, entry :: rest)
  end.

Definition get_retransmissions (now : Z) (w : SendWindow) : option (list (Z * list Z)) * SendWindow :=
  let '(out, entries) := retransmit_loop now (current_rto w) (max_retries (config w)) (unacked w) in
  let rto :=
    match out with
    | Some (_ :: _) => Z.min (current_rto w * 2) (max_rto (config w))
    | _ => current_rto w
    end in
  (out, mk_send_window (config w) (next_seq w) (base_seq w) entries rto (srtt w)).

Definition send_window_reset (w : SendWindow) : SendWindow :=
  mk_send_window (config w) 0 0 [] (initial_rto (config w)) None.

(** ** The receive window *)

Record ReceiveWindow := mk_receive_window {
  r_window_size : Z;
  next_expected : Z;
  cumulative_ack : Z;
  out_of_order : list (Z * list Z);
}.

Definition receive_window_new (size : Z) : ReceiveWindow := mk_receive_window size 0 0 [].

Definition r_is_in_window (w : ReceiveWindow) (seq : Z) : bool :=
  is_in_window (next_expected w) seq (r_window_size w).

(** [position] and [remove] of the packet with sequence number [seq]. *)
Fixpoint take_seq (seq : Z) (l : list (Z * list Z)) : option (list Z * list (Z * list Z)) :=
  match l with
  | [] => None
  | (s, d) :: l' =>
    if s =? seq then Some (d, l')
    else '(d', rest) ← take_seq seq l'; Some (d', (s, d) :: rest)
  end.

(** The loop over buffered packets that are now in order; each round takes one out. *)
Fixpoint drain (fuel : nat) (w : ReceiveWindow) : list (Z * list Z) * ReceiveWindow :=
  match fuel with
  | O => ([], w)
  | S fuel =>
    match take_seq (next_expected w) (out_of_order w) with
    | None => ([], w)
    | Some (d, rest) =>
      let s := next_expected w in
      let '(out, w') := drain fuel (mk_receive_window (r_window_size w) (next s) s rest) in
      ((s, d) :: out, w')
    end
  end.

(** [position(..).unwrap_or(len)] and [insert]: keep the buffer sorted by distance. *)
Fixpoint insert_by_distance (expected seq : Z) (data : list Z) (l : list (Z * list Z)) : list (Z * list Z) :=
  match l with
  | [] => [(seq, data)]
  | (s, d) :: l' =>
    if distance_to expected seq <? distance_to expected s then (seq, data) :: l
    else (s, d) :: insert_by_distance expected seq data l'
  end.

Definition receive (seq : Z) (data : list Z) (w : ReceiveWindow)
  : option (list (Z * list Z)) * ReceiveWindow :=
  if negb (r_is_in_window w seq) then (None, w)
  else if seq =? next_expected w then
    let w := mk_receive_window (r_window_size w) (next (next_expected w)) seq (out_of_order w) in
    let '(out, w) := drain (length (out_of_order w)) w in
    (Some ((seq, data) :: out), w)
  else if existsb (λ p, p.1 =? seq) (out_of_order w) then (None, w)
  else
    (None, mk_receive_window (r_window_size w) (next_expected w) (cumulative_ack w)
             (insert_by_distance (next_expected w) seq data (out_of_order w))).

Definition receive_window_reset (w : ReceiveWindow) : ReceiveWindow :=
  mk_receive_window (r_window_size w) 0 0 [].

Definition reset_with_seq (start_seq : Z) (w : ReceiveWindow) : ReceiveWindow :=
  mk_receive_window (r_window_size w) start_seq start_seq [].

(** ** Both windows and the network between them

    Packets are numbered from 0 without bound; a packet carries its number modulo
    256.  [sent] holds the data of all packets so far, [delivered] what the receiver
    handed up, [acks] how many packets each acknowledgement sent so far covered. *)

Record System := mk_system {
  sw : SendWindow;
  rw : ReceiveWindow;
  sent : list (list Z);
  delivered : list (list Z);
  acks : list Z;
}.

Definition at_ (sent : list (list Z)) (i : Z) : list Z := default [] (sent !! Z.to_nat i).
Definition pkt (sent : list (list Z)) (i : Z) : Z * list Z := (wrap 8 i, at_ sent i).

(** The network loses, repeats and reorders packets; it only must not hold one back
    until 128 newer ones have passed it. *)
Inductive step (f : Smoothing) : System → System → Prop :=
| step_send now data s w :
    add now (wrap 8 (zlen (sent s))) data (sw s) = Ok w →
    step f s (mk_system w (rw s) (sent s ++ [data]) (delivered s) (acks s))
| step_data i s out w :
    0 ≤ i < zlen (sent s) → zlen (delivered s) - i ≤ 128 →
    receive (pkt (sent s) i).1 (pkt (sent s) i).2 (rw s) = (out, w) →
    step f s (mk_system (sw s) w (sent s)
      (delivered s ++ (snd <$> default [] out))
      (match out with
       | Some l => acks s ++ [zlen (delivered s) + zlen l]
       | None => acks s
       end))
| step_ack now a s n w :
    a ∈ acks s → zlen (sent s) - zlen (unacked (sw s)) - a < 128 →
    acknowledge f now (wrap 8 (a - 1)) (sw s) = (n, w) →
    step f s (mk_system w (rw s) (sent s) (delivered s) (acks s))
| step_timeout now s out w :
    get_retransmissions now (sw s) = (out, w) →
    step f s (mk_system w (rw s) (sent s) (delivered s) (acks s)).

Definition init (c : ArqConfig) : System :=
  mk_system (send_window_new c) (receive_window_new (window_size c)) [] [] [].

Record send_inv (sent : list (list Z)) (B : Z) (w : SendWindow) : Prop := {
  si_range : 0 ≤ B ≤ zlen sent;
  si_window : zlen sent - B ≤ window_size (config w) ≤ 127;
  si_base : base_seq w = wrap 8 B;
  si_unacked : (λ e, (e_seq e, e_data e)) <$> unacked w = pkt sent <$> seqZ B (zlen sent - B);
}.

Record recv_inv (sent : list (list Z)) (R : Z) (w : ReceiveWindow) : Prop := {
  ri_range : 0 ≤ R ≤ zlen sent;
  ri_window : 0 ≤ r_window_size w ≤ 127;
  ri_next : next_expected w = wrap 8 R;
  ri_ack : 0 < R → cumulative_ack w = wrap 8 (R - 1);
  ri_buffer : ∃ idx, out_of_order w = pkt sent <$> idx ∧ NoDup idx
    ∧ Forall (λ i, R < i ≤ R + r_window_size w ∧ i < zlen sent) idx;
}.

Record inv (s : System) : Prop := {
  inv_send : send_inv (sent s) (zlen (sent s) - zlen (unacked (sw s))) (sw s);
  inv_recv : recv_inv (sent s) (zlen (delivered s)) (rw s);
  inv_le : zlen (sent s) - zlen (unacked (sw s)) ≤ zlen (delivered s);
  inv_data : delivered s = ztake (zlen (delivered s)) (sent s);
  inv_acks : Forall (λ a, 1 ≤ a ≤ zlen (delivered s)) (acks s);
}.

(** *** Lemmas *)

Lemma pkt_app l k i : 0 ≤ i < zlen l → pkt (l ++ k) i = pkt l i.
Proof. intros. unfold pkt, at_, zlen in *. rewrite lookup_app_l by lia. done. Qed.

Lemma pkt_map_app l k idx : Forall (λ i, 0 ≤ i < zlen l) idx → pkt (l ++ k) <$> idx = pkt l <$> idx.
Proof.
  intros Hi. apply list_fmap_ext. intros n i Hn.
  apply pkt_app. by apply (Forall_lookup_1 _ _ _ _ Hi Hn).
Qed.

Lemma seqZ_bound a n : Forall (λ i, a ≤ i < a + n) (seqZ a n).
Proof. apply Forall_forall. intros i Hi. by apply elem_of_seqZ in Hi. Qed.

Lemma zlen_seqZ a n : 0 ≤ n → zlen (seqZ a n) = n.
Proof. intros. unfold zlen. rewrite length_seqZ. lia. Qed.

Lemma zlen_fmap {A B} (g : A → B) l : zlen (g <$> l) = zlen l.
Proof. unfold zlen. by rewrite length_fmap. Qed.

Lemma send_inv_len l B w : send_inv l B w → zlen (unacked w) = zlen l - B.
Proof.
  intros [? ? _ Hu]. apply (f_equal zlen) in Hu. rewrite !zlen_fmap, zlen_seqZ in Hu by lia. done.
Qed.

Lemma add_spec l B w now data w' : send_inv l B w → add now (wrap 8 (zlen l)) data w = Ok w' →
  send_inv (l ++ [data]) B w'.
Proof.
  intros Hi. pose proof (send_inv_len _ _ _ Hi) as Hlen. destruct Hi as [Hr Hw Hb Hu].
  unfold add, is_full, can_send. destruct (Z.ltb_spec (zlen (unacked w)) (window_size (config w))); [|done].
  intros [= <-]. split; simpl; rewrite ?zlen_app; change (zlen [data]) with 1; [lia|lia|done|].
  rewrite fmap_app, Hu. replace (zlen l + 1 - B) with (zlen l - B + 1) by lia.
  rewrite seqZ_app by lia. rewrite fmap_app. f_equal.
  - symmetry. apply pkt_map_app. eapply Forall_impl; [apply seqZ_bound|]. simpl. lia.
  - replace (B + (zlen l - B)) with (zlen l) by lia. rewrite seqZ_cons, seqZ_nil by lia.
    cbn [fmap list_fmap]. unfold pkt, at_. cbn [e_seq e_data entry_new].
    replace (Z.to_nat (zlen l)) with (length l) by (unfold zlen; lia).
    by rewrite lookup_app_r, Nat.sub_diag by lia.
Qed.

Lemma acknowledge_loop_spec f c now l B a : -128 ≤ a - 1 - B < 128 → ∀ es k rtt count,
  (λ e, (e_seq e, e_data e)) <$> es = pkt l <$> seqZ (B + k) (zlen l - B - k) →
  0 ≤ k ≤ zlen l - B → zlen l - B ≤ 127 → a ≤ zlen l → k ≤ Z.max 0 (a - B) →
  ∃ es' rtt', acknowledge_loop f c now (wrap 8 B) (wrap 8 (a - 1)) es rtt count
      = (es', rtt', count + (Z.max 0 (a - B) - k))
    ∧ (λ e, (e_seq e, e_data e)) <$> es' = pkt l <$> seqZ (Z.max B a) (zlen l - Z.max B a).
Proof.
  intros Ha es. induction es as [|e es IH]; intros k rtt count Hes Hk Hl Hal Hka; cbn [acknowledge_loop].
  - assert (zlen l - B - k = 0).
    { apply (f_equal zlen) in Hes. rewrite !zlen_fmap, zlen_seqZ in Hes by lia.
      change (zlen []) with 0 in Hes. lia. }
    exists [], rtt. split; [f_equal; lia|]. rewrite seqZ_nil by lia. done.
  - destruct (decide (zlen l - B - k = 0)) as [Hz|Hz].
    { rewrite Hz in Hes. by rewrite seqZ_nil in Hes by lia. }
    rewrite seqZ_cons, !fmap_cons in Hes by lia. injection Hes as Hseq Hd Hes.
    rewrite Hseq, !distance_diff by lia.
    destruct (Z.leb_spec (B + k - B) (a - 1 - B)).
    + edestruct (IH (k + 1)) as (es' & rtt' & Heq & Hes'); try done; [|lia..|].
      * replace (B + (k + 1)) with (Z.succ (B + k)) by lia.
        replace (zlen l - B - (k + 1)) with (Z.pred (zlen l - B - k)) by lia. exact Hes.
      * eexists _, _. split; [rewrite Heq; f_equal; lia|done].
    + exists (e :: es), rtt. split; [f_equal; lia|].
      replace (Z.max B a) with (B + k) by lia. replace (zlen l - (B + k)) with (zlen l - B - k) by lia.
      rewrite seqZ_cons, !fmap_cons, Hes by lia. by rewrite Hseq, Hd.
Qed.

Lemma acknowledge_spec f now l B w a : send_inv l B w → -128 ≤ a - 1 - B → a ≤ zlen l →
  ∃ w', acknowledge f now (wrap 8 (a - 1)) w = (Z.max 0 (a - B), w') ∧ send_inv l (Z.max B a) w'.
Proof.
  intros [Hr Hw Hb Hu] Ha Hal. unfold acknowledge. rewrite Hb.
  destruct (acknowledge_loop_spec f (config w) now l B a ltac:(lia) (unacked w) 0 (srtt w, current_rto w) 0)
    as (es' & [sr rto] & -> & Hes'); [|lia..|].
  { rewrite Hu. f_equal. f_equal; lia. }
  replace (0 + (Z.max 0 (a - B) - 0)) with (Z.max 0 (a - B)) by lia.
  eexists. split; [done|]. split; simpl; [lia|lia| |done].
  destruct (Z.ltb_spec 0 (Z.max 0 (a - B))).
  - rewrite wrap_next. f_equal. lia.
  - f_equal. lia.
Qed.

Lemma retransmit_loop_spec now rto mr es out es' : retransmit_loop now rto mr es = (out, es') →
  (λ e, (e_seq e, e_data e)) <$> es' = (λ e, (e_seq e, e_data e)) <$> es
  ∧ ∀ l, out = Some l → l ⊆+ ((λ e, (e_seq e, e_data e)) <$> es).
Proof.
  revert out es'. induction es as [|e es IH]; intros out es'; simpl.
  - intros [= <- <-]. split; [done|]. intros l [= <-]. done.
  - destruct (retransmit_loop now rto mr es) as [o r]. destruct (IH _ _ eq_refl) as [Hr Ho].
    destruct (_ <? _); [destruct (_ <? _)|]; intros [= <- <-].
    + split; [done|]. done.
    + rewrite !fmap_cons, Hr. split; [done|]. intros l Hl. destruct o as [o|]; [|done]. injection Hl as <-.
      apply submseteq_skip. by apply Ho.
    + rewrite !fmap_cons, Hr. split; [done|]. intros l Hl. apply submseteq_cons. by apply Ho.
Qed.

Lemma get_retransmissions_spec now w out w' l B : send_inv l B w →
  get_retransmissions now w = (out, w') → send_inv l B w'.
Proof.
  intros [Hr Hw Hb Hu]. unfold get_retransmissions.
  destruct (retransmit_loop _ _ _ _) as [o es] eqn:He. apply retransmit_loop_spec in He as [He _].
  intros [= <- <-]. split; simpl; try done. by rewrite He.
Qed.

Lemma take_seq_spec l R idx : NoDup idx → Forall (λ i, R ≤ i ≤ R + 127) idx →
  match take_seq (wrap 8 R) (pkt l <$> idx) with
  | Some (d, rest) => ∃ idx', d = at_ l R ∧ rest = pkt l <$> idx' ∧ idx ≡ₚ R :: idx'
  | None => R ∉ idx
  end.
Proof.
  induction idx as [|i idx IH]; intros Hnd Hr; [by apply not_elem_of_nil|].
  inversion Hnd; inversion Hr; subst. rewrite fmap_cons. cbn [take_seq pkt].
  destruct (Z.eqb_spec (wrap 8 i) (wrap 8 R)) as [Heq|Hne].
  - assert (i = R) as -> by (apply wrap_inj; [lia|done]). by exists idx.
  - assert (i ≠ R) by (intros ->; done).
    specialize (IH ltac:(done) ltac:(done)). destruct (take_seq _ _) as [[d rest]|]; simpl.
    + destruct IH as (idx' & -> & -> & Hp). exists (i :: idx'). split; [done|]. split; [done|].
      rewrite Hp. constructor.
    + rewrite not_elem_of_cons. done.
Qed.

(** After the packet before [R], the loop delivers all that follow without a gap. *)
Lemma drain_spec l fuel : ∀ R w idx, next_expected w = wrap 8 R → cumulative_ack w = wrap 8 (R - 1) →
  out_of_order w = pkt l <$> idx → NoDup idx → Forall (λ i, R ≤ i ≤ R + 127 ∧ i < zlen l) idx →
  (length idx ≤ fuel)%nat → R ≤ zlen l →
  ∃ R' w' idx', drain fuel w = (pkt l <$> seqZ R (R' - R), w') ∧ R ≤ R' ≤ zlen l
    ∧ r_window_size w' = r_window_size w ∧ next_expected w' = wrap 8 R'
    ∧ cumulative_ack w' = wrap 8 (R' - 1) ∧ out_of_order w' = pkt l <$> idx' ∧ NoDup idx'
    ∧ idx' ⊆+ idx ∧ Forall (λ i, R' < i) idx'.
Proof.
  induction fuel as [|fuel IH]; intros R w idx Hne Hca Ho Hnd Hb Hf HR; cbn [drain].
  { destruct idx; [|simpl in Hf; lia]. exists R, w, [].
    rewrite Z.sub_diag, seqZ_nil by lia. split_and!; try done; constructor. }
  assert (Hb' : Forall (λ i, R ≤ i ≤ R + 127) idx) by (eapply Forall_impl; [exact Hb|]; simpl; lia).
  pose proof (take_seq_spec l R idx Hnd Hb') as Ht. rewrite Hne, Ho.
  destruct (take_seq _ _) as [[d rest]|].
  - destruct Ht as (idx1 & -> & -> & Hp). rewrite Hp in Hnd, Hb.
    inversion Hnd as [|?? HRn Hnd1]; subst. inversion Hb as [|?? [_ HRl] Hb1]; subst.
    apply Permutation_length in Hp as Hlen. simpl in Hlen.
    edestruct (IH (R + 1) (mk_receive_window (r_window_size w) (next (wrap 8 R)) (wrap 8 R) (pkt l <$> idx1)) idx1)
      as (R' & w' & idx' & Heq & ? & ? & ? & ? & ? & ? & Hsub & ?); simpl; try done.
    + by rewrite wrap_next.
    + f_equal. lia.
    + rewrite Forall_forall in *. intros i Hi. specialize (Hb1 i Hi). simpl in Hb1.
      assert (i ≠ R) by (by intros ->). lia.
    + lia.
    + lia.
    + exists R', w', idx'. rewrite Heq. split.
      * replace (R' - R) with (Z.succ (R' - (R + 1))) by lia.
        rewrite (seqZ_cons R) by lia. rewrite fmap_cons. do 4 f_equal; lia.
      * split_and!; try done; try lia. etrans; [exact Hsub|]. rewrite Hp. by apply submseteq_cons.
  - exists R, w, idx. rewrite Z.sub_diag, seqZ_nil by lia. split_and!; try done.
    rewrite Forall_forall in *. intros i Hi. specialize (Hb' i Hi). simpl in Hb'.
    assert (i ≠ R) by (by intros ->). lia.
Qed.

Lemma insert_by_distance_idx l e i idx : ∃ idx',
  insert_by_distance e (wrap 8 i) (at_ l i) (pkt l <$> idx) = pkt l <$> idx' ∧ idx' ≡ₚ i :: idx.
Proof.
  induction idx as [|j idx IH]; [by exists [i]|]. rewrite fmap_cons. cbn [insert_by_distance pkt].
  destruct (_ <? _); [by exists (i :: j :: idx)|].
  destruct IH as (idx' & -> & Hp). exists (j :: idx'). split; [done|]. rewrite Hp. constructor.
Qed.

Lemma receive_spec l R w i : recv_inv l R w → 0 ≤ i < zlen l → -128 ≤ i - R < 128 →
  match receive (pkt l i).1 (pkt l i).2 w with
  | (Some out, w') => i = R ∧ ∃ R', R < R' ∧ out = pkt l <$> seqZ R (R' - R) ∧ recv_inv l R' w'
  | (None, w') => i ≠ R ∧ recv_inv l R w'
  end.
Proof.
  intros Hinv Hi Hd. pose proof Hinv as [Hr Hw Hn Ha (idx & Ho & Hnd & Hb)].
  unfold receive, r_is_in_window, is_in_window. cbn [pkt fst snd]. rewrite Hn, distance_diff by lia.
  destruct (Z.leb_spec 0 (i - R)); simpl; [|split; [lia|done]].
  destruct (Z.leb_spec (i - R) (r_window_size w)); simpl; [|split; [lia|done]].
  destruct (Z.eqb_spec (wrap 8 i) (wrap 8 R)) as [Heq|Hne].
  - apply wrap_inj in Heq; [|lia]. subst i. rewrite Ho, length_fmap.
    destruct (drain_spec l (length idx) (R + 1)
      (mk_receive_window (r_window_size w) (next (wrap 8 R)) (wrap 8 R) (pkt l <$> idx)) idx)
      as (R' & w' & idx' & -> & HR' & Hws & Hn' & Ha' & Ho' & Hnd' & Hsub & Hgt); try done.
    + by rewrite <-wrap_next.
    + simpl. f_equal. lia.
    + eapply Forall_impl; [exact Hb|]. simpl. lia.
    + lia.
    + split; [done|]. exists R'. split; [lia|]. split.
      * replace (R' - R) with (Z.succ (R' - (R + 1))) by lia.
        rewrite (seqZ_cons R) by lia. rewrite fmap_cons. do 4 f_equal; lia.
      * split; simpl in *; rewrite ?Hws; try done; [lia|]. exists idx'. split; [done|]. split; [done|].
        rewrite Forall_forall in *. intros j Hj. specialize (Hgt j Hj). simpl in Hgt.
        assert (Hj' : j ∈ idx) by (by apply (elem_of_submseteq idx' idx)).
        specialize (Hb j Hj'). simpl in Hb. lia.
  - assert (i ≠ R) by (intros ->; done). rewrite Ho.
    destruct (existsb _ (pkt l <$> idx)) eqn:Hex; [done|]. split; [done|].
    destruct (insert_by_distance_idx l (wrap 8 R) i idx) as (idx' & -> & Hp).
    split; simpl; try done. exists idx'. split; [done|]. rewrite Hp. split.
    + constructor; [|done]. intros Hin. rewrite <-not_true_iff_false, existsb_exists in Hex.
      apply Hex. exists (pkt l i). split; [|apply Z.eqb_refl].
      apply list_elem_of_In, list_elem_of_fmap. by exists i.
    + constructor; [lia|done].
Qed.

Lemma snd_pkt_ztake l R R' : 0 ≤ R → R ≤ R' → R' ≤ zlen l →
  ztake R l ++ (snd <$> (pkt l <$> seqZ R (R' - R))) = ztake R' l.
Proof.
  intros HR HR'. assert (∃ n : nat, R' = R + Z.of_nat n) as [n ->] by (exists (Z.to_nat (R' - R)); lia).
  clear HR'. replace (R + Z.of_nat n - R) with (Z.of_nat n) by lia. induction n as [|n IH]; intros Hl.
  - rewrite Z.add_0_r, seqZ_nil by lia. simpl. by rewrite app_nil_r.
  - replace (Z.of_nat (S n)) with (Z.of_nat n + 1) by lia. rewrite seqZ_app by lia.
    rewrite !fmap_app, app_assoc, IH by lia.
    rewrite (seqZ_cons (R + Z.of_nat n)), seqZ_nil by lia. simpl. unfold at_, ztake, zlen in *.
    destruct (lookup_lt_is_Some_2 l (Z.to_nat (R + Z.of_nat n)) ltac:(lia)) as [y Hy]. rewrite Hy. simpl.
    rewrite <-(take_S_r l _ y Hy). f_equal. lia.
Qed.

Lemma recv_inv_app l k R w : recv_inv l R w → recv_inv (l ++ k) R w.
Proof.
  intros [Hr Hw Hn Ha (idx & Ho & Hnd & Hb)]. pose proof (zlen_nonneg k).
  split; try done; [rewrite zlen_app; lia|]. exists idx. rewrite pkt_map_app.
  - split; [done|]. split; [done|]. eapply Forall_impl; [exact Hb|]. simpl. rewrite zlen_app. lia.
  - eapply Forall_impl; [exact Hb|]. simpl. lia.
Qed.

Lemma inv_step f s s' : step f s s' → inv s → inv s'.
Proof.
  intros Hstep [Hs Hr Hle Hd Ha]. destruct Hstep as [now data s w Hadd|i s out w Hi Hold Hrecv
    |now a s n w Hin Hold Hack|now s out w Hget].
  - pose proof (add_spec _ _ _ _ _ _ Hs Hadd) as Hs'. pose proof (send_inv_len _ _ _ Hs') as Hlen.
    rewrite zlen_app in Hlen. change (zlen [data]) with 1 in Hlen.
    assert (Heq : zlen (sent s ++ [data]) - zlen (unacked w) = zlen (sent s) - zlen (unacked (sw s)))
      by (rewrite zlen_app; change (zlen [data]) with 1; lia).
    split; simpl; rewrite ?Heq; try done; [by apply recv_inv_app|].
    rewrite ztake_app_le; [done|]. apply (ri_range _ _ _ Hr).
  - pose proof (ri_range _ _ _ Hr). pose proof (si_window _ _ _ Hs).
    pose proof (receive_spec _ _ _ i Hr Hi ltac:(lia)) as Hspec. rewrite Hrecv in Hspec.
    destruct out as [out|]; simpl.
    + destruct Hspec as (-> & R' & HR' & -> & Hr'). pose proof (ri_range _ _ _ Hr').
      set (R := zlen (delivered s)) in *.
      assert (Hlen : zlen (delivered s ++ (snd <$> (pkt (sent s) <$> seqZ R (R' - R)))) = R').
      { rewrite zlen_app, !zlen_fmap, zlen_seqZ by lia. fold R. lia. }
      split; simpl; rewrite ?Hlen; try done; [lia| |].
      * rewrite Hd, snd_pkt_ztake by lia. done.
      * rewrite zlen_fmap, zlen_seqZ by lia. rewrite Forall_app, Forall_singleton. split; [|lia].
        eapply Forall_impl; [exact Ha|]. simpl. lia.
    + rewrite app_nil_r. destruct Hspec as [_ Hr']. by split.
  - rewrite Forall_forall in Ha. pose proof (Ha a Hin) as Ha'. simpl in Ha'. rewrite <-Forall_forall in Ha.
    pose proof (ri_range _ _ _ Hr).
    destruct (acknowledge_spec f now _ _ _ a Hs ltac:(lia) ltac:(lia)) as (w' & Heq & Hs').
    rewrite Hack in Heq. injection Heq as -> ->. pose proof (send_inv_len _ _ _ Hs').
    split; simpl; try done; [|lia]. by replace (zlen (sent s) - zlen (unacked w'))
      with (Z.max (zlen (sent s) - zlen (unacked (sw s))) a) by lia.
  - pose proof (get_retransmissions_spec _ _ _ _ _ _ Hs Hget) as Hs'.
    pose proof (send_inv_len _ _ _ Hs') as Hl. split; simpl; try done; [|lia].
    by replace (zlen (sent s) - zlen (unacked w)) with (zlen (sent s) - zlen (unacked (sw s))) by lia.
Qed.

Lemma arq_inv_init c : 0 ≤ window_size c ≤ 127 → inv (init c).
Proof.
  intros Hw. split; simpl; try done.
  split; unfold zlen; simpl; try done. exists []. split; [done|]. by split; constructor.
Qed.

Lemma inv_reachable f c s : 0 ≤ window_size c ≤ 127 → rtc (step f) (init c) s → inv s.
Proof.
  intros Hw. remember (init c) as s0 eqn:Hs0. assert (Hi : inv s0) by (subst; by apply arq_inv_init).
  clear Hs0. induction 1 as [|s0 s1 s Hstep _ IH]; [done|]. apply IH. by apply (inv_step f s0).
Qed.

(** ** Theorems *)


(** When the oldest packet the receiver misses arrives, it is handed up together
    with all packets buffered behind it, and the acknowledgement this produces frees
    exactly the sender's entries for the packets handed up. *)
Theorem arq_progress (f : Smoothing) (c : ArqConfig) (s : System) (now : Z)
  (Hw : 0 ≤ window_size c ≤ 127) (Hs : rtc (step f) (init c) s)
  (Hmiss : zlen (delivered s) < zlen (sent s)) :
  let R := zlen (delivered s) in
  ∃ R' w, R < R' ≤ zlen (sent s)
    ∧ receive (wrap 8 R) (at_ (sent s) R) (rw s) = (Some (pkt (sent s) <$> seqZ R (R' - R)), w)
    ∧ cumulative_ack w = wrap 8 (R' - 1)
    ∧ ∃ w', acknowledge f now (cumulative_ack w) (sw s)
            = (R' - (zlen (sent s) - zlen (unacked (sw s))), w')
      ∧ (λ e, (e_seq e, e_data e)) <$> unacked w'
        = pkt (sent s) <$> seqZ R' (zlen (sent s) - R').
Proof.
  destruct (inv_reachable f c s Hw Hs) as [Hsi Hri Hle Hd _]. simpl.
  set (R := zlen (delivered s)) in *. pose proof (zlen_nonneg (delivered s)).
  pose proof (receive_spec _ _ _ R Hri ltac:(lia) ltac:(lia)) as Hspec. cbn [pkt fst snd] in Hspec.
  destruct (receive _ _ _) as [[out|] w]; [|by destruct Hspec].
  destruct Hspec as (_ & R' & HR' & -> & Hri'). pose proof (ri_range _ _ _ Hri').
  exists R', w. split; [lia|]. split; [done|]. rewrite (ri_ack _ _ _ Hri') by lia. split; [done|].
  destruct (acknowledge_spec f now _ _ _ R' Hsi ltac:(lia) ltac:(lia)) as (w' & Hack & [_ _ _ Hu]).
  exists w'. split; [rewrite Hack; f_equal; lia|]. rewrite Hu. f_equal. f_equal; lia.
Qed.

(** The estimator in exact arithmetic: seven eighths of the old value and one eighth
    of the sample, the timeout twice that within its bounds. *)
Definition exact_smoothing : Smoothing := mk_smoothing
  (λ srtt sample, (7 * srtt + sample) / 8)
  (λ srtt sample lo hi, Z.max lo (Z.min hi (2 * ((7 * srtt + sample) / 8)))).

Definition sample_run : System :=
  let s0 := init config_default in
  let w1 := mk_send_window config_default 0 0 [entry_new 1 0 [10]] DEFAULT_RTO None in
  mk_system w1 (rw s0) [[10]] [] [].

Lemma sample_reachable : rtc (step exact_smoothing) (init config_default) sample_run.
Proof.
  eapply rtc_l; [|apply rtc_refl]. apply (step_send exact_smoothing 1 [10] (init config_default)).
  reflexivity.
Qed.


Lemma arq_progress_witness : ∃ R' w, 0 < R' ≤ 1 ∧ cumulative_ack w = wrap 8 (R' - 1).
Proof.
  destruct (arq_progress exact_smoothing config_default sample_run 2) as (R' & w & HR & _ & Hc & _).
  - split; vm_compute; congruence.
  - exact sample_reachable.
  - vm_compute. reflexivity.
  - exists R', w. split; [exact HR|exact Hc].
Defined.

End Arq.
