(* ===== verification/ConstrainedConn.v ===== *)
(** * The constrained protocol: connections and the engine

    Models [src/constrained/connection.rs] and [src/constrained/engine.rs].  An
    operation returns its result next to the new state, since an error leaves the
    changes made before it.  An operation that reads the clock takes the time as
    [now]; remote addresses are any countable type; the [HashMap]s are finite maps
    and a loop over one visits its entries in the order of [map_to_list]. *)

From Stdlib Require Import String.
From stdpp Require Import gmap.
From S2P Require Import Prelude ConstrainedWire Arq.
Import ConstrainedWire Arq.

Module Conn.

Definition DEFAULT_MSS : Z := 235.
Definition DEFAULT_MTU : Z := 247.

Record ConnectionConfig := mk_conn_config {
  arq : ArqConfig;
  mss : Z;
  mtu : Z;
  keepalive_interval : Z;
  idle_timeout : Z;
}.

Definition conn_config_default : ConnectionConfig :=
  mk_conn_config config_default DEFAULT_MSS DEFAULT_MTU (secs 30) (secs 300).
Definition conn_config_for_ble : ConnectionConfig :=
  mk_conn_config config_for_ble 235 247 (secs 15) (secs 120).
Definition conn_config_for_lora : ConnectionConfig :=
  mk_conn_config config_for_lora 50 55 (secs 60) (secs 600).

Inductive ConnectionEvent :=
| EvConnected
| EvDataReceived (data : list Z)
| EvClosed
| EvReset
| EvError (msg : string)
| EvTransmit (data : list Z).

Section conn.
  Context {Addr : Type}.
  (** The floating-point part of the round-trip estimator, see [Arq]. *)
  Context (f : Smoothing).

Record ConstrainedConnection := mk_conn {
  c_id : Z;
  remote_addr : Addr;
  c_state : StateMachine;
  send_window : SendWindow;
  receive_window : ReceiveWindow;
  c_config : ConnectionConfig;
  outbound : list ConstrainedPacket;
  inbound : list (list Z);
  last_activity : Z;
  last_keepalive : option Z;
  events : list ConnectionEvent;
  local_seq : Z;
  is_initiator : bool;
}.

Definition new (now cid : Z) (addr : Addr) (config : ConnectionConfig) (is_initiator : bool) : ConstrainedConnection :=
  mk_conn cid addr (ConstrainedWire.new now) (send_window_new (arq config))
    (receive_window_new (window_size (arq config))) config [] [] now None [] 0 is_initiator.

Definition set_state (m : StateMachine) (c : ConstrainedConnection) : ConstrainedConnection :=
  mk_conn (c_id c) (remote_addr c) m (send_window c) (receive_window c) (c_config c) (outbound c)
    (inbound c) (last_activity c) (last_keepalive c) (events c) (local_seq c) (is_initiator c).

Definition touch (now : Z) (c : ConstrainedConnection) : ConstrainedConnection :=
  mk_conn (c_id c) (remote_addr c) (c_state c) (send_window c) (receive_window c) (c_config c)
    (outbound c) (inbound c) now (last_keepalive c) (events c) (local_seq c) (is_initiator c).

Definition set_send_window (w : SendWindow) (c : ConstrainedConnection) : ConstrainedConnection :=
  mk_conn (c_id c) (remote_addr c) (c_state c) w (receive_window c) (c_config c) (outbound c)
    (inbound c) (last_activity c) (last_keepalive c) (events c) (local_seq c) (is_initiator c).

Definition set_receive_window (w : ReceiveWindow) (c : ConstrainedConnection) : ConstrainedConnection :=
  mk_conn (c_id c) (remote_addr c) (c_state c) (send_window c) w (c_config c) (outbound c)
    (inbound c) (last_activity c) (last_keepalive c) (events c) (local_seq c) (is_initiator c).

Definition push_outbound (p : ConstrainedPacket) (c : ConstrainedConnection) : ConstrainedConnection :=
  mk_conn (c_id c) (remote_addr c) (c_state c) (send_window c) (receive_window c) (c_config c)
    (outbound c ++ [p]) (inbound c) (last_activity c) (last_keepalive c) (events c) (local_seq c)
    (is_initiator c).

Definition push_event (e : ConnectionEvent) (c : ConstrainedConnection) : ConstrainedConnection :=
  mk_conn (c_id c) (remote_addr c) (c_state c) (send_window c) (receive_window c) (c_config c)
    (outbound c) (inbound c) (last_activity c) (last_keepalive c) (events c ++ [e]) (local_seq c)
    (is_initiator c).

Definition push_inbound (d : list Z) (c : ConstrainedConnection) : ConstrainedConnection :=
  mk_conn (c_id c) (remote_addr c) (c_state c) (send_window c) (receive_window c) (c_config c)
    (outbound c) (inbound c ++ [d]) (last_activity c) (last_keepalive c) (events c) (local_seq c)
    (is_initiator c).

Definition conn_is_closed (c : ConstrainedConnection) : bool := is_closed (state (c_state c)).

(** [self.state.transition(event)?]: on error the connection is unchanged. *)
Definition do_transition (now : Z) (e : StateEvent) (c : ConstrainedConnection)
  : result unit ConstrainedError * ConstrainedConnection :=
  match transition now e (c_state c) with
  | Ok m => (Ok tt, set_state m c)
  | Err err => (Err err, c)
  end.

(** [let _ = self.state.transition(event)]. *)
Definition try_transition (now : Z) (e : StateEvent) (c : ConstrainedConnection) : ConstrainedConnection :=
  (do_transition now e c).2.

Definition initiate (now : Z) (c : ConstrainedConnection)
  : result ConstrainedPacket ConstrainedError * ConstrainedConnection :=
  if negb (is_initiator c) then (Err (InvalidStateTransition "inbound" "initiating"), c)
  else
    match do_transition now Open c with
    | (Err e, c) => (Err e, c)
    | (Ok _, c) => (Ok (Packet.control (Header.syn (c_id c))), touch now c)
    end.

Definition accept (now syn_seq : Z) (c : ConstrainedConnection)
  : result ConstrainedPacket ConstrainedError * ConstrainedConnection :=
  if is_initiator c then (Err (InvalidStateTransition "outbound" "accepting"), c)
  else
    match do_transition now RecvSyn c with
    | (Err e, c) => (Err e, c)
    | (Ok _, c) => (Ok (Packet.control (Header.syn_ack (c_id c) (next syn_seq))), touch now c)
    end.

(** [data.chunks(n)]. *)
Fixpoint chunks_fuel (fuel : nat) (n : Z) (data : list Z) : list (list Z) :=
  match fuel, data with
  | O, _ | _, [] => []
  | S fuel, _ => ztake n data :: chunks_fuel fuel n (zdrop n data)
  end.

Definition chunks (n : Z) (data : list Z) : list (list Z) := chunks_fuel (length data) n data.

Fixpoint send_chunks (now : Z) (cs : list (list Z)) (c : ConstrainedConnection)
  : result unit ConstrainedError * ConstrainedConnection :=
  match cs with
  | [] => (Ok tt, touch now c)
  | chunk :: cs =>
    if is_full (send_window c) then (Err SendBufferFull, c)
    else
      let seq := local_seq c in
      let c := mk_conn (c_id c) (remote_addr c) (c_state c) (send_window c) (receive_window c)
        (c_config c) (outbound c) (inbound c) (last_activity c) (last_keepalive c) (events c)
        (next (local_seq c)) (is_initiator c) in
      match add now seq chunk (send_window c) with
      | Err e => (Err e, c)
      | Ok w =>
        let packet := Packet.data (c_id c) seq (cumulative_ack (receive_window c)) chunk in
        send_chunks now cs (push_outbound packet (set_send_window w c))
      end
  end.

Definition send (now : Z) (data : list Z) (c : ConstrainedConnection)
  : result unit ConstrainedError * ConstrainedConnection :=
  if negb (can_send_data (state (c_state c))) then (Err ConnectionClosed, c)
  else send_chunks now (chunks (mss (c_config c)) data) c.

Definition recv (c : ConstrainedConnection) : option (list Z) * ConstrainedConnection :=
  match inbound c with
  | [] => (None, c)
  | d :: rest =>
    (Some d, mk_conn (c_id c) (remote_addr c) (c_state c) (send_window c) (receive_window c)
      (c_config c) (outbound c) rest (last_activity c) (last_keepalive c) (events c) (local_seq c)
      (is_initiator c))
  end.

Definition close (now : Z) (c : ConstrainedConnection)
  : result ConstrainedPacket ConstrainedError * ConstrainedConnection :=
  match do_transition now Close c with
  | (Err e, c) => (Err e, c)
  | (Ok _, c) =>
    (Ok (Packet.control (Header.fin (c_id c) (local_seq c) (cumulative_ack (receive_window c)))),
     touch now c)
  end.

Definition reset (now : Z) (c : ConstrainedConnection) : ConstrainedPacket * ConstrainedConnection :=
  (Packet.control (Header.reset (c_id c)), try_transition now RecvRst c).

Definition push_ack (ack : Z) (c : ConstrainedConnection) : ConstrainedConnection :=
  push_outbound (Packet.control (Header.ack_only (c_id c) (local_seq c) ack)) c.

(** The four parts of [process_packet] in [Established]. *)
Definition established_ack (now : Z) (h : ConstrainedHeader) (c : ConstrainedConnection) : ConstrainedConnection :=
  if Header.is_ack h then set_send_window (acknowledge f now (ack h) (send_window c)).2 c else c.

Definition deliver (c : ConstrainedConnection) (d : Z * list Z) : ConstrainedConnection :=
  push_event (EvDataReceived []) (push_inbound d.2 c).

Definition established_data (packet : ConstrainedPacket) (c : ConstrainedConnection) : ConstrainedConnection :=
  if Header.is_data (header packet) && negb (bool_decide (payload packet = [])) then
    let '(out, w) := receive (seq (header packet)) (payload packet) (receive_window c) in
    let c := set_receive_window w c in
    match out with
    | Some deliverable =>
      let c := fold_left deliver deliverable c in
      push_ack (cumulative_ack (receive_window c)) c
    | None => c
    end
  else c.

Definition established_fin (now : Z) (h : ConstrainedHeader) (c : ConstrainedConnection)
  : result unit ConstrainedError * ConstrainedConnection :=
  if Header.is_fin h then
    match do_transition now RecvFin c with
    | (Err e, c) => (Err e, c)
    | (Ok _, c) => (Ok tt, push_event EvClosed (push_ack (next (seq h)) c))
    end
  else (Ok tt, c).

Definition established_ping (h : ConstrainedHeader) (c : ConstrainedConnection) : ConstrainedConnection :=
  if Header.is_ping h then push_outbound (Packet.control (Header.pong (c_id c) (seq h))) c else c.

Definition process_packet (now : Z) (packet : ConstrainedPacket) (c : ConstrainedConnection)
  : result unit ConstrainedError * ConstrainedConnection :=
  let c := touch now c in
  let h := header packet in
  if Header.is_rst h then (Ok tt, push_event EvReset (try_transition now RecvRst c))
  else
    match state (c_state c) with
    | Closed => (Ok tt, c)
    | SynSent =>
      if Header.is_syn_ack h then
        match do_transition now RecvSynAck c with
        | (Err e, c) => (Err e, c)
        | (Ok _, c) =>
          let c := set_receive_window (reset_with_seq (next (seq h)) (receive_window c)) c in
          (Ok tt, push_event EvConnected (push_ack (next (seq h)) c))
        end
      else (Ok tt, c)
    | SynReceived =>
      if Header.is_ack h then
        match do_transition now RecvAck c with
        | (Err e, c) => (Err e, c)
        | (Ok _, c) => (Ok tt, push_event EvConnected c)
        end
      else (Ok tt, c)
    | Established =>
      match established_fin now h (established_data packet (established_ack now h c)) with
      | (Err e, c) => (Err e, c)
      | (Ok _, c) => (Ok tt, established_ping h c)
      end
    | FinWait =>
      match (if Header.is_ack h then do_transition now RecvAck c else (Ok tt, c)) with
      | (Err e, c) => (Err e, c)
      | (Ok _, c) =>
        if Header.is_fin h then
          match do_transition now RecvFin c with
          | (Err e, c) => (Err e, c)
          | (Ok _, c) => (Ok tt, push_event EvClosed c)
          end
        else (Ok tt, c)
      end
    | Closing =>
      if Header.is_ack h || Header.is_fin h then do_transition now RecvAck c else (Ok tt, c)
    | TimeWait => (Ok tt, c)
    end.

Definition elapsed (now t : Z) : Z := saturating_sub now t.

(** The keep-alive and the drained queue at the end of [poll]. *)
Definition poll_keepalive (now : Z) (c : ConstrainedConnection) : list ConstrainedPacket * ConstrainedConnection :=
  if is_established (state (c_state c)) && (0 <? keepalive_interval (c_config c)) then
    let since := match last_keepalive c with Some last => last | None => last_activity c end in
    if keepalive_interval (c_config c) <? elapsed now since then
      ([Packet.control (Header.ping (c_id c) (local_seq c))],
       mk_conn (c_id c) (remote_addr c) (c_state c) (send_window c) (receive_window c) (c_config c)
         (outbound c) (inbound c) (last_activity c) (Some now) (events c) (local_seq c) (is_initiator c))
    else ([], c)
  else ([], c).

Definition drain_outbound (c : ConstrainedConnection) : list ConstrainedPacket * ConstrainedConnection :=
  (outbound c,
   mk_conn (c_id c) (remote_addr c) (c_state c) (send_window c) (receive_window c) (c_config c)
     [] (inbound c) (last_activity c) (last_keepalive c) (events c) (local_seq c) (is_initiator c)).

Definition poll (now : Z) (c : ConstrainedConnection) : list ConstrainedPacket * ConstrainedConnection :=
  if is_timed_out now (c_state c) then
    ([], push_event (EvError "Connection timed out") (try_transition now Timeout c))
  else if idle_timeout (c_config c) <? elapsed now (last_activity c) then
    ([], push_event (EvError "Idle timeout") (try_transition now Timeout c))
  else
    let '(out, w) := get_retransmissions now (send_window c) in
    let c := set_send_window w c in
    match out with
    | None =>
      ([], push_event (EvError "Maximum retransmissions exceeded") (try_transition now Timeout c))
    | Some retransmit_data =>
      let packets := (λ p, Packet.data (c_id c) p.1 (cumulative_ack (receive_window c)) p.2) <$> retransmit_data in
      let '(ping, c) := poll_keepalive now c in
      let '(queued, c) := drain_outbound c in
      (packets ++ ping ++ queued, c)
    end.

(** Take all pending events: the loop [while let Some(event) = conn.next_event()]. *)
Definition take_events (c : ConstrainedConnection) : list ConnectionEvent * ConstrainedConnection :=
  (events c,
   mk_conn (c_id c) (remote_addr c) (c_state c) (send_window c) (receive_window c) (c_config c)
     (outbound c) (inbound c) (last_activity c) (last_keepalive c) [] (local_seq c) (is_initiator c)).

(** ** Invariant *)

(** A packet of connection [cid] whose fields fit their widths. *)
Definition packet_ok (cid : Z) (p : ConstrainedPacket) : Prop :=
  header_ok (header p) ∧ connection_id (header p) = cid.

Definition is_transmit (ev : ConnectionEvent) : bool :=
  match ev with EvTransmit _ => true | _ => false end.

Record conn_inv (c : ConstrainedConnection) : Prop := {
  ci_id : is_u 16 (c_id c);
  ci_machine : machine_ok (c_state c);
  ci_seq : is_u 8 (local_seq c);
  ci_ack : is_u 8 (cumulative_ack (receive_window c));
  ci_expected : is_u 8 (next_expected (receive_window c));
  ci_entries : Forall (λ e, is_u 8 (e_seq e)) (unacked (send_window c));
  ci_window : zlen (unacked (send_window c)) ≤ Z.max 0 (window_size (config (send_window c)));
  ci_outbound : Forall (packet_ok (c_id c)) (outbound c);
  ci_events : Forall (λ ev, is_transmit ev = false) (events c);
}.

Lemma next_u8 s : is_u 8 (next s).
Proof. apply wrap_bound. lia. Qed.

Lemma packet_ok_mk cid q a fl pl : is_u 16 cid → is_u 8 q → is_u 8 a → is_u 8 fl →
  packet_ok cid (mk_packet (mk_header cid q a fl) pl).
Proof. intros Hc Hq Ha Hf. split; [exact (conj Hc (conj Hq (conj Ha Hf)))|done]. Qed.

Lemma u8_0 : is_u 8 0.
Proof. done. Qed.

Lemma conn_inv_new now cid addr cfg ini : is_u 16 cid → conn_inv (new now cid addr cfg ini).
Proof.
  intros Hc. split; simpl; try done; unfold zlen, machine_ok; simpl; try lia.
Qed.

Lemma do_transition_inv now e c r c' : conn_inv c → do_transition now e c = (r, c') →
  conn_inv c' ∧ c_id c' = c_id c ∧ remote_addr c' = remote_addr c
  ∧ send_window c' = send_window c ∧ outbound c' = outbound c ∧ receive_window c' = receive_window c
  ∧ local_seq c' = local_seq c.
Proof.
  intros Hi. unfold do_transition. destruct (transition now e (c_state c)) as [m|] eqn:Ht;
    intros [= <- <-]; [|done].
  pose proof (transition_ok now e _ m (ci_machine c Hi) Ht) as [Hm _].
  destruct Hi. split; [|done]. by split.
Qed.

Lemma try_transition_inv now e c : conn_inv c → conn_inv (try_transition now e c)
  ∧ c_id (try_transition now e c) = c_id c.
Proof.
  intros Hi. unfold try_transition. destruct (do_transition now e c) as [r c'] eqn:Hd.
  by destruct (do_transition_inv now e c r c' Hi Hd) as (? & ? & _).
Qed.

Lemma touch_inv now c : conn_inv c → conn_inv (touch now c).
Proof. intros []. by split. Qed.

Lemma push_event_inv e c : is_transmit e = false → conn_inv c → conn_inv (push_event e c).
Proof.
  intros He []. split; simpl; try done. rewrite Forall_app. split; [done|]. by constructor.
Qed.

Lemma push_outbound_inv p c : conn_inv c → packet_ok (c_id c) p → conn_inv (push_outbound p c).
Proof. intros [] Hp. split; simpl; try done. rewrite Forall_app. split; [done|]. by constructor. Qed.

Lemma push_ack_inv a c : conn_inv c → is_u 8 a → conn_inv (push_ack a c).
Proof.
  intros Hi Ha. apply push_outbound_inv; [done|]. destruct Hi. by apply packet_ok_mk.
Qed.

Lemma set_send_window_inv w c : conn_inv c → Forall (λ e, is_u 8 (e_seq e)) (unacked w) →
  zlen (unacked w) ≤ Z.max 0 (window_size (config w)) → conn_inv (set_send_window w c).
Proof. intros [] ? ?. by split. Qed.

Lemma set_receive_window_inv w c : conn_inv c → is_u 8 (cumulative_ack w) → is_u 8 (next_expected w) →
  conn_inv (set_receive_window w c).
Proof. intros [] ? ?. by split. Qed.

Lemma initiate_inv now c r c' : conn_inv c → initiate now c = (r, c') →
  conn_inv c' ∧ c_id c' = c_id c ∧ ∀ p, r = Ok p → packet_ok (c_id c) p.
Proof.
  intros Hi. unfold initiate. destruct (is_initiator c); simpl; [|by intros [= <- <-]].
  destruct (do_transition now Open c) as [[]  c1] eqn:Hd;
    destruct (do_transition_inv _ _ _ _ _ Hi Hd) as (Hi1 & Hid & _); intros [= <- <-]; [|done].
  split; [by apply touch_inv|]. split; [done|]. intros p [= <-]. rewrite Hid.
  destruct Hi. by apply packet_ok_mk.
Qed.

Lemma accept_inv now q c r c' : conn_inv c → accept now q c = (r, c') →
  conn_inv c' ∧ c_id c' = c_id c ∧ ∀ p, r = Ok p → packet_ok (c_id c) p.
Proof.
  intros Hi. unfold accept. destruct (is_initiator c); simpl; [by intros [= <- <-]|].
  destruct (do_transition now RecvSyn c) as [[]  c1] eqn:Hd;
    destruct (do_transition_inv _ _ _ _ _ Hi Hd) as (Hi1 & Hid & _); intros [= <- <-]; [|done].
  split; [by apply touch_inv|]. split; [done|]. intros p [= <-]. rewrite Hid.
  destruct Hi. apply packet_ok_mk; try done. apply next_u8.
Qed.

Lemma close_inv now c r c' : conn_inv c → close now c = (r, c') →
  conn_inv c' ∧ c_id c' = c_id c ∧ ∀ p, r = Ok p → packet_ok (c_id c) p.
Proof.
  intros Hi. unfold close. destruct (do_transition now Close c) as [[]  c1] eqn:Hd;
    destruct (do_transition_inv _ _ _ _ _ Hi Hd) as (Hi1 & Hid & _); intros [= <- <-]; [|done].
  split; [by apply touch_inv|]. split; [done|]. intros p [= <-]. rewrite <-Hid.
  destruct Hi1. by apply packet_ok_mk.
Qed.

Lemma reset_inv now c : conn_inv c → packet_ok (c_id c) (reset now c).1.
Proof. intros []. by apply packet_ok_mk. Qed.

Lemma send_chunks_inv now cs : ∀ c r c', conn_inv c → send_chunks now cs c = (r, c') →
  conn_inv c' ∧ c_id c' = c_id c.
Proof.
  induction cs as [|d cs IH]; intros c r c' Hi; cbn [send_chunks].
  { intros [= <- <-]. split; [by apply touch_inv|done]. }
  unfold is_full, can_send, add.
  destruct (Z.ltb_spec (zlen (unacked (send_window c))) (window_size (config (send_window c)))) as [Hlt|];
    cbn [negb]; [|by intros [= <- <-]].
  unfold is_full, can_send. cbn [send_window]. rewrite (proj2 (Z.ltb_lt _ _) Hlt). cbn [negb].
  intros Hs. apply IH in Hs; [done|]. pose proof (ci_id c Hi). pose proof (ci_seq c Hi).
  pose proof (ci_ack c Hi). apply push_outbound_inv; [|by apply packet_ok_mk].
  apply set_send_window_inv; simpl.
  - destruct Hi. split; simpl; try done. apply next_u8.
  - rewrite Forall_app. split; [by destruct Hi|]. by constructor.
  - rewrite zlen_app. change (zlen [_]) with 1. lia.
Qed.

Lemma send_inv_conn now d c r c' : conn_inv c → send now d c = (r, c') → conn_inv c' ∧ c_id c' = c_id c.
Proof.
  intros Hi. unfold send. destruct (can_send_data _); simpl; [|by intros [= <- <-]].
  by apply send_chunks_inv.
Qed.

Lemma recv_inv_conn c : conn_inv c → conn_inv (recv c).2 ∧ c_id (recv c).2 = c_id c.
Proof. intros Hi. unfold recv. destruct (inbound c); [done|]. destruct Hi. by split. Qed.

(** *** Incoming packets *)

Lemma acknowledge_loop_suffix cfg now base a es : ∀ rtt n,
  ∃ pre, es = pre ++ (acknowledge_loop f cfg now base a es rtt n).1.1.
Proof.
  induction es as [|e es IH]; intros rtt n; cbn [acknowledge_loop]; [by exists []|].
  destruct (_ <=? _); [|by exists []]. destruct (IH (if transmissions e =? 1 then
    update_rtt f cfg (time_since_sent now e) rtt else rtt) (n + 1)) as [pre Hpre].
  exists (e :: pre). simpl. by rewrite <-Hpre.
Qed.

Lemma established_ack_inv now h c : conn_inv c → conn_inv (established_ack now h c)
  ∧ c_id (established_ack now h c) = c_id c.
Proof.
  intros Hi. unfold established_ack. destruct (Header.is_ack h); [|done]. split; [|done].
  unfold acknowledge.
  destruct (acknowledge_loop_suffix (config (send_window c)) now (base_seq (send_window c)) (ack h)
    (unacked (send_window c)) (srtt (send_window c), current_rto (send_window c)) 0) as [pre Hpre].
  destruct (acknowledge_loop _ _ _ _ _ _ _ _) as [[es [sr rto]] n]. simpl in *.
  pose proof (ci_entries c Hi) as He. pose proof (ci_window c Hi) as Hw. rewrite Hpre in He, Hw.
  rewrite Forall_app in He. rewrite zlen_app in Hw. pose proof (zlen_nonneg pre).
  apply set_send_window_inv; [done|by destruct He|simpl; lia].
Qed.

Lemma drain_u8 fuel : ∀ w, is_u 8 (cumulative_ack w) → is_u 8 (next_expected w) →
  is_u 8 (cumulative_ack (drain fuel w).2) ∧ is_u 8 (next_expected (drain fuel w).2).
Proof.
  induction fuel as [|fuel IH]; intros w Ha Hn; cbn [drain]; [done|].
  destruct (take_seq _ _) as [[d rest]|]; [|done].
  specialize (IH (mk_receive_window (r_window_size w) (next (next_expected w)) (next_expected w) rest)
    Hn (next_u8 _)). by destruct (drain fuel _).
Qed.

Lemma receive_u8 q d w : is_u 8 q → is_u 8 (cumulative_ack w) → is_u 8 (next_expected w) →
  is_u 8 (cumulative_ack (receive q d w).2) ∧ is_u 8 (next_expected (receive q d w).2).
Proof.
  intros Hq Ha Hn. unfold receive. destruct (negb _); [done|]. destruct (_ =? _).
  - pose proof (drain_u8 (length (out_of_order w)) (mk_receive_window (r_window_size w)
      (next (next_expected w)) q (out_of_order w)) Hq (next_u8 _)) as Hd. cbn [out_of_order].
    by destruct (drain _ _).
  - destruct (existsb _ _); done.
Qed.

Lemma deliver_inv ds : ∀ c, conn_inv c → conn_inv (fold_left deliver ds c)
  ∧ c_id (fold_left deliver ds c) = c_id c
  ∧ receive_window (fold_left deliver ds c) = receive_window c.
Proof.
  induction ds as [|d ds IH]; intros c Hi; [done|]. cbn [fold_left].
  destruct (IH (deliver c d)) as (? & ? & ?); [|done]. apply push_event_inv; [done|]. destruct Hi. by split.
Qed.

Lemma established_data_inv p c : conn_inv c → is_u 8 (seq (header p)) →
  conn_inv (established_data p c) ∧ c_id (established_data p c) = c_id c.
Proof.
  intros Hi Hq. unfold established_data. destruct (_ && _); [|done].
  pose proof (receive_u8 (seq (header p)) (payload p) (receive_window c) Hq (ci_ack c Hi)
    (ci_expected c Hi)) as [Ha Hn].
  destruct (receive _ _ _) as [[out|] w]; simpl in *.
  - destruct (deliver_inv out (set_receive_window w c)) as (Hi' & Hid & Hrw);
      [by apply set_receive_window_inv|].
    rewrite Hrw. simpl. split; [|done]. by apply push_ack_inv.
  - split; [by apply set_receive_window_inv|done].
Qed.

Lemma process_packet_inv now p c r c' : conn_inv c → header_ok (header p) →
  process_packet now p c = (r, c') → conn_inv c' ∧ c_id c' = c_id c.
Proof.
  intros Hi (Hc & Hq & Ha & Hf). apply (touch_inv now) in Hi.
  unfold process_packet. change (c_id c) with (c_id (touch now c)).
  generalize dependent (touch now c). clear c. intros c Hi.
  destruct (Header.is_rst _).
  { intros [= <- <-]. destruct (try_transition_inv now RecvRst c Hi).
    split; [by apply push_event_inv|done]. }
  destruct (state (c_state c)).
  - by intros [= <- <-].
  - destruct (Header.is_syn_ack _); [|by intros [= <- <-]].
    destruct (do_transition now RecvSynAck c) as [[] c1] eqn:Hd;
      destruct (do_transition_inv _ _ _ _ _ Hi Hd) as (Hi1 & Hid & _); intros [= <- <-]; [|done].
    split; [|done]. apply push_event_inv; [done|]. apply push_ack_inv, next_u8.
    apply set_receive_window_inv; [done|apply next_u8..].
  - destruct (Header.is_ack _); [|by intros [= <- <-]].
    destruct (do_transition now RecvAck c) as [[] c1] eqn:Hd;
      destruct (do_transition_inv _ _ _ _ _ Hi Hd) as (Hi1 & Hid & _); intros [= <- <-]; [|done].
    split; [by apply push_event_inv|done].
  - destruct (established_ack_inv now (header p) c Hi) as [Hi1 Hid1].
    destruct (established_data_inv p _ Hi1 Hq) as [Hi2 Hid2].
    rewrite Hid1 in Hid2. generalize dependent (established_data p (established_ack now (header p) c)).
    intros c2 Hi2 Hid2. assert (H3 : conn_inv (established_fin now (header p) c2).2
      ∧ c_id (established_fin now (header p) c2).2 = c_id c2).
    { unfold established_fin. destruct (Header.is_fin _); [|done].
      destruct (do_transition now RecvFin c2) as [[] c3] eqn:Hd;
        destruct (do_transition_inv _ _ _ _ _ Hi2 Hd) as (Hi3 & Hid & _); [|done].
      split; [|done]. apply push_event_inv; [done|]. apply push_ack_inv, next_u8. done. }
    destruct (established_fin now (header p) c2) as [[] c3]; destruct H3 as [Hi3 Hid3];
      intros [= <- <-]; simpl in *; [|by rewrite Hid3].
    unfold established_ping. destruct (Header.is_ping _); [|by rewrite Hid3].
    split; [|by simpl; rewrite Hid3]. apply push_outbound_inv; [done|]. destruct Hi3.
    by apply packet_ok_mk.
  - destruct (Header.is_ack _); [destruct (do_transition now RecvAck c) as [[] c1] eqn:Hd;
      destruct (do_transition_inv _ _ _ _ _ Hi Hd) as (Hi1 & Hid & _)|]; [| |].
    all: try (by intros [= <- <-]).
    all: destruct (Header.is_fin _); [|by intros [= <- <-]].
    all: match goal with |- context [do_transition ?t RecvFin ?c2] =>
      destruct (do_transition t RecvFin c2) as [[] c3] eqn:Hd2;
      destruct (do_transition_inv t RecvFin c2 _ _ ltac:(done) Hd2) as (Hi3 & Hid3 & _) end.
    all: intros [= <- <-]; split; try (by apply push_event_inv); simpl; congruence || done.
  - destruct (_ || _); [|by intros [= <- <-]]. intros Hd.
    by destruct (do_transition_inv _ _ _ _ _ Hi Hd) as (? & ? & _).
  - by intros [= <- <-].
Qed.

Lemma poll_inv now c ps c' : conn_inv c → poll now c = (ps, c') →
  conn_inv c' ∧ c_id c' = c_id c ∧ Forall (packet_ok (c_id c)) ps.
Proof.
  intros Hi. unfold poll. destruct (try_transition_inv now Timeout c Hi).
  destruct (is_timed_out _ _); [intros [= <- <-]; split_and!; [by apply push_event_inv|done|constructor]|].
  destruct (_ <? _); [intros [= <- <-]; split_and!; [by apply push_event_inv|done|constructor]|].
  destruct (get_retransmissions now (send_window c)) as [out w] eqn:Hg.
  assert (Hw : conn_inv (set_send_window w c) ∧ ∀ l, out = Some l → Forall (λ p, is_u 8 p.1) l).
  { unfold get_retransmissions in Hg. destruct (retransmit_loop _ _ _ _) as [o es] eqn:Hl.
    injection Hg as <- <-. apply retransmit_loop_spec in Hl as [He Ho].
    assert (Hes : Forall (λ p : Z * list Z, is_u 8 p.1) ((λ e, (e_seq e, e_data e)) <$> unacked (send_window c))).
    { rewrite Forall_fmap. apply (ci_entries c Hi). }
    split.
    - apply set_send_window_inv; simpl; [done| |].
      + rewrite <-He, Forall_fmap in Hes. exact Hes.
      + apply (f_equal length) in He. rewrite !length_fmap in He.
        pose proof (ci_window c Hi). unfold zlen in *. rewrite He. done.
    - intros l Hl. specialize (Ho l Hl). rewrite Forall_forall in *. intros p Hp. apply Hes.
      by apply (elem_of_submseteq l _ p). }
  destruct Hw as [Hi1 Hout]. destruct out as [l|].
  2: { destruct (try_transition_inv now Timeout _ Hi1).
       intros [= <- <-]. split_and!; [by apply push_event_inv|done|constructor]. }
  specialize (Hout l eq_refl). cbn [c_id set_send_window receive_window].
  set (c1 := set_send_window w c) in *.
  assert (Hk : conn_inv (poll_keepalive now c1).2 ∧ c_id (poll_keepalive now c1).2 = c_id c
    ∧ outbound (poll_keepalive now c1).2 = outbound c
    ∧ Forall (packet_ok (c_id c)) (poll_keepalive now c1).1).
  { unfold poll_keepalive. destruct (_ && _); [|by split_and!].
    destruct (_ <? _); [|by split_and!]. simpl. split; [destruct Hi1; by split|].
    split; [done|]. split; [done|]. constructor; [|constructor]. destruct Hi1. by apply packet_ok_mk. }
  destruct (poll_keepalive now c1) as [ping c2]. destruct Hk as (Hi2 & Hid2 & Ho2 & Hp2). simpl in *.
  intros [= <- <-]. split; [destruct Hi2; by split; simpl; try done; constructor|].
  split; [done|]. rewrite !Forall_app. split; [|split; [done|]].
  - rewrite Forall_fmap. eapply Forall_impl; [exact Hout|]. intros [q d] Hq. simpl in *.
    destruct Hi. by apply packet_ok_mk.
  - rewrite <-Hid2. apply (ci_outbound c2 Hi2).
Qed.

Lemma take_events_inv c : conn_inv c → conn_inv (take_events c).2.
Proof. intros []. by split. Qed.

(** ** The handshake, packet by packet *)

Lemma syn_sent_spec now h pl c : state (c_state c) = SynSent →
  Header.is_rst h = false → Header.is_syn_ack h = true →
  ∃ c', process_packet now (mk_packet h pl) c = (Ok tt, c')
    ∧ state (c_state c') = Established ∧ state_entered (c_state c') = now
    ∧ last_activity c' = now ∧ last_keepalive c' = last_keepalive c
    ∧ send_window c' = send_window c ∧ c_config c' = c_config c
    ∧ outbound c' = outbound c
        ++ [Packet.control (Header.ack_only (c_id c) (local_seq c) (next (seq h)))]
    ∧ events c' = events c ++ [EvConnected].
Proof.
  intros Hst Hr Hs. unfold process_packet. cbn [header]. rewrite Hr. cbn [c_state touch].
  rewrite Hst, Hs. unfold do_transition, transition. cbn [c_state touch]. rewrite Hst.
  by eexists.
Qed.

Lemma syn_received_spec now h pl c : state (c_state c) = SynReceived →
  Header.is_rst h = false → Header.is_ack h = true →
  ∃ c', process_packet now (mk_packet h pl) c = (Ok tt, c')
    ∧ state (c_state c') = Established ∧ state_entered (c_state c') = now
    ∧ last_activity c' = now ∧ last_keepalive c' = last_keepalive c
    ∧ send_window c' = send_window c ∧ c_config c' = c_config c
    ∧ outbound c' = outbound c ∧ events c' = events c ++ [EvConnected].
Proof.
  intros Hst Hr Hs. unfold process_packet. cbn [header]. rewrite Hr. cbn [c_state touch].
  rewrite Hst, Hs. unfold do_transition, transition. cbn [c_state touch]. rewrite Hst.
  by eexists.
Qed.

(** A poll right after activity, with nothing in flight, only drains the queue. *)
Lemma poll_fresh now c : state_entered (c_state c) = now → last_activity c = now →
  last_keepalive c = None → unacked (send_window c) = [] → 0 ≤ idle_timeout (c_config c) →
  ∃ c', poll now c = (outbound c, c') ∧ c_state c' = c_state c ∧ events c' = events c.
Proof.
  intros He Ha Hk Hu Hi. unfold poll, is_timed_out, time_in_state, elapsed, saturating_sub.
  rewrite He, Ha, Z.sub_diag. change (Z.max 0 0) with 0.
  rewrite (proj2 (Z.ltb_ge _ 0)) by (destruct (state (c_state c)); vm_compute; congruence).
  rewrite (proj2 (Z.ltb_ge _ 0)) by done.
  unfold get_retransmissions. rewrite Hu. cbn [retransmit_loop]. unfold poll_keepalive.
  cbn [c_state set_send_window c_config last_keepalive last_activity]. rewrite Hk, Ha.
  unfold elapsed, saturating_sub. rewrite Z.sub_diag. change (Z.max 0 0) with 0.
  replace (is_established _ && _) with (is_established (state (c_state c)) && (0 <? keepalive_interval (c_config c))) by done.
  destruct (is_established _); simpl; [|by eexists].
  destruct (Z.ltb_spec 0 (keepalive_interval (c_config c))); simpl; [|by eexists].
  rewrite (proj2 (Z.ltb_ge _ 0)) by lia. by eexists.
Qed.

End conn.

Arguments ConstrainedConnection : clear implicits.

End Conn.
