(* ===== verification/ConstrainedEngine.v ===== *)
(** * The constrained protocol: the engine

    Models [src/constrained/engine.rs]: the table of connections over one transport,
    fed with the bytes of incoming packets. *)

From Stdlib Require Import String.
From stdpp Require Import gmap.
From S2P Require Import Prelude ConstrainedWire Arq ConstrainedConn.
Import ConstrainedWire Arq Conn.

Module Engine.

Record EngineConfig := mk_engine_config {
  max_connections : Z;
  connection_config : ConnectionConfig;
  poll_interval : Z;
  enable_connection_reuse : bool;
}.

Definition engine_config_default : EngineConfig :=
  mk_engine_config 8 conn_config_default 100000000 true.
Definition engine_config_for_ble : EngineConfig :=
  mk_engine_config 4 conn_config_for_ble 50000000 true.
Definition engine_config_for_lora : EngineConfig :=
  mk_engine_config 2 conn_config_for_lora 500000000 true.

Section engine.
  Context {Addr : Type} `{Countable Addr}.
  Context (f : Smoothing).

Inductive EngineEvent :=
| ConnectionAccepted (cid : Z) (addr : Addr)
| ConnectionEstablished (cid : Z)
| DataReceived (cid : Z) (data : list Z)
| ConnectionClosed (cid : Z)
| ConnectionError (cid : Z) (error : string)
| Transmit (addr : Addr) (packet : list Z).

Record ConstrainedEngine := mk_engine {
  e_config : EngineConfig;
  connections : gmap Z (ConstrainedConnection Addr);
  addr_to_conn : gmap Addr Z;
  e_events : list EngineEvent;
  next_conn_id : Z;
  last_poll : Z;
}.

Definition engine_new (now : Z) (config : EngineConfig) : ConstrainedEngine :=
  mk_engine config ∅ ∅ [] 1 now.

Definition connection_count (e : ConstrainedEngine) : Z := Z.of_nat (size (connections e)).

Definition can_accept_connection (e : ConstrainedEngine) : bool :=
  connection_count e <? max_connections (e_config e).

Definition generate_conn_id (e : ConstrainedEngine) : Z * ConstrainedEngine :=
  let n := wrapping_add 16 (next_conn_id e) 1 in
  (next_conn_id e,
   mk_engine (e_config e) (connections e) (addr_to_conn e) (e_events e)
     (if n =? 0 then 1 else n) (last_poll e)).

Definition set_conn (cid : Z) (c : ConstrainedConnection Addr) (e : ConstrainedEngine) : ConstrainedEngine :=
  mk_engine (e_config e) (<[cid := c]> (connections e)) (addr_to_conn e) (e_events e)
    (next_conn_id e) (last_poll e).

Definition set_addr (addr : Addr) (cid : Z) (e : ConstrainedEngine) : ConstrainedEngine :=
  mk_engine (e_config e) (connections e) (<[addr := cid]> (addr_to_conn e)) (e_events e)
    (next_conn_id e) (last_poll e).

Definition push_events (evs : list EngineEvent) (e : ConstrainedEngine) : ConstrainedEngine :=
  mk_engine (e_config e) (connections e) (addr_to_conn e) (e_events e ++ evs) (next_conn_id e) (last_poll e).

Definition connect (now : Z) (addr : Addr) (e : ConstrainedEngine)
  : result (Z * list Z) ConstrainedError * ConstrainedEngine :=
  if negb (can_accept_connection e) then (Err SendBufferFull, e)
  else
    match addr_to_conn e !! addr with
    | Some cid => (Err (ConnectionExists cid), e)
    | None =>
      let '(conn_id, e) := generate_conn_id e in
      let conn := Conn.new now conn_id addr (connection_config (e_config e)) true in
      match initiate now conn with
      | (Err err, _) => (Err err, e)
      | (Ok syn, conn) =>
        (Ok (conn_id, Packet.to_bytes syn), set_addr addr conn_id (set_conn conn_id conn e))
      end
    end.

(** What [process_incoming] does with an event of the connection: an event of the
    engine, or bytes to transmit. *)
Definition incoming_event (cid : Z) (ev : ConnectionEvent) : option EngineEvent :=
  match ev with
  | EvConnected => Some (ConnectionEstablished cid)
  | EvDataReceived _ => None
  | EvClosed => Some (ConnectionClosed cid)
  | EvReset => Some (ConnectionClosed cid)
  | EvError err => Some (ConnectionError cid err)
  | EvTransmit _ => None
  end.

Definition incoming_transmit (addr : Addr) (ev : ConnectionEvent) : option (Addr * list Z) :=
  match ev with EvTransmit data => Some (addr, data) | _ => None end.

Definition process_incoming (now : Z) (addr : Addr) (data : list Z) (e : ConstrainedEngine)
  : result (list (Addr * list Z)) ConstrainedError * ConstrainedEngine :=
  match Packet.from_bytes data with
  | Err err => (Err err, e)
  | Ok packet =>
    let cid := connection_id (header packet) in
    match connections e !! cid with
    | Some conn =>
      match process_packet f now packet conn with
      | (Err err, conn) => (Err err, set_conn cid conn e)
      | (Ok _, conn) =>
        let '(evs, conn) := take_events conn in
        let e := push_events (omap (incoming_event cid) evs) e in
        let '(packets, conn) := poll now conn in
        (Ok (omap (incoming_transmit addr) evs ++ ((λ p, (addr, Packet.to_bytes p)) <$> packets)),
         set_conn cid conn e)
      end
    | None =>
      if Header.is_syn (header packet) && negb (Header.is_ack (header packet)) then
        if negb (can_accept_connection e) then
          (Ok [(addr, Packet.to_bytes (Packet.control (Header.reset cid)))], e)
        else
          let conn := Conn.new now cid addr (connection_config (e_config e)) false in
          match accept now (seq (header packet)) conn with
          | (Err err, _) => (Err err, e)
          | (Ok syn_ack, conn) =>
            (Ok [(addr, Packet.to_bytes syn_ack)],
             push_events [ConnectionAccepted cid addr] (set_addr addr cid (set_conn cid conn e)))
          end
      else (Ok [], e)
    end
  end.

Definition send (now cid : Z) (data : list Z) (e : ConstrainedEngine)
  : result (list (Addr * list Z)) ConstrainedError * ConstrainedEngine :=
  match connections e !! cid with
  | None => (Err (ConnectionNotFound cid), e)
  | Some conn =>
    match Conn.send now data conn with
    | (Err err, conn) => (Err err, set_conn cid conn e)
    | (Ok _, conn) =>
      let '(packets, conn) := poll now conn in
      (Ok ((λ p, (remote_addr conn, Packet.to_bytes p)) <$> packets), set_conn cid conn e)
    end
  end.

Definition recv (cid : Z) (e : ConstrainedEngine) : option (list Z) * ConstrainedEngine :=
  match connections e !! cid with
  | None => (None, e)
  | Some conn => let '(d, conn) := Conn.recv conn in (d, set_conn cid conn e)
  end.

Definition close (now cid : Z) (e : ConstrainedEngine)
  : result (list (Addr * list Z)) ConstrainedError * ConstrainedEngine :=
  match connections e !! cid with
  | None => (Err (ConnectionNotFound cid), e)
  | Some conn =>
    match Conn.close now conn with
    | (Err err, conn) => (Err err, set_conn cid conn e)
    | (Ok fin, conn) => (Ok [(remote_addr conn, Packet.to_bytes fin)], set_conn cid conn e)
    end
  end.

Definition reset (now cid : Z) (e : ConstrainedEngine)
  : result (list (Addr * list Z)) ConstrainedError * ConstrainedEngine :=
  match connections e !! cid with
  | None => (Err (ConnectionNotFound cid), e)
  | Some conn =>
    let '(rst, conn) := Conn.reset now conn in
    (Ok [(remote_addr conn, Packet.to_bytes rst)],
     mk_engine (e_config e) (delete cid (connections e))
       (filter (λ '(_, id), id ≠ cid) (addr_to_conn e)) (e_events e) (next_conn_id e) (last_poll e))
  end.

(** One round of the loop of [poll]: the packets, the events of the engine, whether
    the connection is to be removed, and the connection. *)
Definition poll_conn (now cid : Z) (conn : ConstrainedConnection Addr)
  : list (Addr * list Z) * list EngineEvent * bool * ConstrainedConnection Addr :=
  let '(packets, conn) := poll now conn in
  let responses := (λ p, (remote_addr conn, Packet.to_bytes p)) <$> packets in
  let '(evs, conn) := take_events conn in
  let out := omap (λ ev,
    match ev with
    | EvClosed | EvReset => Some (ConnectionClosed cid)
    | EvError err => Some (ConnectionError cid err)
    | _ => None
    end) evs in
  (responses, out, negb (bool_decide (out = [])) || conn_is_closed conn, conn).

(** The loop of [poll] over the connections, then the removals. *)
Fixpoint poll_loop (now : Z) (conns : list (Z * ConstrainedConnection Addr)) (e : ConstrainedEngine)
  : list (Addr * list Z) * list Z * ConstrainedEngine :=
  match conns with
  | [] => ([], [], e)
  | (cid, conn) :: conns =>
    let '(responses, evs, gone, conn) := poll_conn now cid conn in
    let e := push_events evs (set_conn cid conn e) in
    let '(responses', to_remove, e) := poll_loop now conns e in
    (responses ++ responses', if gone then cid :: to_remove else to_remove, e)
  end.

Definition remove_conn (e : ConstrainedEngine) (cid : Z) : ConstrainedEngine :=
  match connections e !! cid with
  | None => e
  | Some conn =>
    mk_engine (e_config e) (delete cid (connections e)) (delete (remote_addr conn) (addr_to_conn e))
      (e_events e) (next_conn_id e) (last_poll e)
  end.

Definition engine_poll (now : Z) (e : ConstrainedEngine) : list (Addr * list Z) * ConstrainedEngine :=
  if saturating_sub now (last_poll e) <? poll_interval (e_config e) then ([], e)
  else
    let e := mk_engine (e_config e) (connections e) (addr_to_conn e) (e_events e) (next_conn_id e) now in
    let '(responses, to_remove, e) := poll_loop now (map_to_list (connections e)) e in
    (responses, fold_left remove_conn to_remove e).

Definition next_event (e : ConstrainedEngine) : option EngineEvent * ConstrainedEngine :=
  match e_events e with
  | [] => (None, e)
  | ev :: evs => (Some ev, mk_engine (e_config e) (connections e) (addr_to_conn e) evs (next_conn_id e) (last_poll e))
  end.

Definition connection_state (cid : Z) (e : ConstrainedEngine) : option ConnectionState :=
  (λ c, state (c_state c)) <$> connections e !! cid.

(** ** Operations in any order *)

Inductive op :=
| OConnect (now : Z) (addr : Addr)
| OIncoming (now : Z) (addr : Addr) (data : list Z)
| OSend (now cid : Z) (data : list Z)
| ORecv (cid : Z)
| OClose (now cid : Z)
| OReset (now cid : Z)
| OPoll (now : Z)
| ONextEvent.

Definition ok_or_nil {A E} (r : result (list A) E) : list A := match r with Ok l => l | Err _ => [] end.

(** One operation: the packets to transmit and the new engine. *)
Definition op_step (o : op) (e : ConstrainedEngine) : list (Addr * list Z) * ConstrainedEngine :=
  match o with
  | OConnect now addr =>
    let '(r, e) := connect now addr e in
    (match r with Ok (_, syn) => [(addr, syn)] | Err _ => [] end, e)
  | OIncoming now addr data => let '(r, e) := process_incoming now addr data e in (ok_or_nil r, e)
  | OSend now cid data => let '(r, e) := send now cid data e in (ok_or_nil r, e)
  | ORecv cid => ([], (recv cid e).2)
  | OClose now cid => let '(r, e) := close now cid e in (ok_or_nil r, e)
  | OReset now cid => let '(r, e) := reset now cid e in (ok_or_nil r, e)
  | OPoll now => engine_poll now e
  | ONextEvent => ([], (next_event e).2)
  end.

Fixpoint op_run (os : list op) (e : ConstrainedEngine) : list (Addr * list Z) * ConstrainedEngine :=
  match os with
  | [] => ([], e)
  | o :: os =>
    let '(out, e) := op_step o e in
    let '(out', e) := op_run os e in
    (out ++ out', e)
  end.

(** Whatever arrives from the network is bytes; nothing else is assumed of it. *)
Definition op_ok (o : op) : Prop :=
  match o with OIncoming _ _ data => bytes_ok data | _ => True end.

Record engine_inv (e : ConstrainedEngine) : Prop := {
  ei_count : connection_count e ≤ Z.max 0 (max_connections (e_config e));
  ei_next : 1 ≤ next_conn_id e < 2 ^ 16;
  ei_conns cid c : connections e !! cid = Some c → c_id c = cid ∧ conn_inv c;
}.

(** What is handed to the transport parses back as the packet it was printed from. *)
Definition output_ok (o : Addr * list Z) : Prop :=
  ∃ p, header_ok (header p) ∧ o.2 = Packet.to_bytes p ∧ Packet.from_bytes o.2 = Ok p.

(** *** Lemmas *)

Lemma packet_output a cid p : packet_ok cid p → output_ok (a, Packet.to_bytes p).
Proof. intros [Hp _]. exists p. simpl. split; [done|]. split; [done|]. by apply packet_from_to. Qed.

Lemma packets_output a cid ps : Forall (packet_ok cid) ps →
  Forall output_ok ((λ p, (a, Packet.to_bytes p)) <$> ps).
Proof.
  intros Hp. rewrite Forall_fmap. eapply Forall_impl; [exact Hp|].
  intros p. apply packet_output.
Qed.

(** Updating a connection that is in the table. *)
Lemma set_conn_inv cid c c0 e : engine_inv e → connections e !! cid = Some c0 →
  c_id c = cid → conn_inv c → engine_inv (set_conn cid c e).
Proof.
  intros [Hn Hx Hc] Hl Hid Hi. split; [|done|]; simpl.
  - unfold connection_count in *. simpl. rewrite map_size_insert, Hl. done.
  - intros cid' c'. destruct (decide (cid' = cid)) as [->|].
    + rewrite lookup_insert_eq. by intros [= <-].
    + rewrite lookup_insert_ne by done. apply Hc.
Qed.

(** Adding a connection when there is room. *)
Lemma add_conn_inv cid c e : engine_inv e → can_accept_connection e = true →
  c_id c = cid → conn_inv c → engine_inv (set_conn cid c e).
Proof.
  intros [Hn Hx Hc] Hroom Hid Hi. split; [|done|]; simpl.
  - unfold can_accept_connection, connection_count in *. apply Z.ltb_lt in Hroom.
    simpl. rewrite map_size_insert. destruct (connections e !! cid); simpl; lia.
  - intros cid' c'. destruct (decide (cid' = cid)) as [->|].
    + rewrite lookup_insert_eq. by intros [= <-].
    + rewrite lookup_insert_ne by done. apply Hc.
Qed.

Lemma set_addr_inv a cid e : engine_inv e → engine_inv (set_addr a cid e).
Proof. intros []. by split. Qed.

Lemma push_events_inv evs e : engine_inv e → engine_inv (push_events evs e).
Proof. intros []. by split. Qed.

Lemma delete_conn_inv cid m evs e : engine_inv e →
  engine_inv (mk_engine (e_config e) (delete cid (connections e)) m evs (next_conn_id e) (last_poll e)).
Proof.
  intros [Hn Hx Hc]. split; [|done|]; unfold connection_count in *; simpl.
  - rewrite map_size_delete. destruct (connections e !! cid); simpl; lia.
  - intros cid' c' [_ Hl]%lookup_delete_Some. by apply Hc.
Qed.

Lemma connect_inv now a e : engine_inv e →
  engine_inv (op_step (OConnect now a) e).2 ∧ Forall output_ok (op_step (OConnect now a) e).1.
Proof.
  intros He. cbn [op_step]. unfold connect, generate_conn_id.
  destruct (can_accept_connection e) eqn:Hroom; cbn [negb]; [|done].
  destruct (addr_to_conn e !! a); [done|].
  pose proof (ei_next e He) as Hx. set (e1 := mk_engine _ _ _ _ _ _).
  assert (He1 : engine_inv e1).
  { destruct He as [Hn _ Hc]. split; [done| |done]. simpl.
    pose proof (wrap_bound 16 (next_conn_id e + 1) ltac:(lia)) as Hb.
    unfold wrapping_add, is_u in *. destruct (Z.eqb_spec (wrap 16 (next_conn_id e + 1)) 0); lia. }
  destruct (initiate now _) as [r c] eqn:Hini.
  destruct (initiate_inv now _ r c (conn_inv_new now (next_conn_id e) a
    (connection_config (e_config e)) true ltac:(unfold is_u; lia)) Hini) as (Hci & Hid & Hp).
  destruct r as [p|]; [|done]. simpl. split.
  - apply set_addr_inv, add_conn_inv; done.
  - constructor; [|constructor]. by apply (packet_output a (next_conn_id e)), Hp.
Qed.

Lemma omap_no_transmit (a : Addr) evs : Forall (λ ev, is_transmit ev = false) evs →
  omap (incoming_transmit a) evs = [].
Proof. induction 1 as [|[] evs Hev _ IH]; simpl in *; done. Qed.

Lemma incoming_inv now a data e : engine_inv e → bytes_ok data →
  engine_inv (op_step (OIncoming now a data) e).2 ∧ Forall output_ok (op_step (OIncoming now a data) e).1.
Proof.
  intros He Hb. cbn [op_step]. unfold process_incoming. destruct (Packet.from_bytes data) as [p|] eqn:Hp; [|done].
  pose proof (packet_from_ok _ _ Hb Hp) as Hh. pose proof Hh as (Hcid & Hq & _).
  destruct (connections e !! connection_id (header p)) as [c|] eqn:Hl.
  - destruct (ei_conns e He _ _ Hl) as [Hid Hi].
    destruct (process_packet f now p c) as [r c1] eqn:Hpr.
    destruct (process_packet_inv f now p c r c1 Hi Hh Hpr) as [Hi1 Hid1].
    destruct r; simpl; [|split; [by eapply set_conn_inv; try done; congruence|done]].
    pose proof (take_events_inv c1 Hi1) as Hi2. destruct (poll now _) as [ps c3] eqn:Hpo.
    destruct (poll_inv now _ _ _ Hi2 Hpo) as (Hi3 & Hid3 & Hps). simpl. split.
    + eapply set_conn_inv; [by apply push_events_inv|exact Hl| |done].
      rewrite Hid3. simpl. congruence.
    + rewrite omap_no_transmit by apply (ci_events c1 Hi1). simpl. by eapply packets_output.
  - destruct (_ && _); [|done]. destruct (can_accept_connection e) eqn:Hroom; cbn [negb].
    + pose proof (conn_inv_new now (connection_id (header p)) a (connection_config (e_config e)) false Hcid) as Hi.
      destruct (accept now _ _) as [r c] eqn:Hacc.
      destruct (accept_inv now _ _ r c Hi Hacc) as (Hi1 & Hid & Hpk).
      destruct r as [sa|]; [|done]. simpl. split.
      * apply push_events_inv, set_addr_inv, add_conn_inv; done.
      * constructor; [|constructor]. by apply (packet_output a (connection_id (header p))), Hpk.
    + split; [done|]. constructor; [|constructor].
      apply (packet_output a (connection_id (header p))). by apply packet_ok_mk.
Qed.

Lemma send_step_inv now cid data e : engine_inv e →
  engine_inv (op_step (OSend now cid data) e).2 ∧ Forall output_ok (op_step (OSend now cid data) e).1.
Proof.
  intros He. simpl. unfold send. destruct (connections e !! cid) as [c|] eqn:Hl; [|done].
  destruct (ei_conns e He _ _ Hl) as [Hid Hi]. destruct (Conn.send now data c) as [r c1] eqn:Hs.
  destruct (send_inv_conn now data c r c1 Hi Hs) as [Hi1 Hid1].
  destruct r; simpl; [|split; [by eapply set_conn_inv; try done; congruence|done]].
  destruct (poll now c1) as [ps c2] eqn:Hpo. destruct (poll_inv now _ _ _ Hi1 Hpo) as (Hi2 & Hid2 & Hps).
  simpl. split; [eapply set_conn_inv; try done; congruence|by eapply packets_output].
Qed.

Lemma close_step_inv now cid e : engine_inv e →
  engine_inv (op_step (OClose now cid) e).2 ∧ Forall output_ok (op_step (OClose now cid) e).1.
Proof.
  intros He. simpl. unfold close. destruct (connections e !! cid) as [c|] eqn:Hl; [|done].
  destruct (ei_conns e He _ _ Hl) as [Hid Hi]. destruct (Conn.close now c) as [r c1] eqn:Hs.
  destruct (close_inv now c r c1 Hi Hs) as (Hi1 & Hid1 & Hp).
  destruct r as [p|]; simpl; (split; [eapply set_conn_inv; try done; congruence|]); [|done].
  constructor; [|constructor]. by apply (packet_output _ (c_id c)), Hp.
Qed.

Lemma reset_step_inv now cid e : engine_inv e →
  engine_inv (op_step (OReset now cid) e).2 ∧ Forall output_ok (op_step (OReset now cid) e).1.
Proof.
  intros He. simpl. unfold reset. destruct (connections e !! cid) as [c|] eqn:Hl; [|done].
  destruct (ei_conns e He _ _ Hl) as [Hid Hi]. pose proof (reset_inv now c Hi) as Hp.
  destruct (Conn.reset now c) as [rst c1]. simpl in *. split; [by apply delete_conn_inv|].
  constructor; [|constructor]. by apply (packet_output _ (c_id c)).
Qed.

Lemma recv_step_inv cid e : engine_inv e → engine_inv (op_step (ORecv cid) e).2.
Proof.
  intros He. simpl. unfold recv. destruct (connections e !! cid) as [c|] eqn:Hl; [|done].
  destruct (ei_conns e He _ _ Hl) as [Hid Hi]. destruct (recv_inv_conn c Hi) as [Hi1 Hid1].
  destruct (Conn.recv c) as [d c1]. simpl in *. eapply set_conn_inv; try done. congruence.
Qed.

Lemma poll_loop_inv now cs : ∀ e, engine_inv e →
  Forall (λ p, is_Some (connections e !! p.1) ∧ c_id p.2 = p.1 ∧ conn_inv p.2) cs →
  engine_inv (poll_loop now cs e).2 ∧ Forall output_ok (poll_loop now cs e).1.1.
Proof.
  induction cs as [|[cid c] cs IH]; intros e He Hcs; cbn [poll_loop]; [done|].
  inversion Hcs as [|?? ([c0 Hl] & Hid & Hi) Hcs']; subst. simpl in *. unfold poll_conn.
  destruct (poll now c) as [ps c1] eqn:Hpo. destruct (poll_inv now _ _ _ Hi Hpo) as (Hi1 & Hid1 & Hps).
  pose proof (take_events_inv c1 Hi1) as Hi2. simpl.
  match goal with |- context [poll_loop now cs ?e'] => set (e1 := e') end.
  assert (He1 : engine_inv e1).
  { apply push_events_inv. eapply set_conn_inv; try done. simpl. congruence. }
  specialize (IH e1 He1). destruct (poll_loop now cs e1) as [[resp rem] e2]. simpl in *.
  destruct IH as [He2 Ho].
  - eapply Forall_impl; [exact Hcs'|]. intros [cid' c'] (Hs & ? & ?). simpl in *. split; [|done].
    unfold e1. simpl. destruct (decide (cid' = cid)) as [->|].
    + rewrite lookup_insert_eq. done.
    + by rewrite lookup_insert_ne by done.
  - split; [done|]. rewrite Forall_app. split; [by eapply packets_output|done].
Qed.

Lemma remove_all_inv l : ∀ e, engine_inv e → engine_inv (fold_left remove_conn l e).
Proof.
  induction l as [|cid l IH]; intros e He; [done|]. cbn [fold_left]. apply IH. unfold remove_conn.
  destruct (connections e !! cid); [by apply delete_conn_inv|done].
Qed.

Lemma poll_step_inv now e : engine_inv e →
  engine_inv (op_step (OPoll now) e).2 ∧ Forall output_ok (op_step (OPoll now) e).1.
Proof.
  intros He. simpl. unfold engine_poll. destruct (_ <? _); [done|].
  set (e1 := mk_engine _ _ _ _ _ _). assert (He1 : engine_inv e1) by (by destruct He).
  destruct (poll_loop_inv now (map_to_list (connections e1)) e1 He1) as [Hi Ho].
  { apply Forall_forall. intros [cid c] Hin%elem_of_map_to_list. simpl.
    split; [by eexists|]. by apply (ei_conns e1 He1). }
  destruct (poll_loop now _ e1) as [[resp rem] e2]. simpl in *. split; [by apply remove_all_inv|done].
Qed.

Lemma op_step_inv o e : engine_inv e → op_ok o →
  engine_inv (op_step o e).2 ∧ Forall output_ok (op_step o e).1.
Proof.
  intros He Ho. destruct o.
  - by apply connect_inv.
  - by apply incoming_inv.
  - by apply send_step_inv.
  - split; [by apply recv_step_inv|done].
  - by apply close_step_inv.
  - by apply reset_step_inv.
  - by apply poll_step_inv.
  - split; [|done]. simpl. unfold next_event. destruct (e_events e); [done|]. by destruct He.
Qed.

Lemma op_run_inv os : ∀ e, engine_inv e → Forall op_ok os →
  engine_inv (op_run os e).2 ∧ Forall output_ok (op_run os e).1.
Proof.
  induction os as [|o os IH]; intros e He Hos; cbn [op_run]; [done|].
  inversion Hos; subst. destruct (op_step_inv o e He) as [He1 Ho]; [done|].
  destruct (op_step o e) as [out e1]. simpl in *. destruct (IH e1 He1) as [He2 Ho2]; [done|].
  destruct (op_run os e1) as [out' e2]. simpl in *. split; [done|]. by rewrite Forall_app.
Qed.

Lemma engine_inv_new now cfg : engine_inv (engine_new now cfg).
Proof. split; simpl; [|lia|done]. unfold connection_count. simpl. rewrite map_size_empty. lia. Qed.

(** ** Theorems *)

(** C37: whatever operations are called in whatever order, and whatever bytes arrive
    from the network, the engine never holds more connections than configured, files
    every connection under its own identifier, keeps every connection's send window
    within its bound and its state history consistent, and hands only well-formed
    packets to the transport, which parse back as the packets printed. *)
Theorem engine_robust (now : Z) (cfg : EngineConfig) (os : list op) (Hos : Forall op_ok os) :
  let '(out, e) := op_run os (engine_new now cfg) in
  connection_count e ≤ Z.max 0 (max_connections (e_config e))
  ∧ (∀ cid c, connections e !! cid = Some c →
      c_id c = cid ∧ machine_ok (c_state c)
      ∧ zlen (unacked (send_window c)) ≤ Z.max 0 (window_size (config (send_window c))))
  ∧ Forall output_ok out.
Proof.
  pose proof (op_run_inv os _ (engine_inv_new now cfg) Hos) as [[Hn _ Hc] Ho].
  destruct (op_run os (engine_new now cfg)) as [out e]. simpl in *.
  split; [done|]. split; [|done]. intros cid c Hl. destruct (Hc cid c Hl) as [Hid []]. done.
Qed.

(** The handshake between two fresh engines: the three packets [connect] starts,
    each given to the other side at any later time, leave both sides established,
    whatever the configurations, as long as they allow a connection. *)
Theorem engine_handshake (t0 t1 t2 t3 : Z) (a b : Addr) (cfga cfgb : EngineConfig)
  (Ha : 1 ≤ max_connections cfga) (Hb : 1 ≤ max_connections cfgb)
  (Hia : 0 ≤ idle_timeout (connection_config cfga)) (Hib : 0 ≤ idle_timeout (connection_config cfgb)) :
  ∃ syn ea1 syn_ack eb1 ack ea2 eb2,
    connect t0 b (engine_new t0 cfga) = (Ok (1, syn), ea1)
    ∧ process_incoming t1 a syn (engine_new t1 cfgb) = (Ok [(a, syn_ack)], eb1)
    ∧ process_incoming t2 b syn_ack ea1 = (Ok [(b, ack)], ea2)
    ∧ process_incoming t3 a ack eb1 = (Ok [], eb2)
    ∧ connection_state 1 ea2 = Some Established ∧ connection_state 1 eb2 = Some Established
    ∧ ConnectionEstablished 1 ∈ e_events ea2 ∧ ConnectionEstablished 1 ∈ e_events eb2.
Proof.
  assert (Hcount : ∀ t cfg, 1 ≤ max_connections cfg → can_accept_connection (engine_new t cfg) = true).
  { intros t cfg Hm. unfold can_accept_connection, connection_count. simpl. rewrite map_size_empty.
    apply Z.ltb_lt. lia. }
  pose (c1 := (initiate t0 (Conn.new t0 1 b (connection_config cfga) true)).2).
  pose (d1 := (accept t1 0 (Conn.new t1 1 a (connection_config cfgb) false)).2).
  destruct (syn_sent_spec f t2 (Header.syn_ack 1 1) [] c1) as
    (c2 & Hp2 & Hs2 & He2 & Hl2 & Hk2 & Hw2 & Hc2 & Ho2 & Hev2); [done..|].
  destruct (poll_fresh t2 (take_events c2).2) as (c3 & Hq3 & Hs3 & _);
    [done|done|done|by simpl; rewrite Hw2|by simpl; rewrite Hc2|].
  destruct (syn_received_spec f t3 (Header.ack_only 1 0 1) [] d1) as
    (d2 & Hpd & Hsd & Hed & Hld & Hkd & Hwd & Hcd & Hod & Hevd); [done..|].
  destruct (poll_fresh t3 (take_events d2).2) as (d3 & Hqd & Hsd3 & _);
    [done|done|done|by simpl; rewrite Hwd|by simpl; rewrite Hcd|].
  eexists (Packet.to_bytes (Packet.control (Header.syn 1))),
    (set_addr b 1 (set_conn 1 c1 (generate_conn_id (engine_new t0 cfga)).2)),
    (Packet.to_bytes (Packet.control (Header.syn_ack 1 1))),
    (push_events [ConnectionAccepted 1 a] (set_addr a 1 (set_conn 1 d1 (engine_new t1 cfgb)))),
    (Packet.to_bytes (Packet.control (Header.ack_only 1 0 1))), _, _.
  split_and!.
  - unfold connect. rewrite Hcount by done. cbn [negb engine_new addr_to_conn]. by rewrite lookup_empty.
  - unfold process_incoming. rewrite packet_from_to by done. cbn [engine_new connections].
    rewrite lookup_empty. by rewrite Hcount by done.
  - unfold process_incoming. rewrite packet_from_to by done. cbn [set_addr set_conn connections].
    cbn [header Packet.control Header.syn_ack connection_id]. rewrite lookup_insert_eq. unfold Packet.control. rewrite Hp2. cbn [take_events fst snd] in Hq3 |- *.
    rewrite Hev2. rewrite Hq3. simpl. rewrite Ho2. reflexivity.
  - unfold process_incoming. rewrite packet_from_to by done. cbn [push_events set_addr set_conn connections].
    cbn [header Packet.control Header.ack_only connection_id]. rewrite lookup_insert_eq. unfold Packet.control. rewrite Hpd. cbn [take_events fst snd] in Hqd |- *.
    rewrite Hevd. rewrite Hqd. simpl. rewrite Hod. reflexivity.
  - unfold connection_state. simpl. rewrite lookup_insert_eq. simpl. rewrite Hs3. simpl. by rewrite Hs2.
  - unfold connection_state. simpl. rewrite lookup_insert_eq. simpl. rewrite Hsd3. simpl. by rewrite Hsd.
  - simpl. apply list_elem_of_here.
  - simpl. apply list_elem_of_further, list_elem_of_here.
Qed.

End engine.

Arguments ConstrainedEngine Addr {_ _}.
Arguments EngineEvent : clear implicits.

Lemma engine_robust_witness :
  let '(out, e) := op_run exact_smoothing
    [OIncoming 1 (Addr := Z) 7 [0; 9; 0; 0; 1]; OIncoming 2 7 [0; 9; 0; 0; 2; 1]; OSend 3 9 [1; 2; 3];
     OIncoming 4 7 [255; 3]; OPoll 900000000; OReset 5 9] (engine_new 0 engine_config_default) in
  Forall output_ok out ∧ length out = 3%nat.
Proof.
  pose proof (engine_robust (Addr := Z) exact_smoothing 0 engine_config_default
    [OIncoming 1 7 [0; 9; 0; 0; 1]; OIncoming 2 7 [0; 9; 0; 0; 2; 1]; OSend 3 9 [1; 2; 3];
     OIncoming 4 7 [255; 3]; OPoll 900000000; OReset 5 9]) as Hr.
  destruct (op_run _ _ _) as [out e] eqn:He. destruct Hr as (_ & _ & Ho).
  - repeat constructor; vm_compute; congruence.
  - split; [exact Ho|]. vm_compute in He. injection He as <- _. reflexivity.
Defined.

Lemma engine_handshake_witness : ∃ ea eb : ConstrainedEngine Z,
  connection_state 1 ea = Some Established ∧ connection_state 1 eb = Some Established.
Proof.
  destruct (engine_handshake exact_smoothing 10 20 30 40 (1 : Z) 2 engine_config_for_ble
    engine_config_for_lora) as (? & ? & ? & ? & ? & ea & eb & _ & _ & _ & _ & Ha & Hb & _);
    try (vm_compute; congruence).
  exists ea, eb. split; [exact Ha|exact Hb].
Defined.

(** ** What the engine does not do *)

(** Two engines after the handshake, the initiator at address 1. *)
Definition established_pair : ConstrainedEngine Z * ConstrainedEngine Z :=
  let '(r, ea) := connect 0 2 (engine_new 0 engine_config_default) in
  let syn := match r with Ok (_, p) => p | Err _ => [] end in
  let '(r, eb) := process_incoming exact_smoothing 1 1 syn (engine_new 1 engine_config_default) in
  let '(r, ea) := process_incoming exact_smoothing 2 2 (default [] (snd <$> head (ok_or_nil r))) ea in
  let '(r, eb) := process_incoming exact_smoothing 3 1 (default [] (snd <$> head (ok_or_nil r))) eb in
  (ea, eb).

(** Deliver packets from address [from_] in order; the answers. *)
Fixpoint deliver_all (now from_ : Z) (ps : list (list Z)) (e : ConstrainedEngine Z)
  : list (list Z) * ConstrainedEngine Z :=
  match ps with
  | [] => ([], e)
  | p :: ps =>
    let '(r, e) := process_incoming exact_smoothing now from_ p e in
    let '(out, e) := deliver_all now from_ ps e in
    ((snd <$> ok_or_nil r) ++ out, e)
  end.

Definition in_flight (cid : Z) (e : ConstrainedEngine Z) : option nat :=
  (λ c, length (unacked (send_window c))) <$> connections e !! cid.

(** The initiator expects the responder's data from sequence number 1 on, the
    responder numbers it from 0.  On a network that loses nothing, the responder's
    first message is never delivered, and the acknowledgement of the second takes it
    out of the responder's window: it is lost without an error. *)
Theorem responder_first_message_lost :
  let '(ea, eb) := established_pair in
  let '(r1, eb) := send 10 1 [77] eb in
  let '(acks1, ea) := deliver_all 11 2 (snd <$> ok_or_nil r1) ea in
  let '(r2, eb) := send 12 1 [88] eb in
  let '(acks2, ea) := deliver_all 13 2 (snd <$> ok_or_nil r2) ea in
  let '(_, eb) := deliver_all 14 1 (acks1 ++ acks2) eb in
  acks1 = [] ∧ (recv 1 ea).1 = Some [88] ∧ (recv 1 (recv 1 ea).2).1 = None
  ∧ in_flight 1 eb = Some 0%nat.
Proof. vm_compute. done. Qed.

(** Data packets always carry the acknowledgement flag, with number 0 before any
    packet was received.  A data packet from a peer that has received nothing takes
    the other side's first packet, lost on the way, out of its window: it is never
    retransmitted. *)
Theorem spurious_ack_loses_data :
  let '(ea, eb) := established_pair in
  let '(_, ea) := send 10 1 [77] ea in
  let '(r, eb) := send 11 1 [88] eb in
  let before := in_flight 1 ea in
  let '(_, ea) := deliver_all 12 2 (snd <$> ok_or_nil r) ea in
  before = Some 1%nat ∧ in_flight 1 ea = Some 0%nat ∧ (recv 1 eb).1 = None.
Proof. vm_compute. done. Qed.

(** A repeated packet is not acknowledged again.  When the one acknowledgement of
    a packet is lost, the sender repeats it until its retries are spent and then
    closes the connection, although the receiver has the data and gets every copy. *)
Theorem lost_ack_closes_connection :
  let '(ea, eb) := established_pair in
  let '(r0, ea) := send 10 1 [77] ea in
  let '(lost_ack, eb) := deliver_all 11 1 (snd <$> ok_or_nil r0) eb in
  let round t '(ea, eb) :=
    let '(ps, ea) := engine_poll (secs t) ea in
    let '(acks, eb) := deliver_all (secs t) 1 (snd <$> ps) eb in
    (snd (deliver_all (secs t) 2 acks ea), eb) in
  let '(ea, eb) := fold_left (λ s t, round t s) [5; 12; 25; 50; 85] (ea, eb) in
  let before := connection_state 1 ea in
  let '(ea, eb) := round 120 (ea, eb) in
  length lost_ack = 1%nat ∧ (recv 1 eb).1 = Some [77]
  ∧ before = Some Established ∧ connection_state 1 ea = None
  ∧ last (e_events ea) = Some (ConnectionError 1 "Maximum retransmissions exceeded").
Proof. vm_compute. done. Qed.

(** A new connection takes its identifier from a counter without looking whether
    it is in use.  A peer's connection with identifier 1 is dropped by the engine's
    own first [connect]. *)
Theorem connect_replaces_connection :
  let '(_, eb) := established_pair in
  let '(r, eb') := connect 10 3 eb in
  connection_state 1 eb = Some Established
  ∧ match r with Ok (cid, _) => cid = 1 | Err _ => False end
  ∧ connection_count eb' = 1 ∧ connection_state 1 eb' = Some SynSent.
Proof. vm_compute. done. Qed.

End Engine.
