(* ===== verification/QuicPacket.v ===== *)
(** * QUIC packets

    Models [src/packet.rs] (packet numbers, header encoding and decoding, header
    protection) and the wire format of [ConnectionId] in [src/shared.rs].

    A connection identifier is the bytes it derefs to (its fixed array beyond [len]
    is never read).  The cursor over a datagram is the bytes after its position.
    Header and packet protection are trait objects ([crypto::HeaderKey],
    [crypto::PacketKey]): a record of functions the definitions take. *)

From Stdlib Require Import String.
From S2P Require Import Prelude Coding.

Module QuicPacket.

Definition LONG_HEADER_FORM : Z := 0x80.
Definition FIXED_BIT : Z := 0x40.
Definition SPIN_BIT : Z := 0x20.
Definition SHORT_RESERVED_BITS : Z := 0x18.
Definition LONG_RESERVED_BITS : Z := 0x0c.
Definition KEY_PHASE_BIT : Z := 0x04.

Inductive SpaceId := SpaceInitial | SpaceHandshake | SpaceData.
Inductive LongType := Handshake | ZeroRtt.
Inductive LongHeaderType := LhInitial | LhRetry | LhStandard (ty : LongType).

Definition long_header_from_byte (b : Z) : LongHeaderType :=
  let k := Z.shiftr (Z.land b 0x30) 4 in
  if k =? 0 then LhInitial
  else if k =? 1 then LhStandard ZeroRtt
  else if k =? 2 then LhStandard Handshake
  else LhRetry.

Definition long_header_to_byte (ty : LongHeaderType) : Z :=
  let base := Z.lor LONG_HEADER_FORM FIXED_BIT in
  match ty with
  | LhInitial => base
  | LhStandard ZeroRtt => Z.lor base (Z.shiftl 0x1 4)
  | LhStandard Handshake => Z.lor base (Z.shiftl 0x2 4)
  | LhRetry => Z.lor base (Z.shiftl 0x3 4)
  end.

Inductive PacketDecodeError :=
| UnsupportedVersion (src_cid dst_cid : list Z) (version : Z)
| InvalidHeader (msg : string).

(** [From<UnexpectedEnd> for PacketDecodeError]. *)
Definition from_end {A} (r : result A UnexpectedEnd) : result A PacketDecodeError :=
  map_err (λ _, InvalidHeader "unexpected end of packet") r.

(** ** Connection identifiers (shared.rs) *)

Definition MAX_CID_SIZE : Z := 20.

Definition cid_from_buf (buf : list Z) (len : Z) : list Z * list Z := (ztake len buf, zdrop len buf).

Definition decode_long (buf : list Z) : option (list Z * list Z) :=
  match decode u8_codec buf with
  | Err _ => None
  | Ok (len, buf) =>
    if (MAX_CID_SIZE <? len) || (zlen buf <? len) then None else Some (cid_from_buf buf len)
  end.

Definition encode_long (cid : list Z) : list Z := encode u8_codec (zlen cid) ++ cid.

(** A [ConnectionIdParser]; [FixedLengthConnectionIdParser]. *)
Definition CidParser : Type := list Z → result (list Z * list Z) PacketDecodeError.

Definition fixed_length_parse (expected_len : Z) : CidParser := λ buf,
  if expected_len <=? zlen buf then Ok (cid_from_buf buf expected_len)
  else Err (InvalidHeader "packet too small").

(** ** Packet numbers *)

Inductive PacketNumber := U8 (x : Z) | U16 (x : Z) | U24 (x : Z) | U32 (x : Z).

Definition pn_new (n largest_acked : Z) : PacketNumber :=
  let range := (n - largest_acked) * 2 in
  if range <? Z.shiftl 1 8 then U8 (wrap 8 n)
  else if range <? Z.shiftl 1 16 then U16 (wrap 16 n)
  else if range <? Z.shiftl 1 24 then U24 (wrap 32 n)
  else if range <? Z.shiftl 1 32 then U32 (wrap 32 n)
  else U32 (wrap 32 n).

Definition pn_len (p : PacketNumber) : Z :=
  match p with U8 _ => 1 | U16 _ => 2 | U24 _ => 3 | U32 _ => 4 end.

(** [put_uint(x, 3)] writes the low three bytes. *)
Definition pn_encode (p : PacketNumber) : list Z :=
  match p with
  | U8 x => encode u8_codec x
  | U16 x => encode u16_codec x
  | U24 x => be_encode 3 x
  | U32 x => encode u32_codec x
  end.

(** [len] is 1 to 4; [get_uint(3)] panics on a short buffer, which the length check
    of [decrypt_header] excludes, and is an error here. *)
Definition pn_decode (len : Z) (r : list Z) : result (PacketNumber * list Z) PacketDecodeError :=
  let? (x, r) := from_end (if len =? 1 then decode u8_codec r
                           else if len =? 2 then decode u16_codec r
                           else if len =? 3 then fixed_decode 3 r
                           else decode u32_codec r) in
  Ok (if len =? 1 then U8 x else if len =? 2 then U16 x else if len =? 3 then U24 x else U32 x, r).

Definition decode_len (tag : Z) : Z := 1 + Z.land tag 0x03.

Definition pn_tag (p : PacketNumber) : Z := match p with U8 _ => 0 | U16 _ => 1 | U24 _ => 2 | U32 _ => 3 end.

Definition pn_value (p : PacketNumber) : Z := match p with U8 x | U16 x | U24 x | U32 x => x end.

Definition expand (p : PacketNumber) (expected : Z) : Z :=
  let truncated := pn_value p in
  let nbits := pn_len p * 8 in
  let win := Z.shiftl 1 nbits in
  let hwin := win / 2 in
  let mask := win - 1 in
  let candidate := Z.lor (Z.ldiff expected mask) truncated in
  if match checked_sub expected hwin with Some x => candidate <=? x | None => false end then
    candidate + win
  else if (expected + hwin <? candidate) && (win <? candidate) then candidate - win
  else candidate.

(** ** Headers *)

Record InitialHeader := mk_initial_header {
  ih_dst_cid : list Z;
  ih_src_cid : list Z;
  ih_token : list Z;
  ih_number : PacketNumber;
  ih_version : Z;
}.

Inductive Header :=
| HInitial (h : InitialHeader)
| HLong (ty : LongType) (dst_cid src_cid : list Z) (number : PacketNumber) (version : Z)
| HRetry (dst_cid src_cid : list Z) (version : Z)
| HShort (spin key_phase : bool) (dst_cid : list Z) (number : PacketNumber)
| HVersionNegotiate (random : Z) (src_cid dst_cid : list Z).

(** [pn] is the packet number's length and whether a payload length is written. *)
Record PartialEncode := mk_partial_encode { pe_start : Z; header_len : Z; pe_pn : option (Z * bool) }.

(** [try_encode] appends to [w]; what was written before an error stays. *)
Definition try_encode (h : Header) (w : list Z) : result PartialEncode VarIntBoundsExceeded * list Z :=
  let start := zlen w in
  match h with
  | HInitial h =>
    let w := w ++ encode u8_codec (Z.lor (long_header_to_byte LhInitial) (pn_tag (ih_number h)))
               ++ encode u32_codec (ih_version h)
               ++ encode_long (ih_dst_cid h) ++ encode_long (ih_src_cid h) in
    match VarInt.write_var (zlen (ih_token h)) with
    | Err e => (Err e, w)
    | Ok len =>
      let w := w ++ len ++ ih_token h ++ encode u16_codec 0 ++ pn_encode (ih_number h) in
      (Ok (mk_partial_encode start (zlen w - start) (Some (pn_len (ih_number h), true))), w)
    end
  | HLong ty dst_cid src_cid number version =>
    let w := w ++ encode u8_codec (Z.lor (long_header_to_byte (LhStandard ty)) (pn_tag number))
               ++ encode u32_codec version
               ++ encode_long dst_cid ++ encode_long src_cid
               ++ encode u16_codec 0 ++ pn_encode number in
    (Ok (mk_partial_encode start (zlen w - start) (Some (pn_len number, true))), w)
  | HRetry dst_cid src_cid version =>
    let w := w ++ encode u8_codec (long_header_to_byte LhRetry) ++ encode u32_codec version
               ++ encode_long dst_cid ++ encode_long src_cid in
    (Ok (mk_partial_encode start (zlen w - start) None), w)
  | HShort spin key_phase dst_cid number =>
    let first := Z.lor (Z.lor (Z.lor FIXED_BIT (if key_phase then KEY_PHASE_BIT else 0))
                   (if spin then SPIN_BIT else 0)) (pn_tag number) in
    let w := w ++ encode u8_codec first ++ dst_cid ++ pn_encode number in
    (Ok (mk_partial_encode start (zlen w - start) (Some (pn_len number, false))), w)
  | HVersionNegotiate random src_cid dst_cid =>
    let w := w ++ encode u8_codec (Z.lor 0x80 random) ++ encode u32_codec 0
               ++ encode_long dst_cid ++ encode_long src_cid in
    (Ok (mk_partial_encode start (zlen w - start) None), w)
  end.

Definition header_encode (h : Header) (w : list Z) : PartialEncode * list Z :=
  match try_encode h w with
  | (Ok pe, w) => (pe, w)
  | (Err _, w) => (mk_partial_encode (zlen w) 0 None, w)
  end.

Definition is_protected (h : Header) : bool :=
  match h with HRetry _ _ _ | HVersionNegotiate _ _ _ => false | _ => true end.

Definition number (h : Header) : option PacketNumber :=
  match h with
  | HInitial h => Some (ih_number h)
  | HLong _ _ _ number _ => Some number
  | HShort _ _ _ number => Some number
  | _ => None
  end.

Definition space (h : Header) : SpaceId :=
  match h with
  | HShort _ _ _ _ => SpaceData
  | HLong ZeroRtt _ _ _ _ => SpaceData
  | HLong Handshake _ _ _ _ => SpaceHandshake
  | _ => SpaceInitial
  end.

Definition has_frames (h : Header) : bool :=
  match h with
  | HInitial _ => true
  | HLong _ _ _ _ _ => true
  | HRetry _ _ _ => false
  | HShort _ _ _ _ => true
  | HVersionNegotiate _ _ _ => false
  end.

(** [crypto::HeaderKey]: protection in place at a packet number offset. *)
Record HeaderKey := mk_header_key {
  hk_encrypt : Z → list Z → list Z;
  hk_decrypt : Z → list Z → list Z;
  sample_size : Z;
}.

(** [PartialEncode::finish] on the packet's bytes, [None] when the length does not
    fit its two bytes.  [crypto] is the packet number and [PacketKey::encrypt]. *)
Definition pe_finish (pe : PartialEncode) (buf : list Z) (hk : HeaderKey)
  (crypto : option (Z * (Z → list Z → Z → list Z))) : option (list Z) :=
  match pe_pn pe with
  | None => Some buf
  | Some (pn_len, write_len) =>
    let pn_pos := header_len pe - pn_len in
    let len := zlen buf - header_len pe + pn_len in
    if write_len && negb (len <? 2 ^ 14) then None
    else
      let buf := if write_len
        then ztake (pn_pos - 2) buf ++ be_encode 2 (Z.lor (wrap 16 len) (Z.shiftl 1 14)) ++ zdrop pn_pos buf
        else buf in
      let buf := match crypto with Some (n, encrypt) => encrypt n buf (header_len pe) | None => buf end in
      Some (hk_encrypt hk pn_pos buf)
  end.

(** ** Decoding *)

Record ProtectedInitialHeader := mk_protected_initial {
  pi_dst_cid : list Z;
  pi_src_cid : list Z;
  token_pos : Z * Z;
  pi_len : Z;
  pi_version : Z;
}.

Inductive ProtectedHeader :=
| PInitial (h : ProtectedInitialHeader)
| PLong (ty : LongType) (dst_cid src_cid : list Z) (len version : Z)
| PRetry (dst_cid src_cid : list Z) (version : Z)
| PShort (spin : bool) (dst_cid : list Z)
| PVersionNegotiate (random : Z) (dst_cid src_cid : list Z).

Definition payload_len (h : ProtectedHeader) : option Z :=
  match h with PInitial h => Some (pi_len h) | PLong _ _ _ len _ => Some len | _ => None end.

Definition malformed_cid {A} (o : option A) : result A PacketDecodeError :=
  ok_or o (InvalidHeader "malformed cid").

(** The part of [ProtectedHeader::decode] after the version is known to be
    supported.  [total] is the length of the datagram, for the token's position. *)
Definition decode_long_header (total first version : Z) (dst_cid src_cid : list Z) (buf : list Z)
  : result (ProtectedHeader * list Z) PacketDecodeError :=
  match long_header_from_byte first with
  | LhInitial =>
    let? (token_len, buf) := from_end (VarInt.get_var buf) in
    let token_start := total - zlen buf in
    if zlen buf <? token_len then Err (InvalidHeader "token out of bounds")
    else
      let? (len, buf) := from_end (VarInt.get_var (zdrop token_len buf)) in
      Ok (PInitial (mk_protected_initial dst_cid src_cid
            (token_start, token_start + token_len) len version), buf)
  | LhRetry => Ok (PRetry dst_cid src_cid version, buf)
  | LhStandard ty =>
    let? (len, buf) := from_end (VarInt.get_var buf) in
    Ok (PLong ty dst_cid src_cid len version, buf)
  end.

(** [ProtectedHeader::decode]: the header and the bytes after the cursor. *)
Definition protected_decode (bytes : list Z) (cid_parser : CidParser) (supported_versions : list Z)
  (grease_quic_bit : bool) : result (ProtectedHeader * list Z) PacketDecodeError :=
  let? (first, buf) := from_end (decode u8_codec bytes) in
  if negb grease_quic_bit && (Z.land first FIXED_BIT =? 0) then Err (InvalidHeader "fixed bit unset")
  else if Z.land first LONG_HEADER_FORM =? 0 then
    let? (dst_cid, buf) := cid_parser buf in
    Ok (PShort (negb (Z.land first SPIN_BIT =? 0)) dst_cid, buf)
  else
    let? (version, buf) := from_end (decode u32_codec buf) in
    let? (dst_cid, buf) := malformed_cid (decode_long buf) in
    let? (src_cid, buf) := malformed_cid (decode_long buf) in
    if version =? 0 then
      Ok (PVersionNegotiate (Z.ldiff first LONG_HEADER_FORM) dst_cid src_cid, buf)
    else if negb (existsb (Z.eqb version) supported_versions) then
      Err (UnsupportedVersion src_cid dst_cid version)
    else decode_long_header (zlen bytes) first version dst_cid src_cid buf.

(** The cursor's buffer and its position. *)
Record PartialDecode := mk_partial_decode {
  plain_header : ProtectedHeader;
  pd_buf : list Z;
  pd_position : Z;
}.

Definition partial_new (bytes : list Z) (cid_parser : CidParser) (supported_versions : list Z)
  (grease_quic_bit : bool) : result (PartialDecode * option (list Z)) PacketDecodeError :=
  let? (plain_header, rest) := protected_decode bytes cid_parser supported_versions grease_quic_bit in
  let position := zlen bytes - zlen rest in
  let dgram_len := zlen bytes in
  let packet_len :=
    match payload_len plain_header with Some len => position + len | None => dgram_len end in
  if dgram_len =? packet_len then Ok (mk_partial_decode plain_header bytes position, None)
  else if dgram_len <? packet_len then
    Err (InvalidHeader "packet too short to contain payload length")
  else
    Ok (mk_partial_decode plain_header (ztake packet_len bytes) position, Some (zdrop packet_len bytes)).

Record Packet := mk_packet { p_header : Header; header_data : list Z; p_payload : list Z }.

(** The number, the decrypted buffer and the new position. *)
Definition decrypt_header (buf : list Z) (pn_offset : Z) (hk : HeaderKey)
  : result (PacketNumber * list Z * Z) PacketDecodeError :=
  if zlen buf <? pn_offset + 4 + sample_size hk then
    Err (InvalidHeader "packet too short to extract header protection sample")
  else
    let buf := hk_decrypt hk pn_offset buf in
    let len := decode_len (default 0 (head buf)) in
    let? (number, rest) := pn_decode len (zdrop pn_offset buf) in
    Ok (number, buf, zlen buf - zlen rest).

Definition require_number (buf : list Z) (pos : Z) (hk : option HeaderKey) (msg : string)
  : result (PacketNumber * list Z * Z) PacketDecodeError :=
  match hk with
  | Some hk => decrypt_header buf pos hk
  | None => Err (InvalidHeader msg)
  end.

Definition mk_finished (h : Header) (buf : list Z) (pos : Z) : Packet :=
  mk_packet h (ztake pos buf) (zdrop pos buf).

Definition pd_finish (pd : PartialDecode) (hk : option HeaderKey) : result Packet PacketDecodeError :=
  let buf := pd_buf pd in
  let pos := pd_position pd in
  match plain_header pd with
  | PInitial h =>
    let? (number, buf, pos) := require_number buf pos hk "header crypto should be available" in
    let token := slice (ztake pos buf) (token_pos h) in
    Ok (mk_finished (HInitial (mk_initial_header (pi_dst_cid h) (pi_src_cid h) token number (pi_version h)))
          buf pos)
  | PLong ty dst_cid src_cid _ version =>
    let? (number, buf, pos) :=
      require_number buf pos hk "header crypto should be available for long header packet" in
    Ok (mk_finished (HLong ty dst_cid src_cid number version) buf pos)
  | PRetry dst_cid src_cid version => Ok (mk_finished (HRetry dst_cid src_cid version) buf pos)
  | PShort spin dst_cid =>
    let? (number, buf, pos) :=
      require_number buf pos hk "header crypto should be available for initial packet" in
    let key_phase := negb (Z.land (default 0 (head buf)) KEY_PHASE_BIT =? 0) in
    Ok (mk_finished (HShort spin key_phase dst_cid number) buf pos)
  | PVersionNegotiate random dst_cid src_cid =>
    Ok (mk_finished (HVersionNegotiate random src_cid dst_cid) buf pos)
  end.

Definition reserved_bits_valid (p : Packet) : bool :=
  let mask := match p_header p with HShort _ _ _ _ => SHORT_RESERVED_BITS | _ => LONG_RESERVED_BITS end in
  Z.land (default 0 (head (header_data p))) mask =? 0.

(** ** Lemmas: packet numbers *)

Lemma expand_candidate e n k : 0 ≤ e → 0 ≤ n → 0 ≤ k →
  Z.lor (Z.ldiff e (Z.shiftl 1 k - 1)) (n mod 2 ^ k) = e / 2 ^ k * 2 ^ k + n mod 2 ^ k.
Proof.
  intros He Hn Hk. rewrite Z.shiftl_1_l. replace (2 ^ k - 1) with (Z.ones k) by (rewrite Z.ones_equiv; lia).
  rewrite Z.ldiff_ones_r, Z.shiftr_div_pow2 by lia. apply lor_shiftl_add; [|done].
  unfold is_u. apply Z.mod_pos_bound. lia.
Qed.

(** The window of RFC 9000, appendix A: any number in it is recovered. *)
Lemma expand_spec p n e : pn_value p = n mod 2 ^ (pn_len p * 8) → 0 ≤ n → 0 ≤ e →
  e - 2 ^ (pn_len p * 8 - 1) < n ≤ e + 2 ^ (pn_len p * 8 - 1) → expand p e = n.
Proof.
  intros Hp Hn He Hw. unfold expand. rewrite Hp.
  rewrite expand_candidate by (destruct p; simpl; lia). rewrite Z.shiftl_1_l. unfold checked_sub.
  pose proof (Z.div_mod n (2 ^ (pn_len p * 8)) ltac:(destruct p; done)) as Hdn.
  pose proof (Z.div_mod e (2 ^ (pn_len p * 8)) ltac:(destruct p; done)) as Hde.
  pose proof (Z.mod_pos_bound n (2 ^ (pn_len p * 8)) ltac:(destruct p; done)) as Hmn.
  pose proof (Z.mod_pos_bound e (2 ^ (pn_len p * 8)) ltac:(destruct p; done)) as Hme.
  set (qn := n / _) in *. set (qe := e / _) in *. set (rn := n mod _) in *. set (re := e mod _) in *.
  clearbody qn qe rn re. destruct p; simpl pn_len in *.
  all: match goal with |- context [2 ^ ?k / 2] =>
    let v := eval vm_compute in (2 ^ k) in let h := eval vm_compute in (2 ^ k / 2) in
    change (2 ^ k / 2) with h; change (2 ^ k) with v in *; change (2 ^ (k - 1)) with h in * end.
  all: repeat case_match; zbool; simplify_eq; lia.
Qed.

Definition pn_ok (p : PacketNumber) : Prop := is_u (8 * pn_len p) (pn_value p).

Lemma fixed_roundtrip n x rest : (0 < n)%nat → is_u (8 * Z.of_nat n) x →
  fixed_decode n (be_encode n x ++ rest) = Ok (x, rest).
Proof. intros Hn. apply (codec_roundtrip (CodecLaws := fixed_laws n Hn)). Qed.

Lemma pn_decode_encode p rest : pn_ok p →
  pn_decode (pn_len p) (pn_encode p ++ rest) = Ok (p, rest).
Proof.
  unfold pn_ok, pn_decode. destruct p as [x|x|x|x]; simpl pn_len; simpl pn_value; intros Hx;
    cbn [Z.eqb Pos.eqb pn_encode encode decode u8_codec u16_codec u32_codec];
    rewrite fixed_roundtrip by (lia || exact Hx); done.
Qed.

Lemma zlen_pn_encode p : zlen (pn_encode p) = pn_len p.
Proof. destruct p; simpl; unfold zlen; simpl; done. Qed.

Lemma decode_len_tag p b : Z.land b 3 = pn_tag p → decode_len b = pn_len p.
Proof. unfold decode_len. intros ->. by destruct p. Qed.

(** What is read back for a truncated number, the 24-bit form included. *)
Definition pn_trunc (p : PacketNumber) : PacketNumber :=
  let x := pn_value p mod 2 ^ (8 * pn_len p) in
  match p with U8 _ => U8 x | U16 _ => U16 x | U24 _ => U24 x | U32 _ => U32 x end.

Lemma pn_decode_trunc p rest : pn_decode (pn_len p) (pn_encode p ++ rest) = Ok (pn_trunc p, rest).
Proof.
  assert (Hl : pn_len (pn_trunc p) = pn_len p) by (by destruct p).
  assert (He : pn_encode p = pn_encode (pn_trunc p))
    by (destruct p as [x|x|x|x]; [exact (be_encode_mod 1 x)|exact (be_encode_mod 2 x)
       |exact (be_encode_mod 3 x)|exact (be_encode_mod 4 x)]).
  rewrite He, <-Hl. apply pn_decode_encode. unfold pn_ok, is_u. rewrite Hl.
  destruct p; simpl; apply Z.mod_pos_bound; lia.
Qed.

Lemma mod_mod_pow a k m : 0 ≤ k ≤ m → (a mod 2 ^ m) mod 2 ^ k = a mod 2 ^ k.
Proof.
  intros. rewrite <-!Z.land_ones by lia. rewrite <-Z.land_assoc. f_equal.
  apply Z.bits_inj'. intros i Hi. rewrite Z.land_spec.
  destruct (decide (i < k)).
  - rewrite !Z.ones_spec_low by lia. done.
  - rewrite (Z.ones_spec_high k) by lia. by rewrite andb_false_r.
Qed.

(** ** Lemmas: headers *)

Definition writes_len (h : Header) : bool :=
  match h with HInitial _ | HLong _ _ _ _ _ => true | _ => false end.

(** The bytes written before the packet number are the first byte and [header_mid],
    with [len] in the place kept for the payload length. *)
Definition header_pre (h : Header) : list Z :=
  match h with
  | HInitial h =>
    encode u32_codec (ih_version h) ++ encode_long (ih_dst_cid h) ++ encode_long (ih_src_cid h)
    ++ VarInt.write_var_or_debug_assert (zlen (ih_token h)) ++ ih_token h
  | HLong _ dst_cid src_cid _ version | HRetry dst_cid src_cid version =>
    encode u32_codec version ++ encode_long dst_cid ++ encode_long src_cid
  | HShort _ _ dst_cid _ => dst_cid
  | HVersionNegotiate _ src_cid dst_cid =>
    encode u32_codec 0 ++ encode_long dst_cid ++ encode_long src_cid
  end.

Definition header_mid (h : Header) (len : Z) : list Z :=
  header_pre h ++ (if writes_len h then be_encode 2 len else []).

Definition header_first (h : Header) : Z :=
  match h with
  | HInitial h => Z.lor (long_header_to_byte LhInitial) (pn_tag (ih_number h))
  | HLong ty _ _ number _ => Z.lor (long_header_to_byte (LhStandard ty)) (pn_tag number)
  | HShort spin key_phase _ number =>
    Z.lor (Z.lor (Z.lor FIXED_BIT (if key_phase then KEY_PHASE_BIT else 0))
      (if spin then SPIN_BIT else 0)) (pn_tag number)
  | HRetry _ _ _ => long_header_to_byte LhRetry
  | HVersionNegotiate random _ _ => Z.lor 0x80 random
  end.

Definition cid_ok (c : list Z) : Prop := zlen c ≤ MAX_CID_SIZE.

(** Headers [decode] can be expected to give back: field widths, a supported version,
    in a short header the connection identifier length of the parser, in a version
    negotiation packet the fixed bit unless the receiver lets it vary. *)
Definition header_wf (cid_len : Z) (versions : list Z) (grease : bool) (h : Header) : Prop :=
  let version_ok v := is_u 32 v ∧ v ≠ 0 ∧ existsb (Z.eqb v) versions = true in
  match h with
  | HInitial h =>
    cid_ok (ih_dst_cid h) ∧ cid_ok (ih_src_cid h) ∧ zlen (ih_token h) < 2 ^ 62
    ∧ pn_ok (ih_number h) ∧ version_ok (ih_version h)
  | HLong _ dst_cid src_cid number version =>
    cid_ok dst_cid ∧ cid_ok src_cid ∧ pn_ok number ∧ version_ok version
  | HShort _ _ dst_cid number => zlen dst_cid = cid_len ∧ pn_ok number
  | HRetry dst_cid src_cid version => cid_ok dst_cid ∧ cid_ok src_cid ∧ version_ok version
  | HVersionNegotiate random src_cid dst_cid =>
    cid_ok dst_cid ∧ cid_ok src_cid ∧ is_u 7 random ∧ (grease = true ∨ Z.land random FIXED_BIT ≠ 0)
  end.

Lemma decode_long_encode c rest : cid_ok c → decode_long (encode_long c ++ rest) = Some (c, rest).
Proof.
  unfold cid_ok, MAX_CID_SIZE, decode_long, encode_long. intros Hc. pose proof (zlen_nonneg c).
  rewrite <-app_assoc. cbn [decode u8_codec encode].
  rewrite fixed_roundtrip by (unfold is_u; lia || (change (8 * Z.of_nat 1) with 8; lia)).
  unfold MAX_CID_SIZE. rewrite (proj2 (Z.ltb_ge 20 (zlen c))) by lia.
  rewrite zlen_app. pose proof (zlen_nonneg rest). rewrite (proj2 (Z.ltb_ge (zlen c + zlen rest) (zlen c))) by lia.
  simpl. unfold cid_from_buf, ztake, zdrop, zlen. by rewrite Nat2Z.id, take_app_length, drop_app_length.
Qed.

(** A length below 2^14 in the two reserved bytes. *)
Lemma get_var_two len rest : is_u 14 len →
  VarInt.get_var (be_encode 2 (Z.lor len (Z.shiftl 1 14)) ++ rest) = Ok (len, rest).
Proof.
  intros Hl. rewrite Z.lor_comm.
  destruct (VarInt.be_encode_tagged 1 len 1) as [Heq Hq]; [lia|exact Hl|].
  change (8 * Z.of_nat 1 + 6) with 14 in Heq. rewrite Heq.
  unfold VarInt.get_var, VarInt.varint_decode. cbn [app].
  destruct (VarInt.tag_byte 1 (len / 256 ^ Z.of_nat 1)) as [-> ->]; [lia|done|].
  cbn [Z.eqb Pos.eqb]. by apply VarInt.varint_tail_encode.
Qed.

Lemma land_mask a b m m' : Z.land a m = Z.land b m → Z.land m m' = m' → Z.land a m' = Z.land b m'.
Proof. intros Hab <-. by rewrite !Z.land_assoc, Hab. Qed.

Definition pn_bytes (h : Header) : list Z :=
  match number h with Some p => pn_encode p | None => [] end.

Lemma u8_encode x : is_u 8 x → encode u8_codec x = [x].
Proof. intros Hx. simpl. rewrite Z.shiftr_0_r. f_equal. by apply wrap_small. Qed.

Lemma lor_form_bound r : is_u 7 r → Z.lor 0x80 r = 128 + r.
Proof.
  intros Hr. change 0x80 with (Z.shiftl 1 7). rewrite lor_shiftl_add by (done || lia). done.
Qed.

Lemma header_first_byte cid_len versions grease h : header_wf cid_len versions grease h →
  is_u 8 (header_first h).
Proof.
  destruct h as [h|ty ? ? n ?|? ? ?|spin kp ? n|r ? ?]; intros Hw.
  - simpl. by destruct (ih_number h).
  - simpl. by destruct ty, n.
  - done.
  - simpl. by destruct spin, kp, n.
  - destruct Hw as (_ & _ & Hr & _). simpl. rewrite lor_form_bound by done. unfold is_u in *. lia.
Qed.

Lemma encode_shape cid_len versions grease h : header_wf cid_len versions grease h →
  header_encode h [] =
    (mk_partial_encode 0 (1 + zlen (header_mid h 0) + zlen (pn_bytes h))
       (match number h with Some p => Some (pn_len p, writes_len h) | None => None end),
     header_first h :: header_mid h 0 ++ pn_bytes h).
Proof.
  intros Hw. pose proof (header_first_byte _ _ _ h Hw) as Hf.
  unfold header_encode, pn_bytes, header_mid.
  destruct h as [h|ty d s n v|d s v|spin kp d n|r s d];
    cbn [try_encode header_first number header_pre writes_len] in *; rewrite ?u8_encode by done.
  1: destruct Hw as (_ & _ & Ht & _); pose proof (zlen_nonneg (ih_token h)).
  1: unfold VarInt.write_var_or_debug_assert, VarInt.write_var.
  1: destruct (VarInt.encode_checked_shape (zlen (ih_token h))) as (t & k & Heq & _);
    [unfold is_u; lia|]; rewrite Heq.
  all: change (@zlen Z []) with 0; rewrite Z.sub_0_r, ?app_nil_r, ?app_nil_l, <-?app_assoc; cbn [app].
  all: f_equal; f_equal; rewrite zlen_cons, ?zlen_app, ?zlen_cons, ?zlen_app; cbn [encode u16_codec]; lia.
Qed.

(** What header protection does, RFC 9001 section 5.4: it is undone by its inverse,
    and it changes only the low bits of the first byte and bytes from the packet
    number on. *)
Definition unprotected_bits (first : Z) : Z := if Z.land first LONG_HEADER_FORM =? 0 then 0xe0 else 0xf0.

Class HeaderKeyLaws (hk : HeaderKey) : Prop := {
  hk_sample : 0 ≤ sample_size hk;
  hk_inverse pos buf : 0 ≤ pos → pos + 4 + sample_size hk ≤ zlen buf →
    hk_decrypt hk pos (hk_encrypt hk pos buf) = buf;
  hk_local b0 mid rest : is_u 8 b0 → 4 + sample_size hk ≤ zlen rest →
    ∃ b0' rest', hk_encrypt hk (1 + zlen mid) (b0 :: mid ++ rest) = b0' :: mid ++ rest'
      ∧ zlen rest' = zlen rest
      ∧ Z.land b0' (unprotected_bits b0) = Z.land b0 (unprotected_bits b0);
}.

Lemma ztake_app_len {A} (l k : list A) n : n = zlen l → ztake n (l ++ k) = l.
Proof. intros ->. unfold ztake, zlen. by rewrite Nat2Z.id, take_app_length. Qed.

Lemma zdrop_app_len {A} (l k : list A) n : n = zlen l → zdrop n (l ++ k) = k.
Proof. intros ->. unfold zdrop, zlen. by rewrite Nat2Z.id, drop_app_length. Qed.

Lemma finish_shape cid_len versions grease h p payload hk : header_wf cid_len versions grease h →
  number h = Some p → pn_len p + zlen payload < 2 ^ 14 →
  let '(pe, w) := header_encode h [] in
  pe_finish pe (w ++ payload) hk None
  = Some (hk_encrypt hk (1 + zlen (header_mid h 0))
      (header_first h :: header_mid h (Z.lor (pn_len p + zlen payload) (Z.shiftl 1 14))
       ++ pn_encode p ++ payload)).
Proof.
  intros Hw Hn Hlen. rewrite (encode_shape _ _ _ h Hw). rewrite Hn. unfold pe_finish, pn_bytes.
  cbn [pe_pn header_len]. rewrite Hn, zlen_pn_encode. set (M := header_mid h 0).
  replace (1 + zlen M + pn_len p - pn_len p) with (1 + zlen M) by lia.
  cbn [app]. rewrite !zlen_cons, !zlen_app, zlen_pn_encode.
  replace (1 + (zlen M + pn_len p + zlen payload) - (1 + zlen M + pn_len p) + pn_len p)
    with (pn_len p + zlen payload) by lia.
  rewrite (proj2 (Z.ltb_lt _ _) Hlen). rewrite andb_false_r. do 2 f_equal.
  assert (0 ≤ pn_len p) by (by destruct p). pose proof (zlen_nonneg payload).
  unfold M, header_mid. destruct (writes_len h) eqn:Hwl.
  - rewrite (wrap_small 16) by (unfold is_u; lia).
    rewrite <-!app_assoc.
    replace (header_first h :: header_pre h ++ be_encode 2 0 ++ pn_encode p ++ payload)
      with ((header_first h :: header_pre h) ++ be_encode 2 0 ++ pn_encode p ++ payload) by done.
    rewrite ztake_app_len; [|rewrite zlen_app, zlen_cons; change (zlen (be_encode 2 0)) with 2; lia].
    rewrite (app_assoc (_ :: _) (be_encode 2 0)), zdrop_app_len;
      [|rewrite !zlen_app, zlen_cons; lia].
    done.
  - by rewrite app_nil_r, <-!app_assoc.
Qed.

(** What [decode] gives for a packet of [h]; [len] is its payload length field. *)
Definition plain_of (h : Header) (len : Z) : ProtectedHeader :=
  match h with
  | HInitial h =>
    let start := 1 + 4 + zlen (encode_long (ih_dst_cid h)) + zlen (encode_long (ih_src_cid h))
      + zlen (VarInt.write_var_or_debug_assert (zlen (ih_token h))) in
    PInitial (mk_protected_initial (ih_dst_cid h) (ih_src_cid h)
      (start, start + zlen (ih_token h)) len (ih_version h))
  | HLong ty d s _ v => PLong ty d s len v
  | HRetry d s v => PRetry d s v
  | HShort spin _ d _ => PShort spin d
  | HVersionNegotiate r s d => PVersionNegotiate r d s
  end.

(** The long header up to the type-specific part. *)
Lemma long_prefix b0 v d s tail parser versions grease :
  negb grease && (Z.land b0 FIXED_BIT =? 0) = false → Z.land b0 LONG_HEADER_FORM ≠ 0 →
  is_u 32 v → cid_ok d → cid_ok s →
  protected_decode (b0 :: (encode u32_codec v ++ encode_long d ++ encode_long s) ++ tail) parser versions grease
  = if v =? 0 then Ok (PVersionNegotiate (Z.ldiff b0 LONG_HEADER_FORM) d s, tail)
    else if negb (existsb (Z.eqb v) versions) then Err (UnsupportedVersion s d v)
    else decode_long_header (1 + 4 + zlen (encode_long d) + zlen (encode_long s) + zlen tail) b0 v d s tail.
Proof.
  intros Hfix Hform Hv Hd Hs. unfold protected_decode. rewrite decode_u8_cons, zlen_cons.
  unfold from_end at 1. cbn [map_err]. rewrite Hfix, (proj2 (Z.eqb_neq _ _) Hform).
  set (all := (_ ++ _) ++ tail) at 2. rewrite <-!app_assoc. cbn [decode u32_codec encode].
  rewrite fixed_roundtrip by (lia || exact Hv). unfold from_end. cbn [map_err].
  rewrite (decode_long_encode d) by done. cbn [malformed_cid ok_or].
  rewrite (decode_long_encode s) by done. cbn [malformed_cid ok_or].
  replace (1 + zlen all) with (1 + 4 + zlen (encode_long d) + zlen (encode_long s) + zlen tail); [done|].
  unfold all. rewrite !zlen_app. change (zlen (encode u32_codec v)) with 4. lia.
Qed.

Lemma decode_shape cid_len versions grease h b0 rest len : header_wf cid_len versions grease h →
  0 ≤ cid_len → is_u 14 len →
  Z.land b0 (unprotected_bits (header_first h))
    = Z.land (header_first h) (unprotected_bits (header_first h)) →
  (is_protected h = false → b0 = header_first h) →
  protected_decode (b0 :: header_mid h (Z.lor len (Z.shiftl 1 14)) ++ rest)
    (fixed_length_parse cid_len) versions grease = Ok (plain_of h len, rest).
Proof.
  intros Hw Hcl Hl Hb Hunp. unfold header_mid.
  assert (Hm : ∀ m, Z.land (unprotected_bits (header_first h)) m = m →
    Z.land b0 m = Z.land (header_first h) m) by (intros m; by apply land_mask).
  destruct h as [h|ty d s n v|d s v|spin kp d n|r s d]; cbn [header_pre writes_len header_wf] in *.
  - destruct Hw as (Hd & Hs & Ht & Hn & Hv & Hv0 & Hsup). pose proof (zlen_nonneg (ih_token h)).
    assert (Hbits : unprotected_bits (header_first (HInitial h)) = 0xf0) by (simpl; by destruct (ih_number h)).
    rewrite Hbits in Hm. clear Hbits Hb.
    destruct (VarInt.encode_checked_shape (zlen (ih_token h))) as (t & k & Heq & _); [unfold is_u; lia|].
    pose proof (VarInt.decode_encode_checked (zlen (ih_token h)) _
      (ih_token h ++ be_encode 2 (Z.lor len (Z.shiftl 1 14)) ++ rest) ltac:(lia) Heq) as [Hdec _].
    unfold VarInt.write_var_or_debug_assert, VarInt.write_var. rewrite Heq.
    set (tl := (_ :: be_encode k _)) in *.
    rewrite <-!app_assoc. rewrite (app_assoc (encode_long _)), (app_assoc (encode u32_codec _)).
    rewrite long_prefix; try done.
    2: { rewrite (Hm FIXED_BIT) by done. simpl. destruct (ih_number h); by rewrite andb_false_r. }
    2: { rewrite (Hm LONG_HEADER_FORM) by done. simpl. by destruct (ih_number h). }
    rewrite (proj2 (Z.eqb_neq _ _) Hv0), Hsup. cbn [negb]. unfold decode_long_header.
    replace (long_header_from_byte b0) with LhInitial.
    2: { unfold long_header_from_byte. rewrite (Hm 0x30) by done. simpl. by destruct (ih_number h). }
    unfold VarInt.get_var at 1. rewrite Hdec. unfold from_end at 1. cbn [map_err].
    rewrite zlen_app, (proj2 (Z.ltb_ge _ _))
      by (pose proof (zlen_nonneg (be_encode 2 (Z.lor len (Z.shiftl 1 14)) ++ rest)); lia).
    rewrite zdrop_app_len by done. rewrite get_var_two by done. unfold from_end. cbn [map_err].
    unfold plain_of. do 4 f_equal. unfold VarInt.write_var_or_debug_assert, VarInt.write_var. rewrite Heq.
    fold tl. rewrite !zlen_app. f_equal; lia.
  - destruct Hw as (Hd & Hs & Hn & Hv & Hv0 & Hsup).
    assert (Hbits : unprotected_bits (header_first (HLong ty d s n v)) = 0xf0) by (by destruct ty, n).
    rewrite Hbits in Hm. clear Hbits Hb.
    rewrite <-!app_assoc. rewrite (app_assoc (encode_long _)), (app_assoc (encode u32_codec _)).
    rewrite long_prefix; try done.
    2: { rewrite (Hm FIXED_BIT) by done. destruct ty, n; by rewrite andb_false_r. }
    2: { rewrite (Hm LONG_HEADER_FORM) by done. by destruct ty, n. }
    rewrite (proj2 (Z.eqb_neq _ _) Hv0), Hsup. cbn [negb]. unfold decode_long_header.
    replace (long_header_from_byte b0) with (LhStandard ty).
    2: { unfold long_header_from_byte. rewrite (Hm 0x30) by done. by destruct ty, n. }
    rewrite get_var_two by done. done.
  - destruct Hw as (Hd & Hs & Hv & Hv0 & Hsup). rewrite (Hunp eq_refl), app_nil_r.
    rewrite long_prefix; try done; [|by rewrite andb_false_r].
    rewrite (proj2 (Z.eqb_neq _ _) Hv0), Hsup. done.
  - destruct Hw as (Hd & Hn). rewrite app_nil_r.
    assert (Hbits : unprotected_bits (header_first (HShort spin kp d n)) = 0xe0) by (by destruct spin, kp, n).
    rewrite Hbits in Hm. clear Hbits Hb.
    unfold protected_decode. rewrite decode_u8_cons. unfold from_end. cbn [map_err].
    rewrite (Hm FIXED_BIT), (Hm LONG_HEADER_FORM), (Hm SPIN_BIT) by done.
    replace (negb grease && _) with false by (destruct spin, kp, n; by rewrite andb_false_r).
    replace (Z.land _ LONG_HEADER_FORM =? 0) with true by (by destruct spin, kp, n).
    unfold fixed_length_parse. rewrite zlen_app, (proj2 (Z.leb_le _ _)) by (pose proof (zlen_nonneg rest); lia).
    unfold cid_from_buf. rewrite ztake_app_len, zdrop_app_len by done.
    by destruct spin, kp, n.
  - destruct Hw as (Hd & Hs & Hr & Hg). rewrite (Hunp eq_refl), app_nil_r. cbn [header_first].
    rewrite long_prefix; try done.
    + simpl. f_equal. f_equal. f_equal. apply Z.bits_inj'. intros i Hi.
      change LONG_HEADER_FORM with (2 ^ 7). change 128 with (2 ^ 7).
      rewrite Z.ldiff_spec, Z.lor_spec, Z.pow2_bits_eqb by lia.
      destruct (Z.eqb_spec 7 i) as [<-|]; [|cbn [orb negb]; apply andb_true_r].
      cbn [orb negb]. rewrite andb_false_r. symmetry. rewrite <-(Z.mod_small r (2 ^ 7)) by done.
      apply Z.mod_pow2_bits_high. lia.
    + rewrite Z.land_lor_distr_l. change (Z.land 128 FIXED_BIT) with 0. rewrite Z.lor_0_l.
      destruct Hg as [->|Hg]; [done|]. rewrite (proj2 (Z.eqb_neq _ _) Hg). apply andb_false_r.
    + rewrite Z.land_lor_distr_l. change (Z.land 128 LONG_HEADER_FORM) with 128.
      intros [? _]%Z.lor_eq_0_iff. done.
Qed.

Lemma zlen_header_mid h len len' : zlen (header_mid h len) = zlen (header_mid h len').
Proof. unfold header_mid. rewrite !zlen_app. by destruct (writes_len h). Qed.

Lemma header_first_tag h p : number h = Some p → Z.land (header_first h) 3 = pn_tag p.
Proof.
  destruct h as [h|ty d s n v|d s v|spin kp d n|r s d]; simpl; intros; simplify_eq.
  - by destruct (ih_number h).
  - by destruct ty, p.
  - by destruct spin, kp, p.
Qed.

Lemma decrypt_spec hk `{!HeaderKeyLaws hk} h p buf payload : number h = Some p → pn_ok p →
  ∀ mid, buf = header_first h :: mid ++ pn_encode p ++ payload →
  4 + sample_size hk ≤ pn_len p + zlen payload →
  decrypt_header (hk_encrypt hk (1 + zlen mid) buf) (1 + zlen mid) hk
  = (if zlen (hk_encrypt hk (1 + zlen mid) buf) <? 1 + zlen mid + 4 + sample_size hk
     then Err (InvalidHeader "packet too short to extract header protection sample")
     else Ok (p, buf, 1 + zlen mid + pn_len p)).
Proof.
  intros Hn Hp mid Hbuf Hlen. unfold decrypt_header. destruct (_ <? _); [done|].
  assert (Hz : zlen buf = 1 + zlen mid + pn_len p + zlen payload)
    by (rewrite Hbuf, zlen_cons, !zlen_app, zlen_pn_encode; lia).
  pose proof (zlen_nonneg mid). rewrite hk_inverse by lia.
  replace (zdrop (1 + zlen mid) buf) with (pn_encode p ++ payload).
  2: { rewrite Hbuf, app_comm_cons, zdrop_app_len; [done|]. by rewrite zlen_cons. }
  rewrite Hbuf at 1. cbn [head default]. simpl default.
  rewrite (decode_len_tag p) by (by apply (header_first_tag h)).
  rewrite pn_decode_encode by done. do 2 f_equal. lia.
Qed.

Lemma slice_mid {A} (a t c : list A) n : n = zlen a → slice (a ++ t ++ c) (n, n + zlen t) = t.
Proof.
  intros ->. unfold slice. cbn [fst snd]. rewrite zdrop_app_len, ztake_app_len by lia. done.
Qed.

Lemma header_first_reserved h p : number h = Some p →
  (Z.land (header_first h)
     (match h with HShort _ _ _ _ => SHORT_RESERVED_BITS | _ => LONG_RESERVED_BITS end) =? 0) = true.
Proof.
  destruct h as [h|ty d s n v|d s v|spin kp d n|r s d]; simpl; intros; simplify_eq.
  - by destruct (ih_number h).
  - by destruct ty, p.
  - by destruct spin, kp, p.
Qed.

(** Once the number is decrypted, [finish] has the header. *)
Lemma finish_decoded h p hk len len' buf mid payload :
  number h = Some p → mid = header_mid h len' →
  decrypt_header buf (1 + zlen mid) hk
    = Ok (p, header_first h :: mid ++ pn_encode p ++ payload, 1 + zlen mid + pn_len p) →
  ztake (1 + zlen mid + pn_len p) (header_first h :: mid ++ pn_encode p ++ payload)
    = header_first h :: mid ++ pn_encode p →
  pd_finish (mk_partial_decode (plain_of h len) buf (1 + zlen mid)) (Some hk)
  = Ok (mk_finished h (header_first h :: mid ++ pn_encode p ++ payload) (1 + zlen mid + pn_len p)).
Proof.
  intros Hn Hmid Hdec Htake. unfold pd_finish. cbn [pd_buf pd_position plain_header].
  destruct h as [h|ty d s n v|d s v|spin kp d n|r s d]; simpl in Hn; simplify_eq;
    cbn [plain_of]; unfold require_number; rewrite Hdec.
  - cbn [token_pos pi_dst_cid pi_src_cid pi_version]. rewrite Htake. unfold header_mid. cbn [header_pre].
    rewrite <-!app_assoc. set (vi := VarInt.write_var_or_debug_assert _).
    rewrite !app_comm_cons, !(app_assoc _ (encode_long _)), (app_assoc _ vi), slice_mid; [by destruct h|].
    rewrite !zlen_app, zlen_cons. change (zlen (encode u32_codec (ih_version h))) with 4. lia.
  - done.
  - cbn [head]. simpl default. by destruct spin, kp, p.
Qed.

(** ** Theorems *)

(** A packet number survives truncation: whatever the sender's largest
    acknowledged number was, when fewer than 2^31 numbers are outstanding, a receiver
    whose expected number is at least that one and less than half a window ahead
    recovers the number from the bytes sent. *)
Theorem packet_number_roundtrip (n largest_acked expected : Z) (rest : list Z)
  (Hla : 0 ≤ largest_acked ≤ n) (Hn : n < 2 ^ 62) (Hout : n - largest_acked < 2 ^ 31)
  (He : largest_acked ≤ expected) (Hahead : expected < n + 2 ^ (pn_len (pn_new n largest_acked) * 8 - 1)) :
  ∃ p, pn_decode (decode_len (pn_tag (pn_new n largest_acked)))
         (pn_encode (pn_new n largest_acked) ++ rest) = Ok (p, rest)
    ∧ expand p expected = n.
Proof.
  set (q := pn_new n largest_acked) in *. exists (pn_trunc q).
  rewrite (decode_len_tag q) by (by destruct q). split; [apply pn_decode_trunc|].
  assert (Hl : pn_len (pn_trunc q) = pn_len q) by (by destruct q).
  assert (Hw : n ≤ expected + 2 ^ (pn_len q * 8 - 1)).
  { clear Hahead. unfold q, pn_new. rewrite !Z.shiftl_1_l.
    repeat case_match; zbool; cbn [pn_len]; lia. }
  apply expand_spec; rewrite ?Hl; try lia.
  assert (Hv : pn_value q = n mod 2 ^ 8 ∧ pn_len q = 1 ∨ pn_value q = n mod 2 ^ 16 ∧ pn_len q = 2
    ∨ pn_value q = n mod 2 ^ 32 ∧ (pn_len q = 3 ∨ pn_len q = 4)).
  { unfold q, pn_new, wrap. repeat case_match; simpl; auto. }
  assert (Ht : pn_value (pn_trunc q) = pn_value q mod 2 ^ (pn_len q * 8))
    by (rewrite Z.mul_comm; by destruct q).
  rewrite Ht. destruct Hv as [[-> ->]|[[-> ->]|[-> [->| ->]]]]; apply mod_mod_pow; lia.
Qed.

Lemma packet_number_roundtrip_witness :
  ∃ p, pn_decode (decode_len (pn_tag (pn_new 0xac5c02 0xabe8b3)))
         (pn_encode (pn_new 0xac5c02 0xabe8b3) ++ [9]) = Ok (p, [9])
    ∧ expand p 0xabe8b4 = 0xac5c02.
Proof. apply packet_number_roundtrip; vm_compute; (split; congruence) || congruence. Defined.

(** C9: a protected packet on the wire: for every Initial, Handshake, 0-RTT and 1-RTT
    header whose fields are in range, and every payload that is long enough to sample
    and short enough for the length field, the bytes [encode] and [finish] produce are
    decoded, under any header protection, to that header, that payload, no trailing
    data and clear reserved bits. *)
Theorem protected_packet_roundtrip (hk : HeaderKey) (Hhk : HeaderKeyLaws hk) (cid_len : Z)
  (versions : list Z) (grease : bool) (h : Header) (p : PacketNumber) (payload buf : list Z)
  (Hwf : header_wf cid_len versions grease h) (Hcid : 0 ≤ cid_len) (Hn : number h = Some p)
  (Hmin : 4 + sample_size hk ≤ pn_len p + zlen payload) (Hmax : pn_len p + zlen payload < 2 ^ 14)
  (Hbuf : let '(pe, w) := header_encode h [] in pe_finish pe (w ++ payload) hk None = Some buf) :
  ∃ pd pkt, partial_new buf (fixed_length_parse cid_len) versions grease = Ok (pd, None)
    ∧ pd_finish pd (Some hk) = Ok pkt
    ∧ p_header pkt = h ∧ p_payload pkt = payload ∧ reserved_bits_valid pkt = true.
Proof.
  pose proof (finish_shape _ _ _ h p payload hk Hwf Hn Hmax) as Hfin.
  destruct (header_encode h []) as [pe w]. rewrite Hfin in Hbuf. clear Hfin. injection Hbuf as <-.
  set (len := pn_len p + zlen payload) in *. assert (0 ≤ pn_len p) by (by destruct p).
  pose proof (zlen_nonneg payload).
  rewrite (zlen_header_mid h 0 (Z.lor len (Z.shiftl 1 14))).
  set (mid := header_mid h (Z.lor len (Z.shiftl 1 14))) in *.
  assert (Hpn : pn_ok p).
  { destruct h; simpl in Hwf, Hn; simplify_eq; naive_solver. }
  set (plain := header_first h :: mid ++ pn_encode p ++ payload).
  destruct (hk_local (header_first h) mid (pn_encode p ++ payload)) as (b0 & rest & Henc & Hrest & Hb0).
  { by eapply header_first_byte. }
  { rewrite zlen_app, zlen_pn_encode. done. }
  pose proof (decrypt_spec hk h p plain payload Hn Hpn mid eq_refl Hmin) as Hdec.
  fold plain in Henc. rewrite Henc in *. rewrite zlen_app, zlen_pn_encode in Hrest.
  pose proof (zlen_nonneg mid). pose proof (hk_sample (hk := hk)).
  assert (Hprot : is_protected h = false → b0 = header_first h) by (by destruct h).
  pose proof (decode_shape _ _ _ h b0 rest len Hwf Hcid ltac:(unfold is_u; lia) Hb0 Hprot) as Hds.
  fold mid in Hds. unfold partial_new. rewrite Hds. clear Hds.
  rewrite zlen_cons, zlen_app in *. fold len in Hrest.
  rewrite (proj2 (Z.ltb_ge _ _)) in Hdec by lia.
  replace (1 + (zlen mid + zlen rest) - zlen rest) with (1 + zlen mid) by lia.
  replace (1 + (zlen mid + zlen rest) =? _) with true.
  2: { symmetry. apply Z.eqb_eq. destruct h; simpl; lia. }
  set (pos := 1 + zlen mid + pn_len p) in *.
  assert (Htake : ztake pos plain = header_first h :: mid ++ pn_encode p).
  { unfold plain. rewrite app_assoc, app_comm_cons. apply ztake_app_len.
    rewrite zlen_cons, zlen_app, zlen_pn_encode. unfold pos. lia. }
  assert (Hdrop : zdrop pos plain = payload).
  { unfold plain. rewrite app_assoc, app_comm_cons. apply zdrop_app_len.
    rewrite zlen_cons, zlen_app, zlen_pn_encode. unfold pos. lia. }
  eexists _, (mk_finished h plain pos). split; [reflexivity|]. split.
  - by apply (finish_decoded h p hk len (Z.lor len (Z.shiftl 1 14))).
  - split; [done|]. split; [done|]. unfold reserved_bits_valid, mk_finished. cbn [p_header header_data].
    rewrite Htake. cbn [head]. simpl default. by eapply header_first_reserved.
Qed.


(** A header protection with a fixed mask, the sample left out. *)
Definition mask_first (_ : Z) (buf : list Z) : list Z :=
  match buf with [] => [] | b :: r => Z.lxor b 0x05 :: r end.

Definition mask_key : HeaderKey := mk_header_key mask_first mask_first 16.

Lemma lxor_high_bits b k : Z.land k 15 = 0 → Z.land (Z.lxor b 5) k = Z.land b k.
Proof.
  intros Hk. apply Z.bits_inj'. intros i Hi. rewrite !Z.land_spec, Z.lxor_spec.
  destruct (decide (i < 4)).
  - assert (Z.testbit k i = false) as ->; [|by rewrite !andb_false_r].
    rewrite <-(Z.bits_0 i), <-Hk, Z.land_spec. change 15 with (Z.ones 4).
    rewrite Z.ones_spec_low by lia. by rewrite andb_true_r.
  - replace (Z.testbit 5 i) with false; [by rewrite xorb_false_r|]. symmetry.
    change 5 with (5 mod 2 ^ 4). apply Z.mod_pow2_bits_high. lia.
Qed.

#[export] Instance mask_key_laws : HeaderKeyLaws mask_key.
Proof.
  split; simpl.
  - done.
  - intros pos [|b r] _ _; [done|]. simpl. by rewrite Z.lxor_assoc, Z.lxor_nilpotent, Z.lxor_0_r.
  - intros b0 mid rest _ _. eexists _, _. split; [done|]. split; [done|].
    apply lxor_high_bits. unfold unprotected_bits. by destruct (_ =? _).
Qed.

Definition sample_header : Header :=
  HInitial (mk_initial_header [1; 2; 3] [4; 5] [9; 9; 9] (U16 300) 1).

Lemma protected_packet_roundtrip_witness :
  let payload := repeat 7 30 in
  let '(pe, w) := header_encode sample_header [] in
  ∃ buf pd pkt, pe_finish pe (w ++ payload) mask_key None = Some buf
    ∧ partial_new buf (fixed_length_parse 3) [1] false = Ok (pd, None)
    ∧ pd_finish pd (Some mask_key) = Ok pkt ∧ p_header pkt = sample_header ∧ p_payload pkt = payload.
Proof.
  destruct (protected_packet_roundtrip mask_key mask_key_laws 3 [1] false sample_header (U16 300)
    (repeat 7 30) (default [] (let '(pe, w) := header_encode sample_header [] in
       pe_finish pe (w ++ repeat 7 30) mask_key None))) as (pd & pkt & H1 & H2 & H3 & H4 & _);
    try (vm_compute; (repeat split; congruence) || congruence).
  eexists _, pd, pkt. split; [reflexivity|]. split; [exact H1|]. split; [exact H2|].
  split; [exact H3|exact H4].
Defined.

(** Retry and Version Negotiation packets, which are not protected, decode to the
    header they were encoded from, with the rest of the datagram as payload. *)
Theorem unprotected_packet_roundtrip (cid_len : Z) (versions : list Z) (grease : bool) (h : Header)
  (payload : list Z) (hk hk' : HeaderKey) (Hwf : header_wf cid_len versions grease h)
  (Hcid : 0 ≤ cid_len) (Hn : number h = None) :
  let '(pe, w) := header_encode h [] in
  pe_finish pe (w ++ payload) hk None = Some (w ++ payload)
  ∧ ∃ pd, partial_new (w ++ payload) (fixed_length_parse cid_len) versions grease = Ok (pd, None)
    ∧ pd_finish pd (Some hk') = Ok (mk_packet h w payload).
Proof.
  rewrite (encode_shape _ _ _ h Hwf). unfold pn_bytes. rewrite Hn, app_nil_r. split; [done|].
  pose proof (decode_shape _ _ _ h (header_first h) payload 0 Hwf Hcid ltac:(done) eq_refl ltac:(done)) as Hds.
  assert (Hmid : header_mid h (Z.lor 0 (Z.shiftl 1 14)) = header_mid h 0) by (by destruct h).
  rewrite Hmid in Hds. cbn [app]. unfold partial_new. rewrite Hds.
  replace (payload_len (plain_of h 0)) with (@None Z) by (by destruct h).
  rewrite Z.eqb_refl. eexists. split; [done|]. rewrite zlen_cons, zlen_app.
  replace (1 + (zlen (header_mid h 0) + zlen payload) - zlen payload)
    with (zlen (header_first h :: header_mid h 0)) by (rewrite zlen_cons; lia).
  unfold pd_finish, mk_finished. cbn [pd_buf pd_position plain_header].
  rewrite app_comm_cons, ztake_app_len, zdrop_app_len by done. by destruct h.
Qed.

Lemma unprotected_packet_roundtrip_witness :
  let '(_, w) := header_encode (HRetry [1] [2; 3] 1) [] in
  ∃ pd, partial_new (w ++ [8; 8]) (fixed_length_parse 8) [1; 2] false = Ok (pd, None)
    ∧ pd_finish pd (Some mask_key) = Ok (mk_packet (HRetry [1] [2; 3] 1) w [8; 8]).
Proof.
  refine (proj2 (unprotected_packet_roundtrip 8 [1; 2] false (HRetry [1] [2; 3] 1) [8; 8]
    mask_key mask_key _ _ eq_refl)); vm_compute; repeat split; congruence.
Defined.

End QuicPacket.
