(* ===== verification/Dedup.v ===== *)
(** * Duplicate detection of received packet numbers

    Models [Dedup] of [src/connection/spaces.rs]: a sliding window, kept as the bits
    of a [u128], over the packet numbers below the highest authenticated one.  The
    packets received so far are ghost state: the window is shown to answer from it
    exactly, as far back as it reaches. *)

From S2P Require Import Prelude.

Module Dedup.

(** [Window] is [u128]. *)
Definition WINDOW_BITS : Z := 128.
Definition WINDOW_SIZE : Z := 1 + WINDOW_BITS.

Record Dedup := mk_dedup { window : Z; next : Z }.

Definition new : Dedup := mk_dedup 0 0.

Definition highest (d : Dedup) : Z := wrapping_sub 64 (next d) 1.

(** [u128::checked_shl]. *)
Definition checked_shl (x n : Z) : option Z :=
  if n <? WINDOW_BITS then Some (wrap WINDOW_BITS (Z.shiftl x n)) else None.

Definition insert (packet : Z) (d : Dedup) : bool * Dedup :=
  match checked_sub packet (next d) with
  | Some diff =>
    let shifted := Z.lor (wrap WINDOW_BITS (Z.shiftl (window d) 1)) 1 in
    (false, mk_dedup (default 0 (checked_shl shifted (Z.min diff (u_max 32)))) (wrap 64 (packet + 1)))
  | None =>
    if highest d - packet <? WINDOW_SIZE then
      match checked_sub (highest d - packet) 1 with
      | Some bit =>
        let mask := wrap WINDOW_BITS (Z.shiftl 1 bit) in
        (negb (Z.land (window d) mask =? 0), mk_dedup (Z.lor (window d) mask) (next d))
      | None => (true, d)
      end
    else (true, d)
  end.

(** [u128::leading_zeros]. *)
Definition leading_zeros (x : Z) : Z := if x =? 0 then WINDOW_BITS else WINDOW_BITS - 1 - Z.log2 x.

Definition smallest_missing_in_interval (d : Dedup) (lower_bound upper_bound : Z) : option Z :=
  let lower_bound := lower_bound + 1 in
  let upper_bound := saturating_sub upper_bound 1 in
  let start_offset := Z.max (wrapping_sub 64 (highest d) upper_bound) 1 - 1 in
  if start_offset >=? WINDOW_BITS then None
  else
    let end_offset_exclusive := saturating_sub (highest d) lower_bound in
    let range_len := Z.min (saturating_sub end_offset_exclusive start_offset) WINDOW_BITS in
    if range_len =? 0 then None
    else
      let mask :=
        if range_len =? WINDOW_BITS then u_max WINDOW_BITS
        else wrap WINDOW_BITS (Z.shiftl (Z.shiftl 1 range_len - 1) start_offset) in
      let gaps := Z.land (wrap WINDOW_BITS (Z.lnot (window d))) mask in
      let smallest_missing_offset := 128 - leading_zeros gaps in
      let smallest_missing_packet := wrapping_sub 64 (highest d) smallest_missing_offset in
      if smallest_missing_packet <=? upper_bound then Some smallest_missing_packet else None.

Definition missing_in_interval (d : Dedup) (lower_bound upper_bound : Z) : bool :=
  match smallest_missing_in_interval d lower_bound upper_bound with Some _ => true | None => false end.

(** ** The window and the packets received *)

(** The packets of [ps], inserted in that order, and the answer to each. *)
Fixpoint insert_all (ps : list Z) (d : Dedup) : list bool * Dedup :=
  match ps with
  | [] => ([], d)
  | p :: ps =>
    let '(dup, d) := insert p d in
    let '(dups, d) := insert_all ps d in (dup :: dups, d)
  end.

(** A packet number, small enough for the next one to be a [u64]. *)
Definition packet_ok (p : Z) : Prop := 0 ≤ p < u_max 64.

(** [recv] are the packets authenticated so far.  Bit [b] of the window stands for
    the packet [b + 1] below the highest one; the bit of the non-existent packet -1
    is set, as if it had been received before the first. *)
Record dedup_inv (recv : list Z) (d : Dedup) : Prop := {
  di_window : is_u WINDOW_BITS (window d);
  di_next : 0 ≤ next d ≤ u_max 64;
  di_recv : ∀ p, p ∈ recv → 0 ≤ p < next d;
  di_highest : next d = 0 ∨ next d - 1 ∈ recv;
  di_bits : ∀ b, 0 ≤ b < WINDOW_BITS →
    Z.testbit (window d) b = true ↔ next d - 2 - b ∈ recv ∨ next d - 2 - b = -1
}.

(** What [insert] should answer: received before, or too old to tell. *)
Definition maybe_duplicate (recv : list Z) (d : Dedup) (p : Z) : Prop :=
  p ∈ recv ∨ p + WINDOW_SIZE ≤ next d - 1.

Lemma testbit_wrap w x b : 0 ≤ b < w → Z.testbit (wrap w x) b = Z.testbit x b.
Proof. intros. unfold wrap. apply Z.mod_pow2_bits_low. lia. Qed.

Lemma testbit_above w x b : 0 ≤ w ≤ b → is_u w x → Z.testbit x b = false.
Proof.
  intros Hb [H0 H1]. destruct (decide (x = 0)) as [->|]; [apply Z.bits_0|].
  apply Z.bits_above_log2; [done|]. apply Z.lt_le_trans with w; [|lia]. apply Z.log2_lt_pow2; lia.
Qed.

Lemma highest_eq recv d : dedup_inv recv d → next d ≠ 0 → highest d = next d - 1.
Proof.
  intros Hd Hn. unfold highest, wrapping_sub. apply wrap_small.
  destruct (di_next _ _ Hd). unfold is_u, u_max in *. lia.
Qed.

Lemma dedup_inv_new : dedup_inv [] new.
Proof.
  split; simpl.
  - unfold is_u, WINDOW_BITS. lia.
  - unfold u_max. lia.
  - intros p ?%not_elem_of_nil. done.
  - by left.
  - intros b Hb. rewrite Z.bits_0. split; [done|]. intros [?%not_elem_of_nil|?]; [done|lia].
Qed.

(** The bits after a packet [diff] above the window: the old highest packet enters at
    bit [diff], the rest moves up. *)
Lemma shifted_testbit w diff b : is_u WINDOW_BITS w → 0 ≤ diff → 0 ≤ b < WINDOW_BITS →
  Z.testbit (default 0 (checked_shl (Z.lor (wrap WINDOW_BITS (Z.shiftl w 1)) 1) (Z.min diff (u_max 32)))) b
  = if b <? diff then false else if b =? diff then true else Z.testbit w (b - diff - 1).
Proof.
  intros Hw Hd Hb. unfold checked_shl, WINDOW_BITS in *. change (u_max 32) with 4294967295.
  destruct (Z.ltb_spec (Z.min diff 4294967295) 128); simpl default.
  2: { rewrite Z.bits_0. destruct (Z.ltb_spec b diff); [done|lia]. }
  replace (Z.min diff 4294967295) with diff by lia.
  rewrite testbit_wrap by lia. rewrite Z.shiftl_spec by lia.
  destruct (Z.ltb_spec b diff); [by rewrite Z.testbit_neg_r by lia|].
  rewrite Z.lor_spec, testbit_wrap, Z.shiftl_spec by lia. destruct (Z.eqb_spec b diff).
  - subst. rewrite Z.sub_diag. by rewrite orb_true_r.
  - rewrite (testbit_above 1 1 (b - diff)) by (unfold is_u; lia). by rewrite orb_false_r.
Qed.

Lemma shifted_bound w n : is_u WINDOW_BITS (default 0 (checked_shl w n)).
Proof.
  unfold checked_shl. case_goal; simpl; [|unfold is_u, WINDOW_BITS; lia].
  apply wrap_bound. unfold WINDOW_BITS. lia.
Qed.

(** A packet to the right of the window. *)
Lemma insert_right recv d p : dedup_inv recv d → packet_ok p → next d ≤ p →
  (insert p d).1 = false ∧ dedup_inv (p :: recv) (insert p d).2.
Proof.
  intros [Hw Hn Hr Hh Hbits] Hp Hle. unfold insert.
  rewrite (proj2 (checked_sub_Some p (next d) (p - next d))) by lia. cbn [fst snd].
  split; [done|]. unfold packet_ok, u_max in Hp.
  rewrite (wrap_small 64) by (unfold is_u; lia). split; cbn [window next].
  - apply shifted_bound.
  - unfold u_max. lia.
  - intros q [->|Hq]%elem_of_cons; [lia|]. specialize (Hr q Hq). lia.
  - right. replace (p + 1 - 1) with p by lia. apply list_elem_of_here.
  - intros b Hb. rewrite shifted_testbit by (done || lia). rewrite elem_of_cons.
    destruct (Z.ltb_spec b (p - next d)); [|destruct (Z.eqb_spec b (p - next d))].
    + split; [done|]. intros [[?|Hq]|?]; [lia| |lia]. specialize (Hr _ Hq). lia.
    + split; [|done]. intros _. replace (p + 1 - 2 - b) with (next d - 1) by lia.
      destruct Hh as [Hz|?]; [right; lia|by left; right].
    + rewrite Hbits by lia. replace (next d - 2 - (b - (p - next d) - 1)) with (p + 1 - 2 - b) by lia.
      split; [intros [?|?]; [by left; right|by right]|].
      intros [[?|?]|?]; [lia|by left|by right].
Qed.

Lemma land_single_bit w b : 0 ≤ b < WINDOW_BITS →
  negb (Z.land w (wrap WINDOW_BITS (Z.shiftl 1 b)) =? 0) = Z.testbit w b.
Proof.
  intros Hb. rewrite wrap_small.
  2: { unfold is_u. rewrite Z.shiftl_1_l. split; [apply Z.pow_nonneg; lia|].
       apply Z.pow_lt_mono_r; unfold WINDOW_BITS in *; lia. }
  rewrite Z.shiftl_1_l. destruct (Z.eqb_spec (Z.land w (2 ^ b)) 0) as [He|He]; simpl.
  - assert (Z.testbit (Z.land w (2 ^ b)) b = false) as Ht by (by rewrite He, Z.bits_0).
    rewrite Z.land_spec, Z.pow2_bits_true in Ht by lia. by rewrite andb_true_r in Ht.
  - destruct (Z.testbit w b) eqn:Ht; [done|]. destruct He. apply Z.bits_inj'. intros i Hi.
    rewrite Z.land_spec, Z.bits_0, Z.pow2_bits_eqb by lia.
    destruct (Z.eqb_spec b i); [subst; by rewrite Ht|apply andb_false_r].
Qed.

(** A packet below the highest one: the bit is read and set. *)
Lemma insert_below recv d p : dedup_inv recv d → packet_ok p → p < next d →
  ((insert p d).1 = true ↔ maybe_duplicate recv d p) ∧ dedup_inv (p :: recv) (insert p d).2.
Proof.
  intros Hd Hp Hlt. pose proof Hd as [Hw Hn Hr Hh Hbits]. unfold packet_ok in Hp.
  unfold insert, maybe_duplicate. rewrite (proj2 (checked_sub_None p (next d))) by lia.
  rewrite (highest_eq recv d) by (done || lia).
  assert (dedup_inv (p :: recv) d ↔ ∀ b, 0 ≤ b < WINDOW_BITS → p = next d - 2 - b → Z.testbit (window d) b = true) as Hsame.
  { split; [intros [] b Hb ->; apply di_bits0; [done|]; left; apply list_elem_of_here|].
    intros Hset. split; [done|done| | |].
    - intros q [->|Hq]%elem_of_cons; [lia|auto].
    - destruct Hh; [by left|]. right. by apply list_elem_of_further.
    - intros b Hb. rewrite elem_of_cons, Hbits by done. split; [tauto|].
      intros [[Hq|?]|?]; [|tauto|tauto]. rewrite <-Hbits by done. by apply Hset. }
  destruct (Z.ltb_spec (next d - 1 - p) WINDOW_SIZE) as [Hin|Hout].
  2: { simpl. split; [split; [intros _; right; unfold WINDOW_SIZE in *; lia|done]|].
       apply Hsame. unfold WINDOW_SIZE, WINDOW_BITS in *. lia. }
  destruct (checked_sub (next d - 1 - p) 1) as [bit|] eqn:Hbit.
  2: { apply checked_sub_None in Hbit. simpl. assert (p = next d - 1) as -> by lia. split.
       - split; [intros _; left; destruct Hh; [lia|done]|done].
       - apply Hsame. lia. }
  apply checked_sub_Some in Hbit as [Hle ->]. cbn [fst snd].
  unfold WINDOW_SIZE, WINDOW_BITS in Hin. set (bit := next d - 1 - p - 1).
  assert (0 ≤ bit < WINDOW_BITS) as Hb by (unfold WINDOW_BITS; subst bit; lia).
  rewrite land_single_bit by done. split.
  { rewrite Hbits by done. replace (next d - 2 - bit) with p by (subst bit; lia).
    unfold WINDOW_SIZE, WINDOW_BITS. intuition lia. }
  rewrite wrap_small.
  2: { unfold is_u. rewrite Z.shiftl_1_l. split; [apply Z.pow_nonneg; lia|].
       apply Z.pow_lt_mono_r; unfold WINDOW_BITS in *; lia. }
  split; cbn [window next]; [| done | | |].
  - unfold is_u in *. split; [apply Z.lor_nonneg; split; [lia|]; apply Z.shiftl_nonneg; lia|].
    rewrite Z.shiftl_1_l. apply Z.log2_lt_cancel. rewrite Z.log2_lor, Z.log2_pow2 by (try apply Z.pow_nonneg; lia).
    rewrite Z.log2_pow2 by (unfold WINDOW_BITS; lia).
    destruct (decide (window d = 0)) as [->|]; [simpl; unfold WINDOW_BITS in *; lia|].
    pose proof (proj1 (Z.log2_lt_pow2 (window d) WINDOW_BITS ltac:(lia))). lia.
  - intros q [->|Hq]%elem_of_cons; [lia|auto].
  - destruct Hh; [by left|]. right. by apply list_elem_of_further.
  - intros b' Hb'. rewrite Z.lor_spec, orb_true_iff, Hbits, elem_of_cons by done.
    rewrite Z.shiftl_1_l. destruct (decide (b' = bit)) as [->|Hne].
    + rewrite Z.pow2_bits_true by lia. split; [intros _; left; left; subst bit; lia|by right].
    + rewrite Z.pow2_bits_false by lia. split; [intros [?|?]; [tauto|done]|].
      intros [[?|?]|?]; [subst bit; lia|tauto|tauto].
Qed.

Lemma dedup_insert_spec recv d p : dedup_inv recv d → packet_ok p →
  ((insert p d).1 = true ↔ maybe_duplicate recv d p) ∧ dedup_inv (p :: recv) (insert p d).2.
Proof.
  intros Hd Hp. destruct (decide (next d ≤ p)) as [Hle|]; [|apply insert_below; (done || lia)].
  destruct (insert_right recv d p Hd Hp Hle) as [-> ?]. split; [|done]. split; [done|].
  unfold maybe_duplicate, WINDOW_SIZE, WINDOW_BITS. intros [Hq|?]; [|lia].
  pose proof (di_recv _ _ Hd p Hq). lia.
Qed.

(** ** Gaps *)

Definition gap_mask (start_offset range_len : Z) : Z :=
  if range_len =? WINDOW_BITS then u_max WINDOW_BITS
  else wrap WINDOW_BITS (Z.shiftl (Z.shiftl 1 range_len - 1) start_offset).

Definition gap_bits (w start_offset range_len : Z) : Z :=
  Z.land (wrap WINDOW_BITS (Z.lnot w)) (gap_mask start_offset range_len).

Lemma gap_bits_spec w so rl b : 0 ≤ so → 0 ≤ rl → 0 ≤ b < WINDOW_BITS →
  Z.testbit (gap_bits w so rl) b
  = negb (Z.testbit w b) && ((rl =? WINDOW_BITS) || ((so <=? b) && (b <? so + rl))).
Proof.
  intros. unfold gap_bits, gap_mask. rewrite Z.land_spec, testbit_wrap, Z.lnot_spec by lia.
  f_equal. destruct (Z.eqb_spec rl WINDOW_BITS); cbn [orb].
  - replace (u_max WINDOW_BITS) with (Z.ones WINDOW_BITS) by done.
    rewrite Z.testbit_ones by (unfold WINDOW_BITS; lia).
    destruct (Z.leb_spec 0 b), (Z.ltb_spec b WINDOW_BITS); (done || lia).
  - rewrite testbit_wrap, Z.shiftl_spec by lia.
    replace (Z.shiftl 1 rl - 1) with (Z.ones rl) by (unfold Z.ones; lia).
    rewrite Z.testbit_ones by lia.
    destruct (Z.leb_spec 0 (b - so)), (Z.leb_spec so b), (Z.ltb_spec (b - so) rl),
      (Z.ltb_spec b (so + rl)); (done || lia).
Qed.

Lemma gap_bits_bound w so rl : is_u WINDOW_BITS (gap_bits w so rl).
Proof.
  unfold gap_bits. assert (is_u WINDOW_BITS (wrap WINDOW_BITS (Z.lnot w))) as [H0 H1]
    by (apply wrap_bound; unfold WINDOW_BITS; lia).
  split; [apply Z.land_nonneg; by left|].
  apply Z.le_lt_trans with (wrap WINDOW_BITS (Z.lnot w)); [|done].
  apply Z.ldiff_le; [done|]. apply Z.bits_inj'. intros i Hi.
  rewrite Z.ldiff_spec, Z.land_spec, Z.bits_0. by destruct (Z.testbit (wrap _ _) i), (Z.testbit (gap_mask _ _) i).
Qed.

(** The top set bit, which [leading_zeros] finds. *)
Lemma top_bit g : is_u WINDOW_BITS g →
  (g = 0 ∧ 128 - leading_zeros g = 0)
  ∨ ∃ b, 0 ≤ b < WINDOW_BITS ∧ 128 - leading_zeros g = b + 1 ∧ Z.testbit g b = true
         ∧ ∀ c, b < c → Z.testbit g c = false.
Proof.
  intros [H0 H1]. unfold leading_zeros. destruct (Z.eqb_spec g 0) as [->|]; [by left|right].
  assert (0 < g) by lia. exists (Z.log2 g). pose proof (Z.log2_nonneg g).
  pose proof (proj1 (Z.log2_lt_pow2 g WINDOW_BITS ltac:(lia)) H1).
  split; [lia|]. split; [unfold WINDOW_BITS; lia|]. split; [by apply Z.bit_log2|].
  intros. by apply Z.bits_above_log2.
Qed.

(** Received, or out of the window's reach. *)
Definition accounted (recv : list Z) (d : Dedup) (q : Z) : Prop :=
  q ∈ recv ∨ q + WINDOW_SIZE ≤ next d - 1.

Lemma smallest_missing_spec recv d lower upper :
  dedup_inv recv d → next d ≠ 0 → 0 ≤ lower ≤ upper → upper ≤ next d - 1 →
  match smallest_missing_in_interval d lower upper with
  | Some p => lower < p < upper ∧ (p ∉ recv) ∧ next d - 1 - p < WINDOW_SIZE
              ∧ ∀ q, lower < q < p → accounted recv d q
  | None => ∀ q, lower < q < upper → accounted recv d q
  end.
Proof.
  intros Hd Hn Hlu Hu. pose proof Hd as [Hw Hnx Hr Hh Hbits].
  unfold smallest_missing_in_interval. rewrite (highest_eq recv d) by done.
  unfold accounted, saturating_sub. unfold u_max in Hnx.
  assert (∀ x, 0 ≤ x ≤ next d - 1 → wrapping_sub 64 (next d - 1) x = next d - 1 - x) as Hsub
    by (intros; apply wrap_small; unfold is_u; lia).
  rewrite Hsub by lia. set (so := Z.max (next d - 1 - Z.max 0 (upper - 1)) 1 - 1).
  destruct (so >=? WINDOW_BITS) eqn:Hso; zbool.
  { intros q Hq. right. unfold WINDOW_SIZE, WINDOW_BITS in *. subst so. lia. }
  set (rl := Z.min _ WINDOW_BITS). destruct (Z.eqb_spec rl 0) as [Hrl|Hrl].
  { intros q Hq. subst rl so. unfold WINDOW_BITS in *. lia. }
  assert (lower + 1 < upper) as Hgap by (subst rl so; unfold WINDOW_BITS in *; lia).
  assert (so = next d - 1 - upper) as Hso' by (subst so; lia).
  assert (rl = Z.min (upper - lower - 1) WINDOW_BITS) as Hrl' by (subst rl; lia).
  clearbody so rl. subst so.
  fold (gap_mask (next d - 1 - upper) rl). fold (gap_bits (window d) (next d - 1 - upper) rl).
  set (g := gap_bits _ _ _).
  assert (∀ q, lower < q < upper → next d - 1 - q < WINDOW_SIZE → q ∉ recv →
            Z.testbit g (next d - 2 - q) = true) as Hset.
  { intros q Hq Hin Hnot. unfold WINDOW_SIZE in Hin. unfold g.
    rewrite gap_bits_spec by (unfold WINDOW_BITS in *; lia).
    destruct (Z.testbit (window d) (next d - 2 - q)) eqn:Ht.
    - apply Hbits in Ht; [|lia]. replace (next d - 2 - (next d - 2 - q)) with q in Ht by lia.
      destruct Ht; [done|lia].
    - simpl. destruct (Z.eqb_spec rl WINDOW_BITS); [done|]. simpl. unfold WINDOW_BITS in *.
      apply andb_true_iff. rewrite Z.leb_le, Z.ltb_lt. lia. }
  destruct (top_bit g (gap_bits_bound _ _ _)) as [[Hg ->]|(b & Hb & -> & Hbit & Htop)].
  - rewrite Hsub, Z.sub_0_r by lia. destruct (Z.leb_spec (next d - 1) (Z.max 0 (upper - 1))); [lia|].
    intros q Hq. destruct (decide (q ∈ recv)); [by left|].
    destruct (decide (next d - 1 - q < WINDOW_SIZE)) as [Hin|]; [|right; lia].
    specialize (Hset q Hq Hin n). by rewrite Hg, Z.bits_0 in Hset.
  - assert (∀ q, lower < q < upper → q < next d - 2 - b → q ∈ recv ∨ q + WINDOW_SIZE ≤ next d - 1) as Hlow.
    { intros q Hq Hqb. destruct (decide (q ∈ recv)) as [|n]; [by left|].
      destruct (decide (next d - 1 - q < WINDOW_SIZE)) as [Hin|]; [|right; lia].
      specialize (Hset q Hq Hin n). by rewrite Htop in Hset by lia. }
    unfold g in Hbit. rewrite gap_bits_spec in Hbit by (unfold WINDOW_BITS in *; lia).
    apply andb_true_iff in Hbit as [Hclr Hmask]. apply negb_true_iff in Hclr.
    assert (next d - 2 - b ∉ recv) as Hnot.
    { intros Hin. assert (Z.testbit (window d) b = true) by (apply Hbits; [done|by left]). congruence. }
    assert (lower < next d - 2 - b)
      by (apply orb_true_iff in Hmask as [?|?]; zbool; unfold WINDOW_BITS in *; lia).
    rewrite Hsub by lia. destruct (Z.leb_spec (next d - 1 - (b + 1)) (Z.max 0 (upper - 1))).
    + replace (next d - 1 - (b + 1)) with (next d - 2 - b) in * by lia.
      split; [lia|split; [done|split; [unfold WINDOW_SIZE in *; lia|intros; apply Hlow; lia]]].
    + intros q Hq. apply Hlow; lia.
Qed.

(** ** Theorems *)

Lemma insert_all_spec ps : ∀ recv d, dedup_inv recv d → Forall packet_ok ps →
  dedup_inv (reverse ps ++ recv) (insert_all ps d).2
  ∧ ∀ i p, ps !! i = Some p →
      ∃ dup, (insert_all ps d).1 !! i = Some dup
      ∧ (dup = true ↔ p ∈ take i ps ++ recv ∨ ∃ q, q ∈ take i ps ++ recv ∧ p + WINDOW_SIZE ≤ q).
Proof.
  induction ps as [|x ps IH]; intros recv d Hd Hps; [done|].
  apply Forall_cons in Hps as [Hx Hps]. cbn [insert_all].
  destruct (dedup_insert_spec recv d x Hd Hx) as [Hdup Hd'].
  destruct (insert x d) as [dup d'] eqn:Hi. cbn [fst snd] in *.
  destruct (IH (x :: recv) d' Hd' Hps) as [Hend Hans].
  destruct (insert_all ps d') as [dups d''] eqn:Ha. cbn [fst snd] in *.
  rewrite reverse_cons, <-app_assoc. split; [done|].
  intros [|i] p Hp; simpl in Hp.
  - simplify_eq. exists dup. split; [done|]. rewrite Hdup. unfold maybe_duplicate. simpl.
    unfold packet_ok in Hx. split; (intros [?|?]; [by left|right]).
    + destruct (di_highest _ _ Hd); [unfold WINDOW_SIZE, WINDOW_BITS in *; lia|].
      by exists (next d - 1).
    + destruct H as (q & Hq & ?). pose proof (di_recv _ _ Hd q Hq). lia.
  - destruct (Hans i p Hp) as (b & Hb & Hiff). exists b. split; [done|]. rewrite Hiff. simpl.
    assert (∀ q, q ∈ take i ps ++ x :: recv ↔ q ∈ x :: take i ps ++ recv) as Hperm.
    { intros q. rewrite !elem_of_app, !elem_of_cons, elem_of_app. tauto. }
    rewrite Hperm. by setoid_rewrite Hperm.
Qed.

(** C8: duplicate detection is exact within its reach.  Whatever packet numbers arrive
    and in whatever order, a packet is reported as a possible duplicate if and only if
    the same number came before, or a number at least 129 above it did: no replay is ever
    let through, and a late packet is dropped only when it is out of the window. *)
Theorem dedup_exact (ps : list Z) (Hps : Forall packet_ok ps) (i : nat) (p : Z)
  (Hi : ps !! i = Some p) :
  ∃ dup, (insert_all ps new).1 !! i = Some dup
  ∧ (dup = true ↔ p ∈ take i ps ∨ ∃ q, q ∈ take i ps ∧ p + WINDOW_SIZE ≤ q).
Proof.
  destruct (insert_all_spec ps [] new dedup_inv_new Hps) as [_ H].
  specialize (H i p Hi). by rewrite app_nil_r in H.
Qed.

Lemma dedup_exact_witness :
  ∃ dup, (insert_all [0; 5; 200; 3; 150; 5] new).1 !! 3%nat = Some dup
  ∧ (dup = true ↔ 3 ∈ [0; 5; 200] ∨ ∃ q, q ∈ [0; 5; 200] ∧ 3 + WINDOW_SIZE ≤ q).
Proof.
  apply (dedup_exact [0; 5; 200; 3; 150; 5]); [|done].
  repeat (constructor; [unfold packet_ok, u_max; lia|]). constructor.
Defined.

(** The search for a gap is exact within the window.  After any packets [ps], for an
    interval that ends at or below the highest one, the result is the smallest number
    strictly inside that has not arrived and is less than 129 below the highest; there is no
    result only if every number inside has arrived or is out of the window. *)
Theorem dedup_gap_exact (ps : list Z) (Hps : Forall packet_ok ps) (lower upper h : Z)
  (Hlu : 0 ≤ lower ≤ upper) (Hh : h ∈ ps) (Hmax : ∀ q, q ∈ ps → q ≤ h) (Hu : upper ≤ h) :
  match smallest_missing_in_interval (insert_all ps new).2 lower upper with
  | Some p => lower < p < upper ∧ (p ∉ ps) ∧ h - p < WINDOW_SIZE
              ∧ ∀ q, lower < q < p → q ∈ ps ∨ WINDOW_SIZE ≤ h - q
  | None => ∀ q, lower < q < upper → q ∈ ps ∨ WINDOW_SIZE ≤ h - q
  end.
Proof.
  destruct (insert_all_spec ps [] new dedup_inv_new Hps) as [Hd _]. rewrite app_nil_r in Hd.
  set (d := (insert_all ps new).2) in *.
  assert (next d - 1 = h) as <-.
  { pose proof (di_recv _ _ Hd h) as Hr. rewrite elem_of_reverse in Hr. specialize (Hr Hh).
    destruct (di_highest _ _ Hd) as [?|Hin]; [lia|]. rewrite elem_of_reverse in Hin.
    specialize (Hmax _ Hin). lia. }
  pose proof (smallest_missing_spec _ d lower upper Hd ltac:(lia) Hlu Hu) as Hs.
  unfold accounted in Hs. destruct (smallest_missing_in_interval d lower upper) as [p|].
  - destruct Hs as (? & Hnot & ? & Hq). rewrite elem_of_reverse in Hnot. do 3 (split; [done|]).
    intros q Hin. destruct (Hq q Hin) as [Hq'|?]; [left; by rewrite elem_of_reverse in Hq'|right; lia].
  - intros q Hin. destruct (Hs q Hin) as [Hq'|?]; [left; by rewrite elem_of_reverse in Hq'|right; lia].
Qed.

Lemma dedup_gap_exact_witness :
  match smallest_missing_in_interval (insert_all [0; 1; 4; 2; 9; 7] new).2 1 7 with
  | Some p => 1 < p < 7 ∧ (p ∉ [0; 1; 4; 2; 9; 7]) ∧ 9 - p < WINDOW_SIZE
              ∧ ∀ q, 1 < q < p → q ∈ [0; 1; 4; 2; 9; 7] ∨ WINDOW_SIZE ≤ 9 - q
  | None => ∀ q, 1 < q < 7 → q ∈ [0; 1; 4; 2; 9; 7] ∨ WINDOW_SIZE ≤ 9 - q
  end.
Proof.
  apply (dedup_gap_exact [0; 1; 4; 2; 9; 7]).
  - repeat (constructor; [unfold packet_ok, u_max; lia|]). constructor.
  - lia.
  - by apply (bool_decide_unpack _).
  - intros q. rewrite !elem_of_cons, elem_of_nil. lia.
  - lia.
Defined.

End Dedup.
