(* ===== verification/Spaces.v ===== *)
(** * Packet number spaces

    Models the rest of [src/connection/spaces.rs]: [PendingAcks] (which packets to
    acknowledge, and when), the accounting of sent packets in [PacketSpace],
    [PacketNumberFilter] and ECN validation, and [AckFrequencyState] of
    [src/connection/ack_frequency.rs], which sets their thresholds.

    Instants and durations are nanoseconds.  What a sent packet would retransmit is
    carried along but not inspected by these operations: it is a type parameter. *)

From Stdlib Require Import String.
From S2P Require Import Prelude BTree RangeSets QuicPacket Dedup.

Module PendingAcks.
Import Dedup.

Definition MAX_ACK_BLOCKS : Z := 64.
Definition LAZY_ACK_THRESHOLD : Z := 10.

Record PendingAcks := mk_pending_acks {
  immediate_ack_required : bool;
  ack_eliciting_since_last_ack_sent : Z;
  non_ack_eliciting_since_last_ack_sent : Z;
  ack_eliciting_threshold : Z;
  reordering_threshold : Z;
  earliest_ack_eliciting_since_last_ack_sent : option Z;
  ranges : list range;
  largest_packet : option (Z * Z);
  largest_ack_eliciting_packet : option Z;
  largest_acked : option Z
}.

Definition new : PendingAcks := mk_pending_acks false 0 0 1 1 None ArrayRangeSet.new None None None.

Definition set_ack_frequency_params (eliciting_threshold reordering : Z) (pa : PendingAcks) : PendingAcks :=
  mk_pending_acks (immediate_ack_required pa) (ack_eliciting_since_last_ack_sent pa)
    (non_ack_eliciting_since_last_ack_sent pa) eliciting_threshold reordering
    (earliest_ack_eliciting_since_last_ack_sent pa) (ranges pa) (largest_packet pa)
    (largest_ack_eliciting_packet pa) (largest_acked pa).

Definition with_immediate (b : bool) (pa : PendingAcks) : PendingAcks :=
  mk_pending_acks b (ack_eliciting_since_last_ack_sent pa) (non_ack_eliciting_since_last_ack_sent pa)
    (ack_eliciting_threshold pa) (reordering_threshold pa) (earliest_ack_eliciting_since_last_ack_sent pa)
    (ranges pa) (largest_packet pa) (largest_ack_eliciting_packet pa) (largest_acked pa).

Definition set_immediate_ack_required (pa : PendingAcks) : PendingAcks := with_immediate true pa.

Definition on_max_ack_delay_timeout (pa : PendingAcks) : PendingAcks :=
  with_immediate (ack_eliciting_since_last_ack_sent pa >? 0) pa.

Definition max_ack_delay_timeout (pa : PendingAcks) (max_ack_delay : Z) : option Z :=
  (λ earliest_unacked, earliest_unacked + max_ack_delay) <$> earliest_ack_eliciting_since_last_ack_sent pa.

Definition can_send (pa : PendingAcks) : bool :=
  immediate_ack_required pa && negb (ArrayRangeSet.is_empty (ranges pa)).

(** The subtraction of instants saturates. *)
Definition ack_delay (pa : PendingAcks) (now : Z) : Z :=
  match largest_packet pa with Some (_, received) => saturating_sub now received | None => 0 end.

Definition is_out_of_order (pa : PendingAcks) (packet_number prev_largest_ack_eliciting : Z) (dedup : Dedup) : bool :=
  if reordering_threshold pa =? 0 then false
  else if reordering_threshold pa =? 1 then
    (packet_number <? prev_largest_ack_eliciting)
    || missing_in_interval dedup prev_largest_ack_eliciting packet_number
  else
    match largest_acked pa, largest_ack_eliciting_packet pa with
    | Some largest_acked, Some largest_unacked =>
      if reordering_threshold pa >? largest_acked then false
      else
        let largest_reported := largest_acked - reordering_threshold pa + 1 in
        match smallest_missing_in_interval dedup largest_reported largest_unacked with
        | None => false
        | Some smallest_missing_unreported =>
          largest_unacked - smallest_missing_unreported >=? reordering_threshold pa
        end
    | _, _ => false
    end.

Definition packet_received (now packet_number : Z) (ack_eliciting : bool) (dedup : Dedup) (pa : PendingAcks)
  : bool * PendingAcks :=
  if negb ack_eliciting then
    (false, mk_pending_acks (immediate_ack_required pa) (ack_eliciting_since_last_ack_sent pa)
       (wrapping_add 64 (non_ack_eliciting_since_last_ack_sent pa) 1)
       (ack_eliciting_threshold pa) (reordering_threshold pa) (earliest_ack_eliciting_since_last_ack_sent pa)
       (ranges pa) (largest_packet pa) (largest_ack_eliciting_packet pa) (largest_acked pa))
  else
    let prev_largest_ack_eliciting := default 0 (largest_ack_eliciting_packet pa) in
    let largest := match largest_ack_eliciting_packet pa with
                   | Some pn => Z.max pn packet_number
                   | None => packet_number
                   end in
    let count := wrapping_add 64 (ack_eliciting_since_last_ack_sent pa) 1 in
    let pa := mk_pending_acks (immediate_ack_required pa || (count >? ack_eliciting_threshold pa)) count
       (non_ack_eliciting_since_last_ack_sent pa) (ack_eliciting_threshold pa) (reordering_threshold pa)
       (earliest_ack_eliciting_since_last_ack_sent pa) (ranges pa) (largest_packet pa)
       (Some largest) (largest_acked pa) in
    let pa := with_immediate
       (immediate_ack_required pa || is_out_of_order pa packet_number prev_largest_ack_eliciting dedup) pa in
    match earliest_ack_eliciting_since_last_ack_sent pa with
    | None =>
      if negb (can_send pa) then
        (true, mk_pending_acks (immediate_ack_required pa) (ack_eliciting_since_last_ack_sent pa)
           (non_ack_eliciting_since_last_ack_sent pa) (ack_eliciting_threshold pa) (reordering_threshold pa)
           (Some now) (ranges pa) (largest_packet pa) (largest_ack_eliciting_packet pa) (largest_acked pa))
      else (false, pa)
    | Some _ => (false, pa)
    end.

Definition acks_sent (pa : PendingAcks) : PendingAcks :=
  mk_pending_acks false 0 0 (ack_eliciting_threshold pa) (reordering_threshold pa) None (ranges pa)
    (largest_packet pa) (largest_ack_eliciting_packet pa) (largest_ack_eliciting_packet pa).

Definition with_ranges (l : list range) (lp : option (Z * Z)) (pa : PendingAcks) : PendingAcks :=
  mk_pending_acks (immediate_ack_required pa) (ack_eliciting_since_last_ack_sent pa)
    (non_ack_eliciting_since_last_ack_sent pa) (ack_eliciting_threshold pa) (reordering_threshold pa)
    (earliest_ack_eliciting_since_last_ack_sent pa) l lp (largest_ack_eliciting_packet pa) (largest_acked pa).

Definition insert_one (packet now : Z) (pa : PendingAcks) : PendingAcks :=
  let l := (ArrayRangeSet.insert_one packet (ranges pa)).2 in
  let lp := match largest_packet pa with
            | Some (pn, _) => if packet >? pn then Some (packet, now) else largest_packet pa
            | None => Some (packet, now)
            end in
  with_ranges (if zlen l >? MAX_ACK_BLOCKS then (ArrayRangeSet.pop_min l).2 else l) lp pa.

Definition subtract_below (max : Z) (pa : PendingAcks) : PendingAcks :=
  with_ranges (ArrayRangeSet.remove (0, wrapping_add 64 max 1) (ranges pa)).2 (largest_packet pa) pa.

Definition maybe_ack_non_eliciting (pa : PendingAcks) : PendingAcks :=
  if non_ack_eliciting_since_last_ack_sent pa >? LAZY_ACK_THRESHOLD then with_immediate true pa else pa.

(** ** What the set of ranges forgets *)

Lemma wrapping_succ p : packet_ok p → wrapping_add 64 p 1 = p + 1.
Proof. unfold packet_ok, wrapping_add, u_max. intros. apply wrap_small. unfold is_u. lia. Qed.

(** Inserting one packet adds at most one block. *)
Lemma merge_next_length s e tl : (length (ArrayRangeSet.merge_next s e tl) ≤ S (length tl))%nat.
Proof.
  revert s e. induction tl as [|[ns ne] tl IH]; intros s e; simpl; [lia|].
  case_goal; simpl; [|lia]. specialize (IH s (Z.max ne e)). lia.
Qed.

Lemma insert_loop_length x l : ∀ res, (length (ArrayRangeSet.insert_loop x res l).2 ≤ S (length l))%nat.
Proof.
  induction l as [|[s e] l IH]; intros res; simpl; [lia|].
  destruct (s >? x.2); simpl; [lia|]. destruct (s >? x.1); (destruct (x.2 <=? e); simpl; [lia|]).
  all: destruct (x.1 <=? e); simpl; [|].
  1: pose proof (merge_next_length x.1 x.2 l); lia.
  2: pose proof (merge_next_length s x.2 l); lia.
  1: specialize (IH true); destruct (ArrayRangeSet.insert_loop x true l); simpl in *; lia.
  specialize (IH res). destruct (ArrayRangeSet.insert_loop x res l). simpl in *. lia.
Qed.

Lemma insert_one_blocks p l : zlen (ArrayRangeSet.insert_one p l).2 ≤ zlen l + 1.
Proof.
  unfold ArrayRangeSet.insert_one, ArrayRangeSet.insert, zlen. case_goal; simpl; [lia|].
  pose proof (insert_loop_length (p, wrapping_add 64 p 1) l false). lia.
Qed.

(** The effect on the set, from any canonical set within the limit. *)
Lemma insert_one_spec p now pa : wf (ranges pa) → zlen (ranges pa) ≤ MAX_ACK_BLOCKS → packet_ok p →
  let l' := ranges (insert_one p now pa) in
  wf l' ∧ zlen l' ≤ MAX_ACK_BLOCKS
  ∧ (∀ y, mem y l' → mem y (ranges pa) ∨ y = p)
  ∧ (∀ y, mem y (ranges pa) ∨ y = p → ¬ mem y l' → zlen l' = MAX_ACK_BLOCKS ∧ ∀ z, mem z l' → y < z).
Proof.
  intros Hwf Hlen Hp. unfold insert_one. cbn [ranges with_ranges].
  destruct (insert_spec (p, p + 1) (ranges pa) (-1)) as (Hw & Hm & _);
    [unfold packet_ok in *; simpl; lia|done|].
  pose proof (insert_one_blocks p (ranges pa)) as Hbl.
  unfold ArrayRangeSet.insert_one in *. rewrite wrapping_succ in * by done.
  set (l := (ArrayRangeSet.insert (p, p + 1) (ranges pa)).2) in *.
  assert (∀ y, mem y l ↔ mem y (ranges pa) ∨ y = p) as Hl
    by (intros y; rewrite Hm, in_range_one; tauto).
  destruct (zlen l >? MAX_ACK_BLOCKS) eqn:Hgt; zbool.
  - destruct l as [|[s e] l']; [unfold zlen, MAX_ACK_BLOCKS in *; simpl in *; lia|].
    rewrite zlen_cons in *. destruct Hw as (? & ? & Hw). cbn [ArrayRangeSet.pop_min snd].
    split; [by apply (canon_weaken e); [lia|]|]. split; [lia|].
    split; [intros y ?; apply Hl; by right|].
    intros y Hy Hnot. split; [lia|]. intros z Hz. apply (canon_mem_gt e) in Hz; [|done].
    apply Hl in Hy as [?|?]; [lia|done].
  - split; [done|]. split; [done|]. split; [intros y; apply Hl|].
    intros y Hy Hnot. by apply Hl in Hy.
Qed.

(** Removing an initial segment adds none. *)
Lemma remove_loop_length e l : ∀ res lo, -1 ≤ lo → canon lo l →
  zlen (ArrayRangeSet.remove_loop (0, e) res l).2 ≤ zlen l.
Proof.
  induction l as [|[s t] l IH]; intros res lo Hlo Hl; [done|].
  destruct Hl as (? & ? & Hl). cbn [ArrayRangeSet.remove_loop fst snd].
  destruct (0 =? e); [done|]. destruct (e <=? s); [done|]. destruct (0 >=? t) eqn:?; zbool; [lia|].
  specialize (IH true t ltac:(lia) Hl). destruct (ArrayRangeSet.remove_loop (0, e) true l) as [b l'].
  unfold range_is_empty. cbn [fst snd] in *. rewrite (proj2 (Z.ltb_ge s 0)) by lia.
  destruct (e <? t); cbn [negb andb fst snd]; rewrite ?zlen_cons; lia.
Qed.

Lemma subtract_below_spec m pa : wf (ranges pa) → packet_ok m →
  let l' := ranges (subtract_below m pa) in
  wf l' ∧ zlen l' ≤ zlen (ranges pa) ∧ ∀ y, mem y l' ↔ mem y (ranges pa) ∧ m < y.
Proof.
  intros Hwf Hm. unfold subtract_below. cbn [ranges with_ranges]. rewrite wrapping_succ by done.
  destruct (remove_spec (0, m + 1) (ranges pa) (-1) Hwf) as (Hw & Hmem & _).
  split; [done|]. split.
  - unfold ArrayRangeSet.remove. case_goal; [done|].
    by apply (remove_loop_length (m + 1) (ranges pa) false (-1)).
  - intros y. rewrite Hmem. unfold in_range. simpl. split; [intros [Hy ?]; split; [done|]|intuition lia].
    pose proof (canon_mem_gt _ _ _ Hwf Hy). lia.
Qed.

(** ** A packet number space receiving packets

    The events that reach the receiving half of a space, in any order a peer can
    cause.  [Authenticated] is the path of every decrypted packet: the duplicate
    check, and for a new packet the entry into the ACK ranges.  [Received] comes once
    the frames of an authenticated packet have been processed.  The ghost list holds
    the numbers authenticated so far. *)

Record rx_state := mk_rx { rx_dedup : Dedup; rx_acks : PendingAcks; rx_recv : list Z }.

Inductive rx_event :=
| Authenticated (p now : Z)
| Received (p now : Z) (ack_eliciting : bool)
| AcksSent
| AckAcked (max : Z)
| AckFrequencyParams (threshold reordering : Z)
| ImmediateAck
| MaxAckDelayTimeout
| MaybeAckNonEliciting.

Definition rx_event_ok (st : rx_state) (e : rx_event) : Prop :=
  match e with
  | Authenticated p _ => packet_ok p
  | Received p _ _ => p ∈ rx_recv st
  | AckAcked m => packet_ok m
  | AckFrequencyParams t r => 0 ≤ t ∧ 0 ≤ r
  | _ => True
  end.

Definition on_acks (f : PendingAcks → PendingAcks) (st : rx_state) : rx_state :=
  mk_rx (rx_dedup st) (f (rx_acks st)) (rx_recv st).

Definition rx_step (e : rx_event) (st : rx_state) : rx_state :=
  match e with
  | Authenticated p now =>
    let '(dup, d) := insert p (rx_dedup st) in
    mk_rx d (if dup then rx_acks st else insert_one p now (rx_acks st)) (p :: rx_recv st)
  | Received p now ae => on_acks (λ pa, (packet_received now p ae (rx_dedup st) pa).2) st
  | AcksSent => on_acks acks_sent st
  | AckAcked m => on_acks (subtract_below m) st
  | AckFrequencyParams t r => on_acks (set_ack_frequency_params t r) st
  | ImmediateAck => on_acks set_immediate_ack_required st
  | MaxAckDelayTimeout => on_acks on_max_ack_delay_timeout st
  | MaybeAckNonEliciting => on_acks maybe_ack_non_eliciting st
  end.

Definition rx_init : rx_state := mk_rx Dedup.new new [].

Inductive rx_reachable : rx_state → Prop :=
| rx_reachable_init : rx_reachable rx_init
| rx_reachable_step e st : rx_reachable st → rx_event_ok st e → rx_reachable (rx_step e st).

(** What holds of the ACK state alone, given the packets authenticated. *)
Record acks_inv (recv : list Z) (pa : PendingAcks) : Prop := {
  ai_wf : wf (ranges pa);
  ai_blocks : zlen (ranges pa) ≤ MAX_ACK_BLOCKS;
  ai_recv : ∀ y, mem y (ranges pa) → y ∈ recv;
  ai_largest : match largest_packet pa with
               | Some (p, _) => p ∈ recv ∧ ∀ q, q ∈ recv → q ≤ p
               | None => recv = []
               end;
  ai_eliciting : ∀ q, largest_ack_eliciting_packet pa = Some q → q ∈ recv;
  ai_acked : ∀ a, largest_acked pa = Some a → ∃ q, largest_ack_eliciting_packet pa = Some q ∧ a ≤ q;
  ai_pending : 0 < ack_eliciting_since_last_ack_sent pa →
    is_Some (earliest_ack_eliciting_since_last_ack_sent pa) ∨ immediate_ack_required pa = true;
  ai_reordering : 0 ≤ reordering_threshold pa
}.

Lemma acks_inv_new : acks_inv [] new.
Proof. split; simpl; try done. Qed.

(** The largest ack-eliciting packet once [p] has been counted. *)
Definition eliciting_max (pa : PendingAcks) (p : Z) : Z :=
  match largest_ack_eliciting_packet pa with Some pn => Z.max pn p | None => p end.

(** The state in which [is_out_of_order] looks at an ack-eliciting packet. *)
Definition counted (pa : PendingAcks) (p : Z) : PendingAcks :=
  let count := wrapping_add 64 (ack_eliciting_since_last_ack_sent pa) 1 in
  mk_pending_acks (immediate_ack_required pa || (count >? ack_eliciting_threshold pa)) count
    (non_ack_eliciting_since_last_ack_sent pa) (ack_eliciting_threshold pa) (reordering_threshold pa)
    (earliest_ack_eliciting_since_last_ack_sent pa) (ranges pa) (largest_packet pa)
    (Some (eliciting_max pa p)) (largest_acked pa).

Lemma packet_received_eliciting pa p now d :
  let pa' := (packet_received now p true d pa).2 in
  ranges pa' = ranges pa ∧ largest_packet pa' = largest_packet pa
  ∧ largest_ack_eliciting_packet pa' = Some (eliciting_max pa p)
  ∧ largest_acked pa' = largest_acked pa ∧ reordering_threshold pa' = reordering_threshold pa
  ∧ immediate_ack_required pa' = (immediate_ack_required (counted pa p)
      || is_out_of_order (counted pa p) p (default 0 (largest_ack_eliciting_packet pa)) d)
  ∧ (is_Some (earliest_ack_eliciting_since_last_ack_sent pa') ∨ immediate_ack_required pa' = true).
Proof.
  unfold packet_received. cbn [negb]. fold (eliciting_max pa p). fold (counted pa p).
  set (pa1 := with_immediate _ _).
  change (earliest_ack_eliciting_since_last_ack_sent pa1) with (earliest_ack_eliciting_since_last_ack_sent pa).
  destruct (earliest_ack_eliciting_since_last_ack_sent pa) eqn:He.
  - cbn [snd]. repeat (split; [done|]). left.
    change (is_Some (earliest_ack_eliciting_since_last_ack_sent pa)). by rewrite He.
  - destruct (can_send pa1) eqn:Hc; cbn [negb snd]; repeat (split; [done|]); [right|by left].
    unfold can_send in Hc. by apply andb_true_iff in Hc as [? _].
Qed.

Lemma packet_received_inv recv pa p now ae d : acks_inv recv pa → p ∈ recv →
  acks_inv recv (packet_received now p ae d pa).2.
Proof.
  intros [] Hp. destruct ae; [|by split].
  destruct (packet_received_eliciting pa p now d) as (Hr & Hl & He & Ha & Ht & _ & Hpend).
  unfold eliciting_max in He.
  split; rewrite ?Hr, ?Hl, ?He, ?Ha, ?Ht; try done.
  - intros q [= <-]. destruct (largest_ack_eliciting_packet pa) as [z|] eqn:Hz; [|done].
    destruct (Z.max_spec z p) as [[_ ->]|[_ ->]]; [done|by apply ai_eliciting0].
  - intros a Hq. destruct (ai_acked0 a Hq) as (q & -> & ?). eexists. split; [done|lia].
Qed.

Lemma authenticated_inv recv d pa p now : dedup_inv recv d → acks_inv recv pa → packet_ok p →
  acks_inv (p :: recv) (if (insert p d).1 then pa else insert_one p now pa).
Proof.
  intros Hd Ha Hp. destruct (Dedup.dedup_insert_spec recv d p Hd Hp) as [Hdup _]. destruct Ha.
  assert (∀ q, q ∈ recv → q ∈ p :: recv) as Hsub by (intros; by apply list_elem_of_further).
  destruct (insert p d).1.
  - split; try done; [by eauto| |by eauto].
    assert (∃ q, q ∈ recv ∧ p ≤ q) as (q & Hq & Hle).
    { destruct (proj1 Hdup eq_refl) as [?|?]; [by exists p|].
      unfold packet_ok, WINDOW_SIZE, WINDOW_BITS in *. destruct (di_highest _ _ Hd); [lia|].
      exists (next d - 1). split; [done|lia]. }
    destruct (largest_packet pa) as [[h t]|]; [|subst; by apply not_elem_of_nil in Hq].
    destruct ai_largest0 as [? Hmax]. split; [by eauto|].
    intros q' [->|?]%elem_of_cons; [specialize (Hmax q Hq); lia|auto].
  - destruct (insert_one_spec p now pa ai_wf0 ai_blocks0 Hp) as (? & ? & Hm & _).
    split; try done; [| |by eauto].
    + intros y Hy. destruct (Hm y Hy) as [?| ->]; [by eauto|apply list_elem_of_here].
    + unfold insert_one. cbn [largest_packet with_ranges].
      destruct (largest_packet pa) as [[h t]|].
      * destruct ai_largest0 as [? Hmax]. destruct (p >? h) eqn:?; zbool.
        -- split; [apply list_elem_of_here|]. intros q [->|Hq]%elem_of_cons; [done|].
           specialize (Hmax q Hq). lia.
        -- split; [by eauto|]. intros q [->|Hq]%elem_of_cons; auto.
      * subst. split; [apply list_elem_of_here|]. intros q [->|Hq]%elem_of_cons; [done|].
        by apply not_elem_of_nil in Hq.
Qed.

Lemma rx_inv st : rx_reachable st → dedup_inv (rx_recv st) (rx_dedup st) ∧ acks_inv (rx_recv st) (rx_acks st).
Proof.
  induction 1 as [|e st _ [Hd Ha] Hok]; [split; [apply dedup_inv_new|apply acks_inv_new]|].
  destruct e; simpl in *.
  - destruct (Dedup.dedup_insert_spec _ _ p Hd Hok) as [_ Hd'].
    pose proof (authenticated_inv _ _ _ p now Hd Ha Hok) as Ha'.
    destruct (insert p (rx_dedup st)) as [dup d]. by split.
  - split; [done|]. by apply packet_received_inv.
  - split; [done|]. destruct Ha. split; try done. simpl. intros a ->. exists a. split; [done|lia].
  - split; [done|]. destruct Ha. destruct (subtract_below_spec max (rx_acks st) ai_wf0 Hok) as (? & ? & Hm).
    split; try done; [lia|]. intros y Hy. apply ai_recv0. by apply Hm.
  - split; [done|]. destruct Ha. split; try done. simpl. lia.
  - split; [done|]. destruct Ha. split; try done. by right.
  - split; [done|]. destruct Ha. split; try done. simpl. intros Hc. right. by apply Z.gtb_lt.
  - split; [done|]. destruct Ha. unfold maybe_ack_non_eliciting. simpl. case_goal; [|by split].
    split; try done. by right.
Qed.

(** ** Reordering *)

(** [q] has not arrived and is recent enough to be told missing; [h] is the highest
    packet that has. *)
Definition missing (recv : list Z) (h q : Z) : Prop := (q ∉ recv) ∧ h - q < WINDOW_SIZE.

(** When a packet [p] calls for an immediate ACK because of reordering: under RFC 9000
    if it is below the largest ack-eliciting packet [prev] before it or leaves a gap
    above it, under the ACK frequency draft if a gap not yet reported is at least the
    threshold below the largest ack-eliciting packet [u]. *)
Definition reordered (recv : list Z) (h : Z) (threshold p prev u : Z) (acked : option Z) : Prop :=
  (threshold = 1 ∧ (p < prev ∨ ∃ q, prev < q < p ∧ missing recv h q))
  ∨ (1 < threshold ∧ ∃ a q, acked = Some a ∧ threshold ≤ a ∧ a - threshold + 1 < q
       ∧ q + threshold ≤ u ∧ missing recv h q).

Lemma smallest_missing_iff recv d lower upper : dedup_inv recv d → next d ≠ 0 →
  0 ≤ lower ≤ upper → upper ≤ next d - 1 →
  match smallest_missing_in_interval d lower upper with
  | Some m => lower < m < upper ∧ missing recv (next d - 1) m
              ∧ ∀ q, lower < q < upper → missing recv (next d - 1) q → m ≤ q
  | None => ∀ q, lower < q < upper → ¬ missing recv (next d - 1) q
  end.
Proof.
  intros Hd Hn Hlu Hu. pose proof (smallest_missing_spec recv d lower upper Hd Hn Hlu Hu) as Hs.
  unfold accounted, missing in *. destruct (smallest_missing_in_interval d lower upper) as [m|].
  - destruct Hs as (? & ? & ? & Hq). split; [done|]. split; [done|].
    intros q Hin [Hnot Hw]. destruct (decide (m ≤ q)) as [|Hlt]; [done|].
    destruct (Hq q ltac:(lia)); [done|lia].
  - intros q Hin [Hnot Hw]. destruct (Hs q Hin); [done|lia].
Qed.

Lemma is_out_of_order_spec recv d pa p : dedup_inv recv d → acks_inv recv pa → p ∈ recv →
  let prev := default 0 (largest_ack_eliciting_packet pa) in
  is_out_of_order (counted pa p) p prev d = true
  ↔ reordered recv (next d - 1) (reordering_threshold pa) p prev (eliciting_max pa p) (largest_acked pa).
Proof.
  intros Hd Ha Hp prev. pose proof (di_recv _ _ Hd) as Hr. pose proof (Hr p Hp).
  assert (0 ≤ prev ≤ next d - 1) as Hprev.
  { subst prev. destruct (largest_ack_eliciting_packet pa) as [q|] eqn:Hq; simpl; [|lia].
    pose proof (Hr q (ai_eliciting _ _ Ha q Hq)). lia. }
  pose proof (ai_reordering _ _ Ha). unfold is_out_of_order, reordered.
  cbn [counted reordering_threshold largest_acked largest_ack_eliciting_packet].
  destruct (Z.eqb_spec (reordering_threshold pa) 0); [split; [done|lia]|].
  destruct (Z.eqb_spec (reordering_threshold pa) 1) as [H1|H1].
  - rewrite orb_true_iff, Z.ltb_lt. unfold missing_in_interval.
    destruct (decide (p < prev)); [tauto|].
    pose proof (smallest_missing_iff recv d prev p Hd ltac:(lia) ltac:(lia) ltac:(lia)) as Hs.
    destruct (smallest_missing_in_interval d prev p) as [m|].
    + destruct Hs as (? & ? & _). split; [intros _; left; split; [done|right; by exists m]|by right].
    + split; [intros [?|?]; done|]. intros [[_ [?|(q & Hq & Hm)]]|?]; [by left| |lia]. by destruct (Hs q Hq).
  - destruct (largest_acked pa) as [a|] eqn:Hac.
    2: { split; [done|]. intros [?|(_ & a & q & ? & _)]; [lia|done]. }
    destruct (ai_acked _ _ Ha a Hac) as (w & Hw & Haw).
    assert (eliciting_max pa p = Z.max w p) as -> by (unfold eliciting_max; by rewrite Hw).
    pose proof (Hr w (ai_eliciting _ _ Ha w Hw)).
    destruct (reordering_threshold pa >? a) eqn:Hthr; zbool.
    { split; [done|]. intros [?|(_ & a' & q & [= <-] & ? & _)]; lia. }
    pose proof (smallest_missing_iff recv d (a - reordering_threshold pa + 1) (Z.max w p) Hd
      ltac:(lia) ltac:(lia) ltac:(lia)) as Hs.
    destruct (smallest_missing_in_interval d _ _) as [m|].
    + destruct Hs as (? & ? & Hmin). rewrite Z.geb_le. split.
      * intros. right. split; [lia|]. exists a, m. repeat (split; [(done || lia)|]). done.
      * intros [?|(_ & a' & q & [= <-] & ? & ? & ? & Hm)]; [lia|]. specialize (Hmin q ltac:(lia) Hm). lia.
    + split; [done|]. intros [?|(_ & a' & q & [= <-] & ? & ? & ? & Hm)]; [lia|].
      by destruct (Hs q ltac:(lia)).
Qed.

(** ** Theorems *)

(** What a space acknowledges.  In every reachable state the ACK ranges are sorted,
    disjoint and at most 64, they hold only authenticated packets, and the packet used for
    the ACK delay is the largest one authenticated.  Entering a packet adds it and nothing
    else, and drops packets only when there would be more than 64 ranges: then 64 remain and
    what is dropped lies below all of them. *)
Theorem pending_acks_sound (st : rx_state) (Hst : rx_reachable st) :
  let l := ranges (rx_acks st) in
  wf l ∧ zlen l ≤ MAX_ACK_BLOCKS ∧ (∀ y, mem y l → y ∈ rx_recv st)
  ∧ match largest_packet (rx_acks st) with
    | Some (p, _) => p ∈ rx_recv st ∧ ∀ q, q ∈ rx_recv st → q ≤ p
    | None => rx_recv st = []
    end
  ∧ ∀ p now, packet_ok p →
      let l' := ranges (insert_one p now (rx_acks st)) in
      (∀ y, mem y l' → mem y l ∨ y = p)
      ∧ (∀ y, mem y l ∨ y = p → ¬ mem y l' → zlen l' = MAX_ACK_BLOCKS ∧ ∀ z, mem z l' → y < z).
Proof.
  destruct (rx_inv st Hst) as [_ []]. do 4 (split; [done|]). intros p now Hp.
  by destruct (insert_one_spec p now (rx_acks st) ai_wf0 ai_blocks0 Hp) as (_ & _ & ? & ?).
Qed.

(** The state after some events, for the witnesses. *)
Fixpoint rx_run (es : list rx_event) (st : rx_state) : rx_state :=
  match es with [] => st | e :: es => rx_run es (rx_step e st) end.

Fixpoint rx_run_ok (es : list rx_event) (st : rx_state) : Prop :=
  match es with [] => True | e :: es => rx_event_ok st e ∧ rx_run_ok es (rx_step e st) end.

Lemma rx_run_reachable es : ∀ st, rx_reachable st → rx_run_ok es st → rx_reachable (rx_run es st).
Proof.
  induction es as [|e es IH]; intros st Hst; simpl; [done|]. intros [? ?]. apply IH; [|done].
  by constructor.
Qed.

Definition sample_events : list rx_event :=
  [Authenticated 0 10; Received 0 11 true; Authenticated 1 20; Received 1 21 true; AcksSent;
   Authenticated 4 30].

Lemma sample_rx_reachable : rx_reachable (rx_run sample_events rx_init).
Proof.
  apply rx_run_reachable; [constructor|]. unfold sample_events. cbn [rx_run_ok rx_event_ok].
  repeat split; try (unfold packet_ok, u_max; lia); vm_compute; repeat constructor.
Defined.

Lemma pending_acks_sound_witness :
  zlen (ranges (rx_acks (rx_run sample_events rx_init))) ≤ MAX_ACK_BLOCKS
  ∧ ∀ y, mem y (ranges (rx_acks (rx_run sample_events rx_init))) → y ∈ [4; 1; 0].
Proof. destruct (pending_acks_sound _ sample_rx_reachable) as (_ & ? & ? & _). by split. Defined.

(** No acknowledgement is forgotten.  In every reachable state with an ack-eliciting
    packet counted since the last ACK, an ACK is required at once or the delay timer has a
    deadline, and when the timer fires an ACK can be sent if there is anything to acknowledge. *)
Theorem ack_not_forgotten (st : rx_state) (Hst : rx_reachable st) (max_ack_delay : Z)
  (Hc : 0 < ack_eliciting_since_last_ack_sent (rx_acks st)) :
  (immediate_ack_required (rx_acks st) = true ∨ is_Some (max_ack_delay_timeout (rx_acks st) max_ack_delay))
  ∧ (ranges (rx_acks st) ≠ [] → can_send (on_max_ack_delay_timeout (rx_acks st)) = true).
Proof.
  destruct (rx_inv st Hst) as [_ Ha]. split.
  - destruct (ai_pending _ _ Ha Hc); [right|by left]. unfold max_ack_delay_timeout. by apply fmap_is_Some.
  - intros Hne. unfold can_send, on_max_ack_delay_timeout. cbn [immediate_ack_required ranges with_immediate].
    rewrite (proj2 (Z.gtb_lt _ _)) by lia. by destruct (ranges (rx_acks st)).
Qed.

Lemma ack_not_forgotten_witness :
  let st := rx_run [Authenticated 0 10; Received 0 11 true] rx_init in
  immediate_ack_required (rx_acks st) = true ∨ is_Some (max_ack_delay_timeout (rx_acks st) 25000000).
Proof.
  apply (ack_not_forgotten (rx_run [Authenticated 0 10; Received 0 11 true] rx_init)); [|by vm_compute].
  apply rx_run_reachable; [constructor|]. cbn [rx_run_ok rx_event_ok].
  repeat split; try (unfold packet_ok, u_max; lia); vm_compute; repeat constructor.
Defined.

(** When an ACK is sent at once.  In every reachable state, an ack-eliciting packet
    makes an immediate ACK required exactly if one already was, or the count of such packets
    passes the threshold, or the packet is reordered: below the largest before it or above a
    gap (threshold 1), or with an unreported gap at least the threshold below (larger ones). *)
Theorem immediate_ack_exact (st : rx_state) (Hst : rx_reachable st) (p now : Z) (Hp : p ∈ rx_recv st) :
  let pa := rx_acks st in
  let h := next (rx_dedup st) - 1 in
  h ∈ rx_recv st ∧ (∀ q, q ∈ rx_recv st → q ≤ h)
  ∧ (immediate_ack_required (packet_received now p true (rx_dedup st) pa).2 = true
     ↔ immediate_ack_required pa = true
       ∨ ack_eliciting_threshold pa < wrapping_add 64 (ack_eliciting_since_last_ack_sent pa) 1
       ∨ reordered (rx_recv st) h (reordering_threshold pa) p
           (default 0 (largest_ack_eliciting_packet pa)) (eliciting_max pa p) (largest_acked pa)).
Proof.
  destruct (rx_inv st Hst) as [Hd Ha]. pose proof (di_recv _ _ Hd) as Hr. pose proof (Hr p Hp).
  split; [destruct (di_highest _ _ Hd); [lia|done]|].
  split; [intros q Hq; specialize (Hr q Hq); lia|].
  destruct (packet_received_eliciting (rx_acks st) p now (rx_dedup st)) as (_ & _ & _ & _ & _ & -> & _).
  rewrite orb_true_iff, (is_out_of_order_spec _ _ _ p Hd Ha Hp).
  cbn [counted immediate_ack_required]. rewrite orb_true_iff, Z.gtb_lt. tauto.
Qed.

Lemma immediate_ack_exact_witness :
  let st := rx_run sample_events rx_init in
  immediate_ack_required (packet_received 31 4 true (rx_dedup st) (rx_acks st)).2 = true
  ↔ false = true ∨ 1 < 1 ∨ reordered [4; 1; 0] 4 1 4 1 4 (Some 1).
Proof. apply (immediate_ack_exact _ sample_rx_reachable 4 31). vm_compute. repeat constructor. Defined.

End PendingAcks.

(** ** Sent packets *)

Module PacketSpace.

(** What a packet would retransmit: [ThinRetransmits] and [StreamMetaVec]. *)
Section packet_space.
Context {R SM : Type}.

Record SentPacket := mk_sent_packet {
  time_sent : Z;
  sample_pn : Z;
  size : Z;
  ack_eliciting : bool;
  sp_largest_acked : option Z;
  retransmits : R;
  stream_frames : SM
}.

Record EcnCounts := mk_ecn { ect0 : Z; ect1 : Z; ce : Z }.

(** The fields that the numbering, the accounting and ECN validation use. *)
Record PacketSpace := mk_space {
  next_packet_number : Z;
  largest_ack_eliciting_sent : Z;
  unacked_non_ack_eliciting_tail : Z;
  sent_packets : list (Z * SentPacket);
  ecn_feedback : EcnCounts;
  in_flight : Z;
  sent_with_keys : Z
}.

Definition new : PacketSpace := mk_space 0 0 0 [] (mk_ecn 0 0 0) 0 0.

(** [None] is the failed assertion. *)
Definition get_tx_number (s : PacketSpace) : option (Z * PacketSpace) :=
  if next_packet_number s <? 2 ^ 62 then
    Some (next_packet_number s,
          mk_space (next_packet_number s + 1) (largest_ack_eliciting_sent s) (unacked_non_ack_eliciting_tail s)
            (sent_packets s) (ecn_feedback s) (in_flight s) (wrapping_add 64 (sent_with_keys s) 1))
  else None.

Definition detect_ecn (newly_acked : Z) (ecn : EcnCounts) (s : PacketSpace)
  : result bool string * PacketSpace :=
  match checked_sub (ect0 ecn) (ect0 (ecn_feedback s)) with
  | None => (Err "peer ECT(0) count regression"%string, s)
  | Some ect0_increase =>
  match checked_sub (ect1 ecn) (ect1 (ecn_feedback s)) with
  | None => (Err "peer ECT(1) count regression"%string, s)
  | Some ect1_increase =>
  match checked_sub (ce ecn) (ce (ecn_feedback s)) with
  | None => (Err "peer CE count regression"%string, s)
  | Some ce_increase =>
    let total_increase := wrapping_add 64 (wrapping_add 64 ect0_increase ect1_increase) ce_increase in
    if total_increase <? newly_acked then (Err "ECN bleaching"%string, s)
    else if (wrapping_add 64 ect0_increase ce_increase <? newly_acked) || negb (ect1_increase =? 0) then
      (Err "ECN corruption"%string, s)
    else
      (Ok (negb (ce_increase =? 0)),
       mk_space (next_packet_number s) (largest_ack_eliciting_sent s) (unacked_non_ack_eliciting_tail s)
         (sent_packets s) ecn (in_flight s) (sent_with_keys s))
  end end end.

Definition take (number : Z) (s : PacketSpace) : option SentPacket * PacketSpace :=
  match bt_get number (sent_packets s) with
  | None => (None, s)
  | Some packet =>
    let tail :=
      if negb (ack_eliciting packet) && (number >? largest_ack_eliciting_sent s)
      then saturating_sub (unacked_non_ack_eliciting_tail s) 1
      else unacked_non_ack_eliciting_tail s in
    (Some packet,
     mk_space (next_packet_number s) (largest_ack_eliciting_sent s) tail
       (bt_remove number (sent_packets s)) (ecn_feedback s)
       (wrapping_sub 64 (in_flight s) (size packet)) (sent_with_keys s))
  end.

Definition MAX_UNACKED_NON_ACK_ELICTING_TAIL : Z := 1000.

(** The last two lines of [sent]. *)
Definition record_sent (number : Z) (packet : SentPacket) (s : PacketSpace) : PacketSpace :=
  mk_space (next_packet_number s) (largest_ack_eliciting_sent s) (unacked_non_ack_eliciting_tail s)
    (bt_insert number packet (sent_packets s)) (ecn_feedback s)
    (wrapping_add 64 (in_flight s) (size packet)) (sent_with_keys s).

(** [None] is a failed [unwrap]. *)
Definition sent (number : Z) (packet : SentPacket) (s : PacketSpace) : option (Z * PacketSpace) :=
  if ack_eliciting packet then
    Some (0, record_sent number packet
               (mk_space (next_packet_number s) number 0 (sent_packets s) (ecn_feedback s)
                  (in_flight s) (sent_with_keys s)))
  else if unacked_non_ack_eliciting_tail s >? MAX_UNACKED_NON_ACK_ELICTING_TAIL then
    match bt_succ (largest_ack_eliciting_sent s) (sent_packets s) with
    | None => None
    | Some (oldest_after_ack_eliciting, oldest) =>
      Some (size oldest, record_sent number packet
              (mk_space (next_packet_number s) (largest_ack_eliciting_sent s) (unacked_non_ack_eliciting_tail s)
                 (bt_remove oldest_after_ack_eliciting (sent_packets s)) (ecn_feedback s)
                 (wrapping_sub 64 (in_flight s) (size oldest)) (sent_with_keys s)))
    end
  else
    Some (0, record_sent number packet
               (mk_space (next_packet_number s) (largest_ack_eliciting_sent s)
                  (wrapping_add 64 (unacked_non_ack_eliciting_tail s) 1) (sent_packets s) (ecn_feedback s)
                  (in_flight s) (sent_with_keys s))).

(** [mem::take(&mut self.spaces[SpaceId::Data].sent_packets)], which the connection does
    when the server answers with a Retry or rejects 0-RTT. *)
Definition drain_sent_packets (s : PacketSpace) : PacketSpace :=
  mk_space (next_packet_number s) (largest_ack_eliciting_sent s) (unacked_non_ack_eliciting_tail s)
    [] (ecn_feedback s) (in_flight s) (sent_with_keys s).

(** ** Accounting *)

Implicit Types (m l : list (Z * SentPacket)) (s : PacketSpace) (p : SentPacket).

Fixpoint sum_sizes (m : list (Z * SentPacket)) : Z :=
  match m with [] => 0 | (_, p) :: m' => size p + sum_sizes m' end.

(** The packets numbered above [k]. *)
Definition above (k : Z) (m : list (Z * SentPacket)) : Z := zlen (filter (λ e, k < e.1) m).

(** [nxt] is ghost: a bound on the numbers used so far. *)
Record space_inv (nxt : Z) (s : PacketSpace) : Prop := {
  si_nxt : 0 ≤ nxt;
  si_ordered : bt_ordered (-1) (sent_packets s);
  si_keys : keys_lt nxt (sent_packets s);
  si_in_flight : in_flight s = wrap 64 (sum_sizes (sent_packets s));
  si_largest : 0 ≤ largest_ack_eliciting_sent s ∧ (largest_ack_eliciting_sent s = 0 ∨ largest_ack_eliciting_sent s < nxt);
  si_tail_bound : unacked_non_ack_eliciting_tail s ≤ MAX_UNACKED_NON_ACK_ELICTING_TAIL + 1;
  si_tail : above (largest_ack_eliciting_sent s) (sent_packets s) ≤ unacked_non_ack_eliciting_tail s
            ≤ above (largest_ack_eliciting_sent s) (sent_packets s) + 1;
  si_fresh : nxt = 0 → sent_packets s = [] ∧ unacked_non_ack_eliciting_tail s = 0;
  si_eliciting : Forall (λ e, largest_ack_eliciting_sent s < e.1 → ack_eliciting e.2 = false) (sent_packets s)
}.

Lemma wrap_add_l a b : wrap 64 (wrap 64 a + b) = wrap 64 (a + b).
Proof. unfold wrap. by rewrite Z.add_mod_idemp_l by lia. Qed.

Lemma wrap_sub_l a b : wrap 64 (wrap 64 a - b) = wrap 64 (a - b).
Proof. unfold wrap. by rewrite Zminus_mod_idemp_l. Qed.

Lemma keys_lt_snoc n m p : keys_lt n m → bt_insert n p m = m ++ [(n, p)].
Proof.
  intros Hm. rewrite <-(app_nil_r m) at 1. rewrite bt_insert_app; [done|done|constructor].
Qed.

Lemma sum_sizes_app m k : sum_sizes (m ++ k) = sum_sizes m + sum_sizes k.
Proof. induction m as [|[j p] m IH]; simpl; [done|]. rewrite IH. lia. Qed.

Lemma above_app k l m : above k (l ++ m) = above k l + above k m.
Proof. unfold above. by rewrite filter_app, zlen_app. Qed.

Lemma above_cons k e m : above k (e :: m) = (if decide (k < e.1) then 1 else 0) + above k m.
Proof.
  unfold above. rewrite filter_cons. case_decide; [by rewrite zlen_cons|done].
Qed.

Lemma above_nil k : above k [] = 0.
Proof. done. Qed.

Lemma above_nonneg k m : 0 ≤ above k m.
Proof. apply zlen_nonneg. Qed.

Lemma keys_le_above n m : keys_lt n m → above n m = 0.
Proof.
  induction 1 as [|[j p] m Hj _ IH]; [done|]. rewrite above_cons, IH. simpl in *. case_decide; lia.
Qed.

(** An entry splits the map around it. *)
Lemma bt_get_split k m v : ∀ lo, bt_ordered lo m → bt_get k m = Some v →
  ∃ l1 l2, m = l1 ++ (k, v) :: l2 ∧ bt_remove k m = l1 ++ l2.
Proof.
  induction m as [|[j w] m IH]; intros lo Hm; simpl; [done|]. destruct Hm as [_ Hm].
  destruct (Z.eqb_spec k j); [intros [= ->]; subst; by exists [], m|].
  intros Hg. destruct (IH j Hm Hg) as (l1 & l2 & -> & ->). by exists ((j, w) :: l1), l2.
Qed.

Lemma above_pos_succ k m : 0 < above k m → ∃ j p, bt_succ k m = Some (j, p).
Proof.
  induction m as [|[j p] m IH]; [done|]. rewrite above_cons. simpl. intros Ha.
  destruct (Z.ltb_spec k j); [by eauto|]. apply IH. case_decide; lia.
Qed.

Lemma bt_succ_get k m j p lo : bt_ordered lo m → bt_succ k m = Some (j, p) → k < j ∧ bt_get j m = Some p.
Proof.
  revert lo. induction m as [|[i w] m IH]; intros lo; simpl; [done|]. intros [_ Hm].
  destruct (Z.ltb_spec k i); [intros [= -> ->]; by rewrite Z.eqb_refl|].
  intros Hs. destruct (IH i Hm Hs) as [? ?]. split; [done|]. rewrite (proj2 (Z.eqb_neq _ _)); [done|].
  lia.
Qed.

Lemma keys_lt_weaken a b m : a ≤ b → keys_lt a m → keys_lt b m.
Proof. intros ? Hm. eapply Forall_impl; [exact Hm|]. simpl. intros. lia. Qed.

Lemma bt_ordered_snoc n p m : ∀ lo, lo < n → bt_ordered lo m → keys_lt n m → bt_ordered lo (m ++ [(n, p)]).
Proof.
  induction m as [|[j w] m IH]; intros lo Hlo Hm Hk; simpl; [done|].
  destruct Hm as [? Hm]. apply Forall_cons in Hk as [? Hk]. split; [done|]. by apply IH.
Qed.

(** Dropping an entry: what the counters lose. *)
Lemma remove_counts k j v m lo : bt_ordered lo m → bt_get j m = Some v →
  sum_sizes (bt_remove j m) = sum_sizes m - size v
  ∧ above k (bt_remove j m) = above k m - (if decide (k < j) then 1 else 0)
  ∧ bt_ordered lo (bt_remove j m)
  ∧ (∀ P : Z * SentPacket → Prop, Forall P m → Forall P (bt_remove j m) ∧ P (j, v)).
Proof.
  intros Hm Hg. pose proof (bt_remove_ordered j m lo Hm) as Ho.
  destruct (bt_get_split j m v lo Hm Hg) as (l1 & l2 & -> & Hr). rewrite Hr in *.
  rewrite !sum_sizes_app, !above_app, above_cons. simpl. split; [lia|]. split; [lia|]. split; [done|].
  intros P. rewrite !Forall_app, Forall_cons. tauto.
Qed.

Lemma take_inv nxt k s : space_inv nxt s →
  let '(o, s') := take k s in
  space_inv nxt s' ∧ o = bt_get k (sent_packets s)
  ∧ sum_sizes (sent_packets s') = sum_sizes (sent_packets s) - from_option size 0 o.
Proof.
  intros Hs. unfold take. destruct (bt_get k (sent_packets s)) as [v|] eqn:Hg.
  2: { split; [done|]. split; [done|]. simpl. lia. }
  pose proof Hs as [].
  destruct (remove_counts (largest_ack_eliciting_sent s) k v _ _ si_ordered0 Hg) as (Hsum & Hab & Hord & Hall).
  split; [|by split]. destruct (Hall _ si_eliciting0) as [? Hne]. simpl in Hne.
  split; cbn [sent_packets largest_ack_eliciting_sent unacked_non_ack_eliciting_tail in_flight]; try done.
  - by apply Hall.
  - rewrite si_in_flight0, Hsum. unfold wrapping_sub. apply wrap_sub_l.
  - unfold saturating_sub, MAX_UNACKED_NON_ACK_ELICTING_TAIL in *. case_goal; lia.
  - rewrite Hab. pose proof (above_nonneg (largest_ack_eliciting_sent s) (bt_remove k (sent_packets s))).
    rewrite Z.gtb_ltb. destruct (Z.ltb_spec (largest_ack_eliciting_sent s) k); case_decide; try lia.
    + rewrite Hne by done. unfold saturating_sub. simpl. lia.
    + rewrite andb_false_r. lia.
  - intros Hz. destruct (si_fresh0 Hz) as [He ?]. by rewrite He in Hg.
Qed.

(** Recording a packet with a new number, once the counters are in place. *)
Lemma record_inv nxt n p s : 0 ≤ nxt ≤ n → bt_ordered (-1) (sent_packets s) → keys_lt nxt (sent_packets s) →
  in_flight s = wrap 64 (sum_sizes (sent_packets s)) →
  0 ≤ largest_ack_eliciting_sent s ≤ n →
  unacked_non_ack_eliciting_tail s ≤ MAX_UNACKED_NON_ACK_ELICTING_TAIL + 1 →
  above (largest_ack_eliciting_sent s) (sent_packets s) + (if decide (largest_ack_eliciting_sent s < n) then 1 else 0)
    ≤ unacked_non_ack_eliciting_tail s
    ≤ above (largest_ack_eliciting_sent s) (sent_packets s) + 1
      + (if decide (largest_ack_eliciting_sent s < n) then 1 else 0) →
  Forall (λ e, largest_ack_eliciting_sent s < e.1 → ack_eliciting e.2 = false) (sent_packets s) →
  (largest_ack_eliciting_sent s < n → ack_eliciting p = false) →
  space_inv (n + 1) (record_sent n p s)
  ∧ sum_sizes (sent_packets (record_sent n p s)) = sum_sizes (sent_packets s) + size p.
Proof.
  intros Hn Ho Hk Hf Hl Htb Ht He Hp. unfold record_sent.
  assert (keys_lt n (sent_packets s)) as Hkn by (eapply keys_lt_weaken; [|done]; lia).
  rewrite (keys_lt_snoc n _ p Hkn). cbn [sent_packets].
  split; [|rewrite sum_sizes_app; simpl; lia].
  split; cbn [sent_packets largest_ack_eliciting_sent unacked_non_ack_eliciting_tail in_flight]; try done; try lia.
  - apply bt_ordered_snoc; [lia|done|done].
  - apply Forall_app. split; [eapply keys_lt_weaken; [|done]; lia|]. rewrite Forall_singleton. simpl. lia.
  - rewrite Hf, sum_sizes_app. unfold wrapping_add. rewrite wrap_add_l. simpl. f_equal. lia.
  - rewrite above_app, above_cons, above_nil. cbn [fst]. lia.
  - apply Forall_app. split; [done|]. by rewrite Forall_singleton.
Qed.

Lemma sent_inv nxt n p s : space_inv nxt s → nxt ≤ n →
  ∃ forgotten s', sent n p s = Some (forgotten, s') ∧ space_inv (n + 1) s'
  ∧ sum_sizes (sent_packets s') + forgotten = sum_sizes (sent_packets s) + size p.
Proof.
  intros [] Hn. unfold sent. destruct (ack_eliciting p) eqn:Hae.
  - do 2 eexists. split; [done|]. edestruct (record_inv nxt n p) as [Hinv Hsum]; [..|split; [exact Hinv|rewrite Hsum; simpl; lia]].
    all: cbn [sent_packets largest_ack_eliciting_sent unacked_non_ack_eliciting_tail in_flight]; try done; try lia.
    + rewrite keys_le_above by (eapply keys_lt_weaken; [|done]; lia). case_decide; lia.
    + eapply Forall_impl; [exact si_keys0|]. simpl. intros. lia.
  - destruct (_ >? _) eqn:Hgt; zbool.
    + destruct (above_pos_succ (largest_ack_eliciting_sent s) (sent_packets s)) as (j & v & Hj);
        [unfold MAX_UNACKED_NON_ACK_ELICTING_TAIL in *; lia|].
      rewrite Hj. destruct (bt_succ_get _ _ _ _ _ si_ordered0 Hj) as [Hlt Hg].
      destruct (remove_counts (largest_ack_eliciting_sent s) j v _ _ si_ordered0 Hg) as (Hsum & Hab & Hord & Hall).
      assert (nxt ≠ 0) by (intros Hz; destruct (si_fresh0 Hz); unfold MAX_UNACKED_NON_ACK_ELICTING_TAIL in *; lia).
      do 2 eexists. split; [done|].
      edestruct (record_inv nxt n p) as [Hinv Hs]; [..|split; [exact Hinv|rewrite Hs; cbn [sent_packets]; lia]].
      all: cbn [sent_packets largest_ack_eliciting_sent unacked_non_ack_eliciting_tail in_flight]; try done; try lia.
      * by apply Hall.
      * rewrite si_in_flight0, Hsum. unfold wrapping_sub. apply wrap_sub_l.
      * rewrite Hab. repeat case_decide; lia.
      * by apply Hall.
    + do 2 eexists. split; [done|].
      assert (wrapping_add 64 (unacked_non_ack_eliciting_tail s) 1 = unacked_non_ack_eliciting_tail s + 1) as Hw.
      { apply wrap_small. pose proof (above_nonneg (largest_ack_eliciting_sent s) (sent_packets s)).
        unfold is_u, MAX_UNACKED_NON_ACK_ELICTING_TAIL in *. lia. }
      edestruct (record_inv nxt n p) as [Hinv Hs]; [..|split; [exact Hinv|rewrite Hs; cbn [sent_packets]; lia]].
      all: cbn [sent_packets largest_ack_eliciting_sent unacked_non_ack_eliciting_tail in_flight];
        rewrite ?Hw; try done; try lia.
      destruct (decide (nxt = 0)) as [Hz|]; [destruct (si_fresh0 Hz) as [He Ht]; rewrite He, Ht in *|];
        rewrite ?above_nil in *; case_decide; lia.
Qed.

(** ** A space sending packets

    The events that change the sent packets: a packet recorded under a new number, and
    a packet taken out because it was acknowledged or declared lost.  [total] is the
    count of bytes in flight that the path keeps beside the space, adding the size of
    every packet sent and subtracting what [sent] and [take] give back. *)

Inductive tx_event := TxSent (n : Z) (p : SentPacket) | TxTake (n : Z).

Definition tx_step (e : tx_event) (st : PacketSpace * Z) : option (PacketSpace * Z) :=
  let '(s, total) := st in
  match e with
  | TxSent n p =>
    match sent n p s with
    | Some (forgotten, s) => Some (s, total + size p - forgotten)
    | None => None
    end
  | TxTake n => let '(o, s) := take n s in Some (s, total - from_option size 0 o)
  end.

Fixpoint tx_run (es : list tx_event) (st : PacketSpace * Z) : option (PacketSpace * Z) :=
  match es with
  | [] => Some st
  | e :: es => match tx_step e st with Some st => tx_run es st | None => None end
  end.

(** Packet numbers are used in increasing order. *)
Fixpoint tx_increasing (nxt : Z) (es : list tx_event) : Prop :=
  match es with
  | [] => True
  | TxSent n _ :: es => nxt ≤ n ∧ tx_increasing (n + 1) es
  | TxTake _ :: es => tx_increasing nxt es
  end.

Lemma space_inv_new : space_inv 0 new.
Proof.
  split; simpl; try done; try constructor; try done; try lia; try (by left).
Qed.

Lemma tx_run_inv es : ∀ nxt s total, space_inv nxt s → total = sum_sizes (sent_packets s) →
  tx_increasing nxt es →
  ∃ nxt' s' total', tx_run es (s, total) = Some (s', total') ∧ space_inv nxt' s'
  ∧ total' = sum_sizes (sent_packets s').
Proof.
  induction es as [|[n p|n] es IH]; intros nxt s total Hs Ht Hok; cbn [tx_run tx_step].
  - by exists nxt, s, total.
  - destruct Hok as [Hn Hok]. destruct (sent_inv nxt n p s Hs Hn) as (f & s' & -> & Hs' & Hsum).
    apply (IH (n + 1)); [done|lia|done].
  - pose proof (take_inv nxt n s Hs) as Hk. destruct (take n s) as [o s'].
    destruct Hk as (Hs' & _ & Hsum). apply (IH nxt); [done|lia|done].
Qed.

(** The accounting of sent packets.  Whatever packets are sent under increasing numbers
    and whichever are acknowledged or lost in between, recording one never panics, the byte
    count of the space is the sum of the sizes of the packets it tracks and agrees with the
    count the path keeps, and at most 1001 packets are tracked after the last ack-eliciting
    one, none of them ack-eliciting. *)
Theorem packet_space_accounting (es : list tx_event) (Hok : tx_increasing 0 es) :
  ∃ s total, tx_run es (new, 0) = Some (s, total)
  ∧ total = sum_sizes (sent_packets s) ∧ in_flight s = wrap 64 total
  ∧ above (largest_ack_eliciting_sent s) (sent_packets s) ≤ MAX_UNACKED_NON_ACK_ELICTING_TAIL + 1
  ∧ Forall (λ e, largest_ack_eliciting_sent s < e.1 → ack_eliciting e.2 = false) (sent_packets s).
Proof.
  destruct (tx_run_inv es 0 new 0 space_inv_new eq_refl Hok) as (nxt & s & total & Hrun & [] & ->).
  exists s, (sum_sizes (sent_packets s)). repeat (split; [(done || lia)|]). done.
Qed.

End packet_space.
Arguments SentPacket : clear implicits.
Arguments PacketSpace : clear implicits.
Arguments tx_event : clear implicits.

Definition sample_packet (sz : Z) (ae : bool) : SentPacket unit unit := mk_sent_packet 0 0 sz ae None tt tt.

Lemma packet_space_accounting_witness :
  ∃ s total, tx_run [TxSent 0 (sample_packet 100 true); TxSent 1 (sample_packet 40 false); TxTake 0;
                     TxSent 3 (sample_packet 60 false)] (new, 0) = Some (s, total)
  ∧ total = sum_sizes (sent_packets s) ∧ in_flight s = wrap 64 total
  ∧ above (largest_ack_eliciting_sent s) (sent_packets s) ≤ MAX_UNACKED_NON_ACK_ELICTING_TAIL + 1
  ∧ Forall (λ e, largest_ack_eliciting_sent s < e.1 → ack_eliciting e.2 = false) (sent_packets s).
Proof. apply packet_space_accounting. simpl. lia. Defined.

(** Emptying the sent packets after a Retry or a 0-RTT rejection leaves the space's byte
    count behind: it stays at the size of the discarded packets, and once later packets have
    come and gone the space reports bytes in flight while it tracks no packet. *)
Example drained_space_stays_in_flight :
  let s := drain_sent_packets
    match sent 0 (sample_packet 1200 true) new with Some (_, s) => s | None => new end in
  sent_packets s = [] ∧ in_flight s = 1200
  ∧ match sent 1 (sample_packet 100 true) s with
    | Some (_, s) => let s := (take 1 s).2 in sent_packets s = [] ∧ in_flight s = 1200
    | None => False
    end.
Proof. by vm_compute. Qed.

(** ** ECN *)

(** ECN validation.  With counters and counts that fit a varint, a report is accepted
    exactly if no counter went back, ECT(1) did not move, and ECT(0) and CE together grew by
    at least the packets acknowledged; then the counters are recorded and congestion is
    signalled exactly if CE grew.  A rejected report changes nothing. *)
Theorem detect_ecn_exact {R SM} (n : Z) (ecn : EcnCounts) (s : PacketSpace R SM)
  (Hfit : is_u 62 (ect0 ecn) ∧ is_u 62 (ect1 ecn) ∧ is_u 62 (ce ecn))
  (Hold : let f := ecn_feedback s in 0 ≤ ect0 f ∧ 0 ≤ ect1 f ∧ 0 ≤ ce f) :
  let f := ecn_feedback s in
  match detect_ecn n ecn s with
  | (Ok congested, s') =>
    ect0 f ≤ ect0 ecn ∧ ect1 ecn = ect1 f ∧ ce f ≤ ce ecn
    ∧ n ≤ (ect0 ecn - ect0 f) + (ce ecn - ce f)
    ∧ congested = (ce f <? ce ecn) ∧ ecn_feedback s' = ecn
    ∧ sent_packets s' = sent_packets s ∧ in_flight s' = in_flight s
  | (Err _, s') =>
    s' = s ∧ ¬ (ect0 f ≤ ect0 ecn ∧ ect1 ecn = ect1 f ∧ ce f ≤ ce ecn
                ∧ n ≤ (ect0 ecn - ect0 f) + (ce ecn - ce f))
  end.
Proof.
  unfold detect_ecn. cbv zeta in *. destruct (ecn_feedback s) as [f0 f1 fc] eqn:Hf, ecn as [e0 e1 ec].
  cbn [ect0 ect1 ce] in *. unfold is_u in Hfit.
  unfold checked_sub. destruct (Z.ltb_spec e0 f0); [split; [done|lia]|].
  destruct (Z.ltb_spec e1 f1); [split; [done|lia]|]. destruct (Z.ltb_spec ec fc); [split; [done|lia]|].
  unfold wrapping_add. rewrite !(wrap_small 64) by (rewrite ?wrap_small; unfold is_u; lia).
  destruct (Z.ltb_spec (e0 - f0 + (e1 - f1) + (ec - fc)) n); [split; [done|lia]|].
  destruct (Z.ltb_spec (e0 - f0 + (ec - fc)) n); cbn [orb]; [split; [done|lia]|].
  destruct (Z.eqb_spec (e1 - f1) 0); cbn [negb]; [|split; [done|lia]].
  split_and!; (done || lia).
Qed.

Lemma detect_ecn_exact_witness :
  let s : PacketSpace unit unit := mk_space 10 9 0 [] (mk_ecn 4 0 1) 0 10 in
  (detect_ecn 3 (mk_ecn 6 0 2) s).1 = Ok true ∧ true = (1 <? 2).
Proof.
  pose proof (detect_ecn_exact 3 (mk_ecn 6 0 2)
    (mk_space (R := unit) (SM := unit) 10 9 0 [] (mk_ecn 4 0 1) 0 10)
    ltac:(unfold is_u; simpl; lia) ltac:(simpl; lia)) as H.
  split; [done|]. by destruct H as (_ & _ & _ & _ & H & _).
Defined.

End PacketSpace.

(** ** Skipped packet numbers *)

Module PacketNumberFilter.
Import PacketSpace.
Import QuicPacket.

Section filter.
Context {R SM : Type}.
Implicit Types (s : PacketSpace R SM) (r : Z).

Record PacketNumberFilter := mk_filter {
  next_skipped_packet_number : Z;
  prev_skipped_packet_number : option Z;
  exponent : Z
}.
Implicit Types f : PacketNumberFilter.

(** [2u64.saturating_pow(e)]. *)
Definition pow2_saturating (e : Z) : Z := Z.min (u_max 64) (2 ^ e).

(** [r] is what the generator draws from [0..64]. *)
Definition filter_new r : PacketNumberFilter := mk_filter r None 6.

Definition peek f s : Z :=
  let n := next_packet_number s in
  if negb (n =? next_skipped_packet_number f) then n else wrapping_add 64 n 1.

(** [r] is what the generator draws, if it is asked; [None] is the failed assertion of
    [get_tx_number]. *)
Definition allocate r f s : option (Z * PacketNumberFilter * PacketSpace R SM) :=
  match get_tx_number s with
  | None => None
  | Some (n, s) =>
    if negb (n =? next_skipped_packet_number f) then Some (n, f, s)
    else
      let next_exponent := saturating_add 32 (exponent f) 1 in
      let f := mk_filter r (Some (next_skipped_packet_number f)) next_exponent in
      match get_tx_number s with
      | None => None
      | Some (n, s) => Some (n, f, s)
      end
  end.

(** The range the generator draws from in [allocate]. *)
Definition draw_ok r f : Prop :=
  pow2_saturating (exponent f) ≤ r < pow2_saturating (saturating_add 32 (exponent f) 1).

Definition check_ack (space_id : SpaceId) (range : Z * Z) f : result () string :=
  if (match space_id with SpaceData => true | _ => false end)
     && (match prev_skipped_packet_number f with
         | Some x => (range.1 <=? x) && (x <=? range.2)
         | None => false
         end)
  then Err "unsent packet acked"%string
  else Ok ().

(** The numbers allocated with the draws [rs], newest first. *)
Fixpoint allocate_all (rs : list Z) f s (ns : list Z) : option (list Z * PacketNumberFilter * PacketSpace R SM) :=
  match rs with
  | [] => Some (ns, f, s)
  | r :: rs =>
    match allocate r f s with
    | Some (n, f, s) => allocate_all rs f s (n :: ns)
    | None => None
    end
  end.

Record filter_inv (ns : list Z) f s : Prop := {
  fi_next : 0 ≤ next_packet_number s ≤ 2 ^ 62;
  fi_allocated : ∀ x, x ∈ ns → x < next_packet_number s;
  fi_nodup : NoDup ns;
  fi_skipped : ∀ x, prev_skipped_packet_number f = Some x → (x ∉ ns) ∧ x < next_packet_number s
}.

Lemma get_tx_number_Some s n s' : get_tx_number s = Some (n, s') →
  n = next_packet_number s ∧ next_packet_number s' = n + 1 ∧ n < 2 ^ 62.
Proof. unfold get_tx_number. destruct (Z.ltb_spec (next_packet_number s) (2 ^ 62)); [|done]. by intros [= <- <-]. Qed.

Lemma allocate_inv ns r f s n f' s' : filter_inv ns f s → allocate r f s = Some (n, f', s') →
  filter_inv (n :: ns) f' s' ∧ n = peek f s ∧ next_packet_number s ≤ n.
Proof.
  intros [Hn Ha Hd Hk]. unfold allocate, peek.
  destruct (get_tx_number s) as [[n0 s0]|] eqn:H0; [|done].
  apply get_tx_number_Some in H0 as (-> & H0 & Hlt).
  assert (∀ m, next_packet_number s ≤ m → m ∉ ns) as Hfresh by (intros m Hm Hin; specialize (Ha m Hin); lia).
  destruct (Z.eqb_spec (next_packet_number s) (next_skipped_packet_number f)) as [He|He]; cbn [negb].
  - destruct (get_tx_number s0) as [[n1 s1]|] eqn:H1; [|done].
    apply get_tx_number_Some in H1 as (-> & H1 & Hlt1). intros [= <- <- <-].
    unfold wrapping_add. rewrite wrap_small by (unfold is_u; lia). split; [|lia].
    split; [lia| | |].
    + intros x [->|Hx]%elem_of_cons; [lia|]. specialize (Ha x Hx). lia.
    + constructor; [apply Hfresh; lia|done].
    + simpl. intros x [= <-]. split; [|lia]. rewrite elem_of_cons. intros [?|Hx]; [lia|].
      rewrite <-He in Hx. revert Hx. apply Hfresh. lia.
  - intros [= <- <- <-]. split; [|lia]. split; [lia| | |].
    + intros x [->|Hx]%elem_of_cons; [lia|]. specialize (Ha x Hx). lia.
    + constructor; [apply Hfresh; lia|done].
    + intros x Hx. destruct (Hk x Hx). split; [|lia]. rewrite elem_of_cons. intros [?|?]; [lia|done].
Qed.

Lemma allocate_all_inv rs : ∀ f s ns ns' f' s', filter_inv ns f s →
  allocate_all rs f s ns = Some (ns', f', s') → filter_inv ns' f' s'.
Proof.
  induction rs as [|r rs IH]; intros f s ns ns' f' s' Hf; simpl; [by intros [= <- <- <-]|].
  destruct (allocate r f s) as [[[n f1] s1]|] eqn:Ha; [|done].
  apply IH. by destruct (allocate_inv ns r f s n f1 s1 Hf Ha).
Qed.

(** Skipped packet numbers.  Whatever the generator draws, the numbers allocated are
    pairwise distinct, [peek] announces the next one, an acknowledgement of allocated
    packets only is never rejected, and one that includes the packet number skipped last is. *)
Theorem filter_sound (r0 : Z) (rs ns : list Z) (s0 s : PacketSpace R SM) (f : PacketNumberFilter)
  (Hs0 : next_packet_number s0 = 0) (Hrun : allocate_all rs (filter_new r0) s0 [] = Some (ns, f, s)) :
  NoDup ns
  ∧ (∀ r n f' s', allocate r f s = Some (n, f', s') → n = peek f s ∧ n ∉ ns)
  ∧ (∀ lo hi id, (∀ x, lo ≤ x ≤ hi → x ∈ ns) → check_ack id (lo, hi) f = Ok ())
  ∧ (∀ x lo hi, prev_skipped_packet_number f = Some x → lo ≤ x ≤ hi →
       check_ack SpaceData (lo, hi) f = Err "unsent packet acked"%string).
Proof.
  assert (filter_inv [] (filter_new r0) s0) as H0.
  { split; [rewrite Hs0; lia| |constructor|done]. by intros x ?%not_elem_of_nil. }
  pose proof (allocate_all_inv rs _ _ _ _ _ _ H0 Hrun) as Hf.
  split; [by destruct Hf|]. split; [|split].
  - intros r n f' s' Ha. destruct (allocate_inv ns r f s n f' s' Hf Ha) as (Hf' & ? & _).
    split; [done|]. destruct Hf' as [_ _ Hnd _]. by apply NoDup_cons in Hnd as [? _].
  - intros lo hi id Hall. unfold check_ack.
    destruct (prev_skipped_packet_number f) as [x|] eqn:Hx; [|by rewrite andb_false_r].
    destruct ((lo <=? x) && (x <=? hi)) eqn:Hin; cbn [fst snd]; rewrite Hin; [|by rewrite andb_false_r].
    zbool. destruct (fi_skipped _ _ _ Hf x Hx) as [Hnot _]. destruct Hnot. apply Hall. lia.
  - intros x lo hi Hx Hin. unfold check_ack. rewrite Hx. cbn [fst snd].
    by rewrite (proj2 (Z.leb_le _ _)), (proj2 (Z.leb_le _ _)) by lia.
Qed.

(** The filter once its next number to skip is behind: it has no effect any more. *)
Lemma allocate_disabled rs : ∀ f s ns ns' f' s',
  next_skipped_packet_number f < next_packet_number s →
  allocate_all rs f s ns = Some (ns', f', s') → f' = f.
Proof.
  induction rs as [|r rs IH]; intros f s ns ns' f' s' Hlt; simpl; [by intros [= <- <- <-]|].
  unfold allocate. destruct (get_tx_number s) as [[n s1]|] eqn:Hg; [|done].
  apply get_tx_number_Some in Hg as (-> & Hn & _).
  rewrite (proj2 (Z.eqb_neq _ _)) by lia. cbn [negb]. apply IH. lia.
Qed.

(** The mitigation can switch itself off.  When the number skipped is the last of its
    range and the next draw, which may be the first of the following range, is the very next
    number, that number is sent and not skipped; from then on, whatever is drawn, no number is
    ever skipped again. *)
Theorem filter_stops_skipping (s : PacketSpace R SM) (Hs : next_packet_number s = 63) :
  draw_ok 64 (filter_new 63)
  ∧ ∃ f' s', allocate 64 (filter_new 63) s = Some (64, f', s') ∧ next_skipped_packet_number f' = 64
    ∧ ∀ rs ns ns' f'' s'', allocate_all rs f' s' ns = Some (ns', f'', s'') →
        f'' = f' ∧ prev_skipped_packet_number f'' = Some 63.
Proof.
  split; [done|]. unfold allocate, get_tx_number. rewrite Hs. cbn [Z.ltb].
  do 2 eexists. split; [done|]. split; [done|]. intros rs ns ns' f'' s'' Hrun.
  apply allocate_disabled in Hrun; [by subst|]. cbn. lia.
Qed.

End filter.
Arguments PacketNumberFilter : clear implicits.

Lemma filter_sound_witness :
  match allocate_all [0; 0; 100] (filter_new 2) (PacketSpace.new (R := unit) (SM := unit)) [] with
  | Some (ns, f, s) => NoDup ns ∧ ns = [3; 1; 0] ∧ check_ack SpaceData (2, 3) f = Err "unsent packet acked"%string
  | None => False
  end.
Proof.
  pose proof (filter_sound 2 [0; 0; 100] [3; 1; 0] (PacketSpace.new (R := unit) (SM := unit))
    (mk_space 4 0 0 [] (mk_ecn 0 0 0) 0 4) (mk_filter 100 (Some 2) 7) eq_refl eq_refl) as (H1 & _ & _ & H2).
  split; [exact H1|]. split; [done|]. apply (H2 2 2 3); [done|lia].
Defined.

Lemma filter_stops_skipping_witness :
  ∃ f' s', allocate 64 (filter_new 63) (mk_space (R := unit) (SM := unit) 63 0 0 [] (mk_ecn 0 0 0) 0 63)
    = Some (64, f', s') ∧ next_skipped_packet_number f' = 64.
Proof.
  destruct (filter_stops_skipping (mk_space (R := unit) (SM := unit) 63 0 0 [] (mk_ecn 0 0 0) 0 63) eq_refl)
    as (_ & f' & s' & H1 & H2 & _).
  by exists f', s'.
Defined.

End PacketNumberFilter.
