(* ===== verification/AckFrame.v ===== *)
(** * ACK frames

    Models the ACK frame of [src/frame.rs]: [Ack::try_encode], which writes the ranges of
    packet numbers of a space as gaps and block lengths, the ACK arm of
    [Iter::try_next] with [scan_ack_blocks], which validates them on receipt, and
    [AckIter], which walks them again without checks.

    The bytes already written when an encoding fails are not represented. *)

From S2P Require Import Prelude Coding RangeSets Spaces.

Module AckFrame.
Import VarInt.
Import PacketSpace(EcnCounts, mk_ecn, ect0, ect1, ce).

Definition ACK : Z := 0x02.
Definition ACK_ECN : Z := 0x03.

Record Ack := mk_ack { largest : Z; delay : Z; additional : list Z; ecn : option EcnCounts }.

Inductive IterErr := IterUnexpectedEnd | InvalidFrameId | Malformed.

(** [From<UnexpectedEnd> for IterErr]. *)
Definition from_end {A} (r : result A UnexpectedEnd) : result A IterErr := map_err (λ _, IterUnexpectedEnd) r.

(** ** Encoding *)

Definition ecn_try_encode (x : EcnCounts) : result (list Z) VarIntBoundsExceeded :=
  let? a := write_var (ect0 x) in
  let? b := write_var (ect1 x) in
  let? c := write_var (ce x) in
  Ok (a ++ b ++ c).

(** The loop over the remaining blocks, from the highest down. *)
Fixpoint write_blocks (prev : Z) (rest : list range) : result (list Z) VarIntBoundsExceeded :=
  match rest with
  | [] => Ok []
  | (s, e) :: rest =>
    let size := e - s in
    let? a := write_var (wrapping_sub 64 (wrapping_sub 64 prev e) 1) in
    let? b := write_var (wrapping_sub 64 size 1) in
    let? c := write_blocks s rest in
    Ok (a ++ b ++ c)
  end.

Definition ack_try_encode (delay : Z) (ranges : list range) (ecn : option EcnCounts)
  : result (list Z) VarIntBoundsExceeded :=
  match rev ranges with
  | [] => Err varint_bounds_exceeded
  | (first_start, first_end) :: rest =>
    let largest := wrapping_sub 64 first_end 1 in
    let first_size := first_end - first_start in
    let? ty := write_var (match ecn with Some _ => ACK_ECN | None => ACK end) in
    let? a := write_var largest in
    let? b := write_var delay in
    let? c := write_var (zlen ranges - 1) in
    let? d := write_var (wrapping_sub 64 first_size 1) in
    let? blocks := write_blocks first_start rest in
    let? e := match ecn with Some x => ecn_try_encode x | None => Ok [] end in
    Ok (ty ++ a ++ b ++ c ++ d ++ blocks ++ e)
  end.

(** ** Decoding *)

(** The loop of [scan_ack_blocks]; each round reads two integers, so the length of the
    input is enough fuel. *)
Fixpoint scan_loop (fuel : nat) (buf : list Z) (smallest n : Z) : result (list Z) IterErr :=
  if n =? 0 then Ok buf
  else
    match fuel with
    | O => Err IterUnexpectedEnd
    | S fuel =>
      let? (gap, buf) := from_end (get_var buf) in
      let? smallest := ok_or (checked_sub smallest (gap + 2)) Malformed in
      let? (block, buf) := from_end (get_var buf) in
      let? smallest := ok_or (checked_sub smallest block) Malformed in
      scan_loop fuel buf smallest (n - 1)
    end.

Definition scan_ack_blocks (buf : list Z) (largest n : Z) : result Z IterErr :=
  let total_len := zlen buf in
  let? (first_block, buf) := from_end (get_var buf) in
  let? smallest := ok_or (checked_sub largest first_block) Malformed in
  let? buf := scan_loop (length buf) buf smallest n in
  Ok (total_len - zlen buf).

(** The arm of [try_next] for the frame types ACK and ACK_ECN. *)
Definition decode_ack (ty : Z) (buf : list Z) : result (Ack * list Z) IterErr :=
  let? (largest, buf) := from_end (get_var buf) in
  let? (delay, buf) := from_end (get_var buf) in
  let? (extra_blocks, buf) := from_end (get_var buf) in
  let? n := scan_ack_blocks buf largest extra_blocks in
  let additional := ztake n buf in
  let buf := zdrop n buf in
  if negb (ty =? ACK_ECN) then Ok (mk_ack largest delay additional None, buf)
  else
    let? (ect0, buf) := from_end (get_var buf) in
    let? (ect1, buf) := from_end (get_var buf) in
    let? (ce, buf) := from_end (get_var buf) in
    Ok (mk_ack largest delay additional (Some (mk_ecn ect0 ect1 ce)), buf).

(** ** Iteration *)

Record AckIter := mk_ack_iter { it_largest : Z; it_data : list Z }.

(** A failed read has taken the first byte. *)
Definition ack_iter_next (it : AckIter) : option (Z * Z) * AckIter :=
  match it_data it with
  | [] => (None, it)
  | _ =>
    match get_var (it_data it) with
    | Err _ => (None, mk_ack_iter (it_largest it) (tail (it_data it)))
    | Ok (block, data) =>
      let largest := it_largest it in
      let it :=
        match get_var data with
        | Ok (gap, data) => mk_ack_iter (wrapping_sub 64 largest (wrapping_add 64 (wrapping_add 64 block gap) 2)) data
        | Err _ => mk_ack_iter largest (tail data)
        end in
      (Some (wrapping_sub 64 largest block, largest), it)
    end
  end.

(** A [for] loop over the iterator; each round takes a byte at least. *)
Fixpoint ack_iter_all (fuel : nat) (it : AckIter) : list (Z * Z) :=
  match fuel with
  | O => []
  | S fuel =>
    match ack_iter_next it with
    | (Some r, it) => r :: ack_iter_all fuel it
    | (None, _) => []
    end
  end.

Definition ack_iter (a : Ack) : list (Z * Z) :=
  ack_iter_all (S (length (additional a))) (mk_ack_iter (largest a) (additional a)).

(** The ranges a frame acknowledges, in increasing order and half-open as the sets have them. *)
Definition half_open (r : Z * Z) : range := (r.1, r.2 + 1).
Definition acked_ranges (a : Ack) : list range := rev (half_open <$> ack_iter a).

(** ** Sequences of integers on the wire *)

(** [buf] starts with encodings of [xs] and goes on with [rest]. *)
Inductive reads : list Z → list Z → list Z → Prop :=
| reads_nil buf : reads buf [] buf
| reads_cons buf x buf' xs rest : get_var buf = Ok (x, buf') → reads buf' xs rest → reads buf (x :: xs) rest.

Lemma reads_nil_inv buf rest : reads buf [] rest → buf = rest.
Proof. by inversion 1. Qed.

Lemma reads_app buf xs mid ys rest : reads buf xs mid → reads mid ys rest → reads buf (xs ++ ys) rest.
Proof. induction 1; simpl; [done|]. intros. econstructor; eauto. Qed.

(** Reading depends only on the bytes consumed. *)
Lemma get_var_local buf x rest : get_var buf = Ok (x, rest) →
  ∃ pre, pre ≠ [] ∧ buf = pre ++ rest ∧ ∀ k, get_var (pre ++ k) = Ok (x, k).
Proof.
  unfold get_var. destruct buf as [|b r]; simpl; [done|].
  assert (∀ n, varint_tail n (Z.land b 63) r = Ok (x, rest) →
    ∃ pre, r = pre ++ rest ∧ ∀ k, varint_tail n (Z.land b 63) (pre ++ k) = Ok (x, k)) as Ht.
  { intros n. unfold varint_tail. destruct (Z.ltb_spec (zlen r) (Z.of_nat n)) as [|Hn]; [done|].
    intros [= <- <-]. exists (take n r). split; [by rewrite take_drop|]. intros k.
    assert (length (take n r) = n) as Hl by (rewrite length_take; unfold zlen in *; lia).
    rewrite zlen_app. unfold zlen at 1. rewrite Hl. pose proof (zlen_nonneg k).
    rewrite (proj2 (Z.ltb_ge _ _)) by lia. by rewrite take_app_length', drop_app_length'. }
  intros Hd. repeat case_match; try (destruct (Ht _ Hd) as (pre & -> & Hp); by exists (b :: pre); simpl; rewrite ?H, ?H0, ?H1).
  simplify_eq. exists [b]. simpl. by rewrite H.
Qed.

Lemma reads_local buf xs rest : reads buf xs rest →
  ∃ pre, buf = pre ++ rest ∧ (length xs ≤ length pre)%nat ∧ ∀ k, reads (pre ++ k) xs k.
Proof.
  induction 1 as [buf|buf x buf' xs rest Hx _ (pre & -> & Hl & Hk)].
  - exists []. split; [done|]. split; [done|]. intros. constructor.
  - destruct (get_var_local _ _ _ Hx) as (p & Hne & -> & Hp). exists (p ++ pre).
    split; [by rewrite app_assoc|]. split.
    + rewrite length_app. destruct p; [done|]. simpl. lia.
    + intros k. rewrite <-app_assoc. econstructor; [apply Hp|apply Hk].
Qed.

Lemma reads_write x bs k : is_u 62 x → write_var x = Ok bs → reads (bs ++ k) [x] k.
Proof.
  intros [? _] Hw. econstructor; [|constructor]. by apply (decode_encode_checked x bs k).
Qed.

Lemma write_var_ok x : is_u 62 x → ∃ bs, write_var x = Ok bs.
Proof. intros Hx. destruct (encode_checked_shape x Hx) as (t & k & Heq & _). eauto. Qed.

(** ** Blocks

    A frame holds a first block length and pairs of a gap and a block length. *)

Definition flat (bs : list (Z * Z)) : list Z := concat ((λ p, [p.1; p.2]) <$> bs).

(** The pairs fit below [smallest]. *)
Fixpoint fits (smallest : Z) (bs : list (Z * Z)) : Prop :=
  match bs with
  | [] => True
  | (g, b) :: bs => 0 ≤ g ∧ 0 ≤ b ∧ g + 2 + b ≤ smallest ∧ fits (smallest - (g + 2) - b) bs
  end.

(** The closed ranges they stand for, from the highest down. *)
Fixpoint blocks_spec (l b : Z) (bs : list (Z * Z)) : list (Z * Z) :=
  (l - b, l) :: match bs with [] => [] | (g, b') :: bs => blocks_spec (l - b - g - 2) b' bs end.

Lemma length_blocks_spec bs : ∀ l b, length (blocks_spec l b bs) = S (length bs).
Proof. induction bs as [|[g b'] bs IH]; intros l b; simpl; [done|]. by rewrite IH. Qed.

Lemma get_var_range buf x rest : bytes_ok buf → get_var buf = Ok (x, rest) → is_u 62 x ∧ bytes_ok rest.
Proof.
  intros Hb Hx. destruct (codec_consumes (C := codec) buf x rest Hb Hx) as (? & pre & _ & ->).
  by apply Forall_app in Hb as [_ ?].
Qed.

(** What a successful scan has checked. *)
Lemma scan_loop_fits fuel : ∀ buf smallest n rest, bytes_ok buf → 0 ≤ n →
  scan_loop fuel buf smallest n = Ok rest →
  ∃ bs, zlen bs = n ∧ reads buf (flat bs) rest ∧ fits smallest bs.
Proof.
  induction fuel as [|fuel IH]; intros buf smallest n rest Hb Hn; cbn [scan_loop];
    (destruct (Z.eqb_spec n 0) as [->|]; [intros [= <-]; exists []; split; [done|]; split; [constructor|done]|]); [done|].
  destruct (get_var buf) as [[g buf1]|] eqn:Hg; simpl; [|done].
  destruct (get_var_range _ _ _ Hb Hg) as [[? _] Hb1].
  destruct (checked_sub smallest (g + 2)) as [s1|] eqn:Hs1; simpl; [|done].
  apply checked_sub_Some in Hs1 as [? ->].
  destruct (get_var buf1) as [[b buf2]|] eqn:Hbk; simpl; [|done].
  destruct (get_var_range _ _ _ Hb1 Hbk) as [[? _] Hb2].
  destruct (checked_sub (smallest - (g + 2)) b) as [s2|] eqn:Hs2; simpl; [|done].
  apply checked_sub_Some in Hs2 as [? ->]. intros Hrun.
  destruct (IH buf2 (smallest - (g + 2) - b) (n - 1) rest Hb2 ltac:(lia) Hrun) as (bs & Hl & Hr & Hf).
  exists ((g, b) :: bs). split; [rewrite zlen_cons; lia|]. split; [|simpl; split_and!; [lia..|done]].
  simpl. econstructor; [done|]. by econstructor.
Qed.

(** The scan of blocks that fit succeeds. *)
Lemma scan_loop_complete bs : ∀ fuel buf smallest rest, (length bs ≤ fuel)%nat →
  reads buf (flat bs) rest → fits smallest bs → scan_loop fuel buf smallest (zlen bs) = Ok rest.
Proof.
  induction bs as [|[g b] bs IH]; intros fuel buf smallest rest Hf Hr Hv.
  - inversion Hr; subst. by destruct fuel.
  - destruct fuel as [|fuel]; [simpl in Hf; lia|]. simpl in Hr.
    inversion Hr as [|? ? buf1 ? ? Hg Hr1]; subst. inversion Hr1 as [|? ? buf2 ? ? Hb Hr2]; subst.
    destruct Hv as (? & ? & ? & Hv). cbn [scan_loop]. rewrite zlen_cons.
    pose proof (zlen_nonneg bs). rewrite (proj2 (Z.eqb_neq _ _)) by lia. rewrite Hg. simpl.
    rewrite (proj2 (checked_sub_Some smallest (g + 2) _)) by (split; [lia|done]). simpl. rewrite Hb. simpl.
    rewrite (proj2 (checked_sub_Some (smallest - (g + 2)) b _)) by (split; [lia|done]). simpl.
    replace (1 + zlen bs - 1) with (zlen bs) by lia. apply IH; [simpl in Hf; lia|done|done].
Qed.

(** The unchecked iteration over blocks that fit gives their ranges. *)
Lemma ack_iter_blocks bs : ∀ l b data fuel, reads data (b :: flat bs) [] → 0 ≤ b ≤ l → l < 2 ^ 62 →
  fits (l - b) bs → (length bs < fuel)%nat →
  ack_iter_all fuel (mk_ack_iter l data) = blocks_spec l b bs.
Proof.
  induction bs as [|[g b'] bs IH]; intros l b data fuel Hr Hb Hl Hv Hf;
    (destruct fuel as [|fuel]; [lia|]); inversion Hr as [|? ? data1 ? ? Hx Hr1]; subst;
    cbn [ack_iter_all]; unfold ack_iter_next; cbn [it_data it_largest];
    (destruct data as [|d0 data0] eqn:Hd; [done|rewrite <-Hd in *]); rewrite Hx.
  - inversion Hr1; subst. simpl. unfold wrapping_sub. rewrite wrap_small by (unfold is_u; lia).
    by destruct fuel.
  - simpl in Hr1. inversion Hr1 as [|? ? data2 ? ? Hg Hr2]; subst. rewrite Hg.
    destruct Hv as (? & ? & ? & Hv). unfold wrapping_sub, wrapping_add.
    rewrite !(wrap_small 64) by (rewrite ?wrap_small; unfold is_u; rewrite ?wrap_small; unfold is_u; lia).
    cbn [blocks_spec]. f_equal. replace (l - (b + g + 2)) with (l - b - g - 2) by lia.
    apply IH; [done|lia|lia| |simpl in Hf; lia].
    by replace (l - b - g - 2 - b') with (l - b - (g + 2) - b') by lia.
Qed.

(** Ranges from the highest down, below [prev]. *)
Fixpoint descending (prev : Z) (l : list range) : Prop :=
  match l with [] => True | (s, e) :: l => 0 ≤ s ∧ s < e ∧ e < prev ∧ descending s l end.

Lemma canon_descending s e l : canon (-1) (rev ((s, e) :: l)) → 0 ≤ s < e ∧ descending s l.
Proof.
  revert s e. induction l as [|[s1 e1] l IH]; intros s e.
  - simpl. lia.
  - cbn [rev]. rewrite canon_app. intros [Hl Hse]. destruct (IH s1 e1 Hl) as [? Hd].
    unfold end_of in Hse. rewrite last_snoc in Hse. simpl in *. split; [lia|]. split_and!; (lia || done).
Qed.

(** The gaps and lengths written for ranges below one that starts at [prev]. *)
Fixpoint pairs (prev : Z) (l : list range) : list (Z * Z) :=
  match l with [] => [] | (s, e) :: l => (prev - e - 1, e - s - 1) :: pairs s l end.

Lemma pairs_fit l : ∀ prev, descending prev l → fits prev (pairs prev l).
Proof.
  induction l as [|[s e] l IH]; intros prev; simpl; [done|]. intros (? & ? & ? & Hd).
  split_and!; [lia..|]. replace (prev - (prev - e - 1 + 2) - (e - s - 1)) with s by lia. by apply IH.
Qed.

Lemma pairs_ranges l : ∀ s e, half_open <$> blocks_spec (e - 1) (e - s - 1) (pairs s l) = (s, e) :: l.
Proof.
  induction l as [|[s1 e1] l IH]; intros s e; cbn [pairs blocks_spec].
  - rewrite fmap_cons. unfold half_open. cbn [fst snd]. do 2 f_equal; lia.
  - replace (e - 1 - (e - s - 1) - (s - e1 - 1) - 2) with (e1 - 1) by lia.
    rewrite fmap_cons, IH. unfold half_open. cbn [fst snd]. do 2 f_equal; lia.
Qed.

Lemma write_blocks_reads l : ∀ prev, prev ≤ 2 ^ 62 → descending prev l →
  ∃ bytes, write_blocks prev l = Ok bytes ∧ ∀ k, reads (bytes ++ k) (flat (pairs prev l)) k.
Proof.
  induction l as [|[s e] l IH]; intros prev Hp.
  - intros _. exists []. split; [done|]. intros. constructor.
  - intros (? & ? & ? & Hd). destruct (IH s ltac:(lia) Hd) as (c & Hc & Hrc).
    destruct (write_var_ok (prev - e - 1)) as [a Ha]; [unfold is_u; lia|].
    destruct (write_var_ok (e - s - 1)) as [b Hb]; [unfold is_u; lia|].
    exists (a ++ b ++ c). cbn [write_blocks]. unfold wrapping_sub.
    rewrite !(wrap_small 64) by (rewrite ?wrap_small; unfold is_u; lia).
    rewrite Ha, Hb, Hc. split; [done|]. intros k. rewrite <-!app_assoc.
    change (flat (pairs prev ((s, e) :: l))) with ([prev - e - 1] ++ [e - s - 1] ++ flat (pairs s l)).
    eapply reads_app; [apply reads_write; [unfold is_u; lia|exact Ha]|].
    eapply reads_app; [apply reads_write; [unfold is_u; lia|exact Hb]|]. apply Hrc.
Qed.

(** Decoded blocks are a canonical set. *)
Lemma blocks_canon bs : ∀ l b, 0 ≤ b ≤ l → fits (l - b) bs →
  canon (-1) (rev (half_open <$> blocks_spec l b bs))
  ∧ end_of (-1) (rev (half_open <$> blocks_spec l b bs)) = l + 1.
Proof.
  induction bs as [|[g b'] bs IH]; intros l b Hb Hv; cbn [blocks_spec]; rewrite fmap_cons; cbn [rev].
  - unfold half_open. simpl. unfold end_of. simpl. lia.
  - destruct Hv as (? & ? & ? & Hv).
    destruct (IH (l - b - g - 2) b') as [Hc He];
      [lia|by replace (l - b - g - 2 - b') with (l - b - (g + 2) - b') by lia|].
    rewrite canon_app, He. unfold end_of. rewrite last_snoc. simpl. split; [|done]. split; [done|lia].
Qed.

Lemma length_flat bs : length (flat bs) = (2 * length bs)%nat.
Proof. unfold flat. induction bs as [|[g b] bs IH]; [done|]. rewrite fmap_cons. simpl in *. lia. Qed.

(** What the scan accepts, as the iterator will see it. *)
Lemma scan_ack_blocks_spec buf top n m : bytes_ok buf → 0 ≤ n → scan_ack_blocks buf top n = Ok m →
  ∃ pre rest b bs, buf = pre ++ rest ∧ m = zlen pre ∧ reads pre (b :: flat bs) []
  ∧ zlen bs = n ∧ 0 ≤ b ≤ top ∧ fits (top - b) bs.
Proof.
  intros Hb Hn. unfold scan_ack_blocks. destruct (get_var buf) as [[b buf1]|] eqn:Hg; simpl; [|done].
  destruct (get_var_range _ _ _ Hb Hg) as [[? _] Hb1].
  destruct (checked_sub top b) as [s|] eqn:Hs; simpl; [|done]. apply checked_sub_Some in Hs as [? ->].
  destruct (scan_loop _ _ _ _) as [rest|] eqn:Hl; [|done]. intros [= <-].
  destruct (scan_loop_fits _ _ _ _ _ Hb1 Hn Hl) as (bs & Hz & Hr & Hf).
  destruct (reads_local buf (b :: flat bs) rest) as (pre & -> & _ & Hk); [by econstructor|].
  exists pre, rest, b, bs. split; [done|]. split; [rewrite zlen_app; lia|].
  split; [rewrite <-(app_nil_r pre); apply Hk|]. done.
Qed.

(** The set a scanned frame stands for. *)
Lemma acked_ranges_spec top d pre b bs e : top < 2 ^ 62 → reads pre (b :: flat bs) [] → 0 ≤ b ≤ top →
  fits (top - b) bs → acked_ranges (mk_ack top d pre e) = rev (half_open <$> blocks_spec top b bs).
Proof.
  intros Ht Hr Hb Hf. unfold acked_ranges, ack_iter. cbn [largest additional].
  destruct (reads_local _ _ _ Hr) as (p & Hp & Hlen & _). rewrite app_nil_r in Hp. subst p.
  simpl in Hlen. rewrite length_flat in Hlen. f_equal. f_equal. apply ack_iter_blocks; (done || lia).
Qed.

Lemma max_end l x : 0 ≤ x → canon (-1) l → end_of (-1) l = x + 1 → ArrayRangeSet.max l = Some x.
Proof.
  intros Hx _ He. unfold end_of in He. unfold ArrayRangeSet.max. destruct (last l) as [[s e]|]; simpl in *; [|lia].
  apply checked_sub_Some. lia.
Qed.

Definition ecn_ok (e : option EcnCounts) : Prop :=
  match e with Some x => is_u 62 (ect0 x) ∧ is_u 62 (ect1 x) ∧ is_u 62 (ce x) | None => True end.

(** Reading back the counters at the end of a frame. *)
Lemma ecn_reads x : ecn_ok (Some x) →
  ∃ bytes, ecn_try_encode x = Ok bytes ∧ ∀ k, reads (bytes ++ k) [ect0 x; ect1 x; ce x] k.
Proof.
  intros (H0 & H1 & H2). unfold ecn_try_encode.
  destruct (write_var_ok _ H0) as [a Ha], (write_var_ok _ H1) as [b Hb], (write_var_ok _ H2) as [c Hc].
  rewrite Ha, Hb, Hc. exists (a ++ b ++ c). split; [done|]. intros k. rewrite <-!app_assoc.
  change [ect0 x; ect1 x; ce x] with ([ect0 x] ++ [ect1 x] ++ [ce x]).
  eapply reads_app; [by apply reads_write|]. eapply reads_app; by apply reads_write.
Qed.

Lemma get_var_write x bs k : is_u 62 x → write_var x = Ok bs → get_var (bs ++ k) = Ok (x, k).
Proof. intros [? _] Hw. by apply (decode_encode_checked x bs k). Qed.

Lemma length_pairs l : ∀ prev, zlen (pairs prev l) = zlen l.
Proof. induction l as [|[s e] l IH]; intros prev; [done|]. cbn [pairs]. by rewrite !zlen_cons, IH. Qed.

(** The blocks of ranges that were written pass the scan. *)
Lemma scan_written s t r b4 b5 k : 0 ≤ s < t → t ≤ 2 ^ 62 → descending s r → write_var (t - s - 1) = Ok b4 →
  (∀ k, reads (b5 ++ k) (flat (pairs s r)) k) →
  scan_ack_blocks (b4 ++ b5 ++ k) (t - 1) (zlen r) = Ok (zlen (b4 ++ b5)).
Proof.
  intros Hst Ht Hd H4 R5. unfold scan_ack_blocks.
  rewrite (get_var_write (t - s - 1) b4) by (done || unfold is_u; lia). cbn [from_end map_err].
  rewrite (proj2 (checked_sub_Some (t - 1) (t - s - 1) s)) by lia. cbn [ok_or].
  destruct (reads_local _ _ _ (R5 k)) as (p & Hp & Hlen & _). rewrite length_flat in Hlen.
  rewrite <-(length_pairs r s), (scan_loop_complete (pairs s r) _ _ s k);
    [|rewrite Hp, length_app; lia|done|by apply pairs_fit].
  f_equal. rewrite !zlen_app. lia.
Qed.

(** The tail of [decode_ack] on what was written. *)
Lemma decode_written ty top d n bs e b1 b2 b3 b6 rest :
  is_u 62 top → is_u 62 d → is_u 62 n → write_var top = Ok b1 → write_var d = Ok b2 → write_var n = Ok b3 →
  (∀ k, scan_ack_blocks (bs ++ k) top n = Ok (zlen bs)) →
  ty = match e with Some _ => ACK_ECN | None => ACK end →
  (∀ k, reads (b6 ++ k) (match e with Some x => [ect0 x; ect1 x; ce x] | None => [] end) k) →
  decode_ack ty (b1 ++ b2 ++ b3 ++ bs ++ b6 ++ rest) = Ok (mk_ack top d bs e, rest).
Proof.
  intros Ht Hd Hn H1 H2 H3 Hscan -> R6. unfold decode_ack.
  rewrite (get_var_write top b1) by done. cbn [from_end map_err].
  rewrite (get_var_write d b2) by done. cbn [from_end map_err].
  rewrite (get_var_write n b3) by done. cbn [from_end map_err]. rewrite Hscan.
  unfold ztake, zdrop. unfold zlen. rewrite Nat2Z.id, take_app_length, drop_app_length.
  specialize (R6 rest). destruct e as [[x0 x1 x2]|]; cbn [ect0 ect1 ce] in R6.
  - inversion R6 as [|? ? ? ? ? G0 R7]; subst. inversion R7 as [|? ? ? ? ? G1 R8]; subst.
    inversion R8 as [|? ? ? ? ? G2 R9]; subst. inversion R9; subst.
    cbn [negb Z.eqb ACK_ECN Pos.eqb]. rewrite G0. cbn [from_end map_err]. rewrite G1. cbn [from_end map_err].
    by rewrite G2.
  - by rewrite (reads_nil_inv _ _ R6).
Qed.

(** What an accepted frame is made of. *)
Lemma decode_ack_spec ty buf rest a : bytes_ok buf → decode_ack ty buf = Ok (a, rest) →
  ∃ d n b bs buf' tl, reads buf [largest a; d; n] buf' ∧ d = delay a ∧ buf' = additional a ++ tl
  ∧ reads (additional a) (b :: flat bs) [] ∧ zlen bs = n ∧ is_u 62 (largest a) ∧ 0 ≤ b ≤ largest a
  ∧ fits (largest a - b) bs ∧ is_u 62 d ∧ ecn_ok (ecn a) ∧ bytes_ok rest ∧ (length rest < length buf)%nat.
Proof.
  intros Hb Ha. unfold decode_ack in Ha. destruct (get_var buf) as [[top b1]|] eqn:G1; cbn [from_end map_err] in Ha; [|done].
  destruct (get_var_suffix _ _ _ Hb G1) as (Htop & Hb1 & ?).
  destruct (get_var b1) as [[d b2]|] eqn:G2; cbn [from_end map_err] in Ha; [|done].
  destruct (get_var_suffix _ _ _ Hb1 G2) as (Hdl & Hb2 & ?).
  destruct (get_var b2) as [[n b3]|] eqn:G3; cbn [from_end map_err] in Ha; [|done].
  destruct (get_var_suffix _ _ _ Hb2 G3) as ([Hn _] & Hb3 & ?).
  destruct (scan_ack_blocks b3 top n) as [m|] eqn:Hs; [|done].
  destruct (scan_ack_blocks_spec b3 top n m Hb3 Hn Hs) as (pre & tl & b & bs & -> & -> & Hr & Hz & Hb0 & Hf).
  unfold ztake, zdrop in Ha. unfold zlen in Ha. rewrite Nat2Z.id, take_app_length, drop_app_length in Ha.
  apply Forall_app in Hb3 as [_ Htl]. rewrite length_app in *.
  assert (largest a = top ∧ delay a = d ∧ additional a = pre ∧ ecn_ok (ecn a) ∧ bytes_ok rest
    ∧ (length rest ≤ length tl)%nat) as (-> & -> & -> & He & Hrest & Hlen).
  { destruct (negb _); [by simplify_eq/=|].
    destruct (get_var tl) as [[x0 t0]|] eqn:E0; cbn [from_end map_err] in Ha; [|done].
    destruct (get_var_suffix _ _ _ Htl E0) as (? & Ht0 & ?).
    destruct (get_var t0) as [[x1 t1]|] eqn:E1; cbn [from_end map_err] in Ha; [|done].
    destruct (get_var_suffix _ _ _ Ht0 E1) as (? & Ht1 & ?).
    destruct (get_var t1) as [[x2 t2]|] eqn:E2; cbn [from_end map_err] in Ha; [|done].
    destruct (get_var_suffix _ _ _ Ht1 E2) as (? & Ht2 & ?). simplify_eq/=. split_and!; (done || lia). }
  exists d, n, b, bs, (pre ++ tl), tl.
  split; [by repeat (econstructor; [done|]); constructor|]. split_and!; (done || lia).
Qed.

(** An ACK frame that is safe to walk. *)
Definition ack_ok (a : Ack) : Prop :=
  wf (acked_ranges a) ∧ ArrayRangeSet.max (acked_ranges a) = Some (largest a)
  ∧ is_u 62 (largest a) ∧ is_u 62 (delay a) ∧ ecn_ok (ecn a).

Lemma decode_ack_ok ty buf rest a : bytes_ok buf → decode_ack ty buf = Ok (a, rest) → ack_ok a.
Proof.
  intros Hb Ha. destruct (decode_ack_spec ty buf rest a Hb Ha) as
    (d & n & b & bs & buf' & tl & _ & -> & _ & Hadd & _ & Ht & Hb0 & Hf & Hd & He & _).
  destruct a as [top dl add e]. unfold ack_ok. cbn [largest delay additional ecn] in *. unfold is_u in Ht.
  rewrite (acked_ranges_spec top dl add b bs e) by (done || lia).
  destruct (blocks_canon bs top b Hb0 Hf) as [Hc He']. split; [done|].
  split; [apply max_end; [lia|done|done]|done].
Qed.

(** ** Theorems *)

(** An ACK frame on the wire.  For every canonical non-empty set of packet numbers below
    2^62, delay and counters that fit, the frame is encoded, and decoding it in front of any
    other bytes consumes exactly the frame and gives the delay, the counters, the largest number
    and, through the iterator, exactly the ranges of the set. *)
Theorem ack_frame_roundtrip (d : Z) (l : list range) (e : option EcnCounts) (rest : list Z)
  (Hl : wf l) (Hne : l ≠ []) (Hmax : end_of (-1) l ≤ 2 ^ 62) (Hn : zlen l < 2 ^ 62)
  (Hd : is_u 62 d) (He : ecn_ok e) :
  ∃ bytes ty body a, ack_try_encode d l e = Ok bytes
  ∧ get_var (bytes ++ rest) = Ok (ty, body) ∧ decode_ack ty body = Ok (a, rest)
  ∧ acked_ranges a = l ∧ ArrayRangeSet.max l = Some (largest a) ∧ delay a = d ∧ ecn a = e.
Proof.
  unfold wf in Hl. rewrite <-(rev_involutive l) in Hl, Hmax. unfold ack_try_encode.
  destruct (rev l) as [|[s t] r] eqn:Hrev; [by rewrite <-(rev_involutive l), Hrev in Hne|].
  destruct (canon_descending s t r Hl) as [Hst Hdesc]. cbn [rev] in Hmax. unfold end_of in Hmax.
  rewrite last_snoc in Hmax. cbn [snd] in Hmax.
  assert (l = rev ((s, t) :: r)) as Hlr by (by rewrite <-Hrev, rev_involutive).
  assert (zlen l - 1 = zlen r) as Hzl by (rewrite Hlr; unfold zlen; rewrite length_rev; simpl; lia).
  pose proof (zlen_nonneg r). rewrite Hzl. unfold wrapping_sub. rewrite !(wrap_small 64) by (unfold is_u; lia).
  set (ty := match e with Some _ => ACK_ECN | None => ACK end).
  assert (is_u 62 ty) as Hty by (unfold ty, is_u, ACK, ACK_ECN; destruct e; lia).
  destruct (write_var_ok ty Hty) as [b0 H0], (write_var_ok (t - 1)) as [b1 H1]; [unfold is_u; lia|].
  destruct (write_var_ok d Hd) as [b2 H2], (write_var_ok (zlen r)) as [b3 H3]; [unfold is_u; lia|].
  destruct (write_var_ok (t - s - 1)) as [b4 H4]; [unfold is_u; lia|].
  destruct (write_blocks_reads r s ltac:(lia) Hdesc) as (b5 & H5 & R5).
  assert (∃ b6, match e with Some x => ecn_try_encode x | None => Ok [] end = Ok b6
    ∧ ∀ k, reads (b6 ++ k) (match e with Some x => [ect0 x; ect1 x; ce x] | None => [] end) k) as (b6 & H6 & R6).
  { destruct e as [x|]; [by apply ecn_reads|]. exists []. split; [done|]. intros. constructor. }
  rewrite H0, H1, H2, H3, H4, H5, H6.
  exists (b0 ++ b1 ++ b2 ++ b3 ++ b4 ++ b5 ++ b6), ty, (b1 ++ b2 ++ b3 ++ (b4 ++ b5) ++ b6 ++ rest),
    (mk_ack (t - 1) d (b4 ++ b5) e).
  split; [done|]. split; [rewrite <-!app_assoc; by apply get_var_write|].
  split; [|split; [|split; [|done]]].
  - apply (decode_written ty (t - 1) d (zlen r)); try done; try (unfold is_u; lia).
    intros k. rewrite <-app_assoc. by apply (scan_written s t).
  - rewrite Hlr, (acked_ranges_spec (t - 1) d (b4 ++ b5) (t - s - 1) (pairs s r) e); [by rewrite pairs_ranges|lia| |lia|].
    + change (t - s - 1 :: flat (pairs s r)) with ([t - s - 1] ++ flat (pairs s r)).
      eapply reads_app; [apply reads_write; [unfold is_u; lia|done]|]. rewrite <-(app_nil_r b5). apply R5.
    + replace (t - 1 - (t - s - 1)) with s by lia. by apply pairs_fit.
  - rewrite Hlr. cbn [rev largest]. unfold ArrayRangeSet.max. rewrite last_snoc. simpl. apply checked_sub_Some. lia.
Qed.

Lemma ack_frame_roundtrip_witness :
  ∃ bytes ty body a, ack_try_encode 300 [(0, 3); (5, 70)] (Some (mk_ecn 9 0 1)) = Ok bytes
  ∧ get_var (bytes ++ [1; 2]) = Ok (ty, body) ∧ decode_ack ty body = Ok (a, [1; 2])
  ∧ acked_ranges a = [(0, 3); (5, 70)] ∧ ArrayRangeSet.max [(0, 3); (5, 70)] = Some (largest a)
  ∧ delay a = 300 ∧ ecn a = Some (mk_ecn 9 0 1).
Proof.
  apply (ack_frame_roundtrip 300 [(0, 3); (5, 70)]); unfold wf, is_u, ecn_ok; simpl; unfold is_u; try lia; done.
Defined.

(** An ACK frame from any peer.  Whatever bytes arrive, if the frame is accepted, walking
    its blocks never goes below zero: the ranges the iterator yields are non-empty, disjoint,
    not adjacent, in decreasing order, as many as announced, and start at the largest number. *)
Theorem ack_decode_safe (ty : Z) (buf rest : list Z) (a : Ack) (Hb : bytes_ok buf)
  (Ha : decode_ack ty buf = Ok (a, rest)) :
  wf (acked_ranges a) ∧ ArrayRangeSet.max (acked_ranges a) = Some (largest a) ∧ is_u 62 (largest a)
  ∧ ∃ d n buf', reads buf [largest a; d; n] buf' ∧ zlen (acked_ranges a) = n + 1
    ∧ d = delay a ∧ ∃ tl, buf' = additional a ++ tl.
Proof.
  destruct (decode_ack_ok ty buf rest a Hb Ha) as (Hw & Hm & Hl & _). split_and!; try done.
  destruct (decode_ack_spec ty buf rest a Hb Ha) as
    (d & n & b & bs & buf' & tl & Hr & Hd & -> & Hadd & Hz & _ & Hb0 & Hf & _).
  exists d, n, (additional a ++ tl). split; [done|]. split; [|split; [done|by exists tl]].
  destruct a as [top dl add e]. cbn [largest delay additional] in *. unfold is_u in Hl.
  rewrite (acked_ranges_spec top dl add b bs e) by (done || lia).
  rewrite <-Hz. unfold zlen. rewrite length_rev, length_fmap, length_blocks_spec. lia.
Qed.

Lemma ack_decode_safe_witness :
  match decode_ack ACK [20; 0; 1; 3; 2; 4; 99] with
  | Ok (a, _) => wf (acked_ranges a) ∧ acked_ranges a = [(9, 14); (17, 21)]
  | Err _ => False
  end.
Proof.
  destruct (decode_ack ACK [20; 0; 1; 3; 2; 4; 99]) as [[a rest]|] eqn:Ha; [|by vm_compute in Ha].
  split; [|by vm_compute in Ha; simplify_eq].
  apply (ack_decode_safe ACK [20; 0; 1; 3; 2; 4; 99] rest a); [|done].
  repeat (constructor; [unfold is_byte, is_u; lia|]). constructor.
Defined.

End AckFrame.
