(* ===== verification/AckFrequency.v ===== *)
(** * The ACK frequency extension

    Models [src/connection/ack_frequency.rs]: the ACK_FREQUENCY frames sent to the
    peer, with the delay in flight until the frame is acknowledged, and the frames
    received from it, which set the thresholds of the Data space's [PendingAcks].

    Durations are nanoseconds.  The proportional difference of two durations, computed
    in single precision by [should_send_ack_frequency], is a parameter. *)

From Stdlib Require Import String.
From S2P Require Import Prelude Coding RangeSets Dedup Spaces.

Module AckFrequency.

Definition TIMER_GRANULARITY : Z := 1000000.
Definition MIN_AUTOMATIC_ACK_DELAY : Z := 25000000.
Definition from_micros (us : Z) : Z := us * 1000.

Record AckFrequencyState := mk_ack_frequency {
  in_flight_ack_frequency_frame : option (Z * Z);
  next_outgoing_sequence_number : Z;
  peer_max_ack_delay : Z;
  last_ack_frequency_frame : option Z;
  max_ack_delay : Z
}.

(** The fields of the received frame. *)
Record AckFrequencyFrame := mk_frame {
  sequence : Z;
  ack_eliciting_threshold : Z;
  request_max_ack_delay : Z;
  reordering_threshold : Z
}.

Definition new (default_max_ack_delay : Z) : AckFrequencyState :=
  mk_ack_frequency None 0 default_max_ack_delay None default_max_ack_delay.

(** [Ord::clamp]; [None] is the panic of its assertion [min <= max]. *)
Definition clamp (x lo hi : Z) : option Z :=
  if lo <=? hi then Some (if x <? lo then lo else if hi <? x then hi else x) else None.

(** [config_delay] is the configured delay, [min_ack_delay] the peer's transport
    parameter in microseconds. *)
Definition candidate_max_ack_delay (a : AckFrequencyState) (rtt : Z) (config_delay min_ack_delay : option Z)
  : option Z :=
  clamp (default (peer_max_ack_delay a) config_delay)
    (from_micros (default 0 min_ack_delay)) (Z.max rtt MIN_AUTOMATIC_ACK_DELAY).

Definition max_ack_delay_for_pto (a : AckFrequencyState) : Z :=
  match in_flight_ack_frequency_frame a with
  | Some (_, max_ack_delay) => Z.max (peer_max_ack_delay a) max_ack_delay
  | None => peer_max_ack_delay a
  end.

Definition next_sequence_number (a : AckFrequencyState) : option (Z * AckFrequencyState) :=
  if next_outgoing_sequence_number a <=? u_max 62 then
    Some (next_outgoing_sequence_number a,
          mk_ack_frequency (in_flight_ack_frequency_frame a) (next_outgoing_sequence_number a + 1)
            (peer_max_ack_delay a) (last_ack_frequency_frame a) (max_ack_delay a))
  else None.

Section should_send.
(** Whether the proportional difference of [desired] to [current] exceeds [MAX_RTT_ERROR]. *)
Variable rtt_error_exceeded : Z → Z → bool.

Definition should_send_ack_frequency (a : AckFrequencyState) (rtt : Z) (config_delay min_ack_delay : option Z)
  : option bool :=
  if next_outgoing_sequence_number a =? 0 then Some true
  else
    let current := match in_flight_ack_frequency_frame a with
                   | Some (_, pending) => pending
                   | None => peer_max_ack_delay a
                   end in
    match candidate_max_ack_delay a rtt config_delay min_ack_delay with
    | None => None
    | Some desired => Some (rtt_error_exceeded desired current)
    end.

End should_send.

Definition ack_frequency_sent (pn requested_max_ack_delay : Z) (a : AckFrequencyState) : AckFrequencyState :=
  mk_ack_frequency (Some (pn, requested_max_ack_delay)) (next_outgoing_sequence_number a)
    (peer_max_ack_delay a) (last_ack_frequency_frame a) (max_ack_delay a).

Definition on_acked (pn : Z) (a : AckFrequencyState) : AckFrequencyState :=
  match in_flight_ack_frequency_frame a with
  | Some (number, requested_max_ack_delay) =>
    if number =? pn then
      mk_ack_frequency None (next_outgoing_sequence_number a) requested_max_ack_delay
        (last_ack_frequency_frame a) (max_ack_delay a)
    else a
  | None => a
  end.

Definition ack_frequency_received (frame : AckFrequencyFrame) (a : AckFrequencyState)
  (pa : PendingAcks.PendingAcks)
  : result bool string * AckFrequencyState * PendingAcks.PendingAcks :=
  if (match last_ack_frequency_frame a with
      | Some highest_sequence_nr => sequence frame <=? highest_sequence_nr
      | None => false
      end)
  then (Ok false, a, pa)
  else
    let a := mk_ack_frequency (in_flight_ack_frequency_frame a) (next_outgoing_sequence_number a)
               (peer_max_ack_delay a) (Some (sequence frame)) (max_ack_delay a) in
    let delay := from_micros (request_max_ack_delay frame) in
    if delay <? TIMER_GRANULARITY then
      (Err "Requested Max Ack Delay in ACK_FREQUENCY frame is less than min_ack_delay"%string, a, pa)
    else
      (Ok true,
       mk_ack_frequency (in_flight_ack_frequency_frame a) (next_outgoing_sequence_number a)
         (peer_max_ack_delay a) (last_ack_frequency_frame a) delay,
       PendingAcks.set_ack_frequency_params (ack_eliciting_threshold frame) (reordering_threshold frame) pa).

(** ** The peer's transport parameters *)

(** [validate_max_ack_delay] and [validate_min_ack_delay]: milliseconds and microseconds. *)
Definition validate_max_ack_delay (value : Z) : bool := negb (value >=? Z.shiftl 1 14).

Definition validate_min_ack_delay (min_delay : option Z) (max_delay : Z) : bool :=
  match min_delay with Some min => negb (min >? wrap 64 (max_delay * 1000)) | None => true end.

(** ** Received frames in any order *)

(** The state after the frames [fs], as long as none is an error. *)
Fixpoint receive_all (fs : list AckFrequencyFrame) (a : AckFrequencyState) (pa : PendingAcks.PendingAcks)
  : option (AckFrequencyState * PendingAcks.PendingAcks) :=
  match fs with
  | [] => Some (a, pa)
  | f :: fs =>
    match ack_frequency_received f a pa with
    | (Ok _, a, pa) => receive_all fs a pa
    | (Err _, _, _) => None
    end
  end.

(** The state shows the parameters of frame [f]. *)
Definition shows (f : AckFrequencyFrame) (a : AckFrequencyState) (pa : PendingAcks.PendingAcks) : Prop :=
  last_ack_frequency_frame a = Some (sequence f)
  ∧ max_ack_delay a = from_micros (request_max_ack_delay f)
  ∧ PendingAcks.ack_eliciting_threshold pa = ack_eliciting_threshold f
  ∧ PendingAcks.reordering_threshold pa = reordering_threshold f.

Lemma receive_all_spec fs : ∀ a pa a' pa' done_,
  receive_all fs a pa = Some (a', pa') →
  (match last_ack_frequency_frame a with
   | Some n => ∃ f, f ∈ done_ ∧ sequence f = n ∧ shows f a pa ∧ ∀ g, g ∈ done_ → sequence g ≤ n
   | None => done_ = []
   end) →
  match last_ack_frequency_frame a' with
  | Some n => ∃ f, f ∈ done_ ++ fs ∧ sequence f = n ∧ shows f a' pa' ∧ ∀ g, g ∈ done_ ++ fs → sequence g ≤ n
  | None => done_ ++ fs = []
  end.
Proof.
  induction fs as [|f fs IH]; intros a pa a' pa' done_; [intros [= <- <-]; by rewrite app_nil_r|].
  intros Hrun Hst. cbn [receive_all] in Hrun.
  assert (done_ ++ f :: fs = (done_ ++ [f]) ++ fs) as -> by by rewrite <-app_assoc.
  unfold ack_frequency_received in Hrun.
  destruct (last_ack_frequency_frame a) as [n|] eqn:Hl.
  - destruct Hst as (f0 & Hin & Hn & Hsh & Hmax). destruct (Z.leb_spec (sequence f) n).
    + eapply IH; [exact Hrun|]. rewrite Hl. exists f0. rewrite elem_of_app.
      split; [by left|]. split; [done|]. split; [done|].
      intros g [?|Hg%list_elem_of_singleton]%elem_of_app; [by auto|by subst].
    + destruct (_ <? TIMER_GRANULARITY); [done|]. eapply IH; [exact Hrun|]. cbn. exists f.
      rewrite elem_of_app, list_elem_of_singleton. split; [by right|]. split; [done|]. split; [done|].
      intros g [Hg|Hg%list_elem_of_singleton]%elem_of_app; [specialize (Hmax g Hg); lia|by subst].
  - subst done_. destruct (_ <? TIMER_GRANULARITY); [done|]. eapply IH; [exact Hrun|]. cbn. exists f.
    split; [apply list_elem_of_here|]. split; [done|]. split; [done|]. intros g Hg%list_elem_of_singleton. by subst.
Qed.

(** ** Theorems *)

(** Reordered ACK_FREQUENCY frames.  Whatever frames have been processed without an
    error and in whatever order, the delay and both thresholds in force are those of one frame
    with the highest sequence number: an older frame that arrives late changes nothing. *)
Theorem ack_frequency_latest (d : Z) (fs : list AckFrequencyFrame) (a : AckFrequencyState)
  (pa : PendingAcks.PendingAcks) (Hne : fs ≠ [])
  (Hrun : receive_all fs (new d) PendingAcks.new = Some (a, pa)) :
  ∃ f, f ∈ fs ∧ shows f a pa ∧ ∀ g, g ∈ fs → sequence g ≤ sequence f.
Proof.
  pose proof (receive_all_spec fs _ _ _ _ [] Hrun eq_refl) as H. simpl in H.
  destruct (last_ack_frequency_frame a); [|done]. destruct H as (f & ? & <- & ? & ?). by exists f.
Qed.

Definition frame_a : AckFrequencyFrame := mk_frame 1 10 20000 3.
Definition frame_b : AckFrequencyFrame := mk_frame 0 2 5000 1.

Lemma ack_frequency_latest_witness :
  ∃ f, f ∈ [frame_a; frame_b]
  ∧ shows f (mk_ack_frequency None 0 25000000 (Some 1) 20000000)
      (PendingAcks.set_ack_frequency_params 10 3 PendingAcks.new)
  ∧ ∀ g, g ∈ [frame_a; frame_b] → sequence g ≤ sequence f.
Proof. by apply (ack_frequency_latest 25000000 [frame_a; frame_b]). Defined.

(** The delay requested of the peer.  It is at least the peer's minimum and at most the
    larger of the round-trip time and 25 ms; the computation panics exactly if the peer's
    minimum is above that bound. *)
Theorem candidate_delay_exact (a : AckFrequencyState) (rtt : Z) (config_delay min_ack_delay : option Z) :
  let lo := from_micros (default 0 min_ack_delay) in
  let hi := Z.max rtt MIN_AUTOMATIC_ACK_DELAY in
  match candidate_max_ack_delay a rtt config_delay min_ack_delay with
  | Some d => lo ≤ d ≤ hi
              ∧ (lo ≤ default (peer_max_ack_delay a) config_delay ≤ hi →
                 d = default (peer_max_ack_delay a) config_delay)
  | None => hi < lo
  end.
Proof.
  unfold candidate_max_ack_delay, clamp. cbv zeta.
  destruct (Z.leb_spec (from_micros (default 0 min_ack_delay)) (Z.max rtt MIN_AUTOMATIC_ACK_DELAY)); [|done].
  set (x := default (peer_max_ack_delay a) config_delay).
  destruct (Z.ltb_spec x (from_micros (default 0 min_ack_delay))); [split; lia|].
  destruct (Z.ltb_spec (Z.max rtt MIN_AUTOMATIC_ACK_DELAY) x); split; lia.
Qed.

(** A peer can cause that panic.  A minimum of 500 ms with a maximum of one second passes
    the validation of the transport parameters, and with a round-trip time of 30 ms the
    computation of the delay to request panics. *)
Example candidate_delay_panics :
  validate_max_ack_delay 1000 = true
  ∧ validate_min_ack_delay (Some 500000) 1000 = true
  ∧ candidate_max_ack_delay (new 25000000) 30000000 None (Some 500000) = None
  ∧ ∀ err, should_send_ack_frequency err
      (mk_ack_frequency None 1 25000000 None 25000000) 30000000 None (Some 500000) = None.
Proof. by vm_compute. Qed.

End AckFrequency.
