(* ===== verification/Cids.v ===== *)
(** * Connection identifiers

    Models [src/cid_queue.rs], the window of connection identifiers the peer has issued
    to us, kept in a ring buffer around the active one, and
    [src/connection/cid_state.rs], the identifiers we have issued to the peer.

    The queue is shown to implement a finite map from sequence numbers to identifiers
    with a lower bound, whatever the position of the ring. *)

From Stdlib Require Import String.
From stdpp Require Import gmap.
From S2P Require Import Prelude.

#[local] Open Scope Z_scope.

Module CidQueue.

Definition LEN : Z := 5.

(** [ConnectionId] and [ResetToken] are byte strings. *)
Definition CidData : Type := list Z * option (list Z).

Record CidQueue := mk_queue { buffer : list (option CidData); cursor : Z; offset : Z }.

(** The fields of a [NEW_CONNECTION_ID] frame. *)
Record NewConnectionId := mk_new_cid {
  sequence : Z; retire_prior_to : Z; nc_id : list Z; reset_token : list Z
}.

Inductive InsertError := Retired | ExceedsLimit.

(** [self.buffer[i]]; the index is always in range. *)
Definition get (l : list (option CidData)) (i : Z) : option CidData := mjoin (l !! Z.to_nat i).
Definition set (l : list (option CidData)) (i : Z) (v : option CidData) : list (option CidData) :=
  <[Z.to_nat i := v]> l.

Definition new (cid : list Z) : CidQueue :=
  mk_queue (set (replicate (Z.to_nat LEN) None) 0 (Some (cid, None))) 0 0.

Definition iter (q : CidQueue) : list (Z * CidData) :=
  omap (λ step, pair step <$> get (buffer q) ((cursor q + step) mod LEN)) (seqZ 0 LEN).

(** The loop that discards the first [n] identifiers from the cursor. *)
Definition discard (l : list (option CidData)) (cursor n : Z) : list (option CidData) :=
  fold_left (λ l i, set l ((cursor + i) mod LEN) None) (seqZ 0 n) l.

Definition insert (cid : NewConnectionId) (q : CidQueue)
  : result (option ((Z * Z) * list Z)) InsertError * CidQueue :=
  match checked_sub (sequence cid) (offset q) with
  | None => (Err Retired, q)
  | Some index =>
    let retired_count := saturating_sub (retire_prior_to cid) (offset q) in
    if index >=? LEN + retired_count then (Err ExceedsLimit, q)
    else
      let buf := discard (buffer q) (cursor q) (Z.min retired_count LEN) in
      let buf := set buf ((cursor q + index) mod LEN) (Some (nc_id cid, Some (reset_token cid))) in
      if retired_count =? 0 then (Ok None, mk_queue buf (cursor q) (offset q))
      else
        let q' := mk_queue buf ((cursor q + retired_count) mod LEN) (offset q) in
        match head (iter q') with
        | None => (Ok None, q')
        | Some (i, (_, token)) =>
          let orig_offset := offset q in
          let q' := mk_queue buf ((cursor q' + i) mod LEN) (retire_prior_to cid + i) in
          match token with
          | None => (Ok None, q')
          | Some token => (Ok (Some ((orig_offset, Z.min (offset q') (orig_offset + LEN)), token)), q')
          end
        end
  end.

Definition next (q : CidQueue) : option (list Z * (Z * Z)) * CidQueue :=
  match iter q !! 1%nat with
  | None => (None, q)
  | Some (i, cid_data) =>
    let orig_offset := offset q in
    let q' := mk_queue (set (buffer q) (cursor q) None) ((cursor q + i) mod LEN) (offset q + i) in
    (match cid_data.2 with Some token => Some (token, (orig_offset, offset q')) | None => None end, q')
  end.

Definition update_initial_cid (cid : list Z) (q : CidQueue) : CidQueue :=
  mk_queue (set (buffer q) (cursor q) (Some (cid, None))) (cursor q) (offset q).

Definition active (q : CidQueue) : list Z :=
  match get (buffer q) (cursor q) with Some (id, _) => id | None => [] end.

Definition active_seq (q : CidQueue) : Z := offset q.

(** ** The queue as a map from sequence numbers *)

(** The identifier with sequence number [s]. *)
Definition at_seq (q : CidQueue) (s : Z) : option CidData :=
  if (offset q <=? s) && (s <? offset q + LEN)
  then get (buffer q) ((cursor q + (s - offset q)) mod LEN) else None.

(** The active identifier is known, and only the handshake's has no reset token. *)
Record queue_inv (q : CidQueue) : Prop := {
  qi_length : length (buffer q) = Z.to_nat LEN;
  qi_cursor : 0 ≤ cursor q < LEN;
  qi_offset : 0 ≤ offset q;
  qi_active : is_Some (at_seq q (offset q));
  qi_token : ∀ s id, at_seq q s = Some (id, None) → s = 0
}.

Ltac mod5 := unfold LEN in *; Z.to_euclidean_division_equations; lia.

Lemma get_set l i j v : length l = Z.to_nat LEN → 0 ≤ i < LEN → 0 ≤ j < LEN →
  get (set l i v) j = if i =? j then v else get l j.
Proof.
  intros Hl Hi Hj. unfold get, set. destruct (Z.eqb_spec i j) as [->|].
  - rewrite list_lookup_insert_eq by lia. done.
  - rewrite list_lookup_insert_ne by lia. done.
Qed.

Lemma length_set l i v : length (set l i v) = length l.
Proof. apply length_insert. Qed.

Lemma mod_LEN_range x : 0 ≤ x mod LEN < LEN.
Proof. apply Z.mod_pos_bound. done. Qed.

Lemma length_discard l c n : length (discard l c n) = length l.
Proof.
  unfold discard. generalize (seqZ 0 n). intros idx. revert l.
  induction idx as [|i idx IH]; intros l; simpl; [done|]. by rewrite IH, length_set.
Qed.

(** Seen from the cursor, the first [n] are gone. *)
Lemma get_discard l c n k : length l = Z.to_nat LEN → 0 ≤ n ≤ LEN →
  get (discard l c n) ((c + k) mod LEN) = if k mod LEN <? n then None else get l ((c + k) mod LEN).
Proof.
  intros Hl Hn. unfold discard. revert Hn.
  assert (∀ m : nat, Z.of_nat m ≤ LEN →
    get (fold_left (λ l i, set l ((c + i) mod LEN) None) (seqZ 0 (Z.of_nat m)) l) ((c + k) mod LEN)
    = if k mod LEN <? Z.of_nat m then None else get l ((c + k) mod LEN)) as Hm.
  { induction m as [|m IH]; intros Hle.
    - change (seqZ 0 (Z.of_nat 0)) with (@nil Z). cbn [fold_left].
      rewrite (proj2 (Z.ltb_ge _ _)); [done|]. pose proof (mod_LEN_range k). lia.
    - rewrite Nat2Z.inj_succ, <-Z.add_1_r, seqZ_app, fold_left_app by lia. simpl.
      rewrite get_set; [|by rewrite <-Hl; apply (length_discard l c (Z.of_nat m))|apply mod_LEN_range..].
      rewrite IH by lia. replace (Z.of_nat 0 + (0 + Z.of_nat m)) with (Z.of_nat m) by lia.
      destruct (Z.eqb_spec ((c + Z.of_nat m) mod LEN) ((c + k) mod LEN)) as [He|He].
      + destruct (Z.ltb_spec (k mod LEN) (Z.of_nat m + 1)); [done|mod5].
      + destruct (Z.ltb_spec (k mod LEN) (Z.of_nat m)), (Z.ltb_spec (k mod LEN) (Z.of_nat m + 1)); try done; mod5. }
  intros Hn. rewrite <-(Z2Nat.id n) at 1 2 by lia. rewrite Hm by lia. by rewrite Z2Nat.id by lia.
Qed.

(** What the ring shows [k] places after position [c]. *)
Definition view (buf : list (option CidData)) (c k : Z) : option CidData := get buf ((c + k) mod LEN).

Lemma iter_views q : iter q = omap (λ step, pair step <$> view (buffer q) (cursor q) step) [0; 1; 2; 3; 4].
Proof. done. Qed.

(** [iter().next()]: the first identifier. *)
Lemma iter_head q :
  match head (iter q) with
  | Some (i, d) => 0 ≤ i < LEN ∧ view (buffer q) (cursor q) i = Some d
                   ∧ ∀ k, 0 ≤ k < i → view (buffer q) (cursor q) k = None
  | None => ∀ k, 0 ≤ k < LEN → view (buffer q) (cursor q) k = None
  end.
Proof.
  rewrite iter_views. generalize (view (buffer q) (cursor q)). intros f. unfold LEN.
  assert (∀ k, 0 ≤ k < 5 → k = 0 ∨ k = 1 ∨ k = 2 ∨ k = 3 ∨ k = 4) as Hk by lia.
  cbn [omap list_omap]. repeat (destruct (f _) eqn:? in |- *; cbn [fmap option_fmap option_map head];
    [split; [lia|]; split; [done|]; intros k ?; destruct (Hk k) as [?|[?|[?|[?|?]]]]; [lia|subst..]; (done || lia)|]).
  intros k ?. destruct (Hk k) as [?|[?|[?|[?|?]]]]; [lia|subst..]; done.
Qed.

(** [iter().nth(1)], when the first identifier is the active one. *)
Lemma iter_second q : is_Some (view (buffer q) (cursor q) 0) →
  match iter q !! 1%nat with
  | Some (i, d) => 0 < i < LEN ∧ view (buffer q) (cursor q) i = Some d
                   ∧ ∀ k, 0 < k < i → view (buffer q) (cursor q) k = None
  | None => ∀ k, 0 < k < LEN → view (buffer q) (cursor q) k = None
  end.
Proof.
  rewrite iter_views. generalize (view (buffer q) (cursor q)). intros f [d0 H0]. unfold LEN.
  assert (∀ k, 0 < k < 5 → k = 1 ∨ k = 2 ∨ k = 3 ∨ k = 4) as Hk by lia.
  cbn [omap list_omap]. rewrite H0. cbn [fmap option_fmap option_map lookup list_lookup].
  repeat (destruct (f _) eqn:? in |- *; cbn [fmap option_fmap option_map lookup list_lookup];
    [split; [lia|]; split; [done|]; intros k ?; destruct (Hk k) as [?|[?|[?|?]]]; [lia|subst..]; (done || lia)|]).
  intros k ?. destruct (Hk k) as [?|[?|[?|?]]]; [lia|subst..]; done.
Qed.

Lemma view_at_seq q s : offset q ≤ s < offset q + LEN →
  view (buffer q) (cursor q) (s - offset q) = at_seq q s.
Proof.
  intros. unfold at_seq, view. by rewrite (proj2 (Z.leb_le _ _)), (proj2 (Z.ltb_lt _ _)) by lia.
Qed.

Lemma at_seq_outside q s : s < offset q ∨ offset q + LEN ≤ s → at_seq q s = None.
Proof.
  intros. unfold at_seq. destruct (Z.leb_spec (offset q) s), (Z.ltb_spec s (offset q + LEN)); (done || lia).
Qed.

(** What a frame should do to the map: add the new identifier, forget those below [floor]. *)
Definition learn (m : Z → option CidData) (floor : Z) (cid : NewConnectionId) (s : Z) : option CidData :=
  if s =? sequence cid then Some (nc_id cid, Some (reset_token cid))
  else if s <? floor then None else m s.

(** The buffer after the two writes of [insert], seen from the first place not retired. *)
Lemma insert_view q cid retired : queue_inv q → 0 ≤ retired →
  offset q + retired ≤ sequence cid < offset q + retired + LEN →
  let buf := set (discard (buffer q) (cursor q) (Z.min retired LEN))
               ((cursor q + (sequence cid - offset q)) mod LEN) (Some (nc_id cid, Some (reset_token cid))) in
  ∀ k, 0 ≤ k < LEN →
    view buf (cursor q + retired) k = learn (at_seq q) (offset q + retired) cid (offset q + retired + k).
Proof.
  intros [] Hr Hseq buf k Hk. unfold view, learn, buf.
  rewrite get_set by (apply mod_LEN_range || by rewrite length_discard).
  destruct (Z.eqb_spec (offset q + retired + k) (sequence cid)) as [He|He].
  - rewrite (proj2 (Z.eqb_eq _ _)); [done|]. f_equal. lia.
  - rewrite (proj2 (Z.eqb_neq _ _)) by mod5.
    rewrite (proj2 (Z.ltb_ge _ _)) by lia.
    rewrite <-Z.add_assoc, get_discard by (done || unfold LEN; lia).
    destruct (Z.ltb_spec ((retired + k) mod LEN) (Z.min retired LEN)).
    + rewrite at_seq_outside; [done|]. right. mod5.
    + assert (retired + k < LEN) by mod5. rewrite <-view_at_seq by lia. unfold view. do 2 f_equal. lia.
Qed.

(** A queue that has moved on to the first identifier it sees from [base]. *)
Lemma moved_at_seq buf c i m base : (∀ k, 0 ≤ k < LEN → view buf c k = m (base + k)) →
  (∀ s, s < base ∨ base + LEN ≤ s → m s = None) → 0 ≤ i < LEN →
  (∀ k, 0 ≤ k < i → view buf c k = None) →
  ∀ s, at_seq (mk_queue buf ((c + i) mod LEN) (base + i)) s = m s.
Proof.
  intros Hview Hout Hi Hnone s. destruct (decide (s < base + i)) as [Hlo|Hlo].
  { rewrite at_seq_outside by (simpl; lia). destruct (decide (s < base)); [by rewrite Hout by lia|].
    rewrite <-(Hnone (s - base)), Hview by lia. f_equal. lia. }
  destruct (decide (base + i + LEN ≤ s)).
  { rewrite at_seq_outside by (simpl; lia). by rewrite Hout by lia. }
  rewrite <-view_at_seq by (simpl; lia). cbn [buffer cursor offset]. unfold view in *.
  destruct (decide (s - base < LEN)).
  - rewrite Z.add_mod_idemp_l by done. replace (c + i + (s - (base + i))) with (c + (s - base)) by lia.
    rewrite Hview by lia. f_equal. lia.
  - rewrite (Hout s) by lia. rewrite Z.add_mod_idemp_l by done.
    rewrite <-(Hnone (s - base - LEN)) by lia. f_equal. mod5.
Qed.

Lemma view_mod buf c k : view buf (c mod LEN) k = view buf c k.
Proof. unfold view. by rewrite Z.add_mod_idemp_l by done. Qed.

Lemma learn_outside q floor cid s : offset q ≤ floor → floor ≤ sequence cid < floor + LEN →
  s < floor ∨ floor + LEN ≤ s → learn (at_seq q) floor cid s = None.
Proof.
  intros. unfold learn. rewrite (proj2 (Z.eqb_neq _ _)) by lia.
  destruct (Z.ltb_spec s floor); [done|]. apply at_seq_outside. lia.
Qed.

(** A queue that shows the map [learn] gives is well formed. *)
Lemma learned_inv q q' floor cid : queue_inv q → length (buffer q') = Z.to_nat LEN →
  0 ≤ cursor q' < LEN → 0 ≤ offset q' → (∀ s, at_seq q' s = learn (at_seq q) floor cid s) →
  is_Some (learn (at_seq q) floor cid (offset q')) → queue_inv q'.
Proof.
  intros [] Hl Hc Ho Hm Ha. split; [done|done|done|by rewrite Hm|].
  intros s id. rewrite Hm. unfold learn. case_goal; [done|]. case_goal; [done|]. apply qi_token0.
Qed.

(** What [insert] promises, case by case. *)
Definition insert_spec (q : CidQueue) (cid : NewConnectionId)
  (r : result (option ((Z * Z) * list Z)) InsertError) (q' : CidQueue) : Prop :=
  let floor := Z.max (offset q) (retire_prior_to cid) in
  if sequence cid <? offset q then r = Err Retired ∧ q' = q
  else if floor + LEN <=? sequence cid then r = Err ExceedsLimit ∧ q' = q
  else queue_inv q' ∧ (∀ s, at_seq q' s = learn (at_seq q) floor cid s) ∧ floor ≤ offset q'
    ∧ if retire_prior_to cid <=? offset q then r = Ok None ∧ offset q' = offset q
      else ∃ id token, at_seq q' (offset q') = Some (id, Some token)
           ∧ r = Ok (Some ((offset q, Z.min (offset q') (offset q + LEN)), token)).

Lemma insert_correct q cid : queue_inv q → 0 ≤ retire_prior_to cid ≤ sequence cid →
  insert_spec q cid (insert cid q).1 (insert cid q).2.
Proof.
  intros Hq Hrp. pose proof Hq as []. unfold insert_spec, insert.
  destruct (Z.ltb_spec (sequence cid) (offset q)) as [Hlt|Hge].
  { by rewrite (proj2 (checked_sub_None _ _)) by lia. }
  rewrite (proj2 (checked_sub_Some (sequence cid) (offset q) _)) by (split; [lia|done]).
  unfold saturating_sub. set (rc := Z.max 0 (retire_prior_to cid - offset q)).
  rewrite Z.geb_leb. replace (Z.max (offset q) (retire_prior_to cid)) with (offset q + rc) by lia.
  destruct (Z.leb_spec (offset q + rc + LEN) (sequence cid)).
  { by rewrite (proj2 (Z.leb_le _ _)) by lia. }
  rewrite (proj2 (Z.leb_gt (LEN + rc) _)) by lia.
  set (buf := set _ _ _). assert (length buf = Z.to_nat LEN) as Hlen by (unfold buf; by rewrite length_set, length_discard).
  assert (∀ k, 0 ≤ k < LEN → view buf (cursor q + rc) k = learn (at_seq q) (offset q + rc) cid (offset q + rc + k)) as Hview
    by (apply insert_view; [done|lia|lia]).
  assert (∀ s, s < offset q + rc ∨ offset q + rc + LEN ≤ s → learn (at_seq q) (offset q + rc) cid s = None) as Hout
    by (intros; apply learn_outside; lia).
  destruct (Z.eqb_spec rc 0) as [Hrc|Hrc]; cbn [fst snd].
  - pose proof (moved_at_seq buf (cursor q + rc) 0 _ _ Hview Hout ltac:(done) ltac:(lia)) as Hm.
    rewrite Hrc, !Z.add_0_r, Z.mod_small in Hm by lia. rewrite Hrc, Z.add_0_r in *.
    rewrite (proj2 (Z.leb_le (retire_prior_to cid) _)) by lia. cbn [offset].
    split; [|by auto with lia]. apply (learned_inv q _ (offset q) cid); try done. cbn [offset]. unfold learn.
    case_goal; [done|]. by rewrite (proj2 (Z.ltb_ge _ _)) by lia.
  - rewrite (proj2 (Z.leb_gt (retire_prior_to cid) (offset q))) by lia.
    pose proof (iter_head (mk_queue buf ((cursor q + rc) mod LEN) (offset q))) as Hh.
    cbn [buffer cursor] in Hh.
    destruct (head _) as [[i [id token]]|].
    2: { specialize (Hh (sequence cid - (offset q + rc)) ltac:(lia)). rewrite view_mod, Hview in Hh by lia.
         replace (offset q + rc + (sequence cid - (offset q + rc))) with (sequence cid) in Hh by lia.
         unfold learn in Hh. by rewrite Z.eqb_refl in Hh. }
    destruct Hh as (Hi & Hd & Hnone). rewrite view_mod in Hd.
    assert (∀ k, 0 ≤ k < i → view buf (cursor q + rc) k = None) as Hnone'
      by (intros k Hk; rewrite <-view_mod; auto).
    pose proof (moved_at_seq buf (cursor q + rc) i _ _ Hview Hout Hi Hnone') as Hm.
    rewrite Hview in Hd by done.
    replace (retire_prior_to cid + i) with (offset q + rc + i) by lia. cbn [cursor offset].
    rewrite Z.add_mod_idemp_l by done.
    assert (queue_inv (mk_queue buf ((cursor q + rc + i) mod LEN) (offset q + rc + i))) as Hinv.
    { apply (learned_inv q _ (offset q + rc) cid); cbn [buffer cursor offset];
        [done|done|apply mod_LEN_range|lia|done|by rewrite Hd]. }
    destruct token as [token|].
    + cbn [fst snd offset]. split; [done|]. split; [done|]. split; [lia|]. exists id, token.
      by rewrite Hm.
    + pose proof (qi_token _ Hinv (offset q + rc + i) id) as Hz. rewrite Hm in Hz. specialize (Hz Hd). lia.
Qed.

(** What [next] promises. *)
Definition next_spec (q : CidQueue) (r : option (list Z * (Z * Z))) (q' : CidQueue) : Prop :=
  match r with
  | None => q' = q ∧ ∀ s, s ≠ offset q → at_seq q s = None
  | Some (token, retired) =>
    queue_inv q' ∧ offset q < offset q' ∧ retired = (offset q, offset q')
    ∧ (∃ id, at_seq q (offset q') = Some (id, Some token))
    ∧ (∀ s, at_seq q' s = if s =? offset q then None else at_seq q s)
    ∧ ∀ s, offset q < s < offset q' → at_seq q s = None
  end.

Lemma next_correct q : queue_inv q → next_spec q (next q).1 (next q).2.
Proof.
  intros Hq. pose proof Hq as []. unfold next_spec, next.
  assert (∀ k, 0 ≤ k < LEN → view (buffer q) (cursor q) k = at_seq q (offset q + k)) as Hview.
  { intros k Hk. rewrite <-view_at_seq by lia. f_equal. lia. }
  pose proof (iter_second q) as Hs. rewrite (Hview 0), Z.add_0_r in Hs by done. specialize (Hs qi_active0).
  destruct (iter q !! 1%nat) as [[i [id token]]|]; cbn [fst snd].
  2: { split; [done|]. intros s Hne. destruct (decide (offset q < s < offset q + LEN)).
       - rewrite <-view_at_seq by lia. apply Hs. lia.
       - apply at_seq_outside. lia. }
  destruct Hs as (Hi & Hd & Hnone). rewrite Hview in Hd by lia.
  set (buf := set (buffer q) (cursor q) None).
  assert (∀ k, 0 ≤ k < LEN → view buf (cursor q) k
            = (λ s, if s =? offset q then None else at_seq q s) (offset q + k)) as Hview'.
  { intros k Hk. unfold view, buf. rewrite get_set by (done || apply mod_LEN_range).
    destruct (Z.eqb_spec k 0) as [->|].
    - rewrite !Z.add_0_r, Z.mod_small, !Z.eqb_refl by lia. done.
    - rewrite (proj2 (Z.eqb_neq (cursor q) _)) by mod5. rewrite (proj2 (Z.eqb_neq (offset q + k) _)) by lia.
      by apply Hview. }
  assert (∀ s, at_seq (mk_queue buf ((cursor q + i) mod LEN) (offset q + i)) s
            = if s =? offset q then None else at_seq q s) as Hm.
  { apply moved_at_seq; [done| |lia|].
    - intros s Hs. case_goal; [done|]. apply at_seq_outside. lia.
    - intros k Hk. rewrite Hview' by lia. case_goal; [done|]. rewrite <-Hview by lia. apply Hnone. lia. }
  destruct token as [token|].
  - split; [|split; [simpl; lia|split; [done|split; [by exists id|split; [done|]]]]].
    + split; cbn [buffer cursor offset]; [by unfold buf; rewrite length_set|apply mod_LEN_range|lia| |].
      * rewrite Hm. rewrite (proj2 (Z.eqb_neq _ _)) by lia. by rewrite Hd.
      * intros s id'. rewrite Hm. case_goal; [done|]. apply qi_token0.
    + cbn [offset]. intros s Hs. rewrite <-view_at_seq by lia. apply Hnone. lia.
  - specialize (qi_token0 _ _ Hd). lia.
Qed.

(** ** Reachable queues *)

(** Frames with [retire_prior_to] above the sequence number are rejected by the decoder. *)
Inductive reachable : CidQueue → Prop :=
| reachable_new cid : reachable (new cid)
| reachable_initial cid q : reachable q → offset q = 0 → reachable (update_initial_cid cid q)
| reachable_insert cid q : reachable q → 0 ≤ retire_prior_to cid ≤ sequence cid → reachable (insert cid q).2
| reachable_next q : reachable q → reachable (next q).2.

Lemma at_seq_initial buf c cid s : length buf = Z.to_nat LEN → 0 ≤ c < LEN →
  at_seq (mk_queue (set buf c (Some (cid, None))) c 0) s
  = if s =? 0 then Some (cid, None) else at_seq (mk_queue buf c 0) s.
Proof.
  intros Hl Hc. unfold at_seq. cbn [buffer cursor offset]. destruct (Z.eqb_spec s 0) as [->|].
  - cbn [Z.leb Z.ltb andb Z.sub]. rewrite get_set by (done || apply mod_LEN_range).
    by rewrite Z.sub_0_r, Z.add_0_r, Z.mod_small, Z.eqb_refl by done.
  - destruct (Z.leb_spec 0 s), (Z.ltb_spec s (0 + LEN)); cbn [andb]; try done.
    rewrite get_set by (done || apply mod_LEN_range). by rewrite (proj2 (Z.eqb_neq c _)) by mod5.
Qed.

Lemma initial_inv buf c cid : length buf = Z.to_nat LEN → 0 ≤ c < LEN →
  (∀ s id, at_seq (mk_queue buf c 0) s = Some (id, None) → s = 0) →
  queue_inv (mk_queue (set buf c (Some (cid, None))) c 0).
Proof.
  intros Hl Hc Ht. split; cbn [buffer cursor offset]; [by rewrite length_set|done|done| |].
  - by rewrite at_seq_initial by done.
  - intros s id. rewrite at_seq_initial by done. destruct (Z.eqb_spec s 0); [done|]. apply Ht.
Qed.

Lemma queue_reachable_inv q : reachable q → queue_inv q.
Proof.
  induction 1 as [cid|cid q _ Hq Ho|cid q _ Hq Hr|q _ Hq].
  - apply initial_inv; [done|done|]. intros s id. unfold at_seq. cbn [buffer cursor offset].
    case_goal; [|done]. zbool. assert (s = 0 ∨ s = 1 ∨ s = 2 ∨ s = 3 ∨ s = 4) as Hs by (unfold LEN in *; lia).
    destruct Hs as [->|[->|[->|[->| ->]]]]; done.
  - destruct Hq, q as [buf c o]. cbn [buffer cursor offset] in *. subst o. by apply initial_inv.
  - pose proof (insert_correct q cid Hq Hr) as Hs. unfold insert_spec in Hs.
    destruct (_ <? _); [by destruct Hs as [_ ->]|]. destruct (_ <=? _); [by destruct Hs as [_ ->]|].
    by destruct Hs.
  - pose proof (next_correct q Hq) as Hs. unfold next_spec in Hs.
    destruct (next q).1 as [[token retired]|]; [by destruct Hs|by destruct Hs as [-> _]].
Qed.

(** ** Theorems *)

(** C36: a NEW_CONNECTION_ID frame.  In every reachable queue: a frame below the active
    number is refused as retired, one that would need more than five places as exceeding the
    limit, and neither changes anything; any other frame adds its identifier, forgets exactly
    those below the number it retires, and makes the smallest remaining one active, with the
    numbers retired and the new active identifier's reset token as the result if the active
    identifier was retired. *)
Theorem cid_queue_insert (q : CidQueue) (Hq : reachable q) (cid : NewConnectionId)
  (Hr : 0 ≤ retire_prior_to cid ≤ sequence cid) :
  insert_spec q cid (insert cid q).1 (insert cid q).2.
Proof. apply insert_correct; [by apply queue_reachable_inv|done]. Qed.

Definition sample_cid (n r : Z) : NewConnectionId := mk_new_cid n r [n] [n; n].

Lemma sample_queue_reachable : reachable (insert (sample_cid 3 0) (insert (sample_cid 1 0) (new [0])).2).2.
Proof. repeat (constructor; [|simpl; lia]). constructor. Qed.

Lemma cid_queue_insert_witness :
  let q := (insert (sample_cid 3 0) (insert (sample_cid 1 0) (new [0])).2).2 in
  insert_spec q (sample_cid 5 2) (insert (sample_cid 5 2) q).1 (insert (sample_cid 5 2) q).2
  ∧ (insert (sample_cid 5 2) q).1 = Ok (Some ((0, 3), [3; 3])).
Proof. split; [|done]. apply (cid_queue_insert _ sample_queue_reachable). simpl. lia. Defined.

(** Switching to another identifier.  In every reachable queue, if no other identifier is
    known nothing changes; otherwise the next larger one known becomes active, the old one is
    dropped, nothing else is, and the result is its reset token and the numbers to retire. *)
Theorem cid_queue_next (q : CidQueue) (Hq : reachable q) : next_spec q (next q).1 (next q).2.
Proof. apply next_correct. by apply queue_reachable_inv. Qed.

Lemma cid_queue_next_witness :
  let q := (insert (sample_cid 3 0) (insert (sample_cid 1 0) (new [0])).2).2 in
  next_spec q (next q).1 (next q).2 ∧ (next q).1 = Some ([1; 1], (0, 1)).
Proof. split; [|done]. apply (cid_queue_next _ sample_queue_reachable). Defined.

(** No identifier is lost silently.  In every reachable queue the active identifier is
    known, and whenever a frame or a switch makes the queue forget an identifier, its number
    lies in the range of numbers returned for retirement, which ends at or before the new
    active number. *)
Theorem cid_retirement_reported (q : CidQueue) (Hq : reachable q) :
  (∃ token, at_seq q (active_seq q) = Some (active q, token))
  ∧ (∀ cid s, 0 ≤ retire_prior_to cid ≤ sequence cid →
       is_Some (at_seq q s) → at_seq (insert cid q).2 s = None →
       ∃ lo hi token, (insert cid q).1 = Ok (Some ((lo, hi), token))
         ∧ lo ≤ s < hi ∧ hi ≤ active_seq (insert cid q).2)
  ∧ (∀ s, is_Some (at_seq q s) → at_seq (next q).2 s = None →
       ∃ lo hi token, (next q).1 = Some (token, (lo, hi)) ∧ lo ≤ s < hi ∧ hi ≤ active_seq (next q).2).
Proof.
  pose proof (queue_reachable_inv q Hq) as Hi. pose proof Hi as [].
  assert (∀ s, is_Some (at_seq q s) → offset q ≤ s < offset q + LEN) as Hwin.
  { intros s [d Hs]. destruct (decide (offset q ≤ s < offset q + LEN)); [done|].
    by rewrite at_seq_outside in Hs by lia. }
  split; [|split].
  - destruct qi_active0 as [[id token] Ha]. exists token. unfold active, active_seq. rewrite Ha.
    rewrite <-view_at_seq in Ha by (unfold LEN; lia). unfold view in Ha.
    by rewrite Z.sub_diag, Z.add_0_r, Z.mod_small, ?Ha in * by done.
  - intros cid s Hr Hs Hn. pose proof (insert_correct q cid Hi Hr) as Hc. unfold insert_spec in Hc.
    destruct (insert cid q) as [r q']. cbn [fst snd] in *. specialize (Hwin s Hs).
    destruct (_ <? _); [destruct Hc as [_ ->]; rewrite Hn in Hs; by destruct Hs|].
    destruct (_ <=? _); [destruct Hc as [_ ->]; rewrite Hn in Hs; by destruct Hs|].
    destruct Hc as (_ & Hm & Hf & Hc). rewrite Hm in Hn. unfold learn in Hn.
    destruct (_ =? _); [done|]. destruct (Z.ltb_spec s (Z.max (offset q) (retire_prior_to cid)));
      [|rewrite Hn in Hs; by destruct Hs].
    rewrite (proj2 (Z.leb_gt _ _)) in Hc by lia. destruct Hc as (id & token & _ & ->).
    do 3 eexists. split; [done|]. unfold active_seq. lia.
  - intros s Hs Hn. pose proof (next_correct q Hi) as Hc. unfold next_spec in Hc.
    destruct (next q) as [[[token retired]|] q']; cbn [fst snd] in *.
    2: { destruct Hc as [-> _]. rewrite Hn in Hs. by destruct Hs. }
    destruct Hc as (_ & Hlt & -> & _ & Hm & _). do 3 eexists. split; [done|]. unfold active_seq.
    rewrite Hm in Hn. destruct (Z.eqb_spec s (offset q)); [lia|]. rewrite Hn in Hs. by destruct Hs.
Qed.

Lemma cid_retirement_reported_witness :
  let q := (insert (sample_cid 3 0) (insert (sample_cid 1 0) (new [0])).2).2 in
  (∃ token, at_seq q (active_seq q) = Some (active q, token)) ∧ active q = [0].
Proof. split; [|done]. apply (cid_retirement_reported _ sample_queue_reachable). Defined.

End CidQueue.

(** ** Identifiers issued to the peer *)

Module CidState.

(** An entry of [retire_timestamp]: the highest sequence number of a batch, and when it expires. *)
Record CidTimestamp := mk_timestamp { sequence : Z; timestamp : Z }.

Record CidState := mk_cid_state {
  retire_timestamp : list CidTimestamp;
  issued : Z;
  active_seq : gset Z;
  prev_retire_seq : Z;
  retire_seq : Z;
  cid_len : Z;
  cid_lifetime : option Z
}.

(** [Instant::checked_add]: seconds are an [i64]. *)
Definition instant_checked_add (now d : Z) : option Z :=
  if now + d <? 2 ^ 63 * 1000000000 then Some (now + d) else None.

Definition with_timestamps (l : list CidTimestamp) (c : CidState) : CidState :=
  mk_cid_state l (issued c) (active_seq c) (prev_retire_seq c) (retire_seq c) (cid_len c) (cid_lifetime c).

(** Combine with the last record if it expires at the same time, else append. *)
Fixpoint push_timestamp (seq expire_at : Z) (l : list CidTimestamp) : list CidTimestamp :=
  match l with
  | [] => [mk_timestamp seq expire_at]
  | [last] => if expire_at =? timestamp last then [mk_timestamp seq (timestamp last)]
              else [last; mk_timestamp seq expire_at]
  | t :: l => t :: push_timestamp seq expire_at l
  end.

Definition track_lifetime (new_cid_seq now : Z) (c : CidState) : CidState :=
  match cid_lifetime c with
  | None => c
  | Some lifetime =>
    match instant_checked_add now lifetime with
    | None => c
    | Some expire_at => with_timestamps (push_timestamp new_cid_seq expire_at (retire_timestamp c)) c
    end
  end.

Definition new (cid_len : Z) (cid_lifetime : option Z) (now issued : Z) : CidState :=
  fold_left (λ c seq, track_lifetime seq now c) (seqZ 0 issued)
    (mk_cid_state [] issued (list_to_set (seqZ 0 issued)) 0 0 cid_len cid_lifetime).

Definition next_timeout (c : CidState) : option Z := timestamp <$> head (retire_timestamp c).

(** [(lo..hi).any(|seq| active_seq.contains(&seq))]. *)
Definition any_active (lo hi : Z) (c : CidState) : bool :=
  existsb (λ seq, bool_decide (seq ∈ active_seq c)) (seqZ lo (hi - lo)).

Definition on_cid_timeout (c : CidState) : bool * CidState :=
  let unretired_ids_found := any_active (prev_retire_seq c) (retire_seq c) c in
  let current_retire_prior_to := retire_seq c in
  let next_retire_sequence := (λ t, sequence t + 1) <$> head (retire_timestamp c) in
  let c := with_timestamps (tail (retire_timestamp c)) c in
  let c :=
    if negb unretired_ids_found then
      mk_cid_state (retire_timestamp c) (issued c) (active_seq c) (retire_seq c)
        (default (retire_seq c) next_retire_sequence) (cid_len c) (cid_lifetime c)
    else c in
  (any_active current_retire_prior_to (retire_seq c) c, c).

(** [ids] are the sequence numbers of the issued identifiers. *)
Definition new_cids (ids : list Z) (now : Z) (c : CidState) : CidState :=
  match last ids with
  | None => c
  | Some seq =>
    track_lifetime seq now
      (mk_cid_state (retire_timestamp c) (issued c + zlen ids)
         (fold_left (λ a id, {[id]} ∪ a) ids (active_seq c)) (prev_retire_seq c) (retire_seq c)
         (cid_len c) (cid_lifetime c))
  end.

Definition on_cid_retirement (seq limit : Z) (c : CidState) : result bool string * CidState :=
  if cid_len c =? 0 then (Err "RETIRE_CONNECTION_ID when CIDs aren't in use"%string, c)
  else if seq >? issued c then (Err "RETIRE_CONNECTION_ID for unissued sequence number"%string, c)
  else
    let a := active_seq c ∖ {[seq]} in
    (Ok (limit >? Z.of_nat (size a)),
     mk_cid_state (retire_timestamp c) (issued c) a (prev_retire_seq c) (retire_seq c) (cid_len c) (cid_lifetime c)).

Definition retire_prior_to (c : CidState) : Z := retire_seq c.

(** ** Invariant *)

(** Batches in increasing order of sequence numbers, from [lo] up and below [hi]. *)
Fixpoint batches (lo : Z) (l : list CidTimestamp) (hi : Z) : Prop :=
  match l with [] => lo ≤ hi | t :: l => lo ≤ sequence t ∧ batches (sequence t + 1) l hi end.

Record cid_inv (c : CidState) : Prop := {
  ci_order : 0 ≤ prev_retire_seq c ≤ retire_seq c;
  ci_batches : batches (retire_seq c) (retire_timestamp c) (issued c);
  ci_active : ∀ s, s ∈ active_seq c → prev_retire_seq c ≤ s < issued c
}.

Lemma batches_le lo l hi : batches lo l hi → lo ≤ hi.
Proof. revert lo. induction l as [|t l IH]; intros lo; simpl; [done|]. intros [? H]. specialize (IH _ H). lia. Qed.

Lemma batches_weaken lo lo' l hi hi' : lo' ≤ lo → hi ≤ hi' → batches lo l hi → batches lo' l hi'.
Proof.
  revert lo lo'. induction l as [|t l IH]; intros lo lo'; simpl; [lia|].
  intros ? ? [? H]. split; [lia|]. by eapply IH; [|done|exact H].
Qed.

Lemma push_timestamp_batches seq e l : ∀ lo hi hi', batches lo l hi → hi ≤ seq < hi' →
  batches lo (push_timestamp seq e l) hi'.
Proof.
  induction l as [|t l IH]; intros lo hi hi' Hb Hs; simpl in *; [lia|].
  destruct Hb as [? Hb]. destruct l as [|u l].
  - simpl in Hb. case_goal; simpl; lia.
  - split; [done|]. by apply (IH _ hi).
Qed.

Lemma any_active_spec lo hi c : any_active lo hi c = true ↔ ∃ s, lo ≤ s < hi ∧ s ∈ active_seq c.
Proof.
  unfold any_active. rewrite existsb_exists. split.
  - intros (s & Hs%list_elem_of_In & Ha). apply bool_decide_eq_true in Ha.
    apply elem_of_seqZ in Hs. exists s. split; [lia|done].
  - intros (s & Hs & Ha). exists s. rewrite <-list_elem_of_In, elem_of_seqZ, bool_decide_eq_true.
    split; [lia|done].
Qed.

Lemma track_lifetime_inv seq now c lo : cid_inv c → batches (retire_seq c) (retire_timestamp c) lo →
  lo ≤ seq < issued c → cid_inv (track_lifetime seq now c).
Proof.
  intros [] Hb Hs. unfold track_lifetime. destruct (cid_lifetime c); [|done].
  destruct (instant_checked_add now _); [|done]. split; try done. simpl. by apply (push_timestamp_batches _ _ _ _ lo).
Qed.

(** Tracking a lifetime touches only the timestamps. *)
Lemma track_lifetime_frame seq now c : let c' := track_lifetime seq now c in
  issued c' = issued c ∧ active_seq c' = active_seq c ∧ prev_retire_seq c' = prev_retire_seq c
  ∧ retire_seq c' = retire_seq c.
Proof. unfold track_lifetime. destruct (cid_lifetime c); [destruct (instant_checked_add _ _)|]; done. Qed.

Lemma track_lifetime_batches seq now c lo hi : batches lo (retire_timestamp c) seq → seq < hi →
  batches lo (retire_timestamp (track_lifetime seq now c)) hi.
Proof.
  intros Hb ?. unfold track_lifetime. destruct (cid_lifetime c); [destruct (instant_checked_add _ _)|].
  - simpl. apply (push_timestamp_batches _ _ _ _ seq); [done|lia].
  - eapply batches_weaken; [..|exact Hb]; lia.
  - eapply batches_weaken; [..|exact Hb]; lia.
Qed.

Lemma new_inv len lifetime now n : 0 ≤ n → cid_inv (new len lifetime now n).
Proof.
  intros Hn. unfold new. set (c0 := mk_cid_state _ _ _ _ _ _ _).
  assert (∀ m : nat, let c := fold_left (λ c seq, track_lifetime seq now c) (seqZ 0 (Z.of_nat m)) c0 in
    issued c = n ∧ active_seq c = active_seq c0 ∧ prev_retire_seq c = 0 ∧ retire_seq c = 0
    ∧ batches 0 (retire_timestamp c) (Z.of_nat m)) as H.
  { induction m as [|m IH]; [done|]. rewrite Nat2Z.inj_succ, <-Z.add_1_r, seqZ_app, fold_left_app by lia.
    set (c := fold_left _ _ c0) in *. destruct IH as (H1 & H2 & H3 & H4 & H5).
    change (seqZ (0 + Z.of_nat m) 1) with [Z.of_nat 0 + (0 + Z.of_nat m)]. cbn [fold_left].
    replace (Z.of_nat 0 + (0 + Z.of_nat m)) with (Z.of_nat m) by lia.
    destruct (track_lifetime_frame (Z.of_nat m) now c) as (-> & -> & -> & ->).
    do 4 (split; [done|]). apply track_lifetime_batches; [done|lia]. }
  specialize (H (Z.to_nat n)). rewrite Z2Nat.id in H by done. destruct H as (H1 & H2 & H3 & H4 & H5).
  split; [lia| |].
  - by rewrite H1, H4.
  - rewrite H1, H2, H3. unfold c0. cbn [active_seq]. intros s. rewrite elem_of_list_to_set, elem_of_seqZ. lia.
Qed.

Lemma new_cids_inv n now c : 0 ≤ n → cid_inv c → cid_inv (new_cids (seqZ (issued c) n) now c).
Proof.
  intros Hn [Ho Hb Ha]. unfold new_cids. destruct (decide (n = 0)) as [->|]; [by split|].
  pose proof (batches_le _ _ _ Hb).
  assert (last (seqZ (issued c) n) = Some (issued c + n - 1)) as ->.
  { replace n with ((n - 1) + 1) at 1 by lia. rewrite seqZ_app by lia.
    change (seqZ (issued c + (n - 1)) 1) with [Z.of_nat 0 + (issued c + (n - 1))].
    rewrite last_snoc. f_equal. lia. }
  set (c1 := mk_cid_state _ _ _ _ _ _ _).
  assert (zlen (seqZ (issued c) n) = n) as Hz by (unfold zlen; rewrite length_seqZ; lia).
  assert (∀ s, s ∈ active_seq c1 ↔ s ∈ active_seq c ∨ issued c ≤ s < issued c + n) as Hact.
  { intros s. unfold c1. cbn [active_seq]. rewrite <-elem_of_seqZ. generalize (active_seq c).
    clear. induction (seqZ (issued c) n) as [|x l IH]; intros a; cbn [fold_left].
    - rewrite elem_of_nil. tauto.
    - rewrite IH, elem_of_union, elem_of_singleton, elem_of_cons. tauto. }
  destruct (track_lifetime_frame (issued c + n - 1) now c1) as (H1 & H2 & H3 & H4).
  split; rewrite ?H1, ?H2, ?H3, ?H4; [done| |].
  - apply track_lifetime_batches; cbn; [eapply batches_weaken; [..|exact Hb]; lia|rewrite Hz; lia].
  - intros s. rewrite Hact. cbn [c1 issued prev_retire_seq]. rewrite Hz. intros [?%Ha|?]; lia.
Qed.

(** What a timeout does to the state and what it returns. *)
Lemma timeout_spec c : cid_inv c →
  let '(b, c') := on_cid_timeout c in
  cid_inv c' ∧ retire_seq c ≤ retire_seq c' ∧ active_seq c' = active_seq c ∧ issued c' = issued c
  ∧ (b = true ↔ ∃ s, retire_seq c ≤ s < retire_seq c' ∧ s ∈ active_seq c)
  ∧ (retire_seq c < retire_seq c' → ∀ s, s ∈ active_seq c → retire_seq c ≤ s).
Proof.
  intros [Ho Hb Ha]. unfold on_cid_timeout.
  destruct (any_active (prev_retire_seq c) (retire_seq c) c) eqn:Hany; cbn [negb].
  - destruct (retire_timestamp c) as [|t l] eqn:Ht; cbn [tail with_timestamps retire_seq].
    + split; [split; try done; cbn; by rewrite <-Ht in Hb|]. rewrite any_active_spec. cbn.
      do 3 (split; [(done || lia)|]). split; [done|lia].
    + destruct Hb as [? Hb]. split; [split; try done; cbn; eapply batches_weaken; [..|exact Hb]; lia|].
      rewrite any_active_spec. cbn. do 3 (split; [(done || lia)|]). split; [done|lia].
  - assert (∀ s, s ∈ active_seq c → retire_seq c ≤ s) as Hge.
    { intros s Hs. destruct (decide (retire_seq c ≤ s)); [done|]. specialize (Ha s Hs) as ?.
      assert (any_active (prev_retire_seq c) (retire_seq c) c = true); [|congruence].
      apply any_active_spec. exists s. split; [lia|done]. }
    destruct (retire_timestamp c) as [|t l] eqn:Ht; cbn.
    + split; [split; cbn; [lia|done|intros s Hs; specialize (Hge s Hs); specialize (Ha s Hs); lia]|].
      rewrite any_active_spec. cbn. do 3 (split; [(done || lia)|]). done.
    + destruct Hb as [? Hb].
      split; [split; cbn; [lia|done|intros s Hs; specialize (Hge s Hs); specialize (Ha s Hs); lia]|].
      rewrite any_active_spec. cbn. do 3 (split; [(done || lia)|]). done.
Qed.

Lemma retirement_inv seq limit c : cid_inv c → cid_inv (on_cid_retirement seq limit c).2.
Proof.
  intros []. unfold on_cid_retirement. case_goal; [by split|]. case_goal; [by split|].
  split; try done. cbn. intros s. rewrite elem_of_difference. intros [? _]. auto.
Qed.

(** ** Reachable states

    The endpoint numbers the identifiers it issues consecutively. *)
Inductive reachable : CidState → Prop :=
| reachable_new len lifetime now n : 0 ≤ n → reachable (new len lifetime now n)
| reachable_new_cids n now c : reachable c → 0 ≤ n → reachable (new_cids (seqZ (issued c) n) now c)
| reachable_timeout c : reachable c → reachable (on_cid_timeout c).2
| reachable_retirement seq limit c : reachable c → reachable (on_cid_retirement seq limit c).2.

Lemma reachable_cid_inv c : reachable c → cid_inv c.
Proof.
  induction 1 as [| |c _ IH|].
  - by apply new_inv.
  - by apply new_cids_inv.
  - pose proof (timeout_spec c IH) as H. destruct (on_cid_timeout c). by destruct H.
  - by apply retirement_inv.
Qed.

(** ** Theorems *)

(** The identifiers we have issued.  In every reachable state those not retired are
    numbered below the count issued and not below [prev_retire_seq], as its documentation says,
    and the number announced in [retire_prior_to] is at most the count issued.  A timeout never
    lowers it, raises it only if the peer has retired everything it was asked to before, and
    returns whether an identifier in use is newly asked to be retired. *)
Theorem cid_state_timeout (c : CidState) (Hc : reachable c) :
  (∀ s, s ∈ active_seq c → prev_retire_seq c ≤ s < issued c)
  ∧ prev_retire_seq c ≤ retire_prior_to c ≤ issued c
  ∧ let '(push, c') := on_cid_timeout c in
    retire_prior_to c ≤ retire_prior_to c' ≤ issued c
    ∧ (retire_prior_to c < retire_prior_to c' → ∀ s, s ∈ active_seq c → retire_prior_to c ≤ s)
    ∧ (push = true ↔ ∃ s, retire_prior_to c ≤ s < retire_prior_to c' ∧ s ∈ active_seq c).
Proof.
  pose proof (reachable_cid_inv c Hc) as Hi. pose proof Hi as []. pose proof (batches_le _ _ _ ci_batches0).
  unfold retire_prior_to. split; [done|]. split; [lia|].
  pose proof (timeout_spec c Hi) as Ht. destruct (on_cid_timeout c) as [b c'].
  destruct Ht as (Hi' & Hle & _ & Hiss & Hb & Hr). pose proof (batches_le _ _ _ (ci_batches _ Hi')).
  rewrite Hiss in *. split; [lia|]. by split.
Qed.

Lemma cid_state_timeout_witness :
  let c := new_cids [1; 2] 5 (new 8 (Some 10) 0 1) in
  (∀ s, s ∈ active_seq c → 0 ≤ s < 3) ∧ (on_cid_timeout c).1 = true.
Proof.
  split; [|by vm_compute].
  apply (cid_state_timeout (new_cids [1; 2] 5 (new 8 (Some 10) 0 1))).
  apply (reachable_new_cids 2 5 (new 8 (Some 10) 0 1)); [by constructor|done].
Defined.

(** The check for identifiers never issued is off by one.  With one identifier issued,
    number 0, the retirement of number 1 is accepted, not refused as a protocol violation. *)
Example retire_unissued_accepted :
  let c := new 8 None 0 1 in
  issued c = 1 ∧ ((1 : Z) ∉ active_seq c)
  ∧ on_cid_retirement 1 2 c = (Ok true, c)
  ∧ (on_cid_retirement 2 2 c).1 = Err "RETIRE_CONNECTION_ID for unissued sequence number"%string.
Proof.
  split; [done|]. split; [by vm_compute|]. split; [|by vm_compute].
  unfold on_cid_retirement. cbn. by vm_compute.
Qed.

End CidState.
