(* ===== verification/NatFrames.v ===== *)
(** * Frames with addresses

    Models [src/frame/nat_traversal_unified.rs] (ADD_ADDRESS, PUNCH_ME_NOW,
    REMOVE_ADDRESS, TRY_CONNECT_TO and its response) and [ObservedAddress] of
    [src/frame.rs]: the frames by which peers exchange candidate addresses, in the
    format of the draft and in the legacy one.

    A decoder reads from the remaining bytes.  The decoders that another one is tried
    after ([decode_auto]) also return what is left after a failure, because the
    sources do not rewind.  The bytes already written when an encoding fails are not
    represented. *)

From stdpp Require Import countable.
From S2P Require Import Prelude Coding AckFrame.

Module NatFrames.
Import VarInt.

(** ** Frame types

    The names of [frame_types!] with their codes. *)
Inductive FrameTypeName :=
| PADDING | PING | ACK | ACK_ECN | RESET_STREAM | STOP_SENDING | CRYPTO | NEW_TOKEN
| MAX_DATA | MAX_STREAM_DATA | MAX_STREAMS_BIDI | MAX_STREAMS_UNI
| DATA_BLOCKED | STREAM_DATA_BLOCKED | STREAMS_BLOCKED_BIDI | STREAMS_BLOCKED_UNI
| NEW_CONNECTION_ID | RETIRE_CONNECTION_ID | PATH_CHALLENGE | PATH_RESPONSE
| CONNECTION_CLOSE | APPLICATION_CLOSE | HANDSHAKE_DONE | ACK_FREQUENCY | IMMEDIATE_ACK
| ADD_ADDRESS_IPV4 | ADD_ADDRESS_IPV6 | PUNCH_ME_NOW_IPV4 | PUNCH_ME_NOW_IPV6 | REMOVE_ADDRESS
| OBSERVED_ADDRESS_IPV4 | OBSERVED_ADDRESS_IPV6 | TRY_CONNECT_TO_IPV4 | TRY_CONNECT_TO_IPV6
| TRY_CONNECT_TO_RESPONSE_IPV4 | TRY_CONNECT_TO_RESPONSE_IPV6.

Definition code (n : FrameTypeName) : Z :=
  match n with
  | PADDING => 0x00 | PING => 0x01 | ACK => 0x02 | ACK_ECN => 0x03
  | RESET_STREAM => 0x04 | STOP_SENDING => 0x05 | CRYPTO => 0x06 | NEW_TOKEN => 0x07
  | MAX_DATA => 0x10 | MAX_STREAM_DATA => 0x11 | MAX_STREAMS_BIDI => 0x12 | MAX_STREAMS_UNI => 0x13
  | DATA_BLOCKED => 0x14 | STREAM_DATA_BLOCKED => 0x15
  | STREAMS_BLOCKED_BIDI => 0x16 | STREAMS_BLOCKED_UNI => 0x17
  | NEW_CONNECTION_ID => 0x18 | RETIRE_CONNECTION_ID => 0x19
  | PATH_CHALLENGE => 0x1a | PATH_RESPONSE => 0x1b
  | CONNECTION_CLOSE => 0x1c | APPLICATION_CLOSE => 0x1d | HANDSHAKE_DONE => 0x1e
  | ACK_FREQUENCY => 0xaf | IMMEDIATE_ACK => 0x1f
  | ADD_ADDRESS_IPV4 => 0x3d7e90 | ADD_ADDRESS_IPV6 => 0x3d7e91
  | PUNCH_ME_NOW_IPV4 => 0x3d7e92 | PUNCH_ME_NOW_IPV6 => 0x3d7e93 | REMOVE_ADDRESS => 0x3d7e94
  | OBSERVED_ADDRESS_IPV4 => 0x9f81a6 | OBSERVED_ADDRESS_IPV6 => 0x9f81a7
  | TRY_CONNECT_TO_IPV4 => 0x3d7e95 | TRY_CONNECT_TO_IPV6 => 0x3d7e96
  | TRY_CONNECT_TO_RESPONSE_IPV4 => 0x3d7e97 | TRY_CONNECT_TO_RESPONSE_IPV6 => 0x3d7e98
  end.

(** ** Socket addresses *)

Inductive SocketAddr :=
| V4 (octets : list Z) (port : Z)
| V6 (octets : list Z) (port flowinfo scope_id : Z).

#[global] Instance socket_addr_eq_dec : EqDecision SocketAddr.
Proof. solve_decision. Defined.

#[global] Instance socket_addr_countable : Countable SocketAddr.
Proof.
  refine (inj_countable'
    (λ a, match a with V4 o p => inl (o, p) | V6 o p f s => inr (o, p, f, s) end)
    (λ x, match x with inl (o, p) => V4 o p | inr (o, p, f, s) => V6 o p f s end) _).
  by intros [].
Defined.

Definition is_v6 (a : SocketAddr) : bool := match a with V4 _ _ => false | V6 _ _ _ _ => true end.

(** The octets and the port, as all formats but the legacy one write an address. *)
Definition put_addr (a : SocketAddr) : list Z :=
  match a with
  | V4 octets port => octets ++ be_encode 2 port
  | V6 octets port _ _ => octets ++ be_encode 2 port
  end.

Definition read_addr (is_ipv6 : bool) (r : list Z) : result (SocketAddr * list Z) UnexpectedEnd :=
  if is_ipv6 then
    if zlen r <? 16 + 2 then Err unexpected_end
    else Ok (V6 (take 16 r) (be_decode (take 2 (drop 16 r))) 0 0, drop 18 r)
  else
    if zlen r <? 4 + 2 then Err unexpected_end
    else Ok (V4 (take 4 r) (be_decode (take 2 (drop 4 r))), drop 6 r).

(** The legacy format has a version byte, and flow label and scope for IPv6. *)
Definition put_addr_legacy (a : SocketAddr) : list Z :=
  match a with
  | V4 octets port => 4 :: octets ++ be_encode 2 port
  | V6 octets port flowinfo scope_id =>
    6 :: octets ++ be_encode 2 port ++ be_encode 4 flowinfo ++ be_encode 4 scope_id
  end.

Definition read_addr_legacy (r : list Z) : result (SocketAddr * list Z) UnexpectedEnd :=
  let? (ip_version, r) := decode u8_codec r in
  if ip_version =? 4 then read_addr false r
  else if ip_version =? 6 then
    if zlen r <? 16 + 2 + 4 + 4 then Err unexpected_end
    else Ok (V6 (take 16 r) (be_decode (take 2 (drop 16 r))) (be_decode (take 4 (drop 18 r)))
               (be_decode (take 4 (drop 22 r))), drop 26 r)
  else Err unexpected_end.

(** [r.get()] of a [VarInt] with what is left in both cases: a failed read has taken
    the first byte. *)
Definition get_varint (r : list Z) : result Z UnexpectedEnd * list Z :=
  match get_var r with Ok (x, r) => (Ok x, r) | Err e => (Err e, tail r) end.

(** ** ADD_ADDRESS *)

Record AddAddress := mk_add_address { aa_sequence : Z; aa_address : SocketAddr; priority : Z }.

(** [Ipv4Addr::is_loopback], [is_private]; [Ipv6Addr::is_loopback], [is_unicast_link_local]. *)
Definition v4_is_private (o : list Z) : bool :=
  match o with
  | a :: b :: _ => (a =? 10) || ((a =? 172) && (16 <=? b) && (b <=? 31)) || ((a =? 192) && (b =? 168))
  | _ => false
  end.
Definition v6_is_loopback (o : list Z) : bool := bool_decide (o = replicate 15 0 ++ [1]).
Definition v6_is_link_local (o : list Z) : bool :=
  match o with a :: b :: _ => Z.land (a * 256 + b) 0xffc0 =? 0xfe80 | _ => false end.

Definition calculate_priority (a : SocketAddr) : Z :=
  let type_pref :=
    match a with
    | V4 o _ => if bool_decide (head o = Some 127) then 0 else if v4_is_private o then 100 else 126
    | V6 o _ _ _ => if v6_is_loopback o then 0 else if v6_is_link_local o then 90 else 120
    end in
  let local_pref := match a with V4 _ _ => 65535 | V6 _ _ _ _ => 65534 end in
  Z.shiftl type_pref 24 + Z.shiftl local_pref 8 + 255.

Definition add_address_new (sequence : Z) (address : SocketAddr) : AddAddress :=
  mk_add_address sequence address (calculate_priority address).

Definition add_encode_rfc (f : AddAddress) : result (list Z) VarIntBoundsExceeded :=
  let? ty := write_var (code (if is_v6 (aa_address f) then ADD_ADDRESS_IPV6 else ADD_ADDRESS_IPV4)) in
  let? seq := write_var (aa_sequence f) in
  Ok (ty ++ seq ++ put_addr (aa_address f)).

Definition add_encode_legacy (f : AddAddress) : result (list Z) VarIntBoundsExceeded :=
  let? ty := write_var (code (if is_v6 (aa_address f) then ADD_ADDRESS_IPV6 else ADD_ADDRESS_IPV4)) in
  let? seq := write_var (aa_sequence f) in
  let? prio := write_var (priority f) in
  Ok (ty ++ seq ++ prio ++ put_addr_legacy (aa_address f)).

Definition add_decode_rfc (is_ipv6 : bool) (r : list Z) : result AddAddress UnexpectedEnd * list Z :=
  match get_varint r with
  | (Err e, r) => (Err e, r)
  | (Ok sequence, r) =>
    match read_addr is_ipv6 r with
    | Err e => (Err e, r)
    | Ok (address, r) => (Ok (add_address_new sequence address), r)
    end
  end.

Definition add_decode_legacy (r : list Z) : result (AddAddress * list Z) UnexpectedEnd :=
  let? (sequence, r) := get_var r in
  let? (priority, r) := get_var r in
  let? (address, r) := read_addr_legacy r in
  Ok (mk_add_address sequence address priority, r).

(** The second attempt goes on where the first one failed. *)
Definition add_decode_auto (is_ipv6 : bool) (r : list Z) : result (AddAddress * list Z) UnexpectedEnd :=
  match add_decode_rfc is_ipv6 r with
  | (Ok frame, r) => Ok (frame, r)
  | (Err _, r) => add_decode_legacy r
  end.

(** ** PUNCH_ME_NOW *)

Record PunchMeNow := mk_punch_me_now {
  round : Z; paired_with_sequence_number : Z; pm_address : SocketAddr; target_peer_id : option (list Z)
}.

Definition put_peer_id (p : option (list Z)) : list Z :=
  match p with Some peer_id => 1 :: peer_id | None => [0] end.

(** The two formats differ in the address only. *)
Definition punch_encode (rfc : bool) (f : PunchMeNow) : result (list Z) VarIntBoundsExceeded :=
  let? ty := write_var (code (if is_v6 (pm_address f) then PUNCH_ME_NOW_IPV6 else PUNCH_ME_NOW_IPV4)) in
  let? rnd := write_var (round f) in
  let? seq := write_var (paired_with_sequence_number f) in
  Ok (ty ++ rnd ++ seq ++ (if rfc then put_addr (pm_address f) else put_addr_legacy (pm_address f))
      ++ put_peer_id (target_peer_id f)).

Definition read_peer_id_rfc (r : list Z) : result (option (list Z)) UnexpectedEnd * list Z :=
  match r with
  | [] => (Ok None, [])
  | has_peer_id :: r =>
    if has_peer_id =? 1 then
      if zlen r <? 32 then (Err unexpected_end, r) else (Ok (Some (take 32 r)), drop 32 r)
    else if has_peer_id =? 0 then (Ok None, r)
    else (Err unexpected_end, r)
  end.

Definition punch_decode_rfc (is_ipv6 : bool) (r : list Z) : result PunchMeNow UnexpectedEnd * list Z :=
  match get_varint r with
  | (Err e, r) => (Err e, r)
  | (Ok round, r) =>
    match get_varint r with
    | (Err e, r) => (Err e, r)
    | (Ok seq, r) =>
      match read_addr is_ipv6 r with
      | Err e => (Err e, r)
      | Ok (address, r) =>
        match read_peer_id_rfc r with
        | (Err e, r) => (Err e, r)
        | (Ok peer_id, r) => (Ok (mk_punch_me_now round seq address peer_id), r)
        end
      end
    end
  end.

Definition punch_decode_legacy (r : list Z) : result (PunchMeNow * list Z) UnexpectedEnd :=
  let? (round, r) := get_var r in
  let? (target_sequence, r) := get_var r in
  let? (address, r) := read_addr_legacy r in
  match r with
  | [] => Ok (mk_punch_me_now round target_sequence address None, [])
  | has_peer_id :: r =>
    if (has_peer_id =? 1) && (32 <=? zlen r) then
      Ok (mk_punch_me_now round target_sequence address (Some (take 32 r)), drop 32 r)
    else Ok (mk_punch_me_now round target_sequence address None, r)
  end.

Definition punch_decode_auto (is_ipv6 : bool) (r : list Z) : result (PunchMeNow * list Z) UnexpectedEnd :=
  match punch_decode_rfc is_ipv6 r with
  | (Ok frame, r) => Ok (frame, r)
  | (Err _, r) => punch_decode_legacy r
  end.

(** ** REMOVE_ADDRESS, OBSERVED_ADDRESS *)

(** [RemoveAddress] is its sequence number. *)
Definition remove_encode (sequence : Z) : result (list Z) VarIntBoundsExceeded :=
  let? ty := write_var (code REMOVE_ADDRESS) in
  let? seq := write_var sequence in
  Ok (ty ++ seq).

Record ObservedAddress := mk_observed { sequence_number : Z; oa_address : SocketAddr }.

Definition observed_encode (f : ObservedAddress) : result (list Z) VarIntBoundsExceeded :=
  let? ty := write_var (code (if is_v6 (oa_address f) then OBSERVED_ADDRESS_IPV6 else OBSERVED_ADDRESS_IPV4)) in
  let? seq := write_var (sequence_number f) in
  Ok (ty ++ seq ++ put_addr (oa_address f)).

Definition observed_decode (is_ipv6 : bool) (r : list Z) : result (ObservedAddress * list Z) UnexpectedEnd :=
  let? (x, r) := get_var r in
  let? seq := map_err (λ _, unexpected_end) (from_u64 x) in
  let? (address, r) := read_addr is_ipv6 r in
  Ok (mk_observed seq address, r).

(** ** TRY_CONNECT_TO *)

Inductive TryConnectError :=
| Timeout | ConnectionRefused | NetworkUnreachable | HostUnreachable | RateLimited | InvalidAddress
| InternalError.

(** [error as u8] and [from_u8]. *)
Definition try_error_code (e : TryConnectError) : Z :=
  match e with
  | Timeout => 0 | ConnectionRefused => 1 | NetworkUnreachable => 2 | HostUnreachable => 3
  | RateLimited => 4 | InvalidAddress => 5 | InternalError => 255
  end.

Definition from_u8 (value : Z) : TryConnectError :=
  if value =? 0 then Timeout else if value =? 1 then ConnectionRefused
  else if value =? 2 then NetworkUnreachable else if value =? 3 then HostUnreachable
  else if value =? 4 then RateLimited else if value =? 5 then InvalidAddress else InternalError.

Record TryConnectTo := mk_try_connect { tc_request_id : Z; target_address : SocketAddr; timeout_ms : Z }.

Definition try_connect_encode (f : TryConnectTo) : result (list Z) VarIntBoundsExceeded :=
  let? ty := write_var (code (if is_v6 (target_address f) then TRY_CONNECT_TO_IPV6 else TRY_CONNECT_TO_IPV4)) in
  let? id := write_var (tc_request_id f) in
  Ok (ty ++ id ++ put_addr (target_address f) ++ be_encode 2 (timeout_ms f)).

Definition try_connect_decode (is_ipv6 : bool) (r : list Z) : result (TryConnectTo * list Z) UnexpectedEnd :=
  let? (request_id, r) := get_var r in
  let? (address, r) := read_addr is_ipv6 r in
  if zlen r <? 2 then Err unexpected_end
  else Ok (mk_try_connect request_id address (be_decode (take 2 r)), drop 2 r).

Record TryConnectToResponse := mk_try_response {
  tr_request_id : Z; success : bool; error_code : option TryConnectError; source_address : SocketAddr
}.

Definition try_response_encode (f : TryConnectToResponse) : result (list Z) VarIntBoundsExceeded :=
  let? ty := write_var (code (if is_v6 (source_address f) then TRY_CONNECT_TO_RESPONSE_IPV6
                              else TRY_CONNECT_TO_RESPONSE_IPV4)) in
  let? id := write_var (tr_request_id f) in
  Ok (ty ++ id ++ [if success f then 1 else 0]
      ++ [match error_code f with Some e => try_error_code e | None => 0 end]
      ++ put_addr (source_address f)).

Definition try_response_decode (is_ipv6 : bool) (r : list Z) : result (TryConnectToResponse * list Z) UnexpectedEnd :=
  let? (request_id, r) := get_var r in
  match r with
  | s :: error_byte :: r =>
    let success := negb (s =? 0) in
    let error_code := if success then None else Some (from_u8 error_byte) in
    let? (address, r) := read_addr is_ipv6 r in
    Ok (mk_try_response request_id success error_code address, r)
  | _ => Err unexpected_end
  end.

(** ** Lemmas *)

Lemma code_range n : is_u 62 (code n).
Proof. destruct n; split; simpl; lia. Qed.

Definition addr_ok (a : SocketAddr) : Prop :=
  match a with
  | V4 o port => length o = 4%nat ∧ bytes_ok o ∧ is_u 16 port
  | V6 o port flowinfo scope_id => length o = 16%nat ∧ bytes_ok o ∧ is_u 16 port ∧ is_u 32 flowinfo ∧ is_u 32 scope_id
  end.

(** An address with no flow label and scope, as the format of the draft can carry it. *)
Definition addr_plain (a : SocketAddr) : Prop :=
  match a with V4 _ _ => True | V6 _ _ flowinfo scope_id => flowinfo = 0 ∧ scope_id = 0 end.

Lemma take_be n x k : take n (be_encode n x ++ k) = be_encode n x.
Proof. by rewrite take_app_length' by (by rewrite length_be_encode). Qed.

Lemma drop_be n x k : drop n (be_encode n x ++ k) = k.
Proof. by rewrite drop_app_length' by (by rewrite length_be_encode). Qed.

Lemma be_decode_take n r : bytes_ok r → (n ≤ length r)%nat → is_u (8 * Z.of_nat n) (be_decode (take n r)).
Proof.
  intros Hr Hn. pose proof (be_decode_bound (take n r) (Forall_take _ _ _ Hr)) as Hb.
  unfold zlen in Hb. by rewrite length_take, Nat.min_l in Hb by done.
Qed.

Lemma be_decode_u16 r : bytes_ok r → (2 ≤ length r)%nat → is_u 16 (be_decode (take 2 r)).
Proof. exact (be_decode_take 2 r). Qed.

Lemma be_decode_u32 r : bytes_ok r → (4 ≤ length r)%nat → is_u 32 (be_decode (take 4 r)).
Proof. exact (be_decode_take 4 r). Qed.

(** Octets and a port, read back in front of anything. *)
Lemma octets_port n m o port k : length o = n → m = (n + 2)%nat → is_u 16 port →
  take n (o ++ be_encode 2 port ++ k) = o ∧ be_decode (take 2 (drop n (o ++ be_encode 2 port ++ k))) = port
  ∧ drop m (o ++ be_encode 2 port ++ k) = k.
Proof.
  intros <- -> Hp. rewrite take_app_length, drop_app_length, take_be, be_decode_encode by done.
  split; [done|]. split; [done|]. by rewrite <-drop_drop, drop_app_length, drop_be.
Qed.

Lemma read_put_addr a k : addr_ok a → addr_plain a → read_addr (is_v6 a) (put_addr a ++ k) = Ok (a, k).
Proof.
  destruct a as [o port|o port fl sc]; cbn [addr_ok addr_plain is_v6 put_addr]; intros Ha Hp;
    unfold read_addr; rewrite <-app_assoc.
  - destruct Ha as (Hl & _ & Hport). destruct (octets_port 4 6 o port k Hl eq_refl Hport) as (-> & -> & ->).
    rewrite (proj2 (Z.ltb_ge _ _)); [done|]. rewrite !zlen_app. unfold zlen. rewrite Hl, length_be_encode. lia.
  - destruct Ha as (Hl & _ & Hport & _), Hp as [-> ->].
    destruct (octets_port 16 18 o port k Hl eq_refl Hport) as (-> & -> & ->).
    rewrite (proj2 (Z.ltb_ge _ _)); [done|]. rewrite !zlen_app. unfold zlen. rewrite Hl, length_be_encode. lia.
Qed.

Lemma read_put_addr_legacy a k : addr_ok a → read_addr_legacy (put_addr_legacy a ++ k) = Ok (a, k).
Proof.
  destruct a as [o port|o port fl sc]; cbn [addr_ok put_addr_legacy app]; intros Ha; unfold read_addr_legacy.
  - rewrite decode_u8_cons. cbn [Z.eqb Pos.eqb].
    apply (read_put_addr (V4 o port) k Ha I).
  - destruct Ha as (Hl & _ & Hport & Hfl & Hsc).
    rewrite <-!app_assoc. set (t := be_encode 4 fl ++ be_encode 4 sc ++ k).
    rewrite decode_u8_cons. cbn [Z.eqb Pos.eqb].
    destruct (octets_port 16 18 o port t Hl eq_refl Hport) as (Ho & Hp & Hd). rewrite Ho, Hp.
    rewrite (proj2 (Z.ltb_ge _ _)).
    2: { unfold t. rewrite !zlen_app. unfold zlen. rewrite Hl, !length_be_encode. lia. }
    replace 26%nat with (18 + 4 + 4)%nat by lia. replace 22%nat with (18 + 4)%nat by lia. rewrite <-!drop_drop.
    rewrite Hd. unfold t. rewrite !drop_be, !take_be.
    by rewrite (be_decode_encode 4 fl Hfl), (be_decode_encode 4 sc Hsc).
Qed.

(** What a read address is, and that its bytes are gone. *)
Lemma read_addr_sound v r a r' : bytes_ok r → read_addr v r = Ok (a, r') →
  addr_ok a ∧ addr_plain a ∧ is_v6 a = v ∧ bytes_ok r' ∧ (length r' < length r)%nat.
Proof.
  intros Hr. unfold read_addr, zlen.
  destruct v; case_match; zbool; try done; intros [= <- <-]; cbn [addr_ok addr_plain];
    (split_and!; try done; rewrite ?length_take, ?length_drop; try lia;
      try (by apply Forall_take); try (by apply Forall_drop));
    (apply be_decode_u16; [by apply Forall_drop|rewrite length_drop; lia]) || (unfold is_u; lia).
Qed.

Lemma read_addr_legacy_sound r a r' : bytes_ok r → read_addr_legacy r = Ok (a, r') →
  addr_ok a ∧ bytes_ok r' ∧ (length r' < length r)%nat.
Proof.
  intros Hr. unfold read_addr_legacy. destruct r as [|v r]; [done|].
  inversion Hr as [|? ? _ Hr']; subst. rewrite decode_u8_cons.
  destruct (v =? 4).
  { intros (? & _ & _ & ? & ?)%read_addr_sound; [|done]. simpl. split_and!; (done || lia). }
  destruct (v =? 6); [|done].
  unfold zlen. case_match; zbool; [done|]. intros [= <- <-]. cbn [addr_ok length].
  split_and!; rewrite ?length_take, ?length_drop; try lia; try (by apply Forall_take); try (by apply Forall_drop);
    (apply be_decode_u16 || apply be_decode_u32); try (by apply Forall_drop); rewrite length_drop; lia.
Qed.

(** One step of a reader that succeeded: name the value read and what is left. *)
Ltac read_step H :=
  match type of H with
  | (match get_var ?r with Ok _ => _ | Err _ => _ end) = Ok _ =>
    let G := fresh "G" in
    destruct (get_var r) as [[? ?]|] eqn:G; [|discriminate H];
    apply get_var_suffix in G as (? & ? & ?); [|assumption]
  | (match read_addr ?v ?r with Ok _ => _ | Err _ => _ end) = Ok _ =>
    let G := fresh "G" in
    destruct (read_addr v r) as [[? ?]|] eqn:G; [|discriminate H];
    apply read_addr_sound in G as (? & ? & ? & ? & ?); [|assumption]
  | (match read_addr_legacy ?r with Ok _ => _ | Err _ => _ end) = Ok _ =>
    let G := fresh "G" in
    destruct (read_addr_legacy r) as [[? ?]|] eqn:G; [|discriminate H];
    apply read_addr_legacy_sound in G as (? & ? & ?); [|assumption]
  end.

Definition add_address_ok (a : AddAddress) : Prop :=
  is_u 62 (aa_sequence a) ∧ addr_ok (aa_address a) ∧ is_u 62 (priority a).

Lemma calculate_priority_range a : is_u 62 (calculate_priority a).
Proof.
  unfold calculate_priority. rewrite !Z.shiftl_mul_pow2 by lia.
  destruct a; repeat case_match; split; lia.
Qed.

Lemma get_varint_sound r x r' : bytes_ok r → get_varint r = (x, r') →
  bytes_ok r' ∧ (length r' ≤ length r)%nat ∧ (∀ v, x = Ok v → is_u 62 v ∧ (length r' < length r)%nat).
Proof.
  intros Hr. unfold get_varint. destruct (get_var r) as [[v q]|e] eqn:G; intros [= <- <-].
  - apply get_var_suffix in G as (? & ? & ?); [|done]. split_and!; [done|lia|]. intros ? [= ->]. done.
  - split_and!; [destruct Hr as [|? ? ? Hl]; [constructor|exact Hl]|destruct r; simpl; lia|done].
Qed.

Lemma add_decode_legacy_sound r a r' : bytes_ok r → add_decode_legacy r = Ok (a, r') →
  add_address_ok a ∧ bytes_ok r' ∧ (length r' < length r)%nat.
Proof.
  intros Hr H. unfold add_decode_legacy in H. do 3 read_step H. injection H as <- <-.
  unfold add_address_ok. split_and!; (done || lia).
Qed.

Lemma add_decode_auto_sound v r a r' : bytes_ok r → add_decode_auto v r = Ok (a, r') →
  add_address_ok a ∧ bytes_ok r' ∧ (length r' < length r)%nat.
Proof.
  intros Hr. unfold add_decode_auto, add_decode_rfc.
  destruct (get_varint r) as [x r1] eqn:G. destruct (get_varint_sound _ _ _ Hr G) as (Hr1 & Hl1 & Hx).
  destruct x as [seq|e]; [|intros (? & ? & ?)%add_decode_legacy_sound; [split_and!; (done || lia)|done]].
  destruct (Hx seq eq_refl) as [Hseq Hl].
  destruct (read_addr v r1) as [[ad r2]|] eqn:Ga.
  - intros [= <- <-]. apply read_addr_sound in Ga as (? & ? & ? & ? & ?); [|done].
    unfold add_address_ok. split_and!; try done; [apply calculate_priority_range|lia].
  - intros (? & ? & ?)%add_decode_legacy_sound; [split_and!; (done || lia)|done].
Qed.

Definition punch_ok (p : PunchMeNow) : Prop :=
  is_u 62 (round p) ∧ is_u 62 (paired_with_sequence_number p) ∧ addr_ok (pm_address p)
  ∧ match target_peer_id p with Some i => length i = 32%nat ∧ bytes_ok i | None => True end.

Lemma take_peer_id r : bytes_ok r → 32 ≤ zlen r →
  length (take 32 r) = 32%nat ∧ bytes_ok (take 32 r) ∧ bytes_ok (drop 32 r) ∧ (length (drop 32 r) ≤ length r)%nat.
Proof.
  unfold zlen. intros. rewrite length_take, length_drop.
  split_and!; [lia|by apply Forall_take|by apply Forall_drop|lia].
Qed.

Lemma punch_decode_legacy_sound r p r' : bytes_ok r → punch_decode_legacy r = Ok (p, r') →
  punch_ok p ∧ bytes_ok r' ∧ (length r' < length r)%nat.
Proof.
  intros Hr H. unfold punch_decode_legacy in H. do 3 read_step H.
  match type of H with match ?z with [] => _ | _ => _ end = _ => destruct z as [|b q] end;
    [by injection H as <- <-; unfold punch_ok; split_and!; (done || lia)|].
  match goal with H0 : bytes_ok (b :: q) |- _ => inversion H0; subst end. simpl in *.
  destruct ((b =? 1) && (32 <=? zlen q)) eqn:Hb; zbool; injection H as <- <-.
  - destruct (take_peer_id q) as (? & ? & ? & ?); [done|done|].
    unfold punch_ok. split_and!; (done || lia).
  - unfold punch_ok. split_and!; (done || lia).
Qed.

Lemma read_peer_id_sound r x r' : bytes_ok r → read_peer_id_rfc r = (x, r') →
  bytes_ok r' ∧ (length r' ≤ length r)%nat
  ∧ ∀ i, x = Ok (Some i) → length i = 32%nat ∧ bytes_ok i.
Proof.
  intros Hr. unfold read_peer_id_rfc. destruct r as [|b r]; [by intros [= <- <-]|].
  inversion Hr; subst. destruct (b =? 1); [destruct (Z.ltb_spec (zlen r) 32)|destruct (b =? 0)];
    intros [= <- <-]; simpl; try (split_and!; [done|lia|done]).
  destruct (take_peer_id r) as (? & ? & ? & ?); [done|done|]. split_and!; [done|simpl; lia|].
  intros i [= <-]. done.
Qed.

Lemma punch_decode_auto_sound v r p r' : bytes_ok r → punch_decode_auto v r = Ok (p, r') →
  punch_ok p ∧ bytes_ok r' ∧ (length r' < length r)%nat.
Proof.
  intros Hr. unfold punch_decode_auto, punch_decode_rfc.
  assert (∀ q, bytes_ok q → (length q ≤ length r)%nat → punch_decode_legacy q = Ok (p, r') →
    punch_ok p ∧ bytes_ok r' ∧ (length r' < length r)%nat) as Hleg.
  { intros q Hq Hlq (? & ? & ?)%punch_decode_legacy_sound; [split_and!; (done || lia)|done]. }
  destruct (get_varint r) as [x r1] eqn:G. destruct (get_varint_sound _ _ _ Hr G) as (Hr1 & Hl1 & Hx).
  destruct x as [rnd|e]; [|by apply Hleg]. destruct (Hx rnd eq_refl) as [? ?].
  destruct (get_varint r1) as [y r2] eqn:G2. destruct (get_varint_sound _ _ _ Hr1 G2) as (Hr2 & Hl2 & Hy).
  destruct y as [seq|e]; [|apply Hleg; [done|lia]]. destruct (Hy seq eq_refl) as [? ?].
  destruct (read_addr v r2) as [[ad r3]|] eqn:Ga; [|apply Hleg; [done|lia]].
  apply read_addr_sound in Ga as (? & ? & ? & Hr3 & ?); [|done].
  destruct (read_peer_id_rfc r3) as [z r4] eqn:Gp.
  destruct (read_peer_id_sound _ _ _ Hr3 Gp) as (? & ? & Hz).
  destruct z as [i|e]; [|apply Hleg; [done|lia]]. intros [= <- <-].
  unfold punch_ok. split_and!; try done; [|lia]. simpl. destruct i as [i|]; [|done]. by apply Hz.
Qed.

Definition observed_ok (o : ObservedAddress) : Prop :=
  is_u 62 (sequence_number o) ∧ addr_ok (oa_address o) ∧ addr_plain (oa_address o).

Lemma observed_decode_sound v r o r' : bytes_ok r → observed_decode v r = Ok (o, r') →
  observed_ok o ∧ bytes_ok r' ∧ (length r' < length r)%nat.
Proof.
  intros Hr H. unfold observed_decode in H. read_step H.
  match type of H with context [from_u64 ?x] => assert (from_u64 x = Ok x) as Hx end.
  { unfold from_u64. rewrite (proj2 (Z.ltb_lt _ _)); [done|]. unfold is_u in *. lia. }
  rewrite Hx in H. cbn [map_err] in H. read_step H. injection H as <- <-. unfold observed_ok. split_and!; (done || lia).
Qed.

Definition try_connect_ok (t : TryConnectTo) : Prop :=
  is_u 62 (tc_request_id t) ∧ addr_ok (target_address t) ∧ addr_plain (target_address t) ∧ is_u 16 (timeout_ms t).

Lemma try_connect_decode_sound v r t r' : bytes_ok r → try_connect_decode v r = Ok (t, r') →
  try_connect_ok t ∧ bytes_ok r' ∧ (length r' < length r)%nat.
Proof.
  intros Hr H. unfold try_connect_decode in H. do 2 read_step H.
  match type of H with (if zlen ?q <? 2 then _ else _) = _ => unfold zlen in H; destruct (Z.ltb_spec (Z.of_nat (length q)) 2); [done|] end.
  injection H as <- <-. rewrite length_drop. unfold try_connect_ok.
  split_and!; try done; [|by apply Forall_drop|lia]. apply be_decode_u16; [done|lia].
Qed.

(** A response is a success exactly if it has no error. *)
Definition try_response_ok (t : TryConnectToResponse) : Prop :=
  is_u 62 (tr_request_id t) ∧ addr_ok (source_address t) ∧ addr_plain (source_address t)
  ∧ (success t = true ↔ error_code t = None).

Lemma try_response_decode_sound v r t r' : bytes_ok r → try_response_decode v r = Ok (t, r') →
  try_response_ok t ∧ bytes_ok r' ∧ (length r' < length r)%nat.
Proof.
  intros Hr H. unfold try_response_decode in H. read_step H.
  match type of H with match ?z with [] => _ | _ => _ end = _ => destruct z as [|s [|e q]] end; [done..|].
  match goal with H0 : bytes_ok (s :: e :: q) |- _ => inversion H0 as [|? ? ? Hq]; subst; inversion Hq; subst end.
  read_step H. injection H as <- <-. simpl in *. unfold try_response_ok. simpl.
  split_and!; try done; [by destruct (s =? 0)|lia].
Qed.

End NatFrames.
