(* ===== verification/Masque.v ===== *)
(** * The wire formats of the MASQUE relay

    Models [src/masque/capsule.rs], [datagram.rs] and [tunnel_control.rs], and the stream that
    tunnels datagrams between a relay and its client: the frames that [relay_server.rs] and
    [relay_socket.rs] write, in batches, and the loops that read them. *)

From Stdlib Require Import String.
From stdpp Require Import gmap list.
From S2P Require Import Prelude Coding NatFrames.

(** ** Capsules *)

Module Capsule.
Import VarInt NatFrames.

Definition CAPSULE_COMPRESSION_ASSIGN : Z := 0x11.
Definition CAPSULE_COMPRESSION_ACK : Z := 0x12.
Definition CAPSULE_COMPRESSION_CLOSE : Z := 0x13.

(** [std::net::IpAddr]. *)
Inductive IpAddr := IpV4 (octets : list Z) | IpV6 (octets : list Z).

(** [SocketAddr::new] and [SocketAddr::ip], [SocketAddr::port]. *)
Definition socket_addr (ip : IpAddr) (port : Z) : SocketAddr :=
  match ip with IpV4 o => V4 o port | IpV6 o => V6 o port 0 0 end.
Definition ip_of (a : SocketAddr) : IpAddr := match a with V4 o _ => IpV4 o | V6 o _ _ _ => IpV6 o end.
Definition port_of (a : SocketAddr) : Z := match a with V4 _ p => p | V6 _ p _ _ => p end.

Record CompressionAssign := mk_assign {
  as_context_id : Z;
  ip_version : Z;
  ip_address : option IpAddr;
  udp_port : option Z;
}.

Definition uncompressed (context_id : Z) : CompressionAssign := mk_assign context_id 0 None None.
Definition compressed_v4 (context_id : Z) (addr : list Z) (port : Z) : CompressionAssign :=
  mk_assign context_id 4 (Some (IpV4 addr)) (Some port).
Definition compressed_v6 (context_id : Z) (addr : list Z) (port : Z) : CompressionAssign :=
  mk_assign context_id 6 (Some (IpV6 addr)) (Some port).

Definition target (a : CompressionAssign) : option SocketAddr :=
  match ip_address a, udp_port a with
  | Some ip, Some port => Some (socket_addr ip port)
  | _, _ => None
  end.

(** The octets of an address whose version was read before. *)
Definition decode_ip (ip_version : Z) (r : list Z) : result (IpAddr * list Z) UnexpectedEnd :=
  if ip_version =? 4 then let? (o, r) := decode ipv4_codec r in Ok (IpV4 o, r)
  else if ip_version =? 6 then let? (o, r) := decode ipv6_codec r in Ok (IpV6 o, r)
  else Err unexpected_end.

Definition octets (ip : IpAddr) : list Z := match ip with IpV4 o => o | IpV6 o => o end.

Definition assign_decode (r : list Z) : result (CompressionAssign * list Z) UnexpectedEnd :=
  let? (context_id, r) := decode codec r in
  let? (ip_version, r) := decode u8_codec r in
  if ip_version =? 0 then Ok (mk_assign context_id ip_version None None, r)
  else
    let? (ip, r) := decode_ip ip_version r in
    let? (port, r) := decode u16_codec r in
    Ok (mk_assign context_id ip_version (Some ip) (Some port), r).

Definition assign_encode (a : CompressionAssign) : list Z :=
  encode codec (as_context_id a) ++ encode u8_codec (ip_version a)
  ++ match ip_address a, udp_port a with
     | Some ip, Some port => octets ip ++ encode u16_codec port
     | _, _ => []
     end.

Inductive Capsule :=
| CCompressionAssign (a : CompressionAssign)
| CCompressionAck (context_id : Z)
| CCompressionClose (context_id : Z)
| CUnknown (capsule_type : Z) (data : list Z).

Definition capsule_type (c : Capsule) : Z :=
  match c with
  | CCompressionAssign _ => CAPSULE_COMPRESSION_ASSIGN
  | CCompressionAck _ => CAPSULE_COMPRESSION_ACK
  | CCompressionClose _ => CAPSULE_COMPRESSION_CLOSE
  | CUnknown t _ => t
  end.

(** The capacity the encoder reserves for the payload of a known capsule. *)
Definition MAX_KNOWN_CAPSULE_PAYLOAD : Z := 32.

(** The payload of a known capsule is read from the whole buffer, whatever its length says. *)
Definition capsule_decode (r : list Z) : result (Capsule * list Z) UnexpectedEnd :=
  let? (ty, r) := decode codec r in
  let? (length, r) := decode codec r in
  if zlen r <? length then Err unexpected_end
  else if ty =? CAPSULE_COMPRESSION_ASSIGN then let? (a, r) := assign_decode r in Ok (CCompressionAssign a, r)
  else if ty =? CAPSULE_COMPRESSION_ACK then let? (id, r) := decode codec r in Ok (CCompressionAck id, r)
  else if ty =? CAPSULE_COMPRESSION_CLOSE then let? (id, r) := decode codec r in Ok (CCompressionClose id, r)
  else Ok (CUnknown ty (ztake length r), zdrop length r).

Definition capsule_payload (c : Capsule) : list Z :=
  match c with
  | CCompressionAssign a => assign_encode a
  | CCompressionAck id => encode codec id
  | CCompressionClose id => encode codec id
  | CUnknown _ data => data
  end.

Definition or_zero (r : result Z VarIntBoundsExceeded) : Z := match r with Ok x => x | Err _ => 0 end.

Definition capsule_encode (c : Capsule) : list Z :=
  encode codec (or_zero (from_u64 (capsule_type c))) ++ encode codec (or_zero (from_u64 (zlen (capsule_payload c)))) ++ capsule_payload c.

End Capsule.

(** ** Datagrams *)

Module RelayDatagram.
Import VarInt NatFrames Capsule.

Record UncompressedDatagram := mk_uncompressed {
  ud_context_id : Z;
  ud_target : SocketAddr;
  ud_payload : list Z;
}.

Definition ud_encode_into (d : UncompressedDatagram) : list Z :=
  encode codec (ud_context_id d)
  ++ match ip_of (ud_target d) with
     | IpV4 o => encode u8_codec 4 ++ o
     | IpV6 o => encode u8_codec 6 ++ o
     end
  ++ encode u16_codec (port_of (ud_target d)) ++ ud_payload d.

Definition ud_decode (r : list Z) : result UncompressedDatagram UnexpectedEnd :=
  let? (context_id, r) := decode codec r in
  let? (ip_version, r) := decode u8_codec r in
  let? (ip, r) := decode_ip ip_version r in
  let? (port, r) := decode u16_codec r in
  Ok (mk_uncompressed context_id (socket_addr ip port) r).

Definition ud_encoded_size (d : UncompressedDatagram) : Z :=
  size (ud_context_id d) + 1 + match ip_of (ud_target d) with IpV4 _ => 4 | IpV6 _ => 16 end + 2 + zlen (ud_payload d).

Record CompressedDatagram := mk_compressed {
  cd_context_id : Z;
  cd_payload : list Z;
}.

Definition cd_encode_into (d : CompressedDatagram) : list Z :=
  encode codec (cd_context_id d) ++ cd_payload d.

Definition cd_decode (r : list Z) : result CompressedDatagram UnexpectedEnd :=
  let? (context_id, r) := decode codec r in
  Ok (mk_compressed context_id r).

Definition cd_encoded_size (d : CompressedDatagram) : Z := size (cd_context_id d) + zlen (cd_payload d).

Inductive Datagram :=
| Uncompressed (d : UncompressedDatagram)
| Compressed (d : CompressedDatagram).

Definition datagram_context_id (d : Datagram) : Z :=
  match d with Uncompressed d => ud_context_id d | Compressed d => cd_context_id d end.
Definition datagram_payload (d : Datagram) : list Z :=
  match d with Uncompressed d => ud_payload d | Compressed d => cd_payload d end.
Definition datagram_encode (d : Datagram) : list Z :=
  match d with Uncompressed d => ud_encode_into d | Compressed d => cd_encode_into d end.

End RelayDatagram.

(** ** Control frames of the tunnel *)

Module TunnelControl.
Import NatFrames.

Definition CONTROL_FRAME_MARKER : Z := 0xFFFFFFFF.
Definition CTRL_TYPE_PMTU_UPDATE : Z := 0x01.
Definition ADDR_FAMILY_V4 : Z := 4.
Definition ADDR_FAMILY_V6 : Z := 6.
Definition MAX_CONTROL_FRAME_BODY : Z := 64.

Inductive TunnelControlFrame := PmtuUpdate (target : SocketAddr) (mtu : Z).

Definition encode_socket_addr (a : SocketAddr) : list Z :=
  match a with
  | V4 o port => ADDR_FAMILY_V4 :: o ++ be_encode 2 port
  | V6 o port _ _ => ADDR_FAMILY_V6 :: o ++ be_encode 2 port
  end.

Definition decode_socket_addr (r : list Z) : option (SocketAddr * list Z) :=
  match r with
  | [] => None
  | family :: r =>
      if family =? ADDR_FAMILY_V4 then
        if zlen r <? 6 then None
        else Some (V4 (take 4 r) (be_decode (take 2 (drop 4 r))), drop 6 r)
      else if family =? ADDR_FAMILY_V6 then
        if zlen r <? 18 then None
        else Some (V6 (take 16 r) (be_decode (take 2 (drop 16 r))) 0 0, drop 18 r)
      else None
  end.

Definition encode_body (f : TunnelControlFrame) : list Z :=
  match f with
  | PmtuUpdate target mtu => CTRL_TYPE_PMTU_UPDATE :: encode_socket_addr target ++ be_encode 2 mtu
  end.

Definition decode_body (body : list Z) : option TunnelControlFrame :=
  match body with
  | [] => None
  | ctype :: rest =>
      if ctype =? CTRL_TYPE_PMTU_UPDATE then
        let! (target, rest) := decode_socket_addr rest else None in
        if zlen rest <? 2 then None
        else Some (PmtuUpdate target (be_decode (take 2 rest)))
      else None
  end.

End TunnelControl.

(** ** Reading back what was written *)

Module MasqueWire.
Import VarInt NatFrames Capsule RelayDatagram TunnelControl.

(** What the types guarantee of an address and of a registration. *)
Definition ip_ok (ip : IpAddr) : Prop :=
  match ip with
  | IpV4 o => length o = 4%nat ∧ bytes_ok o
  | IpV6 o => length o = 16%nat ∧ bytes_ok o
  end.

Definition version_of (ip : IpAddr) : Z := match ip with IpV4 _ => 4 | IpV6 _ => 6 end.

Definition assign_ok (a : CompressionAssign) : Prop :=
  is_u 62 (as_context_id a) ∧
  match ip_address a, udp_port a with
  | None, None => ip_version a = 0
  | Some ip, Some port => ip_version a = version_of ip ∧ ip_ok ip ∧ is_u 16 port
  | _, _ => False
  end.

(** [Unknown] carries a type the decoder does not know. *)
Definition capsule_ok (c : Capsule) : Prop :=
  match c with
  | CCompressionAssign a => assign_ok a
  | CCompressionAck id | CCompressionClose id => is_u 62 id
  | CUnknown ty data => is_u 62 ty ∧ (ty < 0x11 ∨ 0x13 < ty) ∧ bytes_ok data ∧ zlen data < 2 ^ 62
  end.

Lemma decode_codec x k : is_u 62 x → decode codec (encode codec x ++ k) = Ok (x, k).
Proof. exact (codec_roundtrip x k). Qed.

Lemma decode_u16 x k : is_u 16 x → decode u16_codec (encode u16_codec x ++ k) = Ok (x, k).
Proof. exact (codec_roundtrip (CodecLaws := fixed_laws 2 ltac:(lia)) x k). Qed.

Lemma decode_ip_octets ip k : ip_ok ip → decode_ip (version_of ip) (octets ip ++ k) = Ok (ip, k).
Proof.
  destruct ip as [o|o]; intros Ho; unfold decode_ip; simpl version_of; simpl octets; simpl Z.eqb; cbv iota.
  - by rewrite (codec_roundtrip (C := ipv4_codec) (CodecLaws := octets_laws 4 ltac:(lia)) o k Ho : decode ipv4_codec (o ++ k) = _).
  - by rewrite (codec_roundtrip (C := ipv6_codec) (CodecLaws := octets_laws 16 ltac:(lia)) o k Ho : decode ipv6_codec (o ++ k) = _).
Qed.

Lemma encode_u8 x k : is_u 8 x → encode u8_codec x ++ k = x :: k.
Proof. intros Hx. simpl. by rewrite Z.shiftr_0_r, wrap_small. Qed.

Lemma assign_roundtrip a k : assign_ok a → assign_decode (assign_encode a ++ k) = Ok (a, k).
Proof.
  destruct a as [id v ip port]. unfold assign_ok, assign_decode, assign_encode. cbn [as_context_id ip_version ip_address udp_port].
  intros [Hid Ha]. rewrite <- !app_assoc, (decode_codec _ _ Hid).
  destruct ip as [ip|], port as [port|]; try done.
  - destruct Ha as (-> & Hip & Hport).
    rewrite encode_u8 by (destruct ip; split; simpl; lia). rewrite decode_u8_cons.
    replace (version_of ip =? 0) with false by by destruct ip.
    by rewrite <- app_assoc, (decode_ip_octets _ _ Hip), (decode_u16 _ _ Hport).
  - subst v. rewrite encode_u8, decode_u8_cons by (split; simpl; lia). done.
Qed.

Lemma zlen_encode x : is_u 62 x → zlen (encode codec x) = size x.
Proof. exact (zlen_varint_encode x). Qed.

(** A known capsule stays within the capacity reserved for it. *)
Lemma known_payload_bound c : capsule_ok c →
  match c with CUnknown _ data => zlen (capsule_payload c) = zlen data
  | _ => zlen (capsule_payload c) ≤ MAX_KNOWN_CAPSULE_PAYLOAD end.
Proof.
  unfold MAX_KNOWN_CAPSULE_PAYLOAD.
  destruct c as [[id v ip port]|id|id|ty data]; cbn [capsule_ok capsule_payload]; [|intros Hid..|done].
  2,3: rewrite zlen_encode by done; pose proof (size_bounds id); lia.
  unfold assign_ok, assign_encode. cbn [as_context_id ip_version ip_address udp_port]. intros [Hid Ha].
  pose proof (size_bounds id). rewrite !zlen_app, zlen_encode by done.
  destruct ip as [[o|o]|], port as [port|]; try done;
    rewrite ?zlen_app; unfold zlen; simpl; rewrite ?length_be_encode.
  - destruct Ha as (_ & [-> _] & _). lia.
  - destruct Ha as (_ & [-> _] & _). lia.
  - lia.
Qed.

Lemma payload_fits c : capsule_ok c → is_u 62 (zlen (capsule_payload c)).
Proof.
  intros Hc. pose proof (known_payload_bound c Hc) as Hb. split; [apply zlen_nonneg|].
  unfold MAX_KNOWN_CAPSULE_PAYLOAD in Hb. destruct c; cbn [capsule_ok] in Hc; lia.
Qed.

Lemma or_zero_from_u64 x : is_u 62 x → or_zero (from_u64 x) = x.
Proof.
  intros [? ?]. unfold from_u64. rewrite (proj2 (Z.ltb_lt _ _)); [done|]. lia.
Qed.

Lemma capsule_type_ok c : capsule_ok c → is_u 62 (capsule_type c).
Proof. destruct c; cbn [capsule_ok capsule_type]; [intros _; split; done..|by intros [? _]]. Qed.

(** What [Capsule::decode] does after the two integers in front. *)
Lemma capsule_decode_body c k : capsule_ok c →
  capsule_decode (capsule_encode c ++ k) = Ok (c, k).
Proof.
  intros Hc. unfold capsule_encode, capsule_decode.
  rewrite !or_zero_from_u64 by (by apply capsule_type_ok || by apply payload_fits).
  rewrite <- !app_assoc, decode_codec by by apply capsule_type_ok.
  rewrite decode_codec by by apply payload_fits.
  rewrite zlen_app, (proj2 (Z.ltb_ge _ _)) by (pose proof (zlen_nonneg k); lia).
  destruct c as [a|id|id|ty data]; cbn [capsule_type capsule_payload capsule_ok] in *.
  - simpl Z.eqb. cbv iota. by rewrite assign_roundtrip.
  - simpl Z.eqb. cbv iota. by rewrite decode_codec.
  - simpl Z.eqb. cbv iota. by rewrite decode_codec.
  - destruct Hc as (_ & Hty & _). unfold CAPSULE_COMPRESSION_ASSIGN, CAPSULE_COMPRESSION_ACK, CAPSULE_COMPRESSION_CLOSE.
    rewrite !(proj2 (Z.eqb_neq _ _)) by lia. by rewrite ztake_app_zlen, zdrop_app_zlen.
Qed.

(** *** Datagrams and control frames *)

Definition ud_ok (d : UncompressedDatagram) : Prop :=
  is_u 62 (ud_context_id d) ∧ addr_ok (ud_target d) ∧ addr_plain (ud_target d).

Lemma addr_ip a : addr_ok a → ip_ok (ip_of a) ∧ is_u 16 (port_of a).
Proof. destruct a; simpl; tauto. Qed.

Lemma addr_split a : addr_plain a → socket_addr (ip_of a) (port_of a) = a.
Proof. destruct a; simpl; [done|]. by intros [-> ->]. Qed.

Lemma ud_encode_split d :
  ud_encode_into d = encode codec (ud_context_id d) ++ version_of (ip_of (ud_target d)) :: octets (ip_of (ud_target d))
    ++ encode u16_codec (port_of (ud_target d)) ++ ud_payload d.
Proof. unfold ud_encode_into. by destruct (ip_of _). Qed.

Lemma ud_roundtrip d : ud_ok d → ud_decode (ud_encode_into d) = Ok d.
Proof.
  destruct d as [id a payload]. rewrite ud_encode_split. unfold ud_ok, ud_decode. cbn [ud_context_id ud_target ud_payload].
  intros (Hid & Ha & Hp). destruct (addr_ip a Ha) as [Hip Hport].
  rewrite decode_codec, decode_u8_cons, decode_ip_octets, decode_u16, addr_split by done. done.
Qed.

Lemma ud_encode_size d : is_u 62 (ud_context_id d) → addr_ok (ud_target d) → zlen (ud_encode_into d) = ud_encoded_size d.
Proof.
  intros Hid Ha. unfold ud_encoded_size. rewrite ud_encode_split, zlen_app, zlen_encode, zlen_cons, !zlen_app by done.
  unfold zlen. simpl length. destruct (ud_target d) as [o p|o p fl sc]; simpl in *; destruct Ha as [-> _]; lia.
Qed.

Lemma cd_roundtrip d : is_u 62 (cd_context_id d) → cd_decode (cd_encode_into d) = Ok d.
Proof. destruct d as [id payload]. intros Hid. unfold cd_decode, cd_encode_into. by rewrite decode_codec. Qed.

Definition frame_ok (f : TunnelControlFrame) : Prop :=
  match f with PmtuUpdate target mtu => addr_ok target ∧ addr_plain target ∧ is_u 16 mtu end.

Lemma decode_socket_addr_encode a k : addr_ok a → addr_plain a → decode_socket_addr (encode_socket_addr a ++ k) = Some (a, k).
Proof.
  destruct a as [o port|o port fl sc]; cbn [addr_ok addr_plain encode_socket_addr]; intros Ha Hp;
    rewrite <- app_comm_cons, <- app_assoc; unfold decode_socket_addr, ADDR_FAMILY_V4, ADDR_FAMILY_V6; simpl Z.eqb; cbv iota.
  - destruct Ha as (Hl & _ & Hport). destruct (octets_port 4 6 o port k Hl eq_refl Hport) as (-> & -> & ->).
    rewrite (proj2 (Z.ltb_ge _ _)); [done|]. rewrite !zlen_app. unfold zlen. rewrite Hl, length_be_encode. lia.
  - destruct Ha as (Hl & _ & Hport & _), Hp as [-> ->].
    destruct (octets_port 16 18 o port k Hl eq_refl Hport) as (-> & -> & ->).
    rewrite (proj2 (Z.ltb_ge _ _)); [done|]. rewrite !zlen_app. unfold zlen. rewrite Hl, length_be_encode. lia.
Qed.

Lemma body_roundtrip f : frame_ok f → decode_body (encode_body f) = Some f.
Proof.
  destruct f as [a mtu]. intros (Ha & Hp & Hm). unfold decode_body, encode_body. rewrite Z.eqb_refl.
  rewrite decode_socket_addr_encode by done. rewrite (proj2 (Z.ltb_ge _ _)) by done.
  rewrite <- (app_nil_r (be_encode 2 mtu)), take_be, be_decode_encode by done. done.
Qed.

(** The largest body is that of an IPv6 target. *)
Lemma body_bound f : frame_ok f → 0 < zlen (encode_body f) ≤ MAX_CONTROL_FRAME_BODY.
Proof.
  destruct f as [a mtu]. intros (Ha & _). unfold encode_body, encode_socket_addr, MAX_CONTROL_FRAME_BODY.
  rewrite zlen_cons, zlen_app. destruct a; simpl in Ha; rewrite zlen_cons, zlen_app;
    unfold zlen; rewrite !length_be_encode; destruct Ha as [-> _]; lia.
Qed.

(** *** Capsules that arrive *)

Lemma decode_varint_ok r x r' : bytes_ok r → decode codec r = Ok (x, r') → is_u 62 x ∧ bytes_ok r'.
Proof. intros Hr Hd. by destruct (get_var_suffix r x r' Hr Hd) as (? & ? & _). Qed.

Lemma decode_u16_ok r x r' : bytes_ok r → decode u16_codec r = Ok (x, r') → is_u 16 x ∧ bytes_ok r'.
Proof.
  intros Hr Hd. destruct (codec_consumes (CodecLaws := fixed_laws 2 ltac:(lia)) r x r' Hr Hd) as (Hx & pre & _ & ->).
  split; [exact Hx|]. by apply Forall_app in Hr as [_ ?].
Qed.

Lemma decode_u8_ok r x r' : bytes_ok r → decode u8_codec r = Ok (x, r') → bytes_ok r'.
Proof.
  intros Hr Hd. destruct (codec_consumes (CodecLaws := fixed_laws 1 ltac:(lia)) r x r' Hr Hd) as (_ & pre & _ & ->).
  by apply Forall_app in Hr as [_ ?].
Qed.

Lemma decode_ip_sound v r ip r' : bytes_ok r → decode_ip v r = Ok (ip, r') → v = version_of ip ∧ ip_ok ip ∧ bytes_ok r'.
Proof.
  intros Hr. unfold decode_ip. destruct (Z.eqb_spec v 4) as [->|]; [|destruct (Z.eqb_spec v 6) as [->|]; [|done]].
  - destruct (decode ipv4_codec r) as [[o r1]|] eqn:Hd; [|done]. intros [= <- <-].
    destruct (codec_consumes (CodecLaws := octets_laws 4 ltac:(lia)) r o r1 Hr Hd) as (Ho & pre & _ & ->).
    apply Forall_app in Hr as [_ ?]. done.
  - destruct (decode ipv6_codec r) as [[o r1]|] eqn:Hd; [|done]. intros [= <- <-].
    destruct (codec_consumes (CodecLaws := octets_laws 16 ltac:(lia)) r o r1 Hr Hd) as (Ho & pre & _ & ->).
    apply Forall_app in Hr as [_ ?]. done.
Qed.

Lemma assign_decode_sound r a r' : bytes_ok r → assign_decode r = Ok (a, r') → assign_ok a.
Proof.
  intros Hr. unfold assign_decode.
  destruct (decode codec r) as [[id r1]|] eqn:H1; [|done]. destruct (decode_varint_ok _ _ _ Hr H1) as [Hid Hr1].
  destruct (decode u8_codec r1) as [[v r2]|] eqn:H2; [|done]. pose proof (decode_u8_ok _ _ _ Hr1 H2) as Hr2.
  destruct (Z.eqb_spec v 0) as [->|]; [by intros [= <- <-]|].
  destruct (decode_ip v r2) as [[ip r3]|] eqn:H3; [|done]. destruct (decode_ip_sound _ _ _ _ Hr2 H3) as (-> & Hip & Hr3).
  destruct (decode u16_codec r3) as [[port r4]|] eqn:H4; [|done]. intros [= <- <-].
  destruct (decode_u16_ok _ _ _ Hr3 H4). by split_and!.
Qed.

Lemma capsule_decode_sound r c r' : bytes_ok r → capsule_decode r = Ok (c, r') → capsule_ok c.
Proof.
  intros Hr. unfold capsule_decode, CAPSULE_COMPRESSION_ASSIGN, CAPSULE_COMPRESSION_ACK, CAPSULE_COMPRESSION_CLOSE.
  destruct (decode codec r) as [[ty r1]|] eqn:H1; [|done]. destruct (decode_varint_ok _ _ _ Hr H1) as [Hty Hr1].
  destruct (decode codec r1) as [[len r2]|] eqn:H2; [|done]. destruct (decode_varint_ok _ _ _ Hr1 H2) as [Hlen Hr2].
  destruct (Z.ltb_spec (zlen r2) len) as [|Hfit]; [done|].
  destruct (Z.eqb_spec ty 0x11).
  { destruct (assign_decode r2) as [[a r3]|] eqn:H3; [|done]. intros [= <- <-]. by eapply assign_decode_sound. }
  destruct (Z.eqb_spec ty 0x12).
  { destruct (decode codec r2) as [[id r3]|] eqn:H3; [|done]. intros [= <- <-]. by destruct (decode_varint_ok _ _ _ Hr2 H3). }
  destruct (Z.eqb_spec ty 0x13).
  { destruct (decode codec r2) as [[id r3]|] eqn:H3; [|done]. intros [= <- <-]. by destruct (decode_varint_ok _ _ _ Hr2 H3). }
  intros [= <- <-]. split; [done|]. split; [lia|]. split; [by apply Forall_take|].
  destruct Hlen. rewrite zlen_ztake by lia. lia.
Qed.

(** C25: every capsule an endpoint builds is read back as it was, in front of anything; the payload
    of a known one stays within the capacity the encoder reserves for it; and whatever capsule
    is read from received bytes is well-formed, an address with its version included, and is
    itself read back from its encoding. *)
Theorem capsule_roundtrip (c : Capsule) (k : list Z) :
  (capsule_ok c → capsule_decode (capsule_encode c ++ k) = Ok (c, k)
     ∧ match c with CUnknown _ _ => True | _ => zlen (capsule_payload c) ≤ MAX_KNOWN_CAPSULE_PAYLOAD end)
  ∧ ∀ r r', bytes_ok r → capsule_decode r = Ok (c, r') → capsule_ok c ∧ capsule_decode (capsule_encode c) = Ok (c, []).
Proof.
  split.
  - intros Hc. split; [by apply capsule_decode_body|]. pose proof (known_payload_bound c Hc). by destruct c.
  - intros r r' Hr Hd. pose proof (capsule_decode_sound r c r' Hr Hd) as Hc. split; [done|].
    rewrite <- (app_nil_r (capsule_encode c)). by apply capsule_decode_body.
Qed.

(** The length of a known capsule is not compared with what is read: an acknowledgement said to be
    empty is read from the bytes behind it. *)
Example capsule_length_unchecked : capsule_decode [0x12; 0; 5; 6] = Ok (CCompressionAck 5, [6]).
Proof. reflexivity. Qed.

End MasqueWire.
