(* ===== verification/MasqueTunnel.v ===== *)
(** * The stream that carries relayed datagrams

    Models the tunnel between a relay and the client it serves: the client's virtual socket
    ([src/masque/relay_socket.rs]: its queues, the reader and writer tasks, [try_send] and
    [poll_recv]) and the relay's forwarding loop
    ([src/masque/relay_server.rs], [run_stream_forwarding_loop]).  Both ends and the two
    directions of the QUIC stream between them form one system, whose theorems say that the
    tunnel loses, duplicates, reorders and alters nothing. *)

From stdpp Require Import gmap list countable.
From S2P Require Import Prelude Coding NatFrames Masque.

(** ** Frames on the stream *)

Module TunnelFrames.
Import NatFrames Capsule RelayDatagram TunnelControl.

Definition RELAY_STREAM_BATCH_MAX_FRAMES : Z := 64.
Definition RELAY_STREAM_BATCH_MAX_BYTES : Z := 64 * 1024.
Definition MAX_RELAY_FRAME : Z := 512 * 1024.

Definition append_relay_frame (out encoded : list Z) : list Z :=
  out ++ be_encode 4 (wrap 32 (zlen encoded)) ++ encoded.

Definition append_control_frame (out body : list Z) : list Z :=
  out ++ be_encode 4 CONTROL_FRAME_MARKER ++ be_encode 4 (wrap 32 (zlen body)) ++ body.

(** The zero length that keeps the connection alive. *)
Definition keepalive_bytes : list Z := be_encode 4 0.

Inductive WriterItem := Data (encoded : list Z) | Control (body : list Z).

(** The relay's writer: the first item, then what else is queued, up to a full batch or a
    control frame. *)
Fixpoint server_batch (frames : Z) (batch : list Z) (fwd_rx : list WriterItem) : list Z * list WriterItem :=
  if (frames <? RELAY_STREAM_BATCH_MAX_FRAMES) && (zlen batch <? RELAY_STREAM_BATCH_MAX_BYTES) then
    match fwd_rx with
    | [] => (batch, [])
    | Data next :: fwd_rx => server_batch (frames + 1) (append_relay_frame batch next) fwd_rx
    | Control body :: fwd_rx => (append_control_frame batch body, fwd_rx)
    end
  else (batch, fwd_rx).

Definition server_write (fwd_rx : list WriterItem) : option (list Z * list WriterItem) :=
  match fwd_rx with
  | [] => None
  | Data encoded :: fwd_rx => Some (server_batch 1 (append_relay_frame [] encoded) fwd_rx)
  | Control body :: fwd_rx => Some (append_control_frame [] body, fwd_rx)
  end.

(** The client's writer. *)
Fixpoint client_batch (frames : Z) (batch : list Z) (send_rx : list (list Z)) : list Z * list (list Z) :=
  if (frames <? RELAY_STREAM_BATCH_MAX_FRAMES) && (zlen batch <? RELAY_STREAM_BATCH_MAX_BYTES) then
    match send_rx with
    | [] => (batch, [])
    | next :: send_rx => client_batch (frames + 1) (append_relay_frame batch next) send_rx
    end
  else (batch, send_rx).

Definition client_write (send_rx : list (list Z)) : option (list Z * list (list Z)) :=
  match send_rx with
  | [] => None
  | encoded :: send_rx => Some (client_batch 1 (append_relay_frame [] encoded) send_rx)
  end.

(** One turn of a reader: it waits for bytes that have not arrived ([read_exact]), leaves its
    loop, or goes on with the rest, having read a datagram, an MTU or nothing of interest. *)
Inductive Turn :=
| Wait
| Break
| Skip (rest : list Z)
| Packet (d : UncompressedDatagram) (rest : list Z)
| Mtu (target : SocketAddr) (mtu : Z) (rest : list Z).

Definition read_exact (n : Z) (r : list Z) (k : list Z → list Z → Turn) : Turn :=
  if zlen r <? n then Wait else k (ztake n r) (zdrop n r).

(** A frame of [frame_len] bytes, as both readers treat it. *)
Definition read_data (frame_len : Z) (r : list Z) : Turn :=
  if frame_len >? MAX_RELAY_FRAME then Break
  else read_exact frame_len r (λ frame_buf r,
    match ud_decode frame_buf with Ok d => Packet d r | Err _ => Skip r end).

Definition client_turn (r : list Z) : Turn :=
  read_exact 4 r (λ len_buf r,
    let frame_len := be_decode len_buf in
    if frame_len =? 0 then Skip r
    else if frame_len =? CONTROL_FRAME_MARKER then
      read_exact 4 r (λ body_len_buf r,
        let body_len := be_decode body_len_buf in
        if body_len >? MAX_CONTROL_FRAME_BODY then Break
        else read_exact body_len r (λ body r,
          match decode_body body with
          | Some (PmtuUpdate target mtu) => Mtu target mtu r
          | None => Skip r
          end))
    else read_data frame_len r).

Definition server_turn (r : list Z) : Turn :=
  read_exact 4 r (λ len_buf r,
    let frame_len := be_decode len_buf in
    if frame_len =? 0 then Skip r else read_data frame_len r).

End TunnelFrames.

(** ** The client's virtual socket *)

Module RelaySocket.
Import NatFrames Capsule RelayDatagram TunnelControl TunnelFrames.

Definition SEND_QUEUE_CAPACITY : Z := 8192.
Definition RECV_QUEUE_CAPACITY : Z := 8192.

(** Why a tunnel stopped carrying traffic: the first cause stays. *)
Inductive TunnelCause := Live | Failed | ShutdownRequested.

Record TunnelState := mk_tunnel_state {
  cause : TunnelCause;
  writer_stopped : bool;
}.
#[global] Instance tunnel_state_settable : Settable TunnelState := λ s, mk_tunnel_state (cause s) (writer_stopped s).

Definition settle (c : TunnelCause) (s : TunnelState) : TunnelState :=
  match cause s with Live => s <| cause := c |> | _ => s end.

Definition is_closed (s : TunnelState) : bool := match cause s with Live => false | _ => true end.
Definition shutdown_requested (s : TunnelState) : bool := match cause s with ShutdownRequested => true | _ => false end.

Definition mark_writer_stopped (c : TunnelCause) (s : TunnelState) : TunnelState :=
  (settle c s) <| writer_stopped := true |>.

(** The channels are their queues; each is open while the task at its other end runs. *)
Record MasqueRelaySocket := mk_socket {
  recv_rx : list (list Z * SocketAddr);
  reader_running : bool;
  send_tx : list (list Z);
  writer_running : bool;
  target_mtu : gmap SocketAddr Z;
  state : TunnelState;
}.
#[global] Instance socket_settable : Settable MasqueRelaySocket := λ s,
  mk_socket (recv_rx s) (reader_running s) (send_tx s) (writer_running s) (target_mtu s) (state s).

Definition new : MasqueRelaySocket := mk_socket [] true [] true ∅ (mk_tunnel_state Live false).

Definition writable_or_finished (s : MasqueRelaySocket) : bool :=
  (0 <? SEND_QUEUE_CAPACITY - zlen (send_tx s)) || negb (writer_running s) || writer_stopped (state s).

Inductive IoError := WouldBlock | ConnectionAborted | BrokenPipe.

Definition enqueue_outbound (encoded : list Z) (s : MasqueRelaySocket) : MasqueRelaySocket * result unit IoError :=
  if negb (writer_running s) then (s, Err ConnectionAborted)
  else if zlen (send_tx s) <? SEND_QUEUE_CAPACITY then (s <| send_tx := send_tx s ++ [encoded] |>, Ok tt)
  else if writer_stopped (state s) then (s, Ok tt)
  else (s, Err WouldBlock).

(** The fields of [quinn_udp::Transmit] that are read. *)
Record Transmit := mk_transmit {
  destination : SocketAddr;
  contents : list Z;
  segment_size : option Z;
}.

(** [slice::chunks]. *)
Fixpoint chunks_of (fuel : nat) (n : Z) (l : list Z) : list (list Z) :=
  match fuel, l with
  | O, _ | _, [] => []
  | S fuel, _ => ztake n l :: chunks_of fuel n (zdrop n l)
  end.
Definition chunks (n : Z) (l : list Z) : list (list Z) := chunks_of (length l) n l.

Definition send_datagram (destination : SocketAddr) (payload : list Z) (s : MasqueRelaySocket) :
    MasqueRelaySocket * result unit IoError :=
  enqueue_outbound (ud_encode_into (mk_uncompressed 0 destination payload)) s.

Fixpoint send_chunks (destination : SocketAddr) (cs : list (list Z)) (s : MasqueRelaySocket) :
    MasqueRelaySocket * result unit IoError :=
  match cs with
  | [] => (s, Ok tt)
  | chunk :: cs =>
      match send_datagram destination chunk s with
      | (s, Ok _) => send_chunks destination cs s
      | (s, Err e) => (s, Err e)
      end
  end.

(** [None] is the panic of [chunks] on a segment size of zero. *)
Definition try_send (t : Transmit) (s : MasqueRelaySocket) : option (MasqueRelaySocket * result unit IoError) :=
  let segment := default (zlen (contents t)) (segment_size t) in
  let oversized := match target_mtu s !! destination t with Some cap => segment >? cap | None => false end in
  if oversized then Some (s, Ok tt)
  else match segment_size t with
  | Some segment_size =>
      if segment_size =? 0 then None
      else Some (send_chunks (destination t) (chunks segment_size (contents t)) s)
  | None => Some (send_datagram (destination t) (contents t) s)
  end.

(** What a poll returns: the packets copied to the buffers, nothing yet, or an error. *)
Inductive PollRecv := Filled (packets : list (list Z * SocketAddr)) | Pending | RecvError (e : IoError).

(** The queue is drained to the buffers of the given lengths; a packet that does not fit the
    next buffer is dropped. *)
Fixpoint fill (bufs : list Z) (rx filled : list (list Z * SocketAddr)) :
    list (list Z * SocketAddr) * list (list Z * SocketAddr) :=
  match rx with
  | [] => ([], filled)
  | (payload, source) :: rx' =>
      match bufs with
      | [] => (rx, filled)
      | len :: bufs' =>
          if zlen payload >? len then fill bufs rx' filled
          else fill bufs' rx' (filled ++ [(payload, source)])
      end
  end.

Definition poll_recv (bufs : list Z) (meta : nat) (s : MasqueRelaySocket) : MasqueRelaySocket * PollRecv :=
  match bufs, meta with
  | [], _ | _, O => (s, Filled [])
  | _, _ =>
      let (rx, filled) := fill (take meta bufs) (recv_rx s) [] in
      let s := s <| recv_rx := rx |> in
      match filled with
      | [] =>
          if reader_running s then (s, Pending)
          else if shutdown_requested (state s) then (s, Pending)
          else (s, RecvError BrokenPipe)
      | _ => (s, Filled filled)
      end
  end.

(** The end of the reader task: it reports to the control, if that still exists. *)
Definition reader_exit (control : bool) (s : MasqueRelaySocket) : MasqueRelaySocket :=
  s <| reader_running := false |> <| state := if control then settle Failed (state s) else state s |>.

(** The end of the writer task: [WriterExit::drop]; what was queued is dropped with the channel. *)
Definition writer_exit (s : MasqueRelaySocket) : MasqueRelaySocket :=
  s <| writer_running := false |> <| send_tx := [] |> <| state := mark_writer_stopped Failed (state s) |>.

(** [abort_tasks]: what it records before the tasks are aborted. *)
Definition abort_tasks (s : MasqueRelaySocket) : MasqueRelaySocket :=
  s <| state := mark_writer_stopped ShutdownRequested (state s) |>.

(** A turn of the reader task; the send on a full channel waits. *)
Definition reader_turn (control : bool) (arrived : list Z) (s : MasqueRelaySocket) : MasqueRelaySocket * list Z :=
  match client_turn arrived with
  | Wait => (s, arrived)
  | Break => (reader_exit control s, arrived)
  | Skip rest => (s, rest)
  | Mtu target mtu rest => (s <| target_mtu := <[target := mtu]> (target_mtu s) |>, rest)
  | Packet d rest =>
      if zlen (recv_rx s) <? RECV_QUEUE_CAPACITY
      then (s <| recv_rx := recv_rx s ++ [(ud_payload d, ud_target d)] |>, rest)
      else (s, arrived)
  end.

End RelaySocket.

(** ** The relay's forwarding loop and the tunnel as a whole *)

Module Tunnel.
Import NatFrames Capsule RelayDatagram TunnelControl TunnelFrames RelaySocket.

Definition RELAY_FORWARD_CHANNEL_CAPACITY : Z := 8192.
Definition PMTU_FALLBACK_HINT : Z := 1200.

Abbreviation packet := (list Z * SocketAddr)%type.

(** The state of [run_stream_forwarding_loop]: the channel to the writer task, and whether the
    loop runs. *)
Record Forwarding := mk_forwarding {
  fwd : list WriterItem;
  running : bool;
}.
#[global] Instance forwarding_settable : Settable Forwarding := λ f, mk_forwarding (fwd f) (running f).

(** The reader task: a datagram received on the session's socket is queued; a full channel
    makes it wait. *)
Definition udp_received (payload : list Z) (source : SocketAddr) (f : Forwarding) : option Forwarding :=
  if zlen (fwd f) <? RELAY_FORWARD_CHANNEL_CAPACITY
  then Some (f <| fwd := fwd f ++ [Data (ud_encode_into (mk_uncompressed 0 source payload))] |>)
  else None.

(** The outcomes of [send_to] on the session's socket. *)
Inductive SendTo := Sent | MessageTooLarge | SendFailed.

(** Direction 2: a decoded datagram is sent to its target, and a rejection for its size is
    reported, best effort. *)
Definition forward (o : SendTo) (d : UncompressedDatagram) (f : Forwarding) : Forwarding :=
  match o with
  | Sent | SendFailed => f
  | MessageTooLarge =>
      if zlen (fwd f) <? RELAY_FORWARD_CHANNEL_CAPACITY
      then f <| fwd := fwd f ++ [Control (encode_body (PmtuUpdate (ud_target d) PMTU_FALLBACK_HINT))] |>
      else f
  end.

(** The two ends, the bytes written to the two directions of the stream that have not arrived
    and that have arrived unread, and the history of the packets at the four interfaces:
    accepted from the client's endpoint, passed to [send_to], received on the relay's socket,
    taken by [poll_recv] and handed to the endpoint by it.  [reported] are the targets an MTU
    report was queued for. *)
Record Sys := mk_sys {
  sock : MasqueRelaySocket;
  control : bool;
  relay : Forwarding;
  up_transit : list Z; up_arrived : list Z;
  down_transit : list Z; down_arrived : list Z;
  accepted : list packet; forwarded : list packet;
  received : list packet; polled : list packet; handed : list packet;
  reported : list SocketAddr;
}.
#[global] Instance tunnel_sys_settable : Settable Sys := λ s,
  mk_sys (sock s) (control s) (relay s) (up_transit s) (up_arrived s) (down_transit s) (down_arrived s)
    (accepted s) (forwarded s) (received s) (polled s) (handed s) (reported s).

Definition start : Sys := mk_sys new true (mk_forwarding [] true) [] [] [] [] [] [] [] [] [] [].

Inductive Ev :=
| RelayUdp (payload : list Z) (source : SocketAddr)
| RelayWrite
| RelayKeepalive
| RelayRead (o : SendTo)
| RelayEnds (written : Z)
| UpArrive (n : Z)
| DownArrive (n : Z)
| ClientRead
| ClientReaderError
| ClientPoll (bufs : list Z) (meta : nat)
| ClientSend (t : Transmit)
| ClientWrite
| ClientKeepalive
| ClientWriterEnds (written : Z)
| DropControl
| Shutdown.

(** What an address keeps on the wire: IP and port. *)
Definition wire_addr (a : SocketAddr) : SocketAddr := socket_addr (ip_of a) (port_of a).

(** The datagrams a transmit is made of. *)
Definition pieces (t : Transmit) : list packet :=
  (λ c, (c, wire_addr (destination t))) <$>
  match segment_size t with Some n => chunks n (contents t) | None => [contents t] end.

(** The packets that left a queue, or entered it. *)
Definition taken (l l' : list packet) : list packet := take (length l - length l') l.
Definition added {A B} (q q' : list A) (l : list B) : list B := take (length q' - length q) l.

Definition report_of (o : SendTo) (f : Forwarding) (d : UncompressedDatagram) : list SocketAddr :=
  match o with
  | MessageTooLarge => if zlen (fwd f) <? RELAY_FORWARD_CHANNEL_CAPACITY then [ud_target d] else []
  | _ => []
  end.

(** An event that is not enabled changes nothing.  The ends of the tasks cover their errors and
    their abortion after [Shutdown]; a writer may end within a batch. *)
Definition step (s : Sys) (e : Ev) : Sys :=
  match e with
  | RelayUdp payload source =>
      if running (relay s) then
        let! f := udp_received payload source (relay s) else s in
        s <| relay := f |> <| received := received s ++ [(payload, wire_addr source)] |>
      else s
  | RelayWrite =>
      if running (relay s) then
        let! (batch, q) := server_write (fwd (relay s)) else s in
        s <| relay := ((relay s) <| fwd := q |>) |> <| down_transit := down_transit s ++ batch |>
      else s
  | RelayKeepalive =>
      if running (relay s) then s <| down_transit := down_transit s ++ keepalive_bytes |> else s
  | RelayRead o =>
      if running (relay s) then
        match server_turn (up_arrived s) with
        | Wait | Mtu _ _ _ => s
        | Break => s <| relay := mk_forwarding [] false |>
        | Skip rest => s <| up_arrived := rest |>
        | Packet d rest =>
            s <| up_arrived := rest |> <| relay := forward o d (relay s) |>
              <| forwarded := forwarded s ++ [(ud_payload d, ud_target d)] |>
              <| reported := reported s ++ report_of o (relay s) d |>
        end
      else s
  | RelayEnds written =>
      if running (relay s) then
        let batch := match server_write (fwd (relay s)) with Some (batch, _) => batch | None => [] end in
        s <| relay := mk_forwarding [] false |> <| down_transit := down_transit s ++ ztake written batch |>
      else s
  | UpArrive n => s <| up_arrived := up_arrived s ++ ztake n (up_transit s) |> <| up_transit := zdrop n (up_transit s) |>
  | DownArrive n =>
      s <| down_arrived := down_arrived s ++ ztake n (down_transit s) |> <| down_transit := zdrop n (down_transit s) |>
  | ClientRead =>
      if reader_running (sock s) then
        let (k, rest) := reader_turn (control s) (down_arrived s) (sock s) in
        s <| sock := k |> <| down_arrived := rest |>
      else s
  | ClientReaderError => if reader_running (sock s) then s <| sock := reader_exit (control s) (sock s) |> else s
  | ClientPoll bufs meta =>
      let (k, out) := poll_recv bufs meta (sock s) in
      s <| sock := k |> <| polled := polled s ++ taken (recv_rx (sock s)) (recv_rx k) |>
        <| handed := handed s ++ match out with Filled l => l | _ => [] end |>
  | ClientSend t =>
      let! (k, _) := try_send t (sock s) else s in
      s <| sock := k |> <| accepted := accepted s ++ added (send_tx (sock s)) (send_tx k) (pieces t) |>
  | ClientWrite =>
      if writer_running (sock s) then
        let! (batch, q) := client_write (send_tx (sock s)) else s in
        s <| sock := ((sock s) <| send_tx := q |>) |> <| up_transit := up_transit s ++ batch |>
      else s
  | ClientKeepalive =>
      if writer_running (sock s) && (zlen (send_tx (sock s)) <? SEND_QUEUE_CAPACITY)
      then s <| sock := ((sock s) <| send_tx := send_tx (sock s) ++ [[]] |>) |> else s
  | ClientWriterEnds written =>
      if writer_running (sock s) then
        let batch := match client_write (send_tx (sock s)) with Some (batch, _) => batch | None => [] end in
        s <| sock := writer_exit (sock s) |> <| up_transit := up_transit s ++ ztake written batch |>
      else s
  | DropControl => s <| control := false |>
  | Shutdown => if control s then s <| sock := abort_tasks (sock s) |> else s
  end.

Definition run (s : Sys) (evs : list Ev) : Sys := fold_left step evs s.

(** What the environment guarantees: addresses are addresses, a UDP payload fits the receive
    buffer of the relay, and so does a segment the endpoint sends. *)
Definition MAX_UDP : Z := 65536.

Definition ev_ok (e : Ev) : Prop :=
  match e with
  | RelayUdp payload source => addr_ok source ∧ zlen payload ≤ MAX_UDP
  | ClientSend t => addr_ok (destination t) ∧
      match segment_size t with Some n => 0 < n ≤ MAX_UDP | None => zlen (contents t) ≤ MAX_UDP end
  | _ => True
  end.

End Tunnel.

(** ** What the tunnel guarantees *)

Module TunnelProofs.
Import VarInt NatFrames Capsule RelayDatagram TunnelControl MasqueWire TunnelFrames RelaySocket Tunnel.

(** *** Readers on a stream that is still arriving *)

(** A turn on a stream with more bytes behind. *)
Definition extend (t : Turn) (x : list Z) : Turn :=
  match t with
  | Wait => Wait | Break => Break
  | Skip r => Skip (r ++ x) | Packet d r => Packet d (r ++ x) | Mtu a m r => Mtu a m (r ++ x)
  end.

(** A reader that does not wait decides the same however much more arrives. *)
Definition steady (f : list Z → Turn) : Prop := ∀ r x, f r = Wait ∨ f (r ++ x) = extend (f r) x.

Lemma read_exact_steady n k : (∀ a, steady (k a)) → steady (λ r, read_exact n r k).
Proof.
  intros Hk r x. unfold read_exact. destruct (Z.ltb_spec (zlen r) n); [by left|].
  rewrite zlen_app, (proj2 (Z.ltb_ge _ _)) by (pose proof (zlen_nonneg x); lia).
  rewrite ztake_app_le, zdrop_app_le by lia. apply Hk.
Qed.

Lemma read_data_steady n : steady (read_data n).
Proof.
  unfold read_data. destruct (n >? _); [by right|]. apply read_exact_steady. intros a r x.
  right. by destruct (ud_decode a).
Qed.

Lemma client_turn_steady : steady client_turn.
Proof.
  apply read_exact_steady. intros a. simpl. destruct (_ =? 0); [by right|].
  destruct (_ =? _); [|apply read_data_steady]. apply read_exact_steady. intros b. simpl.
  destruct (_ >? _); [by right|]. apply read_exact_steady. intros c r x. right. by destruct (decode_body c) as [[]|].
Qed.

Lemma server_turn_steady : steady server_turn.
Proof. apply read_exact_steady. intros a. simpl. destruct (_ =? 0); [by right|]. apply read_data_steady. Qed.

(** *** The frames the writers write *)

Inductive frame := FKeep | FData (p : packet) | FMtu (target : SocketAddr).

(** The encoding of a packet, and what the queues of the relay and of the client hold. *)
Definition data_bytes (p : packet) : list Z := ud_encode_into (mk_uncompressed 0 p.2 p.1).
Definition mtu_bytes (t : SocketAddr) : list Z := encode_body (PmtuUpdate t PMTU_FALLBACK_HINT).

Definition frame_bytes (f : frame) : list Z :=
  match f with
  | FKeep => keepalive_bytes
  | FData p => append_relay_frame [] (data_bytes p)
  | FMtu t => append_control_frame [] (mtu_bytes t)
  end.

Definition plain (a : SocketAddr) : Prop := addr_ok a ∧ addr_plain a.

Definition frame_ok (f : frame) : Prop :=
  match f with
  | FKeep => True
  | FData p => plain p.2 ∧ zlen p.1 ≤ MAX_UDP
  | FMtu t => plain t
  end.

Definition turn_of (f : frame) (r : list Z) : Turn :=
  match f with
  | FKeep => Skip r
  | FData p => Packet (mk_uncompressed 0 p.2 p.1) r
  | FMtu t => Mtu t PMTU_FALLBACK_HINT r
  end.

Lemma read_exact_app n a r k : zlen a = n → read_exact n (a ++ r) k = k a r.
Proof.
  intros <-. unfold read_exact. rewrite zlen_app, (proj2 (Z.ltb_ge _ _)) by (pose proof (zlen_nonneg r); lia).
  by rewrite ztake_app_zlen, zdrop_app_zlen.
Qed.

Lemma read_u32 x r k : is_u 32 x → read_exact 4 (be_encode 4 x ++ r) k = k (be_encode 4 x) r ∧ be_decode (be_encode 4 x) = x.
Proof. intros Hx. split; [by apply read_exact_app|by apply be_decode_encode]. Qed.

Lemma data_bytes_spec p : plain p.2 → zlen p.1 ≤ MAX_UDP →
  ud_decode (data_bytes p) = Ok (mk_uncompressed 0 p.2 p.1) ∧ 0 < zlen (data_bytes p) ≤ MAX_RELAY_FRAME.
Proof.
  intros [Ha Hp] Hl. split; [by apply ud_roundtrip|]. unfold data_bytes.
  rewrite ud_encode_size by (done || by split). unfold ud_encoded_size, MAX_RELAY_FRAME, MAX_UDP in *. cbn [ud_context_id ud_target ud_payload].
  pose proof (zlen_nonneg p.1). pose proof (size_bounds 0). destruct (ip_of p.2); lia.
Qed.

Lemma read_data_frame p r : plain p.2 → zlen p.1 ≤ MAX_UDP →
  read_data (zlen (data_bytes p)) (data_bytes p ++ r) = Packet (mk_uncompressed 0 p.2 p.1) r.
Proof.
  intros Hp Hl. destruct (data_bytes_spec p Hp Hl) as [Hd Hb]. unfold read_data.
  rewrite Z.gtb_ltb, (proj2 (Z.ltb_ge _ _)) by lia. rewrite read_exact_app by done. by rewrite Hd.
Qed.

Lemma u32_small x : 0 ≤ x ≤ MAX_RELAY_FRAME → wrap 32 x = x ∧ is_u 32 x.
Proof. unfold MAX_RELAY_FRAME. intros. rewrite wrap_small; unfold is_u; lia. Qed.

Lemma client_turn_frame f r : frame_ok f → client_turn (frame_bytes f ++ r) = turn_of f r.
Proof.
  destruct f as [|p|t]; cbn [frame_ok frame_bytes turn_of]; intros Hf; unfold client_turn.
  - unfold keepalive_bytes. by rewrite (proj1 (read_u32 0 r _ ltac:(by split))).
  - destruct Hf as [Hp Hl]. destruct (data_bytes_spec p Hp Hl) as [_ Hb].
    destruct (u32_small (zlen (data_bytes p))) as [Hw Hu]; [lia|].
    unfold append_relay_frame. rewrite Hw, app_nil_l, <- app_assoc.
    rewrite (proj1 (read_u32 _ _ _ Hu)), (proj2 (read_u32 _ [] (λ _ _, Wait) Hu)).
    unfold CONTROL_FRAME_MARKER, MAX_RELAY_FRAME in *. rewrite !(proj2 (Z.eqb_neq _ _)) by lia. by apply read_data_frame.
  - assert (Hok : MasqueWire.frame_ok (PmtuUpdate t PMTU_FALLBACK_HINT)) by (destruct Hf; split_and!; done).
    pose proof (body_bound _ Hok) as Hb. fold (mtu_bytes t) in Hb. unfold MAX_CONTROL_FRAME_BODY in Hb.
    destruct (u32_small (zlen (mtu_bytes t))) as [Hw Hu]; [unfold MAX_RELAY_FRAME; lia|].
    assert (Hm : is_u 32 CONTROL_FRAME_MARKER) by (unfold CONTROL_FRAME_MARKER, is_u; lia).
    unfold append_control_frame. rewrite Hw, app_nil_l, <- !app_assoc.
    rewrite (proj1 (read_u32 _ _ _ Hm)), (proj2 (read_u32 _ [] (λ _ _, Wait) Hm)). rewrite Z.eqb_refl. simpl Z.eqb. cbv iota.
    rewrite (proj1 (read_u32 _ _ _ Hu)), (proj2 (read_u32 _ [] (λ _ _, Wait) Hu)).
    unfold MAX_CONTROL_FRAME_BODY. rewrite Z.gtb_ltb, (proj2 (Z.ltb_ge _ _)) by lia.
    rewrite read_exact_app by done. unfold mtu_bytes. by rewrite body_roundtrip.
Qed.

(** The client writes no MTU reports. *)
Definition upward (f : frame) : Prop := match f with FMtu _ => False | _ => True end.

Lemma server_turn_frame f r : frame_ok f → upward f → server_turn (frame_bytes f ++ r) = turn_of f r.
Proof.
  destruct f as [|p|t]; cbn [frame_ok frame_bytes turn_of]; intros Hf Hu; [|..|done].
  { unfold server_turn, keepalive_bytes. by rewrite (proj1 (read_u32 0 r _ ltac:(by split))). }
  destruct Hf as [Hp Hl]. destruct (data_bytes_spec p Hp Hl) as [_ Hb].
  destruct (u32_small (zlen (data_bytes p))) as [Hw Hu32]; [lia|].
  unfold server_turn, append_relay_frame. rewrite Hw, app_nil_l, <- app_assoc.
  rewrite (proj1 (read_u32 _ _ _ Hu32)), (proj2 (read_u32 _ [] (λ _ _, Wait) Hu32)).
  rewrite (proj2 (Z.eqb_neq _ _)) by lia. by apply read_data_frame.
Qed.

Lemma frame_bytes_nonempty f : frame_bytes f ≠ [].
Proof. by destruct f. Qed.

Definition wire (fs : list frame) : list Z := concat (frame_bytes <$> fs).

Lemma wire_app fs gs : wire (fs ++ gs) = wire fs ++ wire gs.
Proof. unfold wire. by rewrite fmap_app, concat_app. Qed.

Lemma wire_nil fs : wire fs = [] → fs = [].
Proof.
  destruct fs as [|f fs]; [done|]. unfold wire. simpl. intros He. apply app_nil in He as [He _].
  by destruct (frame_bytes_nonempty f).
Qed.

(** A reader in front of whole frames, of which a part has arrived, waits or reads the first. *)
Lemma turn_first turn fs r x : steady turn → turn [] = Wait →
  Forall (λ f, ∀ k, turn (frame_bytes f ++ k) = turn_of f k) fs → r ++ x = wire fs →
  turn r = Wait ∨ ∃ f fs' r', fs = f :: fs' ∧ turn r = turn_of f r' ∧ r' ++ x = wire fs'.
Proof.
  intros Hs Hnil Hfs Heq. destruct fs as [|f fs].
  { apply app_nil in Heq as [-> ->]. by left. }
  inversion_clear Hfs as [|? ? Hf _]. specialize (Hf (wire fs)).
  destruct (Hs r x) as [|Hx]; [by left|]. rewrite Heq in Hx. change (wire (f :: fs)) with (frame_bytes f ++ wire fs) in Hx.
  rewrite Hf in Hx. destruct (turn r) as [| |r'|d r'|a m r'] eqn:Ht; [by left|by destruct f|right..];
    exists f, fs, r'; destruct f; simpl in Hx; by simplify_eq.
Qed.

(** *** Batches *)

Definition item_bytes (i : WriterItem) : list Z :=
  match i with Data e => append_relay_frame [] e | Control b => append_control_frame [] b end.

Lemma server_batch_spec n b q : ∃ t q', server_batch n b q = (b ++ concat (item_bytes <$> t), q') ∧ q = t ++ q'.
Proof.
  revert n b. induction q as [|[e|c] q IH]; intros n b; simpl; destruct (_ && _);
    try by (eexists [], _; simpl; rewrite app_nil_r).
  - destruct (IH (n + 1) (append_relay_frame b e)) as (t & q' & -> & ->). exists (Data e :: t), q'.
    split; [|done]. simpl. f_equal. unfold append_relay_frame. by rewrite <- !app_assoc.
  - exists [Control c], q. split; [|done]. simpl. f_equal. by rewrite app_nil_r.
Qed.

Lemma server_write_spec q b q' : server_write q = Some (b, q') →
  ∃ t, t ≠ [] ∧ q = t ++ q' ∧ b = concat (item_bytes <$> t).
Proof.
  destruct q as [|[e|c] q]; simpl; [done|..]; intros [= Hb].
  - destruct (server_batch_spec 1 (append_relay_frame [] e) q) as (t & q'' & Heq & ->).
    rewrite Heq in Hb. simplify_eq. by exists (Data e :: t).
  - subst. exists [Control c]. simpl. by rewrite app_nil_r.
Qed.

Lemma client_batch_spec n b q :
  ∃ t q', client_batch n b q = (b ++ concat (append_relay_frame [] <$> t), q') ∧ q = t ++ q'.
Proof.
  revert n b. induction q as [|e q IH]; intros n b; simpl; destruct (_ && _);
    try by (eexists [], _; simpl; rewrite app_nil_r).
  destruct (IH (n + 1) (append_relay_frame b e)) as (t & q' & -> & ->). exists (e :: t), q'.
  split; [|done]. simpl. f_equal. unfold append_relay_frame. by rewrite <- !app_assoc.
Qed.

Lemma client_write_spec q b q' : client_write q = Some (b, q') →
  ∃ t, t ≠ [] ∧ q = t ++ q' ∧ b = concat (append_relay_frame [] <$> t).
Proof.
  destruct q as [|e q]; simpl; [done|]. intros [= Hb].
  destruct (client_batch_spec 1 (append_relay_frame [] e) q) as (t & q'' & Heq & ->).
  rewrite Heq in Hb. simplify_eq. by exists (e :: t).
Qed.

(** *** One direction of the tunnel *)

Definition packet_of (f : frame) : option packet := match f with FData p => Some p | _ => None end.
Definition packets (fs : list frame) : list packet := omap packet_of fs.

Lemma packets_app fs gs : packets (fs ++ gs) = packets fs ++ packets gs.
Proof. apply omap_app. Qed.

Lemma packets_cons f fs : packets (f :: fs) = packets [f] ++ packets fs.
Proof. apply (packets_app [f] fs). Qed.

(** [fs] are the frames on the stream, the last of them perhaps without its end [tail]; [qs]
    those still queued; [done] and [made] the packets at the two interfaces. *)
Record carried (arrived transit : list Z) (done made : list packet) (fs qs : list frame) (tail : list Z) : Prop := {
  carried_frames : Forall frame_ok fs;
  carried_queue : Forall frame_ok qs;
  carried_bytes : arrived ++ transit ++ tail = wire fs;
  carried_packets : done ++ packets fs ++ packets qs = made;
}.

Lemma carried_arrive n a t d m fs qs tail :
  carried a t d m fs qs tail → carried (a ++ ztake n t) (zdrop n t) d m fs qs tail.
Proof. intros [? ? Hb ?]. split; try done. by rewrite <- app_assoc, (app_assoc (ztake n t)), ztake_zdrop. Qed.

(** A frame enters the queue. *)
Lemma carried_enqueue a t d m fs qs tail g : Forall frame_ok g →
  carried a t d m fs qs tail → carried a t d (m ++ packets g) fs (qs ++ g) tail.
Proof.
  intros Hg [? ? ? <-]. split; [done|by apply Forall_app|done|]. by rewrite packets_app, <- !app_assoc.
Qed.

(** A batch, or a part of it, is written to a stream that ends with a whole frame. *)
Lemma carried_write n a t d m fs g qs :
  carried a t d m fs (g ++ qs) [] → carried a (t ++ ztake n (wire g)) d m (fs ++ g) qs (zdrop n (wire g)).
Proof.
  intros [? Hq Hb <-]. apply Forall_app in Hq as [??]. rewrite app_nil_r in Hb.
  split; [by apply Forall_app|done| |].
  - by rewrite wire_app, <- Hb, <- !app_assoc, ztake_zdrop.
  - by rewrite !packets_app, <- !app_assoc.
Qed.

(** The first frame is read. *)
Lemma carried_read a a' t d m f fs qs tail : (a' ++ t ++ tail = wire fs) →
  carried a t d m (f :: fs) qs tail → carried a' t (d ++ packets [f]) m fs qs tail.
Proof.
  intros Ha [Hf ? _ <-]. inversion_clear Hf. split; try done.
  rewrite <- app_assoc. f_equal. by rewrite (packets_cons f fs), <- app_assoc.
Qed.

(** *** The operations of the socket *)

(** What the send channel still takes. *)
Definition room (k : MasqueRelaySocket) : nat :=
  if writer_running k then Z.to_nat (SEND_QUEUE_CAPACITY - zlen (send_tx k)) else 0.

(** The outcome of offering [n] packets. *)
Definition send_outcome (n : nat) (k : MasqueRelaySocket) : result unit IoError :=
  if (n <=? room k)%nat then Ok tt
  else if negb (writer_running k) then Err ConnectionAborted
  else if writer_stopped (state k) then Ok tt else Err WouldBlock.

Lemma socket_same k : k <| send_tx := send_tx k ++ [] |> = k.
Proof. rewrite app_nil_r. by destruct k. Qed.

Lemma enqueue_spec e k :
  enqueue_outbound e k = (k <| send_tx := send_tx k ++ take (room k) [e] |>, send_outcome 1 k).
Proof.
  unfold enqueue_outbound, send_outcome, room. destruct (writer_running k) eqn:Hw; simpl negb; cbv iota.
  - destruct (Z.ltb_spec (zlen (send_tx k)) SEND_QUEUE_CAPACITY).
    + destruct (Z.to_nat _) eqn:Hn; [lia|]. simpl. by rewrite firstn_nil.
    + replace (Z.to_nat _) with 0%nat by lia. rewrite firstn_O, socket_same. by destruct (writer_stopped _).
  - by rewrite firstn_O, socket_same.
Qed.

Lemma send_chunks_spec a cs k :
  send_chunks a cs k =
    (k <| send_tx := send_tx k ++ take (room k) (data_bytes <$> ((λ c, (c, a)) <$> cs)) |>, send_outcome (length cs) k).
Proof.
  revert k. induction cs as [|c cs IH]; intros k; [simpl; by rewrite take_nil, socket_same|].
  cbn [send_chunks]. unfold send_datagram. rewrite enqueue_spec. fold (data_bytes (c, a)).
  unfold send_outcome at 1. destruct (room k) as [|n] eqn:Hr; simpl Nat.leb; cbv iota.
  - rewrite !firstn_O, socket_same. unfold send_outcome. rewrite Hr. simpl Nat.leb. cbv iota.
    destruct (writer_running k) eqn:Hw; simpl negb; cbv iota; [|done].
    destruct (writer_stopped (state k)) eqn:Hs; [|done].
    rewrite IH, Hr, firstn_O, socket_same. unfold send_outcome. rewrite Hw, Hs. by destruct (_ <=? _)%nat.
  - simpl take at 1. rewrite firstn_nil, IH. set (k1 := k <| send_tx := _ |>).
    assert (Hw : writer_running k = true) by (unfold room in Hr; by destruct (writer_running k)).
    assert (Hk : room k1 = n).
    { unfold room, k1 in *. simpl. rewrite Hw in *. rewrite zlen_app. simpl. unfold zlen at 2. simpl. lia. }
    rewrite Hk. f_equal.
    + unfold k1. simpl. by rewrite <- app_assoc.
    + unfold send_outcome. rewrite Hk, Hr. done.
Qed.

Lemma chunks_bound fuel n l : 0 ≤ n → Forall (λ c, zlen c ≤ n) (chunks_of fuel n l).
Proof.
  intros Hn. revert l. induction fuel as [|fuel IH]; intros l; [constructor|]. simpl. destruct l as [|x l]; [constructor|].
  constructor; [|apply IH]. unfold zlen, ztake. rewrite length_take. lia.
Qed.

(** The segments are the contents, cut. *)
Lemma chunks_concat fuel n l : 0 < n → (length l ≤ fuel)%nat → concat (chunks_of fuel n l) = l.
Proof.
  intros Hn. revert l. induction fuel as [|fuel IH]; intros l Hl; [by destruct l; simpl in *; [|lia]|].
  simpl. destruct l as [|x l]; [done|]. simpl. rewrite IH.
  - apply (ztake_zdrop n (x :: l)).
  - unfold zdrop. rewrite length_drop. simpl in *. lia.
Qed.

Lemma fill_spec bufs rx acc : ∃ got popped rx', fill bufs rx acc = (rx', acc ++ got) ∧ rx = popped ++ rx'
  ∧ got `sublist_of` popped
  ∧ (∀ m, Forall (λ b, m ≤ b) bufs → Forall (λ p, zlen p.1 ≤ m) rx → got = popped ∧ length got = Nat.min (length bufs) (length rx)).
Proof.
  revert bufs acc. induction rx as [|[payload source] rx IH]; intros bufs acc; simpl.
  { exists [], [], []. rewrite app_nil_r. split_and!; [done..|]. intros. split; [done|]. simpl. lia. }
  destruct bufs as [|len bufs].
  { exists [], [], ((payload, source) :: rx). rewrite app_nil_r. split_and!; done. }
  destruct (Z.gtb_spec (zlen payload) len) as [Hbig|Hfits].
  - destruct (IH (len :: bufs) acc) as (got & popped & rx' & -> & -> & Hsub & Hall).
    exists got, ((payload, source) :: popped), rx'. split_and!; [done|done|by constructor|].
    intros m Hb Hp. inversion_clear Hb. inversion_clear Hp as [|? ? Hm _]. simpl in Hm. lia.
  - destruct (IH bufs (acc ++ [(payload, source)])) as (got & popped & rx' & -> & -> & Hsub & Hall).
    exists ((payload, source) :: got), ((payload, source) :: popped), rx'.
    split_and!; [by rewrite <- app_assoc|done|by constructor|].
    intros m Hb Hp. inversion_clear Hb. inversion_clear Hp. destruct (Hall m) as [-> Hl]; [done..|]. split; [done|]. simpl in *. lia.
Qed.

Lemma poll_spec bufs meta k : ∃ popped got rx' out,
  poll_recv bufs meta k = (k <| recv_rx := rx' |>, out) ∧ recv_rx k = popped ++ rx' ∧ got `sublist_of` popped
  ∧ match out with Filled l => l | _ => [] end = got
  ∧ (∀ m, Forall (λ b, m ≤ b) bufs → Forall (λ p, zlen p.1 ≤ m) (recv_rx k) →
       got = popped ∧ length got = Nat.min (Nat.min meta (length bufs)) (length (recv_rx k))).
Proof.
  unfold poll_recv. destruct bufs as [|b bufs], meta as [|meta];
    try by (exists [], [], (recv_rx k), (Filled []); split_and!; [by destruct k|done..]).
  destruct (fill_spec (take (S meta) (b :: bufs)) (recv_rx k) []) as (got & popped & rx' & -> & Hrx & Hsub & Hall).
  simpl app. exists popped, got, rx'.
  set (out := match got with [] => if reader_running k then Pending
    else if shutdown_requested (state k) then Pending else RecvError BrokenPipe | _ => Filled got end).
  exists out. split_and!; [|done|done| |].
  - unfold out. simpl. destruct got; [|done]. by destruct (reader_running k), (shutdown_requested (state k)).
  - unfold out. destruct got; [|done]. by destruct (reader_running k), (shutdown_requested (state k)).
  - intros m Hb Hp. destruct (Hall m) as [? Hl]; [by apply Forall_take|done|]. split; [done|].
    by rewrite Hl, length_take.
Qed.

(** *** The invariant *)

Definition item_of (f : frame) : WriterItem :=
  match f with FKeep => Data [] | FData p => Data (data_bytes p) | FMtu t => Control (mtu_bytes t) end.
Definition payload_of (f : frame) : list Z :=
  match f with FKeep => [] | FData p => data_bytes p | FMtu t => mtu_bytes t end.

Definition mtu_reported (rep : list SocketAddr) (f : frame) : Prop := match f with FMtu t => t ∈ rep | _ => True end.

(** From the relay's socket to the client's endpoint. *)
Definition down_ok (f : Forwarding) (arrived transit : list Z) (consumed made : list packet) (rep : list SocketAddr) : Prop :=
  ∃ fs qs tail, carried arrived transit consumed made fs qs tail
    ∧ Forall (mtu_reported rep) fs ∧ Forall (mtu_reported rep) qs
    ∧ (running f = true → tail = [] ∧ fwd f = item_of <$> qs).

(** From the client's endpoint to the relay's socket. *)
Definition up_ok (k : MasqueRelaySocket) (arrived transit : list Z) (consumed made : list packet) : Prop :=
  ∃ fs qs tail, carried arrived transit consumed made fs qs tail
    ∧ Forall upward fs ∧ Forall upward qs
    ∧ (if writer_running k then tail = [] ∧ send_tx k = payload_of <$> qs else send_tx k = []).

Record inv (s : Sys) : Prop := {
  inv_down : down_ok (relay s) (down_arrived s) (down_transit s) (polled s ++ recv_rx (sock s)) (received s) (reported s);
  inv_up : up_ok (sock s) (up_arrived s) (up_transit s) (forwarded s) (accepted s);
  inv_handed : handed s `sublist_of` polled s;
  inv_mtu : map_Forall (λ t m, m = PMTU_FALLBACK_HINT ∧ t ∈ reported s) (target_mtu (sock s));
  inv_sizes : Forall (λ p, zlen p.1 ≤ MAX_UDP) (received s);
}.

Lemma items_wire fs : concat (item_bytes <$> (item_of <$> fs)) = wire fs.
Proof.
  unfold wire. rewrite <- list_fmap_compose. f_equal. apply list_fmap_ext. by intros _ [] _.
Qed.

Lemma payloads_wire fs : Forall upward fs → concat (append_relay_frame [] <$> (payload_of <$> fs)) = wire fs.
Proof.
  induction 1 as [|f fs Hf _ IH]; [done|].
  change (wire (f :: fs)) with (frame_bytes f ++ wire fs). rewrite <- IH. by destruct f.
Qed.

Lemma wire_addr_plain a : addr_ok a → plain (wire_addr a).
Proof. destruct a; simpl; unfold plain, wire_addr; simpl; intuition; by split. Qed.

Lemma data_bytes_wire p a : data_bytes (p, wire_addr a) = ud_encode_into (mk_uncompressed 0 a p).
Proof. by destruct a. Qed.

Lemma tunnel_start_inv : inv start.
Proof.
  split; simpl; [| |done|apply map_Forall_empty|done].
  - exists [], [], []. by split_and!.
  - exists [], [], []. by split_and!.
Qed.

(** *** The steps, direction by direction *)

Lemma down_udp f f' payload source a t d m rep :
  addr_ok source → zlen payload ≤ MAX_UDP → udp_received payload source f = Some f' →
  down_ok f a t d m rep → down_ok f' a t d (m ++ [(payload, wire_addr source)]) rep.
Proof.
  intros Ha Hl Hu (fs & qs & tail & Hc & Hfs & Hqs & Hrun). unfold udp_received in Hu.
  destruct (_ <? _); [|done]. simplify_eq. exists fs, (qs ++ [FData (payload, wire_addr source)]), tail.
  split_and!; [|done|by apply Forall_app; split; [|repeat constructor]|].
  - apply (carried_enqueue _ _ _ _ _ _ _ [FData (payload, wire_addr source)]); [|done].
    repeat constructor; [apply wire_addr_plain|apply wire_addr_plain|]; done.
  - simpl. intros Hr. destruct (Hrun Hr) as [-> ->]. split; [done|]. rewrite fmap_app. simpl. by rewrite data_bytes_wire.
Qed.

(** What a writer takes from its queue, in frames. *)
Lemma server_write_frames qs batch q : server_write (item_of <$> qs) = Some (batch, q) →
  ∃ g qs', g ≠ [] ∧ qs = g ++ qs' ∧ batch = wire g ∧ q = item_of <$> qs'.
Proof.
  intros Hw. destruct (server_write_spec _ _ _ Hw) as (g' & Hne & Heq & ->).
  apply fmap_app_inv in Heq as (g & qs' & -> & -> & ->). exists g, qs'.
  split_and!; [by intros ->|done|by rewrite items_wire|done].
Qed.

Lemma client_write_frames qs batch q : Forall upward qs → client_write (payload_of <$> qs) = Some (batch, q) →
  ∃ g qs', g ≠ [] ∧ qs = g ++ qs' ∧ batch = wire g ∧ q = payload_of <$> qs'.
Proof.
  intros Hup Hw. destruct (client_write_spec _ _ _ Hw) as (g' & Hne & Heq & ->).
  apply fmap_app_inv in Heq as (g & qs' & -> & -> & ->). exists g, qs'. apply Forall_app in Hup as [? _].
  split_and!; [by intros ->|done|by rewrite payloads_wire|done].
Qed.

(** The relay writes a batch, of which [n] bytes reach the stream. *)
Lemma down_write n f batch q a t d m rep : running f = true → server_write (fwd f) = Some (batch, q) →
  down_ok f a t d m rep →
  ∃ g qs, batch = wire g ∧ q = item_of <$> qs ∧ g ≠ [] ∧ Forall (mtu_reported rep) qs ∧
    ∃ fs, Forall (mtu_reported rep) fs ∧ carried a (t ++ ztake n batch) d m fs qs (zdrop n batch).
Proof.
  intros Hr Hw (fs & qs & tail & Hc & Hfs & Hqs & Hrun). destruct (Hrun Hr) as [-> Hq].
  rewrite Hq in Hw. destruct (server_write_frames _ _ _ Hw) as (g & qs' & Hne & -> & -> & ->).
  apply Forall_app in Hqs as [Hg Hqs]. exists g, qs'. split_and!; [done..|].
  exists (fs ++ g). split; [by apply Forall_app|]. by apply carried_write.
Qed.

(** A transmit whose segments exceed what is known of the path to its destination. *)
Definition over_cap (t : Transmit) (k : MasqueRelaySocket) : bool :=
  match target_mtu k !! destination t with
  | Some cap => default (zlen (contents t)) (segment_size t) >? cap
  | None => false
  end.

Lemma try_send_eq t k : segment_size t ≠ Some 0 →
  try_send t k = Some (if over_cap t k then (k, Ok tt)
    else (k <| send_tx := send_tx k ++ take (room k) (data_bytes <$> pieces t) |>, send_outcome (length (pieces t)) k)).
Proof.
  intros Hs. unfold try_send. fold (over_cap t k). destruct (over_cap t k); [done|].
  assert (Hd : data_bytes <$> pieces t = data_bytes <$> ((λ c, (c, destination t)) <$>
      match segment_size t with Some n => chunks n (contents t) | None => [contents t] end)).
  { unfold pieces. rewrite <- !list_fmap_compose. apply list_fmap_ext. intros _ c _. apply data_bytes_wire. }
  rewrite Hd. unfold pieces. rewrite length_fmap. destruct (segment_size t) as [n|].
  - rewrite (proj2 (Z.eqb_neq _ _)) by congruence. by rewrite send_chunks_spec.
  - unfold send_datagram. by rewrite enqueue_spec.
Qed.

Lemma added_take {A B} (q : list A) (g : B → A) r (l : list B) : added q (q ++ take r (g <$> l)) l = take r l.
Proof.
  unfold added. rewrite length_app, length_take, length_fmap.
  replace (length q + Nat.min r (length l) - length q)%nat with (Nat.min r (length l)) by lia.
  destruct (Nat.le_ge_cases r (length l)); [by rewrite Nat.min_l|]. rewrite Nat.min_r, !take_ge by lia. done.
Qed.

Lemma pieces_ok t : ev_ok (ClientSend t) → Forall (λ p, plain p.2 ∧ zlen p.1 ≤ MAX_UDP) (pieces t).
Proof.
  intros [Ha Hs]. unfold pieces. apply Forall_fmap. pose proof (wire_addr_plain _ Ha).
  destruct (segment_size t) as [n|]; [|by apply Forall_singleton].
  eapply Forall_impl; [apply chunks_bound; lia|]. intros c Hc. simpl in *. split; [done|]. lia.
Qed.

Lemma packets_data l : packets (FData <$> l) = l.
Proof. induction l as [|p l IH]; [done|]. exact (f_equal (cons p) IH). Qed.

Lemma up_send t k a tr d m : ev_ok (ClientSend t) → up_ok k a tr d m →
  let k' := k <| send_tx := send_tx k ++ take (room k) (data_bytes <$> pieces t) |> in
  up_ok k' a tr d (m ++ take (room k) (pieces t)).
Proof.
  intros Hok (fs & qs & tail & Hc & Hfs & Hqs & Hrun). simpl.
  set (g := FData <$> take (room k) (pieces t)). exists fs, (qs ++ g), tail.
  assert (Hg : Forall frame_ok g). { apply Forall_fmap, Forall_take. exact (pieces_ok t Hok). }
  split_and!; [|done| |].
  - rewrite <- (packets_data (take _ _)). by apply carried_enqueue.
  - apply Forall_app. split; [done|]. apply Forall_fmap. by apply Forall_true.
  - simpl. destruct (writer_running k) eqn:Hw.
    + destruct Hrun as [-> ->]. split; [done|]. rewrite fmap_app. f_equal. unfold g. rewrite <- list_fmap_compose.
      by rewrite fmap_take.
    + unfold room. rewrite Hw, Hrun. done.
Qed.

(** The client writes a batch, of which [n] bytes reach the stream. *)
Lemma up_write n k batch q a t d m : writer_running k = true → client_write (send_tx k) = Some (batch, q) →
  up_ok k a t d m →
  ∃ g qs, batch = wire g ∧ q = payload_of <$> qs ∧ g ≠ [] ∧ Forall upward qs ∧
    ∃ fs, Forall upward fs ∧ carried a (t ++ ztake n batch) d m fs qs (zdrop n batch).
Proof.
  intros Hr Hw (fs & qs & tail & Hc & Hfs & Hqs & Hrun). rewrite Hr in Hrun. destruct Hrun as [-> Hq].
  rewrite Hq in Hw. destruct (client_write_frames _ _ _ Hqs Hw) as (g & qs' & Hne & -> & -> & ->).
  apply Forall_app in Hqs as [Hg Hqs]. exists g, qs'. split_and!; [done..|].
  exists (fs ++ g). split; [by apply Forall_app|]. by apply carried_write.
Qed.

(** The relay's reader never meets a frame it cannot read. *)
Lemma up_read k a t d m : up_ok k a t d m →
  match server_turn a with
  | Wait => True
  | Skip r => up_ok k r t d m
  | Packet p r => up_ok k r t (d ++ [(ud_payload p, ud_target p)]) m ∧ plain (ud_target p)
  | Break | Mtu _ _ _ => False
  end.
Proof.
  intros (fs & qs & tail & Hc & Hfs & Hqs & Hrun).
  destruct (turn_first server_turn fs a (t ++ tail)) as [->|(f & fs' & r & -> & -> & Heq)];
    [exact server_turn_steady|done| |apply Hc|done|].
  { apply Forall_forall. intros f Hin r. apply server_turn_frame.
    - eapply Forall_forall; [apply Hc|done].
    - by eapply Forall_forall in Hfs. }
  inversion_clear Hfs as [|? ? Hf Hfs'].
  assert (Hup : up_ok k r t (d ++ packets [f]) m).
  { exists fs', qs, tail. split_and!; [|done..]. by eapply carried_read. }
  destruct f as [|[p a']|]; [..|done]; simpl in *.
  - by rewrite app_nil_r in Hup.
  - split; [done|]. pose proof (carried_frames _ _ _ _ _ _ _ Hc) as Hok. inversion_clear Hok as [|? ? Hp _]. by destruct Hp.
Qed.

(** Nor does the client's. *)
Lemma down_read f a t d m rep : down_ok f a t d m rep →
  match client_turn a with
  | Wait => True
  | Skip r => down_ok f r t d m rep
  | Packet p r => down_ok f r t (d ++ [(ud_payload p, ud_target p)]) m rep
  | Mtu target mtu r => mtu = PMTU_FALLBACK_HINT ∧ target ∈ rep ∧ down_ok f r t d m rep
  | Break => False
  end.
Proof.
  intros (fs & qs & tail & Hc & Hfs & Hqs & Hrun).
  destruct (turn_first client_turn fs a (t ++ tail)) as [->|(g & fs' & r & -> & -> & Heq)];
    [exact client_turn_steady|done| |apply Hc|done|].
  { apply Forall_forall. intros g Hin r. apply client_turn_frame. eapply Forall_forall; [apply Hc|done]. }
  inversion_clear Hfs as [|? ? Hg Hfs'].
  assert (Hdown : down_ok f r t (d ++ packets [g]) m rep).
  { exists fs', qs, tail. split_and!; [|done..]. by eapply carried_read. }
  destruct g as [|[p a']|]; simpl in *; rewrite ?app_nil_r in Hdown; done.
Qed.

Lemma reported_mono rep rep' fs : Forall (mtu_reported rep) fs → Forall (mtu_reported (rep ++ rep')) fs.
Proof. intros Hf. eapply Forall_impl; [exact Hf|]. intros []; simpl; [done..|]. rewrite elem_of_app. by left. Qed.

Lemma down_forward o p f a t d m rep : plain (ud_target p) →
  down_ok f a t d m rep → down_ok (forward o p f) a t d m (rep ++ report_of o f p).
Proof.
  intros Hp (fs & qs & tail & Hc & Hfs & Hqs & Hrun).
  assert (Hsame : down_ok f a t d m (rep ++ [])) by (rewrite app_nil_r; by exists fs, qs, tail).
  destruct o; [exact Hsame| |exact Hsame]. unfold forward, report_of. destruct (_ <? _); [|exact Hsame].
  exists fs, (qs ++ [FMtu (ud_target p)]), tail. split_and!.
  - rewrite <- (app_nil_r m). apply (carried_enqueue _ _ _ _ _ _ _ [FMtu (ud_target p)]); [|done]. by apply Forall_singleton.
  - by apply reported_mono.
  - apply Forall_app. split; [by apply reported_mono|]. apply Forall_singleton. simpl. rewrite elem_of_app. right. by left.
  - simpl. intros Hr. destruct (Hrun Hr) as [-> ->]. split; [done|]. by rewrite fmap_app.
Qed.

(** The loop ends within a batch. *)
Lemma down_ends n f a t d m rep : running f = true → down_ok f a t d m rep →
  down_ok (mk_forwarding [] false) a (t ++ ztake n match server_write (fwd f) with Some (b, _) => b | None => [] end) d m rep.
Proof.
  intros Hr Hd. destruct (server_write (fwd f)) as [[b q]|] eqn:Hw.
  - destruct (down_write n f b q a t d m rep Hr Hw Hd) as (g & qs & _ & _ & _ & Hqs & fs & Hfs & Hc).
    by exists fs, qs, (zdrop n b).
  - destruct Hd as (fs & qs & tail & Hc & Hfs & Hqs & Hrun). exists fs, qs, tail.
    unfold ztake. by rewrite take_nil, app_nil_r.
Qed.

Lemma up_ends n k a t d m : writer_running k = true → up_ok k a t d m →
  up_ok (writer_exit k) a (t ++ ztake n match client_write (send_tx k) with Some (b, _) => b | None => [] end) d m.
Proof.
  intros Hr Hd. destruct (client_write (send_tx k)) as [[b q]|] eqn:Hw.
  - destruct (up_write n k b q a t d m Hr Hw Hd) as (g & qs & _ & _ & _ & Hqs & fs & Hfs & Hc).
    by exists fs, qs, (zdrop n b).
  - destruct Hd as (fs & qs & tail & Hc & Hfs & Hqs & Hrun). exists fs, qs, tail.
    unfold ztake. by rewrite take_nil, app_nil_r.
Qed.

Lemma up_arrive n k a t d m : up_ok k a t d m → up_ok k (a ++ ztake n t) (zdrop n t) d m.
Proof. intros (fs & qs & tail & Hc & ?). exists fs, qs, tail. split; [by apply carried_arrive|done]. Qed.

Lemma down_arrive n f a t d m rep : down_ok f a t d m rep → down_ok f (a ++ ztake n t) (zdrop n t) d m rep.
Proof. intros (fs & qs & tail & Hc & ?). exists fs, qs, tail. split; [by apply carried_arrive|done]. Qed.

(** Keepalives are frames of their own. *)
Lemma down_keepalive f a t d m rep : running f = true →
  down_ok f a t d m rep → down_ok f a (t ++ keepalive_bytes) d m rep.
Proof.
  intros Hr (fs & qs & tail & [Hf Hq Hb Hp] & Hfs & Hqs & Hrun). destruct (Hrun Hr) as [-> Hw]. rewrite app_nil_r in Hb.
  exists (fs ++ [FKeep]), qs, []. split_and!; [|by apply Forall_app; split; [|apply Forall_singleton]|done|done].
  split; [by apply Forall_app; split; [|apply Forall_singleton]|done| |].
  - rewrite wire_app, <- Hb, app_nil_r, <- app_assoc. done.
  - by rewrite packets_app, app_nil_r.
Qed.

Lemma up_keepalive k a t d m : writer_running k = true →
  up_ok k a t d m → up_ok (k <| send_tx := send_tx k ++ [[]] |>) a t d m.
Proof.
  intros Hr (fs & qs & tail & Hc & Hfs & Hqs & Hrun). rewrite Hr in Hrun. destruct Hrun as [-> Hq].
  exists fs, (qs ++ [FKeep]), []. split_and!; [|done|by apply Forall_app; split; [|apply Forall_singleton]|].
  - rewrite <- (app_nil_r m). apply (carried_enqueue _ _ _ _ _ _ _ [FKeep]); [|done]. by apply Forall_singleton.
  - simpl. rewrite Hr, Hq. split; [done|]. by rewrite fmap_app.
Qed.

Lemma taken_app popped rx' : taken (popped ++ rx') rx' = popped.
Proof.
  unfold taken. rewrite length_app. replace (_ + _ - _)%nat with (length popped) by lia. apply take_app_length.
Qed.

Lemma relay_step_inv s e : ev_ok e → inv s →
  match e with RelayUdp _ _ | RelayWrite | RelayKeepalive | RelayRead _ | RelayEnds _ => inv (step s e) | _ => True end.
Proof.
  intros Hok [Hd Hu Hh Hm Hz]. destruct e as [payload source| | |o|n| | | | | | | | | | |]; try done;
    cbn [step]; (destruct (running (relay s)) eqn:Hr; [|by split]).
  - destruct (udp_received payload source (relay s)) as [f|] eqn:Hudp; [|by split]. destruct Hok.
    split; [by eapply down_udp|done..|]. apply Forall_app. split; [done|]. by apply Forall_singleton.
  - destruct (server_write (fwd (relay s))) as [[batch q]|] eqn:Hw; [|by split]. split; [|done..]. simpl.
    destruct (down_write (zlen batch) _ _ _ _ _ _ _ _ Hr Hw Hd) as (g & qs & _ & -> & _ & Hqs & fs & Hfs & Hc).
    rewrite ztake_all, zdrop_all in Hc by lia. by exists fs, qs, [].
  - split; [|done..]. by apply down_keepalive.
  - pose proof (up_read _ _ _ _ _ Hu) as Hread. destruct (server_turn (up_arrived s)) as [| |r|p r|]; try done.
    destruct Hread as [Hread Hp]. split; simpl; [by apply down_forward|done|done| |done].
    eapply map_Forall_impl; [exact Hm|]. intros t m [-> Ht]. rewrite elem_of_app. auto.
  - split; [|done..]. by apply down_ends.
Qed.

Lemma client_read_inv s : inv s → inv (step s ClientRead).
Proof.
  intros [Hd Hu Hh Hm Hz]. cbn [step]. destruct (reader_running (sock s)) eqn:Hr; [|by split].
  unfold reader_turn. pose proof (down_read _ _ _ _ _ _ Hd) as Hread.
  destruct (client_turn (down_arrived s)) as [| |r|p r|t m r]; [by split|done|by split|..].
  - destruct (_ <? _); [|by split]. split; try done. simpl. by rewrite app_assoc.
  - destruct Hread as (-> & Hin & Hread). split; try done. simpl. apply map_Forall_insert_2; [|done]. done.
Qed.

Lemma client_poll_inv s bufs meta : inv s → inv (step s (ClientPoll bufs meta)).
Proof.
  intros [Hd Hu Hh Hm Hz]. cbn [step].
  destruct (poll_spec bufs meta (sock s)) as (popped & got & rx' & out & -> & Hrx & Hsub & Hout & _). rewrite Hout.
  split; simpl; [|exact Hu| |exact Hm|done].
  - rewrite Hrx, taken_app, <- app_assoc. by rewrite Hrx in Hd.
  - rewrite Hrx, taken_app. by apply sublist_app.
Qed.

Lemma client_send_inv s t : ev_ok (ClientSend t) → inv s → inv (step s (ClientSend t)).
Proof.
  intros Hok [Hd Hu Hh Hm Hz]. cbn [step].
  assert (Hn : segment_size t ≠ Some 0). { destruct Hok as [_ Hs]. destruct (segment_size t); [|done]. intros [= ->]. lia. }
  rewrite (try_send_eq t _ Hn). destruct (over_cap t (sock s)).
  - unfold added. rewrite Nat.sub_diag, firstn_O. split; simpl; rewrite ?app_nil_r; done.
  - split; simpl; [done| |done..]. rewrite added_take. by apply up_send.
Qed.

Lemma client_step_inv s e : ev_ok e → inv s →
  match e with
  | UpArrive _ | DownArrive _ | ClientReaderError | ClientWrite | ClientKeepalive | ClientWriterEnds _ | DropControl | Shutdown => inv (step s e)
  | _ => True
  end.
Proof.
  intros Hok [Hd Hu Hh Hm Hz]. destruct e as [| | | | |n|n| | | | | | |n| |]; try done; cbn [step].
  - split; try done. by apply up_arrive.
  - split; try done. by apply down_arrive.
  - by destruct (reader_running (sock s)).
  - destruct (writer_running (sock s)) eqn:Hr; [|by split].
    destruct (client_write (send_tx (sock s))) as [[batch q]|] eqn:Hw; [|by split]. split; try done. simpl.
    destruct (up_write (zlen batch) _ _ _ _ _ _ _ Hr Hw Hu) as (g & qs & _ & -> & _ & Hqs & fs & Hfs & Hc).
    rewrite ztake_all, zdrop_all in Hc by lia. exists fs, qs, []. simpl. by rewrite Hr.
  - destruct (writer_running (sock s)) eqn:Hr; [|by split]. destruct (_ <? _); [|by split].
    split; try done. by apply up_keepalive.
  - destruct (writer_running (sock s)) eqn:Hr; [|by split]. split; try done. by apply up_ends.
  - by destruct (control s).
Qed.

Lemma tunnel_step_inv s e : ev_ok e → inv s → inv (step s e).
Proof.
  intros Hok Hs. pose proof (relay_step_inv s e Hok Hs). pose proof (client_step_inv s e Hok Hs).
  destruct e; try done; [by apply client_read_inv|by apply client_poll_inv|by apply client_send_inv].
Qed.

Lemma tunnel_run_inv s evs : Forall ev_ok evs → inv s → inv (run s evs).
Proof. intros Hok. revert s. induction Hok; intros s Hs; simpl; [done|]. apply IHHok. by apply tunnel_step_inv. Qed.

(** The loops only end on an error of the stream, or because they are told to. *)
Lemma step_reader_runs s e : ev_ok e → inv s →
  reader_running (sock s) = true → e ≠ ClientReaderError → reader_running (sock (step s e)) = true.
Proof.
  intros Hok [Hd _ _ _ _] Hr Hne. pose proof (down_read _ _ _ _ _ _ Hd) as Hread.
  destruct e as [| | |o| | | | | |bufs meta|t| | | | |]; cbn [step]; try (repeat case_match; simpl; done).
  - rewrite Hr. unfold reader_turn. destruct (client_turn _); try done. by destruct (_ <? _).
  - by destruct (poll_spec bufs meta (sock s)) as (? & ? & ? & ? & -> & _).
  - rewrite (try_send_eq t); [by destruct (over_cap t (sock s))|].
    destruct Hok as [_ Hs]. destruct (segment_size t); [|done]. intros [= ->]. lia.
Qed.

Lemma step_relay_runs s e : inv s →
  running (relay s) = true → (∀ n, e ≠ RelayEnds n) → running (relay (step s e)) = true.
Proof.
  intros [_ Hu _ _ _] Hr Hne. pose proof (up_read _ _ _ _ _ Hu) as Hread.
  destruct e as [payload source| | |o|n| | | | |bufs meta|t| | | | |]; cbn [step]; try (repeat case_match; simpl; done).
  - rewrite Hr. unfold udp_received. by destruct (_ <? _).
  - rewrite Hr. destruct (server_turn _); try done. simpl. destruct o; try done. simpl. by destruct (_ <? _).
  - by destruct (Hne n).
Qed.

Lemma run_runs evs : Forall ev_ok evs →
  (reader_running (sock (run start evs)) = false → ClientReaderError ∈ evs)
  ∧ (running (relay (run start evs)) = false → ∃ n, RelayEnds n ∈ evs).
Proof.
  induction evs as [|e evs IH] using rev_ind; [done|]. intros Hok.
  apply Forall_app in Hok as [Hok He]. inversion_clear He as [|? ? He' _]. destruct (IH Hok) as [Hreader Hrelay].
  pose proof (tunnel_run_inv start evs Hok tunnel_start_inv) as Hinv.
  unfold run in *. rewrite fold_left_app. simpl fold_left. set (s := fold_left step evs start) in *. split; intros Hf.
  - rewrite elem_of_app. destruct (reader_running (sock s)) eqn:Hr; [right|left; by apply Hreader].
    destruct e; try (by rewrite (step_reader_runs s _ He' Hinv Hr) in Hf). by left.
  - destruct (running (relay s)) eqn:Hr.
    + destruct e; try (by rewrite (step_relay_runs s _ Hinv Hr) in Hf). exists written. rewrite elem_of_app. right. by left.
    + destruct (Hrelay eq_refl) as [n Hn]. exists n. rewrite elem_of_app. by left.
Qed.

(** Nothing is left on the way when the queues and the stream are empty. *)
Lemma carried_empty d m fs qs tail : carried [] [] d m fs qs tail → tail = [] → fs = [].
Proof. intros [_ _ Hb _] ->. by apply wire_nil. Qed.

(** *** Draining *)

(** The events by which the two ends and the network move what is under way. *)
Definition internal (e : Ev) : Prop :=
  match e with
  | RelayWrite | UpArrive _ | DownArrive _ | ClientRead | ClientPoll _ _ | ClientWrite | RelayRead Sent => True
  | _ => False
  end.

(** A tunnel in which only [polled], [handed] and what leads to them may have changed. *)
Record pulled (s s' : Sys) : Prop := {
  pulled_running : running (relay s') = running (relay s) ∧ reader_running (sock s') = reader_running (sock s);
  pulled_writer : writer_running (sock s') = writer_running (sock s) ∧ send_tx (sock s') = send_tx (sock s);
  pulled_up : up_arrived s' = up_arrived s ∧ up_transit s' = up_transit s;
  pulled_made : received s' = received s ∧ accepted s' = accepted s ∧ forwarded s' = forwarded s;
}.

#[local] Instance pulled_preorder : PreOrder pulled.
Proof.
  split; [by split|]. intros s1 s2 s3 [[??] [??] [??] (?&?&?)] [[??] [??] [??] (?&?&?)].
  split; split_and!; congruence.
Qed.

(** What is on the stream arrives and one frame of it is read and polled. *)
Definition pull (s : Sys) : list Ev := [DownArrive (zlen (down_transit s)); ClientRead; ClientPoll [MAX_UDP] 1].

Lemma pull_spec s f fs : reader_running (sock s) = true → recv_rx (sock s) = [] → frame_ok f →
  down_arrived s ++ down_transit s = frame_bytes f ++ wire fs →
  let s' := run s (pull s) in
  pulled s s' ∧ fwd (relay s') = fwd (relay s) ∧ recv_rx (sock s') = [] ∧ down_arrived s' ++ down_transit s' = wire fs
  ∧ polled s' = polled s ++ packets [f] ∧ handed s' = handed s ++ packets [f].
Proof.
  intros Hr Hrx Hf Hb. unfold pull, run. cbn [fold_left].
  set (s1 := step s (DownArrive _)).
  assert (Ha : down_arrived s1 = frame_bytes f ++ wire fs) by (simpl; by rewrite ztake_all).
  assert (Ht : down_transit s1 = []) by (simpl; by rewrite zdrop_all).
  assert (H1 : pulled s s1) by by split.
  assert (Hs1 : sock s1 = sock s ∧ relay s1 = relay s ∧ polled s1 = polled s ∧ handed s1 = handed s) by done.
  clearbody s1. destruct Hs1 as (Hk & Hrel & Hp & Hh).
  cbn [step]. rewrite Hk, Hr. unfold reader_turn. rewrite Ha, client_turn_frame by done.
  destruct f as [|[payload a]|t]; cbn [turn_of].
  - simpl. rewrite Hrx, Hr. simpl. rewrite Hp, Hh, Ht, Hrel, !app_nil_r. split_and!; try done.
    destruct H1 as [[??] [??] [??] (?&?&?)]. by split.
  - rewrite Hrx. simpl. destruct Hf as [_ Hl]. simpl in Hl. rewrite Z.gtb_ltb, (proj2 (Z.ltb_ge _ _)) by lia. simpl.
    rewrite Hp, Hh, Ht, Hrel, !app_nil_r. split_and!; try done.
    destruct H1 as [[??] [??] [??] (?&?&?)]. by split.
  - simpl. rewrite Hrx, Hr. simpl. rewrite Hp, Hh, Ht, Hrel, !app_nil_r. split_and!; try done.
    destruct H1 as [[??] [??] [??] (?&?&?)]. by split.
Qed.

Lemma run_app s evs evs' : run s (evs ++ evs') = run (run s evs) evs'.
Proof. apply fold_left_app. Qed.

Lemma drain_down n s fs qs : (length fs + 2 * length qs ≤ n)%nat →
  running (relay s) = true → reader_running (sock s) = true → recv_rx (sock s) = [] → fwd (relay s) = item_of <$> qs →
  carried (down_arrived s) (down_transit s) (polled s) (received s) fs qs [] →
  ∃ evs, Forall internal evs ∧ let s' := run s evs in
    pulled s s' ∧ polled s' = received s ∧ handed s' = handed s ++ packets fs ++ packets qs.
Proof.
  revert s fs qs. induction n as [n IH] using lt_wf_ind. intros s fs qs Hn Hrel Hr Hrx Hq Hc.
  destruct fs as [|f fs]; [destruct qs as [|q qs]|].
  - exists []. split; [done|]. split; [done|]. pose proof (carried_packets _ _ _ _ _ _ _ Hc) as Hp.
    simpl in *. by rewrite !app_nil_r in *.
  - destruct (server_write (fwd (relay s))) as [[batch q']|] eqn:Hw; [|by rewrite Hq in Hw; destruct q].
    rewrite Hq in Hw. destruct (server_write_frames _ _ _ Hw) as (g & qs' & Hne & Heq & -> & ->). rewrite <- Hq in Hw.
    rewrite Heq in *. apply (carried_write (zlen (wire g))) in Hc. rewrite ztake_all, zdrop_all in Hc by lia.
    assert (Hs : step s RelayWrite = s <| relay := (relay s) <| fwd := item_of <$> qs' |> |> <| down_transit := down_transit s ++ wire g |>)
      by (simpl; by rewrite Hrel, Hw).
    destruct (IH (length g + 2 * length qs')%nat) with (s := step s RelayWrite) (fs := g) (qs := qs') as (evs & Hi & Hp & Hd & Hh);
      rewrite ?Hs; try done.
    { rewrite length_app in Hn. destruct g; [done|]. simpl in *. lia. }
    exists (RelayWrite :: evs). split; [by constructor|].
    change (run s (RelayWrite :: evs)) with (run (step s RelayWrite) evs). rewrite Hs in *. simpl in Hd, Hh. split_and!.
    + etrans; [|exact Hp]. by split.
    + done.
    + by rewrite packets_app.
  - pose proof (carried_frames _ _ _ _ _ _ _ Hc) as Hf. inversion_clear Hf as [|? ? Hf' Hfs].
    pose proof (carried_bytes _ _ _ _ _ _ _ Hc) as Hb. rewrite app_nil_r in Hb.
    destruct (pull_spec s f fs Hr Hrx Hf' Hb) as (Hp1 & Hq1 & Hrx1 & Hb1 & Hd1 & Hh1).
    assert (Hc1 : carried (down_arrived (run s (pull s))) (down_transit (run s (pull s))) (polled (run s (pull s)))
      (received (run s (pull s))) fs qs []).
    { destruct Hp1 as [_ _ _ (-> & _ & _)]. split; [done|apply Hc|by rewrite app_nil_r|]. rewrite Hd1, <- app_assoc.
      by rewrite <- (carried_packets _ _ _ _ _ _ _ Hc), (packets_cons f fs), <- app_assoc. }
    destruct (IH (length fs + 2 * length qs)%nat) with (s := run s (pull s)) (fs := fs) (qs := qs) as (evs & Hi & Hp & Hd & Hh);
      [simpl in Hn; lia|done|by rewrite (proj1 (pulled_running _ _ Hp1))|by rewrite (proj2 (pulled_running _ _ Hp1))|done|by rewrite Hq1|done|].
    exists (pull s ++ evs). split; [by apply Forall_app; split; [repeat constructor|]|]. cbv zeta. rewrite run_app. split_and!.
    + by etrans.
    + by rewrite Hd, (proj1 (pulled_made _ _ Hp1)).
    + by rewrite Hh, Hh1, (packets_cons f fs), <- !app_assoc.
Qed.

(** A tunnel in which only [forwarded] and what leads to it may have changed. *)
Record pushed (s s' : Sys) : Prop := {
  pushed_running : running (relay s') = running (relay s) ∧ writer_running (sock s') = writer_running (sock s);
  pushed_down : polled s' = polled s ∧ handed s' = handed s;
  pushed_made : received s' = received s ∧ accepted s' = accepted s;
}.

#[local] Instance pushed_preorder : PreOrder pushed.
Proof. split; [by split|]. intros s1 s2 s3 [[??] [??] [??]] [[??] [??] [??]]. split; split_and!; congruence. Qed.

(** What is on the stream arrives and one frame of it is read and forwarded. *)
Definition push (s : Sys) : list Ev := [UpArrive (zlen (up_transit s)); RelayRead Sent].

Lemma push_spec s f fs : running (relay s) = true → frame_ok f → upward f →
  up_arrived s ++ up_transit s = frame_bytes f ++ wire fs →
  let s' := run s (push s) in
  pushed s s' ∧ send_tx (sock s') = send_tx (sock s) ∧ up_arrived s' ++ up_transit s' = wire fs
  ∧ forwarded s' = forwarded s ++ packets [f].
Proof.
  intros Hr Hf Hup Hb. unfold push, run. cbn [fold_left]. cbn [step]. simpl running. rewrite Hr. cbv iota. simpl up_arrived.
  rewrite ztake_all, Hb, server_turn_frame by (done || lia).
  destruct f as [|[payload a]|t]; [..|done]; simpl; rewrite zdrop_all, !app_nil_r by lia; split_and!; by try split.
Qed.

Lemma drain_up n s fs qs : (length fs + 2 * length qs ≤ n)%nat →
  running (relay s) = true → writer_running (sock s) = true → send_tx (sock s) = payload_of <$> qs →
  Forall upward fs → Forall upward qs →
  carried (up_arrived s) (up_transit s) (forwarded s) (accepted s) fs qs [] →
  ∃ evs, Forall internal evs ∧ pushed s (run s evs) ∧ forwarded (run s evs) = accepted s.
Proof.
  revert s fs qs. induction n as [n IH] using lt_wf_ind. intros s fs qs Hn Hrel Hr Hq Hfs Hqs Hc.
  destruct fs as [|f fs]; [destruct qs as [|q qs]|].
  - exists []. split; [done|]. split; [done|]. pose proof (carried_packets _ _ _ _ _ _ _ Hc) as Hp.
    simpl in *. by rewrite !app_nil_r in *.
  - destruct (client_write (send_tx (sock s))) as [[batch q']|] eqn:Hw; [|by rewrite Hq in Hw; destruct q].
    rewrite Hq in Hw. destruct (client_write_frames _ _ _ Hqs Hw) as (g & qs' & Hne & Heq & -> & ->). rewrite <- Hq in Hw.
    rewrite Heq in *. apply (carried_write (zlen (wire g))) in Hc. rewrite ztake_all, zdrop_all in Hc by lia.
    apply Forall_app in Hqs as [Hg Hqs].
    assert (Hs : step s ClientWrite = s <| sock := (sock s) <| send_tx := payload_of <$> qs' |> |> <| up_transit := up_transit s ++ wire g |>)
      by (simpl; by rewrite Hr, Hw).
    destruct (IH (length g + 2 * length qs')%nat) with (s := step s ClientWrite) (fs := g) (qs := qs') as (evs & Hi & Hp & Hd);
      rewrite ?Hs; try done.
    { rewrite length_app in Hn. destruct g; [done|]. simpl in *. lia. }
    exists (ClientWrite :: evs). split; [by constructor|].
    change (run s (ClientWrite :: evs)) with (run (step s ClientWrite) evs). rewrite Hs in *. split; [|done].
    etrans; [|exact Hp]. by split.
  - pose proof (carried_frames _ _ _ _ _ _ _ Hc) as Hf. inversion_clear Hf as [|? ? Hf' _]. inversion_clear Hfs as [|? ? Hup Hfs'].
    pose proof (carried_bytes _ _ _ _ _ _ _ Hc) as Hb. rewrite app_nil_r in Hb.
    destruct (push_spec s f fs Hrel Hf' Hup Hb) as (Hp1 & Hq1 & Hb1 & Hd1).
    assert (Hc1 : carried (up_arrived (run s (push s))) (up_transit (run s (push s))) (forwarded (run s (push s)))
      (accepted (run s (push s))) fs qs []).
    { destruct Hp1 as [_ _ [_ ->]]. destruct Hc as [Hok ? _ <-]. inversion_clear Hok.
      split; [done|done|by rewrite app_nil_r|]. by rewrite Hd1, <- app_assoc, (packets_cons f fs), <- app_assoc. }
    destruct (IH (length fs + 2 * length qs)%nat) with (s := run s (push s)) (fs := fs) (qs := qs) as (evs & Hi & Hp & Hd);
      [simpl in Hn; lia|done|by rewrite (proj1 (pushed_running _ _ Hp1))|by rewrite (proj2 (pushed_running _ _ Hp1))|by rewrite Hq1|done..|].
    exists (push s ++ evs). split; [by apply Forall_app; split; [repeat constructor|]|]. rewrite run_app. split.
    + by etrans.
    + by rewrite Hd, (proj2 (pushed_made _ _ Hp1)).
Qed.

(** A poll with room for everything takes and hands over what is queued. *)
Definition poll_everything (s : Sys) : Ev :=
  ClientPoll (replicate (length (recv_rx (sock s))) MAX_UDP) (length (recv_rx (sock s))).

Lemma poll_all s : Forall (λ p, zlen p.1 ≤ MAX_UDP) (recv_rx (sock s)) →
  step s (poll_everything s) = s <| sock := (sock s) <| recv_rx := [] |> |>
    <| polled := polled s ++ recv_rx (sock s) |> <| handed := handed s ++ recv_rx (sock s) |>.
Proof.
  intros Hz. unfold poll_everything. cbn [step]. set (n := length (recv_rx (sock s))).
  destruct (poll_spec (replicate n MAX_UDP) n (sock s)) as (popped & got & rx' & out & -> & Hrx & _ & Hout & Hall).
  destruct (Hall MAX_UDP) as [-> Hl]; [by apply Forall_replicate|done|]. rewrite Hout.
  rewrite length_replicate in Hl. fold n in Hl.
  assert (rx' = []) as ->. { apply length_zero_iff_nil. unfold n in Hl. rewrite Hrx, length_app in Hl. lia. }
  rewrite Hrx, taken_app, app_nil_r. done.
Qed.

Lemma outcome_blocks n k : send_outcome n k = Err WouldBlock ↔
  (room k < n)%nat ∧ writer_running k = true ∧ writer_stopped (state k) = false.
Proof.
  unfold send_outcome. destruct (Nat.leb_spec n (room k)); [split; [done|lia]|].
  destruct (writer_running k), (writer_stopped (state k)); simpl; naive_solver.
Qed.

Lemma outcome_aborts n k : send_outcome n k = Err ConnectionAborted ↔ (0 < n)%nat ∧ writer_running k = false.
Proof.
  unfold send_outcome, room. destruct (writer_running k); simpl.
  - split; [|by intros [_ ?]]. destruct (_ <=? _)%nat, (writer_stopped (state k)); done.
  - destruct n; simpl; naive_solver lia.
Qed.

Lemma writable_room k : writable_or_finished k = true → writer_running k = true → writer_stopped (state k) = false →
  (0 < room k)%nat.
Proof.
  unfold writable_or_finished, room. intros Hw Hr Hs. rewrite Hr, Hs, !orb_false_r in *. apply Z.ltb_lt in Hw. lia.
Qed.

(** The pieces of a transmit are its contents, and no longer than what [over_cap] compares. *)
Lemma pieces_spec t : match segment_size t with Some n => 0 < n | None => True end →
  concat (fst <$> pieces t) = contents t
  ∧ Forall (λ p, zlen p.1 ≤ default (zlen (contents t)) (segment_size t)) (pieces t).
Proof.
  intros Hs. unfold pieces. rewrite <- list_fmap_compose, Forall_fmap.
  rewrite (list_fmap_ext _ id), list_fmap_id by done.
  destruct (segment_size t) as [n|]; simpl.
  - split; [by apply chunks_concat|]. apply chunks_bound. lia.
  - rewrite app_nil_r. split; [done|]. apply Forall_singleton. simpl. lia.
Qed.

Section claims.



(** [try_send] drops a transmit whose segments exceed the limit of its destination and reports
    success; else it queues, in order and each in a frame of its own, as many segments as the
    channel takes, none longer than the limit, and the segments make up the contents.  It
    returns [WouldBlock] exactly when a segment is left over and the writer still runs, so never
    for a single packet when the socket said it was writable, and [ConnectionAborted] exactly
    when the writer has gone.  A segment size of zero panics. *)
Theorem relay_send_outcomes (t : Transmit) (k : MasqueRelaySocket) :
  if over_cap t k then try_send t k = Some (k, Ok tt)
  else if bool_decide (segment_size t = Some 0) then try_send t k = None
  else match segment_size t with Some n => 0 < n | None => True end →
    concat (fst <$> pieces t) = contents t ∧ ∃ res,
    try_send t k = Some (k <| send_tx := send_tx k ++ (data_bytes <$> take (room k) (pieces t)) |>, res)
    ∧ (res = Err WouldBlock ↔
         (room k < length (pieces t))%nat ∧ writer_running k = true ∧ writer_stopped (state k) = false)
    ∧ (res = Err ConnectionAborted ↔ pieces t ≠ [] ∧ writer_running k = false)
    ∧ (writable_or_finished k = true → length (pieces t) = 1%nat → res ≠ Err WouldBlock)
    ∧ ∀ cap, target_mtu k !! destination t = Some cap → Forall (λ p, zlen p.1 ≤ cap) (pieces t).
Proof.
  destruct (over_cap t k) eqn:Ho.
  { unfold try_send. fold (over_cap t k). by rewrite Ho. }
  case_bool_decide as Hz.
  { unfold try_send. fold (over_cap t k). by rewrite Ho, Hz. }
  intros Hs. destruct (pieces_spec t Hs) as [Hcat Hle]. split; [done|].
  exists (send_outcome (length (pieces t)) k). rewrite (try_send_eq t k Hz), Ho, fmap_take.
  split; [done|]. split; [|split; [|split]].
  - apply outcome_blocks.
  - rewrite outcome_aborts. by destruct (pieces t); simpl; naive_solver lia.
  - intros Hw Hl. rewrite Hl, outcome_blocks. intros (Hr & Hrun & Hst). pose proof (writable_room k Hw Hrun Hst). lia.
  - intros cap Hc. unfold over_cap in Ho. rewrite Hc in Ho. eapply Forall_impl; [exact Hle|]. intros p Hp. simpl in *. lia.
Qed.

End claims.

(** A peer behind the relay sends two packets; the client answers one peer with a batch of three
    segments, of which the second is
    rejected as too large, and the report of that reaches it. *)
Definition peer : SocketAddr := V4 [192; 0; 2; 1] 9000.
Definition peer6 : SocketAddr := V6 (replicate 15 0 ++ [1]) 443 0 7.

Definition sample_evs : list Ev :=
  [RelayUdp [1; 2; 3] peer; RelayUdp [4] peer6; RelayKeepalive; RelayWrite; DownArrive 10; ClientRead;
   DownArrive 100; ClientRead; ClientRead; ClientPoll [1500] 1;
   ClientSend (mk_transmit peer [10; 11; 12; 13; 14] (Some 2)); ClientKeepalive; ClientWrite; UpArrive 20;
   RelayRead Sent; UpArrive 1000; RelayRead MessageTooLarge; RelayWrite; DownArrive 1000; ClientRead; ClientRead].

Lemma sample_evs_ok : Forall ev_ok sample_evs.
Proof.
  unfold sample_evs. rewrite !Forall_cons, Forall_nil. unfold ev_ok, MAX_UDP, peer, peer6, addr_ok, bytes_ok, is_byte, is_u. simpl.
  rewrite !Forall_cons, Forall_nil. unfold zlen. simpl. lia.
Qed.



(** A batch that fills the channel halfway reports that it would block with its first segment
    queued; the caller repeats the whole batch. *)
Example blocked_batch_half_queued :
  let k := new <| send_tx := replicate (Z.to_nat 8191) [] |> in
  (λ r, (zlen (send_tx r.1), r.2)) <$> try_send (mk_transmit peer [1; 2] (Some 1)) k = Some (8192, Err WouldBlock).
Proof. vm_compute. reflexivity. Qed.

End TunnelProofs.
