(* ===== verification/MasqueContext.v ===== *)
(** * Contexts of the MASQUE relay

    Models [src/masque/context.rs] (the table of context identifiers of an endpoint),
    [relay_session.rs] (a client's session at the relay: capsules, resolution of datagrams, the
    bandwidth window and the table of destinations) and [relay_client.rs] (the client's side:
    contexts per target, datagrams), and the two of them connected by the capsule stream.

    Identifiers are the values of [VarInt]s, instants nanoseconds; the clock is an argument. *)

From stdpp Require Import gmap list.
From S2P Require Import Prelude Coding NatFrames Masque MasqueTunnel.

(** ** The table of contexts *)

Module Context.
Import NatFrames.

Inductive ContextState := Pending | Active | Closing | Closed.
#[global] Instance context_state_eq_dec : EqDecision ContextState.
Proof. solve_decision. Defined.

Record ContextInfo := mk_info {
  target : option SocketAddr;
  state : ContextState;
  created_at : Z;
  last_activity : Z;
}.
#[global] Instance info_settable : Settable ContextInfo := λ i,
  mk_info (target i) (state i) (created_at i) (last_activity i).

Inductive ContextError :=
| IdSpaceExhausted
| DuplicateUncompressed
| ReservedId
| DuplicateTarget (a : SocketAddr)
| UnknownContext
| InvalidState.

Record ContextManager := mk_manager {
  local_contexts : gmap Z ContextInfo;
  remote_contexts : gmap Z ContextInfo;
  target_index : gmap SocketAddr Z;
  uncompressed_context : option Z;
  next_local_id : Z;
  is_client : bool;
}.
#[global] Instance manager_settable : Settable ContextManager := λ m,
  mk_manager (local_contexts m) (remote_contexts m) (target_index m) (uncompressed_context m) (next_local_id m) (is_client m).

Definition new (is_client : bool) : ContextManager :=
  mk_manager ∅ ∅ ∅ None (if is_client then 2 else 1) is_client.

Definition allocate_local (m : ContextManager) : result Z ContextError * ContextManager :=
  let id := next_local_id m in
  if id >? VarInt.MAX then (Err IdSpaceExhausted, m)
  else if id + 2 >=? 2 ^ 64 then (Err IdSpaceExhausted, m)
  else (match VarInt.from_u64 id with Ok id => Ok id | Err _ => Err IdSpaceExhausted end, m <| next_local_id := id + 2 |>).

Definition register_uncompressed (now context_id : Z) (m : ContextManager) : result ContextManager ContextError :=
  match uncompressed_context m with
  | Some _ => Err DuplicateUncompressed
  | None =>
      if context_id =? 0 then Err ReservedId
      else Ok (m <| local_contexts := <[context_id := mk_info None Pending now now]> (local_contexts m) |>
                 <| uncompressed_context := Some context_id |>)
  end.

Definition register_compressed (now context_id : Z) (t : SocketAddr) (m : ContextManager) : result ContextManager ContextError :=
  match target_index m !! t with
  | Some _ => Err (DuplicateTarget t)
  | None => Ok (m <| local_contexts := <[context_id := mk_info (Some t) Pending now now]> (local_contexts m) |>
                  <| target_index := <[t := context_id]> (target_index m) |>)
  end.

Definition register_remote (now context_id : Z) (t : option SocketAddr) (m : ContextManager) : result ContextManager ContextError :=
  let info := mk_info t Active now now in
  match t with
  | None =>
      match uncompressed_context m with
      | Some _ => Err DuplicateUncompressed
      | None => Ok (m <| remote_contexts := <[context_id := info]> (remote_contexts m) |>
                      <| uncompressed_context := Some context_id |>)
      end
  | Some a =>
      match target_index m !! a with
      | Some _ => Err (DuplicateTarget a)
      | None => Ok (m <| remote_contexts := <[context_id := info]> (remote_contexts m) |>
                      <| target_index := <[a := context_id]> (target_index m) |>)
      end
  end.

Definition handle_ack (now context_id : Z) (m : ContextManager) : result ContextManager ContextError :=
  match local_contexts m !! context_id with
  | None => Err UnknownContext
  | Some info =>
      if decide (state info = Pending)
      then Ok (m <| local_contexts := <[context_id := info <| state := Active |> <| last_activity := now |>]> (local_contexts m) |>)
      else Err InvalidState
  end.

Definition closed (now : Z) (info : ContextInfo) : ContextInfo := info <| state := Closed |> <| last_activity := now |>.

(** The index and the uncompressed context forget a closed identifier. *)
Definition forget (context_id : Z) (t : option SocketAddr) (m : ContextManager) : ContextManager :=
  let m := match t with
    | Some a => if decide (target_index m !! a = Some context_id)
                then m <| target_index := delete a (target_index m) |> else m
    | None => m
    end in
  if decide (uncompressed_context m = Some context_id) then m <| uncompressed_context := None |> else m.

Definition close (now context_id : Z) (m : ContextManager) : result ContextManager ContextError :=
  match local_contexts m !! context_id, remote_contexts m !! context_id with
  | Some info, _ =>
      Ok (forget context_id (target info) (m <| local_contexts := <[context_id := closed now info]> (local_contexts m) |>))
  | None, Some info =>
      Ok (forget context_id (target info) (m <| remote_contexts := <[context_id := closed now info]> (remote_contexts m) |>))
  | None, None => Err UnknownContext
  end.

Definition get_context (context_id : Z) (m : ContextManager) : option ContextInfo :=
  match local_contexts m !! context_id with
  | Some info => Some info
  | None => remote_contexts m !! context_id
  end.

Definition get_by_target (t : SocketAddr) (m : ContextManager) : option Z :=
  let! id := target_index m !! t else None in
  let! info := get_context id m else None in
  if decide (state info = Active) then Some id else None.

Definition uncompressed (m : ContextManager) : option Z :=
  let! id := uncompressed_context m else None in
  let! info := get_context id m else None in
  if decide (state info = Active) then Some id else None.

Definition get_target (context_id : Z) (m : ContextManager) : option SocketAddr :=
  get_context context_id m ≫= target.

Definition touch (now context_id : Z) (m : ContextManager) : result ContextManager ContextError :=
  match local_contexts m !! context_id, remote_contexts m !! context_id with
  | Some info, _ => Ok (m <| local_contexts := <[context_id := info <| last_activity := now |>]> (local_contexts m) |>)
  | None, Some info => Ok (m <| remote_contexts := <[context_id := info <| last_activity := now |>]> (remote_contexts m) |>)
  | None, None => Err UnknownContext
  end.

Definition active (kv : Z * ContextInfo) : Prop := state kv.2 = Active.
#[global] Instance active_dec kv : Decision (active kv) := decide (state kv.2 = Active).

Definition active_count (m : ContextManager) : nat :=
  base.size (filter active (local_contexts m)) + base.size (filter active (remote_contexts m)).

Definition kept (now max_age : Z) (kv : Z * ContextInfo) : Prop :=
  state kv.2 ≠ Closed ∨ Z.max 0 (now - last_activity kv.2) < max_age.
#[global] Instance kept_dec now max_age kv : Decision (kept now max_age kv).
Proof. unfold kept. apply _. Defined.

Definition cleanup_closed (now max_age : Z) (m : ContextManager) : ContextManager :=
  m <| local_contexts := filter (kept now max_age) (local_contexts m) |>
    <| remote_contexts := filter (kept now max_age) (remote_contexts m) |>.

End Context.

(** ** A session at the relay *)

Module Session.
Import NatFrames Capsule RelayDatagram Context.

Inductive RelayError := SessionNotFound | SessionInvalidState | ResourceExhausted | ProtocolError.

Inductive RelaySessionState := SPending | SActive | SClosing | SClosed | SError.
#[global] Instance session_state_eq_dec : EqDecision RelaySessionState.
Proof. solve_decision. Defined.

Definition RELAY_SESSION_TARGET_SLOTS : nat := 8.

Record TargetEntry := mk_entry {
  addr : SocketAddr;
  to_target_bytes : Z; to_target_count : Z;
  to_client_bytes : Z; to_client_count : Z;
}.

Record RelayTargetTable := mk_table { entries : list TargetEntry; evictions : Z }.

Definition total_bytes (e : TargetEntry) : Z := saturating_add 64 (to_target_bytes e) (to_client_bytes e).

(** [fetch_add] on the counters of an entry. *)
Definition bump (bytes : Z) (to_target : bool) (e : TargetEntry) : TargetEntry :=
  if to_target
  then mk_entry (addr e) (wrapping_add 64 (to_target_bytes e) bytes) (wrapping_add 64 (to_target_count e) 1)
         (to_client_bytes e) (to_client_count e)
  else mk_entry (addr e) (to_target_bytes e) (to_target_count e)
         (wrapping_add 64 (to_client_bytes e) bytes) (wrapping_add 64 (to_client_count e) 1).

Definition entry_new (a : SocketAddr) (bytes : Z) (to_target : bool) : TargetEntry :=
  if to_target then mk_entry a bytes 1 0 0 else mk_entry a 0 0 bytes 1.

(** The first entry with the address. *)
Fixpoint bump_first (a : SocketAddr) (bytes : Z) (to_target : bool) (es : list TargetEntry) : option (list TargetEntry) :=
  match es with
  | [] => None
  | e :: es => if decide (addr e = a) then Some (bump bytes to_target e :: es)
               else let! es := bump_first a bytes to_target es else None in Some (e :: es)
  end.

(** [min_by_key] returns the first of the entries with the least total. *)
Fixpoint min_entry (i : nat) (es : list TargetEntry) : option (nat * Z) :=
  match es with
  | [] => None
  | e :: es =>
      match min_entry (S i) es with
      | Some (j, least) => if least <? total_bytes e then Some (j, least) else Some (i, total_bytes e)
      | None => Some (i, total_bytes e)
      end
  end.

(** [Vec::swap_remove] within range. *)
Definition swap_remove (i : nat) (es : list TargetEntry) : list TargetEntry :=
  match last es with
  | None => es
  | Some e => take (length es - 1) (<[i := e]> es)
  end.

Definition record (a : SocketAddr) (bytes : Z) (to_target : bool) (t : RelayTargetTable) : RelayTargetTable :=
  match bump_first a bytes to_target (entries t) with
  | Some es => mk_table es (evictions t)
  | None =>
      if (RELAY_SESSION_TARGET_SLOTS <=? length (entries t))%nat then
        match min_entry 0 (entries t) with
        | None => t
        | Some (idx, min_bytes) =>
            if bytes <=? min_bytes then mk_table (entries t) (wrapping_add 64 (evictions t) 1)
            else mk_table (swap_remove idx (entries t) ++ [entry_new a bytes to_target]) (wrapping_add 64 (evictions t) 1)
        end
      else mk_table (entries t ++ [entry_new a bytes to_target]) (evictions t)
  end.

Record RelaySession := mk_session {
  bandwidth_limit : Z;
  session_timeout : Z;
  max_contexts : Z;
  sstate : RelaySessionState;
  client_address : option SocketAddr;
  context_manager : ContextManager;
  target_to_context : gmap SocketAddr Z;
  session_activity : Z;
  capsules_processed : Z;
  contexts_registered : Z;
  bytes_in_window : Z;
  window_start_ms : Z;
}.
#[global] Instance session_settable : Settable RelaySession := λ s,
  mk_session (bandwidth_limit s) (session_timeout s) (max_contexts s) (sstate s) (client_address s) (context_manager s)
    (target_to_context s) (session_activity s) (capsules_processed s) (contexts_registered s) (bytes_in_window s) (window_start_ms s).

Definition session_new (limit timeout max_contexts now now_ms : Z) : RelaySession :=
  mk_session limit timeout max_contexts SPending None (new false) ∅ now 0 0 0 now_ms.

Definition is_timed_out (now : Z) (s : RelaySession) : bool := now - session_activity s >? session_timeout s.
Definition is_active (s : RelaySession) : bool := bool_decide (sstate s = SActive).

(** The counter is raised first and, when the datagram is refused, lowered again. *)
Definition check_rate_limit (now_ms bytes : Z) (s : RelaySession) : RelaySession * bool :=
  if bandwidth_limit s =? 0 then (s, true)
  else if saturating_sub now_ms (window_start_ms s) >=? 1000 then
    (s <| window_start_ms := now_ms |> <| bytes_in_window := bytes |>, bytes <=? bandwidth_limit s)
  else
    let raised := wrapping_add 64 (bytes_in_window s) bytes in
    if raised >? bandwidth_limit s
    then (s <| bytes_in_window := wrapping_sub 64 raised bytes |>, false)
    else (s <| bytes_in_window := raised |>, true).

Definition activate (now : Z) (s : RelaySession) : result RelaySession RelayError :=
  match sstate s with
  | SPending => Ok (s <| sstate := SActive |> <| session_activity := now |>)
  | _ => Err SessionInvalidState
  end.

Definition handle_compression_assign (now : Z) (a : CompressionAssign) (s : RelaySession) : RelaySession * option Capsule :=
  let reject := Some (CCompressionClose (as_context_id a)) in
  if Z.of_nat (active_count (context_manager s)) >=? max_contexts s then (s, reject)
  else
    let t := Capsule.target a in
    if match t with Some t => bool_decide (is_Some (target_to_context s !! t)) | None => false end then (s, reject)
    else match register_remote now (as_context_id a) t (context_manager s) with
    | Ok m =>
        let s := s <| context_manager := m |> in
        let s := match t with Some t => s <| target_to_context := <[t := as_context_id a]> (target_to_context s) |> | None => s end in
        (s <| contexts_registered := wrapping_add 64 (contexts_registered s) 1 |>, Some (CCompressionAck (as_context_id a)))
    | Err _ => (s, reject)
    end.

Definition handle_compression_ack (now id : Z) (s : RelaySession) : RelaySession * option Capsule :=
  match handle_ack now id (context_manager s) with
  | Ok m => (s <| context_manager := m |>, None)
  | Err _ => (s, None)
  end.

Definition handle_compression_close (now id : Z) (s : RelaySession) : RelaySession * option Capsule :=
  let s := match get_target id (context_manager s) with
    | Some t => s <| target_to_context := delete t (target_to_context s) |>
    | None => s
    end in
  match close now id (context_manager s) with
  | Ok m => (s <| context_manager := m |>, None)
  | Err _ => (s, None)
  end.

Definition handle_capsule (now : Z) (c : Capsule) (s : RelaySession) : result (RelaySession * option Capsule) RelayError :=
  if negb (is_active s) then Err SessionInvalidState
  else
    let s := s <| session_activity := now |> <| capsules_processed := wrapping_add 64 (capsules_processed s) 1 |> in
    Ok (match c with
        | CCompressionAssign a => handle_compression_assign now a s
        | CCompressionAck id => handle_compression_ack now id s
        | CCompressionClose id => handle_compression_close now id s
        | CUnknown _ _ => (s, None)
        end).

Definition resolve_target (d : Datagram) (s : RelaySession) : option SocketAddr :=
  match d with
  | Compressed d => get_target (cd_context_id d) (context_manager s)
  | Uncompressed d => Some (ud_target d)
  end.

Definition existing_context_for_target (t : SocketAddr) (s : RelaySession) : option Z := target_to_context s !! t.

Definition resolve_raw_datagram (data : list Z) (s : RelaySession) : option (SocketAddr * list Z) :=
  match decode VarInt.codec data with
  | Err _ => None
  | Ok (ctx_id, peek) =>
      match get_target ctx_id (context_manager s) with
      | Some t => Some (t, peek)
      | None => match ud_decode data with Ok d => Some (ud_target d, ud_payload d) | Err _ => None end
      end
  end.

Definition context_for_target (now : Z) (t : SocketAddr) (s : RelaySession) : result Z RelayError * RelaySession :=
  match target_to_context s !! t with
  | Some ctx_id => (Ok ctx_id, s)
  | None =>
      match allocate_local (context_manager s) with
      | (Err _, m) => (Err ResourceExhausted, s <| context_manager := m |>)
      | (Ok ctx_id, m) =>
          match register_compressed now ctx_id t m with
          | Err _ => (Err SessionInvalidState, s <| context_manager := m |>)
          | Ok m => (Ok ctx_id, s <| context_manager := m |> <| target_to_context := <[t := ctx_id]> (target_to_context s) |>)
          end
      end
  end.

Definition create_assign_capsule (ctx_id : Z) (t : SocketAddr) : Capsule :=
  CCompressionAssign match t with
  | V4 o port => compressed_v4 ctx_id o port
  | V6 o port _ _ => compressed_v6 ctx_id o port
  end.

Definition session_close (s : RelaySession) : RelaySession :=
  match sstate s with
  | SClosed | SError => s
  | _ => s <| sstate := SClosed |> <| target_to_context := ∅ |>
  end.

(** [handle_target_datagram] of [relay_server.rs], on the session it finds: the encoded datagram
    for the client. *)
Definition handle_target_datagram (now : Z) (source : SocketAddr) (payload : list Z) (s : RelaySession) :
    result (list Z) RelayError * RelaySession :=
  match existing_context_for_target source s, client_address s with
  | Some ctx_id, Some _ => (Ok (cd_encode_into (mk_compressed ctx_id payload)), s)
  | _, None => (Err SessionInvalidState, s)
  | None, Some _ =>
      match context_for_target now source s with
      | (Ok ctx_id, s) => (Ok (cd_encode_into (mk_compressed ctx_id payload)), s)
      | (Err e, s) => (Err e, s)
      end
  end.

End Session.

(** ** The relay's client *)

Module Client.
Import NatFrames Capsule RelayDatagram Context Session.

Definition PENDING_DATAGRAM_MAX_AGE : Z := 10 * 10 ^ 9.

Inductive RelayConnectionState := Disconnected | Connecting | Connected | Failed | ClientClosed.

Record PendingDatagram := mk_pending { pd_target : SocketAddr; pd_payload : list Z; pd_created_at : Z }.

Record MasqueRelayClient := mk_client {
  public_address : option SocketAddr;
  client_state : RelayConnectionState;
  contexts : ContextManager;
  client_targets : gmap SocketAddr Z;
  pending_datagrams : list PendingDatagram;
  connected_at : option Z;
  client_registered : Z;
}.
#[global] Instance client_settable : Settable MasqueRelayClient := λ c,
  mk_client (public_address c) (client_state c) (contexts c) (client_targets c) (pending_datagrams c) (connected_at c) (client_registered c).

Definition client_new : MasqueRelayClient := mk_client None Disconnected (new true) ∅ [] None 0.

Definition handle_connect_response (now status : Z) (proxy_public_address : option SocketAddr) (c : MasqueRelayClient) :
    MasqueRelayClient * result unit RelayError :=
  if negb ((200 <=? status) && (status <? 300)) then (c <| client_state := Failed |>, Err SessionInvalidState)
  else
    let c := match proxy_public_address with Some a => c <| public_address := Some a |> | None => c end in
    (c <| client_state := Connected |> <| connected_at := Some now |>, Ok tt).

(** The payloads for the target of a context leave the queue, the old ones for good. *)
Definition flush_pending_for_context (now ctx_id : Z) (c : MasqueRelayClient) : MasqueRelayClient * list (list Z) :=
  match get_target ctx_id (contexts c) with
  | None => (c, [])
  | Some t =>
      (c <| pending_datagrams := filter (λ d, pd_target d ≠ t) (pending_datagrams c) |>,
       pd_payload <$> filter (λ d, pd_target d = t ∧ Z.max 0 (now - pd_created_at d) < PENDING_DATAGRAM_MAX_AGE) (pending_datagrams c))
  end.

(** The flushed payloads are counted and dropped. *)
Definition client_handle_ack (now id : Z) (c : MasqueRelayClient) : MasqueRelayClient * option Capsule :=
  match handle_ack now id (contexts c) with
  | Ok m =>
      let c := c <| contexts := m |> <| client_registered := wrapping_add 64 (client_registered c) 1 |> in
      ((flush_pending_for_context now id c).1, None)
  | Err _ => (c, None)
  end.

Definition client_handle_close (now id : Z) (c : MasqueRelayClient) : MasqueRelayClient * option Capsule :=
  let c := match get_target id (contexts c) with
    | Some t => c <| client_targets := delete t (client_targets c) |>
    | None => c
    end in
  match close now id (contexts c) with
  | Ok m => (c <| contexts := m |>, None)
  | Err _ => (c, None)
  end.

Definition client_handle_assign (now : Z) (a : CompressionAssign) (c : MasqueRelayClient) : MasqueRelayClient * option Capsule :=
  let t := Capsule.target a in
  match register_remote now (as_context_id a) t (contexts c) with
  | Err _ => (c, Some (CCompressionClose (as_context_id a)))
  | Ok m =>
      let c := c <| contexts := m |> in
      let c := match t with Some t => c <| client_targets := <[t := as_context_id a]> (client_targets c) |> | None => c end in
      (c, Some (CCompressionAck (as_context_id a)))
  end.

Definition client_handle_capsule (now : Z) (k : Capsule) (c : MasqueRelayClient) : MasqueRelayClient * option Capsule :=
  match k with
  | CCompressionAck id => client_handle_ack now id c
  | CCompressionClose id => client_handle_close now id c
  | CCompressionAssign a => client_handle_assign now a c
  | CUnknown _ _ => (c, None)
  end.

(** The context of a target, if it may be used. *)
Definition usable_context (t : SocketAddr) (c : MasqueRelayClient) : option Z :=
  let! ctx_id := client_targets c !! t else None in
  let! info := get_context ctx_id (contexts c) else None in
  if decide (state info = Active) then Some ctx_id else None.

Definition get_or_create_context (now : Z) (t : SocketAddr) (c : MasqueRelayClient) :
    MasqueRelayClient * result (Z * option Capsule) RelayError :=
  match usable_context t c with
  | Some ctx_id => (c, Ok (ctx_id, None))
  | None =>
      match allocate_local (contexts c) with
      | (Err _, m) => (c <| contexts := m |>, Err ResourceExhausted)
      | (Ok id, m) =>
          match register_compressed now id t m with
          | Err _ => (c <| contexts := m |>, Err SessionInvalidState)
          | Ok m =>
              (c <| contexts := m |> <| client_targets := <[t := id]> (client_targets c) |>,
               Ok (id, Some (create_assign_capsule id t)))
          end
      end
  end.

Definition create_datagram (now : Z) (t : SocketAddr) (payload : list Z) (c : MasqueRelayClient) :
    MasqueRelayClient * result (CompressedDatagram * option Capsule) RelayError :=
  match usable_context t c with
  | Some ctx_id => (c, Ok (mk_compressed ctx_id payload, None))
  | None =>
      match get_or_create_context now t c with
      | (c, Err e) => (c, Err e)
      | (c, Ok (ctx_id, capsule)) =>
          let c := match capsule with
            | Some _ => c <| pending_datagrams := pending_datagrams c ++ [mk_pending t payload now] |>
            | None => c
            end in
          (c, Ok (mk_compressed ctx_id payload, capsule))
      end
  end.

Definition cleanup_stale_pending (now : Z) (c : MasqueRelayClient) : MasqueRelayClient * nat :=
  let pending := filter (λ d, Z.max 0 (now - pd_created_at d) < PENDING_DATAGRAM_MAX_AGE) (pending_datagrams c) in
  (c <| pending_datagrams := pending |>, (length (pending_datagrams c) - length pending)%nat).

Definition decode_datagram (data : list Z) (c : MasqueRelayClient) : result (SocketAddr * list Z) RelayError :=
  let inline := match ud_decode data with Ok d => Ok (ud_target d, ud_payload d) | Err _ => Err ProtocolError end in
  match cd_decode data with
  | Ok d =>
      match get_target (cd_context_id d) (contexts c) with
      | Some t => Ok (t, cd_payload d)
      | None => inline
      end
  | Err _ => inline
  end.

Definition client_close (c : MasqueRelayClient) : MasqueRelayClient :=
  c <| client_state := ClientClosed |> <| client_targets := ∅ |> <| pending_datagrams := [] |>.

End Client.

(** ** A client and its relay *)

Module Relaying.
Import NatFrames Capsule RelayDatagram Context Session Client Tunnel.

(** The two ends, the capsules under way on the two directions of their stream, the datagrams
    the client has made (context, target, payload), which the network may lose, duplicate and
    reorder, and what the relay resolved them to. *)
Record Pair := mk_pair {
  client : MasqueRelayClient;
  session : RelaySession;
  up : list Capsule;
  down : list Capsule;
  sent : list (Z * SocketAddr * list Z);
  resolved : list (Z * SocketAddr * list Z * option (SocketAddr * list Z));
}.
#[global] Instance pair_settable : Settable Pair := λ p,
  mk_pair (client p) (session p) (up p) (down p) (sent p) (resolved p).

Inductive Ev :=
| Create (now : Z) (t : SocketAddr) (payload : list Z)
| RelayCapsule (now : Z)
| ClientCapsule (now : Z)
| RelayDatagram (i : nat)
| FromTarget (now : Z) (source : SocketAddr) (payload : list Z)
| Stale (now : Z).

Definition send_capsule (k : option Capsule) (q : list Capsule) : list Capsule :=
  match k with Some k => q ++ [k] | None => q end.

Definition step (p : Pair) (e : Ev) : Pair :=
  match e with
  | Create now t payload =>
      match create_datagram now t payload (client p) with
      | (c, Ok (d, k)) =>
          p <| client := c |> <| up := send_capsule k (up p) |> <| sent := sent p ++ [(cd_context_id d, t, cd_payload d)] |>
      | (c, Err _) => p <| client := c |>
      end
  | RelayCapsule now =>
      match up p with
      | [] => p
      | k :: rest =>
          match handle_capsule now k (session p) with
          | Ok (s, r) => p <| session := s |> <| up := rest |> <| down := send_capsule r (down p) |>
          | Err _ => p <| up := rest |>
          end
      end
  | ClientCapsule now =>
      match down p with
      | [] => p
      | k :: rest =>
          let (c, r) := client_handle_capsule now k (client p) in
          p <| client := c |> <| down := rest |> <| up := send_capsule r (up p) |>
      end
  | RelayDatagram i =>
      match sent p !! i with
      | None => p
      | Some (ctx_id, t, payload) =>
          p <| resolved := resolved p ++
            [(ctx_id, t, payload, resolve_raw_datagram (cd_encode_into (mk_compressed ctx_id payload)) (session p))] |>
      end
  | FromTarget now source payload => p <| session := (handle_target_datagram now source payload (session p)).2 |>
  | Stale now => p <| client := (cleanup_stale_pending now (client p)).1 |>
  end.

Definition run (p : Pair) (evs : list Ev) : Pair := fold_left step evs p.

(** A fresh client and a session that was activated for it. *)
Definition start (limit timeout max_contexts now now_ms : Z) (client_addr : SocketAddr) : Pair :=
  let s := session_new limit timeout max_contexts now now_ms in
  mk_pair client_new (s <| sstate := SActive |> <| client_address := Some client_addr |>) [] [] [] [].

(** *** The invariant *)

Definition cap_id (k : Capsule) : Z :=
  match k with
  | CCompressionAssign a => as_context_id a
  | CCompressionAck id | CCompressionClose id => id
  | CUnknown _ _ => 0
  end.

(** What the two tables say of the capsules under way: [L] are the client's contexts, [R] those
    the relay has registered for it. *)
Section core.
Context (L R : gmap Z ContextInfo).

(** The relay has the context, for the address the client means. *)
Definition registered (id : Z) (t : SocketAddr) : Prop :=
  ∃ i, R !! id = Some i ∧ state i = Active ∧ target i = Some (wire_addr t).

(** The client's context is in the given state. *)
Definition local_is (st : ContextState) (id : Z) (t : SocketAddr) : Prop :=
  ∃ info, L !! id = Some info ∧ state info = st ∧ target info = Some t.

Definition up_ok (k : Capsule) : Prop :=
  ∃ t, k = create_assign_capsule (cap_id k) t ∧ local_is Pending (cap_id k) t ∧ R !! cap_id k = None.

Definition down_ok (k : Capsule) : Prop :=
  ∃ t, local_is Pending (cap_id k) t ∧
    (k = CCompressionAck (cap_id k) ∧ registered (cap_id k) t
     ∨ k = CCompressionClose (cap_id k) ∧ R !! cap_id k = None).

Definition context_ok (ids : list Z) (id : Z) (info : ContextInfo) : Prop :=
  ∃ t, target info = Some t ∧
    match state info with
    | Pending => id ∈ ids
    | Active => registered id t
    | Closing => False
    | Closed => R !! id = None
    end.

Record core (u d : list Capsule) : Prop := {
  core_local : ∀ id info, L !! id = Some info → context_ok (cap_id <$> (u ++ d)) id info;
  core_remote : ∀ id i, R !! id = Some i → ∃ info t, L !! id = Some info ∧ target info = Some t ∧ registered id t;
  core_ids : NoDup (cap_id <$> (u ++ d));
  core_up : Forall up_ok u;
  core_down : Forall down_ok d;
}.
End core.

(** A new context, announced last. *)
Lemma core_create L R u d id t now : L !! id = None →
  core L R u d → core (<[id := mk_info (Some t) Pending now now]> L) R (u ++ [create_assign_capsule id t]) d.
Proof.
  intros Hf [Hl Hr Hi Hu Hd].
  assert (HR : R !! id = None). { destruct (R !! id) as [i|] eqn:E; [|done]. by destruct (Hr id i E) as (? & ? & ? & _); simplify_eq. }
  assert (Hk : cap_id (create_assign_capsule id t) = id) by by destruct t.
  assert (Hother : ∀ st id' t', local_is L st id' t' → local_is (<[id := mk_info (Some t) Pending now now]> L) st id' t').
  { intros st id' t' (info & Hin & ?). exists info. split; [|done]. rewrite lookup_insert_ne; [done|]. intros ->. by simplify_eq. }
  assert (Hperm : cap_id <$> ((u ++ [create_assign_capsule id t]) ++ d) ≡ₚ id :: (cap_id <$> (u ++ d))).
  { rewrite <- app_assoc, !fmap_app, list_fmap_singleton, Hk. simpl. by rewrite <- Permutation_middle. }
  split.
  - intros id' info [[<- <-]|[Hne Hin]]%lookup_insert_Some.
    + exists t. split; [done|]. simpl. rewrite Hperm. by left.
    + destruct (Hl id' info Hin) as (t' & Ht & Hst). exists t'. split; [done|].
      destruct (state info); try done. rewrite Hperm. by right.
  - intros id' i Hin. destruct (Hr id' i Hin) as (info & t' & ? & ? & ?). exists info, t'. split; [|done].
    rewrite lookup_insert_ne; [done|]. intros ->. by simplify_eq.
  - rewrite Hperm. constructor; [|done]. intros Hin. rewrite list_elem_of_fmap in Hin. destruct Hin as (k & -> & Hin).
    apply elem_of_app in Hin as [Hin|Hin].
    + eapply Forall_forall in Hu as (t' & _ & (? & ? & _) & _); [|done]. by simplify_eq.
    + eapply Forall_forall in Hd as (t' & (? & ? & _) & _); [|done]. by simplify_eq.
  - apply Forall_app. split.
    + eapply Forall_impl; [exact Hu|]. intros k (t' & ? & ? & ?). exists t'. auto.
    + apply Forall_singleton. exists t. rewrite Hk. split_and!; [done| |done].
      exists (mk_info (Some t) Pending now now). by rewrite lookup_insert_eq.
  - eapply Forall_impl; [exact Hd|]. intros k (t' & ? & ?). exists t'. auto.
Qed.

(** Capsules of other contexts are untouched when the entry of one context changes. *)
Lemma others_ok L R u d k : core L R (k :: u) d →
  ∀ k', k' ∈ u ++ d → cap_id k' ≠ cap_id k.
Proof.
  intros [_ _ Hi _ _] k' Hin He. simpl in Hi. apply NoDup_cons in Hi as [Hi _]. apply Hi.
  rewrite <- He. apply list_elem_of_fmap. by exists k'.
Qed.

(** The relay rejects the oldest announcement. *)
Lemma core_reject L R k u d : core L R (k :: u) d → core L R u (d ++ [CCompressionClose (cap_id k)]).
Proof.
  intros Hc. destruct Hc as [Hl Hr Hi Hu Hd]. inversion_clear Hu as [|? ? (t & _ & Hp & HR) Hu'].
  assert (Hperm : cap_id <$> (u ++ d ++ [CCompressionClose (cap_id k)]) ≡ₚ cap_id <$> (k :: u) ++ d).
  { rewrite app_assoc, fmap_app, list_fmap_singleton. simpl. by rewrite <- Permutation_cons_append. }
  split; [|done| |done|].
  - intros id info Hin. destruct (Hl id info Hin) as (t' & ? & Hst). exists t'. split; [done|].
    destruct (state info); try done. by rewrite Hperm.
  - by rewrite Hperm.
  - apply Forall_app. split; [done|]. apply Forall_singleton. exists t. split; [done|]. by right.
Qed.

(** What an announcement announces. *)
Lemma assign_target a id t : CCompressionAssign a = create_assign_capsule id t → Capsule.target a = Some (wire_addr t).
Proof. destruct t; simpl; by intros [= ->]. Qed.

(** The relay registers it. *)
Lemma core_accept L R a u d now : core L R (CCompressionAssign a :: u) d →
  core L (<[as_context_id a := mk_info (Capsule.target a) Active now now]> R) u (d ++ [CCompressionAck (as_context_id a)]).
Proof.
  intros Hc. pose proof (others_ok _ _ _ _ _ Hc) as Hoth. destruct Hc as [Hl Hr Hi Hu Hd].
  inversion_clear Hu as [|? ? (t & Hk & Hp & HR) Hu']. simpl in Hk, Hp, HR, Hoth. apply assign_target in Hk. rewrite Hk.
  set (id := as_context_id a) in *. set (R' := <[id := _]> R).
  assert (Hreg : registered R' id t). { eexists. unfold R'. by rewrite lookup_insert_eq. }
  assert (Hother : ∀ id' t', registered R id' t' → registered R' id' t').
  { intros id' t' (i & Hin & ?). exists i. split; [|done]. unfold R'. rewrite lookup_insert_ne; [done|]. intros He. rewrite <- He, HR in Hin. done. }
  assert (Hperm : cap_id <$> (u ++ d ++ [CCompressionAck id]) ≡ₚ cap_id <$> (CCompressionAssign a :: u) ++ d).
  { rewrite app_assoc, fmap_app, list_fmap_singleton. simpl. by rewrite <- Permutation_cons_append. }
  split.
  - intros id' info Hin. destruct (Hl id' info Hin) as (t' & Ht & Hst). exists t'. split; [done|].
    destruct (state info) eqn:Es; [by rewrite Hperm|by apply Hother|done|].
    unfold R'. rewrite lookup_insert_ne; [done|]. intros <-. destruct Hp as (info' & HL & Hs & _). congruence.
  - intros id' i [[<- <-]|[Hne Hin]]%lookup_insert_Some.
    + destruct Hp as (info & ? & _ & ?). by exists info, t.
    + destruct (Hr id' i Hin) as (info & t' & ? & ? & ?). exists info, t'. auto.
  - by rewrite Hperm.
  - apply Forall_forall. intros k Hin. eapply Forall_forall in Hu' as (t' & ? & ? & ?); [|done].
    exists t'. split_and!; [done..|]. unfold R'. rewrite lookup_insert_ne; [done|].
    intros He. apply (Hoth k); [rewrite elem_of_app; auto|done].
  - apply Forall_app. split; [|apply Forall_singleton; exists t; auto].
    apply Forall_forall. intros k Hin. eapply Forall_forall in Hd as (t' & ? & Hcase); [|done].
    exists t'. split; [done|]. destruct Hcase as [[? ?]|[? ?]]; [left; auto|right]. split; [done|].
    unfold R'. rewrite lookup_insert_ne; [done|]. intros He. apply (Hoth k); [rewrite elem_of_app; auto|done].
Qed.

(** The client takes an answer: the context becomes active or closed. *)
Lemma core_answer L R k u d info info' t : core L R u (k :: d) → L !! cap_id k = Some info → target info = Some t →
  target info' = Some t →
  match state info' with
  | Active => registered R (cap_id k) t
  | Closed => R !! cap_id k = None
  | _ => False
  end → core (<[cap_id k := info']> L) R u d.
Proof.
  intros [Hl Hr Hi Hu Hd] HL Ht Ht' Hst. set (id := cap_id k) in *.
  assert (Hperm : cap_id <$> (u ++ k :: d) ≡ₚ id :: (cap_id <$> (u ++ d))) by by rewrite <- Permutation_middle.
  assert (Hnot : id ∉ cap_id <$> (u ++ d)). { rewrite Hperm in Hi. by apply NoDup_cons in Hi as [? _]. }
  assert (Hother : ∀ k' t', k' ∈ u ++ d → local_is L Pending (cap_id k') t' → local_is (<[id := info']> L) Pending (cap_id k') t').
  { intros k' t' Hin (i & ? & ?). exists i. split; [|done]. rewrite lookup_insert_ne; [done|].
    intros He. apply Hnot. rewrite He. apply list_elem_of_fmap. by exists k'. }
  split.
  - intros id' i [[<- <-]|[Hne Hin]]%lookup_insert_Some; [exists t; split; [done|]; by destruct (state info')|].
    destruct (Hl id' i Hin) as (t' & ? & Hs). exists t'. split; [done|]. destruct (state i); try done.
    rewrite Hperm in Hs. by apply elem_of_cons in Hs as [->|].
  - intros id' i Hin. destruct (Hr id' i Hin) as (i' & t' & HL' & Ht'' & Hreg).
    destruct (decide (id' = id)) as [->|Hne]; [|exists i', t'; by rewrite lookup_insert_ne].
    exists info', t. rewrite lookup_insert_eq. simplify_eq. done.
  - rewrite Hperm in Hi. by apply NoDup_cons in Hi as [_ ?].
  - apply Forall_forall. intros k' Hin. eapply Forall_forall in Hu as (t' & ? & ? & ?); [|done].
    exists t'. split_and!; [done| |done]. apply Hother; [rewrite elem_of_app; auto|done].
  - apply Forall_forall. intros k' Hin. inversion_clear Hd as [|? ? _ Hd']. eapply Forall_forall in Hd' as (t' & ? & ?); [|done].
    exists t'. split; [|done]. apply Hother; [rewrite elem_of_app; auto|done].
Qed.

Abbreviation local p := (local_contexts (contexts (client p))).
Abbreviation remote p := (remote_contexts (context_manager (session p))).
Abbreviation next p := (next_local_id (contexts (client p))).

(** A context the client made for a target. *)
Definition made (p : Pair) (id : Z) (t : SocketAddr) : Prop := ∃ info, local p !! id = Some info ∧ target info = Some t.

(** A context that is not closed. *)
Definition is_open (L : gmap Z ContextInfo) (id : Z) (t : SocketAddr) : Prop :=
  ∃ info, L !! id = Some info ∧ target info = Some t ∧ state info ≠ Closed.

Record inv (p : Pair) : Prop := {
  inv_core : core (local p) (remote p) (up p) (down p);
  inv_next : next p mod 2 = 0 ∧ 2 ≤ next p ≤ 2 ^ 62;
  inv_local : ∀ id info, local p !! id = Some info → id mod 2 = 0 ∧ 2 ≤ id < next p;
  inv_no_remote : remote_contexts (contexts (client p)) = ∅;
  inv_relay_next : next_local_id (context_manager (session p)) mod 2 = 1;
  inv_relay_local : ∀ id info, local_contexts (context_manager (session p)) !! id = Some info → id mod 2 = 1 ∧ state info = Pending;
  inv_index : target_index (contexts (client p)) = client_targets (client p);
  inv_targets : ∀ t id, client_targets (client p) !! t = Some id ↔ is_open (local p) id t;
  inv_count : Z.of_nat (active_count (context_manager (session p))) ≤ Z.max 0 (max_contexts (session p));
  inv_active : sstate (session p) = SActive;
  inv_sent : Forall (λ d, made p d.1.1 d.1.2) (sent p);
}.

(** *** The client makes a datagram *)

(** The client after a context was made for a target. *)
Definition with_context (now : Z) (t : SocketAddr) (payload : list Z) (c : MasqueRelayClient) : MasqueRelayClient :=
  let id := next_local_id (contexts c) in
  c <| contexts := (contexts c) <| next_local_id := id + 2 |>
         <| local_contexts := <[id := mk_info (Some t) Pending now now]> (local_contexts (contexts c)) |>
         <| target_index := <[t := id]> (target_index (contexts c)) |> |>
    <| client_targets := <[t := id]> (client_targets c) |>
    <| pending_datagrams := pending_datagrams c ++ [mk_pending t payload now] |>.

(** The client after an identifier was taken for nothing. *)
Definition id_lost (c : MasqueRelayClient) : MasqueRelayClient :=
  c <| contexts := (contexts c) <| next_local_id := next_local_id (contexts c) + 2 |> |>.

Lemma allocate_eq m : is_u 62 (next_local_id m) →
  allocate_local m = (Ok (next_local_id m), m <| next_local_id := next_local_id m + 2 |>).
Proof.
  intros [? ?]. unfold allocate_local, VarInt.MAX, VarInt.from_u64. change (Z.shiftl 1 62 - 1) with (2 ^ 62 - 1).
  rewrite Z.gtb_ltb, Z.geb_leb, (proj2 (Z.ltb_ge _ _)), (proj2 (Z.leb_gt _ _)), (proj2 (Z.ltb_lt _ _)) by lia. done.
Qed.

Lemma allocate_exhausted m : 2 ^ 62 ≤ next_local_id m → allocate_local m = (Err IdSpaceExhausted, m).
Proof.
  intros ?. unfold allocate_local, VarInt.MAX. change (Z.shiftl 1 62 - 1) with (2 ^ 62 - 1).
  by rewrite Z.gtb_ltb, (proj2 (Z.ltb_lt _ _)) by lia.
Qed.

Lemma create_eq now t payload c : 0 ≤ next_local_id (contexts c) →
  create_datagram now t payload c =
    match usable_context t c with
    | Some id => (c, Ok (mk_compressed id payload, None))
    | None =>
        if next_local_id (contexts c) <? 2 ^ 62 then
          match target_index (contexts c) !! t with
          | Some _ => (id_lost c, Err SessionInvalidState)
          | None => (with_context now t payload c,
              Ok (mk_compressed (next_local_id (contexts c)) payload, Some (create_assign_capsule (next_local_id (contexts c)) t)))
          end
        else (c, Err ResourceExhausted)
    end.
Proof.
  intros H0. unfold create_datagram, get_or_create_context. destruct (usable_context t c); [done|].
  destruct (Z.ltb_spec (next_local_id (contexts c)) (2 ^ 62)).
  - rewrite allocate_eq by done. unfold register_compressed. simpl. by destruct (target_index (contexts c) !! t).
  - rewrite allocate_exhausted by done. by destruct c.
Qed.

Lemma usable_in_targets t c id : usable_context t c = Some id → client_targets c !! t = Some id.
Proof.
  unfold usable_context. destruct (client_targets c !! t) as [id'|]; [|done].
  destruct (get_context _ _); [|done]. by case_decide; intros [= ->].
Qed.

(** The open contexts after a new one. *)
Lemma targets_create (T : gmap SocketAddr Z) L id t now : L !! id = None → T !! t = None →
  (∀ t' id', T !! t' = Some id' ↔ is_open L id' t') →
  ∀ t' id', <[t := id]> T !! t' = Some id' ↔ is_open (<[id := mk_info (Some t) Pending now now]> L) id' t'.
Proof.
  intros Hf Hn HT t' id'. rewrite lookup_insert_Some. split.
  - intros [[<- <-]|[Hne Hin]]; [by eexists; rewrite lookup_insert_eq|]. apply HT in Hin as (info & ? & ?).
    exists info. split; [|done]. rewrite lookup_insert_ne; [done|]. intros <-. by simplify_eq.
  - intros (info & [[<- <-]|[Hne Hin]]%lookup_insert_Some & Ht & Hs); [left; by simplify_eq/=|right].
    assert (Hin' : T !! t' = Some id') by (apply HT; by exists info). split; [|done]. intros <-. by simplify_eq.
Qed.

(** A context is acknowledged or closed. *)
Lemma targets_update (T : gmap SocketAddr Z) L id t info info' : L !! id = Some info → target info = Some t → state info ≠ Closed →
  target info' = Some t → (∀ t' id', T !! t' = Some id' ↔ is_open L id' t') →
  ∀ t' id', (if decide (state info' = Closed) then delete t T else T) !! t' = Some id' ↔ is_open (<[id := info']> L) id' t'.
Proof.
  intros Hin Ht Hs Ht' HT t' id'.
  assert (Hid : T !! t = Some id) by (apply HT; by exists info).
  assert (Hother : id' ≠ id → is_open (<[id := info']> L) id' t' ↔ is_open L id' t').
  { intros Hne. unfold is_open. by rewrite lookup_insert_ne. }
  assert (Hsame : is_open (<[id := info']> L) id t' ↔ t' = t ∧ state info' ≠ Closed).
  { unfold is_open. rewrite lookup_insert_eq. split; [intros (? & ? & ? & ?); by simplify_eq|]. intros [-> ?]. by exists info'. }
  destruct (decide (id' = id)) as [->|Hne].
  - rewrite Hsame. case_decide.
    + split; [|tauto]. rewrite lookup_delete_Some. intros [? Hd]. apply HT in Hd as (? & ? & ? & _). by simplify_eq.
    + rewrite HT. split; [intros (? & ? & ? & _); by simplify_eq|]. intros [-> _]. by exists info.
  - rewrite (Hother Hne), <- HT. case_decide; [|done]. rewrite lookup_delete_Some. split; [by intros [_ ?]|].
    intros Hd. split; [|done]. intros <-. by simplify_eq.
Qed.

Lemma create_inv p now t payload : inv p → inv (step p (Create now t payload)).
Proof.
  intros [Hc Hn Hl Hnr Hrn Hrl Hix Ht Hcnt Ha Hs]. cbn [step]. rewrite create_eq by lia.
  destruct (usable_context t (client p)) as [id|] eqn:Hu; [|destruct (Z.ltb_spec (next p) (2 ^ 62)) as [Hlt|];
    [destruct (target_index (contexts (client p)) !! t) eqn:Hnone|]].
  - split; try done. apply Forall_app. split; [done|]. apply Forall_singleton.
    apply usable_in_targets, Ht in Hu as (info & ? & ? & _). by exists info.
  - assert (Hm : (next p + 2) mod 2 = 0) by (rewrite Z.add_mod, (proj1 Hn) by lia; done).
    assert (next p ≤ 2 ^ 62 - 2). { pose proof (Z.div_mod (next p) 2). lia. }
    split; try done; simpl; [lia|]. intros id info Hin. specialize (Hl id info Hin). lia.
  - assert (Hf : local p !! next p = None). { destruct (local p !! next p) eqn:E; [|done]. apply Hl in E. lia. }
    assert (Hm : (next p + 2) mod 2 = 0) by (rewrite Z.add_mod, (proj1 Hn) by lia; done).
    assert (next p ≤ 2 ^ 62 - 2). { pose proof (Z.div_mod (next p) 2). lia. }
    assert (Hmade : ∀ id t', made p id t' → ∃ info,
      <[next p := mk_info (Some t) Pending now now]> (local p) !! id = Some info ∧ target info = Some t').
    { intros id t' (info & Hin & ?). exists info. split; [|done]. rewrite lookup_insert_ne; [done|]. intros <-. by simplify_eq. }
    split; try done; simpl.
    + by apply core_create.
    + lia.
    + intros id info [[<- <-]|[? Hin]]%lookup_insert_Some; [lia|]. specialize (Hl id info Hin). lia.
    + by rewrite Hix.
    + intros t' id. rewrite Hix in Hnone. by apply targets_create.
    + apply Forall_app. split; [eapply Forall_impl; [exact Hs|]; intros d; apply Hmade|]. apply Forall_singleton.
      exists (mk_info (Some t) Pending now now). simpl. by rewrite lookup_insert_eq.
  - by split.
Qed.

(** *** Capsules and datagrams *)

(** What a session does with an announcement: it rejects it, or registers it and has room for it. *)
Lemma handle_assign_eq now a t s : Capsule.target a = Some t → remote_contexts (context_manager s) !! as_context_id a = None →
  handle_compression_assign now a s = (s, Some (CCompressionClose (as_context_id a)))
  ∨ ∃ s', handle_compression_assign now a s = (s', Some (CCompressionAck (as_context_id a)))
    ∧ remote_contexts (context_manager s') = <[as_context_id a := mk_info (Some t) Active now now]> (remote_contexts (context_manager s))
    ∧ local_contexts (context_manager s') = local_contexts (context_manager s)
    ∧ next_local_id (context_manager s') = next_local_id (context_manager s)
    ∧ sstate s' = sstate s ∧ max_contexts s' = max_contexts s
    ∧ Z.of_nat (active_count (context_manager s')) = Z.of_nat (active_count (context_manager s)) + 1
    ∧ Z.of_nat (active_count (context_manager s)) < max_contexts s.
Proof.
  intros Ht Hf. unfold handle_compression_assign. rewrite Ht, Z.geb_leb.
  destruct (Z.leb_spec (max_contexts s) (Z.of_nat (active_count (context_manager s)))); [by left|].
  case_bool_decide; [by left|]. unfold register_remote. destruct (target_index _ !! t); [by left|]. right.
  eexists. split_and!; [done..| |done]. unfold active_count. simpl. rewrite map_filter_insert_True by done.
  rewrite map_size_insert_None; [lia|]. apply map_lookup_filter_None. by left.
Qed.

Lemma relay_capsule_inv p now : inv p → inv (step p (RelayCapsule now)).
Proof.
  intros Hinv. cbn [step]. destruct (up p) as [|k u] eqn:Eu; [done|].
  destruct Hinv as [Hc Hn Hl Hnr Hrn Hrl Hix Ht Hcnt Ha Hs]. rewrite Eu in Hc.
  pose proof (core_up _ _ _ _ Hc) as Hup. inversion_clear Hup as [|? ? (t & Hk & _ & HR) _].
  destruct k as [a|id|id|ty data]; try by destruct t. simpl in HR. apply assign_target in Hk.
  unfold handle_capsule, is_active. rewrite (bool_decide_true _ Ha). simpl negb. cbv iota zeta.
  set (s1 := (session p) <| session_activity := now |> <| capsules_processed := _ |>).
  destruct (handle_assign_eq now a _ s1 Hk HR) as [->|(s' & -> & Hr' & Hl' & Hn' & Hs' & Hm' & Hc' & Hlt)].
  - split; try done. simpl. by apply (core_reject _ _ (CCompressionAssign a)).
  - split; try done; simpl; rewrite ?Hr', ?Hl', ?Hn', ?Hs', ?Hm', ?Hc'; try done.
    + rewrite <- Hk. by apply core_accept.
    + simpl in Hlt. change (context_manager s1) with (context_manager (session p)) in *. simpl. lia.
Qed.

(** What the client does with the two answers to an announcement. *)
Lemma client_ack_eq now id c info : local_contexts (contexts c) !! id = Some info → state info = Pending →
  ∃ c', client_handle_ack now id c = (c', None) ∧ client_targets c' = client_targets c
    ∧ target_index (contexts c') = target_index (contexts c)
    ∧ local_contexts (contexts c') = <[id := info <| state := Active |> <| last_activity := now |>]> (local_contexts (contexts c))
    ∧ remote_contexts (contexts c') = remote_contexts (contexts c) ∧ next_local_id (contexts c') = next_local_id (contexts c).
Proof.
  intros Hin Hp. unfold client_handle_ack, handle_ack. rewrite Hin. rewrite decide_True by done.
  eexists. split; [done|]. unfold flush_pending_for_context. by destruct (get_target _ _).
Qed.

Lemma client_close_eq now id c info t : local_contexts (contexts c) !! id = Some info → target info = Some t →
  target_index (contexts c) !! t = Some id →
  ∃ c', client_handle_close now id c = (c', None) ∧ client_targets c' = delete t (client_targets c)
    ∧ target_index (contexts c') = delete t (target_index (contexts c))
    ∧ local_contexts (contexts c') = <[id := closed now info]> (local_contexts (contexts c))
    ∧ remote_contexts (contexts c') = remote_contexts (contexts c) ∧ next_local_id (contexts c') = next_local_id (contexts c).
Proof.
  intros Hin Ht Hix. unfold client_handle_close, get_target, get_context. rewrite Hin. simpl. rewrite Ht. unfold close. simpl. rewrite Hin.
  eexists. split; [done|]. unfold forget. rewrite Ht. simpl. rewrite (decide_True _ _ Hix). by case_decide.
Qed.

(** An entry of the client's table changes its state. *)
Lemma made_update (L : gmap Z ContextInfo) id info info' : L !! id = Some info → target info' = target info →
  ∀ id' t, (∃ i, L !! id' = Some i ∧ target i = Some t) → ∃ i, <[id := info']> L !! id' = Some i ∧ target i = Some t.
Proof.
  intros Hin Ht id' t (i & Hi & Hti). destruct (decide (id' = id)) as [->|Hne].
  - exists info'. rewrite lookup_insert_eq. simplify_eq. by rewrite Ht.
  - exists i. by rewrite lookup_insert_ne.
Qed.

Lemma client_capsule_inv p now : inv p → inv (step p (ClientCapsule now)).
Proof.
  intros Hinv. cbn [step]. destruct (down p) as [|k d] eqn:Ed; [done|].
  destruct Hinv as [Hc Hn Hl Hnr Hrn Hrl Hix Ht Hcnt Ha Hs]. rewrite Ed in Hc.
  pose proof (core_down _ _ _ _ Hc) as Hdn. inversion_clear Hdn as [|? ? (t & (info & Hin & Hp & Hta) & Hcase) _].
  destruct Hcase as [[Hk Hreg]|[Hk HR]].
  - set (info' := info <| state := Active |> <| last_activity := now |>).
    pose proof (core_answer _ _ _ _ _ _ info' _ Hc Hin Hta Hta Hreg) as Hc'.
    pose proof (made_update _ _ info info' Hin eq_refl) as Hmade. rewrite Hk. cbn [client_handle_capsule].
    destruct (client_ack_eq now (cap_id k) (client p) info Hin Hp) as (c' & -> & Htg & Hti & Hlc & Hrc & Hnx).
    split; simpl; rewrite ?Hlc, ?Hrc, ?Hnx, ?Htg, ?Hti, ?Hix; try done.
    + intros id i [[<- <-]|[? Hi]]%lookup_insert_Some; [by apply (Hl _ info)|by apply (Hl _ i)].
    + apply (targets_update _ _ _ _ info info' Hin Hta); [by rewrite Hp|done..].
    + eapply Forall_impl; [exact Hs|]. intros sd Hsd. unfold made. simpl. rewrite Hlc. by apply Hmade.
  - pose proof (core_answer _ _ _ _ _ _ (closed now info) _ Hc Hin Hta Hta HR) as Hc'.
    pose proof (made_update _ _ info (closed now info) Hin eq_refl) as Hmade. rewrite Hk. cbn [client_handle_capsule].
    assert (Hopen : client_targets (client p) !! t = Some (cap_id k)) by (apply Ht; exists info; by rewrite Hp).
    rewrite <- Hix in Hopen. destruct (client_close_eq now (cap_id k) (client p) info t Hin Hta Hopen) as (c' & -> & Htg & Hti & Hlc & Hrc & Hnx).
    split; simpl; rewrite ?Hlc, ?Hrc, ?Hnx, ?Htg, ?Hti, ?Hix; try done.
    + intros id i [[<- <-]|[? Hi]]%lookup_insert_Some; [by apply (Hl _ info)|by apply (Hl _ i)].
    + apply (targets_update _ _ _ _ info (closed now info) Hin Hta); [by rewrite Hp|done..].
    + eapply Forall_impl; [exact Hs|]. intros sd Hsd. unfold made. simpl. rewrite Hlc. by apply Hmade.
Qed.

(** *** The relay's own contexts *)

Lemma allocate_cases m : allocate_local m = (Err IdSpaceExhausted, m)
  ∨ allocate_local m = (Ok (next_local_id m), m <| next_local_id := next_local_id m + 2 |>).
Proof.
  unfold allocate_local, VarInt.MAX, VarInt.from_u64. change (Z.shiftl 1 62 - 1) with (2 ^ 62 - 1).
  destruct (Z.gtb_spec (next_local_id m) (2 ^ 62 - 1)); [by left|].
  rewrite Z.geb_leb, (proj2 (Z.leb_gt _ _)), (proj2 (Z.ltb_lt _ _)) by lia. by right.
Qed.

(** They are never active, for the client is not told of them. *)
Lemma active_count_remote m : (∀ id info, local_contexts m !! id = Some info → state info = Pending) →
  active_count m = base.size (filter active (remote_contexts m)).
Proof.
  intros Hp. unfold active_count. rewrite (map_empty_filter_2 active (local_contexts m)), map_size_empty; [done|].
  intros id info Hin. unfold active. simpl. by rewrite (Hp id info Hin).
Qed.

Lemma context_for_target_spec now t s : ∃ s', (context_for_target now t s).2 = s' ∧ sstate s' = sstate s ∧ max_contexts s' = max_contexts s
  ∧ remote_contexts (context_manager s') = remote_contexts (context_manager s)
  ∧ (next_local_id (context_manager s') = next_local_id (context_manager s)
     ∨ next_local_id (context_manager s') = next_local_id (context_manager s) + 2)
  ∧ (local_contexts (context_manager s') = local_contexts (context_manager s)
     ∨ local_contexts (context_manager s') = <[next_local_id (context_manager s) := mk_info (Some t) Pending now now]> (local_contexts (context_manager s))).
Proof.
  unfold context_for_target. destruct (target_to_context s !! t) as [id|]; [by eexists; split_and!; auto|].
  destruct (allocate_cases (context_manager s)) as [->| ->]; [eexists; split_and!; simpl; auto|].
  unfold register_compressed. simpl. destruct (target_index _ !! t); eexists; split_and!; simpl; auto.
Qed.

(** A packet from a target takes at most an identifier of the relay's own. *)
Lemma from_target_inv p now source payload : inv p → inv (step p (FromTarget now source payload)).
Proof.
  intros [Hc Hn Hl Hnr Hrn Hrl Hix Ht Hcnt Ha Hs]. cbn [step].
  destruct (context_for_target_spec now source (session p)) as (s' & Heq & Hst & Hmx & Hrm & Hnx & Hlc).
  assert (Hcase : (handle_target_datagram now source payload (session p)).2 = session p
    ∨ (handle_target_datagram now source payload (session p)).2 = s').
  { unfold handle_target_datagram, existing_context_for_target. destruct (target_to_context (session p) !! source), (client_address (session p)); auto.
    destruct (context_for_target now source (session p)) as [[]]; auto. }
  destruct Hcase as [->| ->]; [by split|].
  assert (Hpend : ∀ id info, local_contexts (context_manager s') !! id = Some info → id mod 2 = 1 ∧ state info = Pending).
  { intros id info Hin. destruct Hlc as [Hlc|Hlc]; rewrite Hlc in Hin; [by apply Hrl|].
    apply lookup_insert_Some in Hin as [[<- <-]|[_ Hin]]; [done|by apply Hrl]. }
  split; simpl; rewrite ?Hrm, ?Hst, ?Hmx; try done.
  - destruct Hnx as [->| ->]; [done|]. rewrite Z.add_mod, Hrn by lia. done.
  - rewrite (active_count_remote _ (λ id info Hin, proj2 (Hrl id info Hin))) in Hcnt.
    by rewrite (active_count_remote _ (λ id info Hin, proj2 (Hpend id info Hin))), Hrm.
Qed.

Lemma relaying_step_inv p e : inv p → inv (step p e).
Proof.
  intros Hp. destruct e; [by apply create_inv|by apply relay_capsule_inv|by apply client_capsule_inv| |by apply from_target_inv|].
  - cbn [step]. destruct (sent p !! i) as [[[id t] payload]|]; [|done]. by destruct Hp.
  - by destruct Hp.
Qed.

Lemma relaying_run_inv p evs : inv p → inv (run p evs).
Proof. revert p. induction evs as [|e evs IH]; intros p Hp; [done|]. by apply IH, relaying_step_inv. Qed.

Lemma relaying_start_inv limit timeout max_contexts now now_ms a : inv (start limit timeout max_contexts now now_ms a).
Proof.
  split; simpl; try done; [| |unfold active_count; simpl; rewrite map_filter_empty, map_size_empty; lia].
  - split; simpl; try done. constructor.
  - intros t id. split; [done|]. by intros (? & ? & _).
Qed.

(** *** What the relay does with the client's datagrams *)

(** A datagram on a context the relay has goes to the target of that context, whole. *)
Lemma resolve_registered p id t payload : inv p → made p id t →
  resolve_raw_datagram (cd_encode_into (mk_compressed id payload)) (session p) =
    if decide (is_Some (remote p !! id)) then Some (wire_addr t, payload)
    else match ud_decode (cd_encode_into (mk_compressed id payload)) with Ok d => Some (ud_target d, ud_payload d) | Err _ => None end.
Proof.
  intros [Hc Hn Hl _ _ Hrl _ _ _ _ _] (info & Hin & Ht). unfold resolve_raw_datagram, cd_encode_into. cbn [cd_context_id cd_payload].
  destruct (Hl id info Hin) as [Heven [? ?]].
  rewrite MasqueWire.decode_codec by (unfold is_u; lia).
  unfold get_target, get_context.
  destruct (local_contexts (context_manager (session p)) !! id) as [i|] eqn:El; [destruct (Hrl id i El); lia|].
  destruct (remote p !! id) as [i|] eqn:Er; [|by rewrite decide_False by by intros [? ?]].
  rewrite decide_True by done. destruct (core_remote _ _ _ _ Hc id i Er) as (info' & t' & ? & ? & i' & ? & ? & Hti).
  simplify_eq. simpl. by rewrite Hti.
Qed.

(** What is left of a datagram on an unknown context: its payload, read as an address. *)
Lemma inline_reading id payload : is_u 62 id → (∀ rest, payload ≠ 4 :: rest ∧ payload ≠ 6 :: rest) →
  ud_decode (cd_encode_into (mk_compressed id payload)) = Err unexpected_end.
Proof.
  intros Hid Hp. unfold ud_decode, cd_encode_into. cbn [cd_context_id cd_payload]. rewrite MasqueWire.decode_codec by done.
  destruct payload as [|b r]; [done|]. rewrite decode_u8_cons. unfold decode_ip.
  destruct (Z.eqb_spec b 4) as [->|]; [by destruct (Hp r)|]. destruct (Z.eqb_spec b 6) as [->|]; [by destruct (Hp r)|done].
Qed.

(** Every resolution so far, of a datagram whose payload cannot be taken for an address. *)
Definition resolution_ok (d : Z * SocketAddr * list Z * option (SocketAddr * list Z)) : Prop :=
  let '(id, t, payload, r) := d in
  (∀ rest, payload ≠ 4 :: rest ∧ payload ≠ 6 :: rest) → r = None ∨ r = Some (wire_addr t, payload).

Lemma run_resolved p evs : inv p → Forall resolution_ok (resolved p) → Forall resolution_ok (resolved (run p evs)).
Proof.
  revert p. induction evs as [|e evs IH]; intros p Hp Hr; [done|]. apply IH; [by apply relaying_step_inv|].
  destruct e as [now t payload|now|now|i|now source payload|now]; cbn [step]; try (repeat case_match; done).
  destruct (sent p !! i) as [[[id t] payload]|] eqn:Es; [|done]. apply Forall_app. split; [done|]. apply Forall_singleton.
  intros Hpl. pose proof (Forall_lookup_1 _ _ _ _ (inv_sent p Hp) Es) as Hmade. cbn [fst snd] in Hmade.
  rewrite (resolve_registered p id t payload Hp Hmade). case_decide; [by right|left].
  destruct Hmade as (info & Hin & _). destruct (inv_local p Hp id info Hin), (inv_next p Hp).
  by rewrite inline_reading by (done || unfold is_u; lia).
Qed.

(** The context of a target is used once it is active. *)
Lemma usable_open p t : inv p →
  match client_targets (client p) !! t with
  | Some id => usable_context t (client p) = Some id ∧ local_is (local p) Active id t
      ∨ usable_context t (client p) = None ∧ local_is (local p) Pending id t
  | None => usable_context t (client p) = None
  end.
Proof.
  intros Hp. unfold usable_context. destruct (client_targets (client p) !! t) as [id|] eqn:Et; [|done].
  apply (inv_targets p Hp) in Et as (info & Hin & Ht & Hs). unfold get_context. rewrite Hin.
  destruct (core_local _ _ _ _ (inv_core p Hp) id info Hin) as (t' & _ & Hst).
  destruct (state info) eqn:Es; [right|left|done|done].
  - split; [by rewrite decide_False|]. by exists info.
  - split; [by rewrite decide_True|]. by exists info.
Qed.

(** A target has one open context. *)
Lemma local_unique p t id st st' id' : inv p → client_targets (client p) !! t = Some id →
  local_is (local p) st id t → local_is (local p) st' id' t → st' ≠ Closed → id' = id ∧ st' = st.
Proof.
  intros Hp Et (info & ? & ? & _) (info' & ? & ? & ?) Hs.
  assert (He : client_targets (client p) !! t = Some id') by (apply (inv_targets p Hp); exists info'; by subst).
  by simplify_eq.
Qed.

Section claims.
Context (limit timeout max_contexts now now_ms : Z) (client_addr : SocketAddr) (evs : list Ev).

(** C16: however the client's datagrams, the capsules and the packets from targets interleave, the
    two ends agree on the contexts: one the client uses is registered at the relay for the
    client's target; once no capsule is under way every context is answered; the relay stays
    within its limit; every datagram sent on a context the relay has is resolved to exactly the
    target and the payload the client meant; and a datagram on a context the relay does not have
    is dropped, unless its payload reads as an address. *)
Theorem relay_context_agreement :
  let p := run (start limit timeout max_contexts now now_ms client_addr) evs in
  (∀ id t, local_is (local p) Active id t → registered (remote p) id t)
  ∧ (up p = [] → down p = [] → ∀ id info, local p !! id = Some info → state info = Active ∨ state info = Closed)
  ∧ Z.of_nat (active_count (context_manager (session p))) ≤ Z.max 0 (Session.max_contexts (session p))
  ∧ (∀ id t payload, (id, t, payload) ∈ sent p → is_Some (remote p !! id) →
       resolve_raw_datagram (cd_encode_into (mk_compressed id payload)) (session p) = Some (wire_addr t, payload))
  ∧ Forall resolution_ok (resolved p).
Proof.
  cbv zeta. pose proof (relaying_run_inv _ evs (relaying_start_inv limit timeout max_contexts now now_ms client_addr)) as Hp.
  pose proof (run_resolved _ evs (relaying_start_inv limit timeout max_contexts now now_ms client_addr) (Forall_nil_2 _)) as Hres.
  set (p := run _ evs) in *. split_and!; [| |apply Hp| |done].
  - intros id t (info & Hin & Hs & Ht). destruct (core_local _ _ _ _ (inv_core p Hp) id info Hin) as (t' & Ht' & Hst).
    rewrite Hs in Hst. by simplify_eq.
  - intros Hu Hd id info Hin. destruct (core_local _ _ _ _ (inv_core p Hp) id info Hin) as (t' & Ht' & Hst).
    rewrite Hu, Hd in Hst. destruct (state info); auto; [by apply elem_of_nil in Hst|done].
  - intros id t payload Hin Hr. pose proof (proj1 (Forall_forall _ _) (inv_sent p Hp) _ Hin) as Hmade. cbn [fst snd] in Hmade.
    by rewrite (resolve_registered p id t payload Hp Hmade), decide_True.
Qed.

(** What a client's call for a datagram returns, in every state the client and its relay can
    reach: a datagram on the context of its target once that is acknowledged; an error, and one
    identifier less, while the answer of the relay is under way; and with no open context for
    the target a datagram on a fresh context together with its announcement, unless the
    identifiers are used up. *)
Theorem relay_create_outcomes (t : SocketAddr) (payload : list Z) (at_ : Z) :
  let p := run (start limit timeout max_contexts now now_ms client_addr) evs in
  let (c, r) := create_datagram at_ t payload (client p) in
  (∀ id, local_is (local p) Active id t → r = Ok (mk_compressed id payload, None) ∧ c = client p)
  ∧ (∀ id, local_is (local p) Pending id t → r = Err (if next p <? 2 ^ 62 then SessionInvalidState else ResourceExhausted)
       ∧ c = if next p <? 2 ^ 62 then id_lost (client p) else client p)
  ∧ ((∀ id, ¬ is_open (local p) id t) →
       if next p <? 2 ^ 62
       then r = Ok (mk_compressed (next p) payload, Some (create_assign_capsule (next p) t))
         ∧ local p !! next p = None ∧ local_is (local_contexts (contexts c)) Pending (next p) t
       else r = Err ResourceExhausted ∧ c = client p).
Proof.
  cbv zeta. pose proof (relaying_run_inv _ evs (relaying_start_inv limit timeout max_contexts now now_ms client_addr)) as Hp.
  set (p := run _ evs) in *. clearbody p. pose proof (inv_next p Hp) as Hn. rewrite create_eq by lia.
  pose proof (usable_open p t Hp) as Hu. pose proof (inv_index p Hp) as Hix.
  destruct (client_targets (client p) !! t) as [id|] eqn:Et.
  - assert (Hopen : is_open (local p) id t) by by apply (inv_targets p Hp).
    rewrite Hix, Et. destruct Hu as [[-> Ha]|[-> Ha]].
    + split_and!; [intros id' Hl; by rewrite (proj1 (local_unique p t id _ _ _ Hp Et Ha Hl ltac:(done)))| |intros Hno; by destruct (Hno id)].
      intros id' Hl. by destruct (local_unique p t id _ _ _ Hp Et Ha Hl ltac:(done)).
    + destruct (next p <? 2 ^ 62); (split_and!; [|by intros id' Hl|intros Hno; by destruct (Hno id)]);
      intros id' Hl; by destruct (local_unique p t id _ _ _ Hp Et Ha Hl ltac:(done)).
  - assert (Hno : ∀ st id, local_is (local p) st id t → st = Closed).
    { intros st id (info & ? & <- & ?). destruct (decide (state info = Closed)); [done|].
      assert (He : client_targets (client p) !! t = Some id) by (apply (inv_targets p Hp); by exists info). by simplify_eq. }
    rewrite Hu, Hix, Et. destruct (Z.ltb_spec (next p) (2 ^ 62)); (split_and!; [intros id Hl; by apply Hno in Hl..|]);
      intros _; [|done].
    split_and!; [done| |by eexists; simpl; rewrite lookup_insert_eq].
    destruct (local p !! next p) as [info|] eqn:E; [|done]. apply (inv_local p Hp) in E. lia.
Qed.

End claims.

(** *** Runs that go wrong *)

Definition peer : SocketAddr := V4 [192; 0; 2; 1] 9000.
Definition fresh : Pair := start 0 0 100 0 0 (V4 [198; 51; 100; 7] 4433).

(** A datagram that overtakes the announcement of its context, with a payload whose first byte is
    4, is sent to an address taken from the payload. *)
Example overtaken_datagram_misread :
  resolved (run fresh [Create 0 peer [4; 10; 0; 0; 1; 0; 80; 99]; RelayDatagram 0])
  = [(2, peer, [4; 10; 0; 0; 1; 0; 80; 99], Some (V4 [10; 0; 0; 1] 80, [99]))].
Proof. vm_compute. reflexivity. Qed.

(** A target that contacted the relay first has a context of the relay's own, which the client is
    not told of; the client cannot read its packets, and its own context for it is refused. *)
Example contacted_target_unreachable :
  let p := run fresh [FromTarget 0 peer [7]; Create 1 peer [8]; RelayCapsule 2] in
  (handle_target_datagram 0 peer [7] (session fresh)).1 = Ok [1; 7]
  ∧ decode_datagram [1; 7] (client p) = Err ProtocolError
  ∧ down p = [CCompressionClose 2].
Proof. vm_compute. done. Qed.

(** The second datagram to a target fails while the answer to the first is under way. *)
Example second_datagram_fails :
  (create_datagram 1 peer [9] (client (run fresh [Create 0 peer [8]]))).2 = Err SessionInvalidState.
Proof. vm_compute. reflexivity. Qed.

(** Datagrams on a context that was closed are still forwarded. *)
Example closed_context_forwards :
  let s := session (run fresh [Create 0 peer [8]; RelayCapsule 1]) in
  let s' := (handle_compression_close 2 2 s).1 in
  get_target 2 (context_manager s') = Some peer ∧ resolve_raw_datagram [2; 8] s' = Some (peer, [8]).
Proof. vm_compute. done. Qed.

End Relaying.

(** ** The limits of a session *)

Module SessionLimits.
Import NatFrames Session.

(** The bytes let through by a sequence of checks, each with the time of the clock. *)
Fixpoint rate_run (reqs : list (Z * Z)) (s : RelaySession) (total : Z) : RelaySession * Z :=
  match reqs with
  | [] => (s, total)
  | (now_ms, bytes) :: reqs =>
      let (s, ok) := check_rate_limit now_ms bytes s in
      rate_run reqs s (if ok then total + bytes else total)
  end.

(** What was let through since [t0]: [limit] bytes for every second before the current window,
    and those of the window. *)
Definition window_ok (t0 total : Z) (s : RelaySession) : Prop :=
  t0 ≤ window_start_ms s ∧ ∃ cur, 0 ≤ cur ≤ bandwidth_limit s ∧ cur ≤ bytes_in_window s
    ∧ total ≤ bandwidth_limit s * ((window_start_ms s - t0) / 1000) + cur.

(** Times that do not go back and end by [until], and sizes of datagrams. *)
Fixpoint reqs_ok (from until : Z) (reqs : list (Z * Z)) : Prop :=
  match reqs with
  | [] => from ≤ until
  | (at_, bytes) :: reqs => from ≤ at_ ∧ is_u 32 bytes ∧ reqs_ok at_ until reqs
  end.

Lemma check_window t0 total s now_ms bytes : 0 < bandwidth_limit s < 2 ^ 63 → is_u 32 bytes → bytes_in_window s < 2 ^ 63 →
  window_start_ms s ≤ now_ms → window_ok t0 total s →
  let (s', ok) := check_rate_limit now_ms bytes s in bandwidth_limit s' = bandwidth_limit s
    ∧ window_start_ms s' ≤ now_ms ∧ bytes_in_window s' < 2 ^ 63 ∧ window_ok t0 (if ok then total + bytes else total) s'.
Proof.
  intros Hlim [Hb1 Hb2] Hbw Hnow (Ht0 & cur & Hcur & Hle & Htot). unfold check_rate_limit, saturating_sub.
  rewrite (proj2 (Z.eqb_neq _ _)) by lia. rewrite Z.geb_leb. destruct (Z.leb_spec 1000 (Z.max 0 (now_ms - window_start_ms s))).
  - simpl. split_and!; [done|lia|lia|].
    assert (Hdiv : (window_start_ms s - t0) / 1000 + 1 ≤ (now_ms - t0) / 1000).
    { rewrite <- Z.div_add by lia. apply Z.div_le_mono; lia. }
    split; simpl; [lia|]. destruct (Z.leb_spec bytes (bandwidth_limit s)); [exists bytes|exists 0]; split_and!; nia.
  - unfold wrapping_add, wrapping_sub. rewrite (wrap_small 64 (bytes_in_window s + bytes)) by (unfold is_u; lia).
    rewrite Z.add_simpl_r, (wrap_small 64 (bytes_in_window s)) by (unfold is_u; lia). rewrite Z.gtb_ltb.
    destruct (Z.ltb_spec (bandwidth_limit s) (bytes_in_window s + bytes)); simpl; (split_and!; [done|lia|lia|]);
      (split; simpl; [done|]); [by exists cur|exists (cur + bytes); lia].
Qed.

Lemma rate_run_window t0 until reqs from s total : 0 < bandwidth_limit s < 2 ^ 63 → reqs_ok from until reqs →
  window_start_ms s ≤ from → bytes_in_window s < 2 ^ 63 → window_ok t0 total s →
  let (s', total') := rate_run reqs s total in
  bandwidth_limit s' = bandwidth_limit s ∧ window_start_ms s' ≤ until ∧ window_ok t0 total' s'.
Proof.
  revert from s total. induction reqs as [|[at_ bytes] reqs IH]; intros from s total Hlim Hok Hfrom Hbw Hw; simpl.
  - split_and!; try done. simpl in Hok. lia.
  - destruct Hok as (Hat & Hb & Hok). pose proof (check_window t0 total s at_ bytes Hlim Hb Hbw ltac:(lia) Hw) as Hs.
    destruct (check_rate_limit at_ bytes s) as [s1 ok]. destruct Hs as (Hl & Hn & Hbw1 & Hw1).
    pose proof (IH at_ s1 _ ltac:(by rewrite Hl) Hok Hn Hbw1 Hw1) as Hr. destruct (rate_run reqs s1 _) as [s' total'].
    by rewrite <- Hl.
Qed.

(** The table of destinations has a slot per address, and never more slots than it may. *)
Lemma bump_first_addrs a bytes to_target es es' : bump_first a bytes to_target es = Some es' → addr <$> es' = addr <$> es.
Proof.
  revert es'. induction es as [|e es IH]; intros es'; simpl; [done|]. case_decide as Ha.
  - intros [= <-]. simpl. f_equal. by destruct to_target.
  - destruct (bump_first a bytes to_target es) as [es1|]; [|done]. intros [= <-]. simpl. f_equal. by apply IH.
Qed.

Lemma bump_first_none a bytes to_target es : bump_first a bytes to_target es = None → a ∉ addr <$> es.
Proof.
  induction es as [|e es IH]; simpl; [set_solver|]. case_decide; [done|].
  destruct (bump_first a bytes to_target es); [done|]. intros _. specialize (IH eq_refl). set_solver.
Qed.

Lemma min_entry_range i es j m : min_entry i es = Some (j, m) → (i ≤ j < i + length es)%nat.
Proof.
  revert i j m. induction es as [|e es IH]; intros i j m; simpl; [done|].
  destruct (min_entry (S i) es) as [[j' m']|] eqn:E; [specialize (IH _ _ _ E); destruct (_ <? _)|]; intros [= <- <-]; lia.
Qed.

Lemma swap_remove_snoc i l e : (i ≤ length l)%nat → swap_remove i (l ++ [e]) = <[i := e]> l.
Proof.
  intros Hi. unfold swap_remove. rewrite last_snoc, length_app. simpl.
  replace (length l + 1 - 1)%nat with (length l) by lia. destruct (decide (i < length l)%nat).
  - rewrite insert_app_l by done. rewrite take_app_length' by (by rewrite length_insert). done.
  - assert (i = length l) as -> by lia. rewrite (list_insert_ge l) by lia.
    rewrite insert_app_r_alt by lia. rewrite take_app_length. done.
Qed.

Lemma nodup_insert (l : list SocketAddr) i x : NoDup (l ++ [x]) → NoDup (<[i := x]> l).
Proof.
  intros Hn. apply NoDup_app in Hn as (Hl & Hx & _). apply NoDup_alt. intros j1 j2 y H1 H2.
  assert (Hnot : ∀ j, l !! j = Some x → False). { intros j Hj. apply (Hx x); [by eapply list_elem_of_lookup_2|by left]. }
  apply list_lookup_insert_Some in H1 as [(? & ? & ?)|[? H1]]; apply list_lookup_insert_Some in H2 as [(? & ? & ?)|[? H2]]; subst; try done.
  - by destruct (Hnot _ H2).
  - by destruct (Hnot _ H1).
  - by eapply NoDup_lookup.
Qed.

(** Whatever is recorded, the table has one slot per address and never more than eight. *)
Definition table_ok (t : RelayTargetTable) : Prop :=
  NoDup (addr <$> entries t) ∧ (length (entries t) ≤ RELAY_SESSION_TARGET_SLOTS)%nat.

Lemma record_ok a bytes to_target t : table_ok t → table_ok (record a bytes to_target t).
Proof.
  intros [Hn Hl]. unfold record. destruct (bump_first a bytes to_target (entries t)) as [es|] eqn:Eb.
  { pose proof (bump_first_addrs _ _ _ _ _ Eb) as Ha. split; simpl; [by rewrite Ha|].
    rewrite <- (length_fmap addr es), Ha, length_fmap. done. }
  apply bump_first_none in Eb.
  assert (Hadd : ∀ es, NoDup (addr <$> es) → (addr <$> es ⊆ addr <$> entries t) → NoDup (addr <$> (es ++ [entry_new a bytes to_target]))).
  { intros es He Hsub. rewrite fmap_app. apply NoDup_app. split; [done|]. split; [|apply NoDup_singleton].
    intros x Hx ->%list_elem_of_singleton. apply Eb, Hsub. by destruct to_target. }
  destruct (Nat.leb_spec RELAY_SESSION_TARGET_SLOTS (length (entries t))).
  - destruct (min_entry 0 (entries t)) as [[i m]|] eqn:Em; [|done]. destruct (_ <=? _); [done|].
    apply min_entry_range in Em. destruct (entries t) as [|e es _] eqn:Ee using rev_ind; [simpl in *; lia|].
    rewrite length_app in *. simpl in *. rewrite swap_remove_snoc by lia. split; simpl.
    + apply Hadd; rewrite list_fmap_insert.
      * apply nodup_insert. by rewrite fmap_app in Hn.
      * rewrite fmap_app. intros x [i' Hx]%list_elem_of_lookup. apply list_lookup_insert_Some in Hx as [(_ & <- & _)|[_ Hx]].
        -- apply elem_of_app. right. by left.
        -- apply elem_of_app. left. by eapply list_elem_of_lookup_2.
    + rewrite length_app, length_insert. simpl. lia.
  - split; simpl; [by apply Hadd|]. rewrite length_app. simpl. lia.
Qed.

Section claims.

(** With a limit of [limit] bytes per second, a session lets through, of any sequence of
    datagrams checked between [t0] and [until], at most [limit] bytes for every second begun
    since [t0]. *)
Theorem relay_bandwidth_bound (limit timeout max_contexts now t0 until : Z) (reqs : list (Z * Z))
    (Hlimit : 0 < limit < 2 ^ 63) (Hreqs : reqs_ok t0 until reqs) :
  (rate_run reqs (session_new limit timeout max_contexts now t0) 0).2 ≤ limit * ((until - t0) / 1000 + 1).
Proof.
  pose proof (rate_run_window t0 until reqs t0 (session_new limit timeout max_contexts now t0) 0 Hlimit Hreqs) as Hr.
  destruct (rate_run reqs _ 0) as [s' total]. destruct Hr as (Hl & Hu & Ht0 & cur & Hcur & _ & Htot); simpl; try lia.
  - split; [done|]. exists 0. simpl. rewrite Z.sub_diag, Z.div_0_l by lia. lia.
  - rewrite Hl in *. simpl in *.
    assert ((window_start_ms s' - t0) / 1000 ≤ (until - t0) / 1000) by (apply Z.div_le_mono; lia). nia.
Qed.

(** A burst within the limit, a second one over it, and a datagram a second later. *)
Definition sample_reqs : list (Z * Z) := [(5000, 600); (5400, 600); (5900, 400); (6100, 900)].

Lemma relay_bandwidth_bound_witness :
  0 < 1000 < 2 ^ 63 ∧ reqs_ok 5000 6100 sample_reqs ∧
  (rate_run sample_reqs (session_new 1000 0 0 0 5000) 0).2 ≤ 1000 * ((6100 - 5000) / 1000 + 1).
Proof.
  assert (Hl : 0 < 1000 < 2 ^ 63) by lia.
  assert (Hr : reqs_ok 5000 6100 sample_reqs) by (simpl; unfold is_u; lia).
  exact (conj Hl (conj Hr (relay_bandwidth_bound 1000 0 0 0 5000 6100 sample_reqs Hl Hr))).
Defined.

End claims.

(** A datagram over the limit that opens a window is refused and counted: what fits is refused
    for a second. *)
Example refused_datagram_fills_window :
  let s := session_new 1000 0 0 0 0 in
  let (s', ok) := check_rate_limit 2000 5000 s in ok = false ∧ (check_rate_limit 2001 10 s').2 = false.
Proof. vm_compute. done. Qed.

End SessionLimits.
