(* ===== verification/Frames.v ===== *)
(** * QUIC frames

    Models [src/frame.rs]: the frames of a packet payload, their encoders, and the
    iterator that parses a received payload.  ACK frames are in [AckFrame], the frames
    with addresses in [NatFrames]; the frames written in place by
    [StreamsState::write_control_frames] and [Connection::populate_packet] are here too.

    A [StreamId] is its number.  The bytes already written when an encoding fails are
    not represented. *)

From Stdlib Require Import String.
From S2P Require Import Prelude Coding RangeSets Spaces AckFrame AckFrequency Cids NatFrames.

Module Frames.
Import VarInt NatFrames.
Import AckFrame(Ack, IterErr, IterUnexpectedEnd, InvalidFrameId, Malformed, from_end, decode_ack).
Import CidQueue(NewConnectionId, mk_new_cid).
Import AckFrequency(AckFrequencyFrame, mk_frame).

Inductive Dir := Bi | Uni.

(** ** The frames *)

Record Stream := mk_stream { st_id : Z; st_offset : Z; fin : bool; st_data : list Z }.
Record StreamMeta := mk_stream_meta { m_id : Z; m_offsets : range; m_fin : bool }.
Record Crypto := mk_crypto { cr_offset : Z; cr_data : list Z }.
Record ResetStream := mk_reset_stream { rs_id : Z; rs_error_code : Z; final_offset : Z }.
Record StopSending := mk_stop_sending { ss_id : Z; ss_error_code : Z }.
Record ConnectionClose := mk_conn_close { cc_error_code : Z; frame_type : option Z; cc_reason : list Z }.
Record ApplicationClose := mk_app_close { ac_error_code : Z; ac_reason : list Z }.
Inductive Close := CloseConnection (c : ConnectionClose) | CloseApplication (c : ApplicationClose).

Inductive Frame :=
| Padding
| Ping
| FAck (a : Ack)
| FResetStream (r : ResetStream)
| FStopSending (s : StopSending)
| FCrypto (c : Crypto)
| FNewToken (token : list Z)
| FStream (s : Stream)
| MaxData (x : Z)
| MaxStreamData (id offset : Z)
| MaxStreams (dir : Dir) (count : Z)
| DataBlocked (offset : Z)
| StreamDataBlocked (id offset : Z)
| StreamsBlocked (dir : Dir) (limit : Z)
| FNewConnectionId (c : NewConnectionId)
| RetireConnectionId (sequence : Z)
| PathChallenge (token : Z)
| PathResponse (token : Z)
| FClose (c : Close)
| FDatagram (data : list Z)
| FAckFrequency (a : AckFrequencyFrame)
| ImmediateAck
| HandshakeDone
| FAddAddress (a : AddAddress)
| FPunchMeNow (p : PunchMeNow)
| FRemoveAddress (sequence : Z)
| FObservedAddress (o : ObservedAddress)
| FTryConnectTo (t : TryConnectTo)
| FTryConnectToResponse (t : TryConnectToResponse).

Definition STREAM_TYS : Z * Z := (0x08, 0x0f).
Definition DATAGRAM_TYS : Z * Z := (0x30, 0x31).
Definition in_tys (r : Z * Z) (ty : Z) : bool := (r.1 <=? ty) && (ty <=? r.2).

Definition flag (b : bool) (v : Z) : Z := if b then v else 0.

(** [Frame::ty]. *)
Definition ty (f : Frame) : Z :=
  match f with
  | Padding => code PADDING
  | FResetStream _ => code RESET_STREAM
  | FClose (CloseConnection _) => code CONNECTION_CLOSE
  | FClose (CloseApplication _) => code APPLICATION_CLOSE
  | MaxData _ => code MAX_DATA
  | MaxStreamData _ _ => code MAX_STREAM_DATA
  | MaxStreams Bi _ => code MAX_STREAMS_BIDI
  | MaxStreams Uni _ => code MAX_STREAMS_UNI
  | Ping => code PING
  | DataBlocked _ => code DATA_BLOCKED
  | StreamDataBlocked _ _ => code STREAM_DATA_BLOCKED
  | StreamsBlocked Bi _ => code STREAMS_BLOCKED_BIDI
  | StreamsBlocked Uni _ => code STREAMS_BLOCKED_UNI
  | FStopSending _ => code STOP_SENDING
  | RetireConnectionId _ => code RETIRE_CONNECTION_ID
  | FAck _ => code ACK
  | FStream x => Z.lor (Z.lor STREAM_TYS.1 (flag (fin x) 0x01)) (flag (negb (st_offset x =? 0)) 0x04)
  | PathChallenge _ => code PATH_CHALLENGE
  | PathResponse _ => code PATH_RESPONSE
  | FNewConnectionId _ => code NEW_CONNECTION_ID
  | FCrypto _ => code CRYPTO
  | FNewToken _ => code NEW_TOKEN
  | FDatagram _ => DATAGRAM_TYS.1
  | FAckFrequency _ => code ACK_FREQUENCY
  | ImmediateAck => code IMMEDIATE_ACK
  | HandshakeDone => code HANDSHAKE_DONE
  | FAddAddress a => code (if is_v6 (aa_address a) then ADD_ADDRESS_IPV6 else ADD_ADDRESS_IPV4)
  | FPunchMeNow p => code (if is_v6 (pm_address p) then PUNCH_ME_NOW_IPV6 else PUNCH_ME_NOW_IPV4)
  | FRemoveAddress _ => code REMOVE_ADDRESS
  | FObservedAddress o => code (if is_v6 (oa_address o) then OBSERVED_ADDRESS_IPV6 else OBSERVED_ADDRESS_IPV4)
  | FTryConnectTo t => code (if is_v6 (target_address t) then TRY_CONNECT_TO_IPV6 else TRY_CONNECT_TO_IPV4)
  | FTryConnectToResponse t =>
    code (if is_v6 (source_address t) then TRY_CONNECT_TO_RESPONSE_IPV6 else TRY_CONNECT_TO_RESPONSE_IPV4)
  end.

Definition is_ack_eliciting (f : Frame) : bool :=
  match f with FAck _ | Padding | FClose _ => false | _ => true end.

(** ** Encoders *)

(** [StreamId::encode]: a number that does not fit is written as [VarInt::MAX]. *)
Definition stream_id_encode (id : Z) : list Z :=
  match from_u64 id with Ok v => varint_encode v | Err _ => varint_encode VarInt.MAX end.

(** [max_len - 3 - ...] in [usize]; the reason is cut to what is left. *)
Definition conn_close_encode (c : ConnectionClose) (max_len : Z) : result (list Z) VarIntBoundsExceeded :=
  let? t := write_var (code CONNECTION_CLOSE) in
  let? ec := write_var (cc_error_code c) in
  let fty := default 0 (frame_type c) in
  let? f := write_var fty in
  let max_len := wrapping_sub 64 (wrapping_sub 64 (wrapping_sub 64 max_len 3) (size fty)) (size (zlen (cc_reason c))) in
  let actual_len := Z.min (zlen (cc_reason c)) max_len in
  let? l := write_var actual_len in
  Ok (t ++ ec ++ f ++ l ++ ztake actual_len (cc_reason c)).

Definition app_close_encode (c : ApplicationClose) (max_len : Z) : result (list Z) VarIntBoundsExceeded :=
  let? t := write_var (code APPLICATION_CLOSE) in
  let? ec := write_var (ac_error_code c) in
  let max_len := wrapping_sub 64 (wrapping_sub 64 max_len 3) (size (zlen (ac_reason c))) in
  let actual_len := Z.min (zlen (ac_reason c)) max_len in
  let? l := write_var actual_len in
  Ok (t ++ ec ++ l ++ ztake actual_len (ac_reason c)).

Definition close_encode (c : Close) (max_len : Z) : result (list Z) VarIntBoundsExceeded :=
  match c with
  | CloseConnection x => conn_close_encode x max_len
  | CloseApplication x => app_close_encode x max_len
  end.

Definition stream_meta_encode (m : StreamMeta) (length : bool) : result (list Z) VarIntBoundsExceeded :=
  let start := (m_offsets m).1 in
  let ty := Z.lor (Z.lor (Z.lor STREAM_TYS.1 (flag (negb (start =? 0)) 0x04)) (flag length 0x02)) (flag (m_fin m) 0x01) in
  let? t := write_var ty in
  let? off := (if start =? 0 then Ok [] else write_var start) in
  let? len := (if length then write_var ((m_offsets m).2 - start) else Ok []) in
  Ok (t ++ stream_id_encode (m_id m) ++ off ++ len).

Definition crypto_encode (c : Crypto) : result (list Z) VarIntBoundsExceeded :=
  let? t := write_var (code CRYPTO) in
  let? off := write_var (cr_offset c) in
  let? len := write_var (zlen (cr_data c)) in
  Ok (t ++ off ++ len ++ cr_data c).

Definition new_token_encode (token : list Z) : result (list Z) VarIntBoundsExceeded :=
  let? t := write_var (code NEW_TOKEN) in
  let? len := write_var (zlen token) in
  Ok (t ++ len ++ token).

Definition new_token_size (token : list Z) : Z := 1 + size (zlen token) + zlen token.

Definition reset_stream_encode (r : ResetStream) : result (list Z) VarIntBoundsExceeded :=
  let? t := write_var (code RESET_STREAM) in
  let? ec := write_var (rs_error_code r) in
  let? off := write_var (final_offset r) in
  Ok (t ++ stream_id_encode (rs_id r) ++ ec ++ off).

Definition stop_sending_encode (s : StopSending) : result (list Z) VarIntBoundsExceeded :=
  let? t := write_var (code STOP_SENDING) in
  let? ec := write_var (ss_error_code s) in
  Ok (t ++ stream_id_encode (ss_id s) ++ ec).

(** The length of the identifier is written [as u8]. *)
Definition new_cid_encode (c : NewConnectionId) : result (list Z) VarIntBoundsExceeded :=
  let? t := write_var (code NEW_CONNECTION_ID) in
  let? seq := write_var (CidQueue.sequence c) in
  let? rpt := write_var (CidQueue.retire_prior_to c) in
  Ok (t ++ seq ++ rpt ++ be_encode 1 (wrap 8 (zlen (CidQueue.nc_id c))) ++ CidQueue.nc_id c
      ++ CidQueue.reset_token c).

Definition datagram_encode (data : list Z) (length : bool) : result (list Z) VarIntBoundsExceeded :=
  let? t := write_var (Z.lor DATAGRAM_TYS.1 (flag length 1)) in
  let? len := (if length then write_var (zlen data) else Ok []) in
  Ok (t ++ len ++ data).

Definition datagram_size (data : list Z) (length : bool) : Z :=
  1 + (if length then size (zlen data) else 0) + zlen data.

Definition ack_frequency_encode (a : AckFrequencyFrame) : result (list Z) VarIntBoundsExceeded :=
  let? t := write_var (code ACK_FREQUENCY) in
  let? s := write_var (AckFrequency.sequence a) in
  let? e := write_var (AckFrequency.ack_eliciting_threshold a) in
  let? d := write_var (AckFrequency.request_max_ack_delay a) in
  let? r := write_var (AckFrequency.reordering_threshold a) in
  Ok (t ++ s ++ e ++ d ++ r).

(** Frames written in place: a type and its fields. *)
Definition max_data_encode (max : Z) : result (list Z) VarIntBoundsExceeded :=
  let? t := write_var (code MAX_DATA) in
  let? x := write_var max in
  Ok (t ++ x).

Definition max_stream_data_encode (id max : Z) : result (list Z) VarIntBoundsExceeded :=
  let? t := write_var (code MAX_STREAM_DATA) in
  let? x := write_var max in
  Ok (t ++ stream_id_encode id ++ x).

Definition max_streams_encode (dir : Dir) (max : Z) : result (list Z) VarIntBoundsExceeded :=
  let? t := write_var (code (match dir with Uni => MAX_STREAMS_UNI | Bi => MAX_STREAMS_BIDI end)) in
  let? x := write_var max in
  Ok (t ++ x).

Definition retire_cid_encode (seq : Z) : result (list Z) VarIntBoundsExceeded :=
  let? t := write_var (code RETIRE_CONNECTION_ID) in
  let? x := write_var seq in
  Ok (t ++ x).

Definition path_token_encode (t : FrameTypeName) (token : Z) : result (list Z) VarIntBoundsExceeded :=
  let? t := write_var (code t) in
  Ok (t ++ encode u64_codec token).

(** The structs with a size bound, and [SIZE_BOUND] of each. *)
Inductive FrameStruct :=
| SConnectionClose | SApplicationClose | SStream | SCrypto | SResetStream | SStopSending | SDatagram
| SObservedAddress | SAddAddress | SPunchMeNow | SRemoveAddress | STryConnectTo | STryConnectToResponse
| SRetireConnectionId.

Definition SIZE_BOUND (s : FrameStruct) : Z :=
  match s with
  | SConnectionClose => 1 + 8 + 8 + 8
  | SApplicationClose => 1 + 8 + 8
  | SStream => 1 + 8 + 8 + 8
  | SCrypto => 17
  | SResetStream => 1 + 8 + 8 + 8
  | SStopSending => 1 + 8 + 8
  | SDatagram => 1 + 8
  | SObservedAddress => 4 + 8 + 16 + 2
  | SAddAddress => 4 + 9 + 9 + 1 + 16 + 2 + 4 + 4
  | SPunchMeNow => 4 + 9 + 9 + 1 + 16 + 2 + 4 + 4 + 1 + 32
  | SRemoveAddress => 4 + 9
  | STryConnectTo => 4 + 9 + 16 + 2 + 2
  | STryConnectToResponse => 4 + 9 + 1 + 1 + 16 + 2
  | SRetireConnectionId => 9
  end.

(** ** The iterator *)

Record Iter := mk_iter { bytes : list Z; last_ty : option Z }.

(** An empty payload is a PROTOCOL_VIOLATION. *)
Definition iter_new (payload : list Z) : result Iter string :=
  if bool_decide (payload = []) then Err "packet payload is empty"%string else Ok (mk_iter payload None).

Definition take_len (r : list Z) : result (list Z * list Z) UnexpectedEnd :=
  let? (len, r) := get_var r in
  if zlen r <? len then Err unexpected_end else Ok (ztake len r, zdrop len r).

Definition all_types : list FrameTypeName :=
  [PADDING; PING; ACK; ACK_ECN; RESET_STREAM; STOP_SENDING; CRYPTO; NEW_TOKEN;
   MAX_DATA; MAX_STREAM_DATA; MAX_STREAMS_BIDI; MAX_STREAMS_UNI;
   DATA_BLOCKED; STREAM_DATA_BLOCKED; STREAMS_BLOCKED_BIDI; STREAMS_BLOCKED_UNI;
   NEW_CONNECTION_ID; RETIRE_CONNECTION_ID; PATH_CHALLENGE; PATH_RESPONSE;
   CONNECTION_CLOSE; APPLICATION_CLOSE; HANDSHAKE_DONE; ACK_FREQUENCY; IMMEDIATE_ACK;
   ADD_ADDRESS_IPV4; ADD_ADDRESS_IPV6; PUNCH_ME_NOW_IPV4; PUNCH_ME_NOW_IPV6; REMOVE_ADDRESS;
   OBSERVED_ADDRESS_IPV4; OBSERVED_ADDRESS_IPV6; TRY_CONNECT_TO_IPV4; TRY_CONNECT_TO_IPV6;
   TRY_CONNECT_TO_RESPONSE_IPV4; TRY_CONNECT_TO_RESPONSE_IPV6].

(** The name a number stands for: the constant patterns of the [match]. *)
Definition type_name (t : Z) : option FrameTypeName := List.find (λ n, code n =? t) all_types.

Definition decode_new_cid (r : list Z) : result (NewConnectionId * list Z) IterErr :=
  let? (sequence, r) := from_end (get_var r) in
  let? (retire_prior_to, r) := from_end (get_var r) in
  if sequence <? retire_prior_to then Err Malformed
  else
    let? (length, r) := from_end (decode u8_codec r) in
    if (20 <? length) || (length =? 0) then Err Malformed
    else if zlen r <? length then Err IterUnexpectedEnd
    else
      let id := ztake length r in
      let r := zdrop length r in
      if zlen r <? 16 then Err IterUnexpectedEnd
      else Ok (mk_new_cid sequence retire_prior_to id (ztake 16 r), zdrop 16 r).

(** The [_] arm: STREAM and DATAGRAM types carry flags. *)
Definition decode_flagged (t : Z) (r : list Z) : result (Frame * list Z) IterErr :=
  if in_tys STREAM_TYS t then
    let? (id, r) := from_end (get_var r) in
    let? (offset, r) := (if negb (Z.land t 0x04 =? 0) then from_end (get_var r) else Ok (0, r)) in
    let fin := negb (Z.land t 0x01 =? 0) in
    let? (data, r) := (if negb (Z.land t 0x02 =? 0) then from_end (take_len r) else Ok (r, [])) in
    Ok (FStream (mk_stream id offset fin data), r)
  else if in_tys DATAGRAM_TYS t then
    let? (data, r) := (if negb (Z.land t 0x01 =? 0) then from_end (take_len r) else Ok (r, [])) in
    Ok (FDatagram data, r)
  else Err InvalidFrameId.

(** [try_next] once the type is read. *)
Definition decode_body (t : Z) (r : list Z) : result (Frame * list Z) IterErr :=
  match type_name t with
  | Some PADDING => Ok (Padding, r)
  | Some RESET_STREAM =>
    let? (id, r) := from_end (get_var r) in
    let? (ec, r) := from_end (get_var r) in
    let? (off, r) := from_end (get_var r) in
    Ok (FResetStream (mk_reset_stream id ec off), r)
  | Some CONNECTION_CLOSE =>
    let? (ec, r) := from_end (get_var r) in
    let? (x, r) := from_end (get_var r) in
    let? (reason, r) := from_end (take_len r) in
    Ok (FClose (CloseConnection (mk_conn_close ec (if x =? 0 then None else Some x) reason)), r)
  | Some APPLICATION_CLOSE =>
    let? (ec, r) := from_end (get_var r) in
    let? (reason, r) := from_end (take_len r) in
    Ok (FClose (CloseApplication (mk_app_close ec reason)), r)
  | Some MAX_DATA => let? (x, r) := from_end (get_var r) in Ok (MaxData x, r)
  | Some MAX_STREAM_DATA =>
    let? (id, r) := from_end (get_var r) in
    let? (off, r) := from_end (get_var r) in
    Ok (MaxStreamData id off, r)
  | Some MAX_STREAMS_BIDI => let? (x, r) := from_end (get_var r) in Ok (MaxStreams Bi x, r)
  | Some MAX_STREAMS_UNI => let? (x, r) := from_end (get_var r) in Ok (MaxStreams Uni x, r)
  | Some PING => Ok (Ping, r)
  | Some DATA_BLOCKED => let? (x, r) := from_end (get_var r) in Ok (DataBlocked x, r)
  | Some STREAM_DATA_BLOCKED =>
    let? (id, r) := from_end (get_var r) in
    let? (off, r) := from_end (get_var r) in
    Ok (StreamDataBlocked id off, r)
  | Some STREAMS_BLOCKED_BIDI => let? (x, r) := from_end (get_var r) in Ok (StreamsBlocked Bi x, r)
  | Some STREAMS_BLOCKED_UNI => let? (x, r) := from_end (get_var r) in Ok (StreamsBlocked Uni x, r)
  | Some STOP_SENDING =>
    let? (id, r) := from_end (get_var r) in
    let? (ec, r) := from_end (get_var r) in
    Ok (FStopSending (mk_stop_sending id ec), r)
  | Some RETIRE_CONNECTION_ID => let? (x, r) := from_end (get_var r) in Ok (RetireConnectionId x, r)
  | Some ACK | Some ACK_ECN => let? (a, r) := decode_ack t r in Ok (FAck a, r)
  | Some PATH_CHALLENGE => let? (x, r) := from_end (decode u64_codec r) in Ok (PathChallenge x, r)
  | Some PATH_RESPONSE => let? (x, r) := from_end (decode u64_codec r) in Ok (PathResponse x, r)
  | Some NEW_CONNECTION_ID => let? (c, r) := decode_new_cid r in Ok (FNewConnectionId c, r)
  | Some CRYPTO =>
    let? (off, r) := from_end (get_var r) in
    let? (data, r) := from_end (take_len r) in
    Ok (FCrypto (mk_crypto off data), r)
  | Some NEW_TOKEN => let? (token, r) := from_end (take_len r) in Ok (FNewToken token, r)
  | Some HANDSHAKE_DONE => Ok (HandshakeDone, r)
  | Some ACK_FREQUENCY =>
    let? (s, r) := from_end (get_var r) in
    let? (e, r) := from_end (get_var r) in
    let? (d, r) := from_end (get_var r) in
    let? (th, r) := from_end (get_var r) in
    Ok (FAckFrequency (mk_frame s e d th), r)
  | Some IMMEDIATE_ACK => Ok (ImmediateAck, r)
  | Some ADD_ADDRESS_IPV4 => let? (a, r) := from_end (add_decode_auto false r) in Ok (FAddAddress a, r)
  | Some ADD_ADDRESS_IPV6 => let? (a, r) := from_end (add_decode_auto true r) in Ok (FAddAddress a, r)
  | Some PUNCH_ME_NOW_IPV4 => let? (p, r) := from_end (punch_decode_auto false r) in Ok (FPunchMeNow p, r)
  | Some PUNCH_ME_NOW_IPV6 => let? (p, r) := from_end (punch_decode_auto true r) in Ok (FPunchMeNow p, r)
  | Some REMOVE_ADDRESS => let? (x, r) := from_end (get_var r) in Ok (FRemoveAddress x, r)
  | Some OBSERVED_ADDRESS_IPV4 => let? (o, r) := from_end (observed_decode false r) in Ok (FObservedAddress o, r)
  | Some OBSERVED_ADDRESS_IPV6 => let? (o, r) := from_end (observed_decode true r) in Ok (FObservedAddress o, r)
  | Some TRY_CONNECT_TO_IPV4 => let? (x, r) := from_end (try_connect_decode false r) in Ok (FTryConnectTo x, r)
  | Some TRY_CONNECT_TO_IPV6 => let? (x, r) := from_end (try_connect_decode true r) in Ok (FTryConnectTo x, r)
  | Some TRY_CONNECT_TO_RESPONSE_IPV4 =>
    let? (x, r) := from_end (try_response_decode false r) in Ok (FTryConnectToResponse x, r)
  | Some TRY_CONNECT_TO_RESPONSE_IPV6 =>
    let? (x, r) := from_end (try_response_decode true r) in Ok (FTryConnectToResponse x, r)
  | None => decode_flagged t r
  end.

(** A type that cannot be read leaves [last_ty] as it was. *)
Definition try_next (it : Iter) : result (Frame * list Z) IterErr * option Z :=
  match get_var (bytes it) with
  | Err _ => (Err IterUnexpectedEnd, last_ty it)
  | Ok (t, r) => (decode_body t r, Some t)
  end.

Definition iter_err_reason (e : IterErr) : string :=
  match e with
  | IterUnexpectedEnd => "unexpected end"
  | InvalidFrameId => "invalid frame ID"
  | Malformed => "malformed"
  end.

Record InvalidFrame := mk_invalid { if_ty : option Z; if_reason : string }.

(** [Iterator::next]: after an error nothing is left. *)
Definition next (it : Iter) : option (result Frame InvalidFrame) * Iter :=
  match bytes it with
  | [] => (None, it)
  | _ =>
    match try_next it with
    | (Ok (f, r), t) => (Some (Ok f), mk_iter r t)
    | (Err e, t) => (Some (Err (mk_invalid t (iter_err_reason e))), mk_iter [] t)
    end
  end.

(** A loop over the iterator; [None] if it has not ended after [fuel] rounds. *)
Fixpoint collect (fuel : nat) (it : Iter) : option (list (result Frame InvalidFrame)) :=
  match next it with
  | (None, _) => Some []
  | (Some x, it) =>
    match fuel with
    | O => None
    | S fuel => xs ← collect fuel it; Some (x :: xs)
    end
  end.

(** ** Well-formed frames *)

Definition stream_ok (s : Stream) : Prop := is_u 62 (st_id s) ∧ is_u 62 (st_offset s) ∧ bytes_ok (st_data s).

Definition new_cid_ok (c : NewConnectionId) : Prop :=
  0 ≤ CidQueue.retire_prior_to c ≤ CidQueue.sequence c ∧ CidQueue.sequence c < 2 ^ 62
  ∧ 1 ≤ zlen (CidQueue.nc_id c) ≤ 20 ∧ bytes_ok (CidQueue.nc_id c)
  ∧ zlen (CidQueue.reset_token c) = 16 ∧ bytes_ok (CidQueue.reset_token c).

Definition close_ok (c : Close) : Prop :=
  match c with
  | CloseConnection c =>
    is_u 62 (cc_error_code c) ∧ bytes_ok (cc_reason c)
    ∧ match frame_type c with Some t => is_u 62 t ∧ t ≠ 0 | None => True end
  | CloseApplication c => is_u 62 (ac_error_code c) ∧ bytes_ok (ac_reason c)
  end.

(** What every frame handed to the connection satisfies. *)
Definition frame_ok (f : Frame) : Prop :=
  match f with
  | Padding | Ping | ImmediateAck | HandshakeDone => True
  | FAck a => AckFrame.ack_ok a
  | FResetStream r => is_u 62 (rs_id r) ∧ is_u 62 (rs_error_code r) ∧ is_u 62 (final_offset r)
  | FStopSending s => is_u 62 (ss_id s) ∧ is_u 62 (ss_error_code s)
  | FCrypto c => is_u 62 (cr_offset c) ∧ bytes_ok (cr_data c)
  | FNewToken data | FDatagram data => bytes_ok data
  | FStream s => stream_ok s
  | MaxData x | MaxStreams _ x | DataBlocked x | StreamsBlocked _ x | RetireConnectionId x | FRemoveAddress x => is_u 62 x
  | MaxStreamData i x | StreamDataBlocked i x => is_u 62 i ∧ is_u 62 x
  | FNewConnectionId c => new_cid_ok c
  | PathChallenge x | PathResponse x => is_u 64 x
  | FClose c => close_ok c
  | FAckFrequency a =>
    is_u 62 (AckFrequency.sequence a) ∧ is_u 62 (AckFrequency.ack_eliciting_threshold a)
    ∧ is_u 62 (AckFrequency.request_max_ack_delay a) ∧ is_u 62 (AckFrequency.reordering_threshold a)
  | FAddAddress a => add_address_ok a
  | FPunchMeNow p => punch_ok p
  | FObservedAddress o => observed_ok o
  | FTryConnectTo t => try_connect_ok t
  | FTryConnectToResponse t => try_response_ok t
  end.

(** ** Lemmas *)

(** *** Parsing *)

Lemma type_name_code n : type_name (code n) = Some n.
Proof. by destruct n. Qed.

Lemma take_len_sound r d r' : bytes_ok r → take_len r = Ok (d, r') →
  bytes_ok d ∧ bytes_ok r' ∧ (length r' < length r)%nat ∧ zlen d < 2 ^ 62.
Proof.
  intros Hr H. unfold take_len in H. read_step H.
  case_match; zbool; [done|]. injection H as <- <-. unfold is_u in *.
  rewrite zlen_ztake by lia. unfold zdrop. rewrite length_drop.
  split_and!; [by apply Forall_take|by apply Forall_drop|lia..].
Qed.

Lemma decode_u64_sound r x r' : bytes_ok r → decode u64_codec r = Ok (x, r') →
  is_u 64 x ∧ bytes_ok r' ∧ (length r' < length r)%nat.
Proof.
  intros Hr H. destruct (@codec_consumes _ _ _ (fixed_laws 8 ltac:(lia)) r x r' Hr H) as (? & pre & ? & ->).
  apply Forall_app in Hr as [_ ?]. rewrite length_app. destruct pre; [done|]. simpl. split_and!; (done || lia).
Qed.

(** One step of a parser, errors converted. *)
Ltac frame_step H :=
  match type of H with
  | (match from_end (get_var ?r) with Ok _ => _ | Err _ => _ end) = Ok _ =>
    let G := fresh "G" in
    destruct (get_var r) as [[? ?]|] eqn:G; cbn [from_end map_err] in H; [|discriminate H];
    apply get_var_suffix in G as (? & ? & ?); [|assumption]
  | (match from_end (take_len ?r) with Ok _ => _ | Err _ => _ end) = Ok _ =>
    let G := fresh "G" in
    destruct (take_len r) as [[? ?]|] eqn:G; cbn [from_end map_err] in H; [|discriminate H];
    apply take_len_sound in G as (? & ? & ? & ?); [|assumption]
  | (match from_end (decode u64_codec ?r) with Ok _ => _ | Err _ => _ end) = Ok _ =>
    let G := fresh "G" in
    destruct (decode u64_codec r) as [[? ?]|] eqn:G; cbn [from_end map_err] in H; [|discriminate H];
    apply decode_u64_sound in G as (? & ? & ?); [|assumption]
  | (match from_end ?x with Ok _ => _ | Err _ => _ end) = Ok _ =>
    let G := fresh "G" in
    destruct x as [[? ?]|] eqn:G; cbn [from_end map_err] in H; [|discriminate H];
    first [apply add_decode_auto_sound in G as (? & ? & ?)
          |apply punch_decode_auto_sound in G as (? & ? & ?)
          |apply observed_decode_sound in G as (? & ? & ?)
          |apply try_connect_decode_sound in G as (? & ? & ?)
          |apply try_response_decode_sound in G as (? & ? & ?)]; [|assumption]
  end.

Lemma decode_new_cid_sound r c r' : bytes_ok r → decode_new_cid r = Ok (c, r') →
  new_cid_ok c ∧ bytes_ok r' ∧ (length r' ≤ length r)%nat.
Proof.
  intros Hr H. unfold decode_new_cid in H. do 2 frame_step H.
  case_match; zbool; [done|].
  match type of H with context [decode u8_codec ?z] => destruct z as [|len q] end; [done|].
  rewrite decode_u8_cons in H. cbn [from_end map_err] in H.
  match goal with Hb : bytes_ok (len :: q) |- _ => inversion Hb as [|? ? [? ?] Hq]; subst end.
  simpl length in *. repeat (case_match; zbool; [done|]). injection H as <- <-. unfold is_u in *.
  assert (zlen (zdrop len q) = zlen q - len) as Hz by (apply zlen_zdrop; lia).
  unfold new_cid_ok. cbn [CidQueue.retire_prior_to CidQueue.sequence CidQueue.nc_id CidQueue.reset_token].
  rewrite !zlen_ztake by lia. unfold zdrop, ztake. rewrite !length_drop.
  split_and!; try lia; repeat (apply Forall_drop || apply Forall_take); done.
Qed.

Lemma decode_flagged_sound t r f r' : bytes_ok r → decode_flagged t r = Ok (f, r') →
  frame_ok f ∧ bytes_ok r' ∧ (length r' ≤ length r)%nat.
Proof.
  intros Hr H. unfold decode_flagged in H. destruct (in_tys STREAM_TYS t).
  - frame_step H. destruct (negb (Z.land t 4 =? 0)); [frame_step H|];
      (destruct (negb (Z.land t 2 =? 0)); [frame_step H|]); injection H as <- <-;
      cbn [frame_ok]; unfold stream_ok; simpl; split_and!; (done || lia || constructor || (unfold is_u; lia)).
  - destruct (in_tys DATAGRAM_TYS t); [|done].
    destruct (negb (Z.land t 1 =? 0)); [frame_step H|]; injection H as <- <-; simpl;
      split_and!; (done || lia || constructor).
Qed.

Lemma decode_body_sound t r f r' : bytes_ok r → decode_body t r = Ok (f, r') →
  frame_ok f ∧ bytes_ok r' ∧ (length r' ≤ length r)%nat.
Proof.
  intros Hr H. unfold decode_body in H. destruct (type_name t) as [[]|] eqn:Hn;
    try (by apply decode_flagged_sound in H);
    try (destruct (decode_ack t r) as [[a q]|] eqn:G; [|done]; injection H as <- <-;
         pose proof (AckFrame.decode_ack_ok _ _ _ _ Hr G) as Hok;
         apply AckFrame.decode_ack_spec in G as (? & ? & ? & ? & ? & ? & _ & _ & _ & _ & _ & _ & _ & _ & _ & _ & ? & ?); [|done];
         split_and!; (done || lia));
    try (destruct (decode_new_cid r) as [[c q]|] eqn:G; [|done]; injection H as <- <-;
         by apply decode_new_cid_sound in G);
    repeat frame_step H; injection H as <- <-; cbn [frame_ok close_ok]; simpl;
    try (split_and!; (done || lia)).
  split_and!; try done; [|lia]. destruct (Z.eqb_spec z0 0); done.
Qed.

(** *** Iterating *)

Lemma next_sound it x it' : bytes_ok (bytes it) → next it = (Some x, it') →
  bytes_ok (bytes it') ∧ (length (bytes it') < length (bytes it))%nat
  ∧ match x with Ok f => frame_ok f | Err _ => bytes it' = [] end.
Proof.
  intros Hb. unfold next, try_next. destruct (bytes it) as [|b bs] eqn:Hbs; [done|]. rewrite <-Hbs in *.
  assert (0 < length (bytes it))%nat by (rewrite Hbs; simpl; lia).
  destruct (get_var (bytes it)) as [[t r]|] eqn:G; [|intros [= <- <-]; simpl; split_and!; (done || lia || constructor)].
  apply get_var_suffix in G as (? & Hr & ?); [|done].
  destruct (decode_body t r) as [[f q]|] eqn:Hd; intros [= <- <-]; simpl.
  - apply decode_body_sound in Hd as (? & ? & ?); [|done]. split_and!; (done || lia).
  - split_and!; (done || lia || constructor).
Qed.

(** The end of an iteration: errors come last. *)
Inductive parsed : list (result Frame InvalidFrame) → Prop :=
| parsed_nil : parsed []
| parsed_err e : parsed [Err e]
| parsed_ok f xs : frame_ok f → parsed xs → parsed (Ok f :: xs).

Lemma collect_nil fuel t : collect fuel (mk_iter [] t) = Some [].
Proof. by destruct fuel. Qed.

Lemma collect_total fuel : ∀ it, bytes_ok (bytes it) → (length (bytes it) ≤ fuel)%nat →
  ∃ xs, collect fuel it = Some xs ∧ parsed xs ∧ (length xs ≤ length (bytes it))%nat.
Proof.
  induction fuel as [|fuel IH]; intros it Hb Hf; cbn [collect];
    (destruct (next it) as [[x|] it'] eqn:Hn; [|exists []; split_and!; [done|constructor|simpl; lia]]);
    destruct (next_sound _ _ _ Hb Hn) as (Hb' & Hl & Hx); [lia|].
  destruct (IH it' Hb' ltac:(lia)) as (xs & Hxs & Hp & Hlen).
  rewrite Hxs. simpl. exists (x :: xs). split; [done|]. split; [|simpl; lia].
  destruct x as [f|e]; [by constructor|]. destruct it' as [bs t]. simpl in Hx. subst bs.
  rewrite collect_nil in Hxs. injection Hxs as <-. constructor.
Qed.

(** *** Writing and reading back

    [length] says whether STREAM and DATAGRAM frames carry a length; [max_len] is the
    room given to a CLOSE frame. *)
Definition frame_bytes (length : bool) (max_len : Z) (f : Frame) : result (list Z) VarIntBoundsExceeded :=
  match f with
  | Padding | Ping | ImmediateAck | HandshakeDone => write_var (ty f)
  | FResetStream r => reset_stream_encode r
  | FStopSending s => stop_sending_encode s
  | FCrypto c => crypto_encode c
  | FNewToken t => new_token_encode t
  | FStream s =>
    let? h := stream_meta_encode (mk_stream_meta (st_id s) (st_offset s, st_offset s + zlen (st_data s)) (fin s)) length in
    Ok (h ++ st_data s)
  | MaxData x => max_data_encode x
  | MaxStreamData i x => max_stream_data_encode i x
  | MaxStreams d x => max_streams_encode d x
  | FNewConnectionId c => new_cid_encode c
  | RetireConnectionId x => retire_cid_encode x
  | PathChallenge x => path_token_encode PATH_CHALLENGE x
  | PathResponse x => path_token_encode PATH_RESPONSE x
  | FClose c => close_encode c max_len
  | FDatagram d => datagram_encode d length
  | FAckFrequency a => ack_frequency_encode a
  | FAddAddress a => add_encode_rfc a
  | FPunchMeNow p => punch_encode true p
  | FRemoveAddress x => remove_encode x
  | FObservedAddress o => observed_encode o
  | FTryConnectTo t => try_connect_encode t
  | FTryConnectToResponse t => try_response_encode t
  | FAck _ | DataBlocked _ | StreamDataBlocked _ _ | StreamsBlocked _ _ => Err varint_bounds_exceeded
  end.

(** What the wire format can carry: lengths that fit, addresses without flow label and
    scope, a priority that is the computed one, a reason that need not be cut.  ACK frames
    are written from ranges, and the BLOCKED frames are never sent. *)
Definition sendable (max_len : Z) (f : Frame) : Prop :=
  match f with
  | FAck _ | DataBlocked _ | StreamDataBlocked _ _ | StreamsBlocked _ _ => False
  | FCrypto c => zlen (cr_data c) < 2 ^ 62
  | FNewToken d | FDatagram d => zlen d < 2 ^ 62
  | FStream s => zlen (st_data s) < 2 ^ 62
  | FClose (CloseConnection c) =>
    zlen (cc_reason c) < 2 ^ 62 ∧ max_len < 2 ^ 64
    ∧ 3 + size (default 0 (frame_type c)) + size (zlen (cc_reason c)) + zlen (cc_reason c) ≤ max_len
  | FClose (CloseApplication c) =>
    zlen (ac_reason c) < 2 ^ 62 ∧ max_len < 2 ^ 64
    ∧ 3 + size (zlen (ac_reason c)) + zlen (ac_reason c) ≤ max_len
  | FAddAddress a => addr_plain (aa_address a) ∧ priority a = calculate_priority (aa_address a)
  | FPunchMeNow p => addr_plain (pm_address p)
  | _ => True
  end.

(** STREAM and DATAGRAM frames are the ones that may extend to the end of the packet. *)
Definition extends (f : Frame) : bool := match f with FStream _ | FDatagram _ => true | _ => false end.

Lemma write_code n : write_var (code n) = Ok (varint_encode (code n)).
Proof. apply write_var_enc, code_range. Qed.

Lemma stream_id_enc id : is_u 62 id → stream_id_encode id = varint_encode id.
Proof. intros [? ?]. unfold stream_id_encode, from_u64. by rewrite (proj2 (Z.ltb_lt _ _)). Qed.

Lemma take_len_enc d k : zlen d < 2 ^ 62 → take_len (varint_encode (zlen d) ++ d ++ k) = Ok (d, k).
Proof.
  intros Hd. unfold take_len. pose proof (zlen_nonneg d). rewrite get_var_enc by (unfold is_u; lia).
  rewrite zlen_app, (proj2 (Z.ltb_ge _ _)) by (pose proof (zlen_nonneg k); lia).
  by rewrite (ztake_app_zlen _ d), (zdrop_app_zlen _ d).
Qed.

Lemma zlen_u62 {A} (l : list A) : zlen l < 2 ^ 62 → is_u 62 (zlen l).
Proof. pose proof (zlen_nonneg l). unfold is_u. lia. Qed.

(** A frame is read back if its body is. *)
Lemma next_enc t r f k lt : is_u 62 t → decode_body t r = Ok (f, k) →
  next (mk_iter (varint_encode t ++ r) lt) = (Some (Ok f), mk_iter k (Some t)).
Proof.
  intros Ht Hd. unfold next, try_next. cbn [bytes].
  destruct (varint_encode t ++ r) as [|b bs] eqn:Hb.
  - apply app_eq_nil in Hb as [Hb _]. pose proof (zlen_varint_encode t Ht) as Hz.
    rewrite Hb in Hz. pose proof (size_bounds t). rewrite zlen_nil in Hz. lia.
  - rewrite <-Hb, get_var_enc by done. by rewrite Hd.
Qed.

(** The same for a named type. *)
Lemma next_code n r f k lt : decode_body (code n) r = Ok (f, k) →
  next (mk_iter (varint_encode (code n) ++ r) lt) = (Some (Ok f), mk_iter k (Some (code n))).
Proof. apply next_enc, code_range. Qed.

(** Evaluate a parser on what was written. *)
Ltac reread :=
  repeat (first [rewrite get_var_enc by first [done | by apply zlen_u62] | rewrite take_len_enc by done];
          cbn [from_end map_err]).

Lemma close_read_back c max_len : close_ok c → sendable max_len (FClose c) →
  ∃ bs, close_encode c max_len = Ok bs ∧
    ∀ k lt, ∃ t, next (mk_iter (bs ++ k) lt) = (Some (Ok (FClose c)), mk_iter k (Some t)).
Proof.
  destruct c as [[ec ft reason]|[ec reason]]; cbn [close_ok sendable cc_error_code cc_reason frame_type ac_error_code ac_reason];
    [intros (Hec & Hb & Hft) (Hl & Hm & Hfit)|intros (Hec & Hb) (Hl & Hm & Hfit)];
    unfold close_encode, conn_close_encode, app_close_encode; cbn [cc_error_code cc_reason frame_type ac_error_code ac_reason];
    pose proof (zlen_nonneg reason); pose proof (size_bounds (zlen reason)).
  - assert (is_u 62 (default 0 ft)) as Hf by (destruct ft as [t|]; [by destruct Hft|done]).
    pose proof (size_bounds (default 0 ft)). unfold wrapping_sub.
    rewrite !(wrap_small 64) by (rewrite ?wrap_small; unfold is_u; rewrite ?wrap_small; unfold is_u; lia).
    rewrite Z.min_l by lia. rewrite write_code, !write_var_enc by (done || by apply zlen_u62).
    eexists. split; [done|]. intros k lt. exists (code CONNECTION_CLOSE). rewrite <-!app_assoc.
    apply next_code. rewrite ztake_all by done.
    unfold decode_body. rewrite type_name_code. reread.
    destruct ft as [t|]; simpl; [|done]. by rewrite (proj2 (Z.eqb_neq t 0)) by apply Hft.
  - unfold wrapping_sub. rewrite !(wrap_small 64) by (rewrite ?wrap_small; unfold is_u; lia).
    rewrite Z.min_l by lia. rewrite write_code, !write_var_enc by (done || by apply zlen_u62).
    eexists. split; [done|]. intros k lt. exists (code APPLICATION_CLOSE). rewrite <-!app_assoc.
    apply next_code. rewrite ztake_all by done.
    unfold decode_body. rewrite type_name_code. reread. done.
Qed.

(** Evaluate the flags of a type that is known. *)
Ltac eval_flags :=
  match goal with
  | |- decode_body ?t _ = _ => let t' := eval vm_compute in t in change t with t'
  end;
  unfold decode_body;
  match goal with
  | |- context [type_name ?t] => change (type_name t) with (@None FrameTypeName)
  end;
  unfold decode_flagged;
  repeat match goal with
  | |- context [in_tys ?r ?t] => let v := eval vm_compute in (in_tys r t) in change (in_tys r t) with v
  | |- context [negb (Z.land ?a ?b =? 0)] =>
    let v := eval vm_compute in (negb (Z.land a b =? 0)) in change (negb (Z.land a b =? 0)) with v
  end; cbv iota.

Lemma flagged_read_back f length : frame_ok f → sendable 0 f → extends f = true →
  ∃ bs, frame_bytes length 0 f = Ok bs ∧
    ∀ k lt, length = true ∨ k = [] → ∃ t, next (mk_iter (bs ++ k) lt) = (Some (Ok f), mk_iter k (Some t)).
Proof.
  destruct f; try done; intros Hok Hs _; cbn [frame_ok sendable frame_bytes] in *.
  - destruct s as [id off fi data]. destruct Hok as (Hid & Hoff & Hb). cbn [st_id st_offset fin st_data] in *.
    unfold stream_meta_encode. cbn [m_id m_offsets m_fin fst snd]. rewrite stream_id_enc by done.
    replace (off + zlen data - off) with (zlen data) by lia.
    destruct (Z.eqb_spec off 0) as [->|Hne], length, fi; cbn [negb flag];
      rewrite !write_var_enc by (done || (by apply zlen_u62) || (split; vm_compute; congruence));
      (eexists; split; [reflexivity|]; intros k lt Hk; eexists; rewrite <-!app_assoc;
       apply next_enc; [split; vm_compute; congruence|]; eval_flags; rewrite ?app_nil_l;
       reread); try done;
      (destruct Hk as [? | ->]; [done|rewrite ?app_nil_r; done]).
  - unfold datagram_encode. destruct length; cbn [flag];
      rewrite !write_var_enc by ((by apply zlen_u62) || (split; vm_compute; congruence));
      (eexists; split; [reflexivity|]; intros k lt Hk; eexists; rewrite <-!app_assoc;
       apply next_enc; [split; vm_compute; congruence|]; eval_flags; reread);
      [done|].
    destruct Hk as [? | ->]; [done|rewrite ?app_nil_r; done].
Qed.

Lemma u64_read_back x k : is_u 64 x → decode u64_codec (encode u64_codec x ++ k) = Ok (x, k).
Proof. apply (@codec_roundtrip _ _ _ (fixed_laws 8 ltac:(lia)) x k). Qed.

Lemma u8_read_back x k : is_u 8 x → decode u8_codec (be_encode 1 x ++ k) = Ok (x, k).
Proof. apply (@codec_roundtrip _ _ _ (fixed_laws 1 ltac:(lia)) x k). Qed.

Lemma new_cid_read_back c : new_cid_ok c → ∃ bs, new_cid_encode c = Ok bs ∧
  ∀ k lt, next (mk_iter (bs ++ k) lt) = (Some (Ok (FNewConnectionId c)), mk_iter k (Some (code NEW_CONNECTION_ID))).
Proof.
  destruct c as [seq rpt id tok]. unfold new_cid_ok, new_cid_encode.
  cbn [CidQueue.sequence CidQueue.retire_prior_to CidQueue.nc_id CidQueue.reset_token].
  intros (Hr & Hs & Hl & _ & Ht & _). rewrite write_code, !write_var_enc by (unfold is_u; lia).
  eexists. split; [done|]. intros k lt. rewrite <-!app_assoc. apply next_code.
  unfold decode_body. rewrite type_name_code. unfold decode_new_cid.
  repeat (rewrite get_var_enc by (unfold is_u; lia); cbn [from_end map_err]).
  rewrite (proj2 (Z.ltb_ge seq rpt)) by lia.
  assert (is_u 8 (zlen id)) as Hu by (unfold is_u; lia).
  rewrite wrap_small, u8_read_back by done. cbn [from_end map_err].
  rewrite (proj2 (Z.ltb_ge 20 (zlen id))), (proj2 (Z.eqb_neq (zlen id) 0)) by lia. cbn [orb].
  rewrite zlen_app, (proj2 (Z.ltb_ge _ (zlen id))) by (pose proof (zlen_nonneg (tok ++ k)); lia).
  rewrite (ztake_app_zlen _ id), (zdrop_app_zlen _ id) by done.
  rewrite zlen_app, (proj2 (Z.ltb_ge _ 16)) by (pose proof (zlen_nonneg k); lia).
  by rewrite (ztake_app_zlen _ tok), (zdrop_app_zlen _ tok).
Qed.

(** Read back a frame with a named type and fields in range. *)
Ltac named_frame :=
  rewrite ?stream_id_enc by done; rewrite write_code;
  rewrite ?write_var_enc by first [done | by apply zlen_u62];
  eexists; split; [reflexivity|]; intros k lt; eexists; rewrite <-?app_assoc; apply next_code;
  unfold decode_body; rewrite type_name_code; reread; done.

Definition has_address (f : Frame) : bool :=
  match f with
  | FAddAddress _ | FPunchMeNow _ | FObservedAddress _ | FTryConnectTo _ | FTryConnectToResponse _ => true
  | _ => false
  end.

Lemma control_read_back f length max_len : frame_ok f → sendable max_len f →
  extends f = false → has_address f = false → (∀ c, f ≠ FClose c) → ∃ bs, frame_bytes length max_len f = Ok bs ∧
    ∀ k lt, ∃ t, next (mk_iter (bs ++ k) lt) = (Some (Ok f), mk_iter k (Some t)).
Proof.
  intros Hok Hs He Ha Hc. destruct f; try done; try (by exfalso; eapply Hc); cbn [frame_ok sendable frame_bytes ty] in *;
    try named_frame.
  - destruct r. destruct Hok as (? & ? & ?). unfold reset_stream_encode. cbn [rs_id rs_error_code final_offset] in *. named_frame.
  - destruct s. destruct Hok as (? & ?). unfold stop_sending_encode. cbn [ss_id ss_error_code] in *. named_frame.
  - destruct c. destruct Hok as (? & ?). unfold crypto_encode. cbn [cr_offset cr_data] in *. named_frame.
  - unfold new_token_encode. named_frame.
  - unfold max_data_encode. named_frame.
  - destruct Hok. unfold max_stream_data_encode. named_frame.
  - destruct dir; unfold max_streams_encode; named_frame.
  - destruct (new_cid_read_back c Hok) as (bs & Hbs & Hk). exists bs. split; [done|]. intros k lt. eexists. apply Hk.
  - unfold retire_cid_encode. named_frame.
  - unfold path_token_encode. rewrite write_code. eexists. split; [done|]. intros k lt. eexists. rewrite <-app_assoc.
    apply next_code. unfold decode_body. by rewrite type_name_code, u64_read_back.
  - unfold path_token_encode. rewrite write_code. eexists. split; [done|]. intros k lt. eexists. rewrite <-app_assoc.
    apply next_code. unfold decode_body. by rewrite type_name_code, u64_read_back.
  - destruct a. destruct Hok as (? & ? & ? & ?). unfold ack_frequency_encode.
    cbn [AckFrequency.sequence AckFrequency.ack_eliciting_threshold AckFrequency.request_max_ack_delay
      AckFrequency.reordering_threshold] in *. named_frame.
  - unfold remove_encode. named_frame.
Qed.

(** A frame whose type tells the kind of its address. *)
Lemma addr_code_read_back (a b : FrameTypeName) ad f r k lt :
  (∀ v, is_v6 ad = v → decode_body (code (if v then a else b)) r = Ok (f, k)) →
  ∃ t, next (mk_iter (varint_encode (code (if is_v6 ad then a else b)) ++ r) lt) = (Some (Ok f), mk_iter k (Some t)).
Proof. intros H. eexists. apply next_code, H. done. Qed.

Lemma peer_id_read_back p k : match p with Some i => length i = 32%nat ∧ bytes_ok i | None => True end →
  read_peer_id_rfc (put_peer_id p ++ k) = (Ok p, k).
Proof.
  destruct p as [i|]; [|done]. intros [Hi _]. cbn [put_peer_id app read_peer_id_rfc].
  rewrite Z.eqb_refl. rewrite (proj2 (Z.ltb_ge _ _)) by (rewrite zlen_app; unfold zlen; rewrite Hi; lia).
  rewrite <-Hi. by rewrite take_app_length, drop_app_length.
Qed.

Lemma try_error_read_back e : from_u8 (try_error_code e) = e.
Proof. by destruct e. Qed.

(** Evaluate the decoder of a frame with an address for both kinds. *)
Ltac address_frame :=
  rewrite write_code; rewrite ?write_var_enc by done;
  eexists; split; [reflexivity|]; intros k lt; rewrite <-?app_assoc; apply addr_code_read_back;
  intros v Hv; destruct v; unfold decode_body; rewrite type_name_code; rewrite <-Hv.

Lemma address_read_back f length max_len : frame_ok f → sendable max_len f → has_address f = true →
  ∃ bs, frame_bytes length max_len f = Ok bs ∧
    ∀ k lt, ∃ t, next (mk_iter (bs ++ k) lt) = (Some (Ok f), mk_iter k (Some t)).
Proof.
  intros Hok Hs Ha. destruct f; try done; cbn [frame_ok sendable frame_bytes] in *.
  - destruct a as [seq ad prio], Hok as (? & Had & _), Hs as [Hp Hprio]. cbn [aa_sequence aa_address priority] in *. subst prio.
    unfold add_encode_rfc. cbn [aa_sequence aa_address].
    address_frame; unfold add_decode_auto, add_decode_rfc, get_varint; rewrite get_var_enc by done;
      by rewrite (read_put_addr ad).
  - destruct p as [rnd seq ad pid], Hok as (? & ? & Had & Hpid). cbn [round paired_with_sequence_number pm_address target_peer_id] in *.
    unfold punch_encode. cbn [round paired_with_sequence_number pm_address target_peer_id].
    address_frame; unfold punch_decode_auto, punch_decode_rfc, get_varint; rewrite !get_var_enc by done;
      by rewrite (read_put_addr ad), peer_id_read_back.
  - destruct o as [seq ad], Hok as (? & Had & Hp). cbn [sequence_number oa_address] in *.
    unfold observed_encode. cbn [sequence_number oa_address].
    assert (from_u64 seq = Ok seq) as Hseq by (unfold from_u64; rewrite (proj2 (Z.ltb_lt _ _)); unfold is_u in *; done || lia).
    address_frame; unfold observed_decode; rewrite get_var_enc by done; rewrite Hseq; cbn [map_err];
      by rewrite (read_put_addr ad).
  - destruct t as [id ad ms], Hok as (? & Had & Hp & Hms). cbn [tc_request_id target_address timeout_ms] in *.
    unfold try_connect_encode. cbn [tc_request_id target_address timeout_ms].
    address_frame; unfold try_connect_decode; rewrite get_var_enc by done; rewrite (read_put_addr ad) by done;
      (rewrite (proj2 (Z.ltb_ge _ _)) by (rewrite zlen_app; unfold zlen; rewrite length_be_encode; lia));
      by rewrite take_be, drop_be, (be_decode_encode 2 ms Hms).
  - destruct t as [id su ec ad], Hok as (? & Had & Hp & Hsu). cbn [tr_request_id success error_code source_address] in *.
    unfold try_response_encode. cbn [tr_request_id success error_code source_address].
    address_frame; unfold try_response_decode; rewrite get_var_enc by done; cbn [app];
      rewrite (read_put_addr ad) by done; destruct su, ec as [e|]; simpl; rewrite ?try_error_read_back; try done;
      exfalso; naive_solver.
Qed.

Lemma frame_read_back f length max_len : frame_ok f → sendable max_len f →
  ∃ bs, frame_bytes length max_len f = Ok bs ∧
    ∀ k lt, (extends f = true → length = true ∨ k = []) →
    ∃ t, next (mk_iter (bs ++ k) lt) = (Some (Ok f), mk_iter k (Some t)).
Proof.
  intros Hok Hs. destruct (extends f) eqn:He.
  { destruct (flagged_read_back f length) as (bs & Hbs & Hk); try done; [by destruct f|].
    exists bs. split; [by destruct f|]. intros k lt Hl. by apply Hk, Hl. }
  assert (∃ bs, frame_bytes length max_len f = Ok bs ∧
    ∀ k lt, ∃ t, next (mk_iter (bs ++ k) lt) = (Some (Ok f), mk_iter k (Some t))) as (bs & Hbs & Hk).
  { destruct (has_address f) eqn:Ha; [by apply address_read_back|].
    destruct f; try (by apply control_read_back). by apply close_read_back. }
  exists bs. split; [done|]. intros k lt _. apply Hk.
Qed.

(** ** Payloads *)

(** The frames of a packet one after the other; the flag is the length of STREAM and
    DATAGRAM frames. *)
Fixpoint payload_bytes (max_len : Z) (fs : list (Frame * bool)) : result (list Z) VarIntBoundsExceeded :=
  match fs with
  | [] => Ok []
  | (f, length) :: fs =>
    let? b := frame_bytes length max_len f in
    let? bs := payload_bytes max_len fs in
    Ok (b ++ bs)
  end.

(** Only the last frame may leave out its length. *)
Fixpoint delimited (fs : list (Frame * bool)) : Prop :=
  match fs with
  | [] => True
  | (f, length) :: fs' => (extends f = true → length = true ∨ fs' = []) ∧ delimited fs'
  end.

Lemma payload_read_back max_len fs : Forall (λ p, frame_ok p.1 ∧ sendable max_len p.1) fs → delimited fs →
  ∃ bs, payload_bytes max_len fs = Ok bs ∧ (length fs ≤ length bs)%nat
  ∧ ∀ fuel lt, (length fs ≤ fuel)%nat → collect fuel (mk_iter bs lt) = Some ((λ p, Ok p.1) <$> fs).
Proof.
  induction fs as [|[f len] fs IH]; intros Hall Hd.
  { exists []. split; [done|]. split; [done|]. intros. apply collect_nil. }
  inversion Hall as [|? ? [Hok Hs] Hall']; subst. destruct Hd as [He Hd].
  destruct (IH Hall' Hd) as (bs & Hbs & Hlen & Hc). cbn [fst] in *.
  destruct (frame_read_back f len max_len Hok Hs) as (b & Hb & Hk).
  assert (extends f = true → len = true ∨ bs = []) as He'.
  { intros Hf. destruct (He Hf) as [?| ->]; [by left|right]. by injection Hbs as <-. }
  exists (b ++ bs). cbn [payload_bytes]. rewrite Hb, Hbs. split; [done|].
  assert (b ≠ []) as Hne.
  { intros ->. destruct (Hk [] None ltac:(by right)) as [t Ht]. done. }
  split; [rewrite length_app; destruct b; [done|simpl; lia]|].
  intros fuel lt Hf. destruct (Hk bs lt He') as [t Ht]. destruct fuel as [|fuel]; [simpl in Hf; lia|].
  cbn [collect]. rewrite Ht, Hc by (simpl in Hf; lia). done.
Qed.

(** ** Theorems *)


Definition sample_payload : list (Frame * bool) :=
  [(Ping, true); (FCrypto (mk_crypto 70 [1; 2; 3]), true);
   (FStream (mk_stream 4 0 false [9; 9]), true);
   (FNewConnectionId (mk_new_cid 3 1 [7; 7; 7; 7] (replicate 16 5)), true);
   (FAddAddress (add_address_new 2 (V4 [192; 168; 0; 9] 4433)), true);
   (FTryConnectToResponse (mk_try_response 5 false (Some RateLimited) (V6 (replicate 16 1) 80 0 0)), true);
   (FClose (CloseConnection (mk_conn_close 10 (Some 6) [66; 65; 68])), true);
   (FStream (mk_stream 8 100 true [1]), false)].


(** Whatever payload arrives, iterating over it ends after at most as many rounds as it
    has bytes, and an error, if there is one, is the last thing it yields. *)
Theorem payload_iteration_terminates (payload : list Z) (Hp : bytes_ok payload) :
  ∃ xs, collect (length payload) (mk_iter payload None) = Some xs ∧ (length xs ≤ length payload)%nat
  ∧ ∀ i e, xs !! i = Some (Err e) → S i = length xs.
Proof.
  destruct (collect_total (length payload) (mk_iter payload None) Hp ltac:(done)) as (xs & Hc & Hx & Hl).
  exists xs. split; [done|]. split; [done|]. clear Hc Hl.
  induction Hx as [|e|f xs _ _ IH]; intros [|i] err; simpl; try done.
  intros Hi. by rewrite (IH i err Hi).
Qed.

Lemma payload_iteration_terminates_witness :
  ∃ xs, collect 5 (mk_iter [1; 0; 24; 3; 5] None) = Some xs ∧ (length xs ≤ 5)%nat
  ∧ ∀ i e, xs !! i = Some (Err e) → S i = length xs.
Proof.
  apply (payload_iteration_terminates [1; 0; 24; 3; 5]).
  repeat (constructor; [split; vm_compute; congruence|]). constructor.
Defined.

(** C35: whatever payload arrives, every frame the iterator hands to the connection has all its
    fields in range: identifiers, offsets and counts below 2^62, connection identifiers of 1 to
    20 bytes with a 16-byte token and nothing to retire beyond their own number, addresses and
    ports of the right size, acknowledgement ranges that can be walked. *)
Theorem received_frames_typed (payload : list Z) (xs : list (result Frame InvalidFrame)) (fuel : nat) (f : Frame)
  (Hp : bytes_ok payload) (Hc : collect fuel (mk_iter payload None) = Some xs) (Hf : Ok f ∈ xs) :
  frame_ok f.
Proof.
  assert (∀ fuel it xs, bytes_ok (bytes it) → collect fuel it = Some xs → Ok f ∈ xs → frame_ok f) as Hgen.
  { clear. induction fuel as [|fuel IH]; intros it xs Hb; cbn [collect];
      (destruct (next it) as [[x|] it'] eqn:Hn; [|by intros [= <-] ?%not_elem_of_nil]); [done|].
    destruct (next_sound _ _ _ Hb Hn) as (Hb' & _ & Hx).
    destruct (collect fuel it') as [ys|] eqn:Hy; simpl; [|done]. intros [= <-].
    intros [<-|Hin]%elem_of_cons; [done|]. by apply (IH it' ys). }
  by apply (Hgen fuel (mk_iter payload None) xs).
Qed.

Lemma received_frames_typed_witness : frame_ok (FStopSending (mk_stop_sending 8 300)).
Proof.
  apply (received_frames_typed [5; 8; 0x41; 0x2c; 1] [Ok (FStopSending (mk_stop_sending 8 300)); Ok Ping] 5).
  - repeat (constructor; [split; vm_compute; congruence|]). constructor.
  - reflexivity.
  - left.
Defined.

(** *** Sizes *)

Lemma zlen_code n : zlen (varint_encode (code n)) = size (code n).
Proof. apply zlen_varint_encode, code_range. Qed.

Lemma zlen_put_addr a : addr_ok a → zlen (put_addr a) ≤ 18 ∧ zlen (put_addr_legacy a) ≤ 27.
Proof.
  destruct a; cbn [addr_ok put_addr put_addr_legacy]; intros [Ho _];
    rewrite ?zlen_cons, ?zlen_app; unfold zlen; rewrite ?length_be_encode, Ho; lia.
Qed.

Lemma zlen_written x bs : 0 ≤ x → write_var x = Ok bs → zlen bs = size x.
Proof. intros Hx Hw. by destruct (decode_encode_checked x bs [] Hx Hw) as (_ & ? & _). Qed.

Lemma zlen_code_written n bs : write_var (code n) = Ok bs → zlen bs = size (code n).
Proof. apply zlen_written. destruct n; simpl; lia. Qed.

Lemma zlen_stream_id id : 0 ≤ id → zlen (stream_id_encode id) ≤ 8.
Proof.
  intros Hid. unfold stream_id_encode, from_u64. destruct (Z.ltb_spec id (2 ^ 62)).
  - rewrite zlen_varint_encode by (unfold is_u; lia). apply size_bounds.
  - by vm_compute.
Qed.

(** Split the result of an encoder into its fields and measure them. *)
Ltac measure H :=
  repeat match type of H with
  | (match write_var (code ?n) with Ok _ => _ | Err _ => _ end) = Ok _ =>
    let W := fresh "W" in
    destruct (write_var (code n)) as [?|] eqn:W; [|discriminate H]; apply zlen_code_written in W;
    let v := eval vm_compute in (size (code n)) in change (size (code n)) with v in W
  | (match write_var ?x with Ok _ => _ | Err _ => _ end) = Ok _ =>
    let W := fresh "W" in
    destruct (write_var x) as [?|] eqn:W; [|discriminate H]; apply zlen_written in W; [|lia];
    pose proof (size_bounds x)
  end;
  injection H as <-; rewrite ?zlen_app, ?zlen_cons, ?zlen_nil.

(** The room the packet builder makes sure of before it writes a frame: a [SIZE_BOUND], the
    number in the check, or the exact [size]. *)
Definition room (length : bool) (f : Frame) : Z :=
  match f with
  | Padding | Ping | ImmediateAck | HandshakeDone => 1
  | FStream s => SIZE_BOUND SStream + zlen (st_data s)
  | FCrypto c => SIZE_BOUND SCrypto + zlen (cr_data c)
  | FResetStream _ => SIZE_BOUND SResetStream
  | FStopSending _ => SIZE_BOUND SStopSending
  | FAddAddress _ => SIZE_BOUND SAddAddress
  | FPunchMeNow _ => SIZE_BOUND SPunchMeNow
  | FRemoveAddress _ => SIZE_BOUND SRemoveAddress
  | FObservedAddress _ => SIZE_BOUND SObservedAddress
  | FTryConnectTo _ => SIZE_BOUND STryConnectTo
  | FTryConnectToResponse _ => SIZE_BOUND STryConnectToResponse
  | RetireConnectionId _ => SIZE_BOUND SRetireConnectionId
  | MaxData _ | MaxStreams _ _ | PathChallenge _ | PathResponse _ => 9
  | MaxStreamData _ _ => 17
  | FNewToken t => new_token_size t
  | FDatagram d => datagram_size d length
  | FNewConnectionId _ => 54
  | FAckFrequency _ => 34
  | _ => 0
  end.

Lemma peer_id_len p : match p with Some i => length i = 32%nat ∧ bytes_ok i | None => True end →
  zlen (put_peer_id p) ≤ 33.
Proof. destruct p as [i|]; [intros [Hi _]; simpl; rewrite zlen_cons; unfold zlen; lia|by vm_compute]. Qed.

Lemma stream_meta_size m len bs : 0 ≤ m_id m → 0 ≤ (m_offsets m).1 ≤ (m_offsets m).2 →
  stream_meta_encode m len = Ok bs → zlen bs ≤ SIZE_BOUND SStream.
Proof.
  intros Hid Ho H. unfold stream_meta_encode in H. pose proof (zlen_stream_id _ Hid).
  match type of H with context [write_var ?t] => assert (size t = 1 ∧ 0 ≤ t) as [Ht ?] end.
  { destruct (negb _), len, (m_fin m); vm_compute; split; congruence. }
  destruct (write_var _) as [b|] eqn:W; [|done]. apply zlen_written in W; [|done]. rewrite Ht in W.
  destruct ((m_offsets m).1 =? 0), len; cbn [SIZE_BOUND]; measure H; lia.
Qed.

Lemma address_size f len max_len bs : frame_ok f → has_address f = true → frame_bytes len max_len f = Ok bs →
  zlen bs ≤ room len f.
Proof.
  intros Hok Ha H. destruct f; try done; cbn [frame_ok frame_bytes room SIZE_BOUND] in *.
  - destruct Hok as ([? _] & Had & _). apply zlen_put_addr in Had as [? _]. unfold add_encode_rfc in H.
    destruct (is_v6 _); measure H; lia.
  - destruct Hok as ([? _] & [? _] & Had & Hpid). apply zlen_put_addr in Had as [? _].
    apply peer_id_len in Hpid. unfold punch_encode in H. destruct (is_v6 _); measure H; lia.
  - destruct Hok as ([? _] & Had & _). apply zlen_put_addr in Had as [? _]. unfold observed_encode in H.
    destruct (is_v6 _); measure H; lia.
  - destruct Hok as ([? _] & Had & _). apply zlen_put_addr in Had as [? _]. unfold try_connect_encode in H.
    destruct (is_v6 _); measure H; lia.
  - destruct Hok as ([? _] & Had & _). apply zlen_put_addr in Had as [? _]. unfold try_response_encode in H.
    destruct (is_v6 _); measure H; lia.
Qed.

(** The space checks of the packet builder are sufficient.  No frame with fields in range
    is longer than the room the builder makes sure of before writing it, and the legacy formats
    of ADD_ADDRESS and PUNCH_ME_NOW fit the same bounds. *)
Theorem frame_size_bounds (f : Frame) (len : bool) (max_len : Z) (bs : list Z) (Hok : frame_ok f)
  (Hcl : ∀ c, f ≠ FClose c) :
  (frame_bytes len max_len f = Ok bs → zlen bs ≤ room len f)
  ∧ (∀ a, f = FAddAddress a → add_encode_legacy a = Ok bs → zlen bs ≤ room len f)
  ∧ (∀ p, f = FPunchMeNow p → punch_encode false p = Ok bs → zlen bs ≤ room len f).
Proof.
  split; [|split].
  - intros H. destruct (has_address f) eqn:Ha; [by apply (address_size f len max_len)|].
    destruct f; try done; try (by exfalso; eapply Hcl); cbn [frame_ok frame_bytes room SIZE_BOUND ty] in *;
      try (apply zlen_code_written in H; change (zlen bs = 1) in H; lia).
    + destruct Hok as ([? _] & [? _] & [? _]). unfold reset_stream_encode in H.
      pose proof (zlen_stream_id (rs_id r)). measure H. lia.
    + destruct Hok as ([? _] & [? _]). unfold stop_sending_encode in H.
      pose proof (zlen_stream_id (ss_id s)). measure H. lia.
    + destruct Hok as ([? _] & _). unfold crypto_encode in H. pose proof (zlen_nonneg (cr_data c)). measure H. lia.
    + unfold new_token_encode in H. pose proof (zlen_nonneg token). unfold new_token_size. measure H. lia.
    + destruct Hok as ([? _] & [? _] & _). pose proof (zlen_nonneg (st_data s)).
      destruct (stream_meta_encode _ _) as [h|] eqn:Hh; [|done]. injection H as <-.
      apply stream_meta_size in Hh; [|simpl; lia..]. cbn [SIZE_BOUND] in Hh. rewrite zlen_app. lia.
    + destruct Hok as [? _]. unfold max_data_encode in H. measure H. lia.
    + destruct Hok as ([? _] & [? _]). unfold max_stream_data_encode in H. pose proof (zlen_stream_id id). measure H. lia.
    + destruct Hok as [? _]. unfold max_streams_encode in H. destruct dir; measure H; lia.
    + destruct Hok as (? & ? & ? & _ & Ht & _). unfold new_cid_encode in H. measure H. rewrite zlen_app. lia.
    + destruct Hok as [? _]. unfold retire_cid_encode in H. measure H. lia.
    + unfold path_token_encode in H. measure H. lia.
    + unfold path_token_encode in H. measure H. lia.
    + unfold datagram_encode in H. unfold datagram_size. pose proof (zlen_nonneg data).
      destruct len; cbn [flag] in H;
        (destruct (write_var (Z.lor _ _)) as [?|] eqn:W; [|done]; apply zlen_written in W; [|by vm_compute]; change (size _) with 1 in W);
        measure H; lia.
    + destruct Hok as ([? _] & [? _] & [? _] & [? _]). unfold ack_frequency_encode in H. measure H. lia.
    + destruct Hok as [? _]. unfold remove_encode in H. measure H. lia.
  - intros a -> H. cbn [room SIZE_BOUND]. destruct Hok as ([? _] & Had & [? _]).
    apply zlen_put_addr in Had as [_ ?]. unfold add_encode_legacy in H. destruct (is_v6 _); measure H; lia.
  - intros p -> H. cbn [room SIZE_BOUND]. destruct Hok as ([? _] & [? _] & Had & Hpid).
    apply zlen_put_addr in Had as [_ ?]. apply peer_id_len in Hpid. unfold punch_encode in H.
    destruct (is_v6 _); measure H; lia.
Qed.

Lemma frame_size_bounds_witness : ∃ bs,
  frame_bytes true 0 (FResetStream (mk_reset_stream (2 ^ 61) (2 ^ 61) (2 ^ 61))) = Ok bs ∧ zlen bs ≤ 25.
Proof.
  destruct (frame_bytes true 0 (FResetStream (mk_reset_stream (2 ^ 61) (2 ^ 61) (2 ^ 61)))) as [bs | e] eqn:H;
    [| vm_compute in H; discriminate H].
  exists bs. split; [reflexivity |].
  apply (frame_size_bounds (FResetStream (mk_reset_stream (2 ^ 61) (2 ^ 61) (2 ^ 61))) true 0 bs).
  - vm_compute. repeat split; congruence.
  - done.
  - exact H.
Defined.

(** *** Where the formats do not meet *)

(** A CLOSE frame whose error code takes at most two bytes fits the room it is given. *)
Lemma close_fits c max_len bs : close_ok c → 25 ≤ max_len < 2 ^ 62 →
  match c with CloseConnection c => cc_error_code c | CloseApplication c => ac_error_code c end < 2 ^ 14 →
  close_encode c max_len = Ok bs → zlen bs ≤ max_len.
Proof.
  destruct c as [[ec ft reason]|[ec reason]]; cbn [close_ok cc_error_code cc_reason frame_type ac_error_code ac_reason];
    intros Hok Hm Hec H; unfold close_encode, conn_close_encode, app_close_encode in H;
    cbn [cc_error_code cc_reason frame_type ac_error_code ac_reason] in H;
    pose proof (zlen_nonneg reason); pose proof (size_bounds (zlen reason));
    assert (size ec ≤ 2) by (change 2 with (size (2 ^ 14 - 1)); apply size_mono; lia).
  - assert (0 ≤ default 0 ft) by (destruct ft as [t|]; [destruct Hok as (_ & _ & [? _] & _); done|done]).
    pose proof (size_bounds (default 0 ft)). destruct Hok as ([? _] & _). unfold wrapping_sub in H.
    rewrite !(wrap_small 64) in H by (rewrite ?wrap_small; unfold is_u; rewrite ?wrap_small; unfold is_u; lia).
    set (n := Z.min _ _) in H. assert (size n ≤ size (zlen reason)) by (apply size_mono; lia).
    measure H. rewrite zlen_ztake by lia. lia.
  - destruct Hok as ([? _] & _). unfold wrapping_sub in H.
    rewrite !(wrap_small 64) in H by (rewrite ?wrap_small; unfold is_u; lia).
    set (n := Z.min _ _) in H. assert (size n ≤ size (zlen reason)) by (apply size_mono; lia).
    measure H. rewrite zlen_ztake by lia. lia.
Qed.

(** With a larger application error code it does not: the room is taken to be three bytes
    larger than the reason and its length, whatever the code needs. *)
Theorem close_exceeds_max_len :
  match close_encode (CloseApplication (mk_app_close (2 ^ 40) (replicate 100 65))) 60 with
  | Ok bs => zlen bs = 65
  | Err _ => False
  end.
Proof. reflexivity. Qed.

(** A legacy ADD_ADDRESS frame with an IPv4 address is never read back: the bytes of its
    priority are taken for the address, and the address is left over as the next frame. *)
Theorem legacy_add_address_misread (seq port : Z) (o k : list Z) (Hs : is_u 62 seq)
  (Ha : addr_ok (V4 o port)) :
  let a := add_address_new seq (V4 o port) in
  ∃ bs f rest, add_encode_legacy a = Ok (varint_encode (code ADD_ADDRESS_IPV4) ++ bs)
  ∧ add_decode_auto false (bs ++ k) = Ok (f, rest) ∧ zlen rest = zlen k + size (priority a) + 1.
Proof.
  intros a. unfold add_encode_legacy. change (is_v6 (aa_address a)) with false.
  assert (is_u 62 (priority a)) as Hp by apply calculate_priority_range.
  rewrite write_code, !write_var_enc by done. destruct Ha as (Ho & _ & _).
  set (tl := varint_encode (priority a) ++ put_addr_legacy (V4 o port)).
  exists (varint_encode seq ++ tl).
  unfold add_decode_auto, add_decode_rfc, get_varint. rewrite <-app_assoc, get_var_enc by done.
  assert (zlen tl = size (priority a) + 7) as Hl.
  { unfold tl. rewrite zlen_app, zlen_varint_encode by done. cbn [put_addr_legacy].
    rewrite zlen_cons, zlen_app. unfold zlen. rewrite Ho, length_be_encode. lia. }
  pose proof (zlen_nonneg k). pose proof (size_bounds (priority a)).
  unfold read_addr. rewrite (proj2 (Z.ltb_ge _ _)) by (rewrite zlen_app; lia).
  eexists _, _. split; [done|]. split; [done|].
  change (drop 6 (tl ++ k)) with (zdrop 6 (tl ++ k)). rewrite zlen_zdrop; rewrite zlen_app; lia.
Qed.

End Frames.
