(* ===== verification/Sums.v ===== *)
(** * Sums over finite maps

    Totals over the streams of a connection: how a sum of integers over a map changes when
    an entry is added, replaced or removed. *)

From stdpp Require Import gmap fin_maps.
From S2P Require Import Prelude.

Definition msum {A} (f : A → Z) (m : gmap Z A) : Z := map_fold (λ _ x n, f x + n) 0 m.

Section sums.
Context {A : Type} (f : A → Z).

Lemma msum_empty : msum f ∅ = 0.
Proof. apply map_fold_empty. Qed.

Lemma msum_insert m k x : m !! k = None → msum f (<[k := x]> m) = f x + msum f m.
Proof. intros Hk. unfold msum. rewrite map_fold_insert_L; [done | | done]. intros. lia. Qed.

Lemma msum_delete m k x : m !! k = Some x → msum f m = f x + msum f (delete k m).
Proof.
  intros Hk. rewrite <- (insert_delete_id m k x Hk) at 1. by rewrite msum_insert by apply lookup_delete_eq.
Qed.

Lemma msum_update m k x y : m !! k = Some x → msum f (<[k := y]> m) = msum f m - f x + f y.
Proof.
  intros Hk. rewrite (msum_delete m k x Hk), <- insert_delete_eq, msum_insert by apply lookup_delete_eq. lia.
Qed.

(** Replacing an entry by one of the same weight. *)
Lemma msum_same m k x y : m !! k = Some x → f y = f x → msum f (<[k := y]> m) = msum f m.
Proof. intros Hk E. rewrite (msum_update m k x y Hk). lia. Qed.

Lemma msum_nonneg m : map_Forall (λ _ x, 0 ≤ f x) m → 0 ≤ msum f m.
Proof.
  induction m as [|k x m Hk IH] using map_ind; intros Hm; [by rewrite msum_empty |].
  rewrite msum_insert by done. apply map_Forall_insert in Hm as [? Hm]; [| done]. specialize (IH Hm). lia.
Qed.

Lemma msum_elem m k x : map_Forall (λ _ x, 0 ≤ f x) m → m !! k = Some x → f x ≤ msum f m.
Proof.
  intros Hm Hk. rewrite (msum_delete m k x Hk). pose proof (msum_nonneg (delete k m)) as H.
  assert (0 ≤ msum f (delete k m)); [| lia]. apply H. by apply map_Forall_delete.
Qed.

(** Entries without weight do not count. *)
Lemma msum_zero m : map_Forall (λ _ x, f x = 0) m → msum f m = 0.
Proof.
  induction m as [|k x m Hk IH] using map_ind; intros Hm; [by rewrite msum_empty |].
  rewrite msum_insert by done. apply map_Forall_insert in Hm as [-> Hm]; [| done]. by rewrite IH.
Qed.

Lemma msum_extend m : ∀ m', (∀ k, m' !! k = m !! k ∨ (m !! k = None ∧ ∃ x, m' !! k = Some x ∧ f x = 0)) →
  msum f m' = msum f m.
Proof.
  induction m as [|k x m Hk IH] using map_ind; intros m' Hm.
  - rewrite msum_empty. apply msum_zero. intros k x Hx. destruct (Hm k) as [E | (_ & y & E & Hy)]; [| congruence].
    by rewrite E, lookup_empty in Hx.
  - assert (Ex : m' !! k = Some x).
    { destruct (Hm k) as [-> | [E _]]; [apply lookup_insert_eq | by rewrite lookup_insert_eq in E]. }
    rewrite (msum_delete m' k x Ex), msum_insert by done. f_equal. apply IH. intros i. specialize (Hm i).
    destruct (decide (i = k)) as [-> |]; [left; by rewrite lookup_delete_eq, Hk |].
    by rewrite lookup_delete_ne, lookup_insert_ne in * by done.
Qed.

End sums.
