(* ===== verification/StreamSend.v ===== *)
(** * The sending half of a stream

    Models [src/connection/streams/send.rs]: the state of an outgoing stream over its
    send buffer, and the two sources of bytes the application writes from.  The trait
    [BytesSource] is a class with its laws; [Send::write] is proved against the laws, and
    both implementations satisfy them.

    Offsets stay below 2^62 and lengths below 2^63, so sums do not wrap; the one
    subtraction that depends on an invariant wraps. *)

From Stdlib Require Import String.
From S2P Require Import Prelude BTree RangeSets Coding SendBuf Frames.

(** ** Sources of bytes *)

(** [trait BytesSource].  [contents] and [chunk_count] are the bytes and the complete chunks
    not taken yet; the code never computes them, here they bound the writing loop and state
    the laws. *)
Class BytesSource (Src : Type) := {
  pop_chunk : Z → Src → (list Z * Z) * Src;
  contents : Src → list Z;
  chunk_count : Src → Z;
}.

(** What [Send::write] relies on: the chunks are the contents in order, no longer than the
    limit, empty only if there is nothing to take or no room for it, and the complete ones
    are counted. *)
Class BytesSourceLaws (Src : Type) `{BytesSource Src} := {
  pop_chunk_split limit s chunk n s' : 0 ≤ limit → pop_chunk limit s = ((chunk, n), s') →
    contents s = chunk ++ contents s' ∧ zlen chunk ≤ limit;
  pop_chunk_empty limit s n s' : 0 ≤ limit → pop_chunk limit s = (([], n), s') →
    limit = 0 ∨ contents s = [];
  pop_chunk_count limit s chunk n s' : 0 ≤ limit → pop_chunk limit s = ((chunk, n), s') →
    n = chunk_count s - chunk_count s';
}.

Module BytesArray.

(** The slice is borrowed mutably: taken chunks are left empty in it. *)
Record BytesArray := mk_bytes_array { chunks : list (list Z); consumed : nat }.

Definition from_chunks (chunks : list (list Z)) : BytesArray := mk_bytes_array chunks 0.

(** The loop of [pop_chunk]; each round but the last consumes a chunk. *)
Fixpoint pop_loop (fuel : nat) (limit chunks_consumed : Z) (a : BytesArray) : (list Z * Z) * BytesArray :=
  match fuel, chunks a !! consumed a with
  | O, _ | _, None => (([], chunks_consumed), a)
  | S fuel, Some chunk =>
    if zlen chunk <=? limit then
      let a := mk_bytes_array (<[consumed a := []]> (chunks a)) (S (consumed a)) in
      if bool_decide (chunk = []) then pop_loop fuel limit (chunks_consumed + 1) a
      else ((chunk, chunks_consumed + 1), a)
    else if 0 <? limit then
      ((ztake limit chunk, chunks_consumed),
       mk_bytes_array (<[consumed a := zdrop limit chunk]> (chunks a)) (consumed a))
    else (([], chunks_consumed), a)
  end.

Definition pop_chunk (limit : Z) (a : BytesArray) : (list Z * Z) * BytesArray :=
  pop_loop (length (chunks a) - consumed a) limit 0 a.

Definition contents (a : BytesArray) : list Z := concat (drop (consumed a) (chunks a)).

Definition chunk_count (a : BytesArray) : Z := Z.of_nat (length (chunks a) - consumed a).

Lemma pop_loop_spec limit : 0 ≤ limit → ∀ fuel a cc chunk n a', (length (chunks a) - consumed a ≤ fuel)%nat →
  pop_loop fuel limit cc a = ((chunk, n), a') →
  contents a = chunk ++ contents a' ∧ zlen chunk ≤ limit ∧ n - cc = chunk_count a - chunk_count a'
  ∧ (chunk = [] → limit = 0 ∨ contents a = []).
Proof.
  intros Hl. unfold contents, chunk_count.
  induction fuel as [|fuel IH]; intros a cc chunk n a' Hf; simpl.
  - intros; simplify_eq. rewrite drop_ge by lia. rewrite zlen_nil. split_and!; [done | lia | lia | by right].
  - destruct (chunks a !! consumed a) as [c |] eqn:Ec.
    2:{ apply lookup_ge_None in Ec. intros; simplify_eq. rewrite drop_ge by lia. rewrite zlen_nil.
        split_and!; [done | lia | lia | by right]. }
    pose proof (lookup_lt_Some _ _ _ Ec) as Hlt. rewrite (drop_S _ _ _ Ec). simpl.
    destruct (Z.leb_spec (zlen c) limit) as [Hc | Hc].
    + case_bool_decide as Hnil.
      * subst c. intros E. apply IH in E; simpl in *; rewrite ?length_insert in *; [| lia].
        rewrite drop_insert_lt in E by lia. destruct E as (-> & ? & ? & ?). split_and!; try done; lia.
      * intros; simplify_eq/=. rewrite drop_insert_lt, length_insert by lia.
        split_and!; [done.. | lia | done].
    + destruct (Z.ltb_spec 0 limit).
      * intros; simplify_eq/=.
        rewrite (drop_S (<[consumed a:=_]> _) (zdrop limit c)), drop_insert_lt, length_insert by
          (lia || by apply list_lookup_insert_eq).
        simpl. rewrite app_assoc, ztake_zdrop, zlen_ztake by lia. split_and!; [done | lia | lia |].
        intros E. apply (f_equal zlen) in E. rewrite zlen_ztake, zlen_nil in E by lia. by left.
      * intros; simplify_eq/=. rewrite (drop_S _ _ _ Ec), zlen_nil. split_and!; [done | lia | lia |].
        intros _. left. lia.
Qed.

End BytesArray.

#[export] Instance bytes_array_source : BytesSource BytesArray.BytesArray :=
  {| pop_chunk := BytesArray.pop_chunk; contents := BytesArray.contents;
     chunk_count := BytesArray.chunk_count |}.

#[export] Instance bytes_array_laws : BytesSourceLaws BytesArray.BytesArray.
Proof.
  split; intros limit s.
  - intros ? ? ? ? E. eapply BytesArray.pop_loop_spec in E as (? & ? & ? & ?); done.
  - intros ? ? ? E. eapply BytesArray.pop_loop_spec in E as (? & ? & ? & H'); [by apply H' | done..].
  - intros ? ? ? ? E. eapply BytesArray.pop_loop_spec in E as (? & ? & ? & ?); [simpl; lia | done..].
Qed.

Module ByteSlice.

Record ByteSlice := mk_byte_slice { data : list Z }.

Definition from_slice (data : list Z) : ByteSlice := mk_byte_slice data.

Definition pop_chunk (limit : Z) (s : ByteSlice) : (list Z * Z) * ByteSlice :=
  let limit := Z.min limit (zlen (data s)) in
  if limit =? 0 then (([], 0), s)
  else
    let chunk := ztake limit (data s) in
    let data := zdrop (zlen chunk) (data s) in
    ((chunk, Z.b2z (bool_decide (data = []))), mk_byte_slice data).

End ByteSlice.

#[export] Instance byte_slice_source : BytesSource ByteSlice.ByteSlice :=
  {| pop_chunk := ByteSlice.pop_chunk; contents := ByteSlice.data;
     chunk_count s := Z.b2z (negb (bool_decide (ByteSlice.data s = []))) |}.

#[export] Instance byte_slice_laws : BytesSourceLaws ByteSlice.ByteSlice.
Proof.
  assert (Hz : ∀ limit (d : list Z), 0 ≤ limit → Z.min limit (zlen d) = 0 → limit = 0 ∨ d = []).
  { intros limit d ? ?. destruct d; [by right | left]. rewrite zlen_cons in *. pose proof (zlen_nonneg d). lia. }
  split; intros limit [d] *; cbn -[Z.min]; unfold ByteSlice.pop_chunk; cbn [ByteSlice.data];
    intros Hl; pose proof (zlen_nonneg d); destruct (Z.eqb_spec (Z.min limit (zlen d)) 0) as [Hm | Hm]; intros; simplify_eq/=.
  - rewrite zlen_nil. split; [done | lia].
  - rewrite zlen_ztake, ztake_zdrop by lia. split; [done | lia].
  - by apply Hz.
  - match goal with E : ztake _ _ = [] |- _ => apply (f_equal zlen) in E; rewrite zlen_ztake, zlen_nil in E; lia end.
  - lia.
  - rewrite zlen_ztake by lia. rewrite (bool_decide_false (d = [])) by (intros ->; rewrite zlen_nil in *; lia).
    simpl. by case_bool_decide.
Qed.

(** ** The stream *)

Module Send.

Inductive SendState := Ready | DataSent (finish_acked : bool) | ResetSent.

#[global] Instance send_state_eq_dec : EqDecision SendState.
Proof. solve_decision. Defined.

Inductive WriteError := WriteBlocked | WriteStopped (error_code : Z) | WriteClosedStream | WriteConnectionClosed.
Inductive FinishError := FinishStopped (error_code : Z) | FinishClosedStream | FinishConnectionClosed.

Record Written := mk_written { w_bytes : Z; w_chunks : Z }.

Record Send := mk_send {
  max_data : Z;
  state : SendState;
  pending : SendBuffer.SendBuffer;
  priority : Z;
  fin_pending : bool;
  connection_blocked : bool;
  stop_reason : option Z;
}.

#[global] Instance send_settable : Settable Send := λ s,
  mk_send (max_data s) (state s) (pending s) (priority s) (fin_pending s) (connection_blocked s) (stop_reason s).

Definition new (max_data : Z) : Send := mk_send max_data Ready SendBuffer.new 0 false false None.

Definition is_reset (s : Send) : bool := bool_decide (state s = ResetSent).
Definition is_writable (s : Send) : bool := bool_decide (state s = Ready).
Definition offset (s : Send) : Z := SendBuffer.offset (pending s).
Definition is_pending (s : Send) : bool := SendBuffer.has_unsent_data (pending s) || fin_pending s.

Definition finish (s : Send) : result Send FinishError :=
  match stop_reason s with
  | Some error_code => Err (FinishStopped error_code)
  | None =>
    if bool_decide (state s = Ready) then Ok (s <| state := DataSent false |> <| fin_pending := true |>)
    else Err FinishClosedStream
  end.

(** The loop of [write]; [None] if it has not ended after [fuel] rounds. *)
Fixpoint write_loop `{BytesSource Src} (fuel : nat) (source : Src) (limit : Z) (result : Written)
  (buf : SendBuffer.SendBuffer) : option (Written * Src * SendBuffer.SendBuffer) :=
  match fuel with
  | O => None
  | S fuel =>
    let '((chunk, chunks_consumed), source) := pop_chunk limit source in
    let result := mk_written (w_bytes result + zlen chunk) (w_chunks result + chunks_consumed) in
    if bool_decide (chunk = []) then Some (result, source, buf)
    else write_loop fuel source (limit - zlen chunk) result (SendBuffer.write chunk buf)
  end.

(** The outer [None] is a loop that has not ended ([write_total] excludes it). *)
Definition write `{BytesSource Src} (source : Src) (limit : Z) (s : Send)
  : option (result (Written * Src * Send) WriteError) :=
  if negb (is_writable s) then Some (Err WriteClosedStream)
  else
    match stop_reason s with
    | Some error_code => Some (Err (WriteStopped error_code))
    | None =>
      let budget := wrapping_sub 64 (max_data s) (SendBuffer.offset (pending s)) in
      if budget =? 0 then Some (Err WriteBlocked)
      else
        '(result, source, buf) ← write_loop (S (length (contents source))) source (Z.min limit budget)
          (mk_written 0 0) (pending s);
        Some (Ok (result, source, s <| pending := buf |>))
    end.

Definition reset (s : Send) : Send :=
  match state s with DataSent _ | Ready => s <| state := ResetSent |> | ResetSent => s end.

Definition try_stop (error_code : Z) (s : Send) : bool * Send :=
  match stop_reason s with
  | None => (true, s <| stop_reason := Some error_code |>)
  | Some _ => (false, s)
  end.

(** [None] is the panic of [SendBuffer::ack]. *)
Definition ack (frame : Frames.StreamMeta) (s : Send) : option (bool * Send) :=
  buf ← SendBuffer.ack (Frames.m_offsets frame) (pending s);
  let s := s <| pending := buf |> in
  match state s with
  | DataSent finish_acked =>
    let finish_acked := finish_acked || Frames.m_fin frame in
    Some (finish_acked && SendBuffer.is_fully_acked (pending s), s <| state := DataSent finish_acked |>)
  | _ => Some (false, s)
  end.

Definition increase_max_data (offset : Z) (s : Send) : bool * Send :=
  if (offset <=? max_data s) || negb (bool_decide (state s = Ready)) then (false, s)
  else (SendBuffer.offset (pending s) =? max_data s, s <| max_data := offset |>).

(** ** Lemmas *)

Lemma fold_write_offset cs : ∀ b,
  SendBuffer.offset (fold_left (λ b c, SendBuffer.write c b) cs b) = SendBuffer.offset b + zlen (concat cs).
Proof.
  induction cs as [|c cs IH]; intros b; simpl; [rewrite zlen_nil; lia |]. rewrite IH, zlen_app. simpl. lia.
Qed.

(** The loop appends the longest prefix of the contents that the limit admits. *)
Lemma write_loop_spec `{BytesSourceLaws Src} fuel : ∀ (src : Src) limit r buf,
  0 ≤ limit → (length (contents src) < fuel)%nat →
  ∃ cs src', let n := Z.min limit (zlen (contents src)) in
    write_loop fuel src limit r buf
    = Some (mk_written (w_bytes r + n) (w_chunks r + (chunk_count src - chunk_count src')), src',
            fold_left (λ b c, SendBuffer.write c b) cs buf)
    ∧ contents src = concat cs ++ contents src' ∧ zlen (concat cs) = n.
Proof.
  induction fuel as [|fuel IH]; intros src limit r buf Hl Hf; [lia |]. cbn [write_loop].
  destruct (pop_chunk limit src) as [[chunk n] src1] eqn:E.
  pose proof (pop_chunk_count _ _ _ _ _ Hl E) as ->.
  destruct (pop_chunk_split _ _ _ _ _ Hl E) as [Hc Hlen]. pose proof (zlen_nonneg (contents src)).
  case_bool_decide as Hnil.
  - subst chunk. exists [], src1. simpl in *. rewrite !zlen_nil, <- Hc.
    assert (Z.min limit (zlen (contents src)) = 0) as ->.
    { destruct (pop_chunk_empty _ _ _ _ Hl E) as [-> | ->]; rewrite ?zlen_nil; lia. }
    split_and!; [by rewrite Z.add_0_r | done | done].
  - assert (length chunk ≠ 0%nat) by (by destruct chunk).
    pose proof (f_equal length Hc) as Hc'. rewrite length_app in Hc'.
    destruct (IH src1 (limit - zlen chunk) (mk_written (w_bytes r + zlen chunk) (w_chunks r + (chunk_count src - chunk_count src1)))
      (SendBuffer.write chunk buf) ltac:(lia) ltac:(lia)) as (cs & src' & -> & Hcs & Hn).
    assert (zlen chunk + Z.min (limit - zlen chunk) (zlen (contents src1)) = Z.min limit (zlen (contents src))) as Heq
      by (rewrite Hc, zlen_app; lia).
    exists (chunk :: cs), src'. simpl. rewrite zlen_app, Hn, Heq, Hc, Hcs, <- app_assoc. split_and!; [| done..].
    rewrite <- Hcs, <- Hc, <- Heq. do 3 f_equal. f_equal; lia.
Qed.

(** A write that is not refused. *)
Lemma write_spec `{BytesSourceLaws Src} (source : Src) limit s : 0 ≤ limit → is_writable s = true → stop_reason s = None →
  0 ≤ offset s < max_data s → is_u 64 (max_data s) →
  let n := Z.min (Z.min limit (max_data s - offset s)) (zlen (contents source)) in
  ∃ cs source', write source limit s
    = Some (Ok (mk_written n (chunk_count source - chunk_count source'), source',
        s <| pending := fold_left (λ b c, SendBuffer.write c b) cs (pending s) |>))
  ∧ contents source = concat cs ++ contents source' ∧ zlen (concat cs) = n.
Proof.
  intros Hlimit Hready Hstop Hoff Hmax n. unfold write. rewrite Hready, Hstop. cbn [negb]. unfold offset in *.
  unfold wrapping_sub. rewrite wrap_small by (unfold is_u in *; lia).
  rewrite (proj2 (Z.eqb_neq _ _)) by lia.
  destruct (write_loop_spec (S (length (contents source))) source
    (Z.min limit (max_data s - SendBuffer.offset (pending s))) (mk_written 0 0) (pending s)
    ltac:(lia) ltac:(lia)) as (cs & src' & -> & Hc & Hn).
  by exists cs, src'.
Qed.

(** With the stream writable, not stopped and within its flow control limit, [write] takes from
    any source exactly as many bytes as the connection's limit, the stream's remaining credit
    and the source allow: it reports their number and the number of chunks used up, the bytes
    are appended to the stream in order, the source keeps the rest, and the offset stays within
    the peer's limit. *)
Theorem write_exact {Src} `{BytesSourceLaws Src} (source : Src) (limit : Z) (s : Send)
  (Hlimit : 0 ≤ limit) (Hready : is_writable s = true) (Hstop : stop_reason s = None)
  (Hoff : 0 ≤ offset s < max_data s) (Hmax : is_u 64 (max_data s)) :
  let n := Z.min (Z.min limit (max_data s - offset s)) (zlen (contents source)) in
  ∃ source' s', write source limit s
    = Some (Ok (mk_written n (chunk_count source - chunk_count source'), source', s'))
  ∧ contents source' = zdrop n (contents source)
  ∧ concat (SendBuffer.unacked_segments (pending s'))
    = concat (SendBuffer.unacked_segments (pending s)) ++ ztake n (contents source)
  ∧ offset s' = offset s + n ∧ offset s' ≤ max_data s' ∧ s' = s <| pending := pending s' |>.
Proof.
  intros n. destruct (write_spec source limit s Hlimit Hready Hstop Hoff Hmax) as (cs & src' & -> & Hc & Hn).
  fold n in Hn. exists src', (s <| pending := fold_left (λ b c, SendBuffer.write c b) cs (pending s) |>).
  unfold offset in *. simpl. rewrite fold_write_offset, Hn. split_and!; try done; try lia.
  - rewrite Hc. by rewrite (zdrop_app_zlen n (concat cs)).
  - assert (ztake n (contents source) = concat cs) as -> by (rewrite Hc; by apply ztake_app_zlen).
    clear. generalize (pending s). induction cs as [|c cs IH]; intros b; simpl; [by rewrite app_nil_r |].
    rewrite IH. simpl. rewrite concat_app. simpl. by rewrite app_nil_r, app_assoc.
Qed.

Lemma write_exact_witness : ∃ source' s',
  write (BytesArray.from_chunks [[1; 2]; []; [3; 4; 5]]) 100 (new 4)
  = Some (Ok (mk_written 4 (3 - chunk_count source'), source', s')) ∧ contents source' = [5].
Proof.
  destruct (write_exact (BytesArray.from_chunks [[1; 2]; []; [3; 4; 5]]) 100 (new 4)) as (source' & s' & E & Hc & _);
    [lia | reflexivity | reflexivity | vm_compute; split; [discriminate | reflexivity]
    | vm_compute; split; [discriminate | reflexivity] |].
  exists source', s'. split; [exact E | exact Hc].
Defined.

(** [write] never loops. *)
Lemma write_total `{BytesSourceLaws Src} (source : Src) limit s : 0 ≤ limit →
  write source limit s ≠ None.
Proof.
  intros Hl. unfold write. destruct (is_writable s), (stop_reason s); cbn [negb]; try done.
  case_goal; [done |].
  pose proof (wrap_bound 64 (max_data s - SendBuffer.offset (pending s)) ltac:(lia)) as [Hb _].
  destruct (write_loop_spec (S (length (contents source))) source
    (Z.min limit (wrapping_sub 64 (max_data s) (SendBuffer.offset (pending s)))) (mk_written 0 0) (pending s)
    ltac:(unfold wrapping_sub; lia) ltac:(lia)) as (cs & src' & -> & _). done.
Qed.

End Send.
