(* ===== verification/StreamRecv.v ===== *)
(** * The receiving half of a stream

    Models the [Recv] of [src/connection/streams/recv.rs]: what is known of an incoming
    stream, the checks made on its frames and the flow control credit they consume, over
    the reassembly buffer.  The read sessions ([Chunks]) need the state of all streams and
    are modelled with it.

    Also holds what the stream files share: the errors of [src/transport_error.rs] and
    the arithmetic of stream identifiers ([StreamId] in [src/lib.rs]). *)

From Stdlib Require Import String.
From S2P Require Import Prelude BTree RangeSets Coding Assembler Frames.

(** ** Transport errors *)

Module TransportError.

Record Error := mk_error { code : Z; reason : string }.

Definition FLOW_CONTROL_ERROR : string → Error := mk_error 0x3.
Definition STREAM_LIMIT_ERROR : string → Error := mk_error 0x4.
Definition STREAM_STATE_ERROR : string → Error := mk_error 0x5.
Definition FINAL_SIZE_ERROR : string → Error := mk_error 0x6.
Definition FRAME_ENCODING_ERROR : string → Error := mk_error 0x7.

End TransportError.

(** ** Stream identifiers *)

Inductive Side := Client | Server.

#[export] Instance side_eq_dec : EqDecision Side.
Proof. solve_decision. Defined.

#[export] Instance dir_eq_dec : EqDecision Frames.Dir.
Proof. solve_decision. Defined.

(** [impl Not for Side]. *)
Definition other (s : Side) : Side := match s with Client => Server | Server => Client end.

(** Maximum number of streams that can be tracked per connection. *)
Definition MAX_STREAM_COUNT : Z := Z.shiftl 1 60.

Module StreamId.

Definition new (initiator : Side) (dir : Frames.Dir) (index : Z) : Z :=
  Z.lor (Z.lor (wrap 64 (Z.shiftl index 2)) (match dir with Frames.Bi => 0 | Frames.Uni => 2 end))
    (match initiator with Client => 0 | Server => 1 end).

Definition initiator (id : Z) : Side := if Z.land id 0x1 =? 0 then Client else Server.
Definition dir (id : Z) : Frames.Dir := if Z.land id 0x2 =? 0 then Frames.Bi else Frames.Uni.
Definition index (id : Z) : Z := Z.shiftr id 2.

Definition dir_bit (d : Frames.Dir) : Z := match d with Frames.Bi => 0 | Frames.Uni => 2 end.
Definition side_bit (s : Side) : Z := match s with Client => 0 | Server => 1 end.

(** An identifier is its index and two bits. *)
Lemma new_eq i d n : is_u 62 n → new i d n = 4 * n + dir_bit d + side_bit i.
Proof.
  unfold is_u. intros Hn. unfold new. rewrite wrap_small by (rewrite Z.shiftl_mul_pow2 by lia; unfold is_u; lia).
  change (match d with Frames.Bi => 0 | Frames.Uni => 2 end) with (dir_bit d).
  change (match i with Client => 0 | Server => 1 end) with (side_bit i).
  rewrite <- Z.lor_assoc. assert (Z.lor (dir_bit d) (side_bit i) = dir_bit d + side_bit i) as -> by (by destruct d, i).
  rewrite lor_shiftl_add by (destruct d, i; unfold is_u; simpl; lia). lia.
Qed.

Lemma index_div id : index id = id / 4.
Proof. unfold index. by rewrite Z.shiftr_div_pow2. Qed.

Lemma initiator_mod id : initiator id = if id mod 2 =? 0 then Client else Server.
Proof. unfold initiator. change 1 with (2 ^ 1 - 1). by rewrite land_low_bits. Qed.

Lemma dir_mod id : dir id = if (id / 2) mod 2 =? 0 then Frames.Bi else Frames.Uni.
Proof.
  unfold dir. assert (Z.land id 2 = Z.shiftl (Z.land (Z.shiftr id 1) 1) 1) as ->.
  { apply Z.bits_inj'. intros k Hk. change 2 with (Z.shiftl 1 1). rewrite Z.land_spec, !Z.shiftl_spec by lia.
    destruct (decide (k = 0)) as [-> |]; [by rewrite andb_false_r |].
    rewrite Z.land_spec, Z.shiftr_spec by lia. by replace (k - 1 + 1) with k by lia. }
  change (Z.land (Z.shiftr id 1) 1) with (Z.land (Z.shiftr id 1) (2 ^ 1 - 1)).
  rewrite land_low_bits, Z.shiftl_mul_pow2, Z.shiftr_div_pow2 by lia.
  change (2 ^ 1) with 2. destruct (Z.eqb_spec ((id / 2) mod 2) 0) as [-> | ?]; [done |].
  by rewrite (proj2 (Z.eqb_neq _ _)) by lia.
Qed.

(** [new] is inverse to the three projections, in both directions. *)
Lemma new_spec i d n : is_u 62 n →
  initiator (new i d n) = i ∧ dir (new i d n) = d ∧ index (new i d n) = n ∧ is_u 64 (new i d n).
Proof.
  intros Hn. rewrite initiator_mod, dir_mod, index_div, new_eq by done. unfold is_u in *.
  assert (0 ≤ dir_bit d + side_bit i < 4) by (destruct d, i; simpl; lia).
  assert ((4 * n + dir_bit d + side_bit i) / 4 = n) as -> by
    (symmetry; apply Z.div_unique with (dir_bit d + side_bit i); lia).
  set (h := match d with Frames.Bi => 0 | Frames.Uni => 1 end).
  assert (4 * n + dir_bit d + side_bit i = side_bit i + (2 * n + h) * 2) as -> by (destruct d; simpl in *; lia).
  rewrite Z.mod_add, Z.div_add by lia. assert (0 ≤ h ≤ 1 ∧ 0 ≤ side_bit i ≤ 1) by (destruct d, i; simpl; lia).
  split_and!; try done; try lia; [by destruct i |].
  rewrite (Z.div_small (side_bit i) 2) by lia. replace (0 + (2 * n + h)) with (h + n * 2) by lia.
  rewrite Z.mod_add by lia. by destruct d.
Qed.

Lemma new_parts id : is_u 64 id → new (initiator id) (dir id) (index id) = id ∧ is_u 62 (index id).
Proof.
  intros Hid. unfold is_u in *. rewrite index_div.
  assert (0 ≤ id / 4 < 2 ^ 62) by (split; [apply Z.div_pos | apply Z.div_lt_upper_bound]; lia).
  split; [| done]. rewrite new_eq by done. rewrite initiator_mod, dir_mod.
  pose proof (Z.div_mod id 4 ltac:(lia)). pose proof (Z.mod_pos_bound id 4 ltac:(lia)).
  assert (id mod 4 = id mod 2 + 2 * ((id / 2) mod 2)) as E by (apply (Z.rem_mul_r id 2 2); lia).
  pose proof (Z.mod_pos_bound id 2 ltac:(lia)). pose proof (Z.mod_pos_bound (id / 2) 2 ltac:(lia)).
  destruct (Z.eqb_spec (id mod 2) 0), (Z.eqb_spec ((id / 2) mod 2) 0); simpl; lia.
Qed.

Lemma new_inj i d n i' d' n' : is_u 62 n → is_u 62 n' → new i d n = new i' d' n' → i = i' ∧ d = d' ∧ n = n'.
Proof.
  intros Hn Hn' E. destruct (new_spec i d n Hn) as (? & ? & ? & _), (new_spec i' d' n' Hn') as (? & ? & ? & _).
  rewrite E in *. split_and!; congruence.
Qed.

End StreamId.

(** ** What the reassembly buffer holds, whatever the peer sends

    The theorems of [Assembler] are about frames of one stream; flow control has to hold
    for frames that contradict each other as well. *)

Module AssemblerBounds.
Import Assembler.

Definition below (e : Z) (b : Buffer) : Prop := 0 ≤ b_offset b ∧ b_offset b + zlen (b_bytes b) ≤ e.

(** An ordered buffer that holds nothing beyond [e]. *)
Record ok (e : Z) (a : Assembler) : Prop := {
  ok_ordered : state a = Ordered;
  ok_below : Forall (below e) (data a);
  ok_read : 0 ≤ bytes_read a ≤ e;
}.

Lemma below_push e b h : Forall (below e) (heap_push b h) ↔ below e b ∧ Forall (below e) h.
Proof. by rewrite heap_push_perm, Forall_cons. Qed.

Lemma below_mark e o b : 0 ≤ o ≤ e → below e b → below e (try_mark_defragment o b).
Proof.
  unfold below, try_mark_defragment, saturating_sub. intros Ho Hb. pose proof (zlen_nonneg (b_bytes b)).
  case_goal; zbool; simpl; [change (zlen (@nil Z)) with 0; lia |]. rewrite zlen_zdrop; lia.
Qed.

Lemma below_mark_all e cs : ∀ o, 0 ≤ o ≤ e → Forall (below e) cs → Forall (below e) (mark_all o cs).
Proof.
  induction cs as [|c cs IH]; intros o Ho Hc; simpl; [done |].
  apply Forall_cons in Hc as [Hb Hc]. pose proof (below_mark e o c Ho Hb) as Hm.
  constructor; [done |]. apply IH; [| done]. unfold below in Hm.
  pose proof (zlen_nonneg (b_bytes (try_mark_defragment o c))). lia.
Qed.

Lemma below_push_nonempty e o buf h : (buf ≠ [] → 0 ≤ o ∧ o + zlen buf ≤ e) → Forall (below e) h →
  Forall (below e) (push_nonempty o buf h).
Proof. intros Hb Hh. destruct buf; [done |]. simpl. apply below_push. split; [by apply Hb | done]. Qed.

Lemma below_rebuild e cs : ∀ o buf h, Forall (below e) cs → 0 ≤ o → (buf ≠ [] → o + zlen buf ≤ e) →
  Forall (below e) h → Forall (below e) (rebuild cs o buf h).
Proof.
  induction cs as [|c cs IH]; intros o buf h Hc Ho Hb Hh; simpl; [apply below_push_nonempty; auto |].
  apply Forall_cons in Hc as [Hc0 Hc]. repeat case_goal; zbool.
  - by apply IH.
  - apply IH; try done. by apply below_push.
  - apply IH; [done | apply Hc0 | intros _; apply Hc0 | apply below_push_nonempty; auto].
  - apply IH; try done. intros _. rewrite zlen_app. unfold below in Hc0. lia.
Qed.

Lemma ok_defragment e a : ok e a → ok e (defragment a).
Proof.
  intros [Ho Hb Hr]. split; [done | | done]. simpl.
  apply below_rebuild; [apply below_mark_all; [lia | done] | lia | done | done].
Qed.

Lemma ok_store e o bytes alloc a : ok e a → 0 ≤ o → o + zlen bytes ≤ e →
  ok e (store o bytes alloc a) ∧ bytes_read (store o bytes alloc a) = bytes_read a.
Proof.
  intros [Ho Hb Hr] H0 He. unfold store. destruct bytes as [|x bs] eqn:E; [done |]. rewrite <- E in *.
  assert (ok e (push_buffer (buffer_new o bytes alloc) a)).
  { split; [done | | done]. simpl. apply below_push. by split. }
  case_goal; [| done]. split; [by apply ok_defragment | done].
Qed.

Lemma ok_mono e e' a : e ≤ e' → ok e a → ok e' a.
Proof.
  intros He [Ho Hb Hr]. split; [done | | lia].
  eapply Forall_impl; [exact Hb |]. unfold below. simpl. lia.
Qed.

Lemma ok_insert e o bytes alloc a : ok e a → 0 ≤ o → o + zlen bytes ≤ e →
  ok e (insert o bytes alloc a) ∧ bytes_read (insert o bytes alloc a) = bytes_read a.
Proof.
  intros Hok H0 He. unfold insert. cbn [state]. rewrite (ok_ordered _ _ Hok).
  set (a' := mk_assembler _ _ _ _ _ _). assert (ok e a') by (by destruct Hok).
  change (bytes_read a) with (bytes_read a'). pose proof (zlen_nonneg bytes).
  repeat case_goal; zbool; [done | |]; apply ok_store; try done; rewrite ?zlen_zdrop; lia.
Qed.

Lemma ok_clear e a : ok e a → ok e (clear a).
Proof. intros [Ho _ Hr]. by split. Qed.

Lemma ok_new e : 0 ≤ e → ok e new.
Proof. by split. Qed.

(** An ordered read advances [bytes_read] by what it gives, and not beyond [e]. *)
Lemma ok_read_loop e n fuel : 0 ≤ n → ∀ a c a', ok e a → read_loop fuel n true a = (c, a') →
  ok e a' ∧ bytes_read a' = bytes_read a + from_option (λ c, zlen (c_bytes c)) 0 c.
Proof.
  intros Hn. induction fuel as [|fuel IH]; intros a c a' Hok; simpl.
  - intros; simplify_eq/=. split; [done | lia].
  - destruct (data a) as [|b h] eqn:Ed; [intros; simplify_eq/=; split; [done | lia] |].
    destruct Hok as [Ho Hb Hr]. rewrite Ed in Hb. apply Forall_cons in Hb as [[Hb0 Hb1] Hb].
    pose proof (zlen_nonneg (b_bytes b)). repeat case_goal; zbool; intros E; simplify_eq/=.
    + split; [| lia]. split; [done | | done]. rewrite Ed. constructor; [by split | done].
    + apply IH in E; [done |]. by split.
    + rewrite zlen_ztake by lia. rewrite zlen_zdrop in * by lia. split; [| done]. split; simpl; [done | | lia].
      apply below_push. split; [| done]. split; simpl; [lia |]. rewrite !zlen_zdrop by (rewrite ?zlen_zdrop; lia). lia.
    + rewrite zlen_zdrop in * by lia. split; [| done]. split; simpl; [done | done | lia].
Qed.

Lemma ok_read_spec e n a c a' : 0 ≤ n → ok e a → read n true a = (c, a') →
  ok e a' ∧ bytes_read a' = bytes_read a + from_option (λ c, zlen (c_bytes c)) 0 c.
Proof. intros. by eapply ok_read_loop. Qed.

End AssemblerBounds.

(** ** The stream *)

Module Recv.
Import TransportError.

Inductive RecvState :=
| StRecv (size : option Z)
| StResetRecvd (size error_code : Z).

Record Recv := mk_recv {
  state : RecvState;
  assembler : Assembler.Assembler;
  sent_max_stream_data : Z;
  end_ : Z;
  stopped : bool;
}.

#[global] Instance recv_settable : Settable Recv := λ r,
  mk_recv (state r) (assembler r) (sent_max_stream_data r) (end_ r) (stopped r).

(** [ClosedStream], a unit struct. *)
Inductive ClosedStream := closed_stream.

Definition new (initial_max_data : Z) : Recv :=
  mk_recv (StRecv None) Assembler.new initial_max_data 0 false.

Definition reinit (initial_max_data : Z) (r : Recv) : Recv :=
  mk_recv (StRecv None) (Assembler.reinit (assembler r)) initial_max_data 0 false.

Definition final_offset_unknown (r : Recv) : bool :=
  match state r with StRecv None => true | _ => false end.

Definition can_send_flow_control (r : Recv) : bool := final_offset_unknown r && negb (stopped r).

Definition is_receiving (r : Recv) : bool := match state r with StRecv _ => true | _ => false end.

Definition final_offset (r : Recv) : option Z :=
  match state r with StRecv size => size | StResetRecvd size _ => Some size end.

Definition reset_code (r : Recv) : option Z :=
  match state r with StResetRecvd _ error_code => Some error_code | _ => None end.

Definition credit_consumed_by (offset received max_data : Z) (r : Recv) : result Z Error :=
  let new_bytes := saturating_sub offset (end_ r) in
  if (sent_max_stream_data r <? offset) || (max_data <? wrapping_add 64 received new_bytes)
  then Err (FLOW_CONTROL_ERROR EmptyString)
  else Ok new_bytes.

(** Every error is returned before the stream changes. *)
Definition ingest (frame : Frames.Stream) (payload_len received max_data : Z) (r : Recv)
  : result (Z * bool * Recv) Error :=
  let fin := Frames.fin frame in
  let end' := Frames.st_offset frame + zlen (Frames.st_data frame) in
  if 2 ^ 62 <=? end' then Err (FLOW_CONTROL_ERROR "maximum stream offset too large")
  else if match final_offset r with
          | Some final_offset => (final_offset <? end') || (fin && negb (end' =? final_offset))
          | None => false
          end
  then Err (FINAL_SIZE_ERROR EmptyString)
  else
    let? new_bytes := credit_consumed_by end' received max_data r in
    let r := if fin && negb (stopped r) then
               match state r with StRecv _ => r <| state := StRecv (Some end') |> | _ => r end
             else r in
    let r := r <| end_ := Z.max (end_ r) end' |> in
    let r := if negb (stopped r) then
               r <| assembler := Assembler.insert (Frames.st_offset frame) (Frames.st_data frame) payload_len (assembler r) |>
             else r in
    Ok (new_bytes, fin && stopped r, r).

Definition stop (r : Recv) : result (Z * bool * Recv) ClosedStream :=
  if stopped r then Err closed_stream
  else
    let r := r <| stopped := true |> <| assembler := Assembler.clear (assembler r) |> in
    Ok (wrapping_sub 64 (end_ r) (Assembler.bytes_read (assembler r)), is_receiving r, r).

Definition max_stream_data (stream_receive_window : Z) (r : Recv) : Z * bool :=
  let max_stream_data := Assembler.bytes_read (assembler r) + stream_receive_window in
  let diff := wrapping_sub 64 max_stream_data (sent_max_stream_data r) in
  (max_stream_data, can_send_flow_control r && (stream_receive_window / 8 <=? diff)).

Definition record_sent_max_stream_data (sent_value : Z) (r : Recv) : Recv :=
  if sent_max_stream_data r <? sent_value then r <| sent_max_stream_data := sent_value |> else r.

(** [Ok (false, r)] is a redundant reset. *)
Definition reset (error_code final_offset' received max_data : Z) (r : Recv) : result (bool * Recv) Error :=
  let? _ := match final_offset r with
            | Some offset =>
              if negb (offset =? final_offset') then Err (FINAL_SIZE_ERROR "inconsistent value") else Ok ()
            | None =>
              if final_offset' <? end_ r then Err (FINAL_SIZE_ERROR "lower than high water mark") else Ok ()
            end in
  let? _ := credit_consumed_by final_offset' received max_data r in
  if negb (is_receiving r) then Ok (false, r)
  else Ok (true, r <| state := StResetRecvd final_offset' error_code |>
                   <| assembler := Assembler.clear (assembler r) |>).

(** ** Invariant

    [srw] is the configured window of a stream. *)

Definition bytes_read (r : Recv) : Z := Assembler.bytes_read (assembler r).

Record recv_ok (srw : Z) (r : Recv) : Prop := {
  ro_asm : AssemblerBounds.ok (end_ r) (assembler r);
  ro_end : end_ r < 2 ^ 62;
  ro_sent : end_ r ≤ sent_max_stream_data r;
  ro_window : sent_max_stream_data r ≤ bytes_read r + srw;
  ro_size f : state r = StRecv (Some f) → end_ r = f;
  ro_reset f c : state r = StResetRecvd f c → end_ r ≤ f ≤ sent_max_stream_data r;
  ro_empty : stopped r || negb (is_receiving r) = true → Assembler.data (assembler r) = [];
}.

(** A frame with FIN does not end the stream below what was received: RFC 9000 section 4.5
    wants a FINAL_SIZE_ERROR, [ingest] accepts it. *)
Definition fin_ok (frame : Frames.Stream) (r : Recv) : Prop :=
  Frames.fin frame = true → end_ r ≤ Frames.st_offset frame + zlen (Frames.st_data frame).

Lemma new_ok srw : 0 ≤ srw → recv_ok srw (new srw).
Proof. intros. split; simpl; try done; lia. Qed.

Lemma reinit_eq m r : reinit m r = new m.
Proof. done. Qed.

Lemma read_bounds srw r : recv_ok srw r → 0 ≤ bytes_read r ≤ end_ r.
Proof. intros H. apply (AssemblerBounds.ok_read _ _ (ro_asm _ _ H)). Qed.

Lemma credit_spec offset received max_data r n : credit_consumed_by offset received max_data r = Ok n →
  n = Z.max 0 (offset - end_ r) ∧ offset ≤ sent_max_stream_data r ∧ wrapping_add 64 received n ≤ max_data.
Proof. unfold credit_consumed_by, saturating_sub. case_goal; intros; simplify_eq; zbool. lia. Qed.

Lemma ingest_spec srw frame len received max_data r n closed r' :
  recv_ok srw r → is_receiving r = true → 0 ≤ Frames.st_offset frame → fin_ok frame r →
  ingest frame len received max_data r = Ok (n, closed, r') →
  recv_ok srw r' ∧ is_receiving r' = true ∧ stopped r' = stopped r ∧ bytes_read r' = bytes_read r
  ∧ 0 ≤ n ∧ end_ r' = end_ r + n ∧ wrapping_add 64 received n ≤ max_data
  ∧ closed = Frames.fin frame && stopped r.
Proof.
  intros Hok Hrecv H0 Hfin. unfold ingest, fin_ok in *.
  remember (Frames.st_offset frame + zlen (Frames.st_data frame)) as e eqn:Ee.
  pose proof (zlen_nonneg (Frames.st_data frame)). destruct (Z.leb_spec (2 ^ 62) e) as [| He]; [done |].
  destruct (match final_offset r with Some _ => _ | None => _ end) eqn:Ef; [done |].
  destruct (credit_consumed_by e received max_data r) as [n' |] eqn:Ec; [| done].
  apply credit_spec in Ec as (-> & Hs & Hr). intros [= <- <- <-].
  destruct Hok as [Ha Hend Hsent Hwin Hsize Hreset Hemp].
  destruct (state r) as [size |] eqn:Est; [| by unfold is_receiving in Hrecv; rewrite Est in Hrecv].
  assert (Hle : ∀ f, size = Some f → e ≤ f ∧ (Frames.fin frame = true → e = f) ∧ end_ r = f).
  { intros f ->. unfold final_offset in Ef. rewrite Est in Ef. zbool. rewrite (Hsize f eq_refl).
    split_and!; [lia | | done]. intros Hf. rewrite Hf in *. simpl in *. zbool. lia. }
  assert (Hasm : AssemblerBounds.ok (Z.max (end_ r) e) (assembler r)) by (eapply AssemblerBounds.ok_mono; [| done]; lia).
  destruct (AssemblerBounds.ok_insert _ (Frames.st_offset frame) (Frames.st_data frame) len _ Hasm H0
    ltac:(lia)) as [Hins Hbr].
  unfold is_receiving, bytes_read in *.
  destruct (stopped r) eqn:Es, (Frames.fin frame) eqn:Ef'; simpl; rewrite ?Est, ?Es; simpl;
    (split; [split; unfold bytes_read; simpl; rewrite ?Est, ?Hbr; try done; try lia; intros f; intros; simplify_eq |
             split_and!; try done; lia]);
    first [lia | by apply Hemp | by (exfalso; revert f; unfold is_receiving; simpl; rewrite ?Est, ?Es) | by destruct (Hle f eq_refl) as (? & ? & ?); lia].
Qed.

Lemma reset_spec srw code final received max_data r b r' :
  recv_ok srw r → 0 ≤ final → reset code final received max_data r = Ok (b, r') →
  if b then recv_ok srw r' ∧ is_receiving r = true ∧ is_receiving r' = false ∧ stopped r' = stopped r
    ∧ bytes_read r' = bytes_read r ∧ end_ r' = end_ r ∧ end_ r ≤ final
    ∧ wrapping_add 64 received (final - end_ r) ≤ max_data
  else r' = r.
Proof.
  intros Hok H0 E. unfold reset in E. destruct (match final_offset r with Some _ => _ | None => _ end) as [u |] eqn:Ef; [| done].
  destruct (credit_consumed_by final received max_data r) as [n |] eqn:Ec; [| done].
  apply credit_spec in Ec as (-> & Hs & Hr).
  destruct (is_receiving r) eqn:Er; simplify_eq/=; [| done].
  assert (Hle : end_ r ≤ final).
  { destruct (final_offset r) as [f |] eqn:Efo; repeat case_hyp Ef; simplify_eq; zbool; [| done].
    unfold is_receiving, final_offset in *. destruct (state r) eqn:Est; simplify_eq.
    by rewrite (ro_size _ _ Hok _ Est). }
  rewrite Z.max_r in Hr by lia. split_and!; try done.
  destruct Hok as [Ha ? ? ? ? ? ?]. split; simpl; try done; [by apply AssemblerBounds.ok_clear |].
  intros f c ?. simplify_eq. lia.
Qed.

Lemma stop_spec srw r n t r' : recv_ok srw r → stop r = Ok (n, t, r') →
  recv_ok srw r' ∧ stopped r = false ∧ stopped r' = true ∧ state r' = state r ∧ end_ r' = end_ r
  ∧ bytes_read r' = bytes_read r ∧ n = end_ r - bytes_read r ∧ t = is_receiving r.
Proof.
  intros Hok E. pose proof (read_bounds _ _ Hok). unfold stop in E. destruct (stopped r) eqn:Es; simplify_eq/=.
  split_and!; try done.
  - destruct Hok as [Ha ? ? ? ? ? ?]. split; try done. by apply AssemblerBounds.ok_clear.
  - unfold wrapping_sub, bytes_read in *. rewrite wrap_small; [done |]. pose proof (ro_end _ _ Hok). unfold is_u. lia.
Qed.

(** The value MAX_STREAM_DATA announces never goes back. *)
Lemma max_stream_data_spec srw r : recv_ok srw r → 0 ≤ srw < 2 ^ 62 →
  max_stream_data srw r
  = (bytes_read r + srw,
     can_send_flow_control r && (srw / 8 <=? bytes_read r + srw - sent_max_stream_data r))
  ∧ recv_ok srw (record_sent_max_stream_data (bytes_read r + srw) r).
Proof.
  intros Hok Hs. pose proof (read_bounds _ _ Hok). destruct Hok as [Ha He Hse Hw Hsi Hre Hemp].
  unfold max_stream_data, wrapping_sub. fold (bytes_read r).
  rewrite wrap_small by (unfold is_u; lia). split; [done |].
  unfold record_sent_max_stream_data. case_goal; zbool; [| by split].
  split; simpl; try done; try lia. intros f c E. specialize (Hre f c E). lia.
Qed.

End Recv.
