(* ===== verification/Datagrams.v ===== *)
(** * Unreliable datagrams

    Models [src/connection/datagrams.rs]: the queues of datagrams to send and of those received,
    with their limits in bytes, and the errors of both directions.

    The packet overhead and the limits of the configuration and the peer are arguments; [None] is
    a panic. *)

From Stdlib Require Import String.
From stdpp Require Import list.
From S2P Require Import Prelude Coding StreamRecv NatFrames Frames.

Module Datagrams.
Import VarInt.

Record DatagramState := mk_datagrams {
  recv_buffered : Z;
  incoming : list (list Z);
  outgoing : list (list Z);
  outgoing_total : Z;
  send_blocked : bool;
}.

#[global] Instance datagrams_settable : Settable DatagramState := λ d,
  mk_datagrams (recv_buffered d) (incoming d) (outgoing d) (outgoing_total d) (send_blocked d).

Inductive SendDatagramError := UnsupportedByPeer | Disabled | TooLarge | Blocked (data : list Z).

Definition PROTOCOL_VIOLATION : string → TransportError.Error := TransportError.mk_error 0xa.

Definition new : DatagramState := mk_datagrams 0 [] [] 0 false.

Definition bytes_of (l : list (list Z)) : Z := foldr (λ x n, zlen x + n) 0 l.

(** [Datagram::SIZE_BOUND]. *)
Definition SIZE_BOUND : Z := 1 + 8.

(** [max_size]; the inner [None]: the peer takes no datagrams. *)
Definition max_size (current_mtu overhead : Z) (max_datagram_frame_size : option Z) : option (option Z) :=
  match checked_sub current_mtu overhead with
  | None => None
  | Some x =>
    match checked_sub x SIZE_BOUND with
    | None => None
    | Some max_size =>
      Some match max_datagram_frame_size with
           | None => None
           | Some limit => Some (Z.min (saturating_sub limit SIZE_BOUND) max_size)
           end
    end
  end.

(** The loop of [send] that drops the oldest datagrams; [None]: the queue is empty before the
    total is small enough. *)
Fixpoint drop_oldest (size : Z) (queue : list (list Z)) (total : Z) : option (list (list Z) * Z) :=
  if size <? total then
    match queue with
    | [] => None
    | prev :: queue => drop_oldest size queue (total - zlen prev)
    end
  else Some (queue, total).

Definition send (enabled : bool) (max : option Z) (send_buffer_size : Z) (data : list Z) (drop : bool) (d : DatagramState)
  : option (result unit SendDatagramError * DatagramState) :=
  if negb enabled then Some (Err Disabled, d)
  else
    match max with
    | None => Some (Err UnsupportedByPeer, d)
    | Some max =>
      if max <? zlen data then Some (Err TooLarge, d)
      else
        let push d := d <| outgoing_total := outgoing_total d + zlen data |> <| outgoing := outgoing d ++ [data] |> in
        if drop then
          match drop_oldest send_buffer_size (outgoing d) (outgoing_total d) with
          | None => None
          | Some (queue, total) => Some (Ok tt, push (d <| outgoing := queue |> <| outgoing_total := total |>))
          end
        else if send_buffer_size <? outgoing_total d + zlen data then Some (Err (Blocked data), d <| send_blocked := true |>)
        else Some (Ok tt, push d)
    end.

Definition send_buffer_space (send_buffer_size : Z) (d : DatagramState) : Z := saturating_sub send_buffer_size (outgoing_total d).

Definition recv (d : DatagramState) : option (list Z) * DatagramState :=
  match incoming d with
  | [] => (None, d)
  | x :: rest => (Some x, d <| incoming := rest |> <| recv_buffered := recv_buffered d - zlen x |>)
  end.

Record DatagramReceivedResult := mk_received { was_empty : bool; dropped_count : Z; dropped_bytes : Z }.

(** The loop of [received]: the queue, its bytes, and what was dropped. *)
Fixpoint make_room (len window : Z) (queue : list (list Z)) (buffered count bytes : Z) : list (list Z) * Z * Z * Z :=
  if window <? len + buffered then
    match queue with
    | [] => ([], buffered, count, bytes)
    | x :: queue => make_room len window queue (buffered - zlen x) (count + 1) (bytes + zlen x)
    end
  else (queue, buffered, count, bytes).

Definition received (data : list Z) (window : option Z) (d : DatagramState)
  : result (DatagramReceivedResult * DatagramState) TransportError.Error :=
  match window with
  | None => Err (PROTOCOL_VIOLATION "unexpected DATAGRAM frame"%string)
  | Some window =>
    if window <? zlen data then Err (PROTOCOL_VIOLATION "oversized datagram"%string)
    else
      let '(queue, buffered, count, bytes) := make_room (zlen data) window (incoming d) (recv_buffered d) 0 0 in
      Ok (mk_received (recv_buffered d =? 0) count bytes,
          d <| recv_buffered := buffered + zlen data |> <| incoming := queue ++ [data] |>)
  end.

Definition drop_oversized (max_payload : Z) (d : DatagramState) : DatagramState :=
  let kept := filter (λ x, zlen x < max_payload) (outgoing d) in
  let dropped := filter (λ x, ¬ zlen x < max_payload) (outgoing d) in
  d <| outgoing := kept |> <| outgoing_total := outgoing_total d - bytes_of dropped |>.

Definition write (buf : list Z) (max_size : Z) (d : DatagramState) : bool * list Z * DatagramState :=
  match outgoing d with
  | [] => (false, buf, d)
  | x :: rest =>
    if max_size <? zlen buf + Frames.datagram_size x true then (false, buf, d)
    else
      (true, buf ++ match Frames.datagram_encode x true with Ok bs => bs | Err _ => [] end,
       d <| outgoing := rest |> <| outgoing_total := outgoing_total d - zlen x |>)
  end.

(** ** Accounting *)

Record datagrams_ok (window : Z) (d : DatagramState) : Prop := {
  dg_in : recv_buffered d = bytes_of (incoming d) ∧ recv_buffered d ≤ window;
  dg_out : outgoing_total d = bytes_of (outgoing d);
}.

Lemma bytes_of_app l k : bytes_of (l ++ k) = bytes_of l + bytes_of k.
Proof. induction l as [| x l IH]; simpl; [done | rewrite IH; lia]. Qed.

Lemma bytes_of_nonneg l : 0 ≤ bytes_of l.
Proof. induction l as [| x l IH]; simpl; [done |]. pose proof (zlen_nonneg x). lia. Qed.

Lemma bytes_of_filter (P : list Z → Prop) `{∀ x, Decision (P x)} l : bytes_of (filter P l) + bytes_of (filter (λ x, ¬ P x) l) = bytes_of l.
Proof.
  induction l as [| x l IH]; [done |]. destruct (decide (P x)).
  - rewrite filter_cons_True, filter_cons_False by tauto. simpl. lia.
  - rewrite filter_cons_False, filter_cons_True by done. simpl. lia.
Qed.

(** Dropping from the front stops at the first suffix that is small enough. *)
Lemma drop_oldest_spec size queue : 0 ≤ size →
  ∃ front rest, drop_oldest size queue (bytes_of queue) = Some (rest, bytes_of rest) ∧ queue = front ++ rest ∧ bytes_of rest ≤ size
  ∧ ∀ x l, front = l ++ [x] → size < bytes_of (x :: rest).
Proof.
  intros Hs. induction queue as [| x queue (front & rest & E & Eq & Hle & Hlong)]; cbn [drop_oldest].
  - simpl. rewrite (proj2 (Z.ltb_ge size 0)) by lia. exists [], []. split_and!; try done. by intros x [] [=].
  - destruct (Z.ltb_spec size (bytes_of (x :: queue))).
    + replace (bytes_of (x :: queue) - zlen x) with (bytes_of queue) by (simpl; lia). rewrite E.
      exists (x :: front), rest. split_and!; [done | by rewrite Eq | done |]. intros y [| z l] Ef; simplify_eq/=; [lia |]. by apply (Hlong y l).
    + exists [], (x :: queue). split_and!; try done. by intros y [] [=].
Qed.

Lemma make_room_spec len window queue : ∀ count bytes, 0 ≤ len ≤ window →
  ∃ front rest, make_room len window queue (bytes_of queue) count bytes = (rest, bytes_of rest, count + zlen front, bytes + bytes_of front)
  ∧ queue = front ++ rest ∧ len + bytes_of rest ≤ window
  ∧ ∀ x l, front = l ++ [x] → window < len + bytes_of (x :: rest).
Proof.
  intros count bytes Hlen. revert count bytes.
  induction queue as [| x queue IH]; intros count bytes; cbn [make_room].
  - simpl. rewrite (proj2 (Z.ltb_ge window _)) by lia. exists [], []. split_and!; try done; [unfold zlen; simpl; repeat f_equal; lia | simpl; lia | by intros x [] [=]].
  - destruct (Z.ltb_spec window (len + bytes_of (x :: queue))).
    + replace (bytes_of (x :: queue) - zlen x) with (bytes_of queue) by (simpl; lia).
      destruct (IH (count + 1) (bytes + zlen x)) as (front & rest & E & Eq & Hle & Hlong). rewrite E.
      exists (x :: front), rest. rewrite zlen_cons. split_and!; [simpl; by rewrite !Z.add_assoc | by rewrite Eq | done |].
      intros y [| z l] Ef; simplify_eq/=; [lia |]. by apply (Hlong y l).
    + exists [], (x :: queue). split_and!; try done; [unfold zlen; simpl; repeat f_equal; lia | by intros y [] [=]].
Qed.

(** The limits of a connection. *)
Record Limits := mk_limits { li_enabled : bool; li_max : option Z; li_send_buffer : Z; li_window : Z }.

Inductive Op :=
| Send (data : list Z) (drop : bool)
| Recv
| Received (data : list Z)
| Write (buf : list Z) (max_size : Z)
| DropOversized (max_payload : Z).

Definition step (l : Limits) (o : Op) (d : DatagramState) : option DatagramState :=
  match o with
  | Send data drop => match send (li_enabled l) (li_max l) (li_send_buffer l) data drop d with Some (_, d) => Some d | None => None end
  | Recv => Some (recv d).2
  | Received data => match received data (Some (li_window l)) d with Ok (_, d) => Some d | Err _ => Some d end
  | Write buf max_size => Some (write buf max_size d).2
  | DropOversized max_payload => Some (drop_oversized max_payload d)
  end.

Fixpoint run (l : Limits) (os : list Op) (d : DatagramState) : option DatagramState :=
  match os with [] => Some d | o :: os => match step l o d with Some d => run l os d | None => None end end.

Lemma send_spec l data drop d : datagrams_ok (li_window l) d → 0 ≤ li_send_buffer l →
  ∃ r d', send (li_enabled l) (li_max l) (li_send_buffer l) data drop d = Some (r, d') ∧ datagrams_ok (li_window l) d'
  ∧ match r with
    | Err Disabled => li_enabled l = false ∧ d' = d
    | Err UnsupportedByPeer => li_enabled l = true ∧ li_max l = None ∧ d' = d
    | Err TooLarge => li_enabled l = true ∧ (∃ m, li_max l = Some m ∧ m < zlen data) ∧ d' = d
    | Err (Blocked x) => x = data ∧ drop = false ∧ li_send_buffer l < bytes_of (outgoing d) + zlen data ∧ d' = d <| send_blocked := true |>
    | Ok _ => li_enabled l = true ∧ (∃ m, li_max l = Some m ∧ zlen data ≤ m)
        ∧ ∃ front rest, outgoing d = front ++ rest ∧ outgoing d' = rest ++ [data] ∧ (drop = false → front = [])
          ∧ bytes_of (outgoing d') ≤ li_send_buffer l + (if drop then zlen data else 0)
    end.
Proof.
  intros [Hin Hout] Hs. unfold send. destruct (li_enabled l); cbn [negb]; [| by eexists _, _; split; [done |]; split; [split |]].
  destruct (li_max l) as [m |]; [| by eexists _, _; split; [done |]; split; [split |]].
  destruct (Z.ltb_spec m (zlen data)); [by eexists _, _; split; [done |]; split; [split |]; eauto |].
  rewrite Hout. destruct drop.
  - destruct (drop_oldest_spec (li_send_buffer l) (outgoing d) Hs) as (front & rest & -> & Eq & Hle & _). eexists _, _. split; [reflexivity |].
    split; [split; simpl; [done | rewrite bytes_of_app; simpl; lia] |]. split; [done |]. split; [eauto |]. exists front, rest. simpl.
    rewrite bytes_of_app. simpl. split_and!; try done. lia.
  - destruct (Z.ltb_spec (li_send_buffer l) (bytes_of (outgoing d) + zlen data)); eexists _, _; (split; [reflexivity |]).
    + split; [by split | done].
    + split; [split; simpl; [done | rewrite bytes_of_app; simpl; lia] |]. split; [done |]. split; [eauto |]. exists [], (outgoing d). simpl.
      rewrite bytes_of_app. simpl. split_and!; try done. lia.
Qed.

Lemma received_spec data window d : datagrams_ok window d → zlen data ≤ window →
  ∃ r d' front rest, received data (Some window) d = Ok (r, d') ∧ datagrams_ok window d'
  ∧ incoming d = front ++ rest ∧ incoming d' = rest ++ [data] ∧ outgoing d' = outgoing d
  ∧ dropped_count r = zlen front ∧ dropped_bytes r = bytes_of front
  ∧ ∀ x l, front = l ++ [x] → window < zlen data + bytes_of (x :: rest).
Proof.
  intros [[Hin Hw] Hout] Hlen. pose proof (zlen_nonneg data). unfold received. rewrite (proj2 (Z.ltb_ge window _)) by lia. rewrite Hin.
  destruct (make_room_spec (zlen data) window (incoming d) 0 0) as (front & rest & -> & Eq & Hle & Hlong); [lia |].
  eexists _, _, front, rest. split; [reflexivity |]. split; [split; simpl; [rewrite bytes_of_app; simpl; lia | done] |]. by split_and!.
Qed.

Lemma datagram_step_ok l o d : datagrams_ok (li_window l) d → 0 ≤ li_send_buffer l → ∃ d', step l o d = Some d' ∧ datagrams_ok (li_window l) d'.
Proof.
  intros Hd Hs. pose proof Hd as [[Hin Hw] Hout]. destruct o; cbn [step].
  - destruct (send_spec l data drop d Hd Hs) as (r & d' & -> & Hd' & _). by eexists.
  - eexists. split; [reflexivity |]. unfold recv. destruct (incoming d) as [| x rest] eqn:E; [done |]. simpl in *.
    pose proof (zlen_nonneg x). split; simpl; lia.
  - destruct (decide (zlen data ≤ li_window l)).
    + destruct (received_spec data (li_window l) d Hd) as (r & d' & front & rest & -> & Hd' & _); [done |]. by eexists.
    + unfold received. rewrite (proj2 (Z.ltb_lt (li_window l) _)) by lia. by eexists.
  - eexists. split; [reflexivity |]. unfold write. destruct (outgoing d) as [| x rest] eqn:E; [done |].
    destruct (_ <? _); [done |]. simpl in *. split; simpl; [done | lia].
  - eexists. split; [reflexivity |]. unfold drop_oversized. split; simpl; [done |].
    pose proof (bytes_of_filter (λ x, zlen x < max_payload) (outgoing d)). simpl in *. lia.
Qed.

Lemma datagram_run_ok l os : ∀ d, datagrams_ok (li_window l) d → 0 ≤ li_send_buffer l → ∃ d', run l os d = Some d' ∧ datagrams_ok (li_window l) d'.
Proof.
  induction os as [| o os IH]; intros d Hd Hs; simpl; [by eexists |]. destruct (datagram_step_ok l o d Hd Hs) as (d' & -> & Hd'). by apply IH.
Qed.

(** ** Theorems *)

(** The datagram queues never lose count.  Any sequence of datagrams sent and received, read
    by the application, written into packets and dropped for a smaller MTU runs without a panic;
    both byte counts are those of the queues, and what is buffered for the application is at most
    the receive window. *)
Theorem datagram_accounting (l : Limits) (os : list Op) : 0 ≤ li_window l → 0 ≤ li_send_buffer l →
  ∃ d, run l os new = Some d ∧ recv_buffered d = bytes_of (incoming d) ∧ bytes_of (incoming d) ≤ li_window l
  ∧ outgoing_total d = bytes_of (outgoing d).
Proof.
  intros Hw Hs. destruct (datagram_run_ok l os new) as (d & E & [[Hin Hb] Hout]); [by split | done |]. exists d.
  split; [done |]. split; [done |]. split; [lia | done].
Qed.


(** ** Witnesses *)

Definition sample_limits : Limits := mk_limits true (Some 1000) 10 8.
Definition sample_ops : list Op :=
  [ Send [1; 2; 3; 4; 5; 6; 7; 8] true; Send [9; 10; 11; 12] true; Send [1] false; Received [1; 2; 3]; Received [4; 5; 6; 7]; Received [8; 9]; Write [] 100 ].

Lemma datagram_accounting_witness :
  ∃ d, run sample_limits sample_ops new = Some d ∧ recv_buffered d = bytes_of (incoming d) ∧ bytes_of (incoming d) ≤ 8
  ∧ incoming d = [[4; 5; 6; 7]; [8; 9]] ∧ outgoing d = [[9; 10; 11; 12]].
Proof.
  destruct (datagram_accounting sample_limits sample_ops) as (d & E & H1 & H2 & _); [done | done |]. exists d.
  split; [exact E |]. split; [exact H1 |]. split; [exact H2 |]. vm_compute in E. injection E as <-. by split.
Defined.


(** ** Limits that do not hold *)

(** Empty datagrams take no room: any number of them is kept for an application that does not
    read. *)
Lemma empty_datagrams_unbounded n window : 0 ≤ window →
  ∃ d, run (mk_limits true None 0 window) (replicate n (Received [])) new = Some d ∧ length (incoming d) = n.
Proof.
  intros Hw. assert (H : ∀ d, recv_buffered d = 0 →
    ∃ d', run (mk_limits true None 0 window) (replicate n (Received [])) d = Some d' ∧ length (incoming d') = (length (incoming d) + n)%nat).
  { induction n as [| n IH]; intros d Hd; simpl; [exists d; split; [done | lia] |].
    unfold received. rewrite (proj2 (Z.ltb_ge window _)) by done.
    assert (make_room (zlen (@nil Z)) window (incoming d) (recv_buffered d) 0 0 = (incoming d, 0, 0, 0)) as ->.
    { rewrite Hd. destruct (incoming d); simpl; by rewrite (proj2 (Z.ltb_ge window _)). }
    destruct (IH (d <| recv_buffered := 0 + zlen (@nil Z) |> <| incoming := incoming d ++ [[]] |>)) as (d' & E & Hl); [done |].
    exists d'. split; [exact E |]. rewrite Hl. simpl. rewrite length_app. simpl. lia. }
  destruct (H new eq_refl) as (d & E & Hl). by exists d.
Qed.

(** Allowed to drop, [send] makes room for the datagrams before this one only: the queue exceeds
    its buffer. *)
Example send_buffer_exceeded :
  match run (mk_limits true (Some 1000) 10 0) [Send (replicate 10 1) true; Send (replicate 100 1) true] new with
  | Some d => outgoing_total d = 110
  | None => False
  end.
Proof. vm_compute. reflexivity. Qed.

(** A datagram that still fits is dropped with the larger ones. *)
Example largest_datagram_dropped :
  outgoing (drop_oversized 5 (mk_datagrams 0 [] [[1; 2; 3; 4; 5]; [1; 2; 3; 4]] 9 false)) = [[1; 2; 3; 4]].
Proof. vm_compute. reflexivity. Qed.

End Datagrams.
