(* ===== verification/Floats.v ===== *)
(** * Floating point numbers and durations

    The arithmetic of [f32] and [f64] that pacing, loss detection and congestion control use,
    as the IEEE 754 operations of the Standard Library's [SpecFloat], and the conversions of
    [core::time::Duration].  Durations are nanoseconds. *)

From Stdlib Require Import SpecFloat.
From S2P Require Import Prelude.

Module Floats.

Section format.
Context (prec emax : Z).

(** [x as f32], [x as f64] of an integer. *)
Definition of_int (x : Z) : spec_float := binary_normalize prec emax x 0 false.

(** [Duration::as_secs_f32], [as_secs_f64]. *)
Definition as_secs (d : Z) : spec_float :=
  SFadd prec emax (of_int (d / 10 ^ 9)) (SFdiv prec emax (of_int (d mod 10 ^ 9)) (of_int (10 ^ 9))).

(** [Duration::from_secs_f32]: to the nearest nanosecond, the even one of two; [None]: the panic
    on a number that is negative, too large or not a number. *)
Definition round_half_even (n d : Z) : Z :=
  let q := n / d in
  let r := n mod d in
  if (2 * r <? d) || ((2 * r =? d) && Z.even q) then q else q + 1.

Definition from_secs (x : spec_float) : option Z :=
  match x with
  | S754_zero _ => Some 0
  | S754_finite false m e =>
    let '(n, d) := if 0 <=? e then (Z.pos m * 2 ^ e, 1) else (Z.pos m, 2 ^ (- e)) in
    if 2 ^ 64 * d <=? n then None else Some (round_half_even (n * 10 ^ 9) d)
  | _ => None
  end.

(** [Duration::mul_f32]. *)
Definition mul_duration (d : Z) (rhs : spec_float) : option Z := from_secs (SFmul prec emax rhs (as_secs d)).

(** The numerator over a power of two. *)
Definition ratio (n d : Z) : spec_float := SFdiv prec emax (of_int n) (of_int d).

End format.

(** [x as u64]: towards zero, saturating; 0 for what is not a number. *)
Definition to_u64 (x : spec_float) : Z :=
  match x with
  | S754_infinity false => u_max 64
  | S754_finite false m e => Z.min (u_max 64) (if 0 <=? e then Z.pos m * 2 ^ e else Z.pos m / 2 ^ (- e))
  | _ => 0
  end.

(** [max], [min]: the other one of a number and what is not. *)
Definition fmax (a b : spec_float) : spec_float :=
  match SFcompare a b with Some Lt => b | Some _ => a | None => match a with S754_nan => b | _ => a end end.

Definition fmin (a b : spec_float) : spec_float :=
  match SFcompare a b with Some Gt => b | Some _ => a | None => match a with S754_nan => b | _ => a end end.

(** [a >= b]. *)
Definition fge (a b : spec_float) : bool := SFleb b a.

Definition of_f64 := of_int 53 1024.
Definition of_f32 := of_int 24 128.
Definition add_f64 := SFadd 53 1024.
Definition sub_f64 := SFsub 53 1024.
Definition mul_f64 := SFmul 53 1024.
Definition div_f64 := SFdiv 53 1024.
Definition mul_f32 := SFmul 24 128.
Definition as_secs_f64 := as_secs 53 1024.

Lemma to_u64_range x : is_u 64 (to_u64 x).
Proof.
  unfold to_u64, is_u, u_max. destruct x as [| [] | | [] m e]; try lia. destruct (Z.leb_spec 0 e).
  - pose proof (Z.pow_nonneg 2 e). lia.
  - pose proof (Z.pow_pos_nonneg 2 (- e)). pose proof (Z.div_pos (Z.pos m) (2 ^ (- e))). lia.
Qed.

Lemma mul_duration_nonneg prec emax d x t : mul_duration prec emax d x = Some t → 0 ≤ t.
Proof.
  unfold mul_duration, from_secs. destruct (SFmul _ _ _ _) as [| [] | | [] m e]; try done; [by intros [= <-] |].
  assert (Hr : ∀ n k, 0 ≤ n → 0 < k → 0 ≤ round_half_even n k).
  { intros n k Hn Hk. unfold round_half_even. pose proof (Z.div_pos n k Hn Hk). destruct (_ || _); lia. }
  destruct (Z.leb_spec 0 e); (destruct (_ <=? _); [done |]); intros [= <-]; apply Hr; lia.
Qed.

End Floats.
