(* ===== verification/TransportParams.v ===== *)
(** * Transport parameters

    Models [src/transport_parameters.rs] and its validators in
    [src/transport_parameters/error_handling.rs]: the parameters the endpoints exchange during
    the handshake, their wire format, and the checks on those received.

    The macros over the eleven integer parameters become the type [IntParam], with the access
    functions [get] and [set].  What [new] takes from the configuration and from the random
    generator are arguments. *)

From Stdlib Require Import String.
From stdpp Require Import list sets.
From S2P Require Import Prelude Coding AckFrequency Cids QuicPacket Frames StreamRecv.

Module TransportParameters.
Import VarInt.

(** ** Data *)

Inductive Error := IllegalValue | Malformed | Internal.

Inductive NatTraversalConfig := ClientSupport | ServerSupport (concurrency_limit : Z).
Inductive AddressDiscoveryConfig := SendOnly | ReceiveOnly | SendAndReceive.
Record PqcAlgorithms := mk_pqc { ml_kem_768 : bool; ml_dsa_65 : bool }.

Record PreferredAddress := mk_preferred {
  address_v4 : option (list Z * Z);
  address_v6 : option (list Z * Z * Z * Z);
  connection_id : list Z;
  pa_reset_token : list Z;
}.

Record ReservedTransportParameter := mk_reserved { rp_id : Z; payload : list Z; payload_len : Z }.

Record TransportParameters := mk_tp {
  max_idle_timeout : Z;
  max_udp_payload_size : Z;
  initial_max_data : Z;
  initial_max_stream_data_bidi_local : Z;
  initial_max_stream_data_bidi_remote : Z;
  initial_max_stream_data_uni : Z;
  initial_max_streams_bidi : Z;
  initial_max_streams_uni : Z;
  ack_delay_exponent : Z;
  max_ack_delay : Z;
  active_connection_id_limit : Z;
  disable_active_migration : bool;
  max_datagram_frame_size : option Z;
  initial_src_cid : option (list Z);
  grease_quic_bit : bool;
  min_ack_delay : option Z;
  nat_traversal : option NatTraversalConfig;
  rfc_nat_traversal : bool;
  address_discovery : option AddressDiscoveryConfig;
  pqc_algorithms : option PqcAlgorithms;
  original_dst_cid : option (list Z);
  retry_src_cid : option (list Z);
  stateless_reset_token : option (list Z);
  preferred_address : option PreferredAddress;
  grease_transport_parameter : option ReservedTransportParameter;
  write_order : option (list Z);
}.

#[global] Instance tp_settable : Settable TransportParameters := λ p,
  mk_tp (max_idle_timeout p) (max_udp_payload_size p) (initial_max_data p) (initial_max_stream_data_bidi_local p)
    (initial_max_stream_data_bidi_remote p) (initial_max_stream_data_uni p) (initial_max_streams_bidi p)
    (initial_max_streams_uni p) (ack_delay_exponent p) (max_ack_delay p) (active_connection_id_limit p)
    (disable_active_migration p) (max_datagram_frame_size p) (initial_src_cid p) (grease_quic_bit p) (min_ack_delay p)
    (nat_traversal p) (rfc_nat_traversal p) (address_discovery p) (pqc_algorithms p) (original_dst_cid p) (retry_src_cid p)
    (stateless_reset_token p) (preferred_address p) (grease_transport_parameter p) (write_order p).

(** The arguments of [apply_params!]: the integer parameters and their defaults. *)
Inductive IntParam :=
| MaxIdleTimeout | MaxUdpPayloadSize | InitialMaxData | InitialMaxStreamDataBidiLocal | InitialMaxStreamDataBidiRemote
| InitialMaxStreamDataUni | InitialMaxStreamsBidi | InitialMaxStreamsUni | AckDelayExponent | MaxAckDelay
| ActiveConnectionIdLimit.

#[global] Instance int_param_eq_dec : EqDecision IntParam.
Proof. solve_decision. Defined.

Definition default_int (i : IntParam) : Z :=
  match i with
  | MaxUdpPayloadSize => 65527
  | AckDelayExponent => 3
  | MaxAckDelay => 25
  | ActiveConnectionIdLimit => 2
  | _ => 0
  end.

Definition get (i : IntParam) (p : TransportParameters) : Z :=
  match i with
  | MaxIdleTimeout => max_idle_timeout p
  | MaxUdpPayloadSize => max_udp_payload_size p
  | InitialMaxData => initial_max_data p
  | InitialMaxStreamDataBidiLocal => initial_max_stream_data_bidi_local p
  | InitialMaxStreamDataBidiRemote => initial_max_stream_data_bidi_remote p
  | InitialMaxStreamDataUni => initial_max_stream_data_uni p
  | InitialMaxStreamsBidi => initial_max_streams_bidi p
  | InitialMaxStreamsUni => initial_max_streams_uni p
  | AckDelayExponent => ack_delay_exponent p
  | MaxAckDelay => max_ack_delay p
  | ActiveConnectionIdLimit => active_connection_id_limit p
  end.

Definition set (i : IntParam) (v : Z) (p : TransportParameters) : TransportParameters :=
  match i with
  | MaxIdleTimeout => p <| max_idle_timeout := v |>
  | MaxUdpPayloadSize => p <| max_udp_payload_size := v |>
  | InitialMaxData => p <| initial_max_data := v |>
  | InitialMaxStreamDataBidiLocal => p <| initial_max_stream_data_bidi_local := v |>
  | InitialMaxStreamDataBidiRemote => p <| initial_max_stream_data_bidi_remote := v |>
  | InitialMaxStreamDataUni => p <| initial_max_stream_data_uni := v |>
  | InitialMaxStreamsBidi => p <| initial_max_streams_bidi := v |>
  | InitialMaxStreamsUni => p <| initial_max_streams_uni := v |>
  | AckDelayExponent => p <| ack_delay_exponent := v |>
  | MaxAckDelay => p <| max_ack_delay := v |>
  | ActiveConnectionIdLimit => p <| active_connection_id_limit := v |>
  end.

Definition default : TransportParameters :=
  mk_tp 0 65527 0 0 0 0 0 0 3 25 2 false None None false None None false None None None None None None None None.

(** ** Identifiers *)

Inductive TransportParameterId :=
| PInt (i : IntParam)
| PReserved | PStatelessResetToken | PDisableActiveMigration | PMaxDatagramFrameSize | PPreferredAddress
| POriginalDestinationConnectionId | PInitialSourceConnectionId | PRetrySourceConnectionId | PGreaseQuicBit
| PMinAckDelayDraft07 | PNatTraversal | PRfcNatTraversal | PAddressDiscovery | PPqcAlgorithms.

#[global] Instance param_id_eq_dec : EqDecision TransportParameterId.
Proof. solve_decision. Defined.

Definition code (id : TransportParameterId) : Z :=
  match id with
  | POriginalDestinationConnectionId => 0x00
  | PInt MaxIdleTimeout => 0x01
  | PStatelessResetToken => 0x02
  | PInt MaxUdpPayloadSize => 0x03
  | PInt InitialMaxData => 0x04
  | PInt InitialMaxStreamDataBidiLocal => 0x05
  | PInt InitialMaxStreamDataBidiRemote => 0x06
  | PInt InitialMaxStreamDataUni => 0x07
  | PInt InitialMaxStreamsBidi => 0x08
  | PInt InitialMaxStreamsUni => 0x09
  | PInt AckDelayExponent => 0x0A
  | PInt MaxAckDelay => 0x0B
  | PDisableActiveMigration => 0x0C
  | PPreferredAddress => 0x0D
  | PInt ActiveConnectionIdLimit => 0x0E
  | PInitialSourceConnectionId => 0x0F
  | PRetrySourceConnectionId => 0x10
  | PReserved => 0x1B
  | PMaxDatagramFrameSize => 0x20
  | PGreaseQuicBit => 0x2AB2
  | PMinAckDelayDraft07 => 0xFF04DE1B
  | PNatTraversal => 0x3d7e9f0bca12fea6
  | PRfcNatTraversal => 0x3d7e9f0bca12fea8
  | PAddressDiscovery => 0x9f81a176
  | PPqcAlgorithms => 0x50C0
  end.

Definition SUPPORTED : list TransportParameterId :=
  [ PInt MaxIdleTimeout; PInt MaxUdpPayloadSize; PInt InitialMaxData; PInt InitialMaxStreamDataBidiLocal;
    PInt InitialMaxStreamDataBidiRemote; PInt InitialMaxStreamDataUni; PInt InitialMaxStreamsBidi; PInt InitialMaxStreamsUni;
    PInt AckDelayExponent; PInt MaxAckDelay; PInt ActiveConnectionIdLimit; PReserved; PStatelessResetToken;
    PDisableActiveMigration; PMaxDatagramFrameSize; PPreferredAddress; POriginalDestinationConnectionId;
    PInitialSourceConnectionId; PRetrySourceConnectionId; PGreaseQuicBit; PMinAckDelayDraft07; PNatTraversal;
    PRfcNatTraversal; PAddressDiscovery; PPqcAlgorithms ].

(** [TryFrom<u64>]: the first identifier with the code, in the order of [SUPPORTED]. *)
Definition try_from (value : Z) : option TransportParameterId := find (λ id, code id =? value) SUPPORTED.

(** ** Writing *)

Definition wire_size (a : PreferredAddress) : Z := 4 + 2 + 16 + 2 + 1 + wrap 16 (zlen (connection_id a)) + 16.

Definition preferred_write (a : PreferredAddress) : list Z :=
  encode ipv4_codec (match address_v4 a with Some x => x.1 | None => replicate 4 0 end)
  ++ encode u16_codec (match address_v4 a with Some x => x.2 | None => 0 end)
  ++ encode ipv6_codec (match address_v6 a with Some x => x.1.1.1 | None => replicate 16 0 end)
  ++ encode u16_codec (match address_v6 a with Some x => x.1.1.2 | None => 0 end)
  ++ encode u8_codec (zlen (connection_id a)) ++ connection_id a ++ pa_reset_token a.

Definition to_value (c : AddressDiscoveryConfig) : Z := match c with SendOnly => 0 | ReceiveOnly => 1 | SendAndReceive => 2 end.

(** [write_var!]. *)
Definition put_var (x : Z) : result (list Z) Error := map_err (λ _, Internal) (write_var x).

(** The identifier, the length and the value of a parameter. *)
Definition put_param (id len : Z) (value : list Z) : result (list Z) Error :=
  let? a := put_var id in
  let? b := put_var len in
  Ok (a ++ b ++ value).

Definition reserved_write (r : ReservedTransportParameter) : result (list Z) Error :=
  put_param (rp_id r) (payload_len r) (ztake (payload_len r) (payload r)).

(** The body of the loop of [write]. *)
Definition write_param (id : TransportParameterId) (p : TransportParameters) : result (list Z) Error :=
  let put_cid cid := match cid with Some cid => put_param (code id) (zlen cid) cid | None => Ok [] end in
  let put_int x := match x with Some x => put_param (code id) (size x) (encode codec x) | None => Ok [] end in
  let put_flag b := if b : bool then put_param (code id) 0 [] else Ok [] in
  match id with
  | PReserved => match grease_transport_parameter p with Some r => reserved_write r | None => Ok [] end
  | PStatelessResetToken => match stateless_reset_token p with Some x => put_param (code id) 16 x | None => Ok [] end
  | PDisableActiveMigration => put_flag (disable_active_migration p)
  | PMaxDatagramFrameSize => put_int (max_datagram_frame_size p)
  | PPreferredAddress =>
    match preferred_address p with Some x => put_param (code id) (wire_size x) (preferred_write x) | None => Ok [] end
  | POriginalDestinationConnectionId => put_cid (original_dst_cid p)
  | PInitialSourceConnectionId => put_cid (initial_src_cid p)
  | PRetrySourceConnectionId => put_cid (retry_src_cid p)
  | PGreaseQuicBit => put_flag (grease_quic_bit p)
  | PMinAckDelayDraft07 => put_int (min_ack_delay p)
  | PNatTraversal =>
    match nat_traversal p with
    | Some ClientSupport => put_param (code id) 0 []
    | Some (ServerSupport limit) => let? v := put_var limit in put_param (code id) (size limit) v
    | None => Ok []
    end
  | PAddressDiscovery =>
    match address_discovery p with
    | Some c => let? v := put_var (to_value c) in put_param (code id) (size (to_value c)) v
    | None => Ok []
    end
  | PRfcNatTraversal => put_flag (rfc_nat_traversal p)
  | PPqcAlgorithms =>
    match pqc_algorithms p with
    | Some a =>
      let value := Z.lor (if ml_kem_768 a then Z.shiftl 1 0 else 0) (if ml_dsa_65 a then Z.shiftl 1 1 else 0) in
      put_param (code id) 1 (encode u8_codec value)
    | None => Ok []
    end
  | PInt i => if negb (get i p =? default_int i) then put_param (code id) (size (get i p)) (encode codec (get i p)) else Ok []
  end.

Fixpoint write_all (order : list Z) (p : TransportParameters) : result (list Z) Error :=
  match order with
  | [] => Ok []
  | idx :: order =>
    match SUPPORTED !! Z.to_nat idx with
    | None => Err Internal
    | Some id =>
      let? a := write_param id p in
      let? b := write_all order p in
      Ok (a ++ b)
    end
  end.

Definition write (p : TransportParameters) : result (list Z) Error :=
  write_all (match write_order p with Some order => order | None => seqZ 0 25 end) p.

(** ** Reading *)

(** [r.get()?]: an unexpected end is [Malformed]. *)
Definition read_as {A} (d : list Z → result (A * list Z) UnexpectedEnd) (r : list Z) : result (A * list Z) Error :=
  map_err (λ _, Malformed) (d r).

Definition is_unspecified (ip : list Z) : bool := forallb (Z.eqb 0) ip.

Definition preferred_read (r : list Z) : result (PreferredAddress * list Z) Error :=
  let? (ip_v4, r) := read_as (decode ipv4_codec) r in
  let? (port_v4, r) := read_as (decode u16_codec) r in
  let? (ip_v6, r) := read_as (decode ipv6_codec) r in
  let? (port_v6, r) := read_as (decode u16_codec) r in
  let? (cid_len, r) := read_as (decode u8_codec) r in
  if (zlen r <? cid_len) || (QuicPacket.MAX_CID_SIZE <? cid_len) then Err Malformed
  else
    let '(cid, r) := (ztake cid_len r, zdrop cid_len r) in
    if zlen r <? 16 then Err Malformed
    else
      let '(token, r) := (ztake 16 r, zdrop 16 r) in
      let address_v4 := if is_unspecified ip_v4 && (port_v4 =? 0) then None else Some (ip_v4, port_v4) in
      let address_v6 := if is_unspecified ip_v6 && (port_v6 =? 0) then None else Some (ip_v6, port_v6, 0, 0) in
      match address_v4, address_v6 with
      | None, None => Err IllegalValue
      | _, _ => Ok (mk_preferred address_v4 address_v6 cid token, r)
      end.

Definition from_value (v : Z) : result AddressDiscoveryConfig Error :=
  if v =? 0 then Ok SendOnly else if v =? 1 then Ok ReceiveOnly else if v =? 2 then Ok SendAndReceive else Err Malformed.

Definition decode_cid (len : Z) (value : option (list Z)) (r : list Z) : result (list Z * list Z) Error :=
  if (QuicPacket.MAX_CID_SIZE <? len) || bool_decide (is_Some value) || (zlen r <? len) then Err Malformed
  else Ok (QuicPacket.cid_from_buf r len).

(** The body of the loop of [read] for a parameter that is known: the parameters, the integer
    parameters seen so far and the bytes that are left. *)
Definition read_param (id : TransportParameterId) (len : Z) (p : TransportParameters) (got : list IntParam) (r : list Z)
  : result (TransportParameters * list IntParam * list Z) Error :=
  match id with
  | POriginalDestinationConnectionId =>
    let? (cid, r) := decode_cid len (original_dst_cid p) r in Ok (p <| original_dst_cid := Some cid |>, got, r)
  | PStatelessResetToken =>
    if negb (len =? 16) || bool_decide (is_Some (stateless_reset_token p)) then Err Malformed
    else Ok (p <| stateless_reset_token := Some (ztake 16 r) |>, got, zdrop 16 r)
  | PDisableActiveMigration =>
    if negb (len =? 0) || disable_active_migration p then Err Malformed
    else Ok (p <| disable_active_migration := true |>, got, r)
  | PPreferredAddress =>
    if bool_decide (is_Some (preferred_address p)) then Err Malformed
    else
      let? (a, rest) := preferred_read (ztake len r) in
      Ok (p <| preferred_address := Some a |>, got, rest ++ zdrop len r)
  | PInitialSourceConnectionId =>
    let? (cid, r) := decode_cid len (initial_src_cid p) r in Ok (p <| initial_src_cid := Some cid |>, got, r)
  | PRetrySourceConnectionId =>
    let? (cid, r) := decode_cid len (retry_src_cid p) r in Ok (p <| retry_src_cid := Some cid |>, got, r)
  | PMaxDatagramFrameSize =>
    if (8 <? len) || bool_decide (is_Some (max_datagram_frame_size p)) then Err Malformed
    else let? (x, r) := read_as (decode codec) r in Ok (p <| max_datagram_frame_size := Some x |>, got, r)
  | PGreaseQuicBit => if len =? 0 then Ok (p <| grease_quic_bit := true |>, got, r) else Err Malformed
  | PMinAckDelayDraft07 => let? (x, r) := read_as (decode codec) r in Ok (p <| min_ack_delay := Some x |>, got, r)
  | PNatTraversal =>
    if bool_decide (is_Some (nat_traversal p)) then Err Malformed
    else if len =? 0 then Ok (p <| nat_traversal := Some ClientSupport |>, got, r)
    else
      let? (limit, r) := read_as get_var r in
      if limit =? 0 then Err IllegalValue
      else
        let? limit := map_err (λ _, IllegalValue) (from_u64 limit) in
        Ok (p <| nat_traversal := Some (ServerSupport limit) |>, got, r)
  | PAddressDiscovery =>
    if bool_decide (is_Some (address_discovery p)) then Err Malformed
    else
      let? (value, r) := read_as get_var r in
      let? varint := map_err (λ _, Malformed) (from_u64 value) in
      let? c := from_value varint in
      Ok (p <| address_discovery := Some c |>, got, r)
  | PRfcNatTraversal =>
    if rfc_nat_traversal p then Err Malformed
    else if negb (len =? 0) then Err Malformed
    else Ok (p <| rfc_nat_traversal := true |>, got, r)
  | PPqcAlgorithms =>
    if bool_decide (is_Some (pqc_algorithms p)) then Err Malformed
    else if negb (len =? 1) then Err Malformed
    else
      let? (value, r) := read_as (decode u8_codec) r in
      let bit i := negb (Z.land value (Z.shiftl 1 i) =? 0) in
      Ok (p <| pqc_algorithms := Some (mk_pqc (bit 0) (bit 1)) |>, got, r)
  | PInt i =>
    let? (value, r) := read_as (decode codec) r in
    if negb (len =? size value) || bool_decide (i ∈ got) then Err Malformed
    else Ok (set i value p, i :: got, r)
  | PReserved => Ok (p, got, zdrop len r)
  end.

(** The loop of [read]; [None]: it has not ended after [fuel] rounds. *)
Fixpoint read_loop (fuel : nat) (p : TransportParameters) (got : list IntParam) (r : list Z)
  : option (result TransportParameters Error) :=
  match r with
  | [] => Some (Ok p)
  | _ =>
    match fuel with
    | O => None
    | S fuel =>
      match (let? (id, r) := read_as get_var r in
             let? (len, r) := read_as get_var r in
             if zlen r <? len then Err Malformed
             else match try_from id with
                  | None => Ok (p, got, zdrop len r)
                  | Some id => read_param id len p got r
                  end) with
      | Err e => Some (Err e)
      | Ok (p, got, r) => read_loop fuel p got r
      end
    end
  end.

(** ** Validation *)

Definition validate_ack_delay_exponent (value : Z) : bool := negb (20 <? value).
Definition validate_active_connection_id_limit (value : Z) : bool := negb (value <? 2).
Definition validate_max_udp_payload_size (value : Z) : bool := negb (value <? 1200).

Definition is_none {A} (o : option A) : bool := match o with None => true | Some _ => false end.

Definition validate_server_only_params (side : Side) (p : TransportParameters) : bool :=
  match side with
  | Client => true
  | Server =>
    is_none (original_dst_cid p) && is_none (preferred_address p) && is_none (retry_src_cid p)
    && is_none (stateless_reset_token p)
  end.

(** The checks at the end of [read]. *)
Definition validate (side : Side) (p : TransportParameters) : bool :=
  validate_ack_delay_exponent (wrap 8 (ack_delay_exponent p))
  && AckFrequency.validate_max_ack_delay (max_ack_delay p)
  && validate_active_connection_id_limit (active_connection_id_limit p)
  && validate_max_udp_payload_size (max_udp_payload_size p)
  && negb (MAX_STREAM_COUNT <? initial_max_streams_bidi p)
  && negb (MAX_STREAM_COUNT <? initial_max_streams_uni p)
  && AckFrequency.validate_min_ack_delay (min_ack_delay p) (max_ack_delay p)
  && validate_server_only_params side p
  && match preferred_address p with Some a => negb (zlen (connection_id a) =? 0) | None => true end
  && match side, nat_traversal p with
     | Server, Some (ServerSupport limit) => negb ((limit =? 0) || (100 <? limit))
     | _, _ => true
     end.

Definition read (side : Side) (r : list Z) : option (result TransportParameters Error) :=
  res ← read_loop (length r) default [] r;
  Some (let? p := res in if validate side p then Ok p else Err IllegalValue).

(** ** The parameters of this endpoint *)

(** What [new] reads of [TransportConfig] and [EndpointConfig], and whether the server allows
    migration. *)
Record TransportConfig := mk_transport_config {
  max_concurrent_bidi_streams : Z;
  max_concurrent_uni_streams : Z;
  receive_window : Z;
  stream_receive_window : Z;
  cfg_max_idle_timeout : option Z;
  datagram_receive_buffer_size : option Z;
  nat_traversal_config : option NatTraversalConfig;
  address_discovery_config : option AddressDiscoveryConfig;
  cfg_pqc_algorithms : option PqcAlgorithms;
  cfg_max_udp_payload_size : Z;
  cfg_grease_quic_bit : bool;
  server_migration : option bool;
}.

(** What the random generator draws: the number behind the reserved identifier, the payload
    and its length, and the order of the parameters. *)
Record Draws := mk_draws { d_rand : Z; d_payload_len : Z; d_payload : list Z; d_order : list Z }.

Definition generate_reserved_id (rand : Z) : result Z VarIntBoundsExceeded := from_u64 (31 * (rand / 31) + 27).

Definition reserved_random (d : Draws) : result ReservedTransportParameter VarIntBoundsExceeded :=
  let? id := generate_reserved_id (d_rand d) in
  Ok (mk_reserved id (d_payload d ++ replicate (16 - length (d_payload d)) 0) (d_payload_len d)).

Definition new (c : TransportConfig) (cid_len : Z) (src_cid : list Z) (d : Draws)
  : result TransportParameters VarIntBoundsExceeded :=
  let? reserved := reserved_random d in
  Ok (default
    <| initial_src_cid := Some src_cid |>
    <| initial_max_streams_bidi := max_concurrent_bidi_streams c |>
    <| initial_max_streams_uni := max_concurrent_uni_streams c |>
    <| initial_max_data := receive_window c |>
    <| initial_max_stream_data_bidi_local := stream_receive_window c |>
    <| initial_max_stream_data_bidi_remote := stream_receive_window c |>
    <| initial_max_stream_data_uni := stream_receive_window c |>
    <| max_udp_payload_size := cfg_max_udp_payload_size c |>
    <| max_idle_timeout := match cfg_max_idle_timeout c with Some x => x | None => 0 end |>
    <| disable_active_migration := match server_migration c with Some m => negb m | None => false end |>
    <| active_connection_id_limit := if cid_len =? 0 then 2 else CidQueue.LEN |>
    <| max_datagram_frame_size := (λ x, Z.min x (u_max 16)) <$> datagram_receive_buffer_size c |>
    <| grease_quic_bit := cfg_grease_quic_bit c |>
    <| min_ack_delay := Some (AckFrequency.TIMER_GRANULARITY / 1000) |>
    <| grease_transport_parameter := Some reserved |>
    <| write_order := Some (d_order d) |>
    <| nat_traversal := nat_traversal_config c |>
    <| rfc_nat_traversal := bool_decide (is_Some (nat_traversal_config c)) |>
    <| address_discovery := address_discovery_config c |>
    <| pqc_algorithms := cfg_pqc_algorithms c |>).

(** The server adds its reset token, the identifiers of the handshake, and its preferred address
    with a connection identifier and a reset token for it; the tokens are those of
    [ResetToken::new]. *)
Definition server_params (p : TransportParameters) (reset_token : list Z → list Z) (loc_cid orig_dst_cid : list Z)
    (retry_cid : option (list Z)) (v4 : option (list Z * Z)) (v6 : option (list Z * Z * Z * Z)) (cid : list Z) : TransportParameters :=
  let p := p <| stateless_reset_token := Some (reset_token loc_cid) |>
             <| original_dst_cid := Some orig_dst_cid |> <| retry_src_cid := retry_cid |> in
  if negb (is_none v4) || negb (is_none v6)
  then p <| preferred_address := Some (mk_preferred v4 v6 cid (reset_token cid)) |>
  else p.

(** ** Use of the peer's parameters *)

(** [Option<VarInt>] is ordered with [None] first. *)
Definition option_gt (a b : option Z) : bool :=
  match a, b with Some a, Some b => b <? a | Some _, None => true | None, _ => false end.

Definition validate_resumption_from (cached p : TransportParameters) : bool :=
  negb ((active_connection_id_limit p <? active_connection_id_limit cached)
    || (initial_max_data p <? initial_max_data cached)
    || (initial_max_stream_data_bidi_local p <? initial_max_stream_data_bidi_local cached)
    || (initial_max_stream_data_bidi_remote p <? initial_max_stream_data_bidi_remote cached)
    || (initial_max_stream_data_uni p <? initial_max_stream_data_uni cached)
    || (initial_max_streams_bidi p <? initial_max_streams_bidi cached)
    || (initial_max_streams_uni p <? initial_max_streams_uni cached)
    || option_gt (max_datagram_frame_size cached) (max_datagram_frame_size p)
    || (grease_quic_bit cached && negb (grease_quic_bit p))).

Definition LOC_CID_COUNT : Z := 8.
Definition issue_cids_limit (p : TransportParameters) : Z := Z.min (active_connection_id_limit p) LOC_CID_COUNT.

Definition negotiated_nat_concurrency_limit (p : TransportParameters) (local_config : NatTraversalConfig) : option Z :=
  match nat_traversal p, local_config with
  | Some (ServerSupport remote), ServerSupport local => Some (Z.min local remote)
  | Some (ServerSupport limit), ClientSupport | Some ClientSupport, ServerSupport limit => Some limit
  | _, _ => None
  end.

(** ** Well-formed parameters *)

Definition opt_ok {A} (P : A → Prop) (o : option A) : Prop := match o with Some x => P x | None => True end.
Definition cid_ok (cid : list Z) : Prop := zlen cid ≤ 20 ∧ bytes_ok cid.
Definition token_ok (t : list Z) : Prop := zlen t = 16 ∧ bytes_ok t.

(** An address that the wire format can express: the unspecified one with port 0 stands for
    none, and flow label and scope are not transmitted. *)
Definition ip_port_ok (n : nat) (ip : list Z) (port : Z) : Prop :=
  length ip = n ∧ bytes_ok ip ∧ is_u 16 port ∧ (is_unspecified ip && (port =? 0)) = false.

Definition preferred_ok (a : PreferredAddress) : Prop :=
  opt_ok (λ x, ip_port_ok 4 x.1 x.2) (address_v4 a)
  ∧ opt_ok (λ x, ip_port_ok 16 x.1.1.1 x.1.1.2 ∧ x.1.2 = 0 ∧ x.2 = 0) (address_v6 a)
  ∧ (address_v4 a ≠ None ∨ address_v6 a ≠ None)
  ∧ cid_ok (connection_id a) ∧ token_ok (pa_reset_token a).

Definition nat_config_ok (c : NatTraversalConfig) : Prop :=
  match c with ClientSupport => True | ServerSupport limit => 0 < limit < 2 ^ 62 end.

(** Reserved identifiers are of the form 31 N + 27. *)
Definition reserved_ok (r : ReservedTransportParameter) : Prop :=
  is_u 62 (rp_id r) ∧ rp_id r mod 31 = 27 ∧ 0 ≤ payload_len r ≤ zlen (payload r) ∧ payload_len r < 2 ^ 62 ∧ bytes_ok (payload r).

Record fields_ok (p : TransportParameters) : Prop := {
  fo_ints i : is_u 62 (get i p);
  fo_datagram : opt_ok (is_u 62) (max_datagram_frame_size p);
  fo_min_ack : opt_ok (is_u 62) (min_ack_delay p);
  fo_src : opt_ok cid_ok (initial_src_cid p);
  fo_orig : opt_ok cid_ok (original_dst_cid p);
  fo_retry : opt_ok cid_ok (retry_src_cid p);
  fo_token : opt_ok token_ok (stateless_reset_token p);
  fo_preferred : opt_ok preferred_ok (preferred_address p);
  fo_nat : opt_ok nat_config_ok (nat_traversal p);
}.

(** ** Reading back what was written *)

(** [p] and [q] agree on a parameter. *)
Definition agree (id : TransportParameterId) (p q : TransportParameters) : Prop :=
  match id with
  | PInt i => get i p = get i q
  | PReserved => True
  | PStatelessResetToken => stateless_reset_token p = stateless_reset_token q
  | PDisableActiveMigration => disable_active_migration p = disable_active_migration q
  | PMaxDatagramFrameSize => max_datagram_frame_size p = max_datagram_frame_size q
  | PPreferredAddress => preferred_address p = preferred_address q
  | POriginalDestinationConnectionId => original_dst_cid p = original_dst_cid q
  | PInitialSourceConnectionId => initial_src_cid p = initial_src_cid q
  | PRetrySourceConnectionId => retry_src_cid p = retry_src_cid q
  | PGreaseQuicBit => grease_quic_bit p = grease_quic_bit q
  | PMinAckDelayDraft07 => min_ack_delay p = min_ack_delay q
  | PNatTraversal => nat_traversal p = nat_traversal q
  | PRfcNatTraversal => rfc_nat_traversal p = rfc_nat_traversal q
  | PAddressDiscovery => address_discovery p = address_discovery q
  | PPqcAlgorithms => pqc_algorithms p = pqc_algorithms q
  end.

(** [q] with the parameter taken from [p]. *)
Definition copy (id : TransportParameterId) (p q : TransportParameters) : TransportParameters :=
  match id with
  | PInt i => set i (get i p) q
  | PReserved => q
  | PStatelessResetToken => q <| stateless_reset_token := stateless_reset_token p |>
  | PDisableActiveMigration => q <| disable_active_migration := disable_active_migration p |>
  | PMaxDatagramFrameSize => q <| max_datagram_frame_size := max_datagram_frame_size p |>
  | PPreferredAddress => q <| preferred_address := preferred_address p |>
  | POriginalDestinationConnectionId => q <| original_dst_cid := original_dst_cid p |>
  | PInitialSourceConnectionId => q <| initial_src_cid := initial_src_cid p |>
  | PRetrySourceConnectionId => q <| retry_src_cid := retry_src_cid p |>
  | PGreaseQuicBit => q <| grease_quic_bit := grease_quic_bit p |>
  | PMinAckDelayDraft07 => q <| min_ack_delay := min_ack_delay p |>
  | PNatTraversal => q <| nat_traversal := nat_traversal p |>
  | PRfcNatTraversal => q <| rfc_nat_traversal := rfc_nat_traversal p |>
  | PAddressDiscovery => q <| address_discovery := address_discovery p |>
  | PPqcAlgorithms => q <| pqc_algorithms := pqc_algorithms p |>
  end.

(** The parameter is written, and a second occurrence is refused. *)
Definition present (id : TransportParameterId) (p : TransportParameters) : bool :=
  match id with
  | PInt i => negb (get i p =? default_int i)
  | PReserved => negb (is_none (grease_transport_parameter p))
  | PStatelessResetToken => negb (is_none (stateless_reset_token p))
  | PDisableActiveMigration => disable_active_migration p
  | PMaxDatagramFrameSize => negb (is_none (max_datagram_frame_size p))
  | PPreferredAddress => negb (is_none (preferred_address p))
  | POriginalDestinationConnectionId => negb (is_none (original_dst_cid p))
  | PInitialSourceConnectionId => negb (is_none (initial_src_cid p))
  | PRetrySourceConnectionId => negb (is_none (retry_src_cid p))
  | PGreaseQuicBit => grease_quic_bit p
  | PMinAckDelayDraft07 => negb (is_none (min_ack_delay p))
  | PNatTraversal => negb (is_none (nat_traversal p))
  | PRfcNatTraversal => rfc_nat_traversal p
  | PAddressDiscovery => negb (is_none (address_discovery p))
  | PPqcAlgorithms => negb (is_none (pqc_algorithms p))
  end.

Definition once (id : TransportParameterId) : bool :=
  match id with PReserved | PGreaseQuicBit | PMinAckDelayDraft07 => false | _ => true end.

Lemma get_set_param i j v p : get i (set j v p) = if decide (i = j) then v else get i p.
Proof. by destruct j, i. Qed.

Lemma agree_copy id p q : agree id (copy id p q) p.
Proof. destruct id; try reflexivity; try exact I. simpl. by rewrite get_set_param, decide_True. Qed.

Lemma agree_copy_ne id id' p q : id ≠ id' → agree id (copy id' p q) q.
Proof.
  intros Hne. destruct id' as [j | | | | | | | | | | | | | |]; cbn [copy].
  { destruct id as [i | | | | | | | | | | | | | |]; cbn [agree]; [| exact I | destruct j; reflexivity..].
    rewrite get_set_param, decide_False by congruence. reflexivity. }
  all: destruct id as [i | | | | | | | | | | | | | |]; cbn [agree]; first [reflexivity | exact I | destruct i; reflexivity | by destruct Hne].
Qed.

Lemma agree_absent id p : present id p = false → agree id p default.
Proof.
  destruct id as [i | | | | | | | | | | | | | |]; cbn [present agree default]; intros H;
    try exact I; try exact H; try (by match goal with |- ?f p = _ => destruct (f p) end).
  zbool. by destruct i.
Qed.

(** Agreeing on everything is being equal, up to what is not transmitted. *)
Lemma agree_eq p q : (∀ id, agree id p q) → grease_transport_parameter p = None → write_order p = None →
  p = q <| grease_transport_parameter := None |> <| write_order := None |>.
Proof.
  intros H Hg Ho. destruct p, q. simpl in *. subst.
  pose proof (λ i, H (PInt i)) as Hi. simpl in Hi.
  pose proof (Hi MaxIdleTimeout); pose proof (Hi MaxUdpPayloadSize); pose proof (Hi InitialMaxData);
  pose proof (Hi InitialMaxStreamDataBidiLocal); pose proof (Hi InitialMaxStreamDataBidiRemote);
  pose proof (Hi InitialMaxStreamDataUni); pose proof (Hi InitialMaxStreamsBidi); pose proof (Hi InitialMaxStreamsUni);
  pose proof (Hi AckDelayExponent); pose proof (Hi MaxAckDelay); pose proof (Hi ActiveConnectionIdLimit).
  pose proof (H PStatelessResetToken); pose proof (H PDisableActiveMigration); pose proof (H PMaxDatagramFrameSize);
  pose proof (H PPreferredAddress); pose proof (H POriginalDestinationConnectionId); pose proof (H PInitialSourceConnectionId);
  pose proof (H PRetrySourceConnectionId); pose proof (H PGreaseQuicBit); pose proof (H PMinAckDelayDraft07);
  pose proof (H PNatTraversal); pose proof (H PRfcNatTraversal); pose proof (H PAddressDiscovery); pose proof (H PPqcAlgorithms).
  clear H Hi. simpl in *. by subst.
Qed.

(** *** One parameter *)

Lemma put_param_ok id len v : is_u 62 id → is_u 62 len →
  put_param id len v = Ok (varint_encode id ++ varint_encode len ++ v).
Proof. intros Hid Hlen. unfold put_param, put_var. by rewrite !write_var_enc. Qed.

Lemma code_u62 id : is_u 62 (code id).
Proof. by destruct id as [[] | | | | | | | | | | | | | |]. Qed.

Lemma size_u62 x : is_u 62 (size x).
Proof. pose proof (size_bounds x). unfold is_u. lia. Qed.

Lemma try_from_code id : try_from (code id) = Some id.
Proof. by destruct id as [[] | | | | | | | | | | | | | |]. Qed.

Lemma try_from_reserved c : c mod 31 = 27 → try_from c = None ∨ try_from c = Some PReserved.
Proof.
  intros Hc. destruct (try_from c) as [id |] eqn:E; [right | by left]. apply find_some in E as [_ E%Z.eqb_eq].
  rewrite <- E in Hc. destruct id as [[] | | | | | | | | | | | | | |]; done.
Qed.

Lemma read_int x rest : is_u 62 x → read_as (decode codec) (varint_encode x ++ rest) = Ok (x, rest).
Proof. intros Hx. unfold read_as. change (decode codec) with get_var. by rewrite get_var_enc. Qed.

Lemma read_var x rest : is_u 62 x → read_as get_var (varint_encode x ++ rest) = Ok (x, rest).
Proof. intros Hx. unfold read_as. by rewrite get_var_enc. Qed.

Lemma from_u64_ok x : is_u 62 x → from_u64 x = Ok x.
Proof. intros Hx. unfold from_u64. rewrite (proj2 (Z.ltb_lt _ _)); [done |]. unfold is_u in Hx. lia. Qed.

Lemma read_codec {A} (C : Codec A) wf x rest : CodecLaws C wf → wf x → read_as (decode C) (encode C x ++ rest) = Ok (x, rest).
Proof. intros HC Hx. unfold read_as. by rewrite codec_roundtrip. Qed.

Lemma read_ip4 ip rest : length ip = 4%nat → bytes_ok ip → read_as (decode ipv4_codec) (encode ipv4_codec ip ++ rest) = Ok (ip, rest).
Proof. intros Hl Hb. apply (read_codec ipv4_codec _ ip rest (octets_laws 4 ltac:(lia))). done. Qed.

Lemma read_ip6 ip rest : length ip = 16%nat → bytes_ok ip → read_as (decode ipv6_codec) (encode ipv6_codec ip ++ rest) = Ok (ip, rest).
Proof. intros Hl Hb. apply (read_codec ipv6_codec _ ip rest (octets_laws 16 ltac:(lia))). done. Qed.

Lemma read_u16 x rest : is_u 16 x → read_as (decode u16_codec) (encode u16_codec x ++ rest) = Ok (x, rest).
Proof. apply (read_codec u16_codec _ x rest (fixed_laws 2 ltac:(lia))). Qed.

Lemma read_u8 x rest : is_u 8 x → read_as (decode u8_codec) (encode u8_codec x ++ rest) = Ok (x, rest).
Proof. apply (read_codec u8_codec _ x rest (fixed_laws 1 ltac:(lia))). Qed.

(** An address is written as its octets and port, none as zeros. *)
Lemma addr_written {A} n (o : option A) (ip : A → list Z) (port : A → Z) :
  opt_ok (λ x, ip_port_ok n (ip x) (port x)) o → (0 < n)%nat →
  let i := match o with Some x => ip x | None => replicate n 0 end in
  let q := match o with Some x => port x | None => 0 end in
  length i = n ∧ bytes_ok i ∧ is_u 16 q ∧ (is_unspecified i && (q =? 0)) = is_none o.
Proof.
  intros Ho Hn. destruct o as [x |]; [done |]. simpl. rewrite length_replicate. split_and!; try done.
  - apply Forall_replicate. by unfold is_byte, is_u.
  - rewrite andb_true_r. unfold is_unspecified. clear. by induction n.
Qed.

Lemma preferred_written a : preferred_ok a →
  ∃ ip4 port4 ip6 port6, preferred_write a = encode ipv4_codec ip4 ++ encode u16_codec port4 ++ encode ipv6_codec ip6
      ++ encode u16_codec port6 ++ encode u8_codec (zlen (connection_id a)) ++ connection_id a ++ pa_reset_token a
  ∧ length ip4 = 4%nat ∧ bytes_ok ip4 ∧ is_u 16 port4 ∧ length ip6 = 16%nat ∧ bytes_ok ip6 ∧ is_u 16 port6
  ∧ address_v4 a = (if is_unspecified ip4 && (port4 =? 0) then None else Some (ip4, port4))
  ∧ address_v6 a = (if is_unspecified ip6 && (port6 =? 0) then None else Some (ip6, port6, 0, 0)).
Proof.
  intros (H4 & H6 & _ & _ & _). destruct (addr_written 4 (address_v4 a) fst snd H4) as (A1 & A2 & A3 & A4); [lia |].
  destruct (addr_written 16 (address_v6 a) (λ x, x.1.1.1) (λ x, x.1.1.2)) as (B1 & B2 & B3 & B4); [by destruct (address_v6 a); [destruct H6 |] | lia |].
  do 4 eexists. split; [reflexivity |]. split_and!; try done.
  - rewrite A4. by destruct (address_v4 a) as [[] |].
  - rewrite B4. destruct (address_v6 a) as [[[[] ] ] |]; [| done]. simpl in H6. by destruct H6 as (_ & -> & ->).
Qed.

Lemma preferred_size a : preferred_ok a → zlen (preferred_write a) = wire_size a ∧ 0 ≤ wire_size a ≤ 61.
Proof.
  intros Ha. pose proof Ha as (_ & _ & _ & [Hc _] & [Ht _]). pose proof (zlen_nonneg (connection_id a)). unfold wire_size.
  rewrite wrap_small by (unfold is_u; lia). split; [| lia].
  destruct (preferred_written a Ha) as (ip4 & port4 & ip6 & port6 & -> & L4 & _ & _ & L6 & _). rewrite !zlen_app.
  unfold zlen at 1 2 3 4 5. cbn [encode ipv4_codec ipv6_codec u16_codec u8_codec]. rewrite !length_be_encode. unfold Datatypes.id. lia.
Qed.

Lemma preferred_roundtrip a rest : preferred_ok a → preferred_read (preferred_write a ++ rest) = Ok (a, rest).
Proof.
  intros Ha. pose proof Ha as (_ & _ & Hsome & [Hc Hcb] & [Ht _]). pose proof (zlen_nonneg (connection_id a)).
  destruct (preferred_written a Ha) as (ip4 & port4 & ip6 & port6 & -> & L4 & K4 & P4 & L6 & K6 & P6 & E4 & E6).
  unfold preferred_read. rewrite <- !app_assoc. rewrite read_ip4, read_u16, read_ip6, read_u16, read_u8 by (done || unfold is_u; lia).
  unfold QuicPacket.MAX_CID_SIZE. rewrite (proj2 (Z.ltb_ge 20 _)), orb_false_r by lia.
  rewrite (proj2 (Z.ltb_ge _ (zlen (connection_id a)))) by (rewrite zlen_app; pose proof (zlen_nonneg (pa_reset_token a ++ rest)); lia).
  rewrite ztake_app_zlen, zdrop_app_zlen by done. rewrite (proj2 (Z.ltb_ge _ 16)) by (rewrite zlen_app; pose proof (zlen_nonneg rest); lia).
  rewrite ztake_app_zlen, zdrop_app_zlen by done. rewrite <- E4, <- E6. destruct a as [v4 v6 cid token]. simpl in *.
  destruct v4, v6; try done. by destruct Hsome.
Qed.

(** The parameter was read before. *)
Definition seen (id : TransportParameterId) (q : TransportParameters) (got : list IntParam) : bool :=
  match id with PInt i => bool_decide (i ∈ got) | _ => present id q end.

Definition add (id : TransportParameterId) (got : list IntParam) : list IntParam :=
  match id with PInt i => i :: got | _ => got end.

(** What the loop does with one parameter. *)
Definition read_one (c len : Z) (q : TransportParameters) (got : list IntParam) (r : list Z) :=
  match try_from c with None => Ok (q, got, zdrop len r) | Some id => read_param id len q got r end.

Lemma read_loop_one n c len q got v rest : is_u 62 c → is_u 62 len → zlen v = len →
  read_loop (S n) q got (varint_encode c ++ varint_encode len ++ v ++ rest)
  = match read_one c len q got (v ++ rest) with Err e => Some (Err e) | Ok (q, got, r) => read_loop n q got r end.
Proof.
  intros Hc Hl Hv. set (r := varint_encode c ++ _). assert (Hr : ∃ b r', r = b :: r').
  { subst r. destruct (varint_encode c) eqn:E; [| by eexists _, _]. pose proof (zlen_varint_encode c Hc) as Hz. rewrite E in Hz.
    pose proof (size_bounds c). rewrite zlen_nil in Hz. lia. }
  destruct Hr as (b & r' & Er). cbn [read_loop]. rewrite Er. rewrite <- Er. subst r. rewrite read_var, read_var by done.
  rewrite (proj2 (Z.ltb_ge _ _)) by (rewrite zlen_app; pose proof (zlen_nonneg rest); lia). done.
Qed.

Definition opt_reserved (p : TransportParameters) : Prop := opt_ok reserved_ok (grease_transport_parameter p).

Definition written (id : TransportParameterId) (p : TransportParameters) (c len : Z) (v : list Z) : Prop :=
  write_param id p = Ok (varint_encode c ++ varint_encode len ++ v) ∧ is_u 62 c ∧ is_u 62 len ∧ zlen v = len
  ∧ ∀ q got rest, read_one c len q got (v ++ rest)
      = if once id && seen id q got then Err Malformed else Ok (copy id p q, add id got, rest).

Lemma written_intro id p len v : is_u 62 len → zlen v = len →
  write_param id p = put_param (code id) len v →
  (∀ q got rest, read_param id len q got (v ++ rest)
    = if once id && seen id q got then Err Malformed else Ok (copy id p q, add id got, rest)) →
  ∃ c len v, written id p c len v.
Proof.
  intros Hl Hv Hw Hr. exists (code id), len, v. split_and!; try done; try apply code_u62; try apply Hl.
  - by rewrite Hw, put_param_ok by (apply code_u62 || done).
  - intros q got rest. unfold read_one. by rewrite try_from_code, Hr.
Qed.

Lemma decode_cid_ok cid o rest : cid_ok cid →
  decode_cid (zlen cid) o (cid ++ rest) = if is_none o then Ok (cid, rest) else Err Malformed.
Proof.
  intros [Hc _]. unfold decode_cid, QuicPacket.MAX_CID_SIZE, QuicPacket.cid_from_buf. rewrite (proj2 (Z.ltb_ge 20 _)) by lia.
  rewrite (proj2 (Z.ltb_ge (zlen (cid ++ rest)) _)), orb_false_r by (rewrite zlen_app; pose proof (zlen_nonneg rest); lia).
  rewrite ztake_app_zlen, zdrop_app_zlen by done. by destruct o.
Qed.

(** A connection identifier is read back. *)
Lemma cid_written id p cid : cid_ok cid →
  (∀ q got r, read_param id (zlen cid) q got (cid ++ r) =
    if once id && seen id q got then Err Malformed else Ok (copy id p q, add id got, r)) →
  write_param id p = put_param (code id) (zlen cid) cid →
  ∃ c len v, written id p c len v.
Proof.
  intros [Hl _] Hr Hw. pose proof (zlen_nonneg cid).
  apply (written_intro _ _ (zlen cid) cid); [unfold is_u; lia | done..].
Qed.

(** A field that is not [None] has a value. *)
Ltac have H :=
  match type of H with negb (is_none ?o) = true => let E := fresh "E" in destruct o as [?x |] eqn:E; [clear H | discriminate H] end.

Lemma read_written id p : fields_ok p → opt_reserved p → present id p = true → ∃ c len v, written id p c len v.
Proof.
  intros Hp Hg Hpr. destruct id; cbn [present] in Hpr; try have Hpr.
  - (* an integer *)
    pose proof (fo_ints _ Hp i) as Hx. eapply (written_intro _ _ (size (get i p)) (varint_encode (get i p))).
    + apply size_u62.
    + by apply zlen_varint_encode.
    + cbn [write_param]. by rewrite Hpr.
    + intros q got rest. cbn [read_param]. rewrite read_int, Z.eqb_refl by done. by destruct (bool_decide _) eqn:Eg; cbn [negb orb]; simpl; rewrite Eg.
  - (* a reserved parameter *)
    unfold opt_reserved in Hg. rewrite E in Hg. destruct Hg as (Hid & Hm & [Hl0 Hl] & Hlen & Hb).
    exists (rp_id x), (payload_len x), (ztake (payload_len x) (payload x)). refine (conj _ (conj Hid (conj _ (conj _ _)))).
    + cbn [write_param]. rewrite E. apply put_param_ok; [done | unfold is_u; lia].
    + unfold is_u in *. lia.
    + rewrite zlen_ztake; lia.
    + intros q got rest. unfold read_one. rewrite zdrop_app_zlen by (rewrite zlen_ztake; lia).
      destruct (try_from_reserved _ Hm) as [-> | ->]; [done |]. cbn [read_param]. by rewrite zdrop_app_zlen by (rewrite zlen_ztake; lia).
  - (* the reset token *)
    pose proof (fo_token _ Hp) as Ht. rewrite E in Ht. destruct Ht as [Hl _]. apply (written_intro _ _ 16 x).
    + done.
    + done.
    + cbn [write_param]. by rewrite E.
    + intros q got rest. cbn [read_param]. rewrite ztake_app_zlen, zdrop_app_zlen by done. cbn [copy once seen present add]. rewrite E.
      by destruct (stateless_reset_token q).
  - (* migration *)
    apply (written_intro _ _ 0 []); try done.
    + cbn [write_param]. by rewrite Hpr.
    + intros q got rest. cbn. rewrite Hpr. by destruct (disable_active_migration q).
  - (* the size of datagrams *)
    pose proof (fo_datagram _ Hp) as Hx. rewrite E in Hx. simpl in Hx. apply (written_intro _ _ (size x) (varint_encode x)).
    + apply size_u62.
    + by apply zlen_varint_encode.
    + cbn [write_param]. by rewrite E.
    + intros q got rest. cbn [read_param copy once seen present add]. rewrite E. pose proof (size_bounds x). rewrite (proj2 (Z.ltb_ge 8 _)) by lia.
      rewrite read_int by done. by destruct (max_datagram_frame_size q).
  - (* the preferred address *)
    pose proof (fo_preferred _ Hp) as Hx. rewrite E in Hx. destruct (preferred_size x Hx) as [Hsz Hw].
    apply (written_intro _ _ (wire_size x) (preferred_write x)).
    + unfold is_u. lia.
    + done.
    + cbn [write_param]. by rewrite E.
    + intros q got rest. cbn [read_param copy once seen present add]. rewrite E, ztake_app_zlen, zdrop_app_zlen by done.
      pose proof (preferred_roundtrip x [] Hx) as Hr. rewrite app_nil_r in Hr. rewrite Hr. by destruct (preferred_address q).
  - pose proof (fo_orig _ Hp) as Hx. rewrite E in Hx. apply (cid_written _ _ x Hx); cbn [read_param write_param copy once seen present add]; rewrite E; [| done].
    intros q got r. rewrite decode_cid_ok by done. by destruct (original_dst_cid q).
  - pose proof (fo_src _ Hp) as Hx. rewrite E in Hx. apply (cid_written _ _ x Hx); cbn [read_param write_param copy once seen present add]; rewrite E; [| done].
    intros q got r. rewrite decode_cid_ok by done. by destruct (initial_src_cid q).
  - pose proof (fo_retry _ Hp) as Hx. rewrite E in Hx. apply (cid_written _ _ x Hx); cbn [read_param write_param copy once seen present add]; rewrite E; [| done].
    intros q got r. rewrite decode_cid_ok by done. by destruct (retry_src_cid q).
  - (* the fixed bit *)
    apply (written_intro _ _ 0 []); try done.
    + cbn [write_param]. by rewrite Hpr.
    + intros q got rest. cbn. by rewrite Hpr.
  - (* the least delay of acknowledgements *)
    pose proof (fo_min_ack _ Hp) as Hx. rewrite E in Hx. simpl in Hx. apply (written_intro _ _ (size x) (varint_encode x)).
    + apply size_u62.
    + by apply zlen_varint_encode.
    + cbn [write_param]. by rewrite E.
    + intros q got rest. cbn [read_param copy once seen present add andb]. by rewrite E, read_int.
  - (* NAT traversal *)
    pose proof (fo_nat _ Hp) as Hx. rewrite E in Hx. destruct x as [| limit]; simpl in Hx.
    { apply (written_intro _ _ 0 []); try done.
      - cbn [write_param]. by rewrite E.
      - intros q got rest. cbn [read_param copy once seen present add andb]. rewrite E. by destruct (nat_traversal q). }
    assert (Hu : is_u 62 limit) by (unfold is_u; lia). apply (written_intro _ _ (size limit) (varint_encode limit)).
    + apply size_u62.
    + by apply zlen_varint_encode.
    + cbn [write_param]. unfold put_var. by rewrite E, write_var_enc.
    + intros q got rest. cbn [read_param copy once seen present add andb]. rewrite E. pose proof (size_bounds limit).
      rewrite (proj2 (Z.eqb_neq (size limit) 0)), read_var by (done || lia). cbn. rewrite (proj2 (Z.eqb_neq limit 0)), from_u64_ok by (done || lia).
      by destruct (nat_traversal q).
  - (* the method of the RFC *)
    apply (written_intro _ _ 0 []); try done.
    + cbn [write_param]. by rewrite Hpr.
    + intros q got rest. cbn. rewrite Hpr. by destruct (rfc_nat_traversal q).
  - (* the discovery of addresses *)
    assert (Hu : is_u 62 (to_value x)) by by destruct x. apply (written_intro _ _ (size (to_value x)) (varint_encode (to_value x))).
    + apply size_u62.
    + by apply zlen_varint_encode.
    + cbn [write_param]. unfold put_var. by rewrite E, write_var_enc.
    + intros q got rest. cbn [read_param copy once seen present add andb]. rewrite E, read_var by done. cbn. rewrite from_u64_ok by done.
      by destruct (address_discovery q), x.
  - (* the algorithms *)
    eapply (written_intro _ _ 1 (encode u8_codec _)); [done | | cbn [write_param]; by rewrite E |].
    + by destruct x as [[] []].
    + intros q got rest. cbn [read_param copy once seen present add andb]. rewrite E. rewrite read_u8 by by destruct x as [[] []].
      by destruct (pqc_algorithms q), x as [[] []].
Qed.

(** *** All parameters *)

Definition write_ids (ids : list TransportParameterId) (p : TransportParameters) : result (list Z) Error :=
  foldr (λ id acc, let? a := write_param id p in let? b := acc in Ok (a ++ b)) (Ok []) ids.

(** A parameter that may occur once is written again. *)
Fixpoint repeats (before ids : list TransportParameterId) (p : TransportParameters) : bool :=
  match ids with
  | [] => false
  | id :: ids => (once id && present id p && bool_decide (id ∈ before)) || repeats (id :: before) ids p
  end.

(** After reading the parameters [before] of [p], and no others. *)
Record after (p : TransportParameters) (before : list TransportParameterId) (q : TransportParameters) (got : list IntParam) : Prop := {
  af_in id : id ∈ before → agree id q p;
  af_out id : id ∉ before → agree id q default;
  af_got i : get i p ≠ default_int i → (i ∈ got ↔ PInt i ∈ before);
  af_grease : grease_transport_parameter q = None;
  af_order : write_order q = None;
}.

Lemma present_agree id p q : id ≠ PReserved → agree id p q → present id p = present id q.
Proof. intros Hr. by destruct id; cbn [agree present]; intros; simplify_eq/=; rewrite ?H. Qed.

Lemma copy_untransmitted id p q : grease_transport_parameter (copy id p q) = grease_transport_parameter q ∧ write_order (copy id p q) = write_order q.
Proof. by destruct id as [[] | | | | | | | | | | | | | |]. Qed.

Lemma seen_before id p before q got : after p before q got → present id p = true → once id = true →
  seen id q got = bool_decide (id ∈ before).
Proof.
  intros H Hpr Ho. assert ((∃ i, id = PInt i) ∨ ∀ i, id ≠ PInt i) as [[i ->] | Hi] by (destruct id; eauto).
  { simpl in *. zbool. by apply bool_decide_ext, (af_got _ _ _ _ H). }
  transitivity (present id q); [by destruct id; [destruct (Hi i) | ..] |].
  case_bool_decide as Hin; [rewrite (present_agree _ q p) | rewrite (present_agree _ q default)];
    try done; try (by destruct id as [[] | | | | | | | | | | | | | |]); by (apply (af_in _ _ _ _ H) || apply (af_out _ _ _ _ H)).
Qed.

Lemma after_absent id p before q got : after p before q got → present id p = false → after p (id :: before) q got.
Proof.
  intros H Hpr. split; try apply H.
  - intros id' [-> | Hin]%elem_of_cons; [| by apply H]. destruct (decide (id ∈ before)) as [Hin | Hout]; [by apply H |].
    pose proof (agree_absent _ _ Hpr) as Hd. pose proof (af_out _ _ _ _ H id Hout) as Hq. by destruct id; simpl in *; congruence.
  - intros id' Hn. apply H. set_solver.
  - intros i Hi. rewrite (af_got _ _ _ _ H i Hi), elem_of_cons. split; [by right |]. intros [<- | ?]; [| done]. simpl in Hpr. zbool. done.
Qed.

Lemma after_present id p before q got : after p before q got → present id p = true →
  after p (id :: before) (copy id p q) (add id got).
Proof.
  intros H Hpr. destruct (copy_untransmitted id p q) as [Hg Ho].
  assert (Hne : ∀ id', id' ≠ id → ∀ r, agree id' q r → agree id' (copy id p q) r).
  { intros id' Hne r Hr. pose proof (agree_copy_ne id' id p q Hne) as Hc. by destruct id'; simpl in *; congruence. }
  split; [| | | by rewrite Hg; apply H | by rewrite Ho; apply H].
  - intros id' Hin. destruct (decide (id' = id)) as [-> |]; [apply agree_copy |]. apply Hne; [done |]. apply H. set_solver.
  - intros id' Hn. apply Hne; [set_solver |]. apply H. set_solver.
  - intros i Hi. pose proof (af_got _ _ _ _ H i Hi). destruct id; simpl; set_solver.
Qed.

Lemma written_cons id p c len v : written id p c len v → ∃ b s, write_param id p = Ok (b :: s)
  ∧ ∀ n q got rest, read_loop (S n) q got ((b :: s) ++ rest)
      = if once id && seen id q got then Some (Err Malformed) else read_loop n (copy id p q) (add id got) rest.
Proof.
  intros (Hw & Hc & Hl & Hv & Hr). destruct (varint_encode c) as [| b s] eqn:E.
  { pose proof (zlen_varint_encode c Hc) as Hz. rewrite E in Hz. pose proof (size_bounds c). rewrite zlen_nil in Hz. lia. }
  exists b, (s ++ varint_encode len ++ v). split; [done |]. intros n q got rest.
  pose proof (read_loop_one n c len q got v rest Hc Hl Hv) as Ho. rewrite E, Hr in Ho.
  rewrite <- app_comm_cons, <- !app_assoc, app_comm_cons, Ho. by destruct (once id && seen id q got).
Qed.

(** Reading what [write_ids] wrote. *)
Lemma read_run p ids : fields_ok p → opt_reserved p →
  ∃ bs, write_ids ids p = Ok bs ∧ ∀ before q got n, after p before q got → (length bs ≤ n)%nat →
    if repeats before ids p then read_loop n q got bs = Some (Err Malformed)
    else ∃ q' got', read_loop n q got bs = Some (Ok q') ∧ after p (reverse ids ++ before) q' got'.
Proof.
  intros Hp Hg. induction ids as [| id ids (bs & Hbs & IH)]; simpl.
  { exists []. split; [done |]. intros before q got n Ha _. exists q, got. destruct n; done. }
  rewrite Hbs. destruct (present id p) eqn:Hpr.
  - destruct (read_written id p Hp Hg Hpr) as (c & len & v & Hw). destruct (written_cons _ _ _ _ _ Hw) as (b & s & -> & Hr).
    eexists. split; [reflexivity |]. intros before q got n Ha Hn. destruct n as [| n]; [simpl in Hn; lia |].
    rewrite Hr, andb_true_r. destruct (once id) eqn:Ho; cbn [andb].
    + rewrite (seen_before id p before) by done. case_bool_decide; cbn [orb]; [done |].
      rewrite reverse_cons, <- app_assoc. apply IH; [by apply after_present |]. rewrite length_app in Hn. simpl in Hn. lia.
    + cbn [orb]. rewrite reverse_cons, <- app_assoc. apply IH; [by apply after_present |]. rewrite length_app in Hn. simpl in Hn. lia.
  - assert (Hw : write_param id p = Ok []).
    { destruct id; cbn [present] in Hpr; cbn [write_param]; rewrite ?Hpr; try done; by match goal with |- match ?o with _ => _ end = _ => destruct o end. }
    rewrite Hw. exists bs. split; [done |]. intros before q got n Ha Hn. rewrite andb_false_r. cbn [orb andb].
    rewrite reverse_cons, <- app_assoc. apply IH; [by apply after_absent | done].
Qed.

Lemma after_default p : after p [] default [].
Proof. split; try done; [by intros ? ?%elem_of_nil | by intros [] | by intros; split; intros ?%elem_of_nil]. Qed.

(** An index into the table of parameters. *)
Definition index_ok (idx : Z) : Prop := 0 ≤ idx < 25.

Definition id_at (idx : Z) : TransportParameterId := match SUPPORTED !! Z.to_nat idx with Some id => id | None => PReserved end.

Lemma write_all_ids order p : Forall index_ok order → write_all order p = write_ids (id_at <$> order) p.
Proof.
  intros Ho. induction Ho as [| idx order Hi Ho IH]; [done |]. cbn [write_all fmap list_fmap write_ids foldr]. unfold id_at at 1.
  destruct (lookup_lt_is_Some_2 SUPPORTED (Z.to_nat idx)) as [id ->]; [unfold index_ok in Hi; simpl; lia |]. by rewrite IH.
Qed.

Definition order_of (p : TransportParameters) : list Z := match write_order p with Some order => order | None => seqZ 0 25 end.

(** Every parameter has its place in the table. *)
Lemma id_at_onto id : ∃ idx, id = id_at idx ∧ 0 ≤ idx < 25.
Proof.
  assert (Hin : id ∈ SUPPORTED) by (destruct id as [[] | | | | | | | | | | | | | |]; unfold SUPPORTED; set_solver).
  apply list_elem_of_lookup in Hin as [k Hk]. exists (Z.of_nat k). unfold id_at. rewrite Nat2Z.id, Hk.
  apply lookup_lt_Some in Hk. split; [done | simpl in Hk; lia].
Qed.

Lemma id_at_inj i j : index_ok i → index_ok j → id_at i = id_at j → i = j.
Proof.
  assert (Hn : NoDup SUPPORTED) by (by apply (bool_decide_unpack _)). intros Hi Hj E. unfold id_at, index_ok in *.
  destruct (lookup_lt_is_Some_2 SUPPORTED (Z.to_nat i)) as [a Ha]; [simpl; lia |].
  destruct (lookup_lt_is_Some_2 SUPPORTED (Z.to_nat j)) as [b Hb]; [simpl; lia |]. rewrite Ha, Hb in E. subst b.
  pose proof (NoDup_lookup _ _ _ _ Hn Ha Hb). lia.
Qed.

Lemma repeats_NoDup p ids : ∀ before, NoDup (ids ++ before) → repeats before ids p = false.
Proof.
  induction ids as [| id ids IH]; intros before H; [done |]. apply NoDup_cons in H as [Hn H]. simpl.
  rewrite bool_decide_false, andb_false_r by set_solver. cbn [orb]. apply IH.
  rewrite <- Permutation_middle. by apply NoDup_cons.
Qed.

(** All parameters are written, each once. *)
Definition complete (p : TransportParameters) : Prop := Permutation (order_of p) (seqZ 0 25).

Lemma complete_ids p : complete p →
  Forall index_ok (order_of p) ∧ repeats [] (id_at <$> order_of p) p = false ∧ ∀ id, id ∈ id_at <$> order_of p.
Proof.
  unfold complete. intros H. assert (Hr : Forall index_ok (order_of p)).
  { rewrite H. apply Forall_forall. intros x Hx%elem_of_seqZ. unfold index_ok. lia. }
  split; [done |]. split.
  - apply repeats_NoDup. rewrite app_nil_r. apply NoDup_fmap_2_strong; [| rewrite H; apply NoDup_seqZ].
    intros i j Hi Hj. rewrite Forall_forall in Hr. by apply id_at_inj; apply Hr.
  - intros id. destruct (id_at_onto id) as (idx & -> & Hi). apply list_elem_of_fmap. exists idx. split; [done |].
    rewrite H. apply elem_of_seqZ. lia.
Qed.

(** What is transmitted of the parameters. *)
Definition transmitted (p : TransportParameters) : TransportParameters :=
  p <| grease_transport_parameter := None |> <| write_order := None |>.

Lemma validate_transmitted side p : validate side (transmitted p) = validate side p.
Proof. done. Qed.

Lemma read_complete p : fields_ok p → opt_reserved p → complete p →
  ∃ bs, write p = Ok bs ∧ ∀ side, read side bs = Some (if validate side p then Ok (transmitted p) else Err IllegalValue).
Proof.
  intros Hp Hg Hc. destruct (complete_ids p Hc) as (Hi & Hr & Hall).
  destruct (read_run p (id_at <$> order_of p) Hp Hg) as (bs & Hw & H). exists bs. split; [by rewrite <- write_all_ids in Hw |].
  specialize (H [] default [] (length bs) (after_default p) (Nat.le_refl _)). rewrite Hr in H. destruct H as (q & got & Hq & Ha).
  assert (Eq : q = transmitted p).
  { apply agree_eq; [| apply Ha..]. intros id. apply (af_in _ _ _ _ Ha). rewrite app_nil_r. apply elem_of_reverse, Hall. }
  intros side. unfold read. rewrite Hq, Eq. simpl. by rewrite validate_transmitted; destruct (validate side p).
Qed.

(** *** Any bytes *)

(** Reading a value from [r] gives one that satisfies [P] and no more bytes than there were;
    it never fails with an internal error. *)
Definition reads {A} (P : A → Prop) (r : list Z) (m : result (A * list Z) Error) : Prop :=
  match m with
  | Err e => e ≠ Internal
  | Ok (x, r') => P x ∧ bytes_ok r' ∧ (length r' ≤ length r)%nat
  end.

Lemma reads_codec {A} (C : Codec A) wf r : CodecLaws C wf → bytes_ok r → reads wf r (read_as (decode C) r).
Proof.
  intros HC Hr. unfold read_as. destruct (decode C r) as [[x r'] |] eqn:E; simpl; [| done].
  destruct (codec_consumes (CodecLaws := HC) _ _ _ Hr E) as (Hx & pre & _ & ->). apply Forall_app in Hr as [_ Hr].
  split_and!; try done. rewrite length_app. lia.
Qed.

Lemma reads_int r : bytes_ok r → reads (is_u 62) r (read_as (decode codec) r).
Proof. apply reads_codec, _. Qed.

Lemma reads_var r : bytes_ok r → reads (is_u 62) r (read_as get_var r).
Proof. apply (reads_codec codec), _. Qed.

Lemma bytes_ok_split n r : bytes_ok r → bytes_ok (ztake n r) ∧ bytes_ok (zdrop n r).
Proof. intros. split; [by apply Forall_take | by apply Forall_drop]. Qed.

Lemma reads_weaken {A} (P : A → Prop) r r' m : reads P r m → (length r ≤ length r')%nat → reads P r' m.
Proof. destruct m as [[x r''] |]; simpl; [intros (? & ? & ?) ?; split_and!; try done; lia | done]. Qed.

(** One more value is read. *)
Lemma reads_bind {A B} (P : A → Prop) (Q : B → Prop) r m k : reads P r m →
  (∀ x r', P x → bytes_ok r' → reads Q r' (k x r')) →
  reads Q r (match m with Ok (x, r') => k x r' | Err e => Err e end).
Proof.
  intros Hm Hk. destruct m as [[x r'] |]; simpl in *; [| done]. destruct Hm as (Hx & Hr & Hl).
  by eapply reads_weaken, Hl; apply Hk.
Qed.

Lemma reads_cid len o r : 0 ≤ len → bytes_ok r → reads cid_ok r (decode_cid len o r).
Proof.
  intros Hlen Hr. unfold decode_cid, QuicPacket.MAX_CID_SIZE, QuicPacket.cid_from_buf.
  destruct (Z.ltb_spec 20 len); [done |]. destruct (bool_decide _); [done |]. destruct (Z.ltb_spec (zlen r) len); [done |]. simpl.
  destruct (bytes_ok_split len r Hr). unfold cid_ok. rewrite zlen_ztake by lia. split_and!; try done.
  unfold zdrop. rewrite length_drop. lia.
Qed.

Lemma reads_preferred r : bytes_ok r → reads preferred_ok r (preferred_read r).
Proof.
  intros Hr. unfold preferred_read.
  eapply reads_bind; [apply (reads_codec ipv4_codec _ _ (octets_laws 4 ltac:(lia)) Hr) |]. clear r Hr. intros ip4 r [L4 B4] Hr.
  eapply reads_bind; [apply (reads_codec u16_codec _ _ (fixed_laws 2 ltac:(lia)) Hr) |]. clear r Hr. intros port4 r P4 Hr.
  eapply reads_bind; [apply (reads_codec ipv6_codec _ _ (octets_laws 16 ltac:(lia)) Hr) |]. clear r Hr. intros ip6 r [L6 B6] Hr.
  eapply reads_bind; [apply (reads_codec u16_codec _ _ (fixed_laws 2 ltac:(lia)) Hr) |]. clear r Hr. intros port6 r P6 Hr.
  eapply reads_bind; [apply (reads_codec u8_codec _ _ (fixed_laws 1 ltac:(lia)) Hr) |]. clear r Hr. intros len r Pl Hr.
  unfold QuicPacket.MAX_CID_SIZE. destruct (Z.ltb_spec (zlen r) len), (Z.ltb_spec 20 len); try done. cbn [orb].
  destruct (bytes_ok_split len r Hr) as [Ht Hd]. destruct (bytes_ok_split 16 _ Hd) as [Ht' Hd'].
  destruct (Z.ltb_spec (zlen (zdrop len r)) 16); [done |]. unfold is_u in Pl.
  assert (Hlen : (length (zdrop 16 (zdrop len r)) ≤ length r)%nat) by (unfold zdrop; rewrite !length_drop; lia).
  assert (Hc : cid_ok (ztake len r)) by (split; [rewrite zlen_ztake by lia; lia | done]).
  assert (Hk : token_ok (ztake 16 (zdrop len r))) by (split; [by rewrite zlen_ztake by lia | done]).
  assert (H4 : (is_unspecified ip4 && (port4 =? 0)) = false → ip_port_ok 4 ip4 port4) by done.
  assert (H6 : (is_unspecified ip6 && (port6 =? 0)) = false → ip_port_ok 16 ip6 port6) by done.
  destruct (is_unspecified ip4 && (port4 =? 0)), (is_unspecified ip6 && (port6 =? 0)); simpl; try done; (split; [| done]).
  all: split; [| split; [| split; [| split]]]; simpl; auto.
Qed.

Lemma fields_set i v p : fields_ok p → is_u 62 v → fields_ok (set i v p).
Proof.
  intros H Hv. split; [| destruct i; apply H..]. intros j. rewrite get_set_param. destruct (decide _); [done | apply H].
Qed.

(** A parameter other than the integers. *)
Lemma fields_update p q : fields_ok p → (∀ i, get i q = get i p) →
  (opt_ok (is_u 62) (max_datagram_frame_size p) → opt_ok (is_u 62) (max_datagram_frame_size q)) →
  (opt_ok (is_u 62) (min_ack_delay p) → opt_ok (is_u 62) (min_ack_delay q)) →
  (opt_ok cid_ok (initial_src_cid p) → opt_ok cid_ok (initial_src_cid q)) →
  (opt_ok cid_ok (original_dst_cid p) → opt_ok cid_ok (original_dst_cid q)) →
  (opt_ok cid_ok (retry_src_cid p) → opt_ok cid_ok (retry_src_cid q)) →
  (opt_ok token_ok (stateless_reset_token p) → opt_ok token_ok (stateless_reset_token q)) →
  (opt_ok preferred_ok (preferred_address p) → opt_ok preferred_ok (preferred_address q)) →
  (opt_ok nat_config_ok (nat_traversal p) → opt_ok nat_config_ok (nat_traversal q)) → fields_ok q.
Proof.
  intros H Hg H1 H2 H3 H4 H5 H6 H7 H8.
  split; [intros i; rewrite Hg; apply H | apply H1, H | apply H2, H | apply H3, H | apply H4, H | apply H5, H | apply H6, H | apply H7, H | apply H8, H].
Qed.

Ltac fields_update :=
  match goal with H : fields_ok ?p |- _ => apply (fields_update p); [exact H | by intros [] | ..]; try (by intros ?); done end.

Lemma reads_param id len p got r : bytes_ok r → 0 ≤ len ≤ zlen r → fields_ok p →
  reads (λ x, fields_ok x.1) r (read_param id len p got r).
Proof.
  intros Hr Hlen Hp. assert (Hdone : ∀ q (got : list IntParam), fields_ok q → reads (λ x, fields_ok x.1) r (Ok (q, got, r))) by done.
  destruct id; cbn [read_param].
  - eapply reads_bind; [by apply reads_int |]. intros x r' Hx Hr'. destruct (_ || _); [done |]. split; [by apply fields_set | done].
  - destruct (bytes_ok_split len r Hr). split_and!; [done | done |]. unfold zdrop. rewrite length_drop. lia.
  - destruct (Z.eqb_spec len 16) as [-> |]; cbn [negb orb]; [| done]. destruct (bool_decide _); [done |].
    destruct (bytes_ok_split 16 r Hr) as [Ht Hd]. assert (token_ok (ztake 16 r)) by (split; [by rewrite zlen_ztake by lia | done]).
    split_and!; [fields_update | done |]. unfold zdrop. rewrite length_drop. lia.
  - destruct (_ || _); [done |]. apply (Hdone _ got). fields_update.
  - destruct (_ || _); [done |]. eapply reads_bind; [by apply reads_int |]. intros x r' Hx Hr'. split; [fields_update | done].
  - destruct (bool_decide _); [done |]. destruct (bytes_ok_split len r Hr) as [Ht Hd]. pose proof (reads_preferred _ Ht) as Hpr.
    destruct (preferred_read _) as [[a r'] |]; [| done]. destruct Hpr as (Ha & Hb & Hl). split_and!.
    + fields_update.
    + by apply Forall_app.
    + unfold ztake, zdrop in *. rewrite length_take in Hl. rewrite length_app, length_drop. unfold zlen in Hlen. lia.
  - eapply reads_bind; [apply reads_cid; [lia | done] |]. intros x r' Hx Hr'. split; [fields_update | done].
  - eapply reads_bind; [apply reads_cid; [lia | done] |]. intros x r' Hx Hr'. split; [fields_update | done].
  - eapply reads_bind; [apply reads_cid; [lia | done] |]. intros x r' Hx Hr'. split; [fields_update | done].
  - destruct (_ =? _); [| done]. apply (Hdone _ got). fields_update.
  - eapply reads_bind; [by apply reads_int |]. intros x r' Hx Hr'. split; [fields_update | done].
  - destruct (bool_decide _); [done |]. destruct (_ =? _); [apply (Hdone _ got); fields_update |].
    eapply reads_bind; [by apply reads_var |]. intros x r' Hx Hr'. destruct (Z.eqb_spec x 0); [done |]. rewrite from_u64_ok by done.
    assert (nat_config_ok (ServerSupport x)) by (unfold is_u in Hx; simpl; lia). split; [fields_update | done].
  - destruct (rfc_nat_traversal p); [done |]. destruct (negb _); [done |]. apply (Hdone _ got). fields_update.
  - destruct (bool_decide _); [done |]. eapply reads_bind; [by apply reads_var |]. intros x r' Hx Hr'. rewrite from_u64_ok by done.
    cbn [map_err]. unfold from_value. repeat (destruct (_ =? _); [split; [fields_update | done] |]). done.
  - destruct (bool_decide _); [done |]. destruct (negb _); [done |].
    eapply reads_bind; [by apply (reads_codec u8_codec _ _ (fixed_laws 1 ltac:(lia))) |]. intros x r' Hx Hr'. split; [fields_update | done].
Qed.

Lemma read_param_untransmitted id len p got r p' got' r' : read_param id len p got r = Ok (p', got', r') →
  grease_transport_parameter p' = grease_transport_parameter p ∧ write_order p' = write_order p.
Proof.
  intros H. destruct id; cbn [read_param] in H; unfold decode_cid in H; simplify_eq/=; repeat (case_match; simplify_eq/=; try done); try done.
  1: by destruct i.
Qed.

Lemma fields_default : fields_ok default.
Proof. split; try exact I. intros []; by unfold is_u. Qed.

Lemma read_loop_total n : ∀ p got r, bytes_ok r → (length r ≤ n)%nat → fields_ok p →
  ∃ res, read_loop n p got r = Some res
  ∧ match res with
    | Ok q => fields_ok q ∧ grease_transport_parameter q = grease_transport_parameter p ∧ write_order q = write_order p
    | Err e => e ≠ Internal
    end.
Proof.
  induction n as [| n IH]; intros p got r Hr Hn Hp; (destruct r as [| b r0] eqn:Er; [by eexists |]); [simpl in Hn; lia |].
  rewrite <- Er in *. cbn [read_loop]. rewrite Er. rewrite <- Er in *. clear b r0 Er.
  destruct (read_as get_var r) as [[id r1] |] eqn:E1; [| pose proof (reads_var r Hr) as He; rewrite E1 in He; by eexists].
  assert (Hc : is_u 62 id ∧ bytes_ok r1 ∧ (length r1 < length r)%nat).
  { unfold read_as in E1. destruct (get_var r) as [[]|] eqn:Eg; simplify_eq/=. by apply get_var_suffix. }
  destruct Hc as (_ & Hr1 & Hl1). pose proof (reads_var r1 Hr1) as H2. destruct (read_as get_var r1) as [[len r2] |]; [| by eexists].
  destruct H2 as (Hlen & Hr2 & Hl2). destruct (Z.ltb_spec (zlen r2) len); [by eexists |]. unfold is_u in Hlen.
  assert (Hone : reads (λ x, fields_ok x.1) r2 (read_one id len p got r2)).
  { unfold read_one. destruct (try_from id); [apply reads_param; done || lia |]. destruct (bytes_ok_split len r2 Hr2). simpl.
    split_and!; try done. unfold zdrop. rewrite length_drop. lia. }
  assert (Hun : ∀ q got' r', read_one id len p got r2 = Ok (q, got', r') →
    grease_transport_parameter q = grease_transport_parameter p ∧ write_order q = write_order p).
  { unfold read_one. intros q got' r'. destruct (try_from id); [apply read_param_untransmitted | by intros [= <- _ _]]. }
  unfold read_one in *. destruct (match try_from id with Some _ => _ | None => _ end) as [[[q got'] r'] |]; [| by eexists].
  destruct Hone as (Hq & Hr' & Hl'), (Hun q got' r' eq_refl) as [<- <-]. apply IH; [done | lia | done].
Qed.

Lemma read_accepts side r : bytes_ok r →
  ∃ res, read side r = Some res
  ∧ match res with
    | Ok p => fields_ok p ∧ validate side p = true ∧ grease_transport_parameter p = None ∧ write_order p = None
    | Err e => e ≠ Internal
    end.
Proof.
  intros Hr. destruct (read_loop_total (length r) default [] r Hr (Nat.le_refl _) fields_default) as (res & E & H).
  unfold read. rewrite E. simpl. destruct res as [p |]; [| by eexists]. destruct H as (Hp & Hg & Ho).
  destruct (validate side p) eqn:Hv; by eexists.
Qed.

(** *** The parameters an endpoint sends *)

Record config_ok (c : TransportConfig) : Prop := {
  co_bidi : 0 ≤ max_concurrent_bidi_streams c ≤ MAX_STREAM_COUNT;
  co_uni : 0 ≤ max_concurrent_uni_streams c ≤ MAX_STREAM_COUNT;
  co_receive : is_u 62 (receive_window c);
  co_stream_receive : is_u 62 (stream_receive_window c);
  co_idle : opt_ok (is_u 62) (cfg_max_idle_timeout c);
  co_datagram : opt_ok (λ x, 0 ≤ x) (datagram_receive_buffer_size c);
  co_nat : opt_ok (λ n, match n with ClientSupport => True | ServerSupport limit => 0 < limit ≤ 100 end) (nat_traversal_config c);
  co_payload : 1200 ≤ cfg_max_udp_payload_size c < 2 ^ 62;
}.

(** The ranges the random generator is asked for. *)
Record draws_ok (d : Draws) : Prop := {
  do_rand : 0 ≤ d_rand d < 2 ^ 62 - 27;
  do_len : 0 ≤ d_payload_len d < 16;
  do_payload : zlen (d_payload d) = d_payload_len d ∧ bytes_ok (d_payload d);
  do_order : Permutation (d_order d) (seqZ 0 25);
}.

Lemma reserved_random_ok d : draws_ok d → ∃ r, reserved_random d = Ok r ∧ reserved_ok r.
Proof.
  intros [Hr Hl [Hp Hb] _]. unfold reserved_random, generate_reserved_id.
  pose proof (Z.mul_div_le (d_rand d) 31 ltac:(lia)). pose proof (Z.div_pos (d_rand d) 31 ltac:(lia) ltac:(lia)).
  assert (Hid : is_u 62 (31 * (d_rand d / 31) + 27)) by (unfold is_u; lia). rewrite from_u64_ok by done.
  eexists. split; [reflexivity |]. refine (conj Hid (conj _ (conj _ (conj _ _)))); simpl.
  - rewrite Z.mul_comm, Z.add_comm, Z.mod_add by lia. done.
  - rewrite zlen_app. pose proof (zlen_nonneg (replicate (16 - length (d_payload d)) 0)). lia.
  - lia.
  - apply Forall_app. split; [done |]. apply Forall_replicate. by unfold is_byte, is_u.
Qed.

(** The parameters of [new] are written completely, and either side accepts them. *)
Lemma new_params_ok c cid_len src_cid d : config_ok c → draws_ok d → cid_ok src_cid →
  ∃ p, new c cid_len src_cid d = Ok p ∧ fields_ok p ∧ opt_reserved p ∧ complete p ∧ (∀ side, validate side p = true)
  ∧ preferred_address p = None.
Proof.
  intros Hc Hd Hs. destruct (reserved_random_ok d Hd) as (r & Hr & Hok). unfold new. rewrite Hr.
  pose proof (co_bidi _ Hc) as Hbidi. pose proof (co_uni _ Hc) as Huni. pose proof (co_payload _ Hc) as Hpay.
  assert (Hmax : MAX_STREAM_COUNT = 2 ^ 60) by done.
  eexists. split; [reflexivity |]. split; [| split; [done | split; [apply Hd | split; [| done]]]].
  - split; simpl; try done.
    + intros i. destruct i; simpl; try (by unfold is_u); try apply Hc; try (unfold is_u; lia).
      * pose proof (co_idle _ Hc). by destruct (cfg_max_idle_timeout c).
      * by destruct (cid_len =? 0).
    + pose proof (co_datagram _ Hc). destruct (datagram_receive_buffer_size c); simpl in *; [| done].
      unfold is_u, u_max. lia.
    + pose proof (co_nat _ Hc). destruct (nat_traversal_config c) as [[] |]; simpl in *; lia || done.
  - intros side. unfold validate. simpl. rewrite Hmax in *.
    unfold validate_max_udp_payload_size. rewrite (proj2 (Z.ltb_ge _ 1200)), !(proj2 (Z.ltb_ge (2 ^ 60) _)) by lia.
    replace (validate_active_connection_id_limit _) with true by by destruct (cid_len =? 0). pose proof (co_nat _ Hc).
    destruct side; [done |]. cbn. destruct (nat_traversal_config c) as [[| limit] |]; simpl in *; try done.
    rewrite (proj2 (Z.eqb_neq limit 0)), (proj2 (Z.ltb_ge 100 limit)) by lia. done.
Qed.

Lemma server_params_ok p reset_token loc orig retry v4 v6 cid :
  fields_ok p → opt_reserved p → complete p → validate Client p = true → preferred_address p = None →
  (∀ cid, token_ok (reset_token cid)) → cid_ok orig → opt_ok cid_ok retry →
  opt_ok (λ x, ip_port_ok 4 x.1 x.2) v4 → opt_ok (λ x, ip_port_ok 16 x.1.1.1 x.1.1.2 ∧ x.1.2 = 0 ∧ x.2 = 0) v6 → cid_ok cid → cid ≠ [] →
  let q := server_params p reset_token loc orig retry v4 v6 cid in
  fields_ok q ∧ opt_reserved q ∧ complete q ∧ validate Client q = true.
Proof.
  intros Hp Hg Hc Hv Hn Ht Ho Hr H4 H6 Hcid Hne q. subst q. unfold server_params. pose proof (Ht loc) as Hl.
  set (q := p <| stateless_reset_token := _ |> <| original_dst_cid := _ |> <| retry_src_cid := _ |>).
  assert (Hq : fields_ok q) by (subst q; fields_update). destruct (negb (is_none v4) || negb (is_none v6)) eqn:E; [| by subst q].
  assert (preferred_ok (mk_preferred v4 v6 cid (reset_token cid))).
  { pose proof (Ht cid). split; [done | split; [done | split; [| by split]]]. simpl. destruct v4, v6; simpl in *; auto; by left + by right. }
  split; [fields_update |]. split; [done |]. split; [done |]. subst q. revert Hv. unfold validate. simpl. rewrite Hn.
  assert ((zlen cid =? 0) = false) as -> by (by destruct cid; [| apply Z.eqb_neq; rewrite zlen_cons; pose proof (zlen_nonneg cid); lia]).
  done.
Qed.

Lemma repeats_twice p id a b c : ∀ before, present id p = true → once id = true →
  repeats before (a ++ id :: b ++ id :: c) p = true.
Proof.
  intros before Hp Ho.
  assert (Hgo : ∀ l before, id ∈ before → repeats before (l ++ id :: c) p = true).
  { induction l as [| x l IH]; intros before' Hin; simpl.
    - by rewrite Ho, Hp, bool_decide_true.
    - rewrite IH, orb_true_r by set_solver. done. }
  revert before. induction a as [| x a IH]; intros before; simpl; [rewrite Hgo by set_solver | rewrite IH]; by rewrite orb_true_r.
Qed.

(** * Theorems *)

(** C10: the transport parameters round trip through the handshake.  Whatever values the
    parameters have, in whatever order the writer was told to put them, with or without a
    reserved parameter among them, writing succeeds and the peer reads back exactly the values,
    provided they pass the peer's validation; those that do not are refused as illegal. *)
Theorem transport_parameters_roundtrip (p : TransportParameters) :
  fields_ok p → opt_reserved p → complete p →
  ∃ bs, write p = Ok bs
  ∧ ∀ side, read side bs = Some (if validate side p then Ok (transmitted p) else Err IllegalValue).
Proof. apply read_complete. Qed.

(** C34: any bytes from the peer are read to an end: either they are refused as malformed or
    illegal, never with an internal error, or they give parameters that are in range and valid,
    and these are written and read again to the same parameters, as when they are cached for
    resumption. *)
Theorem transport_parameters_total (side : Side) (r : list Z) : bytes_ok r →
  read side r = Some (Err Malformed) ∨ read side r = Some (Err IllegalValue)
  ∨ ∃ p bs, read side r = Some (Ok p) ∧ fields_ok p ∧ validate side p = true
      ∧ write p = Ok bs ∧ read side bs = Some (Ok p).
Proof.
  intros Hr. destruct (read_accepts side r Hr) as (res & E & H). rewrite E. destruct res as [p | []]; try by auto.
  right. right. destruct H as (Hp & Hv & Hg & Ho). destruct (read_complete p Hp) as (bs & Hw & Hb).
  - unfold opt_reserved. by rewrite Hg.
  - unfold complete, order_of. by rewrite Ho.
  - exists p, bs. split_and!; try done. rewrite Hb, Hv. do 2 f_equal. destruct p. simpl in *. by subst.
Qed.

(** A parameter that occurs twice is an error.  If the order of writing names a parameter
    twice and it is not one of those the code lets repeat (reserved identifiers, the fixed bit
    and the least acknowledgement delay), the peer refuses the bytes as malformed, whatever
    the other parameters are and wherever the second occurrence stands. *)
Theorem repeated_parameter_malformed (p : TransportParameters) (side : Side) (i : Z) (a b c : list Z) :
  fields_ok p → opt_reserved p → Forall index_ok (order_of p) → order_of p = a ++ i :: b ++ i :: c →
  once (id_at i) = true → present (id_at i) p = true →
  ∃ bs, write p = Ok bs ∧ read side bs = Some (Err Malformed).
Proof.
  intros Hp Hg Hi Hs Ho Hpr. destruct (read_run p (id_at <$> order_of p) Hp Hg) as (bs & Hw & H). exists bs.
  split; [by rewrite <- write_all_ids in Hw |].
  specialize (H [] default [] (length bs) (after_default p) (Nat.le_refl _)).
  rewrite Hs, fmap_app, fmap_cons, fmap_app, fmap_cons, repeats_twice in H by done. unfold read. by rewrite H.
Qed.

(** An endpoint's own parameters are accepted by its peer.  With a configuration in range,
    any draws of the random generator, and for a server its token, the identifiers of the
    handshake and a preferred address, the parameters of [new] are written and read back by the
    other side exactly. *)
Theorem own_parameters_accepted (c : TransportConfig) (cid_len : Z) (src_cid : list Z) (d : Draws) :
  config_ok c → draws_ok d → cid_ok src_cid →
  ∃ p, new c cid_len src_cid d = Ok p
  ∧ (∃ bs, write p = Ok bs ∧ read Server bs = Some (Ok (transmitted p)))
  ∧ ∀ reset_token orig retry v4 v6 cid, (∀ cid, token_ok (reset_token cid)) → cid_ok orig → opt_ok cid_ok retry →
      opt_ok (λ x, ip_port_ok 4 x.1 x.2) v4 → opt_ok (λ x, ip_port_ok 16 x.1.1.1 x.1.1.2 ∧ x.1.2 = 0 ∧ x.2 = 0) v6 →
      cid_ok cid → cid ≠ [] →
      let q := server_params p reset_token src_cid orig retry v4 v6 cid in
      ∃ bs, write q = Ok bs ∧ read Client bs = Some (Ok (transmitted q)).
Proof.
  intros Hc Hd Hs. destruct (new_params_ok c cid_len src_cid d Hc Hd Hs) as (p & En & Hp & Hg & Hco & Hv & Hn). exists p. split; [done |]. split.
  - destruct (read_complete p Hp Hg Hco) as (bs & Hw & Hr). exists bs. by rewrite Hr, Hv.
  - intros reset_token orig retry v4 v6 cid Ht Ho Hre H4 H6 Hcid Hne q.
    destruct (server_params_ok p reset_token src_cid orig retry v4 v6 cid) as (Hq & Hgq & Hcq & Hvq); try done.
    destruct (read_complete q Hq Hgq Hcq) as (bs & Hw & Hr). exists bs. subst q. by rewrite Hr, Hvq.
Qed.

(** ** Witnesses *)

Definition sample_transport_config : TransportConfig :=
  mk_transport_config 100 100 1250000 1250000 (Some 30000) (Some 1250000) (Some (ServerSupport 10)) (Some SendAndReceive)
    (Some (mk_pqc true true)) 1472 true (Some false).

Definition sample_draws : Draws := mk_draws 1000 3 [1; 2; 3] (reverse (seqZ 0 25)).

Lemma sample_config_ok : config_ok sample_transport_config.
Proof. by split; simpl; unfold is_u. Qed.

Lemma sample_draws_ok : draws_ok sample_draws.
Proof. split; simpl; [lia | lia | split; [done | repeat constructor; unfold is_u; simpl; lia] | apply reverse_Permutation]. Qed.

Definition sample_token (cid : list Z) : list Z := replicate 16 7.

Lemma sample_token_ok cid : token_ok (sample_token cid).
Proof. split; [done | repeat constructor; by unfold is_u]. Qed.

Lemma sample_cid_ok : cid_ok [1; 2; 3; 4; 5; 6; 7; 8].
Proof. split; [done | repeat constructor; by unfold is_u]. Qed.

(** A server's parameters, with everything a server may send. *)
Definition sample_server : TransportParameters :=
  match new sample_transport_config 8 [1; 2; 3; 4; 5; 6; 7; 8] sample_draws with
  | Ok p => server_params p sample_token [1; 2; 3; 4; 5; 6; 7; 8] [1; 2; 3; 4; 5; 6; 7; 8] None
      (Some ([127; 0; 0; 1], 443)) None [1; 2; 3; 4; 5; 6; 7; 8]
  | Err _ => default
  end.

Lemma sample_server_ok : fields_ok sample_server ∧ opt_reserved sample_server ∧ complete sample_server ∧ validate Client sample_server = true.
Proof.
  destruct (new_params_ok _ 8 _ _ sample_config_ok sample_draws_ok sample_cid_ok) as (p & En & Hp & Hg & Hco & Hv & Hn).
  unfold sample_server. rewrite En. apply server_params_ok; try done; try apply sample_token_ok; try apply sample_cid_ok.
  split; [done | split; [repeat constructor; by unfold is_u | done]].
Qed.

Lemma transport_parameters_roundtrip_witness :
  ∃ bs, write sample_server = Ok bs ∧ read Client bs = Some (Ok (transmitted sample_server)) ∧ read Server bs = Some (Err IllegalValue).
Proof.
  destruct sample_server_ok as (Hp & Hg & Hc & Hv).
  destruct (transport_parameters_roundtrip sample_server Hp Hg Hc) as (bs & Hw & Hr). exists bs. split; [exact Hw |]. rewrite !Hr. split; reflexivity.
Defined.

Lemma transport_parameters_total_witness :
  let r := [0x04; 1; 25; 0x0C; 0; 0x3F; 2; 9; 9] in
  bytes_ok r ∧ ∃ p bs, read Server r = Some (Ok p) ∧ initial_max_data p = 25 ∧ disable_active_migration p = true
    ∧ write p = Ok bs ∧ read Server bs = Some (Ok p).
Proof.
  intros r. assert (Hr : bytes_ok r) by (repeat constructor; by unfold is_u). split; [exact Hr |].
  destruct (transport_parameters_total Server r Hr) as [E | [E | (p & bs & E & _ & _ & Hw & Hb)]]; [vm_compute in E; discriminate E.. |].
  exists p, bs. split; [exact E |]. vm_compute in E. injection E as E. split; [by rewrite <- E |]. split; [by rewrite <- E | by split].
Defined.

Lemma repeated_parameter_malformed_witness :
  let p := sample_server <| write_order := Some [2; 17; 2] |> in
  ∃ bs, write p = Ok bs ∧ read Client bs = Some (Err Malformed).
Proof.
  intros p. destruct sample_server_ok as (Hp & Hg & _ & _). apply (repeated_parameter_malformed p Client 2 [] [17] []).
  - subst p. destruct Hp. split; assumption.
  - exact Hg.
  - repeat constructor; simpl; lia.
  - reflexivity.
  - reflexivity.
  - reflexivity.
Defined.

Lemma own_parameters_accepted_witness :
  ∃ p, new sample_transport_config 8 [1; 2; 3; 4; 5; 6; 7; 8] sample_draws = Ok p
  ∧ ∃ bs, write p = Ok bs ∧ read Server bs = Some (Ok (transmitted p)).
Proof.
  destruct (own_parameters_accepted _ 8 _ _ sample_config_ok sample_draws_ok sample_cid_ok) as (p & En & Hp & _). by exists p.
Defined.

(** ** Inputs accepted that should not be *)

(** The exponent is cut to eight bits before its check: 256 passes for 0. *)
Example ack_delay_exponent_truncated :
  ∃ p, read Client [0x0A; 2; 0x41; 0x00] = Some (Ok p) ∧ ack_delay_exponent p = 256.
Proof. eexists. split; [vm_compute; reflexivity | done]. Qed.

(** The length of the datagram parameter need not be that of its value: what is left of it is
    read as the next parameter. *)
Example datagram_length_unchecked :
  ∃ p, read Client [0x20; 4; 5; 0x01; 1; 10] = Some (Ok p) ∧ max_datagram_frame_size p = Some 5 ∧ max_idle_timeout p = 10.
Proof. eexists. split; [vm_compute; reflexivity | done]. Qed.

(** The fixed bit may be announced twice. *)
Example repeated_grease_accepted :
  ∃ p, read Client [0x6A; 0xB2; 0; 0x6A; 0xB2; 0] = Some (Ok p) ∧ grease_quic_bit p = true.
Proof. eexists. split; [vm_compute; reflexivity | done]. Qed.

(** A server whose connection identifiers are empty announces a preferred address with one, which
    every client refuses. *)
Example preferred_address_empty_cid :
  match new sample_transport_config 0 [] sample_draws with
  | Ok p =>
    match write (server_params p sample_token [] [1; 2; 3; 4; 5; 6; 7; 8] None (Some ([127; 0; 0; 1], 443)) None []) with
    | Ok bs => read Client bs = Some (Err IllegalValue)
    | Err _ => False
    end
  | Err _ => False
  end.
Proof. vm_compute. reflexivity. Qed.

End TransportParameters.
