(* ===== verification/Mtud.v ===== *)
(** * Discovery of the path MTU

    Models [src/connection/mtud.rs]: the binary search for the largest datagram the path
    carries, with its probes, and the detector of black holes that judges from the losses
    whether the path has come to carry less.

    Sizes are 16-bit, packet numbers 64-bit; instants and durations are nanoseconds.  [None]
    is a panic: an assertion of a debug build or an arithmetic underflow. *)

From stdpp Require Import list.
From S2P Require Import Prelude QuicPacket.

Definition MAX_UDP_PAYLOAD : Z := 65527.

(** ** The binary search *)

Module SearchState.

Record MtuDiscoveryConfig := mk_config {
  interval : Z;
  cfg_upper_bound : Z;
  cfg_minimum_change : Z;
  black_hole_cooldown : Z;
}.

Record SearchState := mk_search {
  lower_bound : Z;
  upper_bound : Z;
  minimum_change : Z;
  last_probed_mtu : Z;
  in_flight_probe : option Z;
  lost_probe_count : Z;
}.

#[global] Instance search_settable : Settable SearchState := λ s,
  mk_search (lower_bound s) (upper_bound s) (minimum_change s) (last_probed_mtu s) (in_flight_probe s) (lost_probe_count s).

(** [Ord::clamp]; it panics unless [lo <= hi]. *)
Definition clamp (x lo hi : Z) : option Z := if hi <? lo then None else Some (Z.max lo (Z.min x hi)).

Definition new (lower peer_max_udp_payload_size : Z) (config : MtuDiscoveryConfig) : option SearchState :=
  let lower := Z.min lower peer_max_udp_payload_size in
  upper ← clamp (cfg_upper_bound config) lower peer_max_udp_payload_size;
  Some (mk_search lower upper (cfg_minimum_change config) lower None 0).

Definition next_mtu_to_probe (last_probe_succeeded : bool) (s : SearchState) : option (option Z * SearchState) :=
  if negb (bool_decide (in_flight_probe s = None)) then None
  else
    s ← (if last_probe_succeeded then Some (s <| lower_bound := last_probed_mtu s |>)
         else upper ← checked_sub (last_probed_mtu s) 1; Some (s <| upper_bound := upper |>));
    let next_mtu := Z.quot (lower_bound s + upper_bound s) 2 in
    if wrap 16 (Z.abs (next_mtu - last_probed_mtu s)) <? minimum_change s then
      if minimum_change s <=? saturating_sub (upper_bound s) (last_probed_mtu s) then Some (Some (upper_bound s), s)
      else Some (None, s)
    else Some (Some (wrap 16 next_mtu), s).

End SearchState.

(** ** Black holes *)

Module BlackHoleDetector.

Definition BLACK_HOLE_THRESHOLD : Z := 3.

Record CurrentLossBurst := mk_current { cur_smallest : Z; latest_non_probe : Z }.

(** A [LossBurst] is the size of its smallest packet. *)
Record BlackHoleDetector := mk_detector {
  suspicious_loss_bursts : list Z;
  current_loss_burst : option CurrentLossBurst;
  largest_post_loss_packet : Z;
  acked_mtu : Z;
  min_mtu : Z;
}.

#[global] Instance detector_settable : Settable BlackHoleDetector := λ b,
  mk_detector (suspicious_loss_bursts b) (current_loss_burst b) (largest_post_loss_packet b) (acked_mtu b) (min_mtu b).

Definition new (min_mtu : Z) : BlackHoleDetector := mk_detector [] None 0 min_mtu min_mtu.

Definition on_probe_acked (pn len : Z) (b : BlackHoleDetector) : BlackHoleDetector :=
  b <| suspicious_loss_bursts := [] |> <| acked_mtu := len |> <| largest_post_loss_packet := pn |>.

Definition on_non_probe_acked (pn len : Z) (b : BlackHoleDetector) : BlackHoleDetector :=
  if len <=? acked_mtu b then b
  else b <| acked_mtu := len |> <| largest_post_loss_packet := pn |>
         <| suspicious_loss_bursts := filter (λ x, len < x) (suspicious_loss_bursts b) |>.

(** [iter_mut().min_by_key(..)]: the first of the smallest, replaced if it is below [x]. *)
Fixpoint smallest (l : list Z) : option Z :=
  match l with
  | [] => None
  | y :: l => match smallest l with Some z => Some (Z.min y z) | None => Some y end
  end.

Fixpoint replace_first (y x : Z) (l : list Z) : list Z :=
  match l with
  | [] => []
  | z :: l => if z =? y then x :: l else z :: replace_first y x l
  end.

Definition replace_smallest (x : Z) (l : list Z) : list Z :=
  match smallest l with
  | Some y => if y <? x then replace_first y x l else l
  | None => l
  end.

Definition finish_loss_burst (b : BlackHoleDetector) : BlackHoleDetector :=
  match current_loss_burst b with
  | None => b
  | Some burst =>
    let b := b <| current_loss_burst := None |> in
    if (cur_smallest burst <? min_mtu b)
       || ((latest_non_probe burst <? largest_post_loss_packet b) && (cur_smallest burst <? acked_mtu b)) then b
    else
      let b := if largest_post_loss_packet b <? latest_non_probe burst then b <| acked_mtu := min_mtu b |> else b in
      if zlen (suspicious_loss_bursts b) <=? BLACK_HOLE_THRESHOLD
      then b <| suspicious_loss_bursts := suspicious_loss_bursts b ++ [cur_smallest burst] |>
      else b <| suspicious_loss_bursts := replace_smallest (cur_smallest burst) (suspicious_loss_bursts b) |>
  end.

(** A distance of more than one packet ends the burst. *)
Definition end_last_burst (pn : Z) (b : BlackHoleDetector) : option bool :=
  match current_loss_burst b with
  | Some current => d ← checked_sub pn (latest_non_probe current); Some (negb (d =? 1))
  | None => Some false
  end.

Definition on_non_probe_lost (pn len : Z) (b : BlackHoleDetector) : option BlackHoleDetector :=
  match end_last_burst pn b with
  | None => None
  | Some ended =>
    let b := if ended then finish_loss_burst b else b in
    Some (b <| current_loss_burst := Some (mk_current
      match current_loss_burst b with Some prev => Z.min (cur_smallest prev) len | None => len end pn) |>)
  end.

Definition black_hole_detected (b : BlackHoleDetector) : bool * BlackHoleDetector :=
  let b := finish_loss_burst b in
  if zlen (suspicious_loss_bursts b) <=? BLACK_HOLE_THRESHOLD then (false, b)
  else (true, b <| suspicious_loss_bursts := [] |>).

End BlackHoleDetector.

(** ** The discovery *)

Module MtuDiscovery.
Import SearchState.

Definition MAX_PROBE_RETRANSMITS : Z := 3.

Inductive Phase := Initial | Searching (s : SearchState) | Complete (next_mtud_activation : Z).

Record EnabledMtuDiscovery := mk_enabled {
  phase : Phase;
  peer_max_udp_payload_size : Z;
  config : MtuDiscoveryConfig;
}.

#[global] Instance enabled_settable : Settable EnabledMtuDiscovery := λ e,
  mk_enabled (phase e) (peer_max_udp_payload_size e) (config e).

Record MtuDiscovery := mk_mtud {
  current_mtu : Z;
  state : option EnabledMtuDiscovery;
  black_hole_detector : BlackHoleDetector.BlackHoleDetector;
}.

#[global] Instance mtud_settable : Settable MtuDiscovery := λ m, mk_mtud (current_mtu m) (state m) (black_hole_detector m).

Definition enabled_new (config : MtuDiscoveryConfig) : EnabledMtuDiscovery := mk_enabled Initial MAX_UDP_PAYLOAD config.

Definition with_state (mtu min_mtu : Z) (state : option EnabledMtuDiscovery) : MtuDiscovery :=
  mk_mtud mtu state (BlackHoleDetector.new min_mtu).

Definition on_peer_max_udp_payload_size_received (size : Z) (m : MtuDiscovery) : option MtuDiscovery :=
  let m := m <| current_mtu := Z.min (current_mtu m) size |> in
  match state m with
  | Some e => match phase e with
              | Initial => Some (m <| state := Some (e <| peer_max_udp_payload_size := size |>) |>)
              | _ => None
              end
  | None => Some m
  end.

Definition new (initial_plpmtu min_mtu : Z) (peer_max : option Z) (config : MtuDiscoveryConfig) : option MtuDiscovery :=
  if initial_plpmtu <? min_mtu then None
  else
    let m := with_state initial_plpmtu min_mtu (Some (enabled_new config)) in
    match peer_max with Some size => on_peer_max_udp_payload_size_received size m | None => Some m end.

Definition disabled (plpmtu min_mtu : Z) : MtuDiscovery := with_state plpmtu min_mtu None.

Definition reset (mtu min_mtu : Z) (m : MtuDiscovery) : option MtuDiscovery :=
  let m := m <| current_mtu := mtu |> in
  m ← match state m with
      | Some e => on_peer_max_udp_payload_size_received (peer_max_udp_payload_size e)
                    (m <| state := Some (enabled_new (config e)) |>)
      | None => Some m
      end;
  Some (m <| black_hole_detector := BlackHoleDetector.new min_mtu |>).

(** The part of [poll_transmit] for a search that is running. *)
Definition poll_search (now next_pn : Z) (s : SearchState) (e : EnabledMtuDiscovery) : option (option Z * EnabledMtuDiscovery) :=
  if bool_decide (is_Some (in_flight_probe s)) then Some (None, e <| phase := Searching s |>)
  else if (0 <? lost_probe_count s) && (lost_probe_count s <? MAX_PROBE_RETRANSMITS) then
    Some (Some (last_probed_mtu s), e <| phase := Searching (s <| in_flight_probe := Some next_pn |>) |>)
  else
    let last_probe_succeeded := lost_probe_count s =? 0 in
    let s := if last_probe_succeeded then s else s <| lost_probe_count := 0 |> <| in_flight_probe := None |> in
    '(next, s) ← next_mtu_to_probe last_probe_succeeded s;
    match next with
    | Some size =>
      Some (Some size, e <| phase := Searching (s <| in_flight_probe := Some next_pn |> <| last_probed_mtu := size |>) |>)
    | None => Some (None, e <| phase := Complete (now + interval (config e)) |>)
    end.

Definition enabled_poll_transmit (now mtu next_pn : Z) (e : EnabledMtuDiscovery) : option (option Z * EnabledMtuDiscovery) :=
  let start := s ← SearchState.new mtu (peer_max_udp_payload_size e) (config e); poll_search now next_pn s e in
  match phase e with
  | Initial => start
  | Complete next_mtud_activation => if now <? next_mtud_activation then Some (None, e) else start
  | Searching s => poll_search now next_pn s e
  end.

Definition poll_transmit (now next_pn : Z) (m : MtuDiscovery) : option (option Z * MtuDiscovery) :=
  match state m with
  | None => Some (None, m)
  | Some e => '(r, e) ← enabled_poll_transmit now (current_mtu m) next_pn e; Some (r, m <| state := Some e |>)
  end.

Definition enabled_on_probe_acked (pn : Z) (e : EnabledMtuDiscovery) : option (Z * EnabledMtuDiscovery) :=
  match phase e with
  | Searching s =>
    if bool_decide (in_flight_probe s = Some pn)
    then Some (last_probed_mtu s, e <| phase := Searching (s <| in_flight_probe := None |> <| lost_probe_count := 0 |>) |>)
    else None
  | _ => None
  end.

Definition on_acked (space : QuicPacket.SpaceId) (pn len : Z) (m : MtuDiscovery) : bool * MtuDiscovery :=
  match space with
  | QuicPacket.SpaceData =>
    match e ← state m; enabled_on_probe_acked pn e with
    | Some (new_mtu, e) =>
      (true, m <| state := Some e |> <| current_mtu := new_mtu |>
               <| black_hole_detector := BlackHoleDetector.on_probe_acked pn len (black_hole_detector m) |>)
    | None => (false, m <| black_hole_detector := BlackHoleDetector.on_non_probe_acked pn len (black_hole_detector m) |>)
    end
  | _ => (false, m)
  end.

Definition in_flight_mtu_probe (m : MtuDiscovery) : option Z :=
  match state m with
  | Some e => match phase e with Searching s => in_flight_probe s | _ => None end
  | None => None
  end.

Definition on_probe_lost (m : MtuDiscovery) : MtuDiscovery :=
  match state m with
  | Some e =>
    match phase e with
    | Searching s =>
      let s := s <| in_flight_probe := None |> <| lost_probe_count := lost_probe_count s + 1 |> in
      m <| state := Some (e <| phase := Searching s |>) |>
    | _ => m
    end
  | None => m
  end.

Definition on_non_probe_lost (pn len : Z) (m : MtuDiscovery) : option MtuDiscovery :=
  b ← BlackHoleDetector.on_non_probe_lost pn len (black_hole_detector m);
  Some (m <| black_hole_detector := b |>).

Definition black_hole_detected (now : Z) (m : MtuDiscovery) : bool * MtuDiscovery :=
  let '(detected, b) := BlackHoleDetector.black_hole_detected (black_hole_detector m) in
  let m := m <| black_hole_detector := b |> in
  if negb detected then (false, m)
  else
    let m := m <| current_mtu := BlackHoleDetector.min_mtu b |> in
    (true, match state m with
           | Some e => m <| state := Some (e <| phase := Complete (now + black_hole_cooldown (config e)) |>) |>
           | None => m
           end).

(** What the connection does with lost packets: each is reported, then the detector is asked. *)
Fixpoint packets_lost (lost : list (Z * Z)) (m : MtuDiscovery) : option MtuDiscovery :=
  match lost with
  | [] => Some m
  | (pn, len) :: lost => m ← on_non_probe_lost pn len m; packets_lost lost m
  end.

Definition detect_lost (lost : list (Z * Z)) (now : Z) (m : MtuDiscovery) : option (bool * MtuDiscovery) :=
  m ← packets_lost lost m; Some (black_hole_detected now m).

End MtuDiscovery.

(** ** The search stays in its bounds *)

Module MtudProofs.
Import SearchState MtuDiscovery.

(** A size is being tried: it has been sent or is to be sent again. *)
Definition trying (s : SearchState) : Prop := in_flight_probe s ≠ None ∨ 0 < lost_probe_count s.

(** [mtu] is the largest size known to pass, [peer] the largest the peer takes. *)
Record search_ok (mtu peer : Z) (s : SearchState) : Prop := {
  so_change : 3 ≤ minimum_change s < 2 ^ 16;
  so_lower : 0 ≤ lower_bound s;
  so_upper : mtu ≤ upper_bound s ≤ peer;
  so_lost : 0 ≤ lost_probe_count s ≤ MAX_PROBE_RETRANSMITS;
  so_flight : in_flight_probe s ≠ None → lost_probe_count s < MAX_PROBE_RETRANSMITS;
  so_trying : trying s → lower_bound s = mtu ∧ mtu < last_probed_mtu s ≤ upper_bound s;
  so_idle : ¬ trying s → last_probed_mtu s = mtu;
}.

Definition config_ok (c : MtuDiscoveryConfig) : Prop := 3 ≤ cfg_minimum_change c < 2 ^ 16 ∧ is_u 16 (cfg_upper_bound c).

Definition phase_ok (mtu peer : Z) (p : Phase) : Prop := match p with Searching s => search_ok mtu peer s | _ => True end.

Definition enabled_ok (mtu : Z) (e : EnabledMtuDiscovery) : Prop :=
  config_ok (config e) ∧ 0 ≤ mtu ≤ peer_max_udp_payload_size e ∧ peer_max_udp_payload_size e < 2 ^ 16
  ∧ phase_ok mtu (peer_max_udp_payload_size e) (phase e).

Lemma half a : 2 * (a / 2) ≤ a < 2 * (a / 2) + 2.
Proof. pose proof (Z.div_mod a 2 ltac:(lia)). pose proof (Z.mod_pos_bound a 2 ltac:(lia)). lia. Qed.

(** The next size of a search that tries nothing, or has given up on the last size. *)
Lemma next_mtu_ok mtu peer s : search_ok mtu peer s → 0 ≤ mtu → peer < 2 ^ 16 → in_flight_probe s = None →
  lost_probe_count s = 0 ∨ lost_probe_count s = MAX_PROBE_RETRANSMITS →
  let s0 := if lost_probe_count s =? 0 then s else s <| lost_probe_count := 0 |> <| in_flight_probe := None |> in
  ∃ next u, next_mtu_to_probe (lost_probe_count s =? 0) s0 = Some (next, mk_search mtu u (minimum_change s) (last_probed_mtu s) None 0)
  ∧ mtu ≤ u ≤ upper_bound s ∧ (lost_probe_count s = 0 → u = upper_bound s) ∧ (lost_probe_count s ≠ 0 → u = last_probed_mtu s - 1)
  ∧ match next with
    | Some size => mtu < size ≤ u
    | None => u - mtu ≤ 2 * minimum_change s - 4
    end.
Proof.
  intros [Hm Hlo Hu Hl Hf Ht Hi] Hmtu Hp Hfl Hc s0. subst s0. unfold next_mtu_to_probe, MAX_PROBE_RETRANSMITS in *.
  destruct s as [lo up mc last fl lost]. simpl in *. subst fl. unfold trying in *. simpl in *.
  destruct Hc as [-> | ->]; simpl.
  - rewrite (Hi ltac:(intros [? | ?]; [done | lia])). rewrite Z.quot_div_nonneg by lia. pose proof (half (mtu + up)).
    rewrite (wrap_small 16 (Z.abs _)) by (unfold is_u; lia). unfold saturating_sub.
    destruct (Z.ltb_spec (Z.abs ((mtu + up) / 2 - mtu)) mc); [destruct (Z.leb_spec mc (Z.max 0 (up - mtu))) |];
      eexists _, up; (split; [reflexivity |]); (split; [lia |]); (split; [done |]); (split; [done |]); [lia | lia |].
    rewrite wrap_small by (unfold is_u; lia). lia.
  - destruct (Ht ltac:(right; lia)) as [-> Hlast]. unfold checked_sub. rewrite (proj2 (Z.ltb_ge last 1)) by lia. simpl.
    rewrite Z.quot_div_nonneg by lia. pose proof (half (mtu + (last - 1))). rewrite (wrap_small 16 (Z.abs _)) by (unfold is_u; lia). unfold saturating_sub.
    destruct (Z.ltb_spec (Z.abs ((mtu + (last - 1)) / 2 - last)) mc); [destruct (Z.leb_spec mc (Z.max 0 (last - 1 - last))) |];
      eexists _, (last - 1); (split; [reflexivity |]); (split; [lia |]); (split; [lia |]); (split; [done |]); [lia | lia |].
    rewrite wrap_small by (unfold is_u; lia). lia.
Qed.

(** The largest size that is still possible after the last probe. *)
Definition remaining (s : SearchState) : Z :=
  if lost_probe_count s =? MAX_PROBE_RETRANSMITS then last_probed_mtu s - 1 else upper_bound s.

Lemma poll_search_spec mtu e s now pn : search_ok mtu (peer_max_udp_payload_size e) s → 0 ≤ mtu →
  peer_max_udp_payload_size e < 2 ^ 16 →
  ∃ r p, poll_search now pn s e = Some (r, e <| phase := p |>)
  ∧ match r with
    | Some size =>
      let s' := mk_search mtu (remaining s) (minimum_change s) size (Some pn)
                  (if lost_probe_count s =? MAX_PROBE_RETRANSMITS then 0 else lost_probe_count s) in
      p = Searching s' ∧ in_flight_probe s = None ∧ mtu < size ≤ remaining s
      ∧ (0 < lost_probe_count s < MAX_PROBE_RETRANSMITS → size = last_probed_mtu s)
    | None =>
      (p = Searching s ∧ in_flight_probe s ≠ None)
      ∨ (p = Complete (now + interval (config e)) ∧ remaining s - mtu ≤ 2 * minimum_change s - 4
         ∧ in_flight_probe s = None ∧ (lost_probe_count s = 0 ∨ lost_probe_count s = MAX_PROBE_RETRANSMITS))
    end.
Proof.
  intros Hs Hmtu Hp. pose proof Hs as [_ _ _ Hl _ Ht _]. unfold poll_search, remaining, MAX_PROBE_RETRANSMITS in *.
  destruct (in_flight_probe s) as [q |] eqn:Ef; simpl.
  { exists None, (Searching s). split; [done |]. by left. }
  destruct (decide (0 < lost_probe_count s < 3)) as [Hr | Hr].
  - rewrite (proj2 (Z.ltb_lt 0 _)), (proj2 (Z.ltb_lt _ 3)), (proj2 (Z.eqb_neq _ 3)) by lia. simpl.
    destruct Ht as [Hlo Hlast]; [right; lia |]. eexists _, _. split; [reflexivity |]. simpl.
    split; [destruct s; simpl in *; by subst |]. split; [done |]. split; [lia | done].
  - assert (Hc : lost_probe_count s = 0 ∨ lost_probe_count s = 3) by lia.
    destruct (next_mtu_ok mtu _ s Hs Hmtu Hp Ef Hc) as (next & u & Hn & Hu & H0 & H3 & Hs').
    assert (Hrem : u = if lost_probe_count s =? 3 then last_probed_mtu s - 1 else upper_bound s).
    { destruct Hc as [E | E]; rewrite E in *; simpl; [by apply H0 | by apply H3]. }
    assert ((0 <? lost_probe_count s) && (lost_probe_count s <? 3) = false) as ->
      by (destruct Hc as [-> | ->]; done). rewrite <- Hrem, Hn. simpl.
    destruct next as [size |]; eexists _, _; (split; [reflexivity |]).
    + split; [| split; [done | split; [lia | lia]]].
      replace (if lost_probe_count s =? 3 then 0 else lost_probe_count s) with 0 by (destruct Hc as [-> | ->]; done). done.
    + by right.
Qed.

Lemma search_new_ok mtu e : config_ok (config e) → 0 ≤ mtu ≤ peer_max_udp_payload_size e →
  ∃ s, SearchState.new mtu (peer_max_udp_payload_size e) (config e) = Some s ∧ search_ok mtu (peer_max_udp_payload_size e) s
  ∧ in_flight_probe s = None ∧ lost_probe_count s = 0 ∧ minimum_change s = cfg_minimum_change (config e)
  ∧ upper_bound s = Z.max mtu (Z.min (cfg_upper_bound (config e)) (peer_max_udp_payload_size e)).
Proof.
  intros [Hc Hu] Hm. unfold SearchState.new, clamp. rewrite Z.min_l by lia. rewrite (proj2 (Z.ltb_ge _ mtu)) by lia.
  eexists. split; [reflexivity |]. split; [| done]. split; simpl; unfold trying, MAX_PROBE_RETRANSMITS; simpl; try lia; try done.
  intros [? | ?]; [done | lia].
Qed.

(** The state of a search after a probe of [size] was sent. *)
Lemma search_sent_ok mtu peer s size pn : search_ok mtu peer s → in_flight_probe s = None → 0 ≤ mtu → mtu < size ≤ remaining s →
  search_ok mtu peer (mk_search mtu (remaining s) (minimum_change s) size (Some pn)
    (if lost_probe_count s =? MAX_PROBE_RETRANSMITS then 0 else lost_probe_count s)).
Proof.
  intros [Hm Hlo Hu Hl Hf Ht Hi] Hfl H0 Hs. unfold remaining, MAX_PROBE_RETRANSMITS, trying in *.
  destruct (Z.eqb_spec (lost_probe_count s) 3) as [E | E]; split; simpl; unfold trying, MAX_PROBE_RETRANSMITS; simpl; try lia;
    intros []; by left.
Qed.

(** [poll_transmit] gives a size above the current one, within the limits. *)
Lemma enabled_poll_spec mtu e now pn : enabled_ok mtu e →
  ∃ r e', enabled_poll_transmit now mtu pn e = Some (r, e') ∧ enabled_ok mtu e'
  ∧ peer_max_udp_payload_size e' = peer_max_udp_payload_size e
  ∧ (∀ size, r = Some size → mtu < size ≤ peer_max_udp_payload_size e).
Proof.
  intros (Hc & Hm & Hp & Hph).
  assert (Hgo : ∀ s, search_ok mtu (peer_max_udp_payload_size e) s → ∃ r e', poll_search now pn s e = Some (r, e') ∧ enabled_ok mtu e'
    ∧ peer_max_udp_payload_size e' = peer_max_udp_payload_size e
    ∧ (∀ size, r = Some size → mtu < size ≤ peer_max_udp_payload_size e)).
  { intros s Hs. destruct (poll_search_spec mtu e s now pn Hs) as (r & p & E & H); [lia | done |].
    eexists r, _. split; [exact E |]. split; [| split; [done |]].
    - refine (conj Hc (conj Hm (conj Hp _))). simpl. destruct r as [size |].
      + destruct H as (-> & Hfl & Hsz & _). apply search_sent_ok; try done; lia.
      + by destruct H as [[-> _] | [-> _]].
    - intros size ->. destruct H as (_ & Hfl & Hsz & _). pose proof Hs as [_ _ Hu _ _ Ht _]. unfold remaining, trying in *.
      destruct (Z.eqb_spec (lost_probe_count s) MAX_PROBE_RETRANSMITS) as [E3 | E3]; [| lia].
      destruct Ht as [_ Hlast]; [right; unfold MAX_PROBE_RETRANSMITS in E3; lia | lia]. }
  destruct (search_new_ok mtu e Hc Hm) as (s0 & En & Hs0 & _). unfold enabled_poll_transmit. rewrite En. simpl.
  destruct (phase e) as [| s | t] eqn:Ep; simpl in Hph; [by apply Hgo | by apply Hgo |].
  destruct (now <? t); [| by apply Hgo]. exists None, e. split; [done |]. split; [| done]. unfold enabled_ok. by rewrite Ep.
Qed.

Lemma enabled_acked mtu e pn new_mtu e' : enabled_ok mtu e → enabled_on_probe_acked pn e = Some (new_mtu, e') →
  enabled_ok new_mtu e' ∧ mtu < new_mtu ∧ peer_max_udp_payload_size e' = peer_max_udp_payload_size e.
Proof.
  intros (Hc & Hm & Hp & Hph) E. unfold enabled_on_probe_acked in E. destruct (phase e) as [| s |] eqn:Ep; try done.
  case_bool_decide as Hfl; [| done]. injection E as <- <-. simpl in Hph. destruct Hph as [Hmc Hlo Hu Hl Hf Ht Hi].
  destruct Ht as [Hlow Hlast]; [left; by rewrite Hfl |]. split; [| split; [lia | done]].
  refine (conj Hc (conj _ (conj Hp _))); [simpl; lia |]. split; simpl; unfold trying, MAX_PROBE_RETRANSMITS in *; simpl; lia || done || idtac.
  intros [? | ?]; [done | lia].
Qed.

(** ** The detector *)

Import BlackHoleDetector.

(** At most four bursts are remembered, all of packets at least as large as the minimum. *)
Record detector_ok (b : BlackHoleDetector) : Prop := {
  de_len : zlen (suspicious_loss_bursts b) ≤ BLACK_HOLE_THRESHOLD + 1;
  de_min : Forall (λ x, min_mtu b ≤ x) (suspicious_loss_bursts b);
}.

Lemma replace_first_len y x l : length (replace_first y x l) = length l.
Proof. induction l as [| z l IH]; simpl; [done |]. destruct (z =? y); simpl; by rewrite ?IH. Qed.

Lemma replace_first_forall (P : Z → Prop) y x l : Forall P l → P x → Forall P (replace_first y x l).
Proof. intros Hl Hx. induction Hl; simpl; [done |]. by destruct (_ =? y); constructor. Qed.

Lemma finish_ok b : detector_ok b → detector_ok (finish_loss_burst b) ∧ min_mtu (finish_loss_burst b) = min_mtu b
  ∧ current_loss_burst (finish_loss_burst b) = None.
Proof.
  intros [Hl Hm]. unfold finish_loss_burst. destruct (current_loss_burst b) as [c |] eqn:Ec; [| by split; [split |]].
  cbn [min_mtu largest_post_loss_packet acked_mtu set_field]. destruct (Z.ltb_spec (cur_smallest c) (min_mtu b)); [by split; [split |] |].
  cbn [orb]. destruct (_ && _); [by split; [split |] |].
  set (b' := if _ <? latest_non_probe c then _ else _).
  assert (Hb : suspicious_loss_bursts b' = suspicious_loss_bursts b ∧ min_mtu b' = min_mtu b ∧ current_loss_burst b' = None)
    by (subst b'; by destruct (_ <? latest_non_probe c)). destruct Hb as (E1 & E2 & E3). clearbody b'.
  destruct (Z.leb_spec (zlen (suspicious_loss_bursts b')) BLACK_HOLE_THRESHOLD); (split; [split | by split]); simpl; rewrite ?E2, E1 in *.
  - rewrite zlen_app. unfold zlen at 2. simpl. lia.
  - apply Forall_app. split; [done |]. by constructor.
  - unfold replace_smallest, zlen in *. destruct (smallest _); [| lia]. destruct (_ <? _); rewrite ?replace_first_len; lia.
  - unfold replace_smallest. destruct (smallest _); [| done]. destruct (_ <? _); [| done]. by apply replace_first_forall.
Qed.

Lemma probe_acked_ok pn len b : detector_ok b → detector_ok (BlackHoleDetector.on_probe_acked pn len b).
Proof. intros [Hl Hm]. by split. Qed.

Lemma non_probe_acked_ok pn len b : detector_ok b → detector_ok (BlackHoleDetector.on_non_probe_acked pn len b)
  ∧ min_mtu (BlackHoleDetector.on_non_probe_acked pn len b) = min_mtu b
  ∧ current_loss_burst (BlackHoleDetector.on_non_probe_acked pn len b) = current_loss_burst b
  ∧ zlen (suspicious_loss_bursts (BlackHoleDetector.on_non_probe_acked pn len b)) ≤ zlen (suspicious_loss_bursts b).
Proof.
  intros [Hl Hm]. unfold BlackHoleDetector.on_non_probe_acked. destruct (len <=? acked_mtu b); [done |].
  pose proof (length_filter (λ x, len < x) (suspicious_loss_bursts b)). unfold zlen in *.
  split; [split | split; [done | split; [done | simpl; lia]]]; simpl.
  - unfold zlen. lia.
  - rewrite Forall_forall in *. intros x [_ Hx]%list_elem_of_filter. by apply Hm.
Qed.

(** A packet is lost whose number is above the last of the burst. *)
Lemma non_probe_lost_ok pn len b : detector_ok b → (∀ c, current_loss_burst b = Some c → latest_non_probe c < pn) →
  ∃ b', BlackHoleDetector.on_non_probe_lost pn len b = Some b' ∧ detector_ok b' ∧ min_mtu b' = min_mtu b
  ∧ ∃ c, current_loss_burst b' = Some c ∧ latest_non_probe c = pn.
Proof.
  intros Hb Hpn. unfold BlackHoleDetector.on_non_probe_lost. assert (∃ ended, end_last_burst pn b = Some ended) as [ended ->].
  { unfold end_last_burst. destruct (current_loss_burst b) as [c |]; [| by eexists]. specialize (Hpn c eq_refl).
    unfold checked_sub. rewrite (proj2 (Z.ltb_ge _ _)) by lia. by eexists. }
  eexists. split; [reflexivity |]. destruct (finish_ok b Hb) as (Hb' & Hmin & _). simpl. split; [| split; [by destruct ended | by eexists]].
  destruct ended; [destruct Hb' | destruct Hb]; by split.
Qed.

Fixpoint ascending (lo : Z) (lost : list (Z * Z)) : bool :=
  match lost with [] => true | (pn, _) :: lost => (lo <? pn) && ascending pn lost end.

Lemma packets_lost_ok lost : ∀ lo m, ascending lo lost = true → detector_ok (black_hole_detector m) →
  (∀ c, current_loss_burst (black_hole_detector m) = Some c → latest_non_probe c ≤ lo) →
  ∃ b, packets_lost lost m = Some (m <| black_hole_detector := b |>) ∧ detector_ok b ∧ min_mtu b = min_mtu (black_hole_detector m).
Proof.
  induction lost as [| [pn len] lost IH]; intros lo m Ha Hd Hc; simpl in *.
  { exists (black_hole_detector m). by destruct m. }
  apply andb_true_iff in Ha as [Hlt Ha]. zbool. destruct (non_probe_lost_ok pn len _ Hd) as (b & E & Hb & Hmin & c & Ec & Hpn).
  { intros c Ec. specialize (Hc c Ec). lia. }
  unfold MtuDiscovery.on_non_probe_lost. rewrite E. simpl. destruct (IH pn (m <| black_hole_detector := b |>)) as (b' & E' & Hb' & Hmin'); [done | done | |].
  { simpl. intros c' Ec'. rewrite Ec in Ec'. injection Ec' as <-. lia. }
  exists b'. split; [exact E' |]. split; [done |]. by rewrite Hmin', <- Hmin.
Qed.

(** ** The discovery as a system *)

(** What the connection tells the discovery, and its configuration. *)
Inductive Event :=
| Poll (now next_pn : Z)
| Acked (space : QuicPacket.SpaceId) (pn len : Z)
| ProbeLost
| Lost (packets : list (Z * Z)) (now : Z)
| PeerMax (size : Z)
| Reset (mtu : Z).

Definition min_of (m : MtuDiscovery) : Z := min_mtu (black_hole_detector m).

(** The largest size the peer takes, or a datagram can have. *)
Definition limit (m : MtuDiscovery) : Z := match state m with Some e => peer_max_udp_payload_size e | None => u_max 16 end.

Definition searching (m : MtuDiscovery) : bool :=
  match state m with Some e => match phase e with Initial => false | _ => true end | None => false end.

(** Losses are reported in the order of the packets, a lost probe when it is in flight, the
    peer's limit before the first probe, and a new path starts no lower than the minimum. *)
Definition enabled (ev : Event) (m : MtuDiscovery) : bool :=
  match ev with
  | Poll _ _ => true
  | Acked _ _ _ => true
  | ProbeLost => bool_decide (is_Some (in_flight_mtu_probe m))
  | Lost packets _ => ascending (-1) packets
  | PeerMax size => negb (searching m) && (min_of m <=? size) && (size <? 2 ^ 16)
  | Reset mtu => (min_of m <=? mtu) && (mtu <? 2 ^ 16)
  end.

(** The event, and the size of the probe it sends. *)
Definition step (ev : Event) (m : MtuDiscovery) : option (option Z * MtuDiscovery) :=
  match ev with
  | Poll now pn => poll_transmit now pn m
  | Acked space pn len => Some (None, (on_acked space pn len m).2)
  | ProbeLost => Some (None, on_probe_lost m)
  | Lost packets now => match detect_lost packets now m with Some r => Some (None, r.2) | None => None end
  | PeerMax size => match on_peer_max_udp_payload_size_received size m with Some m => Some (None, m) | None => None end
  | Reset mtu => match reset mtu (min_of m) m with Some m => Some (None, m) | None => None end
  end.

Record mtud_ok (m : MtuDiscovery) : Prop := {
  mo_mtu : 0 ≤ min_of m ≤ current_mtu m ∧ current_mtu m ≤ limit m;
  mo_limit : limit m < 2 ^ 16;
  mo_state : ∀ e, state m = Some e → enabled_ok (current_mtu m) e;
  mo_detector : detector_ok (black_hole_detector m) ∧ current_loss_burst (black_hole_detector m) = None;
  mo_bursts : zlen (suspicious_loss_bursts (black_hole_detector m)) ≤ BLACK_HOLE_THRESHOLD;
}.

Lemma new_detector_ok min : detector_ok (BlackHoleDetector.new min).
Proof. by split. Qed.

Lemma step_poll now pn m : mtud_ok m → ∃ r m', poll_transmit now pn m = Some (r, m') ∧ mtud_ok m' ∧ current_mtu m' = current_mtu m
  ∧ min_of m' = min_of m ∧ ∀ size, r = Some size → current_mtu m < size ≤ limit m.
Proof.
  intros [Hm Hl Hs Hd Hbu]. unfold poll_transmit. destruct (state m) as [e |] eqn:Es.
  - destruct (enabled_poll_spec (current_mtu m) e now pn (Hs e eq_refl)) as (r & e' & E & He' & Hp & Hr). rewrite E. simpl.
    eexists _, _. split; [reflexivity |]. assert (El : limit m = peer_max_udp_payload_size e) by (unfold limit; by rewrite Es).
    split; [split; simpl; unfold limit; simpl; rewrite ?Hp; try done; try lia | ].
    + split; [apply Hm | lia].
    + by intros ? [= <-].
    + split; [done |]. split; [done |]. intros size Hsz. specialize (Hr size Hsz). lia.
  - eexists _, m. split; [reflexivity |]. split; [by split; rewrite ?Es |]. done.
Qed.

Lemma step_acked space pn len m : mtud_ok m →
  let m' := (on_acked space pn len m).2 in mtud_ok m' ∧ min_of m' = min_of m ∧ limit m' = limit m ∧ current_mtu m ≤ current_mtu m'.
Proof.
  intros Hok. unfold on_acked. destruct space; [split; [done | simpl; lia].. |]. destruct Hok as [Hm Hl Hs [Hd Hcur] Hbu].
  destruct (e ← state m; enabled_on_probe_acked pn e) as [[new_mtu e'] |] eqn:E.
  - destruct (state m) as [e |] eqn:Es; simpl in E; [| done].
    destruct (enabled_acked _ _ _ _ _ (Hs e eq_refl) E) as (He & Hlt & Hp).
    assert (El : limit m = peer_max_udp_payload_size e) by (unfold limit; by rewrite Es). pose proof He as (_ & Hbound & _ & _).
    split; [| simpl; unfold limit; simpl; rewrite Es; split; [done | split; [done | lia]]].
    split; simpl; unfold limit; simpl; [unfold min_of in *; simpl; lia | lia | by intros ? [= <-] | by split; [apply probe_acked_ok |] | done].
  - destruct (non_probe_acked_ok pn len _ Hd) as (Hd' & Hmin & Hc' & Hlen').
    split; [| simpl; unfold min_of, limit; simpl; by split].
    split; simpl; unfold min_of, limit in *; simpl; [by rewrite Hmin | done | done | split; [done | by rewrite Hc'] | lia].
Qed.

Lemma step_probe_lost m : mtud_ok m → is_Some (in_flight_mtu_probe m) →
  mtud_ok (on_probe_lost m) ∧ min_of (on_probe_lost m) = min_of m ∧ current_mtu (on_probe_lost m) = current_mtu m.
Proof.
  intros [Hm Hl Hs Hd Hbu] Hf. unfold on_probe_lost, in_flight_mtu_probe in *. destruct (state m) as [e |] eqn:Es; [| by destruct Hf].
  destruct (Hs e eq_refl) as (Hc & Hb & Hp & Hph). destruct (phase e) as [| s |] eqn:Ep; [by destruct Hf | | by destruct Hf]. simpl in Hph.
  assert (Hne : in_flight_probe s ≠ None) by (intros E; rewrite E in Hf; by destruct Hf). destruct Hph as [Hmc Hlo Hu Hlc Hfl Ht Hi].
  split; [| done]. unfold min_of, limit in *. rewrite Es in *. split; simpl; [done | done | | done | done].
  intros ? [= <-]. refine (conj Hc (conj Hb (conj Hp _))). specialize (Ht (or_introl Hne)). specialize (Hfl Hne).
  unfold MAX_PROBE_RETRANSMITS in *. split; simpl; unfold trying, MAX_PROBE_RETRANSMITS; simpl; lia || done.
Qed.

Lemma step_lost packets now m : mtud_ok m → ascending (-1) packets = true →
  ∃ d m', detect_lost packets now m = Some (d, m') ∧ mtud_ok m' ∧ min_of m' = min_of m
  ∧ current_mtu m' = (if d : bool then min_of m else current_mtu m).
Proof.
  intros [Hm Hl Hs [Hd Hcur] Hbu] Ha. destruct (packets_lost_ok packets (-1) m Ha Hd) as (b & E & Hb & Hmin); [by rewrite Hcur |].
  unfold detect_lost. rewrite E. simpl. unfold MtuDiscovery.black_hole_detected, black_hole_detected. simpl.
  destruct (finish_ok b Hb) as (Hb' & Hmin' & Hc'). set (b' := finish_loss_burst b) in *. clearbody b'. unfold min_of, limit in *.
  destruct (zlen (suspicious_loss_bursts b') <=? BLACK_HOLE_THRESHOLD) eqn:Ez; simpl.
  - eexists _, _. split; [reflexivity |]. split; [| by rewrite <- Hmin, <- Hmin'].
    split; unfold min_of, limit; simpl; [by rewrite Hmin', Hmin | done | done | done | by apply Z.leb_le].
  - eexists _, _. split; [reflexivity |]. rewrite Hmin', Hmin.
    assert (Hok : detector_ok (b' <| suspicious_loss_bursts := [] |>)) by by split.
    destruct (state m) as [e |] eqn:Es; (split; [| simpl; by rewrite ?Hmin', ?Hmin]); split; unfold min_of, limit in *; simpl; rewrite ?Es, ?Hmin', ?Hmin in *; try done; try lia.
    intros ? [= <-]. destruct (Hs e eq_refl) as (Hco & Hb2 & Hp & _). by repeat split; try apply Hco; simpl; try lia.
Qed.

Lemma step_peer_max size m : mtud_ok m → searching m = false → min_of m ≤ size < 2 ^ 16 →
  ∃ m', on_peer_max_udp_payload_size_received size m = Some m' ∧ mtud_ok m' ∧ min_of m' = min_of m
  ∧ current_mtu m' = Z.min (current_mtu m) size ∧ (state m ≠ None → limit m' = size).
Proof.
  intros [Hm Hl Hs Hd Hbu] Hi Hsz. unfold on_peer_max_udp_payload_size_received, searching, min_of, limit in *. simpl.
  destruct (state m) as [e |] eqn:Es.
  - destruct (phase e) eqn:Ep; try done. eexists. split; [reflexivity |]. split; [| done]. destruct (Hs e eq_refl) as (Hc & Hb & Hp & _).
    split; unfold min_of, limit; simpl; [lia | lia | | done | done]. intros ? [= <-]. refine (conj Hc (conj _ (conj _ _))); simpl; [lia | lia |].
    by rewrite Ep.
  - eexists. split; [reflexivity |]. split; [| done]. split; unfold min_of, limit; simpl; rewrite ?Es; [lia | done | done | done | done].
Qed.

Lemma step_reset mtu m : mtud_ok m → min_of m ≤ mtu < 2 ^ 16 →
  ∃ m', reset mtu (min_of m) m = Some m' ∧ mtud_ok m' ∧ min_of m' = min_of m ∧ limit m' = limit m.
Proof.
  intros [Hm Hl Hs Hd Hbu] Hmtu. unfold reset, on_peer_max_udp_payload_size_received, min_of, limit in *. simpl.
  destruct (state m) as [e |] eqn:Es; simpl; (eexists; split; [reflexivity |]); (split; [| simpl; by rewrite ?Es]);
    split; unfold min_of, limit; simpl; rewrite ?Es; try done; try lia; try (by split; [apply new_detector_ok |]).
  - intros ? [= <-]. destruct (Hs e eq_refl) as (Hc & Hb & Hp & _). refine (conj Hc (conj _ (conj _ I))); simpl; lia.
  - unfold u_max. lia.
Qed.

(** A probe, with the MTU and the limit when it was sent. *)
Record Probe := mk_probe { pr_mtu : Z; pr_size : Z; pr_limit : Z }.

(** The events that are enabled take place; [None]: a panic. *)
Fixpoint run (evs : list Event) (m : MtuDiscovery) : option (list Probe * MtuDiscovery) :=
  match evs with
  | [] => Some ([], m)
  | ev :: evs =>
    if enabled ev m then
      match step ev m with
      | None => None
      | Some (r, m') =>
        match run evs m' with
        | None => None
        | Some (probes, m'') =>
          Some (match r with Some size => mk_probe (current_mtu m) size (limit m) :: probes | None => probes end, m'')
        end
      end
    else run evs m
  end.

Lemma step_ok ev m : mtud_ok m → enabled ev m = true →
  ∃ r m', step ev m = Some (r, m') ∧ mtud_ok m' ∧ min_of m' = min_of m ∧ ∀ size, r = Some size → current_mtu m < size ≤ limit m.
Proof.
  intros Hok He. destruct ev; simpl in He |- *.
  - destruct (step_poll now next_pn m Hok) as (r & m' & E & H & _ & Hmin & Hr). by eexists _, _.
  - destruct (step_acked space pn len m Hok) as (H & Hmin & _). by eexists _, _.
  - apply bool_decide_eq_true in He. destruct (step_probe_lost m Hok He) as (H & Hmin & _). by eexists _, _.
  - destruct (step_lost packets now m Hok He) as (d & m' & -> & H & Hmin & _). by eexists _, _.
  - apply andb_true_iff in He as [[Hi Hsz]%andb_true_iff Hu]. zbool.
    destruct (step_peer_max size m Hok) as (m' & -> & H & Hmin & _); [done | lia |]. by eexists _, _.
  - apply andb_true_iff in He as [Hsz Hu]. zbool. destruct (step_reset mtu m Hok) as (m' & -> & H & Hmin & _); [lia |]. by eexists _, _.
Qed.

Lemma run_ok evs : ∀ m, mtud_ok m → ∃ probes m', run evs m = Some (probes, m') ∧ mtud_ok m' ∧ min_of m' = min_of m
  ∧ Forall (λ p, pr_mtu p < pr_size p ≤ pr_limit p) probes.
Proof.
  induction evs as [| ev evs IH]; intros m Hok; simpl; [by eexists _, _ |]. destruct (enabled ev m) eqn:He; [| by apply IH].
  destruct (step_ok ev m Hok He) as (r & m' & -> & Hok' & Hmin & Hr). destruct (IH m' Hok') as (probes & m'' & -> & Hok'' & Hmin' & Hp).
  eexists _, _. split; [reflexivity |]. split; [done |]. split; [by rewrite Hmin' |]. destruct r as [size |]; [| done].
  constructor; [by apply Hr | done].
Qed.

Lemma new_mtud_ok initial min peer c : config_ok c → 0 ≤ min ≤ initial → initial ≤ MAX_UDP_PAYLOAD →
  match peer with Some size => min ≤ size < 2 ^ 16 | None => True end →
  ∃ m, MtuDiscovery.new initial min peer c = Some m ∧ mtud_ok m ∧ min_of m = min ∧ searching m = false
  ∧ current_mtu m = match peer with Some size => Z.min initial size | None => initial end
  ∧ state m = Some (mk_enabled Initial match peer with Some size => size | None => MAX_UDP_PAYLOAD end c).
Proof.
  intros Hc Hmin Hi Hp. unfold MtuDiscovery.new. rewrite (proj2 (Z.ltb_ge initial min)) by lia.
  assert (Hok : mtud_ok (with_state initial min (Some (enabled_new c)))).
  { split; unfold min_of, limit; simpl; [lia | done | | by split; [apply new_detector_ok |] | done].
    intros ? [= <-]. refine (conj Hc (conj _ (conj _ I))); simpl; unfold MAX_UDP_PAYLOAD in *; lia. }
  destruct peer as [size |]; [| by eexists].
  destruct (step_peer_max size _ Hok) as (m' & E & Hok' & Hmin' & Hcur & Hl); [done | done |]. exists m'. split; [done |].
  split; [done |]. split; [by rewrite Hmin' |]. simpl in E. injection E as <-. done.
Qed.

(** ** A path of fixed size *)

(** What the path answers to a probe: it arrives if the path carries it. *)
Definition answer (path pn size : Z) (m : MtuDiscovery) : MtuDiscovery :=
  if size <=? path then (on_acked QuicPacket.SpaceData pn size m).2 else on_probe_lost m.

(** Probe until the search ends; [None]: it has not ended after [fuel] probes, or a panic. *)
Fixpoint discover (fuel : nat) (path now pn : Z) (m : MtuDiscovery) : option MtuDiscovery :=
  match poll_transmit now pn m with
  | Some (None, m) => Some m
  | Some (Some size, m) =>
    match fuel with O => None | S fuel => discover fuel path now (pn + 1) (answer path pn size m) end
  | None => None
  end.

(** A search between two probes on a path of this size: what was tried and lost is above the
    path, and nothing the path carries is above the upper bound. *)
Record exploring (path top : Z) (m : MtuDiscovery) (e : EnabledMtuDiscovery) (s : SearchState) : Prop := {
  ex_ok : mtud_ok m;
  ex_state : state m = Some e;
  ex_phase : phase e = Searching s;
  ex_idle : in_flight_probe s = None;
  ex_mtu : current_mtu m ≤ path;
  ex_lost : 0 < lost_probe_count s → path < last_probed_mtu s;
  ex_top : Z.min path top ≤ upper_bound s;
}.

(** Probes that are left at most. *)
Definition effort (m : MtuDiscovery) (s : SearchState) : Z := 4 * (upper_bound s - current_mtu m) + (4 - lost_probe_count s).

Lemma exploring_search path top m e s : exploring path top m e s →
  search_ok (current_mtu m) (peer_max_udp_payload_size e) s ∧ 0 ≤ current_mtu m ∧ peer_max_udp_payload_size e < 2 ^ 16.
Proof.
  intros [Hok Hs Hp _ _ _ _]. destruct (mo_state _ Hok e Hs) as (_ & Hm & Hl & Hph). rewrite Hp in Hph. by destruct Hm.
Qed.

(** One probe and its answer. *)
Lemma explore_step path top m e s now pn size m1 : exploring path top m e s → poll_transmit now pn m = Some (Some size, m1) →
  ∃ e' s', exploring path top (answer path pn size m1) e' s' ∧ effort (answer path pn size m1) s' < effort m s
  ∧ current_mtu m ≤ current_mtu (answer path pn size m1) ∧ minimum_change s' = minimum_change s ∧ config e' = config e.
Proof.
  intros Hex Hpoll. destruct (exploring_search _ _ _ _ _ Hex) as (Hso & H0 & Hpe). pose proof Hex as [Hok Hst Hph Hid Hmtu Hlo Htop].
  destruct (step_poll now pn m Hok) as (r & m1' & E1 & Hok1 & Hcur1 & _ & _). rewrite Hpoll in E1. injection E1 as <- <-.
  destruct (poll_search_spec _ e s now pn Hso H0 Hpe) as (r & p & E & H). unfold poll_transmit, enabled_poll_transmit in Hpoll.
  rewrite Hst, Hph, E in Hpoll. simpl in Hpoll. injection Hpoll as -> <-. destruct H as (-> & _ & Hsz & Hre).
  pose proof Hso as [_ _ Hu Hl _ Htr _]. unfold MAX_PROBE_RETRANSMITS, trying in *.
  assert (Hrem : Z.min path top ≤ remaining s ≤ upper_bound s ∧ (lost_probe_count s = 3 → remaining s < upper_bound s)).
  { unfold remaining, MAX_PROBE_RETRANSMITS. destruct (Z.eqb_spec (lost_probe_count s) 3) as [E3 | E3]; [| lia].
    destruct Htr as [_ Hlast]; [right; lia |]. specialize (Hlo ltac:(lia)). lia. }
  unfold answer, effort. destruct (Z.leb_spec size path).
  - destruct (step_acked QuicPacket.SpaceData pn size _ Hok1) as (Hok2 & _). revert Hok2. unfold on_acked, enabled_on_probe_acked. simpl.
    rewrite bool_decide_true by done. simpl. intros Hok2. eexists _, _.
    split; [split; [exact Hok2 | reflexivity | reflexivity | done | done | done | simpl; lia] |]. simpl. split; [lia | split; [lia | done]].
  - destruct (step_probe_lost _ Hok1) as (Hok2 & _); [by eexists |]. revert Hok2. unfold on_probe_lost. simpl. intros Hok2. eexists _, _.
    split; [split; [exact Hok2 | reflexivity | reflexivity | done | done | simpl; lia | simpl; lia] |]. simpl.
    destruct (Z.eqb_spec (lost_probe_count s) 3); (split; [lia | done]).
Qed.

Lemma explore fuel : ∀ path top now pn m e s, exploring path top m e s → (Z.to_nat (effort m s) ≤ fuel)%nat →
  ∃ m', discover fuel path now pn m = Some m' ∧ current_mtu m ≤ current_mtu m' ≤ path
  ∧ Z.min path top - current_mtu m' ≤ 2 * minimum_change s - 4
  ∧ option_map phase (state m') = Some (Complete (now + interval (config e))).
Proof.
  induction fuel as [| fuel IH]; intros path top now pn m e s Hex Hf; destruct (exploring_search _ _ _ _ _ Hex) as (Hso & H0 & Hpe);
    pose proof Hex as [Hok Hst Hph Hid Hmtu Hlo Htop]; destruct (poll_search_spec _ e s now pn Hso H0 Hpe) as (r & p & E & H);
    assert (Hpoll : poll_transmit now pn m = Some (r, m <| state := Some (e <| phase := p |>) |>))
      by (unfold poll_transmit, enabled_poll_transmit; by rewrite Hst, Hph, E).
  { exfalso. pose proof Hso as [_ _ Hu Hl _ _ _]. unfold effort, MAX_PROBE_RETRANSMITS in *. lia. }
  destruct r as [size |]; cbn [discover]; rewrite Hpoll.
  - destruct (explore_step _ _ _ _ _ _ _ _ _ Hex Hpoll) as (e' & s' & Hex' & Heff & Hcur & <- & <-).
    destruct (IH path top now (pn + 1) _ e' s' Hex') as (m' & -> & Hm' & Hrest); [pose proof Hso as [_ _ Hu Hl _ _ _]; lia |].
    exists m'. split; [done |]. split; [lia | done].
  - eexists. split; [reflexivity |]. simpl. split; [done |]. destruct H as [[_ Hne] | (-> & Hacc & _ & Hc)]; [done |].
    split; [| done]. unfold remaining, MAX_PROBE_RETRANSMITS in *.
    destruct (Z.eqb_spec (lost_probe_count s) 3); [specialize (Hlo ltac:(lia)) |]; lia.
Qed.

(** It is time to search. *)
Definition due (now : Z) (p : Phase) : bool :=
  match p with Initial => true | Searching _ => false | Complete t => t <=? now end.

(** Polling when a search is due is polling a search that has just started. *)
Lemma poll_due m e s now pn : state m = Some e → due now (phase e) = true →
  SearchState.new (current_mtu m) (peer_max_udp_payload_size e) (config e) = Some s →
  poll_transmit now pn m = poll_transmit now pn (m <| state := Some (e <| phase := Searching s |>) |>).
Proof.
  intros Hs Hd Hn. unfold poll_transmit, enabled_poll_transmit. rewrite Hs, Hn. simpl.
  assert (Hp : poll_search now pn s (e <| phase := Searching s |>) = poll_search now pn s e) by by destruct e. rewrite Hp.
  destruct (phase e) as [| s0 | t]; simpl in Hd; [| done |]; [| zbool; rewrite (proj2 (Z.ltb_ge _ _)) by lia];
    by destruct (poll_search now pn s e) as [[]|].
Qed.

Lemma discover_due m e path now pn : mtud_ok m → state m = Some e → due now (phase e) = true → current_mtu m ≤ path →
  let top := Z.min (cfg_upper_bound (config e)) (limit m) in
  ∃ m', discover (Z.to_nat (4 * (limit m - current_mtu m) + 4)) path now pn m = Some m'
  ∧ current_mtu m ≤ current_mtu m' ≤ path
  ∧ Z.min path top - current_mtu m' ≤ 2 * cfg_minimum_change (config e) - 4
  ∧ option_map phase (state m') = Some (Complete (now + interval (config e))).
Proof.
  intros Hok Hs Hd Hp top. destruct (mo_state _ Hok e Hs) as (Hc & Hm & Hl & Hph).
  assert (El : limit m = peer_max_udp_payload_size e) by (unfold limit; by rewrite Hs).
  destruct (search_new_ok _ e Hc Hm) as (s & Hn & Hso & Hid & Hlost & Hmc & Hup).
  set (m1 := m <| state := Some (e <| phase := Searching s |>) |>).
  assert (Hex : exploring path top m1 (e <| phase := Searching s |>) s).
  { split; try done; [| rewrite Hlost; lia | rewrite Hup; subst top; lia].
    destruct Hok as [H1 H2 H3 H4 H5]. split; [unfold limit in *; by rewrite Hs in H1 | unfold limit in *; by rewrite Hs in H2 | | done | done].
    intros ? [= <-]. by refine (conj Hc (conj Hm (conj Hl _))). }
  destruct (explore (Z.to_nat (4 * (limit m - current_mtu m) + 4)) path top now pn m1 _ s Hex) as (m' & E & Hr).
  { unfold effort. rewrite Hlost, Hup, El. subst m1. simpl. lia. }
  exists m'. rewrite <- Hmc. split; [| exact Hr]. rewrite <- E. assert (Hpoll := poll_due m e s now pn Hs Hd Hn). fold m1 in Hpoll.
  destruct (Z.to_nat _); cbn [discover]; by rewrite Hpoll.
Qed.

(** ** A black hole is found *)

(** Packets lost that a smaller path would explain. *)
Definition large (b : BlackHoleDetector) (packets : list (Z * Z)) : Prop :=
  Forall (λ p, largest_post_loss_packet b < p.1 ∧ min_mtu b ≤ p.2) packets.

(** Rounds of losses; true if one of them reports a black hole. *)
Fixpoint loss_rounds (rounds : list (list (Z * Z) * Z)) (m : MtuDiscovery) : option (bool * MtuDiscovery) :=
  match rounds with
  | [] => Some (false, m)
  | (packets, now) :: rounds =>
    match detect_lost packets now m with
    | None => None
    | Some (detected, m) => if detected : bool then Some (true, m) else loss_rounds rounds m
    end
  end.

(** The burst that is open is one a smaller path would explain. *)
Definition open_large (b : BlackHoleDetector) : Prop :=
  ∃ c, current_loss_burst b = Some c ∧ largest_post_loss_packet b < latest_non_probe c ∧ min_mtu b ≤ cur_smallest c.

Definition bursts (b : BlackHoleDetector) : Z := zlen (suspicious_loss_bursts b).

Lemma finish_large b : open_large b →
  largest_post_loss_packet (finish_loss_burst b) = largest_post_loss_packet b ∧ min_mtu (finish_loss_burst b) = min_mtu b
  ∧ Z.min (BLACK_HOLE_THRESHOLD + 1) (bursts b + 1) ≤ bursts (finish_loss_burst b) ∧ current_loss_burst (finish_loss_burst b) = None.
Proof.
  intros (c & Ec & Hlast & Hsm). unfold finish_loss_burst. rewrite Ec. cbn [min_mtu largest_post_loss_packet acked_mtu set_field].
  rewrite (proj2 (Z.ltb_ge (cur_smallest c) _)), (proj2 (Z.ltb_ge (latest_non_probe c) _)), (proj2 (Z.ltb_lt _ (latest_non_probe c))) by lia.
  cbn [orb andb suspicious_loss_bursts set_field]. unfold bursts.
  destruct (Z.leb_spec (zlen (suspicious_loss_bursts b)) BLACK_HOLE_THRESHOLD); simpl; (split; [done | split; [done | split; [| done]]]).
  - rewrite zlen_app. unfold zlen at 3. simpl. lia.
  - unfold replace_smallest, zlen in *. destruct (smallest _); [| lia]. destruct (_ <? _); rewrite ?replace_first_len; lia.
Qed.

Lemma lost_large pn len b : (open_large b ∧ (∀ c, current_loss_burst b = Some c → latest_non_probe c < pn)) ∨ current_loss_burst b = None →
  largest_post_loss_packet b < pn → min_mtu b ≤ len → detector_ok b →
  ∃ b', on_non_probe_lost pn len b = Some b' ∧ open_large b' ∧ largest_post_loss_packet b' = largest_post_loss_packet b
  ∧ min_mtu b' = min_mtu b ∧ bursts b ≤ bursts b' ∧ (∀ c, current_loss_burst b' = Some c → latest_non_probe c = pn).
Proof.
  intros Ho Hpn Hlen Hd. unfold on_non_probe_lost, end_last_burst. destruct Ho as [[Ho Hc] | Hn].
  - pose proof (finish_large b Ho) as (F1 & F2 & F3 & F4). destruct Ho as (c & Ec & Hlast & Hsm). rewrite Ec. specialize (Hc c Ec).
    unfold checked_sub. rewrite (proj2 (Z.ltb_ge pn _)) by lia. simpl. eexists. split; [reflexivity |].
    pose proof (de_len _ Hd). unfold bursts in *. destruct (pn - latest_non_probe c =? 1); simpl; rewrite ?F4, ?Ec, ?F1, ?F2.
    + split; [eexists; split; [reflexivity |]; simpl; lia |]. split; [done |]. split; [done |]. split; [lia | by intros ? [= <-]].
    + split; [eexists; split; [reflexivity |]; simpl; rewrite F1, F2; lia |]. split; [done |]. split; [done |]. split; [lia | by intros ? [= <-]].
  - rewrite Hn. eexists. split; [reflexivity |]. simpl. rewrite Hn. split; [eexists; split; [reflexivity |]; simpl; lia |].
    split; [done |]. split; [done |]. split; [unfold bursts; simpl; lia | by intros ? [= <-]].
Qed.

(** A round reports unless its burst is the third at most. *)
Lemma packets_lost_large packets : ∀ lo m, let b := black_hole_detector m in
  ascending lo packets = true → large b packets → detector_ok b →
  (open_large b ∧ (∀ c, current_loss_burst b = Some c → latest_non_probe c ≤ lo)) ∨ (current_loss_burst b = None ∧ packets ≠ []) →
  ∃ b', packets_lost packets m = Some (m <| black_hole_detector := b' |>) ∧ detector_ok b' ∧ open_large b'
  ∧ largest_post_loss_packet b' = largest_post_loss_packet b ∧ min_mtu b' = min_mtu b ∧ bursts b ≤ bursts b'.
Proof.
  induction packets as [| [pn len] packets IH]; intros lo m b Ha Hl Hd Ho; subst b.
  { destruct Ho as [[Ho _] | [_ Hne]]; [| done]. exists (black_hole_detector m). split; [by destruct m |]. repeat (split; [done |]). lia. }
  cbn [ascending packets_lost] in *. apply andb_true_iff in Ha as [Hlt Ha]. apply Forall_cons in Hl as [[Hpn Hlen] Hl]. zbool. simpl in Hpn, Hlen.
  destruct (lost_large pn len (black_hole_detector m)) as (b1 & E & Ho1 & L1 & M1 & B1 & C1); [| done | done | done |].
  { destruct Ho as [[Ho Hc] | [Hn _]]; [left | by right]. split; [done |]. intros c Ec. specialize (Hc c Ec). lia. }
  destruct (non_probe_lost_ok pn len _ Hd) as (b1' & E' & Hd1 & _).
  { intros c Ec. destruct Ho as [[_ Hc] | [Hn _]]; [specialize (Hc c Ec); lia | congruence]. }
  rewrite E in E'. injection E' as <-. unfold MtuDiscovery.on_non_probe_lost. rewrite E. simpl.
  destruct (IH pn (m <| black_hole_detector := b1 |>)) as (b' & E2 & Hd2 & Ho2 & L2 & M2 & B2); try done.
  - simpl. unfold large. by rewrite L1, M1.
  - left. split; [done |]. simpl. intros c Ec. rewrite (C1 c Ec). lia.
  - simpl in L2, M2, B2. exists b'. split; [exact E2 |]. split; [done |]. split; [done |]. split; [by rewrite L2 |]. split; [by rewrite M2 | lia].
Qed.

Lemma round_large packets now m : mtud_ok m → ascending (-1) packets = true → packets ≠ [] → large (black_hole_detector m) packets →
  ∃ d m', detect_lost packets now m = Some (d, m') ∧ mtud_ok m' ∧ min_of m' = min_of m
  ∧ if d : bool then current_mtu m' = min_of m
    else bursts (black_hole_detector m) + 1 ≤ bursts (black_hole_detector m') ≤ BLACK_HOLE_THRESHOLD
      ∧ largest_post_loss_packet (black_hole_detector m') = largest_post_loss_packet (black_hole_detector m).
Proof.
  intros Hok Ha Hne Hl. destruct (step_lost packets now m Hok Ha) as (d & m' & E & Hok' & Hmin & Hcur).
  exists d, m'. split; [done |]. split; [done |]. split; [done |]. destruct d; [done |].
  destruct (mo_detector _ Hok) as [Hd Hc].
  destruct (packets_lost_large packets (-1) m Ha Hl Hd (or_intror (conj Hc Hne))) as (b & Eb & Hdb & Hob & L & M & B).
  unfold detect_lost in E. rewrite Eb in E. simpl in E. unfold MtuDiscovery.black_hole_detected, black_hole_detected in E. simpl in E.
  destruct (finish_large b Hob) as (F1 & F2 & F3 & _). unfold bursts in *.
  destruct (Z.leb_spec (zlen (suspicious_loss_bursts (finish_loss_burst b))) BLACK_HOLE_THRESHOLD); simpl in E; [| by destruct (state m)].
  injection E as <-. simpl. rewrite F1, L. split; [lia | done].
Qed.

Lemma rounds_found rounds : ∀ m, mtud_ok m →
  Forall (λ r, ascending (-1) r.1 = true ∧ r.1 ≠ [] ∧ large (black_hole_detector m) r.1) rounds →
  BLACK_HOLE_THRESHOLD < bursts (black_hole_detector m) + zlen rounds → bursts (black_hole_detector m) ≤ BLACK_HOLE_THRESHOLD →
  ∃ m', loss_rounds rounds m = Some (true, m') ∧ current_mtu m' = min_of m ∧ mtud_ok m'.
Proof.
  induction rounds as [| [packets now] rounds IH]; intros m Hok Hr Hk Hb; [rewrite zlen_nil in Hk; lia |].
  apply Forall_cons in Hr as [(Ha & Hne & Hl) Hr]. cbn [loss_rounds].
  destruct (round_large packets now m Hok Ha Hne Hl) as (d & m' & -> & Hok' & Hmin & Hd). destruct d; [by exists m' |].
  destruct Hd as [Hd HL]. rewrite zlen_cons in Hk. rewrite <- Hmin. apply IH; try done; try lia.
  eapply Forall_impl; [exact Hr |]. intros r (H1 & H2 & H3). split; [done |]. split; [done |]. unfold large, min_of in *. by rewrite HL, Hmin.
Qed.

(** ** Theorems *)



(** C30: a black hole is found.  When a path has come to carry less, in any state, four rounds of
    losses of packets that are newer than the largest known to have arrived, and larger than
    the minimum, suffice: one of them reports, and the MTU falls back to the minimum. *)
Theorem black_hole_found (initial min : Z) (peer : option Z) (c : MtuDiscoveryConfig) (evs : list Event)
    (m0 m : MtuDiscovery) (probes : list Probe) (rounds : list (list (Z * Z) * Z)) :
  config_ok c → 0 ≤ min ≤ initial → initial ≤ MAX_UDP_PAYLOAD →
  match peer with Some size => min ≤ size < 2 ^ 16 | None => True end →
  MtuDiscovery.new initial min peer c = Some m0 → run evs m0 = Some (probes, m) →
  Forall (λ r, ascending (-1) r.1 = true ∧ r.1 ≠ [] ∧ large (black_hole_detector m) r.1) rounds → 4 ≤ zlen rounds →
  ∃ m', loss_rounds rounds m = Some (true, m') ∧ current_mtu m' = min.
Proof.
  intros Hc Hmin Hi Hp E Er Hr Hk. destruct (new_mtud_ok initial min peer c Hc Hmin Hi Hp) as (m0' & E' & Hok & Hm & _).
  rewrite E in E'. injection E' as <-. destruct (run_ok evs m0 Hok) as (probes' & m1 & Er' & Hok' & Hm1 & _). rewrite Er in Er'.
  injection Er' as _ <-. destruct (rounds_found rounds m Hok' Hr) as (m' & El & Hcur & _).
  - unfold bursts, BLACK_HOLE_THRESHOLD. pose proof (zlen_nonneg (suspicious_loss_bursts (black_hole_detector m))). lia.
  - apply (mo_bursts _ Hok').
  - exists m'. split; [done |]. by rewrite Hcur, Hm1.
Qed.

(** ** Witnesses *)

(** [MtuDiscoveryConfig::default()]. *)
Definition default_config : MtuDiscoveryConfig := mk_config 600000000000 1452 20 60000000000.

Lemma default_config_ok : config_ok default_config.
Proof. done. Qed.

(** The first probe arrives; the second is lost three times. *)
Definition sample_events : list Event :=
  [ PeerMax 1472; Poll 0 0; Acked QuicPacket.SpaceData 0 1326; Poll 1 1; ProbeLost; Poll 2 2; ProbeLost; Poll 3 3; ProbeLost; Poll 4 4 ].



(** Packets of 1400 bytes are lost in four rounds. *)
Definition sample_rounds : list (list (Z * Z) * Z) :=
  [([(10, 1400); (11, 1400)], 1); ([(20, 1400)], 2); ([(25, 1400); (27, 1400)], 3); ([(30, 1400)], 4)].

Lemma black_hole_found_witness :
  ∃ m0 m', MtuDiscovery.new 1400 1200 None default_config = Some m0
  ∧ loss_rounds sample_rounds m0 = Some (true, m') ∧ current_mtu m' = 1200.
Proof.
  destruct (MtuDiscovery.new 1400 1200 None default_config) as [m0 |] eqn:E; [| vm_compute in E; discriminate E].
  pose proof E as E0. vm_compute in E0. injection E0 as Em0.
  destruct (black_hole_found 1400 1200 None default_config [] m0 m0 [] sample_rounds) as (m' & El & Hc);
    [apply default_config_ok | lia | done | done | exact E | done | | done |].
  - subst m0. repeat constructor; simpl; lia || done.
  - by exists m0, m'.
Defined.

(** ** Small steps *)

(** With a smallest step of 1, a probe can be smaller than the MTU, and its acknowledgement
    then lowers the MTU below the configured minimum. *)
Example mtu_below_minimum :
  let c := mk_config 600000000000 1202 1 60000000000 in
  let lost pn := [Poll 0 pn; ProbeLost; Poll 0 (pn + 1); ProbeLost; Poll 0 (pn + 2); ProbeLost] in
  match MtuDiscovery.new 1200 1200 None c with
  | Some m0 =>
    match run (lost 0 ++ lost 3 ++ [Poll 0 6; Acked QuicPacket.SpaceData 6 1199]) m0 with
    | Some (_, m) => current_mtu m = 1199
    | None => False
    end
  | None => False
  end.
Proof. vm_compute. reflexivity. Qed.

(** With a smallest step of 0 the search does not end: it probes the size it has found. *)
Example mtu_search_endless :
  match MtuDiscovery.new 1200 1200 None (mk_config 600000000000 1452 0 60000000000) with
  | Some m0 => discover 1000 1400 0 0 m0 = None
  | None => False
  end.
Proof. vm_compute. reflexivity. Qed.

End MtudProofs.
