(* ===== verification/Congestion.v ===== *)
(** * Congestion control

    Models [src/congestion.rs] (the [Controller] interface), [src/congestion/new_reno.rs] and
    [src/congestion/cubic.rs], and the round-trip estimator of [src/connection/paths.rs] they
    are given.

    Windows are 64-bit and wrap; instants and durations are nanoseconds.  The cube root and the
    integer power of [f64] are parameters of the cubic controller: their precision is
    unspecified. *)

From Stdlib Require Import SpecFloat.
From stdpp Require Import list.
From S2P Require Import Prelude Floats AckFrequency.

(** ** Round-trip times *)

Module RttEstimator.

Record RttEstimator := mk_rtt { latest : Z; smoothed : option Z; var : Z; min : Z }.

#[global] Instance rtt_settable : Settable RttEstimator := λ r, mk_rtt (latest r) (smoothed r) (var r) (min r).

Definition new (initial_rtt : Z) : RttEstimator := mk_rtt initial_rtt None (initial_rtt / 2) initial_rtt.

Definition get (r : RttEstimator) : Z := match smoothed r with Some x => x | None => latest r end.

Definition conservative (r : RttEstimator) : Z := Z.max (get r) (latest r).

Definition pto_base (r : RttEstimator) : Z := get r + Z.max (4 * var r) AckFrequency.TIMER_GRANULARITY.

Definition update (ack_delay rtt : Z) (r : RttEstimator) : RttEstimator :=
  let r := r <| latest := rtt |> in
  let r := r <| min := Z.min (min r) (latest r) |> in
  match smoothed r with
  | Some s =>
    let adjusted_rtt := if min r + ack_delay <=? latest r then latest r - ack_delay else latest r in
    let var_sample := Z.abs (s - adjusted_rtt) in
    r <| var := (3 * var r + var_sample) / 4 |> <| smoothed := Some ((7 * s + adjusted_rtt) / 8) |>
  | None => r <| smoothed := Some (latest r) |> <| var := latest r / 2 |> <| min := latest r |>
  end.

End RttEstimator.

(** ** The interface *)

(** [trait Controller]; what it does not ask of the connection is left out. *)
Class Controller (C : Type) := {
  on_sent : Z → Z → Z → bool → C → C;
  on_ack : Z → Z → Z → bool → RttEstimator.RttEstimator → Z → C → C;
  on_packet_lost : Z → Z → Z → C → C;
  on_app_limited : Z → C → C;
  on_packet_neutered : Z → C → C;
  on_packet_abandoned : Z → Z → C → C;
  on_least_unacked : Z → C → C;
  on_end_acks : Z → Z → bool → option Z → C → C;
  on_congestion_event : Z → Z → bool → Z → C → C;
  on_mtu_update : Z → C → C;
  window : C → Z;
  pacing_rate : C → option Z;
  initial_window : C → Z;
}.

(** What the connection relies on: the controller keeps a window of two datagrams of the MTU it was
    told last, as long as its window does not reach the end of its range. *)
Class ControllerLaws (C : Type) `{Controller C} (mtu_of : C → Z) := {
  law_inv : C → Prop;
  law_window c : law_inv c → 2 * mtu_of c ≤ window c;
  law_sent now bytes pn r c : law_inv c → law_inv (on_sent now bytes pn r c) ∧ mtu_of (on_sent now bytes pn r c) = mtu_of c;
  law_ack now sent bytes lim rtt pn c : law_inv c → is_u 16 bytes → window c < 2 ^ 64 - 2 ^ 17 →
    law_inv (on_ack now sent bytes lim rtt pn c) ∧ mtu_of (on_ack now sent bytes lim rtt pn c) = mtu_of c;
  law_lost now pn bytes c : law_inv c → law_inv (on_packet_lost now pn bytes c) ∧ mtu_of (on_packet_lost now pn bytes c) = mtu_of c;
  law_limited n c : law_inv c → law_inv (on_app_limited n c) ∧ mtu_of (on_app_limited n c) = mtu_of c;
  law_neutered pn c : law_inv c → law_inv (on_packet_neutered pn c) ∧ mtu_of (on_packet_neutered pn c) = mtu_of c;
  law_abandoned pn bytes c : law_inv c → law_inv (on_packet_abandoned pn bytes c) ∧ mtu_of (on_packet_abandoned pn bytes c) = mtu_of c;
  law_least n c : law_inv c → law_inv (on_least_unacked n c) ∧ mtu_of (on_least_unacked n c) = mtu_of c;
  law_end now fl lim l c : law_inv c → law_inv (on_end_acks now fl lim l c) ∧ mtu_of (on_end_acks now fl lim l c) = mtu_of c;
  law_event now sent p lost c : law_inv c → law_inv (on_congestion_event now sent p lost c) ∧ mtu_of (on_congestion_event now sent p lost c) = mtu_of c;
  law_mtu mtu c : law_inv c → is_u 16 mtu → law_inv (on_mtu_update mtu c) ∧ mtu_of (on_mtu_update mtu c) = mtu;
}.

Definition BASE_DATAGRAM_SIZE : Z := 1200.

(** ** NewReno *)

Module NewReno.

Record NewRenoConfig := mk_config { cfg_initial_window : Z; loss_reduction_factor : spec_float }.

Record NewReno := mk_new_reno {
  config : NewRenoConfig;
  current_mtu : Z;
  nr_window : Z;
  ssthresh : Z;
  recovery_start_time : Z;
  bytes_acked : Z;
}.

#[global] Instance new_reno_settable : Settable NewReno := λ c,
  mk_new_reno (config c) (current_mtu c) (nr_window c) (ssthresh c) (recovery_start_time c) (bytes_acked c).

(** [14720.clamp(2 * BASE_DATAGRAM_SIZE, 10 * BASE_DATAGRAM_SIZE)] and 0.5. *)
Definition default_config : NewRenoConfig :=
  mk_config (Z.max (2 * BASE_DATAGRAM_SIZE) (Z.min 14720 (10 * BASE_DATAGRAM_SIZE))) (Floats.ratio 24 128 1 2).

Definition new (c : NewRenoConfig) (now mtu : Z) : NewReno := mk_new_reno c mtu (cfg_initial_window c) (u_max 64) now 0.

Definition minimum_window (c : NewReno) : Z := 2 * current_mtu c.

Definition nr_on_ack (sent bytes : Z) (app_limited : bool) (c : NewReno) : NewReno :=
  if app_limited || (sent <=? recovery_start_time c) then c
  else if nr_window c <? ssthresh c then
    let c := c <| nr_window := wrapping_add 64 (nr_window c) bytes |> in
    if ssthresh c <=? nr_window c then c <| bytes_acked := nr_window c - ssthresh c |> else c
  else
    let c := c <| bytes_acked := wrapping_add 64 (bytes_acked c) bytes |> in
    if nr_window c <=? bytes_acked c then
      c <| bytes_acked := bytes_acked c - nr_window c |> <| nr_window := wrapping_add 64 (nr_window c) (current_mtu c) |>
    else c.

Definition nr_on_congestion_event (now sent : Z) (is_persistent_congestion : bool) (c : NewReno) : NewReno :=
  if sent <=? recovery_start_time c then c
  else
    let c := c <| recovery_start_time := now |> in
    let c := c <| nr_window := Floats.to_u64 (Floats.mul_f32 (Floats.of_f32 (nr_window c)) (loss_reduction_factor (config c))) |> in
    let c := c <| nr_window := Z.max (nr_window c) (minimum_window c) |> in
    let c := c <| ssthresh := nr_window c |> in
    if is_persistent_congestion then c <| nr_window := minimum_window c |> else c.

Definition nr_on_mtu_update (new_mtu : Z) (c : NewReno) : NewReno :=
  let c := c <| current_mtu := new_mtu |> in
  c <| nr_window := Z.max (nr_window c) (minimum_window c) |>.

#[global] Instance new_reno_controller : Controller NewReno := {|
  on_sent _ _ _ _ c := c;
  on_ack _ sent bytes app_limited _ _ c := nr_on_ack sent bytes app_limited c;
  on_packet_lost _ _ _ c := c;
  on_app_limited _ c := c;
  on_packet_neutered _ c := c;
  on_packet_abandoned _ _ c := c;
  on_least_unacked _ c := c;
  on_end_acks _ _ _ _ c := c;
  on_congestion_event now sent p _ c := nr_on_congestion_event now sent p c;
  on_mtu_update := nr_on_mtu_update;
  window := nr_window;
  pacing_rate _ := None;
  initial_window c := cfg_initial_window (config c);
|}.

Definition inv (c : NewReno) : Prop := is_u 16 (current_mtu c) ∧ minimum_window c ≤ nr_window c.

#[global] Instance new_reno_laws : ControllerLaws NewReno current_mtu.
Proof.
  refine {| law_inv := inv |}; try (by intros; split).
  - by intros c [_ H].
  - intros now sent bytes lim rtt pn c [Hm Hw] Hb Hl. cbn [on_ack new_reno_controller window] in *. unfold nr_on_ack, inv, minimum_window, is_u in *.
    destruct (_ || _); [done |]. destruct (nr_window c <? ssthresh c).
    + set (c1 := c <| nr_window := _ |>). assert (H1 : minimum_window c1 ≤ nr_window c1 ∧ current_mtu c1 = current_mtu c).
      { unfold minimum_window. subst c1. simpl. unfold wrapping_add. rewrite wrap_small by (unfold is_u; lia). lia. }
      unfold minimum_window in H1. clearbody c1. destruct (_ <=? _); simpl; lia.
    + set (c1 := c <| bytes_acked := _ |>). destruct (_ <=? _); simpl; [| lia]. unfold wrapping_add. rewrite wrap_small by (unfold is_u; lia). lia.
  - intros now sent p lost c [Hm Hw]. simpl. unfold nr_on_congestion_event, inv, minimum_window, is_u in *. destruct (_ <=? _); [done |].
    destruct p; simpl; lia.
  - intros mtu c [Hm Hw] Hu. simpl. unfold nr_on_mtu_update, inv, minimum_window, is_u in *. simpl. lia.
Defined.

End NewReno.

(** ** Cubic *)

Module Cubic.
Import Floats.

Definition BETA_CUBIC : spec_float := ratio 53 1024 7 10.
Definition C_CUBIC : spec_float := ratio 53 1024 4 10.
Definition one : spec_float := of_f64 1.

Record State := mk_state { k : spec_float; w_max : spec_float; cwnd_inc : Z }.

#[global] Instance state_settable : Settable State := λ s, mk_state (k s) (w_max s) (cwnd_inc s).

Record Cubic := mk_cubic {
  cfg_initial_window : Z;
  cu_window : Z;
  ssthresh : Z;
  recovery_start_time : option Z;
  cubic_state : State;
  current_mtu : Z;
}.

#[global] Instance cubic_settable : Settable Cubic := λ c,
  mk_cubic (cfg_initial_window c) (cu_window c) (ssthresh c) (recovery_start_time c) (cubic_state c) (current_mtu c).

(** [CubicConfig::default().initial_window]. *)
Definition default_initial_window : Z := Z.max (2 * BASE_DATAGRAM_SIZE) (Z.min 14720 (10 * BASE_DATAGRAM_SIZE)).

Definition new (initial_window mtu : Z) : Cubic :=
  mk_cubic initial_window initial_window (u_max 64) None (mk_state (of_f64 0) (of_f64 0) 0) mtu.

Definition minimum_window (c : Cubic) : Z := 2 * current_mtu c.

Section cubic.
Context (cbrt powi3 : spec_float → spec_float).

Definition cubic_k (s : State) (max_datagram_size : Z) : spec_float :=
  let w_max := div_f64 (w_max s) (of_f64 max_datagram_size) in
  cbrt (div_f64 (mul_f64 w_max (sub_f64 one BETA_CUBIC)) C_CUBIC).

Definition w_cubic (t : Z) (max_datagram_size : Z) (s : State) : spec_float :=
  let w_max := div_f64 (w_max s) (of_f64 max_datagram_size) in
  mul_f64 (add_f64 (mul_f64 C_CUBIC (powi3 (sub_f64 (as_secs_f64 t) (k s)))) w_max) (of_f64 max_datagram_size).

Definition w_est (t rtt max_datagram_size : Z) (s : State) : spec_float :=
  let w_max := div_f64 (w_max s) (of_f64 max_datagram_size) in
  let slope := div_f64 (mul_f64 (of_f64 3) (sub_f64 one BETA_CUBIC)) (add_f64 one BETA_CUBIC) in
  mul_f64 (add_f64 (mul_f64 w_max BETA_CUBIC) (div_f64 (mul_f64 slope (as_secs_f64 t)) (as_secs_f64 rtt)))
    (of_f64 max_datagram_size).

(** The packet was sent before the recovery period began. *)
Definition in_recovery (sent : Z) (c : Cubic) : bool :=
  match recovery_start_time c with Some t => sent <=? t | None => false end.

(** The window the cubic function asks for. *)
Definition target (c : Cubic) (t rtt : Z) : Z :=
  let wc := w_cubic (t + rtt) (current_mtu c) (cubic_state c) in
  let we := w_est t rtt (current_mtu c) (cubic_state c) in
  let cwnd := cu_window c in
  if SFltb wc we then Z.max cwnd (to_u64 we)
  else if cwnd <? to_u64 wc then
    if 0 <? cwnd then
      let inc := mul_f64 (div_f64 (sub_f64 wc (of_f64 cwnd)) (of_f64 cwnd)) (of_f64 (current_mtu c)) in
      wrapping_add 64 cwnd (to_u64 inc)
    else cwnd
  else cwnd.

Definition cu_on_ack (now sent bytes : Z) (app_limited : bool) (rtt : RttEstimator.RttEstimator) (c : Cubic) : Cubic :=
  if app_limited || in_recovery sent c then c
  else if cu_window c <? ssthresh c then c <| cu_window := wrapping_add 64 (cu_window c) bytes |>
  else
    let '(ca_start_time, c) :=
      match recovery_start_time c with
      | Some t => (t, c)
      | None => (now, c <| recovery_start_time := Some now |>
                        <| cubic_state := (cubic_state c) <| w_max := of_f64 (cu_window c) |> <| k := of_f64 0 |> |>)
      end in
    let t := saturating_sub now ca_start_time in
    let cubic_cwnd := target c t (RttEstimator.get rtt) in
    let inc := wrapping_add 64 (cwnd_inc (cubic_state c)) (wrapping_sub 64 cubic_cwnd (cu_window c)) in
    let c := c <| cubic_state := (cubic_state c) <| cwnd_inc := inc |> |> in
    if current_mtu c <=? inc then
      c <| cu_window := wrapping_add 64 (cu_window c) (current_mtu c) |> <| cubic_state := (cubic_state c) <| cwnd_inc := 0 |> |>
    else c.

Definition cu_on_congestion_event (now sent : Z) (is_persistent_congestion : bool) (c : Cubic) : Cubic :=
  if in_recovery sent c then c
  else
    let c := c <| recovery_start_time := Some now |> in
    let w := of_f64 (cu_window c) in
    let w_max' := if SFltb w (w_max (cubic_state c)) then div_f64 (mul_f64 w (add_f64 one BETA_CUBIC)) (of_f64 2) else w in
    let c := c <| cubic_state := (cubic_state c) <| w_max := w_max' |> |> in
    let c := c <| ssthresh := Z.max (to_u64 (mul_f64 w_max' BETA_CUBIC)) (minimum_window c) |> in
    let c := c <| cu_window := ssthresh c |> in
    let c := c <| cubic_state := (cubic_state c) <| k := cubic_k (cubic_state c) (current_mtu c) |>
                 <| cwnd_inc := to_u64 (mul_f64 (of_f64 (cwnd_inc (cubic_state c))) BETA_CUBIC) |> |> in
    if is_persistent_congestion then
      let w := of_f64 (cu_window c) in
      c <| recovery_start_time := None |>
        <| cubic_state := (cubic_state c) <| w_max := w |> <| cwnd_inc := 0 |> |>
        <| ssthresh := Z.max (to_u64 (mul_f64 w BETA_CUBIC)) (minimum_window c) |>
        <| cu_window := minimum_window c |>
    else c.

Definition cu_on_mtu_update (new_mtu : Z) (c : Cubic) : Cubic :=
  let c := c <| current_mtu := new_mtu |> in
  c <| cu_window := Z.max (cu_window c) (minimum_window c) |>.

#[global] Instance cubic_controller : Controller Cubic := {|
  on_sent _ _ _ _ c := c;
  on_ack now sent bytes app_limited rtt _ c := cu_on_ack now sent bytes app_limited rtt c;
  on_packet_lost _ _ _ c := c;
  on_app_limited _ c := c;
  on_packet_neutered _ c := c;
  on_packet_abandoned _ _ c := c;
  on_least_unacked _ c := c;
  on_end_acks _ _ _ _ c := c;
  on_congestion_event now sent p _ c := cu_on_congestion_event now sent p c;
  on_mtu_update := cu_on_mtu_update;
  window := cu_window;
  pacing_rate _ := None;
  initial_window := cfg_initial_window;
|}.

Definition inv (c : Cubic) : Prop := is_u 16 (current_mtu c) ∧ minimum_window c ≤ cu_window c.

#[global] Instance cubic_laws : ControllerLaws Cubic current_mtu.
Proof.
  refine {| law_inv := inv |}; try (by intros; split).
  - by intros c [_ H].
  - intros now sent bytes lim rtt pn c [Hm Hw] Hb Hl. cbn [on_ack cubic_controller window] in *. unfold cu_on_ack, inv, minimum_window, is_u in *.
    destruct (_ || _); [done |]. destruct (cu_window c <? ssthresh c).
    { simpl. unfold wrapping_add. rewrite wrap_small by (unfold is_u; lia). lia. }
    set (p := match recovery_start_time c with Some _ => _ | None => _ end).
    assert (Hp : current_mtu p.2 = current_mtu c ∧ cu_window p.2 = cu_window c) by (subst p; by destruct (recovery_start_time c)).
    destruct p as [t c1]. simpl in Hp. destruct Hp as [Hp1 Hp2]. cbn [current_mtu set_field]. rewrite Hp1.
    destruct (_ <=? _); simpl; rewrite ?Hp1, ?Hp2; [| lia]. unfold wrapping_add. rewrite wrap_small by (unfold is_u; lia). lia.
  - intros now sent p lost c [Hm Hw]. simpl. unfold cu_on_congestion_event, inv, minimum_window, is_u in *. destruct (in_recovery sent c); [done |].
    destruct p; simpl; lia.
  - intros mtu c [Hm Hw] Hu. simpl. unfold cu_on_mtu_update, inv, minimum_window, is_u in *. simpl. lia.
Defined.

End cubic.
End Cubic.

(** ** Theorems *)

Module CongestionProofs.

(** What the connection tells its controller. *)
Inductive Event :=
| Sent (now bytes pn : Z) (ack_eliciting : bool)
| Ack (now sent bytes : Z) (app_limited : bool) (rtt : RttEstimator.RttEstimator) (pn : Z)
| PacketLost (now pn bytes : Z)
| Neutered (pn : Z)
| Abandoned (pn bytes : Z)
| EndAcks (now in_flight : Z) (app_limited : bool) (largest : option Z)
| LeastUnacked (pn : Z)
| AppLimited (in_flight : Z)
| CongestionEvent (now sent : Z) (persistent : bool) (lost : Z)
| MtuUpdate (mtu : Z).

Section run.
Context {C : Type} `{ControllerLaws C}.

Definition step (ev : Event) (c : C) : C :=
  match ev with
  | Sent now bytes pn r => on_sent now bytes pn r c
  | Ack now sent bytes lim rtt pn => on_ack now sent bytes lim rtt pn c
  | PacketLost now pn bytes => on_packet_lost now pn bytes c
  | Neutered pn => on_packet_neutered pn c
  | Abandoned pn bytes => on_packet_abandoned pn bytes c
  | EndAcks now fl lim l => on_end_acks now fl lim l c
  | LeastUnacked pn => on_least_unacked pn c
  | AppLimited fl => on_app_limited fl c
  | CongestionEvent now sent p lost => on_congestion_event now sent p lost c
  | MtuUpdate mtu => on_mtu_update mtu c
  end.

(** Packets and MTUs are 16-bit, and the window does not reach the end of its range. *)
Definition event_ok (ev : Event) (c : C) : Prop :=
  match ev with
  | Ack _ _ bytes _ _ _ => is_u 16 bytes ∧ window c < 2 ^ 64 - 2 ^ 17
  | MtuUpdate mtu => is_u 16 mtu
  | _ => True
  end.

Fixpoint run (evs : list Event) (c : C) : C := match evs with [] => c | ev :: evs => run evs (step ev c) end.

Fixpoint run_ok (evs : list Event) (c : C) : Prop :=
  match evs with [] => True | ev :: evs => event_ok ev c ∧ run_ok evs (step ev c) end.

(** The MTU the controller was told last. *)
Fixpoint last_mtu (evs : list Event) (mtu : Z) : Z :=
  match evs with [] => mtu | MtuUpdate mtu :: evs => last_mtu evs mtu | _ :: evs => last_mtu evs mtu end.

Lemma step_law ev c : law_inv c → event_ok ev c →
  law_inv (step ev c) ∧ mtu_of (step ev c) = match ev with MtuUpdate mtu => mtu | _ => mtu_of c end.
Proof.
  intros Hc He. destruct ev; simpl in *;
    [by apply law_sent | apply law_ack; by try apply He | by apply law_lost | by apply law_neutered | by apply law_abandoned
    | by apply law_end | by apply law_least | by apply law_limited | by apply law_event | by apply law_mtu].
Qed.


End run.

(** A loss, a persistent congestion and a smaller MTU, for both controllers. *)
Definition sample_events : list Event :=
  [ Sent 5 1200 0 true; Ack 100 5 1200 false (RttEstimator.new 333000000) 0; CongestionEvent 200 150 false 1200;
    MtuUpdate 1452; CongestionEvent 400 300 true 1200; Ack 900 500 1452 false (RttEstimator.new 333000000) 7 ].


(** A measured round trip and the delay the peer reports. *)
Definition samples_in (lo hi : Z) (l : list (Z * Z)) : Prop := Forall (λ s, 0 ≤ s.1 ∧ lo ≤ s.2 ≤ hi) l.

Definition estimate (l : list (Z * Z)) (r : RttEstimator.RttEstimator) : RttEstimator.RttEstimator :=
  fold_left (λ r s, RttEstimator.update s.1 s.2 r) l r.

Record rtt_inv (lo hi : Z) (r : RttEstimator.RttEstimator) : Prop := {
  ri_min : lo ≤ RttEstimator.min r ≤ RttEstimator.latest r;
  ri_latest : RttEstimator.latest r ≤ hi;
  ri_smoothed : ∃ s, RttEstimator.smoothed r = Some s ∧ RttEstimator.min r ≤ s ≤ hi;
  ri_var : 0 ≤ RttEstimator.var r ≤ hi;
}.

Lemma div_bounds a n lo hi : 0 < n → n * lo ≤ a → a ≤ n * hi → lo ≤ a / n ≤ hi.
Proof. intros Hn Hl Hh. split; [apply Z.div_le_lower_bound | apply Z.div_le_upper_bound]; lia. Qed.

Lemma update_first lo hi d x r : 0 ≤ lo → lo ≤ x ≤ hi → RttEstimator.smoothed r = None → rtt_inv lo hi (RttEstimator.update d x r).
Proof.
  intros H0 Hx Hs. unfold RttEstimator.update. simpl. rewrite Hs. split; simpl; [lia | lia | eexists; split; [done | lia] |].
  apply div_bounds; lia.
Qed.

Lemma update_next lo hi d x r : 0 ≤ lo → 0 ≤ d → lo ≤ x ≤ hi → rtt_inv lo hi r → rtt_inv lo hi (RttEstimator.update d x r).
Proof.
  intros H0 Hd Hx [Hm Hl (s & Hs & Hsb) Hv]. unfold RttEstimator.update. simpl. rewrite Hs.
  set (m := Z.min (RttEstimator.min r) x). assert (Hm' : lo ≤ m ≤ x ∧ m ≤ RttEstimator.min r) by (subst m; lia). clearbody m.
  destruct (Z.leb_spec (m + d) x); simpl; (split; simpl; [lia | lia | eexists; split; [reflexivity |]; apply div_bounds; lia |];
    apply div_bounds; lia).
Qed.

Lemma estimate_inv lo hi l : ∀ r, 0 ≤ lo → samples_in lo hi l → rtt_inv lo hi r → rtt_inv lo hi (estimate l r).
Proof.
  induction l as [| [d x] l IH]; intros r H0 Hl Hr; [done |]. apply Forall_cons in Hl as [[Hd Hx] Hl]. simpl in *.
  apply IH; [done | done |]. by apply update_next.
Qed.

(** The round-trip estimate stays within what was measured.  After any sequence of samples
    between [lo] and [hi], whatever delays the peer reports, the smoothed estimate, the latest
    and the least round trip are between [lo] and [hi], the variation is at most [hi], and the
    probe timeout is at least the timer's granularity above the estimate and at most [5 hi] or
    [hi] and the granularity. *)
Theorem rtt_within_samples (initial lo hi d x : Z) (l : list (Z * Z)) : 0 ≤ lo → samples_in lo hi ((d, x) :: l) →
  let r := estimate ((d, x) :: l) (RttEstimator.new initial) in
  lo ≤ RttEstimator.get r ≤ hi ∧ lo ≤ RttEstimator.min r ≤ RttEstimator.conservative r ∧ RttEstimator.conservative r ≤ hi
  ∧ RttEstimator.get r + AckFrequency.TIMER_GRANULARITY ≤ RttEstimator.pto_base r
    ≤ hi + Z.max (4 * hi) AckFrequency.TIMER_GRANULARITY.
Proof.
  intros H0 Hl r. apply Forall_cons in Hl as [[Hd Hx] Hl]. simpl in Hd, Hx.
  assert (Hr : rtt_inv lo hi r) by (apply (estimate_inv lo hi l (RttEstimator.update d x _)); [done | done | by apply update_first]).
  destruct Hr as [Hm Hla (s & Hs & Hsb) Hv]. unfold RttEstimator.conservative, RttEstimator.pto_base, RttEstimator.get. rewrite Hs. lia.
Qed.

Lemma rtt_within_samples_witness :
  let r := estimate [(0, 50); (5, 80); (100, 60)] (RttEstimator.new 333) in
  50 ≤ RttEstimator.get r ≤ 80 ∧ RttEstimator.conservative r ≤ 80.
Proof.
  destruct (rtt_within_samples 333 50 80 0 50 [(5, 80); (100, 60)]) as (H1 & H2 & H3 & _); [lia | by repeat constructor |].
  split; [exact H1 | exact H3].
Defined.

End CongestionProofs.
