(* ===== verification/Paths.v ===== *)
(** * Network paths

    Models [src/connection/paths.rs] (the state of a path, bytes in flight, replies to path
    challenges, observed addresses and their rate limiter) and [src/connection/pacing.rs] (the
    token bucket that spaces out packets).

    Instants and durations are nanoseconds; [None] is a panic where an operation can. *)

From Stdlib Require Import SpecFloat.
From stdpp Require Import list.
From S2P Require Import Prelude BTree Floats QuicPacket Spaces NatFrames Mtud Congestion.

(** ** Pacing *)

Module Pacer.
Import Floats.

Record Pacer := mk_pacer {
  capacity : Z;
  last_window : Z;
  last_mtu : Z;
  last_rate : option Z;
  tokens : Z;
  prev : Z;
}.

#[global] Instance pacer_settable : Settable Pacer := λ p,
  mk_pacer (capacity p) (last_window p) (last_mtu p) (last_rate p) (tokens p) (prev p).

Definition BURST_INTERVAL_NANOS : Z := 2000000.
Definition CWND_OVERSHOOT : spec_float := ratio 53 1024 5 4.
Definition CWND_OVERSHOOT_NUM : Z := 4.
Definition CWND_OVERSHOOT_DENOM : Z := 5.
Definition MIN_BURST_SIZE : Z := 10.
Definition MAX_BURST_SIZE : Z := 256.
Definition NANOS_PER_SECOND : Z := 1000000000.

(** [Duration::MAX] in nanoseconds. *)
Definition DURATION_MAX : Z := 2 ^ 64 * 10 ^ 9 - 1.

(** [u64::try_from(x).unwrap_or(u64::MAX)], and [saturating_mul] of [u128]. *)
Definition to_u64_or_max (x : Z) : Z := Z.min (u_max 64) x.
Definition saturating_mul (w a b : Z) : Z := Z.min (u_max w) (a * b).

Definition compute_capacity (smoothed_rtt window mtu : Z) (rate : option Z) : Z :=
  let unclamped :=
    match rate with
    | Some rate => to_u64_or_max (saturating_mul 128 rate BURST_INTERVAL_NANOS / NANOS_PER_SECOND)
    | None => to_u64_or_max (window * BURST_INTERVAL_NANOS / Z.max smoothed_rtt 1)
    end in
  Z.max (MIN_BURST_SIZE * mtu) (Z.min unclamped (MAX_BURST_SIZE * mtu)).

(** [pacing_rate.filter(|&r| r > 0)]. *)
Definition positive_rate (r : option Z) : option Z := match r with Some r => if 0 <? r then Some r else None | None => None end.

Definition new (smoothed_rtt window mtu : Z) (pacing_rate : option Z) (now : Z) : Pacer :=
  let rate := positive_rate pacing_rate in
  let capacity := compute_capacity smoothed_rtt window mtu rate in
  mk_pacer capacity window mtu rate capacity now.

Definition on_transmit (packet_length : Z) (p : Pacer) : Pacer := p <| tokens := saturating_sub (tokens p) packet_length |>.

(** The tokens a rate gives for the time elapsed, and the time until the bucket is full. *)
Definition refill_rate (rate time_elapsed bytes_to_send : Z) (p : Pacer) : Z * Z :=
  let refilled := saturating_mul 128 rate time_elapsed / NANOS_PER_SECOND in
  let projected := Z.min (to_u64_or_max (tokens p + refilled)) (capacity p) in
  let deficit := saturating_sub (Z.max bytes_to_send (capacity p)) projected in
  (to_u64_or_max refilled, to_u64_or_max (deficit * NANOS_PER_SECOND / rate)).

(** The same for a window and a round trip; [None]: pacing is off. *)
Definition refill_window (smoothed_rtt window time_elapsed bytes_to_send : Z) (p : Pacer) : option (Z * Z) :=
  if u_max 32 <? window then None
  else if smoothed_rtt =? 0 then None
  else
    let elapsed_rtts := div_f64 (as_secs_f64 time_elapsed) (as_secs_f64 smoothed_rtt) in
    let refilled := mul_f64 (mul_f64 (of_f64 window) CWND_OVERSHOOT) elapsed_rtts in
    let refilled := to_u64 (fmax refilled (of_f64 0)) in
    let projected := Z.min (saturating_add 64 (tokens p) refilled) (capacity p) in
    let deficit := saturating_sub (Z.max bytes_to_send (capacity p)) projected in
    let unscaled_delay := Z.min DURATION_MAX (smoothed_rtt * Z.min (u_max 32) deficit) / window in
    Some (refilled, unscaled_delay / CWND_OVERSHOOT_DENOM * CWND_OVERSHOOT_NUM).

(** [delay]; [None]: the assertion on the window. *)
Definition delay (smoothed_rtt bytes_to_send mtu window : Z) (pacing_rate : option Z) (now : Z) (p : Pacer)
  : option (option Z * Pacer) :=
  if window =? 0 then None
  else
    let rate := positive_rate pacing_rate in
    let p :=
      if negb (window =? last_window p) || negb (mtu =? last_mtu p) || negb (bool_decide (rate = last_rate p)) then
        let p := p <| capacity := compute_capacity smoothed_rtt window mtu rate |> in
        p <| tokens := Z.min (capacity p) (tokens p) |> <| last_window := window |> <| last_mtu := mtu |> <| last_rate := rate |>
      else p in
    if bytes_to_send <=? tokens p then Some (None, p)
    else
      let time_elapsed := saturating_sub now (prev p) in
      match (match rate with
             | Some rate => Some (refill_rate rate time_elapsed bytes_to_send p)
             | None => refill_window smoothed_rtt window time_elapsed bytes_to_send p
             end) with
      | None => Some (None, p)
      | Some (new_tokens, d) =>
        let p := p <| tokens := Z.min (saturating_add 64 (tokens p) new_tokens) (capacity p) |> <| prev := now |> in
        if bytes_to_send <=? tokens p then Some (None, p) else Some (Some (prev p + d), p)
      end.

End Pacer.

(** ** Replies to path challenges *)

Module PathResponses.

Record PathResponse := mk_response { packet : Z; token : Z; remote : NatFrames.SocketAddr }.

Definition MAX_PATH_RESPONSES : Z := 16.

(** Update the first entry for the address. *)
Fixpoint update_existing (r : PathResponse) (pending : list PathResponse) : option (list PathResponse) :=
  match pending with
  | [] => None
  | x :: pending =>
    if bool_decide (remote x = remote r) then Some ((if packet x <=? packet r then r else x) :: pending)
    else match update_existing r pending with Some pending => Some (x :: pending) | None => None end
  end.

Definition push (r : PathResponse) (pending : list PathResponse) : list PathResponse :=
  match update_existing r pending with
  | Some pending => pending
  | None => if zlen pending <? MAX_PATH_RESPONSES then pending ++ [r] else pending
  end.

Definition pop_off_path (addr : NatFrames.SocketAddr) (pending : list PathResponse)
  : option (Z * NatFrames.SocketAddr) * list PathResponse :=
  match vec_pop pending with
  | Some (r, rest) => if bool_decide (remote r = addr) then (None, pending) else (Some (token r, remote r), rest)
  | None => (None, pending)
  end.

Definition pop_on_path (addr : NatFrames.SocketAddr) (pending : list PathResponse) : option Z * list PathResponse :=
  match vec_pop pending with
  | Some (r, rest) => if bool_decide (remote r = addr) then (Some (token r), rest) else (None, pending)
  | None => (None, pending)
  end.

End PathResponses.

(** ** Observed addresses *)

Module PathAddressInfo.

Record PathAddressInfo := mk_info {
  observed_address : option NatFrames.SocketAddr;
  last_observed : option Z;
  observation_count : Z;
  notified : bool;
}.

#[global] Instance info_settable : Settable PathAddressInfo := λ i,
  mk_info (observed_address i) (last_observed i) (observation_count i) (notified i).

Definition new : PathAddressInfo := mk_info None None 0 false.

Definition update_observed_address (address : NatFrames.SocketAddr) (now : Z) (i : PathAddressInfo) : PathAddressInfo :=
  let i :=
    if bool_decide (observed_address i = Some address) then i <| observation_count := wrapping_add 64 (observation_count i) 1 |>
    else i <| observed_address := Some address |> <| observation_count := 1 |> <| notified := false |> in
  i <| last_observed := Some now |>.

Definition has_address_changed (expected : NatFrames.SocketAddr) (i : PathAddressInfo) : bool :=
  match observed_address i with Some observed => negb (bool_decide (observed = expected)) | None => false end.

Definition mark_notified (i : PathAddressInfo) : PathAddressInfo := i <| notified := true |>.

End PathAddressInfo.

Module RateLimiter.
Import Floats.

(** [PathObservationRateLimiter]. *)
Record RateLimiter := mk_limiter { tokens : spec_float; max_tokens : spec_float; rate : spec_float; last_update : Z }.

#[global] Instance limiter_settable : Settable RateLimiter := λ l, mk_limiter (tokens l) (max_tokens l) (rate l) (last_update l).

Definition new (r now : Z) : RateLimiter := mk_limiter (of_f64 r) (of_f64 r) (of_f64 r) now.

Definition update_tokens (now : Z) (l : RateLimiter) : RateLimiter :=
  let elapsed := as_secs_f64 (saturating_sub now (last_update l)) in
  l <| tokens := fmin (add_f64 (tokens l) (mul_f64 elapsed (rate l))) (max_tokens l) |> <| last_update := now |>.

Definition can_send (now : Z) (l : RateLimiter) : bool * RateLimiter :=
  let l := update_tokens now l in (fge (tokens l) (of_f64 1), l).

Definition consume_token (now : Z) (l : RateLimiter) : RateLimiter :=
  let l := update_tokens now l in
  if fge (tokens l) (of_f64 1) then l <| tokens := sub_f64 (tokens l) (of_f64 1) |> else l.

Definition set_rate (r : Z) (l : RateLimiter) : RateLimiter :=
  let l := l <| rate := of_f64 r |> <| max_tokens := of_f64 r |> in
  l <| tokens := fmin (tokens l) (max_tokens l) |>.

(** [self.observation_rate_limiter.rate as u8]. *)
Definition rate_u8 (l : RateLimiter) : Z := Z.min 255 (to_u64 (rate l)).

End RateLimiter.

(** ** Paths *)

Module PathData.
Import PacketSpace.

Section path.
Context {C R SM : Type} `{Controller C}.

(** What a path takes from the configuration. *)
Record Config := mk_config {
  new_controller : Z → Z → C;
  initial_rtt : Z;
  initial_mtu : Z;
  min_mtu : Z;
  mtu_discovery_config : option SearchState.MtuDiscoveryConfig;
}.

Record InFlight := mk_in_flight { bytes : Z; in_flight_ack_eliciting : Z }.

Record PathData := mk_path {
  path_remote : NatFrames.SocketAddr;
  rtt : RttEstimator.RttEstimator;
  sending_ecn : bool;
  congestion : C;
  pacing : Pacer.Pacer;
  challenge : option Z;
  challenge_pending : bool;
  validated : bool;
  total_sent : Z;
  total_recvd : Z;
  mtud : MtuDiscovery.MtuDiscovery;
  first_packet_after_rtt_sample : option (QuicPacket.SpaceId * Z);
  in_flight : InFlight;
  first_packet : option Z;
  address_info : PathAddressInfo.PathAddressInfo;
  observation_rate_limiter : RateLimiter.RateLimiter;
}.

#[global] Instance path_settable : Settable PathData := λ p,
  mk_path (path_remote p) (rtt p) (sending_ecn p) (congestion p) (pacing p) (challenge p) (challenge_pending p) (validated p)
    (total_sent p) (total_recvd p) (mtud p) (first_packet_after_rtt_sample p) (in_flight p) (first_packet p) (address_info p)
    (observation_rate_limiter p).

Definition new (remote : NatFrames.SocketAddr) (allow_mtud : bool) (peer_max_udp_payload_size : option Z) (now : Z) (config : Config)
  : option PathData :=
  let controller := new_controller config (initial_mtu config) now in
  let pacer := Pacer.new (initial_rtt config) (initial_window controller) (initial_mtu config) (pacing_rate controller) now in
  match (match mtu_discovery_config config with
         | Some c =>
           if allow_mtud then MtuDiscovery.new (initial_mtu config) (min_mtu config) peer_max_udp_payload_size c
           else Some (MtuDiscovery.disabled (initial_mtu config) (min_mtu config))
         | None => Some (MtuDiscovery.disabled (initial_mtu config) (min_mtu config))
         end) with
  | None => None
  | Some m =>
    Some (mk_path remote (RttEstimator.new (initial_rtt config)) true controller pacer None false false 0 0 m None
      (mk_in_flight 0 0) None PathAddressInfo.new (RateLimiter.new 10 now))
  end.

Definition current_mtu (p : PathData) : Z := MtuDiscovery.current_mtu (mtud p).

Definition from_previous (remote : NatFrames.SocketAddr) (prev : PathData) (now : Z) : PathData :=
  mk_path remote (rtt prev) true (congestion prev)
    (Pacer.new (RttEstimator.get (rtt prev)) (window (congestion prev)) (current_mtu prev) (pacing_rate (congestion prev)) now)
    None false false 0 0 (mtud prev) (first_packet_after_rtt_sample prev) (mk_in_flight 0 0) None PathAddressInfo.new
    (RateLimiter.new (RateLimiter.rate_u8 (observation_rate_limiter prev)) now).

Definition reset (now : Z) (config : Config) (p : PathData) : option PathData :=
  match MtuDiscovery.reset (initial_mtu config) (min_mtu config) (mtud p) with
  | None => None
  | Some m =>
    Some (p <| rtt := RttEstimator.new (initial_rtt config) |> <| congestion := new_controller config (initial_mtu config) now |>
            <| mtud := m |> <| address_info := PathAddressInfo.new |>
            <| observation_rate_limiter := RateLimiter.new (RateLimiter.rate_u8 (observation_rate_limiter p)) now |>)
  end.

Definition anti_amplification_blocked (bytes_to_send : Z) (p : PathData) : bool :=
  negb (validated p) && (wrap 64 (total_recvd p * 3) <? wrapping_add 64 (total_sent p) bytes_to_send).

(** [InFlight::insert] and [remove]. *)
Definition insert (packet : SentPacket R SM) (f : InFlight) : InFlight :=
  mk_in_flight (wrapping_add 64 (bytes f) (size packet)) (wrapping_add 64 (in_flight_ack_eliciting f) (Z.b2z (ack_eliciting packet))).

Definition remove (packet : SentPacket R SM) (f : InFlight) : InFlight :=
  mk_in_flight (wrapping_sub 64 (bytes f) (size packet)) (wrapping_sub 64 (in_flight_ack_eliciting f) (Z.b2z (ack_eliciting packet))).

Definition sent (pn : Z) (packet : SentPacket R SM) (space : PacketSpace R SM) (p : PathData) : option (PathData * PacketSpace R SM) :=
  let p := p <| in_flight := insert packet (in_flight p) |> in
  let p := match first_packet p with None => p <| first_packet := Some pn |> | Some _ => p end in
  match PacketSpace.sent pn packet space with
  | None => None
  | Some (dropped, space) =>
    Some (p <| in_flight := mk_in_flight (wrapping_sub 64 (bytes (in_flight p)) dropped) (in_flight_ack_eliciting (in_flight p)) |>, space)
  end.

Definition remove_in_flight (pn : Z) (packet : SentPacket R SM) (p : PathData) : bool * PathData :=
  if (match first_packet p with None => true | Some first => pn <? first end) then (false, p)
  else (true, p <| in_flight := remove packet (in_flight p) |>).

End path.
End PathData.

(** ** Properties of the pacer *)

Module PacerProofs.
Import Pacer.

(** The burst a rate allows. *)
Definition burst (mtu rate : Z) : Z := compute_capacity 0 0 mtu (Some rate).

Lemma burst_bounds mtu rate : 0 ≤ mtu → 10 * mtu ≤ burst mtu rate ≤ 256 * mtu.
Proof. unfold burst, compute_capacity, MIN_BURST_SIZE, MAX_BURST_SIZE. lia. Qed.

(** A pacer that follows a rate. *)
Record paced (mtu rate : Z) (p : Pacer) : Prop := {
  pa_capacity : capacity p = burst mtu rate;
  pa_mtu : last_mtu p = mtu;
  pa_rate : last_rate p = Some rate;
  pa_tokens : 0 ≤ tokens p ≤ capacity p;
}.

(** What [delay] does to it. *)
Definition refilled (rate mtu now : Z) (p : Pacer) : Z :=
  Z.min (saturating_add 64 (tokens p) (to_u64_or_max (saturating_mul 128 rate (saturating_sub now (prev p)) / NANOS_PER_SECOND))) (capacity p).

Lemma delay_paced mtu rate rtt bytes window now p : paced mtu rate p → 0 < rate → window ≠ 0 →
  ∃ r p', delay rtt bytes mtu window (Some rate) now p = Some (r, p') ∧ paced mtu rate p'
  ∧ (r = None → bytes ≤ tokens p')
  ∧ ((tokens p' = tokens p ∧ prev p' = prev p ∧ bytes ≤ tokens p ∧ r = None)
     ∨ (tokens p' = refilled rate mtu now p ∧ prev p' = now ∧ tokens p < bytes
        ∧ ∀ t, r = Some t → tokens p' < bytes
            ∧ t = now + (refill_rate rate (saturating_sub now (prev p)) bytes p).2)).
Proof.
  intros [Hc Hm Hr Ht] Hrate Hw. unfold delay. rewrite (proj2 (Z.eqb_neq window 0)) by done.
  unfold positive_rate. rewrite (proj2 (Z.ltb_lt 0 rate)) by done. rewrite Hm, Hr, Z.eqb_refl, bool_decide_true by done. cbn [negb orb]. rewrite !orb_false_r.
  set (p1 := if negb (window =? last_window p) then _ else _).
  assert (H1 : capacity p1 = capacity p ∧ tokens p1 = tokens p ∧ last_mtu p1 = mtu ∧ last_rate p1 = Some rate ∧ prev p1 = prev p).
  { subst p1. destruct (negb _); simpl; [| done]. split_and!; try done. rewrite Hc in Ht. change (compute_capacity rtt window mtu (Some rate)) with (burst mtu rate). lia. }
  clearbody p1. destruct H1 as (C1 & T1 & M1 & R1 & P1).
  assert (Href : ∀ e, refill_rate rate e bytes p1 = refill_rate rate e bytes p) by (intros e; unfold refill_rate; by rewrite C1, T1).
  destruct (Z.leb_spec bytes (tokens p1)).
  { eexists _, p1. split; [reflexivity |]. split; [split; congruence || lia |]. split; [done |]. left. split_and!; [done | done | lia | done]. }
  rewrite Href, P1. destruct (refill_rate rate (saturating_sub now (prev p)) bytes p) as [nt d] eqn:Er.
  set (p2 := p1 <| tokens := _ |> <| prev := now |>).
  assert (Hp2 : tokens p2 = refilled rate mtu now p).
  { subst p2. simpl. unfold refill_rate in Er. injection Er as <- _. by rewrite T1, C1. }
  assert (Hpos : 0 ≤ tokens p2 ≤ capacity p).
  { rewrite Hp2. unfold refilled, saturating_add, to_u64_or_max, saturating_mul, saturating_sub, u_max.
    assert (0 ≤ Z.min (2 ^ 128 - 1) (rate * Z.max 0 (now - prev p)) / NANOS_PER_SECOND) by (apply Z.div_pos; [nia | done]). lia. }
  assert (Hok : paced mtu rate p2) by (split; subst p2; simpl in *; congruence || lia).
  destruct (Z.leb_spec bytes (tokens p2)); eexists _, p2; (split; [reflexivity |]); (split; [done |]); (split; [done |]); right.
  - split_and!; [done | done | lia | done].
  - split_and!; [done | done | lia |]. intros t [= <-]. split; [lia | done].
Qed.

(** An attempt to send a packet: it goes out unless the pacer delays it. *)
Record Attempt := mk_attempt { at_time : Z; at_len : Z; at_window : Z; at_rtt : Z }.

Definition attempt (mtu rate : Z) (a : Attempt) (p : Pacer) : option (Z * Pacer) :=
  match delay (at_rtt a) (at_len a) mtu (at_window a) (Some rate) (at_time a) p with
  | None => None
  | Some (Some _, p) => Some (0, p)
  | Some (None, p) => Some (at_len a, on_transmit (at_len a) p)
  end.

(** The bytes sent in all attempts. *)
Fixpoint attempts (mtu rate : Z) (l : list Attempt) (p : Pacer) : option (Z * Pacer) :=
  match l with
  | [] => Some (0, p)
  | a :: l =>
    match attempt mtu rate a p with
    | None => None
    | Some (n, p) => match attempts mtu rate l p with None => None | Some (m, p) => Some (n + m, p) end
    end
  end.

(** The times do not go back. *)
Fixpoint ordered (from : Z) (l : list Attempt) (until : Z) : Prop :=
  match l with
  | [] => from ≤ until
  | a :: l => from ≤ at_time a ∧ 0 ≤ at_len a ∧ at_window a ≠ 0 ∧ ordered (at_time a) l until
  end.

Lemma refilled_bound rate mtu now p : 0 < rate → prev p ≤ now → 0 ≤ tokens p →
  NANOS_PER_SECOND * refilled rate mtu now p ≤ NANOS_PER_SECOND * tokens p + rate * (now - prev p).
Proof.
  intros Hr Hn Ht. unfold refilled, saturating_add, to_u64_or_max, saturating_mul, saturating_sub, u_max.
  rewrite Z.max_r by lia. set (x := Z.min (2 ^ 128 - 1) (rate * (now - prev p))).
  assert (Hx : NANOS_PER_SECOND * (x / NANOS_PER_SECOND) ≤ x) by (apply Z.mul_div_le; done). unfold NANOS_PER_SECOND in *. lia.
Qed.

Lemma attempts_bound mtu rate l : ∀ from until p, paced mtu rate p → 0 < rate → prev p ≤ from → ordered from l until →
  ∃ n p', attempts mtu rate l p = Some (n, p') ∧ 0 ≤ n
  ∧ NANOS_PER_SECOND * n ≤ NANOS_PER_SECOND * tokens p + rate * (until - prev p).
Proof.
  induction l as [| a l IH]; intros from until p Hp Hr Hf Ho; cbn [attempts ordered] in *.
  { eexists _, _. split; [reflexivity |]. pose proof (pa_tokens _ _ _ Hp). unfold NANOS_PER_SECOND. nia. }
  destruct Ho as (Hat & Hlen & Hw & Ho). unfold attempt.
  destruct (delay_paced mtu rate (at_rtt a) (at_len a) (at_window a) (at_time a) p Hp Hr Hw) as (r & p' & E & Hp' & Hn & Hcase). rewrite E.
  pose proof (pa_tokens _ _ _ Hp) as Htok. pose proof (pa_tokens _ _ _ Hp') as Htok'.
  assert (Hphi : prev p' ≤ at_time a ∧ prev p ≤ prev p'
    ∧ NANOS_PER_SECOND * tokens p' ≤ NANOS_PER_SECOND * tokens p + rate * (prev p' - prev p)).
  { destruct Hcase as [(-> & -> & _) | (Et & Ep & _)]; [split_and!; lia |]. rewrite Et, Ep. split_and!; [lia | lia |].
    apply refilled_bound; lia. }
  destruct Hphi as (Hpr & Hpp & Hphi). destruct r as [t |].
  - destruct (IH (at_time a) until p' Hp' Hr Hpr Ho) as (n & p'' & -> & Hn0 & Hb). eexists _, _. split; [reflexivity |]. unfold NANOS_PER_SECOND in *. lia.
  - specialize (Hn eq_refl). set (q := on_transmit (at_len a) p').
    assert (Hq : paced mtu rate q ∧ tokens q = tokens p' - at_len a ∧ prev q = prev p').
    { subst q. unfold on_transmit. simpl. unfold saturating_sub. rewrite Z.max_r by lia. split; [| done].
      destruct Hp' as [A1 A2 A3 A4]. split; simpl; try done; lia. }
    clearbody q. destruct Hq as (Hq & Tq & Pq).
    destruct (IH (at_time a) until q Hq Hr) as (n & p'' & -> & Hn0 & Hb); [lia | done |]. eexists _, _. split; [reflexivity |].
    unfold NANOS_PER_SECOND in *. lia.
Qed.

Lemma new_paced rtt window mtu rate now : 0 ≤ mtu → 0 < rate → paced mtu rate (new rtt window mtu (Some rate) now).
Proof.
  intros Hm Hr. unfold new, positive_rate. rewrite (proj2 (Z.ltb_lt 0 rate)) by done. pose proof (burst_bounds mtu rate Hm).
  split; simpl; try done. change (compute_capacity rtt window mtu (Some rate)) with (burst mtu rate). lia.
Qed.

(** C40: the pacer keeps to its rate.  Over any sequence of attempts to send, at times that do not
    go back, with windows and round trips that may change, the bytes sent from the start to a time
    [until] are at most one burst, of 10 to 256 datagrams, and the rate times the time. *)
Theorem pacer_rate_bound (rtt0 window0 mtu rate t0 until : Z) (l : list Attempt) : 0 ≤ mtu → 0 < rate → ordered t0 l until →
  ∃ n p, attempts mtu rate l (new rtt0 window0 mtu (Some rate) t0) = Some (n, p)
  ∧ NANOS_PER_SECOND * n ≤ NANOS_PER_SECOND * burst mtu rate + rate * (until - t0) ∧ burst mtu rate ≤ 256 * mtu.
Proof.
  intros Hm Hr Ho. destruct (attempts_bound mtu rate l t0 until (new rtt0 window0 mtu (Some rate) t0)) as (n & p & E & _ & Hb);
    [by apply new_paced | done | simpl; lia | done |].
  pose proof (new_paced rtt0 window0 mtu rate t0 Hm Hr) as [Hc _ _ Ht].
  exists n, p. split; [done |]. split; [| by apply burst_bounds]. simpl in Hb, Hc, Ht. unfold NANOS_PER_SECOND in *. lia.
Qed.

Lemma refill_enough cap tok rate : 0 < rate → rate ≤ 1000000000 * (cap - tok) →
  cap - tok - rate / 1000000000 - 1 ≤ rate * ((cap - tok) * 1000000000 / rate) / 1000000000.
Proof.
  intros Hr Hc. set (d := (cap - tok) * 1000000000 / rate). assert (Hd : (cap - tok) * 1000000000 < rate * (d + 1)).
  { subst d. pose proof (Z.mul_succ_div_gt ((cap - tok) * 1000000000) rate Hr). lia. }
  pose proof (Z.mul_succ_div_gt rate 1000000000 ltac:(lia)). apply Z.div_le_lower_bound; [lia |]. lia.
Qed.

(** A delayed packet can be sent when the delay is over.  If the pacer delays a packet of at
    most a datagram until a time [t], that time is not in the past, and an attempt at [t] with the
    same rate succeeds; the rate is at most 8 datagrams per nanosecond. *)
Theorem pacer_delay_suffices (mtu rate rtt rtt' bytes window window' now t : Z) (p p' : Pacer) :
  paced mtu rate p → 0 < rate ≤ 8000000000 * mtu → 1200 ≤ mtu < 2 ^ 16 → 0 ≤ bytes ≤ mtu → window ≠ 0 → window' ≠ 0 →
  delay rtt bytes mtu window (Some rate) now p = Some (Some t, p') →
  now ≤ t ∧ ∃ p'', delay rtt' bytes mtu window' (Some rate) t p' = Some (None, p'').
Proof.
  intros Hp [Hr Hrm] Hm Hb Hw Hw' E. destruct (delay_paced mtu rate rtt bytes window now p Hp Hr Hw) as (r & q & E' & Hq & _ & Hcase).
  rewrite E in E'. injection E' as <- <-. destruct Hcase as [(_ & _ & _ & [=]) | (Et & Eprev & Hlt & Ht)].
  destruct (Ht t eq_refl) as [Hlt' ->]. clear Ht.
  pose proof (burst_bounds mtu rate ltac:(lia)) as Hbu. destruct Hp as [Hc0 _ _ Htk]. pose proof Hq as [Hc1 _ _ Htk1].
  (* the tokens after the first attempt *)
  set (e := saturating_mul 128 rate (saturating_sub now (prev p)) / NANOS_PER_SECOND) in *.
  assert (He : 0 ≤ e) by (subst e; unfold saturating_mul, saturating_sub, u_max; apply Z.div_pos; [nia | done]).
  assert (Htok : tokens p' = tokens p + e).
  { rewrite Et in *. unfold refilled, saturating_add, to_u64_or_max, u_max in *. fold e in Hlt' |- *. lia. }
  set (d := (refill_rate rate (saturating_sub now (prev p)) bytes p).2).
  assert (Hd : d = (capacity p - tokens p') * 1000000000 / rate).
  { subst d. unfold refill_rate. fold e. simpl. unfold to_u64_or_max, saturating_sub, NANOS_PER_SECOND, u_max in *.
    rewrite (Z.min_r (2 ^ 64 - 1) (tokens p + e)) by lia. rewrite <- Htok, (Z.min_l (tokens p')), (Z.max_r bytes), (Z.max_r 0) by lia.
    apply Z.min_r. apply Z.div_le_upper_bound; [lia |]. nia. }
  assert (Hd0 : 0 ≤ d) by (rewrite Hd; apply Z.div_pos; lia). split; [lia |].
  destruct (delay_paced mtu rate rtt' bytes window' (now + d) p' Hq Hr Hw') as (r & p'' & E2 & _ & _ & Hc2). rewrite E2. exists p''. do 2 f_equal.
  destruct Hc2 as [(_ & _ & _ & ->) | (Et2 & _ & _ & Ht2)]; [done |]. destruct r as [t |]; [| done]. exfalso. destruct (Ht2 t eq_refl) as [Hlt2 _].
  rewrite Et2 in Hlt2. unfold refilled, saturating_add, to_u64_or_max, saturating_mul, saturating_sub, NANOS_PER_SECOND, u_max in Hlt2.
  rewrite Eprev in Hlt2. replace (now + d - now) with d in Hlt2 by lia. rewrite (Z.max_r 0 d) in Hlt2 by lia.
  assert (Hbig : rate * d ≤ (capacity p - tokens p') * 1000000000) by (rewrite Hd; apply Z.mul_div_le; lia).
  rewrite (Z.min_r (2 ^ 128 - 1)) in Hlt2 by lia. pose proof (refill_enough (capacity p) (tokens p') rate Hr ltac:(lia)) as Hen. rewrite <- Hd in Hen.
  assert (rate / 1000000000 ≤ 8 * mtu) by (apply Z.div_le_upper_bound; lia). lia.
Qed.

Lemma pacer_rate_bound_witness :
  let l := [mk_attempt 0 12000 100000 50; mk_attempt 1000000 1200 100000 50; mk_attempt 2000000 1200 90000 60] in
  ∃ n p, attempts 1200 1000000 l (new 50 100000 1200 (Some 1000000) 0) = Some (n, p)
  ∧ NANOS_PER_SECOND * n ≤ NANOS_PER_SECOND * burst 1200 1000000 + 1000000 * (2000000 - 0).
Proof.
  intros l. destruct (pacer_rate_bound 50 100000 1200 1000000 0 2000000 l) as (n & p & E & Hb & _);
    [lia | lia | subst l; simpl; lia |]. exists n, p. by split.
Defined.

Lemma pacer_delay_suffices_witness :
  ∃ t p', delay 50 1200 1200 100000 (Some 1000000) 7 (on_transmit 12000 (new 50 100000 1200 (Some 1000000) 0)) = Some (Some t, p')
  ∧ 7 ≤ t ∧ ∃ p'', delay 50 1200 1200 90000 (Some 1000000) t p' = Some (None, p'').
Proof.
  set (p := on_transmit 12000 (new 50 100000 1200 (Some 1000000) 0)).
  destruct (delay 50 1200 1200 100000 (Some 1000000) 7 p) as [[[t |] p'] |] eqn:E; [| vm_compute in E; discriminate E..].
  exists t, p'. split; [reflexivity |].
  apply (pacer_delay_suffices 1200 1000000 50 50 1200 100000 90000 7 t p p'); try lia; [| exact E].
  split; [reflexivity.. | vm_compute; split; discriminate].
Defined.

End PacerProofs.
