(* ===== verification/Recovery.v ===== *)
(** * Loss recovery

    Models the part of [src/connection/mod.rs] that decides the fate of packets: the tracking of
    packets sent ([PacketBuilder::finish_and_track]), acknowledgements, the detection of lost
    packets, probe timeouts, discarded packet number spaces, and the timer they share.  It
    composes the packet number spaces ([Spaces]), the path with its round-trip estimate, congestion
    controller and MTU discovery ([Paths]), the acknowledgement frequency and the datagram queue.

    What a packet carries is abstract: the class [Delivery] says what the connection does when
    frames are acknowledged or lost.  Statistics are left out.  [None] is a panic: a failed
    [unwrap] or [expect], an assertion of a debug build, or an overflow. *)

From Stdlib Require Import String SpecFloat.
From stdpp Require Import list.
From S2P Require Import Prelude BTree RangeSets Coding QuicPacket Spaces AckFrame AckFrequency StreamRecv NatFrames.
From S2P Require Import Datagrams Floats Mtud Congestion Paths.

Module Recovery.
Import PacketSpace PathData.

(** ** Interfaces *)

(** What the connection does with the content of packets: [R] is what would be retransmitted,
    [SF] a stream frame, [S] the streams. *)
Class Delivery (R SF S : Type) := {
  reset_streams : R → list Z;
  reset_acked : Z → S → option S;
  received_ack_of : SF → S → option S;
  retransmit : SF → S → S;
  merge_pending : R → R → R;
}.

(** ** State *)

Inductive ConnState := Handshake | Established | Closed | Draining | Drained.

Definition is_closed (s : ConnState) : bool := match s with Closed | Draining | Drained => true | _ => false end.
Definition is_handshake (s : ConnState) : bool := match s with Handshake => true | _ => false end.
Definition is_established (s : ConnState) : bool := match s with Established => true | _ => false end.

#[global] Instance space_id_eq_dec : EqDecision QuicPacket.SpaceId.
Proof. solve_decision. Defined.

Definition space_index (id : QuicPacket.SpaceId) : Z :=
  match id with QuicPacket.SpaceInitial => 0 | QuicPacket.SpaceHandshake => 1 | QuicPacket.SpaceData => 2 end.

(** The derived order of pairs of a space and a number. *)
Definition pair_lt (a b : QuicPacket.SpaceId * Z) : bool :=
  (space_index a.1 <? space_index b.1) || ((space_index a.1 =? space_index b.1) && (a.2 <? b.2)).

(** What loss detection takes from the configuration. *)
Record RecoveryConfig := mk_rconfig {
  time_threshold : spec_float;
  packet_threshold : Z;
  persistent_congestion_threshold : Z;
  keep_alive_interval : option Z;
}.

Section recovery.
Context {C R SF S : Type} `{Controller C} `{Delivery R SF S}.

(** A packet number space: [ps] holds the fields of [Spaces], the rest is used here. *)
Record Space := mk_space {
  ps : PacketSpace R (list SF);
  largest_acked_packet : option Z;
  largest_acked_packet_sent : Z;
  time_of_last_ack_eliciting_packet : option Z;
  loss_time : option Z;
  loss_probes : Z;
  has_crypto : bool;
  pending_acks : PendingAcks.PendingAcks;
  pending : R;
}.

#[global] Instance space_settable : Settable Space := λ s,
  mk_space (ps s) (largest_acked_packet s) (largest_acked_packet_sent s) (time_of_last_ack_eliciting_packet s) (loss_time s)
    (loss_probes s) (has_crypto s) (pending_acks s) (pending s).

(** The timers that recovery sets. *)
Record Timers := mk_timers { t_loss_detection : option Z; t_idle : option Z; t_keep_alive : option Z; t_path_validation : option Z }.

#[global] Instance timers_settable : Settable Timers := λ t,
  mk_timers (t_loss_detection t) (t_idle t) (t_keep_alive t) (t_path_validation t).

Record Conn := mk_conn {
  side : Side;
  state : ConnState;
  initial : Space;
  handshake : Space;
  data : Space;
  path : PathData (C := C);
  prev_path : option (PathData (C := C));
  ack_frequency : AckFrequency.AckFrequencyState;
  packet_number_filter : PacketNumberFilter.PacketNumberFilter;
  pto_count : Z;
  app_limited : bool;
  highest_space : QuicPacket.SpaceId;
  next_sample_pn : Z;
  timers : Timers;
  config : RecoveryConfig;
  idle_timeout : option Z;
  permit_idle_reset : bool;
  ack_delay_exponent : Z;
  datagrams : Datagrams.DatagramState;
  overhead : Z;
  max_datagram_frame_size : option Z;
  streams : S;
}.

#[global] Instance conn_settable : Settable Conn := λ c,
  mk_conn (side c) (state c) (initial c) (handshake c) (data c) (path c) (prev_path c) (ack_frequency c) (packet_number_filter c)
    (pto_count c) (app_limited c) (highest_space c) (next_sample_pn c) (timers c) (config c) (idle_timeout c) (permit_idle_reset c)
    (ack_delay_exponent c) (datagrams c) (overhead c) (max_datagram_frame_size c) (streams c).

(** [self.spaces[id]]. *)
Definition space (id : QuicPacket.SpaceId) (c : Conn) : Space :=
  match id with QuicPacket.SpaceInitial => initial c | QuicPacket.SpaceHandshake => handshake c | QuicPacket.SpaceData => data c end.

Definition set_space (id : QuicPacket.SpaceId) (s : Space) (c : Conn) : Conn :=
  match id with
  | QuicPacket.SpaceInitial => c <| initial := s |>
  | QuicPacket.SpaceHandshake => c <| handshake := s |>
  | QuicPacket.SpaceData => c <| data := s |>
  end.

Definition space_ids : list QuicPacket.SpaceId := [QuicPacket.SpaceInitial; QuicPacket.SpaceHandshake; QuicPacket.SpaceData].

(** ** Timers *)

Definition MAX_BACKOFF_EXPONENT : Z := 16.

Definition pto (id : QuicPacket.SpaceId) (c : Conn) : Z :=
  RttEstimator.pto_base (rtt (path c))
  + match id with QuicPacket.SpaceData => AckFrequency.max_ack_delay_for_pto (ack_frequency c) | _ => 0 end.

(** [min_by_key]: the first of the earliest. *)
Definition loss_time_and_space (c : Conn) : option (Z * QuicPacket.SpaceId) :=
  fold_left (λ acc id,
    match loss_time (space id c) with
    | None => acc
    | Some t => match acc with Some (t', _) => if t <? t' then Some (t, id) else acc | None => Some (t, id) end
    end) space_ids None.

Definition peer_completed_address_validation (c : Conn) : bool :=
  match side c with Server => true | Client => false end || is_closed (state c)
  || bool_decide (is_Some (largest_acked_packet (handshake c))) || bool_decide (is_Some (largest_acked_packet (data c)))
  || (has_crypto (data c) && negb (has_crypto (handshake c))).

(** The loop of [pto_time_and_space]. *)
Fixpoint pto_loop (ids : list QuicPacket.SpaceId) (backoff duration : Z) (result : option (Z * QuicPacket.SpaceId)) (c : Conn)
  : option (Z * QuicPacket.SpaceId) :=
  match ids with
  | [] => result
  | id :: ids =>
    if PacketSpace.in_flight (ps (space id c)) =? 0 then pto_loop ids backoff duration result c
    else
      let continue duration :=
        match time_of_last_ack_eliciting_packet (space id c) with
        | None => pto_loop ids backoff duration result c
        | Some time =>
          let pto := time + duration in
          pto_loop ids backoff duration
            (match result with Some (earliest, _) => if pto <? earliest then Some (pto, id) else result | None => Some (pto, id) end) c
        end in
      match id with
      | QuicPacket.SpaceData =>
        if is_handshake (state c) then result
        else continue (duration + AckFrequency.max_ack_delay_for_pto (ack_frequency c) * backoff)
      | _ => continue duration
      end
  end.

Definition pto_time_and_space (now : Z) (c : Conn) : option (option (Z * QuicPacket.SpaceId)) :=
  let backoff := 2 ^ Z.min (pto_count c) MAX_BACKOFF_EXPONENT in
  let duration := RttEstimator.pto_base (rtt (path c)) * backoff in
  if in_flight_ack_eliciting (in_flight (path c)) =? 0 then
    if peer_completed_address_validation c then None
    else
      let id := match highest_space c with QuicPacket.SpaceHandshake => QuicPacket.SpaceHandshake | _ => QuicPacket.SpaceInitial end in
      Some (Some (now + duration, id))
  else Some (pto_loop space_ids backoff duration None c).

Definition set_loss_timer (t : option Z) (c : Conn) : Conn := c <| timers := (timers c) <| t_loss_detection := t |> |>.

Definition set_loss_detection_timer (now : Z) (c : Conn) : option Conn :=
  if is_closed (state c) then Some c
  else
    match loss_time_and_space c with
    | Some (loss_time, _) => Some (set_loss_timer (Some loss_time) c)
    | None =>
      if anti_amplification_blocked 1 (path c) then Some (set_loss_timer None c)
      else if (in_flight_ack_eliciting (in_flight (path c)) =? 0) && peer_completed_address_validation c then Some (set_loss_timer None c)
      else
        match pto_time_and_space now c with
        | None => None
        | Some (Some (timeout, _)) => Some (set_loss_timer (Some timeout) c)
        | Some None => Some (set_loss_timer None c)
        end
    end.

Definition reset_idle_timeout (now : Z) (id : QuicPacket.SpaceId) (c : Conn) : Conn :=
  match idle_timeout c with
  | None => c
  | Some timeout =>
    if is_closed (state c) then c <| timers := (timers c) <| t_idle := None |> |>
    else c <| timers := (timers c) <| t_idle := Some (now + Z.max timeout (3 * pto id c)) |> |>
  end.

Definition reset_keep_alive (now : Z) (c : Conn) : Conn :=
  match keep_alive_interval (config c) with
  | Some interval => if is_established (state c) then c <| timers := (timers c) <| t_keep_alive := Some (now + interval) |> |> else c
  | None => c
  end.

(** ** Packets in flight *)

Definition mk_ps_ecn (s : PacketSpace R (list SF)) (ecn : EcnCounts) : PacketSpace R (list SF) :=
  PacketSpace.mk_space (next_packet_number s) (largest_ack_eliciting_sent s) (unacked_non_ack_eliciting_tail s)
    (sent_packets s) ecn (PacketSpace.in_flight s) (sent_with_keys s).

(** The space with no packets in flight. *)
Definition mk_ps_discarded (s : PacketSpace R (list SF)) : PacketSpace R (list SF) :=
  PacketSpace.mk_space (next_packet_number s) (largest_ack_eliciting_sent s) (unacked_non_ack_eliciting_tail s)
    [] (ecn_feedback s) 0 (sent_with_keys s).

(** The path a packet was sent on is the newest that had begun by then. *)
Definition remove_in_flight (pn : Z) (packet : SentPacket R (list SF)) (c : Conn) : Conn :=
  match PathData.remove_in_flight pn packet (path c) with
  | (true, p) => c <| path := p |>
  | (false, _) =>
    match prev_path c with
    | Some prev => c <| prev_path := Some (PathData.remove_in_flight pn packet prev).2 |>
    | None => c
    end
  end.

(** [self.spaces[id].take(packet)]. *)
Definition take (id : QuicPacket.SpaceId) (pn : Z) (c : Conn) : option (SentPacket R (list SF)) * Conn :=
  let '(info, s) := PacketSpace.take pn (ps (space id c)) in
  (info, set_space id ((space id c) <| ps := s |>) c).

Definition on_congestion (f : C → C) (c : Conn) : Conn := c <| path := (path c) <| congestion := f (congestion (path c)) |> |>.

(** [finish_and_track], from the size of the packet on; [now] is the time, [size] the size that
    counts for congestion control. *)
Definition track (now : Z) (id : QuicPacket.SpaceId) (pn : Z) (packet : SentPacket R (list SF)) (c : Conn) : option Conn :=
  match PathData.sent pn packet (ps (space id c)) (path c) with
  | None => None
  | Some (p, s) =>
    let c := set_space id ((space id c) <| ps := s |>) (c <| path := p |>) in
    let c :=
      if negb (size packet =? 0) then
        let c := on_congestion (on_sent now (size packet) (sample_pn packet) (ack_eliciting packet)) c in
        c <| path := (path c) <| pacing := Pacer.on_transmit (size packet) (pacing (path c)) |> |>
      else c in
    let c := reset_keep_alive now c in
    if negb (size packet =? 0) then
      let c :=
        if ack_eliciting packet then
          let c := set_space id ((space id c) <| time_of_last_ack_eliciting_packet := Some now |>) c in
          let c := if permit_idle_reset c then reset_idle_timeout now id c else c in
          c <| permit_idle_reset := false |>
        else c in
      set_loss_detection_timer now c
    else Some c
  end.

(** ** Acknowledged packets *)

Definition ack_frame (f : SF) (c : Conn) : option Conn := s ← received_ack_of f (streams c); Some (c <| streams := s |>).
Definition ack_reset (id : Z) (c : Conn) : option Conn := s ← reset_acked id (streams c); Some (c <| streams := s |>).

Fixpoint each {A} (f : A → Conn → option Conn) (l : list A) (c : Conn) : option Conn :=
  match l with [] => Some c | x :: l => match f x c with Some c => each f l c | None => None end end.

Definition on_packet_acked (now pn : Z) (info : SentPacket R (list SF)) (c : Conn) : option Conn :=
  let c := remove_in_flight pn info c in
  let c :=
    if ack_eliciting info then
      match challenge (path c) with
      | None => on_congestion (on_ack now (time_sent info) (size info) (app_limited c) (rtt (path c)) (sample_pn info)) c
      | Some _ => on_congestion (on_packet_neutered (sample_pn info)) c
      end
    else c in
  match each ack_reset (reset_streams (retransmits info)) c with
  | None => None
  | Some c => each ack_frame (stream_frames info) c
  end.

(** The body of the loop over the packets newly acknowledged. *)
Definition ack_packet (now : Z) (id : QuicPacket.SpaceId) (pn : Z) (c : Conn) : option Conn :=
  match take id pn c with
  | (None, c) => Some c
  | (Some info, c) =>
    let c :=
      match sp_largest_acked info with
      | Some acked => set_space id ((space id c) <| pending_acks := PendingAcks.subtract_below acked (pending_acks (space id c)) |>) c
      | None => c
      end in
    let '(mtu_updated, m) := MtuDiscovery.on_acked id pn (size info) (mtud (path c)) in
    let c := c <| path := (path c) <| mtud := m |> |> in
    let c := if mtu_updated : bool then on_congestion (on_mtu_update (MtuDiscovery.current_mtu m)) c else c in
    let c := c <| ack_frequency := AckFrequency.on_acked pn (ack_frequency c) |> in
    on_packet_acked now pn info c
  end.

(** [sent_packets.range(lo..=hi)]; [None]: the panic on a reversed range. *)
Definition range_keys (lo hi : Z) (m : list (Z * SentPacket R (list SF))) : option (list Z) :=
  if hi <? lo then None else Some (filter (λ k, lo ≤ k ≤ hi) m.*1).

(** The packets of the ranges that are still in flight, as the set the code collects. *)
Fixpoint newly_acked (id : QuicPacket.SpaceId) (ranges : list (Z * Z)) (acc : list range) (c : Conn) : option (result (list range) string) :=
  match ranges with
  | [] => Some (Ok acc)
  | r :: ranges =>
    match PacketNumberFilter.check_ack id r (packet_number_filter c) with
    | Err e => Some (Err e)
    | Ok _ =>
      match range_keys r.1 r.2 (sent_packets (ps (space id c))) with
      | None => None
      | Some keys => newly_acked id ranges (fold_left (λ acc k, (ArrayRangeSet.insert_one k acc).2) keys acc) c
      end
    end
  end.

(** The numbers of a set, in order. *)
Definition elements (l : list range) : list Z := concat ((λ r, seqZ r.1 (r.2 - r.1)) <$> l).

(** ** Lost packets *)

(** What the loop over the packets sent before the largest acknowledged one has found. *)
Record Scan := mk_scan {
  lost_packets : list Z;
  lost_mtu_probe : option Z;
  size_of_lost_packets : Z;
  persistent_congestion_start : option Z;
  prev_packet : option Z;
  in_persistent_congestion : bool;
  sc_loss_time : option Z;
}.

#[global] Instance scan_settable : Settable Scan := λ s,
  mk_scan (lost_packets s) (lost_mtu_probe s) (size_of_lost_packets s) (persistent_congestion_start s) (prev_packet s)
    (in_persistent_congestion s) (sc_loss_time s).

(** One round of the loop. *)
Definition scan_packet (id : QuicPacket.SpaceId) (lost_send_time loss_delay congestion_period largest_acked threshold : Z)
    (in_flight_mtu_probe : option Z) (first_sample : option (QuicPacket.SpaceId * Z)) (due_to_ack : bool)
    (s : Scan) (e : Z * SentPacket R (list SF)) : Scan :=
  let '(packet, info) := e in
  let s := if bool_decide (prev_packet s = Some (wrapping_sub 64 packet 1)) then s else s <| persistent_congestion_start := None |> in
  let s :=
    if (time_sent info <=? lost_send_time) || (packet + threshold <=? largest_acked) then
      if bool_decide (Some packet = in_flight_mtu_probe) then s <| lost_mtu_probe := in_flight_mtu_probe |>
      else
        let s := s <| lost_packets := lost_packets s ++ [packet] |> <| size_of_lost_packets := size_of_lost_packets s + size info |> in
        if ack_eliciting info && due_to_ack then
          match persistent_congestion_start s with
          | Some start => if congestion_period <? saturating_sub (time_sent info) start then s <| in_persistent_congestion := true |> else s
          | None =>
            match first_sample with
            | Some x => if pair_lt x (id, packet) then s <| persistent_congestion_start := Some (time_sent info) |> else s
            | None => s
            end
          end
        else s
    else
      let next_loss_time := time_sent info + loss_delay in
      s <| sc_loss_time := Some (match sc_loss_time s with Some x => Z.min x next_loss_time | None => next_loss_time end) |>
        <| persistent_congestion_start := None |> in
  s <| prev_packet := Some packet |>.

(** A packet that is lost. *)
Definition lose_packet (now : Z) (id : QuicPacket.SpaceId) (pn : Z) (c : Conn) : option Conn :=
  match take id pn c with
  | (None, _) => None
  | (Some info, c) =>
    let c := if ack_eliciting info then on_congestion (on_packet_lost now (sample_pn info) (size info)) c else c in
    let c := remove_in_flight pn info c in
    let c := c <| streams := fold_left (λ s f, retransmit f s) (stream_frames info) (streams c) |> in
    let c := set_space id ((space id c) <| pending := merge_pending (pending (space id c)) (retransmits info) |>) c in
    match MtuDiscovery.on_non_probe_lost pn (size info) (mtud (path c)) with
    | None => None
    | Some m => Some (c <| path := (path c) <| mtud := m |> |>)
    end
  end.

(** The check for a black hole after the losses. *)
Definition check_black_hole (now : Z) (c : Conn) : option Conn :=
  let '(detected, m) := MtuDiscovery.black_hole_detected now (mtud (path c)) in
  let c := c <| path := (path c) <| mtud := m |> |> in
  if detected : bool then
    let c := on_congestion (on_mtu_update (MtuDiscovery.current_mtu m)) c in
    match Datagrams.max_size (PathData.current_mtu (path c)) (overhead c) (max_datagram_frame_size c) with
    | None => None
    | Some (Some n) => Some (c <| datagrams := Datagrams.drop_oversized n (datagrams c) |>)
    | Some None => Some c
    end
  else Some c.

(** A probe that is lost. *)
Definition lose_probe (pn : Z) (c : Conn) : option Conn :=
  match take QuicPacket.SpaceData pn c with
  | (None, _) => None
  | (Some info, c) =>
    let c := on_congestion (on_packet_abandoned (sample_pn info) (size info)) c in
    let c := remove_in_flight pn info c in
    Some (c <| path := (path c) <| mtud := MtuDiscovery.on_probe_lost (mtud (path c)) |> |>)
  end.

(** The delay after which a packet sent before an acknowledged one is lost; [None]: the duration
    times the threshold is out of range. *)
Definition loss_delay (c : Conn) : option Z :=
  match Floats.mul_duration 24 128 (RttEstimator.conservative (rtt (path c))) (time_threshold (config c)) with
  | Some d => Some (Z.max d AckFrequency.TIMER_GRANULARITY)
  | None => None
  end.

(** The loop of [detect_lost_packets]. *)
Definition scan (now : Z) (id : QuicPacket.SpaceId) (due_to_ack : bool) (delay largest_acked : Z) (c : Conn) : Scan :=
  fold_left
    (scan_packet id (now - delay) delay (pto QuicPacket.SpaceData c * persistent_congestion_threshold (config c)) largest_acked
       (packet_threshold (config c)) (MtuDiscovery.in_flight_mtu_probe (mtud (path c))) (first_packet_after_rtt_sample (path c)) due_to_ack)
    (filter (λ e, e.1 < largest_acked) (sent_packets (ps (space id c))))
    (mk_scan [] None 0 None None false None).

(** [OnPacketsLost]: the packets in [lost], of which [largest_lost] is the last. *)
Definition on_packets_lost (now : Z) (id : QuicPacket.SpaceId) (largest_lost : Z) (found : Scan) (c : Conn) : option Conn :=
  let old_bytes_in_flight := bytes (in_flight (path c)) in
  match bt_get largest_lost (sent_packets (ps (space id c))) with
  | None => None
  | Some info =>
    match each (lose_packet now id) (lost_packets found) c with
    | None => None
    | Some c =>
      match check_black_hole now c with
      | None => None
      | Some c =>
        if negb (old_bytes_in_flight =? bytes (in_flight (path c)))
        then Some (on_congestion (on_congestion_event now (time_sent info) (in_persistent_congestion found) (size_of_lost_packets found)) c)
        else Some c
      end
    end
  end.

Definition detect_lost_packets (now : Z) (id : QuicPacket.SpaceId) (due_to_ack : bool) (c : Conn) : option Conn :=
  match loss_delay c, largest_acked_packet (space id c) with
  | Some delay, Some largest_acked =>
    let found := scan now id due_to_ack delay largest_acked c in
    let c := set_space id ((space id c) <| loss_time := sc_loss_time found |>) c in
    match (match last (lost_packets found) with Some largest_lost => on_packets_lost now id largest_lost found c | None => Some c end) with
    | None => None
    | Some c => match lost_mtu_probe found with Some pn => lose_probe pn c | None => Some c end
    end
  | _, _ => None
  end.

(** ** Acknowledgements *)

Definition process_ecn (now : Z) (id : QuicPacket.SpaceId) (newly_acked : Z) (ecn : EcnCounts) (largest_sent_time : Z) (c : Conn) : Conn :=
  let '(r, s) := detect_ecn newly_acked ecn (ps (space id c)) in
  let c := set_space id ((space id c) <| ps := s |>) c in
  match r with
  | Err _ =>
    let c := c <| path := (path c) <| sending_ecn := false |> |> in
    set_space id ((space id c) <| ps := mk_ps_ecn (ps (space id c)) (mk_ecn 0 0 0) |>) c
  | Ok false => c
  | Ok true => on_congestion (on_congestion_event now largest_sent_time false 0) c
  end.

Definition least_unacked_sample_pn (c : Conn) : Z :=
  match foldr (λ id acc,
    match head (sent_packets (ps (space id c))) with
    | Some (_, p) => Some (match acc with Some x => Z.min (sample_pn p) x | None => sample_pn p end)
    | None => acc
    end) None space_ids with
  | Some x => x
  | None => next_sample_pn c
  end.

(** The new largest acknowledged packet, if it is one. *)
Definition update_largest (id : QuicPacket.SpaceId) (largest : Z) (c : Conn) : bool * Conn :=
  let s := space id c in
  if (match largest_acked_packet s with Some pn => pn <? largest | None => true end) then
    let s := s <| largest_acked_packet := Some largest |> in
    let s := match bt_get largest (sent_packets (ps s)) with
             | Some info => s <| largest_acked_packet_sent := time_sent info |>
             | None => s
             end in
    (true, set_space id s c)
  else (false, c).

(** The round-trip sample of an acknowledgement; [None]: the peer's exponent is too large for
    the shift. *)
Definition sample_rtt (now : Z) (id : QuicPacket.SpaceId) (delay : Z) (c : Conn) : option Conn :=
  match (match id with
         | QuicPacket.SpaceData =>
           if 64 <=? ack_delay_exponent c then None
           else Some (Z.min (AckFrequency.peer_max_ack_delay (ack_frequency c))
                            (AckFrequency.from_micros (wrap 64 (Z.shiftl delay (ack_delay_exponent c)))))
         | _ => Some 0
         end) with
  | None => None
  | Some ack_delay =>
    let sample := saturating_sub now (largest_acked_packet_sent (space id c)) in
    let c := c <| path := (path c) <| rtt := RttEstimator.update ack_delay sample (rtt (path c)) |> |> in
    Some match first_packet_after_rtt_sample (path c) with
         | None => c <| path := (path c) <| first_packet_after_rtt_sample := Some (id, next_packet_number (ps (space id c))) |> |>
         | Some _ => c
         end
  end.

(** The feedback on ECN in the acknowledgement. *)
Definition ecn_feedback_step (now : Z) (id : QuicPacket.SpaceId) (ack : AckFrame.Ack) (new_largest : bool) (acked : list range) (c : Conn) : Conn :=
  if sending_ecn (path c) then
    match AckFrame.ecn ack with
    | Some ecn => if new_largest then process_ecn now id (zlen acked) ecn (largest_acked_packet_sent (space id c)) c else c
    | None => c <| path := (path c) <| sending_ecn := false |> |>
    end
  else c.

Definition any_eliciting (id : QuicPacket.SpaceId) (pns : list Z) (c : Conn) : bool :=
  existsb (λ pn, match bt_get pn (sent_packets (ps (space id c))) with Some info => ack_eliciting info | None => false end) pns.

(** The packets acknowledged are taken out, and the largest of them gives a round-trip sample. *)
Definition process_acked (now : Z) (id : QuicPacket.SpaceId) (ack : AckFrame.Ack) (new_largest : bool) (acked : list range) (c : Conn) : option Conn :=
  let ack_eliciting_acked := any_eliciting id (elements acked) c in
  match each (ack_packet now id) (elements acked) c with
  | None => None
  | Some c => if new_largest && ack_eliciting_acked then sample_rtt now id (AckFrame.delay ack) c else Some c
  end.

(** What follows the detection of losses. *)
Definition finish_ack (now : Z) (id : QuicPacket.SpaceId) (ack : AckFrame.Ack) (new_largest : bool) (acked : list range) (c : Conn) : option Conn :=
  let c := on_congestion (on_end_acks now (bytes (in_flight (path c))) (app_limited c) (largest_acked_packet (space id c))) c in
  let c := on_congestion (on_least_unacked (least_unacked_sample_pn c)) c in
  let c := if peer_completed_address_validation c then c <| pto_count := 0 |> else c in
  let c := ecn_feedback_step now id ack new_largest acked c in
  set_loss_detection_timer now c.

Definition on_ack_received (now : Z) (id : QuicPacket.SpaceId) (ack : AckFrame.Ack) (c : Conn) : option (result unit string * Conn) :=
  if next_packet_number (ps (space id c)) <=? AckFrame.largest ack then Some (Err "unsent packet acked"%string, c)
  else
    let '(new_largest, c) := update_largest id (AckFrame.largest ack) c in
    match newly_acked id (AckFrame.ack_iter ack) ArrayRangeSet.new c with
    | None => None
    | Some (Err e) => Some (Err e, c)
    | Some (Ok []) => Some (Ok tt, c)
    | Some (Ok acked) =>
      match process_acked now id ack new_largest acked c with
      | None => None
      | Some c =>
        match detect_lost_packets now id true c with
        | None => None
        | Some c => match finish_ack now id ack new_largest acked c with None => None | Some c => Some (Ok tt, c) end
        end
      end
    end.

(** ** Timeouts and discarded spaces *)

Definition on_loss_detection_timeout (now : Z) (c : Conn) : option Conn :=
  match loss_time_and_space c with
  | Some (_, id) =>
    match detect_lost_packets now id false c with None => None | Some c => set_loss_detection_timer now c end
  | None =>
    match pto_time_and_space now c with
    | None => None
    | Some None => Some c
    | Some (Some (_, id)) =>
      match (if in_flight_ack_eliciting (in_flight (path c)) =? 0
             then if peer_completed_address_validation c then None else Some 1
             else Some 2) with
      | None => None
      | Some count =>
        let c := set_space id ((space id c) <| loss_probes := saturating_add 32 (loss_probes (space id c)) count |>) c in
        set_loss_detection_timer now (c <| pto_count := saturating_add 32 (pto_count c) 1 |>)
      end
    end
  end.

(** A packet of a discarded space. *)
Definition abandon_packet (e : Z * SentPacket R (list SF)) (c : Conn) : Conn :=
  remove_in_flight e.1 e.2 (on_congestion (on_packet_abandoned (sample_pn e.2) (size e.2)) c).

Definition discard_space (now : Z) (id : QuicPacket.SpaceId) (c : Conn) : option Conn :=
  match id with
  | QuicPacket.SpaceData => None
  | _ =>
    let packets := sent_packets (ps (space id c)) in
    let s := (space id c) <| has_crypto := false |> <| time_of_last_ack_eliciting_packet := None |> <| loss_time := None |>
               <| ps := mk_ps_discarded (ps (space id c)) |> in
    let c := fold_left (λ c e, abandon_packet e c) packets (set_space id s c) in
    set_loss_detection_timer now c
  end.

(** ** Events *)

Definition allocate_sample_pn (c : Conn) : Z * Conn := (next_sample_pn c, c <| next_sample_pn := next_sample_pn c + 1 |>).

(** The number of a new packet ([PacketBuilder::new]); [draw] is what the generator draws, if it
    is asked. *)
Definition allocate_number (id : QuicPacket.SpaceId) (draw : Z) (c : Conn) : option (Z * Conn) :=
  match id with
  | QuicPacket.SpaceData =>
    match PacketNumberFilter.allocate draw (packet_number_filter c) (ps (data c)) with
    | None => None
    | Some (pn, f, s) => Some (pn, c <| data := (data c) <| ps := s |> |> <| packet_number_filter := f |>)
    end
  | _ =>
    match get_tx_number (ps (space id c)) with
    | None => None
    | Some (pn, s) => Some (pn, set_space id ((space id c) <| ps := s |>) c)
    end
  end.

(** A packet, from [PacketBuilder::new] to [finish_and_track]: [size] bytes long, [padded] or
    not, with what [retransmits] and [frames] say. *)
Definition send_packet (now : Z) (id : QuicPacket.SpaceId) (draw size : Z) (padded ack_eliciting : bool) (largest_acked : option Z)
    (retransmits : R) (frames : list SF) (c : Conn) : option Conn :=
  let '(sample, c) := allocate_sample_pn c in
  match allocate_number id draw c with
  | None => None
  | Some (pn, c) =>
    let size := if padded || ack_eliciting then wrap 16 size else 0 in
    track now id pn (mk_sent_packet now sample size ack_eliciting largest_acked retransmits frames) c
  end.

(** The MTU probe at the end of [poll_transmit]; [empty]: what a packet without frames carries. *)
Definition send_mtu_probe (now draw : Z) (empty : R) (c : Conn) : option Conn :=
  if is_established (state c) then
    match MtuDiscovery.poll_transmit now (PacketNumberFilter.peek (packet_number_filter c) (ps (data c))) (mtud (path c)) with
    | None => None
    | Some (None, m) => Some (c <| path := (path c) <| mtud := m |> |>)
    | Some (Some probe_size, m) =>
      send_packet now QuicPacket.SpaceData draw probe_size true true None empty [] (c <| path := (path c) <| mtud := m |> |>)
    end
  else Some c.

(** [upgrade_crypto]: the keys of a space are there; [None]: they were, or those of a later one. *)
Definition upgrade_crypto (id : QuicPacket.SpaceId) (c : Conn) : option Conn :=
  if has_crypto (space id c) then None
  else if space_index id <=? space_index (highest_space c) then None
  else Some ((set_space id ((space id c) <| has_crypto := true |>) c) <| highest_space := id |>).

Definition account_udp_transmit (bytes : Z) (c : Conn) : Conn :=
  c <| path := (path c) <| total_sent := saturating_add 64 (total_sent (path c)) bytes |> |>.

(** [on_path_validated], apart from the tokens. *)
Definition on_path_validated (c : Conn) : Conn := c <| path := (path c) <| validated := true |> |>.

(** An error closes the connection ([handle_packet]) and stops its timers ([close_common]); the
    timer that ends the closing period is not modelled. *)
Definition close_common (c : Conn) : Conn := c <| timers := mk_timers None None None None |>.
Definition close_with_error (c : Conn) : Conn := if is_closed (state c) then c else close_common (c <| state := Closed |>).

(** ** A new connection *)

Definition new_space (now : Z) (crypto : bool) (empty : R) : Space :=
  mk_space PacketSpace.new None now None None 0 crypto PendingAcks.new empty.

(** [Connection::new]; [draw] is what the generator draws for the filter, [max_ack_delay] the
    default of the transport parameters, [overhead] what a packet adds to its frames. *)
Definition new (side : Side) (remote : NatFrames.SocketAddr) (allow_mtud path_validated : bool) (now draw : Z) (path_config : PathData.Config (C := C))
    (config : RecoveryConfig) (max_idle_timeout : option Z) (max_ack_delay overhead : Z) (empty : R) (streams : S) : option Conn :=
  match PathData.new remote allow_mtud None now path_config with
  | None => None
  | Some path =>
    let c := mk_conn side Handshake (new_space now true empty) (new_space now false empty) (new_space now false empty) path None
      (AckFrequency.new max_ack_delay) (PacketNumberFilter.filter_new draw) 0 false QuicPacket.SpaceInitial 0 (mk_timers None None None None) config
      (match max_idle_timeout with None | Some 0 => None | Some ms => Some (ms * 1000000) end) true 3 Datagrams.new overhead None streams in
    Some (if path_validated then on_path_validated c else c)
  end.

(** [handle_timeout], for the loss detection timer. *)
Definition handle_loss_timeout (now : Z) (c : Conn) : option Conn :=
  match t_loss_detection (timers c) with
  | Some t => if t <=? now then on_loss_detection_timeout now (set_loss_timer None c) else Some c
  | None => Some c
  end.

End recovery.
End Recovery.
