(* ===== verification/RecoveryProofs.v ===== *)
(** * Loss recovery: what holds in all states

    Invariants of [Recovery]: the counters of the path are those of the packets tracked, every
    frame in flight is known to the streams, and the loss detection timer is armed whenever
    something is in flight that only a timeout could recover. *)

From Stdlib Require Import String SpecFloat.
From stdpp Require Import list sets.
From S2P Require Import Prelude BTree RangeSets Coding QuicPacket Spaces AckFrame AckFrequency StreamRecv NatFrames.
From S2P Require Import Datagrams Floats Mtud Congestion Paths Recovery.

Module RecoveryProofs.
Import PacketSpace PathData Recovery.

(** ** Ordered maps *)

Lemma bt_ordered_filter {V} (P : Z * V → Prop) `{!∀ e, Decision (P e)} (m : list (Z * V)) : ∀ lo, bt_ordered lo m → bt_ordered lo (filter P m).
Proof.
  induction m as [| [k v] m IH]; intros lo Hm; [done |]. destruct Hm as [Hlo Hm]. rewrite filter_cons. destruct (decide (P (k, v))).
  - split; [done | by apply IH].
  - apply IH. eapply bt_ordered_weaken; [| done]. lia.
Qed.

Lemma bt_get_elem {V} k (v : V) m lo : bt_ordered lo m → (k, v) ∈ m → bt_get k m = Some v.
Proof.
  revert lo. induction m as [| [j w] m IH]; intros lo Hm Hin; [by apply elem_of_nil in Hin |]. destruct Hm as [Hlo Hm].
  apply elem_of_cons in Hin as [[= -> ->] | Hin]; simpl; [by rewrite Z.eqb_refl |].
  apply bt_ordered_keys_gt in Hm as Hk. unfold keys_gt in Hk. rewrite Forall_forall in Hk. specialize (Hk _ Hin). simpl in Hk.
  rewrite (proj2 (Z.eqb_neq _ _)) by lia. by eapply IH.
Qed.

Lemma ordered_nodup {V} (m : list (Z * V)) lo : bt_ordered lo m → NoDup m.*1.
Proof.
  revert lo. induction m as [| [k v] m IH]; intros lo Hm; simpl; [constructor |]. destruct Hm as [Hlo Hm]. constructor; [| by eapply IH].
  apply bt_ordered_keys_gt in Hm. unfold keys_gt in Hm. rewrite Forall_forall in Hm. intros (e & -> & Hin)%list_elem_of_fmap. specialize (Hm _ Hin). lia.
Qed.

Lemma ordered_ascending {R M} (m : list (Z * SentPacket R M)) lo : bt_ordered lo m → MtudProofs.ascending lo ((λ e, (e.1, size e.2)) <$> m) = true.
Proof.
  revert lo. induction m as [| [k v] m IH]; intros lo Hm; simpl; [done |]. destruct Hm as [Hlo Hm]. rewrite (proj2 (Z.ltb_lt _ _)) by done. by apply IH.
Qed.

(** ** Sets of packet numbers *)

Lemma ack_ranges_valid (a : AckFrame.Ack) : AckFrame.ack_ok a → Forall (λ r, 0 ≤ r.1 ≤ r.2) (AckFrame.ack_iter a).
Proof.
  intros [Hw _]. unfold AckFrame.acked_ranges in Hw. assert (Hr : ∀ l lo, -1 ≤ lo → canon lo l → Forall (λ r : range, 0 ≤ r.1 < r.2) l).
  { induction l as [| [s e] l IH]; intros lo Hlo Hl; [done |]. destruct Hl as (? & ? & Hl). constructor; [simpl; lia |]. apply (IH e); [lia | done]. }
  specialize (Hr _ (-1) ltac:(lia) Hw). apply Forall_rev in Hr. rewrite rev_involutive, Forall_fmap in Hr. eapply Forall_impl; [exact Hr |]. intros r. unfold AckFrame.half_open. simpl. lia.
Qed.

Lemma elements_mem (l : list range) k : k ∈ elements l ↔ mem k l.
Proof.
  unfold elements. induction l as [| [s e] l IH]; simpl; [by rewrite elem_of_nil |]. rewrite elem_of_app, IH, elem_of_seqZ.
  unfold in_range. simpl. split; (intros [? | ?]; [left; lia | by right]).
Qed.

Lemma elements_nodup (l : list range) lo : canon lo l → NoDup (elements l).
Proof.
  revert lo. induction l as [| [s e] l IH]; intros lo Hl; [constructor |]. destruct Hl as (? & ? & Hl). unfold elements. simpl.
  apply NoDup_app. split; [apply NoDup_seqZ |]. split; [| by eapply IH]. intros k [Hk1 Hk2]%elem_of_seqZ Hin. fold (elements l) in Hin. apply elements_mem in Hin.
  pose proof (canon_mem_gt _ _ _ Hl Hin). simpl in *. lia.
Qed.

Lemma insert_keys_spec keys : ∀ acc, wf acc → Forall (λ k, 0 ≤ k < u_max 64) keys →
  let acc' := fold_left (λ acc k, (ArrayRangeSet.insert_one k acc).2) keys acc in wf acc' ∧ ∀ k, mem k acc' ↔ mem k acc ∨ k ∈ keys.
Proof.
  induction keys as [| x keys IH]; intros acc Hw Hk; simpl; [split; [done |]; intros k; rewrite elem_of_nil; naive_solver |].
  apply Forall_cons in Hk as [Hx Hk]. assert (Hi : wf (ArrayRangeSet.insert_one x acc).2 ∧ ∀ k, mem k (ArrayRangeSet.insert_one x acc).2 ↔ k = x ∨ mem k acc).
  { unfold ArrayRangeSet.insert_one, wrapping_add. unfold u_max in Hx. rewrite wrap_small by (unfold is_u; lia).
    destruct (insert_spec (x, x + 1) acc (-1)) as (Hc & Hm & _); [simpl; lia | done |]. split; [done |]. intros k. rewrite Hm, in_range_one. done. }
  destruct Hi as [Hc Hm]. destruct (IH _ Hc Hk) as [Hw' Hm']. split; [done |]. intros k. rewrite Hm', Hm, elem_of_cons. naive_solver.
Qed.

(** ** MTU probes in flight *)

Lemma acked_probe id pn len m k : MtuDiscovery.in_flight_mtu_probe (MtuDiscovery.on_acked id pn len m).2 = Some k →
  MtuDiscovery.in_flight_mtu_probe m = Some k ∧ (id = QuicPacket.SpaceData → k ≠ pn).
Proof.
  unfold MtuDiscovery.on_acked. destruct id; [by simpl; intros ->; split.. |]. unfold MtuDiscovery.in_flight_mtu_probe.
  destruct (MtuDiscovery.state m) as [e |] eqn:Es; simpl; [| by rewrite Es].
  unfold MtuDiscovery.enabled_on_probe_acked. destruct (MtuDiscovery.phase e) as [| s |] eqn:Ep; simpl; rewrite ?Es, ?Ep; try done.
  case_bool_decide as Hf; simpl; [done |]. rewrite Es, Ep. intros E. split; [done |]. intros _ ->. done.
Qed.

Lemma losses_probe lost : ∀ m m', MtuDiscovery.packets_lost lost m = Some m' →
  MtuDiscovery.in_flight_mtu_probe m' = MtuDiscovery.in_flight_mtu_probe m.
Proof.
  induction lost as [| [pn len] lost IH]; intros m m'; simpl; [by intros [= <-] |].
  unfold MtuDiscovery.on_non_probe_lost at 1. destruct (BlackHoleDetector.on_non_probe_lost _ _ _) as [b |]; simpl; [| done].
  intros E. by rewrite (IH _ _ E).
Qed.

(** Asking for a black hole ends the search when there is one. *)
Lemma black_hole_probe now m : let m' := (MtuDiscovery.black_hole_detected now m).2 in
  MtuDiscovery.in_flight_mtu_probe m' = MtuDiscovery.in_flight_mtu_probe m
  ∨ MtuDiscovery.on_probe_lost m' = m' ∧ MtuDiscovery.in_flight_mtu_probe m' = None.
Proof.
  unfold MtuDiscovery.black_hole_detected. destruct (BlackHoleDetector.black_hole_detected _) as [[] b]; simpl; [right | by left].
  unfold MtuDiscovery.on_probe_lost, MtuDiscovery.in_flight_mtu_probe. destruct (MtuDiscovery.state m) as [e |] eqn:Es; simpl; by rewrite ?Es.
Qed.

Lemma probe_lost_none m : MtuDiscovery.in_flight_mtu_probe (MtuDiscovery.on_probe_lost m) = None.
Proof.
  unfold MtuDiscovery.in_flight_mtu_probe, MtuDiscovery.on_probe_lost. destruct (MtuDiscovery.state m) as [e |] eqn:Es; [| by rewrite Es].
  destruct (MtuDiscovery.phase e) eqn:Ep; by rewrite ?Es, ?Ep.
Qed.

(** A probe in flight was so before, or is the one just begun. *)
Lemma poll_probe now pn m r m' k : MtudProofs.mtud_ok m → MtuDiscovery.poll_transmit now pn m = Some (r, m') →
  MtuDiscovery.in_flight_mtu_probe m' = Some k → MtuDiscovery.in_flight_mtu_probe m = Some k ∨ is_Some r ∧ k = pn.
Proof.
  intros [Hm Hl Hs _ _]. unfold MtuDiscovery.poll_transmit. destruct (MtuDiscovery.state m) as [e |] eqn:Es; [| intros [= _ <-]; by left].
  destruct (Hs e eq_refl) as (Hc & Hb & Hp & Hph).
  assert (Hgo : ∀ s r e', MtudProofs.search_ok (MtuDiscovery.current_mtu m) (MtuDiscovery.peer_max_udp_payload_size e) s →
    MtuDiscovery.poll_search now pn s e = Some (r, e') → MtuDiscovery.in_flight_mtu_probe (m <| MtuDiscovery.state := Some e' |>) = Some k →
    SearchState.in_flight_probe s = Some k ∨ is_Some r ∧ k = pn).
  { intros s r0 e' Hso E Hk. destruct (MtudProofs.poll_search_spec _ e s now pn Hso) as (r1 & ph & E1 & Hr); [lia | done |].
    rewrite E in E1. injection E1 as -> ->. unfold MtuDiscovery.in_flight_mtu_probe in Hk. simpl in Hk. destruct r1 as [size |].
    - destruct Hr as (-> & _). simpl in Hk. injection Hk as <-. by right.
    - destruct Hr as [[-> _] | [-> _]]; simpl in Hk; [by left | done]. }
  intros E Hk. unfold MtuDiscovery.in_flight_mtu_probe at 1. rewrite Es. unfold MtuDiscovery.enabled_poll_transmit in E.
  destruct (MtudProofs.search_new_ok _ e Hc Hb) as (s0 & En & Hs0 & Hf0 & _). rewrite En in E. simpl in E.
  destruct (MtuDiscovery.phase e) as [| s | t] eqn:Eph; simpl in Hph.
  - destruct (MtuDiscovery.poll_search now pn s0 e) as [[r1 e1] |] eqn:Eq; simpl in E; [| done]. injection E as <- <-.
    destruct (Hgo _ _ _ Hs0 Eq Hk) as [? | ?]; [congruence | by right].
  - destruct (MtuDiscovery.poll_search now pn s e) as [[r1 e1] |] eqn:Eq; simpl in E; [| done]. injection E as <- <-. by apply (Hgo _ _ _ Hph Eq).
  - destruct (now <? t); simpl in E.
    + injection E as <- <-. unfold MtuDiscovery.in_flight_mtu_probe in Hk. simpl in Hk. by rewrite Eph in Hk.
    + destruct (MtuDiscovery.poll_search now pn s0 e) as [[r1 e1] |] eqn:Eq; simpl in E; [| done]. injection E as <- <-.
      destruct (Hgo _ _ _ Hs0 Eq Hk) as [? | ?]; [congruence | by right].
Qed.

(** ** The streams' side of the interface *)

(** [known l s]: the streams [s] have the frames and the resets [l] in flight, in any order.  An
    acknowledgement or a loss of one of them takes it out. *)
Class DeliveryLaws (R SF S : Type) `{Delivery R SF S} (known : list (SF + Z) → S → Prop) := {
  known_perm l l' s : Permutation l l' → known l s → known l' s;
  known_ack f l s : known (inl f :: l) s → ∃ s', received_ack_of f s = Some s' ∧ known l s';
  known_reset id l s : known (inr id :: l) s → ∃ s', reset_acked id s = Some s' ∧ known l s';
  known_lost f l s : known (inl f :: l) s → known l (retransmit f s);
  known_lost_reset id l s : known (inr id :: l) s → known l s;
}.

Lemma bt_remove_absent {V} k (m : list (Z * V)) : bt_get k m = None → bt_remove k m = m.
Proof. induction m as [| [j w] m IH]; simpl; [done |]. destruct (k =? j); [done |]. intros Hn. by rewrite IH. Qed.

Section recovery.
Context {C R SF S : Type} `{Controller C} `{Delivery R SF S}.
Abbreviation Conn := (Conn (C := C) (R := R) (SF := SF) (S := S)).
Abbreviation Packet := (SentPacket R (list SF)).

(** ** Spaces of a connection *)

Implicit Types (c : Conn) (id : QuicPacket.SpaceId) (info : Packet).

Lemma space_set id id' s c : space id (set_space id' s c) = if decide (id = id') then s else space id c.
Proof. by destruct id, id'. Qed.

Lemma set_space_highest id s c : highest_space (set_space id s c) = highest_space c.
Proof. by destruct id. Qed.

Lemma space_set_eq id s c : space id (set_space id s c) = s.
Proof. by rewrite space_set, decide_True. Qed.

Definition packets id c : list (Z * Packet) := sent_packets (ps (space id c)).

Definition sum_ids (f : QuicPacket.SpaceId → Z) : Z := f QuicPacket.SpaceInitial + f QuicPacket.SpaceHandshake + f QuicPacket.SpaceData.

Lemma sum_ids_ext f g : (∀ id, f id = g id) → sum_ids f = sum_ids g.
Proof. intros E. unfold sum_ids. by rewrite !E. Qed.

Lemma sum_ids_upd f g id d : g id = f id + d → (∀ id', id' ≠ id → g id' = f id') → sum_ids g = sum_ids f + d.
Proof. intros E En. unfold sum_ids. destruct id; rewrite E; rewrite !En by done; lia. Qed.

(** Ack-eliciting packets. *)
Definition eliciting (m : list (Z * Packet)) : Z := zlen (filter (λ e, ack_eliciting e.2 = true) m).

Lemma eliciting_app l k : eliciting (l ++ k) = eliciting l + eliciting k.
Proof. unfold eliciting. by rewrite filter_app, zlen_app. Qed.

Lemma eliciting_one e : eliciting [e] = Z.b2z (ack_eliciting e.2).
Proof. unfold eliciting. rewrite filter_cons, filter_nil. by destruct (ack_eliciting e.2). Qed.

Lemma eliciting_bound m : 0 ≤ eliciting m ≤ zlen m.
Proof. unfold eliciting, zlen. pose proof (length_filter (λ e : Z * Packet, ack_eliciting e.2 = true) m). lia. Qed.

(** What a packet carries for the streams, and all of it that is in flight. *)
Definition items (p : Packet) : list (SF + Z) := (inr <$> reset_streams (retransmits p)) ++ (inl <$> stream_frames p).
Definition frames_in (m : list (Z * Packet)) : list (SF + Z) := concat ((λ e, items e.2) <$> m).
Definition frames_of c : list (SF + Z) := frames_in (packets QuicPacket.SpaceData c).

Lemma frames_in_app l k : frames_in (l ++ k) = frames_in l ++ frames_in k.
Proof. unfold frames_in. by rewrite fmap_app, concat_app. Qed.

(** What a packet may be: stream frames travel in the data space, and in packets that elicit an
    acknowledgement; those have a size. *)
Definition packet_ok id (info : Packet) : Prop :=
  is_u 16 (size info) ∧ (ack_eliciting info = true → 0 < size info)
  ∧ (items info ≠ [] → id = QuicPacket.SpaceData ∧ ack_eliciting info = true).

(** ** Counters *)

(** A bound on the packets of a space that keeps the sums of their sizes in 64 bits. *)
Definition MAX_NUMBER : Z := 2 ^ 46.

Context (known : list (SF + Z) → S → Prop) `{!DeliveryLaws R SF S known}.

(** What holds of a space at all times; the rest of [space_inv] is lost when the space is
    discarded, and with it the keys to send in it. *)
Record tracked (nxt : Z) (s : PacketSpace R (list SF)) : Prop := {
  tr_nxt : 0 ≤ nxt;
  tr_ordered : bt_ordered (-1) (sent_packets s);
  tr_keys : keys_lt nxt (sent_packets s);
  tr_in_flight : PacketSpace.in_flight s = wrap 64 (sum_sizes (sent_packets s));
}.

Lemma space_inv_tracked n s : space_inv n s → tracked n s.
Proof. by intros []. Qed.

Lemma take_tracked n k (s : PacketSpace R (list SF)) : tracked n s → let '(o, s') := PacketSpace.take k s in
  tracked n s' ∧ o = bt_get k (sent_packets s) ∧ sum_sizes (sent_packets s') = sum_sizes (sent_packets s) - from_option size 0 o.
Proof.
  intros Hs. unfold PacketSpace.take. destruct (bt_get k (sent_packets s)) as [v |] eqn:Hg; [| split; [done |]; split; [done | simpl; lia]].
  destruct Hs as [Hn Ho Hk Hf]. destruct (remove_counts 0 k v _ _ Ho Hg) as (Hsum & _ & Hord & Hall). split; [| by split]. split; simpl; try done.
  - by apply Hall.
  - rewrite Hf, Hsum. unfold wrapping_sub. apply wrap_sub_l.
Qed.

(** The counters and the streams agree with the packets tracked; [owed] is a packet taken out of
    its space that the path still counts, [fs] are frames the streams still have in flight. *)
Record core (owed : option Packet) (fs : list (SF + Z)) c : Prop := {
  co_prev : prev_path c = None;
  co_space id : tracked (next_packet_number (ps (space id c))) (ps (space id c)) ∧ next_packet_number (ps (space id c)) ≤ MAX_NUMBER;
  co_live id : space_inv (next_packet_number (ps (space id c))) (ps (space id c))
               ∨ id ≠ QuicPacket.SpaceData ∧ has_crypto (space id c) = false ∧ space_index id ≤ space_index (highest_space c);
  co_packets id : Forall (λ e, packet_ok id e.2) (packets id c);
  co_owed : from_option (λ p, is_u 16 (size p)) True owed;
  co_bytes : bytes (in_flight (path c)) = sum_ids (λ id, sum_sizes (packets id c)) + from_option size 0 owed;
  co_count : in_flight_ack_eliciting (in_flight (path c))
             = sum_ids (λ id, eliciting (packets id c)) + from_option (λ p, Z.b2z (ack_eliciting p)) 0 owed;
  co_first : match first_packet (path c) with
             | Some first => first = 0
             | None => owed = None ∧ ∀ id, packets id c = []
             end;
  co_known : known (fs ++ frames_of c) (streams c);
}.

(** What [core] depends on. *)
Definition same c c' : Prop :=
  prev_path c' = prev_path c ∧ highest_space c' = highest_space c ∧ (∀ id, ps (space id c') = ps (space id c) ∧ has_crypto (space id c') = has_crypto (space id c)) ∧ in_flight (path c') = in_flight (path c)
  ∧ first_packet (path c') = first_packet (path c) ∧ streams c' = streams c.

Lemma same_refl c : same c c.
Proof. done. Qed.

Lemma core_same owed fs c c' : core owed fs c → same c c' → core owed fs c'.
Proof.
  intros [] (Ep & Eh & Esc & Ei & Ef & Est). assert (Es : ∀ id, ps (space id c') = ps (space id c)) by (intros; apply Esc). unfold frames_of, packets in *.
  split; unfold frames_of, packets; rewrite ?Ep, ?Ei, ?Ef, ?Est, ?Es; try done; try (intros id; rewrite Es; done).
  - intros id. rewrite Es, (proj2 (Esc id)), Eh. apply co_live0.
  - rewrite co_bytes0. f_equal. apply sum_ids_ext. intros id. by rewrite Es.
  - rewrite co_count0. f_equal. apply sum_ids_ext. intros id. by rewrite Es.
  - destruct (first_packet (path c)); [done |]. destruct co_first0 as [? He]. split; [done |]. intros id. rewrite Es. apply He.
Qed.

(** ** Bounds *)

Lemma ordered_len (m : list (Z * Packet)) n : ∀ lo, bt_ordered lo m → keys_lt n m → lo < n → zlen m ≤ n - lo - 1.
Proof.
  induction m as [| [k p] m IH]; intros lo Ho Hk Hl; simpl in *; [unfold zlen; simpl; lia |].
  destruct Ho as [Hlo Ho]. apply Forall_cons in Hk as [Hkn Hk]. simpl in Hkn. specialize (IH k Ho Hk Hkn). rewrite zlen_cons. lia.
Qed.

Lemma sum_sizes_bound (m : list (Z * Packet)) : Forall (λ e, is_u 16 (size e.2)) m → 0 ≤ sum_sizes m ≤ (2 ^ 16 - 1) * zlen m.
Proof.
  induction 1 as [| [k p] m Hp _ IH]; simpl in *; [unfold zlen; simpl; lia |]. unfold is_u in Hp. rewrite zlen_cons. lia.
Qed.

Lemma space_bounds id n c : tracked n (ps (space id c)) → n ≤ MAX_NUMBER → Forall (λ e, packet_ok id e.2) (packets id c) →
  0 ≤ sum_sizes (packets id c) < 2 ^ 62 ∧ 0 ≤ eliciting (packets id c) ≤ MAX_NUMBER.
Proof.
  intros Hs Hn Hp. pose proof (ordered_len (packets id c) n (-1) (tr_ordered _ _ Hs) (tr_keys _ _ Hs)) as Hl.
  pose proof (tr_nxt _ _ Hs). specialize (Hl ltac:(lia)).
  pose proof (sum_sizes_bound (packets id c)) as Hb. pose proof (eliciting_bound (packets id c)).
  assert (Hu : Forall (λ e, is_u 16 (size e.2)) (packets id c)) by (eapply Forall_impl; [exact Hp | intros e He; apply He]).
  specialize (Hb Hu). unfold MAX_NUMBER in *. lia.
Qed.

(** No counter wraps around. *)
Lemma core_bounds owed fs c : core owed fs c →
  (∀ id, 0 ≤ sum_sizes (packets id c) < 2 ^ 62 ∧ 0 ≤ eliciting (packets id c) ≤ MAX_NUMBER)
  ∧ 0 ≤ from_option size 0 owed < 2 ^ 16 ∧ 0 ≤ from_option (λ p, Z.b2z (ack_eliciting p)) 0 owed ≤ 1.
Proof.
  intros []. split; [| destruct owed as [p |]; simpl in *; [unfold is_u in *; destruct (ack_eliciting p); simpl; lia | lia]].
  intros id. destruct (co_space0 id) as [Hs Hn]. by apply (space_bounds id (next_packet_number (ps (space id c)))).
Qed.

Lemma core_in_flight owed fs c id : core owed fs c → PacketSpace.in_flight (ps (space id c)) = sum_sizes (packets id c).
Proof.
  intros Hc. destruct (core_bounds _ _ _ Hc) as [Hb _]. specialize (Hb id). destruct (co_space _ _ _ Hc id) as [Hs _].
  rewrite (tr_in_flight _ _ Hs). apply wrap_small. unfold is_u, packets in *. lia.
Qed.

(** ** A packet leaves its space *)

Lemma set_ps_space id id' s c : ps (space id (set_space id' ((space id' c) <| ps := s |>) c)) = if decide (id = id') then s else ps (space id c).
Proof. rewrite space_set. by destruct (decide (id = id')). Qed.

Lemma take_spec id pn fs c : core None fs c →
  match take id pn c with
  | (None, c') => bt_get pn (packets id c) = None ∧ same c c'
  | (Some info, c') =>
    bt_get pn (packets id c) = Some info ∧ core (Some info) (items info ++ fs) c' ∧ packet_ok id info
    ∧ packets id c' = bt_remove pn (packets id c) ∧ (∀ id', id' ≠ id → packets id' c' = packets id' c)
    ∧ path c' = path c
    ∧ ∀ id', space id' c' = (space id' c) <| ps := ps (space id' c') |>
  end.
Proof.
  intros Hc. pose proof (core_bounds _ _ _ Hc) as (Hb & _). unfold take. destruct (co_space _ _ _ Hc id) as [Hs Hn].
  pose proof (take_tracked _ pn _ Hs) as Ht. pose proof (eq_refl : packets id c = sent_packets (ps (space id c))) as Ep.
  destruct (PacketSpace.take pn (ps (space id c))) as [o s'] eqn:E. destruct Ht as (Hs' & -> & Hsum).
  unfold PacketSpace.take in E. destruct (bt_get pn (sent_packets (ps (space id c)))) as [info |] eqn:Eg.
  2: { injection E as <-. split; [done |]. refine (conj _ (conj _ (conj _ (conj _ (conj _ _))))); try (by destruct id).
       intros id'. rewrite set_ps_space, space_set. destruct (decide (id' = id)); by subst. }
  destruct (bt_get_split pn _ info (-1) (tr_ordered _ _ Hs) Eg) as (l1 & l2 & Esp & Erm).
  injection E as <-. set (s' := PacketSpace.mk_space _ _ _ _ _ _ _) in *. set (c' := set_space id _ c).
  assert (Epk : ∀ id', ps (space id' c') = if decide (id' = id) then s' else ps (space id' c)) by (intros; apply set_ps_space).
  assert (Eid : packets id c' = l1 ++ l2) by (unfold packets; rewrite Epk, decide_True by done; exact Erm).
  assert (Eo : ∀ id', id' ≠ id → packets id' c' = packets id' c) by (intros; unfold packets; by rewrite Epk, decide_False).
  pose proof (co_packets _ _ _ Hc id) as Hp. rewrite Ep, Esp in Hp. pose proof Hp as [Hp1 [Hpi Hp2]%Forall_cons]%Forall_app.
  split; [done |]. split; [| split; [done |]; split; [by rewrite Eid, Ep, Erm |]; split; [done |]; split; [by destruct id |]].
  2: { intros id'. unfold c'. rewrite space_set. destruct (decide (id' = id)) as [-> |]; [done | by destruct (space id' c)]. }
  destruct Hc. split.
  - by destruct id.
  - intros id'. rewrite Epk. destruct (decide (id' = id)) as [-> |]; [| apply co_space0]. done.
  - intros id'. rewrite Epk. unfold c'. rewrite space_set, set_space_highest. destruct (decide (id' = id)) as [-> |]; [| apply co_live0].
    destruct (co_live0 id) as [Hlv | ?]; [left | by right]. pose proof (take_inv _ pn _ Hlv) as Hti. unfold PacketSpace.take in Hti. rewrite Eg in Hti. apply Hti.
  - intros id'. destruct (decide (id' = id)) as [-> | Hne]; [| by rewrite Eo]. rewrite Eid. by apply Forall_app.
  - apply Hpi.
  - transitivity (bytes (in_flight (path c))); [by destruct id |]. rewrite co_bytes0. simpl.
    rewrite (sum_ids_upd (λ id, sum_sizes (packets id c)) (λ id, sum_sizes (packets id c')) id (- size info)); [lia | | intros; by rewrite Eo].
    rewrite Eid, Ep, Esp, !sum_sizes_app. simpl. lia.
  - transitivity (in_flight_ack_eliciting (in_flight (path c))); [by destruct id |]. rewrite co_count0. simpl.
    rewrite (sum_ids_upd (λ id, eliciting (packets id c)) (λ id, eliciting (packets id c')) id (- Z.b2z (ack_eliciting info))); [lia | | intros; by rewrite Eo].
    rewrite Eid, Ep, Esp, (cons_middle _ l1 l2), !eliciting_app, eliciting_one. simpl. lia.
  - replace (first_packet (path c')) with (first_packet (path c)) by (by destruct id). destruct (first_packet (path c)); [done |].
    destruct co_first0 as [_ He]. rewrite <- Ep, He in Eg. done.
  - replace (streams c') with (streams c) by (by destruct id). eapply known_perm; [| exact co_known0].
    unfold frames_of. destruct (decide (id = QuicPacket.SpaceData)) as [-> | Hne].
    + rewrite Eid, Ep, Esp, (cons_middle _ l1 l2), !frames_in_app. change (frames_in [(pn, info)]) with (items info ++ []).
      rewrite app_nil_r, <- app_assoc. rewrite !app_assoc, (Permutation_app_comm (items info) fs). rewrite <- !app_assoc.
      apply Permutation_app_head. by rewrite Permutation_app_swap_app.
    + rewrite Eo by done. destruct (items info) eqn:Ef; [done |]. destruct Hpi as (_ & _ & Hpi). simpl in Hpi. rewrite Ef in Hpi. by destruct Hpi.
Qed.

Lemma get_key id pn owed fs c info : core owed fs c → bt_get pn (packets id c) = Some info → 0 ≤ pn < next_packet_number (ps (space id c)).
Proof.
  intros Hc Hg. destruct (co_space _ _ _ Hc id) as [Hs _]. pose proof (tr_keys _ _ Hs) as Hk. pose proof (tr_ordered _ _ Hs) as Ho.
  unfold packets in *. destruct (bt_get_split _ _ _ _ Ho Hg) as (l1 & l2 & E & _). rewrite E in Hk, Ho.
  apply bt_ordered_keys_gt in Ho. apply Forall_app in Hk as [_ [Hk _]%Forall_cons], Ho as [_ [Ho _]%Forall_cons]. simpl in *. lia.
Qed.

Lemma remove_in_flight_spec pn info fs c : core (Some info) fs c → 0 ≤ pn →
  core None fs (remove_in_flight pn info c)
  ∧ ∃ f, remove_in_flight pn info c = c <| path := (path c) <| in_flight := f |> |>.
Proof.
  intros Hc Hpn. pose proof (core_bounds _ _ _ Hc) as (Hb & Hz & He). simpl in Hz, He. pose proof Hc as [].
  unfold remove_in_flight, PathData.remove_in_flight. destruct (first_packet (path c)) as [first |] eqn:Ef; [| by destruct co_first0].
  subst first. rewrite (proj2 (Z.ltb_ge pn 0)) by lia. split; [| by eexists].
  split; try done; cbn [from_option path bytes in_flight in_flight_ack_eliciting set_field remove].
  - change (wrapping_sub 64 (bytes (in_flight (path c))) (size info) = sum_ids (λ id, sum_sizes (packets id c)) + 0).
    unfold wrapping_sub. rewrite co_bytes0. simpl. rewrite wrap_small; [lia |]. unfold is_u, sum_ids.
    pose proof (Hb QuicPacket.SpaceInitial). pose proof (Hb QuicPacket.SpaceHandshake). pose proof (Hb QuicPacket.SpaceData). lia.
  - change (wrapping_sub 64 (in_flight_ack_eliciting (in_flight (path c))) (Z.b2z (ack_eliciting info)) = sum_ids (λ id, eliciting (packets id c)) + 0).
    unfold wrapping_sub. rewrite co_count0. simpl. rewrite wrap_small; [lia |]. unfold is_u, sum_ids, MAX_NUMBER in *.
    pose proof (Hb QuicPacket.SpaceInitial). pose proof (Hb QuicPacket.SpaceHandshake). pose proof (Hb QuicPacket.SpaceData). lia.
  - simpl. by rewrite Ef.
Qed.

(** ** The streams hear of it *)

Lemma core_streams owed fs fs' s c : core owed fs c → known (fs' ++ frames_of c) s → core owed fs' (c <| streams := s |>).
Proof. intros [] Hk. by split. Qed.

(** Nothing but the streams changes. *)
Definition streams_only c c' : Prop := c' = c <| streams := streams c' |>.

Lemma streams_only_trans c1 c2 c3 : streams_only c1 c2 → streams_only c2 c3 → streams_only c1 c3.
Proof. unfold streams_only. intros E1 E2. rewrite E2, E1. done. Qed.

Lemma ack_resets_spec ids : ∀ owed fs c, core owed ((inr <$> ids) ++ fs) c → ∃ c', each ack_reset ids c = Some c' ∧ core owed fs c' ∧ streams_only c c'.
Proof.
  induction ids as [| i ids IH]; intros owed fs c Hc; simpl; [exists c; split; [done |]; split; [done | by destruct c] |].
  destruct (known_reset i _ _ (co_known _ _ _ Hc)) as (s & Es & Hk). unfold ack_reset. rewrite Es. simpl.
  destruct (IH owed fs (c <| streams := s |>)) as (c' & E & Hc' & Ho); [by eapply core_streams |].
  exists c'. split; [exact E |]. split; [done |]. eapply streams_only_trans; [| exact Ho]. by destruct c.
Qed.

Lemma ack_frames_spec l : ∀ owed fs c, core owed ((inl <$> l) ++ fs) c → ∃ c', each ack_frame l c = Some c' ∧ core owed fs c' ∧ streams_only c c'.
Proof.
  induction l as [| f l IH]; intros owed fs c Hc; simpl; [exists c; split; [done |]; split; [done | by destruct c] |].
  destruct (known_ack f _ _ (co_known _ _ _ Hc)) as (s & Es & Hk). unfold ack_frame. rewrite Es. simpl.
  destruct (IH owed fs (c <| streams := s |>)) as (c' & E & Hc' & Ho); [by eapply core_streams |].
  exists c'. split; [exact E |]. split; [done |]. eapply streams_only_trans; [| exact Ho]. by destruct c.
Qed.

Lemma lost_items_spec p fs s : known (items p ++ fs) s → known fs (fold_left (λ s f, retransmit f s) (stream_frames p) s).
Proof.
  unfold items. rewrite <- app_assoc. generalize (reset_streams (retransmits p)), (stream_frames p). intros ids l.
  induction ids as [| i ids IH]; simpl; [| intros Hk; apply IH; by eapply known_lost_reset].
  revert s. induction l as [| f l IHl]; intros s Hk; simpl in *; [done |]. apply IHl. by apply known_lost.
Qed.

(** ** The rest of the invariant *)

(** What the fate of a packet does not change. *)
Definition marks (s : Space (R := R) (SF := SF)) := (largest_acked_packet s, largest_acked_packet_sent s, loss_time s, time_of_last_ack_eliciting_packet s,
  next_packet_number (ps s)).

(** What the limit on the bytes sent to an unvalidated address depends on. *)
Definition credit c := (validated (path c), total_sent (path c), total_recvd (path c)).

Definition kept c c' : Prop :=
  side c' = side c ∧ state c' = state c ∧ config c' = config c ∧ overhead c' = overhead c ∧ ack_delay_exponent c' = ack_delay_exponent c
  ∧ credit c' = credit c ∧ packet_number_filter c' = packet_number_filter c
  ∧ ∀ id, marks (space id c') = marks (space id c).

Lemma kept_trans c1 c2 c3 : kept c1 c2 → kept c2 c3 → kept c1 c3.
Proof.
  intros (? & ? & ? & ? & ? & ? & ? & E1) (? & ? & ? & ? & ? & ? & ? & E2). repeat (split; [congruence |]). intros id. by rewrite E2, E1.
Qed.

(** An ack-eliciting packet of the data space without stream frames. *)
Definition bare pn c : Prop :=
  ∃ info, bt_get pn (packets QuicPacket.SpaceData c) = Some info ∧ items info = [] ∧ ack_eliciting info = true.

(** MTU discovery can go on, the peer's exponent can be shifted by, and the timer finds what it
    needs. *)
Record aux c : Prop := {
  au_mtud : MtudProofs.mtud_ok (mtud (path c));
  au_overhead : 0 ≤ overhead c ∧ overhead c + Datagrams.SIZE_BOUND ≤ MtudProofs.min_of (mtud (path c));
  au_exponent : ack_delay_exponent c < 64;
  au_probe pn : MtuDiscovery.in_flight_mtu_probe (mtud (path c)) = Some pn → bare pn c;
  au_loss id : is_Some (loss_time (space id c)) → is_Some (largest_acked_packet (space id c));
  au_time id : 0 < eliciting (packets id c) → is_Some (time_of_last_ack_eliciting_packet (space id c));
}.

Lemma aux_kept c c' : aux c → kept c c' → MtudProofs.mtud_ok (mtud (path c')) →
  MtudProofs.min_of (mtud (path c')) = MtudProofs.min_of (mtud (path c)) →
  (∀ pn, MtuDiscovery.in_flight_mtu_probe (mtud (path c')) = Some pn → bare pn c') →
  (∀ id, eliciting (packets id c') ≤ eliciting (packets id c)) → aux c'.
Proof.
  intros [] (? & ? & ? & Eo & Ee & ? & ? & Em) Hm Hmin Hp He. split; rewrite ?Eo, ?Ee, ?Hmin; try done.
  - intros id. specialize (Em id). unfold marks in Em. injection Em as -> _ -> _ _. apply au_loss0.
  - intros id Hi. specialize (Em id). specialize (He id). unfold marks in Em. injection Em as _ _ _ -> _. apply au_time0. lia.
Qed.

Lemma eliciting_remove k id owed fs c : core owed fs c → eliciting (bt_remove k (packets id c)) ≤ eliciting (packets id c).
Proof.
  intros Hc. destruct (bt_get k (packets id c)) as [v |] eqn:E.
  - destruct (co_space _ _ _ Hc id) as [Hs _]. destruct (bt_get_split _ _ _ _ (tr_ordered _ _ Hs) E) as (l1 & l2 & Ep & Er).
    unfold packets in *. rewrite Er, Ep, (cons_middle _ l1 l2), !eliciting_app. pose proof (eliciting_bound [(k, v)]). lia.
  - by rewrite bt_remove_absent.
Qed.

Lemma set_space_same id s c : ps s = ps (space id c) → has_crypto s = has_crypto (space id c) → same c (set_space id s c).
Proof.
  intros E E'. split; [by destruct id |]. split; [by destruct id |]. split; [| by destruct id]. intros id'. rewrite space_set. by destruct (decide (id' = id)) as [-> |].
Qed.

Lemma set_space_kept id s c : marks s = marks (space id c) → kept c (set_space id s c).
Proof.
  intros E. repeat (split; [by destruct id |]). intros id'. rewrite space_set. by destruct (decide (id' = id)) as [-> |].
Qed.

Lemma set_space_path id s c : path (set_space id s c) = path c.
Proof. by destruct id. Qed.

Lemma take_kept id pn c : kept c (take id pn c).2 ∧ path (take id pn c).2 = path c.
Proof.
  unfold take. destruct (PacketSpace.take pn (ps (space id c))) as [o s] eqn:E. simpl. rewrite set_space_path. split; [| done].
  apply set_space_kept. unfold marks. simpl. f_equal. unfold PacketSpace.take in E. destruct (bt_get _ _); by injection E as <- <-.
Qed.

(** ** Acknowledged packets *)

(** [fs] are frames for a packet that is about to be tracked. *)
Definition inv_with (fs : list (SF + Z)) c : Prop := core None fs c ∧ aux c.
Definition inv c : Prop := inv_with [] c.

(** A packet left its space. *)
Definition gone id pn c c' : Prop := packets id c' = bt_remove pn (packets id c) ∧ ∀ id', id' ≠ id → packets id' c' = packets id' c.

Lemma same_packets c c' id : same c c' → packets id c' = packets id c.
Proof. intros (_ & _ & E & _). unfold packets. by rewrite (proj1 (E id)). Qed.

Lemma inv_with_same fs c c' : inv_with fs c → same c c' → kept c c' → mtud (path c') = mtud (path c) → inv_with fs c'.
Proof.
  intros [Hc Ha] Hs Hk Hm. pose proof (λ id, same_packets _ _ id Hs) as Hp. split; [by eapply core_same |].
  eapply (aux_kept c); try done; rewrite ?Hm; try done; [by apply Ha | | by intros id; rewrite Hp].
  intros pn Hpn. unfold bare. rewrite Hp. by apply Ha.
Qed.

Lemma inv_same c c' : inv c → same c c' → kept c c' → mtud (path c') = mtud (path c) → inv c'.
Proof. apply inv_with_same. Qed.

Lemma gone_eliciting id pn owed fs c c' id' : core owed fs c → gone id pn c c' → eliciting (packets id' c') ≤ eliciting (packets id' c).
Proof.
  intros Hc [E Eo]. destruct (decide (id' = id)) as [-> | Hne]; [| by rewrite Eo]. rewrite E. by eapply eliciting_remove.
Qed.

(** A probe in flight is not the packet that left. *)
Lemma gone_probe id pn c c' k : inv c → gone id pn c c' →
  MtuDiscovery.in_flight_mtu_probe (mtud (path c)) = Some k → (id = QuicPacket.SpaceData → k ≠ pn) →
  bare k c'.
Proof.
  intros [Hc Ha] [E Eo] Hk Hne. pose proof (au_probe _ Ha k Hk) as Hs. unfold bare in *.
  destruct (decide (id = QuicPacket.SpaceData)) as [-> |]; [| by rewrite Eo].
  destruct (co_space _ _ _ Hc QuicPacket.SpaceData) as [Hi _]. rewrite E, (bt_get_remove _ _ _ _ (tr_ordered _ _ Hi)).
  rewrite (proj2 (Z.eqb_neq _ _)) by (by apply Hne). done.
Qed.

Lemma kept_streams_only c c' : streams_only c c' → kept c c' ∧ (∀ id, packets id c' = packets id c) ∧ mtud (path c') = mtud (path c).
Proof. intros ->. done. Qed.

Lemma on_packet_acked_spec now pn info c : core (Some info) (items info) c → 0 ≤ pn →
  ∃ c', on_packet_acked now pn info c = Some c' ∧ core None [] c' ∧ kept c c' ∧ (∀ id, packets id c' = packets id c)
  ∧ mtud (path c') = mtud (path c).
Proof.
  intros Hc Hpn. unfold on_packet_acked. destruct (remove_in_flight_spec pn info _ c Hc Hpn) as (Hr & f & Er). rewrite Er in *.
  set (c1 := c <| path := _ |>) in *. set (c2 := if ack_eliciting info then _ else _).
  assert (H2 : same c1 c2 ∧ kept c c2 ∧ mtud (path c2) = mtud (path c)).
  { unfold c2. destruct (ack_eliciting info); [destruct (challenge _) |]; by repeat split. }
  clearbody c2. destruct H2 as (Hs & Hk & Hm). pose proof (core_same _ _ _ _ Hr Hs) as Hc2.
  unfold items in Hc2. destruct (ack_resets_spec (reset_streams (retransmits info)) _ _ _ Hc2) as (c3 & -> & Hc3 & Ho3).
  rewrite <- (app_nil_r (inl <$> stream_frames info)) in Hc3. destruct (ack_frames_spec _ _ _ _ Hc3) as (c4 & E4 & Hc4 & Ho4).
  exists c4. split; [exact E4 |]. split; [done |]. destruct (kept_streams_only _ _ (streams_only_trans _ _ _ Ho3 Ho4)) as (Hk4 & Hp4 & Hm4).
  split; [by eapply kept_trans |]. split; [| by rewrite Hm4].
  intros id. rewrite Hp4. rewrite (same_packets c1 c2) by done. done.
Qed.

Lemma ack_packet_spec now id pn c : inv c → ∃ c', ack_packet now id pn c = Some c' ∧ inv c' ∧ kept c c' ∧ gone id pn c c'.
Proof.
  intros [Hc Ha]. unfold ack_packet. pose proof (take_spec id pn [] c Hc) as Ht. pose proof (take_kept id pn c) as [Hk1 Ep1].
  destruct (take id pn c) as [[info |] c1]; simpl in Hk1, Ep1.
  2: { destruct Ht as [Hn Hs]. exists c1. split; [done |]. assert (Hp : ∀ id', packets id' c1 = packets id' c) by (intros; by apply same_packets).
    assert (Hg : gone id pn c c1) by (split; [rewrite Hp; symmetry; by apply bt_remove_absent | done]).
    split; [| done]. eapply inv_same; try done. by rewrite Ep1. }
  destruct Ht as (Hg & Hc1 & Hok & Hp1 & Hpo & _ & _). rewrite app_nil_r in Hc1.
  set (c2 := match sp_largest_acked info with Some _ => _ | None => _ end).
  assert (H2 : same c1 c2 ∧ kept c1 c2 ∧ path c2 = path c1).
  { unfold c2. destruct (sp_largest_acked info); [| done]. split; [by apply set_space_same |]. split; [by apply set_space_kept | apply set_space_path]. }
  clearbody c2. destruct H2 as (Hs2 & Hk2 & Ep2).
  destruct (MtuDiscovery.on_acked id pn (size info) (mtud (path c2))) as [up m] eqn:Em.
  set (c3 := if up then _ else _). set (c4 := c3 <| ack_frequency := _ |>).
  assert (H4 : same c2 c4 ∧ kept c2 c4 ∧ mtud (path c4) = m) by (unfold c4, c3; by destruct up). clearbody c4. destruct H4 as (Hs4 & Hk4 & Em4).
  assert (Hc4 : core (Some info) (items info) c4) by (eapply core_same; [eapply core_same; [exact Hc1 | done] | done]).
  destruct (on_packet_acked_spec now pn info c4 Hc4) as (c5 & E5 & Hc5 & Hk5 & Hp5 & Em5); [by eapply get_key in Hg; [lia | exact Hc] |].
  exists c5. split; [exact E5 |]. assert (Hk : kept c c5) by (do 3 (eapply kept_trans; [eassumption |]); done).
  assert (Hgone : gone id pn c c5) by (split; [| intros id' Hne]; rewrite Hp5, (same_packets c2 c4), (same_packets c1 c2) by done; [done | by apply Hpo]).
  split; [split; [done |] | done]. rewrite Ep2, Ep1 in Em. pose proof (MtudProofs.step_acked id pn (size info) _ (au_mtud _ Ha)) as Hst.
  pose proof (acked_probe id pn (size info) (mtud (path c))) as Hpr. rewrite Em in Hst, Hpr. simpl in Hst, Hpr.
  eapply aux_kept; try done; rewrite ?Em5, ?Em4; try apply Hst.
  - intros k Hkk. destruct (Hpr k Hkk) as [? ?]. by eapply (gone_probe id pn c).
  - intros id'. by eapply gone_eliciting.
Qed.


(** ** What is lost *)

(** The packets sent before the largest acknowledged one, and those of them that are overdue. *)
Definition candidates id (largest_acked : Z) c : list (Z * Packet) := filter (λ e, e.1 < largest_acked) (packets id c).

Definition late (now delay largest_acked : Z) c (e : Z * Packet) : bool :=
  (time_sent e.2 <=? now - delay) || (e.1 + packet_threshold (config c) <=? largest_acked).

Definition probe_of c : option Z := MtuDiscovery.in_flight_mtu_probe (mtud (path c)).

Definition is_lost (now delay largest_acked : Z) c (e : Z * Packet) : bool :=
  late now delay largest_acked c e && negb (bool_decide (Some e.1 = probe_of c)).

(** The entries that are lost, apart from an MTU probe. *)
Definition lost_entries (now : Z) id (delay largest_acked : Z) c : list (Z * Packet) :=
  filter (λ e, is_lost now delay largest_acked c e = true) (candidates id largest_acked c).

Lemma scan_packet_spec id now delay period largest c first due (s : Scan) e :
  let s' := scan_packet id (now - delay) delay period largest (packet_threshold (config c)) (probe_of c) first due s e in
  lost_packets s' = lost_packets s ++ (if is_lost now delay largest c e then [e.1] else [])
  ∧ size_of_lost_packets s' = size_of_lost_packets s + (if is_lost now delay largest c e then size e.2 else 0)
  ∧ lost_mtu_probe s' = (if late now delay largest c e && bool_decide (Some e.1 = probe_of c) then Some e.1 else lost_mtu_probe s)
  ∧ sc_loss_time s' = (if late now delay largest c e then sc_loss_time s
                       else Some (match sc_loss_time s with Some x => Z.min x (time_sent e.2 + delay) | None => time_sent e.2 + delay end)).
Proof.
  destruct e as [k info]. unfold scan_packet, is_lost, late. cbn [fst snd].
  set (s1 := if bool_decide (prev_packet s = _) then _ else _).
  assert (H1 : lost_packets s1 = lost_packets s ∧ size_of_lost_packets s1 = size_of_lost_packets s ∧ lost_mtu_probe s1 = lost_mtu_probe s
    ∧ sc_loss_time s1 = sc_loss_time s) by (unfold s1; by case_bool_decide).
  clearbody s1. destruct H1 as (E1 & E2 & E3 & E4).
  destruct ((time_sent info <=? now - delay) || (k + packet_threshold (config c) <=? largest)) eqn:El; simpl; rewrite ?E1, ?E2, ?E3, ?E4.
  2: by rewrite app_nil_r, Z.add_0_r.
  case_bool_decide as Hp; simpl; [rewrite ?E1, ?E2, ?E4, app_nil_r, Z.add_0_r; by rewrite <- Hp |].
  destruct (ack_eliciting info && due); simpl; [| by rewrite ?E1, ?E2, ?E3, ?E4].
  destruct (persistent_congestion_start s1) as [start |]; [destruct (_ <? _) | destruct first as [x |]; [destruct (pair_lt _ _) |]]; simpl; by rewrite ?E1, ?E2, ?E3, ?E4.
Qed.

(** The loop, from any state. *)
Lemma scan_spec id now delay period largest c first due l : ∀ (s : Scan),
  let s' := fold_left (scan_packet id (now - delay) delay period largest (packet_threshold (config c)) (probe_of c) first due) l s in
  lost_packets s' = lost_packets s ++ (filter (λ e, is_lost now delay largest c e = true) l).*1
  ∧ size_of_lost_packets s' = size_of_lost_packets s + sum_sizes (filter (λ e, is_lost now delay largest c e = true) l)
  ∧ lost_mtu_probe s' = (if existsb (λ e, late now delay largest c e && bool_decide (Some e.1 = probe_of c)) l then probe_of c else lost_mtu_probe s)
  ∧ (∀ t0, (∃ e, e ∈ l ∧ late now delay largest c e = false ∧ t0 = time_sent e.2 + delay) ∨ sc_loss_time s = Some t0 → ∃ t, sc_loss_time s' = Some t ∧ t ≤ t0)
  ∧ (∀ t, sc_loss_time s' = Some t → sc_loss_time s = Some t ∨ ∃ e, e ∈ l ∧ late now delay largest c e = false ∧ t = time_sent e.2 + delay).
Proof.
  induction l as [| e l IH]; intros s; cbn [fold_left].
  { simpl. rewrite app_nil_r, Z.add_0_r. do 3 (split; [done |]).
    split; [intros t0 [(e & ?%elem_of_nil & _) | ->]; [done |]; by exists t0 | by left]. }
  destruct (scan_packet_spec id now delay period largest c first due s e) as (E1 & E2 & E3 & E4).
  set (s1 := scan_packet _ _ _ _ _ _ _ _ _ s e) in *. clearbody s1. destruct (IH s1) as (H1 & H2 & H3 & H5 & H6).
  split; [| split; [| split; [| split]]].
  - rewrite H1, E1, filter_cons, <- app_assoc. by destruct (is_lost now delay largest c e).
  - rewrite H2, E2, filter_cons. destruct e as [k info]. destruct (is_lost _ _ _ _ _); simpl; lia.
  - rewrite H3, E3. cbn [existsb]. destruct (late _ _ _ _ e); simpl; [| done]. case_bool_decide as Hp; simpl; [| done].
    rewrite Hp. by destruct (existsb _ l).
  - intros t0 [(e' & [-> | Hin]%elem_of_cons & Hl & ->) | Hs].
    + rewrite Hl in E4. destruct (H5 _ (or_intror E4)) as (t & Et & Ht). exists t. split; [done |]. destruct (sc_loss_time s); lia.
    + apply H5. left. by exists e'.
    + rewrite Hs in E4. destruct (late _ _ _ _ e); destruct (H5 _ (or_intror E4)) as (t & Et & Ht); exists t; (split; [done | lia]).
  - intros t Ht. destruct (H6 t Ht) as [Hs | (e' & Hin & Hl & ->)]; [| right; exists e'; split; [by right | done]].
    rewrite E4 in Hs. destruct (late _ _ _ _ e) eqn:El; [by left |]. injection Hs as <-.
    assert (Hnew : ∃ e0, e0 ∈ e :: l ∧ late now delay largest c e0 = false ∧ time_sent e.2 + delay = time_sent e0.2 + delay)
      by (exists e; split; [by left | done]).
    destruct (sc_loss_time s) as [x |]; [| by right]. destruct (Z.min_spec x (time_sent e.2 + delay)) as [[_ ->] | [_ ->]]; [by left | by right].
Qed.

Lemma scan_found now id due delay largest_acked c :
  let found := scan now id due delay largest_acked c in
  let entries := candidates id largest_acked c in
  lost_packets found = (lost_entries now id delay largest_acked c).*1
  ∧ size_of_lost_packets found = sum_sizes (lost_entries now id delay largest_acked c)
  ∧ lost_mtu_probe found = (if existsb (λ e, late now delay largest_acked c e && bool_decide (Some e.1 = probe_of c)) entries then probe_of c else None)
  ∧ (∀ e, e ∈ entries → late now delay largest_acked c e = false → ∃ t, sc_loss_time found = Some t ∧ t ≤ time_sent e.2 + delay)
  ∧ (∀ t, sc_loss_time found = Some t → ∃ e, e ∈ entries ∧ late now delay largest_acked c e = false ∧ t = time_sent e.2 + delay).
Proof.
  intros found entries.
  destruct (scan_spec id now delay (pto QuicPacket.SpaceData c * persistent_congestion_threshold (config c)) largest_acked c
    (first_packet_after_rtt_sample (path c)) due entries (mk_scan [] None 0 None None false None)) as (H1 & H2 & H3 & H4 & H5).
  split; [exact H1 |]. split; [exact H2 |]. split; [exact H3 |]. split; [intros e ? ?; apply H4; left; by exists e |].
  intros t Ht. by destruct (H5 t Ht).
Qed.

(** C26: loss detection finds exactly the packets that were sent before the largest acknowledged
    one and are overdue, by the time threshold or by the packet threshold, except that an MTU
    probe among them is reported apart; and it sets the timer for the first of the others to
    become overdue. *)
Theorem losses_exact now id due delay largest_acked c :
  let found := scan now id due delay largest_acked c in
  let entries := candidates id largest_acked c in
  lost_packets found = (lost_entries now id delay largest_acked c).*1
  ∧ size_of_lost_packets found = sum_sizes (lost_entries now id delay largest_acked c)
  ∧ (∀ pn, lost_mtu_probe found = Some pn ↔ probe_of c = Some pn ∧ ∃ info, (pn, info) ∈ entries ∧ late now delay largest_acked c (pn, info) = true)
  ∧ (∀ e, e ∈ entries → late now delay largest_acked c e = false → ∃ t, sc_loss_time found = Some t ∧ t ≤ time_sent e.2 + delay)
  ∧ (∀ t, sc_loss_time found = Some t → ∃ e, e ∈ entries ∧ late now delay largest_acked c e = false ∧ t = time_sent e.2 + delay).
Proof.
  intros found entries. destruct (scan_found now id due delay largest_acked c) as (H1 & H2 & H3 & H4 & H5).
  fold found entries in H1, H2, H3, H4, H5. split; [exact H1 |]. split; [exact H2 |]. split; [| by split].
  intros pn. rewrite H3. destruct (existsb _ _) eqn:Ee.
  - apply existsb_exists in Ee as (e & Hin & [Hl Hp]%andb_true_iff). apply bool_decide_eq_true in Hp. rewrite <- Hp.
    split; [intros [= <-]; split; [done |]; exists e.2; destruct e; by rewrite <- list_elem_of_In in Hin | by intros [? _]].
  - split; [done |]. intros (Hp & info & Hin & Hl).
    enough (existsb (λ e, late now delay largest_acked c e && bool_decide (Some e.1 = probe_of c)) entries = true) by congruence.
    apply existsb_exists. exists (pn, info). rewrite <- list_elem_of_In. split; [done |]. rewrite Hl. simpl. by apply bool_decide_true.
Qed.

(** ** Lost packets *)

Lemma lose_packet_spec now id pn info m c : core None [] c → bt_get pn (packets id c) = Some info →
  MtuDiscovery.on_non_probe_lost pn (size info) (mtud (path c)) = Some m →
  ∃ c', lose_packet now id pn c = Some c' ∧ core None [] c' ∧ kept c c' ∧ gone id pn c c' ∧ mtud (path c') = m.
Proof.
  intros Hc Hg Hm. unfold lose_packet. pose proof (take_spec id pn [] c Hc) as Ht. pose proof (take_kept id pn c) as [Hk1 Ep1].
  destruct (take id pn c) as [[info' |] c1]; simpl in Hk1, Ep1; [| by destruct Ht; congruence].
  destruct Ht as (Hg' & Hc1 & Hok & Hp1 & Hpo & _ & _). rewrite Hg in Hg'. injection Hg' as <-.
  set (c2 := if ack_eliciting info then _ else _).
  assert (H2 : same c1 c2 ∧ kept c1 c2 ∧ mtud (path c2) = mtud (path c)) by (unfold c2; rewrite <- Ep1; by destruct (ack_eliciting info)).
  clearbody c2. destruct H2 as (Hs2 & Hk2 & Em2). pose proof (core_same _ _ _ _ Hc1 Hs2) as Hc2.
  destruct (remove_in_flight_spec pn info _ c2 Hc2) as (Hc3 & f & E3); [by eapply get_key in Hg; [lia | exact Hc] |]. rewrite E3 in *.
  set (c3 := c2 <| path := _ |>) in *. set (c4 := c3 <| streams := _ |>). set (c5 := set_space id _ c4).
  assert (Hc4 : core None [] c4).
  { eapply core_streams; [exact Hc3 |]. apply lost_items_spec. rewrite app_assoc. apply Hc3. }
  assert (Hs5 : same c4 c5) by (by apply set_space_same). assert (Hk5 : kept c4 c5) by (by apply set_space_kept).
  assert (Em5 : mtud (path c5) = mtud (path c)) by (unfold c5; rewrite set_space_path; exact Em2). rewrite Em5, Hm.
  eexists. split; [reflexivity |]. split; [eapply core_same; [eapply core_same; [exact Hc4 | exact Hs5] | done] |].
  split; [eapply kept_trans; [exact Hk1 |]; eapply kept_trans; [exact Hk2 |]; exact Hk5 |]. split; [| done].
  assert (Hpk : ∀ id', packets id' c5 = packets id' c1).
  { intros id'. rewrite (same_packets c4 c5) by done. change (packets id' c4) with (packets id' c2). by apply same_packets. }
  split; [| intros id' Hne]; match goal with |- packets ?i _ = _ => transitivity (packets i c5); [done | rewrite Hpk] end; [done | by apply Hpo].
Qed.

(** What is left of the spaces after some packets have gone. *)
Definition gone_all id (pns : list Z) c c' : Prop :=
  (∀ k, bt_get k (packets id c') = if decide (k ∈ pns) then None else bt_get k (packets id c))
  ∧ (∀ id', id' ≠ id → packets id' c' = packets id' c) ∧ ∀ id', eliciting (packets id' c') ≤ eliciting (packets id' c).

Lemma lose_packets_spec now id lost : ∀ m c, core None [] c → NoDup lost.*1 → Forall (λ e, bt_get e.1 (packets id c) = Some e.2) lost →
  MtuDiscovery.packets_lost ((λ e, (e.1, size e.2)) <$> lost) (mtud (path c)) = Some m →
  ∃ c', each (lose_packet now id) lost.*1 c = Some c' ∧ core None [] c' ∧ kept c c' ∧ gone_all id lost.*1 c c' ∧ mtud (path c') = m.
Proof.
  induction lost as [| [pn info] lost IH]; intros m c Hc Hnd Hall Hm; simpl in *.
  { injection Hm as <-. exists c. do 3 (split; [done |]). split; [| done]. split; [| done]. intros k. by rewrite decide_False by apply not_elem_of_nil. }
  apply NoDup_cons in Hnd as [Hnin Hnd]. apply Forall_cons in Hall as [Hg Hall]. simpl in Hg.
  destruct (MtuDiscovery.on_non_probe_lost pn (size info) (mtud (path c))) as [m1 |] eqn:E1; simpl in Hm; [| done].
  destruct (lose_packet_spec now id pn info m1 c Hc Hg E1) as (c1 & -> & Hc1 & Hk1 & Hg1 & Em1).
  destruct (co_space _ _ _ Hc id) as [Hs _].
  destruct (IH m c1) as (c2 & E2 & Hc2 & Hk2 & (Ha & Hb & He) & Em2); [done | done | | by rewrite Em1 |].
  { rewrite Forall_forall in *. intros e Hin. rewrite (proj1 Hg1), (bt_get_remove pn _ (packets id c) (-1) (tr_ordered _ _ Hs)), (proj2 (Z.eqb_neq _ _)); [by apply Hall |].
    intros <-. apply Hnin. apply list_elem_of_fmap. by exists e. }
  exists c2. split; [exact E2 |]. split; [done |]. split; [by eapply kept_trans |]. split; [| done]. split; [| split].
  - intros k. rewrite Ha, (proj1 Hg1), (bt_get_remove pn _ (packets id c) (-1) (tr_ordered _ _ Hs)). destruct (Z.eqb_spec k pn) as [-> | Hne].
    + rewrite (decide_False (P := pn ∈ lost.*1)) by done. by rewrite decide_True by left.
    + destruct (decide (k ∈ lost.*1)); [rewrite decide_True by (by right) | rewrite decide_False by (by intros [? | ?]%elem_of_cons)]; done.
  - intros id' Hne. by rewrite Hb, (proj2 Hg1).
  - intros id'. specialize (He id'). pose proof (gone_eliciting _ _ _ _ _ _ id' Hc Hg1). lia.
Qed.

Lemma check_black_hole_spec now c d m' : MtuDiscovery.black_hole_detected now (mtud (path c)) = (d, m') → MtudProofs.mtud_ok m' →
  0 ≤ overhead c ∧ overhead c + Datagrams.SIZE_BOUND ≤ MtudProofs.min_of m' →
  ∃ c', check_black_hole now c = Some c' ∧ same c c' ∧ kept c c' ∧ mtud (path c') = m'.
Proof.
  intros E Hm [Ho1 Ho2]. unfold check_black_hole. rewrite E. destruct d; [| by eexists; split; [reflexivity |]].
  pose proof (MtudProofs.mo_mtu _ Hm) as [[_ Hmin] _]. unfold Datagrams.max_size, PathData.current_mtu. simpl.
  unfold checked_sub at 1. rewrite (proj2 (Z.ltb_ge _ _)) by (unfold Datagrams.SIZE_BOUND in *; lia).
  unfold checked_sub. rewrite (proj2 (Z.ltb_ge _ _)) by lia. destruct (max_datagram_frame_size c); by eexists; split; [reflexivity |].
Qed.

Lemma lose_probe_spec pn c : core None [] c → bare pn c →
  ∃ c', lose_probe pn c = Some c' ∧ core None [] c' ∧ kept c c' ∧ gone QuicPacket.SpaceData pn c c'
  ∧ mtud (path c') = MtuDiscovery.on_probe_lost (mtud (path c)).
Proof.
  intros Hc (info & Hg & Hf & _). unfold lose_probe. pose proof (take_spec QuicPacket.SpaceData pn [] c Hc) as Ht.
  pose proof (take_kept QuicPacket.SpaceData pn c) as [Hk1 Ep1]. destruct (take _ pn c) as [[info' |] c1]; simpl in Hk1, Ep1; [| by destruct Ht; congruence].
  destruct Ht as (Hg' & Hc1 & Hok & Hp1 & Hpo & _ & _). rewrite Hg in Hg'. injection Hg' as <-. rewrite Hf in Hc1.
  set (c2 := on_congestion _ c1). assert (Hc2 : core (Some info) [] c2) by (eapply core_same; [exact Hc1 | done]).
  destruct (remove_in_flight_spec pn info _ c2 Hc2) as (Hc3 & f & E3); [by eapply get_key in Hg; [lia | exact Hc] |]. rewrite E3 in *.
  eexists. split; [reflexivity |]. split; [eapply core_same; [exact Hc3 | done] |]. split; [exact Hk1 |]. split; [by split |]. by rewrite <- Ep1.
Qed.

Lemma lost_ordered id now delay largest owed fs c : core owed fs c →
  let l := lost_entries now id delay largest c in bt_ordered (-1) l ∧ Forall (λ e, bt_get e.1 (packets id c) = Some e.2) l.
Proof.
  intros Hc l. destruct (co_space _ _ _ Hc id) as [Hs _]. pose proof (tr_ordered _ _ Hs) as Ho. split.
  - unfold l, lost_entries, candidates. do 2 apply bt_ordered_filter. exact Ho.
  - rewrite Forall_forall. intros [k v] Hin. apply (bt_get_elem _ _ _ (-1)); [done |].
    by apply list_elem_of_filter in Hin as [_ [_ Hin]%list_elem_of_filter].
Qed.

Lemma lost_not_probe id now delay largest c k : k ∈ (lost_entries now id delay largest c).*1 → probe_of c ≠ Some k.
Proof.
  intros (e & -> & [Hl _]%list_elem_of_filter)%list_elem_of_fmap. unfold is_lost in Hl. apply andb_true_iff in Hl as [_ Hl].
  by apply negb_true_iff, bool_decide_eq_false in Hl.
Qed.

(** Losing packets of a space other than a probe. *)
Lemma on_packets_lost_spec now id largest_lost found delay largest c : inv c →
  let lost := lost_entries now id delay largest c in
  lost_packets found = lost.*1 → last (lost_packets found) = Some largest_lost →
  ∃ c', on_packets_lost now id largest_lost found c = Some c' ∧ inv c' ∧ kept c c' ∧ gone_all id lost.*1 c c'
  ∧ (probe_of c' = probe_of c ∨ MtuDiscovery.on_probe_lost (mtud (path c')) = mtud (path c') ∧ probe_of c' = None)
  ∧ ∀ k, probe_of c = Some k → bare k c'.
Proof.
  intros [Hc Ha] lost Hf Hlast. destruct (lost_ordered id now delay largest _ _ c Hc) as [Ho Hall]. fold lost in Ho, Hall.
  assert (Hasc : MtudProofs.ascending (-1) ((λ e, (e.1, size e.2)) <$> lost) = true) by (by apply ordered_ascending).
  destruct (MtudProofs.step_lost _ now _ (au_mtud _ Ha) Hasc) as (d & m' & Ed & Hm' & Hmin & _).
  unfold MtuDiscovery.detect_lost in Ed. destruct (MtuDiscovery.packets_lost _ _) as [m |] eqn:El; simpl in Ed; [| done].
  injection Ed as Ed. destruct (lose_packets_spec now id lost m c Hc (ordered_nodup _ _ Ho) Hall El) as (c1 & E1 & Hc1 & Hk1 & Hg1 & Em1).
  assert (Hprobe : ∀ k, probe_of c = Some k → bare k c1).
  { intros k Hk. destruct (au_probe _ Ha k Hk) as (info & Hi & Hi'). exists info. split; [| done].
    destruct (decide (id = QuicPacket.SpaceData)) as [-> | Hne]; [| by rewrite (proj1 (proj2 Hg1)) by done].
    rewrite (proj1 Hg1), decide_False; [done |]. intros Hin. by apply (lost_not_probe _ _ _ _ _ _ Hin). }
  unfold on_packets_lost. assert (Hlg : is_Some (bt_get largest_lost (packets id c))).
  { apply last_Some_elem_of in Hlast. rewrite Hf in Hlast. apply list_elem_of_fmap in Hlast as (e & -> & Hin).
    rewrite Forall_forall in Hall. rewrite (Hall e Hin). by eexists. }
  destruct Hlg as [info Hlg]. unfold packets in Hlg. rewrite Hlg, Hf, E1. rewrite <- Em1 in Ed.
  destruct (check_black_hole_spec now c1 d m' Ed Hm') as (c2 & -> & Hs2 & Hk2 & Em2).
  { rewrite Hmin. destruct Hk1 as (_ & _ & _ & -> & _). apply Ha. }
  assert (Hp2 : ∀ id', packets id' c2 = packets id' c1) by (intros; by apply same_packets).
  pose proof (black_hole_probe now m) as Hbh. rewrite <- Em1, Ed in Hbh. simpl in Hbh.
  assert (Hpr : probe_of c2 = probe_of c ∨ MtuDiscovery.on_probe_lost (mtud (path c2)) = mtud (path c2) ∧ probe_of c2 = None).
  { unfold probe_of. rewrite Em2. destruct Hbh as [-> | Hbh]; [left | by right]. rewrite Em1. by eapply losses_probe. }
  assert (Hk : kept c c2) by (by eapply kept_trans).
  assert (Hi2 : inv c2).
  { split; [by eapply core_same |]. eapply (aux_kept c); try done; rewrite ?Em2; try done.
    - intros k Hkk. unfold bare. rewrite Hp2. apply Hprobe. unfold probe_of in *. rewrite Em2 in Hpr. destruct Hpr as [<- | [_ Hn]]; congruence.
    - intros id'. rewrite Hp2. apply Hg1. }
  assert (Hg2 : gone_all id lost.*1 c c2) by (destruct Hg1 as (Ga & Gb & Ge); split; [| split]; intros; rewrite Hp2; auto).
  assert (Hb2 : ∀ k, probe_of c = Some k → bare k c2) by (intros k Hkk; unfold bare; rewrite Hp2; by apply Hprobe).
  destruct (negb _); eexists; (split; [reflexivity |]); [| done].
  split; [by eapply inv_same | done].
Qed.

(** The timer of the next loss set. *)
Definition set_loss_time id t c : Conn := set_space id ((space id c) <| loss_time := t |>) c.

Lemma inv_set_loss_time id t c : inv c → is_Some (largest_acked_packet (space id c)) → inv (set_loss_time id t c).
Proof.
  intros [Hc Ha] Hl. assert (Hs : same c (set_loss_time id t c)) by (by apply set_space_same). split; [by eapply core_same |].
  pose proof (λ id', same_packets _ _ id' Hs) as Hp. destruct Ha. unfold set_loss_time in *. split; rewrite ?set_space_path; try done; try (by destruct id).
  - intros id'. rewrite space_set. destruct (decide (id' = id)) as [-> |]; [done | apply au_loss0].
  - intros id'. rewrite Hp, space_set. destruct (decide (id' = id)) as [-> |]; [apply (au_time0 id) | apply au_time0].
Qed.

Lemma lost_set_loss_time now id delay largest t c : lost_entries now id delay largest (set_loss_time id t c) = lost_entries now id delay largest c.
Proof.
  assert (Hp : packets id (set_loss_time id t c) = packets id c) by (apply same_packets; by apply set_space_same).
  unfold lost_entries, candidates. rewrite Hp. by destruct id.
Qed.

(** The packets that the detection finds: those lost in its space, and the MTU probe. *)
Definition lost_now (now : Z) id (due : bool) (delay largest : Z) c id' (k : Z) : Prop :=
  id' = id ∧ k ∈ (lost_entries now id delay largest c).*1 ∨ id' = QuicPacket.SpaceData ∧ lost_mtu_probe (scan now id due delay largest c) = Some k.

(** Just the packets described by [P] have gone. *)
Definition gone_just (P : QuicPacket.SpaceId → Z → Prop) c c' : Prop :=
  ∀ id k, (P id k → bt_get k (packets id c') = None) ∧ (¬ P id k → bt_get k (packets id c') = bt_get k (packets id c)).

Lemma gone_just_none c : gone_just (λ _ _, False) c c.
Proof. done. Qed.

Lemma gone_just_trans P Q c1 c2 c3 : gone_just P c1 c2 → gone_just Q c2 c3 → (∀ id k, P id k ∨ ¬ P id k) → (∀ id k, Q id k ∨ ¬ Q id k) →
  gone_just (λ id k, P id k ∨ Q id k) c1 c3.
Proof.
  intros H1 H2 Hp Hq id k. destruct (H1 id k) as [H1a H1b], (H2 id k) as [H2a H2b]. destruct (Hp id k), (Hq id k); split; intros Hx; try tauto.
  - rewrite H2b by done. auto.
  - rewrite H2b by done. auto.
Qed.

Lemma gone_just_all id pns c c' : gone_all id pns c c' → gone_just (λ id' k, id' = id ∧ k ∈ pns) c c'.
Proof.
  intros (Ha & Hb & _) id' k. destruct (decide (id' = id)) as [-> | Hne].
  - rewrite Ha. destruct (decide (k ∈ pns)); split; [done | tauto | tauto | done].
  - rewrite Hb by done. split; [tauto | done].
Qed.

Lemma gone_just_one id pn owed fs c c' : core owed fs c → gone id pn c c' → gone_just (λ id' k, id' = id ∧ k = pn) c c'.
Proof.
  intros Hc [Ha Hb] id' k. destruct (decide (id' = id)) as [-> | Hne]; [| rewrite Hb by done; split; [tauto | done]].
  destruct (co_space _ _ _ Hc id) as [Hs _]. rewrite Ha, (bt_get_remove pn _ (packets id c) (-1) (tr_ordered _ _ Hs)).
  destruct (Z.eqb_spec k pn); split; [done | tauto | tauto | done].
Qed.

Lemma gone_just_iff P Q c c' : (∀ id k, P id k ↔ Q id k) → gone_just P c c' → gone_just Q c c'.
Proof. intros Hpq Hg id k. specialize (Hpq id k). specialize (Hg id k). tauto. Qed.

Lemma detect_lost_packets_spec now id due delay largest c : inv c → loss_delay c = Some delay →
  largest_acked_packet (space id c) = Some largest →
  ∃ c', detect_lost_packets now id due c = Some c' ∧ inv c'
  ∧ kept (set_loss_time id (sc_loss_time (scan now id due delay largest c)) c) c' ∧ gone_just (lost_now now id due delay largest c) c c'.
Proof.
  intros Hi Hd Hl. unfold detect_lost_packets. rewrite Hd, Hl.
  destruct (scan_found now id due delay largest c) as (H1 & _ & H3 & _ & _). set (found := scan now id due delay largest c) in *.
  fold (set_loss_time id (sc_loss_time found) c). set (c1 := set_loss_time id _ c).
  assert (Hi1 : inv c1) by (apply inv_set_loss_time; [done | by rewrite Hl]).
  assert (Hp1 : probe_of c1 = probe_of c) by (unfold c1, probe_of, set_loss_time; by rewrite set_space_path).
  assert (Hlost : ∀ pn, lost_mtu_probe found = Some pn → probe_of c1 = Some pn).
  { intros pn. rewrite Hp1, H3. by destruct (existsb _ _). }
  assert (Hgo : ∃ c2, (match last (lost_packets found) with Some l => on_packets_lost now id l found c1 | None => Some c1 end) = Some c2
    ∧ inv c2 ∧ kept c1 c2 ∧ (probe_of c2 = probe_of c1 ∨ MtuDiscovery.on_probe_lost (mtud (path c2)) = mtud (path c2) ∧ probe_of c2 = None)
    ∧ (∀ k, probe_of c1 = Some k → bare k c2) ∧ gone_just (λ id' k, id' = id ∧ k ∈ (lost_entries now id delay largest c).*1) c1 c2).
  { destruct (last (lost_packets found)) as [ll |] eqn:El.
    - rewrite <- (lost_set_loss_time now id delay largest (sc_loss_time found) c) in H1. fold c1 in H1.
      destruct (on_packets_lost_spec now id ll found delay largest c1 Hi1 H1 El) as (c2 & E2 & Hi2 & Hk2 & Hg2 & Hp2 & Hb2).
      exists c2. do 5 (split; [done |]). apply gone_just_all in Hg2. unfold c1 in Hg2. by rewrite lost_set_loss_time in Hg2.
    - exists c1. split; [done |]. split; [done |]. split; [done |]. split; [by left |]. split; [intros k; apply Hi1 |].
      apply last_None in El. rewrite H1 in El. rewrite El. intros id' k. split; [by intros [_ ?%elem_of_nil] | done]. }
  assert (Hp0 : ∀ id', packets id' c1 = packets id' c) by (intros id'; apply same_packets; by apply set_space_same).
  destruct Hgo as (c2 & -> & Hi2 & Hk2 & Hp2 & Hb2 & Hg2). assert (Hg : gone_just (λ id' k, id' = id ∧ k ∈ (lost_entries now id delay largest c).*1) c c2).
  { intros id' k. rewrite <- Hp0. apply Hg2. }
  clear Hg2. unfold lost_now. fold found.
  destruct (lost_mtu_probe found) as [pn |] eqn:Ep.
  2: { exists c2. do 3 (split; [done |]). eapply gone_just_iff; [| exact Hg]. intros id' k. simpl. naive_solver. }
  specialize (Hlost pn eq_refl). destruct Hi2 as [Hc2 Ha2].
  destruct (lose_probe_spec pn c2 Hc2 (Hb2 pn Hlost)) as (c3 & E3 & Hc3 & Hk3 & Hg3 & Em3). exists c3. split; [exact E3 |].
  split; [| split; [by eapply kept_trans |]].
  2: { eapply gone_just_iff; [| eapply gone_just_trans; [exact Hg | by eapply gone_just_one | |]]; intros id' k; simpl.
       - naive_solver.
       - destruct (decide (id' = id ∧ k ∈ (lost_entries now id delay largest c).*1)); auto.
       - destruct (decide (id' = QuicPacket.SpaceData ∧ k = pn)); auto. }
  split; [done |]. assert (Hm : MtudProofs.mtud_ok (mtud (path c3)) ∧ MtudProofs.min_of (mtud (path c3)) = MtudProofs.min_of (mtud (path c2))
    ∧ MtuDiscovery.in_flight_mtu_probe (mtud (path c3)) = None).
  { rewrite Em3. destruct Hp2 as [Hp2 | [-> Hp2]]; [| split; [apply Ha2 | by split]]. rewrite Hlost in Hp2.
    destruct (MtudProofs.step_probe_lost (mtud (path c2)) (au_mtud _ Ha2)) as (? & ? & _); [unfold probe_of in Hp2; by rewrite Hp2 |].
    split; [done |]. split; [done |]. apply probe_lost_none. }
  destruct Hm as (Hm1 & Hm2 & Hm3). eapply (aux_kept c2); try done.
  - intros k. by rewrite Hm3.
  - intros id'. by eapply gone_eliciting.
Qed.

(** ** The timer *)

Lemma eliciting_size id m : Forall (λ e, packet_ok id e.2) m → 0 < eliciting m → 0 < sum_sizes m.
Proof.
  intros Hm. induction Hm as [| e m (Hu & He & _) Hm IH]; [done |]. rewrite (eliciting_app [e] m : eliciting (e :: m) = _), eliciting_one.
  assert (0 ≤ sum_sizes m) by (apply sum_sizes_bound; eapply Forall_impl; [exact Hm | intros ? Hx; apply Hx]).
  destruct e as [k p]. unfold is_u in Hu. simpl in *. destruct (ack_eliciting p); [specialize (He eq_refl); lia |]. simpl. intros. specialize (IH ltac:(lia)). lia.
Qed.

(** A probe timeout can ask for packets of the space. *)
Definition probeable id c : Prop := 0 < eliciting (packets id c) ∧ (id = QuicPacket.SpaceData → is_handshake (state c) = false).

Definition backoff c : Z := 2 ^ Z.min (pto_count c) MAX_BACKOFF_EXPONENT.

(** When it does, if the last ack-eliciting packet was sent at [time]. *)
Definition probe_time id (time : Z) c : Z := time + pto id c * backoff c.

(** The loss detection timer is set for the first loss, else for the probe timeout of each space
    that has packets in flight, or for a client whose packets may all have been dropped. *)
Definition armed c : Prop :=
  is_closed (state c) = false →
  match loss_time_and_space c with
  | Some (t, _) => t_loss_detection (timers c) = Some t
  | None =>
    anti_amplification_blocked 1 (path c) = false →
    (∀ id, probeable id c → ∃ t time, t_loss_detection (timers c) = Some t ∧ time_of_last_ack_eliciting_packet (space id c) = Some time
       ∧ t ≤ probe_time id time c)
    ∧ (in_flight_ack_eliciting (in_flight (path c)) = 0 → peer_completed_address_validation c = false → is_Some (t_loss_detection (timers c)))
  end.

(** It stays armed when nothing of this changes, or the path becomes blocked. *)
Lemma armed_stays c c' : state c' = state c → t_loss_detection (timers c') = t_loss_detection (timers c) → pto_count c' = pto_count c →
  ack_frequency c' = ack_frequency c → in_flight_ack_eliciting (in_flight (path c')) = in_flight_ack_eliciting (in_flight (path c)) →
  rtt (path c') = rtt (path c) →
  (anti_amplification_blocked 1 (path c) = true → anti_amplification_blocked 1 (path c') = true) →
  (∀ id, eliciting (packets id c') = eliciting (packets id c) ∧ loss_time (space id c') = loss_time (space id c)
     ∧ time_of_last_ack_eliciting_packet (space id c') = time_of_last_ack_eliciting_packet (space id c)) →
  (peer_completed_address_validation c = true → peer_completed_address_validation c' = true) → armed c → armed c'.
Proof.
  intros Est Etm Epc Eaf Eif Ert Hb Hsp Hpc Ha. unfold armed. rewrite Est, Etm, Eif. intros Hcl. specialize (Ha Hcl).
  assert (Elt : loss_time_and_space c' = loss_time_and_space c).
  { unfold loss_time_and_space, space_ids. cbn [fold_left]. rewrite !(proj1 (proj2 (Hsp _))). done. }
  rewrite Elt. destruct (loss_time_and_space c) as [[] |]; [done |]. intros Hbl. assert (Hbl0 : anti_amplification_blocked 1 (path c) = false).
  { apply not_true_is_false. intros Ht. rewrite (Hb Ht) in Hbl. done. }
  destruct (Ha Hbl0) as [H1 H2]. split.
  - intros id [He Hd]. destruct (Hsp id) as (Hp & _ & Ht). rewrite Hp in He. rewrite Est in Hd. destruct (H1 id (conj He Hd)) as (t & time & ? & ? & ?).
    exists t, time. rewrite Ht. split; [done |]. split; [done |]. unfold probe_time, pto, backoff in *. by rewrite Ert, Epc, Eaf.
  - intros E0 Ep. apply H2; [done |]. apply not_true_is_false. intros Ht. rewrite (Hpc Ht) in Ep. done.
Qed.

(** The loop finds the earliest of the spaces. *)
Lemma pto_loop_spec c : (∀ id, probeable id c → PacketSpace.in_flight (ps (space id c)) ≠ 0 ∧ is_Some (time_of_last_ack_eliciting_packet (space id c))) →
  ∀ id, probeable id c → ∃ t i time, pto_loop space_ids (backoff c) (RttEstimator.pto_base (rtt (path c)) * backoff c) None c = Some (t, i)
    ∧ time_of_last_ack_eliciting_packet (space id c) = Some time ∧ t ≤ probe_time id time c.
Proof.
  intros Hpre id Hid. destruct (Hpre id Hid) as [Hf [time Ht]]. unfold probe_time, pto, space_ids. cbn [pto_loop space].
  set (b := backoff c). set (base := RttEstimator.pto_base (rtt (path c))). set (mad := AckFrequency.max_ack_delay_for_pto (ack_frequency c)).
  assert (Hd : id = QuicPacket.SpaceData → is_handshake (state c) = false) by apply Hid.
  destruct id; cbn [space] in *; rewrite Ht; apply Z.eqb_neq in Hf; rewrite Hf; try rewrite (Hd eq_refl);
    rewrite ?Z.mul_add_distr_r; cbn beta iota;
    repeat (match goal with |- context [match ?x with _ => _ end] => destruct x eqn:? end);
    do 3 eexists; (split; [reflexivity |]); (split; [reflexivity |]); zbool; try lia;
    repeat match goal with E : (if ?x then _ else _) = _ |- _ => destruct x eqn:?; simplify_eq end; zbool; lia.
Qed.

Lemma set_timer_spec now c : inv c → ∃ c' t, set_loss_detection_timer now c = Some c' ∧ c' = c <| timers := (timers c) <| t_loss_detection := t |> |>
  ∧ inv c' ∧ armed c'.
Proof.
  intros Hi. pose proof Hi as [Hc Ha]. unfold set_loss_detection_timer, armed, set_loss_timer. destruct (is_closed (state c)) eqn:Ecl.
  { exists c, (t_loss_detection (timers c)). split; [done |]. split; [destruct c as [? ? ? ? ? ? ? ? ? ? ? ? ? tm]; by destruct tm |]. split; [done |]. rewrite Ecl. done. }
  destruct (loss_time_and_space c) as [[t id] |] eqn:El.
  { do 2 eexists. split; [reflexivity |]. split; [reflexivity |]. split; [by eapply inv_same |]. intros _. change (loss_time_and_space _) with (loss_time_and_space c). by rewrite El. }
  assert (Hset : ∀ t, (anti_amplification_blocked 1 (path c) = false → (∀ id, probeable id c → ∃ t' time, t = Some t'
      ∧ time_of_last_ack_eliciting_packet (space id c) = Some time ∧ t' ≤ probe_time id time c)
      ∧ (in_flight_ack_eliciting (in_flight (path c)) = 0 → peer_completed_address_validation c = false → is_Some t)) →
    ∃ c' t', Some (c <| timers := (timers c) <| t_loss_detection := t |> |>) = Some c'
    ∧ c' = c <| timers := (timers c) <| t_loss_detection := t' |> |> ∧ inv c'
    ∧ (is_closed (state c') = false →
      match loss_time_and_space c' with
      | Some (t, _) => t_loss_detection (timers c') = Some t
      | None => anti_amplification_blocked 1 (path c') = false →
          (∀ id, probeable id c' → ∃ t time, t_loss_detection (timers c') = Some t
             ∧ time_of_last_ack_eliciting_packet (space id c') = Some time ∧ t ≤ probe_time id time c')
          ∧ (in_flight_ack_eliciting (in_flight (path c')) = 0 → peer_completed_address_validation c' = false → is_Some (t_loss_detection (timers c')))
      end)).
  { intros t Ht. do 2 eexists. split; [reflexivity |]. split; [reflexivity |]. split; [by eapply inv_same |]. intros _.
    change (loss_time_and_space _) with (loss_time_and_space c). rewrite El. exact Ht. }
  destruct (anti_amplification_blocked 1 (path c)) eqn:Eb; [by apply Hset |].
  assert (Hpre : ∀ id, probeable id c → PacketSpace.in_flight (ps (space id c)) ≠ 0 ∧ is_Some (time_of_last_ack_eliciting_packet (space id c))).
  { intros id [He _]. split; [| by apply Ha]. rewrite (core_in_flight _ _ _ id Hc). pose proof (eliciting_size id _ (co_packets _ _ _ Hc id) He). lia. }
  destruct (core_bounds _ _ _ Hc) as (Hbd & _). assert (Hcount : ∀ id, probeable id c → in_flight_ack_eliciting (in_flight (path c)) ≠ 0).
  { intros id [He _]. rewrite (co_count _ _ _ Hc). unfold sum_ids. simpl.
    pose proof (Hbd QuicPacket.SpaceInitial). pose proof (Hbd QuicPacket.SpaceHandshake). pose proof (Hbd QuicPacket.SpaceData). destruct id; lia. }
  unfold pto_time_and_space. destruct (in_flight_ack_eliciting (in_flight (path c)) =? 0) eqn:E0; zbool; cbn [andb].
  - destruct (peer_completed_address_validation c) eqn:Epc; apply Hset; intros _; (split; [intros id Hid; by destruct (Hcount id Hid) |]); [done | by eexists].
  - pose proof (pto_loop_spec c Hpre) as Hl. fold (backoff c).
    destruct (pto_loop _ _ _ _ _) as [[t i] |]; apply Hset; intros _; (split; [| done]); intros id Hid; destruct (Hl id Hid) as (t' & i' & time & E & Ht & Hle); [| done].
    injection E as <- <-. by exists t, time.
Qed.

Lemma blocked_credit c c' : credit c' = credit c → anti_amplification_blocked 1 (path c') = anti_amplification_blocked 1 (path c).
Proof. unfold credit, anti_amplification_blocked. by intros [= -> -> ->]. Qed.

(** ** Packets sent *)

(** Recording a packet appends it, and may forget one that elicits no acknowledgement. *)
Lemma sent_entries nxt n (p : Packet) s : space_inv nxt s → nxt ≤ n →
  ∃ forgotten s', PacketSpace.sent n p s = Some (forgotten, s') ∧ space_inv (n + 1) s' ∧ next_packet_number s' = next_packet_number s
  ∧ ∃ l1 dropped l2, sent_packets s = l1 ++ dropped ++ l2 ∧ sent_packets s' = (l1 ++ l2) ++ [(n, p)] ∧ forgotten = sum_sizes dropped
    ∧ Forall (λ e, ack_eliciting e.2 = false) dropped.
Proof.
  intros Hs Hn. destruct (sent_inv nxt n p s Hs Hn) as (f & s' & E & Hs' & _). exists f, s'. split; [exact E |]. split; [done |].
  assert (Hk : keys_lt n (sent_packets s)) by (eapply keys_lt_weaken; [exact Hn | apply Hs]).
  unfold PacketSpace.sent in E. destruct (ack_eliciting p).
  { injection E as <- <-. split; [done |]. exists (sent_packets s), [], []. simpl. rewrite app_nil_r. split; [done |]. split; [by apply keys_lt_snoc |]. done. }
  destruct (_ >? _).
  - destruct (bt_succ _ _) as [[j v] |] eqn:Ej; [| done]. destruct (bt_succ_get _ _ _ _ _ (si_ordered _ _ Hs) Ej) as [Hlt Hg].
    destruct (bt_get_split _ _ _ _ (si_ordered _ _ Hs) Hg) as (l1 & l2 & El & Er). injection E as <- <-. split; [done |].
    exists l1, [(j, v)], l2. split; [done |]. split; [| split; [simpl; lia |]].
    + simpl. rewrite Er. apply keys_lt_snoc. rewrite El in Hk. apply Forall_app in Hk as [Hk1 [_ Hk2]%Forall_cons]. by apply Forall_app.
    + constructor; [| constructor]. pose proof (si_eliciting _ _ Hs) as He. rewrite El in He. apply Forall_app in He as [_ [He _]%Forall_cons]. by apply He.
  - injection E as <- <-. split; [done |]. exists (sent_packets s), [], []. simpl. rewrite app_nil_r. split; [done |]. split; [by apply keys_lt_snoc |]. done.
Qed.

Lemma dropped_empty (m : list (Z * Packet)) id : Forall (λ e, ack_eliciting e.2 = false) m → Forall (λ e, packet_ok id e.2) m →
  eliciting m = 0 ∧ frames_in m = [].
Proof.
  intros He Hp. induction He as [| e m He Hm IH]; [done |]. apply Forall_cons in Hp as [(_ & _ & Hf) Hp]. destruct (IH Hp) as [E1 E2].
  rewrite (eliciting_app [e] m : eliciting (e :: m) = _), eliciting_one, (frames_in_app [e] m : frames_in (e :: m) = _), He, E1, E2. split; [done |].
  unfold frames_in. simpl. destruct (items e.2); [done |]. destruct Hf as [_ Hf]; [done | congruence].
Qed.

(** The path and the space after a packet was recorded. *)
Lemma path_sent_spec id pn (p : Packet) n c : core None (items p) c →
  space_inv n (ps (space id c)) → n ≤ pn → next_packet_number (ps (space id c)) = pn + 1 → packet_ok id p → (first_packet (path c) = None → pn = 0) →
  ∃ q s' l1 dropped l2, PathData.sent pn p (ps (space id c)) (path c) = Some (q, s')
  ∧ core None [] (set_space id ((space id c) <| ps := s' |>) (c <| path := q |>))
  ∧ packets id c = l1 ++ dropped ++ l2 ∧ sent_packets s' = (l1 ++ l2) ++ [(pn, p)] ∧ Forall (λ e, ack_eliciting e.2 = false) dropped
  ∧ (∃ f first, q = (path c) <| in_flight := f |> <| first_packet := first |>) ∧ next_packet_number s' = pn + 1.
Proof.
  intros Hc Hs Hn Hnext Hp Hfirst. pose proof (co_known _ _ _ Hc) as Hkn. destruct (sent_entries n pn p _ Hs Hn) as (f & s' & E & Hs' & Hnx & l1 & dropped & l2 & El & El' & -> & Hd).
  pose proof (core_bounds _ _ _ Hc) as (Hb & _). unfold PathData.sent. rewrite E. do 5 eexists. split; [reflexivity |].
  pose proof (co_packets _ _ _ Hc id) as Hall. unfold packets in Hall at 1. rewrite El in Hall.
  apply Forall_app in Hall as [Ha1 [Had Ha2]%Forall_app]. destruct (dropped_empty _ _ Hd Had) as [Ede Edf].
  split; [| split; [exact El |]; split; [exact El' |]; split; [done |]; split; [| by rewrite Hnx]].
  2: { set (i := insert p (in_flight (path c))). exists (mk_in_flight (wrapping_sub 64 (bytes i) (sum_sizes dropped)) (in_flight_ack_eliciting i)),
         (match first_packet (path c) with Some x => Some x | None => Some pn end).
       unfold i. by destruct (path c) as [? ? ? ? ? ? ? ? ? ? ? ? ? [] ? ?]. }
  set (c' := set_space id _ _). assert (Epk : ∀ id', ps (space id' c') = if decide (id' = id) then s' else ps (space id' c)).
  { intros id'. unfold c'. rewrite space_set. by destruct (decide (id' = id)). }
  assert (Eid : packets id c' = (l1 ++ l2) ++ [(pn, p)]) by (unfold packets; rewrite Epk, decide_True by done; exact El').
  assert (Eo : ∀ id', id' ≠ id → packets id' c' = packets id' c) by (intros; unfold packets; by rewrite Epk, decide_False).
  assert (Eid0 : packets id c = l1 ++ dropped ++ l2) by exact El.
  destruct Hc. split.
  - by destruct id.
  - intros id'. rewrite Epk. destruct (decide (id' = id)) as [-> |]; [| apply co_space0]. rewrite Hnx, Hnext. split; [by apply space_inv_tracked |].
    destruct (co_space0 id). lia.
  - intros id'. rewrite Epk. destruct (decide (id' = id)) as [-> | Hne]; [left; by rewrite Hnx, Hnext |].
    replace (has_crypto (space id' c')) with (has_crypto (space id' c)) by (unfold c'; rewrite space_set, decide_False by done; by destruct id').
    unfold c'. rewrite set_space_highest. apply co_live0.
  - intros id'. destruct (decide (id' = id)) as [-> | Hne]; [| by rewrite Eo]. rewrite Eid. apply Forall_app. split; [by apply Forall_app | by constructor].
  - done.
  - transitivity (wrapping_sub 64 (wrapping_add 64 (bytes (in_flight (path c))) (size p)) (sum_sizes dropped)); [unfold c'; rewrite set_space_path; simpl; by destruct (first_packet (path c)) |].
    rewrite co_bytes0. rewrite (sum_ids_upd (λ id, sum_sizes (packets id c)) (λ id, sum_sizes (packets id c')) id (size p - sum_sizes dropped));
      [| rewrite Eid, Eid0, !sum_sizes_app; simpl; lia | intros; by rewrite Eo].
    unfold wrapping_sub, wrapping_add. rewrite wrap_sub_l. rewrite wrap_small; simpl; [lia |].
    pose proof (Hb QuicPacket.SpaceInitial). pose proof (Hb QuicPacket.SpaceHandshake). pose proof (Hb QuicPacket.SpaceData).
    destruct Hp as (Hu & _).
    assert (0 ≤ sum_sizes l1 ∧ 0 ≤ sum_sizes dropped ∧ 0 ≤ sum_sizes l2).
    { split; [| split]; apply sum_sizes_bound; (eapply Forall_impl; [eassumption | intros ? Hx; apply Hx]). }
    assert (sum_sizes dropped ≤ sum_sizes (packets id c)) by (rewrite Eid0, !sum_sizes_app; lia). unfold is_u, sum_ids in *. destruct id; lia.
  - transitivity (wrapping_add 64 (in_flight_ack_eliciting (in_flight (path c))) (Z.b2z (ack_eliciting p))); [unfold c'; rewrite set_space_path; simpl; by destruct (first_packet (path c)) |].
    rewrite co_count0. rewrite (sum_ids_upd (λ id, eliciting (packets id c)) (λ id, eliciting (packets id c')) id (Z.b2z (ack_eliciting p)));
      [| rewrite Eid, Eid0, !eliciting_app, eliciting_one; simpl; lia | intros; by rewrite Eo].
    unfold wrapping_add. rewrite wrap_small; simpl; [lia |].
    pose proof (Hb QuicPacket.SpaceInitial). pose proof (Hb QuicPacket.SpaceHandshake). pose proof (Hb QuicPacket.SpaceData).
    unfold is_u, sum_ids, MAX_NUMBER in *. destruct (ack_eliciting p); simpl; lia.
  - replace (first_packet (path c')) with (match first_packet (path c) with Some x => Some x | None => Some pn end)
      by (unfold c'; rewrite set_space_path; simpl; by destruct (first_packet (path c)) eqn:Ef; simpl). destruct (first_packet (path c)); [done | by apply Hfirst].
  - replace (streams c') with (streams c) by (by destruct id). eapply known_perm; [| exact Hkn]. unfold frames_of. simpl.
    destruct (decide (id = QuicPacket.SpaceData)) as [-> | Hne].
    + rewrite Eid, Eid0, !frames_in_app, Edf. simpl. change (frames_in [(pn, p)]) with (items p ++ []). rewrite app_nil_r. apply Permutation_app_comm.
    + rewrite Eo by done. destruct Hp as (_ & _ & Hp). destruct (items p); [done |]. destruct Hp; done.
Qed.

Lemma eliciting_snoc id pn (p : Packet) l1 dropped l2 c c' : packets id c = l1 ++ dropped ++ l2 → packets id c' = (l1 ++ l2) ++ [(pn, p)] →
  Forall (λ e, packet_ok id e.2) (packets id c) → Forall (λ e, ack_eliciting e.2 = false) dropped →
  eliciting (packets id c') = eliciting (packets id c) + Z.b2z (ack_eliciting p).
Proof.
  intros E E' Hp Hd. rewrite E in *. apply Forall_app in Hp as [_ [Hp _]%Forall_app]. rewrite E', !eliciting_app, eliciting_one.
  rewrite (proj1 (dropped_empty dropped id Hd Hp)). simpl. lia.
Qed.

(** Packets that elicit acknowledgements are not forgotten. *)
Lemma snoc_get id pn (p : Packet) l1 dropped l2 c c' n k info : packets id c = l1 ++ dropped ++ l2 → packets id c' = (l1 ++ l2) ++ [(pn, p)] →
  bt_ordered n (packets id c) → bt_ordered n (packets id c') → Forall (λ e, ack_eliciting e.2 = false) dropped →
  ack_eliciting info = true → bt_get k (packets id c) = Some info → bt_get k (packets id c') = Some info.
Proof.
  intros E E' Ho Ho' Hd He Hg. eapply bt_get_elem; [exact Ho' |]. destruct (bt_get_split _ _ _ _ Ho Hg) as (k1 & k2 & Ek & _).
  assert (Hin : (k, info) ∈ packets id c) by (rewrite Ek; apply elem_of_app; right; left). rewrite E' . rewrite E in Hin.
  rewrite !elem_of_app in *. destruct Hin as [? | [Hin | ?]]; [by left; left | | by left; right].
  rewrite Forall_forall in Hd. specialize (Hd _ Hin). simpl in Hd. congruence.
Qed.

(** The part of [track] before the timer is set. *)
Definition stamp (now : Z) id (elicits : bool) c : Conn :=
  if elicits then
    let c := set_space id ((space id c) <| time_of_last_ack_eliciting_packet := Some now |>) c in
    let c := if permit_idle_reset c then reset_idle_timeout now id c else c in
    c <| permit_idle_reset := false |>
  else c.

Lemma idle_reset_timers now id c : ∃ tm, (if permit_idle_reset c then reset_idle_timeout now id c else c) = c <| timers := tm |>.
Proof.
  exists (timers (if permit_idle_reset c then reset_idle_timeout now id c else c)). unfold reset_idle_timeout.
  destruct c as [? ? ? ? ? ? ? ? ? ? ? ? ? ? ? it [] ? ? ? ? ?]; simpl; [destruct it; simpl; [by destruct (is_closed _) |] |]; done.
Qed.

Lemma keep_alive_timers now c : ∃ tm, reset_keep_alive now c = c <| timers := tm |> ∧ t_loss_detection tm = t_loss_detection (timers c).
Proof.
  exists (timers (reset_keep_alive now c)). unfold reset_keep_alive. destruct c. simpl.
  destruct (keep_alive_interval _); [destruct (is_established _) |]; done.
Qed.

Lemma stamp_spec now id elicits c : let c' := stamp now id elicits c in
  same c c' ∧ path c' = path c ∧ state c' = state c ∧ overhead c' = overhead c ∧ ack_delay_exponent c' = ack_delay_exponent c
  ∧ ∀ id', loss_time (space id' c') = loss_time (space id' c) ∧ largest_acked_packet (space id' c') = largest_acked_packet (space id' c)
    ∧ time_of_last_ack_eliciting_packet (space id' c') =
      if decide (id' = id ∧ elicits = true) then Some now else time_of_last_ack_eliciting_packet (space id' c).
Proof.
  unfold stamp. destruct elicits; simpl; [| do 5 (split; [done |]); intros id'; rewrite decide_False by naive_solver; done].
  set (c1 := set_space id _ c). assert (H1 : same c c1) by (by apply set_space_same). assert (Ep : path c1 = path c) by apply set_space_path.
  destruct (idle_reset_timers now id c1) as [tm ->]. split; [exact H1 |]. split; [exact Ep |]. do 3 (split; [unfold c1; by destruct id |]).
  intros id'. assert (Esp : space id' (c1 <| timers := tm |> <| permit_idle_reset := false |>) = space id' c1) by (by destruct id'). rewrite Esp.
  unfold c1. rewrite space_set. destruct (decide (id' = id)) as [-> | Hne]; [rewrite decide_True by done | rewrite decide_False by (by intros [? _])]; done.
Qed.

(** A packet is tracked; [m]: it may be a probe that MTU discovery has just begun. *)
Lemma track_spec now id pn (p : Packet) n m c : inv_with (items p) c →
  space_inv n (ps (space id c)) → n ≤ pn → next_packet_number (ps (space id c)) = pn + 1 → packet_ok id p → (first_packet (path c) = None → pn = 0) →
  MtudProofs.mtud_ok m → MtudProofs.min_of m = MtudProofs.min_of (mtud (path c)) →
  (∀ k, MtuDiscovery.in_flight_mtu_probe m = Some k →
     probe_of c = Some k ∨ k = pn ∧ id = QuicPacket.SpaceData ∧ items p = [] ∧ ack_eliciting p = true) →
  ∃ c', track now id pn p (c <| path := (path c) <| mtud := m |> |>) = Some c' ∧ inv c' ∧ (size p ≠ 0 → armed c') ∧ (armed c → armed c')
  ∧ credit c' = credit c.
Proof.
  intros [Hc Ha] Hs Hn Hnext Hp Hfirst Hm Hmin Hpr. set (cm := c <| path := _ |>). assert (Hcm : core None (items p) cm) by (by eapply core_same).
  destruct (path_sent_spec id pn p n cm Hcm) as (q & s' & l1 & dropped & l2 & E & Hc1 & El & El' & Hd & (fl & fp & Eq) & Hnx); try done; try (by destruct id).
  unfold track. assert (Eps : ps (space id cm) = ps (space id c)) by (by destruct id). rewrite E.
  set (c1 := set_space id _ _) in *. match goal with |- context [reset_keep_alive now ?x] => set (c2 := x) end. destruct (keep_alive_timers now c2) as (tm & -> & Etm). set (c3 := c2 <| timers := tm |>).
  assert (H3 : same c1 c3 ∧ kept c1 c3 ∧ mtud (path c3) = m).
  { unfold c3, c2. assert (mtud (path c1) = m) by (unfold c1; rewrite set_space_path; simpl; by rewrite Eq). by destruct (negb (size p =? 0)). }
  assert (F3 : pto_count c3 = pto_count c ∧ ack_frequency c3 = ack_frequency c ∧ rtt (path c3) = rtt (path c)
    ∧ t_loss_detection (timers c3) = t_loss_detection (timers c) ∧ ∀ id', has_crypto (space id' c3) = has_crypto (space id' c)).
  { assert (F1 : pto_count c1 = pto_count c ∧ ack_frequency c1 = ack_frequency c ∧ rtt (path c1) = rtt (path c) ∧ timers c1 = timers c
      ∧ ∀ id', has_crypto (space id' c1) = has_crypto (space id' c)).
    { unfold c1. rewrite set_space_path. split; [by destruct id |]. split; [by destruct id |]. split; [simpl; by rewrite Eq |]. split; [by destruct id |].
      intros id'. rewrite space_set. destruct (decide (id' = id)) as [-> |]; by destruct id || destruct id'. }
    destruct F1 as (? & ? & ? & F1 & ?). unfold c3. simpl. rewrite Etm, <- F1. unfold c2. by destruct (negb (size p =? 0)). }
  clearbody c3. destruct H3 as (Hs3 & Hk3 & Em3). assert (Hk1 : kept c c1).
  { eapply (kept_trans _ (cm <| path := q |>)); [by rewrite Eq |]. apply set_space_kept. unfold marks. rewrite Eps in *.
    destruct id; simpl in *; by rewrite Hnx, Hnext. }
  pose proof (kept_trans _ _ _ Hk1 Hk3) as Hk. pose proof (core_same _ _ _ _ Hc1 Hs3) as Hc3.
  set (elicits := negb (size p =? 0) && ack_eliciting p).
  pose proof (stamp_spec now id elicits c3) as (Hs4 & Ep4 & Est4 & Eo4 & Ee4 & Hsp4). set (c4 := stamp now id elicits c3) in *.
  assert (Hpk1 : packets id c1 = (l1 ++ l2) ++ [(pn, p)]) by (unfold packets, c1; rewrite space_set_eq; exact El').
  assert (Hpk : ∀ id', packets id' c4 = packets id' c1) by (intros; rewrite (same_packets c3 c4), (same_packets c1 c3); done).
  assert (Hpo : ∀ id', id' ≠ id → packets id' c1 = packets id' c) by (intros; unfold packets, c1; rewrite space_set, decide_False by done; by destruct id').
  assert (El0 : packets id c = l1 ++ dropped ++ l2) by (rewrite <- El; unfold packets; by rewrite Eps).
  assert (Hi4 : inv c4).
  { split; [by eapply core_same |]. destruct Hk as (_ & _ & _ & Ko & Ke & _ & _ & Kmk).
    split; rewrite ?Ep4, ?Em3, ?Eo4, ?Ee4, ?Ko, ?Ke, ?Hmin; try done; try apply Ha.
    - intros k Hkk. unfold bare. rewrite Hpk. destruct (Hpr k Hkk) as [Hold | (-> & -> & Hf & He)].
      + destruct (au_probe _ Ha k Hold) as (info & Hg & Hf & He). exists info. split; [| done].
        destruct (decide (QuicPacket.SpaceData = id)) as [<- | Hne]; [| by rewrite Hpo].
        eapply (snoc_get _ pn p l1 dropped l2 c c1 (-1)); try done; [apply (co_space _ _ _ Hc) | apply (co_space _ _ _ Hc1)].
      + exists p. split; [| done]. rewrite Hpk1. eapply (bt_get_elem _ _ _ (-1)); [rewrite <- Hpk1; apply (co_space _ _ _ Hc1) |].
        apply elem_of_app. right. left.
    - intros id'. destruct (Hsp4 id') as (-> & -> & _). specialize (Kmk id'). unfold marks in Kmk. injection Kmk as -> _ -> _ _. apply Ha.
    - intros id' Hel. destruct (Hsp4 id') as (_ & _ & ->). specialize (Kmk id'). unfold marks in Kmk. injection Kmk as _ _ _ -> _.
      destruct (decide _) as [| Hne]; [done |]. apply Ha. rewrite Hpk in Hel. destruct (decide (id' = id)) as [-> |]; [| by rewrite <- Hpo].
      rewrite (eliciting_snoc id pn p l1 dropped l2 c c1 El0 Hpk1 (co_packets _ _ _ Hc id) Hd) in Hel. unfold elicits in Hne.
      destruct Hp as (_ & Hsz & _). destruct (ack_eliciting p); simpl in Hel; [| lia]. specialize (Hsz eq_refl).
      rewrite (proj2 (Z.eqb_neq _ _)) in Hne by lia. exfalso. by apply Hne. }
  assert (Hcr : credit c3 = credit c) by apply Hk. destruct (negb (size p =? 0)) eqn:Esz; simpl in elicits.
  - destruct (set_timer_spec now c4 Hi4) as (c5 & t & E5 & Ec5 & Hi5 & Ha5). exists c5. split; [exact E5 |]. split; [done |]. split; [done |].
    rewrite Ec5. split; [intros _; by rewrite <- Ec5 |]. rewrite <- Hcr. unfold credit. simpl. by rewrite Ep4.
  - exists c3. apply negb_false_iff in Esz. zbool. split; [done |]. split; [done |]. split; [done |]. split; [| done].
    assert (Hne : ack_eliciting p = false) by (destruct Hp as (_ & Hsz & _); destruct (ack_eliciting p); [specialize (Hsz eq_refl); lia | done]).
    assert (Hel : ∀ id', eliciting (packets id' c3) = eliciting (packets id' c)).
    { intros id'. change c3 with c4. rewrite Hpk. destruct (decide (id' = id)) as [-> |]; [| by rewrite Hpo].
      rewrite (eliciting_snoc id pn p l1 dropped l2 c c1 El0 Hpk1 (co_packets _ _ _ Hc id) Hd), Hne. simpl. lia. }
    destruct Hk as (Ksd & Kst & _ & _ & _ & _ & _ & Kmk), F3 as (? & ? & ? & ? & Fk).
    assert (Hmk : ∀ id', largest_acked_packet (space id' c3) = largest_acked_packet (space id' c) ∧ loss_time (space id' c3) = loss_time (space id' c)
      ∧ time_of_last_ack_eliciting_packet (space id' c3) = time_of_last_ack_eliciting_packet (space id' c)).
    { intros id'. specialize (Kmk id'). unfold marks in Kmk. by injection Kmk as -> _ -> -> _. }
    apply armed_stays; try done.
    + rewrite (co_count _ _ _ Hc3), (co_count _ _ _ Hc). f_equal. apply sum_ids_ext. done.
    + by rewrite (blocked_credit _ _ Hcr).
    + intros id'. destruct (Hmk id') as (_ & ? & ?). done.
    + unfold peer_completed_address_validation. rewrite Ksd, Kst.
      pose proof (Fk QuicPacket.SpaceData) as K1. pose proof (Fk QuicPacket.SpaceHandshake) as K2.
      destruct (Hmk QuicPacket.SpaceData) as [L1 _], (Hmk QuicPacket.SpaceHandshake) as [L2 _]. simpl in *. by rewrite K1, K2, L1, L2.
Qed.

(** A new number for a space. *)
Definition renumber (n keys : Z) (s : PacketSpace R (list SF)) : PacketSpace R (list SF) :=
  PacketSpace.mk_space n (largest_ack_eliciting_sent s) (unacked_non_ack_eliciting_tail s) (sent_packets s) (ecn_feedback s)
    (PacketSpace.in_flight s) keys.

(** The same packets, under another record. *)
Definition same_space (s s' : PacketSpace R (list SF)) : Prop :=
  sent_packets s' = sent_packets s ∧ PacketSpace.in_flight s' = PacketSpace.in_flight s
  ∧ largest_ack_eliciting_sent s' = largest_ack_eliciting_sent s ∧ unacked_non_ack_eliciting_tail s' = unacked_non_ack_eliciting_tail s.

Lemma space_inv_same n n' s s' : space_inv n s → same_space s s' → n ≤ n' → space_inv n' s'.
Proof.
  intros [] (E1 & E2 & E3 & E4) Hn. split; rewrite ?E1, ?E2, ?E3, ?E4; try done; try lia.
  - eapply keys_lt_weaken; [exact Hn | done].
  - intros ->. apply si_fresh0. lia.
Qed.

Lemma tracked_same n n' s s' : tracked n s → same_space s s' → n ≤ n' → tracked n' s'.
Proof. intros [] (E1 & E2 & E3 & E4) Hn. split; rewrite ?E1, ?E2; try done; try lia. eapply keys_lt_weaken; [exact Hn | done]. Qed.

Lemma inv_set_ps id s f fs c : inv_with fs c → same_space (ps (space id c)) s → next_packet_number (ps (space id c)) ≤ next_packet_number s ≤ MAX_NUMBER →
  inv_with fs ((set_space id ((space id c) <| ps := s |>) c) <| packet_number_filter := f |>).
Proof.
  intros [Hc Ha] Hss Hn. set (c' := (set_space id _ c) <| packet_number_filter := f |>).
  assert (Esp : ∀ id', ps (space id' c') = if decide (id' = id) then s else ps (space id' c)).
  { intros id'. replace (space id' c') with (space id' (set_space id ((space id c) <| ps := s |>) c)) by (by destruct id').
    rewrite space_set. destruct (decide (id' = id)) as [-> |]; done. }
  assert (Hp : ∀ id', packets id' c' = packets id' c).
  { intros id'. unfold packets. rewrite Esp. destruct (decide (id' = id)) as [-> |]; [apply Hss | done]. }
  assert (Ep : path c' = path c) by (unfold c'; by destruct id). assert (Est : streams c' = streams c) by (unfold c'; by destruct id).
  assert (Hmk : ∀ id', loss_time (space id' c') = loss_time (space id' c) ∧ largest_acked_packet (space id' c') = largest_acked_packet (space id' c)
    ∧ time_of_last_ack_eliciting_packet (space id' c') = time_of_last_ack_eliciting_packet (space id' c)).
  { intros id'. unfold c'. by destruct id, id'. }
  split.
  - destruct Hc. split; rewrite ?Ep, ?Est; try done; try (intros; rewrite Hp; done).
    + unfold c'. by destruct id.
    + intros id'. rewrite Esp. destruct (decide (id' = id)) as [-> |]; [| done]. destruct (co_space0 id) as [Hi ?]. split; [| lia].
      eapply tracked_same; [exact Hi | done | lia].
    + intros id'. rewrite Esp. replace (has_crypto (space id' c')) with (has_crypto (space id' c)) by (unfold c'; by destruct id, id').
      replace (highest_space c') with (highest_space c) by (unfold c'; by destruct id).
      destruct (decide (id' = id)) as [-> |]; [| apply co_live0]. destruct (co_live0 id) as [Hi | ?]; [left | by right].
      eapply space_inv_same; [exact Hi | done | lia].
    + rewrite co_bytes0. f_equal. apply sum_ids_ext. intros. by rewrite Hp.
    + rewrite co_count0. f_equal. apply sum_ids_ext. intros. by rewrite Hp.
    + destruct (first_packet (path c)); [done |]. split; [done |]. intros. rewrite Hp. apply co_first0.
    + unfold frames_of. by rewrite Hp.
  - destruct Ha. split; rewrite ?Ep; try done; try (unfold c'; by destruct id).
    + intros pn Hpn. unfold bare. rewrite Hp. by apply au_probe0.
    + intros id'. destruct (Hmk id') as (-> & -> & _). apply au_loss0.
    + intros id'. destruct (Hmk id') as (_ & _ & ->). rewrite Hp. apply au_time0.
Qed.

Lemma allocate_spec id draw owed fs c : core owed fs c → next_packet_number (ps (space id c)) + 2 ≤ MAX_NUMBER →
  ∃ pn n keys f, allocate_number id draw c
      = Some (pn, (set_space id ((space id c) <| ps := renumber n keys (ps (space id c)) |>) c) <| packet_number_filter := f |>)
  ∧ n = pn + 1 ∧ next_packet_number (ps (space id c)) ≤ pn ≤ next_packet_number (ps (space id c)) + 1
  ∧ (id = QuicPacket.SpaceData → pn = PacketNumberFilter.peek (packet_number_filter c) (ps (data c))).
Proof.
  intros Hc Hn. destruct (co_space _ _ _ Hc id) as [Hs _]. pose proof (tr_nxt _ _ Hs). unfold MAX_NUMBER in Hn.
  assert (Hget : ∀ s : PacketSpace R (list SF), next_packet_number s < 2 ^ 62 → get_tx_number s
    = Some (next_packet_number s, renumber (next_packet_number s + 1) (wrapping_add 64 (sent_with_keys s) 1) s)).
  { intros s Hlt. unfold get_tx_number. by rewrite (proj2 (Z.ltb_lt _ _)). }
  destruct id; cbn [space] in *; unfold allocate_number, PacketNumberFilter.allocate, PacketNumberFilter.peek; cbn [space]; rewrite Hget by lia.
  - do 2 eexists. exists (wrapping_add 64 (sent_with_keys (ps (initial c))) 1), (packet_number_filter c). split; [by destruct c |]. split; [done |]. split; [lia | done].
  - do 2 eexists. exists (wrapping_add 64 (sent_with_keys (ps (handshake c))) 1), (packet_number_filter c). split; [by destruct c |]. split; [done |]. split; [lia | done].
  - destruct (Z.eqb_spec (next_packet_number (ps (data c))) (PacketNumberFilter.next_skipped_packet_number (packet_number_filter c))); cbn [negb].
    + rewrite Hget by (simpl; lia). do 4 eexists. split; [reflexivity |]. split; [reflexivity |]. cbn [renumber next_packet_number]. split; [lia |].
      intros _. unfold wrapping_add. rewrite wrap_small; [done |]. unfold is_u. lia.
    + do 4 eexists. split; [reflexivity |]. split; [reflexivity |]. split; [lia | done].
Qed.

(** What a packet to be sent must be: of a size that fits a datagram, with frames of streams only
    if it is ack-eliciting and of the data space; there are keys for the space (those of 0-RTT, in
    the data space), and the first packet of all is the first of its space. *)
Definition carried (r : R) (frames : list SF) : list (SF + Z) := (inr <$> reset_streams r) ++ (inl <$> frames).

Definition sendable id (size : Z) (elicits : bool) (l : list (SF + Z)) c : Prop :=
  0 < size < 2 ^ 16 ∧ (l ≠ [] → id = QuicPacket.SpaceData ∧ elicits = true) ∧ (id = QuicPacket.SpaceData ∨ has_crypto (space id c) = true)
  ∧ next_packet_number (ps (space id c)) + 2 ≤ MAX_NUMBER
  ∧ (first_packet (path c) = None → id ≠ QuicPacket.SpaceData ∧ next_packet_number (ps (space id c)) = 0).

Lemma send_packet_spec now id draw size padded elicits largest r frames m c : inv_with (carried r frames) c → sendable id size elicits (carried r frames) c →
  MtudProofs.mtud_ok m → MtudProofs.min_of m = MtudProofs.min_of (mtud (path c)) →
  (∀ k, MtuDiscovery.in_flight_mtu_probe m = Some k → probe_of c = Some k
     ∨ k = PacketNumberFilter.peek (packet_number_filter c) (ps (data c)) ∧ id = QuicPacket.SpaceData ∧ carried r frames = [] ∧ elicits = true) →
  ∃ c', send_packet now id draw size padded elicits largest r frames (c <| path := (path c) <| mtud := m |> |>) = Some c' ∧ inv c'
  ∧ (elicits = true → armed c') ∧ (armed c → armed c') ∧ credit c' = credit c.
Proof.
  intros Hi (Hsz & Hfr & Hkey & Hnx & Hfst) Hm Hmin Hpr. unfold send_packet, allocate_sample_pn.
  set (c0 := c <| next_sample_pn := next_sample_pn c + 1 |>). assert (Hi0 : inv_with (carried r frames) c0) by (by eapply inv_with_same).
  assert (Hcm : core None (carried r frames) (c0 <| path := (path c) <| mtud := m |> |>)) by (eapply core_same; [apply Hi0 | done]).
  destruct (allocate_spec id draw None _ _ Hcm) as (pn & n & keys & f & E & -> & Hpn & Hpk); [by destruct id |].
  change (c <| path := (path c) <| mtud := m |> |> <| next_sample_pn := _ |>) with (c0 <| path := (path c) <| mtud := m |> |>).
  rewrite E. assert (Hnext : next_packet_number (ps (space id (c0 <| path := (path c) <| mtud := m |> |>))) = next_packet_number (ps (space id c))) by (by destruct id).
  rewrite Hnext in Hpn. pose proof (inv_set_ps id (renumber (pn + 1) keys (ps (space id c0))) f _ c0 Hi0 ltac:(done)) as Hi1. cbn [renumber next_packet_number] in Hi1.
  assert (Hn0 : next_packet_number (ps (space id c0)) = next_packet_number (ps (space id c))) by (by destruct id). rewrite Hn0 in Hi1. specialize (Hi1 ltac:(lia)).
  set (c1 := (set_space id ((space id c0) <| ps := renumber (pn + 1) keys (ps (space id c0)) |>) c0) <| packet_number_filter := f |>) in *.
  match goal with |- context [track now id pn ?q ?x] => set (p := q); assert (Ec : x = c1 <| path := (path c1) <| mtud := m |> |>) by (unfold c1; by destruct id) end.
  rewrite Ec. assert (Hs : space_inv (next_packet_number (ps (space id c))) (ps (space id c))).
  { destruct (co_live _ _ _ (proj1 Hi) id) as [? | (? & Hkf & _)]; [done |]. destruct Hkey; congruence. }
  assert (Hps : ps (space id c1) = renumber (pn + 1) keys (ps (space id c))) by (unfold c1; by destruct id).
  assert (Hsize : PacketSpace.size p = if padded || elicits then size else 0) by (unfold p; simpl; destruct (padded || elicits); [apply wrap_small; unfold is_u; lia | done]).
  destruct (track_spec now id pn p (next_packet_number (ps (space id c))) m c1) as (c' & E' & Hi' & Ha' & Ha2 & Hcr); try done.
  - rewrite Hps. eapply space_inv_same; [exact Hs | done | lia].
  - lia.
  - by rewrite Hps.
  - split; [| split].
    + rewrite Hsize. unfold is_u. destruct (padded || elicits); lia.
    + rewrite Hsize. unfold p. simpl. intros ->. rewrite orb_true_r. lia.
    + apply Hfr.
  - replace (first_packet (path c1)) with (first_packet (path c)) by (unfold c1; by destruct id). intros Hf.
    destruct (Hfst Hf) as [Hne Hz]. destruct id; [| | done]; unfold allocate_number in E; cbn [space] in *; unfold get_tx_number in E; destruct (_ <? _); try done; injection E as E _ _; simpl in E; lia.
  - replace (path c1) with (path c) by (unfold c1; by destruct id). done.
  - intros k Hk. destruct (Hpr k Hk) as [Ho | (-> & -> & Hca & ->)]; [left; unfold probe_of; by replace (path c1) with (path c) by (unfold c1; by destruct id) |].
    right. split; [| done]. symmetry. by apply Hpk.
  - exists c'. split; [exact E' |]. split; [done |]. split; [intros ->; apply Ha'; rewrite Hsize, orb_true_r; lia |].
    split; [| rewrite Hcr; unfold credit, c1; by destruct id]. intros Harm. apply Ha2. revert Harm. apply armed_stays; try (unfold c1; by destruct id).
    intros id'. unfold packets, c1. by destruct id, id'.
Qed.

(** ** Acknowledgements *)

Lemma newly_acked_spec id c ranges : inv c → ∀ acc, wf acc → Forall (λ r, 0 ≤ r.1 ≤ r.2) ranges →
  ∃ res, newly_acked id ranges acc c = Some res
  ∧ ∀ acked, res = Ok acked → wf acked
    ∧ ∀ k, mem k acked ↔ mem k acc ∨ Exists (λ r, r.1 ≤ k ≤ r.2) ranges ∧ is_Some (bt_get k (packets id c)).
Proof.
  intros [Hc _] acc Hw Hr. revert acc Hw. induction Hr as [| r ranges Hr _ IH]; intros acc Hw; simpl.
  { eexists. split; [reflexivity |]. intros ? [= <-]. split; [done |]. intros k. rewrite Exists_nil. naive_solver. }
  destruct (PacketNumberFilter.check_ack _ _ _) as [? | e]; [| by eexists]. unfold range_keys. rewrite (proj2 (Z.ltb_ge _ _)) by lia.
  destruct (co_space _ _ _ Hc id) as [Hs Hn]. fold (packets id c).
  assert (Hkeys : ∀ k, k ∈ filter (λ k, r.1 ≤ k ≤ r.2) (packets id c).*1 ↔ r.1 ≤ k ≤ r.2 ∧ is_Some (bt_get k (packets id c))).
  { intros k. rewrite list_elem_of_filter. apply and_iff_compat_l. rewrite list_elem_of_fmap. split.
    - intros ([k' v] & -> & Hin). exists v. by apply (bt_get_elem _ _ _ _ (tr_ordered _ _ Hs)).
    - intros [v Hv]. destruct (bt_get_split _ _ _ _ (tr_ordered _ _ Hs) Hv) as (l1 & l2 & E & _). exists (k, v). split; [done |].
      unfold packets. rewrite E. apply elem_of_app. right. left. }
  destruct (insert_keys_spec (filter (λ k, r.1 ≤ k ≤ r.2) (packets id c).*1) acc Hw) as [Hw' Hm'].
  { rewrite Forall_forall. intros k [_ [v Hv]]%Hkeys. pose proof (get_key _ _ _ _ _ _ Hc Hv). unfold MAX_NUMBER, u_max in *. lia. }
  destruct (IH _ Hw') as (res & E & Hres). exists res. split; [exact E |]. intros acked Ha. destruct (Hres acked Ha) as [? Hk]. split; [done |].
  intros k. rewrite Hk, Hm', Hkeys, Exists_cons. naive_solver.
Qed.

Lemma update_largest_spec id largest c : inv c → let c' := (update_largest id largest c).2 in
  inv c' ∧ same c c' ∧ state c' = state c ∧ path c' = path c ∧ config c' = config c ∧ is_Some (largest_acked_packet (space id c'))
  ∧ (armed c → armed c').
Proof.
  intros Hi. unfold update_largest. destruct (match largest_acked_packet (space id c) with Some pn => pn <? largest | None => true end) eqn:Eu; simpl.
  2: { destruct (largest_acked_packet (space id c)); [| done]. split; [done |]. split; [done |]. done. }
  set (s := match bt_get _ _ with Some _ => _ | None => _ end).
  assert (Hsp : ps s = ps (space id c) ∧ largest_acked_packet s = Some largest ∧ loss_time s = loss_time (space id c)
    ∧ time_of_last_ack_eliciting_packet s = time_of_last_ack_eliciting_packet (space id c) ∧ has_crypto s = has_crypto (space id c)).
  { unfold s. by destruct (bt_get _ _). } clearbody s. destruct Hsp as (E1 & E2 & E3 & E4 & E5).
  set (c' := set_space id s c). assert (Hs : same c c') by (by apply set_space_same). pose proof (λ id', same_packets _ _ id' Hs) as Hp.
  assert (Hmk : ∀ id', loss_time (space id' c') = loss_time (space id' c) ∧ has_crypto (space id' c') = has_crypto (space id' c)
    ∧ time_of_last_ack_eliciting_packet (space id' c') = time_of_last_ack_eliciting_packet (space id' c)
    ∧ (is_Some (largest_acked_packet (space id' c)) → is_Some (largest_acked_packet (space id' c')))).
  { intros id'. unfold c'. rewrite space_set. destruct (decide (id' = id)) as [-> |]; [| done]. rewrite E2, E3, E4, E5. done. }
  assert (Ep : path c' = path c) by apply set_space_path. split; [| split; [done |]; split; [by unfold c'; destruct id |]; split; [done |]; split; [by unfold c'; destruct id |]; split].
  - destruct Hi as [Hc Ha]. split; [by eapply core_same |]. destruct Ha. split; rewrite ?Ep; try done; try (unfold c'; by destruct id).
    + intros pn Hpn. unfold bare. rewrite Hp. by apply au_probe0.
    + intros id'. destruct (Hmk id') as (-> & _ & _ & Hl). intros Hx. by apply Hl, au_loss0.
    + intros id'. destruct (Hmk id') as (_ & _ & -> & _). rewrite Hp. apply au_time0.
  - unfold c'. by rewrite space_set_eq, E2.
  - apply armed_stays; rewrite ?Ep; try done; try (unfold c'; by destruct id).
    + intros id'. destruct (Hmk id') as (? & _ & ? & _). by rewrite Hp.
    + unfold peer_completed_address_validation. replace (side c') with (side c) by (unfold c'; by destruct id).
      replace (state c') with (state c) by (unfold c'; by destruct id).
      destruct (Hmk QuicPacket.SpaceHandshake) as (_ & Hh & _ & Hl1), (Hmk QuicPacket.SpaceData) as (_ & Hd & _ & Hl2). simpl in *. rewrite Hh, Hd.
      rewrite !orb_true_iff, !bool_decide_eq_true. naive_solver.
Qed.

Lemma ack_packets_spec now id pns : ∀ c, inv c → ∃ c', each (ack_packet now id) pns c = Some c' ∧ inv c' ∧ kept c c' ∧ gone_all id pns c c'.
Proof.
  induction pns as [| pn pns IH]; intros c Hi; simpl.
  { exists c. do 3 (split; [done |]). split; [| done]. intros k. by rewrite decide_False by apply not_elem_of_nil. }
  destruct (ack_packet_spec now id pn c Hi) as (c1 & -> & Hi1 & Hk1 & Hg1). destruct (co_space _ _ _ (proj1 Hi) id) as [Hs _].
  destruct (IH c1 Hi1) as (c2 & E & Hi2 & Hk2 & Ha & Hb & He). exists c2. split; [done |]. split; [done |]. split; [by eapply kept_trans |].
  split; [| split].
  - intros k. rewrite Ha, (proj1 Hg1), (bt_get_remove pn _ (packets id c) (-1) (tr_ordered _ _ Hs)). destruct (Z.eqb_spec k pn) as [-> | Hne].
    + rewrite (decide_True (P := pn ∈ pn :: pns)) by left. by destruct (decide (pn ∈ pns)).
    + destruct (decide (k ∈ pns)); [rewrite decide_True by (by right) | rewrite decide_False by (by intros [? | ?]%elem_of_cons)]; done.
  - intros id' Hne. by rewrite Hb, (proj2 Hg1).
  - intros id'. specialize (He id'). pose proof (gone_eliciting _ _ _ _ _ _ id' (proj1 Hi) Hg1). lia.
Qed.

Lemma process_acked_spec now id ack new_largest acked c : inv c →
  ∃ c', process_acked now id ack new_largest acked c = Some c' ∧ inv c' ∧ kept c c' ∧ gone_all id (elements acked) c c'.
Proof.
  intros Hi. unfold process_acked. destruct (ack_packets_spec now id (elements acked) c Hi) as (c1 & -> & Hi1 & Hk1 & Hg1).
  destruct (new_largest && _); [| by exists c1]. unfold sample_rtt.
  assert (He : (64 <=? ack_delay_exponent c1) = false) by (apply Z.leb_gt, Hi1). rewrite He.
  set (d := match id with QuicPacket.SpaceData => _ | _ => _ end). assert (Hd : is_Some d) by (unfold d; by destruct id; eexists).
  destruct Hd as [ack_delay ->]. eexists. split; [reflexivity |].
  set (c2 := c1 <| path := _ |>). match goal with |- inv ?x ∧ _ => set (c3 := x) end.
  assert (H3 : same c1 c3 ∧ kept c1 c3 ∧ mtud (path c3) = mtud (path c1)) by (unfold c3; by destruct (first_packet_after_rtt_sample (path c2))).
  clearbody c3. destruct H3 as (Hs3 & Hk3 & Hm3). split; [by eapply inv_same |]. split; [by eapply kept_trans |].
  destruct Hg1 as (Ga & Gb & Ge). split; [| split]; intros; rewrite (same_packets c1 c3) by done; auto.
Qed.

Lemma ecn_step_credit now id ack new_largest acked c : credit (ecn_feedback_step now id ack new_largest acked c) = credit c.
Proof.
  unfold ecn_feedback_step, process_ecn, credit. destruct (sending_ecn (path c)), (AckFrame.ecn ack), new_largest; try done.
  destruct (detect_ecn _ _ _) as [[[] |] s]; simpl; rewrite ?set_space_path; simpl; by rewrite ?set_space_path.
Qed.

Lemma ecn_step_spec now id ack new_largest acked c : inv c → inv (ecn_feedback_step now id ack new_largest acked c).
Proof.
  intros Hi. unfold ecn_feedback_step. destruct (sending_ecn (path c)); [| done].
  destruct (AckFrame.ecn ack) as [ecn |]; [| by eapply inv_same]. destruct new_largest; [| done]. unfold process_ecn.
  assert (Hset : ∀ s c0, inv c0 → same_space (ps (space id c0)) s → next_packet_number s = next_packet_number (ps (space id c0)) →
    inv (set_space id ((space id c0) <| ps := s |>) c0)).
  { intros s c0 Hi0 Hs Hn. pose proof (inv_set_ps id s (packet_number_filter c0) [] c0 Hi0 Hs) as Hx. destruct (co_space _ _ _ (proj1 Hi0) id) as [_ Hle].
    specialize (Hx ltac:(lia)). by destruct id, c0. }
  destruct (detect_ecn (zlen acked) ecn (ps (space id c))) as [r s] eqn:Ed.
  assert (Hs : same_space (ps (space id c)) s ∧ next_packet_number s = next_packet_number (ps (space id c))).
  { unfold detect_ecn in Ed. repeat (case_match; simplify_eq; try done). }
  pose proof (Hset s c Hi (proj1 Hs) (proj2 Hs)) as Hi1. set (c1 := set_space id _ c) in *. clearbody c1.
  destruct r as [[] |]; [by eapply inv_same | done |]. apply Hset; [by eapply inv_same | done | done].
Qed.

Lemma set_ps_packets id s id' c : sent_packets s = packets id c → packets id' (set_space id ((space id c) <| ps := s |>) c) = packets id' c.
Proof. intros E. unfold packets. rewrite space_set. destruct (decide (id' = id)) as [-> |]; [exact E | done]. Qed.

Lemma ecn_step_packets now id ack new_largest acked id' c : packets id' (ecn_feedback_step now id ack new_largest acked c) = packets id' c.
Proof.
  unfold ecn_feedback_step, process_ecn. destruct (sending_ecn (path c)); [| done]. destruct (AckFrame.ecn ack) as [ecn |]; [| done].
  destruct new_largest; [| done]. destruct (detect_ecn (zlen acked) ecn (ps (space id c))) as [r s] eqn:Ed.
  assert (Hs : sent_packets s = packets id c) by (unfold detect_ecn in Ed; repeat (case_match; simplify_eq; try done)).
  pose proof (set_ps_packets id s id' c Hs) as Hp. destruct r as [[] |]; [exact Hp | exact Hp |].
  rewrite set_ps_packets; [exact Hp | done].
Qed.

Lemma finish_ack_spec now id ack new_largest acked c : inv c →
  ∃ c', finish_ack now id ack new_largest acked c = Some c' ∧ inv c' ∧ armed c' ∧ credit c' = credit c ∧ ∀ id', packets id' c' = packets id' c.
Proof.
  intros Hi. unfold finish_ack. set (c1 := on_congestion _ (on_congestion _ c)). set (c2 := if peer_completed_address_validation c1 then _ else _).
  assert (Hi2 : inv c2 ∧ credit c2 = credit c ∧ ∀ id', packets id' c2 = packets id' c)
    by (unfold c2; destruct (peer_completed_address_validation c1); (split; [by eapply inv_same | done])).
  clearbody c2. destruct Hi2 as (Hi2 & Hcr & Hp2). destruct (set_timer_spec now _ (ecn_step_spec now id ack new_largest acked _ Hi2)) as (c' & t & E & Ec & Hi' & Ha').
  exists c'. split; [done |]. split; [done |]. split; [done |].
  split; [rewrite Ec, <- Hcr; apply ecn_step_credit |]. intros id'. rewrite Ec, <- Hp2. apply ecn_step_packets.
Qed.

(** What an acknowledgement changes first: if the loss delay that follows from the round-trip
    sample is out of range, the code panics. *)
Definition delay_fits now id (ack : AckFrame.Ack) c : Prop :=
  let '(new_largest, c1) := update_largest id (AckFrame.largest ack) c in
  ∀ acked c2, newly_acked id (AckFrame.ack_iter ack) ArrayRangeSet.new c1 = Some (Ok acked) →
    process_acked now id ack new_largest acked c1 = Some c2 → is_Some (loss_delay c2).

Lemma update_largest_max id largest c :
  largest_acked_packet (space id (update_largest id largest c).2)
  = Some (match largest_acked_packet (space id c) with Some pn => Z.max pn largest | None => largest end).
Proof.
  unfold update_largest. destruct (largest_acked_packet (space id c)) as [pn |] eqn:E; [destruct (Z.ltb_spec pn largest) |]; simpl;
    rewrite ?space_set_eq, ?E; [| f_equal; lia |]; destruct (bt_get _ _); simpl; f_equal; lia.
Qed.

(** The numbers that a frame acknowledges. *)
Definition acknowledged (ack : AckFrame.Ack) (k : Z) : Prop := Exists (λ r, r.1 ≤ k ≤ r.2) (AckFrame.ack_iter ack).

(** The packets that go because of an acknowledgement: those it covers, and those that are found
    lost, by the round-trip time after the sample it gives and the largest number acknowledged. *)
Definition settled_by now id (ack : AckFrame.Ack) c c' : Prop :=
  (∀ k, acknowledged ack k → bt_get k (packets id c) = None) ∧ gone_just (λ _ _, False) c c'
  ∨ ∃ acked c2 delay, let '(new_largest, c1) := update_largest id (AckFrame.largest ack) c in
      let largest := match largest_acked_packet (space id c) with Some pn => Z.max pn (AckFrame.largest ack) | None => AckFrame.largest ack end in
      process_acked now id ack new_largest acked c1 = Some c2 ∧ loss_delay c2 = Some delay
      ∧ gone_just (λ id' k, id' = id ∧ acknowledged ack k ∨ lost_now now id true delay largest c2 id' k) c c'.

Lemma acked_settled id ack acked c c1 c2 : (∀ id', packets id' c1 = packets id' c) →
  (∀ k, mem k acked ↔ mem k [] ∨ acknowledged ack k ∧ is_Some (bt_get k (packets id c1))) → gone_all id (elements acked) c1 c2 →
  gone_just (λ id' k, id' = id ∧ acknowledged ack k) c c2.
Proof.
  intros Hp Hm Hg%gone_just_all id' k. rewrite <- Hp. destruct (Hg id' k) as [Ha Hb]. rewrite elements_mem, Hm in Ha, Hb.
  destruct (bt_get k (packets id' c1)) as [p |] eqn:E; split; [intros [-> Hk]; apply Ha; split; [done | right; by rewrite E] | | |].
  - intros Hn. apply Hb. intros (-> & [[] | [? _]]). by apply Hn.
  - intros _. apply Hb. intros (-> & [[] | [_ [? Hx]]]). congruence.
  - intros _. apply Hb. intros (-> & [[] | [_ [? Hx]]]). congruence.
Qed.

Lemma on_ack_received_spec now id ack c : inv c → Forall (λ r, 0 ≤ r.1 ≤ r.2) (AckFrame.ack_iter ack) → delay_fits now id ack c →
  ∃ r c', on_ack_received now id ack c = Some (r, c') ∧ inv c' ∧ (armed c → armed c') ∧ credit c' = credit c
  ∧ match r with Ok _ => settled_by now id ack c c' | Err _ => gone_just (λ _ _, False) c c' end.
Proof.
  intros Hi Hok Hdf. unfold on_ack_received, delay_fits, settled_by in *. destruct (_ <=? _); [by eexists _, c |].
  pose proof (update_largest_spec id (AckFrame.largest ack) c Hi) as (Hi1 & Hs1 & Est1 & Ep1 & _ & _ & Ha1).
  pose proof (update_largest_max id (AckFrame.largest ack) c) as Hl1. set (l := match largest_acked_packet (space id c) with Some _ => _ | None => _ end) in *.
  destruct (update_largest id (AckFrame.largest ack) c) as [new_largest c1]. simpl in Hi1, Hs1, Est1, Ep1, Hl1, Ha1.
  assert (Hcr1 : credit c1 = credit c) by (unfold credit; by rewrite Ep1).
  assert (Hp1 : ∀ id', packets id' c1 = packets id' c) by (intros; by apply same_packets).
  assert (Hg1 : gone_just (λ _ _, False) c c1) by (intros id' k; by rewrite Hp1).
  destruct (newly_acked_spec id c1 (AckFrame.ack_iter ack) Hi1 ArrayRangeSet.new) as (res & E & Hacked); [done | done |].
  rewrite E in *. destruct res as [acked | e]; [| by eexists _, c1]. destruct (Hacked acked eq_refl) as [_ Hmem]. destruct acked as [| r acked].
  { eexists _, c1. do 4 (split; [done |]). left. split; [| done]. intros k Hk. rewrite <- Hp1. apply eq_None_not_Some. intros Hx.
    by destruct (proj2 (Hmem k) (or_intror (conj Hk Hx))). }
  destruct (process_acked_spec now id ack new_largest (r :: acked) c1 Hi1) as (c2 & E2 & Hi2 & Hk2 & Hg2). rewrite E2.
  destruct (Hdf (r :: acked) c2 eq_refl E2) as [delay Hd]. destruct Hk2 as (_ & _ & _ & _ & _ & Hcr2 & _ & Km).
  assert (Hl2 : largest_acked_packet (space id c2) = Some l) by (specialize (Km id); unfold marks in Km; by injection Km as -> _ _ _ _).
  destruct (detect_lost_packets_spec now id true delay l c2 Hi2 Hd Hl2) as (c3 & -> & Hi3 & (_ & _ & _ & _ & _ & Hcr3 & _) & Hg3).
  destruct (finish_ack_spec now id ack new_largest (r :: acked) c3 Hi3) as (c4 & -> & Hi4 & Ha4 & Hcr4 & Hp4).
  eexists _, c4. split; [done |]. split; [done |]. split; [done |].
  split; [rewrite Hcr4, Hcr3, <- Hcr1, <- Hcr2; unfold credit, set_loss_time; by rewrite set_space_path |].
  right. exists (r :: acked), c2, delay. split; [done |]. split; [done |]. intros id' k. rewrite Hp4.
  apply (gone_just_trans (λ id' k, id' = id ∧ acknowledged ack k) (lost_now now id true delay l c2) c c2 c3); [by eapply acked_settled | done | |]; intros id0 k0.
  - destruct (decide (id0 = id)) as [-> |]; [| right; tauto]. destruct (decide (Exists (λ r, r.1 ≤ k0 ≤ r.2) (AckFrame.ack_iter ack))); [by left | right; tauto].
  - unfold lost_now. destruct (decide (id0 = id ∧ k0 ∈ (lost_entries now id delay l c2).*1)); [tauto |].
    destruct (decide (id0 = QuicPacket.SpaceData ∧ lost_mtu_probe (scan now id true delay l c2) = Some k0)); tauto.
Qed.

(** ** Timeouts *)

Lemma loss_time_space c t id : loss_time_and_space c = Some (t, id) → loss_time (space id c) = Some t.
Proof.
  unfold loss_time_and_space, space_ids. cbn [fold_left space].
  destruct (loss_time (initial c)) eqn:E1, (loss_time (handshake c)) eqn:E2, (loss_time (data c)) eqn:E3;
    intros E; repeat match type of E with context [if ?b then _ else _] => destruct b end; simplify_eq; done.
Qed.

(** A timeout is one for a loss whose delay is in range, or something is in flight, or a client
    must go on. *)
Definition can_time_out c : Prop :=
  match loss_time_and_space c with
  | Some _ => is_Some (loss_delay c)
  | None => in_flight_ack_eliciting (in_flight (path c)) ≠ 0 ∨ peer_completed_address_validation c = false
  end.

Lemma on_timeout_spec now c : inv c → can_time_out c →
  ∃ c', on_loss_detection_timeout now c = Some c' ∧ inv c' ∧ armed c' ∧ credit c' = credit c.
Proof.
  intros Hi Hto. unfold on_loss_detection_timeout, can_time_out in *. destruct (loss_time_and_space c) as [[t id] |] eqn:El.
  { destruct Hto as [delay Hd]. destruct (au_loss _ (proj2 Hi) id) as [l Hl]; [rewrite (loss_time_space _ _ _ El); by eexists |].
    destruct (detect_lost_packets_spec now id false delay l c Hi Hd Hl) as (c1 & -> & Hi1 & (_ & _ & _ & _ & _ & Hcr & _) & _).
    destruct (set_timer_spec now c1 Hi1) as (c2 & t2 & E2 & Ec2 & Hi2 & Ha2). exists c2. split; [done |]. split; [done |]. split; [done |].
    rewrite Ec2. change (credit c1 = credit c). rewrite Hcr. unfold credit, set_loss_time. by rewrite set_space_path. }
  assert (Hfire : ∀ id count, ∃ c', set_loss_detection_timer now ((set_space id ((space id c) <| loss_probes := count |>) c) <| pto_count := saturating_add 32 (pto_count c) 1 |>) = Some c'
    ∧ inv c' ∧ armed c' ∧ credit c' = credit c).
  { intros id count. set (c1 := set_space id _ c). assert (Hi1 : inv c1) by (apply (inv_same c); [done | by apply set_space_same | by apply set_space_kept | unfold c1; by rewrite set_space_path]).
    destruct (set_timer_spec now (c1 <| pto_count := saturating_add 32 (pto_count c) 1 |>)) as (c2 & t2 & E2 & Ec2 & Hi2 & Ha2); [by eapply inv_same |].
    exists c2. split; [done |]. split; [done |]. split; [done |]. rewrite Ec2. unfold credit, c1. simpl. by rewrite set_space_path. }
  assert (Hpc : ∀ id s, pto_count (set_space id s c) = pto_count c) by (by intros []).
  unfold pto_time_and_space. fold (backoff c). destruct (in_flight_ack_eliciting (in_flight (path c)) =? 0) eqn:E0; zbool.
  { destruct Hto as [? | Hnc]; [done |]. rewrite Hnc. rewrite Hpc. apply Hfire. }
  destruct (pto_loop _ _ _ _ _) as [[t id] |] eqn:Ep; [rewrite Hpc; apply Hfire |].
  exists c. split; [done |]. split; [done |]. split; [| done]. unfold armed. rewrite El. intros _ _. split; [| done]. intros id Hid. exfalso.
  destruct (pto_loop_spec c) with (id := id) as (t & i & time & E & _); [| done | by rewrite Ep in E].
  intros id' [He _]. destruct Hi as [Hc Ha]. split; [| by apply Ha]. rewrite (core_in_flight _ _ _ id' Hc).
  pose proof (eliciting_size id' _ (co_packets _ _ _ Hc id') He). lia.
Qed.

(** ** Discarded spaces *)

(** The packets of a space leave the path's counters. *)
Lemma abandon_all l : ∀ c, prev_path c = None → (l ≠ [] → first_packet (path c) = Some 0) → Forall (λ e, 0 ≤ e.1) l →
  let c' := fold_left (λ c e, abandon_packet e c) l c in
  bytes (in_flight (path c')) = (if decide (l = []) then bytes (in_flight (path c)) else wrap 64 (bytes (in_flight (path c)) - sum_sizes l))
  ∧ in_flight_ack_eliciting (in_flight (path c')) =
    (if decide (l = []) then in_flight_ack_eliciting (in_flight (path c)) else wrap 64 (in_flight_ack_eliciting (in_flight (path c)) - eliciting l))
  ∧ ∃ g f, c' = c <| path := (path c) <| congestion := g |> <| in_flight := f |> |>.
Proof.
  induction l as [| [k p] l IH]; intros c Hprev Hf Hk; cbn [fold_left].
  { simpl. split; [done |]. split; [done |]. exists (congestion (path c)), (in_flight (path c)). by destruct c as [? ? ? ? ? []]. }
  apply Forall_cons in Hk as [Hk0 Hk]. simpl in Hk0. specialize (Hf ltac:(done)).
  set (c1 := abandon_packet (k, p) c). assert (H1 : c1 = c <| path := (path c) <| congestion := on_packet_abandoned (sample_pn p) (size p) (congestion (path c)) |>
      <| in_flight := remove p (in_flight (path c)) |> |>).
  { unfold c1, abandon_packet, remove_in_flight, PathData.remove_in_flight. simpl. rewrite Hf. rewrite (proj2 (Z.ltb_ge k 0)) by done. done. }
  destruct (IH c1) as (Eb & Ec & g & f & E); [by rewrite H1 | by rewrite H1 | done |].
  assert (Ebc : bytes (in_flight (path c1)) = wrap 64 (bytes (in_flight (path c)) - size p)) by (rewrite H1; done).
  assert (Ecc : in_flight_ack_eliciting (in_flight (path c1)) = wrap 64 (in_flight_ack_eliciting (in_flight (path c)) - Z.b2z (ack_eliciting p))) by (rewrite H1; done).
  rewrite Eb, Ec, Ebc, Ecc. rewrite !(decide_False (P := (k, p) :: l = [])) by done.
  split; [| split].
  - destruct (decide (l = [])) as [-> |]; simpl; [f_equal; lia |]. rewrite wrap_sub_l. f_equal. lia.
  - rewrite (eliciting_app [(k, p)] l : eliciting ((k, p) :: l) = _), eliciting_one. simpl.
    destruct (decide (l = [])) as [-> |]; [change (eliciting []) with 0; simpl; f_equal; lia |]. rewrite wrap_sub_l. f_equal. lia.
  - exists g, f. rewrite E, H1. done.
Qed.

Lemma discard_space_spec now id c : inv c → id ≠ QuicPacket.SpaceData → space_index id ≤ space_index (highest_space c) →
  ∃ c', discard_space now id c = Some c' ∧ inv c' ∧ armed c' ∧ credit c' = credit c.
Proof.
  intros Hi Hid Hhs. pose proof Hi as [Hc Ha]. pose proof (core_bounds _ _ _ Hc) as (Hb & _).
  assert (Hgo : ∀ c2, c2 = fold_left (λ c e, abandon_packet e c) (packets id c)
      (set_space id ((space id c) <| has_crypto := false |> <| time_of_last_ack_eliciting_packet := None |> <| loss_time := None |>
                       <| ps := mk_ps_discarded (ps (space id c)) |>) c) → inv c2 ∧ credit c2 = credit c).
  2: { destruct (Hgo _ eq_refl) as [Hg Hcr]. destruct (set_timer_spec now _ Hg) as (c' & t & E & Ec & Hi' & Ha').
       exists c'. split; [by destruct id |]. split; [done |]. split; [done |]. rewrite Ec. exact Hcr. }
  intros c2 E2. set (s1 := (space id c) <| has_crypto := _ |> <| time_of_last_ack_eliciting_packet := _ |> <| loss_time := _ |> <| ps := _ |>) in E2.
  set (c1 := set_space id s1 c) in E2. destruct (abandon_all (packets id c) c1) as (Eb & Ec & g & f & E).
  { unfold c1. destruct id; apply Hc. }
  { intros Hne. unfold c1. rewrite set_space_path. pose proof (co_first _ _ _ Hc) as Hf. destruct (first_packet (path c)); [by subst |]. by destruct Hf as [_ Hf], (Hne (Hf id)). }
  { destruct (co_space _ _ _ Hc id) as [Ht _]. pose proof (bt_ordered_keys_gt _ _ (tr_ordered _ _ Ht)) as Ho.
    eapply Forall_impl; [exact Ho |]. simpl. intros. lia. }
  rewrite <- E2 in Eb, Ec, E. unfold c1 in Eb, Ec. rewrite set_space_path in Eb, Ec.
  assert (Esp : ∀ id', space id' c2 = if decide (id' = id) then s1 else space id' c).
  { intros id'. rewrite E. unfold c1. replace (space id' _) with (space id' (set_space id s1 c)) by (by destruct id'). apply space_set. }
  assert (Hp : ∀ id', packets id' c2 = if decide (id' = id) then [] else packets id' c).
  { intros id'. unfold packets. rewrite Esp. by destruct (decide (id' = id)). }
  assert (Hbytes : ∀ h : list (Z * Packet) → Z, h [] = 0 →
    sum_ids (λ id', h (packets id' c2)) = sum_ids (λ id', h (packets id' c)) - h (packets id c)).
  { intros h Hh. rewrite (sum_ids_upd (λ id', h (packets id' c)) (λ id', h (packets id' c2)) id (- h (packets id c))); [lia | |].
    - rewrite Hp, decide_True by done. lia.
    - intros id' Hne. by rewrite Hp, decide_False. }
  assert (Hdata : packets QuicPacket.SpaceData c2 = packets QuicPacket.SpaceData c) by (by rewrite Hp, decide_False).
  assert (Epath : path c2 = (path c) <| congestion := g |> <| in_flight := f |>) by (rewrite E; unfold c1; simpl; by rewrite set_space_path).
  split; [| unfold credit; by rewrite Epath]. split; [destruct Hc; split | destruct Ha; split].
  - rewrite E. unfold c1. by destruct id.
  - intros id'. rewrite Esp. destruct (decide (id' = id)) as [-> |]; [| apply co_space0]. destruct (co_space0 id) as [Ht Hle]. split; [| done]. split; [apply Ht | done | constructor | done].
  - intros id'. replace (highest_space c2) with (highest_space c) by (rewrite E; unfold c1; by destruct id).
    rewrite Esp. destruct (decide (id' = id)) as [-> |]; [by right | apply co_live0].
  - intros id'. rewrite Hp. destruct (decide (id' = id)); [constructor | apply co_packets0].
  - done.
  - rewrite Eb, co_bytes0, (Hbytes sum_sizes) by done. cbn [from_option]. destruct (decide (packets id c = [])) as [-> |]; [simpl; lia |].
    rewrite wrap_small; [lia |]. unfold is_u, sum_ids. pose proof (Hb QuicPacket.SpaceInitial). pose proof (Hb QuicPacket.SpaceHandshake). pose proof (Hb QuicPacket.SpaceData). destruct id; lia.
  - rewrite Ec, co_count0, (Hbytes eliciting) by done. cbn [from_option]. destruct (decide (packets id c = [])) as [-> |]; [change (eliciting []) with 0; lia |].
    rewrite wrap_small; [lia |]. unfold is_u, sum_ids, MAX_NUMBER in *. pose proof (Hb QuicPacket.SpaceInitial). pose proof (Hb QuicPacket.SpaceHandshake). pose proof (Hb QuicPacket.SpaceData). destruct id; lia.
  - rewrite Epath. simpl. destruct (first_packet (path c)); [done |]. split; [done |]. intros id'. rewrite Hp. destruct (decide (id' = id)); [done | apply co_first0].
  - unfold frames_of. rewrite Hdata. replace (streams c2) with (streams c) by (rewrite E; unfold c1; by destruct id). done.
  - by rewrite Epath.
  - rewrite Epath. replace (overhead c2) with (overhead c) by (rewrite E; unfold c1; by destruct id). done.
  - replace (ack_delay_exponent c2) with (ack_delay_exponent c) by (rewrite E; unfold c1; by destruct id). done.
  - rewrite Epath. unfold bare. rewrite Hdata. done.
  - intros id'. rewrite Esp. destruct (decide (id' = id)); [by intros [] | apply au_loss0].
  - intros id'. rewrite Hp, Esp. destruct (decide (id' = id)); [change (eliciting []) with 0; lia | apply au_time0].
Qed.

(** ** Keys *)

Lemma upgrade_spec id c : inv c → has_crypto (space id c) = false → space_index (highest_space c) < space_index id →
  ∃ c', upgrade_crypto id c = Some c' ∧ inv c' ∧ credit c' = credit c.
Proof.
  intros [Hc Ha] Hk Hh. unfold upgrade_crypto. rewrite Hk, (proj2 (Z.leb_gt _ _)) by done. eexists. split; [reflexivity |].
  set (c' := (set_space id _ c) <| highest_space := id |>). split; [| unfold credit, c'; by destruct id].
  assert (Hsp : ∀ id', ps (space id' c') = ps (space id' c) ∧ marks (space id' c') = marks (space id' c)
    ∧ has_crypto (space id' c') = if decide (id' = id) then true else has_crypto (space id' c)).
  { intros id'. unfold c'. by destruct id, id'. }
  assert (Hp : ∀ id', packets id' c' = packets id' c) by (intros id'; unfold packets; by rewrite (proj1 (Hsp id'))).
  assert (Ep : path c' = path c) by (unfold c'; by destruct id). assert (Est : streams c' = streams c) by (unfold c'; by destruct id).
  split; [destruct Hc; split | destruct Ha; split]; rewrite ?Ep, ?Est; try done; try (unfold c'; by destruct id); try (intros id'; rewrite ?Hp; done).
  - intros id'. rewrite (proj1 (Hsp id')). apply co_space0.
  - intros id'. destruct (Hsp id') as (-> & _ & ->). replace (highest_space c') with id by done. destruct (co_live0 id') as [? | (? & ? & Hle)]; [by left |].
    right. destruct (decide (id' = id)) as [-> |]; [lia |]. split; [done |]. split; [done | lia].
  - destruct (first_packet (path c)); [done |]. split; [done |]. intros. rewrite Hp. apply co_first0.
  - intros id'. destruct (Hsp id') as (_ & Hm & _). unfold marks in Hm. injection Hm as -> _ -> _ _. apply au_loss0.
  - intros id'. destruct (Hsp id') as (_ & Hm & _). unfold marks in Hm. injection Hm as _ _ _ -> _. rewrite Hp. apply au_time0.
Qed.

(** ** MTU probes *)

Lemma send_probe_spec now draw empty c : inv c → reset_streams empty = [] → first_packet (path c) ≠ None →
  next_packet_number (ps (data c)) + 2 ≤ MAX_NUMBER → ∃ c', send_mtu_probe now draw empty c = Some c' ∧ inv c' ∧ (armed c → armed c') ∧ credit c' = credit c.
Proof.
  intros Hi He Hf Hn. unfold send_mtu_probe. destruct (is_established (state c)); [| by exists c]. pose proof Hi as [Hc Ha].
  set (pn := PacketNumberFilter.peek (packet_number_filter c) (ps (data c))).
  destruct (MtudProofs.step_poll now pn _ (au_mtud _ Ha)) as (r & m & Ep & Hm & Hcm & Hmin & Hsz). rewrite Ep.
  pose proof (λ k, poll_probe now pn _ _ _ k (au_mtud _ Ha) Ep) as Hpr. pose proof (MtudProofs.mo_mtu _ (au_mtud _ Ha)) as [[H0' Hle] _].
  pose proof (MtudProofs.mo_limit _ (au_mtud _ Ha)). destruct r as [size |].
  - specialize (Hsz size eq_refl). assert (Hca : carried empty [] = []) by (unfold carried; by rewrite He).
    destruct (send_packet_spec now QuicPacket.SpaceData draw size true true None empty [] m c) as (c' & E' & Hi' & Ha' & _ & Hcr); try done.
    + by rewrite Hca.
    + split; [lia |]. rewrite Hca. split; [done |]. split; [by left |]. split; [done |]. done.
    + intros k Hk. destruct (Hpr k Hk) as [? | [_ ->]]; [by left |]. right. by split_and!.
    + exists c'. split; [done |]. split; [done |]. split; [intros _; by apply Ha' | done].
  - eexists. split; [reflexivity |]. split; [| by split; [apply armed_stays |]].
    split; [eapply core_same; [exact Hc | done] |]. apply (aux_kept c); try done. intros k Hk. destruct (Hpr k Hk) as [? | [[? [=]] _]]. by apply Ha.
Qed.

(** ** Credit *)

(** Byte counts far from the end of their range. *)
Definition counts_ok c : Prop := 0 ≤ total_sent (path c) ≤ 2 ^ 62 ∧ 0 ≤ total_recvd (path c) ≤ 2 ^ 62.

(** The bytes of a datagram only help. *)
Lemma received_unblocks len c : counts_ok c → 0 ≤ len → total_recvd (path c) + len ≤ 2 ^ 62 →
  let c' := c <| path := (path c) <| total_recvd := saturating_add 64 (total_recvd (path c)) len |> |> in
  counts_ok c' ∧ (anti_amplification_blocked 1 (path c) = false → anti_amplification_blocked 1 (path c') = false).
Proof.
  intros [Hs Hr] Hl Hb. unfold counts_ok, anti_amplification_blocked, saturating_add. cbn -[Z.pow wrap u_max]. rewrite Z.min_r by (unfold u_max; lia).
  split; [lia |]. destruct (validated (path c)); [done |]. cbn [negb andb]. unfold wrapping_add. rewrite !wrap_small by (unfold is_u; lia). rewrite !Z.ltb_ge. lia.
Qed.

Lemma sent_blocks n c : counts_ok c → 0 ≤ n → total_sent (path c) + n ≤ 2 ^ 62 →
  counts_ok (account_udp_transmit n c) ∧ (armed c → armed (account_udp_transmit n c)).
Proof.
  intros [Hs Hr] Hl Hb. unfold account_udp_transmit. split.
  - unfold counts_ok, saturating_add. cbn -[Z.pow u_max]. rewrite Z.min_r by (unfold u_max; lia). lia.
  - apply armed_stays; try done. unfold anti_amplification_blocked, saturating_add. cbn -[Z.pow wrap u_max]. rewrite Z.min_r by (unfold u_max; lia).
    destruct (validated (path c)); [done |]. cbn [negb andb]. unfold wrapping_add. rewrite !wrap_small by (unfold is_u; lia). rewrite !Z.ltb_lt. lia.
Qed.

End recovery.
End RecoveryProofs.
