(* ===== verification/StreamQueue.v ===== *)
(** * Scheduling of streams

    Models [PendingStreamsQueue] of [src/connection/streams/mod.rs]: the streams with data
    to send, by priority, and among equals in turn.  The [BinaryHeap] is the list of its
    elements in descending order of the derived [Ord] of [PendingStream]. *)

From Stdlib Require Import Sorted.
From S2P Require Import Prelude.

Module PendingStreamsQueue.

Record PendingStream := mk_pending { p_priority : Z; recency : Z; p_id : Z }.

(** The derived [Ord] compares the fields in order: [a >= b]. *)
Definition pending_ge (a b : PendingStream) : bool :=
  (p_priority b <? p_priority a)
  || ((p_priority a =? p_priority b)
      && ((recency b <? recency a) || ((recency a =? recency b) && (p_id b <=? p_id a)))).

Fixpoint heap_push (p : PendingStream) (h : list PendingStream) : list PendingStream :=
  match h with
  | [] => [p]
  | q :: h' => if pending_ge q p then q :: heap_push p h' else p :: h
  end.

Record PendingStreamsQueue := mk_queue {
  streams : list PendingStream;
  next : option PendingStream;
  q_recency : Z;
}.

Definition new : PendingStreamsQueue := mk_queue [] None (u_max 64).

Definition reinsert_pending (id priority : Z) (q : PendingStreamsQueue) : PendingStreamsQueue :=
  match next q with
  | Some _ => q
  | None => mk_queue (streams q) (Some (mk_pending priority (q_recency q) id)) (q_recency q)
  end.

Definition push_pending (id priority : Z) (q : PendingStreamsQueue) : PendingStreamsQueue :=
  let r := saturating_sub (q_recency q) 1 in
  mk_queue (heap_push (mk_pending priority r id) (streams q)) (next q) r.

Definition pop (q : PendingStreamsQueue) : option PendingStream * PendingStreamsQueue :=
  match next q with
  | Some p => (Some p, mk_queue (streams q) None (q_recency q))
  | None =>
    match streams q with
    | [] => (None, q)
    | p :: h => (Some p, mk_queue h None (q_recency q))
    end
  end.

Definition clear (q : PendingStreamsQueue) : PendingStreamsQueue := mk_queue [] None (q_recency q).

(** [iter]: the order of the heap's part is unspecified and the one caller does not use it. *)
Definition iter (q : PendingStreamsQueue) : list PendingStream :=
  match next q with Some p => p :: streams q | None => streams q end.

(** ** Specification: a stable priority queue

    [waiting] is in order of arrival; the next stream is the one interrupted, if any, or
    else the first among those of the highest priority. *)

Record Spec := mk_spec { interrupted : option (Z * Z); waiting : list (Z * Z) }.

(** The highest priority waiting. *)
Definition top (l : list (Z * Z)) : Z := foldr (λ p m, Z.max p.1 m) (- 2 ^ 31) l.

(** The first of priority [m], and the others. *)
Fixpoint take_first (m : Z) (l : list (Z * Z)) : option (Z * Z) * list (Z * Z) :=
  match l with
  | [] => (None, [])
  | p :: l' => if p.1 =? m then (Some p, l') else let '(r, k) := take_first m l' in (r, p :: k)
  end.

Definition spec_push (id priority : Z) (s : Spec) : Spec :=
  mk_spec (interrupted s) (waiting s ++ [(priority, id)]).

Definition spec_reinsert (id priority : Z) (s : Spec) : Spec :=
  match interrupted s with
  | Some _ => s
  | None => mk_spec (Some (priority, id)) (waiting s)
  end.

Definition spec_pop (s : Spec) : option Z * Spec :=
  match interrupted s with
  | Some p => (Some p.2, mk_spec None (waiting s))
  | None => let '(r, k) := take_first (top (waiting s)) (waiting s) in (snd <$> r, mk_spec None k)
  end.

(** ** Runs of operations *)

Inductive op := Push (id priority : Z) | Reinsert (id priority : Z) | Pop | Clear.

Definition op_ok (o : op) : Prop :=
  match o with Push _ p | Reinsert _ p => - 2 ^ 31 ≤ p < 2 ^ 31 | _ => True end.

(** The state after an operation and, for [Pop], the identifier it gave. *)
Definition apply (o : op) (q : PendingStreamsQueue) : option Z * PendingStreamsQueue :=
  match o with
  | Push id p => (None, push_pending id p q)
  | Reinsert id p => (None, reinsert_pending id p q)
  | Pop => let '(r, q) := pop q in (p_id <$> r, q)
  | Clear => (None, clear q)
  end.

Definition spec_apply (o : op) (s : Spec) : option Z * Spec :=
  match o with
  | Push id p => (None, spec_push id p s)
  | Reinsert id p => (None, spec_reinsert id p s)
  | Pop => spec_pop s
  | Clear => (None, mk_spec None [])
  end.

Fixpoint run {S} (f : op → S → option Z * S) (ops : list op) (s : S) : list (option Z) * S :=
  match ops with
  | [] => ([], s)
  | o :: ops => let '(r, s) := f o s in let '(rs, s) := run f ops s in (r :: rs, s)
  end.

(** ** Lemmas *)

(** Elements in the heap and the waiting ones, tagged with decreasing recencies. *)
Definition key (p : PendingStream) : Z * Z := (p_priority p, p_id p).

Definition arrival (a b : PendingStream) : Prop := recency b < recency a.

(** [l] is the heap in order of arrival. *)
Record rel (q : PendingStreamsQueue) (s : Spec) (l : list PendingStream) : Prop := {
  rel_next : key <$> next q = interrupted s;
  rel_waiting : key <$> l = waiting s;
  rel_perm : streams q ≡ₚ l;
  rel_order : StronglySorted arrival l;
  rel_recency : Forall (λ p, q_recency q ≤ recency p) l;
  rel_sorted : StronglySorted (λ a b, pending_ge a b = true) (streams q);
  rel_prio : Forall (λ p, - 2 ^ 31 ≤ p_priority p) l;
}.

Lemma pending_ge_total a b : pending_ge a b = false → pending_ge b a = true.
Proof.
  unfold pending_ge. rewrite orb_false_iff, Z.ltb_ge, orb_true_iff, Z.ltb_lt, !andb_true_iff, !andb_false_iff,
    !orb_true_iff, !orb_false_iff, !andb_true_iff, !andb_false_iff, !Z.eqb_eq, !Z.eqb_neq, !Z.ltb_lt, !Z.ltb_ge, !Z.leb_le, !Z.leb_gt.
  lia.
Qed.

Lemma pending_ge_trans a b c : pending_ge a b = true → pending_ge b c = true → pending_ge a c = true.
Proof.
  unfold pending_ge. rewrite !orb_true_iff, !Z.ltb_lt, !andb_true_iff,
    !orb_true_iff, !andb_true_iff, !Z.eqb_eq, !Z.ltb_lt, !Z.leb_le. lia.
Qed.

Lemma queue_push_perm p h : heap_push p h ≡ₚ p :: h.
Proof.
  induction h as [|q h IH]; simpl; [done |].
  destruct (pending_ge q p); [| done]. rewrite IH. constructor.
Qed.

Lemma queue_push_sorted p h : StronglySorted (λ a b, pending_ge a b = true) h →
  StronglySorted (λ a b, pending_ge a b = true) (heap_push p h).
Proof.
  induction 1 as [|q h Hh IH Hq]; simpl; [by repeat constructor |].
  destruct (pending_ge q p) eqn:E.
  - constructor; [done |]. rewrite queue_push_perm. by constructor.
  - apply pending_ge_total in E. constructor; [by constructor |]. constructor; [done |].
    eapply Forall_impl; [exact Hq |]. simpl. intros. by eapply pending_ge_trans.
Qed.

(** The element at the top of the heap is the first arrival among the highest priority. *)
Lemma take_first_heap l p : StronglySorted arrival l → p ∈ l → Forall (λ q, pending_ge p q = true) l →
  ∃ l1 l2, l = l1 ++ p :: l2 ∧ take_first (p_priority p) (key <$> l) = (Some (key p), key <$> (l1 ++ l2)).
Proof.
  induction 1 as [|q l Hl IH Hq]; intros Hp Hge; [by apply elem_of_nil in Hp |].
  apply Forall_cons in Hge as [Hpq Hge].
  apply elem_of_cons in Hp as [-> | Hin].
  - exists [], l. split; [done |]. simpl. by rewrite Z.eqb_refl.
  - rewrite Forall_forall in Hq. specialize (Hq p Hin). unfold arrival in Hq.
    assert (p_priority q ≠ p_priority p) as Hneq.
    { unfold pending_ge in Hpq. rewrite !orb_true_iff, Z.ltb_lt, !andb_true_iff, !orb_true_iff, !andb_true_iff,
        !Z.eqb_eq, !Z.ltb_lt, !Z.leb_le in Hpq. lia. }
    destruct (IH Hin Hge) as (l1 & l2 & -> & E). exists (q :: l1), l2. split; [done |].
    cbn [fmap list_fmap take_first]. cbn [key fst]. rewrite (proj2 (Z.eqb_neq _ _)) by done.
    unfold key in E |- *. by rewrite E.
Qed.

Lemma top_spec l p : p ∈ l → Forall (λ q, p_priority q ≤ p_priority p) l → Forall (λ p, - 2 ^ 31 ≤ p_priority p) l →
  top (key <$> l) = p_priority p.
Proof.
  intros Hp Hle Hlo. unfold top.
  assert (foldr (λ p m, Z.max p.1 m) (- 2 ^ 31) (key <$> l) ≤ p_priority p).
  { assert (- 2 ^ 31 ≤ p_priority p) by (rewrite Forall_forall in Hlo; eauto).
    clear Hp Hlo. induction Hle; csimpl; lia. }
  assert (p_priority p ≤ foldr (λ p m, Z.max p.1 m) (- 2 ^ 31) (key <$> l)); [| lia].
  clear -Hp. induction Hp; csimpl; lia.
Qed.

Lemma sorted_remove {A} (R : A → A → Prop) l1 p l2 : StronglySorted R (l1 ++ p :: l2) → StronglySorted R (l1 ++ l2).
Proof.
  induction l1 as [|q l1 IH]; simpl; intros H; apply StronglySorted_inv in H as [H Hq]; [done |].
  constructor; [by apply IH |]. rewrite Forall_app, Forall_cons in Hq. rewrite Forall_app. tauto.
Qed.

Lemma rel_pop q s l r q' : rel q s l → pop q = (r, q') →
  ∃ l', spec_pop s = (p_id <$> r, mk_spec None (key <$> l')) ∧ rel q' (mk_spec None (key <$> l')) l'.
Proof.
  intros [Hn Hw Hp Ho Hr Hs Hlo] E. unfold pop in E. unfold spec_pop.
  destruct (next q) as [p |] eqn:En; simplify_eq/=.
  - rewrite <- Hn. exists l. rewrite <- Hw. by split.
  - rewrite <- Hn, <- Hw. destruct (streams q) as [|p h] eqn:Eh; simplify_eq/=.
    + symmetry in Hp. apply Permutation_nil_r in Hp as ->. exists []. split; [done |]. by split; rewrite ?En, ?Eh.
    + apply StronglySorted_inv in Hs as [Hs Hph].
      assert (Hin : p ∈ l) by (rewrite <- Hp; constructor).
      assert (Hge : Forall (λ q, pending_ge p q = true) l).
      { rewrite <- Hp. constructor; [| done]. unfold pending_ge. rewrite !Z.eqb_refl, !Z.leb_refl.
        by rewrite !orb_true_r. }
      destruct (take_first_heap l p Ho Hin Hge) as (l1 & l2 & -> & E).
      exists (l1 ++ l2). rewrite (top_spec _ p Hin) by (done || (eapply Forall_impl; [exact Hge |];
        unfold pending_ge; intros ? ?; zbool; lia)).
      rewrite E. split; [done |]. simpl.
      rewrite Forall_app, Forall_cons in Hr, Hlo. split; simpl; rewrite ?Forall_app; try tauto; try done.
      * by rewrite <- Permutation_middle in Hp; apply Permutation_cons_inv in Hp.
      * by eapply sorted_remove.
Qed.

Lemma rel_push q s l id p : rel q s l → 1 ≤ q_recency q → - 2 ^ 31 ≤ p →
  ∃ l', rel (push_pending id p q) (spec_push id p s) l'.
Proof.
  intros [Hn Hw Hp Ho Hr Hs Hlo] Hq Hprio. set (e := mk_pending p (q_recency q - 1) id).
  exists (l ++ [e]). unfold push_pending, saturating_sub. rewrite Z.max_r by lia. split; simpl; try done.
  - by rewrite fmap_app, Hw.
  - rewrite queue_push_perm, Hp. by rewrite Permutation_cons_append.
  - clear -Ho Hr. induction Ho as [|a l Hl IH Ha]; simpl; [by repeat constructor |].
    apply Forall_cons in Hr as [Hra Hr]. constructor; [by apply IH |].
    rewrite Forall_app. split; [done |]. constructor; [| done]. unfold arrival. simpl. lia.
  - rewrite Forall_app. split; [| constructor; simpl; [lia | done]].
    eapply Forall_impl; [exact Hr |]. simpl. lia.
  - by apply queue_push_sorted.
  - rewrite Forall_app. split; [done |]. by constructor.
Qed.

Lemma rel_apply o q s l r q' : rel q s l → op_ok o → 1 ≤ q_recency q → apply o q = (r, q') →
  ∃ s' l', spec_apply o s = (r, s') ∧ rel q' s' l' ∧ q_recency q - 1 ≤ q_recency q'.
Proof.
  intros Hrel Hok Hq. destruct o as [id p | id p | |]; simpl in *; intros E; simplify_eq.
  - destruct (rel_push q s l id p Hrel Hq) as [l' ?]; [lia |]. eexists _, l'. split_and!; [done.. |].
    simpl. unfold saturating_sub. lia.
  - eexists _, l. split; [done |].
    assert (q_recency (reinsert_pending id p q) = q_recency q) as ->
      by (unfold reinsert_pending; by destruct (next q)).
    split; [| lia]. destruct Hrel. unfold reinsert_pending, spec_reinsert.
    rewrite <- rel_next0. destruct (next q) eqn:En; [by split; rewrite ?En |]. by split.
  - destruct (pop q) as [x q1] eqn:E1. simplify_eq. destruct (rel_pop _ _ _ _ _ Hrel E1) as (l' & E & ?).
    eexists _, l'. split_and!; [done.. |]. unfold pop in E1.
    destruct (next q), (streams q); simplify_eq/=; lia.
  - eexists _, []. split_and!; [done | by repeat constructor | simpl; lia].
Qed.

Lemma rel_run ops : ∀ q s l, rel q s l → Forall op_ok ops → zlen ops ≤ q_recency q →
  (run apply ops q).1 = (run spec_apply ops s).1.
Proof.
  induction ops as [|o ops IH]; intros q s l Hrel Hok Hlen; [done |].
  apply Forall_cons in Hok as [Ho Hok]. autorewrite with saorsa in Hlen.
  pose proof (zlen_nonneg ops). simpl. destruct (apply o q) as [r q'] eqn:E.
  destruct (rel_apply _ _ _ _ _ _ Hrel Ho ltac:(lia) E) as (s' & l' & -> & Hrel' & Hq).
  specialize (IH q' s' l' Hrel' Hok ltac:(lia)).
  destruct (run apply ops q'), (run spec_apply ops s'). simplify_eq/=. by f_equal.
Qed.

(** ** The queue is a stable priority queue *)

(** Whatever streams are pushed, reinserted after an interruption, popped or cleared, the queue
    gives out the interrupted stream first and otherwise the first to arrive among those of
    the highest priority: the recency counter implements arrival order, so streams of equal
    priority take turns.  (Fewer than 2^64 operations, after which the counter saturates.) *)
Theorem queue_refines (ops : list op) (Hok : Forall op_ok ops) (Hlen : zlen ops < 2 ^ 64) :
  (run apply ops new).1 = (run spec_apply ops (mk_spec None [])).1.
Proof.
  apply (rel_run _ _ _ []); [by repeat constructor | done |]. simpl. unfold u_max. lia.
Qed.

Lemma queue_refines_witness :
  (run apply [Push 0 1; Push 4 5; Push 8 5; Pop; Push 4 5; Pop; Reinsert 8 5; Pop; Pop; Pop; Pop] new).1
  = [None; None; None; Some 4; None; Some 8; None; Some 8; Some 4; Some 0; None].
Proof.
  rewrite (queue_refines [Push 0 1; Push 4 5; Push 8 5; Pop; Push 4 5; Pop; Reinsert 8 5; Pop; Pop; Pop; Pop]);
    [reflexivity | repeat constructor; simpl; lia | unfold zlen; simpl; lia].
Defined.

End PendingStreamsQueue.
