(* ===== verification/Streams.v ===== *)
(** * The streams of a connection

    Models [src/connection/streams/state.rs] and [mod.rs], the read sessions of
    [recv.rs] and the retransmission queue [Retransmits] of [src/connection/spaces.rs]:
    which streams exist, flow control in both directions, the credit for opening streams,
    and the frames written for all of it.

    The state is the code's struct.  Its hash maps are finite maps from identifiers, the
    arrays indexed by direction are pairs.  An operation that can panic answers [None].
    Subtractions that depend on an invariant wrap.  A stream's data stays below 2^62 and
    the counters of streams below 2^64, so that the other sums do not wrap.  Logging and the counters
    of [FrameStats] are left out. *)

From Stdlib Require Import String.
From stdpp Require Import gmap fin_maps.
From S2P Require Import Prelude BTree RangeSets Coding SendBuf Assembler NatFrames Frames.
From S2P Require Import StreamSend StreamRecv StreamQueue.

(** The element for a direction of a two-element array. *)
Definition sel {A} (d : Frames.Dir) (p : A * A) : A := match d with Frames.Bi => p.1 | Frames.Uni => p.2 end.
Definition upd {A} (d : Frames.Dir) (v : A) (p : A * A) : A * A :=
  match d with Frames.Bi => (v, p.2) | Frames.Uni => (p.1, v) end.

(** ** The retransmission queue *)

Record IssuedCid := mk_issued_cid { ic_sequence : Z; ic_id : list Z; ic_reset_token : list Z }.

Module Retransmits.

Record Retransmits := mk_retransmits {
  max_data : bool;
  max_stream_id : bool * bool;
  reset_stream : list (Z * Z);
  stop_sending : list Frames.StopSending;
  max_stream_data : gset Z;
  crypto : list Frames.Crypto;
  new_cids : list IssuedCid;
  retire_cids : list Z;
  ack_frequency : bool;
  handshake_done : bool;
  new_tokens : list NatFrames.SocketAddr;
  add_addresses : list NatFrames.AddAddress;
  punch_me_now : list NatFrames.PunchMeNow;
  remove_addresses : list Z;
  outbound_observations : list NatFrames.ObservedAddress;
  try_connect_to : list NatFrames.TryConnectTo;
  try_connect_to_responses : list NatFrames.TryConnectToResponse;
}.

#[global] Instance retransmits_settable : Settable Retransmits := λ r,
  mk_retransmits (max_data r) (max_stream_id r) (reset_stream r) (stop_sending r) (max_stream_data r)
    (crypto r) (new_cids r) (retire_cids r) (ack_frequency r) (handshake_done r) (new_tokens r)
    (add_addresses r) (punch_me_now r) (remove_addresses r) (outbound_observations r)
    (try_connect_to r) (try_connect_to_responses r).

Definition empty : Retransmits :=
  mk_retransmits false (false, false) [] [] ∅ [] [] [] false false [] [] [] [] [] [] [].

(** [BitOrAssign]: the lost CRYPTO frames come before the queued ones. *)
Definition bitor_assign (rhs r : Retransmits) : Retransmits :=
  mk_retransmits (max_data r || max_data rhs)
    ((max_stream_id r).1 || (max_stream_id rhs).1, (max_stream_id r).2 || (max_stream_id rhs).2)
    (reset_stream r ++ reset_stream rhs) (stop_sending r ++ stop_sending rhs)
    (max_stream_data r ∪ max_stream_data rhs) (crypto rhs ++ crypto r)
    (new_cids r ++ new_cids rhs) (retire_cids r ++ retire_cids rhs)
    (ack_frequency r || ack_frequency rhs) (handshake_done r || handshake_done rhs)
    (new_tokens r ++ new_tokens rhs) (add_addresses r ++ add_addresses rhs)
    (punch_me_now r ++ punch_me_now rhs) (remove_addresses r ++ remove_addresses rhs)
    (outbound_observations r ++ outbound_observations rhs)
    (try_connect_to r ++ try_connect_to rhs)
    (try_connect_to_responses r ++ try_connect_to_responses rhs).

(** [ThinRetransmits::get_or_create]. *)
Definition get_or_create (t : option Retransmits) : Retransmits := default empty t.

End Retransmits.

(** ** The state *)

Module StreamsState.
Import TransportError.

Inductive StreamRecv := RFree (r : Recv.Recv) | ROpen (r : Recv.Recv).

Definition as_open_recv (r : StreamRecv) : option Recv.Recv :=
  match r with ROpen r => Some r | RFree _ => None end.

Definition into_inner (r : StreamRecv) : Recv.Recv := match r with RFree r | ROpen r => r end.

(** [None] is the [unreachable!] for a stream that is already free. *)
Definition free (initial_max_data : Z) (r : StreamRecv) : option StreamRecv :=
  match r with RFree _ => None | ROpen r => Some (RFree (Recv.reinit initial_max_data r)) end.

Inductive StreamEvent :=
| Opened (dir : Frames.Dir)
| Readable (id : Z)
| Writable (id : Z)
| Finished (id : Z)
| Stopped (id error_code : Z)
| Available (dir : Frames.Dir).

Inductive StreamHalf := HalfSend | HalfRecv.

Record StreamsState := mk_streams {
  side : Side;
  send : gmap Z (option Send.Send);
  recv : gmap Z (option StreamRecv);
  free_recv : list StreamRecv;
  next : Z * Z;
  max : Z * Z;
  max_remote : Z * Z;
  sent_max_remote : Z * Z;
  allocated_remote_count : Z * Z;
  max_concurrent_remote_count : Z * Z;
  flow_control_adjusted : bool;
  next_remote : Z * Z;
  opened : bool * bool;
  next_reported_remote : Z * Z;
  send_streams : Z;
  pending : PendingStreamsQueue.PendingStreamsQueue;
  events : list StreamEvent;
  connection_blocked : list Z;
  max_data : Z;
  receive_window : Z;
  local_max_data : Z;
  sent_max_data : Z;
  data_sent : Z;
  data_recvd : Z;
  unacked_data : Z;
  send_window : Z;
  stream_receive_window : Z;
  initial_max_stream_data_uni : Z;
  initial_max_stream_data_bidi_local : Z;
  initial_max_stream_data_bidi_remote : Z;
  receive_window_shrink_debt : Z;
}.

#[global] Instance streams_settable : Settable StreamsState := λ s,
  mk_streams (side s) (send s) (recv s) (free_recv s) (next s) (max s) (max_remote s) (sent_max_remote s)
    (allocated_remote_count s) (max_concurrent_remote_count s) (flow_control_adjusted s) (next_remote s)
    (opened s) (next_reported_remote s) (send_streams s) (pending s) (events s) (connection_blocked s)
    (max_data s) (receive_window s) (local_max_data s) (sent_max_data s) (data_sent s) (data_recvd s)
    (unacked_data s) (send_window s) (stream_receive_window s) (initial_max_stream_data_uni s)
    (initial_max_stream_data_bidi_local s) (initial_max_stream_data_bidi_remote s)
    (receive_window_shrink_debt s).

(** *** Opening and freeing *)

(** [None] is an [assert!] that finds the identifier in use. *)
Definition insert (remote : bool) (id : Z) (s : StreamsState) : option StreamsState :=
  let bi := bool_decide (StreamId.dir id = Frames.Bi) in
  s ← (if bi || negb remote then
         match send s !! id with
         | Some _ => None
         | None => Some (s <| send := <[id := None]> (send s) |>)
         end
       else Some s);
  if bi || remote then
    let '(r, free) := match vec_pop (free_recv s) with
                      | Some (r, free) => (Some r, free) | None => (None, [])
                      end in
    match recv s !! id with
    | Some _ => None
    | None => Some (s <| free_recv := free |> <| recv := <[id := r]> (recv s) |>)
    end
  else Some s.

(** [for i in 0..n { self.insert(true, StreamId::new(!side, dir, from + i)) }] *)
Fixpoint insert_remote (dir : Frames.Dir) (from : Z) (n : nat) (s : StreamsState) : option StreamsState :=
  match n with
  | O => Some s
  | S n =>
    s ← insert true (StreamId.new (other (side s)) dir from) s;
    insert_remote dir (from + 1) n s
  end.

Definition new (side : Side) (max_remote_uni max_remote_bi send_window receive_window stream_receive_window : Z)
  : option StreamsState :=
  let per_dir := (max_remote_bi, max_remote_uni) in
  let this := mk_streams side ∅ ∅ [] (0, 0) (0, 0) per_dir per_dir per_dir per_dir false (0, 0) (false, false)
    (0, 0) 0 PendingStreamsQueue.new [] [] 0 receive_window receive_window receive_window 0 0 0
    send_window stream_receive_window 0 0 0 0 in
  this ← insert_remote Frames.Bi 0 (Z.to_nat max_remote_bi) this;
  insert_remote Frames.Uni 0 (Z.to_nat max_remote_uni) this.

Definition ensure_remote_streams (dir : Frames.Dir) (s : StreamsState) : option StreamsState :=
  let new_count := saturating_sub (sel dir (max_concurrent_remote_count s)) (sel dir (allocated_remote_count s)) in
  s ← insert_remote dir (sel dir (max_remote s)) (Z.to_nat new_count) s;
  Some (s <| allocated_remote_count := upd dir (sel dir (allocated_remote_count s) + new_count) (allocated_remote_count s) |>
          <| max_remote := upd dir (sel dir (max_remote s) + new_count) (max_remote s) |>).

Definition stream_freed (id : Z) (half : StreamHalf) (s : StreamsState) : option StreamsState :=
  let dir := StreamId.dir id in
  s ← (if bool_decide (StreamId.initiator id ≠ side s) then
         let fully_free := bool_decide (dir = Frames.Uni)
           || match half with
              | HalfSend => bool_decide (recv s !! id = None)
              | HalfRecv => bool_decide (send s !! id = None)
              end in
         if fully_free then
           ensure_remote_streams dir (s <| allocated_remote_count :=
             upd dir (wrapping_sub 64 (sel dir (allocated_remote_count s)) 1) (allocated_remote_count s) |>)
         else Some s
       else Some s);
  match half with
  | HalfSend => Some (s <| send_streams := wrapping_sub 64 (send_streams s) 1 |>)
  | HalfRecv => Some s
  end.

Definition stream_recv_freed (id : Z) (r : StreamRecv) (s : StreamsState) : option StreamsState :=
  r ← free (stream_receive_window s) r;
  stream_freed id HalfRecv (s <| free_recv := free_recv s ++ [r] |>).

Definition max_send_data (id : Z) (s : StreamsState) : Z :=
  match StreamId.dir id with
  | Frames.Uni => initial_max_stream_data_uni s
  | Frames.Bi =>
    if bool_decide (side s ≠ StreamId.initiator id) then initial_max_stream_data_bidi_local s
    else initial_max_stream_data_bidi_remote s
  end.

(** [send.get_mut(&id).map(get_or_insert_send(max_data))]: the stream and the state in
    which it exists. *)
Definition get_or_insert_send (id : Z) (s : StreamsState) : option (Send.Send * StreamsState) :=
  o ← send s !! id;
  let ss := default (Send.new (max_send_data id s)) o in
  Some (ss, s <| send := <[id := Some ss]> (send s) |>).

(** [recv.get_mut(&id).map(get_or_insert_recv(window))] *)
Definition get_or_insert_recv (id : Z) (s : StreamsState) : option (Recv.Recv * StreamsState) :=
  o ← recv s !! id;
  let r := match o with Some r => into_inner r | None => Recv.new (stream_receive_window s) end in
  Some (r, s <| recv := <[id := Some (ROpen r)]> (recv s) |>).

(** Writing back through the [&mut] the two give. *)
Definition put_send (id : Z) (ss : Send.Send) (s : StreamsState) : StreamsState :=
  s <| send := <[id := Some ss]> (send s) |>.
Definition put_recv (id : Z) (r : Recv.Recv) (s : StreamsState) : StreamsState :=
  s <| recv := <[id := Some (ROpen r)]> (recv s) |>.

(** *** Flow control of incoming data *)

Definition add_read_credits (credits : Z) (s : StreamsState) : StreamsState * bool :=
  let debt := receive_window_shrink_debt s in
  let s := if debt <? credits then
             s <| local_max_data := saturating_add 64 (local_max_data s) (credits - debt) |>
               <| receive_window_shrink_debt := 0 |>
           else s <| receive_window_shrink_debt := debt - credits |> in
  if VarInt.MAX <? local_max_data s then (s, false)
  else (s, receive_window s / 8 <=? wrapping_sub 64 (local_max_data s) (sent_max_data s)).

Definition set_receive_window (window : Z) (s : StreamsState) : StreamsState * bool :=
  if receive_window s <? window then
    (s <| local_max_data := saturating_add 64 (local_max_data s) (window - receive_window s) |>
       <| receive_window := window |>, true)
  else
    (s <| receive_window_shrink_debt :=
         saturating_add 64 (receive_window_shrink_debt s) (receive_window s - window) |>
       <| receive_window := window |>, false).

Definition validate_receive_id (id : Z) (s : StreamsState) : result unit Error :=
  if bool_decide (side s = StreamId.initiator id) then
    match StreamId.dir id with
    | Frames.Uni => Err (STREAM_STATE_ERROR "illegal operation on send-only stream")
    | Frames.Bi =>
      if (next s).1 <=? StreamId.index id then Err (STREAM_STATE_ERROR "operation on unopened stream") else Ok ()
    end
  else if sel (StreamId.dir id) (max_remote s) <=? StreamId.index id then Err (STREAM_LIMIT_ERROR EmptyString)
  else Ok ().

Definition on_stream_frame (notify_readable : bool) (id : Z) (s : StreamsState) : StreamsState :=
  let readable := if notify_readable then s <| events := events s ++ [Readable id] |> else s in
  if bool_decide (StreamId.initiator id = side s) then readable
  else
    let dir := StreamId.dir id in
    if sel dir (next_remote s) <=? StreamId.index id then
      s <| next_remote := upd dir (StreamId.index id + 1) (next_remote s) |> <| opened := upd dir true (opened s) |>
    else readable.

(** The result of a STREAM frame and the state after it, which is also kept on an error. *)
Definition received (frame : Frames.Stream) (payload_len : Z) (s : StreamsState)
  : option (StreamsState * result bool Error) :=
  let id := Frames.st_id frame in
  match validate_receive_id id s with
  | Err e => Some (s, Err e)
  | Ok _ =>
    match get_or_insert_recv id s with
    | None => Some (s, Ok false)
    | Some (rs, s) =>
      if negb (Recv.is_receiving rs) then Some (s, Ok false)
      else
        match Recv.ingest frame payload_len (data_recvd s) (local_max_data s) rs with
        | Err e => Some (s, Err e)
        | Ok (new_bytes, closed, rs) =>
          let s := put_recv id rs s <| data_recvd := saturating_add 64 (data_recvd s) new_bytes |> in
          if negb (Recv.stopped rs) then Some (on_stream_frame true id s, Ok false)
          else
            s ← (if closed then stream_recv_freed id (ROpen rs) (s <| recv := delete id (recv s) |>) else Some s);
            let '(s, t) := add_read_credits new_bytes s in
            Some (s, Ok t)
        end
    end
  end.

Definition received_reset (frame : Frames.ResetStream) (s : StreamsState)
  : option (StreamsState * result bool Error) :=
  let id := Frames.rs_id frame in
  let final_offset := Frames.final_offset frame in
  match validate_receive_id id s with
  | Err e => Some (s, Err e)
  | Ok _ =>
    match get_or_insert_recv id s with
    | None => Some (s, Ok false)
    | Some (rs, s) =>
      match Recv.reset (Frames.rs_error_code frame) final_offset (data_recvd s) (local_max_data s) rs with
      | Err e => Some (s, Err e)
      | Ok (false, _) => Some (s, Ok false)
      | Ok (true, rs) =>
        let bytes_read := Assembler.bytes_read (Recv.assembler rs) in
        let stopped := Recv.stopped rs in
        let s := put_recv id rs s in
        s ← (if stopped then stream_recv_freed id (ROpen rs) (s <| recv := delete id (recv s) |>) else Some s);
        let s := on_stream_frame (negb stopped) id s in
        if negb (bytes_read =? final_offset) then
          let s := s <| data_recvd :=
            saturating_add 64 (data_recvd s) (wrapping_sub 64 final_offset (Recv.end_ rs)) |> in
          let '(s, t) := add_read_credits (wrapping_sub 64 final_offset bytes_read) s in
          Some (s, Ok t)
        else Some (s, Ok false)
      end
    end
  end.

(** The condition under which MAX_STREAMS is worth sending, for both directions. *)
Definition queue_max_stream_id (pending : Retransmits.Retransmits) (s : StreamsState)
  : Retransmits.Retransmits * bool :=
  let due d := sel d (max_concurrent_remote_count s) / 8
               <? wrapping_sub 64 (sel d (max_remote s)) (sel d (sent_max_remote s)) in
  (pending <| Retransmits.max_stream_id :=
     ((Retransmits.max_stream_id pending).1 || due Frames.Bi, (Retransmits.max_stream_id pending).2 || due Frames.Uni) |>,
   due Frames.Bi || due Frames.Uni).

Definition set_max_concurrent (dir : Frames.Dir) (count : Z) (s : StreamsState) : option StreamsState :=
  ensure_remote_streams dir (s <| flow_control_adjusted := true |>
    <| max_concurrent_remote_count := upd dir count (max_concurrent_remote_count s) |>).

(** Whether MAX_STREAM_DATA could be sent for a stream. *)
Definition can_send_flow_control (id : Z) (s : StreamsState) : bool :=
  match recv s !! id with Some (Some (ROpen r)) => Recv.can_send_flow_control r | _ => false end.

(** *** The application's side *)

Definition open (conn_closed : bool) (dir : Frames.Dir) (s : StreamsState) : option (option Z * StreamsState) :=
  if conn_closed then Some (None, s)
  else if sel dir (max s) <=? sel dir (next s) then Some (None, s)
  else
    let s := s <| next := upd dir (sel dir (next s) + 1) (next s) |> in
    let id := StreamId.new (side s) dir (sel dir (next s) - 1) in
    s ← insert false id s;
    Some (Some id, s <| send_streams := send_streams s + 1 |>).

Definition accept (dir : Frames.Dir) (s : StreamsState) : option Z * StreamsState :=
  if sel dir (next_remote s) =? sel dir (next_reported_remote s) then (None, s)
  else
    let x := sel dir (next_reported_remote s) in
    let s := s <| next_reported_remote := upd dir (x + 1) (next_reported_remote s) |> in
    let s := match dir with Frames.Bi => s <| send_streams := send_streams s + 1 |> | Frames.Uni => s end in
    (Some (StreamId.new (other (side s)) dir x), s).

Definition remote_open_streams (dir : Frames.Dir) (s : StreamsState) : Z :=
  wrapping_sub 64 (sel dir (next_remote s))
    (wrapping_sub 64 (sel dir (max_remote s)) (sel dir (allocated_remote_count s))).

(** [RecvStream::stop]; [conn_closed] is always false. *)
Definition stop (id error_code : Z) (pending : Retransmits.Retransmits) (s : StreamsState)
  : option (result unit Recv.ClosedStream * Retransmits.Retransmits * StreamsState) :=
  match get_or_insert_recv id s with
  | None => Some (Err Recv.closed_stream, pending, s)
  | Some (stream, s) =>
    match Recv.stop stream with
    | Err e => Some (Err e, pending, s)
    | Ok (read_credits, stop_sending, stream) =>
      let s := put_recv id stream s in
      let pending := if stop_sending then
          pending <| Retransmits.stop_sending := Retransmits.stop_sending pending ++ [Frames.mk_stop_sending id error_code] |>
        else pending in
      s ← (if negb (Recv.final_offset_unknown stream) then
             stream_recv_freed id (ROpen stream) (s <| recv := delete id (recv s) |>)
           else Some s);
      let '(s, t) := add_read_credits read_credits s in
      Some (Ok (), if t then pending <| Retransmits.max_data := true |> else pending, s)
    end
  end.

(** [RecvStream::received_reset]. *)
Definition observe_reset (id : Z) (pending : Retransmits.Retransmits) (s : StreamsState)
  : option (result (option Z) Recv.ClosedStream * Retransmits.Retransmits * StreamsState) :=
  match recv s !! id with
  | None => Some (Err Recv.closed_stream, pending, s)
  | Some (Some (ROpen r)) =>
    if Recv.stopped r then Some (Err Recv.closed_stream, pending, s)
    else
      match Recv.reset_code r with
      | None => Some (Ok None, pending, s)
      | Some code =>
        s ← stream_recv_freed id (ROpen r) (s <| recv := delete id (recv s) |>);
        Some (Ok (Some code), (queue_max_stream_id pending s).1, s)
      end
  | Some _ => Some (Ok None, pending, s)
  end.

(** *** Read sessions

    A [Chunks] borrows the state until it is finalized or dropped (which finalizes it); the
    stream it reads is not in the map meanwhile. *)

Inductive ChunksState :=
| ChReadable (rs : Recv.Recv)
| ChReset (error_code : Z)
| ChFinished
| ChFinalized.

Inductive ReadError := ReadBlocked | ReadReset (error_code : Z) | ReadConnectionClosed.
Inductive ReadableError := ReadableClosedStream | ReadableIllegalOrderedRead | ReadableConnectionClosed.

Record Chunks := mk_chunks { ch_id : Z; ch_ordered : bool; ch_state : ChunksState; ch_read : Z }.

Definition chunks_new (id : Z) (ordered : bool) (s : StreamsState) : result Chunks ReadableError * StreamsState :=
  match get_or_insert_recv id s with
  | None => (Err ReadableClosedStream, s)
  | Some (r, s) =>
    if Recv.stopped r then (Err ReadableClosedStream, s)
    else
      let s := s <| recv := delete id (recv s) |> in
      match Assembler.ensure_ordering ordered (Recv.assembler r) with
      | Err _ => (Err ReadableIllegalOrderedRead, s)
      | Ok a => (Ok (mk_chunks id ordered (ChReadable (r <| Recv.assembler := a |>)) 0), s)
      end
  end.

(** [None]: [next] after [finalize], or a panic in the counters. *)
Definition chunks_next (max_length : Z) (ch : Chunks) (s : StreamsState)
  : option (result (option Assembler.Chunk) ReadError * Chunks * StreamsState) :=
  match ch_state ch with
  | ChReset error_code => Some (Err (ReadReset error_code), ch, s)
  | ChFinished => Some (Ok None, ch, s)
  | ChFinalized => None
  | ChReadable rs =>
    match Assembler.read max_length (ch_ordered ch) (Recv.assembler rs) with
    | (Some chunk, a) =>
      Some (Ok (Some chunk),
        mk_chunks (ch_id ch) (ch_ordered ch) (ChReadable (rs <| Recv.assembler := a |>))
          (ch_read ch + zlen (Assembler.c_bytes chunk)), s)
    | (None, a) =>
      let rs := rs <| Recv.assembler := a |> in
      let with_state st := mk_chunks (ch_id ch) (ch_ordered ch) st (ch_read ch) in
      match Recv.state rs with
      | Recv.StResetRecvd _ error_code =>
        s ← stream_recv_freed (ch_id ch) (ROpen rs) s;
        Some (Err (ReadReset error_code), with_state (ChReset error_code), s)
      | Recv.StRecv size =>
        if bool_decide (size = Some (Recv.end_ rs)) && (Assembler.bytes_read a =? Recv.end_ rs) then
          s ← stream_recv_freed (ch_id ch) (ROpen rs) s;
          Some (Ok None, with_state ChFinished, s)
        else Some (Err ReadBlocked, with_state (ChReadable rs), s)
      end
    end
  end.

Definition finalize_inner (pending : Retransmits.Retransmits) (ch : Chunks) (s : StreamsState)
  : bool * Retransmits.Retransmits * Chunks * StreamsState :=
  let ch' := mk_chunks (ch_id ch) (ch_ordered ch) ChFinalized (ch_read ch) in
  match ch_state ch with
  | ChFinalized => (false, pending, ch', s)
  | st =>
    let '(pending, queued) := queue_max_stream_id pending s in
    let '(pending, due, s) :=
      match st with
      | ChReadable rs =>
        let '(_, due) := Recv.max_stream_data (stream_receive_window s) rs in
        ((if due then pending <| Retransmits.max_stream_data := {[ch_id ch]} ∪ Retransmits.max_stream_data pending |>
          else pending), due, put_recv (ch_id ch) rs s)
      | _ => (pending, false, s)
      end in
    let '(s, t) := add_read_credits (ch_read ch) s in
    (queued || due || t,
     pending <| Retransmits.max_data := Retransmits.max_data pending || t |>, ch', s)
  end.

End StreamsState.
