(* ===== verification/StreamsSend.v ===== *)
(** * Outgoing data of all streams

    Models the sending side of [src/connection/streams/state.rs] and [mod.rs]: what the
    application writes, the frames a packet takes from the streams and from the
    retransmission queue, the acknowledgement and loss of those frames, and the limits the
    peer sets.  Conventions as in [Streams]. *)

From Stdlib Require Import String.
From stdpp Require Import gmap fin_maps.
From S2P Require Import Prelude BTree RangeSets Coding SendBuf Assembler NatFrames Frames.
From S2P Require Import StreamSend StreamRecv TransportParams StreamQueue Streams.

Module StreamsSend.
Import TransportError StreamsState.

(** ** Limits set by the peer *)

Definition received_max_data (n : Z) (s : StreamsState) : StreamsState :=
  s <| max_data := Z.max (max_data s) n |>.

(** The loop over the streams the peer may open. *)
Fixpoint set_stream_limits (n : nat) (i limit : Z) (s : StreamsState) : StreamsState :=
  match n with
  | O => s
  | S n =>
    let id := StreamId.new (other (side s)) Frames.Bi i in
    set_stream_limits n (i + 1) limit
      (match send s !! id with
       | Some (Some ss) => put_send id (ss <| Send.max_data := limit |>) s
       | _ => s
       end)
  end.

Definition set_params (p : TransportParameters.TransportParameters) (s : StreamsState) : StreamsState :=
  let s := s <| initial_max_stream_data_uni := TransportParameters.initial_max_stream_data_uni p |>
             <| initial_max_stream_data_bidi_local := TransportParameters.initial_max_stream_data_bidi_local p |>
             <| initial_max_stream_data_bidi_remote := TransportParameters.initial_max_stream_data_bidi_remote p |>
             <| max := (TransportParameters.initial_max_streams_bidi p, TransportParameters.initial_max_streams_uni p) |> in
  let s := received_max_data (TransportParameters.initial_max_data p) s in
  set_stream_limits (Z.to_nat (max_remote s).1) 0 (TransportParameters.initial_max_stream_data_bidi_local p) s.

Definition received_max_streams (dir : Frames.Dir) (count : Z) (s : StreamsState)
  : StreamsState * result unit Error :=
  if MAX_STREAM_COUNT <? count then (s, Err (FRAME_ENCODING_ERROR "unrepresentable stream limit"))
  else if sel dir (max s) <? count then
    (s <| max := upd dir count (max s) |> <| events := events s ++ [Available dir] |>, Ok ())
  else (s, Ok ()).

(** How much may still be written on the connection. *)
Definition write_limit (s : StreamsState) : Z :=
  Z.min (wrapping_sub 64 (max_data s) (data_sent s)) (wrapping_sub 64 (send_window s) (unacked_data s)).

Definition is_local_unopened (id : Z) (s : StreamsState) : bool :=
  sel (StreamId.dir id) (next s) <=? StreamId.index id.

Definition received_max_stream_data (id offset : Z) (s : StreamsState) : StreamsState * result unit Error :=
  if bool_decide (StreamId.initiator id ≠ side s) && bool_decide (StreamId.dir id = Frames.Uni) then
    (s, Err (STREAM_STATE_ERROR "MAX_STREAM_DATA on recv-only stream"))
  else
    let write_limit := write_limit s in
    match get_or_insert_send id s with
    | Some (ss, s) =>
      let '(unblocked, ss) := Send.increase_max_data offset ss in
      let s := put_send id ss s in
      let s := if unblocked then
          if 0 <? write_limit then s <| events := events s ++ [Writable id] |>
          else if negb (Send.connection_blocked ss) then
            put_send id (ss <| Send.connection_blocked := true |>) s
              <| connection_blocked := connection_blocked s ++ [id] |>
          else s
        else s in
      (on_stream_frame false id s, Ok ())
    | None =>
      if bool_decide (StreamId.initiator id = side s) && is_local_unopened id s then
        (s, Err (STREAM_STATE_ERROR "MAX_STREAM_DATA on unopened stream"))
      else (on_stream_frame false id s, Ok ())
    end.

Definition received_stop_sending (id error_code : Z) (s : StreamsState) : StreamsState :=
  match get_or_insert_send id s with
  | None => s
  | Some (ss, s) =>
    let '(stopped, ss) := Send.try_stop error_code ss in
    let s := put_send id ss s in
    if stopped then on_stream_frame false id (s <| events := events s ++ [Stopped id error_code] |>) else s
  end.

(** ** The application's side *)

(** [SendStream::write_source], behind both [write] and [write_chunks]. *)
Definition write_source `{BytesSource Src} (conn_closed : bool) (id : Z) (source : Src) (s : StreamsState)
  : option (result (Send.Written * Src) Send.WriteError * StreamsState) :=
  if conn_closed then Some (Err Send.WriteBlocked, s)
  else
    let limit := write_limit s in
    match get_or_insert_send id s with
    | None => Some (Err Send.WriteClosedStream, s)
    | Some (stream, s) =>
      if limit =? 0 then
        Some (Err Send.WriteBlocked,
          if negb (Send.connection_blocked stream) then
            put_send id (stream <| Send.connection_blocked := true |>) s
              <| connection_blocked := connection_blocked s ++ [id] |>
          else s)
      else
        let was_pending := Send.is_pending stream in
        r ← Send.write source limit stream;
        match r with
        | Err e => Some (Err e, s)
        | Ok (written, source, stream) =>
          let s := put_send id stream s
            <| data_sent := data_sent s + Send.w_bytes written |>
            <| unacked_data := unacked_data s + Send.w_bytes written |> in
          Some (Ok (written, source),
            if negb was_pending then
              s <| pending := PendingStreamsQueue.push_pending id (Send.priority stream) (pending s) |>
            else s)
        end
    end.

Definition stopped (id : Z) (s : StreamsState) : result (option Z) Recv.ClosedStream :=
  match send s !! id with
  | Some (Some ss) => Ok (Send.stop_reason ss)
  | Some None => Ok None
  | None => Err Recv.closed_stream
  end.

Definition finish (id : Z) (s : StreamsState) : result unit Send.FinishError * StreamsState :=
  match get_or_insert_send id s with
  | None => (Err Send.FinishClosedStream, s)
  | Some (stream, s) =>
    let was_pending := Send.is_pending stream in
    match Send.finish stream with
    | Err e => (Err e, s)
    | Ok stream =>
      let s := put_send id stream s in
      (Ok (), if negb was_pending then
                s <| pending := PendingStreamsQueue.push_pending id (Send.priority stream) (pending s) |>
              else s)
    end
  end.

Definition reset (id error_code : Z) (pending : Retransmits.Retransmits) (s : StreamsState)
  : result unit Recv.ClosedStream * Retransmits.Retransmits * StreamsState :=
  match get_or_insert_send id s with
  | None => (Err Recv.closed_stream, pending, s)
  | Some (stream, s) =>
    if Send.is_reset stream then (Err Recv.closed_stream, pending, s)
    else
      (Ok (), pending <| Retransmits.reset_stream := Retransmits.reset_stream pending ++ [(id, error_code)] |>,
       put_send id (Send.reset stream) s
         <| unacked_data := wrapping_sub 64 (unacked_data s) (SendBuffer.unacked (Send.pending stream)) |>)
  end.

Definition set_priority (id priority : Z) (s : StreamsState) : result unit Recv.ClosedStream * StreamsState :=
  match get_or_insert_send id s with
  | None => (Err Recv.closed_stream, s)
  | Some (stream, s) => (Ok (), put_send id (stream <| Send.priority := priority |>) s)
  end.

Definition priority (id : Z) (s : StreamsState) : result Z Recv.ClosedStream :=
  match send s !! id with
  | Some stream => Ok (from_option Send.priority 0 stream)
  | None => Err Recv.closed_stream
  end.

(** ** Events *)

(** The loop over the blocked streams; each round takes one off the list. *)
Fixpoint poll_blocked (fuel : nat) (s : StreamsState) : option StreamEvent * StreamsState :=
  match fuel, vec_pop (connection_blocked s) with
  | O, _ | _, None => (None, s)
  | S fuel, Some (id, blocked) =>
    let s := s <| connection_blocked := blocked |> in
    match send s !! id with
    | Some (Some stream) =>
      let stream := stream <| Send.connection_blocked := false |> in
      let s := put_send id stream s in
      if Send.is_writable stream && (Send.offset stream <? Send.max_data stream) then (Some (Writable id), s)
      else poll_blocked fuel s
    | _ => poll_blocked fuel s
    end
  end.

Definition poll (s : StreamsState) : option StreamEvent * StreamsState :=
  if (opened s).1 then (Some (Opened Frames.Bi), s <| opened := upd Frames.Bi false (opened s) |>)
  else if (opened s).2 then (Some (Opened Frames.Uni), s <| opened := upd Frames.Uni false (opened s) |>)
  else
    let '(e, s) := if 0 <? write_limit s then poll_blocked (length (connection_blocked s)) s else (None, s) in
    match e with
    | Some e => (Some e, s)
    | None =>
      match events s with
      | [] => (None, s)
      | e :: es => (Some e, s <| events := es |>)
      end
    end.

(** ** Acknowledgement and loss *)

Definition reset_acked (id : Z) (s : StreamsState) : option StreamsState :=
  match send s !! id with
  | Some (Some ss) =>
    if Send.is_reset ss then stream_freed id HalfSend (s <| send := delete id (send s) |>) else Some s
  | _ => Some s
  end.

Definition received_ack_of (frame : Frames.StreamMeta) (s : StreamsState) : option StreamsState :=
  let id := Frames.m_id frame in
  match send s !! id with
  | Some (Some stream) =>
    if Send.is_reset stream then Some s
    else
      let r := Frames.m_offsets frame in
      let s := s <| unacked_data := wrapping_sub 64 (unacked_data s) (wrapping_sub 64 r.2 r.1) |> in
      '(done, stream) ← Send.ack frame stream;
      if (done : bool) then
        s ← stream_freed id HalfSend (s <| send := delete id (send s) |>);
        Some (s <| events := events s ++ [Finished id] |>)
      else Some (put_send id stream s)
  | _ => Some s
  end.

Definition retransmit (frame : Frames.StreamMeta) (s : StreamsState) : StreamsState :=
  let id := Frames.m_id frame in
  match send s !! id with
  | Some (Some stream) =>
    let s := if negb (Send.is_pending stream) then
        s <| pending := PendingStreamsQueue.push_pending id (Send.priority stream) (pending s) |>
      else s in
    put_send id (stream <| Send.fin_pending := Send.fin_pending stream || Frames.m_fin frame |>
                        <| Send.pending := SendBuffer.retransmit (Frames.m_offsets frame) (Send.pending stream) |>) s
  | _ => s
  end.

(** The loop over the indices of one direction. *)
Fixpoint retransmit_all_dir (n : nat) (index : Z) (dir : Frames.Dir) (s : StreamsState) : StreamsState :=
  match n with
  | O => s
  | S n =>
    let id := StreamId.new Client dir index in
    retransmit_all_dir n (index + 1) dir
      (match send s !! id with
       | Some (Some stream) =>
         if SendBuffer.is_fully_acked (Send.pending stream) && negb (Send.fin_pending stream) then s
         else
           let s := if negb (Send.is_pending stream) then
               s <| pending := PendingStreamsQueue.push_pending id (Send.priority stream) (pending s) |>
             else s in
           put_send id (stream <| Send.pending := SendBuffer.retransmit_all_for_0rtt (Send.pending stream) |>) s
       | _ => s
       end)
  end.

Definition retransmit_all_for_0rtt (s : StreamsState) : StreamsState :=
  let s := retransmit_all_dir (Z.to_nat (next s).1) 0 Frames.Bi s in
  retransmit_all_dir (Z.to_nat (next s).2) 0 Frames.Uni s.

(** The loop that forgets the streams of one direction; [None] is a failing [unwrap]. *)
Fixpoint forget_local (n : nat) (i : Z) (dir : Frames.Dir) (s : StreamsState) : option StreamsState :=
  match n with
  | O => Some s
  | S n =>
    let id := StreamId.new (side s) dir i in
    _ ← send s !! id;
    let s := s <| send := delete id (send s) |> in
    s ← match dir with
        | Frames.Bi => _ ← recv s !! id; Some (s <| recv := delete id (recv s) |>)
        | Frames.Uni => Some s
        end;
    forget_local n (i + 1) dir s
  end.

Definition zero_rtt_dir (dir : Frames.Dir) (s : StreamsState) : option StreamsState :=
  s ← forget_local (Z.to_nat (sel dir (next s))) 0 dir s;
  let s := s <| next := upd dir 0 (next s) |> in
  Some (if flow_control_adjusted s then s <| sent_max_remote := upd dir 0 (sent_max_remote s) |> else s).

Definition zero_rtt_rejected (s : StreamsState) : option StreamsState :=
  s ← zero_rtt_dir Frames.Bi s;
  s ← zero_rtt_dir Frames.Uni s;
  Some (s <| pending := PendingStreamsQueue.clear (pending s) |> <| send_streams := 0 |>
          <| data_sent := 0 |> <| connection_blocked := [] |>).

(** ** Writing frames *)

(** Whether any stream data is queued: reset streams may linger in the queue. *)
Definition can_send_stream_data (s : StreamsState) : bool :=
  existsb (λ p, match send s !! PendingStreamsQueue.p_id p with
                | Some (Some ss) => negb (Send.is_reset ss)
                | _ => false
                end) (PendingStreamsQueue.iter (pending s)).

(** The loop of [write_stream_frames].  [None]: it has not ended after [fuel] rounds, or the
    data of a range could not be copied. *)
Fixpoint write_stream_loop (fuel : nat) (max_buf_size : Z) (fair : bool) (buf : list Z)
  (stream_frames : list Frames.StreamMeta) (s : StreamsState)
  : option (list Z * list Frames.StreamMeta * StreamsState) :=
  if zlen buf + Frames.SIZE_BOUND Frames.SStream <? max_buf_size then
    match fuel with
    | O => None
    | S fuel =>
      match PendingStreamsQueue.pop (pending s) with
      | (None, q) => Some (buf, stream_frames, s <| pending := q |>)
      | (Some p, q) =>
        let id := PendingStreamsQueue.p_id p in
        let s := s <| pending := q |> in
        match send s !! id with
        | Some (Some stream) =>
          if Send.is_reset stream then write_stream_loop fuel max_buf_size fair buf stream_frames s
          else
            let room := max_buf_size - zlen buf - 1 - VarInt.size id in
            let '((offsets, encode_length), b) := SendBuffer.poll_transmit room (Send.pending stream) in
            let stream := stream <| Send.pending := b |> in
            let fin := (offsets.2 =? SendBuffer.offset b)
              && match Send.state stream with Send.DataSent _ => true | _ => false end in
            let stream := if fin then stream <| Send.fin_pending := false |> else stream in
            let s := put_send id stream s in
            let s := if Send.is_pending stream then
                s <| pending := (if fair then PendingStreamsQueue.push_pending else PendingStreamsQueue.reinsert_pending)
                       id (Send.priority stream) (pending s) |>
              else s in
            let meta := Frames.mk_stream_meta id offsets fin in
            let header := match Frames.stream_meta_encode meta encode_length with Ok h => h | Err _ => [] end in
            data ← SendBuffer.copy_range (Z.to_nat (offsets.2 - offsets.1)) offsets b;
            write_stream_loop fuel max_buf_size fair (buf ++ header ++ data) (stream_frames ++ [meta]) s
        | _ => write_stream_loop fuel max_buf_size fair buf stream_frames s
        end
      end
    end
  else Some (buf, stream_frames, s).

(** Each round takes a stream off the queue, and puts it back only after writing at least
    two bytes. *)
Definition write_stream_frames (buf : list Z) (max_buf_size : Z) (fair : bool) (s : StreamsState)
  : option (list Z * list Frames.StreamMeta * StreamsState) :=
  write_stream_loop (length (PendingStreamsQueue.iter (pending s)) + Z.to_nat (max_buf_size - zlen buf))
    max_buf_size fair buf [] s.

(** *** Control frames *)

(** What [write_control_frames] works on: the packet, the queue, what the packet will need
    retransmitted, and the streams. *)
Record Writer := mk_writer {
  w_buf : list Z;
  w_pending : Retransmits.Retransmits;
  w_retransmits : option Retransmits.Retransmits;
  w_streams : StreamsState;
}.

#[global] Instance writer_settable : Settable Writer := λ w,
  mk_writer (w_buf w) (w_pending w) (w_retransmits w) (w_streams w).

(** [buf.write(..)?] *)
Definition put (bytes : result (list Z) VarIntBoundsExceeded) (w : Writer)
  : result unit VarIntBoundsExceeded * Writer :=
  match bytes with Ok l => (Ok (), w <| w_buf := w_buf w ++ l |>) | Err e => (Err e, w) end.

(** [None] is the panic for an offset beyond 2^62. *)
Fixpoint write_resets (fuel : nat) (max_size : Z) (w : Writer)
  : option (result unit VarIntBoundsExceeded * Writer) :=
  match fuel, vec_pop (Retransmits.reset_stream (w_pending w)) with
  | S fuel, Some ((id, error_code), rest) =>
    if zlen (w_buf w) + Frames.SIZE_BOUND Frames.SResetStream <? max_size then
      let w := w <| w_pending := (w_pending w) <| Retransmits.reset_stream := rest |> |> in
      match send (w_streams w) !! id with
      | Some (Some stream) =>
        let r := Retransmits.get_or_create (w_retransmits w) in
        let w := w <| w_retransmits :=
          Some (r <| Retransmits.reset_stream := Retransmits.reset_stream r ++ [(id, error_code)] |>) |> in
        if 2 ^ 62 <=? Send.offset stream then None
        else
          match put (Frames.reset_stream_encode (Frames.mk_reset_stream id error_code (Send.offset stream))) w with
          | (Ok _, w) => write_resets fuel max_size w
          | (Err e, w) => Some (Err e, w)
          end
      | _ => write_resets fuel max_size w
      end
    else Some (Ok (), w)
  | _, _ => Some (Ok (), w)
  end.

Fixpoint write_stop_sending (fuel : nat) (max_size : Z) (w : Writer)
  : result unit VarIntBoundsExceeded * Writer :=
  match fuel, vec_pop (Retransmits.stop_sending (w_pending w)) with
  | S fuel, Some (frame, rest) =>
    if zlen (w_buf w) + Frames.SIZE_BOUND Frames.SStopSending <? max_size then
      let w := w <| w_pending := (w_pending w) <| Retransmits.stop_sending := rest |> |> in
      match put (Frames.stop_sending_encode frame) w with
      | (Err e, w) => (Err e, w)
      | (Ok _, w) =>
        let r := Retransmits.get_or_create (w_retransmits w) in
        write_stop_sending fuel max_size
          (w <| w_retransmits := Some (r <| Retransmits.stop_sending := Retransmits.stop_sending r ++ [frame] |>) |>)
      end
    else (Ok (), w)
  | _, _ => (Ok (), w)
  end.

Definition write_max_data (max_size : Z) (w : Writer) : result unit VarIntBoundsExceeded * Writer :=
  if Retransmits.max_data (w_pending w) && (zlen (w_buf w) + 9 <? max_size) then
    let s := w_streams w in
    let max := if local_max_data s <=? VarInt.MAX then local_max_data s else VarInt.MAX in
    let r := Retransmits.get_or_create (w_retransmits w) in
    put (Frames.max_data_encode max)
      (w <| w_pending := (w_pending w) <| Retransmits.max_data := false |> |>
         <| w_streams := if sent_max_data s <? max then s <| sent_max_data := max |> else s |>
         <| w_retransmits := Some (r <| Retransmits.max_data := true |>) |>)
  else (Ok (), w).

(** [iter_next] stands for the first element a hash set's iterator gives. *)
Fixpoint write_max_stream_data (iter_next : gset Z → option Z) (fuel : nat) (max_size : Z) (w : Writer)
  : result unit VarIntBoundsExceeded * Writer :=
  match fuel, iter_next (Retransmits.max_stream_data (w_pending w)) with
  | S fuel, Some id =>
    if zlen (w_buf w) + 17 <? max_size then
      let w := w <| w_pending := (w_pending w)
        <| Retransmits.max_stream_data := Retransmits.max_stream_data (w_pending w) ∖ {[id]} |> |> in
      let s := w_streams w in
      match recv s !! id with
      | Some (Some (ROpen rs)) =>
        if negb (Recv.can_send_flow_control rs) then write_max_stream_data iter_next fuel max_size w
        else
          let r := Retransmits.get_or_create (w_retransmits w) in
          let max := (Recv.max_stream_data (stream_receive_window s) rs).1 in
          let w := w <| w_retransmits :=
                Some (r <| Retransmits.max_stream_data := {[id]} ∪ Retransmits.max_stream_data r |>) |>
              <| w_streams := put_recv id (Recv.record_sent_max_stream_data max rs) s |> in
          match put (Frames.max_stream_data_encode id max) w with
          | (Ok _, w) => write_max_stream_data iter_next fuel max_size w
          | (Err e, w) => (Err e, w)
          end
      | _ => write_max_stream_data iter_next fuel max_size w
      end
    else (Ok (), w)
  | _, _ => (Ok (), w)
  end.

Definition write_max_streams (dir : Frames.Dir) (max_size : Z) (w : Writer)
  : result unit VarIntBoundsExceeded * Writer :=
  if negb (sel dir (Retransmits.max_stream_id (w_pending w))) || (max_size <=? zlen (w_buf w) + 9) then (Ok (), w)
  else
    let s := w_streams w in
    let r := Retransmits.get_or_create (w_retransmits w) in
    put (Frames.max_streams_encode dir (sel dir (max_remote s)))
      (w <| w_pending := (w_pending w) <| Retransmits.max_stream_id := upd dir false (Retransmits.max_stream_id (w_pending w)) |> |>
         <| w_retransmits := Some (r <| Retransmits.max_stream_id := upd dir true (Retransmits.max_stream_id r) |>) |>
         <| w_streams := s <| sent_max_remote := upd dir (sel dir (max_remote s)) (sent_max_remote s) |> |>).

Definition write_control_frames (iter_next : gset Z → option Z) (max_size : Z) (w : Writer)
  : option (result unit VarIntBoundsExceeded * Writer) :=
  '(r, w) ← write_resets (length (Retransmits.reset_stream (w_pending w))) max_size w;
  match r with
  | Err e => Some (Err e, w)
  | Ok _ =>
    Some (match write_stop_sending (length (Retransmits.stop_sending (w_pending w))) max_size w with
    | (Err e, w) => (Err e, w)
    | (Ok _, w) =>
      match write_max_data max_size w with
      | (Err e, w) => (Err e, w)
      | (Ok _, w) =>
        match write_max_stream_data iter_next (size (Retransmits.max_stream_data (w_pending w))) max_size w with
        | (Err e, w) => (Err e, w)
        | (Ok _, w) =>
          match write_max_streams Frames.Bi max_size w with
          | (Err e, w) => (Err e, w)
          | (Ok _, w) => write_max_streams Frames.Uni max_size w
          end
        end
      end
    end)
  end.

(** [Retransmits::is_empty]. *)
Definition retransmits_is_empty (r : Retransmits.Retransmits) (s : StreamsState) : bool :=
  negb (Retransmits.max_data r)
  && negb ((Retransmits.max_stream_id r).1 || (Retransmits.max_stream_id r).2)
  && bool_decide (Retransmits.reset_stream r = [])
  && match Retransmits.stop_sending r with [] => true | _ => false end
  && forallb (λ id, negb (can_send_flow_control id s)) (elements (Retransmits.max_stream_data r))
  && match Retransmits.crypto r with [] => true | _ => false end
  && match Retransmits.new_cids r with [] => true | _ => false end
  && bool_decide (Retransmits.retire_cids r = [])
  && negb (Retransmits.ack_frequency r)
  && negb (Retransmits.handshake_done r)
  && match Retransmits.new_tokens r with [] => true | _ => false end
  && match Retransmits.add_addresses r with [] => true | _ => false end
  && match Retransmits.punch_me_now r with [] => true | _ => false end
  && bool_decide (Retransmits.remove_addresses r = [])
  && match Retransmits.outbound_observations r with [] => true | _ => false end
  && match Retransmits.try_connect_to r with [] => true | _ => false end
  && match Retransmits.try_connect_to_responses r with [] => true | _ => false end.

End StreamsSend.
