(* ===== verification/StreamsRecvProofs.v ===== *)
(** * Flow control of incoming data

    The receive side of [Streams]: in every reachable state the credit given to the peer is
    the window plus what the application has consumed, and no stream nor the connection
    accepts more than was announced. *)

From Stdlib Require Import String.
From stdpp Require Import gmap fin_maps.
From S2P Require Import Prelude BTree RangeSets Coding Assembler Frames Sums.
From S2P Require Import StreamRecv Streams.

Module StreamsRecvProofs.
Import StreamsState.

(** ** Invariant *)

Definition stream_ok (srw : Z) (o : option StreamRecv) : Prop :=
  match o with
  | None => True
  | Some (RFree r) => r = Recv.new srw
  | Some (ROpen r) => Recv.recv_ok srw r
  end.

(** Bytes counted against the connection that the application has not consumed: a stopped or
    reset stream has none, its bytes are credited when they are counted. *)
Definition unread (o : option StreamRecv) : Z :=
  match o with
  | Some (ROpen r) =>
    if Recv.stopped r || negb (Recv.is_receiving r) then 0 else Recv.end_ r - Recv.bytes_read r
  | _ => 0
  end.

Definition total_unread (s : StreamsState) : Z := msum unread (recv s).

Record recv_wf (s : StreamsState) : Prop := {
  rw_srw : 0 ≤ stream_receive_window s < 2 ^ 62;
  rw_streams : map_Forall (λ _, stream_ok (stream_receive_window s)) (recv s);
  rw_free : Forall (λ r, r = RFree (Recv.new (stream_receive_window s))) (free_recv s);
  rw_local : local_max_data s ≤ u_max 64;
}.

(** The numbers of the invariant. *)
Definition nums (s : StreamsState) : Z * Z * Z * Z * Z :=
  (local_max_data s, receive_window_shrink_debt s, receive_window s, data_recvd s, total_unread s).

(** [extra] is the credit given twice; see [StreamsProperties.reset_after_stop_credits_twice].  Sums saturate only beyond 2^63. *)
Definition balanced (extra : Z) (n : Z * Z * Z * Z * Z) : Prop :=
  let '(local, debt, window, recvd, unread) := n in
  local ≤ 2 ^ 63 →
  0 ≤ debt ∧ 0 ≤ window < 2 ^ 62 ∧ 0 ≤ unread ≤ recvd ∧ recvd ≤ local
  ∧ local + unread = debt + window + recvd + extra.

Definition recv_inv (extra : Z) (s : StreamsState) : Prop := recv_wf s ∧ balanced extra (nums s).

(** ** Streams are created without unread data *)

Lemma unread_nonneg srw o : stream_ok srw o → 0 ≤ unread o.
Proof.
  destruct o as [[r | r] |]; simpl; try done. intros Hr. pose proof (Recv.read_bounds _ _ Hr).
  case_goal; lia.
Qed.

Lemma total_unread_nonneg s : recv_wf s → 0 ≤ total_unread s.
Proof.
  intros Hwf. apply msum_nonneg. eapply map_Forall_impl; [apply (rw_streams _ Hwf) |].
  intros ? o Ho. exact (unread_nonneg _ _ Ho).
Qed.

(** What [insert] does to the receive side. *)
Lemma insert_recv remote id s s' : recv_wf s → insert remote id s = Some s' →
  recv_wf s' ∧ nums s' = nums s ∧ stream_receive_window s' = stream_receive_window s.
Proof.
  intros Hwf. unfold insert.
  set (bi := bool_decide _). intros E. apply bind_Some in E as (s1 & E1 & E).
  assert (H1 : recv_wf s1 ∧ nums s1 = nums s ∧ stream_receive_window s1 = stream_receive_window s).
  { repeat case_hyp E1; simplify_eq; split_and!; try done. by destruct Hwf. }
  destruct H1 as (Hwf1 & <- & <-). clear E1 Hwf.
  destruct (bi || remote); simplify_eq; [| done].
  destruct (vec_pop (free_recv s1)) as [[r free] |] eqn:Ep; destruct (recv s1 !! id) eqn:Er; simplify_eq.
  - apply vec_pop_Some in Ep. destruct Hwf1 as [? Hs Hf ?]. rewrite Ep in Hf.
    apply Forall_app in Hf as [Hf Hr]. apply Forall_cons in Hr as [-> _].
    split_and!; [split; simpl; [done | | done | done] | | done].
    + apply map_Forall_insert_2; [done | done].
    + unfold nums, total_unread. simpl. by rewrite msum_insert by done.
  - destruct Hwf1 as [? Hs Hf ?]. split_and!; [split; simpl; [done | | done | done] | | done].
    + by apply map_Forall_insert_2.
    + unfold nums, total_unread. simpl. by rewrite msum_insert by done.
Qed.

Lemma insert_remote_recv dir n : ∀ from s s', recv_wf s → insert_remote dir from n s = Some s' →
  recv_wf s' ∧ nums s' = nums s ∧ stream_receive_window s' = stream_receive_window s.
Proof.
  induction n as [|n IH]; intros from s s' Hwf E; simpl in E; [by simplify_eq |].
  apply bind_Some in E as (s1 & E1 & E). apply insert_recv in E1 as (Hwf1 & <- & <-); [| done].
  by apply IH in E.
Qed.

Lemma ensure_remote_recv dir s s' : recv_wf s → ensure_remote_streams dir s = Some s' →
  recv_wf s' ∧ nums s' = nums s ∧ stream_receive_window s' = stream_receive_window s.
Proof.
  intros Hwf E. unfold ensure_remote_streams in E. apply bind_Some in E as (s1 & E1 & E).
  apply insert_remote_recv in E1 as (Hwf1 & <- & <-); [| done]. simplify_eq. split_and!; [| done..].
  by destruct Hwf1.
Qed.

Lemma stream_freed_recv id half s s' : recv_wf s → stream_freed id half s = Some s' →
  recv_wf s' ∧ nums s' = nums s ∧ stream_receive_window s' = stream_receive_window s.
Proof.
  intros Hwf E. unfold stream_freed in E. apply bind_Some in E as (s1 & E1 & E).
  assert (H1 : recv_wf s1 ∧ nums s1 = nums s ∧ stream_receive_window s1 = stream_receive_window s).
  { repeat case_hyp E1; simplify_eq; try done.
    apply ensure_remote_recv in E1; [done |]. by destruct Hwf. }
  destruct H1 as (Hwf1 & <- & <-). destruct half; simplify_eq; [| done].
  split_and!; [| done..]. by destruct Hwf1.
Qed.

Lemma stream_recv_freed_recv id r s s' : recv_wf s → stream_recv_freed id r s = Some s' →
  recv_wf s' ∧ nums s' = nums s ∧ stream_receive_window s' = stream_receive_window s.
Proof.
  intros Hwf E. unfold stream_recv_freed in E. apply bind_Some in E as (r' & E1 & E).
  apply stream_freed_recv in E; [done |]. destruct r; simplify_eq/=. destruct Hwf. split; simpl; try done.
  rewrite Forall_app. split; [done |]. by constructor.
Qed.

(** ** Credits *)

(** [add_read_credits] pays the debt first. *)
Lemma credits_recv n s s' t : recv_wf s → 0 ≤ n → add_read_credits n s = (s', t) →
  recv_wf s' ∧ stream_receive_window s' = stream_receive_window s ∧ receive_window s' = receive_window s
  ∧ data_recvd s' = data_recvd s ∧ total_unread s' = total_unread s ∧ local_max_data s ≤ local_max_data s'
  ∧ (0 ≤ receive_window_shrink_debt s → local_max_data s' ≤ 2 ^ 63 →
     0 ≤ receive_window_shrink_debt s'
     ∧ local_max_data s' - receive_window_shrink_debt s' = local_max_data s - receive_window_shrink_debt s + n).
Proof.
  intros Hwf Hn. unfold add_read_credits.
  set (s1 := if receive_window_shrink_debt s <? n then _ else _).
  assert (E1 : recv s1 = recv s ∧ free_recv s1 = free_recv s ∧ stream_receive_window s1 = stream_receive_window s
    ∧ receive_window s1 = receive_window s ∧ data_recvd s1 = data_recvd s) by (subst s1; by case_goal).
  assert (E2 : local_max_data s ≤ local_max_data s1 ≤ u_max 64 ∧ (0 ≤ receive_window_shrink_debt s → local_max_data s1 ≤ 2 ^ 63 →
     0 ≤ receive_window_shrink_debt s1
     ∧ local_max_data s1 - receive_window_shrink_debt s1 = local_max_data s - receive_window_shrink_debt s + n)).
  { pose proof (rw_local _ Hwf). subst s1. unfold saturating_add. case_goal; zbool; simpl; [| lia].
    split; [lia |]. intros ? ?. unfold u_max in *. lia. }
  clearbody s1. destruct E1 as (Er & Ef & Ew & Erw & Ed). intros E.
  assert (s' = s1) as -> by (case_hyp E; by simplify_eq). unfold total_unread. rewrite Er.
  split_and!; try done; [| apply E2 | apply E2].
  destruct Hwf. split; rewrite ?Er, ?Ef, ?Ew; try done. apply E2.
Qed.

(** ** One stream *)

(** An entry is opened when it is first used; opening it changes no total. *)
Lemma get_recv id s r s' : recv_wf s → get_or_insert_recv id s = Some (r, s') →
  recv_wf s' ∧ nums s' = nums s ∧ Recv.recv_ok (stream_receive_window s) r
  ∧ s' = s <| recv := <[id := Some (ROpen r)]> (recv s) |> ∧ unread (Some (ROpen r)) = from_option unread 0 (recv s !! id).
Proof.
  intros Hwf E. unfold get_or_insert_recv in E. apply bind_Some in E as (o & Eo & E). simplify_eq.
  pose proof (rw_streams _ Hwf id o Eo) as Ho. pose proof (rw_srw _ Hwf).
  set (r := match o with Some r => into_inner r | None => _ end).
  assert (Hr : Recv.recv_ok (stream_receive_window s) r).
  { destruct o as [[r' | r'] |]; simpl in *; [subst r' | done |]; apply Recv.new_ok; lia. }
  assert (Hu : unread (Some (ROpen r)) = unread o) by (destruct o as [[r' | r'] |]; simpl in *; [by subst r' | done..]).
  clearbody r. rewrite Eo. split_and!; try done.
  - destruct Hwf. split; try done. by apply map_Forall_insert_2.
  - unfold nums, total_unread. simpl. by rewrite (msum_same _ _ _ o).
Qed.

Lemma put_recv_spec id r r' s : recv_wf s → recv s !! id = Some (Some (ROpen r)) →
  Recv.recv_ok (stream_receive_window s) r' →
  recv_wf (put_recv id r' s)
  ∧ total_unread (put_recv id r' s) = total_unread s - unread (Some (ROpen r)) + unread (Some (ROpen r')).
Proof.
  intros Hwf Er Hr. split.
  - destruct Hwf. split; try done. by apply map_Forall_insert_2.
  - unfold total_unread, put_recv. simpl. by rewrite (msum_update _ _ _ _ _ Er).
Qed.

(** Removing a stream that has nothing unread. *)
Lemma delete_recv_spec id o s : recv_wf s → recv s !! id = Some o →
  recv_wf (s <| recv := delete id (recv s) |>)
  ∧ total_unread (s <| recv := delete id (recv s) |>) = total_unread s - unread o.
Proof.
  intros Hwf Er. split.
  - destruct Hwf. split; try done. by apply map_Forall_delete.
  - unfold total_unread. simpl. rewrite (msum_delete _ _ _ _ Er). lia.
Qed.

Lemma on_stream_frame_recv b id s : recv_wf s →
  recv_wf (on_stream_frame b id s) ∧ nums (on_stream_frame b id s) = nums s.
Proof.
  intros [? ? ? ?]. unfold on_stream_frame. repeat case_goal; (split; [by split | done]).
Qed.

(** ** Frames *)

(** See [Recv.fin_ok]. *)
Definition fin_consistent (frame : Frames.Stream) (s : StreamsState) : bool :=
  match get_or_insert_recv (Frames.st_id frame) s with
  | Some (r, _) =>
    negb (Frames.fin frame) || (Recv.end_ r <=? Frames.st_offset frame + zlen (Frames.st_data frame))
  | None => true
  end.

(** Accepting [n] bytes within the limit adds them without wrapping. *)
Lemma recvd_add extra local debt window recvd unread n : balanced extra (local, debt, window, recvd, unread) →
  0 ≤ n < 2 ^ 62 → wrapping_add 64 recvd n ≤ local → local ≤ 2 ^ 63 →
  saturating_add 64 recvd n = recvd + n ∧ recvd + n ≤ local.
Proof.
  intros Hb Hn Hw Hl. destruct (Hb Hl) as (? & ? & ? & ? & ?).
  unfold wrapping_add in Hw. rewrite wrap_small in Hw by (unfold is_u; lia).
  unfold saturating_add, u_max. lia.
Qed.

(** The new bytes of a frame are less than 2^62. *)
Lemma ingest_inv_stream extra s id r r' n s1 : recv_inv extra s → recv s !! id = Some (Some (ROpen r)) →
  Recv.recv_ok (stream_receive_window s) r' → Recv.is_receiving r = true → Recv.is_receiving r' = true →
  Recv.stopped r' = Recv.stopped r → Recv.bytes_read r' = Recv.bytes_read r →
  0 ≤ n → Recv.end_ r' = Recv.end_ r + n → wrapping_add 64 (data_recvd s) n ≤ local_max_data s →
  s1 = put_recv id r' s <| data_recvd := saturating_add 64 (data_recvd s) n |> →
  recv_wf s1 ∧ recv s1 !! id = Some (Some (ROpen r'))
  ∧ (local_max_data s1, receive_window_shrink_debt s1, receive_window s1, stream_receive_window s1)
    = (local_max_data s, receive_window_shrink_debt s, receive_window s, stream_receive_window s)
  ∧ total_unread s1 = total_unread s + (if Recv.stopped r then 0 else n)
  ∧ (local_max_data s ≤ 2 ^ 63 → data_recvd s1 = data_recvd s + n ∧ data_recvd s1 ≤ local_max_data s).
Proof.
  intros [Hwf Hb] Er Hok Hr Hr' Hst Hbr Hn He Hw ->.
  destruct (put_recv_spec id r r' s Hwf Er Hok) as [Hwf' Hu].
  assert (n < 2 ^ 62). { pose proof (Recv.ro_end _ _ Hok). pose proof (Recv.read_bounds _ _ Hok).
    pose proof (Recv.read_bounds _ _ (rw_streams _ Hwf id _ Er)). lia. }
  split_and!; try done.
  - by destruct Hwf'.
  - simpl. apply lookup_insert_eq.
  - change (total_unread (put_recv id r' s) = total_unread s + (if Recv.stopped r then 0 else n)).
    rewrite Hu. unfold unread. rewrite Hr, Hr', Hst, Hbr, He. destruct (Recv.stopped r); simpl; lia.
  - intros Hl. destruct (recvd_add _ _ _ _ _ _ _ Hb (conj Hn H) Hw Hl) as [E ?]. simpl. by rewrite E.
Qed.

Lemma received_inv extra frame len s s' res : recv_inv extra s → 0 ≤ Frames.st_offset frame →
  fin_consistent frame s = true → received frame len s = Some (s', res) →
  recv_inv extra s' ∧ local_max_data s ≤ local_max_data s'.
Proof.
  intros [Hwf Hb] H0 Hf. unfold received, fin_consistent in *. case_goal; [| intros; simplify_eq; done].
  destruct (get_or_insert_recv (Frames.st_id frame) s) as [[r s1] |] eqn:Eg; [| intros; by simplify_eq].
  destruct (get_recv _ _ _ _ Hwf Eg) as (Hwf1 & En & Hok & Es1 & _).
  assert (Hinv1 : recv_inv extra s1) by (by split; rewrite ?En).
  assert (El : local_max_data s1 = local_max_data s) by (by subst s1).
  assert (Esrw : stream_receive_window s1 = stream_receive_window s) by (by subst s1).
  assert (Er1 : recv s1 !! Frames.st_id frame = Some (Some (ROpen r))) by (subst s1; apply lookup_insert_eq).
  clear Es1 Eg. rewrite <- Esrw in Hok. rewrite <- El. clear El Esrw.
  destruct (Recv.is_receiving r) eqn:Er; cbn [negb]; [| intros; simplify_eq; done].
  destruct (Recv.ingest frame len (data_recvd s1) (local_max_data s1) r) as [[[n closed] r'] |] eqn:Ei;
    [| intros; simplify_eq; done].
  eapply Recv.ingest_spec in Ei as (Hok' & Hrecv' & Hst & Hbr & Hn & Hend & Hcap & ->); [| done.. |].
  2:{ intros Hfin. rewrite Hfin in Hf. simpl in Hf. by zbool. }
  set (s2 := put_recv _ _ _ <| data_recvd := _ |>).
  destruct (ingest_inv_stream extra s1 (Frames.st_id frame) r r' n s2) as (Hwf2 & Er2 & Enum & Hu2 & Hd2); try done.
  clearbody s2. rewrite Hst. injection Enum as El2 Edb2 Erw2 Esrw2. destruct Hinv1 as [_ Hb1].
  destruct (Recv.stopped r) eqn:Est; simpl.
  - (* stopped: the bytes are credited at once *)
    intros E. apply bind_Some in E as (s3 & E3 & E).
    assert (H3 : recv_wf s3 ∧ nums s3 = nums s2).
    { destruct (Frames.fin frame); cbn [andb] in E3; [| by simplify_eq].
      destruct (delete_recv_spec _ _ _ Hwf2 Er2) as [Hwf3 Hu3].
      apply stream_recv_freed_recv in E3 as (? & -> & _); [| done]. split; [done |].
      unfold nums in *. rewrite Hu3. unfold unread. rewrite Hst. simpl. by rewrite Z.sub_0_r. }
    destruct H3 as [Hwf3 E3n]. injection E3n as El3 Edb3 Erw3 Ed3 Eu3.
    destruct (add_read_credits n s3) as [s4 t] eqn:Ec. simplify_eq.
    destruct (credits_recv _ _ _ _ Hwf3 Hn Ec) as (Hwf4 & _ & Erw4 & Ed4 & Eu4 & Hl4 & Hc4).
    split; [split; [done |] | lia]. intros Hl. simpl in Hl.
    destruct (Hb1 ltac:(lia)) as (? & ? & ? & ? & ?). destruct Hd2 as [? ?]; [lia |].
    destruct Hc4 as [? ?]; lia || (split_and!; lia).
  - intros E. simplify_eq. destruct (on_stream_frame_recv true (Frames.st_id frame) s2 Hwf2) as [Hwf3 En3].
    injection En3 as El3 Edb3 Erw3 Ed3 Eu3. split; [split; [done |] | lia].
    intros Hl. simpl in Hl. destruct (Hb1 ltac:(lia)) as (? & ? & ? & ? & ?). destruct Hd2 as [? ?]; [lia |].
    split_and!; lia.
Qed.

(** Whether the stream is stopped, or was reset: then a second RESET_STREAM or [stop]
    credits bytes that were credited before. *)
Definition is_stopped (id : Z) (s : StreamsState) : bool :=
  match recv s !! id with Some (Some (ROpen r)) => Recv.stopped r | _ => false end.
Definition is_reset (id : Z) (s : StreamsState) : bool :=
  match recv s !! id with Some (Some (ROpen r)) => negb (Recv.is_receiving r) | _ => false end.

(** The stream's state after a successful reset or stop, with the surplus [x] it creates. *)
Lemma balanced_credit extra s s' n d u x : balanced extra (nums s) → recv_wf s' →
  (local_max_data s' ≤ 2 ^ 63 → 0 ≤ receive_window_shrink_debt s → 0 ≤ receive_window_shrink_debt s'
     ∧ local_max_data s' - receive_window_shrink_debt s' = local_max_data s - receive_window_shrink_debt s + n) →
  local_max_data s ≤ local_max_data s' → receive_window s' = receive_window s →
  (local_max_data s ≤ 2 ^ 63 → data_recvd s' = data_recvd s + d ∧ data_recvd s' ≤ local_max_data s) → 0 ≤ d →
  total_unread s' = total_unread s - u → 0 ≤ u → n - u = d + x →
  recv_inv (extra + x) s'.
Proof.
  intros Hb Hwf Hc Hl Hw Hd Hd0 Hu Hu0 Hx. split; [done |]. intros Hlim. simpl in *.
  destruct (Hb ltac:(lia)) as (? & ? & ? & ? & ?). destruct (Hd ltac:(lia)). destruct (Hc Hlim ltac:(done)).
  pose proof (total_unread_nonneg _ Hwf). split_and!; lia.
Qed.

Lemma get_stopped id s r s' : recv_wf s → get_or_insert_recv id s = Some (r, s') →
  is_stopped id s = Recv.stopped r ∧ is_reset id s = negb (Recv.is_receiving r).
Proof.
  intros Hwf. unfold get_or_insert_recv, is_stopped, is_reset. intros E. apply bind_Some in E as (o & Eo & E).
  pose proof (rw_streams _ Hwf id o Eo) as Ho. rewrite Eo. simplify_eq.
  destruct o as [[r | r] |]; simpl in *; [by subst r | done | done].
Qed.

(** A stream that has nothing unread any more is kept or freed. *)
Lemma drop_transition (b : bool) id r r' s s' : recv_wf s → recv s !! id = Some (Some (ROpen r)) →
  Recv.recv_ok (stream_receive_window s) r' → unread (Some (ROpen r')) = 0 →
  (if b then
     stream_recv_freed id (ROpen r') ((put_recv id r' s) <| recv := delete id (recv (put_recv id r' s)) |>)
   else Some (put_recv id r' s)) = Some s' →
  recv_wf s' ∧ nums s' = (local_max_data s, receive_window_shrink_debt s, receive_window s, data_recvd s,
                          total_unread s - unread (Some (ROpen r))).
Proof.
  intros Hwf Er Hok Hz E. destruct (put_recv_spec id r r' s Hwf Er Hok) as [Hwf2 Hu2]. destruct b.
  - destruct (delete_recv_spec id (Some (ROpen r')) (put_recv id r' s) Hwf2 (lookup_insert_eq _ _ _)) as [Hwf3 Hu3].
    apply stream_recv_freed_recv in E as (? & -> & _); [| done]. split; [done |].
    unfold nums. rewrite Hu3, Hu2, Hz. f_equal. lia.
  - simplify_eq. split; [done |]. unfold nums. rewrite Hu2, Hz. f_equal. lia.
Qed.

Lemma received_reset_inv extra frame s s' res : recv_inv extra s → 0 ≤ Frames.final_offset frame < 2 ^ 62 →
  received_reset frame s = Some (s', res) →
  ∃ x, 0 ≤ x ∧ (is_stopped (Frames.rs_id frame) s = false → x = 0)
    ∧ recv_inv (extra + x) s' ∧ local_max_data s ≤ local_max_data s'.
Proof.
  intros [Hwf Hb] H0. unfold received_reset.
  assert (Hsame : ∀ s1, recv_wf s1 → nums s1 = nums s → ∃ x, 0 ≤ x ∧ (is_stopped (Frames.rs_id frame) s = false → x = 0)
    ∧ recv_inv (extra + x) s1 ∧ local_max_data s ≤ local_max_data s1).
  { intros s1 ? E. exists 0. rewrite Z.add_0_r. split_and!; [done | done | split; [done | by rewrite E] |].
    injection E. lia. }
  case_goal; [| intros [= <- <-]; by apply Hsame].
  destruct (get_or_insert_recv (Frames.rs_id frame) s) as [[r s1] |] eqn:Eg; [| intros [= <- <-]; by apply Hsame].
  destruct (get_recv _ _ _ _ Hwf Eg) as (Hwf1 & En & Hok & Es1 & _).
  destruct (get_stopped _ _ _ _ Hwf Eg) as [Hst _]. rewrite Hst in *.
  destruct (Recv.reset _ _ _ _ r) as [[b r'] |] eqn:Er; [| intros [= <- <-]; by apply Hsame].
  eapply Recv.reset_spec in Er; [| done | lia]. destruct b; [| intros [= <- <-]; by apply Hsame].
  destruct Er as (Hok' & Hr & Hr' & Hst' & Hbr & Hend & Hle & Hcap).
  assert (Er1 : recv s1 !! Frames.rs_id frame = Some (Some (ROpen r))) by (subst s1; apply lookup_insert_eq).
  assert (Esrw : stream_receive_window s1 = stream_receive_window s) by (by subst s1).
  clear Es1. intros E. apply bind_Some in E as (s3 & E3 & E).
  apply (drop_transition _ _ r) in E3 as [Hwf3 En3];
    [| done | done | by rewrite Esrw | by simpl; rewrite Hr', orb_true_r].
  destruct (on_stream_frame_recv (negb (Recv.stopped r')) (Frames.rs_id frame) s3 Hwf3) as [Hwf4 En4].
  set (s4 := on_stream_frame _ _ s3) in *. clearbody s4. rewrite <- En4 in En3. clear Hwf3 En4 s3.
  pose proof (Recv.read_bounds _ _ Hok) as Hread. pose proof (Recv.ro_end _ _ Hok) as Hend62.
  injection En as El1 Edb1 Erw1 Ed1 Eu1. injection En3 as El4 Edb4 Erw4 Ed4 Eu4.
  fold (Recv.bytes_read r') in E. rewrite Hbr, Hend in E.
  rewrite Hr in Eu4. cbn [negb] in Eu4. rewrite orb_false_r in Eu4.
  remember (if Recv.stopped r then 0 else Recv.end_ r - Recv.bytes_read r) as u eqn:Hu.
  destruct (Z.eqb_spec (Recv.bytes_read r) (Frames.final_offset frame)) as [Heq | Hne]; cbn [negb] in E.
  - simplify_eq. apply Hsame; [done |]. unfold nums. rewrite El4, Edb4, Erw4, Ed4, Eu4, El1, Edb1, Erw1, Ed1, Eu1.
    f_equal. destruct (Recv.stopped r); lia.
  - unfold wrapping_sub in E. rewrite !wrap_small in E by (unfold is_u; lia).
    set (s5 := s4 <| data_recvd := _ |>) in E. assert (Hwf5 : recv_wf s5) by (by destruct Hwf4).
    destruct (add_read_credits _ s5) as [s6 t] eqn:Ec. injection E as <- <-.
    destruct (credits_recv (Frames.final_offset frame - Recv.bytes_read r) _ _ _ Hwf5 ltac:(lia) Ec) as (Hwf6 & _ & Erw6 & Ed6 & Eu6 & Hl6 & Hc6).
    exists (if Recv.stopped r then Recv.end_ r - Recv.bytes_read r else 0).
    split_and!; [destruct (Recv.stopped r); lia | by intros -> | | simpl in *; lia].
    apply (balanced_credit extra s s6 (Frames.final_offset frame - Recv.bytes_read r)
      (Frames.final_offset frame - Recv.end_ r) u); try done; try lia.
    + simpl in *. rewrite El4, Edb4, El1, Edb1 in Hc6. auto.
    + simpl in *. lia.
    + simpl in *. congruence.
    + intros Hlim. rewrite Ed6. simpl. rewrite Ed4, Ed1.
      rewrite Ed1, El1 in Hcap. destruct (recvd_add _ _ _ _ _ _ (Frames.final_offset frame - Recv.end_ r) Hb ltac:(lia) Hcap Hlim)
        as [-> ?]. done.
    + rewrite Eu6. change (total_unread s5) with (total_unread s4). rewrite Eu4, Eu1. done.
    + destruct (Recv.stopped r); lia.
    + destruct (Recv.stopped r); lia.
Qed.

(** ** The application *)

Lemma stop_inv extra id code pending s res pending' s' : recv_inv extra s →
  stop id code pending s = Some (res, pending', s') →
  ∃ x, 0 ≤ x ∧ (is_reset id s = false → x = 0)
    ∧ recv_inv (extra + x) s' ∧ local_max_data s ≤ local_max_data s'.
Proof.
  intros [Hwf Hb]. unfold stop.
  assert (Hsame : ∀ s1, recv_wf s1 → nums s1 = nums s → ∃ x, 0 ≤ x ∧ (is_reset id s = false → x = 0)
    ∧ recv_inv (extra + x) s1 ∧ local_max_data s ≤ local_max_data s1).
  { intros s1 ? E. exists 0. rewrite Z.add_0_r. split_and!; [done | done | split; [done | by rewrite E] |].
    injection E. lia. }
  destruct (get_or_insert_recv id s) as [[r s1] |] eqn:Eg; [| intros [= <- <- <-]; by apply Hsame].
  destruct (get_recv _ _ _ _ Hwf Eg) as (Hwf1 & En & Hok & Es1 & _).
  destruct (get_stopped _ _ _ _ Hwf Eg) as [_ Hrst]. rewrite Hrst.
  destruct (Recv.stop r) as [[[n t] r'] |] eqn:Er; [| intros [= <- <- <-]; rewrite Hrst in Hsame; by apply Hsame].
  destruct (Recv.stop_spec _ _ _ _ _ Hok Er) as (Hok' & Hst & Hst' & Hstate & Hend & Hbr & -> & ->).
  assert (Er1 : recv s1 !! id = Some (Some (ROpen r))) by (subst s1; apply lookup_insert_eq).
  assert (Esrw : stream_receive_window s1 = stream_receive_window s) by (by subst s1).
  clear Es1. intros E. apply bind_Some in E as (s3 & E3 & E).
  apply (drop_transition _ _ r) in E3 as [Hwf3 En3]; [| done | done | by rewrite Esrw | by simpl; rewrite Hst'].
  pose proof (Recv.read_bounds _ _ Hok) as Hread.
  destruct (add_read_credits _ s3) as [s4 t'] eqn:Ec. injection E as <- <- <-.
  destruct (credits_recv (Recv.end_ r - Recv.bytes_read r) _ _ _ Hwf3 ltac:(lia) Ec)
    as (Hwf4 & _ & Erw4 & Ed4 & Eu4 & Hl4 & Hc4).
  injection En as El1 Edb1 Erw1 Ed1 Eu1. injection En3 as El3 Edb3 Erw3 Ed3 Eu3.
  rewrite Hst in Eu3. cbn [orb] in Eu3.
  exists (if Recv.is_receiving r then 0 else Recv.end_ r - Recv.bytes_read r).
  split_and!; [case_goal; lia | by destruct (Recv.is_receiving r) | | lia].
  apply (balanced_credit extra s s4 (Recv.end_ r - Recv.bytes_read r) 0
    (if Recv.is_receiving r then Recv.end_ r - Recv.bytes_read r else 0)); try done; try lia.
  - intros Hl. destruct (Hb Hl) as (? & ? & ? & ? & ?). lia.
  - rewrite Eu4, Eu3. destruct (Recv.is_receiving r); simpl; lia.
  - case_goal; lia.
  - case_goal; lia.
Qed.

Lemma observe_reset_inv extra id pending s res pending' s' : recv_inv extra s →
  observe_reset id pending s = Some (res, pending', s') → recv_inv extra s' ∧ local_max_data s' = local_max_data s.
Proof.
  intros [Hwf Hb]. unfold observe_reset.
  destruct (recv s !! id) as [[[r | r] |] |] eqn:Er; try (by intros; simplify_eq).
  destruct (Recv.stopped r) eqn:Est; [by intros; simplify_eq |].
  destruct (Recv.reset_code r) as [c |] eqn:Erc; [| by intros; simplify_eq].
  intros E. apply bind_Some in E as (s1 & E1 & E). simplify_eq.
  destruct (delete_recv_spec _ _ _ Hwf Er) as [Hwf1 Hu1].
  apply stream_recv_freed_recv in E1 as (Hwf2 & En & _); [| done].
  assert (unread (Some (ROpen r)) = 0) as Hz.
  { simpl. unfold Recv.reset_code, Recv.is_receiving in *. destruct (Recv.state r); [done |]. by rewrite orb_true_r. }
  rewrite Hz, Z.sub_0_r in Hu1. assert (nums s' = nums s) as En' by (rewrite En; unfold nums; by rewrite Hu1).
  split; [split; [done | by rewrite En'] |]. by injection En'.
Qed.

Lemma set_window_inv extra w s s' b : recv_inv extra s → 0 ≤ extra → 0 ≤ w < 2 ^ 62 →
  set_receive_window w s = (s', b) → recv_inv extra s' ∧ local_max_data s ≤ local_max_data s'.
Proof.
  intros [Hwf Hb] Hx Hw. unfold set_receive_window, saturating_add. pose proof (rw_local _ Hwf).
  case_goal; zbool; intros; simplify_eq/=.
  - split; [split | lia].
    + destruct Hwf. split; try done. simpl. lia.
    + unfold nums, total_unread in *. intros Hl. simpl in *. unfold u_max in *. destruct (Hb ltac:(simpl; lia)) as (? & ? & ? & ? & ?). split_and!; lia.
  - split; [split | lia].
    + by destruct Hwf.
    + unfold nums, total_unread in *. intros Hl. simpl in *. destruct (Hb Hl) as (? & ? & ? & ? & ?). unfold u_max. split_and!; lia.
Qed.

(** ** Read sessions

    The application opens the stream, asks for chunks of the given maximal lengths, and
    drops the session.  Reads are ordered: an unordered reader can be given bytes twice
    ([assembler_switch_duplicates], [assembler_empty_frame_duplicates] of [Assembler]), and
    is credited for both. *)

Fixpoint chunks_all (lens : list Z) (ch : Chunks) (s : StreamsState)
  : option (list (result (option Assembler.Chunk) ReadError) * Chunks * StreamsState) :=
  match lens with
  | [] => Some ([], ch, s)
  | len :: lens =>
    '(r, ch, s) ← chunks_next len ch s;
    '(rs, ch, s) ← chunks_all lens ch s;
    Some (r :: rs, ch, s)
  end.

Definition read_session (id : Z) (lens : list Z) (pending : Retransmits.Retransmits) (s : StreamsState)
  : option (result (list (result (option Assembler.Chunk) ReadError)) ReadableError
            * Retransmits.Retransmits * StreamsState) :=
  match chunks_new id true s with
  | (Err e, s) => Some (Err e, pending, s)
  | (Ok ch, s) =>
    '(rs, ch, s) ← chunks_all lens ch s;
    let '(_, pending, _, s) := finalize_inner pending ch s in
    Some (Ok rs, pending, s)
  end.

(** What holds between two calls of [next]: [s0] is the state without the stream [r0]. *)
Definition session (r0 : Recv.Recv) (s0 : StreamsState) (ch : Chunks) (s : StreamsState) : Prop :=
  ch_ordered ch = true
  ∧ match ch_state ch with
    | ChReadable rs =>
      s = s0 ∧ Recv.recv_ok (stream_receive_window s0) rs ∧ Recv.stopped rs = false
      ∧ Recv.state rs = Recv.state r0 ∧ Recv.end_ rs = Recv.end_ r0
      ∧ 0 ≤ ch_read ch ∧ ch_read ch = Recv.bytes_read rs - Recv.bytes_read r0
      ∧ (Recv.is_receiving r0 = false → Recv.bytes_read rs = Recv.bytes_read r0)
    | ChReset _ | ChFinished =>
      recv_wf s ∧ nums s = nums s0 ∧ ch_read ch = unread (Some (ROpen r0))
    | ChFinalized => False
    end.

Lemma read_stream_ok srw n r c a : 0 ≤ n → Recv.recv_ok srw r → Recv.stopped r = false →
  Assembler.read n true (Recv.assembler r) = (c, a) →
  Recv.recv_ok srw (r <| Recv.assembler := a |>)
  ∧ Assembler.bytes_read a = Recv.bytes_read r + from_option (λ c, zlen (Assembler.c_bytes c)) 0 c
  ∧ (Recv.is_receiving r = false → c = None).
Proof.
  intros Hn Hok Hst E. destruct (AssemblerBounds.ok_read_spec _ _ _ _ _ Hn (Recv.ro_asm _ _ Hok) E) as [Ha Hbr].
  assert (Hemp : Recv.is_receiving r = false → c = None ∧ Assembler.data a = []).
  { intros Hr. pose proof (Recv.ro_empty _ _ Hok) as Hd. rewrite Hr, orb_true_r in Hd. specialize (Hd eq_refl).
    unfold Assembler.read in E. rewrite Hd in E. simpl in E. rewrite Hd in E. by simplify_eq. }
  pose proof (Recv.read_bounds _ _ Hok). destruct Hok as [? ? ? Hw ? ? He].
  assert (0 ≤ from_option (λ c, zlen (Assembler.c_bytes c)) 0 c) by (destruct c; simpl; [apply zlen_nonneg | lia]).
  split_and!; [| done | by apply Hemp]. unfold Recv.bytes_read in *. split; unfold Recv.bytes_read; simpl; try done; [lia |].
  change (Recv.stopped r || negb (Recv.is_receiving r) = true → Assembler.data a = []).
  rewrite Hst. simpl. intros Hr. apply negb_true_iff in Hr. by apply Hemp.
Qed.

Lemma chunks_next_session n r0 s0 ch s res ch' s' : 0 ≤ n → recv_wf s0 → Recv.stopped r0 = false →
  session r0 s0 ch s → chunks_next n ch s = Some (res, ch', s') → session r0 s0 ch' s'.
Proof.
  intros Hn Hwf Hst0 [Ho Hs] E. unfold chunks_next in E. unfold session.
  destruct (ch_state ch) as [rs | | |] eqn:Ech; [| simplify_eq; by rewrite Ech.. | done].
  destruct Hs as (-> & Hok & Hst & Hstate & Hend & Hpos & Hread & Hreset). rewrite Ho in E.
  destruct (Assembler.read n true (Recv.assembler rs)) as [c a] eqn:Er.
  destruct (read_stream_ok _ _ _ _ _ Hn Hok Hst Er) as (Hok' & Hbr & Hnone).
  assert (Erec : Recv.is_receiving rs = Recv.is_receiving r0) by (unfold Recv.is_receiving; by rewrite Hstate).
  destruct c as [chunk |]; simplify_eq/=.
  - split; [done |]. pose proof (zlen_nonneg (Assembler.c_bytes chunk)).
    split_and!; try done; unfold Recv.bytes_read in *; simpl in *; [lia | lia |].
    intros Hr. rewrite Erec in Hnone. by specialize (Hnone Hr).
  - rewrite Z.add_0_r in Hbr. destruct (Recv.state rs) as [size |] eqn:Est.
    + destruct (bool_decide (size = Some (Recv.end_ rs)) && _) eqn:Efin; simplify_eq/=.
      * apply bind_Some in E as (s1 & E1 & E). simplify_eq/=. split; [done |].
        apply stream_recv_freed_recv in E1 as (? & -> & _); [| done]. split_and!; try done.
        zbool. rewrite Hst0. unfold Recv.is_receiving. rewrite <- Hstate. simpl. lia.
      * split; [done |]. split_and!; try done; unfold Recv.bytes_read in *; simpl in *; [congruence | lia |].
        intros Hr. specialize (Hreset Hr). lia.
    + apply bind_Some in E as (s1 & E1 & E). simplify_eq/=. split; [done |].
      apply stream_recv_freed_recv in E1 as (? & -> & _); [| done]. split_and!; try done.
      rewrite Hst0. unfold Recv.is_receiving in *. rewrite <- Hstate in *. simpl. specialize (Hreset eq_refl). lia.
Qed.

Lemma chunks_all_session lens : ∀ r0 s0 ch s res ch' s', Forall (λ n, 0 ≤ n) lens → recv_wf s0 →
  Recv.stopped r0 = false → session r0 s0 ch s → chunks_all lens ch s = Some (res, ch', s') → session r0 s0 ch' s' ∧ ch_id ch' = ch_id ch.
Proof.
  induction lens as [|n lens IH]; intros r0 s0 ch s res ch' s' Hl Hwf Hst Hs E; simpl in E; [by simplify_eq |].
  apply Forall_cons in Hl as [Hn Hl].
  apply bind_Some in E as ([[r1 ch1] s1] & E1 & E). apply bind_Some in E as ([[rs ch2] s2] & E2 & E). simplify_eq.
  assert (ch_id ch1 = ch_id ch) as <-.
  { unfold chunks_next in E1. repeat (case_hyp E1; simplify_eq/=; try done); apply bind_Some in E1 as (? & ? & E1); by simplify_eq. }
  eapply IH; [done.. | | exact E2]. by eapply chunks_next_session.
Qed.

(** Finalizing puts back what is left of the stream and credits what was read. *)
Lemma finalize_inv extra id r s1 s0 pending ch s2 t pending' ch' s' :
  balanced extra (nums s1) → recv_wf s1 → recv s1 !! id = Some (Some (ROpen r)) →
  Recv.recv_ok (stream_receive_window s1) r → Recv.stopped r = false →
  s0 = s1 <| recv := delete id (recv s1) |> → ch_id ch = id → session r s0 ch s2 →
  finalize_inner pending ch s2 = (t, pending', ch', s') →
  recv_inv extra s' ∧ local_max_data s1 ≤ local_max_data s'.
Proof.
  intros Hb Hwf1 Er1 Hok Hst Es0 Hid [_ Hs] E. destruct (delete_recv_spec _ _ _ Hwf1 Er1) as [Hwf0 Hu0].
  rewrite <- Es0 in Hwf0, Hu0. assert (Hr0 : recv s0 !! id = None) by (subst s0; apply lookup_delete_eq).
  pose proof (Recv.read_bounds _ _ Hok) as Hrd.
  (* the state the credits are added to, and what is unread in it *)
  assert (∃ s3 t3 left, add_read_credits (ch_read ch) s3 = (s', t3) ∧ recv_wf s3
    ∧ nums s3 = (local_max_data s1, receive_window_shrink_debt s1, receive_window s1, data_recvd s1,
                 total_unread s1 - left) ∧ 0 ≤ left ∧ ch_read ch = left) as (s3 & t3 & left & Ec & Hwf3 & En3 & Hl0 & Hl).
  { unfold finalize_inner in E. destruct (queue_max_stream_id pending s2) as [pend2 q].
    assert (Hdone : recv_wf s2 → nums s2 = nums s0 → ch_read ch = unread (Some (ROpen r)) →
      ∃ left, nums s2 = (local_max_data s1, receive_window_shrink_debt s1, receive_window s1, data_recvd s1,
                 total_unread s1 - left) ∧ 0 ≤ left ∧ ch_read ch = left).
    { intros _ En Hr. exists (unread (Some (ROpen r))). rewrite En, Hr. unfold nums. rewrite Hu0. subst s0. split_and!; try done.
      by eapply (unread_nonneg (stream_receive_window s1)). }
    destruct (ch_state ch) as [rs | c | |] eqn:Ech; [| | | done].
    - destruct Hs as (-> & Hok' & Hst' & Hstate & Hend & Hpos & Hread & Hreset).
      destruct (Recv.max_stream_data _ rs) as [m due]. destruct (add_read_credits (ch_read ch) (put_recv (ch_id ch) rs s0)) as [s4 t4] eqn:Ec.
      simplify_eq. exists (put_recv (ch_id ch) rs (s1 <| recv := delete (ch_id ch) (recv s1) |>)), t4, (ch_read ch).
      pose proof (Recv.read_bounds _ _ Hok') as Hrd'.
      assert (Hu : unread (Some (ROpen rs)) = unread (Some (ROpen r)) - ch_read ch ∧ 0 ≤ ch_read ch).
      { simpl. rewrite Hst, Hst'. unfold Recv.is_receiving in *. rewrite Hstate. simpl. rewrite Hend, Hread.
        destruct (Recv.state r); simpl; [| specialize (Hreset eq_refl)]; lia. }
      destruct Hu as [Hu ?]. split_and!; try done.
      + destruct Hwf0. split; try done. by apply map_Forall_insert_2.
      + set (s0 := s1 <| recv := _ |>) in *.
        assert (total_unread (put_recv (ch_id ch) rs s0) = unread (Some (ROpen rs)) + total_unread s0) as Ht
          by (by apply msum_insert).
        unfold nums. rewrite Ht, Hu0, Hu. f_equal. lia.
    - destruct Hs as (Hwf2 & En & Hr). destruct (add_read_credits (ch_read ch) s2) as [s4 t4] eqn:Ec.
      injection E as _ _ _ <-. destruct (Hdone Hwf2 En Hr) as (left & ? & ? & ?).
      exists s2, t4, left. by split_and!.
    - destruct Hs as (Hwf2 & En & Hr). destruct (add_read_credits (ch_read ch) s2) as [s4 t4] eqn:Ec.
      injection E as _ _ _ <-. destruct (Hdone Hwf2 En Hr) as (left & ? & ? & ?).
      exists s2, t4, left. by split_and!. }
  destruct (credits_recv (ch_read ch) _ _ _ Hwf3 ltac:(rewrite Hl; exact Hl0) Ec) as (Hwf4 & _ & Erw4 & Ed4 & Eu4 & Hl4 & Hc4).
  injection En3 as El3 Edb3 Erw3 Ed3 Eu3. split; [| lia]. rewrite <- (Z.add_0_r extra).
  apply (balanced_credit extra s1 s' (ch_read ch) 0 left); try done; try lia.
  intros Hlim. destruct (Hb Hlim) as (? & ? & ? & ? & ?). lia.
Qed.

Lemma read_session_inv extra id lens pending s res pending' s' : recv_inv extra s → Forall (λ n, 0 ≤ n) lens →
  read_session id lens pending s = Some (res, pending', s') →
  recv_inv extra s' ∧ local_max_data s ≤ local_max_data s'.
Proof.
  intros [Hwf Hb] Hl. unfold read_session, chunks_new.
  destruct (get_or_insert_recv id s) as [[r s1] |] eqn:Eg; [| intros; simplify_eq; done].
  destruct (get_recv _ _ _ _ Hwf Eg) as (Hwf1 & En & Hok & Es1 & _).
  assert (Er1 : recv s1 !! id = Some (Some (ROpen r))) by (subst s1; apply lookup_insert_eq).
  assert (Esrw : stream_receive_window s1 = stream_receive_window s) by (by subst s1).
  rewrite <- Esrw in Hok. clear Es1 Esrw Eg.
  assert (local_max_data s1 = local_max_data s) as <- by (by injection En). rewrite <- En in Hb. clear En Hwf s.
  destruct (Recv.stopped r) eqn:Est; [intros; simplify_eq; done |].
  unfold Assembler.ensure_ordering. rewrite (AssemblerBounds.ok_ordered _ _ (Recv.ro_asm _ _ Hok)). cbn [andb negb Assembler.is_ordered].
  destruct (delete_recv_spec _ _ _ Hwf1 Er1) as [Hwf0 _]. set (s0 := s1 <| recv := delete id (recv s1) |>) in *.
  intros E. apply bind_Some in E as ([[rs ch] s2] & E2 & E).
  apply (chunks_all_session _ r s0) in E2 as [Hs Hid]; [| done | done | done |].
  2:{ split; [done |]. simpl. split_and!; try done; unfold Recv.bytes_read; simpl; try lia. by destruct Hok. }
  destruct (finalize_inner pending ch s2) as [[[t pend] ch'] s3] eqn:Ef. simplify_eq.
  by eapply (finalize_inv extra id r s1 s0).
Qed.

End StreamsRecvProofs.
