(* ===== verification/StreamsCount.v ===== *)
(** * Accounting of streams

    Which streams exist, in numbers: the counters of [StreamsState] are the sizes of the sets
    they are kept for, identifiers are never reused, and none of the assertions on the maps
    fails. *)

From Stdlib Require Import String.
From stdpp Require Import gmap fin_maps fin_sets.
From S2P Require Import Prelude BTree RangeSets Coding SendBuf Assembler Frames Sums.
From S2P Require Import StreamSend StreamRecv StreamQueue Streams.

Module StreamsCount.
Import StreamsState.

(** ** Invariant *)

(** Streams the peer opened or may open in a direction that are not fully closed. *)
Definition live (d : Frames.Dir) (s : StreamsState) : gset Z :=
  filter (λ id, StreamId.initiator id ≠ side s ∧ StreamId.dir id = d) (dom (send s) ∪ dom (recv s)).

(** The application knows the stream: it opened or accepted it. *)
Definition known (s : StreamsState) (id : Z) : Prop :=
  if decide (StreamId.initiator id = side s) then StreamId.index id < sel (StreamId.dir id) (next s)
  else StreamId.index id < sel (StreamId.dir id) (next_reported_remote s).

#[global] Instance known_dec s id : Decision (known s id).
Proof. unfold known. destruct (decide _); apply _. Defined.

(** Identifiers in the maps are below the counters; [bd] stands for [max_remote]. *)
Definition below (bd : Z * Z) (s : StreamsState) (id : Z) : Prop :=
  is_u 64 id
  ∧ StreamId.index id < if decide (StreamId.initiator id = side s) then sel (StreamId.dir id) (next s) else sel (StreamId.dir id) bd.

Record ids_ok (bd : Z * Z) (s : StreamsState) : Prop := {
  io_send id : is_Some (send s !! id) →
    below bd s id ∧ (StreamId.initiator id = side s ∨ StreamId.dir id = Frames.Bi);
  io_recv id : is_Some (recv s !! id) →
    below bd s id ∧ (StreamId.initiator id ≠ side s ∨ StreamId.dir id = Frames.Bi);
}.

(** [ss] stands for [send_streams], which is updated last. *)
Record count_pre (ss : Z) (s : StreamsState) : Prop := {
  ci_ids : ids_ok (max_remote s) s;
  ci_next d : 0 ≤ sel d (next s) ≤ 2 ^ 60;
  ci_alloc d : sel d (allocated_remote_count s) = Z.of_nat (size (live d s));
  ci_alloc_le d : sel d (allocated_remote_count s) ≤ sel d (max_remote s);
  ci_reported d : 0 ≤ sel d (next_reported_remote s) ≤ sel d (next_remote s);
  ci_remote d : sel d (next_remote s) ≤ sel d (max_remote s) ≤ 2 ^ 60;
  ci_unreported i : sel Frames.Bi (next_reported_remote s) ≤ i < sel Frames.Bi (max_remote s) →
    is_Some (send s !! StreamId.new (other (side s)) Frames.Bi i);
  ci_send : ss = Z.of_nat (size (filter (known s) (dom (send s))));
  ci_send_le : ss ≤ sel Frames.Bi (next s) + sel Frames.Uni (next s) + sel Frames.Bi (next_reported_remote s);
}.

Definition count_inv (s : StreamsState) : Prop :=
  count_pre (send_streams s) s
  ∧ ∀ d, 0 ≤ sel d (max_concurrent_remote_count s) ≤ sel d (allocated_remote_count s).

(** Room for the streams that may still be allocated: identifiers are below 2^62. *)
Definition room (s : StreamsState) : Prop :=
  ∀ d, sel d (max_remote s) + sel d (max_concurrent_remote_count s) ≤ 2 ^ 60.

(** ** Sets *)

Lemma sel_upd {A} d d' (v : A) p : sel d (upd d' v p) = if decide (d = d') then v else sel d p.
Proof. by destruct d, d'. Qed.

Lemma size_add (X Y : gset Z) x : x ∉ X → Y = {[x]} ∪ X → size Y = S (size X).
Proof. intros Hx ->. rewrite size_union, size_singleton by set_solver. done. Qed.

Lemma other_ne s : other s ≠ s.
Proof. by destruct s. Qed.

(** What the accounting depends on. *)
Definition view (s : StreamsState) :=
  (side s, next s, allocated_remote_count s, next_remote s, next_reported_remote s, max_remote s, dom (send s), dom (recv s)).

Lemma count_pre_view ss s s' : view s' = view s → count_pre ss s → count_pre ss s'.
Proof.
  intros [= E1 E2 E3 E4 E5 E6 E7 E8] [[Hs Hr] H1 H2 H3 H4 H5 H6 H7 H8].
  assert (Hk : ∀ id, known s' id ↔ known s id) by (intros id; unfold known; by rewrite E1, E2, E5).
  assert (Hl : ∀ d, live d s' = live d s) by (intros d; unfold live; by rewrite E1, E7, E8).
  constructor; rewrite ?E2, ?E3, ?E4, ?E5, ?E6; try done.
  - split; unfold below; intros id; rewrite <- elem_of_dom, E1, E2, ?E7, ?E8, elem_of_dom; [apply Hs | apply Hr].
  - intros d. by rewrite Hl.
  - intros i Hi. rewrite <- elem_of_dom, E1, E7, elem_of_dom. by apply H6.
  - rewrite H7. do 2 f_equal. apply set_eq. intros id. by rewrite !elem_of_filter, E7, Hk.
Qed.

Lemma count_inv_view s s' : view s' = view s → send_streams s' = send_streams s →
  max_concurrent_remote_count s' = max_concurrent_remote_count s → count_inv s → count_inv s'.
Proof.
  intros Hv Hss Hmc [Hp Hc]. split; [rewrite Hss; by apply (count_pre_view _ s) |].
  rewrite Hmc. injection Hv as _ _ Ha _ _ _ _ _. by rewrite Ha.
Qed.

(** The fields of the sending side, its map and the identifiers apart. *)
Definition send_view (s : StreamsState) :=
  (side s, max s, pending s, max_data s, data_sent s, unacked_data s, send_window s,
   (initial_max_stream_data_uni s, initial_max_stream_data_bidi_local s, initial_max_stream_data_bidi_remote s)).

(** What an operation that is not about sending does to the sending side: at most streams the
    application did not know appear. *)
Record quiet (s s' : StreamsState) : Prop := {
  qu_view : send_view s' = send_view s;
  qu_remote d : sel d (max_remote s) ≤ sel d (max_remote s');
  qu_known id : known s id → known s' id;
  qu_send id : send s' !! id = send s !! id ∨ (send s !! id = None ∧ send s' !! id = Some None ∧ ¬ known s id);
}.

Lemma known_view s s' id : side s' = side s → next s' = next s → next_reported_remote s' = next_reported_remote s →
  known s' id ↔ known s id.
Proof. intros E1 E2 E3. unfold known. by rewrite E1, E2, E3. Qed.

Lemma quiet_same s s' : send_view s' = send_view s → next s' = next s → next_reported_remote s' = next_reported_remote s →
  max_remote s' = max_remote s → send s' = send s → quiet s s'.
Proof.
  intros Hv Hn Hr Hm Hs. split; [done | intros d; by rewrite Hm | | intros id; left; by rewrite Hs].
  intros id. apply known_view; [by injection Hv | done | done].
Qed.

#[global] Instance quiet_preorder : PreOrder quiet.
Proof.
  split; [intros s; by apply quiet_same |]. intros s1 s2 s3 [Hv Hm Hk Hs] [Hv' Hm' Hk' Hs'].
  split; [congruence | intros d; specialize (Hm d); specialize (Hm' d); lia | by eauto |].
  intros id. destruct (Hs id) as [E | (E & E2 & Hn)], (Hs' id) as [E' | (E' & E2' & Hn')].
  - left. congruence.
  - right. split_and!; [congruence | done | eauto].
  - right. rewrite E'. done.
  - congruence.
Qed.

Lemma quiet_side s s' : quiet s s' → side s' = side s.
Proof. intros [[= H] _ _ _]. done. Qed.

(** ** Creating streams *)

(** [insert] of a stream that does not exist; the state changes in its maps only. *)
Lemma insert_fresh remote id s : send s !! id = None → recv s !! id = None →
  ∃ f m, insert remote id s = Some
    (s <| send := if bool_decide (StreamId.dir id = Frames.Bi) || negb remote then <[id := None]> (send s) else send s |>
       <| free_recv := f |>
       <| recv := if bool_decide (StreamId.dir id = Frames.Bi) || remote then <[id := m]> (recv s) else recv s |>)
    ∧ (bool_decide (StreamId.dir id = Frames.Bi) || remote = false → f = free_recv s).
Proof.
  intros Hs Hr. unfold insert. set (bi := bool_decide _). rewrite Hs.
  destruct (bi || negb remote) eqn:E1, (bi || remote) eqn:E2; simpl; rewrite ?Hr.
  all: try (destruct (vec_pop (free_recv s)) as [[r f] |]; [exists f, (Some r) | exists [], None]; by destruct s).
  all: exists (free_recv s), None; by destruct s.
Qed.

(** Only the maps grow, and the sending side by streams not used yet. *)
Definition grown (s s' : StreamsState) : Prop :=
  ∃ m1 f m2, s' = s <| send := m1 |> <| free_recv := f |> <| recv := m2 |>
  ∧ (∀ id, m1 !! id = send s !! id ∨ (send s !! id = None ∧ m1 !! id = Some None))
  ∧ (∀ id, is_Some (recv s !! id) → m2 !! id = recv s !! id).

Lemma grown_refl s : grown s s.
Proof. exists (send s), (free_recv s), (recv s). split_and!; [by destruct s | by left | done]. Qed.

Lemma grown_trans s1 s2 s3 : grown s1 s2 → grown s2 s3 → grown s1 s3.
Proof.
  intros (m1 & f & m2 & -> & Hs & Hr) (m1' & f' & m2' & -> & Hs' & Hr'). exists m1', f', m2'. split_and!; [done | |].
  - intros id. simpl in *. destruct (Hs id) as [E | [E E2]], (Hs' id) as [E' | [E' E2']].
    + left. congruence.
    + right. split; congruence.
    + right. split; congruence.
    + congruence.
  - intros id Hid. simpl in *. rewrite <- (Hr id Hid). apply Hr'. by rewrite (Hr id Hid).
Qed.

Lemma live_grown d s s' id : grown s s' → id ∈ live d s → id ∈ live d s'.
Proof.
  intros (m1 & f & m2 & -> & Hs & Hr). unfold live. rewrite !elem_of_filter, !elem_of_union, !elem_of_dom. simpl.
  intros [? [Hid | Hid]]; (split; [done |]).
  - left. destruct (Hs id) as [-> | [E _]]; [done |]. rewrite E in Hid. by destruct Hid.
  - right. by rewrite (Hr id Hid).
Qed.

(** A new entry counts in its direction only. *)
Lemma live_add d d' id s m1 m2 f (b : bool) :
  StreamId.initiator id ≠ side s → StreamId.dir id = d → send s !! id = None → recv s !! id = None →
  size (live d' (s <| send := if b then <[id := m1]> (send s) else send s |> <| free_recv := f |>
                   <| recv := <[id := m2]> (recv s) |>))
  = (size (live d' s) + if decide (d' = d) then 1 else 0)%nat.
Proof.
  intros Hne Hd Hs0 Hr0. destruct (decide (d' = d)) as [-> |].
  - rewrite Nat.add_1_r. apply (size_add _ _ id).
    + unfold live. rewrite elem_of_filter, elem_of_union, !elem_of_dom, Hs0, Hr0. by intros [_ [[] | []]].
    + unfold live. apply set_eq. intros id'.
      rewrite elem_of_union, !elem_of_filter, elem_of_singleton, !elem_of_union, !elem_of_dom. simpl.
      destruct (decide (id = id')) as [<- |]; [rewrite lookup_insert_eq; naive_solver eauto |].
      rewrite lookup_insert_ne by done. destruct b; rewrite ?lookup_insert_ne by done; naive_solver.
  - rewrite Nat.add_0_r. f_equal. unfold live. apply set_eq. intros id'.
    rewrite !elem_of_filter, !elem_of_union, !elem_of_dom. simpl.
    destruct (decide (id = id')) as [<- |]; [naive_solver |].
    rewrite lookup_insert_ne by done. destruct b; rewrite ?lookup_insert_ne by done; naive_solver.
Qed.

(** One stream more that the peer may open. *)
Lemma insert_remote_one d bd s : ids_ok bd s → 0 ≤ sel d bd < 2 ^ 60 →
  ∃ s', insert true (StreamId.new (other (side s)) d (sel d bd)) s = Some s'
  ∧ grown s s' ∧ ids_ok (upd d (sel d bd + 1) bd) s'
  ∧ (∀ d', size (live d' s') = (size (live d' s) + if decide (d' = d) then 1 else 0)%nat)
  ∧ (∀ id, is_Some (send s' !! id) → is_Some (send s !! id)
       ∨ id = StreamId.new (other (side s)) d (sel d bd))
  ∧ (d = Frames.Bi → is_Some (send s' !! StreamId.new (other (side s)) d (sel d bd))).
Proof.
  intros [Hsd Hrv] Hbd. set (id := StreamId.new _ _ _).
  destruct (StreamId.new_spec (other (side s)) d (sel d bd)) as (Hi & Hd & Hx & Hu); [unfold is_u; lia |]. fold id in Hi, Hd, Hx, Hu.
  assert (Hne : StreamId.initiator id ≠ side s) by (rewrite Hi; apply other_ne).
  assert (Hnb : ¬ below bd s id).
  { unfold below. rewrite decide_False, Hd, Hx by done. lia. }
  assert (Hs0 : send s !! id = None) by (apply eq_None_not_Some; intros ?; by destruct (Hsd id)).
  assert (Hr0 : recv s !! id = None) by (apply eq_None_not_Some; intros ?; by destruct (Hrv id)).
  destruct (insert_fresh true id s Hs0 Hr0) as (f & m & -> & _). rewrite Hd, orb_true_r. cbn [negb]. rewrite orb_false_r.
  set (s' := s <| send := _ |> <| free_recv := _ |> <| recv := _ |>).
  assert (Hdom : ∀ id', is_Some (send s' !! id') → is_Some (send s !! id') ∨ id' = id ∧ d = Frames.Bi).
  { intros id'. simpl. case_bool_decide; [| by left]. destruct (decide (id = id')) as [<- |]; [by right |].
    rewrite lookup_insert_ne by done. by left. }
  assert (Hmono : ∀ id', below bd s id' → below (upd d (sel d bd + 1) bd) s' id').
  { intros id' [Hu' Hb]. split; [done |]. simpl. destruct (decide _); [done |]. rewrite sel_upd. case_decide as E; [| done].
    rewrite E in Hb. lia. }
  assert (Hnew : below (upd d (sel d bd + 1) bd) s' id).
  { split; [done |]. simpl. rewrite decide_False by done. rewrite sel_upd, Hd, decide_True, Hx by done. lia. }
  exists s'. split_and!; [done | | split | | |].
  - exists (send s'), f, (recv s'). split_and!; [done | |].
    + intros id'. simpl. case_bool_decide; [| by left]. destruct (decide (id = id')) as [<- |].
      * right. by rewrite lookup_insert_eq.
      * left. by rewrite lookup_insert_ne.
    + intros id' Hid'. simpl. rewrite lookup_insert_ne; [done |]. intros <-. rewrite Hr0 in Hid'. by destruct Hid'.
  - intros id' Hid'. destruct (Hdom id' Hid') as [Ho | [-> ->]]; [| by split; [| right]].
    destruct (Hsd id' Ho). split; [by apply Hmono | done].
  - intros id'. simpl. destruct (decide (id = id')) as [<- |]; [intros _; split; [done | by left] |].
    rewrite lookup_insert_ne by done. intros Hid'. destruct (Hrv id' Hid'). split; [by apply Hmono | done].
  - intros d'. by apply live_add.
  - intros id' Hid'. destruct (Hdom id' Hid') as [| [-> _]]; auto.
  - intros ->. simpl. rewrite lookup_insert_eq. eauto.
Qed.

Lemma insert_remote_spec d n : ∀ bd s, ids_ok bd s → 0 ≤ sel d bd → sel d bd + Z.of_nat n ≤ 2 ^ 60 →
  ∃ s', insert_remote d (sel d bd) n s = Some s'
  ∧ grown s s' ∧ ids_ok (upd d (sel d bd + Z.of_nat n) bd) s'
  ∧ (∀ d', size (live d' s') = (size (live d' s) + if decide (d' = d) then n else 0)%nat)
  ∧ (∀ id, is_Some (send s' !! id) → is_Some (send s !! id)
       ∨ (StreamId.initiator id ≠ side s ∧ StreamId.dir id = d ∧ sel d bd ≤ StreamId.index id))
  ∧ (d = Frames.Bi → ∀ i, sel d bd ≤ i < sel d bd + Z.of_nat n →
       is_Some (send s' !! StreamId.new (other (side s)) Frames.Bi i)).
Proof.
  induction n as [|n IH]; intros bd s Hok Hbd Hn.
  - exists s. rewrite Z.add_0_r. split_and!; [done | apply grown_refl | by destruct d, bd | | by left | lia].
    intros d'. destruct (decide _); lia.
  - cbn [insert_remote]. destruct (insert_remote_one d bd s Hok) as (s1 & -> & Hg1 & Hok1 & Hl1 & Hs1 & Hb1); [lia |]. simpl.
    set (bd1 := upd d (sel d bd + 1) bd) in *. assert (Ebd : sel d bd1 = sel d bd + 1) by (by destruct d).
    destruct (IH bd1 s1 Hok1) as (s2 & E2 & Hg2 & Hok2 & Hl2 & Hs2 & Hb2); [lia.. |].
    assert (Eside : side s1 = side s) by (by destruct Hg1 as (? & ? & ? & -> & _)).
    exists s2. rewrite Ebd in *. split_and!.
    + done.
    + by eapply grown_trans.
    + replace (upd d (sel d bd + Z.of_nat (S n)) bd) with (upd d (sel d bd + 1 + Z.of_nat n) bd1); [done |].
      subst bd1. destruct d, bd; simpl; f_equal; lia.
    + intros d'. rewrite Hl2, Hl1. destruct (decide _); lia.
    + intros id Hid. destruct (Hs2 id Hid) as [H1 | (? & ? & ?)]; [| right; rewrite Eside in *; split_and!; try done; lia].
      destruct (Hs1 id H1) as [| ->]; [by left | right].
      destruct (StreamId.new_spec (other (side s)) d (sel d bd)) as (-> & -> & -> & _); [unfold is_u; lia |].
      split_and!; [apply other_ne | done | lia].
    + intros -> i Hi. destruct (decide (i = sel Frames.Bi bd)) as [-> |]; [| rewrite <- Eside; apply Hb2; [done | lia]].
      specialize (Hb1 eq_refl). destruct Hg2 as (m1 & f & m2 & -> & Hs & _).
      destruct (Hs (StreamId.new (other (side s)) Frames.Bi (sel Frames.Bi bd))) as [E | [E _]];
        [rewrite <- E in Hb1; exact Hb1 | rewrite E in Hb1; by destruct Hb1].
Qed.

(** The new streams are not known to the application. *)
Lemma known_grown d ss s s1 : count_pre ss s → grown s s1 →
  (∀ id, is_Some (send s1 !! id) → is_Some (send s !! id)
     ∨ (StreamId.initiator id ≠ side s ∧ StreamId.dir id = d ∧ sel d (max_remote s) ≤ StreamId.index id)) →
  filter (known s) (dom (send s1)) = filter (known s) (dom (send s)).
Proof.
  intros Hp (m1 & f & m2 & -> & Hm1 & _) Hs. apply set_eq. intros id. rewrite !elem_of_filter, !elem_of_dom.
  split; intros [Hkn Hid]; (split; [done |]).
  - destruct (Hs id Hid) as [| (? & <- & ?)]; [done |]. exfalso. unfold known in Hkn.
    rewrite decide_False in Hkn by done. pose proof (ci_reported _ _ Hp (StreamId.dir id)).
    pose proof (ci_remote _ _ Hp (StreamId.dir id)). lia.
  - destruct (Hm1 id) as [E | [E _]]; simpl; [by rewrite E |]. rewrite E in Hid. by destruct Hid.
Qed.

(** [ensure_remote_streams] brings the number of allocated streams up to the window. *)
Lemma ensure_spec ss d s : count_pre ss s → room s → 0 ≤ sel d (max_concurrent_remote_count s) →
  ∃ s', ensure_remote_streams d s = Some s' ∧ count_pre ss s'
  ∧ sel d (allocated_remote_count s') = Z.max (sel d (allocated_remote_count s)) (sel d (max_concurrent_remote_count s))
  ∧ (∀ d', d' ≠ d → sel d' (allocated_remote_count s') = sel d' (allocated_remote_count s))
  ∧ send_streams s' = send_streams s ∧ max_concurrent_remote_count s' = max_concurrent_remote_count s ∧ quiet s s'.
Proof.
  intros Hp Hroom Hc. unfold ensure_remote_streams, saturating_sub.
  set (n := Z.max 0 _). assert (0 ≤ n) by lia. specialize (Hroom d).
  pose proof (ci_alloc _ _ Hp d). pose proof (ci_reported _ _ Hp d). pose proof (ci_remote _ _ Hp d).
  destruct (insert_remote_spec d (Z.to_nat n) (max_remote s) s (ci_ids _ _ Hp)) as (s1 & -> & Hg & Hok & Hl & Hs & Hb); [lia.. |].
  rewrite Z2Nat.id in * by done. simpl. eexists. split; [done |].
  pose proof (known_grown d ss s s1 Hp Hg Hs) as Hk.
  set (s' := s1 <| allocated_remote_count := _ |> <| max_remote := _ |>).
  assert (Emr : max_remote s' = upd d (sel d (max_remote s) + n) (max_remote s)) by (by destruct Hg as (? & ? & ? & -> & _)).
  assert (Eac : allocated_remote_count s' = upd d (sel d (allocated_remote_count s) + n) (allocated_remote_count s))
    by (by destruct Hg as (? & ? & ? & -> & _)).
  assert (Ef : send s' = send s1 ∧ recv s' = recv s1 ∧ side s1 = side s ∧ side s' = side s ∧ next s' = next s
    ∧ next_remote s' = next_remote s ∧ next_reported_remote s' = next_reported_remote s)
    by (by destruct Hg as (? & ? & ? & -> & _)).
  assert (Hq : send_streams s' = send_streams s ∧ max_concurrent_remote_count s' = max_concurrent_remote_count s ∧ quiet s s').
  { split_and!; try (by destruct Hg as (? & ? & ? & -> & _)). split; [by destruct Hg as (? & ? & ? & -> & _) | | |].
    - intros d'. rewrite Emr, sel_upd. destruct (decide (d' = d)) as [-> |]; lia.
    - intros id. apply known_view; by destruct Hg as (? & ? & ? & -> & _).
    - intros id. specialize (Hs id). destruct Hg as (m1 & ? & ? & Es1 & Hg & _). subst s' s1. simpl in *.
      destruct (Hg id) as [E | [E1 E2]]; [by left | right; split_and!; [done | done |]].
      destruct Hs as [[? E] | (Hi & Hd & Hx)]; [by rewrite E2 | congruence |].
      unfold known. rewrite decide_False, Hd by done. lia. }
  split_and!; [| | | apply Hq..].
  2:{ rewrite Eac, sel_upd, decide_True by done. lia. }
  2:{ intros d' Hd'. by rewrite Eac, sel_upd, decide_False. }
  clearbody s'. destruct Ef as (Es & Er & Esd1 & Esd & En & Enr & Enp).
  assert (Hlive : ∀ d', live d' s' = live d' s1) by (intros; unfold live; by rewrite Es, Er, Esd, Esd1).
  split; rewrite ?Es, ?Emr, ?Eac, ?En, ?Enr, ?Enp.
  - destruct Hok as [Hio1 Hio2]. unfold below in *. rewrite Esd1 in *.
    assert (En1 : next s1 = next s) by (by destruct Hg as (? & ? & ? & -> & _)). rewrite En1 in *.
    split; unfold below; rewrite ?Es, ?Er, Esd, En; [exact Hio1 | exact Hio2].
  - apply Hp.
  - intros d'. rewrite sel_upd, Hlive, Hl. pose proof (ci_alloc _ _ Hp d'). destruct (decide (d' = d)) as [-> |]; lia.
  - intros d'. rewrite !sel_upd. pose proof (ci_alloc_le _ _ Hp d'). destruct (decide (d' = d)) as [-> |]; lia.
  - apply Hp.
  - intros d'. rewrite sel_upd. pose proof (ci_remote _ _ Hp d'). destruct (decide (d' = d)) as [-> |]; lia.
  - intros i. rewrite sel_upd, Esd. intros Hi.
    destruct (decide (i < sel Frames.Bi (max_remote s))).
    + destruct (ci_unreported _ _ Hp i) as [o Ho]; [lia |]. destruct Hg as (m1 & ? & ? & -> & Hm1 & _).
      simpl; destruct (Hm1 (StreamId.new (other (side s)) Frames.Bi i)) as [E | [_ E]]; [rewrite E, Ho; eauto | rewrite E; eauto].
    + destruct (decide (Frames.Bi = d)) as [<- |]; [apply Hb; [done | lia] | lia].
  - rewrite (ci_send _ _ Hp), <- Hk. do 2 f_equal. apply set_eq. intros id. rewrite !elem_of_filter. unfold known. by rewrite Esd, En, Enp.
  - apply Hp.
Qed.

(** ** Closing streams *)

(** [s] is [s0] with one half of the stream [id] removed. *)
Definition removed (half : StreamHalf) (id : Z) (s0 s : StreamsState) : Prop :=
  match half with
  | HalfSend => is_Some (send s0 !! id) ∧ known s0 id ∧ s = s0 <| send := delete id (send s0) |>
  | HalfRecv => is_Some (recv s0 !! id) ∧ ∃ f, s = s0 <| recv := delete id (recv s0) |> <| free_recv := f |>
  end.

(** No half is left. *)
Definition gone (id : Z) (s : StreamsState) : bool :=
  bool_decide (send s !! id = None) && bool_decide (recv s !! id = None).

Lemma size_remove (X : gset Z) x : x ∈ X → Z.of_nat (size (X ∖ {[x]})) = Z.of_nat (size X) - 1.
Proof.
  intros Hx. rewrite size_difference by set_solver. rewrite size_singleton.
  assert (size X ≠ 0%nat); [| lia]. intros E. apply size_empty_inv in E. set_solver.
Qed.

Lemma live_removed half id s0 s d : removed half id s0 s →
  Z.of_nat (size (live d s)) = Z.of_nat (size (live d s0))
    - (if decide (StreamId.initiator id ≠ side s0 ∧ StreamId.dir id = d) then Z.b2z (gone id s) else 0).
Proof.
  intros Hrem.
  assert (Hm : side s = side s0 ∧ (is_Some (send s0 !! id) ∨ is_Some (recv s0 !! id))
    ∧ ∀ x, x ≠ id → send s !! x = send s0 !! x ∧ recv s !! x = recv s0 !! x).
  { destruct half; simpl in Hrem.
    - destruct Hrem as (? & _ & ->). split_and!; [done | by left |]. intros x ?. simpl. by rewrite lookup_delete_ne.
    - destruct Hrem as (? & f & ->). split_and!; [done | by right |]. intros x ?. simpl. by rewrite lookup_delete_ne. }
  destruct Hm as (Hside & Hin & Hne).
  assert (Hlive : live d s = if gone id s then live d s0 ∖ {[id]} else live d s0).
  { apply set_eq. intros x. unfold live, gone. rewrite Hside.
    destruct (decide (x = id)) as [-> | Hx].
    - repeat case_bool_decide; simpl; rewrite ?elem_of_difference, ?elem_of_singleton, !elem_of_filter, !elem_of_union, !elem_of_dom;
        rewrite <- ?not_eq_None_Some in *; naive_solver.
    - destruct (Hne x Hx) as [E1 E2]. destruct (_ && _);
        rewrite ?elem_of_difference, ?elem_of_singleton, !elem_of_filter, !elem_of_union, !elem_of_dom, E1, E2; naive_solver. }
  rewrite Hlive. assert (Hmem : id ∈ live d s0 ↔ StreamId.initiator id ≠ side s0 ∧ StreamId.dir id = d).
  { unfold live. rewrite elem_of_filter, elem_of_union, !elem_of_dom. tauto. }
  destruct (gone id s); simpl; [| destruct (decide _); lia].
  destruct (decide _) as [Hd | Hd]; [apply size_remove; tauto |].
  rewrite Z.sub_0_r. do 2 f_equal. apply set_eq. set_solver.
Qed.

(** The counters agree again once the allocation count is adjusted. *)
Lemma removed_pre half id s0 s : count_inv s0 → removed half id s0 s →
  count_pre (send_streams s0 - match half with HalfSend => 1 | HalfRecv => 0 end)
    (s <| allocated_remote_count :=
       if bool_decide (StreamId.initiator id ≠ side s0) && gone id s
       then upd (StreamId.dir id) (sel (StreamId.dir id) (allocated_remote_count s0) - 1) (allocated_remote_count s0)
       else allocated_remote_count s0 |>).
Proof.
  intros [Hp _] Hrem. pose proof (live_removed half id s0 s) as Hlive.
  set (ac := if _ && _ then _ else _).
  assert (Hac : ∀ d, sel d ac = sel d (allocated_remote_count s0)
    - (if decide (StreamId.initiator id ≠ side s0 ∧ StreamId.dir id = d) then Z.b2z (gone id s) else 0)).
  { intros d. subst ac. destruct (decide (StreamId.initiator id = side s0)) as [Hi | Hi].
    - rewrite bool_decide_false, decide_False by tauto. simpl. lia.
    - rewrite bool_decide_true by done. destruct (gone id s); cbn [andb Z.b2z]; [| destruct (decide _); lia].
      rewrite sel_upd. destruct (decide (d = StreamId.dir id)) as [-> |]; [rewrite decide_True by done; lia |].
      rewrite decide_False by naive_solver. lia. }
  clearbody ac.
  assert (Hf : send_streams s0 = send_streams s ∧ side s = side s0 ∧ next s = next s0 ∧ max_remote s = max_remote s0
    ∧ next_remote s = next_remote s0 ∧ next_reported_remote s = next_reported_remote s0
    ∧ (∀ x, is_Some (send s !! x) → is_Some (send s0 !! x)) ∧ (∀ x, is_Some (recv s !! x) → is_Some (recv s0 !! x))).
  { destruct half; simpl in Hrem; [destruct Hrem as (_ & _ & ->) | destruct Hrem as (_ & f & ->)]; split_and!; try done;
      intros x Hx; simpl in Hx; apply lookup_delete_is_Some in Hx; tauto. }
  destruct Hf as (_ & Hsd & Hn & Hmr & Hnr & Hnp & Hss & Hsr).
  split; cbn -[sel known live]; rewrite ?Hn, ?Hmr, ?Hnr, ?Hnp, ?Hsd; try apply Hp.
  - destruct (ci_ids _ _ Hp) as [H1 H2]. split; unfold below; cbn -[sel]; rewrite Hsd, Hn; [intros; apply H1; auto | intros; apply H2; auto].
  - intros d. rewrite Hac, (ci_alloc _ _ Hp). symmetry. by apply Hlive.
  - intros d. rewrite Hac. pose proof (ci_alloc_le _ _ Hp d). destruct (decide _); destruct (gone id s); simpl; lia.
  - intros i Hi. destruct (ci_unreported _ _ Hp i Hi) as [o Ho].
    destruct half; simpl in Hrem; [destruct Hrem as (_ & Hk & ->) | destruct Hrem as (_ & f & ->)]; simpl; [| rewrite Ho; eauto].
    rewrite lookup_delete_ne, Ho; [eauto |]. intros ->. unfold known in Hk.
    pose proof (ci_remote _ _ Hp Frames.Bi). pose proof (ci_reported _ _ Hp Frames.Bi).
    destruct (StreamId.new_spec (other (side s0)) Frames.Bi i) as (E1 & E2 & E3 & _); [unfold is_u; lia |].
    rewrite decide_False, E2, E3 in Hk by (rewrite E1; apply other_ne). lia.
  - assert (Hk : ∀ id, known (s <| allocated_remote_count := ac |>) id ↔ known s0 id).
    { intros x. unfold known. cbn -[sel]. by rewrite Hsd, Hn, Hnp. }
    destruct half; simpl in Hrem; [destruct Hrem as (Hin & Hkn & ->) | destruct Hrem as (_ & f & ->)].
    + rewrite (ci_send _ _ Hp), <- (size_remove _ id) by (rewrite elem_of_filter, elem_of_dom; done). do 2 f_equal.
      apply set_eq. intros x. rewrite elem_of_difference, !elem_of_filter, elem_of_singleton, Hk, !elem_of_dom. simpl.
      rewrite lookup_delete_is_Some. naive_solver.
    + rewrite (ci_send _ _ Hp), Z.sub_0_r. by do 2 f_equal.
  - pose proof (ci_send_le _ _ Hp). destruct half; lia.
Qed.

Lemma fully_free_gone half id s0 s : count_inv s0 → removed half id s0 s → StreamId.initiator id ≠ side s0 →
  bool_decide (StreamId.dir id = Frames.Uni)
    || match half with
       | HalfSend => bool_decide (recv s !! id = None)
       | HalfRecv => bool_decide (send s !! id = None)
       end = gone id s.
Proof.
  intros [Hp _] Hrem Hr. destruct (ci_ids _ _ Hp) as [Hs _]. unfold gone.
  destruct half; simpl in Hrem; [destruct Hrem as (Hin & _ & ->) | destruct Hrem as (_ & f & ->)]; simpl;
    rewrite lookup_delete_eq, (bool_decide_true (None = None)) by done.
  - destruct (Hs id Hin) as [_ [| Hd]]; [done |]. rewrite Hd. done.
  - rewrite andb_true_r. case_bool_decide as Hd; [| done]. simpl. symmetry. apply bool_decide_eq_true, eq_None_not_Some.
    intros Hin. destruct (Hs id Hin) as [_ [| Hd']]; [done |]. congruence.
Qed.

(** The counter of sending streams is at least one while a known stream is being removed. *)
Lemma removed_ss half id s0 s : count_inv s0 → removed half id s0 s →
  0 ≤ send_streams s0 - match half with HalfSend => 1 | HalfRecv => 0 end < 2 ^ 64.
Proof.
  intros Hinv Hrem. pose proof (ci_send _ _ (removed_pre _ _ _ _ Hinv Hrem)) as Hss.
  destruct Hinv as [Hp _]. pose proof (ci_send_le _ _ Hp). pose proof (ci_next _ _ Hp Frames.Bi).
  pose proof (ci_next _ _ Hp Frames.Uni). pose proof (ci_reported _ _ Hp Frames.Bi). pose proof (ci_remote _ _ Hp Frames.Bi).
  destruct half; lia.
Qed.

(** [stream_freed] never panics, adjusts the counters, and gives the peer a new stream for
    each one fully closed. *)
Lemma stream_freed_spec half id s0 s : count_inv s0 → room s0 → removed half id s0 s →
  ∃ s', stream_freed id half s = Some s' ∧ count_inv s' ∧ quiet s s'.
Proof.
  intros Hinv Hroom Hrem. pose proof (removed_pre half id s0 s Hinv Hrem) as Hpre.
  pose proof (removed_ss half id s0 s Hinv Hrem) as Hss'.
  pose proof (fully_free_gone half id s0 s Hinv Hrem) as Hfree. destruct Hinv as [Hp Hc].
  assert (Hf : send_streams s = send_streams s0 ∧ side s = side s0 ∧ allocated_remote_count s = allocated_remote_count s0
    ∧ max_concurrent_remote_count s = max_concurrent_remote_count s0 ∧ max_remote s = max_remote s0).
  { by destruct half; simpl in Hrem; [destruct Hrem as (_ & _ & ->) | destruct Hrem as (_ & f & ->)]. }
  destruct Hf as (Hss & Hsd & Hac & Hmc & Hmr). unfold stream_freed. set (d := StreamId.dir id) in *.
  set (ss' := send_streams s0 - _) in *.
  match goal with |- ∃ _, (mbind ?k ?m) = _ ∧ _ => set (stage := m); set (last := k) end.
  (* the state before [send_streams] is updated *)
  assert (∃ s2, stage = Some s2 ∧ quiet s s2 ∧ send_streams s2 = send_streams s0
    ∧ max_concurrent_remote_count s2 = max_concurrent_remote_count s0 ∧ count_pre ss' s2
    ∧ ∀ d, 0 ≤ sel d (max_concurrent_remote_count s0) ≤ sel d (allocated_remote_count s2)) as (s2 & E & Hq & Es2 & Emc & Hp2 & Hc2).
  { subst stage. rewrite Hsd. destruct (bool_decide (StreamId.initiator id ≠ side s0)) eqn:Er; [rewrite Hfree by (by apply bool_decide_eq_true in Er); destruct (gone id s) |];
      cbn [andb] in Hpre.
    2,3: exists s; rewrite <- Hac in Hpre; split_and!; [done.. | by destruct s | by rewrite Hac].
    rewrite Hac. pose proof (ci_alloc _ _ Hpre d) as Ha. cbn -[sel live upd] in Ha. rewrite sel_upd, decide_True in Ha by done.
    pose proof (ci_alloc_le _ _ Hp d). pose proof (ci_remote _ _ Hp d).
    unfold wrapping_sub. rewrite wrap_small by (unfold is_u; lia).
    destruct (ensure_spec ss' d _ Hpre) as (s' & -> & Hp' & Ha' & Hne & Hs' & Hm' & Hq).
    - intros d'. cbn -[sel]. rewrite Hmr, Hmc. apply Hroom.
    - cbn -[sel]. rewrite Hmc. apply Hc.
    - exists s'. split_and!; [done | | by rewrite Hs' | by rewrite Hm' | done |].
      + etrans; [| exact Hq]. by apply quiet_same.
      + intros d'. destruct (decide (d' = d)) as [-> | Hd'].
        * rewrite Ha'. cbn -[sel upd]. rewrite Hmc. pose proof (Hc d). lia.
        * rewrite Hne by done. cbn -[sel upd]. rewrite sel_upd, decide_False by done. apply Hc. }
  rewrite E. unfold last. cbn [mbind option_bind]. destruct half.
  - eexists. split; [done |]. split; [| etrans; [exact Hq | by apply quiet_same]].
    unfold wrapping_sub. rewrite Es2, wrap_small by done. split; [by apply (count_pre_view _ s2) |].
    cbn -[sel]. by rewrite Emc.
  - exists s2. split; [done |]. split; [| done].
    split; [| by rewrite Emc]. rewrite Es2. subst ss'. rewrite Z.sub_0_r in Hp2. done.
Qed.

(** ** Operations *)

(** An operation succeeds, keeps the accounting, and leaves the sending side alone. *)
Definition keeps {A} (st : A → StreamsState) (s : StreamsState) (o : option A) : Prop :=
  ∃ a, o = Some a ∧ count_inv (st a) ∧ quiet s (st a).

Lemma keeps_Some {A} (st : A → StreamsState) s a : count_inv s → view (st a) = view s →
  send_streams (st a) = send_streams s → max_concurrent_remote_count (st a) = max_concurrent_remote_count s →
  send_view (st a) = send_view s → send (st a) = send s → keeps st s (Some a).
Proof.
  intros Hs Hv Hss Hmc Hsv Hsend. exists a. split_and!; [done | by apply (count_inv_view s) |].
  injection Hv. by intros; apply quiet_same.
Qed.

(** A stream that was received on is closed. *)
Lemma recv_freed_count id r s : count_inv s → room s → is_Some (recv s !! id) →
  keeps Datatypes.id s (stream_recv_freed id (ROpen r) (s <| recv := delete id (recv s) |>)).
Proof.
  intros Hs Hroom Hin. unfold stream_recv_freed. simpl.
  destruct (stream_freed_spec HalfRecv id s (s <| recv := delete id (recv s) |>
    <| free_recv := free_recv s ++ [RFree (Recv.reinit (stream_receive_window s) r)] |>) Hs Hroom) as (s' & E & Hs' & Hq).
  { split; [done | eauto]. }
  exists s'. split_and!; [exact E | exact Hs' |]. etrans; [| exact Hq]. by apply quiet_same.
Qed.

(** A frame of a stream within the limit opens it, and the ones before. *)
Lemma on_stream_frame_count b id s : count_inv s → 0 ≤ StreamId.index id →
  (StreamId.initiator id ≠ side s → StreamId.index id < sel (StreamId.dir id) (max_remote s)) →
  keeps Datatypes.id s (Some (on_stream_frame b id s)).
Proof.
  intros Hs H0 Hid. unfold on_stream_frame.
  case_bool_decide as Hi; [by destruct b; apply keeps_Some |]. specialize (Hid Hi).
  destruct (Z.leb_spec (sel (StreamId.dir id) (next_remote s)) (StreamId.index id)); [| by destruct b; apply keeps_Some].
  eexists. split_and!; [done | | by apply quiet_same]. destruct Hs as [Hp Hc]. split; [| done].
  set (d := StreamId.dir id) in *. destruct Hp as [Hids H1 H2 H3 H4 H5 H6 H7 H8].
  split; [by destruct Hids | done..| | | done | done | done]; cbn -[sel upd live known]; intros d'; rewrite sel_upd; specialize (H4 d'); specialize (H5 d');
    destruct (decide (d' = d)) as [-> |]; lia.
Qed.

Lemma keeps_bind {A B} (st : A → StreamsState) (st' : B → StreamsState) s o k :
  keeps st s o → (∀ a, o = Some a → count_inv (st a) → quiet s (st a) → keeps st' (st a) (k a)) → keeps st' s (o ≫= k).
Proof.
  intros (a & -> & Ha & Hq) Hk. destruct (Hk a eq_refl Ha Hq) as (b & Eb & Hb & Hq').
  exists b. split_and!; [done | done | by etrans].
Qed.

Lemma keeps_trans {A} (st : A → StreamsState) s s1 o : quiet s s1 → keeps st s1 o → keeps st s o.
Proof. intros Hq (a & -> & Ha & Hq'). exists a. split_and!; [done | done | by etrans]. Qed.

(** *** The maps with the same keys *)

Lemma get_recv_view id s r s1 : get_or_insert_recv id s = Some (r, s1) →
  view s1 = view s ∧ s1 = s <| recv := <[id := Some (ROpen r)]> (recv s) |> ∧ is_Some (recv s !! id).
Proof.
  unfold get_or_insert_recv. intros E. apply bind_Some in E as (o & Eo & E). injection E as <- <-.
  split_and!; [| done | by eexists]. unfold view. simpl.
  by rewrite dom_insert_lookup_L by (by eexists).
Qed.

Lemma put_recv_view id r s : is_Some (recv s !! id) → view (put_recv id r s) = view s.
Proof. intros H. unfold view. simpl. by rewrite dom_insert_lookup_L. Qed.

Lemma get_send_view id s ss s1 : get_or_insert_send id s = Some (ss, s1) →
  view s1 = view s ∧ s1 = s <| send := <[id := Some ss]> (send s) |> ∧ is_Some (send s !! id).
Proof.
  unfold get_or_insert_send. intros E. apply bind_Some in E as (o & Eo & E). injection E as <- <-.
  split_and!; [| done | by eexists]. unfold view. simpl.
  by rewrite dom_insert_lookup_L by (by eexists).
Qed.

Lemma put_send_view id ss s : is_Some (send s !! id) → view (put_send id ss s) = view s.
Proof. intros H. unfold view. simpl. by rewrite dom_insert_lookup_L. Qed.

Lemma credits_view n s : view (add_read_credits n s).1 = view s
  ∧ send_streams (add_read_credits n s).1 = send_streams s
  ∧ max_concurrent_remote_count (add_read_credits n s).1 = max_concurrent_remote_count s
  ∧ send_view (add_read_credits n s).1 = send_view s ∧ send (add_read_credits n s).1 = send s.
Proof. unfold add_read_credits. by repeat case_goal. Qed.

Lemma keeps_ret {A} (st : A → StreamsState) s a : keeps Datatypes.id s (Some (st a)) → keeps st s (Some a).
Proof. intros (s' & [= <-] & H). by exists a. Qed.

Ltac keep_same := apply keeps_Some; simpl; try done.

Ltac keep_credits :=
  match goal with |- context [add_read_credits ?n ?s] =>
    destruct (add_read_credits n s) as [? ?] eqn:Ecr; pose proof (credits_view n s) as (? & ? & ? & ? & ?);
    rewrite Ecr in *; keep_same
  end.

(** *** Frames received *)

Lemma validate_ok id s : validate_receive_id id s = Ok () →
  StreamId.initiator id ≠ side s → StreamId.index id < sel (StreamId.dir id) (max_remote s).
Proof.
  unfold validate_receive_id. case_bool_decide as E; [by intros _ [] |].
  destruct (Z.leb_spec (sel (StreamId.dir id) (max_remote s)) (StreamId.index id)); done.
Qed.

Lemma view_room s s' : view s' = view s → max_concurrent_remote_count s' = max_concurrent_remote_count s →
  room s → room s'.
Proof. intros Hv Hm Hr d. rewrite Hm. injection Hv as _ _ _ _ _ E _ _. rewrite E. apply Hr. Qed.

(** The end of a stream that may have been the last of its half. *)
Lemma maybe_freed_count (b : bool) id r s : count_inv s → room s → is_Some (recv s !! id) →
  keeps Datatypes.id s (if b then stream_recv_freed id (ROpen r) (s <| recv := delete id (recv s) |>) else Some s).
Proof. intros Hs Hroom Hin. destruct b; [by apply recv_freed_count | keep_same]. Qed.

Lemma index_nonneg id : is_u 64 id → 0 ≤ StreamId.index id.
Proof. intros [? ?]. unfold StreamId.index. apply Z.shiftr_nonneg. lia. Qed.

Lemma received_count frame len s : count_inv s → room s → is_u 64 (Frames.st_id frame) →
  keeps fst s (received frame len s).
Proof.
  intros Hs Hroom Hid. unfold received. set (id := Frames.st_id frame) in *.
  destruct (validate_receive_id id s) as [[] | e] eqn:Ev; [| keep_same]. pose proof (validate_ok _ _ Ev) as Hlim.
  destruct (get_or_insert_recv id s) as [[rs s1] |] eqn:Eg; [| keep_same].
  destruct (get_recv_view _ _ _ _ Eg) as (Hv & Es1 & Hin).
  case_goal; [rewrite Es1 in *; by keep_same |].
  destruct (Recv.ingest _ _ _ _ _) as [[[n closed] rs'] | e]; [| rewrite Es1 in *; by keep_same].
  set (s2 := put_recv id rs' s1 <| data_recvd := _ |>).
  assert (Hin1 : is_Some (recv s1 !! id)) by (rewrite Es1; simpl; rewrite lookup_insert_eq; eauto).
  assert (Hv2 : view s2 = view s) by (rewrite <- Hv; by apply (put_recv_view id rs' s1) in Hin1).
  assert (Hf2 : send_streams s2 = send_streams s ∧ max_concurrent_remote_count s2 = max_concurrent_remote_count s
    ∧ is_Some (recv s2 !! id) ∧ max_remote s2 = max_remote s ∧ side s2 = side s)
    by (subst s2; rewrite Es1; simpl; rewrite lookup_insert_eq; split_and!; eauto).
  assert (Hq2 : quiet s s2) by (subst s2; rewrite Es1; by apply quiet_same).
  destruct Hf2 as (Hss & Hmc & Hin2 & Hmr & Hsd). clearbody s2. clear Es1 Hin1 Hv.
  pose proof (count_inv_view _ _ Hv2 Hss Hmc Hs) as Hs2. apply (keeps_trans _ _ s2); [done |].
  case_goal.
  - apply keeps_ret. simpl. apply on_stream_frame_count; [done | by apply index_nonneg | by rewrite Hmr, Hsd].
  - eapply keeps_bind; [apply maybe_freed_count; [done | by apply (view_room s) | done] |].
    intros s3 _ Hs3 _. keep_credits.
Qed.

Lemma got_recv id s r s1 r' : count_inv s → room s → get_or_insert_recv id s = Some (r, s1) →
  keeps Datatypes.id s (Some s1)
  ∧ count_inv (put_recv id r' s1) ∧ room (put_recv id r' s1) ∧ is_Some (recv (put_recv id r' s1) !! id)
  ∧ quiet s (put_recv id r' s1).
Proof.
  intros Hs Hroom Eg. destruct (get_recv_view _ _ _ _ Eg) as (Hv & Es1 & Hin).
  assert (view (put_recv id r' s1) = view s) as Hv'.
  { rewrite <- Hv. apply put_recv_view. rewrite Es1. simpl. rewrite lookup_insert_eq. eauto. }
  split_and!.
  - rewrite Es1 in *. by keep_same.
  - apply (count_inv_view s); [done | by rewrite Es1.. | done].
  - apply (view_room s); [done | by rewrite Es1 | done].
  - simpl. rewrite lookup_insert_eq. eauto.
  - apply quiet_same; by rewrite Es1.
Qed.

Lemma received_reset_count frame s : count_inv s → room s → is_u 64 (Frames.rs_id frame) →
  keeps fst s (received_reset frame s).
Proof.
  intros Hs Hroom Hid. unfold received_reset. set (id := Frames.rs_id frame) in *.
  destruct (validate_receive_id id s) as [[] | e] eqn:Ev; [| keep_same]. pose proof (validate_ok _ _ Ev) as Hlim.
  destruct (get_or_insert_recv id s) as [[rs s1] |] eqn:Eg; [| keep_same].
  destruct (Recv.reset _ _ _ _ _) as [[b rs'] | e];
    [| apply keeps_ret; by apply (got_recv id s rs s1 rs)].
  destruct (got_recv id s rs s1 rs' Hs Hroom Eg) as (Hk & Hs2 & Hroom2 & Hin & Hq).
  destruct b; [| by apply keeps_ret].
  set (s2 := put_recv id rs' s1) in *. cbv zeta. apply (keeps_trans _ _ s2); [done |].
  eapply keeps_bind; [by apply maybe_freed_count |]. intros s3 _ Hs3 Hq3. unfold Datatypes.id in Hs3, Hq3.
  destruct (on_stream_frame_count (negb (Recv.stopped rs')) id s3 Hs3 (index_nonneg _ Hid)) as (s4 & [= <-] & Hs4 & Hq4).
  { pose proof (transitivity Hq Hq3) as Hq'. rewrite (quiet_side _ _ Hq'). intros Hne. specialize (Hlim Hne).
    pose proof (qu_remote _ _ Hq' (StreamId.dir id)). lia. }
  set (s4 := on_stream_frame _ _ s3) in *. clearbody s4.
  apply (keeps_trans _ _ s4); [exact Hq4 |]. clear -Hs4. case_goal; [| keep_same].
  apply (keeps_trans _ _ (s4 <| data_recvd := saturating_add 64 (data_recvd s4)
    (wrapping_sub 64 (Frames.final_offset frame) (Recv.end_ rs')) |>)); [by apply quiet_same |].
  keep_credits. by apply (count_inv_view s4).
Qed.

End StreamsCount.
