(* ===== verification/StreamsCountOps.v ===== *)
(** * Accounting of streams: the application's operations

    Opening, accepting, reading, writing and closing keep the accounting of [StreamsCount],
    and none of them fails. *)

From Stdlib Require Import String.
From stdpp Require Import gmap fin_maps fin_sets.
From S2P Require Import Prelude BTree RangeSets Coding SendBuf Assembler Frames Sums.
From S2P Require Import StreamSend StreamRecv TransportParams StreamQueue Streams StreamsSend StreamsRecvProofs StreamsCount.

Module StreamsCountOps.
Import StreamsState StreamsSend StreamsRecvProofs StreamsCount.

(** ** Receiving *)

Lemma stop_count id code pending s : count_inv s → room s → keeps snd s (stop id code pending s).
Proof.
  intros Hs Hroom. unfold stop. destruct (get_or_insert_recv id s) as [[r s1] |] eqn:Eg; [| keep_same].
  destruct (Recv.stop r) as [[[n st] r'] | e]; [| apply keeps_ret; by apply (got_recv id s r s1 r)].
  destruct (got_recv id s r s1 r' Hs Hroom Eg) as (Hk & Hs2 & Hroom2 & Hin & Hq).
  set (s2 := put_recv id r' s1) in *. cbv zeta. apply (keeps_trans _ _ s2); [done |].
  eapply keeps_bind; [by apply maybe_freed_count |]. intros s3 _ Hs3 _. keep_credits.
Qed.

Lemma observe_reset_count id pending s : count_inv s → room s → keeps snd s (observe_reset id pending s).
Proof.
  intros Hs Hroom. unfold observe_reset.
  destruct (recv s !! id) as [[[r | r] |] |] eqn:Er; [keep_same | | keep_same | keep_same].
  case_goal; [keep_same |]. destruct (Recv.reset_code r); [| keep_same].
  eapply keeps_bind; [apply recv_freed_count; eauto |]. intros s1 _ Hs1 _. keep_same.
Qed.

(** While a stream is being read, either it is missing from the map of [s0], or it is closed. *)
Definition reading (id : Z) (s0 : StreamsState) (ch : Chunks) (s : StreamsState) : Prop :=
  ch_id ch = id
  ∧ match ch_state ch with
    | ChReadable _ => s = s0 <| recv := delete id (recv s0) |>
    | ChFinalized => False
    | _ => keeps Datatypes.id s0 (Some s)
    end.

Lemma chunks_next_count n id s0 ch s : count_inv s0 → room s0 → is_Some (recv s0 !! id) → reading id s0 ch s →
  ∃ r ch' s', chunks_next n ch s = Some (r, ch', s') ∧ reading id s0 ch' s'.
Proof.
  intros Hs Hroom Hin [Hid Hr]. unfold chunks_next, reading in *.
  destruct (ch_state ch) as [rs | | |] eqn:Ech; [| by do 3 eexists; rewrite Ech.. | done].
  destruct (Assembler.read _ _ _) as [[c |] a]; [by do 3 eexists |]. simpl.
  destruct (recv_freed_count id (rs <| Recv.assembler := a |>) s0 Hs Hroom Hin) as (s1 & E1 & H1).
  destruct (Recv.state rs); [| rewrite Hid, Hr, E1; do 3 eexists; split; [done |]; split; [done |]; by exists s1].
  case_goal; [rewrite Hid, Hr, E1; do 3 eexists; split; [done |]; split; [done |]; by exists s1 | by do 3 eexists].
Qed.

Lemma chunks_all_count lens : ∀ id s0 ch s, count_inv s0 → room s0 → is_Some (recv s0 !! id) → reading id s0 ch s →
  ∃ r ch' s', chunks_all lens ch s = Some (r, ch', s') ∧ reading id s0 ch' s'.
Proof.
  induction lens as [|n lens IH]; intros id s0 ch s Hs Hroom Hin Hr; simpl; [by do 3 eexists |].
  destruct (chunks_next_count n id s0 ch s Hs Hroom Hin Hr) as (r & ch1 & s1 & -> & Hr1). simpl.
  destruct (IH id s0 ch1 s1 Hs Hroom Hin Hr1) as (rs & ch2 & s2 & -> & Hr2). simpl. by do 3 eexists.
Qed.

Lemma finalize_count pending id s0 ch s : count_inv s0 → is_Some (recv s0 !! id) → reading id s0 ch s →
  keeps Datatypes.id s0 (Some (finalize_inner pending ch s).2).
Proof.
  intros Hs Hin [Hid Hr]. unfold finalize_inner.
  destruct (ch_state ch) as [rs | | |]; [| destruct (queue_max_stream_id pending s).. | done].
  - subst s. destruct (queue_max_stream_id _ _). destruct (Recv.max_stream_data _ _) as [m due]. rewrite Hid.
    set (s1 := put_recv id rs _). assert (Hk : keeps Datatypes.id s0 (Some s1)).
    { keep_same. unfold view. simpl. by rewrite insert_delete_eq, dom_insert_lookup_L. }
    destruct Hk as (? & [= <-] & Hs1 & Hq). apply (keeps_trans _ _ _ _ Hq). clearbody s1. keep_credits.
  - destruct Hr as (? & [= <-] & Hs1 & Hq). apply (keeps_trans _ _ _ _ Hq). keep_credits.
  - destruct Hr as (? & [= <-] & Hs1 & Hq). apply (keeps_trans _ _ _ _ Hq). keep_credits.
Qed.

Lemma read_session_count id lens pending s : count_inv s → room s → recv_wf s →
  keeps snd s (read_session id lens pending s).
Proof.
  intros Hs Hroom Hwf. unfold read_session, chunks_new.
  destruct (get_or_insert_recv id s) as [[r s1] |] eqn:Eg; [| keep_same].
  destruct (get_recv _ _ _ _ Hwf Eg) as (_ & _ & Hok & _ & _).
  destruct (get_recv_view _ _ _ _ Eg) as (Hv & Es1 & Hin).
  assert (Hk : keeps Datatypes.id s (Some s1)) by (rewrite Es1 in *; by keep_same).
  destruct (Recv.stopped r); [by apply keeps_ret |].
  unfold Assembler.ensure_ordering. rewrite (AssemblerBounds.ok_ordered _ _ (Recv.ro_asm _ _ Hok)). cbn [andb negb Assembler.is_ordered].
  destruct Hk as (? & [= <-] & Hs1 & Hq). apply (keeps_trans _ _ _ _ Hq).
  assert (Hroom1 : room s1) by (apply (view_room s); [done | by rewrite Es1 | done]).
  assert (Hin1 : is_Some (recv s1 !! id)) by (rewrite Es1; simpl; rewrite lookup_insert_eq; eauto).
  match goal with |- context [chunks_all lens ?ch ?s] =>
    destruct (chunks_all_count lens id s1 ch s Hs1 Hroom1 Hin1) as (rs & ch' & s2 & -> & Hr); [done |] end.
  simpl. pose proof (finalize_count pending id s1 ch' s2 Hs1 Hin1 Hr) as Hf.
  destruct (finalize_inner pending ch' s2) as [[[t pend] ch''] s3]. by apply keeps_ret.
Qed.

(** ** Opening and accepting *)

Lemma set_max_concurrent_count d n s : count_inv s → 0 ≤ n → sel d (max_remote s) + n ≤ 2 ^ 60 → room s →
  keeps Datatypes.id s (set_max_concurrent d n s).
Proof.
  intros [Hp Hc] Hn Hn' Hroom. unfold set_max_concurrent. set (s1 := s <| flow_control_adjusted := true |> <| max_concurrent_remote_count := _ |>).
  assert (Hp1 : count_pre (send_streams s) s1) by (by apply (count_pre_view _ s)).
  destruct (ensure_spec (send_streams s) d s1 Hp1) as (s' & -> & Hp' & Ha & Hne & Hss & Hmc & Hq).
  - intros d'. cbn -[sel upd]. rewrite sel_upd. specialize (Hroom d'). destruct (decide (d' = d)) as [-> |]; lia.
  - cbn -[sel upd]. rewrite sel_upd, decide_True by done. lia.
  - exists s'. split_and!; [done | | etrans; [| exact Hq]; by apply quiet_same]. unfold Datatypes.id; split; [by rewrite Hss |].
    rewrite Hmc. intros d'. destruct (decide (d' = d)) as [-> | Hd']; [rewrite Ha | rewrite Hne by done];
      cbn -[sel upd]; rewrite sel_upd; [rewrite decide_True by done; lia | rewrite decide_False by done; apply Hc].
Qed.

Lemma filter_known_add s s' id : dom (send s') = {[id]} ∪ dom (send s) →
  (∀ i, i ≠ id → i ∈ dom (send s) → known s' i ↔ known s i) → known s' id → ¬ (known s id ∧ id ∈ dom (send s)) →
  Z.of_nat (size (filter (known s') (dom (send s')))) = Z.of_nat (size (filter (known s) (dom (send s)))) + 1.
Proof.
  intros Ed Hk Hid Hnid. rewrite (size_add (filter (known s) (dom (send s))) _ id); [lia | |].
  - rewrite elem_of_filter. naive_solver.
  - apply set_eq. intros i. rewrite elem_of_union, !elem_of_filter, Ed, elem_of_union, elem_of_singleton.
    destruct (decide (i = id)) as [-> |]; [naive_solver |]. specialize (Hk i n). naive_solver.
Qed.

(** The identifier of a new local stream. *)
Lemma local_fresh d s : count_inv s → sel d (next s) < 2 ^ 60 →
  let id := StreamId.new (side s) d (sel d (next s)) in send s !! id = None ∧ recv s !! id = None.
Proof.
  intros [Hp _] Hn id. pose proof (ci_next _ _ Hp d) as Hnx.
  destruct (StreamId.new_spec (side s) d (sel d (next s))) as (Hi & Hd & Hx & _); [unfold is_u; lia |].
  fold id in Hi, Hd, Hx. destruct (ci_ids _ _ Hp) as [Hs Hr].
  split; apply eq_None_not_Some; intros Hin; [apply Hs in Hin as [[_ Hin] _] | apply Hr in Hin as [[_ Hin] _]];
    rewrite Hi, decide_True, Hd, Hx in Hin by done; lia.
Qed.

(** One local stream more. *)
Lemma open_pre d s m f : count_inv s → sel d (next s) < 2 ^ 60 →
  let id := StreamId.new (side s) d (sel d (next s)) in
  count_pre (send_streams s + 1)
    (s <| next := upd d (sel d (next s) + 1) (next s) |> <| send := <[id := None]> (send s) |> <| free_recv := f |>
       <| recv := if bool_decide (d = Frames.Bi) then <[id := m]> (recv s) else recv s |>).
Proof.
  intros Hs Hn id. destruct (local_fresh d s Hs Hn) as [Hfs Hfr]. fold id in Hfs, Hfr. destruct Hs as [Hp _].
  pose proof (ci_next _ _ Hp d) as Hnx. assert (Hu : is_u 62 (sel d (next s))) by (unfold is_u; lia).
  destruct (StreamId.new_spec (side s) d (sel d (next s)) Hu) as (Hi & Hd & Hx & Hid). fold id in Hi, Hd, Hx, Hid.
  destruct Hp as [[His Hir] H1 H2 H3 H4 H5 H6 H7 H8].
  set (s' := s <| next := _ |> <| send := _ |> <| free_recv := f |> <| recv := _ |>).
  assert (Hsel : ∀ d', sel d' (next s) ≤ sel d' (next s')).
  { intros d'. cbn -[sel upd]. rewrite sel_upd. destruct (decide (d' = d)) as [-> |]; lia. }
  assert (Hb : ∀ i, below (max_remote s) s i → below (max_remote s) s' i).
  { intros i [Hu' Hb]. split; [done |]. specialize (Hsel (StreamId.dir i)). change (side s') with (side s).
    destruct (decide _); lia. }
  assert (Hbid : below (max_remote s) s' id).
  { split; [done |]. rewrite Hi, decide_True, Hd, Hx by done. cbn -[sel upd]. rewrite sel_upd, decide_True by done. lia. }
  split; try done.
  - split; intros i Hin; cbn -[sel upd below] in Hin |- *.
    + apply lookup_insert_is_Some in Hin as [<- | [_ Hin]]; [by split; [| left] |]. apply His in Hin as [? ?]. split; [by apply Hb | done].
    + case_bool_decide as Hbi; [apply lookup_insert_is_Some in Hin as [<- | [_ Hin]]; [by split; [| right; rewrite Hd] |] |];
        apply Hir in Hin as [? ?]; (split; [by apply Hb | done]).
  - intros d'. cbn -[sel upd]. rewrite sel_upd. specialize (H1 d'). destruct (decide (d' = d)) as [-> |]; lia.
  - intros d'. cbn -[sel upd live]. rewrite H2. f_equal. apply f_equal. unfold live. apply set_eq. intros i. cbn -[sel upd].
    rewrite !elem_of_filter, !elem_of_union, !elem_of_dom. destruct (decide (i = id)) as [-> | Hne]; [naive_solver |].
    rewrite lookup_insert_ne by done. case_bool_decide; [by rewrite lookup_insert_ne |]. done.
  - intros i Hi'. cbn -[sel upd]. apply lookup_insert_is_Some'. right. by apply H6.
  - rewrite H7. symmetry. apply (filter_known_add s s' id).
    + cbn -[sel upd]. by rewrite dom_insert_L.
    + intros i Hne Hin. apply elem_of_dom, His in Hin as [[Hui Hbi] _]. unfold known. change (side s') with (side s).
      destruct (decide (StreamId.initiator i = side s)) as [Ei |]; [| done]. cbn -[sel upd]. rewrite sel_upd.
      destruct (decide (StreamId.dir i = d)) as [Edi |]; [| done]. rewrite Edi in *. lia.
    + unfold known. rewrite Hi, decide_True, Hd, Hx by done. cbn -[sel upd]. rewrite sel_upd, decide_True by done. lia.
    + rewrite elem_of_dom, Hfs. by intros [_ []].
  - cbn -[sel upd]. pose proof (Hsel Frames.Bi). pose proof (Hsel Frames.Uni).
    assert (sel Frames.Bi (next s') + sel Frames.Uni (next s') = sel Frames.Bi (next s) + sel Frames.Uni (next s) + 1).
    { cbn -[sel upd]. rewrite !sel_upd. destruct d; simpl; lia. }
    cbn -[sel upd] in *. lia.
Qed.

Lemma open_count closed d s : count_inv s → sel d (max s) ≤ 2 ^ 60 → keeps snd s (open closed d s).
Proof.
  intros Hs Hmax. unfold open. destruct closed; [keep_same |].
  destruct (Z.leb_spec (sel d (max s)) (sel d (next s))); [keep_same |].
  destruct (local_fresh d s Hs ltac:(lia)) as [Hfs Hfr].
  set (s1 := s <| next := _ |>).
  assert (StreamId.new (side s1) d (sel d (next s1) - 1) = StreamId.new (side s) d (sel d (next s))) as ->.
  { subst s1. cbn -[sel upd]. rewrite sel_upd, decide_True by done. f_equal. lia. }
  set (id := StreamId.new _ _ _) in *.
  destruct (insert_fresh false id s1 Hfs Hfr) as (f & m & -> & _). rewrite orb_true_r, orb_false_r. cbn [mbind option_bind].
  destruct (StreamId.new_spec (side s) d (sel d (next s))) as (Hi & Hd & Hx & _).
  { destruct Hs as [Hp _]. pose proof (ci_next _ _ Hp d). unfold is_u. lia. }
  fold id in Hi, Hd, Hx. rewrite Hd. pose proof (open_pre d s m f Hs ltac:(lia)) as Hp'.
  eexists. split_and!; [done | split | split].
  - by eapply count_pre_view; [| apply Hp'].
  - by destruct Hs as [_ Hc].
  - done.
  - done.
  - intros i. unfold known. cbn -[sel upd]. rewrite sel_upd. destruct (decide _), (decide (StreamId.dir i = d)) as [-> |]; lia.
  - intros i. cbn -[sel upd]. destruct (decide (i = id)) as [-> |]; [right | left; by rewrite lookup_insert_ne].
    rewrite lookup_insert_eq. split_and!; [done | done |]. unfold known. rewrite Hi, decide_True, Hd, Hx by done. lia.
Qed.

Lemma accept_count d s : count_inv s → keeps snd s (Some (accept d s)).
Proof.
  intros Hs. unfold accept. destruct (Z.eqb_spec (sel d (next_remote s)) (sel d (next_reported_remote s))); [keep_same |].
  set (x := sel d (next_reported_remote s)) in *. destruct Hs as [[[His Hir] H1 H2 H3 H4 H5 H6 H7 H8] Hc].
  pose proof (H4 d) as H4d. pose proof (H5 d) as H5d. fold x in H4d.
  destruct (StreamId.new_spec (other (side s)) d x) as (Hi & Hd & Hx & Hid); [unfold is_u; lia |].
  set (id := StreamId.new (other (side s)) d x) in *. pose proof (other_ne (side s)) as Hother.
  set (s1 := s <| next_reported_remote := _ |>).
  assert (Hk : ∀ i, i ≠ id → i ∈ dom (send s) → known s1 i ↔ known s i).
  { intros i Hne Hin. apply elem_of_dom, His in Hin as [[Hui _] _]. unfold known. change (side s1) with (side s).
    destruct (decide (StreamId.initiator i = side s)) as [Ei | Ei]; [done |]. cbn -[sel upd]. rewrite sel_upd.
    destruct (decide (StreamId.dir i = d)) as [Edi |]; [| done]. rewrite Edi.
    assert (StreamId.index i ≠ x); [| lia]. intros Ex. apply Hne.
    rewrite <- (proj1 (StreamId.new_parts i Hui)), Edi, Ex. unfold id. f_equal.
    by destruct (StreamId.initiator i), (side s). }
  assert (Hp1 : ∀ ss, ss = Z.of_nat (size (filter (known s1) (dom (send s1)))) →
    ss ≤ send_streams s + Z.b2z (bool_decide (d = Frames.Bi)) → count_pre ss s1).
  { intros ss Hss Hle. split; try done.
    - intros d'. cbn -[sel upd]. rewrite sel_upd. specialize (H4 d'). destruct (decide (d' = d)) as [-> |]; lia.
    - intros i Hi'. apply H6. cbn -[sel upd] in Hi'. rewrite sel_upd in Hi'. destruct (decide (Frames.Bi = d)) as [<- |]; lia.
    - cbn -[sel upd]. rewrite sel_upd. destruct d; simpl in *; lia. }
  assert (Hq : quiet s s1).
  { split; [done | done | | by left]. intros i. unfold known. cbn -[sel upd]. rewrite sel_upd.
    destruct (decide _), (decide (StreamId.dir i = d)) as [-> |]; lia. }
  destruct d; eexists; (split_and!; [done | split; [| done] | etrans; [exact Hq | by apply quiet_same]]); unfold Datatypes.id.
  - eapply count_pre_view; [| apply Hp1]; [done | | simpl; lia].
    simpl. rewrite H7. symmetry. apply (filter_known_add s s1 id); [| done | |].
    + assert (id ∈ dom (send s)); [| set_solver]. apply elem_of_dom, H6. lia.
    + unfold known. rewrite Hi, decide_False, Hd, Hx by done. simpl. lia.
    + unfold known. rewrite Hi, decide_False, Hd, Hx by done. subst x. lia.
  - apply Hp1; [| simpl; lia]. simpl. rewrite H7. do 2 f_equal. apply set_eq. intros i. rewrite !elem_of_filter.
    destruct (decide (i = id)) as [-> |]; [| specialize (Hk i); naive_solver].
    assert (id ∉ dom (send s)); [| naive_solver]. intros Hin. apply elem_of_dom, His in Hin as [_ [|]]; congruence.
Qed.

(** ** The initial state *)

Lemma new_count side nu nb sw rw srw : 0 ≤ nu ≤ 2 ^ 60 → 0 ≤ nb ≤ 2 ^ 60 →
  ∃ s, new side nu nb sw rw srw = Some s ∧ count_inv s
  ∧ ∃ m1 f m2, s = mk_streams side m1 m2 f (0, 0) (0, 0) (nb, nu) (nb, nu) (nb, nu) (nb, nu) false (0, 0) (false, false)
    (0, 0) 0 PendingStreamsQueue.new [] [] 0 rw rw rw 0 0 0 sw srw 0 0 0 0
    ∧ ∀ id o, m1 !! id = Some o → o = None.
Proof.
  intros Hnu Hnb. unfold new. set (s0 := mk_streams _ _ _ _ _ _ _ _ _ _ _ _ _ _ _ _ _ _ _ _ _ _ _ _ _ _ _ _ _ _ _).
  assert (Hok0 : ids_ok (0, 0) s0) by (split; intros id; simpl; rewrite lookup_empty; by intros []).
  destruct (insert_remote_spec Frames.Bi (Z.to_nat nb) (0, 0) s0 Hok0) as (s1 & E1 & Hg1 & Hok1 & Hl1 & _ & Hb1); [simpl; lia.. |].
  simpl in E1. rewrite E1. simpl. clear E1. simpl in Hok1. rewrite Z2Nat.id in * by lia.
  destruct (insert_remote_spec Frames.Uni (Z.to_nat nu) (nb, 0) s1 Hok1) as (s2 & E2 & Hg2 & Hok2 & Hl2 & _ & _); [simpl; lia.. |].
  simpl in E2. rewrite E2. exists s2. split; [done |]. simpl in Hok2. rewrite Z2Nat.id in * by lia.
  assert (Hl0 : ∀ d, size (live d s0) = 0%nat).
  { intros d. apply size_empty_iff. unfold live. simpl. set_solver. }
  assert (Hside1 : StreamsState.side s1 = side) by (by destruct Hg1 as (? & ? & ? & -> & _)).
  assert (Hb2 : ∀ i, 0 ≤ i < nb → is_Some (send s2 !! StreamId.new (other side) Frames.Bi i)).
  { intros i Hi. destruct (Hb1 eq_refl i) as [o Ho]; [simpl; lia |]. destruct Hg2 as (m1 & f & m2 & -> & Hm & _). simpl.
    simpl in Ho. destruct (Hm (StreamId.new (other side) Frames.Bi i)) as [E | [E _]]; [rewrite E; eauto | congruence]. }
  assert (Hl : ∀ d, Z.of_nat (size (live d s2)) = sel d (nb, nu)).
  { intros d. rewrite Hl2, Hl1, Hl0. destruct d; simpl; lia. }
  destruct (grown_trans _ _ _ Hg1 Hg2) as (m1 & f & m2 & -> & Hm1 & _). clear E2 Hl1 Hl2 Hok1 Hg1 Hg2.
  split; [| exists m1, f, m2; split; [done |]].
  2:{ intros id o Ho. destruct (Hm1 id) as [E | [_ E]]; [rewrite Ho in E; simpl in E; by rewrite lookup_empty in E | congruence]. }
  split; [| intros [|]; simpl; lia]. split; try done; try (intros [|]; simpl; lia).
  - simpl. symmetry. assert (filter (known (s0 <| send := m1 |> <| free_recv := f |> <| recv := m2 |>)) (dom m1) = ∅) as ->; [| done].
    apply set_eq. intros id. rewrite elem_of_filter, elem_of_empty, elem_of_dom. split; [| done]. intros [Hk Hin].
    apply (io_send _ _ Hok2) in Hin as [[Hid _] _]. apply index_nonneg in Hid. unfold known in Hk.
    destruct (decide _), (StreamId.dir id); simpl in Hk; lia.
Qed.

End StreamsCountOps.
