(* ===== verification/StreamsSendProofs.v ===== *)
(** * Accounting of outgoing data

    What the sending side of all streams keeps: every byte written on a stream is
    acknowledged, queued or in flight exactly once, the connection's counters of sent and of
    unacknowledged bytes are exact and within the peer's and the local limits, and every
    stream with something to send is scheduled. *)

From Stdlib Require Import String.
From stdpp Require Import gmap fin_maps fin_sets.
From S2P Require Import Prelude BTree RangeSets Coding SendBuf Assembler Frames Sums.
From S2P Require Import StreamSend StreamRecv TransportParams StreamQueue Streams StreamsSend StreamsRecvProofs StreamsCount StreamsCountOps.

Module StreamsSendProofs.
Import StreamsState StreamsSend StreamsCount.

(** ** The buffer of a stream *)

(** [d] has been written, and the ranges [fl] are in flight. *)
Definition buffered (d : list Z) (fl : list range) (b : SendBuffer.SendBuffer) : Prop :=
  SendBuffer.inv (SendBuffer.mk_system d fl b).

#[global] Instance buffered_proper d : Proper ((≡ₚ) ==> (=) ==> iff) (buffered d).
Proof.
  assert (∀ fl fl' b, fl ≡ₚ fl' → buffered d fl b → buffered d fl' b) as H.
  { intros fl fl' b Hp [Hb Hf Ho]. split; [done | simpl in *; by rewrite <- Hp |]. intros x Hx. etrans; [| exact (Ho x Hx)].
    unfold SendBuffer.owners. simpl. f_equal. clear -Hp. induction Hp; simpl; lia. }
  intros fl fl' Hp b ? <-. split; by apply H.
Qed.

Lemma buffered_len d fl b : buffered d fl b → SendBuffer.offset b = zlen d.
Proof. intros H. apply (SendBuffer.bi_offset _ _ (SendBuffer.inv_buf _ H)). Qed.

Lemma acks_lt d fl b x : buffered d fl b → mem x (SendBuffer.acks b) → x < SendBuffer.offset b.
Proof.
  intros H Hx. pose proof (SendBuffer.inv_buf _ H) as Hb. simpl in Hb.
  pose proof (SendBuffer.bi_unsent _ _ Hb). pose proof (SendBuffer.base_offset_nonneg b).
  pose proof (canon_mem_gt _ _ _ (SendBuffer.bi_acks _ _ Hb) Hx).
  enough (x < SendBuffer.unsent b) by lia. apply (SendBuffer.acked_lt_unsent _ H); [lia |].
  unfold SendBuffer.acked_b. apply orb_true_iff. right. by apply memb_spec.
Qed.

Lemma unacked_count d fl b : buffered d fl b →
  SendBuffer.unacked b = SendBuffer.count_from (λ x, negb (SendBuffer.acked_b b x)) 0 (Z.to_nat (zlen d)).
Proof.
  intros H. rewrite <- (buffered_len _ _ _ H). apply (SendBuffer.unacked_spec d); [apply (SendBuffer.inv_buf _ H) |].
  intros x. by apply (acks_lt d fl).
Qed.

(** Counting without a range that was counted. *)
Lemma count_without f g r n : 0 ≤ r.1 ≤ r.2 → r.2 ≤ Z.of_nat n →
  (∀ x, 0 ≤ x < Z.of_nat n → g x = f x && negb (range_contains r x)) →
  (∀ x, in_range x r → f x = true) →
  SendBuffer.count_from g 0 n = SendBuffer.count_from f 0 n - (r.2 - r.1).
Proof.
  intros Hr Hn Hg Hf.
  replace n with (Z.to_nat r.1 + (Z.to_nat (r.2 - r.1) + Z.to_nat (Z.of_nat n - r.2)))%nat in * by lia.
  rewrite !SendBuffer.count_from_app.
  rewrite (SendBuffer.count_from_const g false (Z.to_nat (r.2 - r.1))), (SendBuffer.count_from_const f true (Z.to_nat (r.2 - r.1))).
  - rewrite (SendBuffer.count_from_ext g f), (SendBuffer.count_from_ext g f); [simpl; lia | |].
    all: intros x Hx; rewrite Hg by lia; unfold range_contains; rewrite andb_comm;
      destruct (Z.leb_spec r.1 x), (Z.ltb_spec x r.2); try done; lia.
  - intros x Hx. apply Hf. unfold in_range. lia.
  - intros x Hx. rewrite Hg by lia. rewrite (proj2 (range_contains_spec r x)) by (unfold in_range; lia). apply andb_false_r.
Qed.

(** An acknowledged range leaves the flight; its bytes are counted off. *)
Lemma buffered_ack d fl r b : buffered d (r :: fl) b →
  ∃ b', SendBuffer.ack r b = Some b' ∧ buffered d fl b' ∧ SendBuffer.unacked b' = SendBuffer.unacked b - (r.2 - r.1)
    ∧ SendBuffer.has_unsent_data b' = SendBuffer.has_unsent_data b.
Proof.
  intros H. pose proof (buffered_len _ _ _ H) as Hlen.
  destruct (SendBuffer.flight_lt_unsent _ H 0%nat r eq_refl) as [Hr Hr2]. simpl in Hr2.
  pose proof (SendBuffer.inv_buf _ H) as Hb. simpl in Hb. pose proof (SendBuffer.bi_unsent _ _ Hb).
  destruct (SendBuffer.inv_acked _ H 0%nat) as (s' & E & Hs' & _). simpl in E. apply bind_Some in E as (b' & Eb & E). simplify_eq.
  destruct (SendBuffer.ack_spec d b r Hb) as (b2 & Eb2 & _ & Hoff & Hun & Hrt & Ha).
  { intros x Hx Hxa. pose proof (SendBuffer.acked_lt_unsent _ H x Hx Hxa). simpl in *. lia. }
  { lia. }
  simplify_eq. exists b'. split_and!; [done | exact Hs' | | unfold SendBuffer.has_unsent_data; by rewrite Hun, Hrt, Hoff].
  rewrite (unacked_count _ _ _ Hs'), (unacked_count _ _ _ H). simpl.
  apply count_without; [lia | lia | |].
  - intros x Hx. rewrite Ha by lia. by rewrite negb_orb.
  - intros x Hx. apply negb_true_iff.
    apply (SendBuffer.flight_exclusive _ H 0%nat r x eq_refl); [unfold in_range in Hx; lia | by apply range_contains_spec].
Qed.

(** An acknowledged frame without data changes nothing. *)
Lemma buffered_ack_empty d fl r b : buffered d fl b → 0 ≤ r.1 → r.2 ≤ r.1 → r.1 ≤ zlen d →
  ∃ b', SendBuffer.ack r b = Some b' ∧ buffered d fl b' ∧ SendBuffer.unacked b' = SendBuffer.unacked b
    ∧ SendBuffer.has_unsent_data b' = SendBuffer.has_unsent_data b.
Proof.
  intros H Hr0 Hr Hd. pose proof (SendBuffer.inv_buf _ H) as Hb. simpl in Hb. pose proof (SendBuffer.bi_unsent _ _ Hb).
  pose proof (buffered_len _ _ _ H) as Hlen.
  destruct (SendBuffer.ack_spec d b r Hb) as (b' & Eb & Hb' & Hoff & Hun & Hrt & Ha).
  { intros x Hx Hxa. pose proof (SendBuffer.acked_lt_unsent _ H x Hx Hxa). simpl in *. lia. }
  { lia. }
  assert (Hc : ∀ x, range_contains r x = false).
  { intros x. unfold range_contains. destruct (Z.leb_spec r.1 x), (Z.ltb_spec x r.2); try done. lia. }
  assert (Hs' : buffered d fl b').
  { destruct H as [_ Hf Ho]. split; [done | done |]. intros x Hx. specialize (Ho x Hx). unfold SendBuffer.owners in *. simpl in *.
    rewrite Ha, Hc, orb_false_r, Hrt, Hun by done. exact Ho. }
  exists b'. split_and!; [done | done | | unfold SendBuffer.has_unsent_data; by rewrite Hun, Hrt, Hoff].
  rewrite (unacked_count _ _ _ Hs'), (unacked_count _ _ _ H). apply SendBuffer.count_from_ext. intros x Hx. rewrite Ha, Hc by lia. by rewrite orb_false_r.
Qed.

Lemma buffered_lost d fl r b : buffered d (r :: fl) b → buffered d fl (SendBuffer.retransmit r b).
Proof.
  intros H. destruct (SendBuffer.inv_lost _ H 0%nat) as (s' & E & Hs' & _). simpl in E. by simplify_eq.
Qed.

Lemma retransmit_empty r b : r.2 ≤ r.1 → SendBuffer.retransmit r b = b.
Proof.
  intros Hr. unfold SendBuffer.retransmit, RangeSet.insert, range_is_empty.
  destruct (Z.ltb_spec r.1 r.2); [lia |]. by destruct b.
Qed.

Lemma buffered_write cs : ∀ d fl b, buffered d fl b →
  buffered (d ++ concat cs) fl (fold_left (λ b c, SendBuffer.write c b) cs b)
  ∧ SendBuffer.unacked (fold_left (λ b c, SendBuffer.write c b) cs b) = SendBuffer.unacked b + zlen (concat cs).
Proof.
  induction cs as [|c cs IH]; intros d fl b H; simpl; [rewrite app_nil_r, zlen_nil; split; [done | lia] |].
  destruct (IH (d ++ c) fl (SendBuffer.write c b)) as [H1 H2]; [exact (SendBuffer.inv_write _ H c) |].
  rewrite <- app_assoc in H1. split; [done |]. rewrite H2, zlen_app. unfold SendBuffer.unacked. simpl. lia.
Qed.

(** ** All streams *)

(** What the frames of a stream that are in flight hold. *)
Definition metas_of (id : Z) (fl : list Frames.StreamMeta) : list Frames.StreamMeta :=
  filter (λ m, Frames.m_id m = id) fl.
Definition ranges (ms : list Frames.StreamMeta) : list range := filter (λ r : range, r.1 < r.2) (Frames.m_offsets <$> ms).

(** A stream on which [d] was written and the frames [ms] are in flight. *)
Record stream_sent (d : list Z) (ms : list Frames.StreamMeta) (ss : Send.Send) : Prop := {
  st_offset : Send.offset ss = zlen d;
  st_limit : zlen d ≤ Send.max_data ss < 2 ^ 62;
  st_frames : Forall (λ m, let r := Frames.m_offsets m in 0 ≤ r.1 ≤ r.2 ∧ r.2 ≤ zlen d) ms;
  st_buffer : Send.is_reset ss = false → buffered d (ranges ms) (Send.pending ss);
  st_fin : Send.state ss = Send.DataSent false → Send.fin_pending ss = true ∨ Exists (λ m, Frames.m_fin m = true) ms;
}.

(** The bytes of a stream that count as unacknowledged. *)
Definition unacked_of (o : option Send.Send) : Z :=
  match o with Some ss => if Send.is_reset ss then 0 else SendBuffer.unacked (Send.pending ss) | None => 0 end.

Definition stream_data (wr : gmap Z (list Z)) (id : Z) : list Z := default [] (wr !! id).

Definition queued (q : PendingStreamsQueue.PendingStreamsQueue) : list Z :=
  PendingStreamsQueue.p_id <$> PendingStreamsQueue.iter q.

(** [wr] is everything written, [fl] the frames in flight. *)
Record send_inv (wr : gmap Z (list Z)) (fl : list Frames.StreamMeta) (s : StreamsState) : Prop := {
  si_stream id ss : send s !! id = Some (Some ss) → stream_sent (stream_data wr id) (metas_of id fl) ss;
  si_none id : send s !! id = Some None → stream_data wr id = [] ∧ metas_of id fl = [];
  si_unknown id : ¬ known s id → stream_data wr id = [];
  si_state id ss : send s !! id = Some (Some ss) → Send.state ss ≠ Send.Ready → known s id;
  si_flight : Forall (λ m, known s (Frames.m_id m)) fl;
  si_queued : Forall (known s) (queued (pending s));
  si_pending id ss : send s !! id = Some (Some ss) → Send.is_reset ss = false → Send.is_pending ss = true →
    id ∈ queued (pending s);
  si_unacked : unacked_data s = msum unacked_of (send s);
  si_window : unacked_data s ≤ send_window s < 2 ^ 64;
  si_data : 0 ≤ data_sent s ≤ max_data s ∧ max_data s < 2 ^ 62;
  si_params id : 0 ≤ max_send_data id s < 2 ^ 62;
}.

#[global] Instance stream_sent_proper d : Proper ((≡ₚ) ==> (=) ==> iff) (stream_sent d).
Proof.
  assert (∀ ms ms' ss, ms ≡ₚ ms' → stream_sent d ms ss → stream_sent d ms' ss) as H.
  { intros ms ms' ss Hp []. split; [done | done | by rewrite <- Hp | | by rewrite <- Hp].
    intros Hr. unfold ranges. rewrite <- Hp. by apply st_buffer0. }
  intros ms ms' Hp ss ? <-. split; by apply H.
Qed.

(** Streams that appear are empty. *)
Lemma quiet_send wr fl s s' : quiet s s' → send_inv wr fl s → send_inv wr fl s'.
Proof.
  intros [Hv Hm Hk Hs] [H1 H2 H3 H4 H5 H6 H7 H8 H9 H10 H11].
  assert (Hpar : ∀ id, max_send_data id s' = max_send_data id s).
  { intros id. unfold max_send_data. injection Hv as -> _ _ _ _ _ _ -> -> ->. done. }
  injection Hv as Es Ex Eq Em Ed Eu Ew _ _ _.
  assert (Hsome : ∀ id ss, send s' !! id = Some (Some ss) → send s !! id = Some (Some ss)).
  { intros id ss E. destruct (Hs id) as [<- | (_ & E' & _)]; [done | congruence]. }
  split; rewrite ?Eq, ?Em, ?Ed, ?Eu, ?Ew; try by eauto.
  - intros id E. destruct (Hs id) as [E' | (_ & _ & Hn)]; [apply H2; congruence |]. split; [by apply H3 |].
    unfold metas_of. destruct (filter (λ m, Frames.m_id m = id) fl) as [|m ms] eqn:Ef; [done |]. exfalso. apply Hn.
    assert (Hm' : m ∈ filter (λ m, Frames.m_id m = id) fl) by (rewrite Ef; left).
    apply list_elem_of_filter in Hm' as [<- Hm']. rewrite Forall_forall in H5. by apply H5.
  - eapply Forall_impl; [exact H5 |]. intros m. apply Hk.
  - eapply Forall_impl; [exact H6 |]. intros m. apply Hk.
  - rewrite H8. symmetry. apply msum_extend. intros id. destruct (Hs id) as [| (? & ? & _)]; [by left | right]. eauto.
  - intros id. rewrite Hpar. apply H11.
Qed.

Lemma unacked_ge0 d fl b : buffered d fl b → 0 ≤ SendBuffer.unacked b.
Proof.
  intros H. rewrite (unacked_count _ _ _ H).
  generalize 0 at 2. induction (Z.to_nat _) as [|n IH]; intros a; simpl; [done |]. specialize (IH (a + 1)).
  destruct (SendBuffer.acked_b _ _); simpl; lia.
Qed.

Lemma unacked_nonneg wr fl s : send_inv wr fl s → map_Forall (λ _ o, 0 ≤ unacked_of o) (send s).
Proof.
  intros Hinv id [ss |] Ho; simpl; [| done]. destruct (Send.is_reset ss) eqn:Er; [done |].
  by apply (unacked_ge0 _ _ _ (st_buffer _ _ _ (si_stream _ _ _ Hinv id ss Ho) Er)).
Qed.

(** One stream, the frames in flight, the data and the counters change together. *)
Lemma update_send wr fl s id o ss' wr' fl' q ds u : send_inv wr fl s → send s !! id = Some o →
  (∀ i, i ≠ id → stream_data wr' i = stream_data wr i ∧ metas_of i fl' ≡ₚ metas_of i fl) →
  stream_sent (stream_data wr' id) (metas_of id fl') ss' →
  (known s id ∨ (Send.state ss' = Send.Ready ∧ stream_data wr' id = [])) →
  Forall (λ m, known s (Frames.m_id m)) fl' → Forall (known s) (queued q) →
  (∀ i, i ≠ id → i ∈ queued (pending s) → i ∈ queued q) →
  (Send.is_reset ss' = false → Send.is_pending ss' = true → id ∈ queued q) →
  u = unacked_data s - unacked_of o + unacked_of (Some ss') → u ≤ send_window s → 0 ≤ ds ≤ max_data s →
  send_inv wr' fl' (put_send id ss' s <| pending := q |> <| data_sent := ds |> <| unacked_data := u |>).
Proof.
  intros [H1 H2 H3 H4 H5 H6 H7 H8 H9 H10 H11] Ho Hoth Hss Hk Hfl Hq Hq' Hp Hu Hw Hds.
  split; cbn -[sel upd max_send_data known]; try done; try lia.
  - intros i ss E. destruct (decide (i = id)) as [-> | Hne].
    + rewrite lookup_insert_eq in E. by simplify_eq.
    + rewrite lookup_insert_ne in E by done. destruct (Hoth i Hne) as [-> ->]. by apply H1.
  - intros i E. destruct (decide (i = id)) as [-> | Hne]; [by rewrite lookup_insert_eq in E |].
    rewrite lookup_insert_ne in E by done. destruct (Hoth i Hne) as [-> Hp']. destruct (H2 i E) as [? E2].
    rewrite E2 in Hp'. apply Permutation_nil_r in Hp'. done.
  - intros i Hi. destruct (decide (i = id)) as [-> | Hne]; [by destruct Hk as [| [_ ?]] |].
    destruct (Hoth i Hne) as [-> _]. by apply H3.
  - intros i ss E. destruct (decide (i = id)) as [-> | Hne].
    + rewrite lookup_insert_eq in E. simplify_eq. by destruct Hk as [| [? _]].
    + rewrite lookup_insert_ne in E by done. by apply H4.
  - intros i ss E. destruct (decide (i = id)) as [-> | Hne].
    + rewrite lookup_insert_eq in E. by simplify_eq.
    + rewrite lookup_insert_ne in E by done. intros. apply Hq'; [done |]. by eapply H7.
  - rewrite (msum_update _ _ _ _ _ Ho), <- H8. done.
Qed.

Lemma get_send wr fl s id ss s1 : send_inv wr fl s → get_or_insert_send id s = Some (ss, s1) →
  send_inv wr fl s1 ∧ send s1 !! id = Some (Some ss) ∧ stream_sent (stream_data wr id) (metas_of id fl) ss
  ∧ s1 = s <| send := <[id := Some ss]> (send s) |>
  ∧ (send s !! id = Some (Some ss) ∨ (send s !! id = Some None ∧ ss = Send.new (max_send_data id s))).
Proof.
  intros Hinv. unfold get_or_insert_send. intros E. apply bind_Some in E as (o & Eo & E). injection E as <- <-.
  destruct o as [ss |]; simpl.
  - pose proof (si_stream _ _ _ Hinv id ss Eo). split_and!; [| apply lookup_insert_eq | done | done | by left].
    rewrite insert_id by done. by destruct s.
  - destruct (si_none _ _ _ Hinv id Eo) as [Ed Em]. pose proof (si_params _ _ _ Hinv id).
    assert (Hnew : stream_sent (stream_data wr id) (metas_of id fl) (Send.new (max_send_data id s))).
    { rewrite Ed, Em. split; [done | rewrite zlen_nil; simpl; lia | done | intros _; exact SendBuffer.inv_init | done]. }
    split_and!; [| apply lookup_insert_eq | done | done | by right].
    pose proof (si_data _ _ _ Hinv) as [? ?]. pose proof (si_window _ _ _ Hinv).
    assert (s <| send := <[id := Some (Send.new (max_send_data id s))]> (send s) |>
      = put_send id (Send.new (max_send_data id s)) s <| pending := pending s |> <| data_sent := data_sent s |>
          <| unacked_data := unacked_data s |>) as -> by (by destruct s).
    apply (update_send wr fl s id None); try done; try lia; [by right | apply (si_flight _ _ _ Hinv) | apply (si_queued _ _ _ Hinv) |].
    by simpl; rewrite Z.sub_0_r, Z.add_0_r.
Qed.

(** *** The queue *)

Lemma queued_push id p q : queued (PendingStreamsQueue.push_pending id p q) ≡ₚ id :: queued q.
Proof.
  unfold queued, PendingStreamsQueue.push_pending, PendingStreamsQueue.iter. simpl.
  destruct (PendingStreamsQueue.next q); simpl; rewrite PendingStreamsQueue.queue_push_perm; simpl; [apply Permutation_swap | done].
Qed.

Lemma queued_reinsert id p q : PendingStreamsQueue.next q = None →
  queued (PendingStreamsQueue.reinsert_pending id p q) = id :: queued q.
Proof.
  intros E. unfold queued, PendingStreamsQueue.reinsert_pending, PendingStreamsQueue.iter. rewrite E. done.
Qed.

Lemma queued_pop q o q' : PendingStreamsQueue.pop q = (o, q') →
  queued q = match o with Some p => PendingStreamsQueue.p_id p :: queued q' | None => queued q' end
  ∧ PendingStreamsQueue.next q' = None.
Proof.
  unfold PendingStreamsQueue.pop, queued, PendingStreamsQueue.iter. destruct q as [[|p h] [p' |] r]; simpl; intros; by simplify_eq.
Qed.

(** *** What other parts of the state do not change *)

Definition recv_view (s : StreamsState) :=
  (recv s, free_recv s, local_max_data s, receive_window_shrink_debt s, receive_window s, data_recvd s, stream_receive_window s).

Record unmoved (s s' : StreamsState) : Prop := {
  un_view : view s' = view s;
  un_count : send_streams s' = send_streams s ∧ max_concurrent_remote_count s' = max_concurrent_remote_count s;
  un_recv : recv_view s' = recv_view s;
  un_max : max s' = max s;
}.

#[global] Instance unmoved_preorder : PreOrder unmoved.
Proof.
  split; [by split |]. intros s1 s2 s3 [? [? ?] ? ?] [? [? ?] ? ?]. split; [congruence | split; congruence | congruence | congruence].
Qed.

Lemma unmoved_count s s' : unmoved s s' → count_inv s → count_inv s'.
Proof. intros [? [? ?] _ _]. by apply count_inv_view. Qed.

Lemma unmoved_known s s' id : unmoved s s' → known s' id ↔ known s id.
Proof. intros [Hv _ _ _]. injection Hv. intros. by apply known_view. Qed.

Lemma unmoved_recv extra s s' : unmoved s s' → StreamsRecvProofs.recv_inv extra s → StreamsRecvProofs.recv_inv extra s'.
Proof.
  intros [_ _ Hr _]. unfold StreamsRecvProofs.recv_inv, StreamsRecvProofs.nums, StreamsRecvProofs.total_unread.
  injection Hr as E1 E2 E3 E4 E5 E6 E7. rewrite E1, E3, E4, E5, E6. intros [[] ?].
  split; [split; by rewrite ?E1, ?E2, ?E3, ?E7 | done].
Qed.

Lemma unmoved_put id ss s : is_Some (send s !! id) → unmoved s (put_send id ss s).
Proof. intros Hin. split; [by apply put_send_view | done..]. Qed.

Lemma unmoved_get id s ss s1 : get_or_insert_send id s = Some (ss, s1) → unmoved s s1.
Proof.
  intros E. destruct (get_send_view _ _ _ _ E) as (Hv & Es & _). split; [done | by rewrite Es..].
Qed.

(** ** The application's operations *)

(** The stream alone changes. *)
Lemma put_send_inv wr fl s id ss ss' : send_inv wr fl s → send s !! id = Some (Some ss) →
  stream_sent (stream_data wr id) (metas_of id fl) ss' → (Send.state ss' = Send.state ss ∨ known s id) →
  Send.is_pending ss' = Send.is_pending ss → unacked_of (Some ss') = unacked_of (Some ss) →
  (Send.is_reset ss' = false → Send.is_reset ss = false) → send_inv wr fl (put_send id ss' s).
Proof.
  intros Hinv Hss Hok Hst Hp Hu Hr. pose proof (si_data _ _ _ Hinv) as [? ?]. pose proof (si_window _ _ _ Hinv).
  assert (put_send id ss' s = put_send id ss' s <| pending := pending s |> <| data_sent := data_sent s |>
    <| unacked_data := unacked_data s |>) as -> by (by destruct s).
  apply (update_send wr fl s id (Some ss)); try done; try lia.
  - destruct (decide (known s id)) as [| Hn]; [by left |]. right. destruct Hst as [Hst |]; [| done]. rewrite Hst.
    split; [| by apply (si_unknown _ _ _ Hinv)]. destruct (decide (Send.state ss = Send.Ready)); [done |].
    destruct Hn. by eapply (si_state _ _ _ Hinv).
  - apply (si_flight _ _ _ Hinv).
  - apply (si_queued _ _ _ Hinv).
  - rewrite Hp. intros Hr' Hp'. apply (si_pending _ _ _ Hinv id ss); auto.
Qed.

Lemma set_priority_inv wr fl id p s r s' : send_inv wr fl s → set_priority id p s = (r, s') →
  send_inv wr fl s' ∧ unmoved s s'.
Proof.
  intros Hinv. unfold set_priority. destruct (get_or_insert_send id s) as [[ss s1] |] eqn:Eg; [| intros; by simplify_eq].
  destruct (get_send _ _ _ _ _ _ Hinv Eg) as (Hinv1 & Hss & Hok & _). intros [= <- <-].
  split; [| etrans; [by eapply unmoved_get | by apply unmoved_put; eauto]].
  apply (put_send_inv wr fl s1 id ss); try done; [by destruct Hok | by left].
Qed.

(** The stream is put in the queue unless it is there. *)
Definition schedule (id : Z) (ss ss' : Send.Send) (s : StreamsState) : PendingStreamsQueue.PendingStreamsQueue :=
  if negb (Send.is_pending ss) then PendingStreamsQueue.push_pending id (Send.priority ss') (pending s) else pending s.

Lemma update_scheduled wr fl s id ss ss' wr' fl' ds u : send_inv wr fl s → send s !! id = Some (Some ss) → known s id →
  (∀ i, i ≠ id → stream_data wr' i = stream_data wr i ∧ metas_of i fl' ≡ₚ metas_of i fl) →
  stream_sent (stream_data wr' id) (metas_of id fl') ss' →
  Forall (λ m, known s (Frames.m_id m)) fl' → Send.is_reset ss' = Send.is_reset ss →
  u = unacked_data s - unacked_of (Some ss) + unacked_of (Some ss') → u ≤ send_window s → 0 ≤ ds ≤ max_data s →
  send_inv wr' fl' (put_send id ss' s <| pending := schedule id ss ss' s |> <| data_sent := ds |> <| unacked_data := u |>).
Proof.
  intros Hinv Hss Hk Hoth Hok Hfl Hr Hu Hw Hds.
  assert (Hq : queued (schedule id ss ss' s) ≡ₚ queued (pending s) ∨ queued (schedule id ss ss' s) ≡ₚ id :: queued (pending s)).
  { unfold schedule. destruct (negb (Send.is_pending ss)); [right; apply queued_push | by left]. }
  apply (update_send wr fl s id (Some ss)); try done.
  - by left.
  - pose proof (si_queued _ _ _ Hinv). destruct Hq as [-> | ->]; [done | by constructor].
  - intros i _ Hi. destruct Hq as [-> | ->]; [done | by right].
  - rewrite Hr. intros Hr' _. unfold schedule.
    destruct (Send.is_pending ss) eqn:Ep; simpl; [by apply (si_pending _ _ _ Hinv id ss) |]. rewrite queued_push. left.
Qed.

Lemma unmoved_scheduled s id ss ss' : is_Some (send s !! id) →
  unmoved s (if negb (Send.is_pending ss) then
      put_send id ss' s <| pending := PendingStreamsQueue.push_pending id (Send.priority ss') (pending s) |>
    else put_send id ss' s).
Proof. intros Hin. etrans; [by apply (unmoved_put id ss') |]. by destruct (negb _). Qed.

Lemma finish_inv wr fl id s r s' : send_inv wr fl s → known s id → finish id s = (r, s') →
  send_inv wr fl s' ∧ unmoved s s'.
Proof.
  intros Hinv Hk. unfold finish. destruct (get_or_insert_send id s) as [[ss s1] |] eqn:Eg; [| intros; by simplify_eq].
  destruct (get_send _ _ _ _ _ _ Hinv Eg) as (Hinv1 & Hss & Hok & _). pose proof (unmoved_get _ _ _ _ Eg) as Hu1.
  apply (unmoved_known _ _ id Hu1) in Hk. unfold Send.finish.
  destruct (Send.stop_reason ss); [intros; simplify_eq; done |].
  case_bool_decide as Er; [| intros; simplify_eq; done]. intros [= <- <-]. set (ss' := ss <| Send.state := _ |> <| Send.fin_pending := true |>).
  assert (Hnr : Send.is_reset ss = false) by (unfold Send.is_reset; by rewrite Er).
  pose proof (si_data _ _ _ Hinv1) as [? ?]. pose proof (si_window _ _ _ Hinv1).
  split; [| etrans; [exact Hu1 | apply unmoved_scheduled; eauto]].
  eapply quiet_send; [| apply (update_scheduled wr fl s1 id ss ss' wr fl (data_sent s1) (unacked_data s1)); try done; try lia].
  - unfold schedule. by destruct (negb _); apply quiet_same.
  - destruct Hok as [? ? ? Hb _]. split; [done.. | | by left]. intros _. by apply Hb.
  - apply (si_flight _ _ _ Hinv1).
  - unfold unacked_of. change (Send.is_reset ss') with false. rewrite Hnr. simpl. lia.
Qed.

(** How much may be written never wraps. *)
Lemma write_limit_eq wr fl s : send_inv wr fl s →
  write_limit s = Z.min (max_data s - data_sent s) (send_window s - unacked_data s) ∧ 0 ≤ write_limit s ∧ 0 ≤ unacked_data s.
Proof.
  intros Hinv. pose proof (si_data _ _ _ Hinv) as [? ?]. pose proof (si_window _ _ _ Hinv).
  pose proof (msum_nonneg unacked_of (send s) (unacked_nonneg _ _ _ Hinv)) as Hn. rewrite <- (si_unacked _ _ _ Hinv) in Hn.
  unfold write_limit, wrapping_sub. rewrite !wrap_small by (unfold is_u; lia). split; [done | lia].
Qed.

(** What has been written after a call of [write_source]. *)
Definition written_after `{BytesSource Src} (id : Z) (source : Src) (r : result (Send.Written * Src) Send.WriteError)
  (wr : gmap Z (list Z)) : gmap Z (list Z) :=
  match r with
  | Ok (w, _) => <[id := stream_data wr id ++ ztake (Send.w_bytes w) (contents source)]> wr
  | Err _ => wr
  end.

Lemma stream_data_insert wr id d i : stream_data (<[id := d]> wr) i = if decide (i = id) then d else stream_data wr i.
Proof.
  unfold stream_data. destruct (decide (i = id)) as [-> |]; [by rewrite lookup_insert_eq | by rewrite lookup_insert_ne].
Qed.

(** A successful write on a stream that exists. *)
Lemma write_stream_inv `{BytesSourceLaws Src} wr fl id (source : Src) ss s limit w source' ss' :
  send_inv wr fl s → known s id → send s !! id = Some (Some ss) → limit = write_limit s →
  Send.write source limit ss = Some (Ok (w, source', ss')) →
  let s' := put_send id ss' s <| data_sent := data_sent s + Send.w_bytes w |> <| unacked_data := unacked_data s + Send.w_bytes w |> in
  send_inv (written_after id source (Ok (w, source')) wr) fl (s' <| pending := schedule id ss ss' s |>).
Proof.
  intros Hinv Hk Hss Hlim E. destruct (write_limit_eq _ _ _ Hinv) as (Hl & Hl0 & Hun). rewrite <- Hlim in Hl, Hl0.
  pose proof (si_stream _ _ _ Hinv id ss Hss) as Hok. pose proof (st_limit _ _ _ Hok). pose proof (st_offset _ _ _ Hok) as Hoff.
  pose proof (zlen_nonneg (stream_data wr id)). pose proof (si_data _ _ _ Hinv) as [? ?]. pose proof (si_window _ _ _ Hinv).
  destruct (Send.is_writable ss) eqn:Ew; [| unfold Send.write in E; by rewrite Ew in E].
  destruct (Send.stop_reason ss) eqn:Est; [unfold Send.write in E; by rewrite Ew, Est in E |].
  destruct (decide (Send.offset ss = Send.max_data ss)) as [Eo | No].
  { unfold Send.write in E. rewrite Ew, Est in E. unfold Send.offset in Eo. rewrite Eo in E. cbn [negb] in E.
    unfold wrapping_sub in E. rewrite Z.sub_diag, wrap_small in E by done. done. }
  destruct (Send.write_spec source limit ss Hl0 Ew Est) as (cs & src' & E' & Hc & Hn); [lia | unfold is_u; lia |].
  rewrite E' in E. clear E'. injection E as <- <- <-. cbv zeta. cbn [Send.w_bytes written_after].
  set (n := Z.min (Z.min limit (Send.max_data ss - Send.offset ss)) (zlen (contents source))) in *.
  pose proof (zlen_nonneg (contents source)).
  assert (ztake n (contents source) = concat cs) as -> by (rewrite Hc; by apply ztake_app_zlen).
  apply bool_decide_eq_true in Ew. assert (Hnr : Send.is_reset ss = false) by (unfold Send.is_reset; by rewrite Ew).
  destruct (buffered_write cs _ _ _ (st_buffer _ _ _ Hok Hnr)) as [Hb Hu].
  eapply quiet_send; [| apply (update_scheduled wr fl s id ss (ss <| Send.pending := fold_left (λ b c, SendBuffer.write c b) cs (Send.pending ss) |>)
    _ fl (data_sent s + n) (unacked_data s + n)); try done; try lia].
  - by apply quiet_same.
  - intros i Hi. by rewrite stream_data_insert, decide_False.
  - rewrite stream_data_insert, decide_True by done. destruct Hok as [? ? Hf _ Hfin]. split; try done.
    + by rewrite <- (buffered_len _ _ _ Hb).
    + rewrite zlen_app. simpl. lia.
    + eapply Forall_impl; [exact Hf |]. intros m. cbv zeta. rewrite zlen_app. pose proof (zlen_nonneg (concat cs)). lia.
  - apply (si_flight _ _ _ Hinv).
  - unfold unacked_of. change (Send.is_reset (ss <| Send.pending := _ |>)) with (Send.is_reset ss). rewrite Hnr. simpl. rewrite Hu, Hn. lia.
Qed.

Lemma write_source_inv `{BytesSourceLaws Src} wr fl closed id (source : Src) s : send_inv wr fl s → known s id →
  ∃ r s', write_source closed id source s = Some (r, s') ∧ send_inv (written_after id source r wr) fl s' ∧ unmoved s s'.
Proof.
  intros Hinv Hk. unfold write_source. destruct closed; [by do 2 eexists |].
  destruct (get_or_insert_send id s) as [[ss s1] |] eqn:Eg; [| by do 2 eexists].
  destruct (get_send _ _ _ _ _ _ Hinv Eg) as (Hinv1 & Hss & Hok & Es1 & _). pose proof (unmoved_get _ _ _ _ Eg) as Hu1.
  apply (unmoved_known _ _ id Hu1) in Hk. assert (Hl : write_limit s = write_limit s1) by (by rewrite Es1). rewrite Hl. clear Es1 Hl.
  destruct (write_limit_eq _ _ _ Hinv1) as (_ & Hl0 & _). case_goal.
  { do 2 eexists. split; [done |]. simpl. destruct (negb _); [| done].
    split; [| etrans; [exact Hu1 |]; etrans; [by apply (unmoved_put id (ss <| Send.connection_blocked := true |>)); eauto | done]].
    apply (quiet_send _ _ (put_send id (ss <| Send.connection_blocked := true |>) s1)); [by apply quiet_same |].
    apply (put_send_inv wr fl s1 id ss); try done; [by destruct Hok | by left]. }
  destruct (Send.write source (write_limit s1) ss) as [[[[w source'] ss'] | e] |] eqn:Ew; [| by do 2 eexists |].
  2:{ by apply Send.write_total in Ew. }
  do 2 eexists. split; [done |].
  pose proof (write_stream_inv wr fl id source ss s1 _ w source' ss' Hinv1 Hk Hss eq_refl Ew) as Hw. split.
  - eapply quiet_send; [| exact Hw]. unfold schedule. by destruct (negb _); apply quiet_same.
  - etrans; [exact Hu1 |]. etrans; [by apply (unmoved_put id ss'); eauto |]. by destruct (negb _).
Qed.

Lemma reset_send_inv wr fl id code pend s r pend' s' : send_inv wr fl s → known s id → reset id code pend s = (r, pend', s') →
  send_inv wr fl s' ∧ unmoved s s'.
Proof.
  intros Hinv Hk. unfold reset. destruct (get_or_insert_send id s) as [[ss s1] |] eqn:Eg; [| intros; by simplify_eq].
  destruct (get_send _ _ _ _ _ _ Hinv Eg) as (Hinv1 & Hss & Hok & _). pose proof (unmoved_get _ _ _ _ Eg) as Hu1.
  apply (unmoved_known _ _ id Hu1) in Hk. destruct (Send.is_reset ss) eqn:Er; [intros; by simplify_eq |].
  intros [= <- <- <-]. pose proof (si_data _ _ _ Hinv1) as [? ?]. pose proof (si_window _ _ _ Hinv1).
  assert (Er' : Send.is_reset (Send.reset ss) = true) by (unfold Send.reset; by destruct (Send.state ss) eqn:E; unfold Send.is_reset; rewrite ?E).
  pose proof (msum_elem _ _ _ _ (unacked_nonneg _ _ _ Hinv1) Hss) as Hle. rewrite <- (si_unacked _ _ _ Hinv1) in Hle.
  pose proof (unacked_nonneg _ _ _ Hinv1 id _ Hss) as Hge. simpl in Hle, Hge. rewrite Er in Hle, Hge.
  split; [| etrans; [exact Hu1 |]; etrans; [by apply (unmoved_put id (Send.reset ss)); eauto | done]].
  unfold wrapping_sub. rewrite wrap_small by (unfold is_u; lia).
  eapply quiet_send; [| apply (update_send wr fl s1 id (Some ss) (Send.reset ss) wr fl (pending s1) (data_sent s1)
    (unacked_data s1 - SendBuffer.unacked (Send.pending ss))); try done; try lia].
  - by apply quiet_same.
  - assert (Send.offset (Send.reset ss) = Send.offset ss ∧ Send.max_data (Send.reset ss) = Send.max_data ss) as [E1 E2]
      by (unfold Send.reset; by destruct (Send.state ss)).
    destruct Hok as [? ? ? _ _]. split; [by rewrite E1 | by rewrite E2 | done | by rewrite Er' |].
    intros E. apply bool_decide_eq_true in Er'. congruence.
  - by left.
  - apply (si_flight _ _ _ Hinv1).
  - apply (si_queued _ _ _ Hinv1).
  - by rewrite Er'.
  - simpl. rewrite Er, Er'. lia.
Qed.

(** ** Acknowledgement and loss *)

#[global] Instance send_inv_proper wr : Proper ((≡ₚ) ==> (=) ==> iff) (send_inv wr).
Proof.
  assert (∀ fl fl' s, fl ≡ₚ fl' → send_inv wr fl s → send_inv wr fl' s) as H.
  { intros fl fl' s Hp [H1 H2 H3 H4 H5 H6 H7 H8 H9 H10 H11]. split; try done; [| | by rewrite <- Hp].
    - intros id ss E. unfold metas_of. rewrite <- Hp. by apply H1.
    - intros id E. destruct (H2 id E) as [? Hm]. split; [done |]. apply Permutation_nil_r. unfold metas_of in *. by rewrite <- Hp, Hm. }
  intros fl fl' Hp s ? <-. split; by apply H.
Qed.

Lemma metas_cons m fl : metas_of (Frames.m_id m) (m :: fl) = m :: metas_of (Frames.m_id m) fl.
Proof. unfold metas_of. by rewrite filter_cons_True. Qed.

Lemma metas_cons_ne m fl i : i ≠ Frames.m_id m → metas_of i (m :: fl) = metas_of i fl.
Proof. intros. unfold metas_of. by rewrite filter_cons_False. Qed.

(** A stream is removed with its part of the counter. *)
Lemma delete_send wr fl fl' s id o u : send_inv wr fl s → send s !! id = Some o →
  (∀ i, i ≠ id → metas_of i fl' ≡ₚ metas_of i fl) → Forall (λ m, known s (Frames.m_id m)) fl' →
  u = unacked_data s - unacked_of o → u ≤ unacked_data s →
  send_inv wr fl' (s <| unacked_data := u |> <| send := delete id (send s) |>).
Proof.
  intros [H1 H2 H3 H4 H5 H6 H7 H8 H9 H10 H11] Ho Hm Hfl Hu Hle.
  assert (Hd : ∀ i x, delete id (send s) !! i = Some x → i ≠ id ∧ send s !! i = Some x)
    by (intros i x; rewrite lookup_delete_Some; naive_solver).
  split; simpl; try done; try lia.
  - intros i ss [Hne E]%Hd. rewrite (Hm i Hne). by apply H1.
  - intros i [Hne E]%Hd. destruct (H2 i E) as [? E2]. split; [done |]. apply Permutation_nil_r. by rewrite (Hm i Hne), E2.
  - intros i ss [Hne E]%Hd. by apply H4.
  - intros i ss [Hne E]%Hd. by apply H7.
  - rewrite Hu, H8, (msum_delete _ _ _ _ Ho). lia.
Qed.

(** A frame in flight that no stream waits for. *)
Lemma drop_flight wr m fl s : send_inv wr (m :: fl) s →
  (∀ ss, send s !! Frames.m_id m = Some (Some ss) → Send.is_reset ss = true) → send_inv wr fl s.
Proof.
  intros [H1 H2 H3 H4 H5 H6 H7 H8 H9 H10 H11] Hr. split; try done; [| | by inversion H5].
  - intros id ss E. destruct (decide (id = Frames.m_id m)) as [-> | Hne]; [| rewrite <- (metas_cons_ne m fl) by done; by apply H1].
    destruct (H1 _ _ E) as [? ? Hf _ _]. pose proof (Hr ss E) as Er. rewrite metas_cons in Hf. inversion Hf; subst.
    split; try done; [by rewrite Er |]. apply bool_decide_eq_true in Er. congruence.
  - intros id E. destruct (H2 id E) as [? Em]. split; [done |].
    destruct (decide (id = Frames.m_id m)) as [-> | Hne]; [by rewrite metas_cons in Em | by rewrite metas_cons_ne in Em].
Qed.

Lemma fully_acked_unacked d fl b : buffered d fl b → SendBuffer.is_fully_acked b = true → SendBuffer.unacked b = 0.
Proof.
  intros H Hf. rewrite (unacked_count _ _ _ H), <- (buffered_len _ _ _ H).
  rewrite (SendBuffer.count_from_const _ false); [done |]. intros x Hx. apply negb_false_iff.
  apply (proj1 (SendBuffer.fully_acked_spec d b (SendBuffer.inv_buf _ H)) Hf). lia.
Qed.

Lemma ranges_cons m ms : ranges (m :: ms) = if decide ((Frames.m_offsets m).1 < (Frames.m_offsets m).2)
  then Frames.m_offsets m :: ranges ms else ranges ms.
Proof. unfold ranges. csimpl. by rewrite filter_cons. Qed.

(** One stream acknowledges one of its frames. *)
Lemma stream_ack d m ms ss : stream_sent d (m :: ms) ss → Send.is_reset ss = false →
  ∃ dn ss', Send.ack m ss = Some (dn, ss') ∧ stream_sent d ms ss' ∧ Send.is_reset ss' = false
    ∧ Send.is_pending ss' = Send.is_pending ss
    ∧ SendBuffer.unacked (Send.pending ss')
      = SendBuffer.unacked (Send.pending ss) - ((Frames.m_offsets m).2 - (Frames.m_offsets m).1)
    ∧ (Send.state ss = Send.Ready → Send.state ss' = Send.Ready)
    ∧ (dn = true → SendBuffer.unacked (Send.pending ss') = 0 ∧ Send.state ss ≠ Send.Ready).
Proof.
  intros [Ho Hl Hf Hb Hfin] Hr. specialize (Hb Hr). apply Forall_cons in Hf as [Hm Hf]. cbv zeta in Hm.
  set (r := Frames.m_offsets m) in *.
  assert (∃ b', SendBuffer.ack r (Send.pending ss) = Some b' ∧ buffered d (ranges ms) b'
    ∧ SendBuffer.unacked b' = SendBuffer.unacked (Send.pending ss) - (r.2 - r.1)
    ∧ SendBuffer.has_unsent_data b' = SendBuffer.has_unsent_data (Send.pending ss)) as (b' & Eb & Hb' & Hu & Hp).
  { rewrite ranges_cons in Hb. fold r in Hb. destruct (decide _); [by apply buffered_ack |].
    destruct (buffered_ack_empty _ _ r _ Hb) as (b' & ? & ? & ? & ?); [lia.. |]. exists b'. split_and!; [done | done | lia | done]. }
  unfold Send.ack. fold r. rewrite Eb. simpl.
  assert (Hnew : ∀ st, st ≠ Send.ResetSent → (st = Send.DataSent false → Send.state ss = Send.DataSent false ∧ Frames.m_fin m = false) →
    stream_sent d ms (ss <| Send.pending := b' |> <| Send.state := st |>)
    ∧ Send.is_reset (ss <| Send.pending := b' |> <| Send.state := st |>) = false
    ∧ Send.is_pending (ss <| Send.pending := b' |> <| Send.state := st |>) = Send.is_pending ss).
  { intros st Hst Hst'. split_and!; [| by apply bool_decide_eq_false | unfold Send.is_pending; simpl; by rewrite Hp].
    split; try done; [by rewrite <- (buffered_len _ _ _ Hb') |]. intros [E Em]%Hst'. destruct (Hfin E) as [| Hex]; [by left |].
    apply Exists_cons in Hex as [Hm' | Hex]; [congruence | by right]. }
  destruct (Send.state ss) as [| fa |] eqn:Est.
  - destruct (Hnew Send.Ready) as (Hn1 & Hn2 & Hn3); [done.. |].
    assert (ss <| Send.pending := b' |> <| Send.state := Send.Ready |> = ss <| Send.pending := b' |>) as E by (by destruct ss; simplify_eq/=).
    rewrite E in *. do 2 eexists. split_and!; try done.
  - destruct (Hnew (Send.DataSent (fa || Frames.m_fin m))) as (Hn1 & Hn2 & Hn3); [done | |].
    { intros [= [-> ->]%orb_false_iff]. done. }
    do 2 eexists. split_and!; [done.. |]. intros [_ Hfa]%andb_true_iff. split; [| done]. by eapply fully_acked_unacked.
  - unfold Send.is_reset in Hr. by rewrite Est in Hr.
Qed.

(** The sending half of a stream is closed. *)
Lemma send_freed_inv wr fl s id : count_inv s → room s → is_Some (send s !! id) → known s id →
  send_inv wr fl (s <| send := delete id (send s) |>) →
  ∃ s', stream_freed id HalfSend (s <| send := delete id (send s) |>) = Some s' ∧ send_inv wr fl s' ∧ count_inv s' ∧ max s' = max s.
Proof.
  intros Hc Hroom Hin Hk Hinv.
  destruct (stream_freed_spec HalfSend id s (s <| send := delete id (send s) |>) Hc Hroom) as (s' & E & Hc' & Hq); [done |].
  exists s'. split_and!; [done | by eapply quiet_send | done |]. by pose proof (qu_view _ _ Hq) as [= ? ?].
Qed.

Lemma received_ack_of_inv wr m fl s : send_inv wr (m :: fl) s → count_inv s → room s →
  ∃ s', received_ack_of m s = Some s' ∧ send_inv wr fl s' ∧ count_inv s' ∧ max s' = max s.
Proof.
  intros Hinv Hc Hroom. unfold received_ack_of. set (id := Frames.m_id m).
  destruct (send s !! id) as [[ss |] |] eqn:Es.
  2,3: exists s; split_and!; [done | apply (drop_flight wr m); [done |]; fold id; congruence | done | done].
  destruct (Send.is_reset ss) eqn:Er.
  { exists s. split_and!; [done | apply (drop_flight wr m); [done |]; fold id; congruence | done | done]. }
  pose proof (si_stream _ _ _ Hinv id ss Es) as Hok. subst id. rewrite metas_cons in Hok. set (id := Frames.m_id m) in *.
  pose proof (st_limit _ _ _ Hok). pose proof (st_frames _ _ _ Hok) as [Hm _]%Forall_cons. cbv zeta in Hm.
  destruct (stream_ack _ m _ ss Hok Er) as (dn & ss' & -> & Hok' & Er' & Hp & Hu & Hst & Hdn).
  set (r := Frames.m_offsets m) in *. cbn [mbind option_bind].
  pose proof (msum_elem _ _ _ _ (unacked_nonneg _ _ _ Hinv) Es) as Hle. rewrite <- (si_unacked _ _ _ Hinv) in Hle. simpl in Hle. rewrite Er in Hle.
  pose proof (unacked_ge0 _ _ _ (st_buffer _ _ _ Hok' Er')).
  pose proof (si_window _ _ _ Hinv). pose proof (si_data _ _ _ Hinv) as [? ?].
  assert (wrapping_sub 64 (unacked_data s) (wrapping_sub 64 r.2 r.1) = unacked_data s - (r.2 - r.1)) as ->.
  { unfold wrapping_sub. rewrite (wrap_small 64 (r.2 - r.1)), wrap_small by (unfold is_u; lia). done. }
  assert (Hfl : Forall (λ m, known s (Frames.m_id m)) fl) by (pose proof (si_flight _ _ _ Hinv) as Hf; by inversion Hf).
  assert (Hoth : ∀ i, i ≠ id → metas_of i fl ≡ₚ metas_of i (m :: fl)) by (intros; by rewrite metas_cons_ne).
  destruct dn.
  - destruct (Hdn eq_refl) as [Hu0 Hnr]. pose proof (si_state _ _ _ Hinv id ss Es Hnr) as Hk.
    set (s1 := s <| unacked_data := _ |>).
    destruct (send_freed_inv wr fl s1 id) as (s' & E & Hinv' & Hc' & Hm'); [by apply (count_inv_view s) | done | by eexists | done | |].
    + apply (delete_send wr (m :: fl) fl s id (Some ss)); try done; simpl; rewrite ?Er; lia.
    + rewrite E. eexists. split_and!; [done | | by apply (count_inv_view s') | done].
      eapply quiet_send; [| exact Hinv']. by apply quiet_same.
  - eexists. split_and!; [done | | | done].
    + eapply quiet_send; [| apply (update_send wr (m :: fl) s id (Some ss) ss' wr fl (pending s) (data_sent s) (unacked_data s - (r.2 - r.1))); try done; try lia].
      * by apply quiet_same.
      * intros i Hi. split; [done | by apply Hoth].
      * destruct (decide (known s id)) as [| Hn]; [by left | right]. split; [| by apply (si_unknown _ _ _ Hinv)].
        apply Hst. destruct (decide (Send.state ss = Send.Ready)); [done |]. destruct Hn. by eapply (si_state _ _ _ Hinv).
      * apply (si_queued _ _ _ Hinv).
      * rewrite Hp. intros _ Hp'. by apply (si_pending _ _ _ Hinv id ss).
      * simpl. rewrite Er, Er'. lia.
    + apply (count_inv_view s); [| done..].
      etrans; [apply put_send_view; by exists (Some ss) | done].
Qed.

Lemma reset_acked_inv wr fl id s : send_inv wr fl s → count_inv s → room s →
  ∃ s', reset_acked id s = Some s' ∧ send_inv wr fl s' ∧ count_inv s' ∧ max s' = max s.
Proof.
  intros Hinv Hc Hroom. unfold reset_acked. destruct (send s !! id) as [[ss |] |] eqn:Es; [| by exists s..].
  destruct (Send.is_reset ss) eqn:Er; [| by exists s].
  apply send_freed_inv; [done | done | by eexists | | ].
  - apply (si_state _ _ _ Hinv id ss Es). apply bool_decide_eq_true in Er. congruence.
  - eapply quiet_send; [| apply (delete_send wr fl fl s id (Some ss) (unacked_data s)); try done].
    + by apply quiet_same.
    + apply (si_flight _ _ _ Hinv).
    + simpl. rewrite Er. lia.
Qed.

(** A lost frame is scheduled again. *)
Lemma retransmit_inv wr m fl s : send_inv wr (m :: fl) s → send_inv wr fl (retransmit m s) ∧ unmoved s (retransmit m s).
Proof.
  intros Hinv. unfold retransmit. set (id := Frames.m_id m).
  destruct (send s !! id) as [[ss |] |] eqn:Es.
  2,3: split; [apply (drop_flight wr m); [done |]; fold id; congruence | done].
  set (ss' := ss <| Send.fin_pending := _ |> <| Send.pending := _ |>).
  pose proof (si_stream _ _ _ Hinv id ss Es) as Hok. subst id. rewrite metas_cons in Hok. set (id := Frames.m_id m) in *.
  pose proof (si_flight _ _ _ Hinv) as [Hk Hfl]%Forall_cons. pose proof (si_window _ _ _ Hinv). pose proof (si_data _ _ _ Hinv) as [? ?].
  split.
  2:{ etrans; [by apply (unmoved_put id ss'); eauto |]. by destruct (negb _). }
  eapply quiet_send; [| apply (update_scheduled wr (m :: fl) s id ss ss' wr fl (data_sent s) (unacked_data s)); try done; try lia].
  - unfold schedule. by destruct (negb _); apply quiet_same.
  - intros i Hi. by rewrite metas_cons_ne.
  - destruct Hok as [Ho Hl [Hm Hf]%Forall_cons Hb Hfin]. cbv zeta in Hm. split; [done | done | done | |].
    + intros Er. specialize (Hb Er). rewrite ranges_cons in Hb. simpl. destruct (decide _); [by apply buffered_lost |].
      rewrite retransmit_empty by lia. done.
    + intros Est. simpl. destruct (Hfin Est) as [-> | [-> | ?]%Exists_cons]; [by left | left; apply orb_true_r | by right].
  - unfold unacked_of. change (Send.is_reset ss') with (Send.is_reset ss). destruct (Send.is_reset ss); [lia |]. unfold SendBuffer.unacked. simpl. lia.
Qed.

(** ** Streams closed for writing *)

(** Nothing more can be written on the stream. *)
Definition closed (s : StreamsState) (id : Z) : Prop :=
  known s id
  ∧ match send s !! id with Some (Some ss) => Send.state ss ≠ Send.Ready | Some None => False | None => True end.

(** Closed streams stay closed. *)
Definition advance (s s' : StreamsState) : Prop := ∀ id, closed s id → closed s' id.

#[global] Instance advance_preorder : PreOrder advance.
Proof. split; [by intros s id |]. intros s1 s2 s3 H1 H2 id H. by apply H2, H1. Qed.

Lemma advance_quiet s s' : quiet s s' → advance s s'.
Proof.
  intros [_ _ Hk Hs] id [Hkn Hc]. split; [by apply Hk |]. destruct (Hs id) as [-> | (_ & _ & Hn)]; [done | by destruct Hn].
Qed.

Lemma advance_same s s' : send s' = send s → (∀ id, known s id → known s' id) → advance s s'.
Proof. intros E Hk id [? ?]. split; [by apply Hk | by rewrite E]. Qed.

Lemma advance_get id s ss s1 : get_or_insert_send id s = Some (ss, s1) → advance s s1.
Proof.
  intros E i [Hk Hc]. destruct (get_send_view _ _ _ _ E) as (Hv & Es1 & _). split; [by injection Hv; intros; apply (known_view s) |].
  unfold get_or_insert_send in E. apply bind_Some in E as (o & Eo & E). injection E as <- _. rewrite Es1. simpl.
  destruct (decide (i = id)) as [-> |]; [rewrite lookup_insert_eq; rewrite Eo in Hc; by destruct o | by rewrite lookup_insert_ne].
Qed.

Lemma advance_put id ss ss' s : send s !! id = Some (Some ss) → (Send.state ss ≠ Send.Ready → Send.state ss' ≠ Send.Ready) →
  advance s (put_send id ss' s).
Proof.
  intros Es Hst i [Hk Hc]. split; [done |]. simpl. destruct (decide (i = id)) as [-> |]; [| by rewrite lookup_insert_ne].
  rewrite lookup_insert_eq. rewrite Es in Hc. by apply Hst.
Qed.

Lemma advance_delete id s : advance s (s <| send := delete id (send s) |>).
Proof.
  intros i [Hk Hc]. split; [done |]. simpl. destruct (decide (i = id)) as [-> |]; [by rewrite lookup_delete_eq | by rewrite lookup_delete_ne].
Qed.

End StreamsSendProofs.
