(* ===== verification/StreamsTransmit.v ===== *)
(** * Transmission of stream data

    [write_stream_frames] terminates, stays within the packet, writes exactly the data of the
    streams it takes from the queue, and forgets none of them. *)

From Stdlib Require Import String.
From stdpp Require Import gmap fin_maps fin_sets.
From S2P Require Import Prelude BTree RangeSets Coding SendBuf Assembler NatFrames Frames Sums.
From S2P Require Import StreamSend StreamRecv TransportParams StreamQueue Streams StreamsSend StreamsRecvProofs StreamsCount.
From S2P Require Import StreamsCountOps StreamsSendProofs.

Module StreamsTransmit.
Import StreamsState StreamsSend StreamsCount StreamsSendProofs.

(** ** One frame *)

(** The frame a header and its data make. *)
Definition meta_of (st : Frames.Stream) : Frames.StreamMeta :=
  Frames.mk_stream_meta (Frames.st_id st) (Frames.st_offset st, Frames.st_offset st + zlen (Frames.st_data st)) (Frames.fin st).

Definition to_frame (p : Frames.Stream * bool) : Frames.Frame * bool := (Frames.FStream p.1, p.2).

Lemma stream_header id r fin el : is_u 62 id → is_u 62 r.1 → is_u 62 (r.2 - r.1) →
  ∃ h, Frames.stream_meta_encode (Frames.mk_stream_meta id r fin) el = Ok h
  ∧ zlen h = 1 + VarInt.size id + SendBuffer.offset_size r.1 + (if el then VarInt.size (r.2 - r.1) else 0).
Proof.
  intros Hid Hr1 Hlen. unfold Frames.stream_meta_encode. cbn [Frames.m_id Frames.m_offsets Frames.m_fin].
  set (ty := Z.lor _ _). assert (is_u 62 ty ∧ VarInt.size ty = 1) as [Hty Esz].
  { subst ty. destruct (negb _), el, fin; vm_compute; repeat split; congruence. }
  clearbody ty. rewrite VarInt.write_var_enc by done. rewrite Frames.stream_id_enc by done. unfold SendBuffer.offset_size.
  destruct (r.1 =? 0), el; rewrite ?VarInt.write_var_enc by done; eexists; (split; [reflexivity |]);
    rewrite !zlen_app, ?zlen_nil, !VarInt.zlen_varint_encode by done; try change (zlen (@nil Z)) with 0; lia.
Qed.

(** Identifiers of streams fit a variable-length integer. *)
Lemma id_range s id : count_inv s → is_Some (send s !! id) → is_u 62 id.
Proof.
  intros [Hp _] Hin. destruct (ci_ids _ _ Hp) as [Hs _]. destruct (Hs id Hin) as [[Hu Hb] _].
  destruct (StreamId.new_parts id Hu) as [E Hi]. rewrite <- E. rewrite StreamId.new_eq by done.
  assert (StreamId.index id < 2 ^ 60).
  { pose proof (ci_next _ _ Hp (StreamId.dir id)). pose proof (ci_remote _ _ Hp (StreamId.dir id)). destruct (decide _); lia. }
  unfold is_u in *. destruct (StreamId.dir id), (StreamId.initiator id); simpl; lia.
Qed.

(** What a frame carries. *)
Record carries (wr : gmap Z (list Z)) (st : Frames.Stream) : Prop := {
  ca_id : is_u 62 (Frames.st_id st);
  ca_offset : 0 ≤ Frames.st_offset st;
  ca_size : Frames.st_offset st + zlen (Frames.st_data st) < 2 ^ 62;
  ca_end : Frames.st_offset st + zlen (Frames.st_data st) ≤ zlen (stream_data wr (Frames.st_id st));
  ca_data : Frames.st_data st
    = slice (stream_data wr (Frames.st_id st)) (Frames.st_offset st, Frames.st_offset st + zlen (Frames.st_data st));
  ca_fin : Frames.fin st = true →
    Frames.st_offset st + zlen (Frames.st_data st) = zlen (stream_data wr (Frames.st_id st));
}.

(** The stream after a frame was taken from it. *)
Lemma stream_transmit d ms ss id max_len r el b : stream_sent d ms ss → Send.is_reset ss = false → is_u 62 id →
  17 ≤ max_len ≤ u_max 32 → SendBuffer.poll_transmit max_len (Send.pending ss) = ((r, el), b) →
  let fin := (r.2 =? SendBuffer.offset b) && match Send.state ss with Send.DataSent _ => true | _ => false end in
  let ss' := ss <| Send.pending := b |> in
  let ss' := if fin then ss' <| Send.fin_pending := false |> else ss' in
  stream_sent d (Frames.mk_stream_meta id r fin :: ms) ss' ∧ Send.is_reset ss' = false
  ∧ unacked_of (Some ss') = unacked_of (Some ss) ∧ Send.state ss' = Send.state ss
  ∧ (0 ≤ r.1 ≤ r.2 ∧ r.2 ≤ zlen d) ∧ (fin = true → r.2 = zlen d)
  ∧ r.2 - r.1 + SendBuffer.offset_size r.1 + (if el then 8 else 0) ≤ max_len
  ∧ (el = false → r.2 - r.1 + SendBuffer.offset_size r.1 = max_len)
  ∧ SendBuffer.copy_range (Z.to_nat (r.2 - r.1)) r b = Some (slice d r).
Proof.
  intros [Ho Hl Hf Hb Hfin] Hr Hid Hlen Hpoll fin ss1 ss'. subst ss'. specialize (Hb Hr).
  destruct (SendBuffer.transmit_exact _ max_len r el b Hb) as (Hb' & Hrng & _ & Hsz & Hel & _ & Hcopy); [simpl; lia | lia | done |].
  cbn [SendBuffer.data SendBuffer.flight] in *. pose proof (buffered_len _ _ _ Hb') as Hlen'.
  assert (Hu : SendBuffer.unacked b = SendBuffer.unacked (Send.pending ss)).
  { unfold SendBuffer.poll_transmit in Hpoll. unfold SendBuffer.unacked.
    destruct (RangeSet.pop_min _) as [[] ?]; destruct (SendBuffer.frame_space _ _ _); by injection Hpoll as <- <- <-. }
  assert (Hss1 : ∀ fp, (Send.state ss = Send.DataSent false → fp = true ∨ fin = true ∨ Exists (λ m, Frames.m_fin m = true) ms) →
    stream_sent d (Frames.mk_stream_meta id r fin :: ms) (ss1 <| Send.fin_pending := fp |>)).
  { intros fp Hfp. split; [by rewrite <- Hlen' | done | by constructor | |].
    - intros _. rewrite ranges_cons. simpl. destruct (Z.ltb_spec r.1 r.2); [by rewrite decide_True | by rewrite decide_False by lia].
    - intros E. simpl. destruct (Hfp E) as [| [|]]; [by left | right; by left | right; by right]. }
  assert (Hss' : stream_sent d (Frames.mk_stream_meta id r fin :: ms) (if fin then ss1 <| Send.fin_pending := false |> else ss1)).
  { destruct fin eqn:Ef; [apply Hss1; by right; left |].
    assert (ss1 = ss1 <| Send.fin_pending := Send.fin_pending ss |>) as -> by (by destruct ss). apply Hss1.
    intros E. destruct (Hfin E); [by left | by right; right]. }
  split_and!; try done; try lia.
  - by destruct fin.
  - unfold unacked_of. assert (Send.is_reset (if fin then ss1 <| Send.fin_pending := false |> else ss1) = false) as -> by (by destruct fin).
    rewrite Hr. by destruct fin.
  - by destruct fin.
  - intros E. subst fin. apply andb_true_iff in E as [E%Z.eqb_eq _]. lia.
Qed.

(** ** The queue *)

Lemma pop_known wr fl s p q : send_inv wr fl s → PendingStreamsQueue.pop (pending s) = (Some p, q) →
  known s (PendingStreamsQueue.p_id p) ∧ Forall (known s) (queued q).
Proof.
  intros Hinv Hpop. destruct (queued_pop _ _ _ Hpop) as [Eq _]. pose proof (si_queued _ _ _ Hinv) as Hq.
  rewrite Eq in Hq. by apply Forall_cons in Hq.
Qed.

(** A stream that is gone or reset is dropped from the queue. *)
Lemma pop_skip wr fl s p q : send_inv wr fl s → PendingStreamsQueue.pop (pending s) = (Some p, q) →
  (∀ ss, send s !! PendingStreamsQueue.p_id p = Some (Some ss) → Send.is_reset ss = true) →
  send_inv wr fl (s <| pending := q |>).
Proof.
  intros Hinv Hpop Hr. destruct (pop_known _ _ _ _ _ Hinv Hpop) as [_ Hq]. destruct (queued_pop _ _ _ Hpop) as [Eq _].
  destruct Hinv as [H1 H2 H3 H4 H5 H6 H7 H8 H9 H10 H11]. split; try done.
  intros id ss E Er Ep. specialize (H7 id ss E Er Ep). rewrite Eq in H7. apply elem_of_cons in H7 as [-> |]; [| done].
  specialize (Hr ss E). congruence.
Qed.

(** The queue after a round. *)
Definition requeue (fair : bool) (id : Z) (ss : Send.Send) (q : PendingStreamsQueue.PendingStreamsQueue) :=
  if Send.is_pending ss then
    (if fair then PendingStreamsQueue.push_pending else PendingStreamsQueue.reinsert_pending) id (Send.priority ss) q
  else q.

Lemma queued_requeue fair id ss q : PendingStreamsQueue.next q = None →
  queued (requeue fair id ss q) ≡ₚ if Send.is_pending ss then id :: queued q else queued q.
Proof.
  intros Hn. unfold requeue. destruct (Send.is_pending ss); [| done].
  destruct fair; [apply queued_push | by rewrite queued_reinsert].
Qed.

(** One round that writes a frame. *)
Lemma round_inv wr fl s p q ss max_len r el b fair :
  let id := PendingStreamsQueue.p_id p in
  let fin := (r.2 =? SendBuffer.offset b) && match Send.state ss with Send.DataSent _ => true | _ => false end in
  let ss' := if fin then ss <| Send.pending := b |> <| Send.fin_pending := false |> else ss <| Send.pending := b |> in
  send_inv wr fl s → count_inv s → PendingStreamsQueue.pop (pending s) = (Some p, q) → send s !! id = Some (Some ss) →
  Send.is_reset ss = false → 17 ≤ max_len ≤ u_max 32 →
  SendBuffer.poll_transmit max_len (Send.pending ss) = ((r, el), b) →
  send_inv wr (Frames.mk_stream_meta id r fin :: fl) ((put_send id ss' s) <| pending := requeue fair id ss' q |>).
Proof.
  intros id fin ss' Hinv Hc Hpop Hss Hr Hlen Hpoll. pose proof (si_stream _ _ _ Hinv id ss Hss) as Hok.
  destruct (pop_known _ _ _ _ _ Hinv Hpop) as [Hk Hq]. destruct (queued_pop _ _ _ Hpop) as [Eq Hn].
  assert (Hid : is_u 62 id) by (apply (id_range s); eauto).
  pose proof (stream_transmit _ _ ss id max_len r el b Hok Hr Hid Hlen Hpoll) as (Hok' & Hr' & Hu & _ & _).
  fold fin in Hok', Hr', Hu. fold ss' in Hok', Hr', Hu.
  pose proof (si_data _ _ _ Hinv) as [? ?]. pose proof (si_window _ _ _ Hinv).
  pose proof (queued_requeue fair id ss' q Hn) as Hrq.
  eapply quiet_send; [| apply (update_send wr fl s id (Some ss) ss' wr (Frames.mk_stream_meta id r fin :: fl) (requeue fair id ss' q)
    (data_sent s) (unacked_data s)); try done; try lia].
  - by apply quiet_same.
  - intros i Hi. split; [done |]. rewrite (metas_cons_ne (Frames.mk_stream_meta id r fin)) by done. done.
  - rewrite (metas_cons (Frames.mk_stream_meta id r fin)). done.
  - by left.
  - constructor; [done | apply (si_flight _ _ _ Hinv)].
  - rewrite Hrq. destruct (Send.is_pending ss'); [by constructor | done].
  - intros i Hi. rewrite Eq, Hrq. intros [|]%elem_of_cons; [done |]. destruct (Send.is_pending ss'); [by right | done].
  - intros _ Hp. rewrite Hrq, Hp. left.
Qed.

(** ** The loop *)

(** What the loop gives, from a packet [buf] on. *)
Record transmitted (wr : gmap Z (list Z)) (fl : list Frames.StreamMeta) (max_size : Z) (buf : list Z) (s : StreamsState)
  (fs : list (Frames.Stream * bool)) (out : list Z) (s' : StreamsState) : Prop := {
  tr_inv : send_inv wr ((meta_of ∘ fst <$> fs) ++ fl) s';
  tr_unmoved : unmoved s s';
  tr_advance : advance s s';
  tr_fin : Forall (λ p, Frames.fin p.1 = true → closed s' (Frames.st_id p.1)) fs;
  tr_bytes : Frames.payload_bytes 0 (to_frame <$> fs) = Ok out;
  tr_delimited : Frames.delimited (to_frame <$> fs);
  tr_carries : Forall (λ p, carries wr p.1) fs;
  tr_fits : zlen buf ≤ max_size → zlen (buf ++ out) ≤ max_size;
  tr_full : max_size ≤ zlen buf + Frames.SIZE_BOUND Frames.SStream → fs = [];
  tr_stops : queued (pending s') = [] ∨ max_size ≤ zlen (buf ++ out) + Frames.SIZE_BOUND Frames.SStream;
}.

Lemma transmitted_nil wr fl max_size buf s : send_inv wr fl s →
  queued (pending s) = [] ∨ max_size ≤ zlen buf + Frames.SIZE_BOUND Frames.SStream →
  transmitted wr fl max_size buf s [] [] s.
Proof. intros Hinv Hstop. split; try done; rewrite app_nil_r; done. Qed.

(** Nothing but the queue changed before. *)
Lemma transmitted_unmoved wr fl max_size buf s s1 fs out s' : unmoved s s1 → advance s s1 →
  transmitted wr fl max_size buf s1 fs out s' → transmitted wr fl max_size buf s fs out s'.
Proof. intros Hu Ha []. split; try done; [by etrans | by etrans]. Qed.

(** A frame is put in front. *)
Lemma transmitted_cons wr fl max_size buf s s1 st el bs fs out s' : unmoved s s1 → advance s s1 →
  (Frames.fin st = true → closed s1 (Frames.st_id st)) → carries wr st →
  Frames.frame_bytes el 0 (Frames.FStream st) = Ok bs → zlen (buf ++ bs) ≤ max_size →
  (el = false → zlen (buf ++ bs) = max_size) → zlen buf + Frames.SIZE_BOUND Frames.SStream < max_size →
  transmitted wr (meta_of st :: fl) max_size (buf ++ bs) s1 fs out s' →
  transmitted wr fl max_size buf s ((st, el) :: fs) (bs ++ out) s'.
Proof.
  intros Hu Ha Hf Hca Hb Hfit Hel Hroom [H1 H2 Ha' Hf' H3 H4 H5 H6 H7 H8]. split.
  - csimpl. eapply send_inv_proper; [| reflexivity | exact H1]. cbn [compose fst]. apply Permutation_middle.
  - by etrans.
  - by etrans.
  - constructor; [| done]. simpl. intros Hfin. by apply Ha', Hf.
  - change (to_frame <$> (st, el) :: fs) with ((Frames.FStream st, el) :: (to_frame <$> fs)). cbn [Frames.payload_bytes]. by rewrite Hb, H3.
  - change (to_frame <$> (st, el) :: fs) with ((Frames.FStream st, el) :: (to_frame <$> fs)). cbn [Frames.delimited]. split; [| done]. intros _. destruct el; [by left | right]. cbn [snd]. rewrite H7; [done |].
    rewrite (Hel eq_refl). simpl. lia.
  - by constructor.
  - intros _. rewrite app_assoc. by apply H6.
  - lia.
  - by rewrite app_assoc.
Qed.

Lemma stream_bytes id r fin el h data : r.1 ≤ r.2 → zlen data = r.2 - r.1 →
  Frames.stream_meta_encode (Frames.mk_stream_meta id r fin) el = Ok h →
  Frames.frame_bytes el 0 (Frames.FStream (Frames.mk_stream id r.1 fin data)) = Ok (h ++ data)
  ∧ meta_of (Frames.mk_stream id r.1 fin data) = Frames.mk_stream_meta id r fin.
Proof.
  intros Hr Hd Hh. unfold meta_of. cbn [Frames.frame_bytes Frames.st_id Frames.st_offset Frames.fin Frames.st_data].
  rewrite Hd. replace (r.1 + (r.2 - r.1)) with r.2 by lia. destruct r as [a e]. cbn [fst snd]. by rewrite Hh.
Qed.

Lemma write_stream_loop_spec wr max_size fair : max_size ≤ u_max 32 → ∀ fuel buf frames fl s,
  send_inv wr fl s → count_inv s → (length (queued (pending s)) + Z.to_nat (max_size - zlen buf) ≤ fuel)%nat →
  ∃ fs out s', write_stream_loop fuel max_size fair buf frames s
      = Some (buf ++ out, frames ++ (meta_of ∘ fst <$> fs), s')
    ∧ transmitted wr fl max_size buf s fs out s'.
Proof.
  intros Hmax. induction fuel as [|fuel IH]; intros buf frames fl s Hinv Hc Hfuel; cbn [write_stream_loop].
  all: destruct (Z.ltb_spec (zlen buf + Frames.SIZE_BOUND Frames.SStream) max_size) as [Hroom | Hfull];
    [| exists [], [], s; rewrite !app_nil_r; split; [done |]; apply transmitted_nil; [done | by right]].
  { simpl in Hroom. lia. }
  destruct (PendingStreamsQueue.pop (pending s)) as [[p |] q] eqn:Hpop; destruct (queued_pop _ _ _ Hpop) as [Eq Hn].
  2:{ assert (Hq : pending s = q) by (unfold PendingStreamsQueue.pop in Hpop; repeat case_match; simplify_eq; done).
      exists [], [], s. rewrite !app_nil_r, <- Hq. split; [by destruct s |]. apply transmitted_nil; [done | left].
      unfold PendingStreamsQueue.pop in Hpop. unfold queued, PendingStreamsQueue.iter. by repeat case_match; simplify_eq. }
  rewrite Eq in Hfuel. cbn [length] in Hfuel. set (id := PendingStreamsQueue.p_id p) in *.
  change (send (s <| pending := q |>)) with (send s).
  assert (Hskip : send_inv wr fl (s <| pending := q |>) → ∃ fs out s',
    write_stream_loop fuel max_size fair buf frames (s <| pending := q |>) = Some (buf ++ out, frames ++ (meta_of ∘ fst <$> fs), s')
    ∧ transmitted wr fl max_size buf s fs out s').
  { intros Hinv'. destruct (IH buf frames fl (s <| pending := q |>) Hinv') as (fs & out & s' & E & Ht).
    - by apply (count_inv_view s).
    - simpl. lia.
    - exists fs, out, s'. split; [done |]. by apply (transmitted_unmoved _ _ _ _ _ (s <| pending := q |>)); [| apply advance_same |]. }
  destruct (send s !! id) as [[ss |] |] eqn:Es.
  2,3: apply Hskip, (pop_skip _ _ _ p); [done | done | fold id; congruence].
  destruct (Send.is_reset ss) eqn:Er; [apply Hskip, (pop_skip _ _ _ p); [done | done | fold id; congruence] |].
  clear Hskip. set (room := max_size - zlen buf - 1 - VarInt.size id).
  pose proof (VarInt.size_bounds id). pose proof (zlen_nonneg buf). cbn [Frames.SIZE_BOUND] in Hroom.
  destruct (SendBuffer.poll_transmit room (Send.pending ss)) as [[r el] b] eqn:Hpoll.
  assert (Hid : is_u 62 id) by (apply (id_range s); eauto). assert (Hlen : 17 ≤ room ≤ u_max 32) by lia.
  pose proof (si_stream _ _ _ Hinv id ss Es) as Hok. pose proof (st_limit _ _ _ Hok).
  destruct (stream_transmit _ _ ss id room r el b Hok Er Hid Hlen Hpoll) as (_ & _ & _ & _ & [Hr Hr2] & Hfin & Hsz & Hel & Hcopy).
  pose proof (round_inv wr fl s p q ss room r el b fair Hinv Hc Hpop Es Er Hlen Hpoll) as Hinv'. fold id in Hinv'.
  change (Send.state (ss <| Send.pending := b |>)) with (Send.state ss).
  set (fin := (r.2 =? _) && _) in *. set (ss' := if fin then _ else _) in *.
  destruct (stream_header id r fin el) as (h & Eh & Hh); [done | unfold is_u; lia.. |]. rewrite Eh, Hcopy. cbn [mbind option_bind].
  set (data := slice _ r) in *. assert (Hdata : zlen data = r.2 - r.1) by (apply zlen_slice; lia).
  destruct (stream_bytes id r fin el h data) as [Hfb Hmeta]; [lia | done | done |].
  set (s1 := if Send.is_pending ss' then _ else _).
  assert (Es1 : s1 = (put_send id ss' s) <| pending := requeue fair id ss' q |>).
  { subst s1. unfold requeue. by destruct (Send.is_pending ss'). }
  assert (Hu1 : unmoved s s1) by (rewrite Es1; etrans; [by apply (unmoved_put id ss'); eauto | done]).
  assert (Hq1 : (length (queued (pending s1)) ≤ S (length (queued q)))%nat).
  { rewrite Es1. cbn -[queued requeue]. rewrite (queued_requeue fair id ss' q Hn). destruct (Send.is_pending ss'); simpl; lia. }
  assert (Ha1 : advance s s1).
  { rewrite Es1. etrans; [apply (advance_put id ss ss'); [done | subst ss'; by destruct fin] | by apply advance_same]. }
  assert (Hc1 : fin = true → closed s1 id).
  { intros Ef. rewrite Es1. split; [by apply (pop_known _ _ _ _ _ Hinv Hpop) |]. simpl. rewrite lookup_insert_eq. subst ss'. rewrite Ef.
    simpl. subst fin. apply andb_true_iff in Ef as [_ Ef]. by destruct (Send.state ss). }
  rewrite <- Es1, <- Hmeta in Hinv'. rewrite <- Hmeta. clearbody s1.
  assert (Hbuf : zlen (buf ++ h ++ data) = zlen buf + zlen h + (r.2 - r.1)) by (rewrite !zlen_app; lia).
  pose proof (VarInt.size_bounds (r.2 - r.1)). assert (0 ≤ SendBuffer.offset_size r.1) by (pose proof (VarInt.size_bounds r.1); unfold SendBuffer.offset_size; destruct (r.1 =? 0); lia).
  destruct (IH (buf ++ h ++ data) (frames ++ [meta_of (Frames.mk_stream id r.1 fin data)]) _ s1 Hinv') as (fs & out & s' & E & Ht).
  - by apply (unmoved_count s).
  - rewrite Hbuf. assert (2 ≤ zlen h) by (destruct el; lia). lia.
  - exists ((Frames.mk_stream id r.1 fin data, el) :: fs), ((h ++ data) ++ out), s'. split; [by rewrite E; csimpl; rewrite <- !app_assoc |].
    apply (transmitted_cons wr fl max_size buf s s1); try done.
    + split; simpl; rewrite ?Hdata; try replace (r.1 + (r.2 - r.1)) with r.2 by lia; [done | lia | lia | lia | by destruct r | done].
    + rewrite Hbuf. destruct el; lia.
    + intros ->. rewrite Hbuf. lia.
Qed.

End StreamsTransmit.
