(* ===== verification/StreamsLimits.v ===== *)
(** * Limits, events and control frames

    What the peer's limits, the events taken by the application and the control frames of a
    packet do to the accounting of both directions. *)

From Stdlib Require Import String.
From stdpp Require Import gmap fin_maps fin_sets.
From S2P Require Import Prelude BTree RangeSets Coding SendBuf Assembler NatFrames Frames Sums.
From S2P Require Import StreamSend StreamRecv TransportParams StreamQueue Streams StreamsSend StreamsRecvProofs StreamsCount.
From S2P Require Import StreamsCountOps StreamsSendProofs.

Module StreamsLimits.
Import StreamsState StreamsSend StreamsRecvProofs StreamsCount StreamsSendProofs.

(** ** The peer's limits *)

Lemma received_max_data_inv wr fl n s : send_inv wr fl s → 0 ≤ n < 2 ^ 62 →
  send_inv wr fl (received_max_data n s) ∧ unmoved s (received_max_data n s).
Proof.
  intros [H1 H2 H3 H4 H5 H6 H7 H8 H9 H10 H11] Hn. split; [| by split]. split; try done. simpl. lia.
Qed.

Lemma received_max_streams_inv wr fl d n s s' r : send_inv wr fl s → count_inv s → (∀ d, sel d (max s) ≤ 2 ^ 60) →
  received_max_streams d n s = (s', r) →
  send_inv wr fl s' ∧ count_inv s' ∧ (∀ d, sel d (max s') ≤ 2 ^ 60) ∧ recv_view s' = recv_view s
  ∧ (∀ d, sel d (max s) ≤ sel d (max s')).
Proof.
  intros Hinv Hc Hm. unfold received_max_streams, MAX_STREAM_COUNT. change (Z.shiftl 1 60) with (2 ^ 60).
  destruct (Z.ltb_spec (2 ^ 60) n); [intros; by simplify_eq |].
  destruct (Z.ltb_spec (sel d (max s)) n); [| intros; by simplify_eq]. intros [= <- <-]. split_and!.
  - destruct Hinv. by split.
  - by apply (count_inv_view s).
  - intros d'. cbn -[sel upd]. rewrite sel_upd. destruct (decide _); [done | apply Hm].
  - done.
  - intros d'. cbn -[sel upd]. rewrite sel_upd. destruct (decide (d' = d)) as [-> |]; lia.
Qed.

(** A frame that may open a stream leaves both directions alone. *)
Lemma on_stream_frame_inv wr fl b id s : send_inv wr fl s → count_inv s → 0 ≤ StreamId.index id →
  (StreamId.initiator id ≠ side s → StreamId.index id < sel (StreamId.dir id) (max_remote s)) →
  let s' := on_stream_frame b id s in
  send_inv wr fl s' ∧ count_inv s' ∧ recv_view s' = recv_view s ∧ max s' = max s.
Proof.
  intros Hinv Hc Hi Hlim s'. destruct (on_stream_frame_count b id s Hc Hi Hlim) as (? & [= <-] & Hc' & Hq).
  split_and!; [by eapply quiet_send | done | | by pose proof (qu_view _ _ Hq) as [= ? ?]].
  subst s'. unfold on_stream_frame. by repeat case_goal.
Qed.

Lemma increase_max_data_sent d ms off ss b ss' : stream_sent d ms ss → off < 2 ^ 62 → Send.increase_max_data off ss = (b, ss') →
  stream_sent d ms ss' ∧ Send.state ss' = Send.state ss ∧ Send.is_pending ss' = Send.is_pending ss
  ∧ unacked_of (Some ss') = unacked_of (Some ss).
Proof.
  intros Hok Ho. unfold Send.increase_max_data. destruct (Z.leb_spec off (Send.max_data ss)); cbn [orb]; [intros [= _ <-]; done |].
  case_goal; [intros [= _ <-]; done |]. intros [= _ <-]. split_and!; [| done..].
  destruct Hok. split; try done. simpl. lia.
Qed.

Lemma received_max_stream_data_inv wr fl id off s : send_inv wr fl s → count_inv s → is_u 64 id → off < 2 ^ 62 →
  (StreamId.initiator id ≠ side s → StreamId.index id < sel (StreamId.dir id) (max_remote s)) →
  let s' := (received_max_stream_data id off s).1 in
  send_inv wr fl s' ∧ count_inv s' ∧ recv_view s' = recv_view s ∧ max s' = max s.
Proof.
  intros Hinv Hc Hid Ho Hlim. unfold received_max_stream_data. case_goal; [done |].
  pose proof (index_nonneg _ Hid) as Hi.
  destruct (get_or_insert_send id s) as [[ss s1] |] eqn:Eg; [| case_goal; [done | by apply on_stream_frame_inv]].
  destruct (get_send _ _ _ _ _ _ Hinv Eg) as (Hinv1 & Hss & Hok & _). pose proof (unmoved_get _ _ _ _ Eg) as Hu1.
  destruct (Send.increase_max_data off ss) as [ub ss'] eqn:Ei.
  destruct (increase_max_data_sent _ _ _ _ _ _ Hok Ho Ei) as (Hok' & Hst & Hp & Hua).
  assert (Hr : Send.is_reset ss' = Send.is_reset ss) by (unfold Send.is_reset; by rewrite Hst). cbn [fst].
  match goal with |- context [on_stream_frame false id ?x] => set (s2 := x) end.
  assert (Hs2 : send_inv wr fl s2 ∧ unmoved s s2).
  { assert (Hput : ∀ c, send_inv wr fl (put_send id (ss' <| Send.connection_blocked := c |>) s1)
      ∧ unmoved s (put_send id (ss' <| Send.connection_blocked := c |>) s1)).
    { intros c. split; [| etrans; [exact Hu1 | by apply unmoved_put; eauto]].
      apply (put_send_inv wr fl s1 id ss); try done; [by destruct Hok' | by left | unfold Send.is_reset in *; simpl; by rewrite Hst]. }
    assert (Hsame : ss' = ss' <| Send.connection_blocked := Send.connection_blocked ss' |>) by (by destruct ss').
    destruct (Hput (Send.connection_blocked ss')) as [Ha Hb]. rewrite <- Hsame in Ha, Hb. destruct (Hput true) as [Ha' Hb'].
    subst s2. repeat case_goal; split; try done.
    - eapply quiet_send; [| exact Ha]. by apply quiet_same.
    - by etrans; [exact Hb |].
    - eapply quiet_send; [| exact Ha']. apply quiet_same; try done. simpl. by rewrite insert_insert_eq.
    - etrans; [exact Hb' |]. split; try done. unfold view. simpl. by rewrite insert_insert_eq. }
  destruct Hs2 as [Hinv2 Hu2]. clearbody s2.
  destruct (on_stream_frame_inv wr fl false id s2 Hinv2 (unmoved_count _ _ Hu2 Hc) Hi) as (? & ? & Hv & Hm).
  { destruct Hu2 as [[= E1 _ _ _ _ E2 _ _] _ _ _]. by rewrite E1, E2. }
  split_and!; [done | done | |]; [rewrite Hv; apply Hu2 | rewrite Hm; apply Hu2].
Qed.

Lemma received_stop_sending_inv wr fl id code s : send_inv wr fl s → count_inv s →
  let s' := received_stop_sending id code s in
  send_inv wr fl s' ∧ count_inv s' ∧ recv_view s' = recv_view s ∧ max s' = max s.
Proof.
  intros Hinv Hc. unfold received_stop_sending. destruct (get_or_insert_send id s) as [[ss s1] |] eqn:Eg; [| done].
  destruct (get_send _ _ _ _ _ _ Hinv Eg) as (Hinv1 & Hss & Hok & _). pose proof (unmoved_get _ _ _ _ Eg) as Hu1.
  pose proof (unmoved_count _ _ Hu1 Hc) as Hc1.
  destruct (ci_ids _ _ (proj1 Hc1)) as [Hids _]. destruct (Hids id) as [[Hid Hb] _]; [by eauto |].
  unfold Send.try_stop. destruct (Send.stop_reason ss).
  { split_and!; [apply (put_send_inv wr fl s1 id ss); try done; by left | | apply Hu1 | apply Hu1].
    apply (unmoved_count s1); [by apply unmoved_put; eauto | done]. }
  set (ss' := ss <| Send.stop_reason := Some code |>).
  assert (Hu2 : unmoved s (put_send id ss' s1)) by (etrans; [exact Hu1 | by apply unmoved_put; eauto]).
  assert (Hinv2 : send_inv wr fl (put_send id ss' s1)).
  { apply (put_send_inv wr fl s1 id ss); try done; [by destruct Hok | by left]. }
  cbv zeta. set (s2 := (put_send id ss' s1) <| events := events (put_send id ss' s1) ++ [Stopped id code] |>).
  assert (Hu3 : unmoved s s2) by (by etrans; [exact Hu2 |]).
  destruct (on_stream_frame_inv wr fl false id s2) as (? & ? & Hv & Hm).
  - eapply quiet_send; [| exact Hinv2]. by apply quiet_same.
  - by apply (unmoved_count s).
  - by apply index_nonneg.
  - intros Hne. rewrite decide_False in Hb; done.
  - split_and!; [done | done | |]; [rewrite Hv; apply Hu3 | rewrite Hm; apply Hu3].
Qed.

(** ** Events *)

Lemma poll_blocked_inv wr fl fuel : ∀ s, send_inv wr fl s →
  send_inv wr fl (poll_blocked fuel s).2 ∧ unmoved s (poll_blocked fuel s).2.
Proof.
  induction fuel as [|fuel IH]; intros s Hinv; cbn [poll_blocked]; [done |].
  destruct (vec_pop (connection_blocked s)) as [[id rest] |]; [| done].
  change (send (s <| connection_blocked := rest |>)) with (send s).
  assert (H1 : send_inv wr fl (s <| connection_blocked := rest |>)) by (eapply quiet_send; [| exact Hinv]; by apply quiet_same).
  assert (Hskip : send_inv wr fl (poll_blocked fuel (s <| connection_blocked := rest |>)).2
    ∧ unmoved s (poll_blocked fuel (s <| connection_blocked := rest |>)).2).
  { destruct (IH _ H1) as [? Hu]. split; [done |]. by etrans; [| exact Hu]. }
  destruct (send s !! id) as [[ss |] |] eqn:Es; [| done..].
  set (s1 := put_send id _ _). assert (H2 : send_inv wr fl s1 ∧ unmoved s s1).
  { split; [| etrans; [| by apply unmoved_put; eauto]; done].
    apply (put_send_inv wr fl (s <| connection_blocked := rest |>) id ss); try done; [| by left].
    by destruct (si_stream _ _ _ Hinv id ss Es). }
  case_goal; [done |]. destruct H2 as [H2 Hu2]. destruct (IH _ H2) as [? Hu]. split; [done | by etrans].
Qed.

Lemma poll_send_inv wr fl s : send_inv wr fl s → send_inv wr fl (poll s).2 ∧ unmoved s (poll s).2.
Proof.
  intros Hinv. assert (Hsame : ∀ s1 s', send_inv wr fl s1 → unmoved s s1 → quiet s1 s' → unmoved s1 s' →
    send_inv wr fl s' ∧ unmoved s s') by (intros; split; [by eapply quiet_send | by etrans]).
  unfold poll. case_goal; [by apply (Hsame s); try done; apply quiet_same |].
  case_goal; [by apply (Hsame s); try done; apply quiet_same |].
  assert (Hb : let p := if 0 <? write_limit s then poll_blocked (length (connection_blocked s)) s else (None, s) in
    send_inv wr fl p.2 ∧ unmoved s p.2) by (cbv zeta; case_goal; [by apply poll_blocked_inv | done]).
  cbv zeta in Hb. destruct (if 0 <? write_limit s then _ else _) as [e s1]. cbn [snd] in Hb. destruct Hb as [H1 H2].
  destruct e; [done |]. destruct (events s1); [done |]. by apply (Hsame s1); try done; apply quiet_same.
Qed.

(** ** Control frames *)

(** What writing control frames does to the streams. *)
Record controlled (s s' : StreamsState) : Prop := {
  co_view : view s' = view s;
  co_count : send_streams s' = send_streams s ∧ max_concurrent_remote_count s' = max_concurrent_remote_count s;
  co_send : send_view s' = send_view s ∧ send s' = send s;
  co_recv extra : recv_inv extra s → recv_inv extra s' ∧ local_max_data s' = local_max_data s;
  co_streams id : recv s' !! id = recv s !! id
    ∨ ∃ r x, recv s !! id = Some (Some (ROpen r)) ∧ recv s' !! id = Some (Some (ROpen (r <| Recv.sent_max_stream_data := x |>)));
}.

#[global] Instance controlled_preorder : PreOrder controlled.
Proof.
  split; [split; try done; by left |]. intros s1 s2 s3 [? [? ?] [? ?] Hr Hi] [? [? ?] [? ?] Hr' Hi']. split; [congruence | split; congruence.. | |].
  - intros extra Hx. destruct (Hr extra Hx) as [Hx2 <-]. by apply Hr'.
  - intros id. destruct (Hi id) as [E | (r & x & E1 & E2)], (Hi' id) as [E' | (r' & x' & E1' & E2')].
    + left. congruence.
    + right. exists r', x'. split; congruence.
    + right. exists r, x. split; congruence.
    + right. exists r, x'. split; [done |]. rewrite E2'. rewrite E2 in E1'. by injection E1' as <-.
Qed.

Lemma controlled_same s s' : view s' = view s → send_streams s' = send_streams s →
  max_concurrent_remote_count s' = max_concurrent_remote_count s → send_view s' = send_view s → send s' = send s →
  recv_view s' = recv_view s → controlled s s'.
Proof.
  intros Hv Hss Hmc Hsv Hs Hr. split; try done; [| intros id; left; by injection Hr as ->]. intros extra Hinv. split; [| by injection Hr].
  apply (unmoved_recv extra s); [| done]. split; try done. by injection Hsv.
Qed.

Lemma controlled_inv wr fl s s' : controlled s s' → send_inv wr fl s → count_inv s →
  send_inv wr fl s' ∧ count_inv s' ∧ max s' = max s.
Proof.
  intros [Hv [Hss Hmc] [Hsv Hs] _ _] Hinv Hc. split_and!; [| by apply (count_inv_view s) | by injection Hsv].
  eapply quiet_send; [| exact Hinv]. injection Hv. by intros; apply quiet_same.
Qed.

Lemma put_streams bytes w : w_streams (put bytes w).2 = w_streams w.
Proof. by destruct bytes. Qed.

(** RESET_STREAM carries the stream's size, which fits. *)
Lemma write_resets_streams wr fl fuel max_size : ∀ w, send_inv wr fl (w_streams w) →
  ∃ r w', write_resets fuel max_size w = Some (r, w') ∧ w_streams w' = w_streams w.
Proof.
  induction fuel as [|fuel IH]; intros w Hinv; cbn [write_resets]; [by do 2 eexists |].
  destruct (vec_pop _) as [[[id code] rest] |]; [| by do 2 eexists]. case_goal; [| by do 2 eexists].
  cbn [w_streams]. set (w1 := w <| w_pending := _ |>). change (send (w_streams w1)) with (send (w_streams w)).
  destruct (send (w_streams w) !! id) as [[ss |] |] eqn:Es; [| exact (IH w1 Hinv)..].
  pose proof (si_stream _ _ _ Hinv id ss Es) as [Ho Hl _ _ _]. destruct (Z.leb_spec (2 ^ 62) (Send.offset ss)); [lia |].
  match goal with |- context [put ?b ?w] => pose proof (put_streams b w) as Hp; destruct (put b w) as [[] w2] end;
    simpl in Hp; [| by do 2 eexists].
  rewrite <- Hp in Hinv |- *. by apply IH.
Qed.

Lemma write_stop_sending_streams fuel max_size : ∀ w, w_streams (write_stop_sending fuel max_size w).2 = w_streams w.
Proof.
  induction fuel as [|fuel IH]; intros w; cbn [write_stop_sending]; [done |].
  destruct (vec_pop _) as [[frame rest] |]; [| done]. case_goal; [| done].
  match goal with |- context [put ?b ?w] => pose proof (put_streams b w) as Hp; destruct (put b w) as [[] w2] end; [| done].
  rewrite IH. exact Hp.
Qed.

Lemma write_max_data_streams max_size w : controlled (w_streams w) (w_streams (write_max_data max_size w).2).
Proof. unfold write_max_data. case_goal; [| done]. rewrite put_streams. simpl. case_goal; by apply controlled_same. Qed.

Lemma write_max_streams_streams d max_size w : controlled (w_streams w) (w_streams (write_max_streams d max_size w).2).
Proof. unfold write_max_streams. case_goal; [done |]. rewrite put_streams. by apply controlled_same. Qed.

Lemma write_max_stream_data_streams iter_next fuel max_size extra : ∀ w, recv_inv extra (w_streams w) →
  controlled (w_streams w) (w_streams (write_max_stream_data iter_next fuel max_size w).2).
Proof.
  induction fuel as [|fuel IH]; intros w Hr; cbn [write_max_stream_data]; [done |].
  destruct (iter_next _) as [id |]; [| done]. case_goal; [| done]. cbv zeta.
  set (w1 := w <| w_pending := _ |>). change (w_streams w1) with (w_streams w).
  destruct (recv (w_streams w) !! id) as [[[r | r] |] |] eqn:Er; [exact (IH w1 Hr) | | exact (IH w1 Hr)..].
  case_goal; [exact (IH w1 Hr) |]. destruct Hr as [Hwf Hb].
  pose proof (rw_streams _ Hwf id _ Er) as Hok. simpl in Hok. pose proof (rw_srw _ Hwf).
  destruct (Recv.max_stream_data_spec _ _ Hok) as [-> Hok']; [done |]. cbn [fst].
  set (r' := Recv.record_sent_max_stream_data _ r) in *.
  assert (Hc : controlled (w_streams w) (put_recv id r' (w_streams w))).
  { split; try done; [apply put_recv_view; eauto | |].
    2:{ intros i. simpl. destruct (decide (i = id)) as [-> |]; [right | left; by rewrite lookup_insert_ne]. rewrite lookup_insert_eq.
        subst r'. unfold Recv.record_sent_max_stream_data. exists r. case_goal; [by eexists |].
        exists (Recv.sent_max_stream_data r). split; [done |]. by destruct r. }
    intros extra' [Hwf' Hb']. split; [| done].
    destruct (put_recv_spec id r r' _ Hwf' Er Hok') as [Hwf2 Ht]. split; [done |].
    assert (unread (Some (ROpen r')) = unread (Some (ROpen r))) as Hu
      by (subst r'; unfold Recv.record_sent_max_stream_data; by case_goal).
    unfold nums in *. rewrite Ht, Hu. by replace (total_unread _ - _ + _) with (total_unread (w_streams w)) by lia. }
  match goal with |- context [put ?b ?w] => pose proof (put_streams b w) as Hp; destruct (put b w) as [[] w2] end;
    simpl in Hp; [| simpl; by rewrite Hp]. etrans; [exact Hc |]. rewrite <- Hp in *. apply IH. by apply (co_recv _ _ Hc).
Qed.

Lemma write_control_frames_inv iter_next max_size w wr fl extra : send_inv wr fl (w_streams w) → recv_inv extra (w_streams w) →
  ∃ r w', write_control_frames iter_next max_size w = Some (r, w') ∧ controlled (w_streams w) (w_streams w').
Proof.
  intros Hs Hr. unfold write_control_frames.
  destruct (write_resets_streams wr fl (length (Retransmits.reset_stream (w_pending w))) max_size w Hs) as (r1 & w1 & -> & E1).
  cbn [mbind option_bind]. rewrite <- E1 in *. clear E1. destruct r1; [| by do 2 eexists].
  match goal with |- context [write_stop_sending ?f ?m ?w] =>
    pose proof (write_stop_sending_streams f m w) as E2; destruct (write_stop_sending f m w) as [r2 w2] end.
  cbn [snd] in E2. rewrite <- E2 in *. clear E2. destruct r2; [| by do 2 eexists].
  pose proof (write_max_data_streams max_size w2) as C3. destruct (write_max_data max_size w2) as [[] w3]; [| by do 2 eexists].
  cbn [snd] in C3. pose proof (proj1 (co_recv _ _ C3 _ Hr)) as Hr3.
  match goal with |- context [write_max_stream_data ?i ?f ?m ?w] =>
    pose proof (write_max_stream_data_streams i f m extra w Hr3) as C4; destruct (write_max_stream_data i f m w) as [[] w4] end;
    cbn [snd] in C4; [| do 2 eexists; split; [done |]; by etrans].
  pose proof (write_max_streams_streams Frames.Bi max_size w4) as C5. destruct (write_max_streams Frames.Bi max_size w4) as [[] w5];
    cbn [snd] in C5; [| do 2 eexists; split; [done |]; by repeat (etrans; [eassumption |])].
  pose proof (write_max_streams_streams Frames.Uni max_size w5) as C6.
  destruct (write_max_streams Frames.Uni max_size w5) as [r6 w6]. do 2 eexists. split; [done |].
  cbn [snd] in C6. by repeat (etrans; [eassumption |]).
Qed.

End StreamsLimits.
