(* ===== verification/StreamsSystem.v ===== *)
(** * The streams of a connection

    The operations of [StreamsState], [SendStream], [RecvStream], [Streams] and [Chunks] as
    one transition system, and what holds in all its states: no operation panics, the numbers
    of streams are exact, and both directions of flow control are respected. *)

From Stdlib Require Import String.
From stdpp Require Import gmap fin_maps fin_sets.
From S2P Require Import Prelude BTree RangeSets Coding SendBuf Assembler NatFrames Frames Sums.
From S2P Require Import StreamSend StreamRecv TransportParams StreamQueue Streams StreamsSend StreamsRecvProofs StreamsCount.
From S2P Require Import StreamsCountOps StreamsSendProofs StreamsTransmit StreamsLimits.

Module StreamsSystem.
Import StreamsState StreamsSend StreamsRecvProofs StreamsCount StreamsCountOps StreamsSendProofs StreamsTransmit StreamsLimits.

(** ** Operations *)

Inductive Op :=
(* the application *)
| OOpen (d : Frames.Dir)
| OAccept (d : Frames.Dir)
| OWrite (id : Z) (data : list Z)
| OWriteChunks (id : Z) (chunks : list (list Z))
| OFinish (id : Z)
| OReset (id error_code : Z)
| OSetPriority (id p : Z)
| OStop (id error_code : Z)
| ORead (id : Z) (lens : list Z)
| OReceivedReset (id : Z)
| OPoll
| OSetReceiveWindow (w : Z)
| OSetMaxConcurrent (d : Frames.Dir) (n : Z)
(* frames from the peer *)
| IStream (frame : Frames.Stream) (payload_len : Z)
| IResetStream (frame : Frames.ResetStream)
| IMaxData (n : Z)
| IMaxStreams (d : Frames.Dir) (n : Z)
| IMaxStreamData (id offset : Z)
| IStopSending (id error_code : Z)
(* the fate of the frame with index [i] in flight, and of a RESET_STREAM *)
| NAck (i : nat)
| NLost (i : nat)
| NResetAcked (id : Z)
(* packets being built *)
| TStreams (buf : list Z) (max_size : Z) (fair : bool)
| TControl (buf : list Z) (max_size : Z).

(** The streams and the retransmission queue of the connection; the rest is recorded for the
    properties: the data written and the data read on each stream, the streams read to their end, the
    frames in flight, the stream data sent, and whether no credit was given twice. *)
Record Sys := mk_sys {
  st : StreamsState;
  rtx : Retransmits.Retransmits;
  wr : gmap Z (list Z);
  fl : list Frames.StreamMeta;
  sent : list (list Z);
  rd : gmap Z (list Z);
  ended : gset Z;
  clean : bool;
}.

#[global] Instance sys_settable : Settable Sys := λ s,
  mk_sys (st s) (rtx s) (wr s) (fl s) (sent s) (rd s) (ended s) (clean s).

Section system.
Context (iter_next : gset Z → option Z).

(** The bytes a read session delivered, and whether it reached the end of the stream. *)
Definition read_bytes (rs : list (result (option Assembler.Chunk) ReadError)) : list Z :=
  concat ((λ r, match r with Ok (Some c) => Assembler.c_bytes c | _ => [] end) <$> rs).
Definition read_end (rs : list (result (option Assembler.Chunk) ReadError)) : bool :=
  existsb (λ r, match r with Ok None => true | _ => false end) rs.

Definition write_op `{BytesSource Src} (id : Z) (source : Src) (s : Sys) : option Sys :=
  '(r, s1) ← write_source false id source (st s);
  Some (s <| st := s1 |> <| wr := written_after id source r (wr s) |>).

Definition step (o : Op) (s : Sys) : option Sys :=
  match o with
  | OOpen d => '(_, s1) ← open false d (st s); Some (s <| st := s1 |>)
  | OAccept d => Some (s <| st := (accept d (st s)).2 |>)
  | OWrite id data => write_op id (ByteSlice.from_slice data) s
  | OWriteChunks id chunks => write_op id (BytesArray.from_chunks chunks) s
  | OFinish id => Some (s <| st := (finish id (st s)).2 |>)
  | OReset id code => let '(_, q, s1) := reset id code (rtx s) (st s) in Some (s <| st := s1 |> <| rtx := q |>)
  | OSetPriority id p => Some (s <| st := (set_priority id p (st s)).2 |>)
  | OStop id code =>
    '(_, q, s1) ← stop id code (rtx s) (st s);
    Some (s <| st := s1 |> <| rtx := q |> <| clean := clean s && negb (is_reset id (st s)) |>)
  | ORead id lens =>
    '(r, q, s1) ← read_session id lens (rtx s) (st s);
    let s := s <| st := s1 |> <| rtx := q |> in
    match r with
    | Ok rs =>
      Some (s <| rd := <[id := stream_data (rd s) id ++ read_bytes rs]> (rd s) |>
              <| ended := if read_end rs then {[id]} ∪ ended s else ended s |>)
    | Err _ => Some s
    end
  | OReceivedReset id => '(_, q, s1) ← observe_reset id (rtx s) (st s); Some (s <| st := s1 |> <| rtx := q |>)
  | OPoll => Some (s <| st := (poll (st s)).2 |>)
  | OSetReceiveWindow w => Some (s <| st := (set_receive_window w (st s)).1 |>)
  | OSetMaxConcurrent d n => s1 ← set_max_concurrent d n (st s); Some (s <| st := s1 |>)
  | IStream frame len => '(s1, _) ← received frame len (st s); Some (s <| st := s1 |>)
  | IResetStream frame =>
    '(s1, _) ← received_reset frame (st s);
    Some (s <| st := s1 |> <| clean := clean s && negb (is_stopped (Frames.rs_id frame) (st s)) |>)
  | IMaxData n => Some (s <| st := received_max_data n (st s) |>)
  | IMaxStreams d n => Some (s <| st := (received_max_streams d n (st s)).1 |>)
  | IMaxStreamData id off => Some (s <| st := (received_max_stream_data id off (st s)).1 |>)
  | IStopSending id code => Some (s <| st := received_stop_sending id code (st s) |>)
  | NAck i =>
    m ← fl s !! i; s1 ← received_ack_of m (st s);
    Some (s <| st := s1 |> <| fl := delete i (fl s) |>)
  | NLost i => m ← fl s !! i; Some (s <| st := retransmit m (st s) |> <| fl := delete i (fl s) |>)
  | NResetAcked id => s1 ← reset_acked id (st s); Some (s <| st := s1 |>)
  | TStreams buf max_size fair =>
    '(out, ms, s1) ← write_stream_frames buf max_size fair (st s);
    Some (s <| st := s1 |> <| fl := ms ++ fl s |> <| sent := zdrop (zlen buf) out :: sent s |>)
  | TControl buf max_size =>
    '(_, w) ← write_control_frames iter_next max_size (mk_writer buf (rtx s) None (st s));
    Some (s <| st := w_streams w |> <| rtx := w_pending w |>)
  end.

(** When an operation may happen: the application uses streams it knows and reads whole
    bytes, frames have passed the decoder and their FIN, if any, is not below the data
    received, MAX_STREAM_DATA is for a stream within the limit (see
    [StreamsProperties.max_stream_data_beyond_limit]), and there are identifiers left. *)
Definition has_room (s : StreamsState) : bool :=
  forallb (λ d, sel d (max_remote s) + sel d (max_concurrent_remote_count s) <=? 2 ^ 60) [Frames.Bi; Frames.Uni].

Definition in_u (w x : Z) : bool := bool_decide (is_u w x).

Definition enabled (o : Op) (s : Sys) : bool :=
  has_room (st s)
  && match o with
     | OWrite id data => bool_decide (known (st s) id) && forallb (in_u 8) data
     | OWriteChunks id chunks => bool_decide (known (st s) id) && forallb (in_u 8) (concat chunks)
     | OFinish id | OReset id _ | OSetPriority id _ | OStop id _ | OReceivedReset id => bool_decide (known (st s) id)
     | ORead id lens => bool_decide (known (st s) id) && forallb (Z.leb 1) lens
     | OSetReceiveWindow w => in_u 62 w
     | OSetMaxConcurrent d n => (0 <=? n) && (sel d (max_remote (st s)) + n <=? 2 ^ 60)
     | IStream frame len =>
       in_u 64 (Frames.st_id frame) && (0 <=? Frames.st_offset frame) && (zlen (Frames.st_data frame) <=? len)
       && fin_consistent frame (st s)
     | IResetStream frame => in_u 64 (Frames.rs_id frame) && in_u 62 (Frames.final_offset frame)
     | IMaxData n => in_u 62 n
     | IMaxStreamData id off =>
       in_u 64 id && in_u 62 off
       && (bool_decide (StreamId.initiator id = side (st s)) || (StreamId.index id <? sel (StreamId.dir id) (max_remote (st s))))
     | NAck i | NLost i => (Z.of_nat i <? zlen (fl s))
     | TStreams buf max_size _ => max_size <=? u_max 32
     | _ => true
     end.

(** ** Invariant *)

Definition streams_inv (w : gmap Z (list Z)) (f : list Frames.StreamMeta) (c : bool) (s : StreamsState) : Prop :=
  count_inv s ∧ (∀ d, sel d (max s) ≤ 2 ^ 60) ∧ send_inv w f s
  ∧ ∃ extra, 0 ≤ extra ∧ (c = true → extra = 0) ∧ recv_inv extra s.

Definition sys_inv (s : Sys) : Prop := streams_inv (wr s) (fl s) (clean s) (st s).

(** Every byte written and every FIN is in one place. *)
Lemma bytes_owned w fl s id ss : send_inv w fl s → send s !! id = Some (Some ss) → Send.is_reset ss = false →
  let b := Send.pending ss in
  let in_flight := metas_of id fl in
  (∀ x, 0 ≤ x < zlen (stream_data w id) →
    Z.b2z (SendBuffer.acked_b b x) + cover_count x (ranges in_flight)
      + Z.b2z (memb x (SendBuffer.retransmits b)) + Z.b2z (SendBuffer.unsent b <=? x) = 1
    ∧ (SendBuffer.acked_b b x = false → cover_count x (ranges in_flight) = 0 → id ∈ queued (pending s)))
  ∧ (Send.state ss = Send.DataSent false →
      Exists (λ m, Frames.m_fin m = true) in_flight ∨ (Send.fin_pending ss = true ∧ id ∈ queued (pending s))).
Proof.
  intros Hs Hid Hreset b in_flight. destruct (si_stream _ _ _ Hs id ss Hid) as [Ho _ _ Hb Hf].
  specialize (Hb Hreset). pose proof (si_pending _ _ _ Hs id ss Hid Hreset) as Hp. unfold Send.is_pending in Hp. split.
  - intros x Hx. pose proof (SendBuffer.inv_owners _ Hb x ltac:(lia)) as Hw. unfold SendBuffer.owners in Hw.
    cbn [SendBuffer.buf SendBuffer.flight] in Hw. fold b in_flight in Hw.
    assert (Hn : Z.b2z (x <? SendBuffer.unsent b) = 1 - Z.b2z (SendBuffer.unsent b <=? x)) by (rewrite Z.leb_antisym; by destruct (x <? _)).
    split; [lia |]. intros Ha Hc. apply Hp, orb_true_iff. left. rewrite Ha, Hc in Hw. unfold SendBuffer.has_unsent_data. fold b.
    destruct (Z.leb_spec (SendBuffer.unsent b) x) as [Hu | Hu].
    + unfold Send.offset in Ho. fold b in Ho. apply orb_true_iff. left. apply negb_true_iff, Z.eqb_neq. lia.
    + destruct (SendBuffer.retransmits b); [simpl in *; lia |]. apply orb_true_r.
  - intros E. destruct (Hf E) as [E' | ?]; [right | by left]. split; [done |]. apply Hp. rewrite E'. apply orb_true_r.
Qed.

(** *** The receiving side of the other operations *)

Lemma recv_inv_nums extra s s' : recv_inv extra s → recv_wf s' → nums s' = nums s → recv_inv extra s'.
Proof. intros [_ Hb] Hwf En. split; [done |]. by rewrite En. Qed.

Lemma view_recv extra s s' : recv_view s' = recv_view s → recv_inv extra s → recv_inv extra s'.
Proof.
  unfold recv_inv, nums, total_unread. intros [= E1 E2 E3 E4 E5 E6 E7]. rewrite E1, E3, E4, E5, E6. intros [[] ?].
  split; [split; by rewrite ?E1, ?E2, ?E3, ?E7 | done].
Qed.

Lemma open_recv extra closed d s r s' : recv_inv extra s → open closed d s = Some (r, s') → recv_inv extra s'.
Proof.
  intros Hr. unfold open. repeat case_goal; [by intros [= _ <-].. |]. intros E. apply bind_Some in E as (s1 & E1 & [= _ <-]).
  apply insert_recv in E1 as (Hwf & En & _).
  - apply (recv_inv_nums _ s); [done | by destruct Hwf | exact En].
  - by destruct Hr as [[] _].
Qed.

Lemma freed_recv extra id half s s' : recv_inv extra s → stream_freed id half s = Some s' → recv_inv extra s'.
Proof. intros Hr E. apply stream_freed_recv in E as (? & ? & _); [by apply (recv_inv_nums _ s) | apply Hr]. Qed.

Lemma received_ack_of_recv extra m s s' : recv_inv extra s → received_ack_of m s = Some s' → recv_inv extra s'.
Proof.
  intros Hr. unfold received_ack_of. destruct (send s !! _) as [[ss |] |]; [| by intros [= <-]..].
  case_goal; [by intros [= <-] |]. intros E. apply bind_Some in E as ([dn ss'] & _ & E). destruct dn.
  - apply bind_Some in E as (s1 & E & [= <-]). apply (view_recv _ s1); [done |].
    eapply freed_recv; [| exact E]. by apply (view_recv _ s).
  - injection E as <-. by apply (view_recv _ s).
Qed.

Lemma reset_acked_recv extra id s s' : recv_inv extra s → reset_acked id s = Some s' → recv_inv extra s'.
Proof.
  intros Hr. unfold reset_acked. destruct (send s !! _) as [[ss |] |]; [| by intros [= <-]..].
  case_goal; [| by intros [= <-]]. intros E. eapply freed_recv; [| exact E]. by apply (view_recv _ s).
Qed.

Lemma set_max_concurrent_recv extra d n s s' : recv_inv extra s → set_max_concurrent d n s = Some s' → recv_inv extra s'.
Proof.
  intros Hr E. apply ensure_remote_recv in E as (? & En & _); [by apply (recv_inv_nums _ s) |].
  by destruct Hr as [[] _].
Qed.

(** *** Preservation, by kind of operation *)

Lemma inv_quiet w f c c' s s1 : streams_inv w f c s → count_inv s1 → quiet s s1 →
  (∀ extra, 0 ≤ extra → recv_inv extra s → ∃ x, 0 ≤ x ∧ (c' = true → c = true ∧ x = 0) ∧ recv_inv (extra + x) s1) →
  streams_inv w f c' s1.
Proof.
  intros (Hc & Hm & Hs & extra & H0 & Hcl & Hr) Hc1 Hq Hr1. destruct (Hr1 extra H0 Hr) as (x & Hx & Hx0 & Hr2).
  split_and!; [done | | by eapply quiet_send | exists (extra + x); split_and!; [lia | | done]].
  - pose proof (qu_view _ _ Hq) as [= _ Ex]. by rewrite Ex.
  - intros Hc'. destruct (Hx0 Hc') as [Hcc ->]. rewrite (Hcl Hcc). done.
Qed.

Lemma inv_quiet_same w f c s s1 : streams_inv w f c s → count_inv s1 → quiet s s1 →
  (∀ extra, 0 ≤ extra → recv_inv extra s → recv_inv extra s1) → streams_inv w f c s1.
Proof.
  intros H Hc Hq Hr. eapply inv_quiet; [done.. |]. intros extra H0 Hx. exists 0. split_and!; [lia | done |].
  rewrite Z.add_0_r. by apply Hr.
Qed.

Lemma inv_sent w f w' f' c s s1 : streams_inv w f c s → count_inv s1 → send_inv w' f' s1 → max s1 = max s →
  (∀ extra, recv_inv extra s → recv_inv extra s1) → streams_inv w' f' c s1.
Proof.
  intros (Hc & Hm & Hs & extra & H0 & Hcl & Hr) Hc1 Hs1 Em Hr1.
  split_and!; [done | by rewrite Em | done | exists extra; split_and!; [done | done | by apply Hr1]].
Qed.

Lemma inv_unmoved w f w' f' c s s1 : streams_inv w f c s → send_inv w' f' s1 → unmoved s s1 → streams_inv w' f' c s1.
Proof.
  intros H Hs Hu. pose proof H as (Hc & _). apply (inv_sent w f w' f' c s); [done | by apply (unmoved_count s) | done | apply Hu |].
  intros extra. by apply unmoved_recv.
Qed.

(** Every operation that may happen succeeds and keeps the invariant. *)
Definition progress (s : Sys) (o : Op) : Prop := ∃ s', step o s = Some s' ∧ sys_inv s'.

Lemma room_spec s : has_room s = true → room s.
Proof.
  unfold has_room. simpl. rewrite !andb_true_iff, !Z.leb_le. intros (? & ? & _) []; simpl; lia.
Qed.

Lemma write_op_progress `{BytesSourceLaws Src} id (source : Src) s : sys_inv s → known (st s) id →
  ∃ s', write_op id source s = Some s' ∧ sys_inv s'.
Proof.
  intros Hinv Hk. pose proof Hinv as (Hc & _ & Hs & _). unfold write_op.
  destruct (write_source_inv (wr s) (fl s) false id source (st s) Hs Hk) as (r & s1 & -> & Hs1 & Hu).
  eexists. split; [done |]. by apply (inv_unmoved (wr s) (fl s) _ _ _ (st s)).
Qed.

(** What the application does on streams for sending, and opening streams. *)
Lemma app_progress o s : sys_inv s → enabled o s = true →
  match o with
  | OOpen _ | OAccept _ | OWrite _ _ | OWriteChunks _ _ | OFinish _ | OReset _ _ | OSetPriority _ _ | OPoll => progress s o
  | _ => True
  end.
Proof.
  intros Hinv He. pose proof Hinv as (Hc & Hm & Hs & _). apply andb_true_iff in He as [Hroom%room_spec He].
  destruct o; try done; unfold progress; cbn [step].
  - destruct (open_count false d (st s) Hc (Hm d)) as ([r s1] & E & Hc1 & Hq). rewrite E. simpl in Hc1, Hq. eexists. split; [done |].
    apply (inv_quiet_same _ _ _ (st s)); [done.. |]. intros extra _ Hr. by eapply open_recv.
  - destruct (accept_count d (st s) Hc) as (? & [= <-] & Hc1 & Hq). eexists. split; [done |].
    apply (inv_quiet_same _ _ _ (st s)); [done.. |]. intros extra _. apply view_recv. unfold accept. by repeat case_goal.
  - apply andb_true_iff in He as [Hk%bool_decide_eq_true _]. by apply write_op_progress.
  - apply andb_true_iff in He as [Hk%bool_decide_eq_true _]. by apply write_op_progress.
  - apply bool_decide_eq_true in He. destruct (finish id (st s)) as [r s1] eqn:E.
    destruct (finish_inv _ _ _ _ _ _ Hs He E). eexists. split; [done |]. by apply (inv_unmoved (wr s) (fl s) _ _ _ (st s)).
  - apply bool_decide_eq_true in He. destruct (reset id error_code (rtx s) (st s)) as [[r q] s1] eqn:E.
    destruct (reset_send_inv _ _ _ _ _ _ _ _ _ Hs He E). eexists. split; [done |]. by apply (inv_unmoved (wr s) (fl s) _ _ _ (st s)).
  - destruct (set_priority id p (st s)) as [r s1] eqn:E. destruct (set_priority_inv _ _ _ _ _ _ _ Hs E).
    eexists. split; [done |]. by apply (inv_unmoved (wr s) (fl s) _ _ _ (st s)).
  - destruct (poll_send_inv _ _ _ Hs). eexists. split; [done |]. by apply (inv_unmoved (wr s) (fl s) _ _ _ (st s)).
Qed.

(** What the application does on streams for receiving, and the limits it sets. *)
Lemma app_recv_progress o s : sys_inv s → enabled o s = true →
  match o with
  | OStop _ _ | ORead _ _ | OReceivedReset _ | OSetReceiveWindow _ | OSetMaxConcurrent _ _ => progress s o
  | _ => True
  end.
Proof.
  intros Hinv He. pose proof Hinv as (Hc & Hm & Hs & extra0 & _ & _ & Hr0). apply andb_true_iff in He as [Hroom%room_spec He].
  destruct o; try done; unfold progress; cbn [step].
  - destruct (stop_count id error_code (rtx s) (st s) Hc Hroom) as ([[r q] s1] & E & Hc1 & Hq). rewrite E. simpl in Hc1, Hq.
    eexists. split; [done |]. apply (inv_quiet (wr s) (fl s) (clean s) _ (st s)); [done.. |]. intros extra H0 Hr.
    destruct (stop_inv _ _ _ _ _ _ _ _ Hr E) as (x & Hx & Hx0 & Hr1 & _). exists x. split_and!; [done | | done].
    simpl. intros [? ?%negb_true_iff]%andb_true_iff. split; [done | by apply Hx0].
  - apply andb_true_iff in He as [_ Hl]. 
    destruct (read_session_count id lens (rtx s) (st s) Hc Hroom (proj1 Hr0)) as ([[r q] s1] & E & Hc1 & Hq). rewrite E. simpl in Hc1, Hq.
    assert (Hs1 : streams_inv (wr s) (fl s) (clean s) s1).
    { apply (inv_quiet_same _ _ _ (st s)); [done.. |]. intros extra _ Hr. eapply read_session_inv; [done | | exact E].
      eapply forallb_Forall; [| exact Hl]. simpl. lia. }
    simpl. destruct r; eexists; (split; [done |]); exact Hs1.
  - destruct (observe_reset_count id (rtx s) (st s) Hc Hroom) as ([[r q] s1] & E & Hc1 & Hq). rewrite E. simpl in Hc1, Hq.
    eexists. split; [done |]. apply (inv_quiet_same _ _ _ (st s)); [done.. |]. intros extra _ Hr. by eapply observe_reset_inv.
  - apply bool_decide_eq_true in He. destruct (set_receive_window w (st s)) as [s1 b] eqn:E. eexists. split; [done |].
    apply (inv_quiet_same _ _ _ (st s)); [done | | |].
    + apply (count_inv_view (st s)); [| | | done]; unfold set_receive_window in E; case_hyp E; by simplify_eq.
    + unfold set_receive_window in E. case_hyp E; simplify_eq; by apply quiet_same.
    + intros extra H0 Hr. by eapply set_window_inv.
  - apply andb_true_iff in He as [Hn Hn']. destruct (set_max_concurrent_count d n (st s) Hc) as (s1 & E & Hc1 & Hq); [lia | lia | done |].
    rewrite E. eexists. split; [done |]. apply (inv_quiet_same _ _ _ (st s)); [done.. |]. intros extra _ Hr.
    by eapply set_max_concurrent_recv.
Qed.

(** Frames from the peer. *)
Lemma frame_progress o s : sys_inv s → enabled o s = true →
  match o with
  | IStream _ _ | IResetStream _ | IMaxData _ | IMaxStreams _ _ | IMaxStreamData _ _ | IStopSending _ _ => progress s o
  | _ => True
  end.
Proof.
  intros Hinv He. pose proof Hinv as (Hc & Hm & Hs & _). apply andb_true_iff in He as [Hroom%room_spec He].
  destruct o; try done; unfold progress; cbn [step].
  - rewrite !andb_true_iff in He. destruct He as (((Hid%bool_decide_eq_true & Ho) & _) & Hf).
    destruct (received_count frame payload_len (st s) Hc Hroom Hid) as ([s1 r] & E & Hc1 & Hq). rewrite E. simpl in Hc1, Hq.
    eexists. split; [done |]. apply (inv_quiet_same _ _ _ (st s)); [done.. |]. intros extra _ Hr.
    apply (received_inv extra frame payload_len (st s) s1 r); [done | lia | done | done].
  - apply andb_true_iff in He as [Hid%bool_decide_eq_true Ho%bool_decide_eq_true].
    destruct (received_reset_count frame (st s) Hc Hroom Hid) as ([s1 r] & E & Hc1 & Hq). rewrite E. simpl in Hc1, Hq.
    eexists. split; [done |]. apply (inv_quiet (wr s) (fl s) (clean s) _ (st s)); [done.. |]. intros extra H0 Hr.
    destruct (received_reset_inv _ _ _ _ _ Hr Ho E) as (x & Hx & Hx0 & Hr1 & _). exists x. split_and!; [done | | done].
    simpl. intros [? ?%negb_true_iff]%andb_true_iff. split; [done | by apply Hx0].
  - apply bool_decide_eq_true in He. destruct (received_max_data_inv _ _ n _ Hs He). eexists. split; [done |].
    by apply (inv_unmoved (wr s) (fl s) _ _ _ (st s)).
  - destruct (received_max_streams d n (st s)) as [s1 r] eqn:E.
    destruct (received_max_streams_inv _ _ _ _ _ _ _ Hs Hc Hm E) as (Hs1 & Hc1 & Hm1 & Hv & _). eexists. split; [done |].
    destruct Hinv as (_ & _ & _ & extra & ? & ? & Hr). split_and!; [done.. |]. exists extra. split_and!; [done.. |]. by apply (view_recv _ (st s)).
  - rewrite !andb_true_iff in He. destruct He as ((Hid%bool_decide_eq_true & Ho%bool_decide_eq_true) & Hlim).
    destruct (received_max_stream_data_inv _ _ id offset _ Hs Hc Hid) as (Hs1 & Hc1 & Hv & Em); [apply Ho | |].
    { intros Hne. rewrite bool_decide_false in Hlim by done. simpl in Hlim. lia. }
    eexists. split; [done |]. apply (inv_sent (wr s) (fl s) _ _ _ (st s)); try done. intros extra. by apply view_recv.
  - destruct (received_stop_sending_inv _ _ id error_code _ Hs Hc) as (Hs1 & Hc1 & Hv & Em).
    eexists. split; [done |]. apply (inv_sent (wr s) (fl s) _ _ _ (st s)); try done. intros extra. by apply view_recv.
Qed.

(** Acknowledgements, losses and packets. *)
Lemma net_progress o s : sys_inv s → enabled o s = true →
  match o with
  | NAck _ | NLost _ | NResetAcked _ | TStreams _ _ _ | TControl _ _ => progress s o
  | _ => True
  end.
Proof.
  intros Hinv He. pose proof Hinv as (Hc & Hm & Hs & extra0 & _ & _ & Hr0). apply andb_true_iff in He as [Hroom%room_spec He].
  assert (Hfl : ∀ i, Z.of_nat i < zlen (fl s) → ∃ m, fl s !! i = Some m ∧ send_inv (wr s) (m :: delete i (fl s)) (st s)).
  { intros i Hi. destruct (lookup_lt_is_Some_2 (fl s) i) as [m Em]; [unfold zlen in Hi; lia |]. exists m. split; [done |].
    by rewrite <- delete_Permutation. }
  destruct o; try done; unfold progress; cbn [step].
  - destruct (Hfl i) as (m & -> & Hs'); [lia |]. cbn [mbind option_bind].
    destruct (received_ack_of_inv _ m _ _ Hs' Hc Hroom) as (s1 & E & Hs1 & Hc1 & Em). rewrite E.
    eexists. split; [done |]. apply (inv_sent (wr s) (fl s) _ _ _ (st s)); try done. intros extra Hr. by eapply received_ack_of_recv.
  - destruct (Hfl i) as (m & -> & Hs'); [lia |]. cbn [mbind option_bind].
    destruct (retransmit_inv _ m _ _ Hs'). eexists. split; [done |]. by apply (inv_unmoved (wr s) (fl s) _ _ _ (st s)).
  - destruct (reset_acked_inv _ _ id _ Hs Hc Hroom) as (s1 & E & Hs1 & Hc1 & Em). rewrite E.
    eexists. split; [done |]. apply (inv_sent (wr s) (fl s) _ _ _ (st s)); try done. intros extra Hr. by eapply reset_acked_recv.
  - unfold write_stream_frames.
    destruct (write_stream_loop_spec (wr s) max_size fair ltac:(lia)
      (length (PendingStreamsQueue.iter (pending (st s))) + Z.to_nat (max_size - zlen buf)) buf [] (fl s) (st s) Hs Hc)
      as (fs & out & s1 & -> & [Hs1 Hu _ _ _ _ _ _ _ _]); [unfold queued; rewrite length_fmap; lia |].
    eexists. split; [done |]. by apply (inv_unmoved (wr s) (fl s) _ _ _ (st s)).
  - destruct (write_control_frames_inv iter_next max_size (mk_writer buf (rtx s) None (st s)) (wr s) (fl s) extra0 Hs Hr0) as (r & w & -> & Hco).
    simpl in Hco. destruct (controlled_inv _ _ _ _ Hco Hs Hc) as (Hs1 & Hc1 & Em). eexists. split; [done |].
    apply (inv_sent (wr s) (fl s) _ _ _ (st s)); try done. intros extra Hr. by apply (co_recv _ _ Hco).
Qed.

Lemma step_progress o s : sys_inv s → enabled o s = true → progress s o.
Proof.
  intros Hinv He. pose proof (app_progress o s Hinv He). pose proof (app_recv_progress o s Hinv He).
  pose proof (frame_progress o s Hinv He). pose proof (net_progress o s Hinv He). by destruct o.
Qed.

(** ** Runs *)

(** The connection starts with its configuration and the peer's transport parameters. *)
Record Config := mk_config {
  cf_side : Side;
  cf_max_uni : Z;
  cf_max_bidi : Z;
  cf_send_window : Z;
  cf_receive_window : Z;
  cf_stream_receive_window : Z;
  cf_peer : TransportParameters.TransportParameters;
}.

Definition config_ok (c : Config) : bool :=
  (0 <=? cf_max_uni c) && (cf_max_uni c <=? 2 ^ 60) && (0 <=? cf_max_bidi c) && (cf_max_bidi c <=? 2 ^ 60)
  && in_u 64 (cf_send_window c) && in_u 62 (cf_receive_window c) && in_u 62 (cf_stream_receive_window c)
  && in_u 62 (TransportParameters.initial_max_data (cf_peer c)) && in_u 62 (TransportParameters.initial_max_stream_data_bidi_local (cf_peer c))
  && in_u 62 (TransportParameters.initial_max_stream_data_bidi_remote (cf_peer c)) && in_u 62 (TransportParameters.initial_max_stream_data_uni (cf_peer c))
  && (TransportParameters.initial_max_streams_bidi (cf_peer c) <=? MAX_STREAM_COUNT) && (TransportParameters.initial_max_streams_uni (cf_peer c) <=? MAX_STREAM_COUNT).

Definition start (c : Config) : option Sys :=
  s ← new (cf_side c) (cf_max_uni c) (cf_max_bidi c) (cf_send_window c) (cf_receive_window c) (cf_stream_receive_window c);
  Some (mk_sys (set_params (cf_peer c) s) Retransmits.empty ∅ [] [] ∅ ∅ true).

(** [None]: an operation was not enabled, or it panicked. *)
Fixpoint run (os : list Op) (s : Sys) : option Sys :=
  match os with
  | [] => Some s
  | o :: os => if enabled o s then s ← step o s; run os s else None
  end.

Lemma set_stream_limits_none n : ∀ i limit s, (∀ id o, send s !! id = Some o → o = None) → set_stream_limits n i limit s = s.
Proof.
  induction n as [|n IH]; intros i limit s Hs; cbn [set_stream_limits]; [done |].
  destruct (send s !! _) as [[ss |] |] eqn:E; [by apply Hs in E | by apply IH..].
Qed.

Lemma new_recv side nu nb sw rw srw s : is_u 62 rw → is_u 62 srw → new side nu nb sw rw srw = Some s → recv_inv 0 s.
Proof.
  intros Hrw Hsrw. unfold new. set (s0 := mk_streams _ _ _ _ _ _ _ _ _ _ _ _ _ _ _ _ _ _ _ _ _ _ _ _ _ _ _ _ _ _ _).
  assert (Hwf0 : recv_wf s0).
  { split; simpl; [unfold is_u in *; lia | apply map_Forall_empty | done | unfold is_u, u_max in *; lia]. }
  intros E. apply bind_Some in E as (s1 & E1 & E2).
  apply insert_remote_recv in E1 as (Hwf1 & En1 & _); [| done]. apply insert_remote_recv in E2 as (Hwf2 & En2 & _); [| done].
  split; [done |]. rewrite En2, En1. unfold nums, total_unread. simpl. rewrite msum_empty. unfold is_u in *. intros _. lia.
Qed.

Lemma start_inv c : config_ok c = true → ∃ s, start c = Some s ∧ sys_inv s.
Proof.
  unfold config_ok, in_u. rewrite !andb_true_iff, !bool_decide_eq_true, !Z.leb_le.
  intros ((((((((((((H1 & H2) & H3) & H4) & H5) & H6) & H7) & H8) & H9) & H10) & H11) & H12) & H13). unfold start.
  destruct (new_count (cf_side c) (cf_max_uni c) (cf_max_bidi c) (cf_send_window c) (cf_receive_window c) (cf_stream_receive_window c))
    as (s & E & Hc & m1 & f & m2 & Es & Hm1); [done.. |]. rewrite E. cbn [mbind option_bind]. eexists. split; [done |].
  apply new_recv in E; [| done..]. unfold set_params. set (s1 := received_max_data _ _).
  assert (Hs1 : send s1 = m1) by (subst s1; by rewrite Es). rewrite set_stream_limits_none by (by rewrite Hs1).
  unfold sys_inv. cbn [st wr fl clean]. split_and!.
  - by apply (count_inv_view s).
  - intros []; [exact H12 | exact H13].
  - assert (Hsend : ∀ id ss, send s1 !! id ≠ Some (Some ss)) by (intros id ss Hid; rewrite Hs1 in Hid; by apply Hm1 in Hid).
    unfold is_u in *. split; try done; try (by intros id ss Hid; destruct (Hsend id ss Hid)).
    + subst s1. by rewrite Es.
    + rewrite Hs1. subst s1. rewrite Es. simpl. symmetry. apply msum_zero. intros id o Ho. by apply Hm1 in Ho as ->.
    + subst s1. rewrite Es. simpl. lia.
    + subst s1. rewrite Es. simpl. lia.
    + intros id. unfold max_send_data. subst s1. rewrite Es. simpl. destruct (StreamId.dir id); [case_goal |]; lia.
  - exists 0. split_and!; [done | done |]. by apply (view_recv _ s).
Qed.

Lemma run_inv os : ∀ s s', sys_inv s → run os s = Some s' → sys_inv s'.
Proof.
  induction os as [|o os IH]; intros s s' Hinv; cbn [run]; [by intros [= <-] |].
  destruct (enabled o s) eqn:He; [| done]. destruct (step_progress o s Hinv He) as (s1 & -> & Hs1). simpl. by apply IH.
Qed.

Lemma system_inv c os s : config_ok c = true → (start c ≫= run os) = Some s → sys_inv s.
Proof. intros Hc. destruct (start_inv c Hc) as (s0 & -> & H0). simpl. by apply run_inv. Qed.

End system.

End StreamsSystem.
