(* ===== verification/Connection.v ===== *)
(** * Streams over loss recovery

    The composition of the two halves of a connection: the streams ([StreamsSystem]) and loss
    recovery ([Recovery]).  Packets are built from what the streams have to send, tracked until
    they are acknowledged or lost, and their fate is reported to the streams. *)

From Stdlib Require Import String SpecFloat.
From stdpp Require Import gmap fin_maps list.
From S2P Require Import Prelude BTree RangeSets Coding SendBuf Assembler QuicPacket Spaces AckFrame AckFrequency NatFrames Frames Sums.
From S2P Require Import StreamSend StreamRecv Datagrams Floats TransportParams Mtud Congestion Paths Recovery RecoveryProofs.
From S2P Require Import StreamQueue Streams StreamsSend StreamsRecvProofs StreamsCount StreamsCountOps StreamsSendProofs.
From S2P Require Import StreamsTransmit StreamsLimits StreamsSystem.

Module Connection.
Import StreamsState StreamsSend StreamsCount StreamsSendProofs StreamsTransmit StreamsLimits StreamsSystem.

(** ** The streams as a [Delivery] *)

#[global] Instance streams_delivery : Recovery.Delivery Retransmits.Retransmits Frames.StreamMeta StreamsState := {
  Recovery.reset_streams r := (Retransmits.reset_stream r).*1;
  Recovery.reset_acked := StreamsSend.reset_acked;
  Recovery.received_ack_of := StreamsSend.received_ack_of;
  Recovery.retransmit := StreamsSend.retransmit;
  Recovery.merge_pending r rhs := Retransmits.bitor_assign rhs r;
}.

(** Room for the streams that acknowledgements may let the peer open. *)
Definition room_for (n : Z) (s : StreamsState) : Prop :=
  ∀ d, sel d (max_remote s) + sel d (max_concurrent_remote_count s) + n ≤ 2 ^ 60.

(** At most one stream more in each direction. *)
Definition grown_by_one (s s' : StreamsState) : Prop :=
  ∀ d, sel d (max_remote s') ≤ sel d (max_remote s) + 1 ∧ sel d (max_concurrent_remote_count s') = sel d (max_concurrent_remote_count s).

Definition counts (s : StreamsState) := (max_remote s, max_concurrent_remote_count s).

Lemma insert_counts remote id s s' : insert remote id s = Some s' → counts s' = counts s.
Proof.
  unfold insert. intros E. apply bind_Some in E as (s1 & E1 & E2). assert (counts s1 = counts s) as <-.
  { destruct (_ || _); [destruct (send s !! id); [done |] |]; by apply (inj Some) in E1 as <-. }
  destruct (bool_decide _ || remote); [| by apply (inj Some) in E2 as <-]. destruct (match vec_pop _ with Some _ => _ | None => _ end) as [r f].
  destruct (recv s1 !! id); [done |]. by apply (inj Some) in E2 as <-.
Qed.

Lemma insert_remote_counts d n : ∀ from s s', insert_remote d from n s = Some s' → counts s' = counts s.
Proof.
  induction n as [| n IH]; intros from s s'; simpl; [by intros [= <-] |]. intros E. apply bind_Some in E as (s1 & E1 & E2).
  by rewrite (IH _ _ _ E2), (insert_counts _ _ _ _ E1).
Qed.

Lemma freed_grown_by_one half id s s' : (∀ d, 0 ≤ sel d (max_concurrent_remote_count s) ≤ sel d (allocated_remote_count s) ∧ sel d (allocated_remote_count s) ≤ 2 ^ 60) →
  stream_freed id half s = Some s' → grown_by_one s s'.
Proof.
  intros Hc. unfold stream_freed. intros E. apply bind_Some in E as (s1 & E1 & E2). assert (grown_by_one s s1) as Hg.
  2: { intros d. destruct half; simplify_eq/=; apply Hg. }
  destruct (bool_decide _); [| injection E1 as <-; intros d; split; [lia | done]].
  destruct (_ || _); [| injection E1 as <-; intros d; split; [lia | done]].
  set (dir := StreamId.dir id) in *. unfold ensure_remote_streams in E1. set (s0 := s <| allocated_remote_count := _ |>) in E1.
  apply bind_Some in E1 as (s2 & Ei & [= <-]). apply insert_remote_counts in Ei. injection Ei as Em Ec.
  set (n := saturating_sub _ _). assert (Hn : 0 ≤ n ≤ 1).
  { unfold n, s0, saturating_sub. simpl. rewrite sel_upd, decide_True by done. destruct (Hc dir) as [? ?]. unfold wrapping_sub.
    destruct (decide (sel dir (allocated_remote_count s) = 0)) as [-> |]; [change (wrap 64 (0 - 1)) with (2 ^ 64 - 1); lia |].
    rewrite wrap_small by (unfold is_u; lia). lia. }
  intros d. simpl. rewrite Em, Ec, sel_upd. unfold s0. simpl. split; [destruct (decide (d = dir)) as [-> |]; lia | done].
Qed.

Lemma count_bounds s : count_inv s → ∀ d, 0 ≤ sel d (max_concurrent_remote_count s) ≤ sel d (allocated_remote_count s) ∧ sel d (allocated_remote_count s) ≤ 2 ^ 60.
Proof. intros [Hp Hc] d. pose proof (Hc d). pose proof (ci_alloc_le _ _ Hp d). pose proof (ci_remote _ _ Hp d). lia. Qed.

Lemma ack_grown m s s' : count_inv s → received_ack_of m s = Some s' → grown_by_one s s'.
Proof.
  intros Hci. pose proof (count_bounds s Hci) as Hc. unfold received_ack_of. assert (Hr : grown_by_one s s) by (intros d; split; [lia | done]).
  destruct (send s !! _) as [[ss |] |]; [| by intros [= <-]..]. case_match; [by intros [= <-] |].
  intros E. apply bind_Some in E as ([dn ss'] & _ & E). destruct dn; [| by injection E as <-].
  apply bind_Some in E as (s1 & E & [= <-]). apply freed_grown_by_one in E; [exact E | exact Hc].
Qed.

Lemma reset_acked_grown id s s' : count_inv s → reset_acked id s = Some s' → grown_by_one s s'.
Proof.
  intros Hci. pose proof (count_bounds s Hci) as Hc. unfold reset_acked. assert (Hr : grown_by_one s s) by (intros d; split; [lia | done]).
  destruct (send s !! _) as [[ss |] |]; [| by intros [= <-]..]. case_match; [| by intros [= <-]]. intros E. by apply freed_grown_by_one in E.
Qed.

Lemma omap_inl (ms : list Frames.StreamMeta) : omap (λ x : Frames.StreamMeta + Z, match x with inl m => Some m | inr _ => None end) (inl <$> ms) = ms.
Proof. induction ms as [| m ms IH]; simpl; [done |]. by f_equal. Qed.

Lemma omap_inr (l : list Z) : omap (λ x : Frames.StreamMeta + Z, match x with inl m => Some m | inr _ => None end) (inr <$> l) = [].
Proof. induction l as [| m l IH]; simpl; done. Qed.

(** What the streams promise: the frames in flight are accounted for, against the data [w]
    written, and there is room for what their acknowledgement may free. *)
Definition frames_of (l : list (Frames.StreamMeta + Z)) : list Frames.StreamMeta := omap (λ x, match x with inl m => Some m | inr _ => None end) l.

Definition delivers (w : gmap Z (list Z)) (c : bool) (l : list (Frames.StreamMeta + Z)) (s : StreamsState) : Prop :=
  streams_inv w (frames_of l) c s ∧ room_for (zlen l) s.

Lemma room_for_room n s : 0 ≤ n → room_for n s → room s.
Proof. intros Hn Hr d. specialize (Hr d). lia. Qed.

Lemma room_for_grown n s s' : room_for (n + 1) s → grown_by_one s s' → room_for n s'.
Proof. intros Hr Hg d. specialize (Hr d). destruct (Hg d) as [? ->]. lia. Qed.

Lemma room_for_less n n' s : room_for n s → n' ≤ n → room_for n' s.
Proof. intros Hr Hn d. specialize (Hr d). lia. Qed.

#[global] Instance streams_delivery_laws w c : RecoveryProofs.DeliveryLaws Retransmits.Retransmits Frames.StreamMeta StreamsState (delivers w c).
Proof.
  split.
  - intros l l' s Hp [Hs Hr]. split; [| unfold zlen in *; by rewrite <- Hp]. destruct Hs as (Hc & Hm & Hs & Hx). split_and!; [done | done | | done].
    unfold frames_of in *. by rewrite <- Hp.
  - intros f l s [Hs Hr]. rewrite zlen_cons in Hr. pose proof Hs as (Hc & Hm & Hsi & Hx). pose proof (zlen_nonneg l).
    destruct (received_ack_of_inv w f (frames_of l) s Hsi Hc) as (s' & E & Hs' & Hc' & Em); [apply (room_for_room (1 + zlen l)); [lia | done] |].
    exists s'. split; [exact E |]. split; [| eapply room_for_grown; [by rewrite Z.add_comm | by eapply ack_grown]].
    eapply inv_sent; try done. intros extra Hre. by eapply received_ack_of_recv.
  - intros id l s [Hs Hr]. rewrite zlen_cons in Hr. pose proof Hs as (Hc & Hm & Hsi & Hx). pose proof (zlen_nonneg l).
    destruct (reset_acked_inv w (frames_of l) id s Hsi Hc) as (s' & E & Hs' & Hc' & Em); [apply (room_for_room (1 + zlen l)); [lia | done] |].
    exists s'. split; [exact E |]. split; [| eapply room_for_grown; [by rewrite Z.add_comm | by eapply reset_acked_grown]].
    eapply inv_sent; try done. intros extra Hre. by eapply reset_acked_recv.
  - intros f l s [Hs Hr]. rewrite zlen_cons in Hr. pose proof Hs as (Hc & Hm & Hsi & Hx). destruct (retransmit_inv w f (frames_of l) s Hsi) as [Hs' Hu].
    split; [by eapply inv_unmoved |]. intros d. specialize (Hr d). change (Recovery.retransmit f s) with (retransmit f s). destruct Hu as [Hv [_ ->] _ _]. injection Hv as _ _ _ _ _ -> _ _. lia.
  - intros id l s [Hs Hr]. rewrite zlen_cons in Hr. split; [done |]. eapply room_for_less; [exact Hr | lia].
Qed.

(** ** The system *)

Section connection.
Context {C : Type} `{Controller C} (iter_next : gset Z → option Z).

Abbreviation Conn := (Recovery.Conn (C := C) (R := Retransmits.Retransmits) (SF := Frames.StreamMeta) (S := StreamsState)).

(** The connection; the rest is recorded for the properties, as in [StreamsSystem.Sys]. *)
Record Sys := mk_connection {
  cn : Conn;
  written : gmap Z (list Z);
  sent_data : list (list Z);
  read : gmap Z (list Z);
  read_ended : gset Z;
  clean_credit : bool;
}.

#[local] Instance connection_settable : Settable Sys := λ s,
  mk_connection (cn s) (written s) (sent_data s) (read s) (read_ended s) (clean_credit s).

(** What is in flight for the streams. *)
Definition flight (c : Conn) : list (Frames.StreamMeta + Z) := RecoveryProofs.frames_of c.

(** The connection as the streams see it: their state, the queue of the data space, and the
    frames in the packets that are tracked. *)
Definition view_of (s : Sys) : StreamsSystem.Sys :=
  StreamsSystem.mk_sys (Recovery.streams (cn s)) (Recovery.pending (Recovery.data (cn s))) (written s) (frames_of (flight (cn s)))
    (sent_data s) (read s) (read_ended s) (clean_credit s).

(** The streams and the queue set in the connection. *)
Definition put_streams (st : StreamsState) (q : Retransmits.Retransmits) (c : Conn) : Conn :=
  c <| Recovery.streams := st |> <| Recovery.data := (Recovery.data c) <| Recovery.pending := q |> |>.

(** An operation of the application, or a frame of the peer for the streams. *)
Definition stream_op (o : Op) : bool :=
  match o with NAck _ | NLost _ | NResetAcked _ | TStreams _ _ _ | TControl _ _ => false | _ => true end.

Definition streams_step (o : Op) (s : Sys) : option Sys :=
  v ← StreamsSystem.step iter_next o (view_of s);
  Some (mk_connection (put_streams (StreamsSystem.st v) (StreamsSystem.rtx v) (cn s)) (StreamsSystem.wr v) (StreamsSystem.sent v)
          (StreamsSystem.rd v) (StreamsSystem.ended v) (StreamsSystem.clean v)).

(** The part of [populate_packet] that is about streams: flow control frames, then data. *)
Definition populate (max_size : Z) (fair : bool) (s : Sys) : option (list Z * Writer * list Frames.StreamMeta) :=
  '(_, w) ← write_control_frames iter_next max_size (mk_writer [] (Recovery.pending (Recovery.data (cn s))) None (Recovery.streams (cn s)));
  '(out, ms, st) ← write_stream_frames (w_buf w) max_size fair (w_streams w);
  Some (out, w <| w_streams := st |>, ms).

(** What the connection hears in a datagram. *)
Inductive Inner :=
| IAck (id : QuicPacket.SpaceId) (ack : AckFrame.Ack)
| IFrame (o : Op)
| IDiscard (id : QuicPacket.SpaceId)
| IValidated.

(** What happens to a connection. *)
Inductive Event :=
(* the application *)
| EApp (o : Op)
(* a packet with the frames of streams; its other frames add to [size] *)
| EData (now draw max_size : Z) (fair : bool) (size : Z) (padded elicits : bool) (largest : option Z)
(* another packet *)
| ESend (now : Z) (id : QuicPacket.SpaceId) (draw size : Z) (padded elicits : bool) (largest : option Z) (r : Retransmits.Retransmits)
| EProbe (now draw : Z)
| ETransmit (bytes : Z)
| EDatagram (now len : Z) (first rest : list Inner)
| ETimeout (now : Z)
| EDiscard (now : Z) (id : QuicPacket.SpaceId)
| EKeys (id : QuicPacket.SpaceId)
| EEstablished.

(** A frame of the peer that is refused closes the connection. *)
Definition refused (o : Op) (st : StreamsState) : bool :=
  match o with
  | IStream frame len => match received frame len st with Some (_, Err _) => true | _ => false end
  | IResetStream frame => match received_reset frame st with Some (_, Err _) => true | _ => false end
  | IMaxStreams d n => match (received_max_streams d n st).2 with Err _ => true | _ => false end
  | IMaxStreamData id off => match (received_max_stream_data id off st).2 with Err _ => true | _ => false end
  | _ => false
  end.

Definition set_cn (c : Conn) (s : Sys) : Sys := s <| cn := c |>.

Definition frame_step (o : Op) (s : Sys) : option Sys :=
  let bad := refused o (Recovery.streams (cn s)) in
  s ← streams_step o s;
  Some (if bad then set_cn (Recovery.close_with_error (cn s)) s else s).

(** Packets are not processed any more once the connection is closed. *)
Definition inner_step (now : Z) (i : Inner) (s : Sys) : option Sys :=
  if Recovery.is_closed (Recovery.state (cn s)) then Some s
  else
    match i with
    | IAck id ack =>
      '(r, c) ← Recovery.on_ack_received now id ack (cn s);
      Some (set_cn (match r with Ok _ => c | Err _ => Recovery.close_with_error c end) s)
    | IFrame o => frame_step o s
    | IDiscard id => c ← Recovery.discard_space now id (cn s); Some (set_cn c s)
    | IValidated => Some (set_cn (Recovery.on_path_validated (cn s)) s)
    end.

Fixpoint inner_steps (now : Z) (l : list Inner) (s : Sys) : option Sys :=
  match l with [] => Some s | i :: l => s ← inner_step now i s; inner_steps now l s end.

(** A datagram arrives ([handle_event]): [handle_decode] processes its first packet, of [len]
    bytes, and [handle_coalesced] those behind it. *)
Definition datagram_step (now len : Z) (first rest : list Inner) (s : Sys) : option Sys :=
  let was_blocked := PathData.anti_amplification_blocked 1 (Recovery.path (cn s)) in
  s ← inner_steps now first s;
  let p := Recovery.path (cn s) in
  let c := (cn s) <| Recovery.path := p <| PathData.total_recvd := saturating_add 64 (PathData.total_recvd p) len |> |> in
  s ← inner_steps now rest (set_cn c s);
  if was_blocked then c ← Recovery.set_loss_detection_timer now (cn s); Some (set_cn c s) else Some s.

Definition data_step (now draw max_size : Z) (fair : bool) (size : Z) (padded elicits : bool) (largest : option Z) (s : Sys) : option Sys :=
  '(out, w, ms) ← populate max_size fair s;
  c ← Recovery.send_packet now QuicPacket.SpaceData draw size padded elicits largest
        (default Retransmits.empty (w_retransmits w)) ms (put_streams (w_streams w) (w_pending w) (cn s));
  Some (s <| cn := c |> <| sent_data := zdrop (zlen (w_buf w)) out :: sent_data s |>).

Definition step (e : Event) (s : Sys) : option Sys :=
  match e with
  | EApp o => streams_step o s
  | EData now draw max_size fair size padded elicits largest => data_step now draw max_size fair size padded elicits largest s
  | ESend now id draw size padded elicits largest r =>
    c ← Recovery.send_packet now id draw size padded elicits largest r [] (cn s); Some (set_cn c s)
  | EProbe now draw => c ← Recovery.send_mtu_probe now draw Retransmits.empty (cn s); Some (set_cn c s)
  | ETransmit bytes => Some (set_cn (Recovery.account_udp_transmit bytes (cn s)) s)
  | EDatagram now len first rest => datagram_step now len first rest s
  | ETimeout now => c ← Recovery.handle_loss_timeout now (cn s); Some (set_cn c s)
  | EDiscard now id => c ← Recovery.discard_space now id (cn s); Some (set_cn c s)
  | EKeys id => c ← Recovery.upgrade_crypto id (cn s); Some (set_cn c s)
  | EEstablished => Some (set_cn ((cn s) <| Recovery.state := Recovery.Established |>) s)
  end.

(** ** When an event may happen *)

Definition room_forb (n : Z) (s : StreamsState) : bool :=
  forallb (λ d, sel d (max_remote s) + sel d (max_concurrent_remote_count s) + n <=? 2 ^ 60) [Frames.Bi; Frames.Uni].

(** There are identifiers for the streams that acknowledgements may free. *)
Definition has_room (c : Conn) : bool := room_forb (zlen (flight c)) (Recovery.streams c).

(** The time threshold is in range after the acknowledgement. *)
Definition delay_fitsb (now : Z) (id : QuicPacket.SpaceId) (ack : AckFrame.Ack) (c : Conn) : bool :=
  let '(new_largest, c1) := Recovery.update_largest id (AckFrame.largest ack) c in
  match Recovery.newly_acked id (AckFrame.ack_iter ack) ArrayRangeSet.new c1 with
  | Some (Ok acked) =>
    match Recovery.process_acked now id ack new_largest acked c1 with
    | Some c2 => bool_decide (is_Some (Recovery.loss_delay c2))
    | None => true
    end
  | _ => true
  end.

(** Frames the decoder may deliver to the streams. *)
Definition frame_op (o : Op) : bool :=
  match o with IStream _ _ | IResetStream _ | IMaxData _ | IMaxStreams _ _ | IMaxStreamData _ _ | IStopSending _ _ => true | _ => false end.

Definition app_op (o : Op) : bool := stream_op o && negb (frame_op o).

(** A space that is not the last and whose keys there have been. *)
Definition discardable (id : QuicPacket.SpaceId) (c : Conn) : bool :=
  negb (bool_decide (id = QuicPacket.SpaceData)) && (Recovery.space_index id <=? Recovery.space_index (Recovery.highest_space c)).

Definition inner_enabled (now : Z) (i : Inner) (s : Sys) : bool :=
  Recovery.is_closed (Recovery.state (cn s))
  || match i with
     | IAck id ack => forallb (λ r, (0 <=? r.1) && (r.1 <=? r.2)) (AckFrame.ack_iter ack) && delay_fitsb now id ack (cn s) && has_room (cn s)
     | IFrame o => frame_op o && StreamsSystem.enabled o (view_of s)
     | IDiscard id => discardable id (cn s)
     | IValidated => true
     end.

Fixpoint inner_all (now : Z) (l : list Inner) (s : Sys) : bool :=
  match l with
  | [] => true
  | i :: l => inner_enabled now i s && match inner_step now i s with Some s => inner_all now l s | None => true end
  end.

(** Numbers are left in the space, there are keys for it, and the first packet of all is the
    first of a space other than that of data. *)
Definition sendable (id : QuicPacket.SpaceId) (size : Z) (c : Conn) : bool :=
  let n := PacketSpace.next_packet_number (Recovery.ps (Recovery.space id c)) in
  (0 <? size) && (size <? 2 ^ 16) && (n + 2 <=? RecoveryProofs.MAX_NUMBER)
  && (bool_decide (id = QuicPacket.SpaceData) || Recovery.has_crypto (Recovery.space id c))
  && match PathData.first_packet (Recovery.path c) with
     | None => negb (bool_decide (id = QuicPacket.SpaceData)) && (n =? 0)
     | Some _ => true
     end.

Definition can_time_outb (c : Conn) : bool :=
  match Recovery.loss_time_and_space c with
  | Some _ => bool_decide (is_Some (Recovery.loss_delay c))
  | None => negb (PathData.in_flight_ack_eliciting (PathData.in_flight (Recovery.path c)) =? 0)
            || negb (Recovery.peer_completed_address_validation c)
  end.

Definition enabled (e : Event) (s : Sys) : bool :=
  match e with
  | EApp o => app_op o && StreamsSystem.enabled o (view_of s)
  | EData now draw max_size fair size padded elicits largest =>
    StreamsSystem.enabled (TStreams [] max_size fair) (view_of s) && sendable QuicPacket.SpaceData size (cn s)
    && match populate max_size fair s with
       | Some (_, w, ms) =>
         let l := RecoveryProofs.carried (default Retransmits.empty (w_retransmits w)) ms in
         (elicits || bool_decide (l = [])) && room_forb (zlen (l ++ flight (cn s))) (w_streams w)
       | None => true
       end
  | ESend now id draw size padded elicits largest r =>
    sendable id size (cn s) && bool_decide (Retransmits.reset_stream r = []) && has_room (cn s)
  | EProbe now draw => sendable QuicPacket.SpaceData 1 (cn s) && has_room (cn s)
  | ETransmit bytes => (0 <=? bytes) && (PathData.total_sent (Recovery.path (cn s)) + bytes <=? 2 ^ 62)
  | EDatagram now len first rest =>
    (0 <=? len) && (PathData.total_recvd (Recovery.path (cn s)) + len <=? 2 ^ 62) && inner_all now first s
    && match inner_steps now first s with
       | Some s1 =>
         let p := Recovery.path (cn s1) in
         inner_all now rest (set_cn ((cn s1) <| Recovery.path := p <| PathData.total_recvd := saturating_add 64 (PathData.total_recvd p) len |> |>) s1)
       | None => true
       end
  | ETimeout now =>
    has_room (cn s)
    && match Recovery.t_loss_detection (Recovery.timers (cn s)) with Some t => (now <? t) || can_time_outb (cn s) | None => true end
  | EDiscard now id => discardable id (cn s)
  | EKeys id =>
    negb (Recovery.has_crypto (Recovery.space id (cn s))) && (Recovery.space_index (Recovery.highest_space (cn s)) <? Recovery.space_index id)
  | EEstablished => true
  end.

(** [None]: an event was not enabled, or it panicked. *)
Fixpoint run (es : list Event) (s : Sys) : option Sys :=
  match es with
  | [] => Some s
  | e :: es => if enabled e s then s ← step e s; run es s else None
  end.

(** ** Invariant *)

(** What the streams know of the frames in flight, without the room. *)
Definition accounted (w : gmap Z (list Z)) (c : bool) (l : list (Frames.StreamMeta + Z)) (s : StreamsState) : Prop :=
  streams_inv w (frames_of l) c s.

Definition connection_inv (s : Sys) : Prop :=
  RecoveryProofs.inv (accounted (written s) (clean_credit s)) (cn s) ∧ RecoveryProofs.counts_ok (cn s).

(** ** Preservation *)

Lemma inv_known K K' (c : Conn) : RecoveryProofs.inv K c → K' (flight c) (Recovery.streams c) → RecoveryProofs.inv K' c.
Proof. intros [[] Ha] Hk. split; [by split | done]. Qed.

Lemma room_forb_spec n s : room_forb n s = true → room_for n s.
Proof. unfold room_forb. simpl. rewrite !andb_true_iff, !Z.leb_le. intros (? & ? & _) []; simpl; lia. Qed.

(** With room, recovery can rely on the streams. *)
Lemma inv_delivers s : connection_inv s → has_room (cn s) = true → RecoveryProofs.inv (delivers (written s) (clean_credit s)) (cn s).
Proof. intros [Hi _] Hr%room_forb_spec. eapply inv_known; [exact Hi |]. split; [apply Hi | exact Hr]. Qed.

Lemma inv_accounted w c (cn : Conn) : RecoveryProofs.inv (delivers w c) cn → RecoveryProofs.inv (accounted w c) cn.
Proof. intros Hi. eapply inv_known; [exact Hi |]. apply (RecoveryProofs.co_known _ _ _ _ (proj1 Hi)). Qed.

Lemma put_streams_same st q (c : Conn) : ∀ id, Recovery.ps (Recovery.space id (put_streams st q c)) = Recovery.ps (Recovery.space id c)
  ∧ RecoveryProofs.marks (Recovery.space id (put_streams st q c)) = RecoveryProofs.marks (Recovery.space id c)
  ∧ Recovery.has_crypto (Recovery.space id (put_streams st q c)) = Recovery.has_crypto (Recovery.space id c).
Proof. by intros []. Qed.

Lemma flight_put st q c : flight (put_streams st q c) = flight c.
Proof. done. Qed.

(** The streams move on. *)
Lemma inv_put K K' st q (c : Conn) : RecoveryProofs.inv K c → K' (flight c) st → RecoveryProofs.inv K' (put_streams st q c).
Proof.
  intros Hi Hk. assert (Hi1 : RecoveryProofs.inv K' (c <| Recovery.streams := st |>)).
  { destruct Hi as [[] []]. split; by split. }
  eapply RecoveryProofs.inv_same; [exact Hi1 | | | done].
  - by apply (RecoveryProofs.set_space_same QuicPacket.SpaceData ((Recovery.data c) <| Recovery.pending := q |>) (c <| Recovery.streams := st |>)).
  - by apply (RecoveryProofs.set_space_kept QuicPacket.SpaceData ((Recovery.data c) <| Recovery.pending := q |>) (c <| Recovery.streams := st |>)).
Qed.

Lemma armed_put st q (c : Conn) : RecoveryProofs.armed c → RecoveryProofs.armed (put_streams st q c).
Proof. apply RecoveryProofs.armed_stays; try done. by intros []. Qed.

Lemma stream_op_fl o v v' : stream_op o = true → StreamsSystem.step iter_next o v = Some v' → fl v' = fl v.
Proof.
  intros Ho E. destruct o; try done; cbn [StreamsSystem.step] in E; unfold write_op in E;
    repeat (first [apply bind_Some in E as ([[? ?] ?] & _ & E) | apply bind_Some in E as ([? ?] & _ & E) | apply bind_Some in E as (? & _ & E)]);
    repeat case_match; simplify_eq; done.
Qed.

Lemma streams_step_spec o s : connection_inv s → stream_op o = true → StreamsSystem.enabled o (view_of s) = true →
  ∃ s', streams_step o s = Some s' ∧ connection_inv s' ∧ (RecoveryProofs.armed (cn s) → RecoveryProofs.armed (cn s'))
  ∧ RecoveryProofs.credit (cn s') = RecoveryProofs.credit (cn s).
Proof.
  intros [Hi Hct] Ho He. destruct (step_progress iter_next o (view_of s)) as (v & E & Hv); [apply Hi | done |].
  unfold streams_step. rewrite E. eexists. split; [reflexivity |]. split; [| split; [apply armed_put | done]].
  split; [| exact Hct]. eapply inv_put; [exact Hi |]. unfold accounted. rewrite <- (stream_op_fl _ _ _ Ho E : fl v = frames_of (flight (cn s))). exact Hv.
Qed.

Lemma counts_credit (c c' : Conn) : RecoveryProofs.credit c' = RecoveryProofs.credit c → RecoveryProofs.counts_ok c → RecoveryProofs.counts_ok c'.
Proof. unfold RecoveryProofs.credit, RecoveryProofs.counts_ok. by intros [= _ -> ->]. Qed.

Lemma close_spec K (c : Conn) : RecoveryProofs.inv K c → RecoveryProofs.inv K (Recovery.close_with_error c)
  ∧ RecoveryProofs.armed (Recovery.close_with_error c) ∧ RecoveryProofs.credit (Recovery.close_with_error c) = RecoveryProofs.credit c.
Proof.
  intros Hi. unfold Recovery.close_with_error. destruct (Recovery.is_closed (Recovery.state c)) eqn:Ec.
  - split; [done |]. split; [| done]. intros Hc. congruence.
  - split; [| done]. destruct Hi as [[] []]. split; by split.
Qed.

Definition blocked (c : Conn) : bool := PathData.anti_amplification_blocked 1 (Recovery.path c).

(** What an event inside a datagram keeps: the bytes received and, if the path was not blocked,
    that it is not and the timer. *)
Definition carries_on (c c' : Conn) : Prop :=
  PathData.total_recvd (Recovery.path c') = PathData.total_recvd (Recovery.path c)
  ∧ (blocked c = false → RecoveryProofs.armed c → blocked c' = false ∧ RecoveryProofs.armed c').

Lemma carries_on_credit (c c' : Conn) : RecoveryProofs.credit c' = RecoveryProofs.credit c → (RecoveryProofs.armed c → RecoveryProofs.armed c') → carries_on c c'.
Proof.
  intros Hc Ha. split; [unfold RecoveryProofs.credit in Hc; by injection Hc |]. intros Hb Harm. split; [| by apply Ha].
  unfold blocked in *. by rewrite (RecoveryProofs.blocked_credit _ _ Hc).
Qed.

Lemma frame_step_spec o s : connection_inv s → frame_op o = true → StreamsSystem.enabled o (view_of s) = true →
  ∃ s', frame_step o s = Some s' ∧ connection_inv s' ∧ carries_on (cn s) (cn s').
Proof.
  intros Hi Ho He. unfold frame_step. destruct (streams_step_spec o s Hi) as (s1 & -> & Hi1 & Ha1 & Hc1); [by destruct o | done |].
  eexists. split; [reflexivity |]. destruct (refused _ _); [| split; [done | by apply carries_on_credit]].
  destruct Hi1 as [Hi1 Hct1]. destruct (close_spec _ _ Hi1) as (Hi2 & Ha2 & Hc2). split; [split; [exact Hi2 | by apply (counts_credit (cn s1))] |].
  apply carries_on_credit; [simpl; congruence | done].
Qed.

Lemma discardable_spec id c : discardable id c = true → id ≠ QuicPacket.SpaceData ∧ Recovery.space_index id ≤ Recovery.space_index (Recovery.highest_space c).
Proof. unfold discardable. intros [H1 H2]%andb_true_iff. apply negb_true_iff, bool_decide_eq_false in H1. split; [done | lia]. Qed.

Lemma ack_step_spec now id ack s : connection_inv s → Recovery.is_closed (Recovery.state (cn s)) = false → inner_enabled now (IAck id ack) s = true →
  ∃ r c, Recovery.on_ack_received now id ack (cn s) = Some (r, c) ∧ RecoveryProofs.inv (delivers (written s) (clean_credit s)) c
  ∧ (RecoveryProofs.armed (cn s) → RecoveryProofs.armed c) ∧ RecoveryProofs.credit c = RecoveryProofs.credit (cn s)
  ∧ match r with Ok _ => RecoveryProofs.settled_by now id ack (cn s) c | Err _ => RecoveryProofs.gone_just (λ _ _, False) (cn s) c end.
Proof.
  intros Hci Ho He. unfold inner_enabled in He. rewrite Ho in He. cbn [orb] in He. rewrite !andb_true_iff in He. destruct He as [[Hr Hd] Hroom].
  apply (RecoveryProofs.on_ack_received_spec (delivers (written s) (clean_credit s)) now id ack (cn s)); [by apply inv_delivers | |].
  - eapply forallb_Forall; [| exact Hr]. intros x. simpl. lia.
  - unfold RecoveryProofs.delay_fits, delay_fitsb in *. destruct (Recovery.update_largest id (AckFrame.largest ack) (cn s)) as [nl c1].
    intros acked c2 E1 E2. rewrite E1, E2 in Hd. by apply bool_decide_eq_true in Hd.
Qed.

Lemma inner_step_spec now i s : connection_inv s → inner_enabled now i s = true →
  ∃ s', inner_step now i s = Some s' ∧ connection_inv s' ∧ carries_on (cn s) (cn s').
Proof.
  intros Hci He. unfold inner_step. destruct (Recovery.is_closed _) eqn:Ec; [by exists s |]. destruct i as [id ack | o | id |].
  1: destruct (ack_step_spec now id ack s Hci Ec He) as (r & c & E & Hi' & Ha' & Hc' & _).
  all: unfold inner_enabled in He; rewrite Ec in He; cbn [orb] in He.
  - rewrite E. eexists. split; [reflexivity |]. apply inv_accounted in Hi'. destruct r as [? | e].
    + split; [| by apply carries_on_credit]. split; [done | by apply (counts_credit (cn s)); [| apply Hci]].
    + destruct (close_spec _ _ Hi') as (Hi2 & Ha2 & Hc2). split; [| apply carries_on_credit; [simpl; congruence | done]].
      split; [done | apply (counts_credit (cn s)); [simpl; congruence | apply Hci]].
  - apply andb_true_iff in He as [Ho He]. by apply frame_step_spec.
  - destruct (discardable_spec _ _ He) as [Hne Hle]. destruct (RecoveryProofs.discard_space_spec _ now id (cn s) (proj1 Hci) Hne Hle) as (c & E & Hi' & Ha' & Hc').
    rewrite E. eexists. split; [reflexivity |]. split; [| by apply carries_on_credit]. split; [done | by apply (counts_credit (cn s)); [| apply Hci]].
  - eexists. split; [reflexivity |]. destruct Hci as [Hi Hct]. split; [split; [destruct Hi as [[] []]; split; by split | exact Hct] |].
    split; [done |]. intros Hb Ha. split; [done |]. revert Ha. apply RecoveryProofs.armed_stays; try done. unfold blocked in Hb. by rewrite Hb.
Qed.

Lemma inner_steps_spec now l : ∀ s, connection_inv s → inner_all now l s = true →
  ∃ s', inner_steps now l s = Some s' ∧ connection_inv s' ∧ carries_on (cn s) (cn s').
Proof.
  induction l as [| i l IH]; intros s Hi He; simpl in *; [by exists s |]. apply andb_true_iff in He as [He1 He2].
  destruct (inner_step_spec now i s Hi He1) as (s1 & E1 & Hi1 & Hc1). rewrite E1 in *. destruct (IH s1 Hi1 He2) as (s2 & E2 & Hi2 & Hc2).
  exists s2. split; [exact E2 |]. split; [done |]. destruct Hc1 as [Hr1 Hc1], Hc2 as [Hr2 Hc2]. split; [congruence |].
  intros Hb Ha. destruct (Hc1 Hb Ha). by apply Hc2.
Qed.

Lemma datagram_step_spec now len first rest s : connection_inv s → enabled (EDatagram now len first rest) s = true →
  ∃ s', datagram_step now len first rest s = Some s' ∧ connection_inv s' ∧ (RecoveryProofs.armed (cn s) → RecoveryProofs.armed (cn s')).
Proof.
  intros Hci He. cbn [enabled] in He. rewrite !andb_true_iff in He. destruct He as [[[Hl Hr] Hf] He]. zbool.
  destruct (inner_steps_spec now first s Hci Hf) as (s1 & E1 & Hi1 & Hr1 & Hc1). rewrite E1 in He. unfold datagram_step. rewrite E1. cbn [mbind option_bind].
  set (c1 := (cn s1) <| Recovery.path := _ |>) in *. destruct Hi1 as [Hi1 Hct1].
  destruct (RecoveryProofs.received_unblocks len (cn s1) Hct1) as [Hct2 Hub]; [lia | lia |]. fold c1 in Hct2, Hub.
  assert (Hi2 : connection_inv (set_cn c1 s1)) by (split; [destruct Hi1 as [[] []]; split; by split | exact Hct2]).
  destruct (inner_steps_spec now rest (set_cn c1 s1) Hi2 He) as (s3 & E3 & [Hi3 Hct3] & Hr3 & Hc3). rewrite E3. cbn [mbind option_bind].
  fold (blocked (cn s)). destruct (blocked (cn s)) eqn:Eb.
  - destruct (RecoveryProofs.set_timer_spec _ now (cn s3) Hi3) as (c4 & t & E4 & Ec4 & Hi4 & Ha4). rewrite E4. eexists. split; [reflexivity |].
    split; [| done]. split; [exact Hi4 |]. apply (counts_credit (cn s3)); [simpl; by rewrite Ec4 | done].
  - eexists. split; [reflexivity |]. split; [done |]. intros Ha. destruct (Hc1 eq_refl Ha) as [Hb1 Ha1].
    apply Hc3; [by apply Hub |]. simpl. revert Ha1. apply RecoveryProofs.armed_stays; try done. fold (blocked (cn s1)). by rewrite Hb1.
Qed.

Lemma populate_spec max_size fair s : connection_inv s → StreamsSystem.enabled (TStreams [] max_size fair) (view_of s) = true →
  ∃ out w ms, populate max_size fair s = Some (out, w, ms) ∧ streams_inv (written s) (ms ++ frames_of (flight (cn s))) (clean_credit s) (w_streams w).
Proof.
  intros [Hi _] He. apply andb_true_iff in He as [_ He]. zbool.
  pose proof (RecoveryProofs.co_known _ _ _ _ (proj1 Hi) : accounted (written s) (clean_credit s) (flight (cn s)) (Recovery.streams (cn s))) as Hinv.
  unfold accounted in Hinv. pose proof Hinv as (Hc & Hm & Hs & extra0 & _ & _ & Hr0). unfold populate.
  destruct (write_control_frames_inv iter_next max_size (mk_writer [] (Recovery.pending (Recovery.data (cn s))) None (Recovery.streams (cn s)))
    (written s) (frames_of (flight (cn s))) extra0 Hs Hr0) as (r & w & -> & Hco). cbn [w_streams] in Hco. cbn [mbind option_bind].
  destruct (controlled_inv _ _ _ _ Hco Hs Hc) as (Hs1 & Hc1 & Em).
  assert (Hinv1 : streams_inv (written s) (frames_of (flight (cn s))) (clean_credit s) (w_streams w)).
  { eapply inv_sent; try done. intros extra Hr. by apply (co_recv _ _ Hco). }
  unfold write_stream_frames.
  destruct (write_stream_loop_spec (written s) max_size fair He
    (length (PendingStreamsQueue.iter (pending (w_streams w))) + Z.to_nat (max_size - zlen (w_buf w))) (w_buf w) [] (frames_of (flight (cn s))) (w_streams w) Hs1 Hc1)
    as (fs & out & s1 & -> & [Hs2 Hu _ _ _ _ _ _ _ _]); [unfold queued; rewrite length_fmap; lia |]. cbn [mbind option_bind].
  do 3 eexists. split; [reflexivity |]. by eapply inv_unmoved.
Qed.

Lemma sendable_spec id size elicits l (c : Conn) : sendable id size c = true → (l ≠ [] → id = QuicPacket.SpaceData ∧ elicits = true) →
  RecoveryProofs.sendable id size elicits l c.
Proof.
  unfold sendable, RecoveryProofs.sendable. rewrite !andb_true_iff, orb_true_iff, bool_decide_eq_true. intros ((((? & ?) & ?) & Hk) & Hf) Hl. zbool.
  split; [lia |]. split; [done |]. split; [done |]. split; [lia |]. intros E. rewrite E in Hf. apply andb_true_iff in Hf as [Hf1 Hf2].
  apply negb_true_iff, bool_decide_eq_false in Hf1. zbool. done.
Qed.

(** A packet that begins no MTU probe. *)
Lemma send_plain K `{!RecoveryProofs.DeliveryLaws Retransmits.Retransmits Frames.StreamMeta StreamsState K} now id draw size padded elicits largest r frames (c : Conn) :
  RecoveryProofs.inv_with K (RecoveryProofs.carried r frames) c → RecoveryProofs.sendable id size elicits (RecoveryProofs.carried r frames) c →
  ∃ c', Recovery.send_packet now id draw size padded elicits largest r frames c = Some c' ∧ RecoveryProofs.inv K c'
  ∧ (elicits = true → RecoveryProofs.armed c') ∧ (RecoveryProofs.armed c → RecoveryProofs.armed c') ∧ RecoveryProofs.credit c' = RecoveryProofs.credit c.
Proof.
  intros Hi Hs. destruct (RecoveryProofs.send_packet_spec K now id draw size padded elicits largest r frames (PathData.mtud (Recovery.path c)) c Hi Hs) as (c' & E & H');
    [apply Hi | done | by left |]. exists c'. split; [| done]. rewrite <- E. f_equal. by destruct c as [? ? ? ? ? []].
Qed.

Lemma data_step_spec now draw max_size fair size padded elicits largest s : connection_inv s →
  enabled (EData now draw max_size fair size padded elicits largest) s = true →
  ∃ s', data_step now draw max_size fair size padded elicits largest s = Some s' ∧ connection_inv s'
  ∧ (elicits = true → RecoveryProofs.armed (cn s')) ∧ (RecoveryProofs.armed (cn s) → RecoveryProofs.armed (cn s')).
Proof.
  intros Hci He. cbn [enabled] in He. rewrite !andb_true_iff in He. destruct He as [[He Hsd] Hp]. destruct (populate_spec max_size fair s Hci He) as (out & w & ms & E & Hinv).
  unfold data_step. rewrite E in *. cbn [mbind option_bind]. set (r := default Retransmits.empty (w_retransmits w)) in *. set (l := RecoveryProofs.carried r ms) in *.
  apply andb_true_iff in Hp as [Hel Hroom%room_forb_spec]. set (c1 := put_streams (w_streams w) (w_pending w) (cn s)).
  assert (Hi1 : RecoveryProofs.inv_with (delivers (written s) (clean_credit s)) l c1).
  { assert (Hi1 : RecoveryProofs.inv (λ x st, delivers (written s) (clean_credit s) (l ++ x) st) c1).
    - eapply inv_put; [apply Hci |]. split; [| exact Hroom]. replace (frames_of (l ++ flight (cn s))) with (ms ++ frames_of (flight (cn s))); [exact Hinv |].
      unfold l, RecoveryProofs.carried, frames_of. rewrite !omap_app. f_equal. symmetry. etransitivity; [apply f_equal2; [apply omap_inr | apply omap_inl] |]. done.
    - destruct Hi1 as [[] Ha]. split; [by split | done]. }
  destruct (send_plain (delivers (written s) (clean_credit s)) now QuicPacket.SpaceData draw size padded elicits largest r ms c1 Hi1) as (c' & E' & Hi' & Ha1 & Ha2 & Hc').
  { apply sendable_spec; [exact Hsd |]. intros Hne. split; [done |]. apply orb_true_iff in Hel as [? | Hl]; [done |]. apply bool_decide_eq_true in Hl. done. }
  rewrite E'. eexists. split; [reflexivity |]. split; [split; [by apply inv_accounted | apply (counts_credit (cn s)); [done | apply Hci]] |]. split; [done |].
  intros Ha. apply Ha2. by apply armed_put.
Qed.

(** ** Events *)

(** Events after which the timer is set for certain, and events that leave it behind. *)
Definition settles (e : Event) : bool :=
  match e with EData _ _ _ _ _ _ elicits _ => elicits | ESend _ _ _ _ _ elicits _ _ => elicits | EDiscard _ _ => true | _ => false end.
Definition disturbs (e : Event) : bool := match e with EKeys _ | EEstablished => true | _ => false end.

Lemma send_step_spec now id draw size padded elicits largest r s : connection_inv s → enabled (ESend now id draw size padded elicits largest r) s = true →
  ∃ c', Recovery.send_packet now id draw size padded elicits largest r [] (cn s) = Some c' ∧ connection_inv (set_cn c' s)
  ∧ (elicits = true → RecoveryProofs.armed c') ∧ (RecoveryProofs.armed (cn s) → RecoveryProofs.armed c').
Proof.
  intros Hci He. cbn [enabled] in He. rewrite !andb_true_iff, bool_decide_eq_true in He. destruct He as [[Hsd Hr] Hroom].
  pose proof (inv_delivers s Hci Hroom) as Hi. assert (Hl : RecoveryProofs.carried r [] = []) by (unfold RecoveryProofs.carried; simpl; by rewrite Hr).
  destruct (send_plain (delivers (written s) (clean_credit s)) now id draw size padded elicits largest r [] (cn s)) as (c' & E' & Hi' & Ha1 & Ha2 & Hc').
  { by rewrite Hl. }
  { apply sendable_spec; [done |]. by rewrite Hl. }
  exists c'. split; [done |]. split; [| done]. split; [by apply inv_accounted | apply (counts_credit (cn s)); [done | apply Hci]].
Qed.

Lemma probe_step_spec now draw s : connection_inv s → enabled (EProbe now draw) s = true →
  ∃ c', Recovery.send_mtu_probe now draw Retransmits.empty (cn s) = Some c' ∧ connection_inv (set_cn c' s) ∧ (RecoveryProofs.armed (cn s) → RecoveryProofs.armed c').
Proof.
  intros Hci [Hsd Hroom]%andb_true_iff. pose proof (inv_delivers s Hci Hroom) as Hi.
  destruct (sendable_spec QuicPacket.SpaceData 1 true [] (cn s) Hsd) as (_ & _ & _ & Hn & Hf); [done |].
  destruct (RecoveryProofs.send_probe_spec _ now draw Retransmits.empty (cn s) Hi) as (c' & E & Hi' & Ha & Hc); [done | intros E; by destruct (Hf E) | done |].
  exists c'. split; [done |]. split; [| done]. split; [by apply inv_accounted | apply (counts_credit (cn s)); [done | apply Hci]].
Qed.

Lemma timeout_step_spec now s : connection_inv s → enabled (ETimeout now) s = true →
  ∃ c', Recovery.handle_loss_timeout now (cn s) = Some c' ∧ connection_inv (set_cn c' s) ∧ (RecoveryProofs.armed (cn s) → RecoveryProofs.armed c').
Proof.
  intros Hci He. cbn [enabled] in He. apply andb_true_iff in He as [Hroom He]. unfold Recovery.handle_loss_timeout.
  destruct (Recovery.t_loss_detection _) as [t |] eqn:Et; [| by exists (cn s); destruct s]. destruct (Z.leb_spec t now); [| by exists (cn s); destruct s].
  rewrite (proj2 (Z.ltb_ge now t)) in He by lia. cbn [orb] in He. pose proof (inv_delivers s Hci Hroom) as Hi.
  destruct (RecoveryProofs.on_timeout_spec (delivers (written s) (clean_credit s)) now (Recovery.set_loss_timer None (cn s))) as (c' & E & Hi' & Ha & Hc).
  { by eapply RecoveryProofs.inv_same. }
  { unfold RecoveryProofs.can_time_out, can_time_outb in *. change (Recovery.loss_time_and_space (Recovery.set_loss_timer None (cn s))) with (Recovery.loss_time_and_space (cn s)).
    destruct (Recovery.loss_time_and_space (cn s)); [by apply bool_decide_eq_true in He |]. apply orb_true_iff in He as [Hz%negb_true_iff | Hz%negb_true_iff]; [left; zbool; done | by right]. }
  exists c'. split; [done |]. split; [| done]. split; [by apply inv_accounted | apply (counts_credit (cn s)); [done | apply Hci]].
Qed.

Lemma step_spec e s : connection_inv s → enabled e s = true →
  ∃ s', step e s = Some s' ∧ connection_inv s' ∧ (settles e = true → RecoveryProofs.armed (cn s'))
  ∧ (disturbs e = false → RecoveryProofs.armed (cn s) → RecoveryProofs.armed (cn s')).
Proof.
  intros Hci He. destruct e; cbn [step settles disturbs].
  - cbn [enabled] in He. apply andb_true_iff in He as [Ho He]. apply andb_true_iff in Ho as [Ho _].
    destruct (streams_step_spec o s Hci Ho He) as (s' & -> & ? & ? & _). by exists s'.
  - destruct (data_step_spec _ _ _ _ _ _ _ _ _ Hci He) as (s' & -> & ? & ? & ?). by exists s'.
  - destruct (send_step_spec _ _ _ _ _ _ _ _ _ Hci He) as (c' & -> & ? & ? & ?). by eexists.
  - destruct (probe_step_spec _ _ _ Hci He) as (c' & -> & ? & ?). by eexists.
  - cbn [enabled] in He. apply andb_true_iff in He as [H1 H2]. zbool. destruct Hci as [Hi Hct].
    destruct (RecoveryProofs.sent_blocks bytes (cn s) Hct H1 H2) as [Hct' Ha]. eexists. split; [reflexivity |]. split; [| by split].
    split; [destruct Hi as [[] []]; split; by split | done].
  - destruct (datagram_step_spec _ _ _ _ _ Hci He) as (s' & -> & ? & ?). by exists s'.
  - destruct (timeout_step_spec _ _ Hci He) as (c' & -> & ? & ?). by eexists.
  - destruct (discardable_spec _ _ He) as [Hne Hle]. destruct (RecoveryProofs.discard_space_spec _ now id (cn s) (proj1 Hci) Hne Hle) as (c & -> & Hi' & Ha' & Hc').
    eexists. split; [reflexivity |]. split; [split; [done | apply (counts_credit (cn s)); [done | apply Hci]] | done].
  - cbn [enabled] in He. apply andb_true_iff in He as [H1%negb_true_iff H2]. zbool.
    destruct (RecoveryProofs.upgrade_spec _ id (cn s) (proj1 Hci) H1 H2) as (c & -> & Hi' & Hc'). eexists. split; [reflexivity |].
    split; [split; [done | apply (counts_credit (cn s)); [done | apply Hci]] | done].
  - eexists. split; [reflexivity |]. destruct Hci as [Hi Hct]. split; [| done]. split; [destruct Hi as [[] []]; split; by split | done].
Qed.

(** Whether the timer must be set after a run: from the start or since the last event that sets
    it for certain, nothing has left it behind. *)
Definition settled (es : list Event) : bool := fold_left (λ b e, if settles e then true else if disturbs e then false else b) es false.

Lemma run_spec es : ∀ b s, connection_inv s → (b = true → RecoveryProofs.armed (cn s)) → ∀ s', run es s = Some s' →
  connection_inv s' ∧ (fold_left (λ b e, if settles e then true else if disturbs e then false else b) es b = true → RecoveryProofs.armed (cn s')).
Proof.
  induction es as [| e es IH]; intros b s Hi Ha s' E; simpl in *; [by injection E as <- |].
  destruct (enabled e s) eqn:He; [| done]. destruct (step_spec e s Hi He) as (s1 & E1 & Hi1 & H1 & H2). rewrite E1 in E. simpl in E.
  apply (IH _ s1 Hi1); [| done]. destruct (settles e); [intros _; by apply H1 |]. destruct (disturbs e); [done |]. intros Hb. by apply H2, Ha.
Qed.

(** ** The beginning *)

Definition negotiate_max_idle_timeout (x y : option Z) : option Z :=
  match x, y with
  | (None | Some 0), (None | Some 0) => None
  | (None | Some 0), Some y => Some (y * 1000000)
  | Some x, (None | Some 0) => Some (x * 1000000)
  | Some x, Some y => Some (Z.min x y * 1000000)
  end.

Definition get_max_ack_delay (p : TransportParameters.TransportParameters) : Z := AckFrequency.from_micros (TransportParameters.max_ack_delay p * 1000).

(** [set_peer_params], as far as the parts modelled here are concerned. *)
Definition set_peer_params (max_idle_timeout : option Z) (p : TransportParameters.TransportParameters) (c : Conn) : option Conn :=
  m ← MtuDiscovery.on_peer_max_udp_payload_size_received (Z.min (TransportParameters.max_udp_payload_size p) (u_max 16)) (PathData.mtud (Recovery.path c));
  let a := Recovery.ack_frequency c in
  Some (c <| Recovery.streams := set_params p (Recovery.streams c) |>
          <| Recovery.idle_timeout := negotiate_max_idle_timeout max_idle_timeout (Some (TransportParameters.max_idle_timeout p)) |>
          <| Recovery.ack_frequency := AckFrequency.mk_ack_frequency (AckFrequency.in_flight_ack_frequency_frame a)
               (AckFrequency.next_outgoing_sequence_number a) (get_max_ack_delay p) (AckFrequency.last_ack_frequency_frame a) (AckFrequency.max_ack_delay a) |>
          <| Recovery.ack_delay_exponent := TransportParameters.ack_delay_exponent p |>
          <| Recovery.max_datagram_frame_size := TransportParameters.max_datagram_frame_size p |>
          <| Recovery.path := (Recovery.path c) <| PathData.mtud := m |> |>).

Record Config := mk_connection_config {
  c_streams : StreamsSystem.Config;
  c_path : PathData.Config (C := C);
  c_recovery : Recovery.RecoveryConfig;
  c_remote : NatFrames.SocketAddr;
  c_allow_mtud : bool;
  c_validated : bool;
  c_idle : option Z;
  c_overhead : Z;
  c_draw : Z;
}.

(** A connection that has just got its peer's transport parameters. *)
Definition start (now : Z) (f : Config) : option Sys :=
  let g := c_streams f in
  st ← StreamsState.new (cf_side g) (cf_max_uni g) (cf_max_bidi g) (cf_send_window g) (cf_receive_window g) (cf_stream_receive_window g);
  c ← Recovery.new (cf_side g) (c_remote f) (c_allow_mtud f) (c_validated f) now (c_draw f) (c_path f) (c_recovery f) (c_idle f)
        (get_max_ack_delay TransportParameters.default) (c_overhead f) Retransmits.empty st;
  c ← set_peer_params (c_idle f) (cf_peer g) c;
  Some (mk_connection c ∅ [] ∅ ∅ true).

(** The sizes fit together, and the peer's parameters have passed their checks. *)
Definition config_valid (f : Config) : bool :=
  let p := c_path f in
  StreamsSystem.config_ok (c_streams f)
  && (c_overhead f + Datagrams.SIZE_BOUND <=? PathData.min_mtu p) && (0 <=? c_overhead f)
  && (PathData.min_mtu p <=? PathData.initial_mtu p) && (PathData.initial_mtu p <=? MAX_UDP_PAYLOAD)
  && (PathData.min_mtu p <=? TransportParameters.max_udp_payload_size (cf_peer (c_streams f)))
  && (TransportParameters.ack_delay_exponent (cf_peer (c_streams f)) <? 64)
  && match PathData.mtu_discovery_config p with
     | Some c => (3 <=? SearchState.cfg_minimum_change c) && (SearchState.cfg_minimum_change c <? 2 ^ 16) && bool_decide (is_u 16 (SearchState.cfg_upper_bound c))
     | None => true
     end.

Lemma disabled_ok mtu min : 0 ≤ min ≤ mtu → mtu ≤ MAX_UDP_PAYLOAD → MtudProofs.mtud_ok (MtuDiscovery.disabled mtu min).
Proof.
  intros Hm Hle. split; unfold MtudProofs.min_of, MtudProofs.limit; simpl; unfold MAX_UDP_PAYLOAD, u_max in *; try lia; try done.
Qed.

Lemma path_start f now : config_valid f = true →
  ∃ q, PathData.new (c_remote f) (c_allow_mtud f) None now (c_path f) = Some q ∧ MtudProofs.mtud_ok (PathData.mtud q)
  ∧ MtudProofs.min_of (PathData.mtud q) = PathData.min_mtu (c_path f) ∧ MtudProofs.searching (PathData.mtud q) = false
  ∧ PathData.in_flight q = PathData.mk_in_flight 0 0 ∧ PathData.first_packet q = None ∧ PathData.total_sent q = 0 ∧ PathData.total_recvd q = 0.
Proof.
  unfold config_valid. rewrite !andb_true_iff. intros (((((((_ & H1) & H2) & H3) & H4) & _) & _) & H5). zbool. unfold Datagrams.SIZE_BOUND in *.
  unfold PathData.new. assert (Hdis : MtudProofs.mtud_ok (MtuDiscovery.disabled (PathData.initial_mtu (c_path f)) (PathData.min_mtu (c_path f)))) by (apply disabled_ok; lia).
  destruct (PathData.mtu_discovery_config (c_path f)) as [mc |]; [destruct (c_allow_mtud f) |].
  - rewrite !andb_true_iff, bool_decide_eq_true in H5. destruct H5 as [[? ?] ?]. zbool.
    destruct (MtudProofs.new_mtud_ok (PathData.initial_mtu (c_path f)) (PathData.min_mtu (c_path f)) None mc) as (m & -> & ? & ? & ? & _); [by split | lia | lia | done |].
    eexists. split; [reflexivity |]. done.
  - eexists. split; [reflexivity |]. done.
  - eexists. split; [reflexivity |]. done.
Qed.

Lemma peer_max_probe size m m' : MtuDiscovery.on_peer_max_udp_payload_size_received size m = Some m' →
  MtuDiscovery.in_flight_mtu_probe m' = MtuDiscovery.in_flight_mtu_probe m.
Proof.
  unfold MtuDiscovery.on_peer_max_udp_payload_size_received, MtuDiscovery.in_flight_mtu_probe.
  cbn [MtuDiscovery.state]. simpl. destruct (MtuDiscovery.state m) as [e |] eqn:Es; simpl; [destruct (MtuDiscovery.phase e) eqn:Ep; simpl |]; intros E; simplify_eq; simpl; rewrite ?Es, ?Ep; done.
Qed.

Lemma not_searching_probe m : MtudProofs.searching m = false → MtuDiscovery.in_flight_mtu_probe m = None.
Proof. unfold MtudProofs.searching, MtuDiscovery.in_flight_mtu_probe. destruct (MtuDiscovery.state m) as [e |]; [| done]. by destruct (MtuDiscovery.phase e). Qed.

(** Nothing is tracked yet. *)
Lemma fresh_core K (c : Conn) : Recovery.prev_path c = None → (∀ id, Recovery.ps (Recovery.space id c) = PacketSpace.new) →
  PathData.in_flight (Recovery.path c) = PathData.mk_in_flight 0 0 → PathData.first_packet (Recovery.path c) = None → K [] (Recovery.streams c) →
  RecoveryProofs.core K None [] c.
Proof.
  intros Hp Hs Hf Hfp Hk. assert (Hpk : ∀ id, RecoveryProofs.packets id c = []) by (intros id; unfold RecoveryProofs.packets; by rewrite Hs).
  split; rewrite ?Hf, ?Hfp; try done.
  - intros id. rewrite Hs. split; [apply RecoveryProofs.space_inv_tracked, PacketSpace.space_inv_new | done].
  - intros id. left. rewrite Hs. apply PacketSpace.space_inv_new.
  - intros id. rewrite Hpk. constructor.
  - unfold RecoveryProofs.sum_ids. by rewrite !Hpk.
  - unfold RecoveryProofs.sum_ids. by rewrite !Hpk.
  - unfold RecoveryProofs.frames_of. by rewrite Hpk.
Qed.

(** A connection that nothing has happened to. *)
Record fresh (c : Conn) : Prop := {
  fr_prev : Recovery.prev_path c = None;
  fr_ps id : Recovery.ps (Recovery.space id c) = PacketSpace.new;
  fr_loss id : Recovery.loss_time (Recovery.space id c) = None;
  fr_flight : PathData.in_flight (Recovery.path c) = PathData.mk_in_flight 0 0;
  fr_first : PathData.first_packet (Recovery.path c) = None;
  fr_totals : PathData.total_sent (Recovery.path c) = 0 ∧ PathData.total_recvd (Recovery.path c) = 0;
  fr_mtud : MtudProofs.mtud_ok (PathData.mtud (Recovery.path c));
  fr_probe : MtuDiscovery.in_flight_mtu_probe (PathData.mtud (Recovery.path c)) = None;
  fr_overhead : 0 ≤ Recovery.overhead c ∧ Recovery.overhead c + Datagrams.SIZE_BOUND ≤ MtudProofs.min_of (PathData.mtud (Recovery.path c));
}.

Lemma fresh_inv (c : Conn) : fresh c → Recovery.ack_delay_exponent c < 64 → accounted ∅ true [] (Recovery.streams c) →
  connection_inv (mk_connection c ∅ [] ∅ ∅ true).
Proof.
  intros [? Hs Hl ? ? [Ht Hr] ? Hp ?] He Hk. split; [split; [by apply fresh_core | split]; cbn [cn]; try done |].
  - by rewrite Hp.
  - intros id. rewrite Hl. by intros [].
  - intros id. unfold RecoveryProofs.packets. by rewrite Hs.
  - unfold RecoveryProofs.counts_ok. cbn [cn]. rewrite Ht, Hr. lia.
Qed.

Lemma set_peer_params_fresh idle p (c : Conn) : fresh c → MtudProofs.searching (PathData.mtud (Recovery.path c)) = false →
  0 < MtudProofs.min_of (PathData.mtud (Recovery.path c)) ≤ Z.min (TransportParameters.max_udp_payload_size p) (u_max 16) →
  ∃ c', set_peer_params idle p c = Some c' ∧ fresh c' ∧ Recovery.streams c' = set_params p (Recovery.streams c)
    ∧ Recovery.ack_delay_exponent c' = TransportParameters.ack_delay_exponent p.
Proof.
  intros [? Hs Hl ? ? [Ht Hr] Hm Hp ?] Hse Hmin. unfold set_peer_params.
  destruct (MtudProofs.step_peer_max (Z.min (TransportParameters.max_udp_payload_size p) (u_max 16)) _ Hm Hse) as (m & Emx & Hm' & Hmin' & _); [unfold u_max in *; lia |].
  pose proof (peer_max_probe _ _ _ Emx) as Hpr. rewrite Emx. cbn [mbind option_bind]. eexists. split; [reflexivity |]. split; [| done].
  split; simpl; try done; [by rewrite Hpr | by rewrite Hmin'].
Qed.

Lemma new_fresh f now st : config_valid f = true →
  ∃ c : Conn, Recovery.new (cf_side (c_streams f)) (c_remote f) (c_allow_mtud f) (c_validated f) now (c_draw f) (c_path f) (c_recovery f) (c_idle f)
      (get_max_ack_delay TransportParameters.default) (c_overhead f) Retransmits.empty st = Some c
    ∧ fresh c ∧ MtudProofs.searching (PathData.mtud (Recovery.path c)) = false
    ∧ MtudProofs.min_of (PathData.mtud (Recovery.path c)) = PathData.min_mtu (c_path f) ∧ Recovery.streams c = st.
Proof.
  intros Hv. destruct (path_start f now Hv) as (q & Eq & Hm & Hmin & Hse & Hfl & Hfp & Hts & Htr).
  unfold config_valid in Hv. rewrite !andb_true_iff in Hv. destruct Hv as (((((((_ & H1) & H2) & _) & _) & _) & _) & _). zbool.
  pose proof (not_searching_probe _ Hse) as Hpr. unfold Recovery.new. rewrite Eq. cbn [mbind option_bind]. eexists. split; [reflexivity |].
  split; [split; destruct (c_validated f); simpl; try done; try (by intros []); by rewrite Hmin | by destruct (c_validated f)].
Qed.

Lemma sys_accounted v : StreamsSystem.sys_inv v → StreamsSystem.fl v = [] → accounted (StreamsSystem.wr v) (StreamsSystem.clean v) [] (StreamsSystem.st v).
Proof. unfold StreamsSystem.sys_inv, accounted. change (frames_of []) with (@nil Frames.StreamMeta). by intros Hv <-. Qed.

Lemma start_spec f now : config_valid f = true → ∃ s, start now f = Some s ∧ connection_inv s.
Proof.
  intros Hv. assert (Hv' := Hv). unfold config_valid in Hv'. rewrite !andb_true_iff in Hv'.
  destruct Hv' as (((((((Hst & H1) & H2) & H3) & H4) & H5) & H6) & _). zbool.
  destruct (StreamsSystem.start_inv _ Hst) as (v & Ev & Hsys). unfold StreamsSystem.start in Ev. apply bind_Some in Ev as (st & Est & [= <-]). apply sys_accounted in Hsys; [| done]. cbn [StreamsSystem.wr StreamsSystem.clean StreamsSystem.st] in Hsys.
  destruct (new_fresh f now st Hv) as (c & Ec & Hf & Hse & Hmin & Hstr).
  destruct (set_peer_params_fresh (c_idle f) (cf_peer (c_streams f)) c Hf Hse) as (c' & Ec' & Hf' & Hs' & He').
  { rewrite Hmin. unfold u_max, MAX_UDP_PAYLOAD, Datagrams.SIZE_BOUND in *. lia. }
  unfold start. rewrite Est. cbn [mbind option_bind]. rewrite Ec. cbn [mbind option_bind]. rewrite Ec'. eexists. split; [reflexivity |].
  apply fresh_inv; [done | by rewrite He' |]. rewrite Hs', Hstr. exact Hsys.
Qed.

End connection.
End Connection.
