(* ===== verification/StreamsTransfer.v ===== *)
(** * Transfer of data between two endpoints

    What one endpoint writes on its streams and what the other reads from them, with any loss,
    duplication, reordering and retransmission of the packets in between. *)

From Stdlib Require Import String.
From stdpp Require Import gmap fin_maps fin_sets.
From S2P Require Import Prelude BTree RangeSets Coding SendBuf Assembler NatFrames Frames Sums.
From S2P Require Import StreamSend StreamRecv TransportParams StreamQueue Streams StreamsSend StreamsRecvProofs StreamsCount.
From S2P Require Import StreamsCountOps StreamsSendProofs StreamsTransmit StreamsLimits StreamsSystem.

Module StreamsTransfer.
Import StreamsState StreamsSend StreamsRecvProofs StreamsCount StreamsCountOps StreamsSendProofs StreamsTransmit StreamsLimits StreamsSystem.

(** ** Streams that appear for receiving *)

(** A stream that nothing was received on. *)
Definition unused (o : option StreamRecv) : Prop := ∀ r, o ≠ Some (ROpen r).

(** The streams for receiving stay, and unused ones the application does not know appear. *)
Definition recv_grown (s s' : StreamsState) : Prop :=
  ∀ id, recv s' !! id = recv s !! id
    ∨ (recv s !! id = None ∧ ¬ known s id ∧ ∃ o, recv s' !! id = Some o ∧ unused o).

Lemma recv_grown_same s s' : recv s' = recv s → recv_grown s s'.
Proof. intros E id. left. by rewrite E. Qed.

Lemma recv_grown_trans s1 s2 s3 : (∀ id, known s1 id → known s2 id) → recv_grown s1 s2 → recv_grown s2 s3 → recv_grown s1 s3.
Proof.
  intros Hk H12 H23 id. destruct (H12 id) as [E | (E & Hn & o & Eo & Ho)], (H23 id) as [E' | (E' & Hn' & o' & Eo' & Ho')].
  - left. congruence.
  - right. split_and!; [congruence | by auto | by exists o'].
  - right. split_and!; [done | done | exists o; split; congruence].
  - congruence.
Qed.

(** [insert] gives the stream a buffer that is free, or none. *)
Lemma insert_entries remote id s s' : recv_wf s → insert remote id s = Some s' →
  (∀ i, recv s' !! i = recv s !! i ∨ (i = id ∧ recv s !! i = None ∧ ∃ o, recv s' !! i = Some o ∧ unused o))
  ∧ side s' = side s ∧ next s' = next s ∧ next_reported_remote s' = next_reported_remote s.
Proof.
  intros Hwf E. unfold insert in E. set (bi := bool_decide _) in E. apply bind_Some in E as (s1 & E1 & E).
  assert (H1 : recv s1 = recv s ∧ free_recv s1 = free_recv s ∧ side s1 = side s ∧ next s1 = next s
    ∧ next_reported_remote s1 = next_reported_remote s) by (repeat case_hyp E1; by simplify_eq).
  destruct H1 as (Er & Ef & ? & ? & ?). destruct (bi || remote).
  2:{ simplify_eq. split_and!; [intros i; left; by rewrite Er | done..]. }
  assert (∃ o fr, (match vec_pop (free_recv s1) with Some (r, free) => (Some r, free) | None => (None, []) end) = (o, fr) ∧ unused o)
    as (o & fr & Eo & Ho).
  { destruct (vec_pop (free_recv s1)) as [[r fr] |] eqn:Ep; [| by exists None, []]. exists (Some r), fr. split; [done |].
    apply vec_pop_Some in Ep. pose proof (rw_free _ Hwf) as Hf. rewrite <- Ef, Ep, Forall_app in Hf. destruct Hf as [_ Hf].
    apply Forall_cons in Hf as [-> _]. by intros ?. }
  rewrite Eo in E. destruct (recv s1 !! id) eqn:Eid; [done |]. injection E as <-. split_and!; [| done..]. intros i. simpl. rewrite Er in *.
  destruct (decide (i = id)) as [-> |]; [right | left; by rewrite lookup_insert_ne]. rewrite lookup_insert_eq. eauto.
Qed.

Lemma insert_grown remote id s s' : recv_wf s → ¬ known s id → insert remote id s = Some s' →
  recv_grown s s' ∧ side s' = side s ∧ next s' = next s ∧ next_reported_remote s' = next_reported_remote s.
Proof.
  intros Hwf Hk E. destruct (insert_entries _ _ _ _ Hwf E) as [Hi Hf]. split; [| done]. intros i.
  destruct (Hi i) as [| (-> & ? & ?)]; [by left | by right].
Qed.

Lemma insert_remote_grown d n : ∀ from s s', recv_wf s → sel d (next_reported_remote s) ≤ from → 0 ≤ from →
  from + Z.of_nat n ≤ 2 ^ 60 → insert_remote d from n s = Some s' →
  recv_grown s s' ∧ side s' = side s ∧ next s' = next s ∧ next_reported_remote s' = next_reported_remote s.
Proof.
  induction n as [|n IH]; intros from s s' Hwf Hfrom H0 Hn E; cbn [insert_remote] in E.
  { injection E as <-. split_and!; [by apply recv_grown_same | done..]. }
  apply bind_Some in E as (s1 & E1 & E). pose proof (insert_recv _ _ _ _ Hwf E1) as (Hwf1 & _ & _).
  apply insert_grown in E1 as (Hg1 & Hs1 & Hn1 & Hr1); [| done |].
  2:{ destruct (StreamId.new_spec (other (side s)) d from) as (Hi & Hd & Hx & _); [unfold is_u; lia |].
      unfold known. rewrite Hi, decide_False, Hd, Hx by apply other_ne. lia. }
  apply IH in E as (Hg2 & Hs2 & Hn2 & Hr2); [| done | by rewrite Hr1; lia | lia | lia].
  split_and!; [| congruence..]. eapply recv_grown_trans; [| exact Hg1 | exact Hg2].
  intros id. apply known_view; congruence.
Qed.

Lemma ensure_grown d s s' ss : recv_wf s → count_pre ss s → room s → ensure_remote_streams d s = Some s' → recv_grown s s'.
Proof.
  intros Hwf Hp Hroom E. unfold ensure_remote_streams in E. apply bind_Some in E as (s1 & E1 & [= <-]).
  pose proof (ci_reported _ _ Hp d). pose proof (ci_remote _ _ Hp d). pose proof (ci_alloc _ _ Hp d). specialize (Hroom d).
  apply insert_remote_grown in E1 as (Hg & _); [| done | lia | lia | unfold saturating_sub; lia]. exact Hg.
Qed.

(** Closing a half of a stream. *)
Lemma freed_grown half id s0 s s' : recv_wf s → count_inv s0 → room s0 → removed half id s0 s →
  stream_freed id half s = Some s' → recv_grown s s'.
Proof.
  intros Hwf Hinv Hroom Hrem E. pose proof (removed_pre half id s0 s Hinv Hrem) as Hpre.
  pose proof (fully_free_gone half id s0 s Hinv Hrem) as Hfree. pose proof Hinv as [Hp Hc].
  assert (Hf : side s = side s0 ∧ allocated_remote_count s = allocated_remote_count s0
    ∧ max_concurrent_remote_count s = max_concurrent_remote_count s0 ∧ max_remote s = max_remote s0).
  { by destruct half; simpl in Hrem; [destruct Hrem as (_ & _ & ->) | destruct Hrem as (_ & f & ->)]. }
  destruct Hf as (Hsd & Hac & Hmc & Hmr). unfold stream_freed in E. apply bind_Some in E as (s1 & E1 & E).
  assert (recv_grown s s1) as Hg.
  { rewrite Hsd in E1. destruct (bool_decide (StreamId.initiator id ≠ side s0)) eqn:Er; [| injection E1 as <-; by apply recv_grown_same].
    rewrite Hfree in E1 by (by apply bool_decide_eq_true in Er). destruct (gone id s); [| injection E1 as <-; by apply recv_grown_same].
    cbn [andb] in Hpre. rewrite Hac in E1. set (d := StreamId.dir id) in *.
    pose proof (ci_alloc _ _ Hpre d) as Ha. cbn -[sel live upd] in Ha. rewrite sel_upd, decide_True in Ha by done.
    pose proof (ci_alloc_le _ _ Hp d). pose proof (ci_remote _ _ Hp d).
    unfold wrapping_sub in E1. rewrite wrap_small in E1 by (unfold is_u; lia).
    eapply (ensure_grown d _ _ _) in E1; [exact E1 | by destruct Hwf | exact Hpre |].
    intros d'. cbn -[sel]. rewrite Hmr, Hmc. apply Hroom. }
  destruct half; injection E as <-; exact Hg.
Qed.

(** ** What was received

    [D] is what the peer writes on each stream and [F] the streams it writes nothing more on;
    [R] is what the application has read. *)

Record receiving (d : list Z) (fin : Prop) (got : list Z) (r : Recv.Recv) : Prop := {
  rc_asm : ∃ g, Assembler.ordered_inv d g (Recv.assembler r);
  rc_read : got = ztake (Recv.bytes_read r) d;
  rc_size f : Recv.state r = Recv.StRecv (Some f) → f = zlen d ∧ fin;
}.

(** Unless the stream was stopped or reset. *)
Definition stream_content (d : list Z) (fin : Prop) (got : list Z) (r : Recv.Recv) : Prop :=
  Recv.end_ r ≤ zlen d ∧ (Recv.stopped r = false → Recv.is_receiving r = true → receiving d fin got r).

Record content (D : gmap Z (list Z)) (F : Z → Prop) (R : gmap Z (list Z)) (en : gset Z) (s : StreamsState) : Prop := {
  ct_prefix id : stream_data R id `prefix_of` stream_data D id;
  ct_ended id : id ∈ en → F id ∧ stream_data R id = stream_data D id;
  ct_open id r : recv s !! id = Some (Some (ROpen r)) → stream_content (stream_data D id) (F id) (stream_data R id) r;
  ct_unused id o : recv s !! id = Some o → unused o → stream_data R id = [];
  ct_unknown id : ¬ known s id → stream_data R id = [];
}.

Lemma content_grown D F R en s s' : content D F R en s → recv_grown s s' → (∀ id, known s id → known s' id) → content D F R en s'.
Proof.
  intros [H1 H2 H3 H4 H5] Hg Hk. split; [done | done | | |].
  - intros id r E. destruct (Hg id) as [E' | (_ & _ & o & E' & Ho)]; [apply H3; congruence |].
    destruct (Ho r). congruence.
  - intros id o E Ho. destruct (Hg id) as [E' | (_ & Hn & _)]; [apply (H4 id o); [congruence | done] | by apply H5].
  - intros id Hn. apply H5. by auto.
Qed.

Lemma content_same D F R en s s' : content D F R en s → recv s' = recv s → (∀ id, known s id → known s' id) → content D F R en s'.
Proof. intros Hc E. apply content_grown; [done | by apply recv_grown_same]. Qed.

Lemma content_put D F R en s id r : content D F R en s →
  stream_content (stream_data D id) (F id) (stream_data R id) r → content D F R en (put_recv id r s).
Proof.
  intros [H1 H2 H3 H4 H5] Hr. split; [done | done | | | done].
  - intros i r' E. simpl in E. destruct (decide (i = id)) as [-> |]; [rewrite lookup_insert_eq in E; by simplify_eq |].
    rewrite lookup_insert_ne in E by done. by apply H3.
  - intros i o E Ho. simpl in E. destruct (decide (i = id)) as [-> |].
    + rewrite lookup_insert_eq in E. injection E as <-. by destruct (Ho r).
    + rewrite lookup_insert_ne in E by done. by apply (H4 i o).
Qed.

Lemma content_delete D F R en s id : content D F R en s → content D F R en (s <| recv := delete id (recv s) |>).
Proof.
  intros [H1 H2 H3 H4 H5]. split; [done | done | | | done].
  - simpl. intros i r [_ E]%lookup_delete_Some. by apply H3.
  - simpl. intros i o [_ E]%lookup_delete_Some. by apply (H4 i o).
Qed.

Lemma receiving_new srw d fin : receiving d fin [] (Recv.new srw).
Proof.
  split; [exists []; apply (Assembler.init_ordered d) | done | done].
Qed.

Lemma stream_content_new srw d fin : stream_content d fin [] (Recv.new srw).
Proof. split; [apply zlen_nonneg |]. intros _ _. apply receiving_new. Qed.

Lemma content_get D F R en s id r s1 : content D F R en s → recv_wf s → get_or_insert_recv id s = Some (r, s1) →
  content D F R en s1 ∧ stream_content (stream_data D id) (F id) (stream_data R id) r.
Proof.
  intros Hc Hwf E. unfold get_or_insert_recv in E. apply bind_Some in E as (o & Eo & E). injection E as <- <-.
  set (r := match o with Some r => into_inner r | None => _ end).
  assert (Hr : stream_content (stream_data D id) (F id) (stream_data R id) r).
  { pose proof (rw_streams _ Hwf id o Eo) as Ho. destruct o as [[r0 | r0] |]; simpl in r, Ho; subst r.
    - rewrite Ho, (ct_unused _ _ _ _ _ Hc id _ Eo) by (by intros ?). apply stream_content_new.
    - by apply (ct_open _ _ _ _ _ Hc).
    - rewrite (ct_unused _ _ _ _ _ Hc id _ Eo) by (by intros ?). apply stream_content_new. }
  split; [by apply (content_put D F R en s id r) | done].
Qed.

(** A stream closed for receiving. *)
Lemma recv_freed_grown s id r s' : recv_wf s → count_inv s → room s → is_Some (recv s !! id) →
  stream_recv_freed id (ROpen r) (s <| recv := delete id (recv s) |>) = Some s' →
  recv_grown (s <| recv := delete id (recv s) |>) s' ∧ (∀ i, known s i → known s' i).
Proof.
  intros Hwf Hinv Hroom Hin E. destruct (recv_freed_count id r s Hinv Hroom Hin) as (s2 & E2 & _ & Hq).
  rewrite E in E2. injection E2 as <-. split; [| apply (qu_known _ _ Hq)]. unfold stream_recv_freed in E. simpl in E.
  set (s1 := s <| recv := delete id (recv s) |> <| free_recv := _ |>) in E.
  assert (Hwf1 : recv_wf s1).
  { destruct Hin as [o Ho]. destruct (delete_recv_spec id o s Hwf Ho) as [[] _]. split; try done. simpl.
    rewrite Forall_app. split; [done |]. by constructor. }
  by eapply (freed_grown HalfRecv id s s1); [done | done | done | split; [done | by eexists] | exact E].
Qed.

Lemma content_freed D F R en s id r s' : content D F R en s → recv_wf s → count_inv s → room s → is_Some (recv s !! id) →
  stream_recv_freed id (ROpen r) (s <| recv := delete id (recv s) |>) = Some s' → content D F R en s'.
Proof.
  intros Hc Hwf Hinv Hroom Hin E. destruct (recv_freed_grown _ _ _ _ Hwf Hinv Hroom Hin E) as [Hg Hk].
  eapply content_grown; [by apply content_delete | exact Hg | exact Hk].
Qed.

(** *** Frames *)

Lemma insert_read str g a o bytes alloc : Assembler.ordered_inv str g a →
  Assembler.bytes_read (Assembler.insert o bytes alloc a) = Assembler.bytes_read a.
Proof.
  intros Hinv. unfold Assembler.insert, Assembler.store. cbn [Assembler.state]. rewrite (Assembler.oi_state _ _ _ Hinv).
  by repeat case_match.
Qed.

Lemma ingest_content D F got frame len recvd max r n closed r' : carries D frame → zlen (Frames.st_data frame) ≤ len →
  (Frames.fin frame = true → F) → Recv.ingest frame len recvd max r = Ok (n, closed, r') →
  stream_content (stream_data D (Frames.st_id frame)) F got r →
  stream_content (stream_data D (Frames.st_id frame)) F got r'.
Proof.
  intros Hca Hlen HF E Hr. set (d := stream_data D _) in *. unfold Recv.ingest in E.
  destruct (2 ^ 62 <=? _); [done |]. destruct (match Recv.final_offset r with Some _ => _ | None => _ end); [done |].
  destruct (Recv.credit_consumed_by _ _ _ _); [| done]. injection E as _ _ <-. set (r1 := if Frames.fin frame && negb (Recv.stopped r) then _ else r).
  assert (H1 : Recv.stopped r1 = Recv.stopped r ∧ Recv.assembler r1 = Recv.assembler r ∧ Recv.end_ r1 = Recv.end_ r
    ∧ Recv.is_receiving r1 = Recv.is_receiving r
    ∧ (∀ f, Recv.state r1 = Recv.StRecv (Some f) → Recv.state r = Recv.StRecv (Some f)
        ∨ (Frames.fin frame = true ∧ f = Frames.st_offset frame + zlen (Frames.st_data frame)))).
  { subst r1. destruct (Frames.fin frame && negb (Recv.stopped r)) eqn:Ef; [| by split_and!; auto].
    apply andb_true_iff in Ef as [Ef _]. unfold Recv.is_receiving. destruct (Recv.state r) eqn:Est; simpl; rewrite ?Est; split_and!; try done.
    - intros f [= <-]. by right. }
  destruct H1 as (Es & Ea & Ee & Ei & Hst). clearbody r1.
  pose proof (ca_end _ _ Hca) as He. fold d in He. destruct Hr as [Hend Hr].
  split; [destruct (negb _); simpl; rewrite Ee; lia |]. intros Hs' Hi'.
  assert (Hs : Recv.stopped r = false) by (destruct (negb _) eqn:En in Hs'; simpl in Hs'; congruence).
  simpl in Hi' |- *. rewrite Es, Hs in *. simpl in *.
  assert (Hi : Recv.is_receiving r = true) by (rewrite <- Ei; exact Hi'). destruct (Hr eq_refl Hi) as [[g Hg] Hread Hsize].
  pose proof (ca_data _ _ Hca) as Hd. pose proof (ca_offset _ _ Hca) as Ho. fold d in Hd.
  split; simpl.
  - eexists. rewrite Ea. rewrite Hd. apply Assembler.insert_ordered_spec; [exact Hg | done | apply zlen_nonneg | done | done].
  - rewrite Hread. unfold Recv.bytes_read. simpl. rewrite Ea. by rewrite (insert_read _ _ _ _ _ _ Hg).
  - intros f Ef. destruct (Hst f Ef) as [E | [Hfin ->]]; [by apply Hsize |]. split; [by apply (ca_fin _ _ Hca) | by apply HF].
Qed.

Lemma on_stream_frame_known b id s i : known s i → known (on_stream_frame b id s) i.
Proof. apply known_view; unfold on_stream_frame; by repeat case_goal. Qed.

Lemma on_stream_frame_content D F R en b id s : content D F R en s → content D F R en (on_stream_frame b id s).
Proof.
  intros Hc. apply (content_same _ _ _ _ s); [done | unfold on_stream_frame; by repeat case_goal | apply on_stream_frame_known].
Qed.

Lemma credits_content D F R en n s s' t : content D F R en s → add_read_credits n s = (s', t) → content D F R en s'.
Proof.
  intros Hc E. unfold add_read_credits in E. repeat case_hyp E; injection E as <- _; by apply (content_same _ _ _ _ s).
Qed.

Lemma received_content D F R en frame len s s' res : content D F R en s → recv_wf s → count_inv s → room s →
  carries D frame → zlen (Frames.st_data frame) ≤ len → (Frames.fin frame = true → F (Frames.st_id frame)) →
  fin_consistent frame s = true → received frame len s = Some (s', res) → content D F R en s'.
Proof.
  intros Hc Hwf Hinv Hroom Hca Hlen HF Hf E. unfold received in E. unfold fin_consistent in Hf. set (id := Frames.st_id frame) in *.
  destruct (validate_receive_id id s); [| by injection E as <- _].
  destruct (get_or_insert_recv id s) as [[r s1] |] eqn:Eg; [| by injection E as <- _].
  destruct (content_get _ _ _ _ _ _ _ _ Hc Hwf Eg) as [Hc1 Hr]. destruct (get_recv _ _ _ _ Hwf Eg) as (Hwf1 & _ & Hok & Es1 & _).
  destruct (Recv.is_receiving r) eqn:Er; [| by injection E as <- _]. cbn [negb] in E.
  destruct (Recv.ingest _ _ _ _ _) as [[[n closed] r'] | e] eqn:Ei; [| by injection E as <- _].
  assert (Hfin : Recv.fin_ok frame r) by (intros Hfin; rewrite Hfin in Hf; simpl in Hf; lia).
  pose proof (Recv.ingest_spec _ _ _ _ _ _ _ _ _ Hok Er (ca_offset _ _ Hca) Hfin Ei) as (Hok' & _).
  pose proof (ingest_content D (F id) _ _ _ _ _ _ _ _ _ Hca Hlen HF Ei Hr) as Hr'.
  set (s2 := put_recv id r' s1 <| data_recvd := _ |>) in E.
  assert (Hc2 : content D F R en s2).
  { apply (content_same _ _ _ _ (put_recv id r' s1)); [by apply content_put | done..]. }
  destruct (negb (Recv.stopped r')); [injection E as <- _; by apply on_stream_frame_content |].
  apply bind_Some in E as (s3 & E3 & E). assert (Hc3 : content D F R en s3).
  { destruct closed; [| by injection E3 as <-].
    destruct (got_recv id s r s1 r' Hinv Hroom Eg) as (_ & Hinv2 & Hroom2 & Hin & _).
    eapply (content_freed _ _ _ _ s2); [done | | by apply (count_inv_view (put_recv id r' s1)) | done | done | exact E3].
    assert (Esrw : stream_receive_window s1 = stream_receive_window s) by (by rewrite Es1). rewrite <- Esrw in Hok'.
    destruct (put_recv_spec id r r' s1 Hwf1) as [[] _]; [by rewrite Es1; apply lookup_insert_eq | done |]. by split. }
  destruct (add_read_credits n s3) as [s4 t] eqn:Ec. injection E as <- _. by eapply credits_content.
Qed.

(** A stream that is stopped or reset has no content to keep. *)
Lemma transition_content D F R en (b : bool) s id r s1 r' s' : content D F R en s → recv_wf s → count_inv s → room s →
  get_or_insert_recv id s = Some (r, s1) → Recv.recv_ok (stream_receive_window s) r' →
  (Recv.stopped r' = true ∨ Recv.is_receiving r' = false) → Recv.end_ r' = Recv.end_ r →
  (if b then stream_recv_freed id (ROpen r') ((put_recv id r' s1) <| recv := delete id (recv (put_recv id r' s1)) |>)
   else Some (put_recv id r' s1)) = Some s' → content D F R en s'.
Proof.
  intros Hc Hwf Hinv Hroom Eg Hok' Hgone Hend E. destruct (content_get _ _ _ _ _ _ _ _ Hc Hwf Eg) as [Hc1 [Hr _]].
  destruct (get_recv _ _ _ _ Hwf Eg) as (Hwf1 & _ & _ & Es1 & _). destruct (got_recv id s r s1 r' Hinv Hroom Eg) as (_ & Hinv2 & Hroom2 & Hin & _).
  assert (Hc2 : content D F R en (put_recv id r' s1)).
  { apply content_put; [done |]. split; [lia |]. intros Hs Hi. destruct Hgone; congruence. }
  destruct b; [| by injection E as <-]. eapply (content_freed _ _ _ _ (put_recv id r' s1)); [done | | done | done | done | exact E].
  apply (put_recv_spec id r r' s1 Hwf1); [by rewrite Es1; apply lookup_insert_eq |].
  assert (stream_receive_window s1 = stream_receive_window s) as -> by (by rewrite Es1). done.
Qed.

Lemma received_reset_content D F R en frame s s' res : content D F R en s → recv_wf s → count_inv s → room s →
  0 ≤ Frames.final_offset frame → received_reset frame s = Some (s', res) → content D F R en s'.
Proof.
  intros Hc Hwf Hinv Hroom H0 E. unfold received_reset in E. set (id := Frames.rs_id frame) in *.
  destruct (validate_receive_id id s); [| by injection E as <- _].
  destruct (get_or_insert_recv id s) as [[r s1] |] eqn:Eg; [| by injection E as <- _].
  destruct (content_get _ _ _ _ _ _ _ _ Hc Hwf Eg) as [Hc1 _]. destruct (get_recv _ _ _ _ Hwf Eg) as (_ & _ & Hok & _ & _).
  destruct (Recv.reset _ _ _ _ _) as [[b r'] | e] eqn:Er; [| by injection E as <- _].
  apply (Recv.reset_spec _ _ _ _ _ _ _ _ Hok H0) in Er. destruct b; [| by injection E as <- _].
  destruct Er as (Hok' & _ & Hnr & _ & _ & He & _). apply bind_Some in E as (s3 & E3 & E).
  assert (Hc3 : content D F R en (on_stream_frame (negb (Recv.stopped r')) id s3)).
  { apply on_stream_frame_content. eapply (transition_content _ _ _ _ _ s id r s1 r'); [done.. | by right | done | exact E3]. }
  case_hyp E; [| by injection E as <- _]. destruct (add_read_credits _ _) as [s4 t] eqn:Ec. injection E as <- _.
  eapply credits_content; [| exact Ec]. by apply (content_same _ _ _ _ (on_stream_frame (negb (Recv.stopped r')) id s3)).
Qed.

Lemma stop_content D F R en id code q s res q' s' : content D F R en s → recv_wf s → count_inv s → room s →
  stop id code q s = Some (res, q', s') → content D F R en s'.
Proof.
  intros Hc Hwf Hinv Hroom E. unfold stop in E.
  destruct (get_or_insert_recv id s) as [[r s1] |] eqn:Eg; [| by injection E as _ _ <-].
  destruct (content_get _ _ _ _ _ _ _ _ Hc Hwf Eg) as [Hc1 _]. destruct (get_recv _ _ _ _ Hwf Eg) as (_ & _ & Hok & _ & _).
  destruct (Recv.stop r) as [[[n st] r'] | e] eqn:Er; [| by injection E as _ _ <-].
  apply (Recv.stop_spec _ _ _ _ _ Hok) in Er as (Hok' & _ & Hst & _ & He & _). apply bind_Some in E as (s3 & E3 & E).
  assert (Hc3 : content D F R en s3).
  { eapply (transition_content _ _ _ _ _ s id r s1 r'); [done.. | by left | done | exact E3]. }
  destruct (add_read_credits n s3) as [s4 t] eqn:Ec. injection E as _ _ <-. by eapply credits_content.
Qed.

Lemma observe_reset_content D F R en id q s res q' s' : content D F R en s → recv_wf s → count_inv s → room s →
  observe_reset id q s = Some (res, q', s') → content D F R en s'.
Proof.
  intros Hc Hwf Hinv Hroom E. unfold observe_reset in E.
  destruct (recv s !! id) as [[[r | r] |] |] eqn:Er; try (by injection E as _ _ <-).
  case_hyp E; [by injection E as _ _ <- |]. destruct (Recv.reset_code r); [| by injection E as _ _ <-].
  apply bind_Some in E as (s1 & E1 & E). injection E as _ _ <-. by eapply content_freed; eauto.
Qed.

(** *** Reading *)

Lemma read_bytes_snoc rs r : read_bytes (rs ++ [r])
  = read_bytes rs ++ match r with Ok (Some c) => Assembler.c_bytes c | _ => [] end.
Proof. unfold read_bytes. rewrite fmap_app, concat_app. simpl. by rewrite app_nil_r. Qed.

Lemma read_end_snoc rs r : read_end (rs ++ [r]) = read_end rs || match r with Ok None => true | _ => false end.
Proof. unfold read_end. rewrite existsb_app. simpl. by rewrite orb_false_r. Qed.

(** One read of a stream that is being received. *)
Lemma read_receiving d fin got r n c a : receiving d fin got r → 1 ≤ n → Assembler.read n true (Recv.assembler r) = (c, a) →
  receiving d fin (got ++ from_option Assembler.c_bytes [] c) (r <| Recv.assembler := a |>).
Proof.
  intros [[g Hg] Hread Hsize] Hn E.
  pose proof (Assembler.read_loop_spec d g n Hn (S (length (Assembler.data (Recv.assembler r)))) _ Hg ltac:(lia)) as Hr.
  unfold Assembler.read in E. rewrite E in Hr. destruct Hr as [Hg' Hr]. cbn [fst snd] in *.
  split; [by exists g | | done]. unfold Recv.bytes_read in *. simpl. destruct c as [c |]; simpl.
  - destruct Hr as (_ & -> & _ & Hholds & _). by rewrite Hread, ztake_holds.
  - destruct Hr as [-> _]. by rewrite app_nil_r.
Qed.

(** A read session on the stream [id], which [s0] still has. *)
Section session.
Context (D : gmap Z (list Z)) (F : Z → Prop) (R : gmap Z (list Z)) (en : gset Z) (id : Z) (s0 : StreamsState).
Context (Hc0 : content D F R en s0) (Hwf0 : recv_wf s0) (Hinv0 : count_inv s0) (Hroom0 : room s0).
Context (Hin0 : is_Some (recv s0 !! id)) (Hk0 : known s0 id).

Let d := stream_data D id.

Record reading_content (acc : list (result (option Assembler.Chunk) ReadError)) (ch : Chunks) (s : StreamsState) : Prop := {
  rg_id : ch_id ch = id ∧ ch_ordered ch = true;
  rg_prefix : stream_data R id ++ read_bytes acc `prefix_of` d;
  rg_end : read_end acc = true → F id ∧ stream_data R id ++ read_bytes acc = d;
  rg_content : content D F R en s;
  rg_gone : recv s !! id = None;
  rg_known i : known s0 i → known s i;
  rg_state : match ch_state ch with
    | ChReadable rs =>
      s = s0 <| recv := delete id (recv s0) |> ∧ Recv.recv_ok (stream_receive_window s0) rs ∧ Recv.stopped rs = false
      ∧ read_end acc = false ∧ stream_content d (F id) (stream_data R id ++ read_bytes acc) rs
    | ChFinished => F id ∧ stream_data R id ++ read_bytes acc = d
    | ChReset _ => True
    | ChFinalized => False
    end;
}.

(** The stream is closed while it is read. *)
Lemma reading_freed r s' : stream_recv_freed id (ROpen r) (s0 <| recv := delete id (recv s0) |>) = Some s' →
  content D F R en s' ∧ recv s' !! id = None ∧ ∀ i, known s0 i → known s' i.
Proof.
  intros E. destruct (recv_freed_grown _ _ _ _ Hwf0 Hinv0 Hroom0 Hin0 E) as [Hg Hk]. split_and!; [by eapply content_freed | | done].
  destruct (Hg id) as [-> | (_ & Hn & _)]; [apply lookup_delete_eq | by destruct Hn].
Qed.

Lemma ztake_prefix {A} n (l : list A) : ztake n l `prefix_of` l.
Proof. exists (drop (Z.to_nat n) l). unfold ztake. by rewrite take_drop. Qed.

Lemma ztake_all_eq {A} n (l : list A) : n = zlen l → ztake n l = l.
Proof. intros ->. apply ztake_all. lia. Qed.

(** [next] on a stream that has not ended. *)
Lemma next_readable n acc ch s rs r ch' s' : 1 ≤ n → reading_content acc ch s → ch_state ch = ChReadable rs →
  chunks_next n ch s = Some (r, ch', s') → reading_content (acc ++ [r]) ch' s'.
Proof.
  intros Hn [[Hid Hord] Hpre Hend Hc Hgone Hk Hst] Ech E. unfold chunks_next in E. rewrite Ech in *.
  destruct Hst as (-> & Hok & Hstop & He & Hsc). rewrite Hord in E.
  destruct (Assembler.read n true (Recv.assembler rs)) as [c a] eqn:Er.
  destruct (read_stream_ok _ n rs c a ltac:(lia) Hok Hstop Er) as (Hok' & Hbr & Hreset).
  assert (Hsc' : stream_content d (F id) ((stream_data R id ++ read_bytes acc) ++ from_option Assembler.c_bytes [] c) (rs <| Recv.assembler := a |>)).
  { destruct Hsc as [Hle Hsc]. split; [done |]. intros Hs Hi. apply (read_receiving _ _ _ _ n); [by apply Hsc | done | done]. }
  destruct c as [c |]; simpl in Hsc'.
  - injection E as <- <- <-. assert (Hi : Recv.is_receiving rs = true) by (destruct (Recv.is_receiving rs); [done | by specialize (Hreset eq_refl)]).
    rewrite <- app_assoc in Hsc'. pose proof (rc_read _ _ _ _ (proj2 Hsc' Hstop Hi)) as Hread.
    split; rewrite ?read_bytes_snoc, ?read_end_snoc, ?He; try done. rewrite Hread. apply ztake_prefix.
  - rewrite app_nil_r in Hsc'. set (rs' := rs <| Recv.assembler := a |>) in *. change (Recv.state rs') with (Recv.state rs) in E.
    destruct (Recv.state rs) as [sz | f code] eqn:Est.
    + destruct (bool_decide (sz = Some (Recv.end_ rs')) && (Assembler.bytes_read a =? Recv.end_ rs')) eqn:Efin.
      * apply andb_true_iff in Efin as [Esz%bool_decide_eq_true Eend%Z.eqb_eq]. rewrite Hid in E.
        apply bind_Some in E as (s1 & E1 & E). injection E as <- <- <-. destruct (reading_freed _ _ E1) as (Hc1 & Hg1 & Hk1).
        assert (Hi : Recv.is_receiving rs = true) by (unfold Recv.is_receiving; by rewrite Est).
        destruct (proj2 Hsc' Hstop Hi) as [_ Hread Hsize]. destruct (Hsize (Recv.end_ rs')) as [Ef HF]; [simpl; by rewrite Est, Esz |].
        assert (Hd : stream_data R id ++ read_bytes acc = d).
        { rewrite Hread. apply ztake_all_eq. unfold Recv.bytes_read. simpl. lia. }
        split; rewrite ?read_bytes_snoc, ?read_end_snoc, ?app_nil_r; done.
      * injection E as <- <- <-. split; rewrite ?read_bytes_snoc, ?read_end_snoc, ?app_nil_r, ?He; done.
    + rewrite Hid in E. apply bind_Some in E as (s1 & E1 & E). injection E as <- <- <-. destruct (reading_freed _ _ E1) as (Hc1 & Hg1 & Hk1).
      split; rewrite ?read_bytes_snoc, ?read_end_snoc, ?app_nil_r, ?He; done.
Qed.

Lemma chunks_next_content n acc ch s r ch' s' : 1 ≤ n → reading_content acc ch s → chunks_next n ch s = Some (r, ch', s') →
  reading_content (acc ++ [r]) ch' s'.
Proof.
  intros Hn Hrg E. destruct (ch_state ch) as [rs | code | |] eqn:Ech; [by eapply next_readable | ..];
    destruct Hrg as [Hid Hpre Hend Hc Hgone Hk Hst]; rewrite Ech in Hst; unfold chunks_next in E; rewrite Ech in E; [| | done].
  - injection E as <- <- <-. split; rewrite ?read_bytes_snoc, ?read_end_snoc, ?app_nil_r, ?orb_false_r, ?Ech; done.
  - injection E as <- <- <-. destruct Hst. split; rewrite ?read_bytes_snoc, ?read_end_snoc, ?app_nil_r, ?Ech; done.
Qed.

Lemma chunks_all_content lens : ∀ acc ch s rs ch' s', Forall (λ n, 1 ≤ n) lens → reading_content acc ch s →
  chunks_all lens ch s = Some (rs, ch', s') → reading_content (acc ++ rs) ch' s'.
Proof.
  induction lens as [|n lens IH]; intros acc ch s rs ch' s' Hl Hrg E; cbn [chunks_all] in E.
  { injection E as <- <- <-. by rewrite app_nil_r. }
  apply Forall_cons in Hl as [Hn Hl]. apply bind_Some in E as ([[r ch1] s1] & E1 & E).
  apply bind_Some in E as ([[rs1 ch2] s2] & E2 & E). injection E as <- <- <-.
  rewrite cons_middle, app_assoc. eapply IH; [done | | exact E2]. by eapply chunks_next_content.
Qed.

(** The bytes of the session are recorded. *)
Lemma content_read (g : list Z) (e : bool) s : content D F R en s → recv s !! id = None → known s id →
  stream_data R id `prefix_of` g → g `prefix_of` d → (e = true → F id ∧ g = d) →
  content D F (<[id := g]> R) (if e then {[id]} ∪ en else en) s.
Proof.
  intros [H1 H2 H3 H4 H5] Hg Hk Hpre Hpre' He.
  assert (Hend : id ∈ en → F id ∧ g = d).
  { intros [HF Hd]%H2. split; [done |]. rewrite Hd in Hpre. apply (anti_symm prefix); done. }
  split.
  - intros i. rewrite stream_data_insert. destruct (decide (i = id)) as [-> |]; [done | apply H1].
  - intros i Hi. rewrite stream_data_insert. destruct (decide (i = id)) as [-> |].
    + destruct e; [by apply He | by apply Hend].
    + apply H2. destruct e; [set_solver | done].
  - intros i r Hr. rewrite stream_data_insert. destruct (decide (i = id)) as [-> |]; [congruence | by apply H3].
  - intros i o Ho. rewrite stream_data_insert. destruct (decide (i = id)) as [-> |]; [congruence | by apply H4].
  - intros i Hn. rewrite stream_data_insert. destruct (decide (i = id)) as [-> |]; [done | by apply H5].
Qed.

Lemma finalize_content q acc ch s t q' ch' s' : reading_content acc ch s → finalize_inner q ch s = (t, q', ch', s') →
  content D F (<[id := stream_data R id ++ read_bytes acc]> R) (if read_end acc then {[id]} ∪ en else en) s'.
Proof.
  intros [[Hid Hord] Hpre Hend Hc Hgone Hk Hst] E.
  assert (Hc' : content D F (<[id := stream_data R id ++ read_bytes acc]> R) (if read_end acc then {[id]} ∪ en else en) s).
  { apply content_read; try done; [by apply Hk | by apply prefix_app_r]. }
  unfold finalize_inner in E. destruct (ch_state ch) as [rs | | |]; [| | | done].
  2,3: destruct (queue_max_stream_id q s); destruct (add_read_credits (ch_read ch) s) as [s1 t1] eqn:Ec; injection E as _ _ _ <-; by eapply credits_content.
  destruct (queue_max_stream_id q s). destruct (Recv.max_stream_data _ _) as [m due].
  destruct (add_read_credits _ _) as [s1 t1] eqn:Ec. injection E as _ _ _ <-. eapply credits_content; [| exact Ec]. rewrite Hid.
  apply content_put; [done |]. rewrite stream_data_insert, decide_True by done. apply Hst.
Qed.

End session.

Lemma read_session_content D F R en id lens q s res q' s' : content D F R en s → recv_wf s → count_inv s → room s → known s id →
  Forall (λ n, 1 ≤ n) lens → read_session id lens q s = Some (res, q', s') →
  match res with
  | Ok rs => content D F (<[id := stream_data R id ++ read_bytes rs]> R) (if read_end rs then {[id]} ∪ en else en) s'
  | Err _ => content D F R en s'
  end.
Proof.
  intros Hc Hwf Hinv Hroom Hk Hl E. unfold read_session, chunks_new in E.
  destruct (get_or_insert_recv id s) as [[r s1] |] eqn:Eg; [| by injection E as <- _ <-].
  destruct (content_get _ _ _ _ _ _ _ _ Hc Hwf Eg) as [Hc1 Hr]. destruct (get_recv _ _ _ _ Hwf Eg) as (Hwf1 & _ & Hok & Es1 & _).
  destruct (got_recv id s r s1 r Hinv Hroom Eg) as (Hkeep & _). destruct Hkeep as (? & [= <-] & Hinv1 & Hq).
  destruct (Recv.stopped r) eqn:Est; [by injection E as <- _ <- |].
  unfold Assembler.ensure_ordering in E. rewrite (AssemblerBounds.ok_ordered _ _ (Recv.ro_asm _ _ Hok)) in E. cbn [andb negb Assembler.is_ordered] in E.
  apply bind_Some in E as ([[rs ch] s2] & E2 & E). destruct (finalize_inner q ch s2) as [[[t q2] ch'] s3] eqn:Ef.
  injection E as <- _ <-. assert (Hin1 : is_Some (recv s1 !! id)) by (rewrite Es1; simpl; rewrite lookup_insert_eq; eauto).
  assert (Hroom1 : room s1) by (by rewrite Es1). assert (Hk1 : known s1 id) by (by apply (qu_known _ _ Hq)).
  eapply (finalize_content D F R en id s1); [done.. | | exact Ef].
  eapply (chunks_all_content D F R en id s1 Hc1 Hwf1 Hinv1 Hroom1 Hin1 Hk1 lens []); [done | | exact E2].
  split; try done; simpl.
  - rewrite app_nil_r. apply (ct_prefix _ _ _ _ _ Hc).
  - by apply content_delete.
  - apply lookup_delete_eq.
  - rewrite app_nil_r. split_and!; try done; [| by destruct r].
    assert (stream_receive_window s1 = stream_receive_window s) as -> by (by rewrite Es1). by destruct Hok.
Qed.

(** *** The other operations *)

Lemma open_content D F R en c d s r s' : content D F R en s → recv_wf s → count_inv s → sel d (max s) ≤ 2 ^ 60 →
  open c d s = Some (r, s') → content D F R en s'.
Proof.
  intros Hc Hwf Hinv Hm E. destruct (open_count c d s Hinv Hm) as ([r1 s2] & E2 & _ & Hq). rewrite E in E2. injection E2 as <- <-.
  eapply content_grown; [exact Hc | | apply (qu_known _ _ Hq)]. clear Hq. unfold open in E.
  destruct c; [injection E as _ <-; by apply recv_grown_same |].
  destruct (Z.leb_spec (sel d (max s)) (sel d (next s))); [injection E as _ <-; by apply recv_grown_same |].
  apply bind_Some in E as (s3 & E3 & E). injection E as _ <-. apply insert_entries in E3 as [Hi _]; [| by destruct Hwf].
  intros i. destruct (Hi i) as [| (-> & ? & ?)]; [by left | right]. split_and!; [done | | done].
  cbn -[sel upd known]. rewrite sel_upd, decide_True by done. replace (sel d (next s) + 1 - 1) with (sel d (next s)) by lia.
  pose proof (ci_next _ _ (proj1 Hinv) d). destruct (StreamId.new_spec (side s) d (sel d (next s))) as (E1 & E2 & E3 & _); [unfold is_u; lia |].
  unfold known. rewrite E1, decide_True, E2, E3 by done. lia.
Qed.

Lemma send_freed_content D F R en id s s' : content D F R en s → recv_wf s → count_inv s → room s → is_Some (send s !! id) → known s id →
  stream_freed id HalfSend (s <| send := delete id (send s) |>) = Some s' → content D F R en s'.
Proof.
  intros Hc Hwf Hinv Hroom Hin Hk E.
  destruct (stream_freed_spec HalfSend id s _ Hinv Hroom (conj Hin (conj Hk eq_refl))) as (s2 & E2 & _ & Hq).
  rewrite E in E2. injection E2 as <-. apply (content_grown _ _ _ _ (s <| send := delete id (send s) |>)).
  - by apply (content_same _ _ _ _ s).
  - eapply (freed_grown HalfSend id s); [by destruct Hwf | done | done | done | exact E].
  - exact (qu_known _ _ Hq).
Qed.

Lemma received_ack_of_content D F R en w m f s s' : content D F R en s → recv_wf s → send_inv w (m :: f) s → count_inv s → room s →
  received_ack_of m s = Some s' → content D F R en s'.
Proof.
  intros Hc Hwf Hs Hinv Hroom. unfold received_ack_of. set (id := Frames.m_id m).
  destruct (send s !! id) as [[ss |] |] eqn:Es; [| by intros [= <-]..]. case_goal; [by intros [= <-] |].
  set (s1 := s <| unacked_data := _ |>). assert (Hc1 : content D F R en s1) by (by apply (content_same _ _ _ _ s)).
  intros E. apply bind_Some in E as ([dn ss'] & Ea & E). destruct dn; [| injection E as <-; by apply (content_same _ _ _ _ s1)].
  unfold Send.ack in Ea. apply bind_Some in Ea as (b & _ & Ea).
  assert (Hns : Send.state ss ≠ Send.Ready) by (intros Est; simpl in Ea; rewrite Est in Ea; by injection Ea).
  apply bind_Some in E as (s2 & E & [= <-]). apply (content_same _ _ _ _ s2); [| done | done].
  eapply (send_freed_content _ _ _ _ id s1); [done | by destruct Hwf | by apply (count_inv_view s) | done | by eexists | | exact E].
  by apply (si_state _ _ _ Hs id ss).
Qed.

Lemma reset_acked_content D F R en w f id s s' : content D F R en s → recv_wf s → send_inv w f s → count_inv s → room s →
  reset_acked id s = Some s' → content D F R en s'.
Proof.
  intros Hc Hwf Hs Hinv Hroom. unfold reset_acked. destruct (send s !! id) as [[ss |] |] eqn:Es; [| by intros [= <-]..].
  destruct (Send.is_reset ss) eqn:Er; [| by intros [= <-]]. intros E.
  eapply (send_freed_content _ _ _ _ id s); [done.. | by eexists | | exact E].
  apply (si_state _ _ _ Hs id ss Es). apply bool_decide_eq_true in Er. congruence.
Qed.

Lemma set_max_concurrent_content D F R en d n s s' : content D F R en s → recv_wf s → count_inv s → room s →
  0 ≤ n → sel d (max_remote s) + n ≤ 2 ^ 60 → set_max_concurrent d n s = Some s' → content D F R en s'.
Proof.
  intros Hc Hwf Hinv Hroom Hn Hn' E. destruct (set_max_concurrent_count d n s Hinv Hn Hn' Hroom) as (s2 & E2 & _ & Hq).
  rewrite E in E2. injection E2 as <-. eapply content_grown; [exact Hc | | exact (qu_known _ _ Hq)].
  unfold set_max_concurrent in E. eapply (ensure_grown d _ _ (send_streams s)) in E; [exact E | by destruct Hwf | by apply (count_pre_view _ s); [| apply Hinv] |].
  intros d'. cbn -[sel upd]. rewrite sel_upd. specialize (Hroom d'). destruct (decide (d' = d)) as [-> |]; lia.
Qed.

Lemma controlled_content D F R en s s' : controlled s s' → content D F R en s → content D F R en s'.
Proof.
  intros Hco [H1 H2 H3 H4 H5]. split; [done | done | | |].
  - intros id r E. destruct (co_streams _ _ Hco id) as [E' | (r0 & x & E0 & E')]; [apply H3; congruence |].
    rewrite E in E'. injection E' as ->. destruct (H3 id r0 E0) as [He Hr]. split; [done |]. intros Hs Hi. by destruct (Hr Hs Hi).
  - intros id o E Ho. destruct (co_streams _ _ Hco id) as [E' | (r0 & x & E0 & E')]; [apply (H4 id o); [congruence | done] |].
    rewrite E in E'. injection E' as ->. by destruct (Ho (r0 <| Recv.sent_max_stream_data := x |>)).
  - intros id Hn. apply H5. intros Hk. apply Hn. pose proof (co_view _ _ Hco) as Hv. injection Hv. intros. by apply (known_view s).
Qed.

(** ** What is sent *)

(** The data grows, and only on streams that are not closed. *)
Definition extends (D : gmap Z (list Z)) (F : Z → Prop) (D' : gmap Z (list Z)) (F' : Z → Prop) : Prop :=
  ∀ id, (F id → F' id)
    ∧ (stream_data D' id = stream_data D id ∨ (¬ F id ∧ ∃ x, stream_data D' id = stream_data D id ++ x)).

Lemma extends_same D F F' : (∀ id, F id → F' id) → extends D F D F'.
Proof. intros H id. split; [by apply H | by left]. Qed.

Lemma carries_extends D F D' F' st : extends D F D' F' → carries D st → (Frames.fin st = true → F (Frames.st_id st)) → carries D' st.
Proof.
  intros He [H1 H2 Hsz H3 H4 H5] Hf. destruct (He (Frames.st_id st)) as [_ [E | [Hn [x E]]]]; [by split; rewrite ?E |].
  split; [done | done | done | | |]; rewrite E.
  - rewrite zlen_app. pose proof (zlen_nonneg x). lia.
  - rewrite slice_app_l; done.
  - intros Hfin. by destruct (Hn (Hf Hfin)).
Qed.

Lemma ordered_inv_app str x g a : Assembler.ordered_inv str g a → Assembler.ordered_inv (str ++ x) g a.
Proof.
  intros [[[Hb Hs] Hbu Hal] Hst Hr Hbelow Habove Hend]. split; try done.
  - split; [split; [| done] | done | done]. eapply Forall_impl; [exact Hb |]. intros b ((? & ? & E) & ? & ?). split_and!; try done.
    split_and!; [done | rewrite zlen_app; pose proof (zlen_nonneg x); lia |]. rewrite slice_app_l; done.
  - rewrite zlen_app. pose proof (zlen_nonneg x). lia.
Qed.

Lemma content_extends D F D' F' R en s : extends D F D' F' → content D F R en s → content D' F' R en s.
Proof.
  intros He [H1 H2 H3 H4 H5]. split; [| | | done | done].
  - intros id. destruct (He id) as [_ [-> | [_ [x ->]]]]; [apply H1 | by apply prefix_app_r].
  - intros id Hid. destruct (H2 id Hid) as [HF Hd]. destruct (He id) as [HF' [-> | [Hn _]]]; [by auto | by destruct Hn].
  - intros id r Er. destruct (H3 id r Er) as [Hend Hr]. split.
    { destruct (He id) as [_ [-> | [_ [x ->]]]]; [done |]. rewrite zlen_app. pose proof (zlen_nonneg x). lia. }
    intros Hs Hi. destruct (Hr Hs Hi) as [[g Hg] Hread Hsize]. destruct (He id) as [HF' [-> | [Hn [x ->]]]].
    + split; [by exists g | done | naive_solver].
    + split; [exists g; by apply ordered_inv_app | |].
      * rewrite Hread. pose proof (Assembler.oi_read _ _ _ Hg). unfold Recv.bytes_read, ztake, zlen in *. rewrite take_app_le by lia. done.
      * intros f [_ HF]%Hsize. by destruct Hn.
Qed.

End StreamsTransfer.
