(* ===== verification/StreamsNetwork.v ===== *)
(** * Two endpoints

    Two connections that run the operations of [StreamsSystem] on their own; the STREAM
    frames one receives are decoded from packets the other has sent, each any number of times
    and in any order. *)

From Stdlib Require Import String.
From stdpp Require Import gmap fin_maps fin_sets.
From S2P Require Import Prelude BTree RangeSets Coding SendBuf Assembler NatFrames Frames Sums.
From S2P Require Import StreamSend StreamRecv TransportParams StreamQueue Streams StreamsSend StreamsRecvProofs StreamsCount.
From S2P Require Import StreamsCountOps StreamsSendProofs StreamsTransmit StreamsLimits StreamsSystem StreamsTransfer.

Module StreamsNetwork.
Import StreamsState StreamsSend StreamsRecvProofs StreamsCount StreamsCountOps StreamsSendProofs StreamsTransmit StreamsLimits.
Import StreamsSystem StreamsTransfer.

(** ** The sender *)

(** A packet of frames that carry the data [D], with FIN only on closed streams. *)
Definition packet_ok (D : gmap Z (list Z)) (F : Z → Prop) (pkt : list Z) : Prop :=
  ∃ fs, Frames.payload_bytes 0 (to_frame <$> fs) = Ok pkt ∧ Frames.delimited (to_frame <$> fs)
    ∧ Forall (λ p, carries D p.1 ∧ (Frames.fin p.1 = true → F (Frames.st_id p.1)) ∧ bytes_ok (Frames.st_data p.1)) fs.

(** The decoder reads the frames back. *)
Lemma packet_decodes D fs pkt : Frames.payload_bytes 0 (to_frame <$> fs) = Ok pkt → Frames.delimited (to_frame <$> fs) →
  Forall (λ p, carries D p.1 ∧ bytes_ok (Frames.st_data p.1)) fs →
  Frames.collect (length pkt) (Frames.mk_iter pkt None) = Some ((λ p, Ok (Frames.FStream p.1)) <$> fs).
Proof.
  intros Hb Hd Hfs. destruct (Frames.payload_read_back 0 (to_frame <$> fs)) as (bs & Hb' & Hlen & Hcol); [| done |].
  { apply Forall_fmap. eapply Forall_impl; [exact Hfs |]. intros [st el] ([Hid Ho Hsz _ _ _] & Hby). simpl in *.
    pose proof (zlen_nonneg (Frames.st_data st)). unfold Frames.stream_ok, is_u in *. split_and!; try done; lia. }
  rewrite Hb in Hb'. injection Hb' as <-. rewrite Hcol by done. by rewrite <- list_fmap_compose.
Qed.

Definition sender_inv (s : Sys) : Prop :=
  (∀ id, bytes_ok (stream_data (wr s) id)) ∧ Forall (packet_ok (wr s) (closed (st s))) (sent s).

Lemma packet_extends D F D' F' pkt : extends D F D' F' → packet_ok D F pkt → packet_ok D' F' pkt.
Proof.
  intros He (fs & Hb & Hd & Hfs). exists fs. split_and!; [done | done |]. eapply Forall_impl; [exact Hfs |].
  intros p (Hca & Hf & Hby). split_and!; [by eapply carries_extends | | done]. intros Hfin. by apply He, Hf.
Qed.

(** The operation does not write. *)
Lemma sender_advance s s' : sender_inv s → wr s' = wr s → sent s' = sent s → advance (st s) (st s') →
  sender_inv s' ∧ extends (wr s) (closed (st s)) (wr s') (closed (st s')).
Proof.
  intros [Hb Hp] Hw Hs Ha. assert (He : extends (wr s) (closed (st s)) (wr s') (closed (st s'))) by (rewrite Hw; by apply extends_same).
  split; [split; [by rewrite Hw | rewrite Hs] | done]. eapply Forall_impl; [exact Hp |]. intros pkt. by apply packet_extends.
Qed.

(** *** Operations that change streams for sending *)

Lemma finish_advance id s : advance s (finish id s).2.
Proof.
  unfold finish. destruct (get_or_insert_send id s) as [[ss s1] |] eqn:Eg; [| done].
  pose proof (advance_get _ _ _ _ Eg) as Ha. destruct (get_send_view _ _ _ _ Eg) as (_ & Es1 & _).
  unfold Send.finish. destruct (Send.stop_reason ss); [done |]. case_bool_decide; [| done].
  etrans; [exact Ha |]. etrans; [apply (advance_put id ss (ss <| Send.state := Send.DataSent false |> <| Send.fin_pending := true |>)) |].
  - rewrite Es1. simpl. apply lookup_insert_eq.
  - done.
  - case_goal; by apply advance_same.
Qed.

Lemma reset_advance id code q s : advance s (reset id code q s).2.
Proof.
  unfold reset. destruct (get_or_insert_send id s) as [[ss s1] |] eqn:Eg; [| done].
  pose proof (advance_get _ _ _ _ Eg) as Ha. destruct (get_send_view _ _ _ _ Eg) as (_ & Es1 & _). case_goal; [done |].
  etrans; [exact Ha |]. etrans; [apply (advance_put id ss (Send.reset ss)) |].
  - rewrite Es1. simpl. apply lookup_insert_eq.
  - unfold Send.reset. by destruct (Send.state ss) eqn:E; rewrite ?E.
  - by apply advance_same.
Qed.

Lemma set_priority_advance id p s : advance s (set_priority id p s).2.
Proof.
  unfold set_priority. destruct (get_or_insert_send id s) as [[ss s1] |] eqn:Eg; [| done].
  pose proof (advance_get _ _ _ _ Eg) as Ha. destruct (get_send_view _ _ _ _ Eg) as (_ & Es1 & _).
  etrans; [exact Ha |]. apply (advance_put id ss); [rewrite Es1; apply lookup_insert_eq | done].
Qed.

Lemma poll_blocked_advance fuel : ∀ s, advance s (poll_blocked fuel s).2.
Proof.
  induction fuel as [|fuel IH]; intros s; cbn [poll_blocked]; [done |].
  destruct (vec_pop (connection_blocked s)) as [[id rest] |]; [| done].
  set (s1 := s <| connection_blocked := rest |>). assert (Ha : advance s s1) by (by apply advance_same).
  change (send s1) with (send s).
  destruct (send s !! id) as [[ss |] |] eqn:Es; [| etrans; [exact Ha | apply IH]..].
  assert (Ha2 : advance s (put_send id (ss <| Send.connection_blocked := false |>) s1)).
  { etrans; [exact Ha |]. by apply (advance_put id ss). }
  cbv zeta. case_goal; [done |]. etrans; [exact Ha2 | apply IH].
Qed.

Lemma poll_advance s : advance s (poll s).2.
Proof.
  unfold poll. case_goal; [by apply advance_same |]. case_goal; [by apply advance_same |].
  assert (Hb : advance s (if 0 <? write_limit s then poll_blocked (length (connection_blocked s)) s else (None, s)).2).
  { case_goal; [apply poll_blocked_advance | done]. }
  destruct (if 0 <? write_limit s then _ else _) as [e s1]. cbn [snd] in Hb. destruct e; [done |]. destruct (events s1); [done |].
  etrans; [exact Hb |]. by apply advance_same.
Qed.

Lemma on_stream_frame_advance b id s : advance s (on_stream_frame b id s).
Proof. apply advance_same; [unfold on_stream_frame; by repeat case_goal | apply on_stream_frame_known]. Qed.

Lemma received_max_stream_data_advance id off s : advance s (received_max_stream_data id off s).1.
Proof.
  unfold received_max_stream_data. case_goal; [done |].
  destruct (get_or_insert_send id s) as [[ss s1] |] eqn:Eg; [| case_goal; [done | apply on_stream_frame_advance]].
  pose proof (advance_get _ _ _ _ Eg) as Ha. destruct (get_send_view _ _ _ _ Eg) as (_ & Es1 & _).
  destruct (Send.increase_max_data off ss) as [ub ss'] eqn:Ei.
  assert (Hst : Send.state ss' = Send.state ss) by (unfold Send.increase_max_data in Ei; case_hyp Ei; by injection Ei as _ <-).
  etrans; [exact Ha |]. etrans; [apply (advance_put id ss ss'); [rewrite Es1; apply lookup_insert_eq | by rewrite Hst] |].
  cbn [fst]. etrans; [| apply on_stream_frame_advance]. repeat case_goal; try done; try (by apply advance_same).
  etrans; [apply (advance_put id ss' (ss' <| Send.connection_blocked := true |>)); [apply lookup_insert_eq | done] |]. by apply advance_same.
Qed.

Lemma received_stop_sending_advance id code s : advance s (received_stop_sending id code s).
Proof.
  unfold received_stop_sending. destruct (get_or_insert_send id s) as [[ss s1] |] eqn:Eg; [| done].
  pose proof (advance_get _ _ _ _ Eg) as Ha. destruct (get_send_view _ _ _ _ Eg) as (_ & Es1 & _).
  unfold Send.try_stop. destruct (Send.stop_reason ss).
  - etrans; [exact Ha |]. apply (advance_put id ss); [rewrite Es1; apply lookup_insert_eq | done].
  - etrans; [exact Ha |]. etrans; [apply (advance_put id ss (ss <| Send.stop_reason := Some code |>)); [rewrite Es1; apply lookup_insert_eq | done] |].
    etrans; [| apply on_stream_frame_advance]. by apply advance_same.
Qed.

(** Freeing a half of a stream that was removed. *)
Lemma freed_advance id s s' : count_inv s → room s → is_Some (send s !! id) → known s id →
  stream_freed id HalfSend (s <| send := delete id (send s) |>) = Some s' → advance s s'.
Proof.
  intros Hc Hroom Hin Hk E. etrans; [apply advance_delete |].
  destruct (stream_freed_spec HalfSend id s _ Hc Hroom (conj Hin (conj Hk eq_refl))) as (s2 & E2 & _ & Hq).
  rewrite E in E2. injection E2 as <-. by apply advance_quiet.
Qed.

Lemma received_ack_of_advance wr m fl s s' : send_inv wr (m :: fl) s → count_inv s → room s →
  received_ack_of m s = Some s' → advance s s'.
Proof.
  intros Hinv Hc Hroom. unfold received_ack_of. set (id := Frames.m_id m).
  destruct (send s !! id) as [[ss |] |] eqn:Es; [| by intros [= <-]..]. case_goal; [by intros [= <-] |].
  set (s1 := s <| unacked_data := _ |>). assert (Ha : advance s s1) by (by apply advance_same).
  intros E. apply bind_Some in E as ([dn ss'] & Ea & E). unfold Send.ack in Ea. apply bind_Some in Ea as (b & _ & Ea).
  assert (Hst : Send.state ss ≠ Send.Ready → Send.state ss' ≠ Send.Ready).
  { simpl in Ea. destruct (Send.state ss) eqn:Est; injection Ea as _ <-; simpl; rewrite ?Est; done. }
  destruct dn.
  - assert (Hns : Send.state ss ≠ Send.Ready) by (intros Est; simpl in Ea; rewrite Est in Ea; by injection Ea).
    apply bind_Some in E as (s2 & E & [= <-]). etrans; [| by apply (advance_same s2)]. etrans; [exact Ha |].
    apply (freed_advance id s1); [by apply (count_inv_view s) | done | by eexists | by apply (si_state _ _ _ Hinv id ss) | exact E].
  - injection E as <-. etrans; [exact Ha |]. by apply (advance_put id ss).
Qed.

Lemma retransmit_advance m s : advance s (retransmit m s).
Proof.
  unfold retransmit. destruct (send s !! Frames.m_id m) as [[ss |] |] eqn:Es; [| done..].
  etrans; [| apply (advance_put (Frames.m_id m) ss); [by case_goal | done]]. case_goal; by apply advance_same.
Qed.

Lemma reset_acked_advance wr fl id s s' : send_inv wr fl s → count_inv s → room s → reset_acked id s = Some s' → advance s s'.
Proof.
  intros Hinv Hc Hroom. unfold reset_acked. destruct (send s !! id) as [[ss |] |] eqn:Es; [| by intros [= <-]..].
  destruct (Send.is_reset ss) eqn:Er; [| by intros [= <-]]. intros E. apply (freed_advance id s); [done | done | by eexists | | exact E].
  apply (si_state _ _ _ Hinv id ss Es). apply bool_decide_eq_true in Er. congruence.
Qed.

(** A write succeeds only on a stream that is not closed. *)
Lemma write_source_advance `{BytesSourceLaws Src} closed_conn id (source : Src) s r s' :
  write_source closed_conn id source s = Some (r, s') → advance s s' ∧ (∀ w, r = Ok w → ¬ closed s id).
Proof.
  unfold write_source. destruct closed_conn; [by intros [= <- <-] |].
  destruct (get_or_insert_send id s) as [[ss s1] |] eqn:Eg; [| by intros [= <- <-]].
  pose proof (advance_get _ _ _ _ Eg) as Ha. destruct (get_send_view _ _ _ _ Eg) as (_ & Es1 & _).
  assert (Hss : send s1 !! id = Some (Some ss)) by (rewrite Es1; apply lookup_insert_eq).
  destruct (write_limit s =? 0).
  { intros [= <- <-]. split; [| done]. etrans; [exact Ha |]. case_goal; [| done].
    etrans; [by apply (advance_put id ss (ss <| Send.connection_blocked := true |>)) | by apply advance_same]. }
  intros E. apply bind_Some in E as (rw & Ew & E). destruct rw as [[[w source'] ss'] | e]; [| injection E as <- <-; by split].
  injection E as <- <-. unfold Send.write in Ew. destruct (Send.is_writable ss) eqn:Ewr; [| done]. apply bool_decide_eq_true in Ewr. cbn [negb] in Ew.
  assert (Hst : Send.state ss' = Send.state ss).
  { destruct (Send.stop_reason ss); [done |]. case_hyp Ew; [done |]. apply bind_Some in Ew as ([[] ?] & _ & [= _ _ <-]). done. }
  split.
  - etrans; [exact Ha |]. etrans; [apply (advance_put id ss ss'); [done | by rewrite Hst] |]. case_goal; by apply advance_same.
  - intros _ _ [_ Hc]. unfold get_or_insert_send in Eg. apply bind_Some in Eg as (o & Eo & Eg). injection Eg as Eo' _.
    rewrite Eo in Hc. destruct o; [simpl in Eo'; by subst | done].
Qed.

(** *** Every operation *)

Lemma bytes_forallb l : forallb (in_u 8) l = true → bytes_ok l.
Proof. intros H. eapply forallb_Forall; [| exact H]. intros x Hx%bool_decide_eq_true. exact Hx. Qed.

Lemma write_op_sender `{BytesSourceLaws Src} id (source : Src) s s' : sender_inv s → bytes_ok (contents source) →
  write_op id source s = Some s' → sender_inv s' ∧ extends (wr s) (closed (st s)) (wr s') (closed (st s')).
Proof.
  intros [Hb Hp] Hsrc E. unfold write_op in E. apply bind_Some in E as ([r s1] & Ew & [= <-]).
  destruct (write_source_advance _ _ _ _ _ _ Ew) as [Ha Hn]. set (w' := written_after id source r (wr s)).
  assert (Hw : (∀ i, bytes_ok (stream_data w' i)) ∧ extends (wr s) (closed (st s)) w' (closed s1)).
  { subst w'. unfold written_after. destruct r as [[w source'] | e]; [| split; [done | by apply extends_same]].
    assert (Ht : bytes_ok (ztake (Send.w_bytes w) (contents source))) by (by apply Forall_take).
    split; intros i; rewrite stream_data_insert; destruct (decide (i = id)) as [-> |]; try done.
    - apply Forall_app. split; [apply Hb | done].
    - split; [apply Ha | right; split; [by eapply Hn | by eexists]].
    - split; [apply Ha | by left]. }
  destruct Hw as [Hby He]. split; [split; [done |] | done]. eapply Forall_impl; [exact Hp |]. intros pkt. by apply packet_extends.
Qed.

Lemma transmitted_bytes wr0 fl0 max_size buf s fs out s' : transmitted wr0 fl0 max_size buf s fs out s' →
  (∀ id, bytes_ok (stream_data wr0 id)) → Forall (λ p, carries wr0 p.1 ∧ bytes_ok (Frames.st_data p.1)) fs.
Proof.
  intros Ht Hb. eapply Forall_impl; [apply (tr_carries _ _ _ _ _ _ _ _ Ht) |]. intros p Hca. split; [done |].
  rewrite (ca_data _ _ Hca). unfold slice, ztake, zdrop. apply Forall_take, Forall_drop, Hb.
Qed.

Lemma transmit_sender wr0 fl0 max_size buf s fs out s' : transmitted wr0 fl0 max_size buf s fs out s' →
  (∀ id, bytes_ok (stream_data wr0 id)) → packet_ok wr0 (closed s') out.
Proof.
  intros Ht Hb. exists fs. split_and!; [apply (tr_bytes _ _ _ _ _ _ _ _ Ht) | apply (tr_delimited _ _ _ _ _ _ _ _ Ht) |].
  pose proof (transmitted_bytes _ _ _ _ _ _ _ _ Ht Hb) as Hca. pose proof (tr_fin _ _ _ _ _ _ _ _ Ht) as Hf.
  rewrite Forall_forall in *. intros p Hp. destruct (Hca p Hp). by split_and!; [| apply Hf |].
Qed.

Section network.
Context (iter_next : gset Z → option Z).

Lemma step_sender o s s' : sys_inv s → enabled o s = true → sender_inv s → step iter_next o s = Some s' →
  sender_inv s' ∧ extends (wr s) (closed (st s)) (wr s') (closed (st s')).
Proof.
  intros Hinv He Hse. pose proof Hinv as (Hc & Hm & Hs & extra & _ & _ & Hr). apply andb_true_iff in He as [Hroom%room_spec He].
  assert (Hkeep : ∀ {A} (f : A → StreamsState) (op : option A) a s', keeps f (st s) op → op = Some a → wr s' = wr s → sent s' = sent s →
    st s' = f a → sender_inv s' ∧ extends (wr s) (closed (st s)) (wr s') (closed (st s'))).
  { intros A f op a s1 (a' & -> & _ & Hq) [= <-] Hw Hsn Hst. apply sender_advance; [done | done | done | rewrite Hst; by apply advance_quiet]. }
  destruct o; cbn [step].
  - intros E. apply bind_Some in E as ([r s1] & E1 & [= <-]). by eapply Hkeep; [apply (open_count false d) | | | |].
  - intros [= <-]. by eapply Hkeep; [apply (accept_count d) | | | |].
  - intros E. apply andb_true_iff in He as [_ Hb%bytes_forallb]. by eapply (write_op_sender id (ByteSlice.from_slice data)).
  - intros E. apply andb_true_iff in He as [_ Hb%bytes_forallb]. by eapply (write_op_sender id (BytesArray.from_chunks chunks)).
  - intros [= <-]. by apply sender_advance; [| | | apply finish_advance].
  - destruct (reset id error_code (rtx s) (st s)) as [[r q] s1] eqn:E. intros [= <-]. apply sender_advance; try done.
    simpl. change s1 with ((r, q, s1).2). rewrite <- E. apply reset_advance.
  - intros [= <-]. by apply sender_advance; [| | | apply set_priority_advance].
  - intros E. apply bind_Some in E as ([[r q] s1] & E1 & [= <-]). by eapply Hkeep; [apply (stop_count id error_code (rtx s)) | | | |].
  - intros E. apply bind_Some in E as ([[r q] s1] & E1 & E).
    destruct r; injection E as <-; (eapply Hkeep; [apply (read_session_count id lens (rtx s) (st s) Hc Hroom (proj1 Hr)) | exact E1 | done..]).
  - intros E. apply bind_Some in E as ([[r q] s1] & E1 & [= <-]). by eapply Hkeep; [apply (observe_reset_count id (rtx s)) | | | |].
  - intros [= <-]. by apply sender_advance; [| | | apply poll_advance].
  - intros [= <-]. apply sender_advance; try done. unfold set_receive_window. case_goal; by apply advance_same.
  - intros E. apply bind_Some in E as (s1 & E1 & [= <-]). apply andb_true_iff in He as [Hn Hn'].
    eapply Hkeep; [apply (set_max_concurrent_count d n (st s)) | exact E1 | done..]; try done; lia.
  - intros E. apply bind_Some in E as ([s1 r] & E1 & [= <-]). rewrite !andb_true_iff in He. destruct He as (((Hid%bool_decide_eq_true & _) & _) & _).
    by eapply Hkeep; [apply (received_count frame payload_len (st s) Hc Hroom Hid) | | | |].
  - intros E. apply bind_Some in E as ([s1 r] & E1 & [= <-]). apply andb_true_iff in He as [Hid%bool_decide_eq_true _].
    by eapply Hkeep; [apply (received_reset_count frame (st s) Hc Hroom Hid) | | | |].
  - intros [= <-]. by apply sender_advance; [| | | apply advance_same].
  - intros [= <-]. apply sender_advance; try done. unfold received_max_streams. repeat case_goal; by apply advance_same.
  - intros [= <-]. by apply sender_advance; [| | | apply received_max_stream_data_advance].
  - intros [= <-]. by apply sender_advance; [| | | apply received_stop_sending_advance].
  - intros E. apply bind_Some in E as (m & Em & E). apply bind_Some in E as (s1 & E1 & [= <-]). apply sender_advance; try done.
    eapply (received_ack_of_advance (wr s) m (delete i (fl s))); [| done | done | exact E1]. by rewrite <- delete_Permutation.
  - intros E. apply bind_Some in E as (m & Em & [= <-]). by apply sender_advance; [| | | apply retransmit_advance].
  - intros E. apply bind_Some in E as (s1 & E1 & [= <-]). apply sender_advance; try done. by eapply reset_acked_advance.
  - unfold write_stream_frames. apply Z.leb_le in He.
    destruct (write_stream_loop_spec (wr s) max_size fair He
      (length (PendingStreamsQueue.iter (pending (st s))) + Z.to_nat (max_size - zlen buf)) buf [] (fl s) (st s) Hs Hc)
      as (fs & out & s1 & -> & Ht); [unfold queued; rewrite length_fmap; lia |]. intros [= <-].
    destruct Hse as [Hb Hp]. assert (Hex : extends (wr s) (closed (st s)) (wr s) (closed s1)) by (apply extends_same, Ht).
    split; [split; [done |] | done]. simpl. rewrite (zdrop_app_zlen _ buf) by done.
    constructor; [by eapply transmit_sender |]. eapply Forall_impl; [exact Hp |]. intros pkt. by apply packet_extends.
  - intros E. apply bind_Some in E as ([r w] & Ew & [= <-]). apply sender_advance; try done.
    destruct (write_control_frames_inv iter_next max_size (mk_writer buf (rtx s) None (st s)) (wr s) (fl s) extra Hs Hr) as (r' & w' & E' & Hco).
    rewrite E' in Ew. injection Ew as <- <-. simpl in Hco |- *. apply advance_same; [apply Hco |]. intros id.
    pose proof (co_view _ _ Hco) as Hv. injection Hv. intros. by apply (known_view (st s)).
Qed.

(** ** The receiver *)

(** FIN is where the writer stopped, hence not below what was received. *)
Lemma carries_fin_consistent D F R en frame s : content D F R en s → recv_wf s → carries D frame → fin_consistent frame s = true.
Proof.
  intros Hc Hwf Hca. unfold fin_consistent. destruct (get_or_insert_recv _ _) as [[r s1] |] eqn:Eg; [| done].
  destruct (content_get _ _ _ _ _ _ _ _ Hc Hwf Eg) as [_ [Hend _]]. destruct (Frames.fin frame) eqn:Hf; [| done]. simpl.
  rewrite (ca_fin _ _ Hca Hf). lia.
Qed.

Lemma content_view D F R en s s' : content D F R en s → recv_view s' = recv_view s → (∀ id, known s id → known s' id) →
  content D F R en s'.
Proof. intros Hc [= E]. by apply content_same. Qed.

Lemma content_unmoved D F R en s s' : content D F R en s → unmoved s s' → content D F R en s'.
Proof. intros Hc Hu. apply (content_view _ _ _ _ s); [done | apply Hu |]. intros id. by apply unmoved_known. Qed.

Lemma received_max_stream_data_known id off s i : known s i → known (received_max_stream_data id off s).1 i.
Proof.
  intros Hk. unfold received_max_stream_data. case_goal; [done |].
  destruct (get_or_insert_send id s) as [[ss s1] |] eqn:Eg; [| case_goal; [done | by apply on_stream_frame_known]].
  apply (unmoved_known _ _ i (unmoved_get _ _ _ _ Eg)) in Hk. destruct (Send.increase_max_data off ss) as [ub ss'].
  apply on_stream_frame_known. by repeat case_goal.
Qed.

Lemma received_stop_sending_known id code s i : known s i → known (received_stop_sending id code s) i.
Proof.
  intros Hk. unfold received_stop_sending. destruct (get_or_insert_send id s) as [[ss s1] |] eqn:Eg; [| done].
  apply (unmoved_known _ _ i (unmoved_get _ _ _ _ Eg)) in Hk. unfold Send.try_stop.
  destruct (Send.stop_reason ss); [done |]. by apply on_stream_frame_known.
Qed.

Lemma write_op_content `{BytesSourceLaws Src} D F id (source : Src) s s' : sys_inv s → known (st s) id →
  content D F (rd s) (ended s) (st s) → write_op id source s = Some s' → content D F (rd s') (ended s') (st s').
Proof.
  intros (_ & _ & Hs & _) Hk Hct E. unfold write_op in E. apply bind_Some in E as ([r s1] & E1 & [= <-]).
  destruct (write_source_inv (wr s) (fl s) false id source (st s) Hs Hk) as (r' & s2 & E2 & _ & Hu).
  rewrite E1 in E2. injection E2 as <- <-. by eapply content_unmoved.
Qed.

(** A frame is read from a packet of the peer, the rest is as the peer and the application
    please. *)
Lemma step_content D F o s s' : sys_inv s → enabled o s = true → content D F (rd s) (ended s) (st s) →
  (∀ frame len, o = IStream frame len → carries D frame ∧ (Frames.fin frame = true → F (Frames.st_id frame))) →
  step iter_next o s = Some s' → content D F (rd s') (ended s') (st s').
Proof.
  intros Hinv He Hct Hfr. pose proof Hinv as (Hc & Hm & Hs & extra & _ & _ & Hr). pose proof Hr as [Hwf _]. apply andb_true_iff in He as [Hroom%room_spec He].
  destruct o; cbn [step].
  - intros E. apply bind_Some in E as ([r s1] & E1 & [= <-]). eapply open_content; [done.. | apply Hm | exact E1].
  - intros [= <-]. destruct (accept_count d (st s) Hc) as (? & [= <-] & _ & Hq). apply (content_same _ _ _ _ (st s)); [done | | apply Hq].
    unfold accept. by repeat case_goal.
  - apply andb_true_iff in He as [Hk%bool_decide_eq_true _]. by apply write_op_content.
  - apply andb_true_iff in He as [Hk%bool_decide_eq_true _]. by apply write_op_content.
  - apply bool_decide_eq_true in He. destruct (finish id (st s)) as [r s1] eqn:E. intros [= <-].
    eapply content_unmoved; [done | apply (finish_inv _ _ _ _ _ _ Hs He E)].
  - apply bool_decide_eq_true in He. destruct (reset id error_code (rtx s) (st s)) as [[r q] s1] eqn:E. intros [= <-].
    eapply content_unmoved; [done | apply (reset_send_inv _ _ _ _ _ _ _ _ _ Hs He E)].
  - destruct (set_priority id p (st s)) as [r s1] eqn:E. intros [= <-].
    eapply content_unmoved; [done | apply (set_priority_inv _ _ _ _ _ _ _ Hs E)].
  - intros E. apply bind_Some in E as ([[r q] s1] & E1 & [= <-]). by eapply stop_content; [| | | | exact E1].
  - apply andb_true_iff in He as [Hk%bool_decide_eq_true Hl]. intros E. apply bind_Some in E as ([[r q] s1] & E1 & E).
    eapply read_session_content in E1; [| done.. | eapply forallb_Forall; [| exact Hl]; simpl; lia].
    destruct r; by injection E as <-.
  - intros E. apply bind_Some in E as ([[r q] s1] & E1 & [= <-]). by eapply observe_reset_content; [| | | | exact E1].
  - intros [= <-]. eapply content_unmoved; [done | apply (poll_send_inv _ _ _ Hs)].
  - intros [= <-]. unfold set_receive_window. case_goal; by apply (content_same _ _ _ _ (st s)).
  - apply andb_true_iff in He as [Hn Hn']. intros E. apply bind_Some in E as (s1 & E1 & [= <-]).
    eapply set_max_concurrent_content; [done.. | | | exact E1]; lia.
  - intros E. apply bind_Some in E as ([s1 r] & E1 & [= <-]). rewrite !andb_true_iff in He. destruct He as (((_ & _) & Hlen) & Hfin).
    destruct (Hfr _ _ eq_refl) as [Hca HF]. apply (received_content D F _ _ frame payload_len (st s) s1 r); try done. lia.
  - intros E. apply bind_Some in E as ([s1 r] & E1 & [= <-]). apply andb_true_iff in He as [_ [Ho _]%bool_decide_eq_true].
    by eapply received_reset_content; [| | | | | exact E1].
  - intros [= <-]. by apply (content_same _ _ _ _ (st s)).
  - intros [= <-]. unfold received_max_streams. repeat case_goal; by apply (content_same _ _ _ _ (st s)).
  - rewrite !andb_true_iff in He. destruct He as ((Hid%bool_decide_eq_true & Ho%bool_decide_eq_true) & Hlim). intros [= <-].
    destruct (received_max_stream_data_inv _ _ id offset _ Hs Hc Hid) as (_ & _ & Hv & _); [apply Ho | |].
    { intros Hne. rewrite bool_decide_false in Hlim by done. simpl in Hlim. lia. }
    eapply content_view; [done | exact Hv | apply received_max_stream_data_known].
  - intros [= <-]. destruct (received_stop_sending_inv _ _ id error_code _ Hs Hc) as (_ & _ & Hv & _).
    eapply content_view; [done | exact Hv | apply received_stop_sending_known].
  - intros E. apply bind_Some in E as (m & Em & E). apply bind_Some in E as (s1 & E1 & [= <-]).
    eapply (received_ack_of_content _ _ _ _ (wr s) m (delete i (fl s))); [done | done | by rewrite <- delete_Permutation | done | done | exact E1].
  - intros E. apply bind_Some in E as (m & Em & [= <-]). eapply content_unmoved; [done |].
    apply (retransmit_inv (wr s) m (delete i (fl s))). by rewrite <- delete_Permutation.
  - intros E. apply bind_Some in E as (s1 & E1 & [= <-]). by eapply reset_acked_content; [| | exact Hs | | | exact E1].
  - unfold write_stream_frames. apply Z.leb_le in He.
    destruct (write_stream_loop_spec (wr s) max_size fair He
      (length (PendingStreamsQueue.iter (pending (st s))) + Z.to_nat (max_size - zlen buf)) buf [] (fl s) (st s) Hs Hc)
      as (fs & out & s1 & -> & Ht); [unfold queued; rewrite length_fmap; lia |]. intros [= <-].
    eapply content_unmoved; [done | apply Ht].
  - intros E. apply bind_Some in E as ([r w] & Ew & [= <-]).
    destruct (write_control_frames_inv iter_next max_size (mk_writer buf (rtx s) None (st s)) (wr s) (fl s) extra Hs Hr) as (r' & w' & E' & Hco).
    rewrite E' in Ew. injection Ew as <- <-. by eapply controlled_content.
Qed.

(** ** Both endpoints *)

(** The endpoint [b]; its peer is [negb b]. *)
Definition Net : Type := Sys * Sys.
Definition at_end (b : bool) (n : Net) : Sys := if b then n.2 else n.1.
Definition set_end (b : bool) (s : Sys) (n : Net) : Net := if b then (n.1, s) else (s, n.2).

(** An endpoint does something on its own, or reads the STREAM frame with index [j] in the
    packet with index [i] that the peer sent. *)
Inductive NetOp :=
| Local (b : bool) (o : Op)
| Deliver (b : bool) (i j : nat) (payload_len : Z).

Definition frame_at (pkt : list Z) (j : nat) : option Frames.Stream :=
  fs ← Frames.collect (length pkt) (Frames.mk_iter pkt None);
  match fs !! j with Some (Ok (Frames.FStream frame)) => Some frame | _ => None end.

Definition is_stream_frame (o : Op) : bool := match o with IStream _ _ => true | _ => false end.

(** [None]: the operation may not happen, or it panicked. *)
Definition net_step (o : NetOp) (n : Net) : option Net :=
  match o with
  | Local b o =>
    let s := at_end b n in
    if negb (is_stream_frame o) && enabled o s then s ← step iter_next o s; Some (set_end b s n) else None
  | Deliver b i j len =>
    let s := at_end b n in
    pkt ← sent (at_end (negb b) n) !! i;
    frame ← frame_at pkt j;
    if has_room (st s) && (zlen (Frames.st_data frame) <=? len) then s ← step iter_next (IStream frame len) s; Some (set_end b s n)
    else None
  end.

Fixpoint net_run (os : list NetOp) (n : Net) : option Net :=
  match os with
  | [] => Some n
  | o :: os => n ← net_step o n; net_run os n
  end.

Definition net_start (c1 c2 : Config) : option Net := s1 ← start c1; s2 ← start c2; Some (s1, s2).

(** What [b] read comes from what its peer wrote. *)
Definition net_inv (n : Net) : Prop := ∀ b,
  sys_inv (at_end b n) ∧ sender_inv (at_end b n)
  ∧ content (wr (at_end (negb b) n)) (closed (st (at_end (negb b) n))) (rd (at_end b n)) (ended (at_end b n)) (st (at_end b n)).

Lemma frame_at_carries D F pkt j frame : packet_ok D F pkt → frame_at pkt j = Some frame →
  carries D frame ∧ (Frames.fin frame = true → F (Frames.st_id frame)).
Proof.
  intros (fs & Hb & Hd & Hfs) E. unfold frame_at in E.
  rewrite (packet_decodes D fs pkt Hb Hd) in E by (eapply Forall_impl; [exact Hfs | naive_solver]). cbn [mbind option_bind] in E.
  rewrite list_lookup_fmap in E. destruct (fs !! j) as [[st el] |] eqn:Ej; [| done]. injection E as <-.
  rewrite Forall_forall in Hfs. destruct (Hfs (st, el)) as (? & ? & _); [by eapply list_elem_of_lookup_2 | done].
Qed.

Lemma net_inv_set b s s' n : net_inv n → at_end b n = s → sys_inv s' → sender_inv s' →
  extends (wr s) (closed (st s)) (wr s') (closed (st s')) →
  content (wr (at_end (negb b) n)) (closed (st (at_end (negb b) n))) (rd s') (ended s') (st s') →
  net_inv (set_end b s' n).
Proof.
  intros Hn Hs Hi Hse He Hct b'. destruct (Hn b') as (Hi1 & Hse1 & Hct1).
  assert (E1 : at_end b (set_end b s' n) = s') by (by destruct b).
  assert (E2 : at_end (negb b) (set_end b s' n) = at_end (negb b) n) by (by destruct b).
  destruct (decide (b' = b)) as [-> | Hb]; [by rewrite E1, E2 |].
  assert (Eb : b' = negb b) by (by destruct b, b'). rewrite Eb in *. rewrite negb_involutive in *. rewrite E1, E2. rewrite Hs in Hct1.
  split_and!; [done.. |]. by eapply content_extends.
Qed.

Lemma local_inv b o s' n : net_inv n → enabled o (at_end b n) = true → step iter_next o (at_end b n) = Some s' →
  (∀ frame len, o = IStream frame len → carries (wr (at_end (negb b) n)) frame
    ∧ (Frames.fin frame = true → closed (st (at_end (negb b) n)) (Frames.st_id frame))) → net_inv (set_end b s' n).
Proof.
  intros Hn He E Hfr. destruct (Hn b) as (Hi & Hse & Hct).
  destruct (step_progress iter_next o _ Hi He) as (s2 & E2 & Hi'). rewrite E in E2. injection E2 as <-.
  destruct (step_sender _ _ _ Hi He Hse E) as [Hse' Hex]. apply (net_inv_set b (at_end b n)); try done. by apply (step_content _ _ o (at_end b n)).
Qed.

(** A frame of the peer passes what [enabled] asks of it. *)
Lemma deliver_enabled b i pkt j frame len n : net_inv n → sent (at_end (negb b) n) !! i = Some pkt → frame_at pkt j = Some frame →
  has_room (st (at_end b n)) = true → zlen (Frames.st_data frame) ≤ len →
  carries (wr (at_end (negb b) n)) frame ∧ (Frames.fin frame = true → closed (st (at_end (negb b) n)) (Frames.st_id frame))
  ∧ enabled (IStream frame len) (at_end b n) = true.
Proof.
  intros Hn Ep Ef Hroom Hlen. destruct (Hn b) as ((_ & _ & _ & extra & _ & _ & Hr & _) & _ & Hct).
  destruct (Hn (negb b)) as (_ & [_ Hpk] & _). rewrite Forall_forall in Hpk.
  destruct (frame_at_carries _ _ pkt j frame (Hpk pkt (list_elem_of_lookup_2 _ _ _ Ep)) Ef) as [Hca HF]. split_and!; [done | done |].
  unfold enabled. rewrite Hroom. simpl. pose proof (ca_id _ _ Hca). pose proof (ca_offset _ _ Hca).
  rewrite (carries_fin_consistent _ _ _ _ _ _ Hct Hr Hca), andb_true_r, !andb_true_iff, !Z.leb_le.
  unfold in_u. rewrite bool_decide_eq_true. unfold is_u in *. lia.
Qed.

Lemma net_step_inv o n n' : net_inv n → net_step o n = Some n' → net_inv n'.
Proof.
  intros Hn E. destruct o as [b o | b i j len]; simpl in E.
  - destruct (is_stream_frame o) eqn:Ho; [done |]. destruct (enabled o (at_end b n)) eqn:He; [| done].
    apply bind_Some in E as (s' & E & [= <-]). apply (local_inv b o); try done. by intros frame len ->.
  - apply bind_Some in E as (pkt & Ep & E). apply bind_Some in E as (frame & Ef & E).
    destruct (has_room _) eqn:Hroom; [| done]. destruct (Z.leb_spec (zlen (Frames.st_data frame)) len) as [Hlen |]; [| done].
    apply bind_Some in E as (s' & E & [= <-]). destruct (deliver_enabled b i pkt j frame len n) as (? & ? & ?); try done.
    apply (local_inv b (IStream frame len)); try done. by intros ? ? [= <- <-].
Qed.

Lemma net_run_inv os : ∀ n n', net_inv n → net_run os n = Some n' → net_inv n'.
Proof.
  induction os as [|o os IH]; intros n n' Hn E; cbn [net_run] in E; [by injection E as <- |].
  apply bind_Some in E as (n1 & E1 & E). eapply IH; [| exact E]. by eapply net_step_inv.
Qed.

(** *** Runs *)

Lemma new_recv_unused side nu nb sw rw srw s id o : is_u 62 rw → is_u 62 srw → 0 ≤ nu ≤ 2 ^ 60 → 0 ≤ nb ≤ 2 ^ 60 →
  new side nu nb sw rw srw = Some s → recv s !! id = Some o → unused o.
Proof.
  intros Hrw Hsrw Hnu Hnb E Ho. unfold new in E. set (s0 := mk_streams _ _ _ _ _ _ _ _ _ _ _ _ _ _ _ _ _ _ _ _ _ _ _ _ _ _ _ _ _ _ _) in E.
  assert (Hwf0 : recv_wf s0) by (split; simpl; [unfold is_u in *; lia | apply map_Forall_empty | done | unfold is_u, u_max in *; lia]).
  apply bind_Some in E as (s1 & E1 & E2). pose proof (insert_remote_recv _ _ _ _ _ Hwf0 E1) as (Hwf1 & _).
  apply insert_remote_grown in E1 as (Hg1 & _ & _ & Hr1); [| done | simpl; lia..].
  apply insert_remote_grown in E2 as (Hg2 & _); [| done | rewrite Hr1; simpl; lia | lia..].
  destruct (Hg2 id) as [E | (_ & _ & o' & E & Hu)]; [| congruence]. destruct (Hg1 id) as [E' | (_ & _ & o' & E' & Hu)]; [| congruence].
  rewrite Ho, E' in E. simpl in E. by rewrite lookup_empty in E.
Qed.

Lemma start_net c s D F : config_ok c = true → start c = Some s →
  wr s = ∅ ∧ sent s = [] ∧ content D F (rd s) (ended s) (st s).
Proof.
  intros Hok E. unfold start in E. apply bind_Some in E as (s0 & E0 & [= <-]). cbn [wr sent rd ended st]. split_and!; [done | done |].
  unfold config_ok, in_u in Hok. rewrite !andb_true_iff, !bool_decide_eq_true, !Z.leb_le in Hok.
  destruct Hok as ((((((((((((H1 & H2) & H3) & H4) & H5) & H6) & H7) & _) & _) & _) & _) & _) & _).
  destruct (new_count (cf_side c) (cf_max_uni c) (cf_max_bidi c) (cf_send_window c) (cf_receive_window c) (cf_stream_receive_window c))
    as (s1 & E1 & _ & m1 & f & m2 & Es & Hm1); [done.. |]. rewrite E0 in E1. injection E1 as <-.
  assert (Hrecv : recv (set_params (cf_peer c) s0) = recv s0).
  { unfold set_params. rewrite set_stream_limits_none; [done |]. rewrite Es. simpl. done. }
  assert (H0 : ∀ id, stream_data (∅ : gmap Z (list Z)) id = []) by (intros; unfold stream_data; by rewrite lookup_empty).
  split.
  - intros id. rewrite H0. apply prefix_nil.
  - intros id Hid. set_solver.
  - intros id r. rewrite Hrecv. intros Hr. destruct (new_recv_unused _ _ _ _ _ _ _ _ _ H6 H7 (conj H1 H2) (conj H3 H4) E0 Hr r). done.
  - done.
  - done.
Qed.

Lemma start_sender c s : config_ok c = true → start c = Some s → sender_inv s.
Proof.
  intros Hc E. destruct (start_net c s ∅ (λ _, True) Hc E) as (Hw & Hs & _). split; [| by rewrite Hs].
  intros id. rewrite Hw. unfold stream_data. rewrite lookup_empty. constructor.
Qed.

Lemma net_start_inv c1 c2 : config_ok c1 = true → config_ok c2 = true → ∃ n, net_start c1 c2 = Some n ∧ net_inv n.
Proof.
  intros H1 H2. destruct (start_inv c1 H1) as (s1 & E1 & Hi1). destruct (start_inv c2 H2) as (s2 & E2 & Hi2).
  exists (s1, s2). unfold net_start. rewrite E1, E2. split; [done |]. intros b.
  destruct b; (split; [done |]).
  - split; [by apply (start_sender c2) |]. by apply (start_net c2 s2).
  - split; [by apply (start_sender c1) |]. by apply (start_net c1 s1).
Qed.

(** C1: two endpoints of this code transfer streams faithfully.  Each side opens, writes,
    finishes, resets, stops and reads streams as it likes; packets are lost, duplicated and
    reordered, and each STREAM frame a side receives is decoded from the bytes of a packet the
    other side built; everything else from the network is arbitrary within what the decoder
    accepts.  On every stream the bytes read so far are then a prefix of the bytes the peer
    wrote, and when the reader is told the stream has ended it has all of them and the peer
    has closed the stream for writing. *)
Theorem stream_transfer (c1 c2 : Config) (os : list NetOp) (n : Net)
  (Hc1 : config_ok c1 = true) (Hc2 : config_ok c2 = true) (Hrun : net_start c1 c2 ≫= net_run os = Some n) :
  ∀ b id, let reader := at_end b n in let writer := at_end (negb b) n in
  stream_data (rd reader) id `prefix_of` stream_data (wr writer) id
  ∧ (id ∈ ended reader → stream_data (rd reader) id = stream_data (wr writer) id ∧ closed (st writer) id).
Proof.
  destruct (net_start_inv c1 c2 Hc1 Hc2) as (n0 & E0 & Hn0). rewrite E0 in Hrun. apply net_run_inv in Hrun; [| done].
  intros b id reader writer. destruct (Hrun b) as (_ & _ & Hct). split; [apply (ct_prefix _ _ _ _ _ Hct) |].
  intros Hid. by destruct (ct_ended _ _ _ _ _ Hct id Hid).
Qed.

End network.

Definition sample_peer : TransportParameters.TransportParameters :=
  TransportParameters.default <| TransportParameters.initial_max_data := 60 |>
    <| TransportParameters.initial_max_stream_data_bidi_local := 30 |>
    <| TransportParameters.initial_max_stream_data_bidi_remote := 30 |>
    <| TransportParameters.initial_max_stream_data_uni := 30 |>
    <| TransportParameters.initial_max_streams_bidi := 2 |>
    <| TransportParameters.initial_max_streams_uni := 2 |>.

(** A client and a server that may open two streams of each kind. *)
Definition sample_config (side : Side) : Config := mk_config side 2 2 100 80 40 sample_peer.

Definition some_id (ids : gset Z) : option Z := head (elements ids).

(** The client writes five bytes and finishes the stream; the second packet arrives before
    the first one and then once more. *)
Definition sample_exchange : list NetOp :=
  [ Local false (OOpen Frames.Bi); Local false (OWrite 0 [1; 2; 3]); Local false (TStreams [] 60 true);
    Local false (OWrite 0 [4; 5]); Local false (OFinish 0); Local false (TStreams [] 60 true);
    Deliver true 0 0 40; Deliver true 1 0 40; Local true (OAccept Frames.Bi); Local true (ORead 0 [2]);
    Deliver true 0 0 40; Local true (ORead 0 [10; 10; 10]) ].

Lemma stream_transfer_witness : ∃ n,
  net_start (sample_config Client) (sample_config Server) ≫= net_run some_id sample_exchange = Some n
  ∧ stream_data (rd (at_end true n)) 0 = [1; 2; 3; 4; 5] ∧ bool_decide (0 ∈ ended (at_end true n)) = true
  ∧ ∀ b id, let reader := at_end b n in let writer := at_end (negb b) n in
    stream_data (rd reader) id `prefix_of` stream_data (wr writer) id
    ∧ (id ∈ ended reader → stream_data (rd reader) id = stream_data (wr writer) id ∧ closed (st writer) id).
Proof.
  assert (Ev : (λ n, (stream_data (rd (at_end true n)) 0, bool_decide (0 ∈ ended (at_end true n))))
    <$> (net_start (sample_config Client) (sample_config Server) ≫= net_run some_id sample_exchange)
    = Some ([1; 2; 3; 4; 5], true)) by (vm_compute; reflexivity).
  destruct (net_start (sample_config Client) (sample_config Server) ≫= net_run some_id sample_exchange) as [n |] eqn:E; [| done].
  injection Ev as Ed Ee. exists n. split_and!; [done | done | done |].
  apply (stream_transfer some_id (sample_config Client) (sample_config Server) sample_exchange n);
    [vm_compute; reflexivity | vm_compute; reflexivity | exact E].
Defined.

End StreamsNetwork.
