(* ===== verification/StreamsProperties.v ===== *)
(** * What the streams of a connection guarantee

    The properties of one endpoint in every state it can reach, whatever the application and
    the peer do; [StreamsNetwork] has those of two endpoints. *)

From Stdlib Require Import String.
From stdpp Require Import gmap fin_maps fin_sets.
From S2P Require Import Prelude BTree RangeSets Coding SendBuf Assembler NatFrames Frames Sums.
From S2P Require Import StreamSend StreamRecv TransportParams StreamQueue Streams StreamsSend StreamsRecvProofs StreamsCount.
From S2P Require Import StreamsCountOps StreamsSendProofs StreamsTransmit StreamsLimits StreamsSystem StreamsTransfer.
From S2P Require Import StreamsNetwork.

Module StreamsProperties.
Import StreamsState StreamsSend StreamsRecvProofs StreamsCount StreamsCountOps StreamsSendProofs StreamsTransmit StreamsLimits.
Import StreamsSystem StreamsTransfer StreamsNetwork.

(** A run in which both sides open streams, data is sent, lost, sent again and acknowledged,
    and data is received and read. *)
Definition sample_run : list Op :=
  [ OOpen Frames.Bi; OOpen Frames.Uni; OWrite 0 [1; 2; 3; 4]; OWriteChunks 2 [[5]; [6; 7]]; OFinish 2; TStreams [] 60 true;
    NLost 0; TStreams [] 60 true; NAck 0; IStream (Frames.mk_stream 1 0 false [8; 9]) 30;
    IStream (Frames.mk_stream 1 4 true [10]) 30; OAccept Frames.Bi; ORead 1 [10]; OWrite 1 [11]; IMaxData 80;
    IMaxStreamData 0 50; OStop 0 3; TControl [] 100 ].

Section properties.
Context (iter_next : gset Z → option Z).

(** The states an endpoint can be in. *)
Definition reached (c : Config) (os : list Op) (s : Sys) : Prop :=
  config_ok c = true ∧ start c ≫= run iter_next os = Some s.

Lemma reached_inv c os s : reached c os s → sys_inv s.
Proof. intros [Hc E]. by eapply system_inv. Qed.

Lemma run_sender os : ∀ s s', sys_inv s → sender_inv s → run iter_next os s = Some s' → sender_inv s'.
Proof.
  induction os as [|o os IH]; intros s s' Hinv Hse; cbn [run]; [by intros [= <-] |].
  destruct (enabled o s) eqn:He; [| done]. destruct (step_progress iter_next o s Hinv He) as (s1 & E & Hs1). rewrite E. simpl.
  apply IH; [done |]. by apply (step_sender iter_next o s s1).
Qed.

Lemma reached_sender c os s : reached c os s → sender_inv s.
Proof.
  intros [Hc E]. apply bind_Some in E as (s0 & E0 & E). destruct (start_inv c Hc) as (s0' & E0' & Hinv).
  rewrite E0 in E0'. injection E0' as <-. eapply run_sender; [exact Hinv | | exact E].
  by apply (start_sender c).
Qed.




(** The same for each stream: what was read is within what was received, which is within
    the limit announced for the stream, which is at most a window beyond what was read; a
    final size is exactly the end of the data. *)
Theorem stream_receive_window_respected (c : Config) (os : list Op) (s : Sys) (id : Z) (r : Recv.Recv)
  (Hr : reached c os s) (Hid : recv (st s) !! id = Some (Some (ROpen r))) :
  0 ≤ Recv.bytes_read r ≤ Recv.end_ r ∧ Recv.end_ r ≤ Recv.sent_max_stream_data r
  ∧ Recv.sent_max_stream_data r ≤ Recv.bytes_read r + stream_receive_window (st s)
  ∧ (∀ f, Recv.state r = Recv.StRecv (Some f) → Recv.end_ r = f).
Proof.
  destruct (reached_inv _ _ _ Hr) as (_ & _ & _ & extra & _ & _ & Hwf & _).
  pose proof (rw_streams _ Hwf id _ Hid) as Hok. pose proof (Recv.read_bounds _ _ Hok).
  split_and!; [lia | lia | apply Hok | apply Hok | apply Hok].
Qed.

(** C22: the endpoint respects the peer's limits and its own window.  The data sent is within
    the connection's limit, the data of each stream within the stream's limit, and
    [unacked_data] is the sum of what the streams have not had acknowledged, within the
    window. *)
Theorem send_flow_control (c : Config) (os : list Op) (s : Sys) (Hr : reached c os s) :
  0 ≤ data_sent (st s) ≤ max_data (st s)
  ∧ unacked_data (st s) = msum unacked_of (send (st s)) ∧ unacked_data (st s) ≤ send_window (st s)
  ∧ (∀ id ss, send (st s) !! id = Some (Some ss) →
      Send.offset ss = zlen (stream_data (wr s) id) ∧ Send.offset ss ≤ Send.max_data ss).
Proof.
  destruct (reached_inv _ _ _ Hr) as (_ & _ & Hs & _). split_and!; [apply Hs | apply Hs | apply Hs | apply Hs |].
  intros id ss E. destruct (si_stream _ _ _ Hs id ss E). split; lia.
Qed.

(** No byte and no FIN is forgotten.  On a stream that was not reset, each byte written is
    acknowledged, in one frame in flight, waiting for retransmission or not sent yet, and in
    just one of these; as long as one is in none of the first two, the stream is in the queue
    of streams to transmit.  A stream that was finished has its FIN waiting, in which case it
    is in the queue, in flight, or acknowledged. *)
Theorem nothing_forgotten (c : Config) (os : list Op) (s : Sys) (id : Z) (ss : Send.Send)
  (Hr : reached c os s) (Hid : send (st s) !! id = Some (Some ss)) (Hreset : Send.is_reset ss = false) :
  let b := Send.pending ss in
  let in_flight := metas_of id (fl s) in
  (∀ x, 0 ≤ x < zlen (stream_data (wr s) id) →
    Z.b2z (SendBuffer.acked_b b x) + cover_count x (ranges in_flight)
      + Z.b2z (memb x (SendBuffer.retransmits b)) + Z.b2z (SendBuffer.unsent b <=? x) = 1
    ∧ (SendBuffer.acked_b b x = false → cover_count x (ranges in_flight) = 0 → id ∈ queued (pending (st s))))
  ∧ (Send.state ss = Send.DataSent false →
      Exists (λ m, Frames.m_fin m = true) in_flight ∨ (Send.fin_pending ss = true ∧ id ∈ queued (pending (st s)))).
Proof.
  intros b in_flight. destruct (reached_inv _ _ _ Hr) as (_ & _ & Hs & _). by apply bytes_owned.
Qed.

(** C27: [write_stream_frames] fills a packet as well as it may.  It ends, stays within the
    packet, and what it appends decodes to STREAM frames that carry exactly the data written
    on their streams at their offsets, FIN at the end of it only; it reports these frames, and
    it stops only when no stream is left to transmit or the largest frame header would no
    longer fit. *)
Theorem stream_frames_packed (c : Config) (os : list Op) (s : Sys) (buf : list Z) (max_size : Z) (fair : bool)
  (Hr : reached c os s) (Hm : max_size ≤ u_max 32) :
  ∃ fs out s', write_stream_frames buf max_size fair (st s) = Some (buf ++ out, meta_of <$> fs, s')
  ∧ (zlen buf ≤ max_size → zlen (buf ++ out) ≤ max_size)
  ∧ Frames.collect (length out) (Frames.mk_iter out None) = Some (Ok ∘ Frames.FStream <$> fs)
  ∧ Forall (carries (wr s)) fs
  ∧ (queued (pending s') = [] ∨ max_size ≤ zlen (buf ++ out) + Frames.SIZE_BOUND Frames.SStream).
Proof.
  destruct (reached_inv _ _ _ Hr) as (Hc & _ & Hs & _). destruct (reached_sender _ _ _ Hr) as [Hby _].
  destruct (write_stream_loop_spec (wr s) max_size fair Hm
    (length (PendingStreamsQueue.iter (pending (st s))) + Z.to_nat (max_size - zlen buf)) buf [] (fl s) (st s) Hs Hc)
    as (fs & out & s1 & E & Ht); [unfold queued; rewrite length_fmap; lia |].
  exists (fst <$> fs), out, s1. pose proof (transmitted_bytes _ _ _ _ _ _ _ _ Ht Hby) as Hca. destruct Ht.
  unfold write_stream_frames. rewrite E, (packet_decodes (wr s) fs) by done. split_and!; try done.
  - by rewrite list_fmap_compose.
  - by rewrite <- list_fmap_compose.
  - by apply Forall_fmap.
Qed.

End properties.

(** ** Examples *)

(** [f] has the value [v] in the state [sample_run] leads to. *)
Ltac sample_state f v :=
  let E := fresh in
  assert (Hv : f <$> (start (sample_config Client) ≫= run some_id sample_run) = Some v) by (vm_compute; reflexivity);
  destruct (start (sample_config Client) ≫= run some_id sample_run) as [s |] eqn:E; [| done];
  assert (Hs : reached some_id (sample_config Client) sample_run s) by (split; [vm_compute; reflexivity | exact E]);
  clear E; apply (inj Some) in Hv; cbn beta in Hv; exists s.




Lemma stream_receive_window_respected_witness : ∃ s r, reached some_id (sample_config Client) sample_run s
  ∧ recv (st s) !! 1 = Some (Some (ROpen r)) ∧ (Recv.bytes_read r, Recv.end_ r, Recv.sent_max_stream_data r) = (2, 5, 40)
  ∧ Recv.sent_max_stream_data r ≤ Recv.bytes_read r + stream_receive_window (st s).
Proof.
  sample_state (λ s, match recv (st s) !! 1 with
    | Some (Some (ROpen r)) => (Recv.bytes_read r, Recv.end_ r, Recv.sent_max_stream_data r) | _ => (0, 0, 0) end) (2, 5, 40).
  destruct (recv (st s) !! 1) as [[[r | r] |] |] eqn:Er; [done | | done | done]. exists r. split; [done |]. split; [done |]. split; [done |].
  apply (stream_receive_window_respected some_id (sample_config Client) sample_run s 1 r Hs Er).
Defined.

Lemma send_flow_control_witness : ∃ s, reached some_id (sample_config Client) sample_run s
  ∧ (data_sent (st s), unacked_data (st s), max_data (st s)) = (8, 4, 80)
  ∧ 0 ≤ data_sent (st s) ≤ max_data (st s)
  ∧ unacked_data (st s) = msum unacked_of (send (st s)) ∧ unacked_data (st s) ≤ send_window (st s).
Proof.
  sample_state (λ s, (data_sent (st s), unacked_data (st s), max_data (st s))) (8, 4, 80). split; [done |]. split; [done |].
  destruct (send_flow_control some_id (sample_config Client) sample_run s Hs) as (? & ? & ? & _). by split.
Defined.

Lemma nothing_forgotten_witness : ∃ s ss, reached some_id (sample_config Client) sample_run s
  ∧ send (st s) !! 1 = Some (Some ss) ∧ stream_data (wr s) 1 = [11] ∧ fl s ≠ [] ∧ 1 ∈ queued (pending (st s)).
Proof.
  sample_state (λ s, (match send (st s) !! 1 with Some (Some ss) => (Send.is_reset ss, SendBuffer.acked_b (Send.pending ss) 0) | _ => (true, true) end,
    stream_data (wr s) 1, cover_count 0 (ranges (metas_of 1 (fl s))), bool_decide (fl s = []))) ((false, false), [11], 0, false).
  destruct (send (st s) !! 1) as [[ss |] |] eqn:Es; [| done | done]. injection Hv as Hre Ha Hd Hc Hf. exists ss.
  split; [done |]. split; [done |]. split; [done |]. split; [by apply bool_decide_eq_false in Hf |].
  destruct (nothing_forgotten some_id (sample_config Client) sample_run s 1 ss Hs Es Hre) as [H _].
  apply (H 0); [rewrite Hd; vm_compute; done | done | done].
Defined.

Lemma stream_frames_packed_witness : ∃ s, reached some_id (sample_config Client) sample_run s
  ∧ (λ r, r.1.1) <$> write_stream_frames [] 100 true (st s) = Some [10; 1; 1; 11]
  ∧ ∃ fs out s', write_stream_frames [] 100 true (st s) = Some ([] ++ out, meta_of <$> fs, s')
    ∧ Frames.collect (length out) (Frames.mk_iter out None) = Some (Ok ∘ Frames.FStream <$> fs).
Proof.
  sample_state (λ s, (λ r, r.1.1) <$> write_stream_frames [] 100 true (st s)) (Some [10; 1; 1; 11]). split; [done |]. split; [done |].
  destruct (stream_frames_packed some_id (sample_config Client) sample_run s [] 100 true Hs) as (fs & out & s' & E & _ & Ec & _); [done |].
  exists fs, out, s'. by split.
Defined.

(** ** Where the code departs from what it says

    Each is an execution on the initial state of a client, its peer allowed two streams of
    each kind. *)

Definition initial {A} (f : StreamsState → option A) : option A := s ← start (sample_config Client); f (st s).

(** MAX_STREAM_DATA for the eighth stream of a peer that may open two is accepted, and the
    third stream [accept] then returns does not exist. *)
Example max_stream_data_beyond_limit :
  initial (λ s,
    let '(s, r) := received_max_stream_data (StreamId.new Server Frames.Bi 7) 100 s in
    let '(_, s) := accept Frames.Bi s in
    let '(_, s) := accept Frames.Bi s in
    let '(o, s) := accept Frames.Bi s in
    Some (max_remote s, r, o, (λ id, (bool_decide (send s !! id = None), bool_decide (recv s !! id = None))) <$> o))
  = Some ((2, 2), Ok (), Some (StreamId.new Server Frames.Bi 2), Some (true, true)).
Proof. vm_compute. reflexivity. Qed.

(** A FIN below the data already received is accepted; a RESET_STREAM that agrees with it
    then makes the subtraction wrap and the count of received data saturate. *)
Example low_fin_saturates_data_recvd :
  initial (λ s,
    '(s, r1) ← received (Frames.mk_stream 1 0 false [1; 2; 3; 4; 5]) 30 s;
    '(s, r2) ← received (Frames.mk_stream 1 0 true [1; 2]) 30 s;
    '(s, r3) ← received_reset (Frames.mk_reset_stream 1 0 2) s;
    Some (r1, r2, r3, data_recvd s))
  = Some (Ok false, Ok false, Ok false, u_max 64).
Proof. vm_compute. reflexivity. Qed.

(** [stop] and the RESET_STREAM it provokes both give credit for the same five bytes. *)
Example reset_after_stop_credits_twice :
  initial (λ s,
    '(s, _) ← received (Frames.mk_stream 1 0 false [1; 2; 3; 4; 5]) 30 s;
    '(_, q, s) ← stop 1 0 Retransmits.empty s;
    '(s, _) ← received_reset (Frames.mk_reset_stream 1 0 5) s;
    Some (receive_window s, data_recvd s, total_unread s, local_max_data s))
  = Some (80, 5, 0, 90).
Proof. vm_compute. reflexivity. Qed.

(** A stream finished without data has its FIN sent in 0-RTT; [retransmit_all_for_0rtt] skips
    it, so the FIN is neither pending nor in flight. *)
Example retry_forgets_lone_fin :
  initial (λ s,
    '(_, s) ← open false Frames.Uni s;
    let '(_, s) := finish 2 s in
    '(out, _, s) ← write_stream_frames [] 60 true s;
    let s := retransmit_all_for_0rtt s in
    match send s !! 2 with Some (Some ss) => Some (out, Send.state ss, Send.fin_pending ss, queued (pending s)) | _ => None end)
  = Some ([11; 2; 0], Send.DataSent false, false, []).
Proof. vm_compute. reflexivity. Qed.

(** Rejected 0-RTT data stays counted as unacknowledged when no stream is left to have it
    acknowledged. *)
Example rejected_data_counted :
  initial (λ s,
    '(_, s) ← open false Frames.Uni s;
    '(_, s) ← write_source false 2 (ByteSlice.from_slice [1; 2; 3; 4]) s;
    s ← zero_rtt_rejected s;
    Some (data_sent s, msum unacked_of (send s), unacked_data s))
  = Some (0, 0, 4).
Proof. vm_compute. reflexivity. Qed.

(** An ordered read after an unordered one is refused, and the stream is gone: the next read
    says it is closed, and its place is never given back. *)
Example illegal_ordered_read_drops_stream :
  initial (λ s,
    '(s, _) ← received (Frames.mk_stream 1 0 false [1; 2; 3]) 30 s;
    match chunks_new 1 false s with
    | (Ok ch, s) =>
      '(_, ch, s) ← chunks_next 1 ch s;
      let '(_, _, _, s) := finalize_inner Retransmits.empty ch s in
      let is_err {A B} (r : result A B) := match r with Err e => Some e | Ok _ => None end in
      let '(r1, s) := chunks_new 1 true s in
      let '(r2, s) := chunks_new 1 false s in
      Some (is_err r1, is_err r2, recv s !! 1, (allocated_remote_count s).1)
    | _ => None
    end)
  = Some (Some ReadableIllegalOrderedRead, Some ReadableClosedStream, None, 2).
Proof. vm_compute. reflexivity. Qed.

End StreamsProperties.
