(* ===== verification/ConnectionProperties.v ===== *)
(** * What a connection guarantees

    The properties of [Connection]'s system in every state it can reach: streams, packets in
    flight and timers together. *)

From Stdlib Require Import String SpecFloat.
From stdpp Require Import gmap fin_maps list.
From S2P Require Import Prelude BTree RangeSets Coding SendBuf Assembler QuicPacket Spaces AckFrame AckFrequency NatFrames Frames Sums.
From S2P Require Import StreamSend StreamRecv Datagrams Floats TransportParams Mtud Congestion Paths Recovery RecoveryProofs.
From S2P Require Import StreamQueue Streams StreamsSend StreamsRecvProofs StreamsCount StreamsCountOps StreamsSendProofs.
From S2P Require Import StreamsTransmit StreamsLimits StreamsSystem StreamsTransfer StreamsNetwork Connection.

Module ConnectionProperties.
Import StreamsState StreamsSend StreamsSendProofs StreamsSystem Connection.

(** ** A connection that sends, hears acknowledgements and loses packets *)

Definition sample_path : PathData.Config (C := NewReno.NewReno) :=
  PathData.mk_config (NewReno.new NewReno.default_config) 333000000 1200 1200 (Some (SearchState.mk_config 600000000000 1452 20 60000000000)).

Definition sample_recovery : Recovery.RecoveryConfig := Recovery.mk_rconfig (Floats.ratio 24 128 9 8) 3 3 None.

Definition sample_connection : Config (C := NewReno.NewReno) :=
  mk_connection_config (StreamsNetwork.sample_config Client) sample_path sample_recovery (NatFrames.V4 [127; 0; 0; 1] 443) true true (Some 30000) 30 7.

Definition ms (n : Z) : Z := n * 1000000.

Definition ack_of (largest : Z) (bytes : list Z) : AckFrame.Ack := AckFrame.mk_ack largest 0 bytes None.

(** The handshake; then data, of which one packet is acknowledged, one lost, and one in flight. *)
Definition sample_events : list (Event) :=
  [ ESend 0 QuicPacket.SpaceInitial 5 1200 true true None Retransmits.empty; ETransmit 1200;
    EDatagram (ms 40) 1200 [IAck QuicPacket.SpaceInitial (ack_of 0 [0])] []; EKeys QuicPacket.SpaceHandshake;
    ESend (ms 41) QuicPacket.SpaceHandshake 5 300 true true (Some 0) Retransmits.empty; ETransmit 300; EDiscard (ms 41) QuicPacket.SpaceInitial;
    EKeys QuicPacket.SpaceData; EEstablished;
    EApp (OOpen Frames.Bi); EApp (OWrite 0 [1; 2; 3; 4; 5]);
    EData (ms 50) 5 40 true 60 true true None; EApp (OWrite 0 [6; 7]);
    EData (ms 51) 5 40 true 60 true true None; ESend (ms 52) QuicPacket.SpaceData 5 40 true true None Retransmits.empty;
    ESend (ms 53) QuicPacket.SpaceData 5 40 true true None Retransmits.empty; EProbe (ms 54) 5; EApp (OWrite 0 [8]);
    EData (ms 54) 5 40 true 60 true true None;
    EDatagram (ms 90) 50 [IFrame (IMaxData 90); IAck QuicPacket.SpaceData (ack_of 3 [2])] [IAck QuicPacket.SpaceHandshake (ack_of 0 [0])];
    EDiscard (ms 91) QuicPacket.SpaceHandshake ].

(** ** In every state a connection can reach *)

Section properties.
Context {C : Type} `{Controller C} (iter_next : gset Z → option Z).

(** The states of a connection that began at [now]. *)
Definition reached (f : Config (C := C)) (now : Z) (es : list Event) (s : Sys) : Prop :=
  config_valid f = true ∧ start now f ≫= run iter_next es = Some s.

Lemma reached_connection f now es s : reached f now es s →
  connection_inv s ∧ (settled es = true → RecoveryProofs.armed (cn s)).
Proof. intros [Hf E]. destruct (start_spec f now Hf) as (s0 & E0 & Hi). rewrite E0 in E. by apply (run_spec iter_next es false s0). Qed.


Lemma sum_sizes_fold {R SF} (l : list (Z * PacketSpace.SentPacket R SF)) :
  foldr Z.add 0 ((λ e, PacketSpace.size e.2) <$> l) = PacketSpace.sum_sizes l.
Proof. induction l as [| [k p] l IH]; simpl; [done |]. by rewrite <- IH. Qed.

(** C14: the bytes in flight on the path and the count of ack-eliciting packets in flight, which
    congestion control and the timers rely on, are exactly those of the packets that are tracked
    in the three packet number spaces. *)
Theorem in_flight_exact (f : Config (C := C)) (now : Z) (es : list Event) (s : Sys) (Hr : reached f now es s) :
  let c := cn s in
  let tracked := RecoveryProofs.packets QuicPacket.SpaceInitial c ++ RecoveryProofs.packets QuicPacket.SpaceHandshake c
                 ++ RecoveryProofs.packets QuicPacket.SpaceData c in
  PathData.bytes (PathData.in_flight (Recovery.path c)) = foldr Z.add 0 ((λ e, PacketSpace.size e.2) <$> tracked)
  ∧ PathData.in_flight_ack_eliciting (PathData.in_flight (Recovery.path c)) = zlen (filter (λ e, PacketSpace.ack_eliciting e.2 = true) tracked).
Proof.
  intros c tracked. destruct (reached_connection f now es s Hr) as [[[Hc _] _] _].
  fold c in Hc. rewrite (RecoveryProofs.co_bytes _ _ _ _ Hc), (RecoveryProofs.co_count _ _ _ _ Hc), (sum_sizes_fold tracked). unfold tracked, RecoveryProofs.sum_ids, RecoveryProofs.eliciting.
  rewrite !PacketSpace.sum_sizes_app, !filter_app, !zlen_app. simpl. split; lia.
Qed.

(** C2: no byte and no FIN that was written is forgotten by the connection.  On a stream that was
    not reset, each byte is acknowledged, or in a STREAM frame of just one packet that is tracked
    for acknowledgement and loss, or waiting for retransmission, or not sent yet; and while it is
    in none of the first two, its stream is in the queue of those to transmit.  A FIN is waiting
    in the queue, in a tracked packet, or acknowledged. *)
Theorem connection_forgets_nothing (f : Config (C := C)) (now : Z) (es : list Event) (s : Sys) (id : Z) (ss : Send.Send)
  (Hr : reached f now es s) (Hid : send (Recovery.streams (cn s)) !! id = Some (Some ss)) (Hreset : Send.is_reset ss = false) :
  let b := Send.pending ss in
  let in_packets := metas_of id (frames_of (flight (cn s))) in
  let queue := queued (pending (Recovery.streams (cn s))) in
  (∀ x, 0 ≤ x < zlen (stream_data (written s) id) →
    Z.b2z (SendBuffer.acked_b b x) + cover_count x (ranges in_packets)
      + Z.b2z (memb x (SendBuffer.retransmits b)) + Z.b2z (SendBuffer.unsent b <=? x) = 1
    ∧ (SendBuffer.acked_b b x = false → cover_count x (ranges in_packets) = 0 → id ∈ queue))
  ∧ (Send.state ss = Send.DataSent false → Exists (λ m, Frames.m_fin m = true) in_packets ∨ (Send.fin_pending ss = true ∧ id ∈ queue)).
Proof.
  intros b in_packets queue. destruct (reached_connection f now es s Hr) as [[[Hc _] _] _].
  destruct (RecoveryProofs.co_known _ _ _ _ Hc) as (_ & _ & Hs & _). by apply (bytes_owned (written s)).
Qed.



End properties.

(** ** The sample connection *)

Abbreviation sample_sys := (Sys (C := NewReno.NewReno)).

Definition sample_state : option sample_sys := start 0 sample_connection ≫= run StreamsNetwork.some_id sample_events.

Lemma sample_reached s : sample_state = Some s → reached StreamsNetwork.some_id sample_connection 0 sample_events s.
Proof. intros E. split; [vm_compute; reflexivity | exact E]. Qed.


Lemma in_flight_exact_witness : ∃ s, sample_state = Some s ∧ PathData.bytes (PathData.in_flight (Recovery.path (cn s))) = 1386
  ∧ foldr Z.add 0 ((λ e, PacketSpace.size e.2) <$> RecoveryProofs.packets QuicPacket.SpaceInitial (cn s)
      ++ RecoveryProofs.packets QuicPacket.SpaceHandshake (cn s) ++ RecoveryProofs.packets QuicPacket.SpaceData (cn s)) = 1386.
Proof.
  assert (Ev : ((λ s : sample_sys, PathData.bytes (PathData.in_flight (Recovery.path (cn s)))) <$> sample_state) = Some 1386) by (vm_compute; reflexivity).
  destruct sample_state as [s |] eqn:E; [| done]. injection Ev as Ev. exists s. split; [done |]. split; [done |].
  rewrite <- Ev. symmetry. apply (in_flight_exact StreamsNetwork.some_id sample_connection 0 sample_events s (sample_reached s E)).
Defined.

(** The first byte waits for retransmission. *)
Lemma connection_forgets_nothing_witness : ∃ s ss, sample_state = Some s ∧ send (Recovery.streams (cn s)) !! 0 = Some (Some ss)
  ∧ 0 ∈ queued (pending (Recovery.streams (cn s))).
Proof.
  set (look := λ s : sample_sys, match send (Recovery.streams (cn s)) !! 0 with
    | Some (Some ss) => (negb (Send.is_reset ss)) && (0 <? zlen (stream_data (written s) 0)) && negb (SendBuffer.acked_b (Send.pending ss) 0)
        && (cover_count 0 (ranges (metas_of 0 (frames_of (flight (cn s))))) =? 0)
    | _ => false end).
  assert (Ev : (look <$> sample_state) = Some true) by (vm_compute; reflexivity).
  destruct sample_state as [s |] eqn:E; [| done]. injection Ev as Ev. unfold look in Ev.
  destruct (send (Recovery.streams (cn s)) !! 0) as [[ss |] |] eqn:Es; [| done | done].
  rewrite !andb_true_iff, !negb_true_iff in Ev. destruct Ev as (((Hr & Hl) & Ha) & Hc). zbool. exists s, ss. split; [done |]. split; [done |].
  destruct (connection_forgets_nothing StreamsNetwork.some_id sample_connection 0 sample_events s 0 ss (sample_reached s E) Es Hr) as [Hx _].
  destruct (Hx 0) as [_ Hq]; [lia |]. by apply Hq.
Defined.



End ConnectionProperties.
