(* ===== verification/FloatBounds.v ===== *)
(** * Magnitudes of floating point numbers

    Upper bounds of the results of [f64] operations, for the code that turns them into a
    [Duration] and panics on a number that is negative, too large or not a number.  Rounding is
    to a neighbour, so that what is at most a power of two stays so; the bounds are therefore
    powers of two. *)

From Stdlib Require Import SpecFloat.
From S2P Require Import Prelude Floats.

Module FloatBounds.

(** Values are scaled, so that all are integers. *)
Definition scale : Z := 4000.
Definition val (m e : Z) : Z := m * 2 ^ (e + scale).

(** A finite number of magnitude at most [2 ^ k]. *)
Definition mag (k : Z) (x : spec_float) : Prop :=
  match x with
  | S754_zero _ => True
  | S754_finite _ m e => -1074 ≤ e ∧ Z.pos m < 2 ^ 53 ∧ val (Z.pos m) e ≤ 2 ^ (k + scale)
  | _ => False
  end.

Definition sval (x : spec_float) : Z :=
  match x with S754_finite s m e => val (cond_Zopp s (Z.pos m)) e | _ => 0 end.

(** ** Shifts *)

Lemma digits_spec m : 0 < m → 2 ^ (Zdigits2 m - 1) ≤ m < 2 ^ Zdigits2 m.
Proof.
  intros Hm. destruct m as [|p|]; try lia. unfold Zdigits2. clear Hm.
  assert (Hstep : ∀ d, 1 ≤ d → 2 ^ d = 2 * 2 ^ (d - 1)) by (intros d Hd; rewrite <- Z.pow_succ_r by lia; f_equal; lia).
  induction p as [p IH|p IH|]; cbn [digits2_pos]; [..|by vm_compute].
  - rewrite Pos2Z.inj_succ. unfold Z.succ. rewrite (Hstep (_ + 1)), Z.add_simpl_r by lia. rewrite (Hstep (Z.pos _)) in * by lia. lia.
  - rewrite Pos2Z.inj_succ. unfold Z.succ. rewrite (Hstep (_ + 1)), Z.add_simpl_r by lia. rewrite (Hstep (Z.pos _)) in * by lia. lia.
Qed.

Lemma digits_nonneg m : 0 ≤ m → 0 ≤ Zdigits2 m.
Proof. destruct m; simpl; lia. Qed.

Lemma iter_pos_nat {A} (f : A → A) p x : SpecFloat.iter_pos f p x = Nat.iter (Pos.to_nat p) f x.
Proof.
  revert x. induction p as [p IH|p IH|]; intros x; cbn [SpecFloat.iter_pos]; [..|done].
  - rewrite !IH, <- Nat.iter_add, <- (Nat.iter_succ_r _ f). f_equal. lia.
  - rewrite !IH, <- Nat.iter_add. f_equal. lia.
Qed.

(** The rounding information of a record is exact. *)
Definition exact (r : shr_record) : Prop := shr_r r = false ∧ shr_s r = false.

Lemma shr_1_spec r : 0 ≤ shr_m r →
  shr_m (shr_1 r) = shr_m r / 2 ∧ (exact r → shr_m r mod 2 = 0 → exact (shr_1 r)).
Proof.
  destruct r as [m r s]; cbn [shr_m]; intros Hm. unfold exact. destruct m as [|[p|p|]|]; simpl; try lia.
  - split; [done|]. by intros [-> ->].
  - split; [rewrite Pos2Z.inj_xI, Z.add_comm, Z.mul_comm, Z.div_add by lia; done|].
    intros _ H. by rewrite Pos2Z.inj_xI, Z.add_comm, Z.mul_comm, Z.mod_add in H by lia.
  - split; [rewrite Pos2Z.inj_xO, Z.mul_comm, Z.div_mul by lia; done|]. by intros [-> ->].
  - by split.
Qed.

Lemma shr_iter_spec n r : 0 ≤ shr_m r →
  shr_m (Nat.iter n shr_1 r) = shr_m r / 2 ^ Z.of_nat n
  ∧ (exact r → shr_m r mod 2 ^ Z.of_nat n = 0 → exact (Nat.iter n shr_1 r)).
Proof.
  intros Hm. induction n as [|n [IH1 IH2]]; [by rewrite Z.pow_0_r, Z.div_1_r|]. rewrite Nat2Z.inj_succ, Z.pow_succ_r by lia.
  rewrite Nat.iter_succ. set (r' := Nat.iter n shr_1 r) in *.
  assert (Hp : 0 < 2 ^ Z.of_nat n) by (apply Z.pow_pos_nonneg; lia).
  destruct (shr_1_spec r') as [H1 H2]. { rewrite IH1. apply Z.div_pos; lia. }
  split; [by rewrite H1, IH1, Z.div_div, (Z.mul_comm 2) by lia|]. intros He Hmod.
  apply Z.mod_divide in Hmod as [q Hq]; [|lia].
  assert (Hq' : shr_m r = q * 2 * 2 ^ Z.of_nat n) by lia.
  apply H2; [apply IH2; [done|]|]; rewrite ?IH1, Hq'; [apply Z.mod_mul; lia|]. rewrite Z.div_mul by lia. apply Z.mod_mul. lia.
Qed.

Lemma fexp_spec d : fexp 53 1024 d = Z.max (d - 53) (-1074).
Proof. done. Qed.

Lemma pow_pos n : 0 ≤ n → 0 < 2 ^ n.
Proof. intros. apply Z.pow_pos_nonneg; lia. Qed.

Lemma pow_split a b : 0 ≤ a → 0 ≤ b → 2 ^ (a + b) = 2 ^ a * 2 ^ b.
Proof. intros. by rewrite Z.pow_add_r by lia. Qed.

Lemma pow_le_inv a b : 0 ≤ b → 2 ^ a ≤ 2 ^ b → a ≤ b.
Proof. intros Hb H. apply Z.pow_le_mono_r_iff in H; lia. Qed.

Lemma shr_fexp_spec m e l : 0 ≤ m →
  let '(r, e') := shr_fexp 53 1024 m e l in
  e ≤ e' ∧ -1074 ≤ e' ∧ e' ≤ Z.max e (fexp 53 1024 (Zdigits2 m + e))
  ∧ shr_m r = m / 2 ^ (e' - e) ∧ (l = loc_Exact → m mod 2 ^ (e' - e) = 0 → exact r)
  ∧ shr_m r < 2 ^ 53 ∧ (e' = e → r = shr_record_of_loc m l).
Proof.
  intros Hm. unfold shr_fexp. pose proof (fexp_spec (Zdigits2 m + e)) as Hf. set (f := fexp 53 1024 (Zdigits2 m + e)) in *.
  assert (Hr : shr_m (shr_record_of_loc m l) = m) by by destruct l as [|[]].
  assert (Hx : l = loc_Exact → exact (shr_record_of_loc m l)) by by intros ->.
  assert (Hd : m < 2 ^ Zdigits2 m). { destruct (Z.eq_dec m 0) as [->|]; [done|]. apply digits_spec. lia. }
  pose proof (digits_nonneg m Hm) as Hdn.
  assert (Hsmall : f - e ≤ 0 → m < 2 ^ 53).
  { intros. eapply Z.lt_le_trans; [exact Hd|]. apply Z.pow_le_mono_r; lia. }
  destruct (f - e) as [|n|n] eqn:E; cbn [shr].
  - rewrite Z.sub_diag, Z.pow_0_r, Z.div_1_r, Hr. repeat split; try lia; try (by apply Hx); apply Hsmall; lia.
  - destruct (shr_iter_spec (Pos.to_nat n) (shr_record_of_loc m l)) as [H1 H2]; [lia|]. rewrite positive_nat_Z, Hr in *.
    rewrite iter_pos_nat. replace (e + Z.pos n - e) with (Z.pos n) by lia. split_and!; try lia; try done; [by auto|].
    rewrite H1. apply Z.div_lt_upper_bound; [by apply pow_pos|]. rewrite <- pow_split by lia.
    eapply Z.lt_le_trans; [exact Hd|]. apply Z.pow_le_mono_r; lia.
  - rewrite Z.sub_diag, Z.pow_0_r, Z.div_1_r, Hr. repeat split; try lia; try (by apply Hx); apply Hsmall; lia.
Qed.

(** What the rounded number is known to be below, given where it lies. *)
Definition below (m e : Z) (l : location) (k : Z) : Prop :=
  val (match l with loc_Exact => m | _ => m + 1 end) e ≤ 2 ^ (k + scale).

Definition signed (s : bool) (x : spec_float) : Prop :=
  match x with S754_zero s' => s' = s | S754_finite s' _ _ => s' = s | _ => False end.

Lemma below_le m e l k : below m e l k → val m e ≤ 2 ^ (k + scale).
Proof.
  unfold below, val. destruct l; [done|]. pose proof (Z.pow_nonneg 2 (e + scale)). lia.
Qed.

Lemma below_digits m e l k : 0 < m → -3000 ≤ e → -1074 ≤ k → below m e l k → Zdigits2 m - 1 + e ≤ k.
Proof.
  intros Hm He Hk H%below_le. destruct (digits_spec m Hm) as [Hd _].
  assert (Hdig : 1 ≤ Zdigits2 m) by (destruct m; simpl in *; lia).
  unfold val, scale in *. assert (2 ^ (Zdigits2 m - 1 + e + 4000) ≤ 2 ^ (k + 4000)) as Hp%pow_le_inv; [|lia..].
  rewrite <- Z.add_assoc, pow_split by lia. pose proof (pow_pos (e + 4000)). nia.
Qed.

(** One rounding step does not lead above a power of two. *)
Lemma round_once m e l k : 0 ≤ m → -3000 ≤ e → -1074 ≤ k → below m e l k →
  let '(r, e') := shr_fexp 53 1024 m e l in
  0 ≤ round_nearest_even (shr_m r) (loc_of_shr_record r)
  ∧ val (round_nearest_even (shr_m r) (loc_of_shr_record r)) e' ≤ 2 ^ (k + scale).
Proof.
  intros Hm He Hk Hb. pose proof (shr_fexp_spec m e l Hm) as Hs. destruct (shr_fexp 53 1024 m e l) as [r e'].
  destruct Hs as (H1 & H2 & H3 & Hq & Hex & _ & Hsame).
  assert (Hr : shr_m r ≤ round_nearest_even (shr_m r) (loc_of_shr_record r) ≤ shr_m r + 1
               ∧ (exact r → round_nearest_even (shr_m r) (loc_of_shr_record r) = shr_m r)).
  { destruct r as [q [] []]; simpl; unfold exact; simpl; try (destruct (Z.even q)); split; try lia; by intros []. }
  destruct Hr as [Hr Hrx]. assert (0 ≤ shr_m r) by (rewrite Hq; apply Z.div_pos; [lia|apply pow_pos; lia]). split; [lia|].
  destruct (Z.eq_dec e' e) as [->|Hne].
  - rewrite (Hsame eq_refl) in *. unfold below in Hb. destruct l as [|c]; [done|].
    etrans; [|exact Hb]. unfold val. apply Z.mul_le_mono_nonneg_r; [apply Z.pow_nonneg; lia|]. destruct c; simpl; try destruct (Z.even m); lia.
  - assert (Hek : e' ≤ k).
    { rewrite fexp_spec in H3. destruct (Z.eq_dec m 0) as [->|]; [simpl in H3; lia|]. pose proof (below_digits m e l k ltac:(lia) He Hk Hb). lia. }
    unfold val, below in *. set (n := e' - e) in *. assert (Hn : 0 < 2 ^ n) by (apply pow_pos; lia).
    assert (Hp : 0 < 2 ^ (e + scale)) by (apply pow_pos; unfold scale; lia).
    assert (HT : 2 ^ (k + scale) = 2 ^ (k - e') * 2 ^ n * 2 ^ (e + scale)) by (rewrite <- !pow_split by (unfold scale; lia); f_equal; lia).
    assert (He' : 2 ^ (e' + scale) = 2 ^ n * 2 ^ (e + scale)) by (rewrite <- pow_split by (unfold scale; lia); f_equal; lia).
    rewrite HT, He' in *. set (T := 2 ^ (k - e')) in *. set (P := 2 ^ (e + scale)) in *.
    assert (Hm' : match l with loc_Exact => m | _ => m + 1 end ≤ T * 2 ^ n) by (apply (Z.mul_le_mono_pos_r _ _ P); [done|exact Hb]).
    assert (Hle : round_nearest_even (shr_m r) (loc_of_shr_record r) ≤ T); [|nia].
    pose proof (Z.div_mod m (2 ^ n)) as Hdm. pose proof (Z.mod_pos_bound m (2 ^ n) Hn). rewrite <- Hq in Hdm.
    destruct (Z.lt_ge_cases (shr_m r) T); [lia|]. assert (shr_m r = T ∧ m mod 2 ^ n = 0 ∧ l = loc_Exact) as (HqT & Hz & Hl).
    { destruct l; [|nia]. split_and!; [nia..|done]. }
    rewrite Hrx, HqT; [lia|]. by apply Hex.
Qed.

Lemma round_mag s m e l k : 0 ≤ m → -3000 ≤ e → -1074 ≤ k ≤ 900 → below m e l k →
  mag k (binary_round_aux 53 1024 s m e l) ∧ signed s (binary_round_aux 53 1024 s m e l).
Proof.
  intros Hm He Hk Hb. unfold binary_round_aux. pose proof (round_once m e l k Hm He ltac:(lia) Hb) as H1.
  pose proof (shr_fexp_spec m e l Hm) as Hs1. destruct (shr_fexp 53 1024 m e l) as [r e'] eqn:E1.
  destruct H1 as [Hm1 Hv1]. set (m1 := round_nearest_even _ _) in *.
  pose proof (shr_fexp_spec m1 e' loc_Exact Hm1) as Hs. destruct (shr_fexp 53 1024 m1 e' loc_Exact) as [r2 e2].
  destruct Hs as (H1 & H2 & _ & Hq & _ & H53 & _). destruct (shr_m r2) as [|m2|m2] eqn:Em2; [done| |].
  - assert (Hv2 : val (Z.pos m2) e2 ≤ 2 ^ (k + scale)).
    { etrans; [|exact Hv1]. unfold val. rewrite Hq. replace (e2 + scale) with ((e2 - e') + (e' + scale)) by lia.
      destruct Hs1 as (_ & ? & _). rewrite pow_split by (unfold scale; lia). rewrite Z.mul_assoc.
      apply Z.mul_le_mono_nonneg_r; [apply Z.pow_nonneg; lia|]. rewrite Z.mul_comm. apply Z.mul_div_le, pow_pos. lia. }
    assert (e2 ≤ k).
    { unfold val, scale in *. assert (2 ^ (e2 + 4000) ≤ 2 ^ (k + 4000)) as Hp%pow_le_inv; [|lia..].
      pose proof (Z.pow_nonneg 2 (e2 + 4000)). nia. }
    destruct (Z.leb_spec e2 (1024 - 53)); [|lia]. by repeat split.
  - exfalso. assert (0 ≤ m1 / 2 ^ (e2 - e')) by (apply Z.div_pos; [lia|apply pow_pos; lia]). lia.
Qed.

(** ** Operations *)

Lemma mag_signed k x : mag k x → ∃ s, signed s x.
Proof. destruct x as [s| | |s m e]; try done; by exists s. Qed.

Lemma mag_mul a b x y sx sy : -1074 ≤ a + b ≤ 900 → mag a x → mag b y → signed sx x → signed sy y →
  mag (a + b) (Floats.mul_f64 x y) ∧ signed (xorb sx sy) (Floats.mul_f64 x y).
Proof.
  intros Hk Hx Hy Sx Sy. unfold Floats.mul_f64.
  destruct x as [s| | |s m e], y as [s'| | |s' m' e']; simpl in Hx, Hy, Sx, Sy; subst; try done.
  cbn [SFmul]. destruct Hx as (He & _ & Hx), Hy as (He' & _ & Hy). apply round_mag; [lia..|].
  unfold below, val, scale in *. rewrite Pos2Z.inj_mul.
  assert (Hm : Z.pos m * 2 ^ (e + 4000) * (Z.pos m' * 2 ^ (e' + 4000)) ≤ 2 ^ (a + 4000) * 2 ^ (b + 4000)).
  { apply Z.mul_le_mono_nonneg; try done; apply Z.mul_nonneg_nonneg; try lia; apply Z.pow_nonneg; lia. }
  assert (Ha : -4000 ≤ a). { destruct (Z.le_gt_cases (-4000) a); [done|]. rewrite (Z.pow_neg_r 2 (a + 4000)) in Hx by lia. pose proof (pow_pos (e + 4000)). lia. }
  assert (Hb : -4000 ≤ b). { destruct (Z.le_gt_cases (-4000) b); [done|]. rewrite (Z.pow_neg_r 2 (b + 4000)) in Hy by lia. pose proof (pow_pos (e' + 4000)). lia. }
  apply (Z.mul_le_mono_pos_r _ _ (2 ^ 4000)); [apply pow_pos; lia|]. rewrite <- pow_split by lia.
  rewrite <- pow_split in Hm by lia. replace (a + b + 4000 + 4000) with (a + 4000 + (b + 4000)) by lia.
  etrans; [|exact Hm]. rewrite <- !Z.mul_assoc, <- pow_split by lia.
  replace (2 ^ (e + 4000) * (Z.pos m' * 2 ^ (e' + 4000))) with (Z.pos m' * (2 ^ (e + 4000) * 2 ^ (e' + 4000))) by ring.
  rewrite <- pow_split by lia. replace (e + e' + 4000 + 4000) with (e + 4000 + (e' + 4000)) by lia. lia.
Qed.

Lemma iter_xO m n : Z.pos (Pos.iter xO m n) = Z.pos m * 2 ^ Z.pos n.
Proof.
  induction n as [|n IH] using Pos.peano_ind; [simpl; lia|]. rewrite Pos.iter_succ, Pos2Z.inj_xO, IH, Pos2Z.inj_succ, Z.pow_succ_r by lia. lia.
Qed.

Lemma shl_align_val m e f : -3000 ≤ e → -1074 ≤ f →
  let '(m', e') := shl_align m e f in val (Z.pos m') e' = val (Z.pos m) e ∧ e' = Z.min e f.
Proof.
  intros He Hf. unfold shl_align. destruct (f - e) as [|n|n] eqn:E; [split; [done|lia]..|]. rewrite iter_xO. unfold val, scale.
  replace (e + 4000) with (Z.pos n + (f + 4000)) by lia. rewrite (pow_split (Z.pos n)) by lia. split; [ring|lia].
Qed.

Lemma normalize_mag m e k z : -1074 ≤ e → -1074 ≤ k ≤ 900 → Z.abs (val m e) ≤ 2 ^ (k + scale) →
  mag k (binary_normalize 53 1024 m e z) ∧ (0 < m → signed false (binary_normalize 53 1024 m e z)).
Proof.
  intros He Hk Hv. unfold binary_normalize, binary_round.
  assert (Hr : ∀ s p, Z.abs m = Z.pos p →
    let '(mz, ez) := shl_align p e (fexp 53 1024 (Z.pos (digits2_pos p) + e)) in
    mag k (binary_round_aux 53 1024 s (Z.pos mz) ez loc_Exact) ∧ signed s (binary_round_aux 53 1024 s (Z.pos mz) ez loc_Exact)).
  { intros s p Hp. pose proof (shl_align_val p e (fexp 53 1024 (Z.pos (digits2_pos p) + e)) ltac:(lia)) as H. rewrite fexp_spec in *.
    destruct (shl_align _ _ _) as [mz ez]. destruct H as [H1 H2]; [lia|]. apply round_mag; [lia..|]. unfold below. rewrite H1, <- Hp.
    unfold val in *. rewrite Z.abs_mul, (Z.abs_eq (2 ^ _)) in Hv by (apply Z.pow_nonneg; lia). done. }
  destruct m as [|p|p]; [by split|..].
  - specialize (Hr false p eq_refl). destruct (shl_align _ _ _). destruct Hr. by split.
  - specialize (Hr true p eq_refl). destruct (shl_align _ _ _). destruct Hr. by split.
Qed.

Lemma cond_val s p e : val (cond_Zopp s (Z.pos p)) e = cond_Zopp s (val (Z.pos p) e).
Proof. destruct s; simpl; unfold val; lia. Qed.

Lemma aligned_val s m e f : -1074 ≤ f ≤ e → val (cond_Zopp s (Z.pos (shl_align m e f).1)) f = val (cond_Zopp s (Z.pos m)) e.
Proof.
  intros Hf. pose proof (shl_align_val m e f ltac:(lia) ltac:(lia)) as H. destruct (shl_align m e f) as [m' e'].
  destruct H as [H ->]. rewrite !cond_val. f_equal. simpl. rewrite <- H. f_equal. lia.
Qed.

Lemma val_add m m' e : val (m + m') e = val m e + val m' e.
Proof. unfold val. ring. Qed.

Lemma val_pos m e : -1074 ≤ e → 0 < val m e → 0 < m.
Proof. unfold val, scale. intros He H. pose proof (pow_pos (e + 4000)). nia. Qed.

Lemma mag_weaken j k x : j ≤ k → mag j x → mag k x.
Proof.
  intros Hjk. destruct x as [| | |s m e]; try done. intros (He & H53 & Hv). split_and!; [done..|].
  etrans; [exact Hv|]. unfold scale. destruct (Z.le_gt_cases 0 (j + 4000)); [apply Z.pow_le_mono_r; lia|].
  rewrite Z.pow_neg_r by lia. apply Z.pow_nonneg. lia.
Qed.

Lemma sval_finite k x : mag k x → sval x ≠ 0 → ∃ s m e, x = S754_finite s m e ∧ sval x = val (cond_Zopp s (Z.pos m)) e.
Proof. destruct x as [| | |s m e]; try done. intros _ _. by exists s, m, e. Qed.

Lemma mag_finite k s m e : mag k (S754_finite s m e) → ∀ j, Z.abs (sval (S754_finite s m e)) ≤ 2 ^ (j + scale) → mag j (S754_finite s m e).
Proof.
  intros (He & H53 & _) j Hj. split_and!; [done..|]. simpl in Hj. etrans; [|exact Hj]. rewrite cond_val. destruct s; simpl; lia.
Qed.

Lemma mag_add j k x y : -1074 ≤ k ≤ 900 → mag j x → mag j y → Z.abs (sval x + sval y) ≤ 2 ^ (k + scale) →
  mag k (Floats.add_f64 x y) ∧ (0 < sval x + sval y → signed false (Floats.add_f64 x y)).
Proof.
  intros Hk Hx Hy Hv. unfold Floats.add_f64. destruct x as [s| | |s m e], y as [s'| | |s' m' e']; try done.
  - simpl in *. destruct s, s'; split; (done || lia).
  - cbn [SFadd]. rewrite Z.add_0_l in *. split; [by eapply mag_finite|]. simpl. rewrite cond_val. destruct s'; [|done]. simpl.
    destruct Hy as (He & _). unfold val. pose proof (Z.pow_nonneg 2 (e' + scale)). lia.
  - cbn [SFadd]. rewrite Z.add_0_r in *. split; [by eapply mag_finite|]. simpl. rewrite cond_val. destruct s; [|done]. simpl.
    unfold val. pose proof (Z.pow_nonneg 2 (e + scale)). lia.
  - cbn [SFadd]. destruct Hx as (He & _), Hy as (He' & _). simpl in Hv.
    rewrite <- (aligned_val s m e (Z.min e e')), <- (aligned_val s' m' e' (Z.min e e')), <- val_add in Hv by lia.
    destruct (normalize_mag _ (Z.min e e') k false ltac:(lia) Hk Hv) as [H1 H2]. split; [done|]. cbn [sval].
    rewrite <- (aligned_val s m e (Z.min e e')), <- (aligned_val s' m' e' (Z.min e e')), <- val_add by lia. intros Hp.
    apply H2. eapply val_pos; [|exact Hp]. lia.
Qed.

Lemma sval_signed x : signed false x → 0 ≤ sval x.
Proof.
  destruct x as [| | |s m e]; try done; simpl. intros ->. simpl. unfold val. pose proof (Z.pow_nonneg 2 (e + scale)). lia.
Qed.

Lemma sval_pos m e : -1074 ≤ e → 0 < sval (S754_finite false m e).
Proof. intros He. simpl. unfold val. pose proof (pow_pos (e + scale)). unfold scale in *. lia. Qed.

Lemma add_nonneg j k x y : -1074 ≤ k ≤ 900 → mag j x → mag j y → sval x + sval y ≤ 2 ^ (k + scale) →
  signed false x → signed false y → mag k (Floats.add_f64 x y) ∧ signed false (Floats.add_f64 x y).
Proof.
  intros Hk Hx Hy Hv Sx Sy. pose proof (sval_signed _ Sx). pose proof (sval_signed _ Sy).
  destruct (mag_add j k x y Hk Hx Hy) as [H1 H2]; [lia|]. split; [done|].
  destruct x as [| | |s m e]; try done; [|apply H2; simpl in Sx; subst; pose proof (sval_pos m e (proj1 Hx)); lia].
  destruct y as [| | |s' m' e']; try done; simpl in *; by subst.
Qed.

Lemma sub_add x y : Floats.sub_f64 x y = Floats.add_f64 x (SFopp y).
Proof.
  unfold Floats.sub_f64, Floats.add_f64. destruct x as [s|s| |s m e], y as [s'|s'| |s' m' e']; try done; simpl; by destruct s, s'.
Qed.

Lemma mag_opp k x : mag k (SFopp x) ↔ mag k x.
Proof. by destruct x. Qed.

Lemma sval_opp x : sval (SFopp x) = - sval x.
Proof. destruct x as [| | |[] m e]; simpl; unfold val; lia. Qed.

Lemma mag_sub j k x y : -1074 ≤ k ≤ 900 → mag j x → mag j y → Z.abs (sval x - sval y) ≤ 2 ^ (k + scale) →
  mag k (Floats.sub_f64 x y).
Proof.
  intros Hk Hx Hy Hv. rewrite sub_add. apply (mag_add j k); [done..|by apply mag_opp|]. by rewrite sval_opp.
Qed.

(** The value lies within the magnitude, on the side of the sign. *)
Lemma sval_mag k x : mag k x → Z.abs (sval x) ≤ 2 ^ (k + scale).
Proof.
  destruct x as [| | |s m e]; try done; simpl; [intros _; apply Z.pow_nonneg; lia|]. intros (_ & _ & Hv). rewrite cond_val.
  unfold val in *. pose proof (Z.pow_nonneg 2 (e + scale)). destruct s; simpl; lia.
Qed.

Lemma of_int_mag n k : 0 ≤ n ≤ 2 ^ k → 0 ≤ k ≤ 900 → mag k (Floats.of_f64 n) ∧ signed false (Floats.of_f64 n).
Proof.
  intros Hn Hk. unfold Floats.of_f64, Floats.of_int. destruct (normalize_mag n 0 k false) as [H1 H2]; [lia..| |].
  - unfold val. rewrite Z.add_0_l, (pow_split k) by (unfold scale; lia).
    rewrite Z.abs_eq by (apply Z.mul_nonneg_nonneg; [lia|apply Z.pow_nonneg; lia]).
    apply Z.mul_le_mono_nonneg_r; [apply Z.pow_nonneg|]; lia.
  - split; [done|]. destruct (Z.eq_dec n 0) as [->|]; [done|]. apply H2. lia.
Qed.

Lemma location_cases d r : new_location d r = loc_Exact ∧ r = 0 ∨ (∃ c, new_location d r = loc_Inexact c) ∧ r ≠ 0.
Proof.
  unfold new_location, new_location_even, new_location_odd. destruct (Z.even d), (Z.eqb_spec r 0); eauto.
Qed.

Lemma mag_div j k x s' m' e' : 0 ≤ k ≤ 900 → e' ≤ 900 → mag j x → signed false x → mag j (S754_finite s' m' e') →
  sval x ≤ 2 ^ k * val (Z.pos m') e' → s' = false →
  mag k (Floats.div_f64 x (S754_finite s' m' e')) ∧ signed false (Floats.div_f64 x (S754_finite s' m' e')).
Proof.
  intros Hk He9 Hx Sx Hy Hv ->. unfold Floats.div_f64. destruct x as [s| | |s m e]; simpl in Sx; subst; try done.
  cbn [SFdiv]. destruct Hx as (He & H53 & _), Hy as (He' & H53' & _). simpl in Hv. unfold SFdiv_core_binary.
  set (d1 := Zdigits2 (Z.pos m)). set (d2 := Zdigits2 (Z.pos m')). set (ez := Z.min _ (e - e')). set (sh := e - e' - ez).
  assert (Hd1 := digits_spec (Z.pos m) ltac:(lia)). assert (Hd2 := digits_spec (Z.pos m') ltac:(lia)). fold d1 in Hd1. fold d2 in Hd2.
  assert (1 ≤ d1 ≤ 53 ∧ 1 ≤ d2 ≤ 53) as [Hb1 Hb2].
  { split; (split; [unfold d1, d2; simpl; lia|]).
    - assert (2 ^ (d1 - 1) < 2 ^ 53) as ?%Z.pow_lt_mono_r_iff by lia; lia.
    - assert (2 ^ (d2 - 1) < 2 ^ 53) as ?%Z.pow_lt_mono_r_iff by lia; lia. }
  unfold val, scale in Hv.
  assert (Hexp : d1 - 1 + e ≤ k + d2 + e').
  { assert (2 ^ (d1 - 1 + (e + 4000)) ≤ 2 ^ (k + d2 + (e' + 4000))) as Hp%pow_le_inv; [|lia..].
    rewrite pow_split by (unfold d1; simpl; lia). rewrite (pow_split (k + d2)), (pow_split k) by (unfold d2; simpl; lia).
    etrans; [apply Z.mul_le_mono_nonneg_r; [apply Z.pow_nonneg; lia|apply Hd1]|]. etrans; [exact Hv|].
    rewrite <- !Z.mul_assoc. apply Z.mul_le_mono_nonneg_l; [apply Z.pow_nonneg; lia|].
    apply Z.mul_le_mono_nonneg_r; [apply Z.pow_nonneg; lia|lia]. }
  assert (Hez : ez ≤ k ∧ -3000 ≤ ez) by (unfold ez; rewrite fexp_spec; lia).
  assert (Hsh : 0 ≤ sh) by (unfold sh, ez; lia).
  replace (match sh with 0 => Z.pos m | Z.pos _ => Z.shiftl (Z.pos m) sh | Z.neg _ => 0 end) with (Z.pos m * 2 ^ sh)
    by (destruct sh; [lia|by rewrite Z.shiftl_mul_pow2 by lia|lia]).
  assert (Hle : Z.pos m * 2 ^ sh ≤ 2 ^ (k - ez) * Z.pos m').
  { apply (Z.mul_le_mono_pos_r _ _ (2 ^ (e' + ez + 4000 + 4000))); [apply pow_pos; lia|].
    assert (E1 : Z.pos m * 2 ^ sh * 2 ^ (e' + ez + 4000 + 4000) = Z.pos m * 2 ^ (e + 4000) * 2 ^ 4000).
    { rewrite <- !Z.mul_assoc, <- !pow_split by lia. do 2 f_equal. lia. }
    assert (E2 : 2 ^ (k - ez) * Z.pos m' * 2 ^ (e' + ez + 4000 + 4000) = 2 ^ k * (Z.pos m' * 2 ^ (e' + 4000)) * 2 ^ 4000).
    { replace (2 ^ (k - ez) * Z.pos m' * 2 ^ (e' + ez + 4000 + 4000)) with (Z.pos m' * (2 ^ (k - ez) * 2 ^ (e' + ez + 4000 + 4000))) by ring.
      replace (2 ^ k * (Z.pos m' * 2 ^ (e' + 4000)) * 2 ^ 4000) with (Z.pos m' * (2 ^ k * 2 ^ (e' + 4000) * 2 ^ 4000)) by (generalize (2 ^ 4000); intros; ring).
      rewrite <- !pow_split by lia. do 2 f_equal. lia. }
    rewrite E1, E2. apply Z.mul_le_mono_nonneg_r; [apply Z.pow_nonneg; lia|exact Hv]. }
  pose proof (Z_div_mod (Z.pos m * 2 ^ sh) (Z.pos m') eq_refl) as Hdm. destruct (Z.div_eucl _ _) as [q r]. destruct Hdm as [Hq Hr].
  assert (0 ≤ q). { pose proof (pow_pos sh Hsh). nia. }
  apply round_mag; [lia..|]. unfold below, val, scale.
  replace (k + 4000) with ((k - ez) + (ez + 4000)) by lia. rewrite (pow_split (k - ez)) by lia. apply Z.mul_le_mono_nonneg_r; [apply Z.pow_nonneg; lia|].
  destruct (location_cases (Z.pos m') r) as [[-> ->]|[[c ->] Hne]]; nia.
Qed.

(** ** Durations *)

Lemma from_secs_ok x k : 0 ≤ k ≤ 63 → mag k x → signed false x → ∃ t, Floats.from_secs x = Some t ∧ 0 ≤ t ≤ 2 ^ k * 10 ^ 9 + 1.
Proof.
  intros Hk Hm Hs. destruct x as [| | |s m e]; try done.
  { exists 0. split; [done|]. pose proof (pow_pos k). lia. }
  simpl in Hs. subst. destruct Hm as (He & _ & Hv). cbn [Floats.from_secs].
  set (nd := if 0 <=? e then _ else _). assert (Hnd : 0 < nd.2 ∧ 0 ≤ nd.1 ≤ 2 ^ k * nd.2).
  { unfold nd, val, scale in *. pose proof (pow_pos (e + 4000)). destruct (Z.leb_spec 0 e); cbn [fst snd].
    - rewrite !pow_split in Hv by lia. pose proof (pow_pos 4000 ltac:(lia)) as Hs. revert Hv Hs. generalize (2 ^ 4000).
      intros S Hv Hs. pose proof (pow_pos e). nia.
    - split; [apply pow_pos; lia|]. split; [lia|]. replace (k + 4000) with (k + (- e + (e + 4000))) in Hv by lia.
      rewrite (pow_split k), (pow_split (- e)) in Hv by lia. nia. }
  destruct nd as [n d]. cbn [fst snd] in Hnd. destruct Hnd as [Hd Hn].
  assert (2 ^ k ≤ 2 ^ 63) by (apply Z.pow_le_mono_r; lia).
  destruct (Z.leb_spec (2 ^ 64 * d) n); [nia|]. eexists. split; [done|]. unfold Floats.round_half_even.
  assert (0 ≤ n * 10 ^ 9 / d) by (apply Z.div_pos; lia).
  assert (n * 10 ^ 9 / d ≤ 2 ^ k * 10 ^ 9) by (apply Z.div_le_upper_bound; nia). destruct (_ || _); lia.
Qed.

Lemma as_secs_mag d a : 1 ≤ a ≤ 60 → 0 ≤ d ≤ 2 ^ a * 10 ^ 9 → mag (a + 1) (Floats.as_secs_f64 d) ∧ signed false (Floats.as_secs_f64 d).
Proof.
  intros Ha Hd. unfold Floats.as_secs_f64, Floats.as_secs. change (SFadd 53 1024) with Floats.add_f64. change (SFdiv 53 1024) with Floats.div_f64.
  change (Floats.of_int 53 1024) with Floats.of_f64.
  destruct (of_int_mag (d / 10 ^ 9) a) as [H1 S1]; [|lia|].
  { split; [apply Z.div_pos; lia|]. apply Z.div_le_upper_bound; lia. }
  destruct (of_int_mag (d mod 10 ^ 9) 30) as [H2 S2]; [|lia|].
  { pose proof (Z.mod_pos_bound d (10 ^ 9) ltac:(lia)). lia. }
  assert (E : Floats.of_f64 (10 ^ 9) = S754_finite false 8388608000000000 (-23)) by by vm_compute. rewrite E.
  assert (Hy : mag 100 (S754_finite false 8388608000000000 (-23))) by by vm_compute.
  destruct (mag_div 100 1 _ false 8388608000000000 (-23) ltac:(lia) ltac:(lia) (mag_weaken 30 100 _ ltac:(lia) H2) S2 Hy) as [H3 S3]; [|done|].
  { pose proof (sval_mag 30 _ H2) as V2. assert (2 ^ (30 + scale) ≤ 2 ^ 1 * val 8388608000000000 (-23)) by by vm_compute. lia. }
  pose proof (sval_mag _ _ H1) as V1. pose proof (sval_mag _ _ H3) as V3. pose proof (sval_signed _ S1) as P1. pose proof (sval_signed _ S3) as P3.
  assert (Hp : 2 ^ (1 + scale) ≤ 2 ^ (a + scale)) by (apply Z.pow_le_mono_r; unfold scale; lia).
  assert (Hq : 2 ^ (a + 1 + scale) = 2 * 2 ^ (a + scale)) by (rewrite <- Z.pow_succ_r by (unfold scale; lia); f_equal; lia).
  apply (add_nonneg 900 (a + 1)); [lia|by eapply mag_weaken; [|exact H1]; lia|by eapply mag_weaken; [|exact H3]; lia|lia|done..].
Qed.

Lemma mul_duration_ok d x a b : 1 ≤ a ≤ 60 → 0 ≤ d ≤ 2 ^ a * 10 ^ 9 → mag b x → signed false x → 0 ≤ b + (a + 1) ≤ 63 →
  ∃ t, Floats.mul_duration 53 1024 d x = Some t ∧ 0 ≤ t ≤ 2 ^ (b + (a + 1)) * 10 ^ 9 + 1.
Proof.
  intros Ha Hd Hx Sx Hk. destruct (as_secs_mag d a Ha Hd) as [H1 S1].
  destruct (mag_mul b (a + 1) x (Floats.as_secs_f64 d) false false ltac:(lia) Hx H1 Sx S1) as [H2 S2].
  exact (from_secs_ok _ _ Hk H2 S2).
Qed.

(** ** Minimum and maximum *)

Lemma fmax_cases a b : Floats.fmax a b = a ∨ Floats.fmax a b = b.
Proof. unfold Floats.fmax. destruct (SFcompare a b) as [[]|], a; auto. Qed.

(** [x.min(8.0)] of a finite number. *)
Definition eight : spec_float := S754_finite false 4503599627370496 (-49).

Lemma compare_fold p q : Pos.compare_cont Eq p q = Pos.compare p q.
Proof. done. Qed.

Lemma fmin_eight k x : mag k x → signed false x → mag 3 (Floats.fmin x eight) ∧ signed false (Floats.fmin x eight).
Proof.
  intros Hm Hs. assert (H8 : mag 3 eight ∧ signed false eight) by by vm_compute.
  destruct x as [s| | |s m e]; simpl in Hs; subst; [split; reflexivity || exact I|done..|]. destruct Hm as (He & H53 & _). unfold Floats.fmin.
  cbn [SFcompare eight]. assert (Hval : ∀ c, val (Z.pos m) e ≤ 2 ^ (3 + scale) → c = S754_finite false m e → mag 3 c ∧ signed false c).
  { intros c Hv ->. split; [|reflexivity]. split; [exact He|]. split; [exact H53|exact Hv]. }
  assert (Hp : ∀ f, f ≤ -49 → -1074 ≤ f → 2 ^ (f + scale) * 2 ^ 52 ≤ 2 ^ (3 + scale)).
  { intros f Hf Hf'. rewrite <- pow_split by (unfold scale; lia). apply Z.pow_le_mono_r; unfold scale; lia. }
  destruct (Z.compare_spec e (-49)) as [->|Hlt|Hgt]; [| |exact H8].
  - rewrite compare_fold. destruct (Pos.compare_spec m 4503599627370496) as [->|Hm|Hm]; [exact H8| |exact H8]. apply Hval; [|reflexivity].
    clear H8 Hval. unfold val. pose proof (Hp (-49)) as Hp'.
    assert (H49 : -49 ≤ -49) by reflexivity.
    assert (H1074 : -1074 ≤ -49) by done.
    specialize (Hp' H49 H1074).
    assert (Hm' : Z.pos m ≤ 2 ^ 52) by exact (Z.lt_le_incl _ _ (Pos2Z.pos_lt_pos _ _ Hm)). clear Hm.
    revert Hp'. generalize (-49 + scale). intros x Hx. etrans; [|exact Hx]. rewrite Z.mul_comm. apply Z.mul_le_mono_nonneg_l; [apply Z.pow_nonneg; lia|exact Hm'].
  - apply Hval; [|reflexivity]. clear H8 Hval. unfold val. specialize (Hp (e + 1) ltac:(lia) ltac:(lia)).
    replace (e + 1 + scale) with (1 + (e + scale)) in Hp by lia. rewrite (pow_split 1) in Hp by (unfold scale; lia).
    etrans; [|exact Hp]. rewrite <- Z.mul_assoc, Z.mul_comm, (Z.mul_comm (2 ^ 1)), <- Z.mul_assoc.
    apply Z.mul_le_mono_nonneg_l; [apply Z.pow_nonneg; lia|]. change (2 ^ 52 * 2 ^ 1) with (2 ^ 53). lia.
Qed.

End FloatBounds.
