(* ===== verification/NatSecurity.v ===== *)
(** * Addresses, port prediction and the checks of NAT traversal

    Models the forms of a socket address of [src/shared.rs], the port predictor of
    [src/connection/port_prediction.rs], and of [src/connection/nat_traversal.rs] the security
    validation state ([SecurityValidationState]: rate windows, classification of addresses with
    its cache, the checks of a PUNCH_ME_NOW frame) and the coordinator that relays such frames
    between peers ([BootstrapCoordinator]).

    Instants and durations are nanoseconds.  The order in which a [HashMap] yields its keys is
    an argument of the operation that depends on it. *)

From Stdlib Require Import SpecFloat.
From stdpp Require Import gmap list countable sorting.
From S2P Require Import Prelude Coding NatFrames Floats.

(** ** Addresses *)

Module Net.
Import NatFrames.

Inductive IpAddr :=
| IpV4 (octets : list Z)
| IpV6 (octets : list Z).

#[global] Instance ip_addr_eq_dec : EqDecision IpAddr.
Proof. solve_decision. Defined.

#[global] Instance ip_addr_countable : Countable IpAddr.
Proof.
  refine (inj_countable' (λ a, match a with IpV4 o => inl o | IpV6 o => inr o end)
    (λ x, match x with inl o => IpV4 o | inr o => IpV6 o end) _).
  by intros [].
Defined.

Definition ip (a : SocketAddr) : IpAddr := match a with V4 o _ => IpV4 o | V6 o _ _ _ => IpV6 o end.
Definition port (a : SocketAddr) : Z := match a with V4 _ p => p | V6 _ p _ _ => p end.

(** [SocketAddr::new]. *)
Definition socket_addr_new (i : IpAddr) (p : Z) : SocketAddr :=
  match i with IpV4 o => V4 o p | IpV6 o => V6 o p 0 0 end.

Definition octet (o : list Z) (i : nat) : Z := nth i o 0.
Definition segment (o : list Z) (i : nat) : Z := octet o (2 * i) * 256 + octet o (2 * i + 1).

(** [Ipv4Addr]'s predicates; [is_private] is with the ADD_ADDRESS frame. *)
Definition v4_is_unspecified (o : list Z) : bool := bool_decide (o = [0; 0; 0; 0]).
Definition v4_is_broadcast (o : list Z) : bool := bool_decide (o = [255; 255; 255; 255]).
Definition v4_is_loopback (o : list Z) : bool := octet o 0 =? 127.
Definition v4_is_multicast (o : list Z) : bool := (224 <=? octet o 0) && (octet o 0 <=? 239).
Definition v4_is_documentation (o : list Z) : bool :=
  ((octet o 0 =? 192) && (octet o 1 =? 0) && (octet o 2 =? 2))
  || ((octet o 0 =? 198) && (octet o 1 =? 51) && (octet o 2 =? 100))
  || ((octet o 0 =? 203) && (octet o 1 =? 0) && (octet o 2 =? 113)).

(** [Ipv6Addr]'s predicates. *)
Definition v6_is_unspecified (o : list Z) : bool := bool_decide (o = replicate 16 0).
Definition v6_is_multicast (o : list Z) : bool := octet o 0 =? 255.

Definition ip_is_loopback (i : IpAddr) : bool :=
  match i with IpV4 o => v4_is_loopback o | IpV6 o => v6_is_loopback o end.
Definition ip_is_unspecified (i : IpAddr) : bool :=
  match i with IpV4 o => v4_is_unspecified o | IpV6 o => v6_is_unspecified o end.

(** [Ipv6Addr::to_ipv4_mapped], [Ipv4Addr::to_ipv6_mapped]. *)
Definition mapped_prefix : list Z := replicate 10 0 ++ [255; 255].
Definition to_ipv4_mapped (o : list Z) : option (list Z) :=
  if bool_decide (take 12 o = mapped_prefix) then Some (drop 12 o) else None.
Definition to_ipv6_mapped (o : list Z) : list Z := mapped_prefix ++ o.

Definition normalize_socket_addr (addr : SocketAddr) : SocketAddr :=
  match addr with
  | V6 o p _ _ => match to_ipv4_mapped o with Some o4 => V4 o4 p | None => addr end
  | V4 _ _ => addr
  end.

Definition dual_stack_alternate (addr : SocketAddr) : option SocketAddr :=
  match addr with
  | V4 o p => Some (V6 (to_ipv6_mapped o) p 0 0)
  | V6 o p _ _ => o4 ← to_ipv4_mapped o; Some (V4 o4 p)
  end.

Definition socket_addr_variants (addr : SocketAddr) : list SocketAddr :=
  let normalized := normalize_socket_addr addr in
  let variants := normalized :: (if decide (addr = normalized) then [] else [addr]) in
  match dual_stack_alternate normalized with
  | Some alt => if decide (alt ∈ variants) then variants else variants ++ [alt]
  | None => variants
  end.

Definition wire_id_from_addr (addr : SocketAddr) : list Z :=
  match normalize_socket_addr addr with
  | V4 o p => (4 :: o ++ be_encode 2 p) ++ replicate 25 0
  | V6 o p _ _ => (6 :: o ++ be_encode 2 p) ++ replicate 13 0
  end.

Lemma port_normalize a : port (normalize_socket_addr a) = port a.
Proof. destruct a; [done|]. simpl. by destruct (to_ipv4_mapped _). Qed.

Lemma normalize_ok a : addr_ok a → addr_ok (normalize_socket_addr a).
Proof.
  destruct a as [|o p f s]; [done|]. simpl. unfold to_ipv4_mapped. intros (Hl & Hb & Hp & Hr).
  destruct (bool_decide _); [|done]. split_and!; [|by apply Forall_drop|done]. rewrite length_drop. lia.
Qed.

(** All forms of an address have the identifier of the address. *)
Lemma wire_id_variants a b : addr_ok a → b ∈ socket_addr_variants a → wire_id_from_addr b = wire_id_from_addr a.
Proof.
  intros Ha%normalize_ok Hb. unfold wire_id_from_addr. f_equal. assert (Hn : normalize_socket_addr b = normalize_socket_addr a); [|by rewrite Hn].
  assert (Hidem : normalize_socket_addr (normalize_socket_addr a) = normalize_socket_addr a).
  { destruct a as [|o p f s]; [done|]. simpl. destruct (to_ipv4_mapped o) eqn:E; [done|]. simpl. by rewrite E. }
  assert (Hv : b = normalize_socket_addr a ∨ b = a ∨ dual_stack_alternate (normalize_socket_addr a) = Some b).
  { unfold socket_addr_variants in Hb. destruct (dual_stack_alternate _) as [alt|]; repeat destruct (decide _); set_solver. }
  destruct Hv as [->|[->|Hd]]; [done..|]. rewrite <- Hidem. destruct (normalize_socket_addr a) as [o p|o p f s] eqn:E; simpl in *.
  - by simplify_eq.
  - by destruct (to_ipv4_mapped o) eqn:E2; simplify_eq/=.
Qed.

(** The identifier tells addresses apart by address and port. *)
Lemma wire_id_injective a b : addr_ok a → addr_ok b → wire_id_from_addr a = wire_id_from_addr b →
  ip (normalize_socket_addr a) = ip (normalize_socket_addr b) ∧ port a = port b.
Proof.
  rewrite <- (port_normalize a), <- (port_normalize b). intros Ha%normalize_ok Hb%normalize_ok. unfold wire_id_from_addr.
  assert (Hport : ∀ p q, is_u 16 p → is_u 16 q → be_encode 2 p = be_encode 2 q → p = q).
  { intros p q Hp Hq E. by rewrite <- (be_decode_encode 2 p), <- (be_decode_encode 2 q), E. }
  destruct (normalize_socket_addr a), (normalize_socket_addr b); intros H; injection H as H; try done.
  - destruct Ha as (H1 & _ & H2), Hb as (H3 & _ & H4). rewrite <- !app_assoc in H. apply app_inj_1 in H as [-> H]; [|congruence].
    apply app_inj_1 in H as [H _]; [|done]. simpl. by rewrite (Hport _ _ H2 H4 H).
  - destruct Ha as (H1 & _ & H2 & _), Hb as (H3 & _ & H4 & _). rewrite <- !app_assoc in H. apply app_inj_1 in H as [-> H]; [|congruence].
    apply app_inj_1 in H as [H _]; [|done]. simpl. by rewrite (Hport _ _ H2 H4 H).
Qed.

End Net.

(** ** Queues and sorting *)

(** [while let Some(x) = q.front() { if f(x) { q.pop_front(); } else { break; } }] *)
Fixpoint pop_while {A} (f : A → bool) (q : list A) : list A :=
  match q with
  | [] => []
  | x :: q' => if f x then pop_while f q' else q
  end.

(** [slice::sort_by_key], which is stable. *)
Fixpoint insert_by_key {A} (key : A → Z) (x : A) (l : list A) : list A :=
  match l with
  | [] => [x]
  | y :: l' => if key x <=? key y then x :: l else y :: insert_by_key key x l'
  end.
Definition sort_by_key {A} (key : A → Z) (l : list A) : list A := foldr (insert_by_key key) [] l.

(** [Instant::duration_since]: zero for an instant that is later. *)
Definition duration_since (now t : Z) : Z := Z.max 0 (now - t).

Definition from_millis (n : Z) : Z := n * 10 ^ 6.
Definition from_secs (n : Z) : Z := n * 10 ^ 9.

(** ** Port prediction *)

Module PortPrediction.
Import NatFrames Net.

Record PortPredictorConfig := mk_config {
  max_samples : Z;
  sample_ttl : Z;
  min_samples_for_prediction : Z;
  max_prediction_attempts : Z;
}.

Definition default_config : PortPredictorConfig := mk_config 10 (from_secs 60) 2 3.

Record PortObservation := mk_observation { po_port : Z; observed_at : Z }.

Record PortPredictor := mk_predictor {
  config : PortPredictorConfig;
  history : gmap IpAddr (list PortObservation);
}.
#[global] Instance predictor_settable : Settable PortPredictor := λ p, mk_predictor (config p) (history p).

Definition new (config : PortPredictorConfig) : PortPredictor := mk_predictor config ∅.

Definition record_observation (addr : SocketAddr) (now : Z) (p : PortPredictor) : PortPredictor :=
  let entry := default [] (history p !! ip addr) in
  let entry := pop_while (λ obs, duration_since now (observed_at obs) >? sample_ttl (config p)) entry in
  let entry :=
    if existsb (λ obs, po_port obs =? port addr) entry then entry
    else
      let entry := entry ++ [mk_observation (port addr) now] in
      if zlen entry >? max_samples (config p) then tail entry else entry in
  p <| history := <[ip addr := entry]> (history p) |>.

Definition predict_ports (i : IpAddr) (p : PortPredictor) : list Z :=
  match history p !! i with
  | None => []
  | Some samples =>
    if zlen samples <? min_samples_for_prediction (config p) then []
    else
      match rev (sort_by_key observed_at samples) with
      | last :: prev :: _ =>
        let delta := wrapping_sub 16 (po_port last) (po_port prev) in
        let next_1 := wrapping_add 16 (po_port last) delta in
        let next_2 := wrapping_add 16 next_1 delta in
        [next_1; next_2]
      | _ => []
      end
  end.

Definition clear (i : IpAddr) (p : PortPredictor) : PortPredictor := p <| history := delete i (history p) |>.

End PortPrediction.

(** ** Security validation *)

Module Security.
Import NatFrames Net.

Inductive AddressValidationResult := Valid | Invalid | Suspicious.
#[global] Instance validation_result_eq_dec : EqDecision AddressValidationResult.
Proof. solve_decision. Defined.

Inductive NatTraversalError :=
| TooManyCandidates
| DuplicateAddress
| UnknownCandidate
| InvalidCandidateState
| NoActiveValidation
| ChallengeMismatch
| NoActiveCoordination
| SecurityValidationFailed
| RateLimitExceeded
| InvalidAddress
| SuspiciousCoordination
| ResourceLimitExceeded.
#[global] Instance nat_error_eq_dec : EqDecision NatTraversalError.
Proof. solve_decision. Defined.

(** A [CoordinationRequest] is its timestamp. *)
Record SecurityValidationState := mk_security {
  candidate_rate_tracker : list Z;
  max_candidates_per_window : Z;
  rate_window : Z;
  coordination_requests : list Z;
  max_coordination_per_window : Z;
  address_validation_cache : gmap SocketAddr AddressValidationResult;
  validation_cache_timeout : Z;
  allow_loopback : bool;
}.
#[global] Instance security_settable : Settable SecurityValidationState := λ s,
  mk_security (candidate_rate_tracker s) (max_candidates_per_window s) (rate_window s) (coordination_requests s)
    (max_coordination_per_window s) (address_validation_cache s) (validation_cache_timeout s) (allow_loopback s).

Definition new (allow_loopback : bool) : SecurityValidationState :=
  mk_security [] 20 (from_secs 60) [] 300 ∅ (from_secs 300) allow_loopback.

Definition new_with_limits (max_candidates max_coordination window : Z) (allow_loopback : bool) : SecurityValidationState :=
  mk_security [] max_candidates window [] max_coordination ∅ (from_secs 300) allow_loopback.

(** *** Rate windows *)

Definition cleanup_rate_tracker (now : Z) (s : SecurityValidationState) : SecurityValidationState :=
  let cutoff := now - rate_window s in
  s <| candidate_rate_tracker := pop_while (λ t, t <? cutoff) (candidate_rate_tracker s) |>.

Definition cleanup_coordination_tracker (now : Z) (s : SecurityValidationState) : SecurityValidationState :=
  let cutoff := now - rate_window s in
  s <| coordination_requests := pop_while (λ t, t <? cutoff) (coordination_requests s) |>.

Definition is_candidate_rate_limited (now : Z) (s : SecurityValidationState) : SecurityValidationState * bool :=
  let s := cleanup_rate_tracker now s in
  if max_candidates_per_window s <=? zlen (candidate_rate_tracker s) then (s, true)
  else (s <| candidate_rate_tracker := candidate_rate_tracker s ++ [now] |>, false).

Definition is_coordination_rate_limited (now : Z) (s : SecurityValidationState) : SecurityValidationState * bool :=
  let s := cleanup_coordination_tracker now s in
  if max_coordination_per_window s <=? zlen (coordination_requests s) then (s, true)
  else (s <| coordination_requests := coordination_requests s ++ [now] |>, false).

Definition calculate_peer_reputation (peer_id : list Z) : spec_float := Floats.of_f64 1.

(** [x as u32] of an [f64]. *)
Definition to_u32 (x : spec_float) : Z := Z.min (u_max 32) (Floats.to_u64 x).

Definition is_adaptive_rate_limited (peer_id : list Z) (now : Z) (s : SecurityValidationState)
    : SecurityValidationState * bool :=
  let s := cleanup_rate_tracker now s in
  let s := cleanup_coordination_tracker now s in
  let peer_reputation := calculate_peer_reputation peer_id in
  let adaptive_candidate_limit := to_u32 (Floats.mul_f64 (Floats.of_f64 (max_candidates_per_window s)) peer_reputation) in
  let adaptive_coordination_limit := to_u32 (Floats.mul_f64 (Floats.of_f64 (max_coordination_per_window s)) peer_reputation) in
  if adaptive_candidate_limit <=? zlen (candidate_rate_tracker s) then (s, true)
  else if adaptive_coordination_limit <=? zlen (coordination_requests s) then (s, true)
  else (s, false).

(** *** Classification of addresses *)

Definition is_suspicious_ipv4 (o : list Z) : bool :=
  (octet o 0 =? octet o 1) && (octet o 1 =? octet o 2) && (octet o 2 =? octet o 3).

Definition is_suspicious_ipv6 (o : list Z) : bool :=
  forallb (λ i, segment o i =? segment o 0) (seq 0 8).

Definition perform_ip_validation (allow_loopback : bool) (i : IpAddr) : AddressValidationResult :=
  match i with
  | IpV4 o =>
    if v4_is_unspecified o || v4_is_broadcast o then Invalid
    else if v4_is_loopback o && negb allow_loopback then Invalid
    else if v4_is_multicast o || v4_is_documentation o then Suspicious
    else if (octet o 0 =? 0) || (negb allow_loopback && (octet o 0 =? 127)) then Invalid
    else if is_suspicious_ipv4 o then Suspicious
    else Valid
  | IpV6 o =>
    if v6_is_unspecified o || v6_is_multicast o then Invalid
    else if v6_is_loopback o && negb allow_loopback then Invalid
    else if is_suspicious_ipv6 o then Suspicious
    else Valid
  end.

Definition perform_address_validation (allow_loopback : bool) (addr : SocketAddr) : AddressValidationResult :=
  match perform_ip_validation allow_loopback (ip addr) with
  | Valid => if (port addr =? 0) || (port addr <? 1024) then Suspicious else Valid
  | r => r
  end.

(** [keys] is the order in which the cache yields its keys. *)
Definition cleanup_address_cache (keys : list SocketAddr) (s : SecurityValidationState) : SecurityValidationState :=
  let len := Z.of_nat (base.size (address_validation_cache s)) in
  if len >? 500 then
    s <| address_validation_cache := foldl (λ m k, delete k m) (address_validation_cache s) (ztake (len / 2) keys) |>
  else s.

Definition validate_address (keys : gmap SocketAddr AddressValidationResult → list SocketAddr) (addr : SocketAddr)
    (s : SecurityValidationState) : SecurityValidationState * AddressValidationResult :=
  match address_validation_cache s !! addr with
  | Some cached_result => (s, cached_result)
  | None =>
    let result := perform_address_validation (allow_loopback s) addr in
    let s := s <| address_validation_cache := <[addr := result]> (address_validation_cache s) |> in
    let s :=
      if Z.of_nat (base.size (address_validation_cache s)) >? 1000 then
        cleanup_address_cache (keys (address_validation_cache s)) s
      else s in
    (s, result)
  end.

(** *** Amplification and patterns *)

Definition is_amplification_suspicious (key : SocketAddr * SocketAddr) (now : Z) : bool := false.

Definition validate_amplification_limits (source_addr target_addr : SocketAddr) (now : Z) : result unit NatTraversalError :=
  if is_amplification_suspicious (source_addr, target_addr) now then Err SuspiciousCoordination else Ok tt.

Definition is_address_in_suspicious_range (allow_loopback : bool) (addr : SocketAddr) : bool :=
  match ip addr with
  | IpV4 o =>
    if (octet o 0 =? 0) || (negb allow_loopback && (octet o 0 =? 127)) then true
    else if (octet o 0 =? 192) && (octet o 1 =? 0) && (octet o 2 =? 2) then true
    else if (octet o 0 =? 198) && (octet o 1 =? 51) && (octet o 2 =? 100) then true
    else if (octet o 0 =? 203) && (octet o 1 =? 0) && (octet o 2 =? 113) then true
    else false
  | IpV6 o =>
    if v6_is_unspecified o || (negb allow_loopback && v6_is_loopback o) then true
    else if (segment o 0 =? 0x2001) && (segment o 1 =? 0x0db8) then true
    else false
  end.

Definition is_coordination_pattern_suspicious (source_addr target_addr : SocketAddr) (now : Z) : bool := false.

Definition enhanced_address_validation (keys : gmap SocketAddr AddressValidationResult → list SocketAddr)
    (addr source_addr : SocketAddr) (now : Z) (s : SecurityValidationState)
    : SecurityValidationState * result AddressValidationResult NatTraversalError :=
  let (s, basic_result) := validate_address keys addr s in
  match basic_result with
  | Invalid => (s, Err InvalidAddress)
  | Suspicious => (s, Err SuspiciousCoordination)
  | Valid =>
    match validate_amplification_limits source_addr addr now with
    | Err e => (s, Err e)
    | Ok _ =>
      if is_address_in_suspicious_range (allow_loopback s) addr then (s, Err SuspiciousCoordination)
      else if is_coordination_pattern_suspicious source_addr addr now then (s, Err SuspiciousCoordination)
      else (s, Ok Valid)
    end
  end.

(** *** PUNCH_ME_NOW *)

Definition are_in_same_private_network_v4 (o1 o2 : list Z) : bool :=
  if (octet o1 0 =? 10) && (octet o2 0 =? 10) then true
  else if (octet o1 0 =? 172) && (octet o2 0 =? 172) && ((16 <=? octet o1 1) && (octet o1 1 <=? 31))
    && ((16 <=? octet o2 1) && (octet o2 1 <=? 31)) then true
  else (octet o1 0 =? 192) && (octet o1 1 =? 168) && (octet o2 0 =? 192) && (octet o2 1 =? 168).

Definition are_in_same_prefix_v6 (o1 o2 : list Z) : bool :=
  (segment o1 0 =? segment o2 0) && (segment o1 1 =? segment o2 1)
  && (segment o1 2 =? segment o2 2) && (segment o1 3 =? segment o2 3).

Definition validate_address_consistency (claimed_addr observed_addr : SocketAddr) : bool :=
  match ip (normalize_socket_addr claimed_addr), ip (normalize_socket_addr observed_addr) with
  | IpV4 claimed, IpV4 observed =>
    if decide (claimed = observed) then true
    else if are_in_same_private_network_v4 claimed observed then true
    else negb (v4_is_private claimed) && negb (v4_is_private observed)
  | IpV6 claimed, IpV6 observed => bool_decide (claimed = observed) || are_in_same_prefix_v6 claimed observed
  | _, _ => false
  end.

Definition validate_coordination_parameters (frame : PunchMeNow) : bool :=
  if round frame >? 1000000 then false
  else if paired_with_sequence_number frame >? 10000 then false
  else
    match ip (pm_address frame) with
    | IpV4 o => negb (v4_is_unspecified o) && negb (v4_is_broadcast o) && negb (v4_is_multicast o)
    | IpV6 o => negb (v6_is_unspecified o) && negb (v6_is_multicast o)
    end.

Definition validate_target_peer_request (requesting_peer target_peer : list Z) : bool :=
  if decide (requesting_peer = target_peer) then false else true.

Definition validate_resource_limits (s : SecurityValidationState) : bool :=
  zlen (coordination_requests s) <? max_coordination_per_window s.

Definition validate_punch_me_now_frame (keys : gmap SocketAddr AddressValidationResult → list SocketAddr)
    (frame : PunchMeNow) (source_addr : SocketAddr) (peer_id : list Z) (now : Z) (s : SecurityValidationState)
    : SecurityValidationState * result unit NatTraversalError :=
  let (s, limited) := is_coordination_rate_limited now s in
  if limited then (s, Err RateLimitExceeded)
  else
    let (s, addr_validation) := validate_address keys (pm_address frame) s in
    match addr_validation with
    | Invalid => (s, Err InvalidAddress)
    | Suspicious => (s, Err SuspiciousCoordination)
    | Valid =>
      if negb (validate_address_consistency (pm_address frame) source_addr) then (s, Err SuspiciousCoordination)
      else if negb (validate_coordination_parameters frame) then (s, Err SuspiciousCoordination)
      else if match target_peer_id frame with
              | Some target_peer_id => negb (validate_target_peer_request peer_id target_peer_id)
              | None => false
              end then (s, Err SuspiciousCoordination)
      else if negb (validate_resource_limits s) then (s, Err ResourceLimitExceeded)
      else (s, Ok tt)
    end.

End Security.

(** ** The coordinator *)

Module Bootstrap.
Import NatFrames Net Security.

Record CoordinationEntry := mk_entry { peer_b : option (list Z); address_hint : SocketAddr }.
#[global] Instance entry_settable : Settable CoordinationEntry := λ e, mk_entry (peer_b e) (address_hint e).

Record AddressObservation := mk_address_observation {
  ao_address : SocketAddr;
  first_observed : Z;
  observation_count : Z;
  validation_state : AddressValidationResult;
  associated_peers : list (list Z);
}.
#[global] Instance address_observation_settable : Settable AddressObservation := λ o,
  mk_address_observation (ao_address o) (first_observed o) (observation_count o) (validation_state o) (associated_peers o).

Record BootstrapStats := mk_bootstrap_stats {
  total_observations : Z;
  total_coordinations : Z;
  successful_coordinations : Z;
  security_rejections : Z;
}.
#[global] Instance bootstrap_stats_settable : Settable BootstrapStats := λ s,
  mk_bootstrap_stats (total_observations s) (total_coordinations s) (successful_coordinations s) (security_rejections s).

(** An [ObservedPeer] is its address. *)
Record BootstrapCoordinator := mk_coordinator {
  address_observations : gmap SocketAddr AddressObservation;
  peer_index : gmap (list Z) SocketAddr;
  coordination_table : gmap Z CoordinationEntry;
  security_validator : SecurityValidationState;
  stats : BootstrapStats;
}.
#[global] Instance coordinator_settable : Settable BootstrapCoordinator := λ b,
  mk_coordinator (address_observations b) (peer_index b) (coordination_table b) (security_validator b) (stats b).

Definition new (allow_loopback : bool) : BootstrapCoordinator :=
  mk_coordinator ∅ ∅ ∅ (Security.new allow_loopback) (mk_bootstrap_stats 0 0 0 0).

Definition reject (b : BootstrapCoordinator) : BootstrapCoordinator :=
  b <| stats := (stats b) <| security_rejections := wrapping_add 64 (security_rejections (stats b)) 1 |> |>.

Section operations.
Context (keys : gmap SocketAddr AddressValidationResult → list SocketAddr).

Definition observe_peer_address (peer_id : list Z) (observed_address : SocketAddr) (now : Z) (b : BootstrapCoordinator)
    : BootstrapCoordinator * result unit NatTraversalError :=
  let (v, r) := validate_address keys observed_address (security_validator b) in
  let b := b <| security_validator := v |> in
  match r with
  | Invalid => (reject b, Err InvalidAddress)
  | Suspicious => (reject b, Err SecurityValidationFailed)
  | Valid =>
    let (v, limited) := is_candidate_rate_limited now (security_validator b) in
    let b := b <| security_validator := v |> in
    if limited then (reject b, Err RateLimitExceeded)
    else
      let observation :=
        default (mk_address_observation observed_address now 0 Valid []) (address_observations b !! observed_address) in
      let observation := observation <| observation_count := wrapping_add 32 (observation_count observation) 1 |> in
      let observation :=
        if decide (peer_id ∈ associated_peers observation) then observation
        else observation <| associated_peers := associated_peers observation ++ [peer_id] |> in
      (b <| address_observations := <[observed_address := observation]> (address_observations b) |>
         <| peer_index := <[peer_id := observed_address]> (peer_index b) |>
         <| stats := (stats b) <| total_observations := wrapping_add 64 (total_observations (stats b)) 1 |> |>, Ok tt)
  end.

Definition generate_add_address_frame (peer_id : list Z) (sequence priority : Z) (b : BootstrapCoordinator)
    : option AddAddress :=
  addr ← peer_index b !! peer_id; Some (mk_add_address sequence addr priority).

Definition process_punch_me_now_frame (from_peer : list Z) (source_addr : SocketAddr) (frame : PunchMeNow) (now : Z)
    (b : BootstrapCoordinator) : BootstrapCoordinator * result (option PunchMeNow) NatTraversalError :=
  let (v, limited) := is_adaptive_rate_limited from_peer now (security_validator b) in
  let b := b <| security_validator := v |> in
  if limited then (reject b, Err RateLimitExceeded)
  else
    let (v, r) := enhanced_address_validation keys (pm_address frame) source_addr now (security_validator b) in
    let b := b <| security_validator := v |> in
    match r with
    | Err e => (reject b, Err e)
    | Ok _ =>
      let (v, r) := validate_punch_me_now_frame keys frame source_addr from_peer now (security_validator b) in
      let b := b <| security_validator := v |> in
      match r with
      | Err e => (reject b, Err e)
      | Ok _ =>
        let entry :=
          default (mk_entry (target_peer_id frame) (pm_address frame)) (coordination_table b !! round frame) in
        let entry :=
          match target_peer_id frame with
          | Some peer =>
            (match peer_b entry with None => entry <| peer_b := Some peer |> | Some _ => entry end)
              <| address_hint := pm_address frame |>
          | None => entry
          end in
        let b := b <| coordination_table := <[round frame := entry]> (coordination_table b) |> in
        match target_peer_id frame with
        | Some _ =>
          let coordination_frame :=
            mk_punch_me_now (round frame) (paired_with_sequence_number frame) (pm_address frame) (Some from_peer) in
          (b <| stats := (stats b) <| total_coordinations := wrapping_add 64 (total_coordinations (stats b)) 1 |> |>,
            Ok (Some coordination_frame))
        | None =>
          (b <| stats := (stats b) <| successful_coordinations := wrapping_add 64 (successful_coordinations (stats b)) 1 |> |>,
            Ok None)
        end
      end
    end.

End operations.
End Bootstrap.

(** ** Proofs *)

(** *** Sliding windows

    A queue of instants from which those older than the window are popped and to which an
    instant is added only below the limit: of all that were ever added ([log]), no interval as
    long as the window holds more than the limit. *)

Section window.
Context (max w : Z).

Definition within (t : Z) (x : Z) : Prop := t ≤ x ≤ t + w.
#[global] Instance within_dec t x : Decision (within t x).
Proof. unfold within. apply _. Defined.

Definition window_ok (last : Z) (log q : list Z) : Prop :=
  (∃ old, log = old ++ q ∧ Forall (λ x, x < last - w) old)
  ∧ Forall (λ x, x ≤ last) log ∧ zlen q ≤ max ∧ ∀ t, zlen (filter (within t) log) ≤ max.

Lemma window_nil last : 0 ≤ max → window_ok last [] [].
Proof. intros ?. split; [by exists [] |]. by repeat split. Qed.

Lemma pop_while_split {A} (f : A → bool) q : ∃ old, q = old ++ pop_while f q ∧ Forall (λ x, f x = true) old.
Proof.
  induction q as [|x q IH]; simpl; [by exists [] |]. destruct (f x) eqn:E.
  - destruct IH as (old & Hq & Ho). exists (x :: old). simpl. rewrite <- Hq. auto.
  - by exists [].
Qed.

Lemma window_pop last now log q : last ≤ now → window_ok last log q →
  window_ok now log (pop_while (λ t, t <? now - w) q).
Proof.
  intros Hn ((old & -> & Ho) & Hl & Hm & Hw).
  destruct (pop_while_split (λ t, t <? now - w) q) as (old' & Hq & Ho'). split_and!; [| |rewrite Hq, zlen_app in Hm; pose proof (zlen_nonneg old'); lia|done].
  - exists (old ++ old'). rewrite <- app_assoc, <- Hq. split; [done|]. apply Forall_app. split.
    + eapply Forall_impl; [done|]. simpl. lia.
    + eapply Forall_impl; [done|]. simpl. lia.
  - eapply Forall_impl; [done|]. simpl. lia.
Qed.

Lemma zlen_filter_le {A} (P : A → Prop) `{∀ x, Decision (P x)} l : zlen (filter P l) ≤ zlen l.
Proof. unfold zlen. pose proof (length_filter P l). lia. Qed.

Lemma filter_none {A} (P : A → Prop) `{∀ x, Decision (P x)} l : Forall (λ x, ¬ P x) l → filter P l = [].
Proof. induction 1; [done|]. by rewrite filter_cons_False. Qed.

Lemma window_recent last log q t : window_ok last log q → within t last → zlen (filter (within t) log) ≤ zlen q.
Proof.
  intros ((old & -> & Ho) & _) Hin. rewrite filter_app, (filter_none _ old), app_nil_l; [apply zlen_filter_le|].
  eapply Forall_impl; [done|]. unfold within in *. simpl. lia.
Qed.

Lemma window_push now log q : zlen q < max → window_ok now log q → window_ok now (log ++ [now]) (q ++ [now]).
Proof.
  intros Hlt ((old & -> & Ho) & Hl & Hm & Hw). split_and!.
  - exists old. by rewrite app_assoc.
  - apply Forall_app. split; [done|]. apply Forall_singleton. lia.
  - rewrite zlen_app. change (zlen [now]) with 1. lia.
  - intros t. rewrite filter_app, filter_cons, filter_nil. destruct (decide (within t now)) as [Hin|].
    + rewrite filter_app, (filter_none _ old), app_nil_l.
      * rewrite zlen_app. change (zlen [now]) with 1. pose proof (zlen_filter_le (within t) q). lia.
      * eapply Forall_impl; [done|]. unfold within in *. simpl. lia.
    + by rewrite app_nil_r.
Qed.

End window.

Module SecurityProofs.
Import NatFrames Net Security.

Definition keys_ok (keys : gmap SocketAddr AddressValidationResult → list SocketAddr) : Prop :=
  ∀ m, keys m ≡ₚ (map_to_list m).*1.

(** The cache answers as the classification does, and is bounded. *)
Definition cache_ok (s : SecurityValidationState) : Prop :=
  map_Forall (λ a r, r = perform_address_validation (allow_loopback s) a) (address_validation_cache s)
  ∧ Z.of_nat (base.size (address_validation_cache s)) ≤ 1000.

Lemma foldl_delete_lookup (ks : list SocketAddr) (m : gmap SocketAddr AddressValidationResult) a r :
  foldl (λ m k, delete k m) m ks !! a = Some r → m !! a = Some r.
Proof.
  revert m. induction ks as [|k ks IH]; intros m H; [done|]. apply IH in H. by apply lookup_delete_Some in H as [_ ?].
Qed.

Lemma size_foldl_delete (ks : list SocketAddr) (m : gmap SocketAddr AddressValidationResult) :
  NoDup ks → (∀ k, k ∈ ks → is_Some (m !! k)) → base.size (foldl (λ m k, delete k m) m ks) = (base.size m - length ks)%nat.
Proof.
  revert m. induction ks as [|k ks IH]; intros m Hnd Hin; simpl; [lia|]. apply NoDup_cons in Hnd as [Hk Hnd]. rewrite IH; [|done|].
  - rewrite map_size_delete. destruct (Hin k) as [r ->]; [by left|]. simpl. lia.
  - intros k' Hk'. rewrite lookup_delete_ne; [apply Hin; by right|]. set_solver.
Qed.

Lemma cleanup_size keys s : keys_ok keys →
  Z.of_nat (base.size (address_validation_cache (cleanup_address_cache (keys (address_validation_cache s)) s)))
    ≤ Z.max 500 ((Z.of_nat (base.size (address_validation_cache s)) + 1) / 2).
Proof.
  intros Hk. unfold cleanup_address_cache. set (m := address_validation_cache s). destruct (Z.gtb_spec (Z.of_nat (base.size m)) 500); simpl; [|fold m; lia].
  assert (Hp := Hk m). assert (Hl : length (keys m) = base.size m) by by rewrite Hp, length_fmap, length_map_to_list.
  rewrite size_foldl_delete; unfold ztake.
  - rewrite length_take, Hl. revert H. generalize (base.size m). intros n Hn. pose proof (Z.div_mod (Z.of_nat n) 2).
    pose proof (Z.mod_pos_bound (Z.of_nat n) 2). pose proof (Z.div_mod (Z.of_nat n + 1) 2).
    pose proof (Z.mod_pos_bound (Z.of_nat n + 1) 2). lia.
  - eapply sublist_NoDup; [|apply sublist_take]. rewrite Hp. apply NoDup_fst_map_to_list.
  - intros k Hin. assert (k ∈ keys m) as Hin' by (eapply elem_of_sublist; [exact Hin|apply sublist_take]).
    rewrite Hp in Hin'. apply list_elem_of_fmap in Hin' as ([k' r] & -> & Hr). apply elem_of_map_to_list in Hr. by exists r.
Qed.

(** The cached classification is the classification. *)
Lemma validate_address_spec keys addr s : keys_ok keys → cache_ok s →
  (validate_address keys addr s).2 = perform_address_validation (allow_loopback s) addr
  ∧ cache_ok (validate_address keys addr s).1
  ∧ ∃ c, (validate_address keys addr s).1 = s <| address_validation_cache := c |>.
Proof.
  intros Hk [Hc Hs]. unfold validate_address. destruct (address_validation_cache s !! addr) as [r|] eqn:E.
  { split_and!; [exact (Hc _ _ E)|done|]. exists (address_validation_cache s). by destruct s. }
  set (s1 := s <| address_validation_cache := _ |>).
  assert (H1 : map_Forall (λ a r, r = perform_address_validation (allow_loopback s) a) (address_validation_cache s1))
    by by apply map_Forall_insert_2.
  assert (Hn : base.size (address_validation_cache s1) = S (base.size (address_validation_cache s)))
    by (simpl; by rewrite map_size_insert_None).
  destruct (Z.gtb_spec (Z.of_nat (base.size (address_validation_cache s1))) 1000); (split; [done|]).
  - pose proof (cleanup_size keys s1 Hk) as Hsz. rewrite Hn in Hsz.
    assert ((Z.of_nat (S (base.size (address_validation_cache s))) + 1) / 2 < 502) by (apply Z.div_lt_upper_bound; lia). split.
    + split; [|cbn [fst]; lia]. unfold cleanup_address_cache. destruct (_ >? 500); [|done]. intros a r Ha. eapply H1, foldl_delete_lookup, Ha.
    + unfold cleanup_address_cache. destruct (_ >? 500); eexists; reflexivity.
  - split; [|eexists; reflexivity]. by split.
Qed.

(** *** The coordinator's limits

    [plog] is every coordination request ever recorded. *)

Definition window : Z := from_secs 60.

Definition sec_ok (al : bool) (last : Z) (plog : list Z) (s : SecurityValidationState) : Prop :=
  cache_ok s ∧ allow_loopback s = al ∧ rate_window s = window ∧ max_coordination_per_window s = 300
  ∧ window_ok 300 window last plog (coordination_requests s).

Lemma new_sec_ok al last : sec_ok al last [] (new al).
Proof.
  repeat split; try done. by exists [].
Qed.

Lemma validate_address_sec keys addr al last plog s : keys_ok keys → sec_ok al last plog s →
  (validate_address keys addr s).2 = perform_address_validation al addr ∧ sec_ok al last plog (validate_address keys addr s).1.
Proof.
  intros Hk (Hc & <- & Hs). destruct (validate_address_spec keys addr s Hk Hc) as (Hr & Hc' & c & Es). split; [done|].
  rewrite Es in *. by split.
Qed.

Lemma candidate_limit_sec now al last plog s : sec_ok al last plog s → sec_ok al last plog (is_candidate_rate_limited now s).1.
Proof. unfold is_candidate_rate_limited. by destruct (_ <=? _). Qed.

Lemma cleanup_coordination_sec now al last plog s : last ≤ now → sec_ok al last plog s →
  sec_ok al now plog (cleanup_coordination_tracker now s).
Proof.
  intros Hn (Hc & Ha & Hw & Hm & Hq). split_and!; try done. unfold cleanup_coordination_tracker. simpl. rewrite Hw. by eapply window_pop.
Qed.

Lemma adaptive_limit_sec peer now al last plog s : last ≤ now → sec_ok al last plog s →
  sec_ok al now plog (is_adaptive_rate_limited peer now s).1.
Proof.
  intros Hn Hs. unfold is_adaptive_rate_limited.
  assert (H : sec_ok al now plog (cleanup_coordination_tracker now (cleanup_rate_tracker now s)))
    by by apply (cleanup_coordination_sec now al last).
  by destruct (_ <=? _); [|destruct (_ <=? _)].
Qed.

Lemma enhanced_sec keys addr source now al last plog s : keys_ok keys → sec_ok al last plog s →
  sec_ok al last plog (enhanced_address_validation keys addr source now s).1
  ∧ ∀ r, (enhanced_address_validation keys addr source now s).2 = Ok r → perform_address_validation al addr = Valid.
Proof.
  intros Hk Hs. unfold enhanced_address_validation. destruct (validate_address_sec keys addr al last plog s Hk Hs) as [Hr Hs'].
  destruct (validate_address keys addr s) as [s1 []]; simpl in *; [|by split..].
  destruct (is_address_in_suspicious_range _ _); by split.
Qed.

(** What a frame has satisfied when the coordinator accepts it. *)
Definition frame_checked (al : bool) (from : list Z) (source : SocketAddr) (f : PunchMeNow) : Prop :=
  perform_address_validation al (pm_address f) = Valid
  ∧ validate_address_consistency (pm_address f) source = true
  ∧ round f ≤ 1000000 ∧ paired_with_sequence_number f ≤ 10000
  ∧ ∀ p, target_peer_id f = Some p → from ≠ p.

Lemma validate_punch_sec keys f source from now al plog s : keys_ok keys → sec_ok al now plog s →
  (∃ plog', sec_ok al now plog' (validate_punch_me_now_frame keys f source from now s).1 ∧ (plog' = plog ∨ plog' = plog ++ [now]))
  ∧ ((validate_punch_me_now_frame keys f source from now s).2 = Ok tt →
       frame_checked al from source f ∧ sec_ok al now (plog ++ [now]) (validate_punch_me_now_frame keys f source from now s).1
       ∧ zlen (coordination_requests (validate_punch_me_now_frame keys f source from now s).1) < 300).
Proof.
  intros Hk Hs. unfold validate_punch_me_now_frame, is_coordination_rate_limited.
  assert (Hc := cleanup_coordination_sec now al now plog s (Z.le_refl _) Hs). set (s1 := cleanup_coordination_tracker now s) in *.
  destruct (Z.leb_spec (max_coordination_per_window s1) (zlen (coordination_requests s1))) as [|Hlt].
  { split; [by exists plog; auto|done]. }
  set (s2 := s1 <| coordination_requests := _ |>).
  assert (H2 : sec_ok al now (plog ++ [now]) s2).
  { destruct Hc as (H1 & Ha & Hw & Hm & Hq). split_and!; try done. apply window_push; [lia|done]. }
  destruct (validate_address_sec keys (pm_address f) al now (plog ++ [now]) s2 Hk H2) as [Hr H3].
  destruct (validate_address keys (pm_address f) s2) as [s3 []]; simpl in *; [|split; [by eauto|done]..].
  destruct (validate_address_consistency _ _) eqn:Ec; simpl; [|split; [by eauto|done]].
  destruct (validate_coordination_parameters f) eqn:Ep; simpl; [|split; [by eauto|done]].
  destruct (match target_peer_id f with Some p => _ | None => _ end) eqn:Et; simpl; [split; [by eauto|done]|].
  destruct (validate_resource_limits s3) eqn:El; simpl; (split; [by eauto|]); [|done].
  intros _. unfold validate_coordination_parameters in Ep. unfold validate_resource_limits in El.
  destruct (Z.gtb_spec (round f) 1000000); [done|]. destruct (Z.gtb_spec (paired_with_sequence_number f) 10000); [done|].
  split_and!; [|done|].
  - split_and!; try done. intros p Hp. rewrite Hp in Et. unfold validate_target_peer_request in Et. by destruct (decide (from = p)).
  - destruct H3 as (_ & _ & _ & H300 & _). apply Z.ltb_lt in El. lia.
Qed.

End SecurityProofs.

(** ** The coordinator over time *)

Module Coordinator.
Import NatFrames Net Security Bootstrap SecurityProofs.

Inductive Event :=
| Observe (peer : list Z) (addr : SocketAddr)
| Punch (from : list Z) (source : SocketAddr) (frame : PunchMeNow).

(** An event with its instant and the order of the cache's keys at it. *)
Record Occurrence := mk_occurrence {
  at_ : Z;
  cache_keys : gmap SocketAddr AddressValidationResult → list SocketAddr;
  event : Event;
}.

(** A frame that was relayed: when, from whom, as it came and as it went. *)
Record Relayed := mk_relayed {
  when : Z; sender : list Z; source : SocketAddr; incoming : PunchMeNow; outgoing : PunchMeNow
}.

Definition step (o : Occurrence) (b : BootstrapCoordinator) : BootstrapCoordinator * list Relayed :=
  match event o with
  | Observe peer addr => ((observe_peer_address (cache_keys o) peer addr (at_ o) b).1, [])
  | Punch from source frame =>
    let (b, r) := process_punch_me_now_frame (cache_keys o) from source frame (at_ o) b in
    (b, match r with Ok (Some f) => [mk_relayed (at_ o) from source frame f] | _ => [] end)
  end.

Fixpoint run (os : list Occurrence) (b : BootstrapCoordinator) : BootstrapCoordinator * list Relayed :=
  match os with
  | [] => (b, [])
  | o :: os =>
    let (b, r) := step o b in
    let (b, rs) := run os b in
    (b, r ++ rs)
  end.

(** Instants do not go backwards. *)
Fixpoint ordered (last : Z) (os : list Occurrence) : Prop :=
  match os with
  | [] => True
  | o :: os => last ≤ at_ o ∧ keys_ok (cache_keys o) ∧ ordered (at_ o) os
  end.

Definition relayed_ok (al : bool) (r : Relayed) : Prop :=
  frame_checked al (sender r) (source r) (incoming r)
  ∧ is_Some (target_peer_id (incoming r))
  ∧ outgoing r = mk_punch_me_now (round (incoming r)) (paired_with_sequence_number (incoming r))
                   (pm_address (incoming r)) (Some (sender r)).

Definition inv (al : bool) (last : Z) (plog : list Z) (b : BootstrapCoordinator) (log : list Relayed) : Prop :=
  sec_ok al last plog (security_validator b)
  ∧ Forall (relayed_ok al) log
  ∧ (when <$> log) `sublist_of` plog
  ∧ ∀ t, zlen (filter (within window t) (when <$> log)) ≤ 299.

Lemma sublist_filter {A} (P : A → Prop) `{∀ x, Decision (P x)} (l k : list A) :
  l `sublist_of` k → filter P l `sublist_of` filter P k.
Proof. induction 1; [done|..]; rewrite !filter_cons; destruct (decide _); auto using sublist. Qed.

Lemma observe_inv o al last plog b log peer addr : keys_ok (cache_keys o) → last ≤ at_ o → inv al last plog b log →
  sec_ok al last plog (security_validator (observe_peer_address (cache_keys o) peer addr (at_ o) b).1).
Proof.
  intros Hk Hn (Hs & _). unfold observe_peer_address.
  destruct (validate_address_sec (cache_keys o) addr al last plog _ Hk Hs) as [_ H1].
  destruct (validate_address _ _ _) as [v []]; simpl in *; try done.
  assert (H2 := candidate_limit_sec (at_ o) al last plog v H1). by destruct (is_candidate_rate_limited _ v) as [v2 []].
Qed.

(** A PUNCH_ME_NOW frame: either it is refused, or it is not to be relayed, or it has passed all
    checks, has been counted, and was not the last one the window has room for. *)
Lemma punch_inv keys now al last plog b from source frame : keys_ok keys → last ≤ now →
  sec_ok al last plog (security_validator b) →
  let '(b', r) := process_punch_me_now_frame keys from source frame now b in
  (∃ plog', sec_ok al now plog' (security_validator b') ∧ (plog' = plog ∨ plog' = plog ++ [now]))
  ∧ ∀ f, r = Ok (Some f) → relayed_ok al (mk_relayed now from source frame f)
      ∧ sec_ok al now (plog ++ [now]) (security_validator b') ∧ zlen (coordination_requests (security_validator b')) < 300.
Proof.
  intros Hk Hn Hs. unfold process_punch_me_now_frame.
  assert (H1 := adaptive_limit_sec from now al last plog _ Hn Hs).
  destruct (is_adaptive_rate_limited _ _ _) as [v1 []]; simpl in *; [split; [by eauto|done]|].
  destruct (enhanced_sec keys (pm_address frame) source now al now plog v1 Hk H1) as [H2 _].
  destruct (enhanced_address_validation _ _ _ _ _) as [v2 []]; simpl in *; [|split; [by eauto|done]].
  destruct (validate_punch_sec keys frame source from now al plog v2 Hk H2) as [H3 H4].
  destruct (validate_punch_me_now_frame _ _ _ _ _ _) as [v3 [[]|e]]; simpl in *; [|split; [done|done]].
  destruct (H4 eq_refl) as (Hf & Hs' & Hl). destruct (target_peer_id frame) as [p|] eqn:Ep; simpl; (split; [by eauto|]); [|done].
  intros f [= <-]. by split_and!.
Qed.

Lemma step_inv o al last plog b log : keys_ok (cache_keys o) → last ≤ at_ o → inv al last plog b log →
  ∃ plog', inv al (at_ o) plog' (step o b).1 (log ++ (step o b).2).
Proof.
  intros Hk Hn Hi. unfold step. destruct (event o) as [peer addr|from src frame] eqn:Eo; simpl.
  - exists plog. rewrite app_nil_r. destruct (observe_inv o al last plog b log peer addr Hk Hn Hi) as (H1 & H2 & H3 & H4 & Hw).
    destruct Hi as (_ & Hi). split; [|done]. split_and!; try done. destruct Hw as ((old & Hl & Ho) & Hf & Hm & Hw).
    split_and!; try done; [|eapply Forall_impl; [done|]; simpl; lia]. exists old. split; [done|]. eapply Forall_impl; [done|]. simpl. lia.
  - pose proof (punch_inv (cache_keys o) (at_ o) al last plog b from src frame Hk Hn (proj1 Hi)) as Hp.
    destruct (process_punch_me_now_frame _ _ _ _ _ _) as [b' r]. destruct Hp as [(plog' & Hs & Hpl) Hr]. destruct Hi as (_ & Ho & Hsub & Hc).
    assert (Hrest : inv al (at_ o) plog' b' log).
    { split_and!; try done. destruct Hpl as [->| ->]; [done|]. by apply sublist_inserts_r. }
    destruct r as [[f|]|e]; simpl; [|exists plog'; by rewrite app_nil_r..].
    destruct (Hr f eq_refl) as (Hok & Hs2 & Hlen). exists (plog ++ [at_ o]). split; [done|]. split; [|split].
    + apply Forall_app. by rewrite Forall_singleton.
    + rewrite fmap_app. by apply sublist_app.
    + intros t. rewrite fmap_app. simpl. destruct (decide (within window t (at_ o))) as [Hin|Hout].
      * assert (Hs3 := window_recent _ _ _ _ _ t (proj2 (proj2 (proj2 (proj2 Hs2)))) Hin).
        assert (Hle : (length (filter (within window t) ((when <$> log) ++ [at_ o])) ≤ length (filter (within window t) (plog ++ [at_ o])))%nat)
          by by apply sublist_length, sublist_filter, sublist_app.
        unfold zlen in *. lia.
      * rewrite filter_app, filter_cons_False, filter_nil, app_nil_r by done. apply Hc.
Qed.

Lemma coordinator_run_inv os al last plog b log : ordered last os → inv al last plog b log →
  ∃ last' plog', inv al last' plog' (run os b).1 (log ++ (run os b).2).
Proof.
  revert last plog b log. induction os as [|o os IH]; intros last plog b log Ho Hi; simpl in *.
  - exists last, plog. by rewrite app_nil_r.
  - destruct Ho as (Hn & Hk & Ho). destruct (step_inv o al last plog b log Hk Hn Hi) as [plog' H1].
    destruct (step o b) as [b1 r]. destruct (IH _ _ _ _ Ho H1) as (last' & plog2 & H2). simpl in *. destruct (run os b1) as [b2 rs].
    exists last', plog2. simpl in *. by rewrite app_assoc.
Qed.

Section claims.

(** C18: of all the frames a coordinator is sent, it relays only ones whose address is acceptable
    and consistent with where they came from, whose round and sequence are in range and that do
    not name their own sender as the target; what it relays is the frame with the sender as the
    peer to punch to; and no interval of a minute sees more than 299 of them. *)
Theorem coordinator_relays_checked (al : bool) (last : Z) (os : list Occurrence) (Ho : ordered last os) :
  Forall (relayed_ok al) (run os (Bootstrap.new al)).2
  ∧ ∀ t, zlen (filter (within window t) (when <$> (run os (Bootstrap.new al)).2)) ≤ 299.
Proof.
  destruct (coordinator_run_inv os al last [] (Bootstrap.new al) [] Ho) as (last' & plog & _ & Hok & _ & Hc).
  - split_and!; [apply new_sec_ok|done|apply sublist_nil_l|done].
  - by split.
Qed.

Definition any_keys (m : gmap SocketAddr AddressValidationResult) : list SocketAddr := (map_to_list m).*1.
Lemma any_keys_ok : keys_ok any_keys.
Proof. by intros m. Qed.

(** A peer asks for another one, twice, once naming itself. *)
Definition sample_source : SocketAddr := V4 [81; 2; 69; 142] 4433.
Definition sample_peer (x : Z) : list Z := x :: replicate 31 0.
Definition sample_punch (addr : SocketAddr) (target : Z) : PunchMeNow := mk_punch_me_now 7 1 addr (Some (sample_peer target)).
Definition sample_occurrences : list Occurrence :=
  [mk_occurrence 0 any_keys (Observe (sample_peer 1) sample_source);
   mk_occurrence 5 any_keys (Punch (sample_peer 1) sample_source (sample_punch sample_source 2));
   mk_occurrence 9 any_keys (Punch (sample_peer 1) sample_source (sample_punch sample_source 1))].

Lemma coordinator_relays_checked_witness :
  ordered 0 sample_occurrences ∧ (when <$> (run sample_occurrences (Bootstrap.new false)).2) = [5]
  ∧ Forall (relayed_ok false) (run sample_occurrences (Bootstrap.new false)).2
  ∧ ∀ t, zlen (filter (within window t) (when <$> (run sample_occurrences (Bootstrap.new false)).2)) ≤ 299.
Proof.
  assert (Ho : ordered 0 sample_occurrences) by (simpl; repeat split; apply any_keys_ok || lia).
  split; [exact Ho|]. split; [vm_compute; reflexivity|]. exact (coordinator_relays_checked false 0 sample_occurrences Ho).
Defined.

(** The checks look at an address before the IPv4-mapped form is reduced: the loopback address in
    that form is relayed although loopback is not allowed. *)
Definition mapped_loopback : SocketAddr := V6 (to_ipv6_mapped [127; 0; 0; 1]) 9000 0 0.

Example mapped_loopback_relayed :
  perform_address_validation false (normalize_socket_addr mapped_loopback) = Invalid
  ∧ (process_punch_me_now_frame any_keys (sample_peer 1) sample_source (sample_punch mapped_loopback 2) 0 (Bootstrap.new false)).2
    = Ok (Some (sample_punch mapped_loopback 1)).
Proof. split; vm_compute; reflexivity. Qed.

End claims.
End Coordinator.
