(* ===== verification/NatTimeouts.v ===== *)
(** * Timeouts, network conditions and resources of NAT traversal

    Models, of [src/connection/nat_traversal.rs], the adaptive timeout of a path validation or a
    coordination round ([AdaptiveTimeoutState]), the monitor of network conditions that scales
    waiting times ([NetworkConditionMonitor]) and the counters by which new resources are refused
    and old ones are cleaned up ([ResourceCleanupCoordinator]).

    Floating point numbers are IEEE 754 ones; durations and instants are nanoseconds.  A random
    number is an argument.  [None] is the panic of [Duration::mul_f64]. *)

From Stdlib Require Import SpecFloat.
From S2P Require Import Prelude Floats FloatBounds NatSecurity.

(** The [f64] nearest to [n / d], what the literal denotes. *)
Definition lit (n d : Z) : spec_float := Floats.ratio 53 1024 n d.

Definition fgt (a b : spec_float) : bool := SFltb b a.
Definition flt (a b : spec_float) : bool := SFltb a b.

(** [f64::clamp]. *)
Definition fclamp (x lo hi : spec_float) : spec_float :=
  let x := if flt x lo then lo else x in
  if fgt x hi then hi else x.

(** [Duration::mul_f64], [Duration::clamp], [Duration::as_millis] as an [f64]. *)
Definition mul_f64 (d : Z) (x : spec_float) : option Z := Floats.mul_duration 53 1024 d x.
Definition zclamp (x lo hi : Z) : Z := if x <? lo then lo else if x >? hi then hi else x.
Definition millis_f64 (d : Z) : spec_float := Floats.of_f64 (d / 10 ^ 6).

(** [rand::random::<f64>()] is a multiple of [2^-53] in [0, 1). *)
Definition random_ok (x : spec_float) : Prop := ∃ k, 0 ≤ k < 2 ^ 53 ∧ x = binary_normalize 53 1024 k (-53) false.

(** ** Adaptive timeouts *)

Module AdaptiveTimeout.

Record AdaptiveTimeoutState := mk_timeout {
  current_timeout : Z;
  min_timeout : Z;
  max_timeout : Z;
  base_timeout : Z;
  backoff_multiplier : spec_float;
  max_backoff_multiplier : spec_float;
  jitter_factor : spec_float;
  srtt : option Z;
  rttvar : option Z;
  last_rtt : option Z;
  consecutive_timeouts : Z;
  successful_responses : Z;
}.
#[global] Instance timeout_settable : Settable AdaptiveTimeoutState := λ t,
  mk_timeout (current_timeout t) (min_timeout t) (max_timeout t) (base_timeout t) (backoff_multiplier t)
    (max_backoff_multiplier t) (jitter_factor t) (srtt t) (rttvar t) (last_rtt t) (consecutive_timeouts t)
    (successful_responses t).

Definition new : AdaptiveTimeoutState :=
  let base_timeout := from_millis 1000 in
  mk_timeout base_timeout (from_millis 100) (from_secs 30) base_timeout (lit 1 1) (lit 8 1) (lit 1 10)
    None None None 0 0.

(** [random] is [rand::random::<f64>()], in [0, 1). *)
Definition calculate_current_timeout (random : spec_float) (t : AdaptiveTimeoutState) : option AdaptiveTimeoutState :=
  let base_timeout :=
    match srtt t, rttvar t with
    | Some srtt, Some rttvar => srtt + rttvar * 4
    | _, _ => base_timeout t
    end in
  timeout ← mul_f64 base_timeout (backoff_multiplier t);
  let jitter :=
    Floats.add_f64 (lit 1 1) (Floats.mul_f64 (Floats.mul_f64 (Floats.sub_f64 random (lit 5 10)) (lit 2 1)) (jitter_factor t)) in
  timeout ← mul_f64 timeout jitter;
  Some (t <| current_timeout := zclamp timeout (min_timeout t) (max_timeout t) |>).

Definition update_success (random : spec_float) (rtt : Z) (t : AdaptiveTimeoutState) : option AdaptiveTimeoutState :=
  let t := t <| last_rtt := Some rtt |>
             <| successful_responses := wrapping_add 32 (successful_responses t) 1 |>
             <| consecutive_timeouts := 0 |> in
  let t :=
    match srtt t with
    | None => t <| srtt := Some rtt |> <| rttvar := Some (rtt / 2) |>
    | Some s =>
      let v := default (rtt / 2) (rttvar t) in
      let abs_diff := Z.abs (rtt - s) in
      t <| rttvar := Some (v * 3 / 4 + abs_diff / 4) |> <| srtt := Some (s * 7 / 8 + rtt / 8) |>
    end in
  let t := t <| backoff_multiplier := Floats.fmax (Floats.mul_f64 (backoff_multiplier t) (lit 8 10)) (lit 1 1) |> in
  calculate_current_timeout random t.

Definition update_timeout (random : spec_float) (t : AdaptiveTimeoutState) : option AdaptiveTimeoutState :=
  let t := t <| consecutive_timeouts := wrapping_add 32 (consecutive_timeouts t) 1 |> in
  let t := t <| backoff_multiplier :=
                  Floats.fmin (Floats.mul_f64 (backoff_multiplier t) (lit 2 1)) (max_backoff_multiplier t) |> in
  calculate_current_timeout random t.

Definition get_timeout (t : AdaptiveTimeoutState) : Z := current_timeout t.

Definition should_retry (max_retries : Z) (t : AdaptiveTimeoutState) : bool := consecutive_timeouts t <? max_retries.

Definition get_retry_delay (t : AdaptiveTimeoutState) : option Z :=
  delay ← mul_f64 (current_timeout t) (backoff_multiplier t);
  Some (zclamp delay (min_timeout t) (max_timeout t)).

End AdaptiveTimeout.

(** ** Network conditions *)

Module Monitor.

Record TimeoutStatistics := mk_timeout_stats {
  total_timeouts : Z;
  total_responses : Z;
  avg_response_time : Z;
  timeout_rate : spec_float;
  last_update : option Z;
}.
#[global] Instance timeout_stats_settable : Settable TimeoutStatistics := λ s,
  mk_timeout_stats (total_timeouts s) (total_responses s) (avg_response_time s) (timeout_rate s) (last_update s).

Definition default_stats : TimeoutStatistics := mk_timeout_stats 0 0 0 (S754_zero false) None.

Record NetworkConditionMonitor := mk_monitor {
  rtt_samples : list Z;
  max_samples : Z;
  packet_loss_rate : spec_float;
  congestion_window : Z;
  quality_score : spec_float;
  last_quality_update : Z;
  quality_update_interval : Z;
  timeout_stats : TimeoutStatistics;
}.
#[global] Instance monitor_settable : Settable NetworkConditionMonitor := λ m,
  mk_monitor (rtt_samples m) (max_samples m) (packet_loss_rate m) (congestion_window m) (quality_score m)
    (last_quality_update m) (quality_update_interval m) (timeout_stats m).

Definition new (now : Z) : NetworkConditionMonitor :=
  mk_monitor [] 20 (S754_zero false) 10 (lit 8 10) now (from_secs 10) default_stats.

Definition update_timeout_stats (now : Z) (m : NetworkConditionMonitor) : NetworkConditionMonitor :=
  let st := timeout_stats m in
  let total_attempts := wrapping_add 64 (total_responses st) (total_timeouts st) in
  let st :=
    if total_attempts >? 0 then
      st <| timeout_rate := Floats.div_f64 (Floats.of_f64 (total_timeouts st)) (Floats.of_f64 total_attempts) |>
    else st in
  let st :=
    match rtt_samples m with
    | [] => st
    | _ => st <| avg_response_time := foldl Z.add 0 (rtt_samples m) / zlen (rtt_samples m) |>
    end in
  m <| timeout_stats := st <| last_update := Some now |> |>.

Definition calculate_rtt_factor (m : NetworkConditionMonitor) : spec_float :=
  match rtt_samples m with
  | [] => lit 5 10
  | _ =>
    let rtt_ms := millis_f64 (avg_response_time (timeout_stats m)) in
    let factor := Floats.sub_f64 (lit 1 1) (Floats.div_f64 (Floats.sub_f64 rtt_ms (lit 50 1)) (lit 950 1)) in
    fclamp factor (S754_zero false) (lit 1 1)
  end.

Definition calculate_consistency_factor (m : NetworkConditionMonitor) : spec_float :=
  if zlen (rtt_samples m) <? 3 then lit 5 10
  else
    let mean_rtt := avg_response_time (timeout_stats m) in
    let diffs := (λ rtt, millis_f64 (Z.abs (rtt - mean_rtt))) <$> rtt_samples m in
    let squares := (λ d, Floats.mul_f64 d d) <$> diffs in
    let variance := Floats.div_f64 (foldl Floats.add_f64 (S754_zero true) squares) (Floats.of_f64 (zlen (rtt_samples m))) in
    let std_dev := SFsqrt 53 1024 variance in
    let consistency := Floats.sub_f64 (lit 1 1) (Floats.fmin (Floats.div_f64 std_dev (lit 1000 1)) (lit 1 1)) in
    fclamp consistency (S754_zero false) (lit 1 1).

Definition update_quality_score (now : Z) (m : NetworkConditionMonitor) : NetworkConditionMonitor :=
  if duration_since now (last_quality_update m) <? quality_update_interval m then m
  else
    let timeout_factor := Floats.sub_f64 (lit 1 1) (timeout_rate (timeout_stats m)) in
    let rtt_factor := calculate_rtt_factor m in
    let consistency_factor := calculate_consistency_factor m in
    let new_quality :=
      Floats.add_f64 (Floats.add_f64 (Floats.mul_f64 timeout_factor (lit 4 10)) (Floats.mul_f64 rtt_factor (lit 3 10)))
        (Floats.mul_f64 consistency_factor (lit 3 10)) in
    m <| quality_score :=
           Floats.add_f64 (Floats.mul_f64 (quality_score m) (lit 7 10)) (Floats.mul_f64 new_quality (lit 3 10)) |>
      <| last_quality_update := now |>.

Definition record_success (rtt now : Z) (m : NetworkConditionMonitor) : NetworkConditionMonitor :=
  let samples := rtt_samples m ++ [rtt] in
  let m := m <| rtt_samples := if zlen samples >? max_samples m then tail samples else samples |> in
  let m := m <| timeout_stats :=
                  (timeout_stats m) <| total_responses := wrapping_add 64 (total_responses (timeout_stats m)) 1 |> |> in
  update_quality_score now (update_timeout_stats now m).

Definition record_timeout (now : Z) (m : NetworkConditionMonitor) : NetworkConditionMonitor :=
  let m := m <| timeout_stats :=
                  (timeout_stats m) <| total_timeouts := wrapping_add 64 (total_timeouts (timeout_stats m)) 1 |> |> in
  update_quality_score now (update_timeout_stats now m).

Definition get_estimated_rtt (m : NetworkConditionMonitor) : option Z :=
  match rtt_samples m with [] => None | _ => Some (avg_response_time (timeout_stats m)) end.

Definition is_suitable_for_coordination (m : NetworkConditionMonitor) : bool :=
  Floats.fge (quality_score m) (lit 3 10) && flt (timeout_rate (timeout_stats m)) (lit 5 10).

Definition get_timeout_multiplier (m : NetworkConditionMonitor) : spec_float :=
  let base_multiplier := lit 1 1 in
  let quality_multiplier :=
    if flt (quality_score m) (lit 3 10) then lit 2 1
    else if fgt (quality_score m) (lit 8 10) then lit 8 10
    else lit 1 1 in
  let loss_multiplier := Floats.add_f64 (lit 1 1) (Floats.mul_f64 (packet_loss_rate m) (lit 2 1)) in
  Floats.mul_f64 (Floats.mul_f64 base_multiplier quality_multiplier) loss_multiplier.

Definition cleanup (now : Z) (m : NetworkConditionMonitor) : NetworkConditionMonitor :=
  match last_update (timeout_stats m) with
  | Some last_update => if duration_since now last_update >? from_secs 300 then m <| timeout_stats := default_stats |> else m
  | None => m
  end.

End Monitor.

(** ** Resources *)

Module Resources.

Record ResourceManagementConfig := mk_config {
  max_active_validations : Z;
  max_local_candidates : Z;
  max_remote_candidates : Z;
  max_candidate_pairs : Z;
  max_coordination_history : Z;
  cleanup_interval : Z;
  candidate_timeout : Z;
  validation_timeout : Z;
  coordination_timeout : Z;
  memory_pressure_threshold : spec_float;
  aggressive_cleanup_threshold : spec_float;
}.

Definition config_new : ResourceManagementConfig :=
  mk_config 100 50 100 200 10 (from_secs 30) (from_secs 300) (from_secs 30) (from_secs 60) (lit 75 100) (lit 90 100).

Record ResourceStats := mk_stats {
  active_validations : Z;
  local_candidates : Z;
  remote_candidates : Z;
  candidate_pairs : Z;
  peak_memory_usage : Z;
  cleanup_operations : Z;
  resources_cleaned : Z;
  allocation_failures : Z;
  stats_last_cleanup : option Z;
  memory_pressure : spec_float;
}.
#[global] Instance stats_settable : Settable ResourceStats := λ s,
  mk_stats (active_validations s) (local_candidates s) (remote_candidates s) (candidate_pairs s) (peak_memory_usage s)
    (cleanup_operations s) (resources_cleaned s) (allocation_failures s)
    (stats_last_cleanup s) (memory_pressure s).

Record ResourceCleanupCoordinator := mk_manager {
  config : ResourceManagementConfig;
  stats : ResourceStats;
  last_cleanup : option Z;
  cleanup_counter : Z;
  shutdown_requested : bool;
}.
#[global] Instance manager_settable : Settable ResourceCleanupCoordinator := λ m,
  mk_manager (config m) (stats m) (last_cleanup m) (cleanup_counter m) (shutdown_requested m).

Definition new : ResourceCleanupCoordinator :=
  mk_manager config_new (mk_stats 0 0 0 0 0 0 0 0 None (S754_zero false)) None 0 false.

(** The four lengths: of validations, local and remote candidates, and pairs. *)
Record Usage := mk_usage { u_validations : Z; u_local : Z; u_remote : Z; u_pairs : Z }.
Definition total (u : Usage) : Z := u_validations u + u_local u + u_remote u + u_pairs u.

Definition check_resource_limits (u : Usage) (m : ResourceCleanupCoordinator) : bool :=
  (u_validations u >? max_active_validations (config m))
  || (u_local u >? max_local_candidates (config m))
  || (u_remote u >? max_remote_candidates (config m))
  || (u_pairs u >? max_candidate_pairs (config m)).

Definition calculate_memory_pressure (u : Usage) (m : ResourceCleanupCoordinator) : ResourceCleanupCoordinator * spec_float :=
  let total_limit :=
    max_active_validations (config m) + max_local_candidates (config m) + max_remote_candidates (config m)
    + max_candidate_pairs (config m) in
  let pressure := Floats.div_f64 (Floats.of_f64 (total u)) (Floats.of_f64 total_limit) in
  (m <| stats := (stats m) <| memory_pressure := pressure |> |>, pressure).

Definition should_cleanup (now : Z) (m : ResourceCleanupCoordinator) : bool :=
  if shutdown_requested m then true
  else
    match last_cleanup m with
    | Some last =>
      let interval :=
        if fgt (memory_pressure (stats m)) (memory_pressure_threshold (config m)) then cleanup_interval (config m) / 2
        else cleanup_interval (config m) in
      duration_since now last >? interval
    | None => true
    end.

Definition is_prediction_allowed (m : ResourceCleanupCoordinator) : bool :=
  flt (memory_pressure (stats m)) (aggressive_cleanup_threshold (config m)) && negb (shutdown_requested m).

Definition update_stats (u : Usage) (m : ResourceCleanupCoordinator) : ResourceCleanupCoordinator :=
  let st := (stats m) <| active_validations := u_validations u |> <| local_candidates := u_local u |>
              <| remote_candidates := u_remote u |> <| candidate_pairs := u_pairs u |> in
  let st := if total u >? peak_memory_usage st then st <| peak_memory_usage := total u |> else st in
  m <| stats := st |>.

Definition perform_cleanup (now : Z) (m : ResourceCleanupCoordinator) : ResourceCleanupCoordinator :=
  m <| last_cleanup := Some now |>
    <| cleanup_counter := wrapping_add 64 (cleanup_counter m) 1 |>
    <| stats := (stats m) <| cleanup_operations := wrapping_add 64 (cleanup_operations (stats m)) 1 |> |>.

Definition request_shutdown (m : ResourceCleanupCoordinator) : ResourceCleanupCoordinator := m <| shutdown_requested := true |>.

End Resources.

(** ** Timeouts do not panic and stay in range *)

Module TimeoutProofs.
Import AdaptiveTimeout FloatBounds.

(** The clock: an instant is less than 292 years after its origin. *)
Definition CLOCK : Z := 2 ^ 63.
Definition instant_ok (t : Z) : Prop := 0 ≤ t ≤ CLOCK.

Lemma zclamp_range x lo hi : lo ≤ hi → lo ≤ zclamp x lo hi ≤ hi.
Proof. unfold zclamp. intros. destruct (Z.ltb_spec x lo); [lia|]. destruct (Z.gtb_spec x hi); lia. Qed.

Lemma random_mag r : random_ok r → mag 0 r ∧ signed false r.
Proof.
  intros (k & Hk & ->). destruct (normalize_mag k (-53) 0 false) as [H1 H2]; [done..| |].
  - unfold val. rewrite Z.abs_eq; [|apply Z.mul_nonneg_nonneg; [lia|apply Z.pow_nonneg; done]].
    replace (0 + scale) with (53 + (-53 + scale)) by lia. rewrite (pow_split 53) by done.
    apply Z.mul_le_mono_nonneg_r; [apply Z.pow_nonneg; done|]. lia.
  - split; [done|]. destruct (Z.eq_dec k 0) as [->|]; [done|]. apply H2. lia.
Qed.

Lemma pow_half k : 0 ≤ k → 2 ^ (k + 1) = 2 * 2 ^ k.
Proof. intros. by rewrite Z.add_1_r, Z.pow_succ_r. Qed.

Lemma mag_one : mag 1 (lit 1 1) ∧ signed false (lit 1 1).
Proof. by vm_compute. Qed.
Lemma mag_two : mag 1 (lit 2 1) ∧ signed false (lit 2 1).
Proof. by vm_compute. Qed.
Lemma mag_tenth : mag (-3) (lit 1 10) ∧ signed false (lit 1 10).
Proof. by vm_compute. Qed.
Lemma mag_eight_tenths : mag 0 (lit 8 10) ∧ signed false (lit 8 10).
Proof. by vm_compute. Qed.
Lemma mag_half : mag 0 (lit 5 10).
Proof. by vm_compute. Qed.
Lemma sval_half : sval (lit 5 10) = 2 ^ (-1 + scale).
Proof. by vm_compute. Qed.
Lemma sval_one : sval (lit 1 1) = 2 * 2 ^ (-1 + scale).
Proof. by vm_compute. Qed.
Lemma pow_double k : -2000 ≤ k → 2 ^ (k + 1 + scale) = 2 * 2 ^ (k + scale).
Proof. intros. rewrite <- Z.pow_succ_r by (unfold scale; lia). f_equal. lia. Qed.

(** The factor [1 + (r - 0.5) * 2 * 0.1] is positive. *)
Lemma jitter_mag r : random_ok r →
  let jitter := Floats.add_f64 (lit 1 1) (Floats.mul_f64 (Floats.mul_f64 (Floats.sub_f64 r (lit 5 10)) (lit 2 1)) (lit 1 10)) in
  mag 1 jitter ∧ signed false jitter.
Proof.
  intros [H0 S0]%random_mag. pose proof (sval_mag 0 r H0) as V0. pose proof (sval_signed r S0) as P0.
  assert (Hp : 0 < 2 ^ (-3 + scale)) by (apply pow_pos; unfold scale; lia).
  pose proof (pow_double (-3) ltac:(lia)) as D3. pose proof (pow_double (-2) ltac:(lia)) as D2. pose proof (pow_double (-1) ltac:(lia)) as D1.
  pose proof (pow_double 0 ltac:(lia)) as D0. change (-3 + 1) with (-2) in D3. change (-2 + 1) with (-1) in D2. change (-1 + 1) with 0 in D1.
  change (0 + 1) with 1 in D0.
  assert (H1 : mag (-1) (Floats.sub_f64 r (lit 5 10))).
  { apply (mag_sub 0); [lia|exact H0|exact mag_half|]. rewrite sval_half. lia. }
  destruct (mag_signed _ _ H1) as [s1 S1].
  destruct (mag_mul (-1) 1 _ (lit 2 1) s1 false ltac:(lia) H1 (proj1 mag_two) S1 (proj2 mag_two)) as [H2 S2].
  destruct (mag_mul (-1 + 1) (-3) _ (lit 1 10) _ false ltac:(lia) H2 (proj1 mag_tenth) S2 (proj2 mag_tenth)) as [H3 _].
  set (x := Floats.mul_f64 _ (lit 1 10)) in *. pose proof (sval_mag _ _ H3) as V3. change (-1 + 1 + -3) with (-3) in V3.
  destruct (mag_add 1 1 (lit 1 1) x ltac:(lia) (proj1 mag_one) (mag_weaken (-1 + 1 + -3) 1 x ltac:(lia) H3)) as [H5 H6].
  - rewrite sval_one. lia.
  - split; [exact H5|]. apply H6. rewrite sval_one. lia.
Qed.

#[global] Opaque mag lit Floats.mul_f64 Floats.add_f64 Floats.sub_f64 Floats.div_f64 Floats.fmax Floats.fmin Floats.mul_duration.

(** The parameters never change; the current timeout lies between the bounds. *)
Definition timeout_ok (t : AdaptiveTimeoutState) : Prop :=
  from_millis 100 ≤ current_timeout t ≤ from_secs 30
  ∧ min_timeout t = from_millis 100 ∧ max_timeout t = from_secs 30 ∧ base_timeout t = from_millis 1000
  ∧ mag 3 (backoff_multiplier t) ∧ signed false (backoff_multiplier t)
  ∧ max_backoff_multiplier t = lit 8 1 ∧ jitter_factor t = lit 1 10
  ∧ (∀ x, srtt t = Some x → 0 ≤ x ≤ CLOCK) ∧ (∀ x, rttvar t = Some x → 0 ≤ x ≤ CLOCK)
  ∧ is_u 32 (consecutive_timeouts t).

Lemma new_timeout_ok : timeout_ok AdaptiveTimeout.new.
Proof.
  assert (Hr : from_millis 100 ≤ from_millis 1000 ≤ from_secs 30) by (unfold from_millis, from_secs; lia).
  assert (Hn : ∀ x, None = Some x → 0 ≤ x ≤ CLOCK) by discriminate.
  refine (conj Hr (conj eq_refl (conj eq_refl (conj eq_refl (conj _ (conj (proj2 mag_one) (conj eq_refl (conj eq_refl (conj Hn (conj Hn _)))))))))).
  - exact (mag_weaken 1 3 _ ltac:(lia) (proj1 mag_one)).
  - unfold is_u. simpl. lia.
Qed.

Lemma calculate_ok r t : random_ok r → timeout_ok t →
  ∃ t', calculate_current_timeout r t = Some t' ∧ timeout_ok t' ∧ consecutive_timeouts t' = consecutive_timeouts t.
Proof.
  intros Hr (Hc & Hmin & Hmax & Hb & Hm & Hs & Hmb & Hj & Hsr & Hrv & Hu). unfold calculate_current_timeout, mul_f64.
  set (base := match srtt t with Some _ => _ | None => _ end).
  assert (Hbase : 0 ≤ base ≤ 2 ^ 37 * 10 ^ 9).
  { unfold base, CLOCK, from_millis in *. destruct (srtt t) as [x|], (rttvar t) as [y|]; try lia.
    specialize (Hsr x eq_refl). specialize (Hrv y eq_refl). lia. }
  destruct (mul_duration_ok base (backoff_multiplier t) 37 3 ltac:(lia) Hbase Hm Hs ltac:(lia)) as (t1 & -> & Ht1).
  change (3 + (37 + 1)) with 41 in Ht1. cbn [mbind option_bind]. rewrite Hj. destruct (jitter_mag r Hr) as [Hjm Hjs].
  destruct (mul_duration_ok t1 _ 42 1 ltac:(lia) ltac:(lia) Hjm Hjs ltac:(lia)) as (t2 & -> & Ht2).
  eexists. split; [done|]. split; [|done]. refine (conj _ (conj Hmin (conj Hmax (conj Hb (conj Hm (conj Hs (conj Hmb (conj Hj (conj Hsr (conj Hrv Hu)))))))))).
  cbn. rewrite Hmin, Hmax. apply zclamp_range. unfold from_millis, from_secs. lia.
Qed.

(** A weighted mean of two durations lies between their bounds. *)
Lemma mix_range x y a d : 0 ≤ a → 0 < d → a + 1 = d → 0 ≤ x ≤ CLOCK → 0 ≤ y ≤ CLOCK → 0 ≤ x * a / d + y / d ≤ CLOCK.
Proof.
  intros Ha Hd Hab Hx Hy. pose proof (Z.div_pos (x * a) d). pose proof (Z.div_pos y d). split; [nia|].
  pose proof (Z.mul_div_le (x * a) d Hd). pose proof (Z.mul_div_le y d Hd). nia.
Qed.

Lemma update_success_ok r rtt t : random_ok r → 0 ≤ rtt ≤ CLOCK → timeout_ok t →
  ∃ t', update_success r rtt t = Some t' ∧ timeout_ok t'.
Proof.
  intros Hr Hrtt (Hc & Hmin & Hmax & Hb & Hm & Hs & Hmb & Hj & Hsr & Hrv & Hu). unfold update_success. set (t1 := set_field _ _).
  destruct (calculate_ok r t1 Hr) as (t' & -> & Ht' & _); [|by eauto]. unfold t1. clear t1.
  destruct (mag_mul 3 0 _ _ false false ltac:(lia) Hm (proj1 mag_eight_tenths) Hs (proj2 mag_eight_tenths)) as [Hm2 Hs2].
  assert (Hmax1 : ∀ x, mag 3 x → signed false x → mag 3 (Floats.fmax x (lit 1 1)) ∧ signed false (Floats.fmax x (lit 1 1))).
  { intros x Hx Sx. destruct (fmax_cases x (lit 1 1)) as [->| ->]; [by split|]. exact (conj (mag_weaken 1 3 _ ltac:(lia) (proj1 mag_one)) (proj2 mag_one)). }
  assert (Hdiv : 0 ≤ rtt / 2 ≤ CLOCK) by (unfold CLOCK in *; split; [apply Z.div_pos|apply Z.div_le_upper_bound]; lia).
  destruct (Hmax1 _ Hm2 Hs2) as [Hm3 Hs3].
  assert (Hsome : ∀ v y, 0 ≤ v ≤ CLOCK → Some v = Some y → 0 ≤ y ≤ CLOCK) by (intros v y Hv E; injection E as <-; exact Hv).
  assert (Hzero : is_u 32 0) by (unfold is_u; lia). cbn. destruct (srtt t) as [x|] eqn:Ex; cbn.
  - refine (conj Hc (conj Hmin (conj Hmax (conj Hb (conj Hm3 (conj Hs3 (conj Hmb (conj Hj (conj _ (conj _ Hzero)))))))))); intros y; apply Hsome.
    + specialize (Hsr x eq_refl). apply (mix_range x rtt 7 8); lia.
    + specialize (Hsr x eq_refl). apply (mix_range _ (Z.abs (rtt - x)) 3 4); [lia..| |unfold CLOCK in *; lia].
      destruct (rttvar t) as [v|]; [by apply Hrv|done].
  - refine (conj Hc (conj Hmin (conj Hmax (conj Hb (conj Hm3 (conj Hs3 (conj Hmb (conj Hj (conj _ (conj _ Hzero)))))))))); intros y; by apply Hsome.
Qed.

Lemma eight_eq : lit 8 1 = eight.
Proof. by vm_compute. Qed.

(** A timeout is counted, and the count is at most one more. *)
Lemma update_timeout_ok r t : random_ok r → timeout_ok t →
  ∃ t', update_timeout r t = Some t' ∧ timeout_ok t' ∧ consecutive_timeouts t' = wrapping_add 32 (consecutive_timeouts t) 1.
Proof.
  intros Hr (Hc & Hmin & Hmax & Hb & Hm & Hs & Hmb & Hj & Hsr & Hrv & Hu). unfold update_timeout. set (t1 := set_field _ (set_field _ t)).
  destruct (mag_mul 3 1 _ _ false false ltac:(lia) Hm (proj1 mag_two) Hs (proj2 mag_two)) as [Hm2 Hs2].
  destruct (fmin_eight _ _ Hm2 Hs2) as [Hm3 Hs3].
  destruct (calculate_ok r t1 Hr) as (t' & -> & Ht' & Hc'); [|by eauto]. unfold t1. clear t1. cbn. rewrite Hmb, eight_eq.
  refine (conj Hc (conj Hmin (conj Hmax (conj Hb (conj Hm3 (conj Hs3 (conj Hmb (conj Hj (conj Hsr (conj Hrv _)))))))))).
  apply wrap_bound. lia.
Qed.

Lemma get_retry_delay_ok t : timeout_ok t → ∃ d, get_retry_delay t = Some d ∧ from_millis 100 ≤ d ≤ from_secs 30.
Proof.
  intros (Hc & Hmin & Hmax & Hb & Hm & Hs & _). unfold get_retry_delay, mul_f64.
  destruct (mul_duration_ok (current_timeout t) (backoff_multiplier t) 5 3 ltac:(lia) ltac:(unfold from_millis, from_secs in *; lia) Hm Hs ltac:(lia)) as (d & -> & _).
  eexists. split; [done|]. rewrite Hmin, Hmax. apply zclamp_range. unfold from_millis, from_secs. lia.
Qed.

End TimeoutProofs.
