(* ===== verification/NatTraversal.v ===== *)
(** * NAT traversal

    Models [NatTraversalState] of [src/connection/nat_traversal.rs]: the candidate addresses of
    both sides, the pairs formed of them and their order, the path validations in progress and
    the rounds of coordinated hole punching.

    Sequence numbers and rounds are the values of [VarInt]s, instants and durations nanoseconds.
    What the standard library and the random number generator leave open in a call (the order in
    which a [HashMap] is iterated, the order of equal elements after [sort_unstable_by_key], the
    random numbers) is an [Env], an argument of each operation.  [None] is a panic. *)

From Stdlib Require Import SpecFloat.
From stdpp Require Import gmap list sorting.
From S2P Require Import Prelude Coding NatFrames Floats NatSecurity NatTimeouts.

Module NatTraversal.
Import NatFrames Net Security AdaptiveTimeout.

(** ** Data *)

Inductive CandidateSource := Local | Observed (by_node : option Z) | Peer | Predicted | PortMapped.
Inductive CandidateState := New | Validating | CValid | CFailed | Removed.
#[global] Instance candidate_source_eq_dec : EqDecision CandidateSource.
Proof. solve_decision. Defined.
#[global] Instance candidate_state_eq_dec : EqDecision CandidateState.
Proof. solve_decision. Defined.

Record AddressCandidate := mk_candidate {
  address : SocketAddr;
  priority : Z;
  csource : CandidateSource;
  discovered_at : Z;
  cstate : CandidateState;
  attempt_count : Z;
  last_attempt : option Z;
}.
#[global] Instance candidate_settable : Settable AddressCandidate := λ c,
  mk_candidate (address c) (priority c) (csource c) (discovered_at c) (cstate c) (attempt_count c) (last_attempt c).

Record PathValidationState := mk_validation {
  challenge : Z;
  sent_at : Z;
  v_retry_count : Z;
  v_max_retries : Z;
  coordination_round : option Z;
  v_timeout : AdaptiveTimeoutState;
  v_last_retry_at : option Z;
}.
#[global] Instance validation_settable : Settable PathValidationState := λ v,
  mk_validation (challenge v) (sent_at v) (v_retry_count v) (v_max_retries v) (coordination_round v) (v_timeout v) (v_last_retry_at v).

Inductive CoordinationPhase :=
| Idle | Requesting | Coordinating | Preparing | Punching | PValidating | Succeeded | PFailed.
#[global] Instance phase_eq_dec : EqDecision CoordinationPhase.
Proof. solve_decision. Defined.

Record PunchTarget := mk_target { t_addr : SocketAddr; t_sequence : Z; t_challenge : Z }.

Record CoordinationState := mk_coordination {
  c_round : Z;
  punch_targets : list PunchTarget;
  round_start : Z;
  punch_start : Z;
  round_duration : Z;
  phase : CoordinationPhase;
  punch_request_sent : bool;
  peer_punch_received : bool;
  retry_count : Z;
  max_retries : Z;
  c_timeout : AdaptiveTimeoutState;
  last_retry_at : option Z;
}.
#[global] Instance coordination_settable : Settable CoordinationState := λ c,
  mk_coordination (c_round c) (punch_targets c) (round_start c) (punch_start c) (round_duration c) (phase c)
    (punch_request_sent c) (peer_punch_received c) (retry_count c) (max_retries c) (c_timeout c) (last_retry_at c).

Inductive TimeoutAction := RetryDiscovery | RetryCoordination | StartValidation | Complete | AFailed.

Inductive PairState := PWaiting | PSucceeded | PairFailed | Frozen.
#[global] Instance pair_state_eq_dec : EqDecision PairState.
Proof. solve_decision. Defined.

Inductive PairType :=
| HostToHost | HostToServerReflexive | ServerReflexiveToHost | ServerReflexiveToServerReflexive | PeerReflexivePair.
#[global] Instance pair_type_eq_dec : EqDecision PairType.
Proof. solve_decision. Defined.

Inductive CandidateType := Host | ServerReflexive | PeerReflexive.

Record CandidatePair := mk_pair {
  p_sequence : Z;
  p_local : SocketAddr;
  p_remote : SocketAddr;
  p_priority : Z;
  p_state : PairState;
  p_type : PairType;
  created_at : Z;
  last_check : option Z;
}.
#[global] Instance pair_settable : Settable CandidatePair := λ p,
  mk_pair (p_sequence p) (p_local p) (p_remote p) (p_priority p) (p_state p) (p_type p) (created_at p) (last_check p).

Definition calculate_candidate_priority (candidate_type : CandidateType) (local_preference component_id : Z) : Z :=
  let type_preference := match candidate_type with Host => 126 | PeerReflexive => 110 | ServerReflexive => 100 end in
  wrap 32 (2 ^ 24 * type_preference + 2 ^ 8 * local_preference + component_id).

Definition calculate_pair_priority (local_priority remote_priority : Z) : Z :=
  let g := local_priority in
  let d := remote_priority in
  wrap 64 (2 ^ 32 * Z.min g d + 2 * Z.max g d + (if g >? d then 1 else 0)).

Definition classify_candidate_type (s : CandidateSource) : CandidateType :=
  match s with
  | Local => Host
  | Observed _ => ServerReflexive
  | Peer => PeerReflexive
  | Predicted => ServerReflexive
  | PortMapped => ServerReflexive
  end.

Definition classify_pair_type (local_type remote_type : CandidateType) : PairType :=
  match local_type, remote_type with
  | Host, Host => HostToHost
  | Host, ServerReflexive => HostToServerReflexive
  | ServerReflexive, Host => ServerReflexiveToHost
  | ServerReflexive, ServerReflexive => ServerReflexiveToServerReflexive
  | PeerReflexive, _ | _, PeerReflexive => PeerReflexivePair
  end.

Definition is_ipv4 (a : SocketAddr) : bool := negb (is_v6 a).

Definition are_candidates_compatible (l r : AddressCandidate) : bool :=
  match address l, address r with
  | V4 _ _, V4 _ _ => true
  | V6 _ _ _ _, V6 _ _ _ _ => true
  | _, _ => false
  end.

(** All counters are [u32]. *)
Record NatTraversalStats := mk_stats {
  remote_candidates_received : Z; local_candidates_sent : Z; validations_succeeded : Z; validations_failed : Z;
  coordination_rounds : Z; successful_coordinations : Z; failed_coordinations : Z; timed_out_coordinations : Z;
  coordination_failures : Z; direct_connections : Z; security_rejections : Z; rate_limit_violations : Z;
  invalid_address_rejections : Z; suspicious_coordination_attempts : Z; callback_probes_received : Z;
  callback_probes_successful : Z; callback_probes_failed : Z; predicted_candidates_generated : Z;
}.
#[global] Instance nat_stats_settable : Settable NatTraversalStats := λ s,
  mk_stats (remote_candidates_received s) (local_candidates_sent s) (validations_succeeded s) (validations_failed s)
    (coordination_rounds s) (successful_coordinations s) (failed_coordinations s) (timed_out_coordinations s)
    (coordination_failures s) (direct_connections s) (security_rejections s) (rate_limit_violations s)
    (invalid_address_rejections s) (suspicious_coordination_attempts s) (callback_probes_received s)
    (callback_probes_successful s) (callback_probes_failed s) (predicted_candidates_generated s).
Definition stats_default : NatTraversalStats := mk_stats 0 0 0 0 0 0 0 0 0 0 0 0 0 0 0 0 0 0.

(** [x += 1] of a [u32]. *)
Definition inc (x : Z) : Z := wrapping_add 32 x 1.

Record NatTraversalState := mk_state {
  local_candidates : gmap Z AddressCandidate;
  remote_candidates : gmap Z AddressCandidate;
  candidate_pairs : list CandidatePair;
  pair_index : gmap SocketAddr nat;
  active_validations : gmap SocketAddr PathValidationState;
  coordination : option CoordinationState;
  next_sequence : Z;
  max_candidates : Z;
  coordination_timeout : Z;
  stats : NatTraversalStats;
  security_state : SecurityValidationState;
  network_monitor : Monitor.NetworkConditionMonitor;
  resource_manager : Resources.ResourceCleanupCoordinator;
  bootstrap_coordinator : option Bootstrap.BootstrapCoordinator;
  port_predictor : PortPrediction.PortPredictor;
}.
#[global] Instance state_settable : Settable NatTraversalState := λ s,
  mk_state (local_candidates s) (remote_candidates s) (candidate_pairs s) (pair_index s) (active_validations s)
    (coordination s) (next_sequence s) (max_candidates s) (coordination_timeout s) (stats s) (security_state s)
    (network_monitor s) (resource_manager s) (bootstrap_coordinator s) (port_predictor s).

Definition new (max_candidates coordination_timeout : Z) (allow_loopback : bool) (now : Z) : NatTraversalState :=
  mk_state ∅ ∅ [] ∅ ∅ None 1 max_candidates coordination_timeout stats_default (Security.new allow_loopback)
    (Monitor.new now) Resources.new (Some (Bootstrap.new allow_loopback))
    (PortPrediction.new PortPrediction.default_config).

(** What a call finds in its surroundings. *)
Record Env := mk_env {
  order_candidates : gmap Z AddressCandidate → list (Z * AddressCandidate);
  order_validations : gmap SocketAddr PathValidationState → list (SocketAddr * PathValidationState);
  order_cache : gmap SocketAddr AddressValidationResult → list SocketAddr;
  sort_pairs : list CandidatePair → list CandidatePair;
  random_for : SocketAddr → spec_float;
  random_round : spec_float;
  random_u64 : Z;
}.

Definition higher (p q : CandidatePair) : Prop := p_priority q ≤ p_priority p.

Class EnvOk (env : Env) : Prop := {
  order_candidates_ok m : order_candidates env m ≡ₚ map_to_list m;
  order_validations_ok m : order_validations env m ≡ₚ map_to_list m;
  order_cache_ok m : order_cache env m ≡ₚ (map_to_list m).*1;
  sort_pairs_perm l : sort_pairs env l ≡ₚ l;
  sort_pairs_sorted l : Sorted higher (sort_pairs env l);
  random_for_ok a : random_ok (random_for env a);
  random_round_ok : random_ok (random_round env);
  random_u64_ok : is_u 64 (random_u64 env);
}.

Definition usage (s : NatTraversalState) : Resources.Usage :=
  Resources.mk_usage (Z.of_nat (base.size (active_validations s))) (Z.of_nat (base.size (local_candidates s)))
    (Z.of_nat (base.size (remote_candidates s))) (zlen (candidate_pairs s)).

Definition set_stats (f : NatTraversalStats → NatTraversalStats) (s : NatTraversalState) : NatTraversalState :=
  s <| stats := f (stats s) |>.

Section operations.
Context (env : Env).

(** ** Candidates *)

Definition next_sequence_u32 (s : NatTraversalState) : NatTraversalState * Z :=
  let current := if next_sequence s <? 2 ^ 32 then next_sequence s else u_max 32 in
  (s <| next_sequence := wrapping_add 32 current 1 |>, current).

Definition should_reject_new_resources (s : NatTraversalState) : NatTraversalState * bool :=
  let m := Resources.update_stats (usage s) (resource_manager s) in
  let (m, memory_pressure) := Resources.calculate_memory_pressure (usage s) m in
  let refused :=
    fgt memory_pressure (Resources.memory_pressure_threshold (Resources.config m))
    || Resources.check_resource_limits (usage s) m in
  let m :=
    if refused then
      m <| Resources.stats := (Resources.stats m)
             <| Resources.allocation_failures := wrapping_add 64 (Resources.allocation_failures (Resources.stats m)) 1 |> |>
    else m in
  (s <| resource_manager := m |>, refused).

(** [iter().enumerate().rev()]: the pair of the highest priority is inserted last. *)
Definition index_pairs (pairs : list CandidatePair) : gmap SocketAddr nat :=
  foldr (λ '(idx, p) m, <[p_remote p := idx]> m) ∅ (zip (seq 0 (length pairs)) pairs).

Definition sort_and_reindex_pairs (s : NatTraversalState) : NatTraversalState :=
  let pairs := sort_pairs env (candidate_pairs s) in
  s <| candidate_pairs := pairs |> <| pair_index := index_pairs pairs |>.

Definition new_pair (l : AddressCandidate) (remote_seq : Z) (r : AddressCandidate) (now : Z) : CandidatePair :=
  mk_pair remote_seq (address l) (address r) (calculate_pair_priority (priority l) (priority r)) PWaiting
    (classify_pair_type (classify_candidate_type (csource l)) (classify_candidate_type (csource r))) now None.

Definition not_removed (c : AddressCandidate) : bool := negb (bool_decide (cstate c = Removed)).

Definition generate_candidate_pairs (now : Z) (s : NatTraversalState) : NatTraversalState :=
  let pairs :=
    flat_map (λ '(_, l),
      if not_removed l then
        flat_map (λ '(remote_seq, r),
          if not_removed r && are_candidates_compatible l r then [new_pair l remote_seq r now] else [])
          (order_candidates env (remote_candidates s))
      else [])
      (order_candidates env (local_candidates s)) in
  sort_and_reindex_pairs (s <| candidate_pairs := pairs |>).

Definition max_pairs (s : NatTraversalState) : Z := Resources.max_candidate_pairs (Resources.config (resource_manager s)).

Definition extend_pairs (new_pairs : list CandidatePair) (s : NatTraversalState) : NatTraversalState :=
  match new_pairs with
  | [] => s
  | _ => sort_and_reindex_pairs (s <| candidate_pairs := candidate_pairs s ++ new_pairs |>)
  end.

Definition add_pairs_for_local_candidate (local_seq now : Z) (s : NatTraversalState) : NatTraversalState :=
  if max_pairs s <=? zlen (candidate_pairs s) then s
  else
    match local_candidates s !! local_seq with
    | Some l =>
      if not_removed l then
        let remaining_capacity := saturating_sub (max_pairs s) (zlen (candidate_pairs s)) in
        let remotes :=
          List.filter (λ '(_, r), not_removed r && eqb (is_ipv4 (address l)) (is_ipv4 (address r)))
            (order_candidates env (remote_candidates s)) in
        extend_pairs ((λ '(remote_seq, r), new_pair l remote_seq r now) <$> ztake remaining_capacity remotes) s
      else s
    | None => s
    end.

Definition add_pairs_for_remote_candidate (remote_seq now : Z) (s : NatTraversalState) : NatTraversalState :=
  if max_pairs s <=? zlen (candidate_pairs s) then s
  else
    match remote_candidates s !! remote_seq with
    | Some r =>
      if not_removed r then
        let remaining_capacity := saturating_sub (max_pairs s) (zlen (candidate_pairs s)) in
        let locals :=
          List.filter (λ '(_, l), not_removed l && eqb (is_ipv4 (address l)) (is_ipv4 (address r)))
            (order_candidates env (local_candidates s)) in
        extend_pairs ((λ '(_, l), new_pair l remote_seq r now) <$> ztake remaining_capacity locals) s
      else s
    | None => s
    end.

(** The loop of [generate_predicted_candidates]. *)
Fixpoint add_predictions (i : IpAddr) (ports : list Z) (now : Z) (s : NatTraversalState) : NatTraversalState :=
  match ports with
  | [] => s
  | p :: ports =>
    let predicted_addr := socket_addr_new i p in
    if existsb (λ '(_, c), bool_decide (address c = predicted_addr)) (order_candidates env (remote_candidates s)) then
      add_predictions i ports now s
    else if max_candidates s <=? Z.of_nat (base.size (remote_candidates s)) then s
    else
      let seq_num := 1000000000 + p in
      let sequence := match VarInt.from_u64 seq_num with Ok x => x | Err _ => next_sequence s end in
      let candidate := mk_candidate predicted_addr 1 Predicted now New 0 None in
      let s := s <| remote_candidates := <[sequence := candidate]> (remote_candidates s) |> in
      let s := set_stats (λ st, st <| predicted_candidates_generated := inc (predicted_candidates_generated st) |>) s in
      add_predictions i ports now (add_pairs_for_remote_candidate sequence now s)
  end.

Definition generate_predicted_candidates (i : IpAddr) (now : Z) (s : NatTraversalState) : NatTraversalState :=
  if Resources.is_prediction_allowed (resource_manager s) then
    add_predictions i (PortPrediction.predict_ports i (port_predictor s)) now s
  else s.

Definition add_remote_candidate (sequence : Z) (addr : SocketAddr) (prio now : Z) (s : NatTraversalState)
    : NatTraversalState * result unit NatTraversalError :=
  let (s, refused) := should_reject_new_resources s in
  if refused then (s, Err ResourceLimitExceeded)
  else
    let (v, limited) := is_candidate_rate_limited now (security_state s) in
    let s := s <| security_state := v |> in
    if limited then
      (set_stats (λ st, st <| rate_limit_violations := inc (rate_limit_violations st) |>) s, Err RateLimitExceeded)
    else
      let (v, r) := validate_address (order_cache env) addr (security_state s) in
      let s := s <| security_state := v |> in
      match r with
      | Invalid =>
        (set_stats (λ st, st <| invalid_address_rejections := inc (invalid_address_rejections st) |>
                             <| security_rejections := inc (security_rejections st) |>) s, Err InvalidAddress)
      | Suspicious =>
        (set_stats (λ st, st <| security_rejections := inc (security_rejections st) |>) s, Err SecurityValidationFailed)
      | Valid =>
        if max_candidates s <=? Z.of_nat (base.size (remote_candidates s)) then (s, Err TooManyCandidates)
        else if existsb (λ '(_, c), bool_decide (address c = addr) && not_removed c)
                  (order_candidates env (remote_candidates s)) then (s, Err DuplicateAddress)
        else
          let candidate := mk_candidate addr (wrap 32 prio) Peer now New 0 None in
          let s := s <| remote_candidates := <[sequence := candidate]> (remote_candidates s) |> in
          let s := set_stats (λ st, st <| remote_candidates_received := inc (remote_candidates_received st) |>) s in
          let s := add_pairs_for_remote_candidate sequence now s in
          let s :=
            if negb (ip_is_loopback (ip addr)) && negb (ip_is_unspecified (ip addr)) then
              let s := s <| port_predictor := PortPrediction.record_observation addr now (port_predictor s) |> in
              generate_predicted_candidates (ip addr) now s
            else s in
          (s, Ok tt)
      end.

Definition remove_candidate (sequence : Z) (s : NatTraversalState) : NatTraversalState * bool :=
  match remote_candidates s !! sequence with
  | Some candidate =>
    (s <| remote_candidates := <[sequence := candidate <| cstate := Removed |>]> (remote_candidates s) |>
       <| active_validations := delete (address candidate) (active_validations s) |>, true)
  | None => (s, false)
  end.

Definition calculate_local_preference (addr : SocketAddr) : Z :=
  match addr with
  | V4 o _ => if v4_is_loopback o then 0 else if v4_is_private o then 65000 else 32000
  | V6 o _ _ _ => if v6_is_loopback o then 0 else if segment o 0 =? 0xfe80 then 30000 else 50000
  end.

Definition add_local_candidate (addr : SocketAddr) (src : CandidateSource) (now : Z) (s : NatTraversalState)
    : NatTraversalState * Z :=
  let (s, sequence) := next_sequence_u32 s in
  let prio := calculate_candidate_priority (classify_candidate_type src) (calculate_local_preference addr) 1 in
  let candidate := mk_candidate addr prio src now New 0 None in
  let s := s <| local_candidates := <[sequence := candidate]> (local_candidates s) |> in
  let s := set_stats (λ st, st <| local_candidates_sent := inc (local_candidates_sent st) |>) s in
  (add_pairs_for_local_candidate sequence now s, sequence).

Definition queue_add_address_frame (sequence : Z) (addr : SocketAddr) (prio now : Z) (s : NatTraversalState) : NatTraversalState :=
  let candidate := mk_candidate addr prio Local now New 0 None in
  if existsb (λ '(_, c), bool_decide (address c = addr)) (order_candidates env (local_candidates s)) then s
  else s <| local_candidates := <[sequence := candidate]> (local_candidates s) |>.

(** ** Pairs *)

(** The positions of the pairs that [get_next_validation_pairs] borrows. *)
Fixpoint waiting_from (n : nat) (max_concurrent found : Z) (pairs : list CandidatePair) : list nat :=
  match pairs with
  | [] => []
  | p :: pairs =>
    if decide (p_state p = PWaiting) then
      n :: (if max_concurrent <=? found + 1 then [] else waiting_from (S n) max_concurrent (found + 1) pairs)
    else waiting_from (S n) max_concurrent found pairs
  end.

Definition get_next_validation_pairs (max_concurrent : Z) (s : NatTraversalState) : list CandidatePair :=
  omap (λ i, candidate_pairs s !! i) (waiting_from 0 max_concurrent 0 (candidate_pairs s)).

Definition find_pair_by_remote_addr (addr : SocketAddr) (s : NatTraversalState) : option (nat * CandidatePair) :=
  index ← pair_index s !! addr;
  p ← candidate_pairs s !! index;
  Some (index, p).

Definition mark_pair_succeeded (remote_addr : SocketAddr) (s : NatTraversalState) : NatTraversalState * bool :=
  match find_pair_by_remote_addr remote_addr s with
  | None => (s, false)
  | Some (index, p) =>
    let pairs := <[index := p <| p_state := PSucceeded |>]> (candidate_pairs s) in
    let freeze other :=
      if bool_decide (p_type other = p_type p) && (p_priority other <? p_priority p)
         && bool_decide (p_state other = PWaiting)
      then other <| p_state := Frozen |> else other in
    (s <| candidate_pairs := freeze <$> pairs |>, true)
  end.

Definition better (best : option CandidatePair) (p : CandidatePair) : option CandidatePair :=
  match best with
  | None => Some p
  | Some b => if p_priority b <? p_priority p then Some p else best
  end.

Definition get_best_succeeded_pairs (s : NatTraversalState) : list CandidatePair :=
  let '(best_ipv4, best_ipv6) :=
    foldl (λ '(b4, b6) p,
      if decide (p_state p = PSucceeded) then
        match p_remote p with
        | V4 _ _ => (better b4 p, b6)
        | V6 _ _ _ _ => (b4, better b6 p)
        end
      else (b4, b6)) (None, None) (candidate_pairs s) in
  option_list best_ipv4 ++ option_list best_ipv6.

(** ** Path validations *)

Definition get_validation_candidates (s : NatTraversalState) : list (Z * AddressCandidate) :=
  sort_by_key (λ '(_, c), - priority c)
    (List.filter (λ '(_, c), bool_decide (cstate c = New)) (order_candidates env (remote_candidates s))).

Definition is_validation_suspicious (c : AddressCandidate) (now : Z) : bool :=
  if attempt_count c >? 10 then true
  else if match last_attempt c with Some last => duration_since now last <? from_millis 100 | None => false end then true
  else bool_decide (cstate c = CFailed) && (duration_since now (discovered_at c) <? from_secs 60).

Definition start_validation (sequence challenge now : Z) (s : NatTraversalState)
    : NatTraversalState * result unit NatTraversalError :=
  match remote_candidates s !! sequence with
  | None => (s, Err UnknownCandidate)
  | Some candidate =>
    if negb (bool_decide (cstate candidate = New)) then (s, Err InvalidCandidateState)
    else if is_validation_suspicious candidate now then
      (set_stats (λ st, st <| security_rejections := inc (security_rejections st) |>) s, Err SecurityValidationFailed)
    else if 10 <=? Z.of_nat (base.size (active_validations s)) then (s, Err SecurityValidationFailed)
    else
      let candidate := candidate <| cstate := Validating |> <| attempt_count := inc (attempt_count candidate) |>
                                 <| last_attempt := Some now |> in
      let validation := mk_validation challenge now 0 3 (c_round <$> coordination s) AdaptiveTimeout.new None in
      (s <| remote_candidates := <[sequence := candidate]> (remote_candidates s) |>
         <| active_validations := <[address candidate := validation]> (active_validations s) |>, Ok tt)
  end.

Definition handle_validation_success (remote_addr : SocketAddr) (token now : Z) (s : NatTraversalState)
    : option (NatTraversalState * result Z NatTraversalError) :=
  match List.find (λ '(_, c), bool_decide (address c = remote_addr)) (order_candidates env (remote_candidates s)) with
  | None => Some (s, Err UnknownCandidate)
  | Some (sequence, _) =>
    match active_validations s !! remote_addr with
    | None => Some (s, Err NoActiveValidation)
    | Some validation =>
      if negb (challenge validation =? token) then Some (s, Err ChallengeMismatch)
      else
        let rtt := duration_since now (sent_at validation) in
        t ← update_success (random_for env remote_addr) rtt (v_timeout validation);
        let s := s <| active_validations := <[remote_addr := validation <| v_timeout := t |>]> (active_validations s) |>
                   <| network_monitor := Monitor.record_success rtt now (network_monitor s) |> in
        match remote_candidates s !! sequence with
        | None => Some (s, Err UnknownCandidate)
        | Some candidate =>
          let s := s <| remote_candidates := <[sequence := candidate <| cstate := CValid |>]> (remote_candidates s) |>
                     <| active_validations := delete remote_addr (active_validations s) |> in
          Some (set_stats (λ st, st <| validations_succeeded := inc (validations_succeeded st) |>) s, Ok sequence)
        end
    end
  end.

(** One validation of the loop over the retries of [check_validation_timeouts]. *)
Definition retry_validation (now : Z) (addr : SocketAddr) (s : NatTraversalState) : option NatTraversalState :=
  match active_validations s !! addr with
  | None => Some s
  | Some v =>
    t ← update_timeout (random_for env addr) (v_timeout v);
    let v := v <| v_retry_count := inc (v_retry_count v) |> <| sent_at := now |> <| v_last_retry_at := Some now |>
               <| v_timeout := t |> in
    Some (s <| active_validations := <[addr := v]> (active_validations s) |>)
  end.

Definition expire_validation (now : Z) (addr : SocketAddr) (s : NatTraversalState) : NatTraversalState :=
  s <| active_validations := delete addr (active_validations s) |>
    <| network_monitor := Monitor.record_timeout now (network_monitor s) |>.

Definition check_validation_timeouts (now : Z) (s : NatTraversalState) : option (NatTraversalState * list SocketAddr) :=
  let due := List.filter (λ '(_, v), get_timeout (v_timeout v) <=? duration_since now (sent_at v))
               (order_validations env (active_validations s)) in
  let retry_validations := (List.filter (λ '(_, v), should_retry (v_max_retries v) (v_timeout v)) due).*1 in
  let expired_validations := (List.filter (λ '(_, v), negb (should_retry (v_max_retries v) (v_timeout v))) due).*1 in
  s ← foldl (λ os addr, s ← os; retry_validation now addr s) (Some s) retry_validations;
  Some (foldl (λ s addr, expire_validation now addr s) s expired_validations, expired_validations).

(** ** Coordination *)

Definition get_coordination_phase (s : NatTraversalState) : option CoordinationPhase := phase <$> coordination s.

Definition should_send_punch_request (s : NatTraversalState) : bool :=
  match coordination s with
  | Some c => bool_decide (phase c = Requesting) && negb (punch_request_sent c)
  | None => false
  end.

Definition mark_punch_request_sent (s : NatTraversalState) : NatTraversalState :=
  match coordination s with
  | Some c => s <| coordination := Some (c <| punch_request_sent := true |> <| phase := Coordinating |>) |>
  | None => s
  end.

(** The run of consecutive addresses in a sorted list: three in a row. *)
Fixpoint sequential (count prev : Z) (l : list Z) : bool :=
  match l with
  | [] => false
  | x :: l =>
    if x =? wrapping_add 32 prev 1 then
      if 3 <=? count + 1 then true else sequential (count + 1) x l
    else sequential 1 x l
  end.

Definition is_coordination_suspicious (targets : list PunchTarget) : bool :=
  if zlen targets >? 20 then true
  else if negb (bool_decide (NoDup (t_addr <$> targets))) then true
  else if zlen targets >? 5 then
    let ipv4_addresses :=
      omap (λ t, match ip (t_addr t) with IpV4 o => Some (be_decode o) | IpV6 _ => None end) targets in
    if 3 <=? zlen ipv4_addresses then
      match sort_by_key (λ x, x) ipv4_addresses with
      | [] => false
      | x :: l => sequential 1 x l
      end
    else false
  else false.

(** The loop over the targets' addresses in [start_coordination_round]. *)
Fixpoint validate_targets (targets : list PunchTarget) (s : NatTraversalState)
    : NatTraversalState * result unit NatTraversalError :=
  match targets with
  | [] => (s, Ok tt)
  | t :: targets =>
    let (v, r) := validate_address (order_cache env) (t_addr t) (security_state s) in
    let s := s <| security_state := v |> in
    match r with
    | Invalid =>
      (set_stats (λ st, st <| invalid_address_rejections := inc (invalid_address_rejections st) |>
                           <| security_rejections := inc (security_rejections st) |>) s, Err InvalidAddress)
    | Suspicious =>
      (set_stats (λ st, st <| security_rejections := inc (security_rejections st) |>) s, Err SecurityValidationFailed)
    | Valid => validate_targets targets s
    end
  end.

Definition start_coordination_round (targets : list PunchTarget) (now : Z) (s : NatTraversalState)
    : NatTraversalState * result Z NatTraversalError :=
  let (v, limited) := is_coordination_rate_limited now (security_state s) in
  let s := s <| security_state := v |> in
  if limited then
    (set_stats (λ st, st <| rate_limit_violations := inc (rate_limit_violations st) |>) s, Err RateLimitExceeded)
  else if is_coordination_suspicious targets then
    (set_stats (λ st, st <| suspicious_coordination_attempts := inc (suspicious_coordination_attempts st) |>
                         <| security_rejections := inc (security_rejections st) |>) s, Err SuspiciousCoordination)
  else
    let (s, r) := validate_targets targets s in
    match r with
    | Err e => (s, Err e)
    | Ok _ =>
      let (s, round) := next_sequence_u32 s in
      let coord :=
        mk_coordination round targets now (now + from_millis 500) (coordination_timeout s) Requesting false false 0 3
          AdaptiveTimeout.new None in
      let s := s <| coordination := Some coord |> in
      (set_stats (λ st, st <| coordination_rounds := inc (coordination_rounds st) |>) s, Ok round)
    end.

Definition is_peer_coordination_suspicious (peer_round : Z) (s : NatTraversalState) : bool :=
  if peer_round =? 0 then true
  else
    match coordination s with
    | Some c => (peer_round >? c_round c + 100) || (peer_round + 100 <? c_round c)
    | None => false
    end.

(** The waiting time before punching, from the estimated RTT and the quality of the network. *)
Definition adaptive_grace (s : NatTraversalState) : Z :=
  let network_rtt := default (from_millis 100) (Monitor.get_estimated_rtt (network_monitor s)) in
  let quality_score := Monitor.quality_score (network_monitor s) in
  let rtt_factor := fclamp (Floats.div_f64 (millis_f64 network_rtt) (lit 100 1)) (lit 5 10) (lit 3 1) in
  let quality_factor := fclamp (Floats.sub_f64 (lit 2 1) quality_score) (lit 1 1) (lit 2 1) in
  from_millis (Floats.to_u64 (Floats.mul_f64 (Floats.mul_f64 (millis_f64 (from_millis 150)) rtt_factor) quality_factor)).

Definition handle_peer_punch_request (peer_round now : Z) (s : NatTraversalState)
    : NatTraversalState * result bool NatTraversalError :=
  if is_peer_coordination_suspicious peer_round s then
    (set_stats (λ st, st <| suspicious_coordination_attempts := inc (suspicious_coordination_attempts st) |>
                         <| security_rejections := inc (security_rejections st) |>) s, Err SuspiciousCoordination)
  else
    let should_reset :=
      match coordination s with
      | Some c => match phase c with Coordinating | Requesting => negb (c_round c =? peer_round) | _ => true end
      | None => false
      end in
    let s := if should_reset then s <| coordination := None |> else s in
    match coordination s with
    | Some c =>
      if c_round c =? peer_round then
        match phase c with
        | Coordinating | Requesting =>
          (s <| coordination := Some (c <| peer_punch_received := true |> <| phase := Preparing |>
                                        <| punch_start := now + adaptive_grace s |>) |>, Ok true)
        | Preparing => (s, Ok true)
        | _ => (s, Ok false)
        end
      else (s, Ok false)
    | None =>
      let coord :=
        mk_coordination peer_round [] now (now + from_millis 150) (coordination_timeout s) Preparing false true 0 3
          AdaptiveTimeout.new None in
      (s <| coordination := Some coord |>, Ok true)
    end.

Definition should_start_punching (now : Z) (s : NatTraversalState) : bool :=
  match coordination s with
  | Some c =>
    match phase c with
    | Preparing => punch_start c <=? now
    | Coordinating => peer_punch_received c && (punch_start c <=? now)
    | _ => false
    end
  | None => false
  end.

Definition start_punching_phase (now : Z) (s : NatTraversalState) : NatTraversalState :=
  match coordination s with
  | Some c =>
    let network_rtt := default (from_millis 100) (Monitor.get_estimated_rtt (network_monitor s)) in
    let jitter := from_millis (random_u64 env mod 11) in
    let transmission_time := punch_start c + network_rtt / 2 + jitter in
    s <| coordination := Some (c <| phase := Punching |> <| punch_start := Z.max transmission_time now |>) |>
  | None => s
  end.

Definition get_punch_targets_from_coordination (s : NatTraversalState) : option (list PunchTarget) :=
  punch_targets <$> coordination s.

Definition mark_coordination_validating (s : NatTraversalState) : NatTraversalState :=
  match coordination s with
  | Some c => if decide (phase c = Punching) then s <| coordination := Some (c <| phase := PValidating |>) |> else s
  | None => s
  end.

Definition handle_coordination_success (remote_addr : SocketAddr) (now : Z) (s : NatTraversalState)
    : option (NatTraversalState * bool) :=
  match coordination s with
  | Some c =>
    let was_target := existsb (λ t, bool_decide (t_addr t = remote_addr)) (punch_targets c) in
    if was_target && bool_decide (phase c = PValidating) then
      let rtt := duration_since now (round_start c) in
      t ← update_success (random_round env) rtt (c_timeout c);
      let s := s <| coordination := Some (c <| c_timeout := t |> <| phase := Succeeded |>) |>
                 <| network_monitor := Monitor.record_success rtt now (network_monitor s) |> in
      Some (set_stats (λ st, st <| direct_connections := inc (direct_connections st) |>) s, true)
    else Some (s, false)
  | None => Some (s, false)
  end.

Definition handle_coordination_failure (now : Z) (s : NatTraversalState) : option (NatTraversalState * bool) :=
  match coordination s with
  | Some c =>
    t ← update_timeout (random_round env) (c_timeout c);
    let c := c <| retry_count := inc (retry_count c) |> <| c_timeout := t |> in
    let s := s <| network_monitor := Monitor.record_timeout now (network_monitor s) |> in
    if should_retry (max_retries c) (c_timeout c) && Monitor.is_suitable_for_coordination (network_monitor s) then
      retry_delay ← get_retry_delay (c_timeout c);
      let quality_multiplier := Floats.sub_f64 (lit 2 1) (Monitor.quality_score (network_monitor s)) in
      let adjusted_delay := from_millis (Floats.to_u64 (Floats.mul_f64 (millis_f64 retry_delay) quality_multiplier)) in
      let c := c <| phase := Requesting |> <| punch_request_sent := false |> <| peer_punch_received := false |>
                 <| round_start := now |> <| last_retry_at := Some now |> <| punch_start := now + adjusted_delay |> in
      Some (s <| coordination := Some c |>, true)
    else
      let s := s <| coordination := Some (c <| phase := PFailed |>) |> in
      Some (set_stats (λ st, st <| coordination_failures := inc (coordination_failures st) |>) s, false)
  | None => Some (s, false)
  end.

Definition check_coordination_timeout (now : Z) (s : NatTraversalState) : option (NatTraversalState * bool) :=
  match coordination s with
  | Some c =>
    if duration_since now (round_start c) >? get_timeout (c_timeout c) then
      '(s, _) ← handle_coordination_failure now s;
      Some (s, true)
    else Some (s, false)
  | None => Some (s, false)
  end.

(** ** Timers *)

Definition min_timeout_at (next : option Z) (timeout_at : Z) : option Z :=
  Some (match next with Some t => Z.min t timeout_at | None => timeout_at end).

Definition coordination_timeout_at (s : NatTraversalState) : option Z :=
  match coordination s with
  | Some c =>
    match phase c with
    | Requesting | Coordinating => Some (round_start c + coordination_timeout s)
    | Preparing => Some (punch_start c)
    | Punching | PValidating => Some (round_start c + get_timeout (c_timeout c))
    | _ => None
    end
  | None => None
  end.

Definition get_next_timeout (now : Z) (s : NatTraversalState) : option Z :=
  let next_timeout := coordination_timeout_at s in
  let next_timeout :=
    foldl (λ next '(_, v), min_timeout_at next (sent_at v + get_timeout (v_timeout v))) next_timeout
      (order_validations env (active_validations s)) in
  if Resources.should_cleanup now (resource_manager s) then min_timeout_at next_timeout (now + from_secs 1)
  else next_timeout.

(** The part of [handle_timeout] that concerns the round. *)
Definition timeout_coordination (now : Z) (s : NatTraversalState) : NatTraversalState * list TimeoutAction :=
  match coordination s with
  | Some c =>
    match phase c with
    | Requesting | Coordinating =>
      if round_start c + coordination_timeout s <=? now then
        let c := c <| retry_count := inc (retry_count c) |> in
        if max_retries c <=? retry_count c then (s <| coordination := Some (c <| phase := PFailed |>) |>, [AFailed])
        else (s <| coordination := Some (c <| phase := Requesting |> <| round_start := now |>) |>, [RetryCoordination])
      else (s, [])
    | Preparing =>
      if punch_start c <=? now then (s <| coordination := Some (c <| phase := Punching |>) |>, [StartValidation])
      else (s, [])
    | Punching | PValidating =>
      if round_start c + get_timeout (c_timeout c) <=? now then
        let c := c <| retry_count := inc (retry_count c) |> in
        if max_retries c <=? retry_count c then (s <| coordination := Some (c <| phase := PFailed |>) |>, [AFailed])
        else (s <| coordination := Some (c <| phase := Punching |>) |>, [StartValidation])
      else (s, [])
    | Succeeded => (s, [Complete])
    | PFailed => (s, [AFailed])
    | Idle => (s, [])
    end
  | None => (s, [])
  end.

(** The loop over the validations: the new table, the addresses that expired, the actions. *)
Definition timeout_validation (now : Z)
    (acc : gmap SocketAddr PathValidationState * list SocketAddr * list TimeoutAction) (entry : SocketAddr * PathValidationState)
    : gmap SocketAddr PathValidationState * list SocketAddr * list TimeoutAction :=
  let '(m, expired, actions) := acc in
  let '(addr, v) := entry in
  if sent_at v + get_timeout (v_timeout v) <=? now then
    let v := v <| v_retry_count := inc (v_retry_count v) |> in
    if v_max_retries v <=? v_retry_count v then (<[addr := v]> m, expired ++ [addr], actions)
    else (<[addr := v <| sent_at := now |> <| v_last_retry_at := Some now |>]> m, expired, actions ++ [StartValidation])
  else acc.

Definition handle_timeout (now : Z) (s : NatTraversalState) : NatTraversalState * list TimeoutAction :=
  let (s, actions) := timeout_coordination now s in
  let '(m, expired, actions) :=
    foldl (timeout_validation now) (active_validations s, [], actions) (order_validations env (active_validations s)) in
  let s := s <| active_validations := foldl (λ m addr, delete addr m) m expired |> in
  let s :=
    if Resources.should_cleanup now (resource_manager s) then
      s <| resource_manager := Resources.perform_cleanup now (resource_manager s) |>
    else s in
  let s := s <| network_monitor := Monitor.update_quality_score now (network_monitor s) |> in
  let actions :=
    match coordination s with
    | Some _ => actions
    | None =>
      if decide (local_candidates s = ∅) then actions
      else if decide (remote_candidates s = ∅) then actions
      else actions ++ [RetryDiscovery]
    end in
  (s, actions).

(** ** Cleanup *)

Definition candidate_stale (timeout now : Z) (c : AddressCandidate) : bool :=
  (duration_since now (discovered_at c) >? timeout) || bool_decide (cstate c = CFailed) || bool_decide (cstate c = Removed).

(** [retain]: what is left, and how many were dropped. *)
Definition retain {K V} `{Countable K} (keep : V → bool) (m : gmap K V) : gmap K V * Z :=
  let kept := filter (λ '(_, v), keep v = true) m in
  (kept, Z.of_nat (base.size m) - Z.of_nat (base.size kept)).

Definition retain_list {A} (keep : A → bool) (l : list A) : list A * Z :=
  let kept := List.filter keep l in
  (kept, zlen l - zlen kept).

Definition cleanup_expired_resources (now : Z) (s : NatTraversalState) : NatTraversalState * Z :=
  let m := resource_manager s in
  let cfg := Resources.config m in
  let (validations, n1) :=
    retain (λ v, negb (duration_since now (sent_at v) >? Resources.validation_timeout cfg)) (active_validations s) in
  let (locals, n2) := retain (λ c, negb (candidate_stale (Resources.candidate_timeout cfg) now c)) (local_candidates s) in
  let (remotes, n3) := retain (λ c, negb (candidate_stale (Resources.candidate_timeout cfg) now c)) (remote_candidates s) in
  let (pairs, n4) :=
    retain_list (λ p, negb ((duration_since now (created_at p) >? Resources.candidate_timeout cfg)
                            || bool_decide (p_state p = PairFailed))) (candidate_pairs s) in
  let (coord, n5) :=
    match coordination s with
    | Some c =>
      if (duration_since now (round_start c) >? Resources.coordination_timeout cfg) || bool_decide (phase c = PFailed)
      then (None, 1) else (Some c, 0)
    | None => (None, 0)
    end in
  let cleaned := n1 + (n2 + n3) + n4 + n5 in
  let st := Resources.stats m in
  let m := m <| Resources.stats := st <| Resources.cleanup_operations := wrapping_add 64 (Resources.cleanup_operations st) 1 |>
                                      <| Resources.resources_cleaned := wrapping_add 64 (Resources.resources_cleaned st) cleaned |> |>
             <| Resources.last_cleanup := Some now |>
             <| Resources.cleanup_counter := wrapping_add 64 (Resources.cleanup_counter m) 1 |> in
  (s <| active_validations := validations |> <| local_candidates := locals |> <| remote_candidates := remotes |>
     <| candidate_pairs := pairs |> <| coordination := coord |> <| resource_manager := m |>, cleaned).

Definition aggressive_cleanup (now : Z) (s : NatTraversalState) : NatTraversalState * Z :=
  let cfg := Resources.config (resource_manager s) in
  let aggressive_timeout := Resources.candidate_timeout cfg / 2 in
  let keep_candidate c :=
    (duration_since now (discovered_at c) <=? aggressive_timeout) && negb (bool_decide (cstate c = CFailed)) in
  let (locals, n1) := retain keep_candidate (local_candidates s) in
  let (remotes, n2) := retain keep_candidate (remote_candidates s) in
  let (pairs, n3) :=
    retain_list (λ p, negb (bool_decide (p_state p = PWaiting)) || (duration_since now (created_at p) <=? aggressive_timeout))
      (candidate_pairs s) in
  let (validations, n4) :=
    retain (λ v, duration_since now (sent_at v) <=? Resources.validation_timeout cfg / 2) (active_validations s) in
  (s <| local_candidates := locals |> <| remote_candidates := remotes |> <| candidate_pairs := pairs |>
     <| active_validations := validations |>, n1 + n2 + n3 + n4).

Definition shutdown_cleanup (s : NatTraversalState) : NatTraversalState * Z :=
  let cleaned :=
    Z.of_nat (base.size (active_validations s)) + Z.of_nat (base.size (local_candidates s))
    + Z.of_nat (base.size (remote_candidates s)) + zlen (candidate_pairs s)
    + match coordination s with Some _ => 1 | None => 0 end in
  (s <| active_validations := ∅ |> <| local_candidates := ∅ |> <| remote_candidates := ∅ |> <| candidate_pairs := [] |>
     <| coordination := None |>, cleaned).

Definition perform_resource_management (now : Z) (s : NatTraversalState) : NatTraversalState * Z :=
  let m := Resources.update_stats (usage s) (resource_manager s) in
  let (m, memory_pressure) := Resources.calculate_memory_pressure (usage s) m in
  let s := s <| resource_manager := m |> in
  if Resources.should_cleanup now m then
    let (s, n1) := cleanup_expired_resources now s in
    if fgt memory_pressure (Resources.aggressive_cleanup_threshold (Resources.config m)) then
      let (s, n2) := aggressive_cleanup now s in (s, n1 + n2)
    else (s, n1)
  else (s, 0).

(** ** Coordinator *)

Definition handle_address_observation (peer_id : list Z) (observed_address : SocketAddr) (now : Z) (s : NatTraversalState)
    : NatTraversalState * result (option AddAddress) NatTraversalError :=
  match bootstrap_coordinator s with
  | None => (s, Ok None)
  | Some b =>
    let (s, sequence) := next_sequence_u32 s in
    let (b, r) := Bootstrap.observe_peer_address (order_cache env) peer_id observed_address now b in
    let s := s <| bootstrap_coordinator := Some b |> in
    match r with
    | Err e => (s, Err e)
    | Ok _ => (s, Ok (Bootstrap.generate_add_address_frame peer_id sequence 100 b))
    end
  end.

Definition handle_punch_me_now_frame (from_peer : list Z) (source_addr : SocketAddr) (frame : PunchMeNow) (now : Z)
    (s : NatTraversalState) : NatTraversalState * result (option PunchMeNow) NatTraversalError :=
  match bootstrap_coordinator s with
  | Some b =>
    let (b, r) := Bootstrap.process_punch_me_now_frame (order_cache env) from_peer source_addr frame now b in
    (s <| bootstrap_coordinator := Some b |>, r)
  | None => (s, Ok None)
  end.

Definition get_observed_address (peer_id : list Z) (s : NatTraversalState) : option SocketAddr :=
  b ← bootstrap_coordinator s; Bootstrap.peer_index b !! peer_id.

Definition record_callback_probe (success : bool) (s : NatTraversalState) : NatTraversalState :=
  set_stats (λ st,
    let st := st <| callback_probes_received := inc (callback_probes_received st) |> in
    if success then st <| callback_probes_successful := inc (callback_probes_successful st) |>
    else st <| callback_probes_failed := inc (callback_probes_failed st) |>) s.

End operations.
End NatTraversal.
