(* ===== verification/NatInvariants.v ===== *)
(** * Invariants of NAT traversal

    What every operation of [NatTraversalState] preserves: only addresses that passed the checks
    become candidates, are paired, validated and punched to; the table of pairs is in order and
    its index finds the best pair of an address; timeouts are in range, so that nothing panics;
    and the phase of a coordination round agrees with what the peer has sent. *)

From Stdlib Require Import SpecFloat.
From stdpp Require Import gmap list sorting.
From S2P Require Import Prelude Coding NatFrames Floats NatSecurity NatTimeouts NatTraversal.

Module NatInvariants.
Import NatFrames Net Security SecurityProofs AdaptiveTimeout TimeoutProofs NatTraversal.

(** ** The index of pairs *)

Lemma index_from k pairs a i :
  foldr (λ '(idx, p) m, <[p_remote p := idx]> m) (∅ : gmap SocketAddr nat) (zip (seq k (length pairs)) pairs) !! a = Some i ↔
  ∃ j p, i = (k + j)%nat ∧ pairs !! j = Some p ∧ p_remote p = a ∧ Forall (λ q, p_remote q ≠ a) (take j pairs).
Proof.
  revert k. induction pairs as [|p pairs IH]; intros k; simpl.
  - split; [done|]. by intros (j & p & _ & H & _).
  - destruct (decide (p_remote p = a)) as [Heq|Hne].
    + rewrite Heq, lookup_insert_eq. split.
      * intros [= <-]. exists 0%nat, p. by rewrite Nat.add_0_r.
      * intros ([|j] & q & -> & Hq & _ & Hf); [by rewrite Nat.add_0_r|]. by apply Forall_cons in Hf as [? _].
    + rewrite lookup_insert_ne by done. rewrite IH. split.
      * intros (j & q & -> & Hq & Ha & Hf). exists (S j), q. split_and!; [lia|done|done|by constructor].
      * intros ([|j] & q & -> & Hq & Ha & Hf); [by simplify_eq/=|]. apply Forall_cons in Hf as [_ Hf]. exists j, q. split_and!; [lia|done..].
Qed.

Lemma index_pairs_spec pairs a i : index_pairs pairs !! a = Some i ↔
  ∃ p, pairs !! i = Some p ∧ p_remote p = a ∧ Forall (λ q, p_remote q ≠ a) (take i pairs).
Proof.
  unfold index_pairs. rewrite index_from. split.
  - intros (j & p & -> & H). by exists p.
  - intros (p & H). exists i, p. by split.
Qed.

Lemma index_pairs_complete pairs p : p ∈ pairs → is_Some (index_pairs pairs !! p_remote p).
Proof.
  unfold index_pairs. generalize 0%nat. induction pairs as [|q pairs IH]; intros k Hin; [by apply elem_of_nil in Hin|]. simpl.
  apply elem_of_cons in Hin as [->|Hin]; [by rewrite lookup_insert_eq|].
  destruct (decide (p_remote q = p_remote p)) as [->|]; [by rewrite lookup_insert_eq|]. rewrite lookup_insert_ne by done. by apply IH.
Qed.

#[global] Instance higher_trans : Transitive higher.
Proof. intros p q r. unfold higher. lia. Qed.

(** The index finds a pair of an address iff there is one, and then one of the highest priority. *)
Lemma index_best pairs a : Sorted higher pairs →
  (∀ i, index_pairs pairs !! a = Some i → ∃ p, pairs !! i = Some p ∧ p_remote p = a ∧ ∀ q, q ∈ pairs → p_remote q = a → higher p q)
  ∧ (index_pairs pairs !! a = None → ∀ q, q ∈ pairs → p_remote q ≠ a).
Proof.
  intros Hs%Sorted_StronglySorted; [|apply _]. split.
  - intros i (p & Hp & Ha & Hf)%index_pairs_spec. exists p. split_and!; [done..|]. intros q Hq Hqa.
    rewrite <- (take_drop_middle _ _ _ Hp) in Hq, Hs. apply elem_of_app in Hq as [Hq|[->|Hq]%elem_of_cons].
    + rewrite Forall_forall in Hf. by apply Hf in Hq.
    + unfold higher. lia.
    + apply StronglySorted_app_1_r in Hs. apply StronglySorted_inv in Hs as [_ Hs]. rewrite Forall_forall in Hs. by apply Hs.
  - intros Hn q Hq <-. destruct (index_pairs_complete pairs q Hq) as [i Hi]. by rewrite Hi in Hn.
Qed.

Lemma find_pair_spec a s : pair_index s = index_pairs (candidate_pairs s) → Sorted higher (candidate_pairs s) →
  match find_pair_by_remote_addr a s with
  | Some (i, p) => candidate_pairs s !! i = Some p ∧ p_remote p = a ∧ ∀ q, q ∈ candidate_pairs s → p_remote q = a → higher p q
  | None => ∀ q, q ∈ candidate_pairs s → p_remote q ≠ a
  end.
Proof.
  intros Hi Hs. unfold find_pair_by_remote_addr. rewrite Hi. destruct (index_best _ a Hs) as [H1 H2].
  destruct (index_pairs (candidate_pairs s) !! a) as [i|]; simpl; [|by apply H2].
  destruct (H1 i eq_refl) as (p & Hp & Ha & Hb). rewrite Hp. simpl. by split_and!.
Qed.

(** ** The invariant

    [al]: whether loopback is allowed; [answered]: the addresses from which a response to a
    challenge has come; [asked]: the rounds in which the peer has asked to punch. *)

Section invariant.
Context (al : bool) (answered : SocketAddr → Prop) (asked : Z → Prop).

Definition valid_ip (a : SocketAddr) : Prop := perform_ip_validation al (ip a) = Valid.
Definition valid_addr (a : SocketAddr) : Prop := perform_address_validation al a = Valid.

Lemma valid_addr_ip a : valid_addr a → valid_ip a.
Proof. unfold valid_addr, valid_ip, perform_address_validation. by destruct (perform_ip_validation al (ip a)). Qed.

(** What the peer announces has passed all checks; a predicted address has the IP of such a one. *)
Definition remote_ok (c : AddressCandidate) : Prop :=
  valid_ip (address c) ∧ (csource c = Peer ∧ valid_addr (address c) ∨ csource c = Predicted)
  ∧ (cstate c = CValid → answered (address c)).

Definition pair_ok (p : CandidatePair) : Prop :=
  valid_ip (p_remote p) ∧ is_v6 (p_local p) = is_v6 (p_remote p) ∧ (p_state p = PSucceeded → answered (p_remote p)).

Definition validation_ok (a : SocketAddr) (v : PathValidationState) : Prop :=
  valid_ip a ∧ timeout_ok (v_timeout v) ∧ instant_ok (sent_at v) ∧ v_max_retries v = 3.

(** The phases before and after the peer's request. *)
Definition waiting_phase (p : CoordinationPhase) : bool := match p with Requesting | Coordinating => true | _ => false end.
Definition punching_phase (p : CoordinationPhase) : bool :=
  match p with Preparing | Punching | PValidating | Succeeded => true | _ => false end.

Definition round_ok (c : CoordinationState) : Prop :=
  Forall (λ t, valid_addr (t_addr t)) (punch_targets c) ∧ timeout_ok (c_timeout c) ∧ instant_ok (round_start c)
  ∧ max_retries c = 3
  ∧ (waiting_phase (phase c) = true → peer_punch_received c = false)
  ∧ (punching_phase (phase c) = true → peer_punch_received c = true)
  ∧ (peer_punch_received c = true → asked (c_round c)).

(** Without the order of the pairs. *)
Record inv_core (s : NatTraversalState) : Prop := {
  inv_cache : cache_ok (security_state s);
  inv_loopback : allow_loopback (security_state s) = al;
  inv_config : Resources.config (resource_manager s) = Resources.config_new;
  inv_limit : max_candidates s = 50;
  inv_remote : map_Forall (λ _, remote_ok) (remote_candidates s);
  inv_count : Z.of_nat (base.size (remote_candidates s)) ≤ max_candidates s;
  inv_pairs : Forall pair_ok (candidate_pairs s);
  inv_validations : map_Forall validation_ok (active_validations s);
  inv_round : ∀ c, coordination s = Some c → round_ok c;
}.

Record nat_inv (s : NatTraversalState) : Prop := {
  inv_all : inv_core s;
  inv_sorted : Sorted higher (candidate_pairs s);
  inv_index : pair_index s = index_pairs (candidate_pairs s);
}.

End invariant.

(** Replace what an operation leaves alone by the invariant of the state before. *)
Ltac keep H := destruct H; constructor; simpl; try assumption.

Lemma core_mono al (A A' : SocketAddr → Prop) (R R' : Z → Prop) s :
  (∀ a, A a → A' a) → (∀ r, R r → R' r) → inv_core al A R s → inv_core al A' R' s.
Proof.
  intros HA HR H. keep H.
  - intros k c Hc. destruct (inv_remote0 k c Hc) as (? & ? & ?). split_and!; auto.
  - eapply Forall_impl; [done|]. intros p (? & ? & ?). split_and!; auto.
  - intros c Hc. destruct (inv_round0 c Hc) as (? & ? & ? & ? & ? & ? & ?). split_and!; auto.
Qed.

Lemma nat_mono al (A A' : SocketAddr → Prop) (R R' : Z → Prop) s :
  (∀ a, A a → A' a) → (∀ r, R r → R' r) → nat_inv al A R s → nat_inv al A' R' s.
Proof. intros HA HR [H1 H2 H3]. constructor; [by eapply core_mono|done..]. Qed.

Section preservation.
Context (env : Env) `{!EnvOk env} (al : bool) (answered : SocketAddr → Prop) (asked : Z → Prop).
#[local] Abbreviation core := (inv_core al answered asked).
#[local] Abbreviation inv := (nat_inv al answered asked).

Lemma keys_order : keys_ok (order_cache env).
Proof. intros m. apply order_cache_ok. Qed.

Lemma stats_core f s : core s → core (set_stats f s).
Proof. intros H. by keep H. Qed.
Lemma stats_inv f s : inv s → inv (set_stats f s).
Proof. intros [H1 H2 H3]. constructor; [by apply stats_core|done..]. Qed.

Lemma nat_new_inv timeout now : inv (NatTraversal.new 50 timeout al now).
Proof. constructor; [|done..]. by constructor. Qed.

(** ** Pairs *)

Lemma reindex_inv s : core s → inv (sort_and_reindex_pairs env s).
Proof.
  intros H. constructor; [|apply sort_pairs_sorted|done]. keep H. simpl. by rewrite sort_pairs_perm.
Qed.

Lemma extend_inv ps s : inv s → Forall (pair_ok al answered) ps → inv (extend_pairs env ps s).
Proof.
  intros H Hp. destruct ps as [|p ps]; [done|]. apply reindex_inv. destruct H as [H _ _]. keep H. by apply Forall_app.
Qed.

(** Pairs are not answered before they are tried. *)
Lemma new_pair_ok l seq r now : remote_ok al answered r → is_v6 (address l) = is_v6 (address r) →
  pair_ok al answered (new_pair l seq r now).
Proof. intros (Hv & _) Hf. by split. Qed.

Lemma same_family (l r : AddressCandidate) : eqb (is_ipv4 (address l)) (is_ipv4 (address r)) = true → is_v6 (address l) = is_v6 (address r).
Proof. unfold is_ipv4. by destruct (is_v6 (address l)), (is_v6 (address r)). Qed.

Lemma compatible_family l r : are_candidates_compatible l r = true → is_v6 (address l) = is_v6 (address r).
Proof. unfold are_candidates_compatible. by destruct (address l), (address r). Qed.

Lemma order_in (m : gmap Z AddressCandidate) k c : In (k, c) (order_candidates env m) ↔ m !! k = Some c.
Proof. rewrite <- list_elem_of_In, order_candidates_ok. apply elem_of_map_to_list. Qed.

Lemma filter_take_in {A} (f : A → bool) n l x : x ∈ ztake n (List.filter f l) → In x l ∧ f x = true.
Proof.
  intros Hx. apply filter_In. apply list_elem_of_In. by eapply elem_of_sublist; [exact Hx|apply sublist_take].
Qed.

Lemma pairs_for_local_inv seq now s : inv s → inv (add_pairs_for_local_candidate env seq now s).
Proof.
  intros H. unfold add_pairs_for_local_candidate. destruct (_ <=? _); [done|].
  destruct (local_candidates s !! seq) as [l|]; [|done]. destruct (not_removed l); [|done]. apply extend_inv; [done|].
  apply Forall_fmap, Forall_forall. intros [k r] [Hin Hf]%filter_take_in. apply order_in in Hin. apply andb_true_iff in Hf as [_ Hf].
  apply new_pair_ok; [exact (inv_remote _ _ _ _ (inv_all _ _ _ _ H) k r Hin)|by apply same_family].
Qed.

Lemma pairs_for_remote_inv seq now s : inv s → inv (add_pairs_for_remote_candidate env seq now s).
Proof.
  intros H. unfold add_pairs_for_remote_candidate. destruct (_ <=? _); [done|].
  destruct (remote_candidates s !! seq) as [r|] eqn:Er; [|done]. destruct (not_removed r); [|done]. apply extend_inv; [done|].
  apply Forall_fmap, Forall_forall. intros [k l] [_ Hf]%filter_take_in. apply andb_true_iff in Hf as [_ Hf].
  apply new_pair_ok; [exact (inv_remote _ _ _ _ (inv_all _ _ _ _ H) seq r Er)|by apply same_family].
Qed.

Lemma generate_pairs_inv now s : inv s → inv (generate_candidate_pairs env now s).
Proof.
  intros [H _ _]. apply reindex_inv. pose proof (inv_remote _ _ _ _ H) as Hr. keep H. apply Forall_forall. intros p Hp.
  apply list_elem_of_In, in_flat_map in Hp as ([k l] & _ & Hp). destruct (not_removed l); [|done].
  apply in_flat_map in Hp as ([k' r] & Hin & Hp). apply order_in in Hin.
  destruct (not_removed r && are_candidates_compatible l r) eqn:E; [|done]. apply andb_true_iff in E as [_ Hc].
  destruct Hp as [<-|[]]. apply new_pair_ok; [by eapply Hr|by apply compatible_family].
Qed.

(** ** Candidates *)

Lemma size_insert_le (m : gmap Z AddressCandidate) k c : (base.size (<[k := c]> m) ≤ S (base.size m))%nat.
Proof. rewrite map_size_insert. destruct (m !! k); simpl; lia. Qed.

(** A candidate that replaces one of the table, or is added below the limit. *)
Lemma insert_remote_inv k c s : inv s → remote_ok al answered c →
  is_Some (remote_candidates s !! k) ∨ Z.of_nat (base.size (remote_candidates s)) < max_candidates s →
  inv (s <| remote_candidates := <[k := c]> (remote_candidates s) |>).
Proof.
  intros [H Hs Hi] Hc Hk. constructor; [|done..]. keep H; [by apply map_Forall_insert_2|].
  destruct Hk as [[c' Hk]|Hk]; [by rewrite map_size_insert_Some by eauto|].
  pose proof (size_insert_le (remote_candidates s) k c). lia.
Qed.

Lemma ip_new i p : ip (socket_addr_new i p) = i.
Proof. by destruct i. Qed.

Lemma predictions_inv i ports now s : perform_ip_validation al i = Valid → inv s → inv (add_predictions env i ports now s).
Proof.
  intros Hi. revert s. induction ports as [|p ports IH]; intros s H; simpl; [done|].
  destruct (existsb _ _); [by apply IH|]. destruct (Z.leb_spec (max_candidates s) (Z.of_nat (base.size (remote_candidates s)))); [done|].
  apply IH, pairs_for_remote_inv, stats_inv, insert_remote_inv; [done| |by right].
  split_and!; [by unfold valid_ip; cbn [address]; rewrite ip_new|by right|done].
Qed.

Lemma security_inv v s : inv s → cache_ok v → allow_loopback v = al → inv (s <| security_state := v |>).
Proof. intros [H Hs Hi] Hc Ha. constructor; [|done..]. by keep H. Qed.

Lemma rate_limit_fields now v :
  address_validation_cache (is_candidate_rate_limited now v).1 = address_validation_cache v
  ∧ allow_loopback (is_candidate_rate_limited now v).1 = allow_loopback v.
Proof. unfold is_candidate_rate_limited. by destruct (_ <=? _). Qed.

Lemma coordination_limit_fields now v :
  address_validation_cache (is_coordination_rate_limited now v).1 = address_validation_cache v
  ∧ allow_loopback (is_coordination_rate_limited now v).1 = allow_loopback v.
Proof. unfold is_coordination_rate_limited. by destruct (_ <=? _). Qed.

Lemma cache_ok_fields v v' : address_validation_cache v' = address_validation_cache v → allow_loopback v' = allow_loopback v →
  cache_ok v → cache_ok v'.
Proof. intros E1 E2. unfold cache_ok. by rewrite E1, E2. Qed.

(** The state after an address was classified, and the class. *)
Lemma validate_inv a s : inv s →
  (validate_address (order_cache env) a (security_state s)).2 = perform_address_validation al a
  ∧ inv (s <| security_state := (validate_address (order_cache env) a (security_state s)).1 |>).
Proof.
  intros H. pose proof (inv_all _ _ _ _ H) as Hc. pose proof (inv_loopback _ _ _ _ Hc) as Hl.
  destruct (validate_address_spec (order_cache env) a (security_state s) keys_order (inv_cache _ _ _ _ Hc)) as (Hr & Hk & c & Es).
  rewrite Hr, Hl. split; [done|]. apply security_inv; [done..|]. by rewrite Es.
Qed.

Lemma manager_inv m s : inv s → Resources.config m = Resources.config_new → inv (s <| resource_manager := m |>).
Proof. intros [H Hs Hi] Hc. constructor; [|done..]. by keep H. Qed.

Lemma reject_inv s : inv s → inv (should_reject_new_resources s).1.
Proof.
  intros H. pose proof (inv_config _ _ _ _ (inv_all _ _ _ _ H)) as Hc. unfold should_reject_new_resources. simpl.
  apply manager_inv; [done|]. unfold Resources.calculate_memory_pressure, Resources.update_stats. by destruct (_ || _).
Qed.

Lemma predictor_inv p s : inv s → inv (s <| port_predictor := p |>).
Proof. intros [H Hs Hi]. constructor; [|done..]. by keep H. Qed.

Lemma add_remote_inv seq a prio now s : inv s →
  inv (add_remote_candidate env seq a prio now s).1
  ∧ ∀ u, (add_remote_candidate env seq a prio now s).2 = Ok u → valid_addr al a.
Proof.
  intros H. unfold add_remote_candidate. pose proof (reject_inv s H) as H1. destruct (should_reject_new_resources s) as [s1 refused].
  simpl in H1. destruct refused; [done|]. pose proof (inv_all _ _ _ _ H1) as Hc1.
  destruct (rate_limit_fields now (security_state s1)) as [F1 F2].
  destruct (is_candidate_rate_limited now (security_state s1)) as [v limited]. simpl in F1, F2.
  assert (H2 : inv (s1 <| security_state := v |>)).
  { apply security_inv; [done| |by rewrite F2; apply Hc1]. eapply cache_ok_fields; [done..|]. apply Hc1. }
  destruct limited; [split; [by apply stats_inv|done]|].
  destruct (validate_inv a _ H2) as [Hr H3]. set (s2 := s1 <| security_state := v |>) in *.
  destruct (validate_address _ _ _) as [v2 r]. simpl in Hr, H3. subst r.
  destruct (perform_address_validation al a) eqn:Ea; [|split; [by apply stats_inv|done]..]. split; [|done].
  destruct (Z.leb_spec (max_candidates (s2 <| security_state := v2 |>))
    (Z.of_nat (base.size (remote_candidates (s2 <| security_state := v2 |>))))); [done|].
  destruct (existsb _ _); [done|].
  match goal with |- inv (if _ then ?g else ?s, _).1 => assert (H4 : inv s) end.
  { apply pairs_for_remote_inv, stats_inv, insert_remote_inv; [done| |by right].
    split_and!; [by apply valid_addr_ip|by left|done]. }
  cbn [fst]. destruct (negb _ && negb _); [|done]. unfold generate_predicted_candidates.
  destruct (Resources.is_prediction_allowed _); [|by apply predictor_inv].
  apply predictions_inv; [by apply valid_addr_ip|by apply predictor_inv].
Qed.

Lemma validations_inv m s : inv s → map_Forall (validation_ok al) m → inv (s <| active_validations := m |>).
Proof. intros [H Hs Hi] Hm. constructor; [|done..]. by keep H. Qed.

Lemma delete_validation_inv a s : inv s → inv (s <| active_validations := delete a (active_validations s) |>).
Proof. intros H. apply validations_inv; [done|]. apply map_Forall_delete, (inv_validations _ _ _ _ (inv_all _ _ _ _ H)). Qed.

Lemma insert_validation_inv a v s : inv s → validation_ok al a v → inv (s <| active_validations := <[a := v]> (active_validations s) |>).
Proof. intros H Hv. apply validations_inv; [done|]. apply map_Forall_insert_2, (inv_validations _ _ _ _ (inv_all _ _ _ _ H)); done. Qed.

Lemma remove_inv seq s : inv s → inv (remove_candidate seq s).1.
Proof.
  intros H. unfold remove_candidate. destruct (remote_candidates s !! seq) as [c|] eqn:Ec; [|done]. simpl.
  destruct (inv_remote _ _ _ _ (inv_all _ _ _ _ H) seq c Ec) as (Hv & Hsrc & _).
  assert (H1 : inv (s <| remote_candidates := <[seq := c <| cstate := Removed |>]> (remote_candidates s) |>)).
  { apply insert_remote_inv; [done| |by left; eauto]. by split. }
  exact (delete_validation_inv (address c) _ H1).
Qed.

Lemma nat_local_inv m s : inv s → inv (s <| local_candidates := m |>).
Proof. intros [H Hs Hi]. constructor; [|done..]. by keep H. Qed.

Lemma sequence_inv n s : inv s → inv (s <| next_sequence := n |>).
Proof. intros [H Hs Hi]. constructor; [|done..]. by keep H. Qed.

Lemma add_local_inv a src now s : inv s → inv (add_local_candidate env a src now s).1.
Proof. intros H. unfold add_local_candidate, next_sequence_u32. simpl. apply pairs_for_local_inv, stats_inv, nat_local_inv, sequence_inv, H. Qed.

(** ** Path validations *)

Lemma duration_ok now t : instant_ok now → instant_ok t → 0 ≤ duration_since now t ≤ CLOCK.
Proof. unfold instant_ok, duration_since. lia. Qed.

Lemma start_validation_inv seq ch now s : instant_ok now → inv s → inv (start_validation seq ch now s).1.
Proof.
  intros Hn H. unfold start_validation. destruct (remote_candidates s !! seq) as [c|] eqn:Ec; [|done].
  destruct (negb _); [done|]. destruct (is_validation_suspicious c now); [by apply stats_inv|]. destruct (_ <=? _); [done|].
  destruct (inv_remote _ _ _ _ (inv_all _ _ _ _ H) seq c Ec) as (Hv & Hsrc & _). simpl.
  match goal with |- inv (?s1 <| active_validations := _ |>) => assert (H1 : inv s1) end.
  { apply insert_remote_inv; [done| |by left; eauto]. by split. }
  apply (insert_validation_inv _ _ _ H1). split_and!; [done|apply new_timeout_ok|apply Hn..|done].
Qed.

Lemma find_in (m : gmap Z AddressCandidate) f k c : List.find f (order_candidates env m) = Some (k, c) →
  m !! k = Some c ∧ f (k, c) = true.
Proof. intros [Hin Hf]%List.find_some. by apply order_in in Hin. Qed.

#[local] Ltac refused := eexists _, _; split; [done|]; by split.

(** A response is accepted only from the address the challenge was for, and with its token. *)
Lemma validation_success_inv remote token now s : instant_ok now → inv s →
  ∃ s' r, handle_validation_success env remote token now s = Some (s', r)
  ∧ (∀ e, r = Err e → s' = s)
  ∧ (∀ seq, r = Ok seq →
       (∃ v, active_validations s !! remote = Some v ∧ challenge v = token)
       ∧ (∃ c, remote_candidates s !! seq = Some c ∧ address c = remote)
       ∧ coordination s' = coordination s
       ∧ nat_inv al (λ a, answered a ∨ a = remote) asked s').
Proof.
  intros Hn H. unfold handle_validation_success. destruct (List.find _ _) as [[seq c]|] eqn:Ef; [|refused].
  apply find_in in Ef as [Ec Ea]. apply bool_decide_eq_true in Ea.
  destruct (active_validations s !! remote) as [v|] eqn:Ev; [|refused].
  destruct (Z.eqb_spec (challenge v) token); simpl; [|refused].
  destruct (inv_validations _ _ _ _ (inv_all _ _ _ _ H) remote v Ev) as (Hip & Ht & Hsent & Hmax).
  destruct (update_success_ok (random_for env remote) (duration_since now (sent_at v)) (v_timeout v) (random_for_ok _) (duration_ok _ _ Hn Hsent) Ht) as (t & -> & Ht').
  simpl. rewrite Ec. eexists _, _. split; [done|]. split; [done|]. intros seq' [= <-]. split; [by eauto|]. split; [by eauto|]. split; [done|].
  apply (nat_mono _ answered (λ a, answered a ∨ a = remote) asked asked) in H; [|by auto..].
  destruct (inv_remote _ _ _ _ (inv_all _ _ _ _ H) seq c Ec) as (Hv & Hsrc & _). destruct H as [H Hs Hi]. constructor; [|done..]. keep H.
  - apply map_Forall_insert_2; [|done]. split_and!; [done..|]. intros _. by right.
  - by rewrite map_size_insert_Some by eauto.
  - rewrite delete_insert_eq. by apply map_Forall_delete.
Qed.

Lemma index_pairs_ext l k : p_remote <$> l = p_remote <$> k → index_pairs l = index_pairs k.
Proof.
  unfold index_pairs. generalize 0%nat. revert k. induction l as [|p l IH]; intros [|q k] n; try done. simpl. intros [= Hp Hl].
  rewrite Hp. f_equal. by apply IH.
Qed.

Lemma sorted_ext l k : p_priority <$> l = p_priority <$> k → Sorted higher l → Sorted higher k.
Proof.
  revert k. induction l as [|p l IH]; intros [|q k]; try done. simpl. intros [= Hp Hl] Hs.
  apply Sorted_inv in Hs as [Hs Hh]. constructor; [by apply IH|]. destruct l as [|p' l], k as [|q' k]; try done.
  simpl in Hl. injection Hl as Hp' _. apply HdRel_inv in Hh. constructor. unfold higher in *. lia.
Qed.

Lemma insert_fmap_id {B} (f : CandidatePair → B) (l : list CandidatePair) (i : nat) p p' : l !! i = Some p → f p' = f p → f <$> <[i := p']> l = f <$> l.
Proof. intros Hp E. rewrite list_fmap_insert, E. apply list_insert_id. by rewrite list_lookup_fmap, Hp. Qed.

Lemma mark_pair_inv remote s : answered remote → inv s → inv (mark_pair_succeeded remote s).1.
Proof.
  intros Ha H. unfold mark_pair_succeeded. destruct H as [H Hs Hi]. pose proof (find_pair_spec remote s Hi Hs) as Hf.
  destruct (find_pair_by_remote_addr remote s) as [[i p]|]; [|done]. destruct Hf as (Hp & Hr & _). cbn [fst].
  set (freeze := λ other : CandidatePair, _). set (l := freeze <$> _).
  assert (E1 : p_remote <$> l = p_remote <$> candidate_pairs s).
  { unfold l. rewrite <- list_fmap_compose. etrans; [apply list_fmap_ext|eapply (insert_fmap_id p_remote); [exact Hp|done]].
    intros j x _. unfold freeze. simpl. by destruct (_ && _). }
  assert (E2 : p_priority <$> l = p_priority <$> candidate_pairs s).
  { unfold l. rewrite <- list_fmap_compose. etrans; [apply list_fmap_ext|eapply (insert_fmap_id p_priority); [exact Hp|done]].
    intros j x _. unfold freeze. simpl. by destruct (_ && _). }
  constructor.
  - keep H. apply Forall_fmap, Forall_insert.
    + eapply Forall_impl; [done|]. intros x (H1 & H2 & H3). unfold freeze. simpl. destruct (_ && _); by split_and!.
    + rewrite Forall_lookup in inv_pairs0. destruct (inv_pairs0 i p Hp) as (H1 & H2 & _). unfold freeze. simpl.
      destruct (_ && _); (split_and!; [done..|]; simpl; intros; try done; by rewrite Hr).
  - by eapply sorted_ext.
  - simpl. rewrite Hi. by apply index_pairs_ext.
Qed.

Lemma monitor_inv m s : inv s → inv (s <| network_monitor := m |>).
Proof. intros [H Hs Hi]. constructor; [|done..]. by keep H. Qed.

(** A retry keeps the validation and its challenge, and counts one more timeout. *)
Lemma retry_inv now a s : instant_ok now → inv s →
  ∃ s', retry_validation env now a s = Some s' ∧ inv s' ∧ coordination s' = coordination s
  ∧ (∀ b, b ≠ a → active_validations s' !! b = active_validations s !! b)
  ∧ (∀ v, active_validations s !! a = Some v → ∃ v', active_validations s' !! a = Some v' ∧ sent_at v' = now
       ∧ challenge v' = challenge v
       ∧ consecutive_timeouts (v_timeout v') = wrapping_add 32 (consecutive_timeouts (v_timeout v)) 1)
  ∧ (active_validations s !! a = None → active_validations s' !! a = None).
Proof.
  intros Hn H. unfold retry_validation. destruct (active_validations s !! a) as [v|] eqn:Ev; [|eexists; split; [done|]; by split_and!].
  destruct (inv_validations _ _ _ _ (inv_all _ _ _ _ H) a v Ev) as (Hip & Ht & Hsent & Hmax).
  destruct (update_timeout_ok (random_for env a) (v_timeout v) (random_for_ok _) Ht) as (t & -> & Ht' & Hct). simpl.
  eexists. split; [done|]. split_and!; [|done| | |done].
  - apply insert_validation_inv; [done|]. by split_and!.
  - intros b Hb. simpl. by rewrite lookup_insert_ne by congruence.
  - intros v' [= <-]. simpl. rewrite lookup_insert_eq. eexists. split; [done|]. by split_and!.
Qed.

Lemma expire_inv now a s : inv s → inv (expire_validation now a s).
Proof. intros H. apply monitor_inv, delete_validation_inv, H. Qed.

(** What one check does to a validation: nothing before its timeout; at it a retry, three times;
    then the end. *)
Definition due (now : Z) (v : PathValidationState) : bool := get_timeout (v_timeout v) <=? duration_since now (sent_at v).
Definition retryable (v : PathValidationState) : bool := should_retry (v_max_retries v) (v_timeout v).

Definition retried (now : Z) (v v' : PathValidationState) : Prop :=
  sent_at v' = now ∧ challenge v' = challenge v
  ∧ consecutive_timeouts (v_timeout v') = wrapping_add 32 (consecutive_timeouts (v_timeout v)) 1.

Lemma retries_inv now l s : instant_ok now → NoDup l → inv s →
  ∃ s', foldl (λ os a, s ← os; retry_validation env now a s) (Some s) l = Some s' ∧ inv s' ∧ coordination s' = coordination s
  ∧ (∀ a, a ∉ l → active_validations s' !! a = active_validations s !! a)
  ∧ (∀ a, a ∈ l → match active_validations s !! a with
                   | Some v => ∃ v', active_validations s' !! a = Some v' ∧ retried now v v'
                   | None => active_validations s' !! a = None
                   end).
Proof.
  intros Hn. revert s. induction l as [|b l IH]; intros s Hnd H; simpl.
  { exists s. split_and!; try done. by intros a Ha%elem_of_nil. }
  apply NoDup_cons in Hnd as [Hb Hnd]. destruct (retry_inv now b s Hn H) as (s1 & -> & H1 & Hc & Hother & Hsome & Hnone).
  destruct (IH s1 Hnd H1) as (s' & -> & H' & Hc' & Hout & Hin). exists s'. split_and!; [done..|by rewrite Hc'| |].
  - intros a [Hab Hal]%not_elem_of_cons. rewrite Hout by done. by apply Hother.
  - intros a [->|Ha]%elem_of_cons.
    + rewrite (Hout b Hb). destruct (active_validations s !! b) as [v|]; [|by apply Hnone].
      destruct (Hsome v eq_refl) as (v' & Hv' & ?). exists v'. by split.
    + rewrite <- (Hother a) by congruence. by apply Hin.
Qed.

Lemma expire_all_inv now l s : inv s →
  inv (foldl (λ s a, expire_validation now a s) s l)
  ∧ coordination (foldl (λ s a, expire_validation now a s) s l) = coordination s
  ∧ ∀ a, active_validations (foldl (λ s a, expire_validation now a s) s l) !! a
         = if decide (a ∈ l) then None else active_validations s !! a.
Proof.
  revert s. induction l as [|b l IH]; intros s H; simpl; [done|].
  destruct (IH (expire_validation now b s) (expire_inv now b s H)) as (H1 & H2 & H3). split_and!; [done..|]. intros a. rewrite H3.
  simpl. destruct (decide (a = b)) as [->|Hab].
  - rewrite lookup_delete_eq. destruct (decide (b ∈ l)), (decide (b ∈ b :: l)); try done; set_solver.
  - rewrite lookup_delete_ne by done. destruct (decide (a ∈ l)), (decide (a ∈ b :: l)); try done; set_solver.
Qed.

Lemma selected_fst (f : SocketAddr * PathValidationState → bool) (m : gmap SocketAddr PathValidationState) :
  NoDup (List.filter f (order_validations env m)).*1
  ∧ ∀ a, a ∈ (List.filter f (order_validations env m)).*1 ↔ ∃ v, m !! a = Some v ∧ f (a, v) = true.
Proof.
  split.
  - assert (Hnd : NoDup (order_validations env m).*1) by (rewrite order_validations_ok; apply NoDup_fst_map_to_list).
    revert Hnd. generalize (order_validations env m). intros l. induction l as [|x l IH]; simpl; [done|]. intros [Hx Hl]%NoDup_cons.
    destruct (f x); simpl; [|by apply IH]. apply NoDup_cons. split; [|by apply IH]. intros Hin. apply Hx.
    apply list_elem_of_fmap in Hin as (y & -> & Hy). apply list_elem_of_fmap. exists y. split; [done|].
    apply list_elem_of_In, filter_In in Hy as [Hy _]. by apply list_elem_of_In.
  - intros a. rewrite list_elem_of_fmap. split.
    + intros ([b v] & -> & Hin). apply list_elem_of_In, filter_In in Hin as [Hin Hf]. exists v. split; [|done].
      apply elem_of_map_to_list. rewrite <- order_validations_ok. by apply list_elem_of_In.
    + intros (v & Hv & Hf). exists (a, v). split; [done|]. apply list_elem_of_In, filter_In. split; [|done].
      apply list_elem_of_In. rewrite order_validations_ok. by apply elem_of_map_to_list.
Qed.

Lemma filter_filter {A} (f g : A → bool) l : List.filter g (List.filter f l) = List.filter (λ x, f x && g x) l.
Proof. induction l as [|x l IH]; simpl; [done|]. destruct (f x); simpl; [|done]. destruct (g x); by rewrite IH. Qed.

Lemma check_validations_inv now s : instant_ok now → inv s →
  ∃ s' expired, check_validation_timeouts env now s = Some (s', expired) ∧ inv s' ∧ coordination s' = coordination s
  ∧ ∀ a, match active_validations s !! a with
         | None => active_validations s' !! a = None
         | Some v =>
           if due now v then
             if retryable v then ∃ v', active_validations s' !! a = Some v' ∧ retried now v v'
             else active_validations s' !! a = None
           else active_validations s' !! a = Some v
         end.
Proof.
  intros Hn H. unfold check_validation_timeouts. rewrite !filter_filter.
  match goal with |- context [mbind _ (foldl _ _ (List.filter ?f _).*1)] => set (f1 := f) end.
  match goal with |- context [List.filter ?f _] => lazymatch f with f1 => fail | _ => set (f2 := f) end end.
  destruct (selected_fst f1 (active_validations s)) as [Hnd Hin1]. destruct (selected_fst f2 (active_validations s)) as [_ Hin2].
  destruct (retries_inv now _ s Hn Hnd H) as (s1 & E1 & H1 & Hc1 & Hout & Hin).
  rewrite E1. simpl.
  destruct (expire_all_inv now (List.filter f2 (order_validations env (active_validations s))).*1 s1 H1) as (H2 & Hc2 & Hlook).
  eexists _, _. split; [done|]. split; [done|]. split; [by rewrite Hc2|]. intros a. rewrite Hlook.
  destruct (active_validations s !! a) as [v|] eqn:Ev.
  - assert (Hf1 : f1 (a, v) = due now v && retryable v) by done. assert (Hf2 : f2 (a, v) = due now v && negb (retryable v)) by done.
    assert (Hi1 : a ∈ (List.filter f1 (order_validations env (active_validations s))).*1 ↔ due now v && retryable v = true).
    { rewrite Hin1, <- Hf1. split; [intros (v' & ? & ?); by simplify_eq|by eauto]. }
    assert (Hi2 : a ∈ (List.filter f2 (order_validations env (active_validations s))).*1 ↔ due now v && negb (retryable v) = true).
    { rewrite Hin2, <- Hf2. split; [intros (v' & ? & ?); by simplify_eq|by eauto]. }
    destruct (decide (a ∈ (List.filter f2 _).*1)) as [D2|D2]; destruct (due now v), (retryable v); simpl in *; try (by apply Hi2 in D2); try done; try (by destruct D2; apply Hi2).
    + specialize (Hin a (proj2 Hi1 eq_refl)). by rewrite Ev in Hin.
    + rewrite Hout; [done|]. by intros D1%Hi1.
    + rewrite Hout; [done|]. by intros D1%Hi1.
  - destruct (decide _); [done|]. rewrite Hout; [done|]. intros (v & Hv & _)%Hin1. congruence.
Qed.

(** ** Coordination *)

Lemma nat_round_inv c s : inv s → round_ok al asked c → inv (s <| coordination := Some c |>).
Proof. intros [H Hs Hi] Hc. constructor; [|done..]. keep H. by intros ? [= <-]. Qed.

Lemma no_round_inv s : inv s → inv (s <| coordination := None |>).
Proof. intros [H Hs Hi]. constructor; [|done..]. by keep H. Qed.

Lemma targets_inv targets s : inv s → inv (validate_targets env targets s).1
  ∧ ((validate_targets env targets s).2 = Ok tt → Forall (λ t, valid_addr al (t_addr t)) targets).
Proof.
  revert s. induction targets as [|t targets IH]; intros s H; simpl; [done|].
  destruct (validate_inv (t_addr t) s H) as [Hr H1]. destruct (validate_address _ _ _) as [v r]. simpl in Hr, H1. subst r.
  destruct (perform_address_validation al (t_addr t)) eqn:Ea; [|split; [by apply stats_inv|done]..].
  destruct (IH _ H1) as [H2 H3]. split; [done|]. intros E. constructor; [done|by apply H3].
Qed.

(** A round starts in the phase [Requesting], and only with targets that pass the checks. *)
Lemma start_round_inv targets now s : instant_ok now → inv s →
  inv (start_coordination_round env targets now s).1
  ∧ ∀ round, (start_coordination_round env targets now s).2 = Ok round →
    should_send_punch_request (start_coordination_round env targets now s).1 = true.
Proof.
  intros Hn H. unfold start_coordination_round. pose proof (inv_all _ _ _ _ H) as Hc.
  destruct (coordination_limit_fields now (security_state s)) as [F1 F2].
  destruct (is_coordination_rate_limited now (security_state s)) as [v limited]. simpl in F1, F2.
  assert (H1 : inv (s <| security_state := v |>)).
  { apply security_inv; [done| |by rewrite F2; apply Hc]. eapply cache_ok_fields; [done..|]. apply Hc. }
  destruct limited; [split; [by apply stats_inv|done]|].
  destruct (is_coordination_suspicious targets); [split; [by apply stats_inv|done]|].
  destruct (targets_inv targets _ H1) as [H2 Ht]. destruct (validate_targets _ _ _) as [s2 [[]|e]]; simpl in H2, Ht; [|done].
  split; [|done]. unfold next_sequence_u32. simpl.
  apply stats_inv, nat_round_inv; [by apply sequence_inv|]. refine (conj (Ht eq_refl) (conj new_timeout_ok (conj Hn (conj eq_refl _)))). by split_and!.
Qed.

Lemma request_sent_inv s : inv s → should_send_punch_request s = true → inv (mark_punch_request_sent s).
Proof.
  intros H. unfold should_send_punch_request, mark_punch_request_sent. destruct (coordination s) as [c|] eqn:Ec; [|done].
  intros [Hp%bool_decide_eq_true _]%andb_true_iff. apply nat_round_inv; [done|].
  destruct (inv_round _ _ _ _ (inv_all _ _ _ _ H) c Ec) as (? & ? & ? & ? & Hw & _ & Ha). split_and!; try done.
  simpl. intros _. apply Hw. by rewrite Hp.
Qed.

(** The peer's request for a round: after it the round may go on to punching. *)
Lemma peer_request_inv r now s : instant_ok now → asked r → inv s → inv (handle_peer_punch_request r now s).1.
Proof.
  intros Hn Hr H. unfold handle_peer_punch_request. destruct (is_peer_coordination_suspicious r s); [by apply stats_inv|].
  set (reset := match coordination s with Some _ => _ | None => false end).
  assert (H1 : inv (if reset then s <| coordination := None |> else s)).
  { destruct reset; [by apply no_round_inv|done]. }
  revert H1. generalize (if reset then s <| coordination := None |> else s). clear H. intros s1 H.
  destruct (coordination s1) as [c|] eqn:Ec.
  - destruct (Z.eqb_spec (c_round c) r) as [Er|]; [|done].
    destruct (inv_round _ _ _ _ (inv_all _ _ _ _ H) c Ec) as (? & ? & ? & ? & Hw & _ & Ha).
    destruct (phase c); try done; (apply nat_round_inv; [done|]; split_and!; try done; simpl; intros _; by rewrite Er).
  - apply nat_round_inv; [done|]. refine (conj (Forall_nil_2 _) (conj new_timeout_ok (conj Hn (conj eq_refl _)))).
    split_and!; [done..|]. done.
Qed.

Lemma phase_inv c s ph : inv s → coordination s = Some c → punching_phase (phase c) = true → waiting_phase ph = false →
  inv (s <| coordination := Some (c <| phase := ph |>) |>).
Proof.
  intros H Ec Hp Hw. destruct (inv_round _ _ _ _ (inv_all _ _ _ _ H) c Ec) as (? & ? & ? & ? & _ & Hr & Ha).
  apply nat_round_inv; [done|]. split_and!; try done; simpl; [by rewrite Hw|]. intros _. by apply Hr.
Qed.

(** Punching starts only in a round in which the peer asked for it. *)
Lemma punch_allowed now s c : inv s → coordination s = Some c → should_start_punching now s = true →
  peer_punch_received c = true ∧ asked (c_round c).
Proof.
  intros H Ec. unfold should_start_punching. rewrite Ec.
  destruct (inv_round _ _ _ _ (inv_all _ _ _ _ H) c Ec) as (_ & _ & _ & _ & Hw & Hr & Ha).
  destruct (phase c); try done; simpl in *; [intros [E _]%andb_true_iff|intros _; pose proof (Hr eq_refl) as E]; by auto.
Qed.

Lemma punching_inv now s : inv s → should_start_punching now s = true → inv (start_punching_phase env now s).
Proof.
  intros H Hp. unfold start_punching_phase. destruct (coordination s) as [c|] eqn:Ec; [|done].
  destruct (punch_allowed now s c H Ec Hp) as [Hr Ha].
  destruct (inv_round _ _ _ _ (inv_all _ _ _ _ H) c Ec) as (? & ? & ? & ? & _). apply nat_round_inv; [done|]. by split_and!.
Qed.

Lemma validating_inv s : inv s → inv (mark_coordination_validating s).
Proof.
  intros H. unfold mark_coordination_validating. destruct (coordination s) as [c|] eqn:Ec; [|done].
  destruct (decide _) as [Hp|]; [|done]. apply phase_inv; [done..|by rewrite Hp|done].
Qed.

Lemma round_success_inv remote now s : instant_ok now → inv s →
  ∃ s' r, handle_coordination_success env remote now s = Some (s', r) ∧ inv s' ∧ candidate_pairs s' = candidate_pairs s
  ∧ active_validations s' = active_validations s.
Proof.
  intros Hn H. unfold handle_coordination_success. destruct (coordination s) as [c|] eqn:Ec; [|eexists _, _; by split].
  destruct (_ && _) eqn:E; [|eexists _, _; by split]. apply andb_true_iff in E as [_ Hp%bool_decide_eq_true].
  destruct (inv_round _ _ _ _ (inv_all _ _ _ _ H) c Ec) as (H1 & H2 & H3 & H4 & H5 & H6 & H7).
  destruct (update_success_ok (random_round env) (duration_since now (round_start c)) (c_timeout c) random_round_ok (duration_ok _ _ Hn H3) H2) as (t & -> & Ht).
  simpl. eexists _, _. split; [done|]. split; [|by split]. apply stats_inv.
  match goal with |- inv (?s1 <| network_monitor := _ |>) => assert (H8 : inv s1) end; [|by apply monitor_inv].
  apply nat_round_inv; [done|]. split_and!; try done. simpl. intros _. apply H6. by rewrite Hp.
Qed.

Lemma round_failure_inv now s : instant_ok now → inv s →
  ∃ s' r, handle_coordination_failure env now s = Some (s', r) ∧ inv s' ∧ active_validations s' = active_validations s.
Proof.
  intros Hn H. unfold handle_coordination_failure. destruct (coordination s) as [c|] eqn:Ec; [|eexists _, _; by split].
  destruct (inv_round _ _ _ _ (inv_all _ _ _ _ H) c Ec) as (H1 & H2 & H3 & H4 & H5 & H6 & H7).
  destruct (update_timeout_ok (random_round env) (c_timeout c) random_round_ok H2) as (t & -> & Ht & _). cbn [mbind option_bind].
  destruct (_ && _).
  - cbn [c_timeout set_field]. destruct (get_retry_delay_ok t Ht) as (d & Hd & _). simpl. rewrite Hd. simpl.
    eexists _, _. split; [done|]. split; [|done]. apply nat_round_inv; [by apply monitor_inv|]. split_and!; try done; apply Hn.
  - eexists _, _. split; [done|]. split; [|done]. apply stats_inv, nat_round_inv; [by apply monitor_inv|]. by split_and!.
Qed.

Lemma check_round_inv now s : instant_ok now → inv s →
  ∃ s' r, check_coordination_timeout env now s = Some (s', r) ∧ inv s' ∧ active_validations s' = active_validations s.
Proof.
  intros Hn H. unfold check_coordination_timeout. destruct (coordination s) as [c|] eqn:Ec; [|eexists _, _; by split].
  destruct (_ >? _); [|eexists _, _; by split]. destruct (round_failure_inv now s Hn H) as (s' & r & -> & H1 & H2).
  eexists _, _. by split.
Qed.

(** ** The timer *)

Lemma round_timer_inv now s : instant_ok now → inv s → inv (timeout_coordination now s).1.
Proof.
  intros Hn H. unfold timeout_coordination. destruct (coordination s) as [c|] eqn:Ec; [|done].
  destruct (inv_round _ _ _ _ (inv_all _ _ _ _ H) c Ec) as (H1 & H2 & H3 & H4 & H5 & H6 & H7).
  destruct (phase c) eqn:Ep; try done; (destruct (_ <=? _); [|done]); try (destruct (_ <=? _)); cbn [fst];
    (apply nat_round_inv; [done|]; split_and!; simpl; auto; done).
Qed.

Lemma validation_timer_inv now l m expired actions : instant_ok now → map_Forall (validation_ok al) m →
  Forall (λ '(a, v), validation_ok al a v) l →
  map_Forall (validation_ok al) (foldl (timeout_validation now) (m, expired, actions) l).1.1.
Proof.
  intros Hn. revert m expired actions. induction l as [|[a v] l IH]; intros m expired actions Hm Hl; [done|].
  apply Forall_cons in Hl as [Hv Hl]. cbn [foldl timeout_validation]. destruct Hv as (H1 & H2 & H3 & H4).
  destruct (_ <=? now); [|by apply IH]. destruct (_ <=? _); (apply IH; [|done]); (apply map_Forall_insert_2; [|done]); by split_and!.
Qed.

Lemma deletes_forall (P : SocketAddr → PathValidationState → Prop) (l : list SocketAddr) (m : gmap SocketAddr PathValidationState) : map_Forall P m → map_Forall P (foldl (λ m a, delete a m) m l).
Proof. revert m. induction l as [|a l IH]; intros m Hm; [done|]. by apply IH, map_Forall_delete. Qed.

Lemma timer_inv now s : instant_ok now → inv s → inv (handle_timeout env now s).1.
Proof.
  intros Hn H. unfold handle_timeout. pose proof (round_timer_inv now s Hn H) as H1. clear H.
  destruct (timeout_coordination now s) as [s1 actions]. simpl in H1. pose proof (inv_validations _ _ _ _ (inv_all _ _ _ _ H1)) as Hv.
  pose proof (validation_timer_inv now (order_validations env (active_validations s1)) (active_validations s1) [] actions Hn Hv) as Hf.
  destruct (foldl (timeout_validation now) _ _) as [[m expired] actions']. simpl in Hf.
  assert (Hm : map_Forall (validation_ok al) m).
  { apply Hf. apply Forall_forall. intros [a v] Hin. rewrite order_validations_ok in Hin. apply elem_of_map_to_list in Hin. by apply Hv. }
  cbn [fst]. apply monitor_inv. assert (H2 := validations_inv _ s1 H1 (deletes_forall _ expired m Hm)).
  destruct (Resources.should_cleanup _ _); [|done]. apply manager_inv; [done|]. apply (inv_config _ _ _ _ (inv_all _ _ _ _ H2)).
Qed.

Lemma bootstrap_inv b s : inv s → inv (s <| bootstrap_coordinator := b |>).
Proof. intros [H Hs Hi]. constructor; [|done..]. by keep H. Qed.

End preservation.
End NatInvariants.
