(* ===== verification/NatConnection.v ===== *)
(** * NAT traversal in a connection and an endpoint

    Models the part of [src/connection/mod.rs] that drives [NatTraversalState]: the handlers of
    ADD_ADDRESS, PUNCH_ME_NOW, REMOVE_ADDRESS and of the PATH_RESPONSEs to candidates, the
    PATH_CHALLENGEs that [poll_transmit] sends, the timer, and the calls of the application; and
    of [src/endpoint.rs] the table of peers by which a PUNCH_ME_NOW frame is relayed from one
    connection to another.

    [NatConn] holds the fields of [Connection] that this part reads and writes.  Building a packet
    ([PacketBuilder]) either succeeds or not; the outcome is an argument, as are the random
    challenges and the hash by which a connection names its peer. *)

From stdpp Require Import gmap list.
From S2P Require Import Prelude Coding NatFrames NatSecurity NatTimeouts NatTraversal.

Module NatConnection.
Import NatFrames Net Security NatTraversal.

Inductive EndpointEvent :=
| PeerAddressAdvertised (peer_addr advertised_addr : SocketAddr)
| RelayPunchMeNow (target_peer_id : list Z) (frame : PunchMeNow) (sender_addr : SocketAddr)
| InitiateHolePunch (peer_address : SocketAddr).

(** The only kind the handlers return. *)
Inductive TransportError := PROTOCOL_VIOLATION.

Record NatConn := mk_conn {
  nat_traversal : option NatTraversalState;
  path_remote : SocketAddr;
  path_challenge : option Z;
  challenge_pending : bool;
  local_ip : option IpAddr;
  pending_add_addresses : list AddAddress;
  pending_punch_me_now : list PunchMeNow;
  pending_remove_addresses : list Z;
  endpoint_events : list EndpointEvent;
  nat_timer : option Z;
  path_validation_timer : option Z;
}.
#[global] Instance conn_settable : Settable NatConn := λ c,
  mk_conn (nat_traversal c) (path_remote c) (path_challenge c) (challenge_pending c) (local_ip c) (pending_add_addresses c)
    (pending_punch_me_now c) (pending_remove_addresses c) (endpoint_events c) (nat_timer c) (path_validation_timer c).

Definition set_nat (s : NatTraversalState) (c : NatConn) : NatConn := c <| nat_traversal := Some s |>.
Definition emit (e : EndpointEvent) (c : NatConn) : NatConn := c <| endpoint_events := endpoint_events c ++ [e] |>.

Section handlers.
Context (env : Env) (derive_peer_id : SocketAddr → list Z).

Definition init_nat_traversal_with_negotiated_config (allow_loopback : bool) (now : Z) (c : NatConn) : NatConn :=
  set_nat (NatTraversal.new 50 (from_secs 10) allow_loopback now) c <| nat_timer := Some (now + from_millis 50) |>.

(** ** Frames of the peer *)

Definition trigger_candidate_validation (candidate_address : SocketAddr) (challenge now : Z) (c : NatConn)
    : NatConn * result unit TransportError :=
  match nat_traversal c with
  | None => (c, Err PROTOCOL_VIOLATION)
  | Some s =>
    match active_validations s !! candidate_address with
    | Some _ => (c, Ok tt)
    | None =>
      let validation_state := mk_validation challenge now 0 3 None AdaptiveTimeout.new None in
      let s := s <| active_validations := <[candidate_address := validation_state]> (active_validations s) |> in
      let s := set_stats (λ st, st <| validations_succeeded := inc (validations_succeeded st) |>) s in
      (set_nat s c, Ok tt)
    end
  end.

Definition handle_add_address (challenge : Z) (add_address : AddAddress) (now : Z) (c : NatConn)
    : NatConn * result unit TransportError :=
  match nat_traversal c with
  | None => (c, Err PROTOCOL_VIOLATION)
  | Some s =>
    let normalized_addr := normalize_socket_addr (aa_address add_address) in
    let peer_addr := normalize_socket_addr (path_remote c) in
    if decide (ip peer_addr = ip normalized_addr) then (c, Ok tt)
    else
      let (s, r) :=
        add_remote_candidate env (aa_sequence add_address) normalized_addr (NatFrames.priority add_address) now s in
      let c := set_nat s c in
      match r with
      | Ok _ =>
        let c := emit (PeerAddressAdvertised (path_remote c) normalized_addr) c in
        trigger_candidate_validation normalized_addr challenge now c
      | Err TooManyCandidates => (c, Err PROTOCOL_VIOLATION)
      | Err DuplicateAddress => (c, Ok tt)
      | Err _ => (c, Ok tt)
      end
  end.

Definition handle_punch_me_now (punch_me_now : PunchMeNow) (now : Z) (c : NatConn) : NatConn * result unit TransportError :=
  let as_peer :=
    match nat_traversal c with
    | None => (c, Err PROTOCOL_VIOLATION)
    | Some s =>
      let (s, r) := handle_peer_punch_request (round punch_me_now) now s in
      let c := set_nat s c in
      match r with
      | Err _ => (c, Err PROTOCOL_VIOLATION)
      | Ok true => (emit (InitiateHolePunch (pm_address punch_me_now)) c, Ok tt)
      | Ok false => (c, Ok tt)
      end
    end in
  match nat_traversal c, target_peer_id punch_me_now with
  | Some s, Some target_peer_id =>
    match bootstrap_coordinator s with
    | Some _ =>
      let from_peer_id := derive_peer_id (path_remote c) in
      let (s, r) := handle_punch_me_now_frame env from_peer_id (path_remote c) punch_me_now now s in
      let c := set_nat s c in
      match r with
      | Ok (Some coordination_frame) => (emit (RelayPunchMeNow target_peer_id coordination_frame (path_remote c)) c, Ok tt)
      | Ok None => (c, Ok tt)
      | Err _ => (c, Ok tt)
      end
    | None => as_peer
    end
  | _, _ => as_peer
  end.

Definition handle_remove_address (sequence : Z) (c : NatConn) : NatConn * result unit TransportError :=
  match nat_traversal c with
  | None => (c, Err PROTOCOL_VIOLATION)
  | Some s => (set_nat (remove_candidate sequence s).1 c, Ok tt)
  end.

(** ** Migration *)

Definition unspecified_addr : SocketAddr := V4 [0; 0; 0; 0] 0.

(** The pair [migrate_to_nat_traversal_path] selects. *)
Definition migration_pair (c : NatConn) : result CandidatePair TransportError :=
  match nat_traversal c with
  | None => Err PROTOCOL_VIOLATION
  | Some s =>
    let best_pairs := get_best_succeeded_pairs s in
    match List.find (λ p, negb (bool_decide (p_remote p = path_remote c))) best_pairs, head best_pairs with
    | Some p, _ => Ok p
    | None, Some p => Ok p
    | None, None => Err PROTOCOL_VIOLATION
    end
  end.

(** [migrate] is the change of the remote address here, with a new challenge pending. *)
Definition migrate_to_nat_traversal_path (challenge : Z) (c : NatConn) : NatConn * result unit TransportError :=
  match migration_pair c with
  | Err e => (c, Err e)
  | Ok p =>
    let c := c <| path_remote := p_remote p |> <| path_challenge := Some challenge |> <| challenge_pending := true |> in
    let c := if decide (p_local p = unspecified_addr) then c else c <| local_ip := Some (ip (p_local p)) |> in
    (c, Ok tt)
  end.

(** A PATH_RESPONSE that is not the one the path waits for.  [can_migrate]: a client, or a server
    that allows migration. *)
Definition handle_nat_path_response (can_migrate : bool) (remote : SocketAddr) (token new_challenge now : Z) (c : NatConn)
    : option NatConn :=
  match nat_traversal c with
  | None => Some c
  | Some s =>
    let! (s, r) := handle_validation_success env remote token now s else None in
    match r with
    | Ok _ =>
      let! (s, succeeded) := handle_coordination_success env remote now s else None in
      let c := set_nat s c in
      if succeeded then
        if can_migrate then
          match head (get_best_succeeded_pairs s) with
          | Some best =>
            if bool_decide (p_remote best = remote) && negb (bool_decide (p_remote best = path_remote c)) then
              Some (migrate_to_nat_traversal_path new_challenge c).1
            else Some c
          | None => Some c
          end
        else Some c
      else Some (set_nat (mark_pair_succeeded remote s).1 c)
    | Err _ => Some (set_nat s c)
    end
  end.

(** ** Sending *)

Definition send_coordination_request (c : NatConn) : NatConn :=
  match nat_traversal c with
  | None => c
  | Some s =>
    if should_send_punch_request s then
      match coordination s with
      | None => c
      | Some coord =>
        match punch_targets coord with
        | [] => c
        | targets =>
          let punches := (λ t, mk_punch_me_now (c_round coord) (t_sequence t) (t_addr t) None) <$> targets in
          set_nat (mark_punch_request_sent s) (c <| pending_punch_me_now := pending_punch_me_now c ++ punches |>)
        end
      end
    else c
  end.

(** A PATH_CHALLENGE on its way: the destination and the token. *)
Definition Challenge : Type := SocketAddr * Z.

Definition send_coordinated_path_challenge (built : bool) (now : Z) (c : NatConn) : NatConn * option Challenge :=
  match nat_traversal c with
  | None => (c, None)
  | Some s =>
    let s := if should_start_punching now s then start_punching_phase env now s else s in
    let c := set_nat s c in
    match get_coordination_phase s with
    | Some Punching =>
      match get_punch_targets_from_coordination s with
      | Some (target :: _) =>
        if built then (set_nat (mark_coordination_validating s) c, Some (t_addr target, t_challenge target))
        else (c, None)
      | _ => (c, None)
      end
    | _ => (c, None)
    end
  end.

Definition send_nat_traversal_challenge (built1 built2 : bool) (challenge now : Z) (c : NatConn) : NatConn * option Challenge :=
  let c := send_coordination_request c in
  let (c, punch) := send_coordinated_path_challenge built1 now c in
  match punch with
  | Some punch => (c, Some punch)
  | None =>
    match nat_traversal c with
    | None => (c, None)
    | Some s =>
      match get_validation_candidates env s with
      | [] => (c, None)
      | (sequence, candidate) :: _ =>
        let (s, r) := start_validation sequence challenge now s in
        let c := set_nat s c in
        match r with
        | Err _ => (c, None)
        | Ok _ => (c, if built2 then Some (address candidate, challenge) else None)
        end
      end
    end
  end.

(** The beginning of [poll_transmit]. *)
Definition poll_nat_timeouts (now : Z) (c : NatConn) : option NatConn :=
  match nat_traversal c with
  | None => Some c
  | Some s =>
    let! (s, _) := check_coordination_timeout env now s else None in
    let! (s, _) := check_validation_timeouts env now s else None in
    Some (set_nat s c)
  end.

(** ** The timer *)

Definition poll_nat_timeout (now : Z) (c : NatConn) : NatConn :=
  match nat_traversal c with
  | None => c
  | Some s => match get_next_timeout env now s with Some t => c <| nat_timer := Some t |> | None => c end
  end.

(** Each pair gets a challenge, and all but the last are overwritten. *)
Definition start_nat_traversal_validation (draw : nat → Z) (now : Z) (c : NatConn) : NatConn :=
  match nat_traversal c with
  | None => c
  | Some s =>
    let pairs := get_next_validation_pairs 3 s in
    let c :=
      match length pairs with
      | O => c
      | S n => c <| path_challenge := Some (draw n) |> <| challenge_pending := true |>
      end in
    c <| path_validation_timer := Some (now + from_secs 3) |>
  end.

Definition handle_nat_traversal_failure (c : NatConn) : NatConn := c <| nat_traversal := None |> <| nat_timer := None |>.

Definition timeout_action (draw : nat → Z) (now : Z) (c : NatConn) (action : TimeoutAction) : NatConn :=
  match action with
  | RetryDiscovery => c
  | RetryCoordination => c <| nat_timer := Some (now + from_secs 2) |>
  | StartValidation => start_nat_traversal_validation draw now c
  | Complete => c <| nat_timer := None |>
  | AFailed => handle_nat_traversal_failure c
  end.

Definition handle_nat_traversal_timeout (draw : nat → Z) (now : Z) (c : NatConn) : NatConn :=
  match nat_traversal c with
  | None => c
  | Some s =>
    let (s, actions) := handle_timeout env now s in
    foldl (timeout_action draw now) (set_nat s c) actions
  end.

(** ** Calls of the application *)

Definition initiate_nat_traversal_coordination (draw : nat → Z) (now : Z) (c : NatConn) : NatConn * result unit TransportError :=
  match nat_traversal c with
  | None => (c, Err PROTOCOL_VIOLATION)
  | Some s =>
    if should_send_punch_request s then
      let s := generate_candidate_pairs env now s in
      let c := set_nat s c in
      match get_next_validation_pairs 3 s with
      | [] => (c, Err PROTOCOL_VIOLATION)
      | pairs =>
        let targets := imap (λ i p, mk_target (p_remote p) (p_sequence p) (draw i)) pairs in
        let (s, r) := start_coordination_round env targets now s in
        let c := set_nat s c in
        match r with
        | Err _ => (c, Err PROTOCOL_VIOLATION)
        | Ok round =>
          let local_addr := match local_ip c with Some i => socket_addr_new i 0 | None => unspecified_addr end in
          let punch_me_now := mk_punch_me_now round 0 local_addr None in
          (set_nat (mark_punch_request_sent s) (c <| pending_punch_me_now := pending_punch_me_now c ++ [punch_me_now] |>), Ok tt)
        end
      end
    else (c, Ok tt)
  end.

(** The loop of [generate_nat_traversal_challenges]. *)
Fixpoint start_validations (candidates : list (Z * AddressCandidate)) (draw : nat → Z) (now : Z) (s : NatTraversalState)
    : NatTraversalState :=
  match candidates with
  | [] => s
  | (sequence, _) :: candidates => start_validations candidates (draw ∘ S) now (start_validation sequence (draw 0%nat) now s).1
  end.

Definition generate_nat_traversal_challenges (draw : nat → Z) (now : Z) (c : NatConn) : NatConn :=
  match nat_traversal c with
  | None => c
  | Some s => set_nat (start_validations (take 3 (get_validation_candidates env s)) draw now s) c
  end.

(** [None]: the panic of [unwrap] on a sequence number that is no [VarInt]. *)
Definition send_nat_address_advertisement (addr : SocketAddr) (prio now : Z) (c : NatConn)
    : option (NatConn * result Z TransportError) :=
  let normalized_addr := normalize_socket_addr addr in
  match nat_traversal c with
  | None => Some (c, Err PROTOCOL_VIOLATION)
  | Some s =>
    let sequence := next_sequence s in
    match VarInt.from_u64 (wrapping_add 64 sequence 1) with
    | Err _ => None
    | Ok next =>
      let s := s <| next_sequence := next |> in
      let candidate := mk_candidate normalized_addr prio Local now New 0 None in
      let s := s <| local_candidates := <[sequence := candidate]> (local_candidates s) |> in
      let s := set_stats (λ st, st <| local_candidates_sent := inc (local_candidates_sent st) |>) s in
      let c := set_nat s c in
      Some (c <| pending_add_addresses := pending_add_addresses c ++ [mk_add_address sequence normalized_addr prio] |>,
        Ok sequence)
    end
  end.

Definition queue_punch_me_now_with_target (frame : PunchMeNow) (c : NatConn) : NatConn :=
  c <| pending_punch_me_now := pending_punch_me_now c ++ [frame] |>.

Definition send_nat_punch_coordination (paired_with_sequence_number : Z) (addr : SocketAddr) (round : Z) (c : NatConn)
    : NatConn * result unit TransportError :=
  match nat_traversal c with
  | None => (c, Err PROTOCOL_VIOLATION)
  | Some _ =>
    match VarInt.from_u64 paired_with_sequence_number with
    | Err _ => (c, Err PROTOCOL_VIOLATION)
    | Ok sequence => (queue_punch_me_now_with_target (mk_punch_me_now round sequence addr None) c, Ok tt)
    end
  end.

Definition send_nat_punch_via_relay (target_peer_id : list Z) (our_address : SocketAddr) (round : Z) (c : NatConn)
    : NatConn * result unit TransportError :=
  match nat_traversal c with
  | None => (c, Err PROTOCOL_VIOLATION)
  | Some _ => (queue_punch_me_now_with_target (mk_punch_me_now round 0 our_address (Some target_peer_id)) c, Ok tt)
  end.

Definition send_nat_address_removal (sequence : Z) (c : NatConn) : NatConn * result unit TransportError :=
  match nat_traversal c with
  | None => (c, Err PROTOCOL_VIOLATION)
  | Some s =>
    match VarInt.from_u64 sequence with
    | Err _ => (c, Err PROTOCOL_VIOLATION)
    | Ok sequence =>
      let c := set_nat (s <| local_candidates := delete sequence (local_candidates s) |>) c in
      (c <| pending_remove_addresses := pending_remove_addresses c ++ [sequence] |>, Ok tt)
    end
  end.

End handlers.
End NatConnection.

(** ** The endpoint *)

Module EndpointRelay.
Import NatFrames Net NatConnection.

(** [ConnectionMeta], as far as relaying reads it. *)
Record ConnectionMeta := mk_meta { meta_remote : SocketAddr; meta_peer_id : option (list Z) }.
#[global] Instance meta_settable : Settable ConnectionMeta := λ m, mk_meta (meta_remote m) (meta_peer_id m).

(** A [Slab] is the list of its slots, a [ConnectionHandle] the position. *)
Record Endpoint := mk_endpoint {
  connections : list (option ConnectionMeta);
  peer_connections : gmap (list Z) nat;
  pending_relay_events : list (nat * PunchMeNow);
  pending_hole_punch_addrs : list SocketAddr;
  pending_peer_address_updates : list (SocketAddr * SocketAddr);
  requests_relayed : Z;
}.
#[global] Instance endpoint_settable : Settable Endpoint := λ e,
  mk_endpoint (connections e) (peer_connections e) (pending_relay_events e) (pending_hole_punch_addrs e)
    (pending_peer_address_updates e) (requests_relayed e).

Definition connection (ch : nat) (e : Endpoint) : option ConnectionMeta := mjoin (connections e !! ch).

Definition register_peer (peer_id : list Z) (ch : nat) (e : Endpoint) : Endpoint :=
  e <| peer_connections := <[peer_id := ch]> (peer_connections e) |>.

Definition unregister_peer (peer_id : list Z) (e : Endpoint) : Endpoint :=
  e <| peer_connections := delete peer_id (peer_connections e) |>.

Definition lookup_peer_connection (peer_id : list Z) (e : Endpoint) : option nat := peer_connections e !! peer_id.

Definition set_connection_peer_id (ch : nat) (peer_id : list Z) (e : Endpoint) : Endpoint :=
  match connection ch e with
  | Some m => register_peer peer_id ch (e <| connections := <[ch := Some (m <| meta_peer_id := Some peer_id |>)]> (connections e) |>)
  | None => e
  end.

Definition peer_connection_addr (peer_id : list Z) (e : Endpoint) : option SocketAddr :=
  handle ← peer_connections e !! peer_id;
  meta ← connection handle e;
  Some (meta_remote meta).

Definition relay_frame_to_connection (ch : nat) (frame : PunchMeNow) (e : Endpoint) : Endpoint * bool :=
  let relayed_frame :=
    mk_punch_me_now (round frame) (paired_with_sequence_number frame) (pm_address frame) None in
  match connection ch e with
  | Some _ => (e <| pending_relay_events := pending_relay_events e ++ [(ch, relayed_frame)] |>, true)
  | None => (e, false)
  end.

(** [connections.iter().find_map(..)] by the identifier made of the address. *)
Fixpoint find_by_wire_id (ch : nat) (target_peer_id : list Z) (slots : list (option ConnectionMeta)) : option nat :=
  match slots with
  | [] => None
  | slot :: slots =>
    match slot with
    | Some m => if decide (wire_id_from_addr (meta_remote m) = target_peer_id) then Some ch else find_by_wire_id (S ch) target_peer_id slots
    | None => find_by_wire_id (S ch) target_peer_id slots
    end
  end.

Definition relay_target (target_peer_id : list Z) (e : Endpoint) : option nat :=
  match lookup_peer_connection target_peer_id e with
  | Some handle => Some handle
  | None => find_by_wire_id 0 target_peer_id (connections e)
  end.

(** The events of NAT traversal in [Endpoint::handle_event]. *)
Definition handle_event (event : EndpointEvent) (e : Endpoint) : Endpoint :=
  match event with
  | RelayPunchMeNow target_peer_id punch_me_now _ =>
    match relay_target target_peer_id e with
    | Some target_ch =>
      let (e, relayed) := relay_frame_to_connection target_ch punch_me_now e in
      if relayed then e <| requests_relayed := wrapping_add 64 (requests_relayed e) 1 |> else e
    | None => e
    end
  | PeerAddressAdvertised peer_addr advertised_addr =>
    e <| pending_peer_address_updates := pending_peer_address_updates e ++ [(peer_addr, advertised_addr)] |>
  | InitiateHolePunch peer_address => e <| pending_hole_punch_addrs := pending_hole_punch_addrs e ++ [peer_address] |>
  end.

(** The event [Drained]. *)
Definition handle_drained (ch : nat) (e : Endpoint) : Endpoint :=
  match connection ch e with
  | Some conn =>
    let e := e <| connections := <[ch := None]> (connections e) |> in
    match meta_peer_id conn with
    | Some peer_id => e <| peer_connections := delete peer_id (peer_connections e) |>
    | None => e
    end
  | None => e
  end.

(** [QueuePunchMeNow] in [Connection::handle_event]. *)
Definition queue_punch_me_now (punch : PunchMeNow) (c : NatConn) : NatConn :=
  c <| pending_punch_me_now := pending_punch_me_now c ++ [punch] |>.

End EndpointRelay.
