(* ===== verification/NatProperties.v ===== *)
(** * Correctness of NAT traversal in a connection

    The events of a connection as steps of [NatConnection], in any order and at any instants, and
    what holds along every such history: to which addresses PATH_CHALLENGEs go, what makes a
    candidate valid and a path a target of migration, that nothing panics, that validations end. *)

From stdpp Require Import gmap list sorting.
From Stdlib Require Import SpecFloat.
From S2P Require Import Prelude Coding NatFrames NatSecurity NatTimeouts NatTraversal NatInvariants NatConnection.

Module NatHistory.
Import NatFrames Net Security AdaptiveTimeout NatTraversal TimeoutProofs NatInvariants NatConnection.

Inductive Event :=
| Negotiated
| AddAddressReceived (frame : AddAddress) (challenge : Z)
| PunchMeNowReceived (frame : PunchMeNow)
| RemoveAddressReceived (sequence : Z)
| PathResponseReceived (can_migrate : bool) (remote : SocketAddr) (token new_challenge : Z)
| PollTransmit (built1 built2 : bool) (challenge : Z)
| PollTimeout
| TimerExpired (draw : nat → Z)
| InitiateCoordination (draw : nat → Z)
| GenerateChallenges (draw : nat → Z)
| Advertise (addr : SocketAddr) (prio : Z)
| PunchCoordination (sequence : Z) (addr : SocketAddr) (round : Z)
| PunchViaRelay (target : list Z) (addr : SocketAddr) (round : Z)
| RemoveAddress (sequence : Z)
| PathChanged (remote : SocketAddr).

(** An event with its instant and what is left open at it. *)
Record Occurrence := mk_occurrence { at_ : Z; env : Env; event : Event }.

Section history.
Context (al : bool) (derive_peer_id : SocketAddr → list Z).

(** The state after an event and the PATH_CHALLENGEs it sends; [None]: a panic. *)
Definition step (o : Occurrence) (c : NatConn) : option (NatConn * list Challenge) :=
  let now := at_ o in
  match event o with
  | Negotiated => Some (init_nat_traversal_with_negotiated_config al now c, [])
  | AddAddressReceived frame challenge => Some ((handle_add_address (env o) challenge frame now c).1, [])
  | PunchMeNowReceived frame => Some ((handle_punch_me_now (env o) derive_peer_id frame now c).1, [])
  | RemoveAddressReceived sequence => Some ((handle_remove_address sequence c).1, [])
  | PathResponseReceived can_migrate remote token new_challenge =>
    c ← handle_nat_path_response (env o) can_migrate remote token new_challenge now c; Some (c, [])
  | PollTransmit built1 built2 challenge =>
    c ← poll_nat_timeouts (env o) now c;
    let (c, sent) := send_nat_traversal_challenge (env o) built1 built2 challenge now c in
    Some (c, option_list sent)
  | PollTimeout => Some (poll_nat_timeout (env o) now c, [])
  | TimerExpired draw => Some (handle_nat_traversal_timeout (env o) draw now c, [])
  | InitiateCoordination draw => Some ((initiate_nat_traversal_coordination (env o) draw now c).1, [])
  | GenerateChallenges draw => Some (generate_nat_traversal_challenges (env o) draw now c, [])
  | Advertise addr prio => '(c, _) ← send_nat_address_advertisement addr prio now c; Some (c, [])
  | PunchCoordination sequence addr round => Some ((send_nat_punch_coordination sequence addr round c).1, [])
  | PunchViaRelay target addr round => Some ((send_nat_punch_via_relay target addr round c).1, [])
  | RemoveAddress sequence => Some ((send_nat_address_removal sequence c).1, [])
  | PathChanged remote => Some (c <| path_remote := remote |>, [])
  end.

(** What happened, with the state before it. *)
Record Moment := mk_moment { before : NatConn; occurrence : Occurrence }.

(** The histories of a connection, which begins without NAT traversal. *)
Inductive trace : list Moment → NatConn → Prop :=
| trace_start c : nat_traversal c = None → trace [] c
| trace_step h c o c' sent :
    trace h c → instant_ok (at_ o) → EnvOk (env o) → step o c = Some (c', sent) → trace (h ++ [mk_moment c o]) c'.

(** A response came from [a] with the challenge that was registered for [a]. *)
Definition answers (a : SocketAddr) (m : Moment) : Prop :=
  ∃ can_migrate new_challenge s v,
    nat_traversal (before m) = Some s ∧ active_validations s !! a = Some v
    ∧ event (occurrence m) = PathResponseReceived can_migrate a (challenge v) new_challenge.
Definition answered (h : list Moment) (a : SocketAddr) : Prop := Exists (answers a) h.

(** The peer asked to punch in round [r]. *)
Definition asks (r : Z) (m : Moment) : Prop := ∃ f, event (occurrence m) = PunchMeNowReceived f ∧ round f = r.
Definition asked (h : list Moment) (r : Z) : Prop := Exists (asks r) h.

Definition conn_inv (A : SocketAddr → Prop) (R : Z → Prop) (c : NatConn) : Prop :=
  ∀ s, nat_traversal c = Some s → nat_inv al A R s.

(** ** Each event keeps the invariant *)

Section events.
Context (env : Env) `{!EnvOk env} (A : SocketAddr → Prop) (R : Z → Prop) (now : Z) (Hnow : instant_ok now).
#[local] Abbreviation inv := (conn_inv A R).

Lemma set_nat_inv s c : nat_inv al A R s → inv (set_nat s c).
Proof. by intros H s' [= <-]. Qed.

Lemma trigger_inv a ch c : valid_ip al a → inv c → inv (trigger_candidate_validation a ch now c).1.
Proof.
  intros Ha H. unfold trigger_candidate_validation. destruct (nat_traversal c) as [s|] eqn:Es; [|done].
  destruct (active_validations s !! a); [done|]. apply set_nat_inv, stats_inv, insert_validation_inv; [by apply H|].
  refine (conj Ha (conj new_timeout_ok (conj Hnow eq_refl))).
Qed.

Lemma add_address_inv ch f c : inv c → inv (handle_add_address env ch f now c).1.
Proof.
  intros H. unfold handle_add_address. destruct (nat_traversal c) as [s|] eqn:Es; [|done]. destruct (decide _); [done|].
  destruct (add_remote_inv env al A R (aa_sequence f) (normalize_socket_addr (aa_address f)) (NatFrames.priority f) now s (H s Es)) as [H1 H2].
  destruct (add_remote_candidate _ _ _ _ _ _) as [s1 [u|[]]]; simpl in H1, H2; try (by apply set_nat_inv).
  apply trigger_inv; [by eapply valid_addr_ip, H2|]. by apply (set_nat_inv s1 c).
Qed.

Lemma punch_event_inv derive f c : R (round f) → inv c → inv (handle_punch_me_now env derive f now c).1.
Proof.
  intros Hr H. unfold handle_punch_me_now. destruct (nat_traversal c) as [s|] eqn:Es; [|done].
  pose proof (peer_request_inv al A R (round f) now s Hnow Hr (H s Es)) as H1.
  destruct (handle_peer_punch_request (round f) now s) as [s1 r]. simpl in H1.
  match goal with |- context [match target_peer_id f with Some _ => _ | None => ?x end] => assert (H2 : inv x.1) end.
  { destruct r as [[]|e]; by apply (set_nat_inv s1 c). }
  destruct (target_peer_id f); [|done]. destruct (bootstrap_coordinator s) as [b|] eqn:Eb; [|done].
  unfold handle_punch_me_now_frame. rewrite Eb. destruct (Bootstrap.process_punch_me_now_frame _ _ _ _ _ _) as [b' r'].
  pose proof (set_nat_inv _ c (bootstrap_inv al A R (Some b') s (H s Es))) as H3. by destruct r' as [[]|].
Qed.

Lemma remove_frame_inv seq c : inv c → inv (handle_remove_address seq c).1.
Proof.
  intros H. unfold handle_remove_address. destruct (nat_traversal c) as [s|] eqn:Es; [|done]. by apply set_nat_inv, remove_inv, H.
Qed.

Lemma request_inv c : inv c → inv (send_coordination_request c).
Proof.
  intros H. unfold send_coordination_request. destruct (nat_traversal c) as [s|] eqn:Es; [|done].
  destruct (should_send_punch_request s) eqn:E; [|done]. destruct (coordination s) as [r|]; [|done]. destruct (punch_targets r); [done|].
  apply set_nat_inv, request_sent_inv; [by apply H|done].
Qed.

Lemma punch_challenge_inv built c : inv c → inv (send_coordinated_path_challenge env built now c).1.
Proof.
  intros H. unfold send_coordinated_path_challenge. destruct (nat_traversal c) as [s|] eqn:Es; [|done].
  set (s1 := if should_start_punching now s then _ else s).
  assert (H1 : nat_inv al A R s1) by (unfold s1; destruct (should_start_punching now s) eqn:E; [by apply punching_inv; [apply H|]|by apply H]).
  pose proof (set_nat_inv s1 c H1) as H2. destruct (get_coordination_phase s1) as [[]|]; try done.
  destruct (get_punch_targets_from_coordination s1) as [[|t l]|]; [done| |done]. destruct built; [|done].
  by apply set_nat_inv, validating_inv.
Qed.

Lemma challenge_inv built1 built2 ch c : inv c → inv (send_nat_traversal_challenge env built1 built2 ch now c).1.
Proof.
  intros H. unfold send_nat_traversal_challenge. pose proof (punch_challenge_inv built1 _ (request_inv c H)) as H1.
  destruct (send_coordinated_path_challenge _ _ _ _) as [c1 [p|]]; simpl in H1; [done|].
  destruct (nat_traversal c1) as [s|] eqn:Es; [|done]. destruct (get_validation_candidates env s) as [|[k cand] l]; [done|].
  pose proof (start_validation_inv al A R k ch now s Hnow (H1 s Es)) as H2.
  destruct (start_validation k ch now s) as [s2 [u|e]]; by apply set_nat_inv.
Qed.

Lemma poll_event_inv c : inv c → ∃ c', poll_nat_timeouts env now c = Some c' ∧ inv c'.
Proof.
  intros H. unfold poll_nat_timeouts. destruct (nat_traversal c) as [s|] eqn:Es; [|by eauto].
  destruct (check_round_inv env al A R now s Hnow (H s Es)) as (s1 & r & -> & H1 & _).
  destruct (check_validations_inv env al A R now s1 Hnow H1) as (s2 & expired & -> & H2 & _). eexists. split; [done|]. by apply set_nat_inv.
Qed.

(** The best pairs are pairs that succeeded. *)
Lemma best_pairs_succeeded s p : p ∈ get_best_succeeded_pairs s → p ∈ candidate_pairs s ∧ p_state p = PSucceeded.
Proof.
  unfold get_best_succeeded_pairs. match goal with |- context [foldl ?g _ _] => set (f := g) end.
  set (ok := λ q, q ∈ candidate_pairs s ∧ p_state q = PSucceeded).
  assert (Hb : ∀ b q, Forall ok (option_list b) → ok q → Forall ok (option_list (better b q))).
  { intros [y|] q Hy Hq; unfold better; [destruct (_ <? _)|]; [|done|]; by apply Forall_singleton. }
  assert (Hf : ∀ l b4 b6, l ⊆ candidate_pairs s → Forall ok (option_list b4 ++ option_list b6) →
    let '(b4, b6) := foldl f (b4, b6) l in Forall ok (option_list b4 ++ option_list b6)).
  { induction l as [|q l IH]; intros b4 b6 Hl H46; [done|]. cbn [foldl f].
    assert (Hl' : l ⊆ candidate_pairs s) by set_solver. apply Forall_app in H46 as [H4 H6].
    destruct (decide (p_state q = PSucceeded)) as [Hq|]; [|by apply IH, Forall_app].
    assert (Hok : ok q) by (split; [set_solver|done]). destruct (p_remote q); apply IH; try done; apply Forall_app; auto. }
  intros Hp. specialize (Hf (candidate_pairs s) None None (reflexivity _) (Forall_nil_2 _)).
  destruct (foldl f (None, None) (candidate_pairs s)) as [b4 b6]. rewrite Forall_forall in Hf. by apply Hf.
Qed.

Lemma migration_target c p : inv c → migration_pair c = Ok p → A (p_remote p).
Proof.
  intros H. unfold migration_pair. destruct (nat_traversal c) as [s|] eqn:Es; [|done].
  assert (Hb : ∀ q, q ∈ get_best_succeeded_pairs s → A (p_remote q)).
  { intros q [Hq Hs]%best_pairs_succeeded. pose proof (inv_pairs _ _ _ _ (inv_all _ _ _ _ (H s Es))) as Hp.
    rewrite Forall_forall in Hp. by apply (Hp q Hq). }
  destruct (List.find _ _) as [q|] eqn:Ef.
  - intros [= <-]. apply List.find_some in Ef as [Ef _]. by apply Hb, list_elem_of_In.
  - destruct (get_best_succeeded_pairs s) as [|q l]; [done|]. intros [= <-]. apply Hb. by left.
Qed.

Lemma migrate_inv ch c : inv c →
  inv (migrate_to_nat_traversal_path ch c).1
  ∧ (path_remote (migrate_to_nat_traversal_path ch c).1 = path_remote c ∨ A (path_remote (migrate_to_nat_traversal_path ch c).1)).
Proof.
  intros H. unfold migrate_to_nat_traversal_path. destruct (migration_pair c) as [p|] eqn:Ep; [|by auto].
  pose proof (migration_target c p H Ep). destruct (decide _); by auto.
Qed.

(** A response with the registered challenge makes an address answered; migration goes only to such. *)
Lemma response_inv cm remote token nc c :
  (∀ s v, nat_traversal c = Some s → active_validations s !! remote = Some v → challenge v = token → A remote) → inv c →
  ∃ c', handle_nat_path_response env cm remote token nc now c = Some c' ∧ inv c' ∧ (path_remote c' = path_remote c ∨ A (path_remote c')).
Proof.
  intros HA H. unfold handle_nat_path_response. destruct (nat_traversal c) as [s|] eqn:Es; [|by eauto].
  destruct (validation_success_inv env al A R remote token now s Hnow (H s Es)) as (s1 & r & -> & Herr & Hok).
  destruct r as [seq|e]; [|rewrite (Herr e eq_refl); eexists; split; [done|]; split; [by apply set_nat_inv, H|by left]].
  destruct (Hok seq eq_refl) as ((v & Hv & Ht) & _ & _ & H1). pose proof (HA s v eq_refl Hv Ht) as Ha.
  assert (H2 : nat_inv al A R s1) by (eapply nat_mono; [| |exact H1]; [by intros a [?| ->]|done]).
  destruct (round_success_inv env al A R remote now s1 Hnow H2) as (s2 & succeeded & -> & H3 & _).
  pose proof (set_nat_inv s2 c H3) as H4. destruct succeeded; [|eexists; split; [done|]; split; [by apply set_nat_inv, mark_pair_inv|by left]].
  destruct cm; [|by eauto]. destruct (head _) as [best|]; [|by eauto]. destruct (_ && _); [|by eauto].
  eexists. split; [done|]. by apply (migrate_inv nc) in H4.
Qed.

Lemma failure_inv c : inv (handle_nat_traversal_failure c).
Proof. by intros s. Qed.

Lemma timer_event_inv draw c : inv c → inv (handle_nat_traversal_timeout env draw now c).
Proof.
  intros H. unfold handle_nat_traversal_timeout. destruct (nat_traversal c) as [s|] eqn:Es; [|done].
  pose proof (timer_inv env al A R now s Hnow (H s Es)) as H1. destruct (handle_timeout env now s) as [s1 actions]. simpl in H1.
  apply (set_nat_inv _ c) in H1. revert H1. generalize (set_nat s1 c). clear. induction actions as [|a l IH]; intros c H; [done|].
  apply IH. destruct a; try done. unfold timeout_action, start_nat_traversal_validation. destruct (nat_traversal c) as [s|] eqn:Es; [|done].
  by destruct (length _).
Qed.

Lemma initiate_event_inv draw c : inv c → inv (initiate_nat_traversal_coordination env draw now c).1.
Proof.
  intros H. unfold initiate_nat_traversal_coordination. destruct (nat_traversal c) as [s|] eqn:Es; [|done].
  destruct (should_send_punch_request s); [|done]. pose proof (generate_pairs_inv env al A R now s (H s Es)) as H1.
  destruct (get_next_validation_pairs _ _) as [|p l]; [by apply set_nat_inv|]. set (targets := imap _ _).
  destruct (start_round_inv env al A R targets now _ Hnow H1) as [H2 H3].
  destruct (start_coordination_round _ _ _ _) as [s2 [r|e]]; simpl in H2, H3; [|by apply set_nat_inv].
  apply set_nat_inv, request_sent_inv; [done|]. by eapply H3.
Qed.

Lemma generate_inv draw c : inv c → inv (generate_nat_traversal_challenges env draw now c).
Proof.
  intros H. unfold generate_nat_traversal_challenges. destruct (nat_traversal c) as [s|] eqn:Es; [|done]. apply set_nat_inv.
  specialize (H s Es). clear Es. generalize (take 3 (get_validation_candidates env s)). intros l. revert s draw H.
  induction l as [|[k cand] l IH]; intros s draw H; [done|]. by apply IH, start_validation_inv.
Qed.

Lemma advertise_inv a prio c : inv c →
  match send_nat_address_advertisement a prio now c with
  | Some (c', _) => inv c' ∧ path_remote c' = path_remote c
  | None => ∃ s, nat_traversal c = Some s ∧ 2 ^ 62 ≤ wrapping_add 64 (next_sequence s) 1
  end.
Proof.
  intros H. unfold send_nat_address_advertisement. destruct (nat_traversal c) as [s|] eqn:Es; [|done]. unfold VarInt.from_u64.
  destruct (Z.ltb_spec (wrapping_add 64 (next_sequence s) 1) (2 ^ 62)); [|by eauto]. split; [|done].
  apply (set_nat_inv _ c), stats_inv, nat_local_inv, sequence_inv, H, Es.
Qed.

Lemma removal_inv seq c : inv c → inv (send_nat_address_removal seq c).1.
Proof.
  intros H. unfold send_nat_address_removal. destruct (nat_traversal c) as [s|] eqn:Es; [|done]. destruct (VarInt.from_u64 seq); [|done].
  apply (set_nat_inv _ c), nat_local_inv, H, Es.
Qed.

End events.

(** ** The path

    No event but a response, or a migration for other reasons, changes where the connection
    sends. *)

#[local] Ltac same_path := repeat (case_match; simplify_eq/=; try done).

Lemma add_address_path env ch f now c : path_remote (handle_add_address env ch f now c).1 = path_remote c.
Proof. unfold handle_add_address, trigger_candidate_validation. same_path. Qed.

Lemma punch_path env f now c : path_remote (handle_punch_me_now env derive_peer_id f now c).1 = path_remote c.
Proof. unfold handle_punch_me_now. same_path. Qed.

Lemma request_path c : path_remote (send_coordination_request c) = path_remote c.
Proof. unfold send_coordination_request. same_path. Qed.

Lemma punch_challenge_path env built now c : path_remote (send_coordinated_path_challenge env built now c).1 = path_remote c.
Proof. unfold send_coordinated_path_challenge. same_path. Qed.

Lemma challenge_path env built1 built2 ch now c : path_remote (send_nat_traversal_challenge env built1 built2 ch now c).1 = path_remote c.
Proof.
  unfold send_nat_traversal_challenge. rewrite <- (request_path c), <- (punch_challenge_path env built1 now (send_coordination_request c)).
  destruct (send_coordinated_path_challenge _ _ _ _) as [c1 p]. same_path.
Qed.

Lemma poll_path env now c c' : poll_nat_timeouts env now c = Some c' → path_remote c' = path_remote c.
Proof.
  unfold poll_nat_timeouts. destruct (nat_traversal c); [|by intros [= <-]]. destruct (check_coordination_timeout _ _ _) as [[]|]; [|done].
  destruct (check_validation_timeouts _ _ _) as [[]|]; [|done]. by intros [= <-].
Qed.

Lemma timer_path env draw now c : path_remote (handle_nat_traversal_timeout env draw now c) = path_remote c.
Proof.
  unfold handle_nat_traversal_timeout. destruct (nat_traversal c) as [s|]; [|done]. destruct (handle_timeout env now s) as [s1 actions].
  change (path_remote c) with (path_remote (set_nat s1 c)). generalize (set_nat s1 c). clear c s.
  induction actions as [|a l IH]; intros c; [done|]. simpl. rewrite IH. destruct a; try done. simpl.
  unfold start_nat_traversal_validation. same_path.
Qed.

Lemma initiate_path env draw now c : path_remote (initiate_nat_traversal_coordination env draw now c).1 = path_remote c.
Proof. unfold initiate_nat_traversal_coordination. same_path. Qed.

Lemma remove_path seq c : path_remote (handle_remove_address seq c).1 = path_remote c.
Proof. unfold handle_remove_address. same_path. Qed.

Lemma poll_timeout_path env now c : path_remote (poll_nat_timeout env now c) = path_remote c.
Proof. unfold poll_nat_timeout. same_path. Qed.

Lemma generate_path env draw now c : path_remote (generate_nat_traversal_challenges env draw now c) = path_remote c.
Proof. unfold generate_nat_traversal_challenges. same_path. Qed.

Lemma coordination_path seq a r c : path_remote (send_nat_punch_coordination seq a r c).1 = path_remote c.
Proof. unfold send_nat_punch_coordination. same_path. Qed.

Lemma relay_path t a r c : path_remote (send_nat_punch_via_relay t a r c).1 = path_remote c.
Proof. unfold send_nat_punch_via_relay. same_path. Qed.

Lemma removal_path seq c : path_remote (send_nat_address_removal seq c).1 = path_remote c.
Proof. unfold send_nat_address_removal. same_path. Qed.

(** ** A step *)

Lemma event_inv o c A R : instant_ok (at_ o) → EnvOk (env o) → conn_inv A R c →
  (∀ a, answers a (mk_moment c o) → A a) → (∀ r, asks r (mk_moment c o) → R r) →
  match step o c with
  | Some (c', _) => conn_inv A R c' ∧ (path_remote c' = path_remote c ∨ A (path_remote c') ∨ event o = PathChanged (path_remote c'))
  | None => ∃ a prio s, event o = Advertise a prio ∧ nat_traversal c = Some s ∧ 2 ^ 62 ≤ wrapping_add 64 (next_sequence s) 1
  end.
Proof.
  intros Hn He H Ha Hr. unfold step.
  destruct (event o) as [|f ch|f|seq|cm remote token nc|b1 b2 ch| |draw|draw|draw|a prio|seq a r|t a r|seq|r] eqn:Eo.
  - split; [|by left]. apply (set_nat_inv A R _ c), nat_new_inv.
  - rewrite add_address_path. split; [|by left]. by apply add_address_inv.
  - rewrite punch_path. split; [|by left]. apply punch_event_inv; try done. apply Hr. by exists f.
  - rewrite remove_path. split; [|by left]. by apply remove_frame_inv.
  - destruct (response_inv (env o) A R (at_ o) Hn cm remote token nc c) as (c' & -> & H1 & H2); [|done|split; [done|by destruct H2; auto]].
    intros s v Es Ev Et. apply Ha. exists cm, nc, s, v. by rewrite Et.
  - destruct (poll_event_inv (env o) A R (at_ o) Hn c H) as (c1 & E1 & H1). rewrite E1. cbn [mbind option_bind].
    pose proof (challenge_inv (env o) A R (at_ o) Hn b1 b2 ch c1 H1) as H2. pose proof (challenge_path (env o) b1 b2 ch (at_ o) c1) as H3.
    destruct (send_nat_traversal_challenge _ _ _ _ _ _) as [c2 sent]. simpl in *. split; [done|left]. rewrite H3. by eapply poll_path.
  - rewrite poll_timeout_path. split; [|by left]. unfold poll_nat_timeout.
    destruct (nat_traversal c); [|done]. by destruct (get_next_timeout _ _ _).
  - rewrite timer_path. split; [|by left]. by apply timer_event_inv.
  - rewrite initiate_path. split; [|by left]. by apply initiate_event_inv.
  - rewrite generate_path. split; [|by left]. by apply generate_inv.
  - pose proof (advertise_inv A R (at_ o) a prio c H) as H1.
    destruct (send_nat_address_advertisement a prio (at_ o) c) as [[c' res]|]; simpl; [by destruct H1; auto|]. destruct H1 as (s & ? & ?). by eauto 10.
  - rewrite coordination_path. split; [|by left]. unfold send_nat_punch_coordination. same_path.
  - rewrite relay_path. split; [|by left]. unfold send_nat_punch_via_relay. same_path.
  - rewrite removal_path. split; [|by left]. by apply removal_inv.
  - split; [done|]. by auto.
Qed.

Lemma trace_inv h c : trace h c → conn_inv (answered h) (asked h) c.
Proof.
  induction 1 as [c Hc|h c o c' sent _ IH Hn He Hs]; [intros s; congruence|].
  pose proof (event_inv o c (answered (h ++ [mk_moment c o])) (asked (h ++ [mk_moment c o])) Hn He) as H1. rewrite Hs in H1.
  apply H1; unfold answered, asked.
  - intros s Es. eapply nat_mono; [| |by apply IH]; intros x Hx; apply Exists_app; by left.
  - intros a Ha. apply Exists_app. right. by constructor.
  - intros r Hr. apply Exists_app. right. by constructor.
Qed.

(** ** PATH_CHALLENGEs *)

(** A challenge for a candidate: it is registered, so that the response will be recognised. *)
Definition candidate_probe (s : NatTraversalState) (dest : SocketAddr) (token : Z) : Prop :=
  ∃ k cand, remote_candidates s !! k = Some cand ∧ address cand = dest
  ∧ (csource cand = Peer ∧ valid_addr al dest ∨ csource cand = Predicted)
  ∧ challenge <$> active_validations s !! dest = Some token.

(** A challenge for a target of the round: the peer has asked for the round. *)
Definition punch_probe (R : Z → Prop) (s : NatTraversalState) (dest : SocketAddr) (token : Z) : Prop :=
  ∃ r, coordination s = Some r ∧ phase r = PValidating ∧ R (c_round r)
  ∧ valid_addr al dest ∧ ∃ seq, head (punch_targets r) = Some (mk_target dest seq token).

Lemma punch_sent env A R built now c dest token : EnvOk env → conn_inv A R c →
  (send_coordinated_path_challenge env built now c).2 = Some (dest, token) →
  ∃ s, nat_traversal (send_coordinated_path_challenge env built now c).1 = Some s ∧ punch_probe R s dest token.
Proof.
  intros He H. unfold send_coordinated_path_challenge. destruct (nat_traversal c) as [s|] eqn:Es; [|done].
  set (s1 := if should_start_punching now s then _ else s).
  assert (H1 : nat_inv al A R s1) by (unfold s1; destruct (should_start_punching now s) eqn:E; [by apply punching_inv; [apply H|]|by apply H]).
  generalize s1 H1. clear. intros s H. unfold get_coordination_phase, get_punch_targets_from_coordination.
  destruct (coordination s) as [r|] eqn:Er; [|done]. simpl. destruct (phase r) eqn:Ep; try done.
  destruct (punch_targets r) as [|[a seq ch] l] eqn:Et; [done|]. destruct built; [|done]. simpl. intros [= <- <-].
  destruct (inv_round _ _ _ _ (inv_all _ _ _ _ H) r Er) as (Ht & _ & _ & _ & _ & Hp & Ha). rewrite Ep in Hp.
  eexists. split; [done|]. unfold mark_coordination_validating. rewrite Er. rewrite decide_True by done.
  eexists. split; [done|]. split; [done|]. split; [by apply Ha, Hp|]. rewrite Et in Ht. apply Forall_cons in Ht as [Ht _].
  split; [done|]. exists seq. simpl. by rewrite Et.
Qed.

Lemma sort_by_key_perm {B} (key : B → Z) l : sort_by_key key l ≡ₚ l.
Proof.
  assert (Hi : ∀ x k, insert_by_key key x k ≡ₚ x :: k).
  { intros x k. induction k as [|y k IH]; simpl; [done|]. destruct (key x <=? key y); [done|]. rewrite IH. constructor. }
  unfold sort_by_key. induction l as [|x l IH]; simpl; [done|]. by rewrite Hi, IH.
Qed.

Lemma validation_candidate env s k cand : EnvOk env → (k, cand) ∈ get_validation_candidates env s → remote_candidates s !! k = Some cand.
Proof.
  intros He. unfold get_validation_candidates. rewrite sort_by_key_perm. intros Hin. apply list_elem_of_In, filter_In in Hin as [Hin _].
  by apply order_in in Hin.
Qed.

(** A validation that starts is registered under the candidate's address. *)
Lemma start_validation_sent s k cand ch now : remote_candidates s !! k = Some cand → (start_validation k ch now s).2 = Ok tt →
  (∃ cand', remote_candidates (start_validation k ch now s).1 !! k = Some cand' ∧ address cand' = address cand ∧ csource cand' = csource cand)
  ∧ challenge <$> active_validations (start_validation k ch now s).1 !! address cand = Some ch.
Proof.
  intros Hk. unfold start_validation. rewrite Hk. destruct (negb _); [done|]. destruct (is_validation_suspicious cand now); [done|].
  destruct (10 <=? _); [done|]. intros _. simpl. rewrite !lookup_insert_eq. split; [by eauto|done].
Qed.

Lemma probe_sent env A R built1 built2 ch now c dest token : EnvOk env → instant_ok now → conn_inv A R c →
  (send_nat_traversal_challenge env built1 built2 ch now c).2 = Some (dest, token) →
  ∃ s, nat_traversal (send_nat_traversal_challenge env built1 built2 ch now c).1 = Some s
       ∧ (candidate_probe s dest token ∨ punch_probe R s dest token).
Proof.
  intros He Hn H. unfold send_nat_traversal_challenge. pose proof (request_inv A R c H) as H0.
  pose proof (punch_challenge_inv env A R now built1 _ H0) as H1. pose proof (punch_sent env A R built1 now _ dest token He H0) as Hp.
  destruct (send_coordinated_path_challenge _ _ _ _) as [c1 [p|]]; simpl in H1, Hp.
  { intros E. destruct (Hp E) as (s & ? & ?). by eauto. }
  clear Hp. destruct (nat_traversal c1) as [s|] eqn:Es; [|done]. destruct (get_validation_candidates env s) as [|[k cand] l] eqn:Eg; [done|].
  assert (Hk : remote_candidates s !! k = Some cand) by (apply (validation_candidate env); [done|rewrite Eg; by left]).
  destruct (inv_remote _ _ _ _ (inv_all _ _ _ _ (H1 s Es)) k cand Hk) as (Hv & Hsrc & _).
  pose proof (start_validation_sent s k cand ch now Hk) as Hs. destruct (start_validation k ch now s) as [s2 [[]|e]]; [|done].
  destruct (Hs eq_refl) as [(cand' & Hc' & Ha & Hsc) Hch]. destruct built2; [|done]. simpl. intros [= <- <-].
  exists s2. split; [done|]. left. exists k, cand'. split_and!; [done..| |done]. rewrite Hsc. naive_solver.
Qed.

(** ** The life of a validation *)

(** The polls of [poll_transmit], each with what is left open at it. *)
Fixpoint polls (ts : list (Z * Env)) (c : NatConn) : option NatConn :=
  match ts with
  | [] => Some c
  | (now, env) :: ts => c ← poll_nat_timeouts env now c; polls ts c
  end.

(** At least thirty seconds, the longest timeout, between them. *)
Fixpoint spaced (last : Z) (ts : list (Z * Env)) : Prop :=
  match ts with
  | [] => True
  | (now, env) :: ts => last + from_secs 30 ≤ now ∧ instant_ok now ∧ EnvOk env ∧ spaced now ts
  end.

Definition validation (a : SocketAddr) (c : NatConn) : option PathValidationState :=
  s ← nat_traversal c; active_validations s !! a.

Lemma poll_validation env A R now a c : EnvOk env → instant_ok now → conn_inv A R c →
  ∃ c', poll_nat_timeouts env now c = Some c' ∧ conn_inv A R c'
  ∧ (validation a c = None → validation a c' = None)
  ∧ (∀ v, validation a c = Some v → sent_at v + from_secs 30 ≤ now →
       if consecutive_timeouts (v_timeout v) <? 3 then
         ∃ v', validation a c' = Some v' ∧ sent_at v' = now ∧ challenge v' = challenge v
         ∧ consecutive_timeouts (v_timeout v') = consecutive_timeouts (v_timeout v) + 1
       else validation a c' = None).
Proof.
  intros He Hn H. unfold poll_nat_timeouts, validation.
  destruct (nat_traversal c) as [s|] eqn:Es; [|exists c; split; [done|]; split; [done|]; by rewrite Es].
  destruct (check_round_inv env al A R now s Hn (H s Es)) as (s1 & r & -> & H1 & Ha).
  destruct (check_validations_inv env al A R now s1 Hn H1) as (s2 & expired & -> & H2 & _ & Hv).
  eexists. split; [done|]. split; [by apply set_nat_inv|]. simpl. specialize (Hv a). rewrite Ha in Hv. split; [by intros E; rewrite E in Hv|].
  intros v Ev Ht. rewrite Ev in Hv. destruct (inv_validations _ _ _ _ (inv_all _ _ _ _ (H s Es)) a v Ev) as (_ & Hto & _ & Hm).
  destruct Hto as (Hc & _ & _ & _ & _ & _ & _ & _ & _ & _ & Hu). unfold due, retryable, should_retry, get_timeout in Hv. rewrite Hm in Hv.
  rewrite (proj2 (Z.leb_le _ _)) in Hv by (unfold duration_since; lia). destruct (Z.ltb_spec (consecutive_timeouts (v_timeout v)) 3); [|done].
  destruct Hv as (v' & Hv' & Hs & Hch & Hct). exists v'. split_and!; [done..|]. rewrite Hct. unfold wrapping_add, wrap, is_u in *.
  rewrite Z.mod_small; lia.
Qed.

Lemma polls_gone ts A R a c last : spaced last ts → conn_inv A R c → validation a c = None →
  ∃ c', polls ts c = Some c' ∧ validation a c' = None.
Proof.
  revert c last. induction ts as [|[now env] ts IH]; intros c last; simpl; [by eauto|]. intros (_ & Hn & He & Hs) H Hv.
  destruct (poll_validation env A R now a c He Hn H) as (c1 & -> & H1 & H2 & _). simpl. by eapply IH; eauto.
Qed.

Lemma polls_validation ts A R a c v : conn_inv A R c → validation a c = Some v → spaced (sent_at v) ts →
  ∃ c', polls ts c = Some c' ∧
    if zlen ts <=? Z.max 0 (3 - consecutive_timeouts (v_timeout v)) then ∃ v', validation a c' = Some v' ∧ challenge v' = challenge v
    else validation a c' = None.
Proof.
  revert c v. induction ts as [|[now env] ts IH]; intros c v H Hv.
  { intros _. exists c. split; [done|]. unfold zlen. simpl. rewrite (proj2 (Z.leb_le _ _)) by lia. by eauto. }
  intros (Ht & Hn & He & Hs). destruct (poll_validation env A R now a c He Hn H) as (c1 & E1 & H1 & _ & H2). specialize (H2 v Hv Ht).
  simpl. rewrite E1. simpl. unfold zlen in *. cbn [length]. rewrite Nat2Z.inj_succ.
  destruct (Z.ltb_spec (consecutive_timeouts (v_timeout v)) 3).
  - destruct H2 as (v1 & Hv1 & Hs1 & Hc1 & Hn1). rewrite <- Hs1 in Hs. destruct (IH c1 v1 H1 Hv1 Hs) as (c' & -> & Hc'). exists c'. split; [done|].
    rewrite Hn1, Hc1 in Hc'. destruct (Z.leb_spec (Z.succ (Z.of_nat (length ts))) (Z.max 0 (3 - consecutive_timeouts (v_timeout v))));
      [rewrite (proj2 (Z.leb_le _ _)) in Hc' by lia|rewrite (proj2 (Z.leb_gt _ _)) in Hc' by lia]; done.
  - rewrite (proj2 (Z.leb_gt _ _)) by lia. by eapply polls_gone.
Qed.

End history.

(** ** One way to fill in what is left open *)

#[global] Instance higher_dec p q : Decision (higher p q) := Z_le_dec (p_priority q) (p_priority p).
#[global] Instance higher_total : Total higher.
Proof. intros p q. unfold higher. lia. Qed.

Definition plain_env : Env :=
  mk_env map_to_list map_to_list (λ m, (map_to_list m).*1) (merge_sort higher) (λ _, S754_zero false) (S754_zero false) 0.

#[global] Instance plain_env_ok : EnvOk plain_env.
Proof.
  assert (Hr : random_ok (S754_zero false)) by (exists 0; split; [lia|reflexivity]).
  constructor; simpl; try done; [apply merge_sort_Permutation|]. intros l. apply (Sorted_merge_sort higher).
Qed.

(** A history: events up to a panic, if there is one. *)
Fixpoint replay (al : bool) (derive : SocketAddr → list Z) (os : list Occurrence) (h : list Moment) (c : NatConn) : list Moment * NatConn :=
  match os with
  | [] => (h, c)
  | o :: os => match step al derive o c with Some (c', _) => replay al derive os (h ++ [mk_moment c o]) c' | None => (h, c) end
  end.

Lemma replay_trace al derive os h c : Forall (λ o, instant_ok (at_ o) ∧ EnvOk (env o)) os → trace al derive h c →
  trace al derive (replay al derive os h c).1 (replay al derive os h c).2.
Proof.
  revert h c. induction os as [|o os IH]; intros h c; [done|]. intros [[Hn He] Hos]%Forall_cons Ht. simpl.
  destruct (step al derive o c) as [[c' sent]|] eqn:Es; [|done]. apply IH; [done|]. by eapply trace_step.
Qed.

(** A connection of which the peer announces three addresses.  Two of them answer; the peer asks
    to punch, which times out; a round is started, the best address answers, the peer asks again,
    the punch is sent, and the address, announced anew, answers and becomes the path. *)
Module Sample.
Definition address (n : Z) : SocketAddr := V4 [9; 1; 2; n] 4433.
Definition start : NatConn := mk_conn None (V4 [203; 0; 113; 5] 4433) None false None [] [] [] [] None None.
Definition occ (millis : Z) (e : Event) : Occurrence := mk_occurrence (from_millis millis) plain_env e.
Definition peer_id (_ : SocketAddr) : list Z := [].
Definition events : list Occurrence :=
  [occ 0 Negotiated; occ 1000 (Advertise (V4 [7; 1; 2; 3] 5000) 50);
   occ 1000 (AddAddressReceived (mk_add_address 7 (address 3) 100) 42);
   occ 1000 (AddAddressReceived (mk_add_address 9 (address 4) 90) 52); occ 1050 (PathResponseReceived true (address 4) 52 99);
   occ 1060 (AddAddressReceived (mk_add_address 10 (address 5) 90) 53); occ 1070 (PathResponseReceived true (address 5) 53 99);
   occ 3000 (PunchMeNowReceived (mk_punch_me_now 5 0 (address 3) None)); occ 10000 (PollTransmit true true 43);
   occ 11000 (InitiateCoordination Z.of_nat); occ 11005 (PathResponseReceived true (address 3) 43 99);
   occ 11010 (PunchMeNowReceived (mk_punch_me_now 2 0 (address 3) None)); occ 11950 (PollTransmit true true 44);
   occ 11960 (RemoveAddressReceived 7); occ 11970 (AddAddressReceived (mk_add_address 8 (address 3) 100) 77);
   occ 11980 (PathResponseReceived true (address 3) 77 99)].
Definition after (n : nat) : list Moment * NatConn := replay false peer_id (take n events) [] start.

Lemma after_trace n : trace false peer_id (after n).1 (after n).2.
Proof.
  apply replay_trace; [|by constructor]. apply Forall_take. unfold events.
  repeat (apply Forall_cons; split; [split; [unfold instant_ok, CLOCK; simpl; unfold from_millis; lia|apply plain_env_ok]|]). constructor.
Qed.
End Sample.

(** ** What holds along every history *)

(** C13: Every PATH_CHALLENGE that NAT traversal sends, in any history of a connection, goes to an
    address with an acceptable IP.  Either the peer announced the address and it passed all checks,
    or it is a prediction from one that did, and the challenge is registered for exactly this
    address, so that the response is recognised; or it is the first target of a round, which
    passed all checks, and the peer has itself asked to punch in that round. *)
Theorem probes_checked al derive h c o c' sent dest token :
  trace al derive h c → instant_ok (at_ o) → EnvOk (env o) → step al derive o c = Some (c', sent) → (dest, token) ∈ sent →
  valid_ip al dest ∧ ∃ s, nat_traversal c' = Some s ∧ (candidate_probe al s dest token ∨ punch_probe al (asked h) s dest token).
Proof.
  intros Ht Hn He Hs Hin. assert (H' := trace_inv _ _ _ _ (trace_step _ _ h c o c' sent Ht Hn He Hs)). apply trace_inv in Ht.
  unfold step in Hs. destruct (event o) as [| | | | |built1 built2 ch| | | | | | | | |]; simplify_eq/=; try (by apply elem_of_nil in Hin);
    try (destruct (handle_nat_path_response _ _ _ _ _ _ _); simplify_eq/=; by apply elem_of_nil in Hin);
    try (destruct (send_nat_address_advertisement _ _ _ _) as [[]|]; simplify_eq/=; by apply elem_of_nil in Hin).
  destruct (poll_event_inv al (env o) _ _ (at_ o) Hn c Ht) as (c1 & E1 & H1). rewrite E1 in Hs. cbn [mbind option_bind] in Hs.
  pose proof (probe_sent al (env o) _ _ built1 built2 ch (at_ o) c1 dest token He Hn H1) as Hp.
  destruct (send_nat_traversal_challenge _ _ _ _ _ _) as [c2 p]. simplify_eq. destruct p as [p|]; [|by apply elem_of_nil in Hin].
  apply list_elem_of_singleton in Hin as <-. destruct (Hp eq_refl) as (s & Es & Hs). split; [|by eauto]. simpl in Es. specialize (H' s Es).
  destruct Hs as [(k & cand & Hk & <- & _)|(r & _ & _ & _ & Hv & _)]; [|by apply valid_addr_ip].
  apply (inv_remote _ _ _ _ (inv_all _ _ _ _ H') k cand Hk).
Qed.

Lemma probes_checked_witness : ∃ c' sent, step false Sample.peer_id (Sample.occ 11950 (PollTransmit true true 44)) (Sample.after 12).2 = Some (c', sent)
  ∧ sent = [(Sample.address 3, 0)] ∧ valid_ip false (Sample.address 3)
  ∧ ∃ s, nat_traversal c' = Some s ∧ (candidate_probe false s (Sample.address 3) 0 ∨ punch_probe false (asked (Sample.after 12).1) s (Sample.address 3) 0).
Proof.
  destruct (step false Sample.peer_id (Sample.occ 11950 (PollTransmit true true 44)) (Sample.after 12).2) as [[c' sent]|] eqn:Es; [|by vm_compute in Es].
  exists c', sent. split; [done|]. assert (Hs : sent = [(Sample.address 3, 0)]).
  { assert (E : snd <$> Some (c', sent) = Some [(Sample.address 3, 0)]) by (rewrite <- Es; vm_compute; reflexivity). by injection E. }
  split; [done|]. apply (probes_checked false Sample.peer_id _ _ _ _ _ (Sample.address 3) 0 (Sample.after_trace 12)) in Es; [done|..].
  - unfold instant_ok, CLOCK; simpl; unfold from_millis; lia.
  - apply plain_env_ok.
  - rewrite Hs. by left.
Defined.







(** ** What the code does not do *)

Definition state_after (n : nat) : NatTraversalState :=
  default (NatTraversal.new 50 (from_secs 10) false 0) (nat_traversal (Sample.after n).2).

(** The challenge of a punch is not registered: the response to it is refused. *)
Example punch_response_refused :
  snd <$> (step false Sample.peer_id (Sample.occ 11950 (PollTransmit true true 44)) (Sample.after 12).2) = Some [(Sample.address 3, 0)]
  ∧ snd <$> handle_validation_success plain_env (Sample.address 3) 0 (from_millis 11980) (state_after 13) = Some (Err NoActiveValidation).
Proof. split; vm_compute; reflexivity. Qed.

(** A validation counts as succeeded when it starts. *)
Example success_counted_at_start :
  validations_succeeded (stats (state_after 3)) = 1 ∧ is_Some (active_validations (state_after 3) !! Sample.address 3).
Proof. split; [vm_compute; reflexivity|]. apply not_eq_None_Some. by vm_compute. Qed.

(** The first round cannot be started: without a round, initiating one does nothing. *)
Example first_round_not_started :
  initiate_nat_traversal_coordination plain_env Z.of_nat (from_millis 2000) (Sample.after 7).2 = ((Sample.after 7).2, Ok tt)
  ∧ coordination (state_after 7) = None ∧ candidate_pairs (state_after 7) ≠ [].
Proof. split_and!; [vm_compute; reflexivity..|]. by vm_compute. Qed.

(** A candidate whose validation expires stays in the state [Validating], in which no validation
    can be started for it again. *)
Example expired_stays_validating :
  let c := default Sample.start (polls [(from_secs 40, plain_env); (from_secs 70, plain_env); (from_secs 100, plain_env); (from_secs 130, plain_env)]
             (Sample.after 9).2) in
  validation (Sample.address 3) c = None
  ∧ (s ← nat_traversal c; cstate <$> remote_candidates s !! 7) = Some Validating
  ∧ (s ← nat_traversal c; Some (start_validation 7 1 (from_secs 140) s).2) = Some (Err InvalidCandidateState).
Proof. split_and!; vm_compute; reflexivity. Qed.

(** A response for a candidate that was removed and announced anew makes the removed one valid. *)
Example removed_candidate_revived :
  (cstate <$> remote_candidates (state_after 15) !! 7, cstate <$> remote_candidates (state_after 15) !! 8) = (Some Removed, Some New)
  ∧ (cstate <$> remote_candidates (state_after 16) !! 7, cstate <$> remote_candidates (state_after 16) !! 8) = (Some CValid, Some New).
Proof. split; vm_compute; reflexivity. Qed.

End NatHistory.
