(* ===== verification/NatRelay.v ===== *)
(** * The way of a PUNCH_ME_NOW frame

    From the connection of the sender, where the coordinator checks it, over the table of peers of
    the endpoint, to the connection of the target, where it begins a round. *)

From stdpp Require Import gmap list.
From S2P Require Import Prelude Coding NatFrames NatSecurity NatTimeouts NatTraversal NatInvariants NatConnection NatProperties.

Module Relay.
Import NatFrames Net Security NatTraversal SecurityProofs NatConnection EndpointRelay.

(** A request that is not suspicious always begins a round, whatever round there was before. *)
Lemma peer_request_begins r now s : is_peer_coordination_suspicious r s = false →
  (handle_peer_punch_request r now s).2 = Ok true
  ∧ ∃ c, coordination (handle_peer_punch_request r now s).1 = Some c
    ∧ c_round c = r ∧ phase c = Preparing ∧ peer_punch_received c = true.
Proof.
  intros Hs. unfold handle_peer_punch_request. rewrite Hs. destruct (coordination s) as [c|] eqn:Ec.
  - destruct (phase c) eqn:Ep; simpl; try (split; [done|]; by eexists);
      (destruct (Z.eqb_spec (c_round c) r) as [Er|Er]; simpl;
       [rewrite Ec, Ep, (proj2 (Z.eqb_eq _ _) Er); simpl; split; [done|]; by eexists|split; [done|]; by eexists]).
  - rewrite Ec. split; [done|]. by eexists.
Qed.

Lemma find_by_wire_id_spec n target slots ch : find_by_wire_id n target slots = Some ch →
  ∃ m, (n ≤ ch)%nat ∧ mjoin (slots !! (ch - n)%nat) = Some m ∧ wire_id_from_addr (meta_remote m) = target.
Proof.
  revert n. induction slots as [|slot slots IH]; intros n; simpl; [done|]. destruct slot as [m|].
  - destruct (decide _) as [Hw|].
    + intros [= <-]. exists m. by rewrite Nat.sub_diag.
    + intros (m' & Hle & Hl & Hw)%IH. exists m'. replace (ch - n)%nat with (S (ch - S n)) by lia. split_and!; [lia|done..].
  - intros (m' & Hle & Hl & Hw)%IH. exists m'. replace (ch - n)%nat with (S (ch - S n)) by lia. split_and!; [lia|done..].
Qed.

(** The connection a target names: by the peer that was registered, or else by its address. *)
Definition designated (target : list Z) (e : Endpoint) (ch : nat) : Prop :=
  ∃ m, connection ch e = Some m
  ∧ (peer_connections e !! target = Some ch ∨ peer_connections e !! target = None ∧ wire_id_from_addr (meta_remote m) = target).

Definition delivered (frame : PunchMeNow) : PunchMeNow :=
  mk_punch_me_now (round frame) (paired_with_sequence_number frame) (pm_address frame) None.

Lemma relay_event target f source e :
  handle_event (RelayPunchMeNow target f source) e = e
  ∨ ∃ ch, designated target e ch
    ∧ pending_relay_events (handle_event (RelayPunchMeNow target f source) e) = pending_relay_events e ++ [(ch, delivered f)].
Proof.
  simpl. unfold relay_target, lookup_peer_connection, relay_frame_to_connection. destruct (peer_connections e !! target) as [ch|] eqn:Ep.
  - destruct (connection ch e) as [m|] eqn:Em; [|by left]. right. exists ch. split; [|done]. exists m. by auto.
  - destruct (find_by_wire_id 0 target (connections e)) as [ch|] eqn:Ef; [|by left].
    apply find_by_wire_id_spec in Ef as (m & _ & Hm & Hw). rewrite Nat.sub_0_r in Hm. unfold connection. rewrite Hm.
    right. exists ch. split; [|done]. exists m. by auto.
Qed.

Lemma run_snoc os o b : (Coordinator.run (os ++ [o]) b).2 = (Coordinator.run os b).2 ++ (Coordinator.step o (Coordinator.run os b).1).2.
Proof.
  revert b. induction os as [|x os IH]; intros b; simpl.
  - destruct (Coordinator.step o b) as [b1 r]. simpl. by rewrite app_nil_r.
  - destruct (Coordinator.step x b) as [b1 r]. specialize (IH b1). destruct (Coordinator.run (os ++ [o]) b1) as [b2 rs].
    destruct (Coordinator.run os b1) as [b3 rs']. simpl in *. by rewrite IH, app_assoc.
Qed.

(** What the coordinator lets through after any history has been checked. *)
Lemma reachable_relay al last os keys now from source frame f :
  let o := Coordinator.mk_occurrence now keys (Coordinator.Punch from source frame) in
  Coordinator.ordered last (os ++ [o]) →
  (Bootstrap.process_punch_me_now_frame keys from source frame now (Coordinator.run os (Bootstrap.new al)).1).2 = Ok (Some f) →
  frame_checked al from source frame ∧ delivered f = delivered frame.
Proof.
  intros o Ho Hf. destruct (Coordinator.coordinator_run_inv (os ++ [o]) al last [] (Bootstrap.new al) [] Ho) as (last' & plog & _ & Hok & _).
  { split_and!; [apply new_sec_ok|done|apply sublist_nil_l|done]. }
  rewrite run_snoc in Hok. unfold Coordinator.step, o in Hok. simpl in Hok. destruct (Bootstrap.process_punch_me_now_frame _ _ _ _ _ _) as [b r]. simpl in Hf, Hok. subst r.
  apply Forall_app in Hok as [_ Hok]. rewrite Forall_singleton in Hok. destruct Hok as (H1 & _ & H2). simpl in *. split; [done|]. by rewrite H2.
Qed.


(** The coordinator of the sample, on a connection of an endpoint with two others. *)
Definition sample_conn : NatConn :=
  mk_conn (Some (NatTraversal.new 50 (from_secs 10) false 0)) Coordinator.sample_source None false None [] [] [] [] None None.
Definition sample_id (_ : SocketAddr) : list Z := Coordinator.sample_peer 1.
Definition sample_frame : PunchMeNow := Coordinator.sample_punch Coordinator.sample_source 2.

Definition sample_endpoint : Endpoint :=
  mk_endpoint [Some (mk_meta Coordinator.sample_source None); Some (mk_meta (V4 [81; 2; 69; 99] 4433) (Some (Coordinator.sample_peer 2)))]
    {[Coordinator.sample_peer 2 := 1%nat]} [] [] [] 0.


End Relay.
